(* ===== verification/_CoqProject ===== *)
-Q . S2P
Prelude.v
RustStd.v
RustCollections.v
RustFloat.v
RustFormat.v
RustNet.v
RadiusPacket.v
RadiusPacketSpec.v
AccountingEvent.v
AccountingEventSpec.v
ShapedDevice.v
MacMatch.v
SessionTypes.v
SessionMetadata.v
SessionStore.v
SessionCommands.v
SessionMetadataSpec.v
SessionIndex.v
SessionStoreSpec.v
SessionCommandsSpec.v
SessionProperties.v
Listener.v
RadiusService.v
RadiusServiceSpec.v
ApplicationError.v
DynamicCircuitApplication.v
DynamicCircuitApplicationSpec.v
ApplicationClean.v
ApplicationRuns.v
ApplicationDiagnostics.v
ApplicationDrain.v
QdiscHandles.v
QdiscHandlesSpec.v
ClassPlanner.v
ClassPlannerSpec.v
ClassPlannerProperties.v
TopLevelPlanner.v
TopLevelPlannerSpec.v
TreeGuardTypes.v
TreeGuardDecisions.v
TreeGuardCircuits.v
TreeGuardCircuitsSpec.v
TreeGuardSweep.v
TreeGuardLinks.v
TreeGuardLinksSpec.v
TcHandle.v
SysIpMapping.v
StormguardConfig.v
BakeryCommands.v
BakeryPlan.v
BakeryCommandsSpec.v
BakeryExecute.v
BakeryExecuteSpec.v
BakeryDrain.v
BakeryPlanSpec.v
Overrides.v
OverridesSpec.v
StormguardSite.v
StormguardDecisions.v
StormguardActions.v
StormguardTracker.v
StormguardSpec.v
BakeryDiff.v
BakeryStormguard.v
BakeryStormguardSpec.v
StormguardLive.v
BakeryHandles.v
BakeryTelemetry.v
BakeryReload.v
BakeryReloadSpec.v
BakeryLazy.v
BakeryLazySpec.v
BakeryMappings.v
BakeryMappingsSpec.v
BakeryMigration.v
BakeryMigrationSpec.v
BakeryOverlays.v
BakeryOverlaysSpec.v
BakeryCommit.v
BakeryCommitSpec.v
