(* ===== verification/Prelude.v ===== *)
(** * LibreQoS: dynamic circuits, the planning of shaping queues and the queue tree on the host

    LibreQoS shapes the traffic of an ISP's subscribers.  Its RADIUS service learns subscribers from
    the accounting stream of the network access servers (NASes) and turns every session that can be
    shaped into a dynamic circuit, which the daemon applies to the running shaper.  The planner places
    nodes on queues and gives every node and circuit a class identity.  The Bakery turns the wanted tree
    into [tc] commands, runs them, and keeps the live tree in step with it: it reloads the whole tree or
    changes it live, gives qdiscs their handles, creates queues when they are used and moves circuits
    without interrupting them.  StormGuard adapts the rates of congested sites, TreeGuard saves CPU time
    while circuits and links are idle, and override files carry what operators and these two decided.
    This library models, from the Rust sources under [src/src/rust], the crates [lqos_radius],
    [lqos_stormguard] and the core of [lqos_bakery], the RADIUS service and the TreeGuard of [lqosd], the
    queue planner of [lqos_config] and the override files of [lqos_overrides], with the parts of
    [lqos_config], [lqos_bus] and [lqos_utils] they build on, and proves what makes them correct.

    ** The program and its model

    A datagram travels through the components in this order:
<<
      UDP datagram
        -> listener      which trusted client sent it?          lqos_radius/listener.rs
        -> packet        framing, request authenticators        lqos_radius/packet.rs
        -> event         typed Accounting-Request attributes    accounting_event.rs, attribute_type.rs
        -> session store key resolution, merge, lifecycle       lqos_radius/session.rs
        -> metadata      addresses, rates, parent, matched row  session.rs, mac_match.rs
        -> intents       create / update / remove a circuit     session.rs, dynamic_circuit.rs
        -> service       deadlines, expiry, diagnostics         lqosd/radius_accounting.rs
        -> application   queue, owners, bus requests            lqosd/radius_accounting.rs
      The wanted tree of queues
        -> placement     top-level nodes on queues              lqos_config/planner.rs
        -> identities    class minors and majors                lqos_config/planner.rs
        -> handles       qdisc majors, kept across restarts     lqos_bakery/qdisc_handles.rs
        -> commands      argument lists, rates, quanta          lqos_bakery/commands.rs, queue_math.rs
        -> plan          budget of qdiscs, mapped circuits      lqos_bakery/lib.rs, utils.rs
        -> diff          what changed since the last commit     lqos_bakery/diff/
        -> execution     chunks, memory guard, failures         lqos_bakery/utils.rs
        -> reload        drain, roots, batch, classifier        lqos_bakery/lib.rs
        -> lazy queues   activation on use, expiry              lqos_bakery/lib.rs
        -> mappings      addresses to classes                   lqos_bakery/lib.rs
        -> migration     shadow, swap, final, swap, teardown    lqos_bakery/lib.rs
        -> overlays      dynamic circuits, live and in batches  lqos_bakery/lib.rs
      A tick of StormGuard
        -> site state    readings, saturation, recommendation   lqos_stormguard/site_state/
        -> tracker       rates within bounds, persistence       lqos_stormguard/site_state.rs
        -> Bakery        class batches, resets, rollbacks       lqos_bakery/lib.rs
      A tick of TreeGuard
        -> decisions     idle? busy? within the limits?         lqosd/treeguard/decisions.rs, state.rs
        -> circuits      CAKE or fq_codel, override, live call  lqosd/treeguard/actor.rs
        -> links         which nodes become virtual             lqosd/treeguard/actor.rs
>>
    Each component is one file of definitions, and where its theory is large further files of
    theorems.

    - [RustStd]: what the sources use of the standard library: machine integers, UTF-8 and
      [from_utf8_lossy], [trim], [split], numeric parsing, IP addresses, [f32], and SipHash-1-3 as
      [DefaultHasher] runs it ([lqos_utils::hash_to_i64]).
    - [RustCollections]: iteration of [BTreeMap] and [BTreeSet] in key order, the entry operations on
      maps of sets, sorting, saturating arithmetic, and integers printed and parsed.
    - [RustFloat]: [f32] and [f64], binary32 and binary64 of [SpecFloat].
    - [RustFormat]: [format!] of integers, floats and hexadecimal, with bounds on the rounding of floats.
    - [RustNet]: [IpAddr::from_str].
    - [RadiusPacket], [RadiusPacketSpec]: [packet.rs].  [parse_packet], [verify_accounting_request],
      [build_accounting_response] and their errors.
    - [AccountingEvent], [AccountingEventSpec]: [accounting_event.rs] and [attribute_type.rs].
      [from_verified] and every value decoder, MikroTik Vendor-Specific attributes included.
    - [ShapedDevice]: the row of [lqos_config/src/shaped_devices], [refresh_hashes], and the rate
      validation of [lqos_config/src/etc/v15/radius_accounting.rs].
    - [MacMatch]: [mac_match.rs].  MAC normalisation, the matcher and its equivalence with a search.
    - [SessionTypes]: the data of [session.rs] and the intents of [dynamic_circuit.rs].
    - [SessionMetadata], [SessionMetadataSpec]: the pure part of [session.rs], from a decoded event to
      a shaped device or to the reasons why the session stays pending.
    - [SessionStore]: the state of [session.rs], [AccountingSessionStore], as a record of the session
      map, its three lookup indexes and its counters, with [apply_event] in all its variants and all
      they call.
    - [SessionCommands]: the operations that call the sink, expiry, and the diagnostic snapshots.
    - [SessionIndex], [SessionStoreSpec], [SessionCommandsSpec]: coherence of the indexes, the store
      invariant, the exact effect of an event, and the ledger of intents.
    - [SessionProperties]: the theorems about all runs of the store.
    - [Listener]: [listener.rs], trusted clients and [receive_next_verified], the
      handling of one datagram.
    - [RadiusService], [RadiusServiceSpec]: [RadiusAccountingSessions] and [RadiusExpiryTimer] of
      [lqosd/src/radius_accounting.rs], with [loop_turn], a turn of the listener loop.
    - [ApplicationError]: outcomes of bus requests, and the texts that reach the diagnostics with
      secrets redacted.
    - [DynamicCircuitApplication]: [DynamicCircuitApplicationState], and the system of the sink that
      queues intents and the worker that applies them, as the step relation [step] over the critical
      sections of the source, with every bus outcome and every interleaving.
      [DynamicCircuitApplicationSpec], [ApplicationClean], [ApplicationRuns],
      [ApplicationDiagnostics] and [ApplicationDrain] prove its invariants, what holds at rest, its
      diagnostics and that it comes to rest.
    - [QdiscHandles], [QdiscHandlesSpec]: [lqos_bakery/src/qdisc_handles.rs], with the runs of the
      allocator over its operations and restarts.
    - [ClassPlanner], [ClassPlannerSpec], [ClassPlannerProperties]: class identities of
      [lqos_config/src/planner.rs].
    - [TopLevelPlanner], [TopLevelPlannerSpec]: the placement of top-level nodes in that file.
    - [TreeGuardTypes], [TreeGuardDecisions]: the configuration of TreeGuard with its validation
      ([lqos_config/src/etc/v15/treeguard.rs]), its state and errors, and its decisions.
    - [TreeGuardCircuits], [TreeGuardCircuitsSpec], [TreeGuardSweep]: the tick of a circuit in
      [treeguard/actor.rs] with its calls and reports, runs of ticks, and the batches of circuits.
    - [TreeGuardLinks], [TreeGuardLinksSpec]: subtree sizes and the selection of link changes there.

    - [TcHandle]: [lqos_bus/src/tc_handle.rs] and [lqos_utils/src/hex_string.rs].
    - [SysIpMapping]: the kernel's map of addresses in [lqos_sys/src/ip_mapping] over the bpf maps of
      [lqos_sys/src/bpf_map.rs], and what an address text names there.
    - [StormguardConfig]: [lqos_config/src/etc/v15/stormguard.rs] with its validation.
    - [BakeryCommands], [BakeryCommandsSpec]: the commands of [lqos_bakery/src/commands.rs] and their
      argument lists, for builds and for deletions, with [queue_math.rs].
    - [BakeryPlan], [BakeryPlanSpec]: classification of commands, the estimate of the qdisc budget, the
      limit of mapped circuits, and the parsers of live classes and of memory figures.
    - [BakeryExecute], [BakeryExecuteSpec]: [execute_in_memory_chunked] and how its output is judged.
    - [BakeryDrain]: the deletions that empty the managed tree, and their order.
    - [BakeryDiff]: [diff/circuits.rs] and [diff/sites.rs].
    - [BakeryStormguard], [BakeryStormguardSpec]: the commands of StormGuard in the main loop, with the
      retained planned rates.
    - [BakeryHandles]: the handles of circuit commands in a reload or a live change.
    - [BakeryTelemetry]: mode, progress, last apply, alerts and the log of events.
    - [BakeryReload], [BakeryReloadSpec]: [full_reload] with all it calls, from the preparation of the
      roots to the swap of the state, and the classifier bypass around it.
    - [BakeryLazy], [BakeryLazySpec]: [handle_circuit_activity] and [handle_tick].
    - [BakeryMappings], [BakeryMappingsSpec]: the mirror of the kernel's map of addresses, its commits,
      and [remap_migration_ips] with its rollback, on the map of [SysIpMapping].
    - [BakeryMigration], [BakeryMigrationSpec]: live migrations as a state machine, from
      [queue_runtime_migration] to the ticks of [process_pending_migrations].
    - [BakeryOverlays], [BakeryOverlaysSpec]: the overlays of the dynamic circuits that the RADIUS service
      asks for, live and in batches, and live changes of the speeds of a site.
    - [BakeryCommit], [BakeryCommitSpec]: [handle_commit_batch], which compares a batch with the state and
      reloads the tree or changes it live.
    - [Overrides], [OverridesSpec]: [overrides_file.rs], every operation and the merge of the layers.
    - [StormguardSite], [StormguardDecisions]: the state of a site and its recommendations;
      [StormguardActions], [StormguardTracker]: the tracker, what it asks of the Bakery and what it
      persists; [StormguardSpec]: their theorems; [StormguardLive]: the tracker composed with the Bakery
      over its channel, with [wait_for_bakery_reply] and its deadline.

    The interfaces between them are type classes: [RadiusDigest] (the md5 and hmac crates),
    [IpNetworkCrate] (the ip_network crate), [DynamicCircuitCommandSink] (the trait of
    [dynamic_circuit.rs]) and [RustOrd] (the order of keys).  The host of the Bakery is a type of worlds
    with what is asked of it: [TcHost] (running batches), [TcShow] and [ReloadHost] (listings, clocks, the
    classifier switch), [FaultHost] (injected faults), [MapHost] and [MapBus] (the map of addresses;
    [sys_map_host] is [MapHost] by way of [lqos_sys], over the system calls [BpfFs] and [BpfTable]);
    [SgEnv] is what StormGuard measures and persists.  What a world is like inside is seen only through
    [TcLive], [TcObjects], [HtbRates], [ClassifyBypass] and [IpMapView].  A theorem that relies on the
    behaviour of such a part takes its laws class ([RadiusDigestLaws], [IpNetworkLaws], [TcHostLaws],
    [ReloadLaws], [FaultLaws], [TcObjectLaws], [HtbRatesLaws], [IpMapLaws]) as its hypothesis and has a
    witness at a concrete instance.  The laws are those of [tc], of the kernel and of crates: they speak
    of commands, of what [tc] prints and of system calls, and not of how the program reads them.

    ** What the theorems show

    - Authenticity: an accepted request carries the RFC 2866 authenticator and, where required, the
      RFC 2869 Message-Authenticator over its own bytes ([verify_accepts_only_authentic]); a correctly
      signed one is accepted; the response is correctly signed and echoes Proxy-State; the listener
      answers nothing else, and never with more bytes than it received.
    - Framing: the parser is the exact inverse of the encoder ([parse_packet_iff_encoding]), its errors
      name the defect the datagram has, and each datagram has one outcome.
    - The store over all runs: the invariant of the indexes ([store_invariant]); key resolution through
      the indexes equals a search of all sessions; the exact change an event makes and its frame;
      isolation between NASes; no circuit is leaked; the intents of one event; the sink only listens;
      counters and diagnostics are accurate.  Runs are the inductive predicate [reachable] of
      [SessionCommandsSpec], a step for each public operation that changes the store, and the proofs
      are by rule induction.
    - Metadata: a session is shapeable exactly when no pending reason is left, circuit identifiers
      separate subscribers and NASes, and sparse updates keep the last known values.
    - Decoders: exact characterisations of MAC normalisation, identity matching, event extraction,
      IPv6 prefixes, MikroTik rates with their 64-bit overflow, and configured sources and clients.
    - The service: no session outlives its deadline, expiry is exact and in order, sessions, update
      times and diagnostics agree in every run of the loop.
    - The application of circuits: under every interleaving the session in force for a circuit is its
      authoritative owner and changes only by a removal; when everything was queued and acknowledged
      the circuits follow the last intents; the worker comes to rest within a bound; failed
      applications replace the diagnostics of their circuits.  Four theorems exhibit runs in which the
      code does less than it means to ([overflowed_removal_is_undone],
      [overflowed_removal_can_be_stranded], [rekeyed_removal_takes_another_owner],
      [stop_of_merged_session_leaks]), and a fifth an order that is not kept
      ([retained_sequence_is_renewed]).
    - Handles: they never collide, assignment is exact, a rotated handle rests, and handles survive a
      restart.
    - The planner: class identities are unique on their queue, unmoved classes keep their identity from
      plan to plan, the search for a free minor terminates at the least one; placement is total, within
      its bins and its budget of moves ([spread_ignores_cooldown] shows the one move that does not wait).
    - TreeGuard: a direction managed on its own switches no faster than its dwell and hourly limit, and
      to fq_codel only after a whole idle period; a tick makes exactly the calls that put the profiles in
      place; the links selected in a tick are few, restores first and never nested; subtree sizes are
      exact; every circuit is visited within a sweep; the configuration accepted is the one in range.
      [combined_directions_switch_without_limit] shows that directions managed together have no limit.
    - Execution: a batch reported as done had the effect of every command in order, otherwise of a
      subsequence ([executed_batch_takes_effect]); pruning a circuit undoes its build; the drain deletes
      every managed class once and children first; the estimate counts each qdisc once; the limit of
      mapped circuits and both diffs are exact; the divisor search ends; handles print and parse back.
    - Reloads: a reload either installs exactly the batch it built or keeps the state and asks for
      another one, and its scope and the classifier are left in order ([reload_is_safe]); the handles it
      gives are dynamic, unreserved and unshared ([reload_handles_are_fresh]).
    - Lazy queues: without failed changes and steps back of the clock the activated circuits are those of
      an abstract log of last activities, and their qdiscs are live exactly then
      ([lazy_queues_follow_activity]).
    - Mappings: whatever call fails, moving addresses leaves mirror and kernel map in agreement and every
      address where it was or at the target, all of them on success and none when the rollback succeeds
      ([remap_is_all_or_nothing]; [rollback_of_new_mapping_fails] shows when it never does); a commit leaves
      exactly the staged mappings and those of unknown origin ([mapping_commit_is_exact]).
    - Migrations: addresses move only to classes that the live tree was seen to have, and a circuit is
      recorded at its new place exactly when its addresses are there, by rule induction over the steps
      ([migration_moves_only_after_verification]); every pending migration ends, by a measure that each
      tick lowers ([pending_migrations_finish]).
    - Dynamic circuits: additions are exact on every branch ([dynamic_upsert_is_exact]), appending them to a
      batch is exact ([overlay_batch_is_exact]), and over any run no two circuits on a queue share a class
      ([dynamic_circuits_keep_classes_distinct]); a change of site speeds is recorded only when it took
      effect or the tree is not live ([site_speed_change_outcome]).
    - Commits: the live changes of a commit return whatever the kernel answers; they leave by a full
      reload or, without a layout of the queues, at the first change that needs one; otherwise every
      circuit is as the batch has it or on its way there, but for exceptions that the theorem names
      ([commit_follows_batch]).
    - StormGuard: rates stay between their bounds, recommendations are justified, class batches are all
      or nothing, resets restore the planned rates, and the rates the tracker believes are those of the
      live classes ([tracker_rate_is_live_rate]).
    - Overrides: the merged layers and the setting of site speeds are exact.
    - Where this code does less than it means to, a lemma shows it on an input or in general:
      [oversized_major_without_colon], [zero_decrease_multiplier_accepted],
      [default_class_rate_truncates], [second_estimate_misses_roots], [padded_entry_blocks_exclusion],
      [minimum_rounds_past_maximum], [htb_mode_sqm_change_runs_no_qdisc],
      [failed_activation_is_not_retried], [full_mode_builds_everything], [clock_step_back_expires],
      [early_seed_knows_nothing], [unknown_mapping_survives_commit], [stale_ipv6_network_names_a_host],
      [shadow_may_be_the_final_class], [failed_addition_is_acknowledged], [lazy_removal_leaves_class],
      [removed_lazy_circuit_leaves_classes], [removed_circuit_comes_back], [new_addresses_are_lost].

    ** Representation

    A machine integer is a [Z] with its wrap-around, saturation or overflow check written out; a
    [usize] length or index is a [nat]; a byte is a [Z] with [byte_ok].  A string is the list of its
    Unicode scalar values, with its UTF-8 bytes where the source uses bytes.  [HashMap] and [HashSet]
    are [gmap] and [gset]; iteration goes through [map_to_list] and [elements], and where the source's
    result could depend on the order a theorem shows that it does not ([key_resolution_is_search]).
    [BTreeMap] and [BTreeSet] are [gmap] and [gset] iterated through [btree_iter], in key order.
    [&mut self] is explicit state passing, [Result] is the type [result] below with its monad, [f32]
    and [f64] are binary32 and binary64 of [SpecFloat].  A mutex is a step of the relation for each
    critical section.

    Loops that are not structural are written with Equations and well-founded recursion, so they are
    total without fuel, except: [sip_words] consumes eight bytes a step and gets the number of bytes;
    [read_groups] reads one group a step and gets the number of groups an address can have;
    [scan_loop] runs over a range of handles and gets its length; [next_free_loop] gets one step more
    than there are reserved minors; [dfs] and [ancestor_loop] get one more than there are nodes, and so
    does [class_depth] for the classes of a snapshot; [chunks_loop] and [stale_chunks] get the length of
    the list; [first_free] gets the length of its range; [r2q_loop] gets [r2q_fuel].  None can run out:
    [next_free_minor_terminates] says so for minors, [r2q_is_first_divisor] for the divisor,
    [stale_chunks_spec] for chunks, and for trees whose parents come before their children
    [subtree_counts_are_exact] and [link_selection_is_safe] say that the result is the intended one.

    ** What is not modelled

    Sockets are the environment of [receive_next_verified]: what [recv_from] returned and [send_to]
    would return are arguments.  The bus and its replies are the environment of the application, files
    and their JSON that of the handle allocator and of the override files, the kernel, [tc] and the
    clocks that of the Bakery.  Debug formatting and logging are left out.

    Outside this library are, of the Bakery, the virtualisation of nodes with its deferred pruning (a
    commit reads its result only, and that a reload forgets it is not shown); the tick of TreeGuard around
    what is modelled and its pending link operations; of [lqos_config], files, [network.json] and CPU
    assignment; the trackers of throughput, flows, RTT and queues; and the compilation of topologies.
    They compose modelled operations over further state, or read and write formats.  The XDP programs, packet capture, the web and terminal front ends, the Python bindings and
    the vendor integrations are input and output around the program. *)

From stdpp Require Export base tactics list gmap sets option numbers.
From stdpp Require Export list_numbers.
From Stdlib Require Export ZArith Lia.

#[global] Set Default Goal Selector "!".
Global Open Scope Z_scope.

(** ** The error type *)

(** Rust's [Result<A, E>]. *)
Inductive result (E A : Type) : Type :=
| Ok (a : A)
| Err (e : E).
Arguments Ok {E A} a.
Arguments Err {E A} e.

(** The [?] operator is monadic bind. *)
#[export] Instance result_ret {E} : MRet (result E) := fun A a => Ok a.
#[export] Instance result_bind {E} : MBind (result E) :=
  fun A B f r => match r with Ok a => f a | Err e => Err e end.
#[export] Instance result_fmap {E} : FMap (result E) :=
  fun A B f r => match r with Ok a => Ok (f a) | Err e => Err e end.

(** [Result::map_err]. *)
Definition map_err {E F A} (f : E -> F) (r : result E A) : result F A :=
  match r with Ok a => Ok a | Err e => Err (f e) end.

(** [Result::ok]. *)
Definition result_ok {E A} (r : result E A) : option A :=
  match r with Ok a => Some a | Err _ => None end.

Lemma result_bind_Ok {E A B} (f : A -> result E B) (r : result E A) b :
  r ≫= f = Ok b <-> exists a, r = Ok a /\ f a = Ok b.
Proof. destruct r; cbn; naive_solver. Qed.

Lemma result_bind_Err {E A B} (f : A -> result E B) (r : result E A) e :
  r ≫= f = Err e <-> r = Err e \/ exists a, r = Ok a /\ f a = Err e.
Proof. destruct r; cbn; naive_solver. Qed.

#[export] Instance result_eq_dec {E A} `{EqDecision E, EqDecision A} : EqDecision (result E A).
Proof. solve_decision. Defined.

(** A value with the equation that defines it, for the recursive definitions. *)
Definition inspect {A} (a : A) : { b : A | a = b } := exist _ a eq_refl.

(** ** Automation *)

Create HintDb rust.

(** Proves a closed decidable proposition by evaluation. *)
Ltac by_compute :=
  match goal with |- ?P => refine (bool_decide_eq_true_1 P _); vm_compute; reflexivity end.

(** Linear arithmetic with division and remainder by constants. *)
Ltac dlia := zify; Z.to_euclidean_division_equations; lia.

(** Splits every [match] and [if] of the goal and closes the absurd cases. *)
Ltac split_cases := repeat (case_match; simplify_eq/=; try done).

(** Turns boolean tests in the context into propositions. *)
Ltac to_prop :=
  repeat match goal with
  | H : _ && _ = true |- _ => apply andb_true_iff in H as [? ?]
  | H : _ || _ = false |- _ => apply orb_false_iff in H as [? ?]
  | H : negb _ = true |- _ => apply negb_true_iff in H
  | H : negb _ = false |- _ => apply negb_false_iff in H
  | H : bool_decide _ = true |- _ => apply bool_decide_eq_true in H
  | H : bool_decide _ = false |- _ => apply bool_decide_eq_false in H
  | H : (_ =? _) = true |- _ => apply Z.eqb_eq in H
  | H : (_ =? _) = false |- _ => apply Z.eqb_neq in H
  | H : (_ <=? _) = true |- _ => apply Z.leb_le in H
  | H : (_ <=? _) = false |- _ => apply Z.leb_gt in H
  | H : (_ <? _) = true |- _ => apply Z.ltb_lt in H
  | H : (_ <? _) = false |- _ => apply Z.ltb_ge in H
  | H : (_ <? _)%nat = true |- _ => apply Nat.ltb_lt in H
  | H : (_ <? _)%nat = false |- _ => apply Nat.ltb_ge in H
  | H : (_ <=? _)%nat = true |- _ => apply Nat.leb_le in H
  | H : (_ <=? _)%nat = false |- _ => apply Nat.leb_gt in H
  | H : (_ =? _)%nat = true |- _ => apply Nat.eqb_eq in H
  | H : (_ =? _)%nat = false |- _ => apply Nat.eqb_neq in H
  end.

(** ** Generic list operations shared by the components *)

(** [if !items.contains(&item) { items.push(item) }]. *)
Definition push_unique {A} `{EqDecision A} (items : list A) (item : A) : list A :=
  if bool_decide (item ∈ items) then items else items ++ [item].

Lemma elem_of_push_unique {A} `{EqDecision A} (items : list A) item x :
  x ∈ push_unique items item <-> x ∈ items \/ x = item.
Proof.
  unfold push_unique. case_bool_decide; [set_solver|].
  rewrite elem_of_app, list_elem_of_singleton. done.
Qed.

Lemma NoDup_push_unique {A} `{EqDecision A} (items : list A) item :
  NoDup items -> NoDup (push_unique items item).
Proof.
  intros Hnd. unfold push_unique. case_bool_decide as Hin; [done|].
  apply NoDup_app. split_and!; [done| |apply NoDup_singleton].
  intros x Hx ->%list_elem_of_singleton. done.
Qed.

Lemma push_unique_in {A} `{EqDecision A} (items : list A) item :
  item ∈ items -> push_unique items item = items.
Proof. intros Hin. unfold push_unique. by rewrite bool_decide_true. Qed.

Lemma push_unique_not_in {A} `{EqDecision A} (items : list A) item :
  item ∉ items -> push_unique items item = items ++ [item].
Proof. intros Hin. unfold push_unique. by rewrite bool_decide_false. Qed.

(** Pushing every element of a list, one after the other. *)
Definition push_all_unique {A} `{EqDecision A} (items more : list A) : list A :=
  fold_left push_unique more items.

Lemma elem_of_push_all_unique {A} `{EqDecision A} (more items : list A) x :
  x ∈ push_all_unique items more <-> x ∈ items \/ x ∈ more.
Proof.
  unfold push_all_unique. revert items.
  induction more as [|y more IH]; intros items; cbn; [set_solver|].
  rewrite IH, elem_of_push_unique. set_solver.
Qed.

Lemma NoDup_push_all_unique {A} `{EqDecision A} (more items : list A) :
  NoDup items -> NoDup (push_all_unique items more).
Proof.
  unfold push_all_unique. revert items.
  induction more as [|y more IH]; intros items Hnd; cbn; [done|].
  by apply IH, NoDup_push_unique.
Qed.

(** The loop
    [for x in l { if !p(x) { continue } if found.is_some() { return None } found = Some(x) } found],
    which returns an element only when it is the only one that satisfies [p]. *)
Fixpoint unique_match {A} (p : A -> bool) (found : option A) (l : list A) : option A :=
  match l with
  | [] => found
  | x :: l' =>
      if p x then
        match found with
        | Some _ => None
        | None => unique_match p (Some x) l'
        end
      else unique_match p found l'
  end.

(** What the loop computes: the single element of the filtered list. *)
Definition singleton_of {A} (l : list A) : option A :=
  match l with [x] => Some x | _ => None end.

Lemma unique_match_found {A} (p : A -> bool) l x :
  unique_match p (Some x) l = (if bool_decide (base.filter p l = []) then Some x else None).
Proof.
  induction l as [|y l IH]; cbn [unique_match]; [done|].
  rewrite IH. destruct (p y) eqn:Hy.
  - rewrite filter_cons_True by (rewrite Hy; exact I). done.
  - rewrite filter_cons_False by (rewrite Hy; cbn; tauto). done.
Qed.

Lemma unique_match_filter {A} (p : A -> bool) l :
  unique_match p None l = singleton_of (base.filter p l).
Proof.
  induction l as [|y l IH]; cbn [unique_match]; [done|].
  destruct (p y) eqn:Hy.
  - rewrite filter_cons_True by (rewrite Hy; exact I).
    rewrite unique_match_found. by destruct (base.filter p l).
  - rewrite filter_cons_False by (rewrite Hy; cbn; tauto). done.
Qed.

Lemma singleton_of_Permutation {A} (l l' : list A) :
  l ≡ₚ l' -> singleton_of l = singleton_of l'.
Proof.
  intros Hp. destruct l as [|x [|y l]].
  - by apply Permutation_nil_l in Hp as ->.
  - apply Permutation_singleton_l in Hp. by rewrite Hp.
  - assert (length l' = S (S (length l))) as Hlen by (by rewrite <- Hp).
    by destruct l' as [|x' [|y' l']].
Qed.

(** The result of the loop does not depend on the iteration order. *)
Lemma unique_match_Permutation {A} (p : A -> bool) l l' :
  l ≡ₚ l' -> unique_match p None l = unique_match p None l'.
Proof.
  intros Hp. rewrite !unique_match_filter.
  apply singleton_of_Permutation. by rewrite Hp.
Qed.

Lemma unique_match_Some {A} (p : A -> bool) l x :
  NoDup l ->
  unique_match p None l = Some x <->
  x ∈ l /\ p x = true /\ forall y, y ∈ l -> p y = true -> y = x.
Proof.
  intros Hnd. rewrite unique_match_filter. split.
  - destruct (base.filter p l) as [|z [|? ?]] eqn:Hf; cbn; intros Hs; simplify_eq.
    assert (forall y, y ∈ base.filter p l <-> y = x) as Hin by (rewrite Hf; set_solver).
    setoid_rewrite list_elem_of_filter in Hin.
    destruct (proj2 (Hin x) eq_refl) as [Hpx Hx].
    split_and!; [done|by destruct (p x)|].
    intros y Hy Hpy. apply Hin. by rewrite Hpy.
  - intros (Hx & Hpx & Huniq).
    assert (base.filter p l ≡ₚ [x]) as Hp.
    { apply NoDup_Permutation; [by apply NoDup_filter|apply NoDup_singleton|].
      intros y. rewrite list_elem_of_filter, list_elem_of_singleton. split.
      - intros [Hpy Hy]. apply Huniq; [done|]. by destruct (p y).
      - intros ->. by rewrite Hpx. }
    by rewrite (singleton_of_Permutation _ _ Hp).
Qed.

(** Two enumerations with the same matching elements give the same answer. *)
Lemma unique_match_ext {A} (p q : A -> bool) l l' :
  NoDup l -> NoDup l' ->
  (forall x, x ∈ l /\ p x = true <-> x ∈ l' /\ q x = true) ->
  unique_match p None l = unique_match q None l'.
Proof.
  intros Hl Hl' Hext. rewrite !unique_match_filter. apply singleton_of_Permutation.
  apply NoDup_Permutation; [by apply NoDup_filter..|].
  intros x. rewrite !list_elem_of_filter. specialize (Hext x).
  destruct (p x), (q x); naive_solver.
Qed.

Lemma elem_of_option_list {A} (o : option A) x : x ∈ option_list o <-> o = Some x.
Proof. destruct o; cbn; set_solver. Qed.
