(* ===== verification/RustStd.v ===== *)
(** * The parts of Rust's standard library the modelled crates use

    Machine integers are [Z] with their wrap-around written out, lengths and indices
    ([usize]) are [nat], bytes are [Z] in [0..256) ([byte_ok]).  A [String] is the list of its
    Unicode scalar values; [as_bytes] is its UTF-8 encoding, so [str::len] is [str_len].
    [from_utf8_lossy] follows the decoder of [String::from_utf8_lossy]: every maximal ill-formed
    subsequence becomes one U+FFFD.  [f32] is IEEE-754 binary32 from [SpecFloat]. *)

From S2P Require Import Prelude.
From Stdlib Require Import SpecFloat.
From Stdlib Require Ascii String.
Export String.StringSyntax.
Bind Scope string_scope with String.string.

(** ** Bytes and fixed-width integers *)

Definition byte_ok (b : Z) : Prop := 0 <= b < 256.
Definition bytes_ok (l : list Z) : Prop := Forall byte_ok l.

#[export] Instance byte_ok_dec b : Decision (byte_ok b).
Proof. unfold byte_ok. apply _. Defined.
#[export] Instance bytes_ok_dec l : Decision (bytes_ok l).
Proof. unfold bytes_ok. apply _. Defined.

(** [n as u8], [n as u16] for a [usize]. *)
Definition u8_of_usize (n : nat) : Z := Z.of_nat n mod 2 ^ 8.
Definition u16_of_usize (n : nat) : Z := Z.of_nat n mod 2 ^ 16.

(** [x.wrapping_add(1)], and [x += 1] of a release build, at 64 bits. *)
Definition u64_succ (x : Z) : Z := (x + 1) mod 2 ^ 64.

(** [u16::to_be_bytes], [u16::from_be_bytes], [u32::from_be_bytes]. *)
Definition u16_to_be_bytes (n : Z) : list Z := [n / 256 mod 256; n mod 256].
Definition u16_from_be_bytes (b0 b1 : Z) : Z := b0 * 256 + b1.
Definition u32_from_be_bytes (b0 b1 b2 b3 : Z) : Z :=
  ((b0 * 256 + b1) * 256 + b2) * 256 + b3.

(** [u32::count_ones]. *)
Definition u32_count_ones (n : Z) : nat :=
  length (base.filter (fun i : nat => Z.testbit n (Z.of_nat i) = true) (seq 0 32)).

(** [u64::checked_mul]. *)
Definition u64_checked_mul (a b : Z) : option Z :=
  if a * b <? 2 ^ 64 then Some (a * b) else None.

(** ** Options *)

(** [Option::filter], [Option::or]. *)
Definition option_filter {A} (p : A -> bool) (o : option A) : option A :=
  match o with Some a => if p a then Some a else None | None => None end.
Definition option_or {A} (o o' : option A) : option A :=
  match o with Some a => Some a | None => o' end.

(** [slice[i]] for an index the caller has checked; 0 where Rust would panic. *)
Definition byte_at (l : list Z) (i : nat) : Z := default 0 (l !! i).

(** [&slice[a..b]], and [dst[i..i + src.len()].copy_from_slice(src)]. *)
Definition slice (l : list Z) (a b : nat) : list Z := take (b - a) (drop a l).
Definition copy_at (dst : list Z) (i : nat) (src : list Z) : list Z :=
  take i dst ++ src ++ drop (i + length src) dst.

(** ** Strings *)

Abbreviation rchar := Z (only parsing).
Abbreviation rstring := (list Z) (only parsing).

(** A string literal of the source. *)
Definition str (s : String.string) : rstring :=
  map (fun a => Z.of_N (Ascii.N_of_ascii a)) (String.list_ascii_of_string s).

(** A Unicode scalar value. *)
Definition char_ok (c : Z) : Prop := 0 <= c < 0xD800 \/ 0xE000 <= c <= 0x10FFFF.

#[export] Instance char_ok_dec c : Decision (char_ok c).
Proof. unfold char_ok. apply _. Defined.

(** [char::encode_utf8] and [str::as_bytes]. *)
Definition utf8_encode_char (c : Z) : list Z :=
  if c <? 0x80 then [c]
  else if c <? 0x800 then [0xC0 + c / 64; 0x80 + c mod 64]
  else if c <? 0x10000 then [0xE0 + c / 4096; 0x80 + c / 64 mod 64; 0x80 + c mod 64]
  else [0xF0 + c / 262144; 0x80 + c / 4096 mod 64; 0x80 + c / 64 mod 64; 0x80 + c mod 64].
Definition as_bytes (s : rstring) : list Z := concat (map utf8_encode_char s).

(** [str::len]: the length in bytes. *)
Definition str_len (s : rstring) : nat := length (as_bytes s).

Definition in_range (lo b hi : Z) : bool := (lo <=? b) && (b <=? hi).

(** U+FFFD REPLACEMENT CHARACTER. *)
Definition REPLACEMENT_CHARACTER : Z := 0xFFFD.

(** The second byte a three- or four-byte sequence may have after its first byte. *)
Definition utf8_second3 (b b1 : Z) : bool :=
  ((b =? 0xE0) && in_range 0xA0 b1 0xBF) || (in_range 0xE1 b 0xEC && in_range 0x80 b1 0xBF)
  || ((b =? 0xED) && in_range 0x80 b1 0x9F) || (in_range 0xEE b 0xEF && in_range 0x80 b1 0xBF).
Definition utf8_second4 (b b1 : Z) : bool :=
  ((b =? 0xF0) && in_range 0x90 b1 0xBF) || (in_range 0xF1 b 0xF3 && in_range 0x80 b1 0xBF)
  || ((b =? 0xF4) && in_range 0x80 b1 0x8F).

(** [String::from_utf8_lossy]. *)
Fixpoint from_utf8_lossy (l : list Z) : rstring :=
  match l with
  | [] => []
  | b :: l0 =>
      if b <? 0x80 then b :: from_utf8_lossy l0
      else if in_range 0xC2 b 0xDF then
        match l0 with
        | b1 :: l1 =>
            if in_range 0x80 b1 0xBF
            then ((b - 0xC0) * 64 + (b1 - 0x80)) :: from_utf8_lossy l1
            else REPLACEMENT_CHARACTER :: from_utf8_lossy l0
        | [] => [REPLACEMENT_CHARACTER]
        end
      else if in_range 0xE0 b 0xEF then
        match l0 with
        | b1 :: l1 =>
            if utf8_second3 b b1 then
              match l1 with
              | b2 :: l2 =>
                  if in_range 0x80 b2 0xBF
                  then (((b - 0xE0) * 64 + (b1 - 0x80)) * 64 + (b2 - 0x80)) :: from_utf8_lossy l2
                  else REPLACEMENT_CHARACTER :: from_utf8_lossy l1
              | [] => [REPLACEMENT_CHARACTER]
              end
            else REPLACEMENT_CHARACTER :: from_utf8_lossy l0
        | [] => [REPLACEMENT_CHARACTER]
        end
      else if in_range 0xF0 b 0xF4 then
        match l0 with
        | b1 :: l1 =>
            if utf8_second4 b b1 then
              match l1 with
              | b2 :: l2 =>
                  if in_range 0x80 b2 0xBF then
                    match l2 with
                    | b3 :: l3 =>
                        if in_range 0x80 b3 0xBF
                        then ((((b - 0xF0) * 64 + (b1 - 0x80)) * 64 + (b2 - 0x80)) * 64
                              + (b3 - 0x80)) :: from_utf8_lossy l3
                        else REPLACEMENT_CHARACTER :: from_utf8_lossy l2
                    | [] => [REPLACEMENT_CHARACTER]
                    end
                  else REPLACEMENT_CHARACTER :: from_utf8_lossy l1
              | [] => [REPLACEMENT_CHARACTER]
              end
            else REPLACEMENT_CHARACTER :: from_utf8_lossy l0
        | [] => [REPLACEMENT_CHARACTER]
        end
      else REPLACEMENT_CHARACTER :: from_utf8_lossy l0
  end.

(** [char::is_ascii_digit], [char::is_ascii_hexdigit], [char::to_ascii_lowercase]. *)
Definition is_ascii_digit (c : rchar) : bool := in_range 48 c 57.
Definition is_ascii_hexdigit (c : rchar) : bool :=
  in_range 48 c 57 || in_range 65 c 70 || in_range 97 c 102.
Definition to_ascii_lowercase_char (c : rchar) : rchar := if in_range 65 c 90 then c + 32 else c.
Definition to_ascii_lowercase (s : rstring) : rstring := map to_ascii_lowercase_char s.

(** [char::is_whitespace]: the Unicode White_Space property. *)
Definition is_whitespace (c : rchar) : bool :=
  in_range 0x9 c 0xD || (c =? 0x20) || (c =? 0x85) || (c =? 0xA0) || (c =? 0x1680)
  || in_range 0x2000 c 0x200A || (c =? 0x2028) || (c =? 0x2029) || (c =? 0x202F)
  || (c =? 0x205F) || (c =? 0x3000).

Fixpoint drop_while (p : rchar -> bool) (s : rstring) : rstring :=
  match s with [] => [] | c :: s' => if p c then drop_while p s' else s end.
Fixpoint take_while (p : rchar -> bool) (s : rstring) : rstring :=
  match s with [] => [] | c :: s' => if p c then c :: take_while p s' else [] end.

(** [str::trim]. *)
Definition trim (s : rstring) : rstring :=
  reverse (drop_while is_whitespace (reverse (drop_while is_whitespace s))).

(** [str::is_empty], and [s.trim().is_empty()]. *)
Definition str_is_empty (s : rstring) : bool := match s with [] => true | _ => false end.
Definition is_blank (s : rstring) : bool := str_is_empty (trim s).

(** [str::contains] for a [char]. *)
Definition str_contains (s : rstring) (c : rchar) : bool := existsb (Z.eqb c) s.

(** [str::split]: one more piece than there are separators. *)
Fixpoint split_on (p : rchar -> bool) (s : rstring) : list rstring :=
  match s with
  | [] => [[]]
  | c :: s' =>
      if p c then [] :: split_on p s'
      else match split_on p s' with
           | g :: gs => (c :: g) :: gs
           | [] => [[c]]
           end
  end.
Definition split_char (s : rstring) (sep : rchar) : list rstring := split_on (Z.eqb sep) s.

(** [str::split_whitespace]: the non-empty pieces between whitespace. *)
Definition split_whitespace (s : rstring) : list rstring :=
  List.filter (fun g => negb (str_is_empty g)) (split_on is_whitespace s).

(** [str::split_once]. *)
Fixpoint split_once (s : rstring) (sep : rchar) : option (rstring * rstring) :=
  match s with
  | [] => None
  | c :: s' =>
      if c =? sep then Some ([], s')
      else match split_once s' sep with
           | Some (a, b) => Some (c :: a, b)
           | None => None
           end
  end.

(** The digit loop of [from_str_radix(_, 10)]: a digit that takes the value to [limit] or beyond
    is an overflow error. *)
Fixpoint parse_digits (limit acc : Z) (s : rstring) : option Z :=
  match s with
  | [] => Some acc
  | c :: s' =>
      if is_ascii_digit c then
        let acc' := acc * 10 + (c - 48) in
        if acc' <? limit then parse_digits limit acc' s' else None
      else None
  end.

(** [str::parse::<uN>] with [limit = 2^N]: a leading [+] is accepted, an empty digit string is not. *)
Definition parse_uint (limit : Z) (s : rstring) : option Z :=
  match s with
  | [] => None
  | c :: s' =>
      if c =? 43 then match s' with [] => None | _ => parse_digits limit 0 s' end
      else parse_digits limit 0 s
  end.

(** ** IP addresses *)

Inductive Ipv4Addr : Type := V4Octets (a b c d : Z).
Inductive Ipv6Addr : Type := V6Octets (octets : list Z).
Inductive IpAddr : Type := V4 (a : Ipv4Addr) | V6 (a : Ipv6Addr).

#[export] Instance Ipv4Addr_eq_dec : EqDecision Ipv4Addr.
Proof. solve_decision. Defined.
#[export] Instance Ipv6Addr_eq_dec : EqDecision Ipv6Addr.
Proof. solve_decision. Defined.
#[export] Instance IpAddr_eq_dec : EqDecision IpAddr.
Proof. solve_decision. Defined.

Definition ipv4_octets (a : Ipv4Addr) : list Z :=
  match a with V4Octets a b c d => [a; b; c; d] end.
Definition ipv6_octets (a : Ipv6Addr) : list Z := match a with V6Octets l => l end.

#[export] Program Instance Ipv4Addr_countable : Countable Ipv4Addr :=
  inj_countable' (fun '(V4Octets a b c d) => (a, b, c, d)) (fun '(a, b, c, d) => V4Octets a b c d) _.
Next Obligation. by intros []. Qed.
#[export] Program Instance Ipv6Addr_countable : Countable Ipv6Addr :=
  inj_countable' ipv6_octets V6Octets _.
Next Obligation. by intros []. Qed.

(** [u32::from(Ipv4Addr)]. *)
Definition ipv4_to_u32 (a : Ipv4Addr) : Z :=
  match a with V4Octets a b c d => u32_from_be_bytes a b c d end.

(** [Ipv4Addr::is_unspecified], [Ipv4Addr::is_multicast], and the IPv6 versions. *)
Definition ipv4_is_unspecified (a : Ipv4Addr) : bool := bool_decide (ipv4_octets a = [0; 0; 0; 0]).
Definition ipv4_is_multicast (a : Ipv4Addr) : bool :=
  match a with V4Octets a _ _ _ => in_range 224 a 239 end.
Definition ipv6_is_unspecified (a : Ipv6Addr) : bool := bool_decide (ipv6_octets a = replicate 16 0).
Definition ipv6_is_multicast (a : Ipv6Addr) : bool := byte_at (ipv6_octets a) 0 =? 255.

(** One octet of [Ipv4Addr::from_str]: one to three digits, no leading zero, at most 255. *)
Definition parse_ipv4_octet (s : rstring) : option Z :=
  match s with
  | [] => None
  | c :: s' =>
      if (3 <? length s)%nat then None
      else if (c =? 48) && negb (str_is_empty s') then None
      else parse_digits 256 0 s
  end.

(** [Ipv4Addr::from_str]. *)
Definition parse_ipv4 (s : rstring) : option Ipv4Addr :=
  match split_char s 46 with
  | [a; b; c; d] =>
      a ← parse_ipv4_octet a; b ← parse_ipv4_octet b;
      c ← parse_ipv4_octet c; d ← parse_ipv4_octet d; Some (V4Octets a b c d)
  | _ => None
  end.

(** ** Binary32 floating point *)

Definition f32 : Type := spec_float.
Definition f32_zero : f32 := S754_zero false.
Definition f32_of_u64 (n : Z) : f32 := binary_normalize 24 128 n 0 false.
Definition f32_div (x y : f32) : f32 := SFdiv 24 128 x y.
Definition f32_le (x y : f32) : bool := SFleb x y.
Definition f32_gt (x y : f32) : bool := SFltb y x.
Definition f32_is_finite (x : f32) : bool :=
  match x with S754_zero _ | S754_finite _ _ _ => true | _ => false end.

(** ** [std::hash::DefaultHasher]: SipHash-1-3 with zero keys *)

Definition u64_wrap (x : Z) : Z := x mod 2 ^ 64.
Definition u64_rotl (x b : Z) : Z := u64_wrap (Z.lor (Z.shiftl x b) (Z.shiftr x (64 - b))).

Definition sip_state : Type := Z * Z * Z * Z.

Definition sip_round (v : sip_state) : sip_state :=
  let '(v0, v1, v2, v3) := v in
  let v0 := u64_wrap (v0 + v1) in
  let v2 := u64_wrap (v2 + v3) in
  let v1 := Z.lxor (u64_rotl v1 13) v0 in
  let v3 := Z.lxor (u64_rotl v3 16) v2 in
  let v0 := u64_rotl v0 32 in
  let v2 := u64_wrap (v2 + v1) in
  let v0 := u64_wrap (v0 + v3) in
  let v1 := Z.lxor (u64_rotl v1 17) v2 in
  let v3 := Z.lxor (u64_rotl v3 21) v0 in
  let v2 := u64_rotl v2 32 in
  (v0, v1, v2, v3).

Definition sip_compress (c : nat) (v : sip_state) (m : Z) : sip_state :=
  let '(v0, v1, v2, v3) := v in
  let '(v0, v1, v2, v3) := Nat.iter c sip_round (v0, v1, v2, Z.lxor v3 m) in
  (Z.lxor v0 m, v1, v2, v3).

Definition le_u64 (l : list Z) : Z := foldr (fun b acc => b + 256 * acc) 0 l.

Fixpoint sip_words (c : nat) (v : sip_state) (l : list Z) (fuel : nat) : sip_state * list Z :=
  match fuel with
  | O => (v, l)
  | S fuel =>
      if (length l <? 8)%nat then (v, l)
      else sip_words c (sip_compress c v (le_u64 (take 8 l))) (drop 8 l) fuel
  end.

Definition siphash (c d : nat) (k0 k1 : Z) (bytes : list Z) : Z :=
  let v := (Z.lxor k0 0x736f6d6570736575, Z.lxor k1 0x646f72616e646f6d,
            Z.lxor k0 0x6c7967656e657261, Z.lxor k1 0x7465646279746573) in
  let '(v, tail) := sip_words c v bytes (length bytes) in
  let b := Z.lor (Z.shiftl (Z.of_nat (length bytes) mod 256) 56) (le_u64 tail) in
  let '(v0, v1, v2, v3) := sip_compress c v b in
  let '(v0, v1, v2, v3) := Nat.iter d sip_round (v0, v1, Z.lxor v2 0xff, v3) in
  Z.lxor (Z.lxor v0 v1) (Z.lxor v2 v3).

Definition default_hasher_finish (bytes : list Z) : Z := siphash 1 3 0 0 bytes.

(** [x as i64] for a [u64]. *)
Definition i64_of_u64 (x : Z) : Z := if x <? 2 ^ 63 then x else x - 2 ^ 64.

(** ** Lemmas *)

Create HintDb bytes.

Lemma bytes_ok_nil : bytes_ok [].
Proof. constructor. Qed.

Lemma bytes_ok_cons b l : byte_ok b -> bytes_ok l -> bytes_ok (b :: l).
Proof. by constructor. Qed.

Lemma bytes_ok_app l l' : bytes_ok l -> bytes_ok l' -> bytes_ok (l ++ l').
Proof. unfold bytes_ok. intros. by apply Forall_app. Qed.

Lemma bytes_ok_take n l : bytes_ok l -> bytes_ok (take n l).
Proof. apply Forall_take. Qed.

Lemma bytes_ok_drop n l : bytes_ok l -> bytes_ok (drop n l).
Proof. apply Forall_drop. Qed.

Lemma bytes_ok_replicate n : bytes_ok (replicate n 0).
Proof. apply Forall_replicate. by unfold byte_ok. Qed.

Lemma byte_ok_byte_at l i : bytes_ok l -> byte_ok (byte_at l i).
Proof.
  intros Hl. unfold byte_at. destruct (l !! i) eqn:Hi; cbn; [|by unfold byte_ok].
  by eapply Forall_lookup_1.
Qed.

Lemma bytes_ok_u16_to_be n : bytes_ok (u16_to_be_bytes n).
Proof. repeat constructor; apply Z.mod_pos_bound; lia. Qed.

Lemma byte_ok_u8_of_usize n : byte_ok (u8_of_usize n).
Proof. apply Z.mod_pos_bound. lia. Qed.

#[export] Hint Resolve bytes_ok_nil bytes_ok_cons bytes_ok_app bytes_ok_take bytes_ok_drop
  bytes_ok_replicate byte_ok_byte_at bytes_ok_u16_to_be byte_ok_u8_of_usize : bytes.

Lemma u16_be_roundtrip n :
  0 <= n < 2 ^ 16 -> u16_from_be_bytes (n / 256 mod 256) (n mod 256) = n.
Proof.
  intros Hn. unfold u16_from_be_bytes.
  rewrite (Z.mod_small (n / 256)); [|split; [apply Z.div_pos; lia|apply Z.div_lt_upper_bound; lia]].
  pose proof (Z.div_mod n 256). lia.
Qed.

Lemma u16_to_from_be b0 b1 :
  byte_ok b0 -> byte_ok b1 -> u16_to_be_bytes (u16_from_be_bytes b0 b1) = [b0; b1].
Proof.
  unfold byte_ok, u16_to_be_bytes, u16_from_be_bytes. intros H0 H1.
  rewrite Z.div_add_l, (Z.div_small b1), Z.add_0_r, (Z.mod_small b0) by lia.
  by rewrite Z.add_comm, Z.mod_add, Z.mod_small by lia.
Qed.

Lemma u8_of_usize_small n : Z.of_nat n < 2 ^ 8 -> u8_of_usize n = Z.of_nat n.
Proof. intros. apply Z.mod_small. lia. Qed.

Lemma u16_of_usize_small n : Z.of_nat n < 2 ^ 16 -> u16_of_usize n = Z.of_nat n.
Proof. intros. apply Z.mod_small. lia. Qed.

Lemma in_range_spec lo b hi : in_range lo b hi = true <-> lo <= b <= hi.
Proof. unfold in_range. rewrite andb_true_iff, !Z.leb_le. lia. Qed.

Lemma in_range_false lo b hi : in_range lo b hi = false <-> b < lo \/ hi < b.
Proof. unfold in_range. rewrite andb_false_iff, !Z.leb_gt. lia. Qed.

Lemma Forall_app_2 {A} (P : A -> Prop) l l' : Forall P l -> Forall P l' -> Forall P (l ++ l').
Proof. intros. by apply Forall_app. Qed.

Lemma as_bytes_cons c s : as_bytes (c :: s) = utf8_encode_char c ++ as_bytes s.
Proof. done. Qed.

Lemma as_bytes_app s s' : as_bytes (s ++ s') = as_bytes s ++ as_bytes s'.
Proof. unfold as_bytes. by rewrite map_app, concat_app. Qed.

(** Resolves the range tests of the decoder on the bytes the encoder wrote. *)
Ltac solve_tests :=
  repeat match goal with
  | |- context [?a <? ?b] =>
      first [ replace (a <? b) with true by (symmetry; apply Z.ltb_lt; lia)
            | replace (a <? b) with false by (symmetry; apply Z.ltb_ge; lia) ]
  | |- context [in_range ?a ?b ?c] =>
      first [ replace (in_range a b c) with true by (symmetry; apply in_range_spec; lia)
            | replace (in_range a b c) with false by (symmetry; apply in_range_false; lia) ]
  end.

Lemma utf8_second3_intro b b1 :
  0xE0 <= b <= 0xEF -> 0x80 <= b1 <= 0xBF ->
  (b = 0xE0 -> 0xA0 <= b1) -> (b = 0xED -> b1 <= 0x9F) -> utf8_second3 b b1 = true.
Proof.
  intros. unfold utf8_second3. rewrite !orb_true_iff, !andb_true_iff, !in_range_spec, !Z.eqb_eq. lia.
Qed.

Lemma utf8_second4_intro b b1 :
  0xF0 <= b <= 0xF4 -> 0x80 <= b1 <= 0xBF ->
  (b = 0xF0 -> 0x90 <= b1) -> (b = 0xF4 -> b1 <= 0x8F) -> utf8_second4 b b1 = true.
Proof.
  intros. unfold utf8_second4. rewrite !orb_true_iff, !andb_true_iff, !in_range_spec, !Z.eqb_eq. lia.
Qed.

Lemma from_utf8_lossy_encode_char c l :
  char_ok c -> from_utf8_lossy (utf8_encode_char c ++ l) = c :: from_utf8_lossy l.
Proof.
  unfold char_ok, utf8_encode_char. intros Hc.
  destruct (c <? 0x80) eqn:H1; [cbn [app from_utf8_lossy]; by rewrite H1|].
  destruct (c <? 0x800) eqn:H2; [|destruct (c <? 0x10000) eqn:H3]; to_prop.
  - pose proof (Z.div_mod c 64). pose proof (Z.mod_pos_bound c 64).
    cbn [app from_utf8_lossy]. solve_tests. f_equal. lia.
  - pose proof (Z.div_mod c 64). pose proof (Z.mod_pos_bound c 64).
    pose proof (Z.div_mod (c / 64) 64). pose proof (Z.mod_pos_bound (c / 64) 64).
    replace (c / 4096) with (c / 64 / 64) by (rewrite Z.div_div by lia; done).
    cbn [app from_utf8_lossy]. solve_tests.
    rewrite utf8_second3_intro by lia. solve_tests. f_equal. lia.
  - pose proof (Z.div_mod c 64). pose proof (Z.mod_pos_bound c 64).
    pose proof (Z.div_mod (c / 64) 64). pose proof (Z.mod_pos_bound (c / 64) 64).
    pose proof (Z.div_mod (c / 64 / 64) 64). pose proof (Z.mod_pos_bound (c / 64 / 64) 64).
    replace (c / 4096) with (c / 64 / 64) by (rewrite Z.div_div by lia; done).
    replace (c / 262144) with (c / 64 / 64 / 64) by (rewrite !Z.div_div by lia; done).
    cbn [app from_utf8_lossy]. solve_tests.
    rewrite utf8_second4_intro by lia. solve_tests. f_equal. lia.
Qed.

(** Decoding the UTF-8 encoding of a string gives the string back. *)
Lemma from_utf8_lossy_as_bytes s :
  Forall char_ok s -> from_utf8_lossy (as_bytes s) = s.
Proof.
  induction 1 as [|c s Hc Hs IH]; [done|].
  by rewrite as_bytes_cons, from_utf8_lossy_encode_char, IH.
Qed.

Lemma as_bytes_inj s s' :
  Forall char_ok s -> Forall char_ok s' -> as_bytes s = as_bytes s' -> s = s'.
Proof.
  intros Hs Hs' Heq.
  by rewrite <- (from_utf8_lossy_as_bytes s), Heq, from_utf8_lossy_as_bytes.
Qed.
