(* ===== verification/RustCollections.v ===== *)
(** * Collections, saturating arithmetic and decimal text of the Rust standard library

    [Ord] on the key types the sources use, the iteration order of [BTreeMap] and [BTreeSet], sorting, maps
    to sets, saturating 16- and 32-bit arithmetic, and the decimal text of an [i64] with its parser.  The order
    on strings is by code points, which is that of their UTF-8 bytes. *)

From S2P Require Import Prelude RustStd.
From stdpp Require Import sorting.
From Stdlib Require Import DecimalN DecimalPos.

#[local] Open Scope Z_scope.

(** ** Orders *)

Class RustOrd (A : Type) : Type := ord_leb : A -> A -> bool.

Class RustOrdLaws (A : Type) `{RustOrd A} : Prop := {
  ord_total : forall a b, ord_leb a b = true \/ ord_leb b a = true;
  ord_trans : forall a b c, ord_leb a b = true -> ord_leb b c = true -> ord_leb a c = true;
  ord_antisym : forall a b, ord_leb a b = true -> ord_leb b a = true -> a = b
}.

#[export] Instance Z_ord : RustOrd Z := Z.leb.
#[export] Instance Z_ord_laws : RustOrdLaws Z.
Proof. split; unfold ord_leb, Z_ord; lia. Qed.

Fixpoint str_leb (s t : rstring) : bool :=
  match s, t with
  | [], _ => true
  | _, [] => false
  | a :: s', b :: t' => if a =? b then str_leb s' t' else a <? b
  end.
#[export] Instance str_ord : RustOrd rstring := str_leb.
#[export] Instance str_ord_laws : RustOrdLaws rstring.
Proof.
  split; unfold ord_leb, str_ord.
  - induction a as [|x a IH]; intros [|y b]; cbn; auto. destruct (Z.eqb_spec x y), (Z.eqb_spec y x); try lia; auto.
  - induction a as [|x a IH]; intros [|y b] [|z c]; cbn; try done.
    destruct (Z.eqb_spec x y), (Z.eqb_spec y z), (Z.eqb_spec x z); try lia; [|eauto..].
    subst. eauto.
  - induction a as [|x a IH]; intros [|y b]; cbn; try done.
    destruct (Z.eqb_spec x y), (Z.eqb_spec y x); try lia. subst. intros. f_equal. auto.
Qed.

(** [sort_by] with a total comparison. *)
Definition ordered {A} (leb : A -> A -> bool) : relation A := fun a b => leb a b = true.
#[export] Instance ordered_dec {A} (leb : A -> A -> bool) a b : Decision (ordered leb a b) :=
  decide (leb a b = true).
Definition sort_with {A} (leb : A -> A -> bool) (l : list A) : list A := merge_sort (ordered leb) l.

Lemma sort_with_perm {A} (leb : A -> A -> bool) l : sort_with leb l ≡ₚ l.
Proof. apply merge_sort_Permutation. Qed.

(** Sorting with a total preorder sorts. *)
Lemma sort_with_sorted {A} (leb : A -> A -> bool) l :
  (forall a b, leb a b = true \/ leb b a = true) ->
  (forall a b c, leb a b = true -> leb b c = true -> leb a c = true) ->
  StronglySorted (ordered leb) (sort_with leb l).
Proof.
  intros Htot Htrans. assert (Total (ordered leb)) by (intros a b; apply Htot).
  apply Sorted_StronglySorted; [intros a b c; apply Htrans|]. apply Sorted_merge_sort; apply _.
Qed.

Lemma NoDup_map_inj {A B} (f : A -> B) l x y :
  NoDup (map f l) -> x ∈ l -> y ∈ l -> f x = f y -> x = y.
Proof.
  induction l as [|a l IH]; cbn; [by intros _ ?%elem_of_nil|]. intros [Hno Hnd]%NoDup_cons.
  intros [->|Hx]%elem_of_cons [->|Hy]%elem_of_cons Heq; [done| | |by apply IH].
  - destruct Hno. rewrite Heq. by apply (list_elem_of_fmap_2 f).
  - destruct Hno. rewrite <- Heq. by apply (list_elem_of_fmap_2 f).
Qed.

Lemma fold_left_map {A B C} (f : C -> B -> C) (g : A -> B) l : forall c,
  fold_left f (map g l) c = fold_left (fun c x => f c (g x)) l c.
Proof. induction l as [|a l IH]; intros c; cbn; [done|apply IH]. Qed.

(** [BTreeMap] and [BTreeSet] iterate in ascending order of their keys. *)
Definition btree_iter {K V} `{Countable K, RustOrd K} (m : gmap K V) : list (K * V) :=
  sort_with (fun a b => ord_leb a.1 b.1) (map_to_list m).
Definition btree_set_iter {K} `{Countable K, RustOrd K} (s : gset K) : list K :=
  sort_with ord_leb (elements s).

Section BTree.
Context {K V : Type} `{Countable K} `{RustOrd K}.

Lemma btree_iter_perm (m : gmap K V) : btree_iter m ≡ₚ map_to_list m.
Proof. apply sort_with_perm. Qed.

Lemma elem_of_btree_iter (m : gmap K V) k v : (k, v) ∈ btree_iter m <-> m !! k = Some v.
Proof. by rewrite btree_iter_perm, elem_of_map_to_list. Qed.

Lemma NoDup_btree_iter (m : gmap K V) : NoDup (map fst (btree_iter m)).
Proof.
  assert (map fst (btree_iter m) ≡ₚ map fst (map_to_list m)) as -> by (apply Permutation_map, btree_iter_perm).
  apply NoDup_fst_map_to_list.
Qed.

Lemma elem_of_btree_set_iter (s : gset K) k : k ∈ btree_set_iter s <-> k ∈ s.
Proof. unfold btree_set_iter. by rewrite sort_with_perm, elem_of_elements. Qed.
End BTree.

(** [for x in l { map.insert(key(x), value(x)) }], where some elements have no key: a later entry
    replaces an earlier one. *)
Definition insert_all {X K V} `{Countable K} (key : X -> option K) (value : X -> V) (l : list X)
    (m : gmap K V) : gmap K V :=
  fold_left (fun m x => match key x with Some k => <[k := value x]> m | None => m end) l m.

Lemma lookup_insert_all {X K V} `{Countable K} (key : X -> option K) (value : X -> V) l k v :
  (forall x y, x ∈ l -> y ∈ l -> key x = Some k -> key y = Some k -> value x = value y) ->
  forall m, insert_all key value l m !! k = Some v
  <-> (exists x, x ∈ l /\ key x = Some k /\ value x = v)
      \/ ((forall x, x ∈ l -> key x <> Some k) /\ m !! k = Some v).
Proof.
  unfold insert_all. induction l as [|x l IH]; intros Huniq m; cbn [fold_left].
  - split; [right; split; [by intros x ?%elem_of_nil|done]|]. by intros [(x & []%elem_of_nil & _)|[_ ?]].
  - rewrite IH by (intros; apply Huniq; by try right). setoid_rewrite elem_of_cons.
    destruct (decide (key x = Some k)) as [Hx|Hx].
    + rewrite Hx, lookup_insert_eq. split.
      * intros [(y & Hy & Hk & Hv)|[_ [= <-]]]; left; [exists y|exists x]; auto.
      * intros [(y & [->|Hy] & Hk & Hv)|[Hno _]]; [|by left; exists y|by destruct (Hno x); auto].
        destruct (decide (Exists (fun y => key y = Some k) l)) as [Hex|Hno].
        -- apply Exists_exists in Hex as (y & Hy & Hk'). left. exists y. split_and!; [done|done|].
           rewrite <- Hv. by apply Huniq; [right|left| |].
        -- right. split; [|by rewrite Hv]. intros y Hy Hk'. apply Hno, Exists_exists. eauto.
    + assert ((match key x with Some k' => <[k' := value x]> m | None => m end) !! k = m !! k) as ->.
      { destruct (key x); [|done]. apply lookup_insert_ne. congruence. }
      split; (intros [(y & Hy & Hk & Hv)|[Hno Hm]]; [left|right]).
      * exists y. auto.
      * split; [|done]. intros y [->|Hy]; auto.
      * exists y. destruct Hy as [->|Hy]; [done|auto].
      * split; [|done]. auto.
Qed.

(** ** Maps to sets *)

(** [map.entry(key).or_default().insert(value)] and [get_mut(key)] with [remove(value)]. *)
Definition set_at {K V} `{Countable K, Countable V} (m : gmap K (gset V)) (key : K) : gset V :=
  default ∅ (m !! key).
Definition entry_insert {K V} `{Countable K, Countable V} (m : gmap K (gset V)) (key : K) (v : V)
    : gmap K (gset V) := <[key := {[v]} ∪ set_at m key]> m.
(** [remove(value)], then the entry itself when its set is empty. *)
Definition entry_remove {K V} `{Countable K, Countable V} (m : gmap K (gset V)) (key : K) (v : V)
    : gmap K (gset V) :=
  match m !! key with
  | None => m
  | Some values =>
      let values := values ∖ {[v]} in
      if bool_decide (values = ∅) then delete key m else <[key := values]> m
  end.

Section Sets.
Context {K V : Type} `{Countable K, Countable V}.
Implicit Types (m : gmap K (gset V)).

Lemma set_at_insert m k k' v :
  set_at (entry_insert m k v) k' = if decide (k' = k) then {[v]} ∪ set_at m k else set_at m k'.
Proof.
  unfold set_at at 1, entry_insert. rewrite lookup_insert. repeat case_decide; naive_solver.
Qed.

Lemma set_at_remove m k k' v :
  set_at (entry_remove m k v) k' = if decide (k' = k) then set_at m k ∖ {[v]} else set_at m k'.
Proof.
  unfold entry_remove, set_at. destruct (m !! k) as [vs|] eqn:Hk.
  - case_bool_decide as Hempty; rewrite ?lookup_delete, ?lookup_insert;
      case_decide; case_decide; subst; try done; rewrite Hk; cbn; by rewrite ?Hempty.
  - case_decide; [subst|done]. rewrite Hk. cbn. apply leibniz_equiv. set_solver.
Qed.

Definition no_empty_set m : Prop := forall k, m !! k <> Some ∅.

Lemma no_empty_insert m k v : no_empty_set m -> no_empty_set (entry_insert m k v).
Proof.
  intros Hm k'. unfold entry_insert. rewrite lookup_insert. case_decide; [|apply Hm].
  intros [= He]. set_solver.
Qed.

Lemma no_empty_remove m k v : no_empty_set m -> no_empty_set (entry_remove m k v).
Proof.
  intros Hm k'. unfold entry_remove. destruct (m !! k); [|apply Hm].
  case_bool_decide; rewrite ?lookup_delete, ?lookup_insert; case_decide; try done; try apply Hm.
  by intros [= ?].
Qed.

Lemma no_empty_delete m k : no_empty_set m -> no_empty_set (delete k m).
Proof. intros Hm k'. rewrite lookup_delete. case_decide; [done|apply Hm]. Qed.

Lemma no_empty_lookup m k :
  no_empty_set m -> is_Some (m !! k) <-> exists v, v ∈ set_at m k.
Proof.
  intros Hm. unfold set_at. specialize (Hm k). destruct (m !! k) as [vs|]; cbn.
  - destruct (set_choose_or_empty vs) as [[v Hv]|He]; [naive_solver|].
    apply leibniz_equiv in He as ->. done.
  - split; [by intros []|]. intros [v Hv]. set_solver.
Qed.
End Sets.

(** ** Saturating arithmetic *)

Definition u16_max : Z := 0xFFFF.
Definition u32_max : Z := 0xFFFFFFFF.
Definition u16_saturating_add (a b : Z) : Z := Z.min (a + b) u16_max.
Definition u16_saturating_mul (a b : Z) : Z := Z.min (a * b) u16_max.
Definition u32_saturating_add (a b : Z) : Z := Z.min (a + b) u32_max.
Definition u64_max : Z := 0xFFFFFFFFFFFFFFFF.
Definition u64_saturating_sub (a b : Z) : Z := Z.max (a - b) 0.
Definition u64_saturating_mul (a b : Z) : Z := Z.min (a * b) u64_max.
Definition u64_saturating_add (a b : Z) : Z := Z.min (a + b) u64_max.
(** [u16::try_from]. *)
Definition u16_try_from (a : Z) : option Z := if a <=? u16_max then Some a else None.

(** ** Decimal text *)

Fixpoint decimal_text (d : Decimal.uint) : rstring :=
  match d with
  | Decimal.Nil => []
  | Decimal.D0 d => 48 :: decimal_text d | Decimal.D1 d => 49 :: decimal_text d
  | Decimal.D2 d => 50 :: decimal_text d | Decimal.D3 d => 51 :: decimal_text d
  | Decimal.D4 d => 52 :: decimal_text d | Decimal.D5 d => 53 :: decimal_text d
  | Decimal.D6 d => 54 :: decimal_text d | Decimal.D7 d => 55 :: decimal_text d
  | Decimal.D8 d => 56 :: decimal_text d | Decimal.D9 d => 57 :: decimal_text d
  end.
(** [usize::to_string]. *)
Definition usize_to_string (n : nat) : rstring := decimal_text (Nat.to_uint n).

Definition i64_ok (n : Z) : Prop := - 2 ^ 63 <= n < 2 ^ 63.

(** [i64::to_string]; 45 is the minus sign. *)
Definition i64_to_string (n : Z) : rstring :=
  if n <? 0 then 45 :: decimal_text (N.to_uint (Z.to_N (- n))) else decimal_text (N.to_uint (Z.to_N n)).

(** [str::parse::<i64>]: an optional sign and at least one digit, within range. *)
Definition parse_i64 (s : rstring) : option Z :=
  match s with
  | [] => None
  | c :: s' =>
      if c =? 45 then match s' with [] => None | _ => Z.opp <$> parse_digits (2 ^ 63 + 1) 0 s' end
      else if c =? 43 then match s' with [] => None | _ => parse_digits (2 ^ 63) 0 s' end
      else parse_digits (2 ^ 63) 0 s
  end.


Lemma of_uint_acc_ge d : forall acc, (acc <= Pos.of_uint_acc d acc)%positive.
Proof. induction d; intros acc; cbn [Pos.of_uint_acc]; [lia|..]; (etrans; [|apply IHd]; lia). Qed.

Lemma parse_digits_acc limit d : forall acc,
  Zpos (Pos.of_uint_acc d acc) < limit ->
  parse_digits limit (Zpos acc) (decimal_text d) = Some (Zpos (Pos.of_uint_acc d acc)).
Proof.
  induction d; intros acc Hlim; cbn [Pos.of_uint_acc decimal_text parse_digits] in *; [done|..].
  all: cbn [is_ascii_digit in_range Z.leb Z.compare Pos.compare Pos.compare_cont andb].
  all: match goal with IH : forall acc, Zpos (Pos.of_uint_acc ?d acc) < _ -> _,
                       H : Zpos (Pos.of_uint_acc ?d ?a) < _ |- _ =>
         pose proof (of_uint_acc_ge d a);
         rewrite (proj2 (Z.ltb_lt _ _)) by lia; rewrite <- (IH a H); f_equal; lia end.
Qed.

Lemma parse_digits_decimal limit d :
  0 < limit -> Z.of_N (N.of_uint d) < limit ->
  parse_digits limit 0 (decimal_text d) = Some (Z.of_N (N.of_uint d)).
Proof.
  intros H0. unfold N.of_uint. induction d; intros Hlim; cbn [Pos.of_uint decimal_text parse_digits] in *; [done|..].
  all: cbn [is_ascii_digit in_range Z.leb Z.compare Pos.compare Pos.compare_cont andb].
  all: cbn [Z.of_N] in *; repeat match goal with H : Zpos (Pos.of_uint_acc ?d ?a) < _ |- _ =>
         pose proof (of_uint_acc_ge d a); rewrite (proj2 (Z.ltb_lt _ _)) by lia;
         exact (parse_digits_acc limit d a H) end.
  rewrite (proj2 (Z.ltb_lt _ _)) by lia. by apply IHd.
Qed.

Lemma decimal_text_N n : exists c s, decimal_text (N.to_uint n) = c :: s /\ is_ascii_digit c = true.
Proof.
  assert (N.to_uint n <> Decimal.Nil) as Hne.
  { destruct n; [done|]. apply Unsigned.to_uint_nonnil. }
  destruct (N.to_uint n); [done|..]; by eexists _, _.
Qed.

(** Printing an [i64] and parsing it gives it back. *)
Lemma parse_i64_to_string n : i64_ok n -> parse_i64 (i64_to_string n) = Some n.
Proof.
  unfold i64_ok, i64_to_string. intros Hn. destruct (Z.ltb_spec n 0) as [Hneg|Hpos].
  - cbn [parse_i64]. rewrite Z.eqb_refl.
    destruct (decimal_text_N (Z.to_N (- n))) as (c & s & Heq & _). rewrite Heq, <- Heq.
    rewrite parse_digits_decimal by (rewrite ?DecimalN.Unsigned.of_to, ?Z2N.id; lia).
    rewrite DecimalN.Unsigned.of_to. cbn. f_equal. rewrite Z2N.id; lia.
  - destruct (decimal_text_N (Z.to_N n)) as (c & s & Heq & Hc).
    assert (parse_i64 (decimal_text (N.to_uint (Z.to_N n)))
      = parse_digits (2 ^ 63) 0 (decimal_text (N.to_uint (Z.to_N n)))) as ->.
    { rewrite Heq. apply in_range_spec in Hc. cbn [parse_i64].
      destruct (Z.eqb_spec c 45), (Z.eqb_spec c 43); try lia. done. }
    rewrite parse_digits_decimal by (rewrite ?DecimalN.Unsigned.of_to, ?Z2N.id; lia).
    rewrite DecimalN.Unsigned.of_to. f_equal. rewrite Z2N.id; lia.
Qed.
