(* ===== verification/RustFloat.v ===== *)
(** * [f64] of Rust

    IEEE-754 binary64 from [SpecFloat], with the comparisons and the operations the sources use. *)

From S2P Require Import Prelude RustStd RustCollections.
From Stdlib Require Import SpecFloat.

Definition f64 : Type := spec_float.
Definition f64_prec : Z := 53.
Definition f64_emax : Z := 1024.

Definition f64_zero : f64 := S754_zero false.
Definition f64_of_Z (n : Z) : f64 := binary_normalize f64_prec f64_emax n 0 false.
Definition f64_one : f64 := f64_of_Z 1.
Definition f64_add (x y : f64) : f64 := SFadd f64_prec f64_emax x y.
Definition f64_sub (x y : f64) : f64 := SFsub f64_prec f64_emax x y.
Definition f64_mul (x y : f64) : f64 := SFmul f64_prec f64_emax x y.
Definition f64_div (x y : f64) : f64 := SFdiv f64_prec f64_emax x y.
Definition f64_abs (x : f64) : f64 := SFabs x.

(** Comparisons are false on NaN. *)
Definition f64_lt (x y : f64) : bool := SFltb x y.
Definition f64_le (x y : f64) : bool := SFleb x y.
Definition f64_is_nan (x : f64) : bool := match x with S754_nan => true | _ => false end.
Definition f64_is_finite (x : f64) : bool :=
  match x with S754_zero _ | S754_finite _ _ _ => true | _ => false end.

(** [f64::max]: the other operand when one is NaN. *)
Definition f64_max (x y : f64) : f64 :=
  if f64_is_nan x then y else if f64_is_nan y then x else if f64_lt x y then y else x.

(** [a.partial_cmp(&b).unwrap_or(Ordering::Equal)]. *)
Definition f64_cmp (x y : f64) : comparison := default Eq (SFcompare x y).

(** [f32 as f64], which is exact. *)
Definition f64_of_f32 (x : f32) : f64 :=
  match x with
  | S754_finite sign m e =>
      binary_normalize f64_prec f64_emax (if sign then Z.neg m else Z.pos m) e sign
  | other => other
  end.

Definition f32_of_Z (n : Z) : f32 := binary_normalize 24 128 n 0 false.
Definition f32_lt (x y : f32) : bool := SFltb x y.

(** [f32::min]: the other operand when one is NaN. *)
Definition f32_min (x y : f32) : f32 :=
  if f64_is_nan x then y else if f64_is_nan y then x else if f32_lt y x then y else x.

(** [f64 as u64] (and [f32 as u64]): towards zero, saturating, and 0 for NaN. *)
Definition u64_of_f64 (x : f64) : Z :=
  match x with
  | S754_finite false m e => Z.min (Z.shiftl (Z.pos m) e) u64_max
  | S754_infinity false => u64_max
  | _ => 0
  end.

(** [f64 as f32], to nearest. *)
Definition f32_of_f64 (x : f64) : f32 :=
  match x with
  | S754_finite sign m e => binary_normalize 24 128 (if sign then Z.neg m else Z.pos m) e sign
  | other => other
  end.

(** [x != y] on floats: NaN differs from everything, and the two zeros are equal. *)
Definition f32_ne (x y : f32) : bool := negb (SFeqb x y).

(** ** Further operations *)

Definition f32_eq (x y : f32) : bool := SFeqb x y.

Definition f32_add (x y : f32) : f32 := SFadd 24 128 x y.
Definition f32_sub (x y : f32) : f32 := SFsub 24 128 x y.
Definition f32_mul (x y : f32) : f32 := SFmul 24 128 x y.
Definition f32_neg (x : f32) : f32 := SFopp x.
Definition f32_abs (x : f32) : f32 := SFabs x.

(** [f32::max]: the other operand when one is NaN. *)
Definition f32_max (x y : f32) : f32 :=
  if f64_is_nan x then y else if f64_is_nan y then x else if f32_lt x y then y else x.

(** [clamp], which keeps NaN. *)
Definition f32_clamp (x lo hi : f32) : f32 := if f32_lt x lo then lo else if f32_lt hi x then hi else x.

(** The quotient of two integers as [f64]. *)
Definition f64_ratio (n d : Z) : f64 := f64_div (f64_of_Z n) (f64_of_Z d).

(** [round() as u64] (and as [u32], [usize] with its own limit): to nearest, halves away from zero,
    then saturating; 0 for NaN and for negative values. *)
Definition rounded_to_unsigned (limit : Z) (x : spec_float) : Z :=
  match x with
  | S754_finite false m e =>
      Z.min limit (if 0 <=? e then Z.shiftl (Z.pos m) e else (2 * Z.pos m + 2 ^ (- e)) / 2 ^ (1 - e))
  | S754_infinity false => limit
  | _ => 0
  end.

(** [total_cmp] as an order; NaN is the positive one, above everything. *)
Definition f32_total_le (x y : f32) : bool :=
  match x, y with
  | _, S754_nan => true
  | S754_nan, _ => false
  | S754_zero true, S754_zero _ => true
  | S754_zero false, S754_zero true => false
  | _, _ => SFleb x y
  end.

(** ** Durations in nanoseconds *)

(** [Duration::as_secs_f32]. *)
Definition as_secs_f32 (nanos : Z) : f32 :=
  f32_add (f32_of_Z (nanos / 1000000000)) (f32_div (f32_of_Z (nanos mod 1000000000)) (f32_of_Z 1000000000)).

(** [later.duration_since(earlier)], which saturates at zero. *)
Definition duration_since (later earlier : Z) : Z := Z.max 0 (later - earlier).
