(* ===== verification/RustFormat.v ===== *)
(** * Text operations of Rust

    Hexadecimal and fixed-point formatting ([{:x}], [{:.N}]), [from_str_radix(_, 16)], and the string
    searches and replacements the sources use; and bounds on the rounding of the floats that are formatted. *)

From S2P Require Import Prelude RustStd RustCollections RustFloat.
From Stdlib Require Import SpecFloat Hexadecimal HexadecimalN.

(** ** Searching *)

(** [str::starts_with]. *)
Fixpoint starts_with (s prefix : rstring) : bool :=
  match prefix, s with
  | [], _ => true
  | p :: prefix', c :: s' => (p =? c) && starts_with s' prefix'
  | _ :: _, [] => false
  end.

(** [str::contains] with a string pattern. *)
Fixpoint contains_str (s pattern : rstring) : bool :=
  starts_with s pattern ||
  match s with [] => false | _ :: s' => contains_str s' pattern end.

(** [s.replace("ab", "")] for a pattern of two characters: the matches from the left, not overlapping. *)
Fixpoint remove_pair (a b : rchar) (s : rstring) : rstring :=
  match s with
  | c :: ((d :: s'') as s') => if (c =? a) && (d =? b) then remove_pair a b s'' else c :: remove_pair a b s'
  | _ => s
  end.

(** [str::eq_ignore_ascii_case]. *)
Definition eq_ignore_ascii_case (s t : rstring) : bool :=
  bool_decide (to_ascii_lowercase s = to_ascii_lowercase t).

(** ** Hexadecimal *)

Fixpoint hexadecimal_text (d : Hexadecimal.uint) : rstring :=
  match d with
  | Hexadecimal.Nil => []
  | Hexadecimal.D0 d => 48 :: hexadecimal_text d | Hexadecimal.D1 d => 49 :: hexadecimal_text d
  | Hexadecimal.D2 d => 50 :: hexadecimal_text d | Hexadecimal.D3 d => 51 :: hexadecimal_text d
  | Hexadecimal.D4 d => 52 :: hexadecimal_text d | Hexadecimal.D5 d => 53 :: hexadecimal_text d
  | Hexadecimal.D6 d => 54 :: hexadecimal_text d | Hexadecimal.D7 d => 55 :: hexadecimal_text d
  | Hexadecimal.D8 d => 56 :: hexadecimal_text d | Hexadecimal.D9 d => 57 :: hexadecimal_text d
  | Hexadecimal.Da d => 97 :: hexadecimal_text d | Hexadecimal.Db d => 98 :: hexadecimal_text d
  | Hexadecimal.Dc d => 99 :: hexadecimal_text d | Hexadecimal.Dd d => 100 :: hexadecimal_text d
  | Hexadecimal.De d => 101 :: hexadecimal_text d | Hexadecimal.Df d => 102 :: hexadecimal_text d
  end.

(** [{:x}] of an unsigned integer. *)
Definition lower_hex (n : Z) : rstring := hexadecimal_text (N.to_hex_uint (Z.to_N n)).

(** [char::to_digit(16)]. *)
Definition hex_digit (c : rchar) : option Z :=
  if in_range 48 c 57 then Some (c - 48)
  else if in_range 97 c 102 then Some (c - 87)
  else if in_range 65 c 70 then Some (c - 55)
  else None.

Fixpoint parse_hex_digits (limit acc : Z) (s : rstring) : option Z :=
  match s with
  | [] => Some acc
  | c :: s' =>
      match hex_digit c with
      | Some d => let acc' := acc * 16 + d in if acc' <? limit then parse_hex_digits limit acc' s' else None
      | None => None
      end
  end.

(** [uN::from_str_radix(s, 16)] with [limit = 2^N]: a leading [+] is accepted, an empty digit string is not. *)
Definition from_str_radix_16 (limit : Z) (s : rstring) : option Z :=
  match s with
  | [] => None
  | c :: s' =>
      if c =? 43 then match s' with [] => None | _ => parse_hex_digits limit 0 s' end
      else parse_hex_digits limit 0 s
  end.

(** ** Unsigned decimal *)

(** [u64::to_string]. *)
Definition u64_to_string (n : Z) : rstring := decimal_text (N.to_uint (Z.to_N n)).

(** ** Fixed-point decimals *)

(** The nearest integer to [num / den], ties to even. *)
Definition round_half_even (num den : Z) : Z :=
  let q := num / den in
  let r := num mod den in
  if 2 * r <? den then q else if den <? 2 * r then q + 1 else if Z.even q then q else q + 1.

(** [q / 10^digits] with exactly [digits] decimals. *)
Definition fixed_text (digits : nat) (q : Z) : rstring :=
  let unit := 10 ^ Z.of_nat digits in
  match digits with
  | O => u64_to_string q
  | _ =>
      let fraction := u64_to_string (q mod unit) in
      u64_to_string (q / unit) ++ str "." ++ replicate (digits - length fraction) 48 ++ fraction
  end.

(** [m * 2^e] in units of [10^-digits], rounded to an integer. *)
Definition scaled_magnitude (digits : nat) (m : positive) (e : Z) : Z :=
  let scaled := Z.pos m * 10 ^ Z.of_nat digits in
  if 0 <=? e then scaled * 2 ^ e else round_half_even scaled (2 ^ (- e)).

(** [{:.N}] of a float: the exact value rounded to [N] decimals. *)
Definition format_fixed (digits : nat) (x : spec_float) : rstring :=
  match x with
  | S754_nan => str "NaN"
  | S754_infinity sign => (if sign then str "-" else []) ++ str "inf"
  | S754_zero sign => (if sign then str "-" else []) ++ fixed_text digits 0
  | S754_finite sign m e => (if sign then str "-" else []) ++ fixed_text digits (scaled_magnitude digits m e)
  end.

(** ** Lemmas *)

Lemma of_hex_uint_acc_ge d : forall acc, (acc <= Pos.of_hex_uint_acc d acc)%positive.
Proof. induction d; intros acc; cbn [Pos.of_hex_uint_acc]; [lia|..]; (etrans; [|apply IHd]; lia). Qed.

Lemma parse_hex_digits_acc limit d : forall acc,
  Zpos (Pos.of_hex_uint_acc d acc) < limit ->
  parse_hex_digits limit (Zpos acc) (hexadecimal_text d) = Some (Zpos (Pos.of_hex_uint_acc d acc)).
Proof.
  induction d; intros acc Hlim; cbn [Pos.of_hex_uint_acc hexadecimal_text parse_hex_digits] in *; [done|..].
  all: cbn [hex_digit in_range Z.leb Z.compare Pos.compare Pos.compare_cont andb].
  all: match goal with IH : forall acc, Zpos (Pos.of_hex_uint_acc ?d acc) < _ -> _,
                       H : Zpos (Pos.of_hex_uint_acc ?d ?a) < _ |- _ =>
         pose proof (of_hex_uint_acc_ge d a);
         rewrite (proj2 (Z.ltb_lt _ _)) by lia; rewrite <- (IH a H); f_equal; lia end.
Qed.

Lemma parse_hex_digits_text limit d :
  0 < limit -> Z.of_N (N.of_hex_uint d) < limit ->
  parse_hex_digits limit 0 (hexadecimal_text d) = Some (Z.of_N (N.of_hex_uint d)).
Proof.
  intros H0. unfold N.of_hex_uint.
  induction d; intros Hlim; cbn [Pos.of_hex_uint hexadecimal_text parse_hex_digits] in *; [done|..].
  all: cbn [hex_digit in_range Z.leb Z.compare Pos.compare Pos.compare_cont andb].
  all: cbn [Z.of_N] in *; repeat match goal with H : Zpos (Pos.of_hex_uint_acc ?d ?a) < _ |- _ =>
         pose proof (of_hex_uint_acc_ge d a); rewrite (proj2 (Z.ltb_lt _ _)) by lia;
         exact (parse_hex_digits_acc limit d a H) end.
  rewrite (proj2 (Z.ltb_lt _ _)) by lia. by apply IHd.
Qed.

(** The characters of a hexadecimal text. *)
Lemma hexadecimal_text_digits d c : c ∈ hexadecimal_text d -> 48 <= c <= 57 \/ 97 <= c <= 102.
Proof. induction d; cbn; rewrite ?list_elem_of_In; cbn; rewrite <- ?list_elem_of_In; intros H; [done|..]; destruct H as [H|H]; first [lia|auto]. Qed.

Lemma lower_hex_digits n c : c ∈ lower_hex n -> 48 <= c <= 57 \/ 97 <= c <= 102.
Proof. apply hexadecimal_text_digits. Qed.

Lemma lower_hex_nonempty n : lower_hex n <> [].
Proof.
  unfold lower_hex. destruct (Z.to_N n) as [|p]; [done|].
  pose proof (HexadecimalPos.Unsigned.to_uint_nonnil p) as Hne. cbn [N.to_hex_uint].
  destruct (Pos.to_hex_uint p); done.
Qed.

(** Printing in hexadecimal and reading back. *)
Lemma from_str_radix_lower_hex limit n :
  0 <= n < limit -> from_str_radix_16 limit (lower_hex n) = Some n.
Proof.
  intros Hn. pose proof (lower_hex_nonempty n) as Hne. unfold from_str_radix_16.
  destruct (lower_hex n) as [|c s] eqn:Hs; [done|].
  assert (c <> 43) as Hc.
  { pose proof (lower_hex_digits n c). rewrite Hs in H. intros ->. ospecialize (H _); [left|]. lia. }
  rewrite (proj2 (Z.eqb_neq _ _) Hc), <- Hs. unfold lower_hex.
  rewrite parse_hex_digits_text by (rewrite ?HexadecimalN.Unsigned.of_to, ?Z2N.id; lia).
  rewrite HexadecimalN.Unsigned.of_to, Z2N.id by lia. done.
Qed.

Lemma remove_pair_none a b s : (b ∉ s) -> remove_pair a b s = s.
Proof.
  induction s as [|c s IH]; [done|]. intros Hb. destruct s as [|d s]; [done|].
  cbn [remove_pair]. rewrite (proj2 (Z.eqb_neq d b)) by (intros ->; apply Hb; right; left).
  rewrite andb_false_r. f_equal. apply IH. intros Hin. apply Hb. by right.
Qed.

Lemma round_half_even_lower num den A : 0 < den -> (2 * A - 1) * den < 2 * num -> A <= round_half_even num den.
Proof.
  intros Hd H. unfold round_half_even. pose proof (Z.div_mod num den ltac:(lia)). pose proof (Z.mod_pos_bound num den Hd).
  destruct (Z.ltb_spec (2 * (num mod den)) den); [nia|]. destruct (Z.ltb_spec den (2 * (num mod den))); [nia|].
  destruct (Z.even _); nia.
Qed.

Lemma round_half_even_upper num den B : 0 < den -> num <= B * den -> round_half_even num den <= B.
Proof.
  intros Hd H. unfold round_half_even. pose proof (Z.div_mod num den ltac:(lia)). pose proof (Z.mod_pos_bound num den Hd).
  destruct (Z.ltb_spec (2 * (num mod den)) den); [nia|]. destruct (Z.ltb_spec den (2 * (num mod den))); [nia|].
  destruct (Z.even _); nia.
Qed.

(** ** Lines *)

(** A piece of [str::lines]: one trailing carriage return is dropped. *)
Definition strip_cr (line : rstring) : rstring :=
  match last line with
  | Some c => if c =? 13 then take (length line - 1) line else line
  | None => line
  end.

(** [str::lines]: split at newlines, without the empty piece after a final one. *)
Definition str_lines (s : rstring) : list rstring :=
  let pieces := split_char s 10 in
  map strip_cr (match last pieces with Some [] => take (length pieces - 1) pieces | _ => pieces end).

(** ** Bounds on rounding

    An operation whose exact result lies below (above) a representable bound rounds to a float that is
    still below (above) it.  The bounds are dyadic numbers [M * 2^E]; the lemmas cover the rounding
    function of [SpecFloat], the conversion of integers, the quotient and the product of positive floats. *)

(** [x] is a non-negative float of value at most [M * 2^E]. *)
Definition at_most (x : spec_float) (M E : Z) : Prop :=
  x = S754_zero false
  \/ exists m e, x = S754_finite false m e /\ e <= E /\ Z.pos m <= M * 2 ^ (E - e).
(** [x] is a finite float of value at least [M * 2^E], with an exponent no larger than [E]. *)
Definition at_least (x : spec_float) (M E : Z) : Prop :=
  exists m e, x = S754_finite false m e /\ e <= E /\ M * 2 ^ (E - e) <= Z.pos m.

(** ** Digits *)

Lemma digits2_pos_bound p : 2 ^ (Z.pos (digits2_pos p) - 1) <= Z.pos p < 2 ^ Z.pos (digits2_pos p).
Proof.
  induction p as [p IH|p IH|]; cbn [digits2_pos]; [..|by cbn; lia].
  all: rewrite Pos2Z.inj_succ; replace (Z.succ (Z.pos (digits2_pos p)) - 1) with (Z.succ (Z.pos (digits2_pos p) - 1)) by lia.
  all: rewrite !Z.pow_succ_r by lia; lia.
Qed.

Lemma Zdigits2_bound m : 0 < m -> 2 ^ (Zdigits2 m - 1) <= m < 2 ^ Zdigits2 m.
Proof. destruct m as [|p|p]; [lia| |lia]. intros _. apply digits2_pos_bound. Qed.

Lemma Zdigits2_nonneg m : 0 <= Zdigits2 m.
Proof. destruct m; cbn; lia. Qed.

Lemma Zdigits2_le m k : 0 <= m -> 0 <= k -> m < 2 ^ k -> Zdigits2 m <= k.
Proof.
  intros Hm Hk H. destruct (decide (m = 0)) as [->|Hne]; [done|].
  pose proof (Zdigits2_bound m ltac:(lia)) as [Hl _].
  assert (2 ^ (Zdigits2 m - 1) < 2 ^ k) as Hlt by lia.
  apply Z.pow_lt_mono_r_iff in Hlt; lia.
Qed.

(** ** Right shifts *)

(** The integer above the shifted value. *)
Definition ceiling (mrs : shr_record) : Z := shr_m mrs + (if shr_r mrs || shr_s mrs then 1 else 0).

Lemma shr_1_nonneg mrs : 0 <= shr_m mrs -> 0 <= shr_m (shr_1 mrs).
Proof. destruct mrs as [[|[p|p|]|p] r s]; cbn; lia. Qed.
Lemma shr_1_ceiling mrs W : 0 <= shr_m mrs -> ceiling mrs <= 2 * W -> ceiling (shr_1 mrs) <= W.
Proof. destruct mrs as [[|[p|p|]|p] [] []]; unfold ceiling; cbn; lia. Qed.
Lemma shr_1_floor mrs W : 0 <= shr_m mrs -> 2 * W <= shr_m mrs -> W <= shr_m (shr_1 mrs).
Proof. destruct mrs as [[|[p|p|]|p] [] []]; cbn; lia. Qed.
Lemma shr_1_floor_le mrs W : 0 <= shr_m mrs -> shr_m mrs < 2 * W -> shr_m (shr_1 mrs) < W.
Proof. destruct mrs as [[|[p|p|]|p] [] []]; cbn; lia. Qed.

Lemma iter_pos_iter {A} (f : A -> A) p : forall x, iter_pos f p x = Pos.iter f x p.
Proof.
  induction p as [p IH|p IH|]; intros x; cbn [iter_pos Pos.iter]; [..|done]; rewrite !IH; [|done].
  by rewrite !Pos.iter_swap.
Qed.
Lemma iter_pos_succ {A} (f : A -> A) p x : iter_pos f (Pos.succ p) x = iter_pos f p (f x).
Proof. rewrite !iter_pos_iter, Pos.iter_succ. symmetry. apply Pos.iter_swap. Qed.

(** [W] iterated shifts keep what one shift keeps. *)
Lemma iter_pos_shr (P : Z -> shr_record -> Prop) p :
  (forall mrs W, P (2 * W) mrs -> P W (shr_1 mrs)) ->
  forall mrs W, P (W * 2 ^ Z.pos p) mrs -> P W (iter_pos shr_1 p mrs).
Proof.
  intros Hstep. induction p as [|p IH] using Pos.peano_ind; intros mrs W H.
  - cbn [iter_pos]. apply Hstep. by replace (2 * W) with (W * 2 ^ 1) by lia.
  - rewrite iter_pos_succ. apply IH, Hstep. rewrite Pos2Z.inj_succ, Z.pow_succ_r in H by lia.
    by replace (2 * (W * 2 ^ Z.pos p)) with (W * (2 * 2 ^ Z.pos p)) by lia.
Qed.

Section Rounding.
Context (prec emax : Z) (Hprec : 0 < prec).

Lemma shr_fexp_exponent m e l :
  (shr_fexp prec emax m e l).2 = Z.max e (fexp prec emax (Zdigits2 m + e)).
Proof. unfold shr_fexp, shr. destruct (_ - e) eqn:Hd; cbn [snd]; lia. Qed.

Lemma shr_fexp_keeps (P : Z -> shr_record -> Prop) m e l W :
  (forall mrs V, P (2 * V) mrs -> P V (shr_1 mrs)) ->
  P (W * 2 ^ ((shr_fexp prec emax m e l).2 - e)) (shr_record_of_loc m l) ->
  P W (shr_fexp prec emax m e l).1.
Proof.
  intros Hstep. rewrite shr_fexp_exponent. unfold shr_fexp, shr.
  destruct (fexp prec emax (Zdigits2 m + e) - e) as [|p|p] eqn:Hd; cbn [fst].
  - replace (Z.max e _ - e) with 0 by lia. by rewrite Z.mul_1_r.
  - replace (Z.max e _ - e) with (Z.pos p) by lia. by apply iter_pos_shr.
  - replace (Z.max e _ - e) with 0 by lia. by rewrite Z.mul_1_r.
Qed.

Lemma record_of_loc_m m l : shr_m (shr_record_of_loc m l) = m.
Proof. by destruct l as [|[]]. Qed.

Lemma shr_fexp_nonneg m e l : 0 <= m -> 0 <= shr_m (shr_fexp prec emax m e l).1.
Proof.
  intros Hm. apply (shr_fexp_keeps (fun _ mrs => 0 <= shr_m mrs) m e l 0).
  - intros mrs _. apply shr_1_nonneg.
  - by rewrite record_of_loc_m.
Qed.

Lemma shr_fexp_ceiling m e l W :
  0 <= m -> ceiling (shr_record_of_loc m l) <= W * 2 ^ ((shr_fexp prec emax m e l).2 - e) ->
  ceiling (shr_fexp prec emax m e l).1 <= W.
Proof.
  intros Hm Hc. apply (shr_fexp_keeps (fun W mrs => 0 <= shr_m mrs /\ ceiling mrs <= W)).
  - intros mrs V [H0 H]. split; [by apply shr_1_nonneg|by apply shr_1_ceiling].
  - by rewrite record_of_loc_m.
Qed.

Lemma shr_fexp_floor m e l W :
  0 <= m -> W * 2 ^ ((shr_fexp prec emax m e l).2 - e) <= m -> W <= shr_m (shr_fexp prec emax m e l).1.
Proof.
  intros Hm Hc. apply (shr_fexp_keeps (fun W mrs => 0 <= shr_m mrs /\ W <= shr_m mrs)).
  - intros mrs V [H0 H]. split; [by apply shr_1_nonneg|by apply shr_1_floor].
  - by rewrite record_of_loc_m.
Qed.

Lemma shr_fexp_below m e l W :
  0 <= m -> m < W * 2 ^ ((shr_fexp prec emax m e l).2 - e) -> shr_m (shr_fexp prec emax m e l).1 < W.
Proof.
  intros Hm Hc. apply (shr_fexp_keeps (fun W mrs => 0 <= shr_m mrs /\ shr_m mrs < W)).
  - intros mrs V [H0 H]. split; [by apply shr_1_nonneg|by apply shr_1_floor_le].
  - by rewrite record_of_loc_m.
Qed.

Lemma round_nearest_even_between mrs :
  shr_m mrs <= round_nearest_even (shr_m mrs) (loc_of_shr_record mrs) <= ceiling mrs.
Proof. destruct mrs as [m [] []]; unfold ceiling; cbn; try destruct (Z.even m); lia. Qed.

(** The exponent chosen for a value below [M * 2^E] is at most [E]. *)
Lemma exponent_le m e M E :
  0 <= m -> e <= E -> m <= M * 2 ^ (E - e) -> M < 2 ^ prec -> emin prec emax <= E ->
  Z.max e (fexp prec emax (Zdigits2 m + e)) <= E.
Proof.
  intros Hm He Hle HM Hmin. unfold fexp.
  enough (Zdigits2 m <= prec + (E - e)) by lia.
  apply Zdigits2_le; [lia|lia|]. rewrite Z.pow_add_r by lia.
  pose proof (Z.pow_pos_nonneg 2 (E - e)). nia.
Qed.

Lemma scale_exponent M E e e' : e <= e' <= E -> M * 2 ^ (E - e) = M * 2 ^ (E - e') * 2 ^ (e' - e).
Proof. intros H. rewrite <- Z.mul_assoc, <- Z.pow_add_r by lia. do 2 f_equal. lia. Qed.

Lemma binary_round_aux_at_most mx ex lx M E :
  0 <= mx -> ex <= E -> ceiling (shr_record_of_loc mx lx) <= M * 2 ^ (E - ex) -> M < 2 ^ prec ->
  emin prec emax <= E <= emax - prec ->
  at_most (binary_round_aux prec emax false mx ex lx) M E.
Proof.
  intros Hm He Hc HM HE. unfold binary_round_aux.
  assert (mx <= ceiling (shr_record_of_loc mx lx)) as Hmc
    by (unfold ceiling; rewrite record_of_loc_m; destruct (_ || _); lia).
  pose proof (shr_fexp_exponent mx ex lx) as He1.
  pose proof (exponent_le mx ex M E Hm He ltac:(lia) HM ltac:(lia)) as Hle1. rewrite <- He1 in Hle1.
  pose proof (shr_fexp_nonneg mx ex lx Hm) as Hn1.
  pose proof (shr_fexp_ceiling mx ex lx (M * 2 ^ (E - (shr_fexp prec emax mx ex lx).2)) Hm) as Hc1.
  rewrite <- scale_exponent in Hc1 by lia. specialize (Hc1 Hc).
  destruct (shr_fexp prec emax mx ex lx) as [mrs1 e1]. cbn [fst snd] in *.
  pose proof (round_nearest_even_between mrs1) as Hr.
  remember (round_nearest_even (shr_m mrs1) (loc_of_shr_record mrs1)) as n eqn:Heqn. clear Heqn.
  pose proof (exponent_le n e1 M E ltac:(lia) Hle1 ltac:(lia) HM ltac:(lia)) as Hle2.
  pose proof (shr_fexp_exponent n e1 loc_Exact) as He2. rewrite <- He2 in Hle2.
  pose proof (shr_fexp_ceiling n e1 loc_Exact (M * 2 ^ (E - (shr_fexp prec emax n e1 loc_Exact).2)) ltac:(lia)) as Hc2.
  rewrite <- scale_exponent in Hc2 by lia.
  pose proof (shr_fexp_nonneg n e1 loc_Exact ltac:(lia)) as Hn2.
  destruct (shr_fexp prec emax n e1 loc_Exact) as [mrs2 e2]. cbn [fst snd] in *.
  destruct (shr_m mrs2) as [|m|m] eqn:Hm2; [by left| |lia].
  rewrite (proj2 (Z.leb_le _ _)) by lia. right. exists m, e2. split_and!; [done|lia|].
  etrans; [|apply Hc2; unfold ceiling; cbn; lia]. unfold ceiling. rewrite Hm2. destruct (_ || _); lia.
Qed.

Lemma binary_round_aux_at_least mx ex lx M E :
  0 <= mx -> 0 < M -> ex <= E -> M * 2 ^ (E - ex) <= mx -> Zdigits2 mx + ex + 1 - prec <= E ->
  emin prec emax <= E <= emax - prec ->
  at_least (binary_round_aux prec emax false mx ex lx) M E.
Proof.
  intros Hm HM He Hc Hd HE. unfold binary_round_aux.
  pose proof (shr_fexp_exponent mx ex lx) as He1. unfold fexp in He1.
  pose proof (shr_fexp_nonneg mx ex lx Hm) as Hn1.
  pose proof (shr_fexp_floor mx ex lx (M * 2 ^ (E - (shr_fexp prec emax mx ex lx).2)) Hm) as Hc1.
  rewrite <- scale_exponent in Hc1 by lia. specialize (Hc1 Hc).
  assert (shr_m (shr_fexp prec emax mx ex lx).1 < 2 ^ Z.max 0 (Zdigits2 mx + ex - (shr_fexp prec emax mx ex lx).2)) as Hb1.
  { apply shr_fexp_below; [done|]. rewrite <- Z.pow_add_r by lia.
    apply Z.lt_le_trans with (2 ^ Zdigits2 mx).
    - destruct (decide (mx = 0)) as [->|Hne]; [by cbn|]. by apply Zdigits2_bound; lia.
    - apply Z.pow_le_mono_r; lia. }
  destruct (shr_fexp prec emax mx ex lx) as [mrs1 e1]. cbn [fst snd] in *.
  pose proof (round_nearest_even_between mrs1) as Hr.
  assert (ceiling mrs1 <= shr_m mrs1 + 1) as Hceil by (unfold ceiling; destruct (_ || _); lia).
  remember (round_nearest_even (shr_m mrs1) (loc_of_shr_record mrs1)) as n eqn:Heqn. clear Heqn.
  assert (Zdigits2 n <= Z.max 0 (Zdigits2 mx + ex - e1) + 1) as Hdn.
  { apply Zdigits2_le; [lia|lia|]. rewrite Z.pow_add_r by lia. lia. }
  pose proof (shr_fexp_exponent n e1 loc_Exact) as He2. unfold fexp in He2.
  pose proof (shr_fexp_floor n e1 loc_Exact (M * 2 ^ (E - (shr_fexp prec emax n e1 loc_Exact).2)) ltac:(lia)) as Hc2.
  rewrite <- scale_exponent in Hc2 by lia. specialize (Hc2 ltac:(lia)).
  destruct (shr_fexp prec emax n e1 loc_Exact) as [mrs2 e2]. cbn [fst snd] in *.
  assert (0 < 2 ^ (E - e2)) as Hpos by (apply Z.pow_pos_nonneg; lia).
  destruct (shr_m mrs2) as [|m|m]; [nia| |nia].
  rewrite (proj2 (Z.leb_le _ _)) by lia. exists m, e2. split_and!; [done|lia|lia].
Qed.
End Rounding.

(** ** Operations *)

Section Operations.
Context (prec emax : Z) (Hprec : 1 < prec).

Lemma binary_round_aux_at_least' mx ex lx M E :
  0 <= mx -> 0 < M -> ex <= E -> M * 2 ^ (E - ex) <= mx -> mx < 2 ^ (prec - 1 + (E - ex)) ->
  emin prec emax <= E <= emax - prec ->
  at_least (binary_round_aux prec emax false mx ex lx) M E.
Proof.
  intros Hm HM He Hl Hu HE. apply binary_round_aux_at_least; [lia|done..| |done].
  pose proof (Zdigits2_le mx (prec - 1 + (E - ex)) Hm). lia.
Qed.

Lemma shl_align_value mx ex ex' mz ez :
  shl_align mx ex ex' = (mz, ez) -> ez <= ex /\ Z.pos mz = Z.pos mx * 2 ^ (ex - ez).
Proof.
  unfold shl_align. destruct (ex' - ex) as [|p|p] eqn:Hd; intros [= <- <-].
  1,2: rewrite Z.sub_diag; lia.
  split; [lia|]. replace (ex - ex') with (Z.pos p) by lia.
  clear Hd. induction p as [|p IH] using Pos.peano_ind; [cbn; lia|].
  rewrite Pos.iter_succ, Pos2Z.inj_succ, Z.pow_succ_r by lia. cbn [Pos.iter]. lia.
Qed.

Lemma binary_round_at_most mx ex M E :
  ex <= E -> Z.pos mx <= M * 2 ^ (E - ex) -> M < 2 ^ prec -> emin prec emax <= E <= emax - prec ->
  at_most (binary_round prec emax false mx ex) M E.
Proof.
  intros He Hm HM HE. unfold binary_round.
  destruct (shl_align mx ex _) as [mz ez] eqn:Hs. apply shl_align_value in Hs as [Hez Hmz].
  apply binary_round_aux_at_most; [lia|lia|lia| |done|done].
  unfold ceiling. cbn [shr_record_of_loc shr_m shr_r shr_s orb].
  rewrite Z.add_0_r, Hmz, (scale_exponent M E ez ex) by lia.
  apply Z.mul_le_mono_nonneg_r; [|done]. apply Z.pow_nonneg. lia.
Qed.

Lemma binary_round_at_least mx ex M E :
  ex <= E -> 0 < M -> M * 2 ^ (E - ex) <= Z.pos mx -> Z.pos mx < 2 ^ (prec - 1 + (E - ex)) ->
  emin prec emax <= E <= emax - prec ->
  at_least (binary_round prec emax false mx ex) M E.
Proof.
  intros He HM Hl Hu HE. unfold binary_round.
  destruct (shl_align mx ex _) as [mz ez] eqn:Hs. apply shl_align_value in Hs as [Hez Hmz].
  apply binary_round_aux_at_least'; [lia|done|lia|..|done]; rewrite Hmz.
  - rewrite (scale_exponent M E ez ex) by lia. apply Z.mul_le_mono_nonneg_r; [|done]. apply Z.pow_nonneg. lia.
  - replace (prec - 1 + (E - ez)) with (prec - 1 + (E - ex) + (ex - ez)) by lia.
    rewrite (Z.pow_add_r 2 (prec - 1 + (E - ex))) by lia. apply Z.mul_lt_mono_pos_r; [|done].
    apply Z.pow_pos_nonneg; lia.
Qed.

(** A value between [M * 2^E] and itself is exact. *)
Lemma at_most_at_least x M E :
  at_most x M E -> at_least x M E ->
  exists m e, x = S754_finite false m e /\ e <= E /\ Z.pos m = M * 2 ^ (E - e).
Proof.
  intros Hmost (m & e & -> & He & Hl). destruct Hmost as [Hz|(m' & e' & Hx & _ & Hu)]; [done|].
  injection Hx as -> ->. exists m', e'. split_and!; [done|done|lia].
Qed.

Lemma binary_round_exact mx ex :
  Z.pos mx < 2 ^ (prec - 1) -> emin prec emax <= ex <= emax - prec ->
  exists m e, binary_round prec emax false mx ex = S754_finite false m e /\ e <= ex /\ Z.pos m = Z.pos mx * 2 ^ (ex - e).
Proof.
  intros Hm He. apply at_most_at_least.
  - apply binary_round_at_most; [lia|rewrite Z.sub_diag; lia| |done].
    etrans; [exact Hm|]. apply Z.pow_lt_mono_r; lia.
  - apply binary_round_at_least; [lia|lia|rewrite Z.sub_diag; lia| |done]. by rewrite Z.sub_diag, Z.add_0_r.
Qed.

Lemma new_location_ceiling d q r :
  0 <= r < d -> ceiling (shr_record_of_loc q (new_location d r)) = q + (if r =? 0 then 0 else 1).
Proof.
  intros Hr. unfold new_location, new_location_even, new_location_odd.
  destruct (Z.even d), (Z.eqb_spec r 0); try done;
    [destruct (Z.compare (2 * r) d)|destruct (Z.compare (2 * r + 1) d)]; done.
Qed.

(** ** Comparisons of dyadic numbers *)

(** [a * 2^ea <= b * 2^eb] and [a * 2^ea < b * 2^eb]. *)
Definition dle (a ea b eb : Z) : Prop := a * 2 ^ (ea - Z.min ea eb) <= b * 2 ^ (eb - Z.min ea eb).
Definition dlt (a ea b eb : Z) : Prop := a * 2 ^ (ea - Z.min ea eb) < b * 2 ^ (eb - Z.min ea eb).

Lemma rescale a ea c d : c <= d <= ea -> a * 2 ^ (ea - c) = a * 2 ^ (ea - d) * 2 ^ (d - c).
Proof. intros H. rewrite <- Z.mul_assoc, <- Z.pow_add_r by lia. do 2 f_equal. lia. Qed.

Lemma dle_at c a ea b eb : c <= ea -> c <= eb -> dle a ea b eb <-> a * 2 ^ (ea - c) <= b * 2 ^ (eb - c).
Proof.
  intros Ha Hb. unfold dle. rewrite (rescale a ea c (Z.min ea eb)), (rescale b eb c (Z.min ea eb)) by lia.
  apply Z.mul_le_mono_pos_r, Z.pow_pos_nonneg; lia.
Qed.
Lemma dlt_at c a ea b eb : c <= ea -> c <= eb -> dlt a ea b eb <-> a * 2 ^ (ea - c) < b * 2 ^ (eb - c).
Proof.
  intros Ha Hb. unfold dlt. rewrite (rescale a ea c (Z.min ea eb)), (rescale b eb c (Z.min ea eb)) by lia.
  apply Z.mul_lt_mono_pos_r, Z.pow_pos_nonneg; lia.
Qed.

Lemma dle_trans a ea b eb d ed : dle a ea b eb -> dle b eb d ed -> dle a ea d ed.
Proof. set (c := Z.min ea (Z.min eb ed)). rewrite !(dle_at c) by lia. lia. Qed.
Lemma dle_dlt_trans a ea b eb d ed : dle a ea b eb -> dlt b eb d ed -> dlt a ea d ed.
Proof. set (c := Z.min ea (Z.min eb ed)). rewrite (dle_at c), !(dlt_at c) by lia. lia. Qed.
(** Moving a power of two between mantissa and exponent. *)
Lemma dle_shift_r a ea b e e' : e' <= e -> dle a ea (b * 2 ^ (e - e')) e' <-> dle a ea b e.
Proof. intros He. set (c := Z.min ea e'). rewrite !(dle_at c) by lia. by rewrite (rescale b e c e') by lia. Qed.
Lemma dle_shift_l a b eb e e' : e' <= e -> dle (a * 2 ^ (e - e')) e' b eb <-> dle a e b eb.
Proof. intros He. set (c := Z.min eb e'). rewrite !(dle_at c) by lia. by rewrite (rescale a e c e') by lia. Qed.
Lemma dlt_shift_r a ea b e e' : e' <= e -> dlt a ea (b * 2 ^ (e - e')) e' <-> dlt a ea b e.
Proof. intros He. set (c := Z.min ea e'). rewrite !(dlt_at c) by lia. by rewrite (rescale b e c e') by lia. Qed.

(** ** Quotients *)

Section Quotient.
Context (m1 m2 : positive) (e1 e2 : Z).

Definition quotient_exponent : Z :=
  Z.min (fexp prec emax (Z.pos (digits2_pos m1) + e1 - (Z.pos (digits2_pos m2) + e2))) (e1 - e2).

(** A quotient below [2^B] has a bounded difference of digits. *)
Lemma quotient_digits B :
  dlt (Z.pos m1) e1 (Z.pos m2) (e2 + B) -> Z.pos (digits2_pos m1) + e1 - (Z.pos (digits2_pos m2) + e2) <= B.
Proof.
  set (c := Z.min e1 (e2 + B)). rewrite (dlt_at c) by lia. intros H.
  pose proof (digits2_pos_bound m1) as [Hd1 _]. pose proof (digits2_pos_bound m2) as [_ Hd2].
  pose proof (Z.pow_pos_nonneg 2 (e1 - c) ltac:(lia) ltac:(lia)).
  pose proof (Z.pow_pos_nonneg 2 (e2 + B - c) ltac:(lia) ltac:(lia)).
  assert (2 ^ (Z.pos (digits2_pos m1) - 1 + (e1 - c)) < 2 ^ (Z.pos (digits2_pos m2) + (e2 + B - c))) as Hlt.
  { rewrite !Z.pow_add_r by lia.
    apply Z.le_lt_trans with (Z.pos m1 * 2 ^ (e1 - c)); [by apply Z.mul_le_mono_nonneg_r; [lia|]|].
    etrans; [exact H|]. apply Z.mul_lt_mono_pos_r; lia. }
  apply Z.pow_lt_mono_r_iff in Hlt; lia.
Qed.

Lemma SFdiv_unfold :
  SFdiv prec emax (S754_finite false m1 e1) (S754_finite false m2 e2)
  = let m' := Z.pos m1 * 2 ^ (e1 - e2 - quotient_exponent) in
    binary_round_aux prec emax false (m' / Z.pos m2) quotient_exponent (new_location (Z.pos m2) (m' mod Z.pos m2)).
Proof.
  cbn [SFdiv xorb]. unfold SFdiv_core_binary. cbn [Zdigits2].
  change (Z.min _ (e1 - e2)) with quotient_exponent. cbv zeta.
  assert (match e1 - e2 - quotient_exponent with
          | Z0 => Z.pos m1 | Zpos _ => Z.shiftl (Z.pos m1) (e1 - e2 - quotient_exponent) | Zneg _ => 0 end
    = Z.pos m1 * 2 ^ (e1 - e2 - quotient_exponent)) as ->.
  { assert (quotient_exponent <= e1 - e2) by apply Z.le_min_r.
    destruct (e1 - e2 - quotient_exponent) as [|p|p] eqn:Hs; [lia|apply Z.shiftl_mul_pow2; lia|lia]. }
  unfold Z.div, Z.modulo. destruct (Z.div_eucl _ _) as [q r]. done.
Qed.

Lemma quotient_exponent_le B E :
  dlt (Z.pos m1) e1 (Z.pos m2) (e2 + B) -> B - prec <= E -> emin prec emax <= E -> quotient_exponent <= E.
Proof. intros H%quotient_digits HB HE. unfold quotient_exponent, fexp. lia. Qed.

(** [x <= y * M * 2^E] bounds the quotient. *)
Lemma SFdiv_at_most M E :
  0 < M < 2 ^ prec -> dle (Z.pos m1) e1 (Z.pos m2 * M) (e2 + E) -> emin prec emax <= E <= emax - prec ->
  at_most (SFdiv prec emax (S754_finite false m1 e1) (S754_finite false m2 e2)) M E.
Proof.
  intros HM Hle HE. rewrite SFdiv_unfold. cbv zeta.
  assert (quotient_exponent <= E) as He.
  { apply (quotient_exponent_le (E + prec)); [|lia..]. set (c := Z.min e1 (e2 + E)).
    rewrite (dle_at c) in Hle by lia. apply (dlt_at c); [lia..|].
    replace (e2 + (E + prec) - c) with (prec + (e2 + E - c)) by lia. rewrite Z.pow_add_r, Z.mul_assoc by lia.
    eapply Z.le_lt_trans; [exact Hle|]. apply Z.mul_lt_mono_pos_r; [apply Z.pow_pos_nonneg; lia|].
    apply Z.mul_lt_mono_pos_l; lia. }
  assert (quotient_exponent <= e1 - e2) as He' by apply Z.le_min_r.
  rewrite (dle_at (e2 + quotient_exponent)) in Hle by lia.
  replace (e1 - (e2 + quotient_exponent)) with (e1 - e2 - quotient_exponent) in Hle by lia.
  replace (e2 + E - (e2 + quotient_exponent)) with (E - quotient_exponent) in Hle by lia.
  set (m' := Z.pos m1 * 2 ^ (e1 - e2 - quotient_exponent)) in *.
  assert (0 <= m') as Hm' by (apply Z.mul_nonneg_nonneg; [lia|apply Z.pow_nonneg; lia]).
  apply binary_round_aux_at_most; [lia|apply Z.div_pos; lia|lia| |lia|lia].
  rewrite new_location_ceiling by (apply Z.mod_pos_bound; lia).
  rewrite <- Z.mul_assoc in Hle. set (W := M * 2 ^ (E - quotient_exponent)) in *.
  pose proof (Z.div_mod m' (Z.pos m2) ltac:(lia)). pose proof (Z.mod_pos_bound m' (Z.pos m2) ltac:(lia)).
  destruct (Z.eqb_spec (m' mod Z.pos m2) 0); nia.
Qed.

(** [y * M * 2^E <= x] bounds the quotient from below, when it is below [2^(prec - 1 + E)]. *)
Lemma SFdiv_at_least M E :
  0 < M -> dle (Z.pos m2 * M) (e2 + E) (Z.pos m1) e1 -> dlt (Z.pos m1) e1 (Z.pos m2) (e2 + (prec - 1 + E)) ->
  emin prec emax <= E <= emax - prec ->
  at_least (SFdiv prec emax (S754_finite false m1 e1) (S754_finite false m2 e2)) M E.
Proof.
  intros HM Hle Hlt HE. rewrite SFdiv_unfold. cbv zeta.
  pose proof (quotient_exponent_le (prec - 1 + E) E Hlt ltac:(lia) ltac:(lia)) as He.
  assert (quotient_exponent <= e1 - e2) as He' by apply Z.le_min_r.
  rewrite (dle_at (e2 + quotient_exponent)) in Hle by lia.
  rewrite (dlt_at (e2 + quotient_exponent)) in Hlt by lia.
  replace (e1 - (e2 + quotient_exponent)) with (e1 - e2 - quotient_exponent) in * by lia.
  replace (e2 + E - (e2 + quotient_exponent)) with (E - quotient_exponent) in Hle by lia.
  replace (e2 + (prec - 1 + E) - (e2 + quotient_exponent)) with (prec - 1 + (E - quotient_exponent)) in Hlt by lia.
  set (m' := Z.pos m1 * 2 ^ (e1 - e2 - quotient_exponent)) in *.
  assert (0 <= m') as Hm' by (apply Z.mul_nonneg_nonneg; [lia|apply Z.pow_nonneg; lia]).
  apply binary_round_aux_at_least'; [apply Z.div_pos; lia|done|done|..|done].
  - apply Z.div_le_lower_bound; [lia|]. lia.
  - apply Z.div_lt_upper_bound; lia.
Qed.
End Quotient.

(** ** Products *)

Lemma SFmul_at_most m1 e1 m2 e2 M E :
  0 < M < 2 ^ prec -> e1 + e2 <= E -> Z.pos m1 * Z.pos m2 <= M * 2 ^ (E - (e1 + e2)) ->
  emin prec emax <= E <= emax - prec ->
  at_most (SFmul prec emax (S754_finite false m1 e1) (S754_finite false m2 e2)) M E.
Proof.
  intros HM He Hle HE. cbn [SFmul xorb]. apply binary_round_aux_at_most; try lia.
  unfold ceiling. cbn [shr_record_of_loc shr_m shr_r shr_s orb]. lia.
Qed.

Lemma SFmul_at_least m1 e1 m2 e2 M E :
  0 < M -> e1 + e2 <= E -> M * 2 ^ (E - (e1 + e2)) <= Z.pos m1 * Z.pos m2 ->
  Z.pos m1 * Z.pos m2 < 2 ^ (prec - 1 + (E - (e1 + e2))) -> emin prec emax <= E <= emax - prec ->
  at_least (SFmul prec emax (S754_finite false m1 e1) (S754_finite false m2 e2)) M E.
Proof. intros HM He Hle Hlt HE. cbn [SFmul xorb]. apply binary_round_aux_at_least'; lia. Qed.
End Operations.

(** ** Order *)

(** The order of canonical positive floats is the order of their values. *)
Lemma SFleb_dle prec emax m1 e1 m2 e2 :
  0 < prec -> canonical_mantissa prec emax m1 e1 = true -> canonical_mantissa prec emax m2 e2 = true ->
  SFleb (S754_finite false m1 e1) (S754_finite false m2 e2) = true -> dle (Z.pos m1) e1 (Z.pos m2) e2.
Proof.
  unfold canonical_mantissa, fexp, SFleb. intros Hp H1%Z.eqb_eq H2%Z.eqb_eq. cbn [SFcompare].
  pose proof (digits2_pos_bound m1) as [_ Hd1]. pose proof (digits2_pos_bound m2) as [Hd2 _].
  change (Pos.compare_cont Eq m1 m2) with (Pos.compare m1 m2).
  destruct (Z.compare_spec e1 e2) as [->|Hlt|Hgt]; intros H; [| |done].
  - apply (dle_at e2); [lia..|]. rewrite Z.sub_diag. destruct (Pos.compare_spec m1 m2); [lia|lia|done].
  - apply (dle_at e1); [lia..|]. rewrite Z.sub_diag. replace (e2 - e1) with (Z.succ (e2 - e1 - 1)) by lia.
    rewrite Z.pow_succ_r by lia. pose proof (Z.pow_pos_nonneg 2 (e2 - e1 - 1) ltac:(lia) ltac:(lia)) as Hpos.
    assert (Z.pos m1 < 2 ^ prec) as Hm1.
    { eapply Z.lt_le_trans; [exact Hd1|]. apply Z.pow_le_mono_r; lia. }
    assert (2 ^ prec <= Z.pos m2 * 2) as Hm2.
    { replace (Z.pos (digits2_pos m2)) with prec in Hd2 by lia.
      replace prec with (Z.succ (prec - 1)) at 1 by lia. rewrite Z.pow_succ_r by lia. lia. }
    nia.
Qed.

Lemma SFleb_total m1 e1 m2 e2 :
  SFleb (S754_finite false m1 e1) (S754_finite false m2 e2) = false ->
  SFleb (S754_finite false m2 e2) (S754_finite false m1 e1) = true.
Proof.
  unfold SFleb. cbn [SFcompare]. change (Pos.compare_cont Eq m1 m2) with (Pos.compare m1 m2).
  change (Pos.compare_cont Eq m2 m1) with (Pos.compare m2 m1).
  rewrite (Z.compare_antisym e1 e2), (Pos.compare_antisym m1 m2).
  destruct (Z.compare e1 e2), (Pos.compare m1 m2); done.
Qed.

Lemma SFltb_SFleb m1 e1 m2 e2 :
  SFltb (S754_finite false m1 e1) (S754_finite false m2 e2) = false ->
  SFleb (S754_finite false m2 e2) (S754_finite false m1 e1) = true.
Proof.
  unfold SFltb, SFleb. cbn [SFcompare]. change (Pos.compare_cont Eq m1 m2) with (Pos.compare m1 m2).
  change (Pos.compare_cont Eq m2 m1) with (Pos.compare m2 m1).
  rewrite (Z.compare_antisym e1 e2), (Pos.compare_antisym m1 m2).
  destruct (Z.compare e1 e2), (Pos.compare m1 m2); done.
Qed.

(** ** Binary64 *)

(** Integers below [2^52] are exact. *)
Lemma f64_of_Z_exact n :
  0 < n < 2 ^ 52 -> exists m e, f64_of_Z n = S754_finite false m e /\ e <= 0 /\ Z.pos m = n * 2 ^ (- e).
Proof.
  intros Hn. destruct n as [|p|p]; [lia| |lia]. unfold f64_of_Z, binary_normalize, f64_prec, f64_emax.
  destruct (binary_round_exact 53 1024 ltac:(lia) p 0) as (m & e & Hx & He & Hm); [cbn; lia|unfold emin; lia|].
  rewrite Z.sub_0_l in Hm. eauto.
Qed.

(** An integer rounds to at most the next multiple of a power of two that leaves 53 bits. *)
Lemma f64_of_Z_at_most n M E : 0 <= n <= M * 2 ^ E -> 0 <= E <= 971 -> M < 2 ^ 53 -> at_most (f64_of_Z n) M E.
Proof.
  intros Hn HE HM. destruct n as [|p|p]; [by left| |lia]. unfold f64_of_Z, binary_normalize, f64_prec, f64_emax.
  apply binary_round_at_most; [lia|lia|rewrite Z.sub_0_r; lia|done|unfold emin; lia].
Qed.

(** A float of at most [M * 2^E] is not above the float [M * 2^E]. *)
Lemma at_most_not_above x m e : at_most x (Z.pos m) e -> f64_lt (S754_finite false m e) x = false.
Proof.
  unfold f64_lt, SFltb. intros [->|(m' & e' & -> & He & Hm)]; [done|]. cbn [SFcompare].
  destruct (Z.compare_spec e e') as [->|Hlt|Hgt]; [|lia|done].
  rewrite Z.sub_diag, Z.mul_1_r in Hm. change (Pos.compare_cont Eq m m') with (Pos.compare m m').
  destruct (Pos.compare_spec m m'); [done|lia|done].
Qed.

(** A canonical [f32] is exact in binary64. *)
Lemma f64_of_f32_exact m e :
  bounded 24 128 m e = true ->
  exists m' e', f64_of_f32 (S754_finite false m e) = S754_finite false m' e' /\ e' <= e /\ Z.pos m' = Z.pos m * 2 ^ (e - e').
Proof.
  unfold bounded, canonical_mantissa, fexp, emin. intros [H1 H2]%andb_true_iff. apply Z.eqb_eq in H1. apply Z.leb_le in H2.
  pose proof (digits2_pos_bound m) as [_ Hd].
  cbn [f64_of_f32]. unfold binary_normalize, f64_prec, f64_emax.
  apply binary_round_exact; [lia| |unfold emin; lia].
  eapply Z.lt_le_trans; [exact Hd|]. apply Z.pow_le_mono_r; lia.
Qed.

(** ** Printed decimals *)

(** The printed decimal of a positive float between two bounds. *)
Lemma format_fixed_bounds digits m e A B :
  dlt (2 * A - 1) 0 (2 * (Z.pos m * 10 ^ Z.of_nat digits)) e -> dle (Z.pos m * 10 ^ Z.of_nat digits) e B 0 ->
  exists q, format_fixed digits (S754_finite false m e) = fixed_text digits q /\ A <= q <= B.
Proof.
  intros Hl Hu. exists (scaled_magnitude digits m e). split; [done|]. unfold scaled_magnitude.
  destruct (Z.leb_spec 0 e) as [H0|H0].
  - rewrite (dlt_at 0) in Hl by lia. rewrite (dle_at 0) in Hu by lia. rewrite !Z.sub_0_r in *. lia.
  - rewrite (dlt_at e) in Hl by lia. rewrite (dle_at e) in Hu by lia. rewrite Z.sub_diag, !Z.sub_0_l, ?Z.mul_1_r in *.
    pose proof (Z.pow_pos_nonneg 2 (- e) ltac:(lia) ltac:(lia)).
    split; [by apply round_half_even_lower|by apply round_half_even_upper].
Qed.

(** Scaling both sides by a positive constant. *)
Lemma dle_scale k a ea b eb : 0 <= k -> dle a ea b eb -> dle (a * k) ea (b * k) eb.
Proof. intros Hk. unfold dle. intros H. nia. Qed.
Lemma dlt_dle_trans a ea b eb d ed : dlt a ea b eb -> dle b eb d ed -> dlt a ea d ed.
Proof. set (c := Z.min ea (Z.min eb ed)). rewrite (dle_at c), !(dlt_at c) by lia. lia. Qed.

Lemma dle_add k a ea b eb : dle a ea b eb -> dle a (ea + k) b (eb + k).
Proof.
  unfold dle. replace (ea + k - Z.min (ea + k) (eb + k)) with (ea - Z.min ea eb) by lia.
  by replace (eb + k - Z.min (ea + k) (eb + k)) with (eb - Z.min ea eb) by lia.
Qed.

(** The same from bounds on the value itself. *)
Lemma format_fixed_between digits m e A B a ea b eb :
  dle a ea (Z.pos m) e -> dle (Z.pos m) e b eb ->
  dlt (2 * A - 1) 0 (a * (2 * 10 ^ Z.of_nat digits)) ea -> dle (b * 10 ^ Z.of_nat digits) eb B 0 ->
  exists q, format_fixed digits (S754_finite false m e) = fixed_text digits q /\ A <= q <= B.
Proof.
  intros Hl Hu HA HB. pose proof (Z.pow_nonneg 10 (Z.of_nat digits) ltac:(lia)) as Hp.
  apply format_fixed_bounds.
  - eapply dlt_dle_trans; [exact HA|].
    replace (2 * (Z.pos m * 10 ^ Z.of_nat digits)) with (Z.pos m * (2 * 10 ^ Z.of_nat digits)) by ring.
    apply dle_scale; [lia|done].
  - eapply dle_trans; [|exact HB]. by apply dle_scale.
Qed.

(** Bounds on a rounded value as comparisons. *)
Lemma at_most_dle m e M E : at_most (S754_finite false m e) M E -> dle (Z.pos m) e M E.
Proof.
  intros [Hz|(m' & e' & Hx & He & Hm)]; [done|]. injection Hx as -> ->. apply (dle_at e'); [lia..|].
  rewrite Z.sub_diag. lia.
Qed.
Lemma at_least_dle x M E : at_least x M E -> exists m e, x = S754_finite false m e /\ dle M E (Z.pos m) e.
Proof.
  intros (m & e & -> & He & Hm). exists m, e. split; [done|]. apply (dle_at e); [lia..|]. rewrite Z.sub_diag. lia.
Qed.
