(* ===== verification/RustNet.v ===== *)
(** * [std::net]: parsing of IP addresses

    [IpAddr::from_str] as the standard library's recursive-descent parser does it: an IPv4 address,
    else an IPv6 address of up to eight hexadecimal groups with one [::] and an optional embedded
    IPv4 address in the last two groups of a run.  A reader returns the value and the rest. *)

From S2P Require Import Prelude RustStd.

Definition reader (A : Type) : Type := rstring -> option (A * rstring).

(** [read_given_char]. *)
Definition read_given_char (c : rchar) : reader unit := fun s =>
  match s with
  | c' :: s' => if c' =? c then Some (tt, s') else None
  | [] => None
  end.

Definition hex_value (c : rchar) : Z :=
  if c <=? 57 then c - 48 else if c <=? 70 then c - 55 else c - 87.

(** [read_number(16, Some(4), true)]: one to four hexadecimal digits; a fifth digit fails. *)
Definition read_group : reader Z := fun s =>
  let digits := take_while is_ascii_hexdigit s in
  let count := length digits in
  if (count =? 0)%nat || (4 <? count)%nat then None
  else Some (fold_left (fun acc c => acc * 16 + hex_value c) digits 0, drop count s).

(** [read_number(10, Some(3), false)]: one to three decimal digits without a leading zero, at most
    255. *)
Definition read_octet : reader Z := fun s =>
  let digits := take_while is_ascii_digit s in
  o ← parse_ipv4_octet digits; Some (o, drop (length digits) s).

Definition read_ipv4_addr : reader Ipv4Addr := fun s =>
  '(a, s) ← read_octet s; '(_, s) ← read_given_char 46 s;
  '(b, s) ← read_octet s; '(_, s) ← read_given_char 46 s;
  '(c, s) ← read_octet s; '(_, s) ← read_given_char 46 s;
  '(d, s) ← read_octet s; Some (V4Octets a b c d, s).

(** [read_separator(':', index, inner)]. *)
Definition read_separator {A} (index : nat) (inner : reader A) : reader A := fun s =>
  match index with
  | O => inner s
  | S _ => '(_, s) ← read_given_char 58 s; inner s
  end.

(** [read_groups] on a slice of [limit] groups: the groups read, whether they end in an embedded
    IPv4 address, and the rest. *)
Fixpoint read_groups (limit index fuel : nat) (s : rstring) : list Z * bool * rstring :=
  match fuel with
  | O => ([], false, s)
  | S fuel =>
      match (if (index <? limit - 1)%nat then read_separator index read_ipv4_addr s else None) with
      | Some (V4Octets a b c d, s') => ([a * 256 + b; c * 256 + d], true, s')
      | None =>
          match read_separator index read_group s with
          | Some (g, s') =>
              let '(gs, v4, s'') := read_groups limit (S index) fuel s' in (g :: gs, v4, s'')
          | None => ([], false, s)
          end
      end
  end.

Definition ipv6_of_groups (groups : list Z) : Ipv6Addr :=
  V6Octets (concat (map (fun g => [g / 256; g mod 256]) groups)).

(** [read_ipv6_addr]. *)
Definition read_ipv6_addr : reader Ipv6Addr := fun s =>
  let '(head_groups, head_ipv4, s) := read_groups 8 0 8 s in
  if (length head_groups =? 8)%nat then Some (ipv6_of_groups head_groups, s)
  else if head_ipv4 then None
  else
    '(_, s) ← read_given_char 58 s; '(_, s) ← read_given_char 58 s;
    let limit := (8 - (length head_groups + 1))%nat in
    let '(tail_groups, _, s) := read_groups limit 0 limit s in
    Some (ipv6_of_groups
      (head_groups ++ replicate (8 - length head_groups - length tail_groups) 0 ++ tail_groups), s).

(** [str::parse::<IpAddr>]: the whole string is consumed. *)
Definition parse_ip_addr (s : rstring) : option IpAddr :=
  match parse_ipv4 s with
  | Some a => Some (V4 a)
  | None =>
      match read_ipv6_addr s with
      | Some (a, []) => Some (V6 a)
      | _ => None
      end
  end.

Lemma parse_ip_addr_samples :
  parse_ip_addr (str "192.0.2.1") = Some (V4 (V4Octets 192 0 2 1))
  /\ parse_ip_addr (str "2001:db8::1") =
     Some (V6 (V6Octets [32; 1; 13; 184; 0; 0; 0; 0; 0; 0; 0; 0; 0; 0; 0; 1]))
  /\ parse_ip_addr (str "::") = Some (V6 (V6Octets (replicate 16 0)))
  /\ parse_ip_addr (str "::ffff:192.0.2.1") =
     Some (V6 (V6Octets (replicate 10 0 ++ [255; 255; 192; 0; 2; 1])))
  /\ parse_ip_addr (str "1:2:3:4:5:6:7:8") =
     Some (V6 (V6Octets [0; 1; 0; 2; 0; 3; 0; 4; 0; 5; 0; 6; 0; 7; 0; 8]))
  /\ parse_ip_addr (str "1:2:3:4:5:6:7") = None
  /\ parse_ip_addr (str "1::2::3") = None
  /\ parse_ip_addr (str "192.0.2.256") = None
  /\ parse_ip_addr (str "192.0.2.1/24") = None.
Proof. by_compute. Qed.
