(* ===== verification/RadiusPacket.v ===== *)
(** * RADIUS packet framing, request verification and response building

    Models [src/src/rust/lqos_radius/src/packet.rs].  A datagram is a list of bytes.  The MD5 and
    HMAC-MD5 crates are the interface [RadiusDigest]; what the proofs use of them (16 output bytes)
    is [RadiusDigestLaws]. *)

From S2P Require Import Prelude RustStd.
From Equations Require Import Equations.
Open Scope Z_scope.
Set Equations Transparent.

(** ** Constants *)

Definition RADIUS_HEADER_LEN : nat := 20.
Definition RADIUS_MAX_PACKET_LEN : Z := 4096.
Definition RADIUS_MAX_ACCOUNTING_PACKET_LEN : Z := 4095.
Definition RADIUS_AUTHENTICATOR_LEN : nat := 16.
Definition RADIUS_ATTRIBUTE_HEADER_LEN : nat := 2.
Definition RADIUS_MIN_ATTRIBUTE_LEN : nat := 2.
Definition ACCOUNTING_REQUEST_CODE : Z := 4.
Definition ACCOUNTING_RESPONSE_CODE : Z := 5.
Definition PROXY_STATE_TYPE : Z := 33.
Definition MESSAGE_AUTHENTICATOR_TYPE : Z := 80.
Definition MESSAGE_AUTHENTICATOR_VALUE_LEN : nat := 16.

(** ** Data *)

Inductive RadiusCode : Type :=
| Code_AccessRequest
| Code_AccessAccept
| Code_AccessReject
| Code_AccountingRequest
| Code_AccountingResponse
| Code_Other (code : Z).

#[export] Instance RadiusCode_eq_dec : EqDecision RadiusCode.
Proof. solve_decision. Defined.

(** [RadiusCode::as_u8]. *)
Definition RadiusCode_as_u8 (c : RadiusCode) : Z :=
  match c with
  | Code_AccessRequest => 1
  | Code_AccessAccept => 2
  | Code_AccessReject => 3
  | Code_AccountingRequest => ACCOUNTING_REQUEST_CODE
  | Code_AccountingResponse => ACCOUNTING_RESPONSE_CODE
  | Code_Other code => code
  end.

(** [RadiusCode::from]. *)
Definition RadiusCode_from (code : Z) : RadiusCode :=
  if code =? 1 then Code_AccessRequest
  else if code =? 2 then Code_AccessAccept
  else if code =? 3 then Code_AccessReject
  else if code =? ACCOUNTING_REQUEST_CODE then Code_AccountingRequest
  else if code =? ACCOUNTING_RESPONSE_CODE then Code_AccountingResponse
  else Code_Other code.

Record RadiusAttribute : Type := mkRadiusAttribute {
  attr_kind : Z;
  attr_value : list Z
}.

#[export] Instance RadiusAttribute_eq_dec : EqDecision RadiusAttribute.
Proof. solve_decision. Defined.

Record RadiusPacket : Type := mkRadiusPacket {
  pkt_code : RadiusCode;
  pkt_identifier : Z;
  pkt_authenticator : list Z;
  pkt_attributes : list RadiusAttribute
}.

Record AccountingRequest : Type := mkAccountingRequest { request_packet : RadiusPacket }.

Inductive MessageAuthenticatorPolicy : Type := Policy_Optional | Policy_Required.

(** [MessageAuthenticatorPolicy::requires_message_authenticator]. *)
Definition requires_message_authenticator (p : MessageAuthenticatorPolicy) : bool :=
  match p with Policy_Required => true | Policy_Optional => false end.

Record VerifiedAccountingRequest : Type := mkVerifiedAccountingRequest {
  verified_request : AccountingRequest;
  has_message_authenticator : bool
}.

(** [VerifiedAccountingRequest::packet]. *)
Definition verified_packet (v : VerifiedAccountingRequest) : RadiusPacket :=
  request_packet (verified_request v).

Inductive PacketError : Type :=
| PacketTooShort (actual : nat)
| InvalidPacketLength (declared : Z)
| InvalidAccountingPacketLength (declared : Z)
| PacketTruncated (declared : Z) (actual : nat)
| AttributeHeaderTruncated (offset : nat)
| InvalidAttributeLength (offset : nat) (declared : nat)
| AttributeTruncated (offset : nat) (declared : nat) (remaining : nat)
| UnsupportedCode (code : Z)
| InvalidRequestAuthenticator
| MissingMessageAuthenticator
| InvalidMessageAuthenticatorLength (actual : nat)
| MultipleMessageAuthenticators
| InvalidMessageAuthenticator.

Inductive RadiusTlvError : Type :=
| HeaderTruncated
| InvalidLength (declared_len : nat)
| Truncated (declared_len : nat).

(** ** Digests *)

(** The [md5] and [hmac] crates. *)
Class RadiusDigest : Type := {
  md5_crate : list Z -> list Z;
  hmac_md5_crate : list Z -> list Z -> list Z
}.

(** Both produce 16 bytes ([finalize().into()] is a [[u8; 16]]). *)
Class RadiusDigestLaws (D : RadiusDigest) : Prop := {
  md5_crate_length : forall bytes, length (md5_crate bytes) = 16%nat;
  md5_crate_bytes : forall bytes, bytes_ok (md5_crate bytes);
  hmac_md5_crate_length : forall key bytes, length (hmac_md5_crate key bytes) = 16%nat;
  hmac_md5_crate_bytes : forall key bytes, bytes_ok (hmac_md5_crate key bytes)
}.

Definition md5_digest `{RadiusDigest} (bytes : list Z) : list Z := md5_crate bytes.
Definition hmac_md5 `{RadiusDigest} (key bytes : list Z) : list Z := hmac_md5_crate key bytes.

(** [ConstantTimeEq::ct_eq] decides equality of the byte strings. *)
Definition constant_time_eq (left right : list Z) : bool := bool_decide (left = right).

(** ** Parsing *)

Definition split_radius_tlv (value : list Z) : result RadiusTlvError (Z * list Z * list Z) :=
  if (length value <? RADIUS_ATTRIBUTE_HEADER_LEN)%nat then Err HeaderTruncated
  else
    let kind := byte_at value 0 in
    let declared_len := Z.to_nat (byte_at value 1) in
    if (declared_len <? RADIUS_MIN_ATTRIBUTE_LEN)%nat then Err (InvalidLength declared_len)
    else if (length value <? declared_len)%nat then Err (Truncated declared_len)
    else Ok (kind, slice value RADIUS_ATTRIBUTE_HEADER_LEN declared_len, drop declared_len value).

Definition packet_error_from_tlv_split
    (error : RadiusTlvError) (offset remaining : nat) : PacketError :=
  match error with
  | HeaderTruncated => AttributeHeaderTruncated offset
  | InvalidLength declared_len => InvalidAttributeLength offset declared_len
  | Truncated declared_len => AttributeTruncated offset declared_len remaining
  end.

Lemma split_radius_tlv_length value kind v remaining :
  split_radius_tlv value = Ok (kind, v, remaining) ->
  (length remaining < length value)%nat.
Proof.
  unfold split_radius_tlv, RADIUS_ATTRIBUTE_HEADER_LEN, RADIUS_MIN_ATTRIBUTE_LEN.
  cbv zeta. intros Hs. split_cases. to_prop. rewrite length_drop. lia.
Qed.

(** The [while !attribute_bytes.is_empty()] loop of [parse_attributes], with the loop's local
    variables as arguments. *)
Equations? parse_attributes_loop
    (attribute_bytes : list Z) (offset : nat) (attributes : list RadiusAttribute)
    : result PacketError (list RadiusAttribute) by wf (length attribute_bytes) lt :=
parse_attributes_loop [] offset attributes := Ok attributes;
parse_attributes_loop (b :: bs) offset attributes with inspect (split_radius_tlv (b :: bs)) => {
  | exist _ (Err error) _ :=
      Err (packet_error_from_tlv_split error offset (length (b :: bs)));
  | exist _ (Ok (kind, value, remaining)) Hsplit :=
      let declared_len := (length (b :: bs) - length remaining)%nat in
      parse_attributes_loop remaining (offset + declared_len)%nat
        (attributes ++ [mkRadiusAttribute kind value])
}.
Proof. by apply split_radius_tlv_length in Hsplit. Qed.

Definition parse_attributes (attribute_bytes : list Z) : result PacketError (list RadiusAttribute) :=
  parse_attributes_loop attribute_bytes RADIUS_HEADER_LEN [].

(** [u16::from_be_bytes([datagram[2], datagram[3]])]. *)
Definition declared_length (datagram : list Z) : Z :=
  u16_from_be_bytes (byte_at datagram 2) (byte_at datagram 3).

Definition parse_packet (datagram : list Z) : result PacketError RadiusPacket :=
  if (length datagram <? RADIUS_HEADER_LEN)%nat then Err (PacketTooShort (length datagram))
  else
    let declared_len := declared_length datagram in
    if negb (in_range (Z.of_nat RADIUS_HEADER_LEN) declared_len RADIUS_MAX_PACKET_LEN)
    then Err (InvalidPacketLength declared_len)
    else if Z.of_nat (length datagram) <? declared_len
    then Err (PacketTruncated declared_len (length datagram))
    else
      let packet_bytes := take (Z.to_nat declared_len) datagram in
      let authenticator := slice packet_bytes 4 RADIUS_HEADER_LEN in
      attributes ← parse_attributes (drop RADIUS_HEADER_LEN packet_bytes);
      Ok {| pkt_code := RadiusCode_from (byte_at packet_bytes 0);
            pkt_identifier := byte_at packet_bytes 1;
            pkt_authenticator := authenticator;
            pkt_attributes := attributes |}.

Definition handle_accounting_request (datagram : list Z) : result PacketError AccountingRequest :=
  packet ← parse_packet datagram;
  if negb (bool_decide (pkt_code packet = Code_AccountingRequest))
  then Err (UnsupportedCode (RadiusCode_as_u8 (pkt_code packet)))
  else
    let declared_len := declared_length datagram in
    if RADIUS_MAX_ACCOUNTING_PACKET_LEN <? declared_len
    then Err (InvalidAccountingPacketLength declared_len)
    else Ok (mkAccountingRequest packet).

(** ** Encoding *)

Definition encode_attribute_value (kind : Z) (value encoded : list Z) : list Z :=
  encoded ++ [kind] ++ [u8_of_usize (RADIUS_ATTRIBUTE_HEADER_LEN + length value)] ++ value.

Definition encode_attribute (attribute : RadiusAttribute) (encoded : list Z) : list Z :=
  encode_attribute_value (attr_kind attribute) (attr_value attribute) encoded.

Definition encoded_attribute_len (attribute : RadiusAttribute) : nat :=
  (RADIUS_ATTRIBUTE_HEADER_LEN + length (attr_value attribute))%nat.

(** The [for (index, attribute) in .. .enumerate()] loop of [encode_packet]. *)
Fixpoint encode_attributes_loop (zero_message_authenticator_index : option nat)
    (index : nat) (attributes : list RadiusAttribute) (encoded : list Z) : list Z :=
  match attributes with
  | [] => encoded
  | attribute :: rest =>
      encode_attributes_loop zero_message_authenticator_index (S index) rest
        (if bool_decide (Some index = zero_message_authenticator_index)
         then encode_attribute_value (attr_kind attribute)
                (replicate MESSAGE_AUTHENTICATOR_VALUE_LEN 0) encoded
         else encode_attribute attribute encoded)
  end.

Definition encoded_packet_len (packet : RadiusPacket) : nat :=
  (RADIUS_HEADER_LEN + sum_list (map encoded_attribute_len (pkt_attributes packet)))%nat.

Definition encode_packet (packet : RadiusPacket) (authenticator : list Z)
    (zero_message_authenticator_index : option nat) : list Z :=
  let packet_len := encoded_packet_len packet in
  let encoded := [RadiusCode_as_u8 (pkt_code packet)] ++ [pkt_identifier packet]
    ++ u16_to_be_bytes (u16_of_usize packet_len) ++ authenticator in
  encode_attributes_loop zero_message_authenticator_index 0 (pkt_attributes packet) encoded.

(** The loop of [encode_proxy_state_attributes]. *)
Fixpoint encode_proxy_state_loop (attributes : list RadiusAttribute) (encoded : list Z) : list Z :=
  match attributes with
  | [] => encoded
  | attribute :: rest =>
      encode_proxy_state_loop rest
        (if negb (attr_kind attribute =? PROXY_STATE_TYPE) then encoded
         else encode_attribute attribute encoded)
  end.

Definition encode_proxy_state_attributes (packet : RadiusPacket) (encoded : list Z) : list Z :=
  encode_proxy_state_loop (pkt_attributes packet) encoded.

(** ** Verification *)

(** The loop of [message_authenticator_index]. *)
Fixpoint message_authenticator_index_loop (index : nat) (found : option nat)
    (attributes : list RadiusAttribute) : result PacketError (option nat) :=
  match attributes with
  | [] => Ok found
  | attribute :: rest =>
      if negb (attr_kind attribute =? MESSAGE_AUTHENTICATOR_TYPE)
      then message_authenticator_index_loop (S index) found rest
      else if negb (length (attr_value attribute) =? MESSAGE_AUTHENTICATOR_VALUE_LEN)%nat
      then Err (InvalidMessageAuthenticatorLength (length (attr_value attribute)))
      else match found with
           | Some _ => Err MultipleMessageAuthenticators
           | None => message_authenticator_index_loop (S index) (Some index) rest
           end
  end.

Definition message_authenticator_index (packet : RadiusPacket) : result PacketError (option nat) :=
  message_authenticator_index_loop 0 None (pkt_attributes packet).

Section Verification.
Context `{RadiusDigest}.

Definition expected_request_authenticator (packet : RadiusPacket) (shared_secret : list Z) : list Z :=
  let signed_packet := encode_packet packet (replicate RADIUS_AUTHENTICATOR_LEN 0) None in
  md5_digest (signed_packet ++ shared_secret).

Definition expected_message_authenticator (packet : RadiusPacket) (shared_secret : list Z)
    (message_authenticator_index : nat) : list Z :=
  let signed_packet := encode_packet packet (replicate RADIUS_AUTHENTICATOR_LEN 0)
    (Some message_authenticator_index) in
  hmac_md5 shared_secret signed_packet.

Definition verify_request_authenticator (packet : RadiusPacket) (shared_secret : list Z)
    : result PacketError unit :=
  let expected := expected_request_authenticator packet shared_secret in
  if constant_time_eq (pkt_authenticator packet) expected then Ok ()
  else Err InvalidRequestAuthenticator.

(** [packet.attributes()[i].value()]; an index out of range, which would panic, is never passed. *)
Definition attribute_value_at (packet : RadiusPacket) (i : nat) : list Z :=
  default [] (attr_value <$> (pkt_attributes packet !! i)).

Definition verify_message_authenticator (packet : RadiusPacket) (shared_secret : list Z)
    (message_authenticator_index : nat) : result PacketError unit :=
  let expected :=
    expected_message_authenticator packet shared_secret message_authenticator_index in
  let actual := attribute_value_at packet message_authenticator_index in
  if constant_time_eq actual expected then Ok () else Err InvalidMessageAuthenticator.

Definition verify_accounting_request (datagram shared_secret : list Z)
    (message_authenticator_policy : MessageAuthenticatorPolicy)
    : result PacketError VerifiedAccountingRequest :=
  request ← handle_accounting_request datagram;
  index ← message_authenticator_index (request_packet request);
  if requires_message_authenticator message_authenticator_policy && bool_decide (index = None)
  then Err MissingMessageAuthenticator
  else
    _ ← match index with
        | Some i => verify_message_authenticator (request_packet request) shared_secret i
        | None => Ok ()
        end;
    _ ← verify_request_authenticator (request_packet request) shared_secret;
    Ok {| verified_request := request;
          has_message_authenticator := bool_decide (is_Some index) |}.

Definition build_accounting_response (request : VerifiedAccountingRequest) (shared_secret : list Z)
    : list Z :=
  let packet := verified_packet request in
  let response := [ACCOUNTING_RESPONSE_CODE] ++ [pkt_identifier packet] ++ [0; 0]
    ++ pkt_authenticator packet in
  let response := encode_proxy_state_attributes packet response in
  let response_len := length response in
  let response := copy_at response 2 (u16_to_be_bytes (u16_of_usize response_len)) in
  let authenticator := md5_digest (response ++ shared_secret) in
  let response := take response_len (response ++ shared_secret) in
  copy_at response 4 authenticator.

End Verification.

(** ** Well-formedness *)

(** What an attribute of a parsed packet satisfies: its length byte does not wrap. *)
Definition attribute_ok (a : RadiusAttribute) : Prop :=
  byte_ok (attr_kind a) /\ bytes_ok (attr_value a) /\ Z.of_nat (length (attr_value a)) <= 253.

#[export] Instance attribute_ok_dec a : Decision (attribute_ok a).
Proof. unfold attribute_ok. apply _. Defined.

Definition code_ok (c : RadiusCode) : Prop :=
  byte_ok (RadiusCode_as_u8 c) /\ RadiusCode_from (RadiusCode_as_u8 c) = c.

Definition packet_ok (p : RadiusPacket) : Prop :=
  code_ok (pkt_code p) /\ byte_ok (pkt_identifier p)
  /\ length (pkt_authenticator p) = RADIUS_AUTHENTICATOR_LEN
  /\ bytes_ok (pkt_authenticator p)
  /\ Forall attribute_ok (pkt_attributes p)
  /\ Z.of_nat (encoded_packet_len p) <= RADIUS_MAX_PACKET_LEN.

(** The wire form of one attribute and of a list of them. *)
Definition attribute_wire (a : RadiusAttribute) : list Z :=
  [attr_kind a; u8_of_usize (RADIUS_ATTRIBUTE_HEADER_LEN + length (attr_value a))] ++ attr_value a.
Definition attributes_wire (attrs : list RadiusAttribute) : list Z := concat (map attribute_wire attrs).

(** ** Lemmas on the attribute codec *)

Lemma attributes_wire_app l l' : attributes_wire (l ++ l') = attributes_wire l ++ attributes_wire l'.
Proof. unfold attributes_wire. by rewrite map_app, concat_app. Qed.

Lemma attributes_wire_cons a l : attributes_wire (a :: l) = attribute_wire a ++ attributes_wire l.
Proof. done. Qed.

Lemma length_attribute_wire a : length (attribute_wire a) = encoded_attribute_len a.
Proof. done. Qed.

Lemma length_attributes_wire attrs :
  length (attributes_wire attrs) = sum_list (map encoded_attribute_len attrs).
Proof.
  induction attrs as [|a attrs IH]; [done|].
  rewrite attributes_wire_cons, length_app, IH, length_attribute_wire. done.
Qed.

Lemma bytes_ok_attribute_wire a : attribute_ok a -> bytes_ok (attribute_wire a).
Proof. intros (? & ? & ?). unfold attribute_wire. cbn [app]. auto with bytes. Qed.

Lemma bytes_ok_attributes_wire attrs : Forall attribute_ok attrs -> bytes_ok (attributes_wire attrs).
Proof.
  induction 1 as [|a attrs Ha Hattrs IH]; [constructor|].
  apply bytes_ok_app; [by apply bytes_ok_attribute_wire|done].
Qed.

Lemma encode_attributes_loop_None i attrs encoded :
  encode_attributes_loop None i attrs encoded = encoded ++ attributes_wire attrs.
Proof.
  revert i encoded. induction attrs as [|a attrs IH]; intros i encoded; cbn [encode_attributes_loop].
  - by rewrite app_nil_r.
  - rewrite IH, bool_decide_false by done.
    unfold encode_attribute, encode_attribute_value. rewrite <- !app_assoc. done.
Qed.

Lemma encode_proxy_state_loop_wire attrs encoded :
  encode_proxy_state_loop attrs encoded =
  encoded ++ attributes_wire (List.filter (fun a => attr_kind a =? PROXY_STATE_TYPE) attrs).
Proof.
  revert encoded. induction attrs as [|a attrs IH]; intros encoded; cbn [encode_proxy_state_loop].
  - by rewrite app_nil_r.
  - rewrite IH. cbn [List.filter]. destruct (attr_kind a =? PROXY_STATE_TYPE); cbn [negb]; [|done].
    unfold encode_attribute, encode_attribute_value. by rewrite <- !app_assoc.
Qed.

Lemma split_radius_tlv_wire a rest :
  attribute_ok a ->
  split_radius_tlv (attribute_wire a ++ rest) = Ok (attr_kind a, attr_value a, rest).
Proof.
  intros (Hk & Hv & Hlen). destruct a as [kind value]; cbn [attr_kind attr_value] in *.
  set (w := attribute_wire _).
  assert (byte_at (w ++ rest) 1 = Z.of_nat (2 + length value)) as Hb1.
  { unfold byte_at. cbn. by rewrite u8_of_usize_small by (cbn; lia). }
  assert (length (w ++ rest) = (2 + length value + length rest)%nat) as Hl.
  { cbn. by rewrite length_app. }
  unfold split_radius_tlv, RADIUS_ATTRIBUTE_HEADER_LEN, RADIUS_MIN_ATTRIBUTE_LEN, slice.
  cbv zeta. rewrite Hb1, Hl, Nat2Z.id.
  do 3 (case_match; to_prop; [lia|]).
  subst w. cbn. by rewrite drop_0, Nat.sub_0_r, take_app_length, drop_app_length.
Qed.

Lemma split_radius_tlv_inv l kind value rest :
  bytes_ok l -> split_radius_tlv l = Ok (kind, value, rest) ->
  attribute_ok (mkRadiusAttribute kind value) /\ l = attribute_wire (mkRadiusAttribute kind value) ++ rest.
Proof.
  unfold split_radius_tlv, RADIUS_ATTRIBUTE_HEADER_LEN, RADIUS_MIN_ATTRIBUTE_LEN, slice.
  destruct l as [|b0 [|b1 l]]; [done..|]. intros Hok Hs.
  apply Forall_cons in Hok as [Hb0 Hok]. apply Forall_cons in Hok as [Hb1 Hok].
  cbn -[Nat.ltb take drop length] in Hs. split_cases. to_prop.
  unfold byte_ok in Hb1.
  assert (exists n, Z.to_nat b1 = S (S n)) as [n Hn].
  { exists (Z.to_nat b1 - 2)%nat. lia. }
  rewrite Hn in *. cbn -[u8_of_usize] in *. rewrite drop_0, Nat.sub_0_r.
  assert (length (take n l) = n) as Hlen by (rewrite length_take; lia).
  split.
  - split_and!; cbn; [done|by apply bytes_ok_take|lia].
  - unfold attribute_wire, RADIUS_ATTRIBUTE_HEADER_LEN. cbn [attr_kind attr_value].
    rewrite Hlen, u8_of_usize_small by lia. cbn. rewrite take_drop.
    replace (Z.of_nat (S (S n))) with b1 by lia. done.
Qed.

(** The loop's equation, without the termination argument. *)
Lemma parse_attributes_loop_step l offset acc :
  l <> [] ->
  parse_attributes_loop l offset acc =
  match split_radius_tlv l with
  | Err error => Err (packet_error_from_tlv_split error offset (length l))
  | Ok (kind, value, remaining) =>
      parse_attributes_loop remaining (offset + (length l - length remaining))
        (acc ++ [mkRadiusAttribute kind value])
  end.
Proof.
  destruct l as [|b bs]; [done|]. intros _. rewrite parse_attributes_loop_equation_2.
  destruct (inspect _) as [[[[kind value] remaining]|error] Hr]; cbn; by rewrite Hr.
Qed.

Lemma parse_attributes_loop_wire attrs offset acc :
  Forall attribute_ok attrs ->
  parse_attributes_loop (attributes_wire attrs) offset acc = Ok (acc ++ attrs).
Proof.
  intros Hok. revert offset acc. induction Hok as [|a attrs Ha Hattrs IH]; intros offset acc.
  - simp parse_attributes_loop. by rewrite app_nil_r.
  - rewrite attributes_wire_cons.
    pose proof (split_radius_tlv_wire a (attributes_wire attrs) Ha) as Hsplit.
    rewrite parse_attributes_loop_step, Hsplit, IH by done.
    destruct a. by rewrite <- app_assoc.
Qed.

(** Whatever the loop accepts is the wire form of the attributes it returns. *)
Lemma parse_attributes_loop_Ok l offset acc attrs :
  bytes_ok l -> parse_attributes_loop l offset acc = Ok attrs ->
  exists parsed, attrs = acc ++ parsed /\ Forall attribute_ok parsed /\ l = attributes_wire parsed.
Proof.
  intros Hok. remember (length l) as n eqn:Hn. revert l Hn offset acc Hok.
  induction n as [n IH] using lt_wf_ind; intros l -> offset acc Hok Hp.
  destruct (decide (l = [])) as [->|Hne].
  { rewrite parse_attributes_loop_equation_1 in Hp. injection Hp as <-. exists []. rewrite app_nil_r. by split_and!; [|constructor|]. }
  rewrite parse_attributes_loop_step in Hp by done.
  destruct (split_radius_tlv l) as [[[kind value] rest]|e] eqn:Hs; [|done].
  pose proof (split_radius_tlv_length _ _ _ _ Hs) as Hlt.
  apply split_radius_tlv_inv in Hs as [Ha Hl]; [|done].
  assert (bytes_ok rest) as Hrest by (by rewrite Hl in Hok; apply Forall_app in Hok as [_ ?]).
  apply (IH _ Hlt _ eq_refl) in Hp as (parsed & -> & Hparsed & ->); [|done].
  exists (mkRadiusAttribute kind value :: parsed). split_and!; [by rewrite <- app_assoc|by constructor|done].
Qed.

(** A parse error names the offset of the first malformed attribute: everything before it is the
    wire form of well-formed attributes, and the error is the one [split_radius_tlv] found there. *)
Lemma parse_attributes_loop_Err l offset acc e :
  bytes_ok l -> parse_attributes_loop l offset acc = Err e ->
  exists parsed rest tlv_error,
    Forall attribute_ok parsed /\ l = attributes_wire parsed ++ rest /\ rest <> []
    /\ split_radius_tlv rest = Err tlv_error
    /\ e = packet_error_from_tlv_split tlv_error (offset + length (attributes_wire parsed)) (length rest).
Proof.
  intros Hok. remember (length l) as n eqn:Hn. revert l Hn offset acc Hok.
  induction n as [n IH] using lt_wf_ind; intros l -> offset acc Hok Hp.
  destruct (decide (l = [])) as [->|Hne].
  { by rewrite parse_attributes_loop_equation_1 in Hp. }
  rewrite parse_attributes_loop_step in Hp by done.
  destruct (split_radius_tlv l) as [[[kind value] rest]|e'] eqn:Hs; [|injection Hp as <-].
  - pose proof (split_radius_tlv_length _ _ _ _ Hs) as Hlt.
    apply split_radius_tlv_inv in Hs as [Ha Hl]; [|done].
    assert (bytes_ok rest) as Hrest by (by rewrite Hl in Hok; apply Forall_app in Hok as [_ ?]).
    apply (IH _ Hlt _ eq_refl) in Hp as (parsed & rest' & tlv & Hparsed & Hr & Hrne & Htlv & ->); [|done].
    exists (mkRadiusAttribute kind value :: parsed), rest', tlv.
    rewrite attributes_wire_cons.
    split_and!; [by constructor|by rewrite <- app_assoc, <- Hr|done|done|].
    rewrite Hl at 1. rewrite !length_app. f_equal. lia.
  - exists [], l, e'. split_and!; [constructor|done|done|done|]. cbn. f_equal. lia.
Qed.

(** ** The packet codec *)

#[local] Arguments encoded_packet_len : simpl never.
#[local] Arguments u16_of_usize : simpl never.

(** The 20-byte header [encode_packet] writes. *)
Definition packet_header (p : RadiusPacket) (authenticator : list Z) : list Z :=
  [RadiusCode_as_u8 (pkt_code p)] ++ [pkt_identifier p]
  ++ u16_to_be_bytes (u16_of_usize (encoded_packet_len p)) ++ authenticator.

Lemma encode_packet_None p authenticator :
  encode_packet p authenticator None =
  packet_header p authenticator ++ attributes_wire (pkt_attributes p).
Proof. unfold encode_packet. cbv zeta. by rewrite encode_attributes_loop_None. Qed.

Lemma length_packet_header p authenticator :
  length authenticator = RADIUS_AUTHENTICATOR_LEN ->
  length (packet_header p authenticator) = RADIUS_HEADER_LEN.
Proof. intros Hl. unfold packet_header. cbn. by rewrite Hl. Qed.

Lemma length_encode_packet_None p authenticator :
  length authenticator = RADIUS_AUTHENTICATOR_LEN ->
  length (encode_packet p authenticator None) = encoded_packet_len p.
Proof.
  intros Hl. rewrite encode_packet_None, length_app, length_packet_header by done.
  by rewrite length_attributes_wire.
Qed.

Lemma encoded_packet_len_ge p : (RADIUS_HEADER_LEN <= encoded_packet_len p)%nat.
Proof. unfold encoded_packet_len. lia. Qed.

Lemma declared_length_header p authenticator rest :
  Z.of_nat (encoded_packet_len p) <= RADIUS_MAX_PACKET_LEN ->
  declared_length (packet_header p authenticator ++ rest) = Z.of_nat (encoded_packet_len p).
Proof.
  unfold RADIUS_MAX_PACKET_LEN. intros Hle. unfold declared_length, packet_header, byte_at. cbn.
  rewrite u16_be_roundtrip; rewrite u16_of_usize_small by lia; [done|lia].
Qed.

Lemma byte_at_take l n i : (i < n)%nat -> byte_at (take n l) i = byte_at l i.
Proof. intros. unfold byte_at. by rewrite lookup_take_lt. Qed.

(** Decoding the encoding of a well-formed packet, with any UDP padding after it, returns it. *)
Lemma parse_packet_encode p authenticator padding :
  packet_ok p -> length authenticator = RADIUS_AUTHENTICATOR_LEN ->
  parse_packet (encode_packet p authenticator None ++ padding) =
  Ok (mkRadiusPacket (pkt_code p) (pkt_identifier p) authenticator (pkt_attributes p)).
Proof.
  intros (Hcode & Hid & Hauth & Hauthb & Hattrs & Hlen) Hl.
  pose proof (length_encode_packet_None p authenticator Hl) as Hel.
  pose proof (encoded_packet_len_ge p) as Hge. unfold RADIUS_HEADER_LEN in Hge.
  unfold parse_packet, RADIUS_HEADER_LEN. cbv zeta.
  rewrite length_app, Hel.
  case_match; to_prop; [lia|].
  rewrite encode_packet_None, <- app_assoc, declared_length_header by done.
  rewrite (proj2 (in_range_spec _ _ _)) by lia. cbn [negb].
  case_match; to_prop; [lia|]. rewrite Nat2Z.id, app_assoc, <- encode_packet_None.
  rewrite <- Hel, take_app_length, encode_packet_None.
  pose proof (length_packet_header p authenticator Hl) as Hhl. unfold RADIUS_HEADER_LEN in Hhl.
  replace (drop 20 (packet_header _ _ ++ _)) with (attributes_wire (pkt_attributes p))
    by (by rewrite <- Hhl, drop_app_length).
  unfold parse_attributes. rewrite parse_attributes_loop_wire by done. cbn -[slice].
  destruct Hcode as [_ ->]. do 2 f_equal.
  unfold slice, packet_header. cbn. unfold RADIUS_AUTHENTICATOR_LEN in Hl.
  by rewrite drop_0, take_app_le, take_ge by lia.
Qed.

(** Splits a long enough datagram into its header fields and the rest. *)
Lemma datagram_split d :
  (20 <= length d)%nat ->
  d = [byte_at d 0; byte_at d 1; byte_at d 2; byte_at d 3] ++ slice d 4 20 ++ drop 20 d.
Proof.
  intros Hl. do 4 (destruct d as [|? d]; [cbn in Hl; lia|]).
  unfold byte_at, slice. cbn. rewrite drop_0. by rewrite take_drop.
Qed.

Lemma RadiusCode_from_ok b : byte_ok b -> code_ok (RadiusCode_from b) /\ RadiusCode_as_u8 (RadiusCode_from b) = b.
Proof.
  intros Hb.
  assert (RadiusCode_as_u8 (RadiusCode_from b) = b) as Heq.
  { unfold RadiusCode_from. repeat case_match; to_prop; subst; done. }
  unfold code_ok. by rewrite Heq.
Qed.

(** A packet that parses is well formed, and re-encoding it gives back, byte for byte, the declared
    prefix of the datagram. *)
Lemma parse_packet_Ok d p :
  bytes_ok d -> parse_packet d = Ok p ->
  packet_ok p
  /\ Z.of_nat (encoded_packet_len p) = declared_length d
  /\ 20 <= declared_length d <= RADIUS_MAX_PACKET_LEN
  /\ declared_length d <= Z.of_nat (length d)
  /\ encode_packet p (pkt_authenticator p) None = take (Z.to_nat (declared_length d)) d.
Proof.
  intros Hok Hp. unfold parse_packet, RADIUS_HEADER_LEN in Hp. cbv zeta in Hp.
  case_match; [done|]. to_prop. case_match eqn:Hr; [done|]. to_prop. apply in_range_spec in Hr.
  case_match; [done|]. to_prop. apply result_bind_Ok in Hp as (attrs & Hattrs & Hp).
  injection Hp as <-.
  set (n := Z.to_nat (declared_length d)) in *. set (pb := take n d) in *.
  assert (length pb = n) as Hpl by (unfold pb; rewrite length_take; lia).
  assert (bytes_ok pb) as Hpok by (unfold pb; auto with bytes).
  assert (20 <= length pb)%nat as Hpl20 by lia.
  apply parse_attributes_loop_Ok in Hattrs as (parsed & -> & Hparsed & Hw); [|auto with bytes].
  cbn [app] in *.
  assert (length (slice pb 4 20) = 16%nat) as Hs16 by (unfold slice; rewrite length_take, length_drop; lia).
  destruct (RadiusCode_from_ok (byte_at pb 0)) as [Hc1 Hc2]; [auto with bytes|].
  set (p := mkRadiusPacket _ _ _ _).
  assert (encoded_packet_len p = n) as Hen.
  { unfold encoded_packet_len, RADIUS_HEADER_LEN, p. cbn [pkt_attributes].
    rewrite <- length_attributes_wire, <- Hw, length_drop. lia. }
  split_and!; unfold RADIUS_MAX_PACKET_LEN in *; try lia.
  - unfold packet_ok. cbn [p pkt_code pkt_identifier pkt_authenticator pkt_attributes].
    split_and!; try done; [auto with bytes|unfold slice; auto with bytes|].
    unfold RADIUS_MAX_PACKET_LEN. lia.
  - rewrite encode_packet_None. unfold packet_header. rewrite Hen, u16_of_usize_small by lia.
    cbn [p pkt_code pkt_identifier pkt_authenticator pkt_attributes].
    rewrite Hc2, <- Hw. replace (Z.of_nat n) with (declared_length d) by lia.
    unfold declared_length. rewrite u16_to_from_be by auto with bytes.
    rewrite <- (byte_at_take d n 2), <- (byte_at_take d n 3) by lia. fold pb.
    rewrite (datagram_split pb Hpl20) at 7. by rewrite <- !app_assoc.
Qed.
