(* ===== verification/RadiusPacketSpec.v ===== *)
(** * What packet parsing, verification and response building guarantee

    States the codec, authenticator and response properties of [RadiusPacket] on the bytes of the
    datagram, the way RFC 2866 and RFC 2869 define them, and proves them for every implementation
    of the digest interface. *)

From S2P Require Import Prelude RustStd RadiusPacket.

#[local] Arguments encoded_packet_len : simpl never.
#[local] Arguments u16_of_usize : simpl never.

(** ** The byte-level specification *)

(** The RADIUS packet inside a datagram: the declared prefix, without UDP padding. *)
Definition packet_bytes (datagram : list Z) : list Z :=
  take (Z.to_nat (declared_length datagram)) datagram.

(** [n] bytes from offset [i] set to zero. *)
Definition zeroed (bytes : list Z) (i n : nat) : list Z := copy_at bytes i (replicate n 0).

(** RFC 2866: the request authenticator is the MD5 of the packet with a zero authenticator field,
    followed by the shared secret. *)
Definition request_authentic `{RadiusDigest} (packet shared_secret : list Z) : Prop :=
  slice packet 4 20 = md5_digest (zeroed packet 4 16 ++ shared_secret).

(** RFC 2869: the Message-Authenticator at offset [i] is the HMAC-MD5 of the packet with a zero
    authenticator field and a zero Message-Authenticator value. *)
Definition message_authentic `{RadiusDigest} (packet shared_secret : list Z) (i : nat) : Prop :=
  (i + 18 <= length packet)%nat
  /\ slice packet i (i + 2) = [MESSAGE_AUTHENTICATOR_TYPE; 18]
  /\ slice packet (i + 2) (i + 18) =
     hmac_md5 shared_secret (zeroed (zeroed packet 4 16) (i + 2) 16).

(** ** Lemmas *)

Lemma zeroed_header p authenticator rest :
  length authenticator = RADIUS_AUTHENTICATOR_LEN ->
  zeroed (packet_header p authenticator ++ rest) 4 16 =
  packet_header p (replicate RADIUS_AUTHENTICATOR_LEN 0) ++ rest.
Proof.
  unfold RADIUS_AUTHENTICATOR_LEN. intros Hl. unfold zeroed, copy_at, packet_header.
  cbn -[drop replicate]. rewrite length_replicate.
  replace (drop (4 + 16) _) with (drop 16 (authenticator ++ rest)) by done.
  by rewrite <- Hl at 2; rewrite drop_app_length.
Qed.

Lemma slice_header p authenticator rest :
  length authenticator = RADIUS_AUTHENTICATOR_LEN ->
  slice (packet_header p authenticator ++ rest) 4 20 = authenticator.
Proof.
  unfold RADIUS_AUTHENTICATOR_LEN. intros Hl. unfold slice, packet_header. cbn.
  rewrite drop_0, <- Hl. apply take_app_length.
Qed.

(** The loop answers the index of the only Message-Authenticator. *)
Lemma message_authenticator_index_loop_Ok j found attrs r :
  message_authenticator_index_loop j found attrs = Ok r ->
  (r = found /\ Forall (fun a => attr_kind a <> MESSAGE_AUTHENTICATOR_TYPE) attrs)
  \/ (found = None /\ exists i a, r = Some (j + i)%nat /\ attrs !! i = Some a
      /\ attr_kind a = MESSAGE_AUTHENTICATOR_TYPE
      /\ length (attr_value a) = MESSAGE_AUTHENTICATOR_VALUE_LEN).
Proof.
  revert j found. induction attrs as [|a attrs IH]; intros j found Hr;
    cbn [message_authenticator_index_loop] in Hr.
  { injection Hr as <-. left. split; [done|constructor]. }
  case_match eqn:Hk; to_prop.
  - apply IH in Hr as [[-> Hall]|(-> & i & b & -> & Hi & Hb)]; [left; by split; [|constructor]|].
    right. split; [done|]. exists (S i), b. split; [f_equal; lia|done].
  - case_match eqn:Hlen; [done|]. to_prop. destruct found as [f|]; [done|].
    apply IH in Hr as [[-> _]|[? _]]; [|done].
    right. split; [done|]. exists 0%nat, a. by rewrite Nat.add_0_r.
Qed.

Lemma message_authenticator_index_loop_none j found attrs :
  Forall (fun a => attr_kind a <> MESSAGE_AUTHENTICATOR_TYPE) attrs ->
  message_authenticator_index_loop j found attrs = Ok found.
Proof.
  intros Hall. revert j. induction Hall as [|a attrs Ha Hall IH]; intros j; cbn; [done|].
  rewrite (proj2 (Z.eqb_neq _ _) Ha). apply IH.
Qed.

Lemma message_authenticator_index_loop_app j found attrs attrs' :
  Forall (fun a => attr_kind a <> MESSAGE_AUTHENTICATOR_TYPE) attrs ->
  message_authenticator_index_loop j found (attrs ++ attrs') =
  message_authenticator_index_loop (j + length attrs) found attrs'.
Proof.
  intros Hall. revert j. induction Hall as [|a attrs Ha Hall IH]; intros j; cbn.
  - by rewrite Nat.add_0_r.
  - rewrite (proj2 (Z.eqb_neq _ _) Ha). cbn. rewrite IH. f_equal. lia.
Qed.

(** Writing zeros over attribute [i] is encoding the list in which its value is zero. *)
Lemma encode_attributes_loop_Some j i attrs encoded a :
  attrs !! i = Some a ->
  encode_attributes_loop (Some (j + i)%nat) j attrs encoded =
  encoded ++ attributes_wire (take i attrs)
  ++ attribute_wire (mkRadiusAttribute (attr_kind a) (replicate MESSAGE_AUTHENTICATOR_VALUE_LEN 0))
  ++ attributes_wire (drop (S i) attrs).
Proof.
  assert (forall n attrs k enc, (n < k)%nat -> encode_attributes_loop (Some n) k attrs enc =
    enc ++ attributes_wire attrs) as Hpast.
  { intros n l. induction l as [|b l IHl]; intros k enc Hk; cbn [encode_attributes_loop].
    - by rewrite app_nil_r.
    - rewrite bool_decide_false by (intros [=]; lia). rewrite IHl by lia.
      unfold encode_attribute, encode_attribute_value. by rewrite <- !app_assoc. }
  revert j i encoded. induction attrs as [|b attrs IH]; intros j i encoded Hi; [done|].
  cbn [encode_attributes_loop]. destruct i as [|i].
  - injection Hi as <-. rewrite Nat.add_0_r, bool_decide_true by done.
    rewrite Hpast by lia. unfold encode_attribute_value.
    rewrite <- !app_assoc. cbn. by rewrite drop_0.
  - rewrite bool_decide_false by (intros [=]; lia).
    replace (j + S i)%nat with (S j + i)%nat by lia. rewrite IH by done.
    cbn [take drop]. rewrite attributes_wire_cons.
    unfold encode_attribute, encode_attribute_value. by rewrite <- !app_assoc.
Qed.

(** [zeroed] at a split point. *)
Lemma zeroed_app l1 l2 l3 n :
  length l2 = n -> zeroed (l1 ++ l2 ++ l3) (length l1) n = l1 ++ replicate n 0 ++ l3.
Proof.
  intros <-. unfold zeroed, copy_at. rewrite take_app_length, length_replicate.
  do 2 f_equal. rewrite app_assoc, <- length_app. apply drop_app_length.
Qed.

Lemma slice_app l1 l2 l3 : slice (l1 ++ l2 ++ l3) (length l1) (length l1 + length l2) = l2.
Proof.
  unfold slice. rewrite drop_app_length.
  replace (length l1 + length l2 - length l1)%nat with (length l2) by lia. apply take_app_length.
Qed.

(** The offset of attribute [i] of a packet. *)
Definition attribute_offset (p : RadiusPacket) (i : nat) : nat :=
  (RADIUS_HEADER_LEN + length (attributes_wire (take i (pkt_attributes p))))%nat.

Lemma attributes_wire_split attrs i a :
  attrs !! i = Some a ->
  attributes_wire attrs =
  attributes_wire (take i attrs) ++ attribute_wire a ++ attributes_wire (drop (S i) attrs).
Proof.
  intros Hi. rewrite <- (take_drop_middle attrs i a Hi) at 1. by rewrite attributes_wire_app.
Qed.

(** The bytes the HMAC is computed over. *)
Lemma encode_packet_zero_ma p i a authenticator :
  length authenticator = RADIUS_AUTHENTICATOR_LEN ->
  pkt_attributes p !! i = Some a ->
  length (attr_value a) = MESSAGE_AUTHENTICATOR_VALUE_LEN ->
  encode_packet p (replicate RADIUS_AUTHENTICATOR_LEN 0) (Some i) =
  zeroed (zeroed (encode_packet p authenticator None) 4 16) (attribute_offset p i + 2) 16.
Proof.
  intros Hauth Hi Hlen. rewrite encode_packet_None, zeroed_header by done.
  unfold encode_packet. cbv zeta. rewrite (encode_attributes_loop_Some 0 i _ _ a) by done.
  fold (packet_header p (replicate RADIUS_AUTHENTICATOR_LEN 0)).
  rewrite (attributes_wire_split _ _ _ Hi). unfold attribute_wire at 2.
  set (h := packet_header _ _). set (w := attributes_wire (take i _)).
  set (k := [attr_kind a; _]). rewrite <- !app_assoc.
  replace (h ++ w ++ k ++ attr_value a ++ _) with
    ((h ++ w ++ k) ++ attr_value a ++ attributes_wire (drop (S i) (pkt_attributes p)))
    by (by rewrite <- !app_assoc).
  replace (attribute_offset p i + 2)%nat with (length (h ++ w ++ k)).
  2:{ unfold attribute_offset. rewrite !length_app. fold w. unfold h.
      rewrite length_packet_header by apply length_replicate. cbn. lia. }
  rewrite zeroed_app by done. rewrite <- !app_assoc. unfold attribute_wire. cbn [attr_kind attr_value].
  rewrite length_replicate. unfold k. by rewrite Hlen.
Qed.

Section Verify.
Context `{D : RadiusDigest}.

(** Everything acceptance implies, on the parsed packet. *)
Lemma verify_accounting_request_Ok d secret policy v :
  verify_accounting_request d secret policy = Ok v ->
  exists p index,
    parse_packet d = Ok p /\ verified_request v = mkAccountingRequest p
    /\ pkt_code p = Code_AccountingRequest /\ declared_length d <= RADIUS_MAX_ACCOUNTING_PACKET_LEN
    /\ message_authenticator_index p = Ok index
    /\ (policy = Policy_Required -> is_Some index)
    /\ (forall i, index = Some i ->
          attribute_value_at p i = expected_message_authenticator p secret i)
    /\ pkt_authenticator p = expected_request_authenticator p secret
    /\ has_message_authenticator v = bool_decide (is_Some index).
Proof.
  unfold verify_accounting_request, handle_accounting_request. intros Hv.
  apply result_bind_Ok in Hv as (req & Hreq & Hv).
  apply result_bind_Ok in Hreq as (p & Hp & Hreq). cbv zeta in Hreq.
  case_match eqn:Hcode; [done|]. to_prop. case_match; [done|]. to_prop. injection Hreq as <-.
  apply result_bind_Ok in Hv as (index & Hidx & Hv).
  case_match eqn:Hpol; [done|]. apply result_bind_Ok in Hv as ([] & Hma & Hv).
  apply result_bind_Ok in Hv as ([] & Hra & Hv). injection Hv as <-.
  exists p, index. cbn [verified_request has_message_authenticator request_packet] in *.
  split_and!; try done.
  - intros ->. destruct index as [i|]; [by eexists|done].
  - intros i ->. unfold verify_message_authenticator, constant_time_eq in Hma.
    cbv zeta in Hma. clear Hpol. by case_bool_decide.
  - unfold verify_request_authenticator, constant_time_eq in Hra.
    cbv zeta in Hra. clear Hpol. by case_bool_decide.
Qed.

(** Acceptance, from its parts. *)
Lemma verify_accounting_request_intro d secret policy p index :
  parse_packet d = Ok p -> pkt_code p = Code_AccountingRequest ->
  declared_length d <= RADIUS_MAX_ACCOUNTING_PACKET_LEN ->
  message_authenticator_index p = Ok index ->
  (policy = Policy_Required -> is_Some index) ->
  (forall i, index = Some i -> attribute_value_at p i = expected_message_authenticator p secret i) ->
  pkt_authenticator p = expected_request_authenticator p secret ->
  verify_accounting_request d secret policy =
  Ok {| verified_request := mkAccountingRequest p;
        has_message_authenticator := bool_decide (is_Some index) |}.
Proof.
  intros Hp Hcode Hlen Hidx Hpol Hma Hra.
  unfold verify_accounting_request, handle_accounting_request.
  rewrite Hp. cbn -[bool_decide Z.ltb]. rewrite Hcode, bool_decide_true by done. cbn -[bool_decide Z.ltb].
  rewrite (proj2 (Z.ltb_ge _ _) Hlen). cbn -[bool_decide]. rewrite Hidx. cbn -[bool_decide].
  assert (requires_message_authenticator policy && bool_decide (index = None) = false) as ->.
  { destruct policy; [done|]. destruct (Hpol eq_refl) as [i ->]. done. }
  unfold verify_request_authenticator, constant_time_eq. cbv zeta.
  rewrite (bool_decide_true (pkt_authenticator p = _)) by done.
  destruct index as [i|]; [|done].
  unfold verify_message_authenticator, constant_time_eq. cbv zeta.
  by rewrite (bool_decide_true (attribute_value_at p i = _)) by auto.
Qed.

Lemma expected_request_authenticator_bytes p secret authenticator :
  length authenticator = RADIUS_AUTHENTICATOR_LEN ->
  expected_request_authenticator p secret =
  md5_digest (zeroed (encode_packet p authenticator None) 4 16 ++ secret).
Proof.
  intros Hl. unfold expected_request_authenticator. cbv zeta.
  by rewrite !encode_packet_None, zeroed_header.
Qed.

(** The value of the Message-Authenticator in the bytes of the packet. *)
Lemma slice_attribute p i a authenticator :
  length authenticator = RADIUS_AUTHENTICATOR_LEN ->
  pkt_attributes p !! i = Some a ->
  let bytes := encode_packet p authenticator None in
  let o := attribute_offset p i in
  (o + 2 + length (attr_value a) <= length bytes)%nat
  /\ slice bytes o (o + 2) = [attr_kind a; u8_of_usize (2 + length (attr_value a))]
  /\ slice bytes (o + 2) (o + 2 + length (attr_value a)) = attr_value a.
Proof.
  intros Hl Hi. cbv zeta. rewrite encode_packet_None, (attributes_wire_split _ _ _ Hi).
  set (h := packet_header _ _). set (w := attributes_wire (take i _)).
  set (r := attributes_wire (drop _ _)).
  assert (attribute_offset p i = length (h ++ w)) as Ho.
  { unfold attribute_offset. fold w. rewrite length_app. unfold h. by rewrite length_packet_header. }
  unfold attribute_wire. set (k := [attr_kind a; _]). rewrite Ho, !app_assoc.
  split_and!.
  - rewrite !length_app. cbn. lia.
  - rewrite <- 2!(app_assoc (h ++ w)). apply (slice_app (h ++ w) k).
  - rewrite <- (app_assoc ((h ++ w) ++ k)).
    replace (length (h ++ w) + 2)%nat with (length ((h ++ w) ++ k)) by (rewrite (length_app _ k); done).
    apply slice_app.
Qed.

(** The request authenticator of an accepted packet. *)
Lemma verified_request_authentic d secret policy v :
  bytes_ok d ->
  verify_accounting_request d secret policy = Ok v -> request_authentic (packet_bytes d) secret.
Proof.
  intros Hok Hv.
  apply verify_accounting_request_Ok in Hv as (p & index & Hp & _ & _ & _ & _ & _ & _ & Hra & _).
  apply parse_packet_Ok in Hp as (Hpok & _ & _ & _ & Henc); [|done].
  destruct Hpok as (_ & _ & Hal & _ & _ & _). fold (packet_bytes d) in Henc. rewrite <- Henc.
  unfold request_authentic. rewrite encode_packet_None at 1. rewrite slice_header by done.
  by rewrite <- expected_request_authenticator_bytes.
Qed.

(** C1: an accepted Accounting-Request carries, in its own bytes, an authenticator field that is the
    MD5 of the packet with that field zeroed followed by the shared secret (RFC 2866); if it is
    reported to contain a Message-Authenticator then the packet contains one that is the HMAC-MD5
    of the packet with both fields zeroed (RFC 2869), which is always so when the policy requires
    it; the packet is an Accounting-Request of 20 to 4095 bytes; and the decoded request that is
    handed on re-encodes to exactly the bytes that were verified. *)
Theorem verify_accepts_only_authentic d secret policy v :
  bytes_ok d ->
  verify_accounting_request d secret policy = Ok v ->
  request_authentic (packet_bytes d) secret
  /\ (has_message_authenticator v = true -> exists i, message_authentic (packet_bytes d) secret i)
  /\ (policy = Policy_Required -> has_message_authenticator v = true)
  /\ byte_at (packet_bytes d) 0 = ACCOUNTING_REQUEST_CODE
  /\ 20 <= Z.of_nat (length (packet_bytes d)) <= RADIUS_MAX_ACCOUNTING_PACKET_LEN
  /\ encode_packet (verified_packet v) (pkt_authenticator (verified_packet v)) None = packet_bytes d.
Proof.
  intros Hok Hv. pose proof (verified_request_authentic d secret policy v Hok Hv) as Hauth.
  apply verify_accounting_request_Ok in Hv
    as (p & index & Hp & Hreq & Hcode & Hlen & Hidx & Hpol & Hma & Hra & Hhas).
  apply parse_packet_Ok in Hp as (Hpok & Hel & Hdl & Hdl' & Henc); [|done].
  destruct Hpok as (_ & _ & Hal & _ & _ & _).
  unfold verified_packet. rewrite Hreq. cbn [request_packet].
  assert (length (packet_bytes d) = Z.to_nat (declared_length d)) as Hpl.
  { unfold packet_bytes. rewrite length_take. lia. }
  fold (packet_bytes d) in Henc. rewrite <- Henc in Hauth |- *.
  split_and!.
  - done.
  - intros Hh. rewrite Hh in Hhas. symmetry in Hhas. apply bool_decide_eq_true in Hhas as [i ->].
    unfold message_authenticator_index in Hidx.
    apply message_authenticator_index_loop_Ok in Hidx as [[? _]|(_ & i' & a & Hi' & Ha & Hk & Hl)];
      [done|]. injection Hi' as ->. cbn [Nat.add] in *.
    exists (attribute_offset p i').
    destruct (slice_attribute p i' a (pkt_authenticator p)) as (Hs1 & Hs2 & Hs3); [done|done|].
    rewrite Hl in Hs1, Hs2, Hs3. unfold MESSAGE_AUTHENTICATOR_VALUE_LEN in *.
    unfold message_authentic. split_and!; [lia|by rewrite Hs2, Hk|].
    replace (attribute_offset p i' + 18)%nat with (attribute_offset p i' + 2 + 16)%nat by lia.
    rewrite Hs3. specialize (Hma i' eq_refl). unfold attribute_value_at in Hma.
    rewrite Ha in Hma. cbn in Hma. rewrite Hma. unfold expected_message_authenticator. cbv zeta.
    by rewrite (encode_packet_zero_ma p i' a (pkt_authenticator p)).
  - intros Hr. rewrite Hhas. apply bool_decide_eq_true. by apply Hpol.
  - rewrite encode_packet_None. cbn. by rewrite Hcode.
  - rewrite Henc, Hpl. lia.
  - rewrite Henc, Hpl. lia.
  - done.
Qed.

(** A client's signing procedure: fill in the Message-Authenticator between [pre] and [post]
    computed over the packet in which it is zero, then sign the packet. *)
Definition request_with_ma (identifier : Z) (pre post : list RadiusAttribute) (ma : list Z)
    (authenticator : list Z) : RadiusPacket :=
  mkRadiusPacket Code_AccountingRequest identifier authenticator
    (pre ++ mkRadiusAttribute MESSAGE_AUTHENTICATOR_TYPE ma :: post).

Definition sign_request (identifier : Z) (pre post : list RadiusAttribute) (secret : list Z)
    : RadiusPacket :=
  let zero := replicate 16 0 in
  let ma := hmac_md5 secret
    (encode_packet (request_with_ma identifier pre post zero zero) zero None) in
  let authenticator := md5_digest
    (encode_packet (request_with_ma identifier pre post ma zero) zero None ++ secret) in
  request_with_ma identifier pre post ma authenticator.

Context `{L : !RadiusDigestLaws D}.

Definition no_ma (a : RadiusAttribute) : Prop := attr_kind a <> MESSAGE_AUTHENTICATOR_TYPE.

Lemma request_with_ma_ok identifier pre post ma authenticator :
  byte_ok identifier -> Forall attribute_ok pre -> Forall attribute_ok post ->
  length ma = 16%nat -> bytes_ok ma -> length authenticator = 16%nat -> bytes_ok authenticator ->
  Z.of_nat (encoded_packet_len (request_with_ma identifier pre post ma authenticator)) <= 4095 ->
  packet_ok (request_with_ma identifier pre post ma authenticator).
Proof.
  intros Hid Hpre Hpost Hml Hmb Hal Hab Hlen. unfold packet_ok. split_and!; try done.
  - cbn. apply Forall_app. split; [done|]. constructor; [|done].
    unfold attribute_ok. cbn. split_and!; [done|done|lia].
  - unfold RADIUS_MAX_PACKET_LEN. lia.
Qed.

Lemma message_authenticator_index_request identifier pre post ma authenticator :
  Forall no_ma pre -> Forall no_ma post -> length ma = 16%nat ->
  message_authenticator_index (request_with_ma identifier pre post ma authenticator) =
  Ok (Some (length pre)).
Proof.
  intros Hpre Hpost Hl. unfold message_authenticator_index. cbn [request_with_ma pkt_attributes].
  rewrite message_authenticator_index_loop_app by done. cbn. rewrite Hl. cbn.
  by apply message_authenticator_index_loop_none.
Qed.

(** Zeroing the Message-Authenticator while encoding is encoding the packet in which it is zero. *)
Lemma encode_packet_request_zero identifier pre post ma authenticator :
  length ma = 16%nat ->
  encode_packet (request_with_ma identifier pre post ma authenticator) (replicate 16 0)
    (Some (length pre)) =
  encode_packet (request_with_ma identifier pre post (replicate 16 0) (replicate 16 0))
    (replicate 16 0) None.
Proof.
  intros Hl. rewrite encode_packet_None. unfold encode_packet. cbv zeta.
  set (p := request_with_ma identifier pre post ma authenticator).
  assert (pkt_attributes p !! length pre = Some (mkRadiusAttribute MESSAGE_AUTHENTICATOR_TYPE ma)) as Hi.
  { cbn. by rewrite lookup_app_r, Nat.sub_diag by lia. }
  rewrite (encode_attributes_loop_Some 0 (length pre) _ _ _ Hi).
  fold (packet_header p (replicate 16 0)). cbn [p request_with_ma pkt_attributes attr_kind].
  rewrite take_app_length, drop_app_ge, attributes_wire_app, attributes_wire_cons by lia.
  replace (S (length pre) - length pre)%nat with 1%nat by lia. cbn [drop]. rewrite drop_0.
  assert (encoded_packet_len p =
    encoded_packet_len (request_with_ma identifier pre post (replicate 16 0) (replicate 16 0))) as Hel.
  { unfold encoded_packet_len. rewrite <- !length_attributes_wire. cbn [p request_with_ma pkt_attributes].
    by rewrite !attributes_wire_app, !attributes_wire_cons, !length_app, !length_attribute_wire;
      unfold encoded_attribute_len; cbn; rewrite Hl. }
  unfold packet_header. by rewrite Hel.
Qed.

(** every Accounting-Request signed by a client that follows RFC 2866 and RFC 2869 with the
    same shared secret is accepted, under either policy and with any UDP padding, and is handed
    on as sent. *)
Theorem signed_request_is_accepted identifier pre post secret policy padding :
  byte_ok identifier -> Forall attribute_ok pre -> Forall attribute_ok post ->
  Forall no_ma pre -> Forall no_ma post ->
  Z.of_nat (encoded_packet_len (sign_request identifier pre post secret)) <= 4095 ->
  let p := sign_request identifier pre post secret in
  verify_accounting_request (encode_packet p (pkt_authenticator p) None ++ padding) secret policy =
  Ok (mkVerifiedAccountingRequest (mkAccountingRequest p) true).
Proof.
  intros Hid Hpre Hpost Hnpre Hnpost Hlen. cbv zeta. unfold sign_request in *. cbv zeta in *.
  set (zero := replicate 16 0) in *.
  set (ma := hmac_md5 secret _) in *. set (auth := md5_digest _) in *.
  set (p := request_with_ma identifier pre post ma auth) in *.
  assert (length ma = 16%nat) as Hml by apply hmac_md5_crate_length.
  assert (length auth = 16%nat) as Hal by apply md5_crate_length.
  assert (packet_ok p) as Hpok.
  { apply request_with_ma_ok; try done; [apply hmac_md5_crate_bytes|apply md5_crate_bytes]. }
  assert (pkt_attributes p !! length pre = Some (mkRadiusAttribute MESSAGE_AUTHENTICATOR_TYPE ma)) as Hi.
  { cbn. by rewrite lookup_app_r, Nat.sub_diag by lia. }
  rewrite (verify_accounting_request_intro _ _ _ p (Some (length pre))).
  - done.
  - by rewrite parse_packet_encode by done.
  - done.
  - rewrite encode_packet_None, <- app_assoc, declared_length_header by apply Hpok. done.
  - by apply message_authenticator_index_request.
  - by eexists.
  - intros i [= <-]. unfold attribute_value_at. rewrite Hi. cbn.
    unfold expected_message_authenticator. cbv zeta.
    unfold p. by rewrite encode_packet_request_zero.
  - unfold expected_request_authenticator. cbv zeta. done.
Qed.

(** The packet an Accounting-Response carries: the request's identifier and Proxy-State. *)
Definition response_packet (p : RadiusPacket) (authenticator : list Z) : RadiusPacket :=
  mkRadiusPacket Code_AccountingResponse (pkt_identifier p) authenticator
    (List.filter (fun a => attr_kind a =? PROXY_STATE_TYPE) (pkt_attributes p)).

Lemma encoded_packet_len_response p authenticator :
  (encoded_packet_len (response_packet p authenticator) <= encoded_packet_len p)%nat.
Proof.
  unfold encoded_packet_len. cbn [response_packet pkt_attributes].
  induction (pkt_attributes p) as [|a l IH]; cbn [List.filter]; [done|].
  case_match; cbn [map sum_list]; rewrite ?sum_list_with_cons in *; cbn in *; lia.
Qed.

Lemma response_packet_ok p authenticator :
  packet_ok p -> length authenticator = 16%nat -> bytes_ok authenticator ->
  packet_ok (response_packet p authenticator).
Proof.
  intros (Hc & Hid & Hal & Hab & Hattrs & Hlen) Hl Hb.
  pose proof (encoded_packet_len_response p authenticator) as Hle.
  unfold packet_ok. split_and!; try done; [|lia].
  cbn. apply List.Forall_forall. intros a [Ha _]%filter_In. by eapply List.Forall_forall in Hattrs.
Qed.

Lemma build_accounting_response_encode v secret :
  packet_ok (verified_packet v) ->
  let p := verified_packet v in
  let authenticator := md5_digest
    (encode_packet (response_packet p []) (pkt_authenticator p) None ++ secret) in
  build_accounting_response v secret = encode_packet (response_packet p authenticator) authenticator None.
Proof.
  intros (Hc & Hid & Hal & Hab & Hattrs & Hlen). cbv zeta. unfold build_accounting_response. cbv zeta.
  set (p := verified_packet v) in *. unfold encode_proxy_state_attributes.
  rewrite encode_proxy_state_loop_wire.
  set (w := attributes_wire _). set (h := [_] ++ [_] ++ [0; 0] ++ pkt_authenticator p).
  assert (length (h ++ w) = encoded_packet_len (response_packet p [])) as Hrl.
  { unfold h. rewrite length_app. cbn [app length]. rewrite Hal.
    unfold encoded_packet_len. by rewrite <- length_attributes_wire. }
  set (len := u16_to_be_bytes _).
  assert (copy_at (h ++ w) 2 len = encode_packet (response_packet p []) (pkt_authenticator p) None) as Hc1.
  { rewrite encode_packet_None. unfold packet_header. rewrite <- Hrl. done. }
  rewrite Hc1. set (auth := md5_digest _).
  assert (length auth = 16%nat) as Hauth by apply md5_crate_length.
  rewrite Hrl, <- (length_encode_packet_None _ (pkt_authenticator p)) by done.
  rewrite take_app_length, !encode_packet_None.
  unfold copy_at, packet_header. cbn -[drop attributes_wire]. rewrite Hauth.
  unfold RADIUS_AUTHENTICATOR_LEN in Hal.
  replace (drop (4 + 16) _) with (drop 16 (pkt_authenticator p ++ w)) by done.
  rewrite <- Hal at 1. by rewrite drop_app_length.
Qed.

(** A response is no longer than the request it answers. *)
Lemma response_not_longer d secret policy v :
  bytes_ok d ->
  verify_accounting_request d secret policy = Ok v ->
  (length (build_accounting_response v secret) <= length (packet_bytes d))%nat.
Proof.
  intros Hok Hv.
  apply verify_accounting_request_Ok in Hv as (p & index & Hp & Hreq & _).
  apply parse_packet_Ok in Hp as (Hpok & Hel & Hdl & Hdl' & Henc); [|done].
  assert (verified_packet v = p) as Hvp by (unfold verified_packet; by rewrite Hreq).
  rewrite build_accounting_response_encode by (by rewrite Hvp). rewrite Hvp.
  rewrite length_encode_packet_None by apply md5_crate_length.
  match goal with |- context [response_packet p ?auth] =>
    pose proof (encoded_packet_len_response p auth) end.
  unfold packet_bytes. rewrite length_take. lia.
Qed.

(** the Accounting-Response built for an accepted request parses as a RADIUS packet with code 5,
    the request's identifier and exactly its Proxy-State attributes in order; its authenticator
    field is the MD5 of the response with the request's authenticator in that field, followed by
    the shared secret (RFC 2866); and it is no longer than the request. *)
Theorem accounting_response_is_valid d secret policy v :
  bytes_ok d ->
  verify_accounting_request d secret policy = Ok v ->
  let r := build_accounting_response v secret in
  parse_packet r = Ok (response_packet (verified_packet v) (slice r 4 20))
  /\ slice r 4 20 = md5_digest (copy_at r 4 (pkt_authenticator (verified_packet v)) ++ secret)
  /\ (length r <= length (packet_bytes d))%nat.
Proof.
  intros Hok Hv. pose proof (response_not_longer d secret policy v Hok Hv) as Hlonger.
  apply verify_accounting_request_Ok in Hv as (p & index & Hp & Hreq & _).
  apply parse_packet_Ok in Hp as (Hpok & Hel & Hdl & Hdl' & Henc); [|done].
  assert (verified_packet v = p) as Hvp by (unfold verified_packet; by rewrite Hreq).
  cbv zeta. rewrite build_accounting_response_encode in Hlonger by (by rewrite Hvp). rewrite Hvp in Hlonger.
  rewrite build_accounting_response_encode by (by rewrite Hvp).
  rewrite Hvp. set (auth := md5_digest _).
  assert (length auth = 16%nat) as Hauth by apply md5_crate_length.
  assert (length (pkt_authenticator p) = 16%nat) as Hal by apply Hpok.
  rewrite encode_packet_None, slice_header, <- encode_packet_None by done.
  split_and!.
  - rewrite <- (app_nil_r (encode_packet _ _ _)). rewrite parse_packet_encode; [done| |done].
    apply response_packet_ok; [done..|apply md5_crate_bytes].
  - unfold auth at 1. do 2 f_equal. rewrite !encode_packet_None.
    unfold copy_at, packet_header. cbn -[drop attributes_wire]. rewrite Hal.
    replace (drop (4 + 16) _) with
      (drop 16 (auth ++ attributes_wire (pkt_attributes (response_packet p auth)))) by done.
    rewrite <- Hauth at 1. by rewrite drop_app_length.
  - exact Hlonger.
Qed.

End Verify.

(** ** The parser *)

(** C39: the parser accepts exactly the datagrams that start with the encoding of a well-formed
    packet, and returns that packet: every well-formed packet is recovered from its encoding
    whatever padding follows, and nothing else is accepted. *)
Theorem parse_packet_iff_encoding d p :
  bytes_ok d ->
  parse_packet d = Ok p <->
  packet_ok p /\ exists padding, d = encode_packet p (pkt_authenticator p) None ++ padding.
Proof.
  intros Hok. split.
  - intros Hp. apply parse_packet_Ok in Hp as (Hpok & Hel & Hdl & Hdl' & Henc); [|done].
    split; [done|]. exists (drop (Z.to_nat (declared_length d)) d). by rewrite Henc, take_drop.
  - intros [Hpok [padding ->]]. rewrite parse_packet_encode; [by destruct p|done|apply Hpok].
Qed.

(** The attributes before [rest] are well formed, and [rest], at this offset, is not empty. *)
Definition attributes_until (d : list Z) (rest : list Z) (offset : nat) : Prop :=
  rest <> []
  /\ exists parsed, Forall attribute_ok parsed /\ drop 20 (packet_bytes d) = attributes_wire parsed ++ rest
       /\ offset = (20 + length (attributes_wire parsed))%nat.

(** What each parse error says about the datagram.  An attribute has a byte of kind and a byte of length, which counts
    both. *)
Definition parse_error_spec (d : list Z) (e : PacketError) : Prop :=
  match e with
  | PacketTooShort actual => actual = length d /\ (length d < 20)%nat
  | InvalidPacketLength declared =>
      (20 <= length d)%nat /\ declared = declared_length d /\ ~ 20 <= declared <= 4096
  | PacketTruncated declared actual =>
      declared = declared_length d /\ 20 <= declared <= 4096
      /\ actual = length d /\ Z.of_nat (length d) < declared
  | AttributeHeaderTruncated offset => exists kind, attributes_until d [kind] offset
  | InvalidAttributeLength offset declared =>
      exists kind len rest, attributes_until d (kind :: len :: rest) offset
        /\ Z.of_nat declared = len /\ (declared < 2)%nat
  | AttributeTruncated offset declared remaining =>
      exists kind len rest, attributes_until d (kind :: len :: rest) offset
        /\ Z.of_nat declared = len /\ (2 <= declared)%nat
        /\ remaining = (2 + length rest)%nat /\ (remaining < declared)%nat
  | _ => False
  end.

Lemma tlv_error_spec d rest offset tlv e :
  attributes_until d rest offset -> bytes_ok rest -> split_radius_tlv rest = Err tlv ->
  e = packet_error_from_tlv_split tlv offset (length rest) -> parse_error_spec d e.
Proof.
  unfold split_radius_tlv, RADIUS_ATTRIBUTE_HEADER_LEN, RADIUS_MIN_ATTRIBUTE_LEN. cbv zeta.
  intros Hat Hok Hs ->. destruct rest as [|kind [|len rest]]; [by destruct Hat|..]; cbn -[Nat.ltb] in Hs.
  { injection Hs as <-. by exists kind. }
  apply Forall_cons in Hok as [_ Hok]. apply Forall_cons in Hok as [Hlen _]. unfold byte_ok in Hlen.
  unfold byte_at in Hs. cbn -[Nat.ltb] in Hs. split_cases; to_prop; exists kind, len, rest; cbn [length] in *; split_and!; try done; lia.
Qed.

(** C40: every parse error is accurate: the header errors report the real and the declared length
    and are raised only when the bounds are violated; an attribute error reports the offset of
    the first attribute that is malformed, everything before it being the wire form of well-formed
    attributes, and what is wrong with it: a header of a single byte, a length byte below two, or a length
    byte beyond the bytes that are left. *)
Theorem parse_packet_errors_are_accurate d e :
  bytes_ok d -> parse_packet d = Err e -> parse_error_spec d e.
Proof.
  intros Hok Hp. unfold parse_packet, RADIUS_HEADER_LEN in Hp. cbv zeta in Hp.
  case_match; to_prop; [by injection Hp as <-|].
  case_match eqn:Hr; to_prop.
  { injection Hp as <-. apply in_range_false in Hr. unfold RADIUS_MAX_PACKET_LEN in Hr. cbn. lia. }
  apply in_range_spec in Hr. unfold RADIUS_MAX_PACKET_LEN in Hr.
  case_match; to_prop; [injection Hp as <-; cbn; lia|].
  apply result_bind_Err in Hp as [Hp|(? & _ & ?)]; [|done].
  fold (packet_bytes d) in Hp.
  apply parse_attributes_loop_Err in Hp as (parsed & rest & tlv & Hparsed & Hw & Hne & Htlv & He);
    [|unfold packet_bytes; auto with bytes].
  assert (attributes_until d rest (20 + length (attributes_wire parsed))) as Hat by (split; [done|by exists parsed]).
  assert (bytes_ok rest) as Hrest.
  { assert (bytes_ok (drop 20 (packet_bytes d))) as Hb by (unfold packet_bytes; auto with bytes).
    rewrite Hw in Hb. by apply Forall_app in Hb as [_ ?]. }
  by eapply (tlv_error_spec d rest).
Qed.

(** ** Witnesses *)

(** A digest interface for the examples: every output byte is a checksum of the input. *)
Definition sample_checksum (seed : Z) (bytes : list Z) : list Z :=
  map (fun i => (seed + Z.of_nat i * 31 + foldr (fun b acc => b + 7 * acc) 5 bytes) mod 256) (seq 0 16).
Definition sample_digest : RadiusDigest := {|
  md5_crate := sample_checksum 1;
  hmac_md5_crate := fun key bytes => sample_checksum 2 (key ++ bytes)
|}.

Lemma sample_checksum_ok seed bytes :
  length (sample_checksum seed bytes) = 16%nat /\ bytes_ok (sample_checksum seed bytes).
Proof.
  split; [done|]. apply Forall_map, Forall_true. intros i. apply Z.mod_pos_bound. lia.
Qed.

#[export] Instance sample_digest_laws : RadiusDigestLaws sample_digest.
Proof. split; intros; apply sample_checksum_ok. Qed.

Definition sample_secret : list Z := str "testing123".
(** Acct-Status-Type Start and a Proxy-State, signed with a Message-Authenticator between them. *)
Definition sample_request : RadiusPacket :=
  @sign_request sample_digest 7 [mkRadiusAttribute 40 [0; 0; 0; 1]] [mkRadiusAttribute 33 [9; 9]]
    sample_secret.
Definition sample_datagram : list Z :=
  encode_packet sample_request (pkt_authenticator sample_request) None ++ [0; 0; 0].

Definition sample_verified : VerifiedAccountingRequest :=
  mkVerifiedAccountingRequest (mkAccountingRequest sample_request) true.

Lemma sample_verified_ok policy :
  @verify_accounting_request sample_digest sample_datagram sample_secret policy = Ok sample_verified.
Proof. destruct policy; vm_compute; reflexivity. Qed.

Lemma sample_datagram_ok : bytes_ok sample_datagram.
Proof. by_compute. Qed.

Lemma verify_accepts_only_authentic_witness :
  @request_authentic sample_digest (packet_bytes sample_datagram) sample_secret
  /\ exists i, @message_authentic sample_digest (packet_bytes sample_datagram) sample_secret i.
Proof.
  destruct (@verify_accepts_only_authentic sample_digest sample_datagram sample_secret
    Policy_Required sample_verified sample_datagram_ok (sample_verified_ok _)) as (H1 & H2 & _).
  exact (conj H1 (H2 eq_refl)).
Defined.

Lemma signed_request_is_accepted_witness :
  @verify_accounting_request sample_digest sample_datagram sample_secret Policy_Optional =
  Ok (mkVerifiedAccountingRequest (mkAccountingRequest sample_request) true).
Proof.
  apply (@signed_request_is_accepted sample_digest sample_digest_laws 7
    [mkRadiusAttribute 40 [0; 0; 0; 1]] [mkRadiusAttribute 33 [9; 9]] sample_secret
    Policy_Optional [0; 0; 0]).
  - by_compute.
  - by_compute.
  - by_compute.
  - by repeat constructor.
  - by repeat constructor.
  - by vm_compute.
Defined.

Lemma accounting_response_is_valid_witness :
  let r := @build_accounting_response sample_digest sample_verified sample_secret in
  length r = 24%nat
  /\ parse_packet r = Ok (response_packet sample_request (slice r 4 20)).
Proof.
  split; [vm_compute; reflexivity|].
  exact (proj1 (@accounting_response_is_valid sample_digest sample_digest_laws sample_datagram
    sample_secret Policy_Optional sample_verified sample_datagram_ok (sample_verified_ok _))).
Defined.

Lemma parse_packet_iff_encoding_witness :
  parse_packet sample_datagram = Ok sample_request
  /\ exists padding, sample_datagram =
       encode_packet sample_request (pkt_authenticator sample_request) None ++ padding.
Proof.
  split; [vm_compute; reflexivity|].
  apply (proj1 (parse_packet_iff_encoding sample_datagram sample_request sample_datagram_ok)).
  vm_compute. reflexivity.
Defined.

Lemma parse_packet_errors_are_accurate_witness :
  let d := [4; 1; 0; 25] ++ replicate 16 0 ++ [1; 3; 65; 40; 1] in
  parse_packet d = Err (InvalidAttributeLength 23 1) /\ parse_error_spec d (InvalidAttributeLength 23 1).
Proof.
  cbv zeta. split; [vm_compute; reflexivity|].
  apply parse_packet_errors_are_accurate; [by_compute|vm_compute; reflexivity].
Defined.
