(* ===== verification/AccountingEvent.v ===== *)
(** * Typed Accounting-Request events

    Models [src/src/rust/lqos_radius/src/accounting_event.rs]: the decoding of the attributes of an
    Accounting-Request into an [AccountingEvent].  The event's fields are the record's projections
    with the prefix [ev_]; the updates [event.field = x] are the functions [set_ev_field]. *)

From S2P Require Import Prelude RustStd RadiusPacket.
From Equations Require Import Equations.
Open Scope Z_scope.
Set Equations Transparent.

(** ** Constants *)

Definition USER_NAME : Z := 1.
Definition NAS_IP_ADDRESS : Z := 4.
Definition NAS_PORT : Z := 5.
Definition FRAMED_IP_ADDRESS : Z := 8.
Definition FRAMED_IP_NETMASK : Z := 9.
Definition FRAMED_ROUTE : Z := 22.
Definition CLASS : Z := 25.
Definition VENDOR_SPECIFIC : Z := 26.
Definition CALLED_STATION_ID : Z := 30.
Definition CALLING_STATION_ID : Z := 31.
Definition NAS_IDENTIFIER : Z := 32.
Definition ACCT_STATUS_TYPE : Z := 40.
Definition ACCT_SESSION_ID : Z := 44.
Definition EVENT_TIMESTAMP : Z := 55.
Definition NAS_PORT_ID : Z := 87.
Definition NAS_IPV6_ADDRESS : Z := 95.
Definition FRAMED_IPV6_PREFIX : Z := 97.
Definition DELEGATED_IPV6_PREFIX : Z := 123.
Definition FRAMED_IPV6_ADDRESS : Z := 168.
Definition MIKROTIK_VENDOR_ID : Z := 14988.
Definition MIKROTIK_RATE_LIMIT : Z := 8.

(** ** Data *)

Inductive AcctStatusType : Type :=
| Status_Start
| Status_Stop
| Status_InterimUpdate
| Status_AccountingOn
| Status_AccountingOff
| Status_Unknown (value : Z).

#[export] Instance AcctStatusType_eq_dec : EqDecision AcctStatusType.
Proof. solve_decision. Defined.

(** [AcctStatusType::as_u32] and [AcctStatusType::from]. *)
Definition AcctStatusType_as_u32 (s : AcctStatusType) : Z :=
  match s with
  | Status_Start => 1
  | Status_Stop => 2
  | Status_InterimUpdate => 3
  | Status_AccountingOn => 7
  | Status_AccountingOff => 8
  | Status_Unknown value => value
  end.
Definition AcctStatusType_from (value : Z) : AcctStatusType :=
  if value =? 1 then Status_Start
  else if value =? 2 then Status_Stop
  else if value =? 3 then Status_InterimUpdate
  else if value =? 7 then Status_AccountingOn
  else if value =? 8 then Status_AccountingOff
  else Status_Unknown value.

Record Ipv6Prefix : Type := mkIpv6Prefix {
  prefix_address : Ipv6Addr;
  prefix_len : Z
}.

Record UnknownVendorAttribute : Type := mkUnknownVendorAttribute {
  uva_vendor_id : option Z;
  uva_vendor_type : option Z;
  uva_value : list Z
}.

Definition UnknownVendorAttribute_malformed (value : list Z) : UnknownVendorAttribute :=
  mkUnknownVendorAttribute None None value.
Definition UnknownVendorAttribute_vendor_only (vendor_id : Z) : UnknownVendorAttribute :=
  mkUnknownVendorAttribute (Some vendor_id) None [].
Definition UnknownVendorAttribute_vendor_data (vendor_id : Z) (value : list Z) : UnknownVendorAttribute :=
  mkUnknownVendorAttribute (Some vendor_id) (head value) value.
Definition UnknownVendorAttribute_raw_vendor_payload (vendor_id : Z) (value : list Z)
    : UnknownVendorAttribute :=
  mkUnknownVendorAttribute (Some vendor_id) None value.
Definition UnknownVendorAttribute_subattribute (vendor_id vendor_type : Z) (value : list Z)
    : UnknownVendorAttribute :=
  mkUnknownVendorAttribute (Some vendor_id) (Some vendor_type) value.

Inductive MikrotikRateLimitDirection : Type := Direction_Normal | Direction_Swapped.

(** [MikrotikRateLimitDirection::map_rates]. *)
Definition map_rates (d : MikrotikRateLimitDirection) (nas_rx_bps nas_tx_bps : Z) : Z * Z :=
  match d with
  | Direction_Normal => (nas_rx_bps, nas_tx_bps)
  | Direction_Swapped => (nas_tx_bps, nas_rx_bps)
  end.

Record AccountingEventOptions : Type := mkAccountingEventOptions {
  mikrotik_rate_limit_direction : MikrotikRateLimitDirection
}.
Definition AccountingEventOptions_default : AccountingEventOptions :=
  mkAccountingEventOptions Direction_Normal.

Record MikrotikRateLimit : Type := mkMikrotikRateLimit {
  rl_original : rstring;
  rl_nas_rx_bps : Z;
  rl_nas_tx_bps : Z;
  rl_upload_bps : Z;
  rl_download_bps : Z
}.

Record AccountingEvent : Type := mkAccountingEvent {
  ev_status_type : option AcctStatusType;
  ev_acct_session_id : option rstring;
  ev_nas_ip_address : option Ipv4Addr;
  ev_nas_ipv6_address : option Ipv6Addr;
  ev_nas_identifier : option rstring;
  ev_nas_port : option Z;
  ev_nas_port_id : option rstring;
  ev_user_name : option rstring;
  ev_calling_station_id : option rstring;
  ev_called_station_id : option rstring;
  ev_class : list (list Z);
  ev_event_timestamp : option Z;
  ev_framed_ip_address : option Ipv4Addr;
  ev_framed_ip_netmask : option Ipv4Addr;
  ev_framed_routes : list rstring;
  ev_framed_ipv6_prefixes : list Ipv6Prefix;
  ev_delegated_ipv6_prefixes : list Ipv6Prefix;
  ev_framed_ipv6_address : option Ipv6Addr;
  ev_unknown_standard_attributes : list RadiusAttribute;
  ev_unknown_vendor_attributes : list UnknownVendorAttribute;
  ev_mikrotik_rate_limits : list MikrotikRateLimit
}.

(** [AccountingEvent::default]. *)
Definition AccountingEvent_default : AccountingEvent :=
  mkAccountingEvent None None None None None None None None None None [] None None None [] [] [] None [] [] [].

(** Field assignment. *)
Definition set_ev_status_type (x : option AcctStatusType) (e : AccountingEvent) : AccountingEvent :=
  let '(mkAccountingEvent _ x1 x2 x3 x4 x5 x6 x7 x8 x9 x10 x11 x12 x13 x14 x15 x16 x17 x18 x19 x20) := e in
  mkAccountingEvent x x1 x2 x3 x4 x5 x6 x7 x8 x9 x10 x11 x12 x13 x14 x15 x16 x17 x18 x19 x20.
Definition set_ev_acct_session_id (x : option rstring) (e : AccountingEvent) : AccountingEvent :=
  let '(mkAccountingEvent x0 _ x2 x3 x4 x5 x6 x7 x8 x9 x10 x11 x12 x13 x14 x15 x16 x17 x18 x19 x20) := e in
  mkAccountingEvent x0 x x2 x3 x4 x5 x6 x7 x8 x9 x10 x11 x12 x13 x14 x15 x16 x17 x18 x19 x20.
Definition set_ev_nas_ip_address (x : option Ipv4Addr) (e : AccountingEvent) : AccountingEvent :=
  let '(mkAccountingEvent x0 x1 _ x3 x4 x5 x6 x7 x8 x9 x10 x11 x12 x13 x14 x15 x16 x17 x18 x19 x20) := e in
  mkAccountingEvent x0 x1 x x3 x4 x5 x6 x7 x8 x9 x10 x11 x12 x13 x14 x15 x16 x17 x18 x19 x20.
Definition set_ev_nas_ipv6_address (x : option Ipv6Addr) (e : AccountingEvent) : AccountingEvent :=
  let '(mkAccountingEvent x0 x1 x2 _ x4 x5 x6 x7 x8 x9 x10 x11 x12 x13 x14 x15 x16 x17 x18 x19 x20) := e in
  mkAccountingEvent x0 x1 x2 x x4 x5 x6 x7 x8 x9 x10 x11 x12 x13 x14 x15 x16 x17 x18 x19 x20.
Definition set_ev_nas_identifier (x : option rstring) (e : AccountingEvent) : AccountingEvent :=
  let '(mkAccountingEvent x0 x1 x2 x3 _ x5 x6 x7 x8 x9 x10 x11 x12 x13 x14 x15 x16 x17 x18 x19 x20) := e in
  mkAccountingEvent x0 x1 x2 x3 x x5 x6 x7 x8 x9 x10 x11 x12 x13 x14 x15 x16 x17 x18 x19 x20.
Definition set_ev_nas_port (x : option Z) (e : AccountingEvent) : AccountingEvent :=
  let '(mkAccountingEvent x0 x1 x2 x3 x4 _ x6 x7 x8 x9 x10 x11 x12 x13 x14 x15 x16 x17 x18 x19 x20) := e in
  mkAccountingEvent x0 x1 x2 x3 x4 x x6 x7 x8 x9 x10 x11 x12 x13 x14 x15 x16 x17 x18 x19 x20.
Definition set_ev_nas_port_id (x : option rstring) (e : AccountingEvent) : AccountingEvent :=
  let '(mkAccountingEvent x0 x1 x2 x3 x4 x5 _ x7 x8 x9 x10 x11 x12 x13 x14 x15 x16 x17 x18 x19 x20) := e in
  mkAccountingEvent x0 x1 x2 x3 x4 x5 x x7 x8 x9 x10 x11 x12 x13 x14 x15 x16 x17 x18 x19 x20.
Definition set_ev_user_name (x : option rstring) (e : AccountingEvent) : AccountingEvent :=
  let '(mkAccountingEvent x0 x1 x2 x3 x4 x5 x6 _ x8 x9 x10 x11 x12 x13 x14 x15 x16 x17 x18 x19 x20) := e in
  mkAccountingEvent x0 x1 x2 x3 x4 x5 x6 x x8 x9 x10 x11 x12 x13 x14 x15 x16 x17 x18 x19 x20.
Definition set_ev_calling_station_id (x : option rstring) (e : AccountingEvent) : AccountingEvent :=
  let '(mkAccountingEvent x0 x1 x2 x3 x4 x5 x6 x7 _ x9 x10 x11 x12 x13 x14 x15 x16 x17 x18 x19 x20) := e in
  mkAccountingEvent x0 x1 x2 x3 x4 x5 x6 x7 x x9 x10 x11 x12 x13 x14 x15 x16 x17 x18 x19 x20.
Definition set_ev_called_station_id (x : option rstring) (e : AccountingEvent) : AccountingEvent :=
  let '(mkAccountingEvent x0 x1 x2 x3 x4 x5 x6 x7 x8 _ x10 x11 x12 x13 x14 x15 x16 x17 x18 x19 x20) := e in
  mkAccountingEvent x0 x1 x2 x3 x4 x5 x6 x7 x8 x x10 x11 x12 x13 x14 x15 x16 x17 x18 x19 x20.
Definition set_ev_class (x : list (list Z)) (e : AccountingEvent) : AccountingEvent :=
  let '(mkAccountingEvent x0 x1 x2 x3 x4 x5 x6 x7 x8 x9 _ x11 x12 x13 x14 x15 x16 x17 x18 x19 x20) := e in
  mkAccountingEvent x0 x1 x2 x3 x4 x5 x6 x7 x8 x9 x x11 x12 x13 x14 x15 x16 x17 x18 x19 x20.
Definition set_ev_event_timestamp (x : option Z) (e : AccountingEvent) : AccountingEvent :=
  let '(mkAccountingEvent x0 x1 x2 x3 x4 x5 x6 x7 x8 x9 x10 _ x12 x13 x14 x15 x16 x17 x18 x19 x20) := e in
  mkAccountingEvent x0 x1 x2 x3 x4 x5 x6 x7 x8 x9 x10 x x12 x13 x14 x15 x16 x17 x18 x19 x20.
Definition set_ev_framed_ip_address (x : option Ipv4Addr) (e : AccountingEvent) : AccountingEvent :=
  let '(mkAccountingEvent x0 x1 x2 x3 x4 x5 x6 x7 x8 x9 x10 x11 _ x13 x14 x15 x16 x17 x18 x19 x20) := e in
  mkAccountingEvent x0 x1 x2 x3 x4 x5 x6 x7 x8 x9 x10 x11 x x13 x14 x15 x16 x17 x18 x19 x20.
Definition set_ev_framed_ip_netmask (x : option Ipv4Addr) (e : AccountingEvent) : AccountingEvent :=
  let '(mkAccountingEvent x0 x1 x2 x3 x4 x5 x6 x7 x8 x9 x10 x11 x12 _ x14 x15 x16 x17 x18 x19 x20) := e in
  mkAccountingEvent x0 x1 x2 x3 x4 x5 x6 x7 x8 x9 x10 x11 x12 x x14 x15 x16 x17 x18 x19 x20.
Definition set_ev_framed_routes (x : list rstring) (e : AccountingEvent) : AccountingEvent :=
  let '(mkAccountingEvent x0 x1 x2 x3 x4 x5 x6 x7 x8 x9 x10 x11 x12 x13 _ x15 x16 x17 x18 x19 x20) := e in
  mkAccountingEvent x0 x1 x2 x3 x4 x5 x6 x7 x8 x9 x10 x11 x12 x13 x x15 x16 x17 x18 x19 x20.
Definition set_ev_framed_ipv6_prefixes (x : list Ipv6Prefix) (e : AccountingEvent) : AccountingEvent :=
  let '(mkAccountingEvent x0 x1 x2 x3 x4 x5 x6 x7 x8 x9 x10 x11 x12 x13 x14 _ x16 x17 x18 x19 x20) := e in
  mkAccountingEvent x0 x1 x2 x3 x4 x5 x6 x7 x8 x9 x10 x11 x12 x13 x14 x x16 x17 x18 x19 x20.
Definition set_ev_delegated_ipv6_prefixes (x : list Ipv6Prefix) (e : AccountingEvent) : AccountingEvent :=
  let '(mkAccountingEvent x0 x1 x2 x3 x4 x5 x6 x7 x8 x9 x10 x11 x12 x13 x14 x15 _ x17 x18 x19 x20) := e in
  mkAccountingEvent x0 x1 x2 x3 x4 x5 x6 x7 x8 x9 x10 x11 x12 x13 x14 x15 x x17 x18 x19 x20.
Definition set_ev_framed_ipv6_address (x : option Ipv6Addr) (e : AccountingEvent) : AccountingEvent :=
  let '(mkAccountingEvent x0 x1 x2 x3 x4 x5 x6 x7 x8 x9 x10 x11 x12 x13 x14 x15 x16 _ x18 x19 x20) := e in
  mkAccountingEvent x0 x1 x2 x3 x4 x5 x6 x7 x8 x9 x10 x11 x12 x13 x14 x15 x16 x x18 x19 x20.
Definition set_ev_unknown_standard_attributes (x : list RadiusAttribute) (e : AccountingEvent) : AccountingEvent :=
  let '(mkAccountingEvent x0 x1 x2 x3 x4 x5 x6 x7 x8 x9 x10 x11 x12 x13 x14 x15 x16 x17 _ x19 x20) := e in
  mkAccountingEvent x0 x1 x2 x3 x4 x5 x6 x7 x8 x9 x10 x11 x12 x13 x14 x15 x16 x17 x x19 x20.
Definition set_ev_unknown_vendor_attributes (x : list UnknownVendorAttribute) (e : AccountingEvent) : AccountingEvent :=
  let '(mkAccountingEvent x0 x1 x2 x3 x4 x5 x6 x7 x8 x9 x10 x11 x12 x13 x14 x15 x16 x17 x18 _ x20) := e in
  mkAccountingEvent x0 x1 x2 x3 x4 x5 x6 x7 x8 x9 x10 x11 x12 x13 x14 x15 x16 x17 x18 x x20.
Definition set_ev_mikrotik_rate_limits (x : list MikrotikRateLimit) (e : AccountingEvent) : AccountingEvent :=
  let '(mkAccountingEvent x0 x1 x2 x3 x4 x5 x6 x7 x8 x9 x10 x11 x12 x13 x14 x15 x16 x17 x18 x19 _) := e in
  mkAccountingEvent x0 x1 x2 x3 x4 x5 x6 x7 x8 x9 x10 x11 x12 x13 x14 x15 x16 x17 x18 x19 x.

(** ** Value decoders *)

Definition text (value : list Z) : rstring := from_utf8_lossy value.

Definition ipv4 (value : list Z) : option Ipv4Addr :=
  match value with
  | [a; b; c; d] => Some (V4Octets a b c d)
  | _ => None
  end.

Definition ipv6 (value : list Z) : option Ipv6Addr :=
  if (length value =? 16)%nat then Some (V6Octets value) else None.

Definition u32_value (value : list Z) : option Z :=
  match value with
  | [a; b; c; d] => Some (u32_from_be_bytes a b c d)
  | _ => None
  end.

(** [u8::MAX << (8 - remainder)] keeps the low eight bits. *)
Definition final_prefix_byte_mask (prefix_len : Z) : option Z :=
  let remainder := prefix_len mod 8 in
  if remainder =? 0 then None else Some (Z.shiftl 255 (8 - remainder) mod 2 ^ 8).

(** [usize::div_ceil(8)]. *)
Definition div_ceil_8 (n : Z) : nat := Z.to_nat ((n + 7) / 8).

Definition ipv6_prefix (value : list Z) : option Ipv6Prefix :=
  if negb ((2 <=? length value)%nat && (length value <=? 18)%nat) then None
  else if negb (byte_at value 0 =? 0) then None
  else
    let prefix_len := byte_at value 1 in
    if 128 <? prefix_len then None
    else
      let expected_prefix_bytes := div_ceil_8 prefix_len in
      let prefix_bytes := drop 2 value in
      if (length prefix_bytes <? expected_prefix_bytes)%nat then None
      else if existsb (fun byte => negb (byte =? 0)) (drop expected_prefix_bytes prefix_bytes)
      then None
      else
        let bytes := copy_at (replicate 16 0) 0 (take expected_prefix_bytes prefix_bytes) in
        match final_prefix_byte_mask prefix_len with
        | Some mask =>
            let last := (expected_prefix_bytes - 1)%nat in
            if negb (Z.land (byte_at bytes last) (Z.lxor mask 255) =? 0) then None
            else Some (mkIpv6Prefix
                   (V6Octets (<[last := Z.land (byte_at bytes last) mask]> bytes)) prefix_len)
        | None => Some (mkIpv6Prefix (V6Octets bytes) prefix_len)
        end.

Definition vendor_id_and_payload (value : list Z) : option (Z * list Z) :=
  match value with
  | a :: b :: c :: d :: payload => Some (u32_from_be_bytes a b c d, payload)
  | _ => None
  end.

(** The [match] on the unit suffix in [parse_mikrotik_rate]. *)
Definition mikrotik_multiplier (suffix : rstring) : option Z :=
  if bool_decide (suffix ∈ [str ""; str "bps"]) then Some 1
  else if bool_decide (suffix ∈ [str "k"; str "kb"; str "kbit"; str "kbps"]) then Some 1000
  else if bool_decide (suffix ∈ [str "m"; str "mb"; str "mbit"; str "mbps"]) then Some 1000000
  else if bool_decide (suffix ∈ [str "g"; str "gb"; str "gbit"; str "gbps"]) then Some 1000000000
  else None.

(** The leading ASCII digits are one byte each, so counting them in the bytes or in the characters
    of the string is the same. *)
Definition parse_mikrotik_rate (value : rstring) : option Z :=
  let trimmed := trim value in
  let digit_count := length (take_while is_ascii_digit trimmed) in
  if (digit_count =? 0)%nat then None
  else
    number ← parse_uint (2 ^ 64) (take digit_count trimmed);
    multiplier ← mikrotik_multiplier (to_ascii_lowercase (drop digit_count trimmed));
    u64_checked_mul number multiplier.

Definition parse_mikrotik_rate_pair (value : rstring) : option (Z * Z) :=
  let '(nas_rx, nas_tx) :=
    match split_once value 47 with
    | Some split => split
    | None => (value, value)
    end in
  rx ← parse_mikrotik_rate nas_rx; tx ← parse_mikrotik_rate nas_tx; Some (rx, tx).

(** [MikrotikRateLimit::parse]. *)
Definition MikrotikRateLimit_parse (value : list Z) (options : AccountingEventOptions)
    : option MikrotikRateLimit :=
  let original := text value in
  rate_pair ← head (split_whitespace original);
  '(nas_rx_bps, nas_tx_bps) ← parse_mikrotik_rate_pair rate_pair;
  let '(upload_bps, download_bps) :=
    map_rates (mikrotik_rate_limit_direction options) nas_rx_bps nas_tx_bps in
  Some {| rl_original := original; rl_nas_rx_bps := nas_rx_bps; rl_nas_tx_bps := nas_tx_bps;
          rl_upload_bps := upload_bps; rl_download_bps := download_bps |}.

(** ** Extraction *)

Definition set_once {T} (slot value : option T) : option T :=
  match slot with None => value | Some _ => slot end.

(** [set_optional] and [push_optional] return the two places they update. *)
Definition set_optional {T} (unknown_standard_attributes : list RadiusAttribute) (slot : option T)
    (attribute : RadiusAttribute) (decode : list Z -> option T) : list RadiusAttribute * option T :=
  let decoded := decode (attr_value attribute) in
  let unknown_standard_attributes :=
    match decoded with
    | None => unknown_standard_attributes ++ [attribute]
    | Some _ => unknown_standard_attributes
    end in
  (unknown_standard_attributes, set_once slot decoded).

Definition push_optional {T} (unknown_standard_attributes : list RadiusAttribute) (items : list T)
    (attribute : RadiusAttribute) (decode : list Z -> option T) : list RadiusAttribute * list T :=
  match decode (attr_value attribute) with
  | None => (unknown_standard_attributes ++ [attribute], items)
  | Some decoded => (unknown_standard_attributes, items ++ [decoded])
  end.

Definition push_unknown_vendor (u : UnknownVendorAttribute) (e : AccountingEvent) : AccountingEvent :=
  set_ev_unknown_vendor_attributes (ev_unknown_vendor_attributes e ++ [u]) e.

Definition push_rate_limit (r : MikrotikRateLimit) (e : AccountingEvent) : AccountingEvent :=
  set_ev_mikrotik_rate_limits (ev_mikrotik_rate_limits e ++ [r]) e.

(** The [while !remaining.is_empty()] loop of [apply_vendor_specific]. *)
Equations? apply_vendor_loop (vendor_id : Z) (options : AccountingEventOptions)
    (remaining : list Z) (e : AccountingEvent) : AccountingEvent by wf (length remaining) lt :=
apply_vendor_loop vendor_id options [] e := e;
apply_vendor_loop vendor_id options (b :: bs) e with inspect (split_radius_tlv (b :: bs)) => {
  | exist _ (Err _) _ :=
      push_unknown_vendor (UnknownVendorAttribute_vendor_data vendor_id (b :: bs)) e;
  | exist _ (Ok (vendor_type, vendor_value, next)) Hsplit :=
      apply_vendor_loop vendor_id options next
        (match (if vendor_type =? MIKROTIK_RATE_LIMIT
                then MikrotikRateLimit_parse vendor_value options else None) with
         | Some rate_limit => push_rate_limit rate_limit e
         | None => push_unknown_vendor
                     (UnknownVendorAttribute_subattribute vendor_id vendor_type vendor_value) e
         end)
}.
Proof. by apply split_radius_tlv_length in Hsplit. Qed.

Definition apply_vendor_specific (value : list Z) (options : AccountingEventOptions)
    (e : AccountingEvent) : AccountingEvent :=
  match vendor_id_and_payload value with
  | None => push_unknown_vendor (UnknownVendorAttribute_malformed value) e
  | Some (vendor_id, remaining) =>
      match remaining with
      | [] => push_unknown_vendor (UnknownVendorAttribute_vendor_only vendor_id) e
      | _ =>
          if negb (vendor_id =? MIKROTIK_VENDOR_ID)
          then push_unknown_vendor (UnknownVendorAttribute_raw_vendor_payload vendor_id remaining) e
          else apply_vendor_loop vendor_id options remaining e
      end
  end.

(** [set_optional] on the event: the setter writes the slot, the unknown list is shared. *)
Definition apply_set_optional {T} (get : AccountingEvent -> option T)
    (set : option T -> AccountingEvent -> AccountingEvent) (attribute : RadiusAttribute)
    (decode : list Z -> option T) (e : AccountingEvent) : AccountingEvent :=
  let '(unknown, slot) := set_optional (ev_unknown_standard_attributes e) (get e) attribute decode in
  set slot (set_ev_unknown_standard_attributes unknown e).

Definition apply_push_optional {T} (get : AccountingEvent -> list T)
    (set : list T -> AccountingEvent -> AccountingEvent) (attribute : RadiusAttribute)
    (decode : list Z -> option T) (e : AccountingEvent) : AccountingEvent :=
  let '(unknown, items) := push_optional (ev_unknown_standard_attributes e) (get e) attribute decode in
  set items (set_ev_unknown_standard_attributes unknown e).

Definition apply_attribute (attribute : RadiusAttribute) (options : AccountingEventOptions)
    (e : AccountingEvent) : AccountingEvent :=
  let kind := attr_kind attribute in
  let value := attr_value attribute in
  if kind =? USER_NAME then set_ev_user_name (set_once (ev_user_name e) (Some (text value))) e
  else if kind =? NAS_IP_ADDRESS then
    apply_set_optional ev_nas_ip_address set_ev_nas_ip_address attribute ipv4 e
  else if kind =? NAS_PORT then
    apply_set_optional ev_nas_port set_ev_nas_port attribute u32_value e
  else if kind =? FRAMED_IP_ADDRESS then
    apply_set_optional ev_framed_ip_address set_ev_framed_ip_address attribute ipv4 e
  else if kind =? FRAMED_IP_NETMASK then
    apply_set_optional ev_framed_ip_netmask set_ev_framed_ip_netmask attribute ipv4 e
  else if kind =? FRAMED_ROUTE then
    set_ev_framed_routes (ev_framed_routes e ++ [text value]) e
  else if kind =? CLASS then set_ev_class (ev_class e ++ [value]) e
  else if kind =? VENDOR_SPECIFIC then apply_vendor_specific value options e
  else if kind =? CALLED_STATION_ID then
    set_ev_called_station_id (set_once (ev_called_station_id e) (Some (text value))) e
  else if kind =? CALLING_STATION_ID then
    set_ev_calling_station_id (set_once (ev_calling_station_id e) (Some (text value))) e
  else if kind =? NAS_IDENTIFIER then
    set_ev_nas_identifier (set_once (ev_nas_identifier e) (Some (text value))) e
  else if kind =? ACCT_STATUS_TYPE then
    apply_set_optional ev_status_type set_ev_status_type attribute
      (fun value => AcctStatusType_from <$> u32_value value) e
  else if kind =? ACCT_SESSION_ID then
    set_ev_acct_session_id (set_once (ev_acct_session_id e) (Some (text value))) e
  else if kind =? EVENT_TIMESTAMP then
    apply_set_optional ev_event_timestamp set_ev_event_timestamp attribute u32_value e
  else if kind =? NAS_PORT_ID then
    set_ev_nas_port_id (set_once (ev_nas_port_id e) (Some (text value))) e
  else if kind =? NAS_IPV6_ADDRESS then
    apply_set_optional ev_nas_ipv6_address set_ev_nas_ipv6_address attribute ipv6 e
  else if kind =? FRAMED_IPV6_PREFIX then
    apply_push_optional ev_framed_ipv6_prefixes set_ev_framed_ipv6_prefixes attribute ipv6_prefix e
  else if kind =? DELEGATED_IPV6_PREFIX then
    apply_push_optional ev_delegated_ipv6_prefixes set_ev_delegated_ipv6_prefixes attribute ipv6_prefix e
  else if kind =? FRAMED_IPV6_ADDRESS then
    apply_set_optional ev_framed_ipv6_address set_ev_framed_ipv6_address attribute ipv6 e
  else set_ev_unknown_standard_attributes (ev_unknown_standard_attributes e ++ [attribute]) e.

Definition from_request_with_options (request : AccountingRequest) (options : AccountingEventOptions)
    : AccountingEvent :=
  fold_left (fun e attribute => apply_attribute attribute options e)
    (pkt_attributes (request_packet request)) AccountingEvent_default.

Definition from_request (request : AccountingRequest) : AccountingEvent :=
  from_request_with_options request AccountingEventOptions_default.

Definition from_verified_with_options (request : VerifiedAccountingRequest)
    (options : AccountingEventOptions) : AccountingEvent :=
  from_request_with_options (verified_request request) options.

Definition from_verified (request : VerifiedAccountingRequest) : AccountingEvent :=
  from_verified_with_options request AccountingEventOptions_default.
