(* ===== verification/AccountingEventSpec.v ===== *)
(** * What event extraction and the value decoders guarantee

    Each field of the extracted event as a function of the attribute list, the IPv6 prefix decoder
    as an exact characterisation, and the MikroTik rate decoder with its overflow behaviour. *)

From S2P Require Import Prelude RustStd RadiusPacket AccountingEvent.

(** ** The extraction specification *)

(** The values of the attributes of kind [k], in packet order. *)
Definition values_of (k : Z) (attrs : list RadiusAttribute) : list (list Z) :=
  map attr_value (List.filter (fun a => attr_kind a =? k) attrs).

(** The first value of kind [k] that decodes. *)
Definition first_of {T} (k : Z) (decode : list Z -> option T) (attrs : list RadiusAttribute) : option T :=
  head (omap decode (values_of k attrs)).

(** The attribute kinds that carry a value that may fail to decode, with the test. *)
Definition decodes (a : RadiusAttribute) : bool :=
  let k := attr_kind a in
  let v := attr_value a in
  if (k =? NAS_IP_ADDRESS) || (k =? FRAMED_IP_ADDRESS) || (k =? FRAMED_IP_NETMASK)
  then bool_decide (is_Some (ipv4 v))
  else if (k =? NAS_PORT) || (k =? ACCT_STATUS_TYPE) || (k =? EVENT_TIMESTAMP)
  then bool_decide (is_Some (u32_value v))
  else if (k =? NAS_IPV6_ADDRESS) || (k =? FRAMED_IPV6_ADDRESS)
  then bool_decide (is_Some (ipv6 v))
  else if (k =? FRAMED_IPV6_PREFIX) || (k =? DELEGATED_IPV6_PREFIX)
  then bool_decide (is_Some (ipv6_prefix v))
  else (k =? USER_NAME) || (k =? FRAMED_ROUTE) || (k =? CLASS) || (k =? VENDOR_SPECIFIC)
    || (k =? CALLED_STATION_ID) || (k =? CALLING_STATION_ID) || (k =? NAS_IDENTIFIER)
    || (k =? ACCT_SESSION_ID) || (k =? NAS_PORT_ID).

(** ** Lemmas *)

(** A Vendor-Specific attribute only touches the two vendor lists. *)
Lemma apply_vendor_loop_step vendor_id options l e :
  l <> [] ->
  apply_vendor_loop vendor_id options l e =
  match split_radius_tlv l with
  | Err _ => push_unknown_vendor (UnknownVendorAttribute_vendor_data vendor_id l) e
  | Ok (vendor_type, vendor_value, next) =>
      apply_vendor_loop vendor_id options next
        (match (if vendor_type =? MIKROTIK_RATE_LIMIT
                then MikrotikRateLimit_parse vendor_value options else None) with
         | Some rate_limit => push_rate_limit rate_limit e
         | None => push_unknown_vendor
                     (UnknownVendorAttribute_subattribute vendor_id vendor_type vendor_value) e
         end)
  end.
Proof.
  destruct l as [|b bs]; [done|]. intros _. rewrite apply_vendor_loop_equation_2.
  destruct (inspect _) as [[[[kind value] remaining]|error] Hr]; cbn; by rewrite Hr.
Qed.

Definition vendor_frame (e e' : AccountingEvent) : Prop :=
  exists u r, e' = set_ev_unknown_vendor_attributes u (set_ev_mikrotik_rate_limits r e).

Lemma vendor_frame_refl e : vendor_frame e e.
Proof. exists (ev_unknown_vendor_attributes e), (ev_mikrotik_rate_limits e). by destruct e. Qed.

Lemma vendor_frame_trans e1 e2 e3 : vendor_frame e1 e2 -> vendor_frame e2 e3 -> vendor_frame e1 e3.
Proof. intros (u & r & ->) (u' & r' & ->). exists u', r'. by destruct e1. Qed.

Lemma vendor_frame_unknown u e : vendor_frame e (push_unknown_vendor u e).
Proof.
  exists (ev_unknown_vendor_attributes e ++ [u]), (ev_mikrotik_rate_limits e). by destruct e.
Qed.

Lemma vendor_frame_rate r e : vendor_frame e (push_rate_limit r e).
Proof.
  exists (ev_unknown_vendor_attributes e), (ev_mikrotik_rate_limits e ++ [r]). by destruct e.
Qed.

Create HintDb frame.
#[export] Hint Resolve vendor_frame_refl vendor_frame_unknown vendor_frame_rate : frame.

Lemma apply_vendor_loop_frame vendor_id options l e :
  vendor_frame e (apply_vendor_loop vendor_id options l e).
Proof.
  remember (length l) as n eqn:Hn. revert l Hn e.
  induction n as [n IH] using lt_wf_ind; intros l -> e.
  destruct (decide (l = [])) as [->|Hne].
  { rewrite apply_vendor_loop_equation_1. auto with frame. }
  rewrite apply_vendor_loop_step by done.
  destruct (split_radius_tlv l) as [[[kind value] next]|err] eqn:Hs; [|auto with frame].
  apply split_radius_tlv_length in Hs.
  eapply vendor_frame_trans; [|by eapply IH]. case_match; auto with frame.
Qed.

Lemma apply_vendor_specific_frame value options e :
  vendor_frame e (apply_vendor_specific value options e).
Proof.
  unfold apply_vendor_specific. repeat case_match; auto using apply_vendor_loop_frame with frame.
Qed.

(** Case analysis on the attribute kind, for a goal that reads one field of the result. *)
Ltac field_step a options e :=
  unfold apply_attribute, decodes; cbv zeta;
  let Hf := fresh in
  pose proof (apply_vendor_specific_frame (attr_value a) options e) as Hf;
  repeat match goal with
  | |- context [if (attr_kind a =? ?c) then _ else _] =>
      let H := fresh in
      destruct (attr_kind a =? c) eqn:H;
      [apply Z.eqb_eq in H; rewrite ?H; cbn [Z.eqb Pos.eqb orb]|]
  end;
  unfold apply_set_optional, apply_push_optional, set_optional, push_optional;
  try (destruct Hf as (? & ? & ->));
  destruct e; cbn -[ipv4 ipv6 u32_value text ipv6_prefix bool_decide];
  rewrite ?app_nil_r; try done;
  repeat case_match; simplify_eq; cbn; rewrite ?app_nil_r; try done.

Lemma fold_first {T} (get : AccountingEvent -> option T) k decode options :
  (forall a e, get (apply_attribute a options e) =
     if attr_kind a =? k then set_once (get e) (decode (attr_value a)) else get e) ->
  forall attrs e,
    get (fold_left (fun e a => apply_attribute a options e) attrs e) =
    option_or (get e) (first_of k decode attrs).
Proof.
  intros Hstep attrs. unfold first_of, values_of.
  induction attrs as [|a attrs IH]; intros e; cbn [fold_left].
  - by destruct (get e).
  - rewrite IH, Hstep. cbn [List.filter].
    destruct (attr_kind a =? k); [|done].
    destruct (get e); cbn; [done|]. by destruct (decode (attr_value a)).
Qed.

Lemma fold_collect {T} (get : AccountingEvent -> list T) (items : RadiusAttribute -> list T) options :
  (forall a e, get (apply_attribute a options e) = get e ++ items a) ->
  forall attrs e,
    get (fold_left (fun e a => apply_attribute a options e) attrs e) =
    get e ++ concat (map items attrs).
Proof.
  intros Hstep attrs. induction attrs as [|a attrs IH]; intros e; cbn [fold_left map concat].
  - by rewrite app_nil_r.
  - by rewrite IH, Hstep, <- app_assoc.
Qed.

(** The collected items of one attribute, for the list-valued fields. *)
Definition items_of {T} (k : Z) (decode : list Z -> option T) (a : RadiusAttribute) : list T :=
  if attr_kind a =? k then option_list (decode (attr_value a)) else [].

Lemma concat_items_of {T} k (decode : list Z -> option T) attrs :
  concat (map (items_of k decode) attrs) = omap decode (values_of k attrs).
Proof.
  unfold values_of, items_of. induction attrs as [|a attrs IH]; [done|].
  cbn [map concat List.filter]. rewrite IH. destruct (attr_kind a =? k); [|done].
  cbn. by destruct (decode (attr_value a)).
Qed.

Lemma concat_unknown attrs :
  concat (map (fun a => if decodes a then [] else [a]) attrs) =
  List.filter (fun a => negb (decodes a)) attrs.
Proof.
  induction attrs as [|a attrs IH]; [done|]. cbn [map concat List.filter]. rewrite IH.
  by destruct (decodes a).
Qed.

Section Extraction.
Context (options : AccountingEventOptions).
Implicit Types (a : RadiusAttribute) (e : AccountingEvent).

Lemma step_user_name a e :
  ev_user_name (apply_attribute a options e) =
  if attr_kind a =? USER_NAME then set_once (ev_user_name e) (Some (text (attr_value a))) else ev_user_name e.
Proof. field_step a options e. Qed.

Lemma step_called_station_id a e :
  ev_called_station_id (apply_attribute a options e) =
  if attr_kind a =? CALLED_STATION_ID then set_once (ev_called_station_id e) (Some (text (attr_value a))) else ev_called_station_id e.
Proof. field_step a options e. Qed.

Lemma step_calling_station_id a e :
  ev_calling_station_id (apply_attribute a options e) =
  if attr_kind a =? CALLING_STATION_ID then set_once (ev_calling_station_id e) (Some (text (attr_value a))) else ev_calling_station_id e.
Proof. field_step a options e. Qed.

Lemma step_nas_identifier a e :
  ev_nas_identifier (apply_attribute a options e) =
  if attr_kind a =? NAS_IDENTIFIER then set_once (ev_nas_identifier e) (Some (text (attr_value a))) else ev_nas_identifier e.
Proof. field_step a options e. Qed.

Lemma step_acct_session_id a e :
  ev_acct_session_id (apply_attribute a options e) =
  if attr_kind a =? ACCT_SESSION_ID then set_once (ev_acct_session_id e) (Some (text (attr_value a))) else ev_acct_session_id e.
Proof. field_step a options e. Qed.

Lemma step_nas_port_id a e :
  ev_nas_port_id (apply_attribute a options e) =
  if attr_kind a =? NAS_PORT_ID then set_once (ev_nas_port_id e) (Some (text (attr_value a))) else ev_nas_port_id e.
Proof. field_step a options e. Qed.

Lemma step_status_type a e :
  ev_status_type (apply_attribute a options e) =
  if attr_kind a =? ACCT_STATUS_TYPE then set_once (ev_status_type e) ((fun v => AcctStatusType_from <$> u32_value v) (attr_value a)) else ev_status_type e.
Proof. field_step a options e. Qed.

Lemma step_nas_ip_address a e :
  ev_nas_ip_address (apply_attribute a options e) =
  if attr_kind a =? NAS_IP_ADDRESS then set_once (ev_nas_ip_address e) (ipv4 (attr_value a)) else ev_nas_ip_address e.
Proof. field_step a options e. Qed.

Lemma step_nas_ipv6_address a e :
  ev_nas_ipv6_address (apply_attribute a options e) =
  if attr_kind a =? NAS_IPV6_ADDRESS then set_once (ev_nas_ipv6_address e) (ipv6 (attr_value a)) else ev_nas_ipv6_address e.
Proof. field_step a options e. Qed.

Lemma step_nas_port a e :
  ev_nas_port (apply_attribute a options e) =
  if attr_kind a =? NAS_PORT then set_once (ev_nas_port e) (u32_value (attr_value a)) else ev_nas_port e.
Proof. field_step a options e. Qed.

Lemma step_event_timestamp a e :
  ev_event_timestamp (apply_attribute a options e) =
  if attr_kind a =? EVENT_TIMESTAMP then set_once (ev_event_timestamp e) (u32_value (attr_value a)) else ev_event_timestamp e.
Proof. field_step a options e. Qed.

Lemma step_framed_ip_address a e :
  ev_framed_ip_address (apply_attribute a options e) =
  if attr_kind a =? FRAMED_IP_ADDRESS then set_once (ev_framed_ip_address e) (ipv4 (attr_value a)) else ev_framed_ip_address e.
Proof. field_step a options e. Qed.

Lemma step_framed_ip_netmask a e :
  ev_framed_ip_netmask (apply_attribute a options e) =
  if attr_kind a =? FRAMED_IP_NETMASK then set_once (ev_framed_ip_netmask e) (ipv4 (attr_value a)) else ev_framed_ip_netmask e.
Proof. field_step a options e. Qed.

Lemma step_framed_ipv6_address a e :
  ev_framed_ipv6_address (apply_attribute a options e) =
  if attr_kind a =? FRAMED_IPV6_ADDRESS then set_once (ev_framed_ipv6_address e) (ipv6 (attr_value a)) else ev_framed_ipv6_address e.
Proof. field_step a options e. Qed.

Lemma step_class a e :
  ev_class (apply_attribute a options e) =
  ev_class e ++ items_of CLASS Some a.
Proof. unfold items_of. field_step a options e. Qed.

Lemma step_framed_routes a e :
  ev_framed_routes (apply_attribute a options e) =
  ev_framed_routes e ++ items_of FRAMED_ROUTE (fun v => Some (text v)) a.
Proof. unfold items_of. field_step a options e. Qed.

Lemma step_framed_ipv6_prefixes a e :
  ev_framed_ipv6_prefixes (apply_attribute a options e) =
  ev_framed_ipv6_prefixes e ++ items_of FRAMED_IPV6_PREFIX ipv6_prefix a.
Proof. unfold items_of. field_step a options e. Qed.

Lemma step_delegated_ipv6_prefixes a e :
  ev_delegated_ipv6_prefixes (apply_attribute a options e) =
  ev_delegated_ipv6_prefixes e ++ items_of DELEGATED_IPV6_PREFIX ipv6_prefix a.
Proof. unfold items_of. field_step a options e. Qed.

Lemma step_unknown_standard a e :
  ev_unknown_standard_attributes (apply_attribute a options e) =
  ev_unknown_standard_attributes e ++ (if decodes a then [] else [a]).
Proof.
  field_step a options e; destruct (u32_value (attr_value a)); simplify_eq/=; done.
Qed.

End Extraction.

(** the event extracted from an Accounting-Request, field by field: a text field is the first
    attribute of its kind; a typed field is the first attribute of its kind that decodes, so a
    malformed attribute never hides a later well-formed one; the list fields collect every
    decodable attribute in packet order; and [unknown_standard_attributes] holds, in packet order,
    exactly the attributes that are of no known kind or do not decode. *)
Theorem event_extraction_spec request options :
  let e := from_request_with_options request options in
  let attrs := pkt_attributes (request_packet request) in
  ev_user_name e = first_of USER_NAME (fun v => Some (text v)) attrs
  /\ ev_called_station_id e = first_of CALLED_STATION_ID (fun v => Some (text v)) attrs
  /\ ev_calling_station_id e = first_of CALLING_STATION_ID (fun v => Some (text v)) attrs
  /\ ev_nas_identifier e = first_of NAS_IDENTIFIER (fun v => Some (text v)) attrs
  /\ ev_acct_session_id e = first_of ACCT_SESSION_ID (fun v => Some (text v)) attrs
  /\ ev_nas_port_id e = first_of NAS_PORT_ID (fun v => Some (text v)) attrs
  /\ ev_status_type e = first_of ACCT_STATUS_TYPE (fun v => AcctStatusType_from <$> u32_value v) attrs
  /\ ev_nas_ip_address e = first_of NAS_IP_ADDRESS ipv4 attrs
  /\ ev_nas_ipv6_address e = first_of NAS_IPV6_ADDRESS ipv6 attrs
  /\ ev_nas_port e = first_of NAS_PORT u32_value attrs
  /\ ev_event_timestamp e = first_of EVENT_TIMESTAMP u32_value attrs
  /\ ev_framed_ip_address e = first_of FRAMED_IP_ADDRESS ipv4 attrs
  /\ ev_framed_ip_netmask e = first_of FRAMED_IP_NETMASK ipv4 attrs
  /\ ev_framed_ipv6_address e = first_of FRAMED_IPV6_ADDRESS ipv6 attrs
  /\ ev_class e = values_of CLASS attrs
  /\ ev_framed_routes e = map text (values_of FRAMED_ROUTE attrs)
  /\ ev_framed_ipv6_prefixes e = omap ipv6_prefix (values_of FRAMED_IPV6_PREFIX attrs)
  /\ ev_delegated_ipv6_prefixes e = omap ipv6_prefix (values_of DELEGATED_IPV6_PREFIX attrs)
  /\ ev_unknown_standard_attributes e = List.filter (fun a => negb (decodes a)) attrs.
Proof.
  cbv zeta. unfold from_request_with_options.
  set (attrs := pkt_attributes _). set (e := AccountingEvent_default).
  assert (forall T (f : list Z -> T) l, omap (fun v => Some (f v)) l = map f l) as Hall.
  { intros T f l. induction l as [|x l IH]; cbn; [done|]. by rewrite <- IH. }
  split_and!.
  - apply (fold_first ev_user_name _ _ options (step_user_name options) attrs e).
  - apply (fold_first ev_called_station_id _ _ options (step_called_station_id options) attrs e).
  - apply (fold_first ev_calling_station_id _ _ options (step_calling_station_id options) attrs e).
  - apply (fold_first ev_nas_identifier _ _ options (step_nas_identifier options) attrs e).
  - apply (fold_first ev_acct_session_id _ _ options (step_acct_session_id options) attrs e).
  - apply (fold_first ev_nas_port_id _ _ options (step_nas_port_id options) attrs e).
  - apply (fold_first ev_status_type _ _ options (step_status_type options) attrs e).
  - apply (fold_first ev_nas_ip_address _ _ options (step_nas_ip_address options) attrs e).
  - apply (fold_first ev_nas_ipv6_address _ _ options (step_nas_ipv6_address options) attrs e).
  - apply (fold_first ev_nas_port _ _ options (step_nas_port options) attrs e).
  - apply (fold_first ev_event_timestamp _ _ options (step_event_timestamp options) attrs e).
  - apply (fold_first ev_framed_ip_address _ _ options (step_framed_ip_address options) attrs e).
  - apply (fold_first ev_framed_ip_netmask _ _ options (step_framed_ip_netmask options) attrs e).
  - apply (fold_first ev_framed_ipv6_address _ _ options (step_framed_ipv6_address options) attrs e).
  - rewrite (fold_collect ev_class _ options (step_class options)), concat_items_of.
    cbn. by rewrite (Hall _ id), map_id.
  - rewrite (fold_collect ev_framed_routes _ options (step_framed_routes options)), concat_items_of.
    cbn. apply Hall.
  - by rewrite (fold_collect ev_framed_ipv6_prefixes _ options (step_framed_ipv6_prefixes options)),
      concat_items_of.
  - by rewrite (fold_collect ev_delegated_ipv6_prefixes _ options
      (step_delegated_ipv6_prefixes options)), concat_items_of.
  - by rewrite (fold_collect ev_unknown_standard_attributes _ options
      (step_unknown_standard options)), concat_unknown.
Qed.

(** ** MikroTik Vendor-Specific attributes *)

(** The rate limit of one MikroTik subattribute, when it is one that parses. *)
Definition rate_limit_of (options : AccountingEventOptions) (sub : RadiusAttribute)
    : option MikrotikRateLimit :=
  if attr_kind sub =? MIKROTIK_RATE_LIMIT then MikrotikRateLimit_parse (attr_value sub) options
  else None.

Lemma apply_vendor_loop_wire vendor_id options subs e :
  Forall attribute_ok subs ->
  let e' := apply_vendor_loop vendor_id options (attributes_wire subs) e in
  ev_mikrotik_rate_limits e' = ev_mikrotik_rate_limits e ++ omap (rate_limit_of options) subs
  /\ ev_unknown_vendor_attributes e' =
     ev_unknown_vendor_attributes e
     ++ map (fun s => UnknownVendorAttribute_subattribute vendor_id (attr_kind s) (attr_value s))
          (List.filter (fun s => negb (bool_decide (is_Some (rate_limit_of options s)))) subs).
Proof.
  intros Hok. revert e. induction Hok as [|a subs Ha Hsubs IH]; intros e; cbv zeta in *.
  { change (attributes_wire []) with (@nil Z). rewrite apply_vendor_loop_equation_1.
    by rewrite !app_nil_r. }
  rewrite attributes_wire_cons, apply_vendor_loop_step, split_radius_tlv_wire by done.
  fold (rate_limit_of options a). cbn [List.filter omap list_omap].
  destruct (rate_limit_of options a) as [r|] eqn:Hr.
  - destruct (IH (push_rate_limit r e)) as [-> ->].
    rewrite bool_decide_true by by eexists. destruct e; cbn. by rewrite <- !app_assoc.
  - destruct (IH (push_unknown_vendor
      (UnknownVendorAttribute_subattribute vendor_id (attr_kind a) (attr_value a)) e)) as [-> ->].
    rewrite bool_decide_false by by intros []. destruct e; cbn. by rewrite <- !app_assoc.
Qed.

(** a MikroTik Vendor-Specific attribute holding any sequence of well-formed subattributes is
    consumed completely: the MikroTik-Rate-Limit subattributes that parse are appended to the rate
    limits in order, every other subattribute is kept in [unknown_vendor_attributes] in order, and
    nothing else of the event changes. *)
Theorem mikrotik_vendor_specific_spec subs options e :
  subs <> [] -> Forall attribute_ok subs ->
  let e' := apply_vendor_specific ([0; 0; 58; 140] ++ attributes_wire subs) options e in
  ev_mikrotik_rate_limits e' = ev_mikrotik_rate_limits e ++ omap (rate_limit_of options) subs
  /\ ev_unknown_vendor_attributes e' =
     ev_unknown_vendor_attributes e
     ++ map (fun s => UnknownVendorAttribute_subattribute MIKROTIK_VENDOR_ID (attr_kind s) (attr_value s))
          (List.filter (fun s => negb (bool_decide (is_Some (rate_limit_of options s)))) subs)
  /\ vendor_frame e e'.
Proof.
  intros Hne Hok. cbv zeta.
  assert (apply_vendor_specific ([0; 0; 58; 140] ++ attributes_wire subs) options e =
          apply_vendor_loop MIKROTIK_VENDOR_ID options (attributes_wire subs) e) as ->.
  { unfold apply_vendor_specific. cbn [app vendor_id_and_payload].
    destruct subs as [|s subs]; [done|]. by rewrite attributes_wire_cons. }
  destruct (apply_vendor_loop_wire MIKROTIK_VENDOR_ID options subs e Hok) as [H1 H2].
  split_and!; [exact H1|exact H2|apply apply_vendor_loop_frame].
Qed.

Lemma mikrotik_vendor_specific_spec_witness :
  let subs := [mkRadiusAttribute 8 (str "10M/20M"); mkRadiusAttribute 3 [1]] in
  let e' := apply_vendor_specific ([0; 0; 58; 140] ++ attributes_wire subs)
              AccountingEventOptions_default AccountingEvent_default in
  ev_mikrotik_rate_limits e' =
    [mkMikrotikRateLimit (str "10M/20M") 10000000 20000000 10000000 20000000]
  /\ ev_unknown_vendor_attributes e' = [mkUnknownVendorAttribute (Some 14988) (Some 3) [1]].
Proof.
  cbv zeta.
  destruct (mikrotik_vendor_specific_spec
    [mkRadiusAttribute 8 (str "10M/20M"); mkRadiusAttribute 3 [1]]
    AccountingEventOptions_default AccountingEvent_default) as (H1 & H2 & _);
    [discriminate|by_compute|].
  rewrite H1, H2. split; vm_compute; reflexivity.
Defined.

(** ** IPv6 prefixes *)

(** Bit [i] of an address, counted from the most significant one. *)
Definition address_bit (octets : list Z) (i : Z) : bool :=
  Z.testbit (byte_at octets (Z.to_nat (i / 8))) (7 - i mod 8).

(** An address with a prefix length, without host bits. *)
Definition prefix_ok (p : Ipv6Prefix) : Prop :=
  let octets := ipv6_octets (prefix_address p) in
  0 <= prefix_len p <= 128 /\ length octets = 16%nat /\ bytes_ok octets
  /\ forall i, prefix_len p <= i < 128 -> address_bit octets i = false.

Lemma div_ceil_8_bounds n : 0 <= n <= 128 -> n <= 8 * Z.of_nat (div_ceil_8 n) < n + 8.
Proof. intros Hn. unfold div_ceil_8. dlia. Qed.

(** The partial octet: the bits the mask rejects are its low [8 - r] ones. *)
Definition partial_octet_ok (r b : Z) : bool :=
  let mask := Z.shiftl 255 (8 - r) mod 2 ^ 8 in
  Bool.eqb (Z.land b (Z.lxor mask 255) =? 0)
    (forallb (fun j => negb (Z.testbit b (7 - j))) (seqZ r (8 - r)))
  && (negb (Z.land b (Z.lxor mask 255) =? 0) || (Z.land b mask =? b)).

Lemma partial_octet_all :
  forallb (fun r => forallb (partial_octet_ok r) (seqZ 0 256)) (seqZ 1 7) = true.
Proof. vm_compute. reflexivity. Qed.

Lemma partial_octet r b :
  0 < r < 8 -> byte_ok b ->
  let mask := Z.shiftl 255 (8 - r) mod 2 ^ 8 in
  (Z.land b (Z.lxor mask 255) = 0 <-> forall j, r <= j < 8 -> Z.testbit b (7 - j) = false)
  /\ (Z.land b (Z.lxor mask 255) = 0 -> Z.land b mask = b).
Proof.
  intros Hr Hb mask. pose proof partial_octet_all as Hall.
  rewrite forallb_forall in Hall. specialize (Hall r).
  rewrite <- list_elem_of_In, elem_of_seqZ, forallb_forall in Hall.
  specialize (Hall ltac:(lia) b). rewrite <- list_elem_of_In, elem_of_seqZ in Hall.
  specialize (Hall ltac:(unfold byte_ok in Hb; lia)).
  unfold partial_octet_ok in Hall. fold mask in Hall.
  apply andb_true_iff in Hall as [Heq Hor]. apply Bool.eqb_prop in Heq.
  apply orb_true_iff in Hor. rewrite negb_true_iff, Z.eqb_neq, Z.eqb_eq in Hor.
  split; [|tauto]. rewrite <- Z.eqb_eq, Heq, forallb_forall. split.
  - intros H j Hj. apply negb_true_iff, H. rewrite <- list_elem_of_In, elem_of_seqZ. lia.
  - intros H j. rewrite <- list_elem_of_In, elem_of_seqZ. intros Hj. apply negb_true_iff, H. lia.
Qed.

Lemma zeros_existsb l :
  existsb (fun byte => negb (byte =? 0)) l = false <-> l = replicate (length l) 0.
Proof.
  induction l as [|b l IH]; cbn; [done|].
  rewrite orb_false_iff, negb_false_iff, Z.eqb_eq, IH. split.
  - intros [-> <-]. done.
  - intros [= -> H]. by rewrite <- H.
Qed.

(** Host bits are zero iff the octets after the prefix are and the partial octet passes the mask. *)
Lemma host_bits_zero octets n :
  0 <= n <= 128 -> length octets = 16%nat -> bytes_ok octets ->
  (forall i, n <= i < 128 -> address_bit octets i = false) <->
  drop (div_ceil_8 n) octets = replicate (16 - div_ceil_8 n) 0
  /\ (forall mask, final_prefix_byte_mask n = Some mask ->
        Z.land (byte_at octets (div_ceil_8 n - 1)) (Z.lxor mask 255) = 0).
Proof.
  intros Hn Hlen Hok. pose proof (div_ceil_8_bounds n Hn) as He.
  set (e := div_ceil_8 n) in *. unfold final_prefix_byte_mask. split.
  - intros Hbits. split.
    + apply list_eq_same_length with (n := (16 - e)%nat);
        [by rewrite length_replicate|rewrite length_drop; lia|].
      intros j x y Hj Hx Hy. rewrite lookup_replicate in Hy. destruct Hy as [-> _].
      rewrite lookup_drop in Hx.
      assert (byte_ok x) as Hb by (eapply Forall_lookup_1; [exact Hok|exact Hx]).
      apply Z.bits_inj_0. intros m. destruct (decide (0 <= m < 8)) as [Hm|Hm].
      * specialize (Hbits (8 * Z.of_nat (e + j) + (7 - m)) ltac:(lia)).
        unfold address_bit, byte_at in Hbits.
        replace (Z.to_nat ((8 * Z.of_nat (e + j) + (7 - m)) / 8)) with (e + j)%nat in Hbits by dlia.
        rewrite Hx in Hbits. cbn in Hbits. rewrite <- Hbits. f_equal. dlia.
      * destruct (decide (m < 0)); [by apply Z.testbit_neg_r|].
        destruct (decide (x = 0)) as [->|]; [apply Z.testbit_0_l|].
        apply Z.bits_above_log2; [unfold byte_ok in Hb; lia|].
        apply Z.log2_lt_pow2; [unfold byte_ok in Hb; lia|].
        apply Z.lt_le_trans with (2 ^ 8); [unfold byte_ok in Hb; lia|].
        apply Z.pow_le_mono_r; lia.
    + intros mask Hmask. case_match eqn:Hr; [done|]. to_prop. injection Hmask as <-.
      apply (partial_octet (n mod 8) _ ltac:(dlia)); [by apply byte_ok_byte_at|].
      intros j Hj. specialize (Hbits (8 * (n / 8) + j) ltac:(dlia)). unfold address_bit in Hbits.
      replace (Z.to_nat ((8 * (n / 8) + j) / 8)) with (e - 1)%nat in Hbits by dlia.
      rewrite <- Hbits. f_equal. dlia.
  - intros [Hzero Hmask] i Hi. unfold address_bit.
    destruct (decide (8 * Z.of_nat e <= i)) as [Hge|Hlt].
    + assert (byte_at octets (Z.to_nat (i / 8)) = 0) as ->; [|apply Z.testbit_0_l].
      unfold byte_at. replace (Z.to_nat (i / 8)) with (e + (Z.to_nat (i / 8) - e))%nat by dlia.
      rewrite <- lookup_drop, Hzero.
      destruct (replicate _ _ !! _) eqn:Hl; [|done].
      by apply lookup_replicate in Hl as [-> _].
    + case_match eqn:Hr; to_prop; [dlia|].
      specialize (Hmask _ eq_refl).
      replace (Z.to_nat (i / 8)) with (e - 1)%nat by dlia.
      apply (partial_octet (n mod 8) _ ltac:(dlia)); [by apply byte_ok_byte_at| |dlia].
      exact Hmask.
Qed.

Lemma copy_zeros l :
  (length l <= 16)%nat -> copy_at (replicate 16 0) 0 l = l ++ replicate (16 - length l) 0.
Proof. intros Hl. unfold copy_at. by rewrite take_0, drop_replicate. Qed.

Lemma masked_octet octets n mask :
  0 <= n -> bytes_ok octets -> final_prefix_byte_mask n = Some mask ->
  let last := (div_ceil_8 n - 1)%nat in
  Z.land (byte_at octets last) (Z.lxor mask 255) = 0 ->
  <[last := Z.land (byte_at octets last) mask]> octets = octets.
Proof.
  intros Hn Hok Hm last Hland. unfold final_prefix_byte_mask in Hm.
  case_match eqn:Hr; [done|]. to_prop. injection Hm as <-.
  destruct (partial_octet (n mod 8) (byte_at octets last) ltac:(dlia)) as [_ Hsame];
    [by apply byte_ok_byte_at|].
  rewrite (Hsame Hland). unfold byte_at.
  destruct (octets !! last) eqn:Hl; cbn; [by apply list_insert_id|].
  apply list_insert_ge. by apply lookup_ge_None_1.
Qed.

Lemma ipv6_prefix_cases value p :
  bytes_ok value ->
  ipv6_prefix value = Some p <->
  exists n pb,
    let e := div_ceil_8 n in
    let octets := take e pb ++ replicate (16 - e) 0 in
    value = 0 :: n :: pb /\ n <= 128 /\ (e <= length pb <= 16)%nat
    /\ drop e pb = replicate (length pb - e) 0
    /\ (forall mask, final_prefix_byte_mask n = Some mask ->
          Z.land (byte_at octets (e - 1)) (Z.lxor mask 255) = 0)
    /\ p = mkIpv6Prefix (V6Octets octets) n.
Proof.
  intros Hok. unfold ipv6_prefix. cbv zeta. split.
  - destruct value as [|b0 [|n pb]]; [done..|].
    change (byte_at (b0 :: n :: pb) 0) with b0. change (byte_at (b0 :: n :: pb) 1) with n.
    change (drop 2 (b0 :: n :: pb)) with pb. cbn [length].
    intros H. exists n, pb.
    apply Forall_cons in Hok as [_ [Hn Hpb]%Forall_cons]. unfold byte_ok in Hn.
    pose proof (div_ceil_8_bounds n) as He.
    case_match eqn:H1; [done|]. case_match eqn:H2; [done|]. case_match eqn:H3; [done|].
    case_match eqn:H4; [done|]. case_match eqn:H5; [done|]. to_prop. subst b0.
    apply zeros_existsb in H5. rewrite length_drop in H5.
    rewrite copy_zeros, length_take, Nat.min_l in H by (rewrite ?length_take; lia).
    destruct (final_prefix_byte_mask n) eqn:Hm; [case_match eqn:H6; [done|]; to_prop|];
      (split_and!; [done|lia|lia|lia|done| |]); try done.
    + intros ? [= <-]. done.
    + rewrite masked_octet in H by (done || lia || auto with bytes). by injection H.
    + by injection H.
  - intros (n & pb & -> & Hn & He & Hz & Hm & ->). cbn [length].
    apply Forall_cons in Hok as [_ [Hn' Hpb]%Forall_cons]. unfold byte_ok in Hn'.
    change (byte_at (0 :: n :: pb) 0) with 0. change (byte_at (0 :: n :: pb) 1) with n.
    change (drop 2 (0 :: n :: pb)) with pb. cbn [Z.eqb negb].
    replace (_ && _) with true by (symmetry; apply andb_true_iff; split; apply Nat.leb_le; lia).
    cbn [negb]. rewrite (proj2 (Z.ltb_ge 128 n)), (proj2 (Nat.ltb_ge _ _)) by lia.
    rewrite (proj2 (zeros_existsb _)) by (by rewrite length_drop).
    rewrite copy_zeros, length_take, Nat.min_l by (rewrite ?length_take; lia).
    destruct (final_prefix_byte_mask n) as [mask|] eqn:Hmask; [|done].
    specialize (Hm _ eq_refl). rewrite Hm. cbn [Z.eqb negb].
    by rewrite masked_octet by (done || lia || auto with bytes).
Qed.

(** an IPv6 prefix attribute value is accepted exactly when it is the reserved zero octet, the
    prefix length and the first octets of an address without host bits, at least as many as the
    prefix needs and at most sixteen; the decoded prefix is that address with that length.  The
    attribute encodings of one prefix therefore all decode to it, and no other value decodes. *)
Theorem ipv6_prefix_exact value p :
  bytes_ok value ->
  ipv6_prefix value = Some p <->
  prefix_ok p
  /\ exists k, (div_ceil_8 (prefix_len p) <= k <= 16)%nat
       /\ value = 0 :: prefix_len p :: take k (ipv6_octets (prefix_address p)).
Proof.
  intros Hok. rewrite ipv6_prefix_cases by done. unfold prefix_ok. cbv zeta. split.
  - intros (n & pb & -> & Hn & He & Hz & Hm & ->). cbn [prefix_len prefix_address ipv6_octets].
    apply Forall_cons in Hok as [_ [Hn' Hpb]%Forall_cons]. unfold byte_ok in Hn'.
    set (octets := take _ pb ++ _).
    assert (length octets = 16%nat) as Hlen.
    { unfold octets. rewrite length_app, length_take, length_replicate. lia. }
    assert (bytes_ok octets) by (unfold octets; auto with bytes).
    split; [split_and!; [lia|lia|done|done|]|].
    + apply host_bits_zero; [lia|done|done|]. split; [|done].
      unfold octets. by rewrite drop_app_length' by (rewrite length_take; lia).
    + exists (length pb). split; [lia|]. do 2 f_equal.
      unfold octets. rewrite take_app, take_take, length_take, take_replicate.
      rewrite Nat.min_r, Nat.min_l, Nat.min_l by lia. rewrite <- Hz. by rewrite take_drop.
  - intros ((Hn & Hlen & Hb & Hbits) & k & Hk & ->).
    destruct p as [[octets] n]. cbn [prefix_len prefix_address ipv6_octets] in *.
    apply host_bits_zero in Hbits as [Hz Hm]; [|done..].
    assert (octets = take (div_ceil_8 n) (take k octets) ++ replicate (16 - div_ceil_8 n) 0) as Hoct.
    { rewrite take_take, Nat.min_l by lia. rewrite <- Hz. by rewrite take_drop. }
    exists n, (take k octets). rewrite <- Hoct, length_take.
    split_and!; [done|lia|lia|lia| |done|done].
    rewrite skipn_firstn_comm, Hz, take_replicate. f_equal. lia.
Qed.

Lemma ipv6_prefix_exact_witness :
  ipv6_prefix [0; 20; 32; 1; 16; 0] =
    Some (mkIpv6Prefix (V6Octets ([32; 1; 16] ++ replicate 13 0)) 20)
  /\ ipv6_prefix [0; 20; 32; 1; 17] = None.
Proof.
  split; [|vm_compute; reflexivity].
  apply (ipv6_prefix_exact [0; 20; 32; 1; 16; 0]); [by_compute|]. split.
  - split_and!; [cbn; lia|cbn; lia|vm_compute; reflexivity|by_compute|].
    apply host_bits_zero; [cbn; lia|vm_compute; reflexivity|by_compute|].
    split; [vm_compute; reflexivity|]. intros mask H. vm_compute in H.
    injection H as <-. vm_compute. reflexivity.
  - exists 4%nat. split; [vm_compute; lia|vm_compute; reflexivity].
Defined.

(** ** MikroTik rates *)

(** The value of a string of decimal digits. *)
Definition digits_value (digits : rstring) : Z := fold_left (fun acc c => acc * 10 + (c - 48)) digits 0.

Lemma digits_value_mono digits acc :
  forallb is_ascii_digit digits = true -> 0 <= acc ->
  acc <= fold_left (fun acc c => acc * 10 + (c - 48)) digits acc.
Proof.
  revert acc. induction digits as [|c digits IH]; intros acc Hd Hacc; cbn; [lia|].
  cbn in Hd. apply andb_true_iff in Hd as [Hc Hd]. apply in_range_spec in Hc.
  specialize (IH (acc * 10 + (c - 48)) Hd ltac:(lia)). lia.
Qed.

Lemma parse_digits_exact limit digits acc :
  forallb is_ascii_digit digits = true -> 0 <= acc < limit ->
  let v := fold_left (fun acc c => acc * 10 + (c - 48)) digits acc in
  parse_digits limit acc digits = if v <? limit then Some v else None.
Proof.
  revert acc. induction digits as [|c digits IH]; intros acc Hd Hacc; cbn [parse_digits fold_left].
  { cbv zeta. by rewrite (proj2 (Z.ltb_lt _ _)) by lia. }
  cbn in Hd. apply andb_true_iff in Hd as [Hc Hd]. rewrite Hc. apply in_range_spec in Hc.
  cbv zeta in *. case_match eqn:Hlt; to_prop; [apply IH; [done|lia]|].
  pose proof (digits_value_mono digits (acc * 10 + (c - 48)) Hd ltac:(lia)).
  by rewrite (proj2 (Z.ltb_ge _ _)) by lia.
Qed.

Lemma parse_uint_exact limit digits :
  0 < limit -> forallb is_ascii_digit digits = true -> digits <> [] ->
  parse_uint limit digits =
  if digits_value digits <? limit then Some (digits_value digits) else None.
Proof.
  intros Hl Hd Hne. destruct digits as [|c digits]; [done|]. unfold parse_uint.
  destruct (c =? 43) eqn:Hc.
  - apply Z.eqb_eq in Hc as ->. done.
  - apply (parse_digits_exact limit (c :: digits)); [done|lia].
Qed.

Lemma take_while_all p s : forallb p (take_while p s) = true.
Proof. induction s as [|c s IH]; cbn; [done|]. destruct (p c) eqn:Hc; cbn; [by rewrite Hc|done]. Qed.

Lemma take_while_app p digits suffix :
  forallb p digits = true -> (forall c, head suffix = Some c -> p c = false) ->
  take_while p (digits ++ suffix) = digits.
Proof.
  intros Hd Hs. induction digits as [|c digits IH]; cbn in *.
  - destruct suffix as [|c suffix]; [done|]. cbn. by rewrite (Hs c).
  - apply andb_true_iff in Hd as [-> Hd]. by rewrite IH.
Qed.

Lemma take_while_split p s :
  s = take_while p s ++ drop (length (take_while p s)) s
  /\ forall c, head (drop (length (take_while p s)) s) = Some c -> p c = false.
Proof.
  induction s as [|c s [IH1 IH2]]; cbn; [done|]. destruct (p c) eqn:Hc; cbn.
  - split; [by rewrite <- IH1|done].
  - split; [done|]. by intros ? [= <-].
Qed.

Lemma mikrotik_multiplier_pos suffix m : mikrotik_multiplier suffix = Some m -> 1 <= m.
Proof. unfold mikrotik_multiplier. repeat case_match; intros [= <-]; lia. Qed.

(** The source counts the digits in the bytes of the string; an ASCII digit is its own encoding. *)
Lemma digit_count_bytes s :
  Forall char_ok s -> take_while is_ascii_digit (as_bytes s) = take_while is_ascii_digit s.
Proof.
  induction 1 as [|c s Hc Hs IH]; [done|]. rewrite as_bytes_cons. cbn [take_while].
  destruct (is_ascii_digit c) eqn:Hd.
  - apply in_range_spec in Hd. unfold utf8_encode_char. rewrite (proj2 (Z.ltb_lt _ _)) by lia.
    cbn [app take_while]. unfold is_ascii_digit at 1.
    rewrite (proj2 (in_range_spec _ _ _)) by lia. by f_equal.
  - apply in_range_false in Hd. unfold char_ok in Hc. unfold utf8_encode_char.
    repeat case_match; to_prop; cbn [app take_while]; unfold is_ascii_digit;
      rewrite (proj2 (in_range_false _ _ _)) by dlia; done.
Qed.

(** a MikroTik rate is accepted exactly when it is, after trimming, a non-empty run of decimal
    digits followed by a unit of the table (in any case), and digits times unit fits 64 bits; the
    result is that product.  No value wraps, and a rate that does not fit is refused. *)
Theorem parse_mikrotik_rate_exact value bps :
  parse_mikrotik_rate value = Some bps <->
  exists digits suffix multiplier,
    trim value = digits ++ suffix
    /\ digits <> [] /\ forallb is_ascii_digit digits = true
    /\ (forall c, head suffix = Some c -> is_ascii_digit c = false)
    /\ mikrotik_multiplier (to_ascii_lowercase suffix) = Some multiplier
    /\ bps = digits_value digits * multiplier
    /\ bps < 2 ^ 64.
Proof.
  unfold parse_mikrotik_rate. split.
  - destruct (take_while_split is_ascii_digit (trim value)) as [Heq Hs].
    pose proof (take_while_all is_ascii_digit (trim value)) as Hall.
    case_match eqn:Hlen; [done|]. to_prop. cbn zeta.
    set (digits := take_while _ _) in *.
    rewrite Heq at 1. rewrite take_app_length.
    rewrite parse_uint_exact by (done || (by intros E; rewrite E in Hlen)).
    intros Hb. case_match eqn:Hfit; [|done]. cbn in Hb.
    destruct (mikrotik_multiplier _) as [m|] eqn:Hm; [|done]. cbn in Hb.
    unfold u64_checked_mul in Hb. case_match eqn:Hp; [|done]. to_prop. simplify_eq.
    exists digits, (drop (length digits) (trim value)), m.
    split_and!; [done| |done|done|done|done|done].
    by intros E; rewrite E in Hlen.
  - intros (digits & suffix & m & -> & Hne & Hd & Hs & Hm & -> & Hlt).
    rewrite take_while_app by done.
    rewrite (proj2 (Nat.eqb_neq _ _)) by by destruct digits.
    rewrite take_app_length, drop_app_length.
    pose proof (mikrotik_multiplier_pos _ _ Hm).
    pose proof (digits_value_mono digits 0 Hd ltac:(lia)). unfold digits_value in *.
    rewrite parse_uint_exact by done. unfold digits_value.
    rewrite (proj2 (Z.ltb_lt _ _)) by nia. cbn. rewrite Hm. cbn. unfold u64_checked_mul.
    by rewrite (proj2 (Z.ltb_lt _ _)).
Qed.

Lemma mikrotik_rate_samples :
  parse_mikrotik_rate (str " 18446744073G ") = Some 18446744073000000000
  /\ parse_mikrotik_rate (str "18446744074G") = None
  /\ parse_mikrotik_rate (str "10Mbit") = Some 10000000
  /\ parse_mikrotik_rate (str "10 M") = None.
Proof. by_compute. Qed.
