(* ===== verification/ShapedDevice.v ===== *)
(** * Shaped devices and rate profiles (crates [lqos_config] and [lqos_utils])

    The [ShapedDevice] row that a resolved RADIUS session becomes
    ([lqos_config/src/shaped_devices/shaped_device.rs]), its derived hashes
    ([hash_to_i64] of [lqos_utils/src/lib.rs]) and the validation of a rate profile
    ([lqos_config/src/etc/v15/radius_accounting.rs]).  Rates are binary32 values. *)

From S2P Require Import Prelude RustStd.
From Stdlib Require Import SpecFloat.

(** ** The row *)

Record ShapedDevice : Type := mkShapedDevice {
  circuit_id : rstring;
  circuit_name : rstring;
  device_id : rstring;
  device_name : rstring;
  parent_node : rstring;
  parent_node_id : option rstring;
  anchor_node_id : option rstring;
  mac : rstring;
  dev_ipv4 : list (Ipv4Addr * Z);
  dev_ipv6 : list (Ipv6Addr * Z);
  download_min_mbps : f32;
  upload_min_mbps : f32;
  download_max_mbps : f32;
  upload_max_mbps : f32;
  comment : rstring;
  sqm_override : option rstring;
  circuit_hash : Z;
  device_hash : Z;
  parent_hash : Z
}.

#[export] Instance f32_eq_dec : EqDecision f32.
Proof. unfold f32. solve_decision. Defined.
#[export] Instance ShapedDevice_eq_dec : EqDecision ShapedDevice.
Proof. solve_decision. Defined.

(** [ShapedDevice::default]. *)
Definition ShapedDevice_default : ShapedDevice :=
  mkShapedDevice [] [] [] [] [] None None [] [] [] f32_zero f32_zero f32_zero f32_zero [] None 0 0 0.

(** [hash_to_i64]: the string's bytes are written to a fresh hasher, whose 64-bit result is
    reinterpreted as signed. *)
Definition hash_to_i64 (text : rstring) : Z := i64_of_u64 (default_hasher_finish (as_bytes text)).

Definition refresh_hashes (d : ShapedDevice) : ShapedDevice :=
  {| circuit_id := circuit_id d; circuit_name := circuit_name d; device_id := device_id d;
     device_name := device_name d; parent_node := parent_node d;
     parent_node_id := parent_node_id d; anchor_node_id := anchor_node_id d; mac := mac d;
     dev_ipv4 := dev_ipv4 d; dev_ipv6 := dev_ipv6 d; download_min_mbps := download_min_mbps d;
     upload_min_mbps := upload_min_mbps d; download_max_mbps := download_max_mbps d;
     upload_max_mbps := upload_max_mbps d; comment := comment d; sqm_override := sqm_override d;
     circuit_hash := hash_to_i64 (circuit_id d);
     device_hash := hash_to_i64 (device_id d);
     parent_hash := hash_to_i64 (parent_node d) |}.

(** ** Rate-profile validation *)

(** The fields a validation error names. *)
Definition DOWNLOAD_MIN_MBPS : rstring := str "download_min_mbps".
Definition UPLOAD_MIN_MBPS : rstring := str "upload_min_mbps".
Definition DOWNLOAD_MAX_MBPS : rstring := str "download_max_mbps".
Definition UPLOAD_MAX_MBPS : rstring := str "upload_max_mbps".

Inductive RateProfileValidationError : Type :=
| NonFinite (field : rstring) (rate_mbps : f32)
| NonPositive (field : rstring) (rate_mbps : f32)
| MinimumExceedsMaximum (min_field : rstring) (min_mbps : f32) (max_field : rstring) (max_mbps : f32).

(** [RateProfileValidationError::with_config_prefix]. *)
Definition with_config_prefix (e : RateProfileValidationError) (prefix : rstring) : rstring :=
  match e with
  | NonFinite field _ => prefix ++ str "." ++ field ++ str " must be finite"
  | NonPositive field _ => prefix ++ str "." ++ field ++ str " must be > 0"
  | MinimumExceedsMaximum min_field _ max_field _ =>
      prefix ++ str "." ++ min_field ++ str " must be <= " ++ prefix ++ str "." ++ max_field
  end.

Definition validate_rate_profile_field (field : rstring) (rate_mbps : f32)
    : result RateProfileValidationError unit :=
  if negb (f32_is_finite rate_mbps) then Err (NonFinite field rate_mbps)
  else if f32_le rate_mbps f32_zero then Err (NonPositive field rate_mbps)
  else Ok tt.

Definition validate_rate_profile_order (min_field : rstring) (min_mbps : f32)
    (max_field : rstring) (max_mbps : f32) : result RateProfileValidationError unit :=
  if f32_gt min_mbps max_mbps then Err (MinimumExceedsMaximum min_field min_mbps max_field max_mbps)
  else Ok tt.

Definition validate_rate_profile_mbps (dmin umin dmax umax : f32)
    : result RateProfileValidationError unit :=
  _ ← validate_rate_profile_field DOWNLOAD_MIN_MBPS dmin;
  _ ← validate_rate_profile_field UPLOAD_MIN_MBPS umin;
  _ ← validate_rate_profile_field DOWNLOAD_MAX_MBPS dmax;
  _ ← validate_rate_profile_field UPLOAD_MAX_MBPS umax;
  _ ← validate_rate_profile_order DOWNLOAD_MIN_MBPS dmin DOWNLOAD_MAX_MBPS dmax;
  validate_rate_profile_order UPLOAD_MIN_MBPS umin UPLOAD_MAX_MBPS umax.

(** ** Lemmas *)

(** A usable rate: finite and above zero. *)
Definition rate_ok (r : f32) : Prop := exists m e, r = S754_finite false m e.

Lemma validate_field_Ok field r : validate_rate_profile_field field r = Ok tt <-> rate_ok r.
Proof.
  unfold validate_rate_profile_field, rate_ok. split.
  - destruct r as [s| | |[] m e]; try done; cbn; intros _; by eexists _, _.
  - by intros (m & e & ->).
Qed.

Lemma validate_order_Ok f m f' m' :
  validate_rate_profile_order f m f' m' = Ok tt <-> f32_gt m m' = false.
Proof. unfold validate_rate_profile_order. by destruct (f32_gt m m'). Qed.

Lemma result_bind_unit_Ok {E} (r : result E unit) (k : result E unit) :
  (r ≫= fun _ => k) = Ok tt <-> r = Ok tt /\ k = Ok tt.
Proof. destruct r as [[]|]; cbn; naive_solver. Qed.

(** The accepted profiles. *)
Lemma validate_rate_profile_Ok dmin umin dmax umax :
  validate_rate_profile_mbps dmin umin dmax umax = Ok tt <->
  rate_ok dmin /\ rate_ok umin /\ rate_ok dmax /\ rate_ok umax
  /\ f32_gt dmin dmax = false /\ f32_gt umin umax = false.
Proof.
  unfold validate_rate_profile_mbps.
  rewrite !result_bind_unit_Ok, !validate_field_Ok, !validate_order_Ok. tauto.
Qed.

(** Comparison of usable rates is total. *)
Lemma rate_ok_order a b : rate_ok a -> rate_ok b -> f32_gt a b = negb (f32_le a b).
Proof.
  intros (m & e & ->) (m' & e' & ->). unfold f32_gt, f32_le, SFltb, SFleb. cbn.
  destruct (Z.compare_spec e' e) as [->|H|H].
  - rewrite Z.compare_refl. change (Pos.compare_cont Eq m' m) with (Pos.compare m' m).
    change (Pos.compare_cont Eq m m') with (Pos.compare m m').
    rewrite (Pos.compare_antisym m m'). by destruct (Pos.compare m m').
  - by rewrite (proj2 (Z.compare_gt_iff e e')) by lia.
  - by rewrite (proj2 (Z.compare_lt_iff e e')) by lia.
Qed.
