(* ===== verification/MacMatch.v ===== *)
(** * RADIUS identity matching (crate [lqos_radius], [mac_match.rs])

    The normalisation of MAC addresses and the matcher that finds the [ShapedDevices.csv] row of
    a subscriber by User-Name or by Calling-Station-Id.  A [HashMap<String, _>] is a [gmap]. *)

From S2P Require Import Prelude RustStd AccountingEvent ShapedDevice.

(** ** MAC normalisation *)

(** The inner loop over the characters of one group. *)
Fixpoint normalize_group (group normalized_mac : rstring) : option rstring :=
  match group with
  | [] => Some normalized_mac
  | ch :: group' =>
      if negb (is_ascii_hexdigit ch) then None
      else normalize_group group' (normalized_mac ++ [to_ascii_lowercase_char ch])
  end.

(** The outer loop over the groups. *)
Fixpoint normalize_groups (groups : list rstring) (expected_group_len group_count : nat)
    (normalized_mac : rstring) : option (nat * rstring) :=
  match groups with
  | [] => Some (group_count, normalized_mac)
  | group :: groups' =>
      let group_count := S group_count in
      if negb (str_len group =? expected_group_len)%nat then None
      else
        normalized_mac ← normalize_group group normalized_mac;
        normalize_groups groups' expected_group_len group_count normalized_mac
  end.

Definition normalize_delimited_mac (raw_mac : rstring) (separator : rchar)
    (expected_groups expected_group_len : nat) : option rstring :=
  '(group_count, normalized_mac) ←
    normalize_groups (split_char raw_mac separator) expected_group_len 0 [];
  if (group_count =? expected_groups)%nat then Some normalized_mac else None.

Definition normalize_radius_mac (raw_mac : rstring) : option rstring :=
  let raw_mac := trim raw_mac in
  if (str_len raw_mac =? 12)%nat && forallb is_ascii_hexdigit raw_mac
  then Some (to_ascii_lowercase raw_mac)
  else if str_contains raw_mac 58 then normalize_delimited_mac raw_mac 58 6 2
  else if str_contains raw_mac 45 then normalize_delimited_mac raw_mac 45 6 2
  else if str_contains raw_mac 46 then normalize_delimited_mac raw_mac 46 3 4
  else None.

(** ** The matcher *)

Inductive ShapedDevicesMacEntry : Type :=
| Entry_Unique (device : ShapedDevice)
| Entry_Ambiguous.

Inductive ShapedDevicesMacMatch : Type :=
| Match_Unique (device : ShapedDevice)
| Match_NoMatch
| Match_Ambiguous.

Record ShapedDevicesMacMatcher : Type := mkShapedDevicesMacMatcher {
  matches_by_mac : gmap rstring ShapedDevicesMacEntry;
  matches_by_username : gmap rstring ShapedDevicesMacEntry
}.

(** [entry(key).and_modify(|entry| *entry = Ambiguous).or_insert_with(|| Unique(device))]. *)
Definition add_entry (key : rstring) (device : ShapedDevice)
    (entries : gmap rstring ShapedDevicesMacEntry) : gmap rstring ShapedDevicesMacEntry :=
  match entries !! key with
  | Some _ => <[key := Entry_Ambiguous]> entries
  | None => <[key := Entry_Unique device]> entries
  end.

Definition add_device (m : ShapedDevicesMacMatcher) (device : ShapedDevice) : ShapedDevicesMacMatcher :=
  {| matches_by_mac :=
       match normalize_radius_mac (mac device) with
       | Some normalized_mac => add_entry normalized_mac device (matches_by_mac m)
       | None => matches_by_mac m
       end;
     matches_by_username :=
       let username := mac device in
       if negb (str_is_empty username) then add_entry username device (matches_by_username m)
       else matches_by_username m |}.

Definition from_devices (devices : list ShapedDevice) : ShapedDevicesMacMatcher :=
  fold_left add_device devices (mkShapedDevicesMacMatcher ∅ ∅).

Definition match_entry (entries : gmap rstring ShapedDevicesMacEntry) (key : rstring)
    : option ShapedDevicesMacMatch :=
  match entries !! key with
  | Some (Entry_Unique device) => Some (Match_Unique device)
  | Some Entry_Ambiguous => Some Match_Ambiguous
  | None => None
  end.

(** The part of [match_event_with_identities] after the username. *)
Definition match_calling_station (m : ShapedDevicesMacMatcher) (event : AccountingEvent)
    (match_by_mac : bool) : ShapedDevicesMacMatch :=
  if negb match_by_mac then Match_NoMatch
  else
    match ev_calling_station_id event with
    | None => Match_NoMatch
    | Some calling_station_id =>
        match normalize_radius_mac calling_station_id with
        | None => Match_NoMatch
        | Some normalized_mac => default Match_NoMatch (match_entry (matches_by_mac m) normalized_mac)
        end
    end.

Definition match_event_with_identities (m : ShapedDevicesMacMatcher) (event : AccountingEvent)
    (match_by_username match_by_mac : bool) : ShapedDevicesMacMatch :=
  match (if match_by_username
         then username ← ev_user_name event; match_entry (matches_by_username m) username
         else None) with
  | Some result => result
  | None => match_calling_station m event match_by_mac
  end.

Definition match_event (m : ShapedDevicesMacMatcher) (event : AccountingEvent)
    : ShapedDevicesMacMatch :=
  match_event_with_identities m event false true.

(** ** What normalisation computes *)

(** The written forms of twelve hexadecimal digits: plain, colon or hyphen separated pairs, dotted
    groups of four. *)
Definition join (sep : rchar) (groups : list rstring) : rstring :=
  match groups with
  | [] => []
  | g :: gs => g ++ concat (map (fun g' => sep :: g') gs)
  end.

Definition mac_forms (h : rstring) : list rstring :=
  let pairs := [slice h 0 2; slice h 2 4; slice h 4 6; slice h 6 8; slice h 8 10; slice h 10 12] in
  let quads := [slice h 0 4; slice h 4 8; slice h 8 12] in
  [h; join 58 pairs; join 45 pairs; join 46 quads].

Lemma is_ascii_hexdigit_bounds c :
  is_ascii_hexdigit c = true -> 48 <= c < 128 /\ c <> 58 /\ c <> 45 /\ c <> 46.
Proof.
  unfold is_ascii_hexdigit. rewrite !orb_true_iff, !in_range_spec. lia.
Qed.

Lemma is_ascii_hexdigit_neq c sep :
  is_ascii_hexdigit c = true -> sep ∈ [58; 45; 46] -> (sep =? c) = false.
Proof.
  intros H%is_ascii_hexdigit_bounds Hs. rewrite !elem_of_cons, elem_of_nil in Hs.
  apply Z.eqb_neq. lia.
Qed.

(** A hexadecimal string is one byte per character. *)
Lemma str_len_hex s : forallb is_ascii_hexdigit s = true -> str_len s = length s.
Proof.
  unfold str_len. induction s as [|c s IH]; [done|]. cbn [forallb].
  intros [Hc Hs]%andb_true_iff. rewrite as_bytes_cons, length_app, IH by done.
  apply is_ascii_hexdigit_bounds in Hc as [Hc _]. unfold utf8_encode_char.
  by rewrite (proj2 (Z.ltb_lt _ _)) by lia.
Qed.

Lemma normalize_group_Some group acc s :
  normalize_group group acc = Some s <->
  forallb is_ascii_hexdigit group = true /\ s = acc ++ to_ascii_lowercase group.
Proof.
  revert acc. induction group as [|ch group IH]; intros acc; cbn.
  - rewrite app_nil_r. naive_solver.
  - destruct (is_ascii_hexdigit ch); cbn; [|naive_solver].
    rewrite IH, <- app_assoc. done.
Qed.

Lemma normalize_groups_Some groups len n acc count s :
  normalize_groups groups len n acc = Some (count, s) <->
  Forall (fun g => forallb is_ascii_hexdigit g = true /\ length g = len) groups
  /\ count = (n + length groups)%nat /\ s = acc ++ to_ascii_lowercase (concat groups).
Proof.
  revert n acc. induction groups as [|g groups IH]; intros n acc; cbn [normalize_groups].
  { cbn. rewrite Forall_nil, app_nil_r, Nat.add_0_r. naive_solver. }
  rewrite Forall_cons. cbn [length concat]. unfold to_ascii_lowercase in *. rewrite map_app.
  destruct (str_len g =? len)%nat eqn:Hlen; cbn [negb]; to_prop.
  - destruct (normalize_group g acc) as [acc'|] eqn:Hg; cbn.
    + apply normalize_group_Some in Hg as [Hhex ->]. rewrite IH, <- app_assoc.
      rewrite str_len_hex in Hlen by done. rewrite Nat.add_succ_r. naive_solver.
    + split; [done|]. intros (([Hhex _] & _) & _). exfalso.
      enough (normalize_group g acc = Some (acc ++ to_ascii_lowercase g)) by congruence.
      by apply normalize_group_Some.
  - split; [done|]. intros (([Hhex Hl] & _) & _). by rewrite str_len_hex in Hlen.
Qed.

Lemma split_on_ne p s : split_on p s <> [].
Proof. destruct s as [|c s]; cbn; [done|]. destruct (p c); [done|]. by destruct (split_on p s). Qed.

Lemma split_on_join sep s : s = join sep (split_char s sep).
Proof.
  unfold split_char. induction s as [|c s IH]; [done|]. cbn [split_on].
  destruct (sep =? c) eqn:Hc.
  - apply Z.eqb_eq in Hc as ->. cbn [join app]. rewrite IH at 1.
    pose proof (split_on_ne (Z.eqb c) s). by destruct (split_on (Z.eqb c) s).
  - destruct (split_on (Z.eqb sep) s) as [|g gs] eqn:Hs; cbn in *; by rewrite <- ?IH.
Qed.

Lemma split_on_sep sep g rest :
  forallb is_ascii_hexdigit g = true -> sep ∈ [58; 45; 46] ->
  split_char (g ++ sep :: rest) sep = g :: split_char rest sep.
Proof.
  unfold split_char. induction g as [|c g IH]; intros Hg Hs; cbn [split_on app].
  - by rewrite Z.eqb_refl.
  - cbn in Hg. apply andb_true_iff in Hg as [Hc Hg].
    by rewrite (is_ascii_hexdigit_neq c sep), IH.
Qed.

Lemma split_on_no_sep sep g :
  forallb is_ascii_hexdigit g = true -> sep ∈ [58; 45; 46] -> split_char g sep = [g].
Proof.
  unfold split_char. induction g as [|c g IH]; intros Hg Hs; cbn [split_on]; [done|].
  cbn in Hg. apply andb_true_iff in Hg as [Hc Hg]. by rewrite (is_ascii_hexdigit_neq c sep), IH.
Qed.

Lemma split_join sep g gs :
  Forall (fun g => forallb is_ascii_hexdigit g = true) (g :: gs) -> sep ∈ [58; 45; 46] ->
  split_char (join sep (g :: gs)) sep = g :: gs.
Proof.
  intros Hf Hs. revert g Hf. induction gs as [|g' gs IH]; intros g Hf; cbn [join map concat].
  - rewrite app_nil_r. apply Forall_cons in Hf as [Hg _]. by apply split_on_no_sep.
  - apply Forall_cons in Hf as [Hg Hf]. cbn [app]. rewrite split_on_sep by done. f_equal.
    by apply (IH g').
Qed.

Lemma join_contains sep sep' g gs :
  Forall (fun g => forallb is_ascii_hexdigit g = true) (g :: gs) -> gs <> [] ->
  sep' ∈ [58; 45; 46] ->
  str_contains (join sep (g :: gs)) sep' = (sep' =? sep).
Proof.
  intros Hf Hne Hs. unfold str_contains. cbn [join]. rewrite existsb_app.
  assert (forall g, forallb is_ascii_hexdigit g = true -> existsb (Z.eqb sep') g = false) as Hhex.
  { clear - Hs. intros g Hg. induction g as [|c g IH]; [done|]. cbn in *.
    apply andb_true_iff in Hg as [Hc Hg]. by rewrite IH, (is_ascii_hexdigit_neq c sep'). }
  apply Forall_cons in Hf as [Hg Hf]. rewrite Hhex by done. cbn [orb].
  induction Hf as [|g' gs Hg' Hgs IH]; [done|]. cbn [map concat app existsb].
  rewrite existsb_app, Hhex by done. cbn [orb].
  destruct (decide (gs = [])) as [->|Hne']; [apply orb_false_r|].
  rewrite IH by done. apply orb_diag.
Qed.

Lemma join_not_hex sep g gs :
  gs <> [] -> is_ascii_hexdigit sep = false -> forallb is_ascii_hexdigit (join sep (g :: gs)) = false.
Proof.
  intros Hne Hsep. destruct gs as [|g' gs]; [done|]. cbn.
  by rewrite forallb_app; cbn; rewrite Hsep, andb_false_r.
Qed.

Lemma normalize_delimited_mac_Some raw sep groups len s :
  normalize_delimited_mac raw sep groups len = Some s <->
  Forall (fun g => forallb is_ascii_hexdigit g = true /\ length g = len) (split_char raw sep)
  /\ length (split_char raw sep) = groups /\ s = to_ascii_lowercase (concat (split_char raw sep)).
Proof.
  unfold normalize_delimited_mac.
  destruct (normalize_groups _ _ _ _) as [[count s']|] eqn:Hn; cbn.
  - apply normalize_groups_Some in Hn as (Hf & -> & ->). cbn.
    destruct (_ =? _)%nat eqn:Hc; to_prop; naive_solver.
  - split; [done|]. intros (Hf & _ & _). exfalso.
    enough (normalize_groups (split_char raw sep) len 0 [] =
      Some ((0 + length (split_char raw sep))%nat, [] ++ to_ascii_lowercase (concat (split_char raw sep))))
      by congruence.
    by apply normalize_groups_Some.
Qed.

(** Lists of a known length, made explicit. *)
Ltac explode :=
  repeat match goal with
  | H : length ?l = S _ |- _ => destruct l; [discriminate H|injection H as H]
  | H : length ?l = O |- _ => destruct l; [clear H|discriminate H]
  | H : Forall _ (_ :: _) |- _ => apply Forall_cons in H as [? ?]
  | H : _ /\ _ |- _ => destruct H
  end.

(** A delimited form determines its digits. *)
Lemma delimited_digits raw sep groups len :
  (groups, len) ∈ [(6, 2); (3, 4)]%nat ->
  Forall (fun g => forallb is_ascii_hexdigit g = true /\ length g = len) (split_char raw sep) ->
  length (split_char raw sep) = groups ->
  let h := concat (split_char raw sep) in
  length h = 12%nat /\ forallb is_ascii_hexdigit h = true
  /\ raw = join sep (if (groups =? 6)%nat
       then [slice h 0 2; slice h 2 4; slice h 4 6; slice h 6 8; slice h 8 10; slice h 10 12]
       else [slice h 0 4; slice h 4 8; slice h 8 12]).
Proof.
  intros Hgl Hf Hlen h. pose proof (split_on_join sep raw) as Hraw. subst h.
  assert (forallb is_ascii_hexdigit (concat (split_char raw sep)) = true) as Hhex.
  { clear - Hf. induction Hf as [|g gs [Hg _] _ IH]; [done|]. cbn. by rewrite forallb_app, Hg, IH. }
  rewrite Hraw at 3. clear Hraw. revert Hf Hlen Hhex. generalize (split_char raw sep) as gs.
  intros gs Hf Hlen Hhex. apply elem_of_cons in Hgl as [[= -> ->]|[[= -> ->]|[]%elem_of_nil]%elem_of_cons].
  all: explode; split_and!; [done|exact Hhex|done].
Qed.

Lemma normalize_plain h :
  length h = 12%nat -> forallb is_ascii_hexdigit h = true ->
  (str_len h =? 12)%nat && forallb is_ascii_hexdigit h = true.
Proof. intros Hl Hh. by rewrite str_len_hex, Hl, Hh. Qed.

Lemma normalize_joined sep g gs :
  gs <> [] -> sep ∈ [58; 45; 46] ->
  (str_len (join sep (g :: gs)) =? 12)%nat && forallb is_ascii_hexdigit (join sep (g :: gs)) = false.
Proof.
  intros Hne Hs. rewrite join_not_hex, andb_false_r; [done|done|].
  rewrite !elem_of_cons, elem_of_nil in Hs. destruct Hs as [->|[->|[->|[]]]]; done.
Qed.

Lemma hex_slices h ps :
  forallb is_ascii_hexdigit h = true ->
  Forall (fun g => forallb is_ascii_hexdigit g = true) (map (fun '(a, b) => slice h a b) ps).
Proof.
  intros Hh. rewrite Forall_map. apply Forall_forall. intros [a b] _. cbn. unfold slice.
  rewrite <- (take_drop a h), forallb_app in Hh. apply andb_true_iff in Hh as [_ Hh].
  rewrite <- (take_drop (b - a) (drop a h)), forallb_app in Hh. by apply andb_true_iff in Hh as [Hh _].
Qed.

(** a raw Calling-Station-Id or MAC field normalises exactly when, after trimming, it is one
    of the four written forms of twelve hexadecimal digits, and the result is those digits in lower
    case.  All written forms of one address therefore normalise alike, and nothing else is
    accepted. *)
Theorem normalize_radius_mac_exact raw n :
  normalize_radius_mac raw = Some n <->
  exists h, length h = 12%nat /\ forallb is_ascii_hexdigit h = true
    /\ trim raw ∈ mac_forms h /\ n = to_ascii_lowercase h.
Proof.
  unfold normalize_radius_mac. set (t := trim raw). split.
  - case_match eqn:H1.
    { apply andb_true_iff in H1 as [Hlen Hhex]. apply Nat.eqb_eq in Hlen.
      rewrite str_len_hex in Hlen by done. intros [= <-]. exists t.
      split_and!; [done|done|unfold mac_forms; set_solver|done]. }
    repeat case_match; try done; intros (Hf & Hl & ->)%normalize_delimited_mac_Some.
    all: edestruct (delimited_digits t) as (Hlen & Hhex & Heq); [|exact Hf|exact Hl|]; [set_solver|].
    all: eexists; split_and!; [exact Hlen|exact Hhex| |done]; rewrite Heq at 1; cbn [Nat.eqb];
      unfold mac_forms; cbv zeta; set_solver.
  - intros (h & Hlen & Hhex & Ht & ->). unfold mac_forms in Ht. cbv zeta in Ht.
    pose proof (hex_slices h [(0, 2); (2, 4); (4, 6); (6, 8); (8, 10); (10, 12)]%nat Hhex) as Hp.
    pose proof (hex_slices h [(0, 4); (4, 8); (8, 12)]%nat Hhex) as Hq. cbn [map] in Hp, Hq.
    rewrite !elem_of_cons, elem_of_nil in Ht. destruct Ht as [->|[->|[->|[->|[]]]]].
    { by rewrite normalize_plain. }
    all: rewrite normalize_joined, ?join_contains by (done || set_solver).
    all: cbn [Z.eqb Pos.eqb]; apply normalize_delimited_mac_Some;
      rewrite split_join by (done || set_solver); explode;
      split_and!; [repeat (constructor; [split; [assumption|reflexivity]|]); constructor|done|done].
Qed.

Lemma mac_form_samples :
  map normalize_radius_mac
    [str " AA:bb:CC:dd:EE:0f "; str "aa-BB-cc-DD-ee-0F"; str "AABB.ccdd.ee0f"; str "aabbccddee0f"]
  = replicate 4 (Some (str "aabbccddee0f"))
  /\ map normalize_radius_mac [str "aa:bb:cc:dd:ee"; str "aa:bb:cc:dd:ee-0f"; str ""]
  = replicate 3 None.
Proof. by_compute. Qed.

(** ** What the matcher computes *)

(** The answer for the rows that carry an identity. *)
Definition classify (rows : list ShapedDevice) : option ShapedDevicesMacMatch :=
  match rows with
  | [] => None
  | [device] => Some (Match_Unique device)
  | _ => Some Match_Ambiguous
  end.

(** The rows with a MAC, and the rows with a username. *)
Definition rows_with_mac (n : rstring) (devices : list ShapedDevice) : list ShapedDevice :=
  List.filter (fun d => bool_decide (normalize_radius_mac (mac d) = Some n)) devices.
Definition rows_with_username (n : rstring) (devices : list ShapedDevice) : list ShapedDevice :=
  List.filter (fun d => bool_decide (mac d = n) && negb (str_is_empty (mac d))) devices.

Definition entry_of (rows : list ShapedDevice) : option ShapedDevicesMacEntry :=
  match rows with
  | [] => None
  | [device] => Some (Entry_Unique device)
  | _ => Some Entry_Ambiguous
  end.

Lemma entry_of_snoc rows d :
  entry_of (rows ++ [d]) = Some (if bool_decide (rows = []) then Entry_Unique d else Entry_Ambiguous).
Proof. by destruct rows as [|? []]. Qed.

Lemma add_entry_lookup key d entries n rows :
  entries !! n = entry_of rows ->
  add_entry key d entries !! n = entry_of (rows ++ (if bool_decide (key = n) then [d] else [])).
Proof.
  intros Hn. unfold add_entry. case_bool_decide as Hk.
  - subst n. rewrite entry_of_snoc, Hn. destruct rows as [|? []]; cbn; by rewrite lookup_insert_eq.
  - rewrite app_nil_r. destruct (entries !! key); by rewrite lookup_insert_ne.
Qed.

Lemma filter_snoc {A} (p : A -> bool) l x :
  List.filter p (l ++ [x]) = List.filter p l ++ (if p x then [x] else []).
Proof. rewrite List.filter_app. cbn. by destruct (p x). Qed.

Lemma from_devices_lookup devices n :
  matches_by_mac (from_devices devices) !! n = entry_of (rows_with_mac n devices)
  /\ matches_by_username (from_devices devices) !! n = entry_of (rows_with_username n devices).
Proof.
  unfold from_devices. induction devices as [|d devices IH] using rev_ind; [done|].
  rewrite fold_left_app. unfold rows_with_mac, rows_with_username. rewrite !filter_snoc.
  destruct IH as [IHm IHu]. cbn [fold_left add_device matches_by_mac matches_by_username]. split.
  - destruct (normalize_radius_mac (mac d)) as [m|] eqn:Hm.
    + rewrite (add_entry_lookup _ _ _ _ _ IHm). do 2 f_equal.
      rewrite (bool_decide_ext (Some m = Some n) (m = n)) by naive_solver. done.
    + rewrite bool_decide_false, app_nil_r by done. exact IHm.
  - destruct (str_is_empty (mac d)) eqn:He; cbn [negb].
    + rewrite andb_false_r, app_nil_r. exact IHu.
    + rewrite andb_true_r. apply (add_entry_lookup _ _ _ _ _ IHu).
Qed.

Lemma match_entry_of entries n rows :
  entries !! n = entry_of rows -> match_entry entries n = classify rows.
Proof. unfold match_entry. intros ->. by destruct rows as [|? []]. Qed.

(** the matcher built from the rows answers for an event what a search of all rows would: with
    username matching enabled, the rows whose MAC field is the event's User-Name decide when there
    is any (one row is a unique match, several are ambiguous); otherwise, with MAC matching enabled,
    the rows whose normalised MAC field is the event's normalised Calling-Station-Id decide. *)
Theorem matcher_agrees_with_search devices event by_username by_mac :
  match_event_with_identities (from_devices devices) event by_username by_mac =
  match (if by_username
         then username ← ev_user_name event; classify (rows_with_username username devices)
         else None) with
  | Some answer => answer
  | None =>
      default Match_NoMatch
        (if by_mac
         then station ← ev_calling_station_id event; n ← normalize_radius_mac station;
              classify (rows_with_mac n devices)
         else None)
  end.
Proof.
  unfold match_event_with_identities, match_calling_station.
  pose proof (fun n => match_entry_of _ n _ (proj1 (from_devices_lookup devices n))) as Hm.
  pose proof (fun n => match_entry_of _ n _ (proj2 (from_devices_lookup devices n))) as Hu.
  assert ((username ← ev_user_name event; match_entry (matches_by_username (from_devices devices)) username)
    = (username ← ev_user_name event; classify (rows_with_username username devices))) as ->.
  { destruct (ev_user_name event); cbn; [apply Hu|done]. }
  case_match; [done|]. destruct by_mac; cbn; [|done].
  destruct (ev_calling_station_id event) as [station|]; cbn; [|done].
  destruct (normalize_radius_mac station); cbn; [by rewrite Hm|done].
Qed.
