(* ===== verification/SessionTypes.v ===== *)
(** * Sessions: identities, keys and resolutions (crate [lqos_radius], [session.rs])

    The data of the accounting-session store: NAS identities and identity sets, session keys and
    pending fingerprints, rate profiles, parent mappings and resolutions, the retained session, the
    update and ignore results, and the dynamic-circuit intents of [dynamic_circuit.rs].  A [&str] or
    [String] is an [rstring]; [Option<T>] is [option]; a [HashSet] is a [gset]. *)

From S2P Require Import Prelude RustStd AccountingEvent ShapedDevice MacMatch.

(** ** NAS identities *)

Inductive NasIdentity : Type :=
| Nas_Identifier (identifier : rstring)
| Nas_Ipv4 (address : Ipv4Addr)
| Nas_Ipv6 (address : Ipv6Addr).

#[export] Instance NasIdentity_eq_dec : EqDecision NasIdentity.
Proof. solve_decision. Defined.
#[export] Instance NasIdentity_countable : Countable NasIdentity.
Proof.
  refine (inj_countable'
    (fun n => match n with
              | Nas_Identifier i => inl i | Nas_Ipv4 a => inr (inl a) | Nas_Ipv6 a => inr (inr a)
              end)
    (fun s => match s with
              | inl i => Nas_Identifier i | inr (inl a) => Nas_Ipv4 a | inr (inr a) => Nas_Ipv6 a
              end) _).
  by intros [].
Defined.

(** [hex_component]: two lower-case hexadecimal digits per byte. *)
Definition HEX : list Z := str "0123456789abcdef".
Definition hex_component (bytes : list Z) : rstring :=
  concat (map (fun byte => [byte_at HEX (Z.to_nat (Z.shiftr byte 4));
                            byte_at HEX (Z.to_nat (Z.land byte 15))]) bytes).

Definition circuit_id_component (nas : NasIdentity) : rstring :=
  match nas with
  | Nas_Identifier identifier => str "nas-id:" ++ hex_component (as_bytes identifier)
  | Nas_Ipv4 address => str "nas-ipv4:" ++ hex_component (ipv4_octets address)
  | Nas_Ipv6 address => str "nas-ipv6:" ++ hex_component (ipv6_octets address)
  end.

Record NasIdentitySet : Type := mkNasIdentitySet {
  set_identifier : option rstring;
  set_ipv4 : option Ipv4Addr;
  set_ipv6 : option Ipv6Addr
}.

(** [non_empty_text]. *)
Definition non_empty_text (value : option rstring) : option rstring :=
  option_filter (fun v => negb (str_is_empty v)) value.

(** [non_empty_str]. *)
Definition non_empty_str (value : option rstring) : option rstring :=
  option_filter (fun v => negb (is_blank v)) value.

Definition NasIdentitySet_from_event (event : AccountingEvent) : NasIdentitySet :=
  {| set_identifier := option_filter (fun i => negb (str_is_empty i)) (ev_nas_identifier event);
     set_ipv4 := ev_nas_ip_address event;
     set_ipv6 := ev_nas_ipv6_address event |}.

Definition primary (s : NasIdentitySet) : option NasIdentity :=
  match set_identifier s with
  | Some identifier => Some (Nas_Identifier identifier)
  | None =>
      match set_ipv4 s with
      | Some ipv4 => Some (Nas_Ipv4 ipv4)
      | None => Nas_Ipv6 <$> set_ipv6 s
      end
  end.

(** [Option::is_none]. *)
Definition is_none {A} (o : option A) : bool := match o with None => true | Some _ => false end.

Definition NasIdentitySet_is_empty (s : NasIdentitySet) : bool :=
  is_none (set_identifier s) && is_none (set_ipv4 s) && is_none (set_ipv6 s).

Definition NasIdentitySet_contains (s : NasIdentitySet) (identity : NasIdentity) : bool :=
  match identity with
  | Nas_Identifier identifier => bool_decide (set_identifier s = Some identifier)
  | Nas_Ipv4 ipv4 => bool_decide (set_ipv4 s = Some ipv4)
  | Nas_Ipv6 ipv6 => bool_decide (set_ipv6 s = Some ipv6)
  end.

Definition identities (s : NasIdentitySet) : list NasIdentity :=
  option_list (Nas_Identifier <$> set_identifier s)
  ++ option_list (Nas_Ipv4 <$> set_ipv4 s)
  ++ option_list (Nas_Ipv6 <$> set_ipv6 s).

(** [left.zip(right).is_some_and(|(left, right)| left == right)]. *)
Definition zip_eq {A} `{EqDecision A} (l r : option A) : bool :=
  match l, r with Some x, Some y => bool_decide (x = y) | _, _ => false end.

Definition overlaps (s other : NasIdentitySet) : bool :=
  zip_eq (set_identifier s) (set_identifier other)
  || zip_eq (set_ipv4 s) (set_ipv4 other)
  || zip_eq (set_ipv6 s) (set_ipv6 other).

(** ** Keys *)

Record PendingSessionFingerprint : Type := mkPendingSessionFingerprint {
  fp_nas : option NasIdentity;
  fp_acct_session_id : option rstring;
  fp_user_name : option rstring;
  fp_calling_station_id : option rstring;
  fp_nas_port_id : option rstring;
  fp_nas_port : option Z
}.

#[export] Instance PendingSessionFingerprint_eq_dec : EqDecision PendingSessionFingerprint.
Proof. solve_decision. Defined.
#[export] Instance PendingSessionFingerprint_countable : Countable PendingSessionFingerprint.
Proof.
  refine (inj_countable'
    (fun f => (fp_nas f, fp_acct_session_id f, fp_user_name f, fp_calling_station_id f,
               fp_nas_port_id f, fp_nas_port f))
    (fun '(a, b, c, d, e, g) => mkPendingSessionFingerprint a b c d e g) _).
  by intros [].
Defined.

(** [PendingSessionFingerprint::from_event]. *)
Definition fingerprint_from_event (event : AccountingEvent) (nas : option NasIdentity)
    : PendingSessionFingerprint :=
  {| fp_nas := nas;
     fp_acct_session_id := non_empty_text (ev_acct_session_id event);
     fp_user_name := non_empty_text (ev_user_name event);
     fp_calling_station_id := non_empty_text (ev_calling_station_id event);
     fp_nas_port_id := non_empty_text (ev_nas_port_id event);
     fp_nas_port := ev_nas_port event |}.

(** [None] is a conflict; [Some true] an equality of two known values. *)
Definition optional_match {T} `{EqDecision T} (left right : option T) : option bool :=
  match left, right with
  | Some l, Some r => if bool_decide (l = r) then Some true else None
  | _, _ => Some false
  end.

(** The nested [let ... else { return false }] as an option computation. *)
Definition matches_with_nas_context (f other : PendingSessionFingerprint) (nas_context_matches : bool)
    : bool :=
  default false (
    nas_matches ← (if nas_context_matches then Some true else optional_match (fp_nas f) (fp_nas other));
    session_id_matches ← optional_match (fp_acct_session_id f) (fp_acct_session_id other);
    if (session_id_matches && nas_matches : bool) then Some true
    else
      user_name_matches ← optional_match (fp_user_name f) (fp_user_name other);
      calling_station_matches ← optional_match (fp_calling_station_id f) (fp_calling_station_id other);
      nas_port_id_matches ← optional_match (fp_nas_port_id f) (fp_nas_port_id other);
      nas_port_matches ← optional_match (fp_nas_port f) (fp_nas_port other);
      let non_session_matches :=
        length (List.filter (fun b : bool => b)
          [user_name_matches; calling_station_matches; nas_port_id_matches; nas_port_matches]) in
      Some (((session_id_matches || nas_matches) && (0 <? non_session_matches)%nat)
            || (2 <=? non_session_matches)%nat)).

Inductive AccountingSessionKey : Type :=
| NasSession (nas : NasIdentity) (acct_session_id : rstring)
| Pending (fingerprint : PendingSessionFingerprint).

#[export] Instance AccountingSessionKey_eq_dec : EqDecision AccountingSessionKey.
Proof. solve_decision. Defined.
#[export] Instance AccountingSessionKey_countable : Countable AccountingSessionKey.
Proof.
  refine (inj_countable'
    (fun k => match k with NasSession n a => inl (n, a) | Pending f => inr f end)
    (fun s => match s with inl (n, a) => NasSession n a | inr f => Pending f end) _).
  by intros [].
Defined.

(** [AccountingSessionKey::nas], [acct_session_id], [dynamic_circuit_id]. *)
Definition key_nas (k : AccountingSessionKey) : option NasIdentity :=
  match k with NasSession nas _ => Some nas | Pending f => fp_nas f end.

Definition key_acct_session_id (k : AccountingSessionKey) : option rstring :=
  match k with NasSession _ acct_session_id => Some acct_session_id | Pending f => fp_acct_session_id f end.

Definition dynamic_circuit_id (k : AccountingSessionKey) : option rstring :=
  match k with
  | NasSession nas acct_session_id =>
      Some (str "radius:" ++ circuit_id_component nas ++ str ":session:"
            ++ hex_component (as_bytes acct_session_id))
  | Pending _ => None
  end.

(** ** Lifecycle *)

Inductive NasResetStatus : Type := Reset_AccountingOn | Reset_AccountingOff.

Inductive AccountingSessionState : Type :=
| State_Active
| State_Stopped
| State_Stale (reset : NasResetStatus).

#[export] Instance NasResetStatus_eq_dec : EqDecision NasResetStatus.
Proof. solve_decision. Defined.
#[export] Instance AccountingSessionState_eq_dec : EqDecision AccountingSessionState.
Proof. solve_decision. Defined.

(** ** Rates *)

Record SessionRateProfile : Type := mkSessionRateProfile {
  profile_download_min_mbps : f32;
  profile_upload_min_mbps : f32;
  profile_download_max_mbps : f32;
  profile_upload_max_mbps : f32
}.

(** [SessionRateProfile::new]. *)
Definition SessionRateProfile_new (dmin umin dmax umax : f32)
    : result RateProfileValidationError SessionRateProfile :=
  _ ← validate_rate_profile_mbps dmin umin dmax umax;
  Ok (mkSessionRateProfile dmin umin dmax umax).

Definition bits_per_second_to_mbps (bits_per_second : Z) : f32 :=
  f32_div (f32_of_u64 bits_per_second) (f32_of_u64 1000000).

(** [SessionRateProfile::from_packet_rate]. *)
Definition from_packet_rate (rate_limit : MikrotikRateLimit) : option SessionRateProfile :=
  let upload_mbps := bits_per_second_to_mbps (rl_upload_bps rate_limit) in
  let download_mbps := bits_per_second_to_mbps (rl_download_bps rate_limit) in
  result_ok (SessionRateProfile_new download_mbps upload_mbps download_mbps upload_mbps).

Record SessionRateSources : Type := mkSessionRateSources {
  shaped_device_profile : option SessionRateProfile;
  fallback_profile : option SessionRateProfile
}.
Definition SessionRateSources_default : SessionRateSources := mkSessionRateSources None None.

Inductive SessionRateSource : Type := Source_Packet | Source_ShapedDevice | Source_Fallback.

Record ResolvedSessionRate : Type := mkResolvedSessionRate {
  rate_source : SessionRateSource;
  rate_profile : SessionRateProfile
}.

#[export] Instance SessionRateProfile_eq_dec : EqDecision SessionRateProfile.
Proof. solve_decision. Defined.
#[export] Instance SessionRateSource_eq_dec : EqDecision SessionRateSource.
Proof. solve_decision. Defined.
#[export] Instance ResolvedSessionRate_eq_dec : EqDecision ResolvedSessionRate.
Proof. solve_decision. Defined.

Definition session_rate_profile_from_shaped_device (device : ShapedDevice) : option SessionRateProfile :=
  result_ok (SessionRateProfile_new (download_min_mbps device) (upload_min_mbps device)
    (download_max_mbps device) (upload_max_mbps device)).

(** ** Parent mappings and resolutions *)

Record DynamicCircuitParent : Type := mkDynamicCircuitParent {
  par_parent_node : rstring;
  par_parent_node_id : option rstring;
  par_anchor_node_id : option rstring
}.

Definition DynamicCircuitParent_new (parent_node : rstring) : DynamicCircuitParent :=
  mkDynamicCircuitParent parent_node None None.

Definition has_parent_node (p : DynamicCircuitParent) : bool := negb (is_blank (par_parent_node p)).

Inductive DynamicCircuitMapping : Type :=
| MatchedShapedDevice
| ReadyWithParent (parent : DynamicCircuitParent)
| Mapping_MissingParent
| Mapping_Ambiguous
| Mapping_NoMacMatch
| Mapping_AmbiguousMacMatch
| Mapping_NoIdentityMatch
| Mapping_AmbiguousIdentityMatch.

(** The [#[default]] variant. *)
Definition DynamicCircuitMapping_default : DynamicCircuitMapping := Mapping_MissingParent.

Record DynamicCircuitResolution : Type := mkDynamicCircuitResolution {
  mapping : DynamicCircuitMapping;
  rate_sources : SessionRateSources;
  matched_shaped_device : option ShapedDevice
}.

Definition from_shaped_devices_match_with_fallback_parent (mac_match : ShapedDevicesMacMatch)
    (fallback : option SessionRateProfile) (fallback_parent : option DynamicCircuitParent)
    : DynamicCircuitResolution :=
  match mac_match with
  | Match_Unique device =>
      {| mapping := MatchedShapedDevice;
         rate_sources := mkSessionRateSources (session_rate_profile_from_shaped_device device) None;
         matched_shaped_device := Some device |}
  | Match_NoMatch =>
      {| mapping := default Mapping_NoMacMatch (ReadyWithParent <$> fallback_parent);
         rate_sources := mkSessionRateSources None fallback;
         matched_shaped_device := None |}
  | Match_Ambiguous =>
      {| mapping := Mapping_AmbiguousMacMatch;
         rate_sources := mkSessionRateSources None fallback;
         matched_shaped_device := None |}
  end.

Definition from_shaped_devices_mac_match (mac_match : ShapedDevicesMacMatch)
    (fallback : option SessionRateProfile) : DynamicCircuitResolution :=
  from_shaped_devices_match_with_fallback_parent mac_match fallback None.

Definition from_shaped_devices_identity_match (identity_match : ShapedDevicesMacMatch)
    (fallback : option SessionRateProfile) (fallback_parent : option DynamicCircuitParent)
    : DynamicCircuitResolution :=
  let resolution :=
    from_shaped_devices_match_with_fallback_parent identity_match fallback fallback_parent in
  {| mapping :=
       match mapping resolution with
       | Mapping_NoMacMatch => Mapping_NoIdentityMatch
       | Mapping_AmbiguousMacMatch => Mapping_AmbiguousIdentityMatch
       | m => m
       end;
     rate_sources := rate_sources resolution;
     matched_shaped_device := matched_shaped_device resolution |}.

Record ShapedDevicesMatchOptions : Type := mkShapedDevicesMatchOptions {
  opt_match_by_username : bool;
  opt_match_by_mac : bool;
  opt_fallback_profile : option SessionRateProfile;
  opt_fallback_parent : option DynamicCircuitParent
}.

(** ** Retained sessions *)

Inductive PendingSessionReason : Type :=
| Reason_MissingSessionId
| Reason_MissingNasIdentity
| Reason_MissingCircuitIdentity
| Reason_MissingDeviceIdentity
| Reason_MissingIpAddress
| Reason_MissingRate
| Reason_MissingParent
| Reason_AmbiguousMapping
| Reason_NoMacMatch
| Reason_AmbiguousMacMatch
| Reason_NoIdentityMatch
| Reason_AmbiguousIdentityMatch.

#[export] Instance PendingSessionReason_eq_dec : EqDecision PendingSessionReason.
Proof. solve_decision. Defined.

Record AccountingSession : Type := mkAccountingSession {
  ses_state : AccountingSessionState;
  latest_event : AccountingEvent;
  known_nas_identities : list NasIdentity;
  resolved_rate : option ResolvedSessionRate;
  ses_resolved_shaped_device : option ShapedDevice;
  active_dynamic_circuit_ids : list rstring;
  diagnostic_ids : list rstring;
  ses_pending_reasons : list PendingSessionReason
}.

Inductive AccountingSessionIgnoreReason : Type :=
| MissingStatusType
| UnsupportedStatusType (value : Z)
| MissingNasIdentityForReset (reset : NasResetStatus).

Inductive AccountingSessionUpdate : Type :=
| SessionUpdated (key : AccountingSessionKey) (state : AccountingSessionState)
| NasSessionsMarkedStale (nas : NasIdentity) (reset : NasResetStatus) (marked_count : nat)
    (newly_stale_session_keys stale_session_keys : gset AccountingSessionKey)
| Ignored (reason : AccountingSessionIgnoreReason).

Record RadiusActivationCounters : Type := mkRadiusActivationCounters {
  counter_create : Z;
  counter_update : Z;
  counter_remove : Z;
  counter_expiry : Z
}.
Definition RadiusActivationCounters_default : RadiusActivationCounters :=
  mkRadiusActivationCounters 0 0 0 0.

(** ** Lookup index keys *)

Inductive SessionLookupIndexKey : Type :=
| Lookup_AcctSessionId (v : rstring)
| Lookup_UserName (v : rstring)
| Lookup_CallingStationId (v : rstring)
| Lookup_NasPortId (v : rstring)
| Lookup_NasPort (v : Z).

#[export] Instance SessionLookupIndexKey_eq_dec : EqDecision SessionLookupIndexKey.
Proof. solve_decision. Defined.
#[export] Instance SessionLookupIndexKey_countable : Countable SessionLookupIndexKey.
Proof.
  refine (inj_countable'
    (fun k => match k with
              | Lookup_AcctSessionId v => (0%nat, v, 0) | Lookup_UserName v => (1%nat, v, 0)
              | Lookup_CallingStationId v => (2%nat, v, 0) | Lookup_NasPortId v => (3%nat, v, 0)
              | Lookup_NasPort v => (4%nat, [], v)
              end)
    (fun '(n, v, z) => match n with
              | 0%nat => Lookup_AcctSessionId v | 1%nat => Lookup_UserName v
              | 2%nat => Lookup_CallingStationId v | 3%nat => Lookup_NasPortId v
              | _ => Lookup_NasPort z
              end) _).
  by intros [].
Defined.

(** The five conditional pushes of [push_fingerprint_lookup_keys], innermost first. *)
Definition push_fingerprint_lookup_keys (lookup_keys : list SessionLookupIndexKey)
    (f : PendingSessionFingerprint) : list SessionLookupIndexKey :=
  let push {A} (mk : A -> SessionLookupIndexKey) (o : option A) keys :=
    match o with Some v => push_unique keys (mk v) | None => keys end in
  push Lookup_NasPort (fp_nas_port f)
    (push Lookup_NasPortId (fp_nas_port_id f)
      (push Lookup_CallingStationId (fp_calling_station_id f)
        (push Lookup_UserName (fp_user_name f)
          (push Lookup_AcctSessionId (fp_acct_session_id f) lookup_keys)))).

Record SessionIndexEntries : Type := mkSessionIndexEntries {
  nas_session_id : option rstring;
  pending_lookup_keys : list SessionLookupIndexKey;
  fallback_lookup_keys : list SessionLookupIndexKey
}.

Definition session_fingerprint (key : AccountingSessionKey) (session : AccountingSession)
    : PendingSessionFingerprint :=
  let f := fingerprint_from_event (latest_event session) None in
  match key with
  | NasSession _ acct_session_id =>
      {| fp_nas := fp_nas f; fp_acct_session_id := Some acct_session_id;
         fp_user_name := fp_user_name f; fp_calling_station_id := fp_calling_station_id f;
         fp_nas_port_id := fp_nas_port_id f; fp_nas_port := fp_nas_port f |}
  | Pending _ => f
  end.

Definition session_lookup_index_keys (key : AccountingSessionKey) (session : AccountingSession)
    : list SessionLookupIndexKey :=
  push_fingerprint_lookup_keys [] (session_fingerprint key session).

Definition event_lookup_index_keys (event : AccountingEvent) (ids : NasIdentitySet)
    : list SessionLookupIndexKey :=
  push_fingerprint_lookup_keys [] (fingerprint_from_event event (primary ids)).

Definition session_index_entries (key : AccountingSessionKey) (session : AccountingSession)
    : SessionIndexEntries :=
  let lookup_keys := session_lookup_index_keys key session in
  match key with
  | NasSession _ acct_session_id => mkSessionIndexEntries (Some acct_session_id) [] lookup_keys
  | Pending _ => mkSessionIndexEntries None lookup_keys []
  end.

Definition session_matches_identities (key : AccountingSessionKey) (session : AccountingSession)
    (ids : NasIdentitySet) : bool :=
  match key_nas key with Some nas => NasIdentitySet_contains ids nas | None => false end
  || existsb (NasIdentitySet_contains ids) (known_nas_identities session)
  || overlaps ids (NasIdentitySet_from_event (latest_event session)).

(** ** Dynamic-circuit intents ([dynamic_circuit.rs]) *)

Inductive DynamicCircuitRemovalReason : Type :=
| Removal_Stop
| Removal_Expired
| Removal_NoLongerShapeable
| Removal_Rekeyed
| Removal_NasReset (reset : NasResetStatus).

Record DynamicCircuitUpsert : Type := mkDynamicCircuitUpsert {
  upsert_circuit_id : rstring;
  upsert_session_key : AccountingSessionKey;
  upsert_event : AccountingEvent;
  upsert_shaped_device : ShapedDevice
}.

Record DynamicCircuitRemoval : Type := mkDynamicCircuitRemoval {
  removal_circuit_id : rstring;
  removal_session_key : AccountingSessionKey;
  removal_reason : DynamicCircuitRemovalReason
}.

Inductive DynamicCircuitIntent : Type :=
| CreateDynamicCircuit (upsert : DynamicCircuitUpsert)
| UpdateDynamicCircuit (upsert : DynamicCircuitUpsert)
| RemoveDynamicCircuit (removal : DynamicCircuitRemoval).

(** [DynamicCircuitIntent::circuit_id]. *)
Definition intent_circuit_id (i : DynamicCircuitIntent) : rstring :=
  match i with
  | CreateDynamicCircuit upsert | UpdateDynamicCircuit upsert => upsert_circuit_id upsert
  | RemoveDynamicCircuit removal => removal_circuit_id removal
  end.

(** The trait [DynamicCircuitCommandSink]: any state that receives intents. *)
Class DynamicCircuitCommandSink (S : Type) : Type := emit : S -> DynamicCircuitIntent -> S.
