(* ===== verification/SessionMetadata.v ===== *)
(** * Session metadata: from a decoded event to a shaped device (crate [lqos_radius], [session.rs])

    The pure part of session handling: the subscriber's address ranges, the selected rate, the parent
    attachment, the stable circuit identity, the reasons a session stays pending, and the resolved
    [ShapedDevice]; and the merge of a sparse update into the previous event. *)

From S2P Require Import Prelude RustStd AccountingEvent ShapedDevice MacMatch SessionTypes.

(** ** Subscriber addresses *)

Definition subscriber_ipv4_cidr (address : Ipv4Addr) (prefix_len : Z) : option (Ipv4Addr * Z) :=
  if (prefix_len =? 0) || (32 <? prefix_len) || ipv4_is_unspecified address
     || ipv4_is_multicast address || bool_decide (ipv4_octets address = [255; 255; 255; 255])
  then None
  else Some (address, prefix_len).

(** [u32::MAX << (32 - prefix_len)] keeps the low 32 bits. *)
Definition ipv4_netmask_prefix_len (netmask : Ipv4Addr) : option Z :=
  let netmask_bits := ipv4_to_u32 netmask in
  let prefix_len := Z.of_nat (u32_count_ones netmask_bits) in
  let expected_netmask :=
    if prefix_len =? 0 then 0 else Z.shiftl (2 ^ 32 - 1) (32 - prefix_len) mod 2 ^ 32 in
  if netmask_bits =? expected_netmask then Some prefix_len else None.

Definition parse_ipv4_cidr (raw_cidr : rstring) : option (Ipv4Addr * Z) :=
  match split_once raw_cidr 47 with
  | None => address ← parse_ipv4 raw_cidr; subscriber_ipv4_cidr address 32
  | Some (address, prefix_len) =>
      address ← parse_ipv4 address;
      prefix_len ← parse_uint (2 ^ 32) prefix_len;
      subscriber_ipv4_cidr address prefix_len
  end.

Definition framed_route_destination (framed_route : rstring) : option (Ipv4Addr * Z) :=
  raw_cidr ← head (split_whitespace framed_route); parse_ipv4_cidr raw_cidr.

Definition subscriber_ipv4_cidrs (event : AccountingEvent) : list (Ipv4Addr * Z) :=
  match ev_framed_ip_address event with
  | Some framed_ip_address =>
      let prefix_len :=
        default 32
          (option_filter (fun prefix_len => 0 <? prefix_len)
            (ev_framed_ip_netmask event ≫= ipv4_netmask_prefix_len)) in
      option_list (subscriber_ipv4_cidr framed_ip_address prefix_len)
  | None => []
  end
  ++ omap framed_route_destination (ev_framed_routes event).

Definition subscriber_ipv6_cidr (address : Ipv6Addr) (prefix_len : Z) : option (Ipv6Addr * Z) :=
  if (prefix_len =? 0) || (128 <? prefix_len) || ipv6_is_unspecified address
     || ipv6_is_multicast address
  then None
  else Some (address, prefix_len).

Definition subscriber_ipv6_cidrs (event : AccountingEvent) : list (Ipv6Addr * Z) :=
  let cidr_of (prefix : Ipv6Prefix) := subscriber_ipv6_cidr (prefix_address prefix) (prefix_len prefix) in
  match ev_framed_ipv6_address event with
  | Some framed_ipv6_address => option_list (subscriber_ipv6_cidr framed_ipv6_address 128)
  | None => []
  end
  ++ omap cidr_of (ev_framed_ipv6_prefixes event)
  ++ omap cidr_of (ev_delegated_ipv6_prefixes event).

Record SubscriberIpMetadata : Type := mkSubscriberIpMetadata {
  sub_ipv4 : list (Ipv4Addr * Z);
  sub_ipv6 : list (Ipv6Addr * Z)
}.

Definition SubscriberIpMetadata_from_event (event : AccountingEvent) : SubscriberIpMetadata :=
  mkSubscriberIpMetadata (subscriber_ipv4_cidrs event) (subscriber_ipv6_cidrs event).

(** [Vec::is_empty]. *)
Definition is_nil {A} (l : list A) : bool := match l with [] => true | _ => false end.

Definition SubscriberIpMetadata_is_empty (s : SubscriberIpMetadata) : bool :=
  is_nil (sub_ipv4 s) && is_nil (sub_ipv6 s).

(** ** Rate selection *)

Definition resolved_session_rate (event : AccountingEvent) (sources : SessionRateSources)
    : option ResolvedSessionRate :=
  match head (omap from_packet_rate (ev_mikrotik_rate_limits event)) with
  | Some profile => Some (mkResolvedSessionRate Source_Packet profile)
  | None =>
      match shaped_device_profile sources with
      | Some profile => Some (mkResolvedSessionRate Source_ShapedDevice profile)
      | None => mkResolvedSessionRate Source_Fallback <$> fallback_profile sources
      end
  end.

(** ** Parent attachment *)

Definition parent_from_shaped_device (device : ShapedDevice) : option DynamicCircuitParent :=
  let parent := mkDynamicCircuitParent (parent_node device) (parent_node_id device)
                  (anchor_node_id device) in
  if has_parent_node parent then Some parent else None.

Definition parent_from_mapping (m : DynamicCircuitMapping) : option DynamicCircuitParent :=
  match m with
  | ReadyWithParent parent => if has_parent_node parent then Some parent else None
  | _ => None
  end.

Definition resolved_parent_attachment (matched : option ShapedDevice) (m : DynamicCircuitMapping)
    : option DynamicCircuitParent :=
  option_or (matched ≫= parent_from_shaped_device) (parent_from_mapping m).

(** ** Circuit and device identity *)

Definition stable_subscriber_circuit_id (key : AccountingSessionKey) (event : AccountingEvent)
    : option rstring :=
  nas ← circuit_id_component <$> key_nas key;
  match option_filter (fun value => negb (str_is_empty value)) (ev_user_name event) with
  | Some username =>
      Some (str "radius:" ++ nas ++ str ":username:" ++ hex_component (as_bytes username))
  | None =>
      calling_station_id ← non_empty_str (ev_calling_station_id event);
      let identity := default calling_station_id (normalize_radius_mac calling_station_id) in
      Some (str "radius:" ++ nas ++ str ":calling-station:" ++ hex_component (as_bytes identity))
  end.

(** [Option::is_some]. *)
Definition is_some {A} (o : option A) : bool := match o with Some _ => true | None => false end.

Definition circuit_identity_available (key : AccountingSessionKey) (matched : option ShapedDevice)
    (event : AccountingEvent) : bool :=
  match matched with
  | Some device => negb (is_blank (circuit_id device))
  | None => is_some (stable_subscriber_circuit_id key event)
  end.

Definition device_identity_available (key : AccountingSessionKey) (matched : option ShapedDevice)
    (event : AccountingEvent) : bool :=
  match matched with
  | Some device => negb (is_blank (device_id device))
  | None => is_some (stable_subscriber_circuit_id key event)
  end.

Definition default_circuit_name (event : AccountingEvent) (fallback : rstring) : rstring :=
  default fallback
    (option_or (non_empty_str (ev_user_name event))
      (option_or (non_empty_str (ev_calling_station_id event))
        (non_empty_str (ev_acct_session_id event)))).

Definition default_device_name (event : AccountingEvent) (fallback : rstring) : rstring :=
  default fallback
    (option_or (non_empty_str (ev_calling_station_id event))
      (option_or (non_empty_str (ev_user_name event))
        (non_empty_str (ev_acct_session_id event)))).

(** ** The resolved device *)

Definition default_resolved_shaped_device (key : AccountingSessionKey) (event : AccountingEvent)
    (parent : DynamicCircuitParent) : option ShapedDevice :=
  circuit_id ← stable_subscriber_circuit_id key event;
  let device_id := circuit_id in
  let dflt := ShapedDevice_default in
  Some (mkShapedDevice
    circuit_id (default_circuit_name event circuit_id) device_id (default_device_name event device_id)
    (par_parent_node parent) (par_parent_node_id parent) (par_anchor_node_id parent)
    (default [] (non_empty_str (ev_calling_station_id event)))
    (dev_ipv4 dflt) (dev_ipv6 dflt) (download_min_mbps dflt) (upload_min_mbps dflt)
    (download_max_mbps dflt) (upload_max_mbps dflt) [] None 0 0 0).

(** [apply_parent_attachment]; the address assignments of [resolved_shaped_device];
    [apply_session_rate_profile]. *)
Definition apply_parent_attachment (d : ShapedDevice) (parent : DynamicCircuitParent) : ShapedDevice :=
  mkShapedDevice (circuit_id d) (circuit_name d) (device_id d) (device_name d)
    (par_parent_node parent) (par_parent_node_id parent) (par_anchor_node_id parent)
    (mac d) (dev_ipv4 d) (dev_ipv6 d) (download_min_mbps d) (upload_min_mbps d)
    (download_max_mbps d) (upload_max_mbps d) (comment d) (sqm_override d)
    (circuit_hash d) (device_hash d) (parent_hash d).

Definition set_addresses (d : ShapedDevice) (ips : SubscriberIpMetadata) : ShapedDevice :=
  mkShapedDevice (circuit_id d) (circuit_name d) (device_id d) (device_name d)
    (parent_node d) (parent_node_id d) (anchor_node_id d)
    (mac d) (sub_ipv4 ips) (sub_ipv6 ips) (download_min_mbps d) (upload_min_mbps d)
    (download_max_mbps d) (upload_max_mbps d) (comment d) (sqm_override d)
    (circuit_hash d) (device_hash d) (parent_hash d).

Definition apply_session_rate_profile (d : ShapedDevice) (p : SessionRateProfile) : ShapedDevice :=
  mkShapedDevice (circuit_id d) (circuit_name d) (device_id d) (device_name d)
    (parent_node d) (parent_node_id d) (anchor_node_id d)
    (mac d) (dev_ipv4 d) (dev_ipv6 d) (profile_download_min_mbps p) (profile_upload_min_mbps p)
    (profile_download_max_mbps p) (profile_upload_max_mbps p) (comment d) (sqm_override d)
    (circuit_hash d) (device_hash d) (parent_hash d).

Definition resolved_shaped_device (key : AccountingSessionKey) (event : AccountingEvent)
    (matched : option ShapedDevice) (rate : option ResolvedSessionRate) (ips : SubscriberIpMetadata)
    (parent : option DynamicCircuitParent) : option ShapedDevice :=
  rate ← rate;
  parent ← parent;
  device ← match matched with
           | Some device => Some device
           | None => default_resolved_shaped_device key event parent
           end;
  let device := apply_parent_attachment device parent in
  let device := set_addresses device ips in
  let device := apply_session_rate_profile device (rate_profile rate) in
  Some (refresh_hashes device).

(** ** Pending reasons *)

Definition pending_reasons (event : AccountingEvent) (m : DynamicCircuitMapping)
    (rate : option ResolvedSessionRate) (ips : SubscriberIpMetadata)
    (parent : option DynamicCircuitParent) (has_circuit_identity has_device_identity : bool)
    : list PendingSessionReason :=
  let missing_session_id :=
    match ev_acct_session_id event with None => true | Some s => str_is_empty s end in
  let missing_nas_identity := NasIdentitySet_is_empty (NasIdentitySet_from_event event) in
  let push (b : bool) (r : PendingSessionReason) := if b then [r] else [] in
  push missing_session_id Reason_MissingSessionId
  ++ push missing_nas_identity Reason_MissingNasIdentity
  ++ push (negb has_circuit_identity && negb missing_session_id && negb missing_nas_identity)
       Reason_MissingCircuitIdentity
  ++ push (negb has_device_identity && negb missing_session_id && negb missing_nas_identity)
       Reason_MissingDeviceIdentity
  ++ push (SubscriberIpMetadata_is_empty ips) Reason_MissingIpAddress
  ++ push (is_none rate) Reason_MissingRate
  ++ push (is_none parent
           && match m with
              | MatchedShapedDevice | ReadyWithParent _ | Mapping_MissingParent => true
              | _ => false
              end) Reason_MissingParent
  ++ match m with
     | MatchedShapedDevice | ReadyWithParent _ | Mapping_MissingParent => []
     | Mapping_Ambiguous => [Reason_AmbiguousMapping]
     | Mapping_NoMacMatch => [Reason_NoMacMatch]
     | Mapping_AmbiguousMacMatch => [Reason_AmbiguousMacMatch]
     | Mapping_NoIdentityMatch => [Reason_NoIdentityMatch]
     | Mapping_AmbiguousIdentityMatch => [Reason_AmbiguousIdentityMatch]
     end.

Record SessionDynamicMetadata : Type := mkSessionDynamicMetadata {
  meta_resolved_rate : option ResolvedSessionRate;
  meta_resolved_shaped_device : option ShapedDevice;
  meta_pending_reasons : list PendingSessionReason
}.

Definition SessionDynamicMetadata_inactive : SessionDynamicMetadata :=
  mkSessionDynamicMetadata None None [].

Definition session_dynamic_metadata (key : AccountingSessionKey) (event : AccountingEvent)
    (resolution : DynamicCircuitResolution) : SessionDynamicMetadata :=
  let subscriber_ips := SubscriberIpMetadata_from_event event in
  let rate := resolved_session_rate event (rate_sources resolution) in
  let parent := resolved_parent_attachment (matched_shaped_device resolution) (mapping resolution) in
  let has_circuit_identity :=
    circuit_identity_available key (matched_shaped_device resolution) event in
  let has_device_identity :=
    device_identity_available key (matched_shaped_device resolution) event in
  let reasons := pending_reasons event (mapping resolution) rate subscriber_ips parent
                   has_circuit_identity has_device_identity in
  {| meta_resolved_rate := rate;
     meta_resolved_shaped_device :=
       if is_nil reasons
       then resolved_shaped_device key event (matched_shaped_device resolution) rate subscriber_ips parent
       else None;
     meta_pending_reasons := reasons |}.

(** ** Merging a sparse update into the retained event *)

(** [carry_text] and [carry_optional]. *)
Definition carry {A} (target previous : option A) : option A :=
  match target with None => previous | Some _ => target end.

(** [if event.field.is_empty() { event.field = previous.field.clone() }]. *)
Definition carry_list {A} (target previous : list A) : list A :=
  if is_nil target then previous else target.

Definition merge_sparse_active_event (previous event : AccountingEvent) : AccountingEvent :=
  {| ev_status_type := ev_status_type event;
     ev_acct_session_id := carry (ev_acct_session_id event) (ev_acct_session_id previous);
     ev_nas_identifier := carry (ev_nas_identifier event) (ev_nas_identifier previous);
     ev_nas_ip_address := carry (ev_nas_ip_address event) (ev_nas_ip_address previous);
     ev_nas_ipv6_address := carry (ev_nas_ipv6_address event) (ev_nas_ipv6_address previous);
     ev_nas_port := carry (ev_nas_port event) (ev_nas_port previous);
     ev_nas_port_id := carry (ev_nas_port_id event) (ev_nas_port_id previous);
     ev_user_name := carry (ev_user_name event) (ev_user_name previous);
     ev_calling_station_id := carry (ev_calling_station_id event) (ev_calling_station_id previous);
     ev_called_station_id := carry (ev_called_station_id event) (ev_called_station_id previous);
     ev_class := carry_list (ev_class event) (ev_class previous);
     ev_event_timestamp := ev_event_timestamp event;
     ev_framed_ip_address := carry (ev_framed_ip_address event) (ev_framed_ip_address previous);
     ev_framed_ip_netmask := carry (ev_framed_ip_netmask event) (ev_framed_ip_netmask previous);
     ev_framed_routes := carry_list (ev_framed_routes event) (ev_framed_routes previous);
     ev_framed_ipv6_prefixes :=
       carry_list (ev_framed_ipv6_prefixes event) (ev_framed_ipv6_prefixes previous);
     ev_delegated_ipv6_prefixes :=
       carry_list (ev_delegated_ipv6_prefixes event) (ev_delegated_ipv6_prefixes previous);
     ev_framed_ipv6_address := carry (ev_framed_ipv6_address event) (ev_framed_ipv6_address previous);
     ev_unknown_standard_attributes := ev_unknown_standard_attributes event;
     ev_unknown_vendor_attributes := ev_unknown_vendor_attributes event;
     ev_mikrotik_rate_limits :=
       carry_list (ev_mikrotik_rate_limits event) (ev_mikrotik_rate_limits previous) |}.

Definition latest_session_event (previous : option AccountingEvent) (event : AccountingEvent)
    (state : AccountingSessionState) : AccountingEvent :=
  if negb (bool_decide (state = State_Active)) then event
  else
    match previous with
    | None => event
    | Some previous => merge_sparse_active_event previous event
    end.
