(* ===== verification/SessionStore.v ===== *)
(** * The accounting-session store (crate [lqos_radius], [session.rs])

    [AccountingSessionStore] with its session map and its three lookup indexes, every operation that
    changes it, the resolution of an event to a session key, and the emission of dynamic-circuit
    intents into a sink.  [&mut self] is explicit state passing; a [HashMap] is a [gmap], a [HashSet]
    a [gset], and iteration over them goes through [map_to_list] and [elements].  A counter
    increment is [u64_succ]. *)

From S2P Require Import Prelude RustStd AccountingEvent ShapedDevice MacMatch.
From S2P Require Import SessionTypes SessionMetadata.

Abbreviation KeyIndex K := (gmap K (gset AccountingSessionKey)) (only parsing).

Record AccountingSessionStore : Type := mkAccountingSessionStore {
  sessions : gmap AccountingSessionKey AccountingSession;
  nas_session_keys_by_acct_session_id : KeyIndex rstring;
  pending_keys_by_lookup : KeyIndex SessionLookupIndexKey;
  fallback_keys_by_lookup : KeyIndex SessionLookupIndexKey;
  activation_counters : RadiusActivationCounters
}.

Definition AccountingSessionStore_new : AccountingSessionStore :=
  mkAccountingSessionStore ∅ ∅ ∅ ∅ RadiusActivationCounters_default.

(** Field updates of the store. *)
Definition set_sessions (m : gmap AccountingSessionKey AccountingSession) (s : AccountingSessionStore)
    : AccountingSessionStore :=
  mkAccountingSessionStore m (nas_session_keys_by_acct_session_id s) (pending_keys_by_lookup s)
    (fallback_keys_by_lookup s) (activation_counters s).
Definition set_counters (c : RadiusActivationCounters) (s : AccountingSessionStore)
    : AccountingSessionStore :=
  mkAccountingSessionStore (sessions s) (nas_session_keys_by_acct_session_id s)
    (pending_keys_by_lookup s) (fallback_keys_by_lookup s) c.

(** [len], [is_empty], [session]. *)
Definition store_len (s : AccountingSessionStore) : nat := size (sessions s).
Definition store_is_empty (s : AccountingSessionStore) : bool := bool_decide (sessions s = ∅).
Definition store_session (s : AccountingSessionStore) (key : AccountingSessionKey)
    : option AccountingSession := sessions s !! key.

(** ** Indexes *)

(** [index.entry(k).or_default().insert(key)]. *)
Definition add_indexed_session_key {K} `{Countable K} (index : KeyIndex K) (k : K)
    (key : AccountingSessionKey) : KeyIndex K :=
  <[k := {[key]} ∪ default ∅ (index !! k)]> index.

Definition remove_indexed_session_key {K} `{Countable K} (index : KeyIndex K) (index_key : K)
    (session_key : AccountingSessionKey) : KeyIndex K :=
  match index !! index_key with
  | Some keys =>
      let keys := keys ∖ {[session_key]} in
      if bool_decide (keys = ∅) then delete index_key index else <[index_key := keys]> index
  | None => index
  end.

Definition index_session (s : AccountingSessionStore) (key : AccountingSessionKey)
    : AccountingSessionStore :=
  match sessions s !! key with
  | None => s
  | Some session =>
      let entries := session_index_entries key session in
      mkAccountingSessionStore (sessions s)
        (match nas_session_id entries with
         | Some acct_session_id =>
             add_indexed_session_key (nas_session_keys_by_acct_session_id s) acct_session_id key
         | None => nas_session_keys_by_acct_session_id s
         end)
        (fold_left (fun index k => add_indexed_session_key index k key)
           (pending_lookup_keys entries) (pending_keys_by_lookup s))
        (fold_left (fun index k => add_indexed_session_key index k key)
           (fallback_lookup_keys entries) (fallback_keys_by_lookup s))
        (activation_counters s)
  end.

Definition remove_session_indexes (s : AccountingSessionStore) (key : AccountingSessionKey)
    : AccountingSessionStore :=
  match sessions s !! key with
  | None => s
  | Some session =>
      let entries := session_index_entries key session in
      mkAccountingSessionStore (sessions s)
        (match nas_session_id entries with
         | Some acct_session_id =>
             remove_indexed_session_key (nas_session_keys_by_acct_session_id s) acct_session_id key
         | None => nas_session_keys_by_acct_session_id s
         end)
        (fold_left (fun index k => remove_indexed_session_key index k key)
           (pending_lookup_keys entries) (pending_keys_by_lookup s))
        (fold_left (fun index k => remove_indexed_session_key index k key)
           (fallback_lookup_keys entries) (fallback_keys_by_lookup s))
        (activation_counters s)
  end.

Definition remove_session (s : AccountingSessionStore) (key : AccountingSessionKey)
    : AccountingSessionStore * option AccountingSession :=
  let s := remove_session_indexes s key in
  (set_sessions (delete key (sessions s)) s, sessions s !! key).

(** ** Key resolution *)

Record SessionKeyResolution : Type := mkSessionKeyResolution {
  resolution_key : AccountingSessionKey;
  previous_keys : list AccountingSessionKey
}.

Definition SessionKeyResolution_new (key : AccountingSessionKey) : SessionKeyResolution :=
  mkSessionKeyResolution key [].
Definition promoted (key : AccountingSessionKey) (previous : list AccountingSessionKey)
    : SessionKeyResolution := mkSessionKeyResolution key previous.
Definition or_existing (r : SessionKeyResolution) (existing_key : option AccountingSessionKey)
    : SessionKeyResolution :=
  match existing_key with Some key => SessionKeyResolution_new key | None => r end.

(** The conditions of the three lookup loops. *)
Definition matching_session_test (s : AccountingSessionStore) (ids : NasIdentitySet)
    (excluded_key : option AccountingSessionKey) (key : AccountingSessionKey) : bool :=
  negb (bool_decide (excluded_key = Some key))
  && match sessions s !! key with
     | None => false
     | Some session => session_matches_identities key session ids
     end.

Definition matching_session_key (s : AccountingSessionStore) (acct_session_id : rstring)
    (ids : NasIdentitySet) (excluded_key : option AccountingSessionKey)
    : option AccountingSessionKey :=
  candidate_keys ← nas_session_keys_by_acct_session_id s !! acct_session_id;
  unique_match (matching_session_test s ids excluded_key) None (elements candidate_keys).

Definition existing_session_key (s : AccountingSessionStore) (acct_session_id : rstring)
    (ids : NasIdentitySet) : option AccountingSessionKey :=
  matching_session_key s acct_session_id ids None.

Definition alternate_session_key (s : AccountingSessionStore) (acct_session_id : rstring)
    (ids : NasIdentitySet) (candidate : AccountingSessionKey) : option AccountingSessionKey :=
  matching_session_key s acct_session_id ids (Some candidate).

Definition lookup_candidates (index : KeyIndex SessionLookupIndexKey) (event : AccountingEvent)
    (ids : NasIdentitySet) : gset AccountingSessionKey :=
  fold_left (fun candidates lookup_key =>
      match index !! lookup_key with
      | None => candidates
      | Some keys => candidates ∪ keys
      end)
    (event_lookup_index_keys event ids) ∅.

Definition pending_key_test (s : AccountingSessionStore) (event_fingerprint : PendingSessionFingerprint)
    (ids : NasIdentitySet) (key : AccountingSessionKey) : bool :=
  match sessions s !! key with
  | None => false
  | Some session =>
      match key with
      | NasSession _ _ => false
      | Pending fingerprint =>
          let nas_context_matches :=
            negb (NasIdentitySet_is_empty ids) && session_matches_identities key session ids in
          matches_with_nas_context fingerprint event_fingerprint nas_context_matches
      end
  end.

Definition existing_pending_key (s : AccountingSessionStore) (event : AccountingEvent)
    (ids : NasIdentitySet) : option AccountingSessionKey :=
  let event_fingerprint := fingerprint_from_event event (primary ids) in
  unique_match (pending_key_test s event_fingerprint ids) None
    (elements (lookup_candidates (pending_keys_by_lookup s) event ids)).

Definition fallback_key_test (s : AccountingSessionStore)
    (event_fingerprint : PendingSessionFingerprint) (ids : NasIdentitySet)
    (key : AccountingSessionKey) : bool :=
  match key with
  | Pending _ => false
  | NasSession _ _ =>
      match sessions s !! key with
      | None => false
      | Some session =>
          negb (negb (NasIdentitySet_is_empty ids) && negb (session_matches_identities key session ids))
          && matches_with_nas_context (session_fingerprint key session) event_fingerprint
               (negb (NasIdentitySet_is_empty ids))
      end
  end.

Definition existing_fallback_session_key (s : AccountingSessionStore) (event : AccountingEvent)
    (ids : NasIdentitySet) : option AccountingSessionKey :=
  let event_fingerprint := fingerprint_from_event event (primary ids) in
  unique_match (fallback_key_test s event_fingerprint ids) None
    (elements (lookup_candidates (fallback_keys_by_lookup s) event ids)).

Definition resolve_session_key (s : AccountingSessionStore) (event : AccountingEvent)
    : SessionKeyResolution :=
  let ids := NasIdentitySet_from_event event in
  let nas := primary ids in
  match option_filter (fun id => negb (str_is_empty id)) (ev_acct_session_id event), nas with
  | Some acct_session_id, Some nas =>
      let candidate := NasSession nas acct_session_id in
      if bool_decide (is_Some (sessions s !! candidate)) then
        let previous_keys :=
          match alternate_session_key s acct_session_id ids candidate with
          | Some previous_key => [previous_key]
          | None => []
          end in
        let previous_keys :=
          match existing_pending_key s event ids with
          | Some previous_key => push_unique previous_keys previous_key
          | None => previous_keys
          end in
        if negb (is_nil previous_keys) then promoted candidate previous_keys
        else SessionKeyResolution_new candidate
      else
        match existing_session_key s acct_session_id ids with
        | Some existing_key =>
            match existing_pending_key s event ids with
            | Some previous_key => promoted existing_key [previous_key]
            | None => SessionKeyResolution_new existing_key
            end
        | None =>
            match existing_pending_key s event ids with
            | Some previous_key => promoted candidate [previous_key]
            | None => SessionKeyResolution_new candidate
            end
        end
  | _, nas =>
      or_existing (SessionKeyResolution_new (Pending (fingerprint_from_event event nas)))
        (existing_fallback_session_key s event ids)
  end.

(** ** Applying an event to one session *)

(** [push_unique_text]: blank texts are not kept. *)
Definition push_unique_text (values : list rstring) (value : rstring) : list rstring :=
  if is_blank value then values else push_unique values value.

(** [merge_known_nas_identity_values], [merge_active_dynamic_circuit_ids],
    [merge_diagnostic_circuit_ids], [merge_known_nas_identities]. *)
Definition merge_known_nas_identity_values (known ids : list NasIdentity) : list NasIdentity :=
  push_all_unique known ids.
Definition merge_active_dynamic_circuit_ids (active ids : list rstring) : list rstring :=
  push_all_unique active ids.
Definition merge_diagnostic_circuit_ids (diagnostic ids : list rstring) : list rstring :=
  fold_left push_unique_text ids diagnostic.
Definition merge_known_nas_identities (known : list NasIdentity) (event : AccountingEvent)
    : list NasIdentity :=
  merge_known_nas_identity_values known (identities (NasIdentitySet_from_event event)).

(** Removing the promoted sessions, in order; the ones that existed are returned. *)
Fixpoint remove_sessions (s : AccountingSessionStore) (keys : list AccountingSessionKey)
    : AccountingSessionStore * list AccountingSession :=
  match keys with
  | [] => (s, [])
  | key :: keys' =>
      let '(s, removed) := remove_session s key in
      let '(s, rest) := remove_sessions s keys' in
      (s, option_list removed ++ rest)
  end.

(** What the loops over the promoted sessions accumulate. *)
Record MergedSessions : Type := mkMergedSessions {
  merged_nas : list NasIdentity;
  merged_active : list rstring;
  merged_diagnostic : list rstring;
  merged_event : option AccountingEvent
}.

(** The loop body when the target session exists: the previous event is that session's. *)
Definition merge_into_existing (state : AccountingSessionState) (m : MergedSessions)
    (promoted_session : AccountingSession) : MergedSessions :=
  {| merged_nas := merge_known_nas_identity_values (merged_nas m) (known_nas_identities promoted_session);
     merged_active :=
       merge_active_dynamic_circuit_ids (merged_active m) (active_dynamic_circuit_ids promoted_session);
     merged_diagnostic :=
       merge_diagnostic_circuit_ids (merged_diagnostic m) (diagnostic_ids promoted_session);
     merged_event :=
       if bool_decide (state = State_Active)
       then (fun previous => merge_sparse_active_event previous (latest_event promoted_session))
              <$> merged_event m
       else merged_event m |}.

(** The loop body when the target session is new: the previous event starts empty. *)
Definition merge_into_new (state : AccountingSessionState) (m : MergedSessions)
    (promoted_session : AccountingSession) : MergedSessions :=
  {| merged_nas := merge_known_nas_identity_values (merged_nas m) (known_nas_identities promoted_session);
     merged_active :=
       merge_active_dynamic_circuit_ids (merged_active m) (active_dynamic_circuit_ids promoted_session);
     merged_diagnostic :=
       merge_diagnostic_circuit_ids (merged_diagnostic m) (diagnostic_ids promoted_session);
     merged_event :=
       Some (match merged_event m with
             | Some previous =>
                 if bool_decide (state = State_Active)
                 then merge_sparse_active_event previous (latest_event promoted_session)
                 else previous
             | None => latest_event promoted_session
             end) |}.

(** The session both branches of [apply_session_state] leave in the store. *)
Definition updated_session (key : AccountingSessionKey) (m : MergedSessions) (event : AccountingEvent)
    (resolve_metadata : AccountingEvent -> DynamicCircuitResolution) (state : AccountingSessionState)
    : AccountingSession :=
  let latest := latest_session_event (merged_event m) event state in
  let metadata :=
    if bool_decide (state = State_Active)
    then session_dynamic_metadata key latest (resolve_metadata latest)
    else SessionDynamicMetadata_inactive in
  {| ses_state := state;
     latest_event := latest;
     known_nas_identities := merge_known_nas_identities (merged_nas m) latest;
     resolved_rate := meta_resolved_rate metadata;
     ses_resolved_shaped_device := meta_resolved_shaped_device metadata;
     active_dynamic_circuit_ids := merged_active m;
     diagnostic_ids :=
       match meta_resolved_shaped_device metadata with
       | Some device => push_unique_text (merged_diagnostic m) (circuit_id device)
       | None => merged_diagnostic m
       end;
     ses_pending_reasons := meta_pending_reasons metadata |}.

Definition apply_session_state (s : AccountingSessionStore) (event : AccountingEvent)
    (resolve_metadata : AccountingEvent -> DynamicCircuitResolution) (state : AccountingSessionState)
    : AccountingSessionStore * AccountingSessionUpdate :=
  let key_resolution := resolve_session_key s event in
  let '(s, promoted_sessions) := remove_sessions s (previous_keys key_resolution) in
  let key := resolution_key key_resolution in
  let s :=
    match sessions s !! key with
    | Some session =>
        let s := remove_session_indexes s key in
        let merged :=
          fold_left (merge_into_existing state) promoted_sessions
            {| merged_nas := known_nas_identities session;
               merged_active := active_dynamic_circuit_ids session;
               merged_diagnostic := diagnostic_ids session;
               merged_event := Some (latest_event session) |} in
        set_sessions (<[key := updated_session key merged event resolve_metadata state]> (sessions s)) s
    | None =>
        let merged :=
          fold_left (merge_into_new state) promoted_sessions (mkMergedSessions [] [] [] None) in
        set_sessions (<[key := updated_session key merged event resolve_metadata state]> (sessions s)) s
    end in
  (index_session s key, SessionUpdated key state).

Definition upsert_active_session (s : AccountingSessionStore) (event : AccountingEvent)
    (resolve_metadata : AccountingEvent -> DynamicCircuitResolution)
    : AccountingSessionStore * AccountingSessionUpdate :=
  apply_session_state s event resolve_metadata State_Active.

Definition stop_session (s : AccountingSessionStore) (event : AccountingEvent)
    (resolve_metadata : AccountingEvent -> DynamicCircuitResolution)
    : AccountingSessionStore * AccountingSessionUpdate :=
  apply_session_state s event resolve_metadata State_Stopped.

(** ** NAS resets *)

(** What the loop over the sessions accumulates: the map, the count and the two key sets. *)
Record StaleMarks : Type := mkStaleMarks {
  marked_sessions : gmap AccountingSessionKey AccountingSession;
  marked_count : nat;
  newly_stale : gset AccountingSessionKey;
  all_stale : gset AccountingSessionKey
}.

Definition is_stale (state : AccountingSessionState) : bool :=
  match state with State_Stale _ => true | _ => false end.

Definition mark_stale (session : AccountingSession) (state : AccountingSessionState)
    : AccountingSession :=
  {| ses_state := state; latest_event := latest_event session;
     known_nas_identities := known_nas_identities session; resolved_rate := None;
     ses_resolved_shaped_device := None;
     active_dynamic_circuit_ids := active_dynamic_circuit_ids session;
     diagnostic_ids := diagnostic_ids session; ses_pending_reasons := [] |}.

Definition mark_stale_step (ids : NasIdentitySet) (state : AccountingSessionState) (m : StaleMarks)
    (entry : AccountingSessionKey * AccountingSession) : StaleMarks :=
  let '(key, session) := entry in
  if negb (session_matches_identities key session ids) then m
  else
    {| marked_sessions := <[key := mark_stale session state]> (marked_sessions m);
       marked_count := S (marked_count m);
       newly_stale :=
         if negb (is_stale (ses_state session)) then {[key]} ∪ newly_stale m else newly_stale m;
       all_stale := {[key]} ∪ all_stale m |}.

Definition mark_nas_sessions_stale (s : AccountingSessionStore) (event : AccountingEvent)
    (reset : NasResetStatus) : AccountingSessionStore * AccountingSessionUpdate :=
  let ids := NasIdentitySet_from_event event in
  match primary ids with
  | None => (s, Ignored (MissingNasIdentityForReset reset))
  | Some nas =>
      let m := fold_left (mark_stale_step ids (State_Stale reset)) (map_to_list (sessions s))
                 (mkStaleMarks (sessions s) 0 ∅ ∅) in
      (set_sessions (marked_sessions m) s,
       NasSessionsMarkedStale nas reset (marked_count m) (newly_stale m) (all_stale m))
  end.

(** ** The entry points without commands *)

Definition apply_event_with_resolution_resolver (s : AccountingSessionStore) (event : AccountingEvent)
    (resolve_metadata : AccountingEvent -> DynamicCircuitResolution)
    : AccountingSessionStore * AccountingSessionUpdate :=
  match ev_status_type event with
  | None => (s, Ignored MissingStatusType)
  | Some status_type =>
      match status_type with
      | Status_Start | Status_InterimUpdate => upsert_active_session s event resolve_metadata
      | Status_Stop => stop_session s event resolve_metadata
      | Status_AccountingOn => mark_nas_sessions_stale s event Reset_AccountingOn
      | Status_AccountingOff => mark_nas_sessions_stale s event Reset_AccountingOff
      | Status_Unknown value => (s, Ignored (UnsupportedStatusType value))
      end
  end.

Definition apply_event_with_dynamic_circuit_resolution (s : AccountingSessionStore)
    (event : AccountingEvent) (resolution : DynamicCircuitResolution)
    : AccountingSessionStore * AccountingSessionUpdate :=
  apply_event_with_resolution_resolver s event (fun _ => resolution).

Definition apply_event_with_mapping_and_rate_sources (s : AccountingSessionStore)
    (event : AccountingEvent) (m : DynamicCircuitMapping) (sources : SessionRateSources)
    : AccountingSessionStore * AccountingSessionUpdate :=
  apply_event_with_dynamic_circuit_resolution s event (mkDynamicCircuitResolution m sources None).

Definition apply_event_with_mapping (s : AccountingSessionStore) (event : AccountingEvent)
    (m : DynamicCircuitMapping) : AccountingSessionStore * AccountingSessionUpdate :=
  apply_event_with_mapping_and_rate_sources s event m SessionRateSources_default.

Definition apply_event (s : AccountingSessionStore) (event : AccountingEvent)
    : AccountingSessionStore * AccountingSessionUpdate :=
  apply_event_with_mapping s event DynamicCircuitMapping_default.

Definition apply_event_with_shaped_devices_mac_matcher (s : AccountingSessionStore)
    (event : AccountingEvent) (matcher : ShapedDevicesMacMatcher)
    (fallback : option SessionRateProfile) : AccountingSessionStore * AccountingSessionUpdate :=
  apply_event_with_resolution_resolver s event (fun latest_event =>
    from_shaped_devices_mac_match (match_event matcher latest_event) fallback).

Definition apply_event_with_shaped_devices_matcher (s : AccountingSessionStore)
    (event : AccountingEvent) (matcher : ShapedDevicesMacMatcher) (options : ShapedDevicesMatchOptions)
    : AccountingSessionStore * AccountingSessionUpdate :=
  apply_event_with_resolution_resolver s event (fun latest_event =>
    from_shaped_devices_identity_match
      (match_event_with_identities matcher latest_event
         (opt_match_by_username options) (opt_match_by_mac options))
      (opt_fallback_profile options) (opt_fallback_parent options)).
