(* ===== verification/SessionCommands.v ===== *)
(** * Dynamic-circuit commands and diagnostics of the session store (crate [lqos_radius], [session.rs])

    The operations that call the sink: one intent per created, updated or removed circuit, with the
    activation counters; the expiry of a session; and the diagnostic snapshots.  The sink is any
    instance of [DynamicCircuitCommandSink]. *)

From S2P Require Import Prelude RustStd AccountingEvent ShapedDevice MacMatch.
From S2P Require Import SessionTypes SessionMetadata SessionStore.

(** Field updates of a session. *)
Definition set_active_ids (ids : list rstring) (x : AccountingSession) : AccountingSession :=
  mkAccountingSession (ses_state x) (latest_event x) (known_nas_identities x) (resolved_rate x)
    (ses_resolved_shaped_device x) ids (diagnostic_ids x) (ses_pending_reasons x).
Definition set_diagnostic_ids (ids : list rstring) (x : AccountingSession) : AccountingSession :=
  mkAccountingSession (ses_state x) (latest_event x) (known_nas_identities x) (resolved_rate x)
    (ses_resolved_shaped_device x) (active_dynamic_circuit_ids x) ids (ses_pending_reasons x).

(** [counters.create += 1] and so on. *)
Definition count_create (c : RadiusActivationCounters) : RadiusActivationCounters :=
  mkRadiusActivationCounters (u64_succ (counter_create c)) (counter_update c) (counter_remove c)
    (counter_expiry c).
Definition count_update (c : RadiusActivationCounters) : RadiusActivationCounters :=
  mkRadiusActivationCounters (counter_create c) (u64_succ (counter_update c)) (counter_remove c)
    (counter_expiry c).
Definition count_remove (c : RadiusActivationCounters) : RadiusActivationCounters :=
  mkRadiusActivationCounters (counter_create c) (counter_update c) (u64_succ (counter_remove c))
    (counter_expiry c).
Definition count_expiry (c : RadiusActivationCounters) : RadiusActivationCounters :=
  mkRadiusActivationCounters (counter_create c) (counter_update c) (counter_remove c)
    (u64_succ (counter_expiry c)).

(** [push_active_dynamic_circuit_id]. *)
Definition push_active_dynamic_circuit_id (active_ids : list rstring) (id : rstring) : list rstring :=
  push_unique active_ids id.

Section Commands.
Context {S : Type} `{Sink : !DynamicCircuitCommandSink S}.

(** The removal loop: one intent and one count per identifier. *)
Definition emit_removals (key : AccountingSessionKey) (reason : DynamicCircuitRemovalReason)
    (ids : list rstring) (cs : RadiusActivationCounters * S) : RadiusActivationCounters * S :=
  fold_left (fun '(counters, sink) id =>
      (count_remove counters, emit sink (RemoveDynamicCircuit (mkDynamicCircuitRemoval id key reason))))
    ids cs.

Definition emit_active_dynamic_circuit_removals (key : AccountingSessionKey)
    (session : AccountingSession) (reason : DynamicCircuitRemovalReason)
    (counters : RadiusActivationCounters) (sink : S)
    : AccountingSession * RadiusActivationCounters * S :=
  let '(counters, sink) := emit_removals key reason (active_dynamic_circuit_ids session) (counters, sink) in
  (set_active_ids [] session, counters, sink).

(** The loop of [emit_rekeyed_dynamic_circuit_removals]: the current identifier is kept, every other
    one is removed. *)
Fixpoint rekeyed_loop (key : AccountingSessionKey) (current : rstring) (ids kept : list rstring)
    (counters : RadiusActivationCounters) (sink : S) : list rstring * RadiusActivationCounters * S :=
  match ids with
  | [] => (kept, counters, sink)
  | id :: ids' =>
      if bool_decide (id = current)
      then rekeyed_loop key current ids' (push_active_dynamic_circuit_id kept id) counters sink
      else rekeyed_loop key current ids' kept (count_remove counters)
             (emit sink (RemoveDynamicCircuit (mkDynamicCircuitRemoval id key Removal_Rekeyed)))
  end.

Definition emit_rekeyed_dynamic_circuit_removals (key : AccountingSessionKey)
    (session : AccountingSession) (current_circuit_id : rstring)
    (counters : RadiusActivationCounters) (sink : S)
    : AccountingSession * RadiusActivationCounters * S :=
  let '(kept, counters, sink) :=
    rekeyed_loop key current_circuit_id (active_dynamic_circuit_ids session) [] counters sink in
  (set_active_ids kept session, counters, sink).

(** The [match] on the latest status of the session. *)
Definition emit_upsert (already_emitted : bool) (status_type : option AcctStatusType)
    (upsert : DynamicCircuitUpsert) (counters : RadiusActivationCounters) (sink : S)
    : RadiusActivationCounters * S :=
  match already_emitted, status_type with
  | true, Some Status_InterimUpdate => (count_update counters, emit sink (UpdateDynamicCircuit upsert))
  | _, Some (Status_Start | Status_InterimUpdate) =>
      (count_create counters, emit sink (CreateDynamicCircuit upsert))
  | _, _ => (counters, sink)
  end.

(** The body of [emit_active_session_intents] on the session it found. *)
Definition active_session_intents (key : AccountingSessionKey) (session : AccountingSession)
    (counters : RadiusActivationCounters) (sink : S)
    : AccountingSession * RadiusActivationCounters * S :=
  match ses_resolved_shaped_device session with
  | None =>
      emit_active_dynamic_circuit_removals key session Removal_NoLongerShapeable counters sink
  | Some shaped_device =>
      let circuit_id := circuit_id shaped_device in
      if is_blank circuit_id then
        emit_active_dynamic_circuit_removals key session Removal_NoLongerShapeable counters sink
      else
        let already_emitted :=
          existsb (fun active_id => bool_decide (active_id = circuit_id))
            (active_dynamic_circuit_ids session) in
        let upsert := mkDynamicCircuitUpsert circuit_id key (latest_event session) shaped_device in
        let '(counters, sink) :=
          emit_upsert already_emitted (ev_status_type (latest_event session)) upsert counters sink in
        let session :=
          set_active_ids
            (push_active_dynamic_circuit_id (active_dynamic_circuit_ids session) circuit_id) session in
        let session :=
          set_diagnostic_ids (push_unique_text (diagnostic_ids session) circuit_id) session in
        emit_rekeyed_dynamic_circuit_removals key session circuit_id counters sink
  end.

(** Writing the session and the counters back. *)
Definition put_session (s : AccountingSessionStore) (key : AccountingSessionKey)
    (r : AccountingSession * RadiusActivationCounters * S) : AccountingSessionStore * S :=
  let '(session, counters, sink) := r in
  (set_counters counters (set_sessions (<[key := session]> (sessions s)) s), sink).

Definition emit_active_session_intents (s : AccountingSessionStore) (key : AccountingSessionKey)
    (sink : S) : AccountingSessionStore * S :=
  match sessions s !! key with
  | None => (s, sink)
  | Some session =>
      put_session s key (active_session_intents key session (activation_counters s) sink)
  end.

Definition emit_session_dynamic_circuit_intents (s : AccountingSessionStore)
    (key : AccountingSessionKey) (state : AccountingSessionState) (sink : S)
    : AccountingSessionStore * S :=
  match state with
  | State_Active => emit_active_session_intents s key sink
  | State_Stopped =>
      match sessions s !! key with
      | None => (s, sink)
      | Some session =>
          put_session s key
            (emit_active_dynamic_circuit_removals key session Removal_Stop (activation_counters s) sink)
      end
  | State_Stale _ => (s, sink)
  end.

Definition emit_dynamic_circuit_intents (s : AccountingSessionStore) (update : AccountingSessionUpdate)
    (sink : S) : AccountingSessionStore * S :=
  match update with
  | SessionUpdated key state => emit_session_dynamic_circuit_intents s key state sink
  | NasSessionsMarkedStale _ _ _ _ _ => (s, sink)
  | Ignored _ => (s, sink)
  end.

(** The entry points with commands: apply, emit, return the update. *)
Definition and_commands (r : AccountingSessionStore * AccountingSessionUpdate) (sink : S)
    : AccountingSessionStore * AccountingSessionUpdate * S :=
  let '(s, update) := r in
  let '(s, sink) := emit_dynamic_circuit_intents s update sink in
  (s, update, sink).

Definition apply_event_with_dynamic_circuit_resolution_and_commands (s : AccountingSessionStore)
    (event : AccountingEvent) (resolution : DynamicCircuitResolution) (sink : S)
    : AccountingSessionStore * AccountingSessionUpdate * S :=
  and_commands (apply_event_with_dynamic_circuit_resolution s event resolution) sink.

Definition apply_event_with_mapping_and_commands (s : AccountingSessionStore) (event : AccountingEvent)
    (m : DynamicCircuitMapping) (sink : S) : AccountingSessionStore * AccountingSessionUpdate * S :=
  apply_event_with_dynamic_circuit_resolution_and_commands s event
    (mkDynamicCircuitResolution m SessionRateSources_default None) sink.

Definition apply_event_with_shaped_devices_mac_matcher_and_commands (s : AccountingSessionStore)
    (event : AccountingEvent) (matcher : ShapedDevicesMacMatcher)
    (fallback : option SessionRateProfile) (sink : S)
    : AccountingSessionStore * AccountingSessionUpdate * S :=
  and_commands (apply_event_with_shaped_devices_mac_matcher s event matcher fallback) sink.

Definition apply_event_with_shaped_devices_matcher_and_commands (s : AccountingSessionStore)
    (event : AccountingEvent) (matcher : ShapedDevicesMacMatcher) (options : ShapedDevicesMatchOptions)
    (sink : S) : AccountingSessionStore * AccountingSessionUpdate * S :=
  and_commands (apply_event_with_shaped_devices_matcher s event matcher options) sink.

Definition expire_session_with_commands (s : AccountingSessionStore) (key : AccountingSessionKey)
    (sink : S) : AccountingSessionStore * option AccountingSession * S :=
  let '(s, removed) := remove_session s key in
  match removed with
  | None => (s, None, sink)
  | Some session =>
      let s := set_counters (count_expiry (activation_counters s)) s in
      let removal_reason :=
        match ses_state session with
        | State_Stale reset => Removal_NasReset reset
        | State_Active | State_Stopped => Removal_Expired
        end in
      let '(session, counters, sink) :=
        emit_active_dynamic_circuit_removals key session removal_reason (activation_counters s) sink in
      (set_counters counters s, Some session, sink)
  end.

End Commands.

(** ** Diagnostics *)

Inductive RadiusActivationDiagnosticState : Type :=
| Diagnostic_Active
| Diagnostic_Pending
| Diagnostic_Stopped
| Diagnostic_Stale (reset : NasResetStatus)
| Diagnostic_Expired
| Diagnostic_ApplyFailed.

Record RadiusActivationDiagnostic : Type := mkRadiusActivationDiagnostic {
  diag_session_key : AccountingSessionKey;
  diag_acct_session_id : option rstring;
  diag_nas : option NasIdentity;
  diag_circuit_ids : list rstring;
  diag_state : RadiusActivationDiagnosticState;
  diag_pending_reasons : list PendingSessionReason;
  diag_apply_error : option rstring
}.

Definition retained_activation_state (session : AccountingSession) : RadiusActivationDiagnosticState :=
  match ses_state session with
  | State_Active => if is_nil (ses_pending_reasons session) then Diagnostic_Active else Diagnostic_Pending
  | State_Stopped => Diagnostic_Stopped
  | State_Stale reset => Diagnostic_Stale reset
  end.

Definition diagnostic_circuit_ids (key : AccountingSessionKey) (session : AccountingSession)
    : list rstring :=
  let circuit_ids :=
    match ses_resolved_shaped_device session with
    | Some device => push_unique_text [] (circuit_id device)
    | None => []
    end in
  let circuit_ids := fold_left push_unique_text (active_dynamic_circuit_ids session) circuit_ids in
  let circuit_ids := fold_left push_unique_text (diagnostic_ids session) circuit_ids in
  match is_nil circuit_ids, dynamic_circuit_id key with
  | true, Some circuit_id => push_unique_text circuit_ids circuit_id
  | _, _ => circuit_ids
  end.

Definition from_session_with_state (key : AccountingSessionKey) (session : AccountingSession)
    (state : RadiusActivationDiagnosticState) (apply_error : option rstring)
    : RadiusActivationDiagnostic :=
  {| diag_session_key := key;
     diag_acct_session_id :=
       option_or (key_acct_session_id key) (ev_acct_session_id (latest_event session));
     diag_nas := option_or (key_nas key) (primary (NasIdentitySet_from_event (latest_event session)));
     diag_circuit_ids := diagnostic_circuit_ids key session;
     diag_state := state;
     diag_pending_reasons := ses_pending_reasons session;
     diag_apply_error := apply_error |}.

Definition from_retained_session (key : AccountingSessionKey) (session : AccountingSession)
    : RadiusActivationDiagnostic :=
  from_session_with_state key session (retained_activation_state session) None.

Definition from_expired_session (key : AccountingSessionKey) (session : AccountingSession)
    : RadiusActivationDiagnostic :=
  from_session_with_state key session Diagnostic_Expired None.

Definition apply_failed (session_key : AccountingSessionKey) (circuit_id apply_error : rstring)
    : RadiusActivationDiagnostic :=
  mkRadiusActivationDiagnostic session_key (key_acct_session_id session_key) (key_nas session_key)
    [circuit_id] Diagnostic_ApplyFailed [] (Some apply_error).

Definition activation_diagnostics (s : AccountingSessionStore) : list RadiusActivationDiagnostic :=
  map (fun '(key, session) => from_retained_session key session) (map_to_list (sessions s)).
