(* ===== verification/SessionMetadataSpec.v ===== *)
(** * What session metadata guarantees

    A session is shapeable exactly when no pending reason is left, and then its device is complete;
    circuit identifiers separate subscribers and NASes; netmasks; and merged events. *)

From S2P Require Import Prelude RustStd AccountingEvent ShapedDevice MacMatch.
From S2P Require Import SessionTypes SessionMetadata.

(** ** Blank strings *)

Lemma drop_while_nil p s : drop_while p s = [] <-> forallb p s = true.
Proof. induction s as [|c s IH]; cbn; [done|]. by destruct (p c). Qed.

Lemma drop_while_forallb p s : forallb p (drop_while p s) = forallb p s.
Proof. induction s as [|c s IH]; cbn; [done|]. destruct (p c) eqn:Hc; cbn; [done|by rewrite Hc]. Qed.

Lemma forallb_reverse {A} (p : A -> bool) l : forallb p (reverse l) = forallb p l.
Proof.
  induction l as [|x l IH]; [done|]. rewrite reverse_cons, forallb_app, IH. cbn.
  rewrite andb_true_r. apply andb_comm.
Qed.

(** A string is blank when every character of it is white space. *)
Lemma is_blank_spec s : is_blank s = forallb is_whitespace s.
Proof.
  unfold is_blank, trim.
  assert (forall l : list Z, str_is_empty (reverse l) = str_is_empty l) as Hrev.
  { intros l. destruct l as [|x l]; [done|]. rewrite reverse_cons. by destruct (reverse l). }
  rewrite Hrev. destruct (drop_while is_whitespace (reverse _)) eqn:Hd.
  - apply drop_while_nil in Hd. rewrite forallb_reverse, drop_while_forallb in Hd. by rewrite Hd.
  - cbn. symmetry. apply not_true_is_false. intros Hall.
    rewrite <- drop_while_forallb, <- forallb_reverse, <- drop_while_nil, Hd in Hall. done.
Qed.

Lemma not_blank_radius s : is_blank (str "radius:" ++ s) = false.
Proof. rewrite is_blank_spec. reflexivity. Qed.

(** ** Complete devices *)

(** A profile built by [SessionRateProfile::new]. *)
Definition profile_ok (p : SessionRateProfile) : Prop :=
  validate_rate_profile_mbps (profile_download_min_mbps p) (profile_upload_min_mbps p)
    (profile_download_max_mbps p) (profile_upload_max_mbps p) = Ok tt.

Definition sources_ok (s : SessionRateSources) : Prop :=
  (forall p, shaped_device_profile s = Some p -> profile_ok p)
  /\ (forall p, fallback_profile s = Some p -> profile_ok p).

Definition ipv4_cidr_ok (c : Ipv4Addr * Z) : Prop :=
  0 < c.2 <= 32 /\ ipv4_is_unspecified c.1 = false /\ ipv4_is_multicast c.1 = false
  /\ ipv4_octets c.1 <> [255; 255; 255; 255].
Definition ipv6_cidr_ok (c : Ipv6Addr * Z) : Prop :=
  0 < c.2 <= 128 /\ ipv6_is_unspecified c.1 = false /\ ipv6_is_multicast c.1 = false.

(** What the shaper needs of a device. *)
Record device_complete (d : ShapedDevice) : Prop := {
  complete_circuit_id : is_blank (circuit_id d) = false;
  complete_device_id : is_blank (device_id d) = false;
  complete_parent : is_blank (parent_node d) = false;
  complete_address : ~ (dev_ipv4 d = [] /\ dev_ipv6 d = []);
  complete_ipv4 : Forall ipv4_cidr_ok (dev_ipv4 d);
  complete_ipv6 : Forall ipv6_cidr_ok (dev_ipv6 d);
  complete_rates : validate_rate_profile_mbps (download_min_mbps d) (upload_min_mbps d)
                     (download_max_mbps d) (upload_max_mbps d) = Ok tt;
  complete_hashes : circuit_hash d = hash_to_i64 (circuit_id d)
                    /\ device_hash d = hash_to_i64 (device_id d)
                    /\ parent_hash d = hash_to_i64 (parent_node d)
}.

(** An event whose decoded numbers are in the range the decoders give. *)
Definition event_prefixes_ok (e : AccountingEvent) : Prop :=
  Forall (fun p => 0 <= prefix_len p) (ev_framed_ipv6_prefixes e)
  /\ Forall (fun p => 0 <= prefix_len p) (ev_delegated_ipv6_prefixes e).

Lemma profile_new_ok dmin umin dmax umax p :
  result_ok (SessionRateProfile_new dmin umin dmax umax) = Some p -> profile_ok p.
Proof.
  unfold SessionRateProfile_new.
  destruct (validate_rate_profile_mbps dmin umin dmax umax) as [[]|] eqn:Hv; cbn; [|done].
  by intros [= <-].
Qed.

Lemma head_omap_Some {A B} (f : A -> option B) l y :
  head (omap f l) = Some y -> exists x, x ∈ l /\ f x = Some y.
Proof.
  induction l as [|x l IH]; cbn; [done|]. destruct (f x) eqn:Hf; cbn.
  - intros [= <-]. exists x. split; [left|done].
  - intros (z & Hz & Hfz)%IH. exists z. split; [by right|done].
Qed.

Lemma resolved_session_rate_ok e sources r :
  sources_ok sources -> resolved_session_rate e sources = Some r -> profile_ok (rate_profile r).
Proof.
  intros [Hs Hf]. unfold resolved_session_rate.
  destruct (head _) as [p|] eqn:Hp.
  { intros [= <-]. apply head_omap_Some in Hp as (x & _ & Hx). cbn. by eapply profile_new_ok. }
  destruct (shaped_device_profile sources) eqn:Hsd; [intros [= <-]; by apply Hs|].
  destruct (fallback_profile sources) eqn:Hfb; cbn; [intros [= <-]; by apply Hf|done].
Qed.

Lemma subscriber_ipv4_cidr_ok a n c :
  0 <= n -> subscriber_ipv4_cidr a n = Some c -> ipv4_cidr_ok c.
Proof.
  intros Hn. unfold subscriber_ipv4_cidr. case_match eqn:Hc; [done|]. to_prop.
  intros [= <-]. split_and!; cbn; [lia|lia|done|done|done].
Qed.

Lemma subscriber_ipv6_cidr_ok a n c :
  0 <= n -> subscriber_ipv6_cidr a n = Some c -> ipv6_cidr_ok c.
Proof.
  intros Hn. unfold subscriber_ipv6_cidr. case_match eqn:Hc; [done|]. to_prop.
  intros [= <-]. split_and!; cbn; [lia|lia|done|done].
Qed.

Lemma Forall_omap {A B} (P : B -> Prop) (f : A -> option B) l :
  (forall x y, x ∈ l -> f x = Some y -> P y) -> Forall P (omap f l).
Proof.
  intros H. apply Forall_forall. intros y (x & Hx & Hf)%list_elem_of_omap. by eapply H.
Qed.

Lemma Forall_option_list {A} (P : A -> Prop) o :
  (forall x, o = Some x -> P x) -> Forall P (option_list o).
Proof. intros H. destruct o as [x|]; cbn; [|constructor]. constructor; [by apply H|constructor]. Qed.

Lemma parse_digits_nonneg limit acc s v : 0 <= acc -> parse_digits limit acc s = Some v -> 0 <= v.
Proof.
  revert acc. induction s as [|c s IH]; intros acc Hacc; cbn; [by intros [= <-]|].
  case_match eqn:Hc; [|done]. apply in_range_spec in Hc. case_match; [|done].
  apply IH. lia.
Qed.

Lemma parse_uint_nonneg limit s v : parse_uint limit s = Some v -> 0 <= v.
Proof.
  unfold parse_uint. repeat case_match; try done; apply parse_digits_nonneg; lia.
Qed.

Lemma subscriber_ipv4_cidrs_ok e : Forall ipv4_cidr_ok (subscriber_ipv4_cidrs e).
Proof.
  unfold subscriber_ipv4_cidrs. apply Forall_app. split.
  - destruct (ev_framed_ip_address e) as [a|]; [|constructor].
    apply Forall_option_list. intros c. apply subscriber_ipv4_cidr_ok.
    destruct (option_filter _ _) as [n|] eqn:Hn; cbn; [|lia].
    unfold option_filter in Hn. repeat case_match; simplify_eq. to_prop. lia.
  - apply Forall_omap. intros route c _. unfold framed_route_destination.
    intros (raw & _ & Hc)%bind_Some. unfold parse_ipv4_cidr in Hc.
    destruct (split_once raw 47) as [[a n]|].
    + apply bind_Some in Hc as (addr & _ & (len & Hlen & Hc)%bind_Some).
      apply parse_uint_nonneg in Hlen. by eapply subscriber_ipv4_cidr_ok.
    + apply bind_Some in Hc as (addr & _ & Hc). by eapply (subscriber_ipv4_cidr_ok _ 32).
Qed.

Lemma subscriber_ipv6_cidrs_ok e :
  event_prefixes_ok e -> Forall ipv6_cidr_ok (subscriber_ipv6_cidrs e).
Proof.
  intros [Hf Hd]. rewrite Forall_forall in Hf, Hd. unfold subscriber_ipv6_cidrs.
  rewrite !Forall_app. split_and!.
  - destruct (ev_framed_ipv6_address e); [|constructor].
    apply Forall_option_list. intros c. by apply subscriber_ipv6_cidr_ok.
  - apply Forall_omap. intros p c Hp. by apply subscriber_ipv6_cidr_ok, Hf.
  - apply Forall_omap. intros p c Hp. by apply subscriber_ipv6_cidr_ok, Hd.
Qed.

Lemma stable_id_not_blank k e id : stable_subscriber_circuit_id k e = Some id -> is_blank id = false.
Proof.
  unfold stable_subscriber_circuit_id. intros (nas & _ & H)%bind_Some.
  case_match; [injection H as <-; apply not_blank_radius|].
  apply bind_Some in H as (c & _ & H). injection H as <-. apply not_blank_radius.
Qed.

Lemma is_nil_true {A} (l : list A) : is_nil l = true <-> l = [].
Proof. by destruct l. Qed.

Lemma parent_not_blank matched m p :
  resolved_parent_attachment matched m = Some p -> is_blank (par_parent_node p) = false.
Proof.
  unfold resolved_parent_attachment, parent_from_shaped_device, parent_from_mapping, has_parent_node.
  destruct (_ ≫= _) as [q|] eqn:Hq; cbn.
  - intros [= <-]. apply bind_Some in Hq as (d & _ & Hq). cbn in Hq.
    case_match eqn:Hb; simplify_eq. by apply negb_true_iff in Hb.
  - destruct m; try done. case_match eqn:Hb; [|done]. intros [= <-]. by apply negb_true_iff in Hb.
Qed.

Lemma app_nil_if (b : bool) {A} (x : A) l : (if b then [x] else []) ++ l = [] <-> b = false /\ l = [].
Proof. destruct b; naive_solver. Qed.

(** No reason is left exactly when every part of the session is known. *)
Lemma pending_reasons_nil e m rate ips parent hc hd :
  pending_reasons e m rate ips parent hc hd = [] <->
  match ev_acct_session_id e with None => true | Some s => str_is_empty s end = false
  /\ NasIdentitySet_is_empty (NasIdentitySet_from_event e) = false
  /\ hc = true /\ hd = true /\ SubscriberIpMetadata_is_empty ips = false
  /\ is_Some rate /\ is_Some parent
  /\ match m with MatchedShapedDevice | ReadyWithParent _ | Mapping_MissingParent => True | _ => False end.
Proof.
  unfold pending_reasons. cbv zeta. rewrite !app_nil_if.
  set (a := match ev_acct_session_id e with None => true | Some s => str_is_empty s end).
  set (b := NasIdentitySet_is_empty (NasIdentitySet_from_event e)).
  assert (forall A (o : option A), is_none o = false <-> is_Some o) as Hsome.
  { by intros A [x|]; cbn; split. }
  rewrite Hsome, <- (Hsome _ parent).
  destruct a, b, hc, hd, (SubscriberIpMetadata_is_empty ips), (is_none parent), m; cbn; naive_solver.
Qed.

(** The fields of the resolved device. *)
Lemma resolved_shaped_device_Some k e matched rate ips parent d :
  resolved_shaped_device k e matched rate ips parent = Some d ->
  exists r p base,
    rate = Some r /\ parent = Some p
    /\ match matched with
       | Some device => base = device
       | None => default_resolved_shaped_device k e p = Some base
       end
    /\ d = refresh_hashes (apply_session_rate_profile
             (set_addresses (apply_parent_attachment base p) ips) (rate_profile r)).
Proof.
  unfold resolved_shaped_device.
  intros (r & -> & (p & -> & (base & Hbase & [= <-])%bind_Some)%bind_Some)%bind_Some.
  exists r, p, base. split_and!; try done. by destruct matched; simplify_eq.
Qed.

Section Metadata.
Context (k : AccountingSessionKey) (e : AccountingEvent) (r : DynamicCircuitResolution).

Lemma metadata_reasons_nil :
  meta_pending_reasons (session_dynamic_metadata k e r) = [] ->
  is_Some (meta_resolved_shaped_device (session_dynamic_metadata k e r)).
Proof.
  unfold session_dynamic_metadata. cbn. intros Hnil. rewrite Hnil. cbn.
  apply pending_reasons_nil in Hnil as (_ & _ & Hc & _ & _ & [rate Hrate] & [parent Hparent] & _).
  unfold resolved_shaped_device. rewrite Hrate, Hparent. cbn.
  unfold circuit_identity_available in Hc. destruct (matched_shaped_device r); cbn; [by eexists|].
  unfold default_resolved_shaped_device.
  destruct (stable_subscriber_circuit_id k e); [by eexists|done].
Qed.

Lemma metadata_device_complete d :
  sources_ok (rate_sources r) -> event_prefixes_ok e ->
  meta_resolved_shaped_device (session_dynamic_metadata k e r) = Some d -> device_complete d.
Proof.
  intros Hsources Hprefixes. unfold session_dynamic_metadata. cbn.
  destruct (is_nil _) eqn:Hnil; [|done]. intros Hd.
  apply is_nil_true, pending_reasons_nil in Hnil as (_ & _ & Hc & Hdev & Hip & _).
  apply resolved_shaped_device_Some in Hd as (rate & p & base & Hrate & Hp & Hbase & ->).
  assert (is_blank (circuit_id base) = false /\ is_blank (device_id base) = false) as [Hci Hdi].
  { unfold circuit_identity_available, device_identity_available in *.
    destruct (matched_shaped_device r).
    - subst base. by split; apply negb_true_iff.
    - apply bind_Some in Hbase as (id & Hid & [= <-]). cbn.
      split; by eapply stable_id_not_blank. }
  apply resolved_session_rate_ok in Hrate; [|done].
  split; cbn; [done|done|by eapply parent_not_blank| | | |exact Hrate|done].
  - intros [H4 H6]. unfold SubscriberIpMetadata_is_empty in Hip. cbn in Hip. by rewrite H4, H6 in Hip.
  - apply subscriber_ipv4_cidrs_ok.
  - by apply subscriber_ipv6_cidrs_ok.
Qed.

End Metadata.

(** C38: a session resolves to a device exactly when no pending reason is left, and the device is
    then complete: circuit, device and parent identifiers are not blank, at least one address range
    is present and every range is a usable unicast one, the four rates pass validation, and the
    hashes are those of the identifiers. *)
Theorem session_resolves_iff_complete k e r :
  sources_ok (rate_sources r) -> event_prefixes_ok e ->
  let m := session_dynamic_metadata k e r in
  (meta_pending_reasons m = [] <-> is_Some (meta_resolved_shaped_device m))
  /\ (forall d, meta_resolved_shaped_device m = Some d -> device_complete d).
Proof.
  intros Hs Hp. cbv zeta. split; [split|].
  - apply metadata_reasons_nil.
  - unfold session_dynamic_metadata. cbn [meta_pending_reasons meta_resolved_shaped_device].
    destruct (is_nil _) eqn:Hn; [by intros _; apply is_nil_true|by intros []].
  - intros d. by apply metadata_device_complete.
Qed.

(** A complete event of a subscriber, the key of its session, and a fallback resolution. *)
Definition sample_event (status : AcctStatusType) (acct nas user : rstring) : AccountingEvent :=
  set_ev_status_type (Some status)
    (set_ev_acct_session_id (Some acct)
      (set_ev_nas_identifier (Some nas)
        (set_ev_user_name (Some user)
          (set_ev_framed_ip_address (Some (V4Octets 203 0 113 7)) AccountingEvent_default)))).

Definition sample_profile : SessionRateProfile :=
  mkSessionRateProfile (f32_of_u64 1) (f32_of_u64 1) (f32_of_u64 100) (f32_of_u64 20).

Definition sample_resolution : DynamicCircuitResolution :=
  mkDynamicCircuitResolution (ReadyWithParent (DynamicCircuitParent_new (str "Tower 1")))
    (mkSessionRateSources None (Some sample_profile)) None.

Lemma sample_sources_ok : sources_ok (rate_sources sample_resolution).
Proof. split; cbn; [done|]. intros p [= <-]. vm_compute. reflexivity. Qed.

Lemma session_resolves_iff_complete_witness :
  let e := sample_event Status_Start (str "s-1") (str "bng-1") (str "alice") in
  exists d, meta_resolved_shaped_device
              (session_dynamic_metadata (NasSession (Nas_Identifier (str "bng-1")) (str "s-1")) e
                 sample_resolution) = Some d
            /\ device_complete d
            /\ circuit_id d = str "radius:nas-id:626e672d31:username:616c696365".
Proof.
  cbv zeta.
  destruct (session_resolves_iff_complete (NasSession (Nas_Identifier (str "bng-1")) (str "s-1"))
    (sample_event Status_Start (str "s-1") (str "bng-1") (str "alice")) sample_resolution
    sample_sources_ok) as [Hiff Hok]; [by split; constructor|].
  assert (Hnil : meta_pending_reasons (session_dynamic_metadata
    (NasSession (Nas_Identifier (str "bng-1")) (str "s-1"))
    (sample_event Status_Start (str "s-1") (str "bng-1") (str "alice")) sample_resolution) = [])
    by (vm_compute; reflexivity).
  destruct (proj1 Hiff Hnil) as [d Hd].
  exists d. split; [exact Hd|]. split; [exact (Hok d Hd)|].
  vm_compute in Hd. injection Hd as <-. vm_compute. reflexivity.
Defined.

(** ** Circuit identifiers *)

(** The subscriber identity a circuit identifier encodes: [true] for a username. *)
Definition subscriber_identity (event : AccountingEvent) : option (bool * rstring) :=
  match non_empty_text (ev_user_name event) with
  | Some username => Some (true, username)
  | None =>
      calling_station_id ← non_empty_str (ev_calling_station_id event);
      Some (false, default calling_station_id (normalize_radius_mac calling_station_id))
  end.

(** Values of Rust's types: an address has bytes, a string has characters. *)
Definition nas_ok (nas : NasIdentity) : Prop :=
  match nas with
  | Nas_Identifier i => Forall char_ok i
  | Nas_Ipv4 a => bytes_ok (ipv4_octets a)
  | Nas_Ipv6 a => bytes_ok (ipv6_octets a)
  end.

#[export] Instance nas_ok_dec nas : Decision (nas_ok nas).
Proof. destruct nas; cbn; apply _. Defined.

Definition nas_tag (nas : NasIdentity) : rstring :=
  match nas with
  | Nas_Identifier _ => str "nas-id" | Nas_Ipv4 _ => str "nas-ipv4" | Nas_Ipv6 _ => str "nas-ipv6"
  end.
Definition nas_bytes (nas : NasIdentity) : list Z :=
  match nas with
  | Nas_Identifier i => as_bytes i | Nas_Ipv4 a => ipv4_octets a | Nas_Ipv6 a => ipv6_octets a
  end.

Definition hex_byte (byte : Z) : rstring :=
  [byte_at HEX (Z.to_nat (Z.shiftr byte 4)); byte_at HEX (Z.to_nat (Z.land byte 15))].
Definition unhex (c : Z) : Z := if c <=? 57 then c - 48 else c - 87.

Lemma hex_bytes_all :
  forallb (fun b => match hex_byte b with
                    | [x; y] => (16 * unhex x + unhex y =? b) && negb (x =? 58) && negb (y =? 58)
                    | _ => false
                    end) (seqZ 0 256) = true.
Proof. vm_compute. reflexivity. Qed.

Lemma hex_byte_spec b :
  byte_ok b ->
  exists x y, hex_byte b = [x; y] /\ 16 * unhex x + unhex y = b /\ x <> 58 /\ y <> 58.
Proof.
  intros Hb. pose proof hex_bytes_all as Hall. rewrite forallb_forall in Hall.
  specialize (Hall b). rewrite <- list_elem_of_In, elem_of_seqZ in Hall.
  specialize (Hall ltac:(unfold byte_ok in Hb; lia)). unfold hex_byte in *.
  eexists _, _. split; [reflexivity|]. to_prop. done.
Qed.

Lemma hex_component_cons b l : hex_component (b :: l) = hex_byte b ++ hex_component l.
Proof. done. Qed.

Lemma hex_component_inj l l' :
  bytes_ok l -> bytes_ok l' -> hex_component l = hex_component l' -> l = l'.
Proof.
  intros Hl. revert l'. induction Hl as [|b l Hb Hl IH]; intros l' Hl' Heq.
  - destruct Hl' as [|b' l' Hb' Hl']; [done|]. by rewrite hex_component_cons in Heq.
  - destruct Hl' as [|b' l' Hb' Hl']; [by rewrite hex_component_cons in Heq|].
    rewrite !hex_component_cons in Heq.
    destruct (hex_byte_spec b Hb) as (x & y & Hx & <- & _).
    destruct (hex_byte_spec b' Hb') as (x' & y' & Hx' & <- & _).
    rewrite Hx, Hx' in Heq. injection Heq as -> -> Heq. f_equal. by apply IH.
Qed.

(** No colon in a field. *)
Definition no_colon (s : rstring) : Prop := Forall (fun c => c <> 58) s.

Lemma hex_no_colon l : bytes_ok l -> no_colon (hex_component l).
Proof.
  induction 1 as [|b l Hb Hl IH]; [constructor|]. rewrite hex_component_cons.
  destruct (hex_byte_spec b Hb) as (x & y & -> & _ & Hx & Hy).
  by repeat constructor.
Qed.

Lemma split_colon s rest : no_colon s -> split_char (s ++ 58 :: rest) 58 = s :: split_char rest 58.
Proof.
  unfold split_char. induction 1 as [|c s Hc Hs IH]; cbn [app split_on]; [done|].
  by rewrite (proj2 (Z.eqb_neq 58 c)), IH by done.
Qed.

Lemma split_no_colon s : no_colon s -> split_char s 58 = [s].
Proof.
  unfold split_char. induction 1 as [|c s Hc Hs IH]; cbn [split_on]; [done|].
  by rewrite (proj2 (Z.eqb_neq 58 c)), IH by done.
Qed.

Lemma utf8_bytes_ok c : char_ok c -> bytes_ok (utf8_encode_char c).
Proof.
  unfold char_ok. intros Hc. unfold utf8_encode_char.
  repeat case_match; to_prop; repeat constructor; unfold byte_ok; dlia.
Qed.

Lemma as_bytes_ok s : Forall char_ok s -> bytes_ok (as_bytes s).
Proof.
  induction 1 as [|c s Hc Hs IH]; [constructor|]. rewrite as_bytes_cons.
  apply bytes_ok_app; [by apply utf8_bytes_ok|done].
Qed.

Lemma nas_bytes_ok nas : nas_ok nas -> bytes_ok (nas_bytes nas).
Proof. destruct nas; cbn; [apply as_bytes_ok|done|done]. Qed.

Lemma nas_inj nas nas' :
  nas_ok nas -> nas_ok nas' -> nas_tag nas = nas_tag nas' -> nas_bytes nas = nas_bytes nas' ->
  nas = nas'.
Proof.
  destruct nas as [i|[]|[]], nas' as [i'|[]|[]]; cbn; try done; intros H H' _ Heq.
  - f_equal. by apply as_bytes_inj.
  - by simplify_eq.
  - by simplify_eq.
Qed.

Definition identity_tag (b : bool) : rstring := if b then str "username" else str "calling-station".

Lemma stable_circuit_id_fields k e id :
  stable_subscriber_circuit_id k e = Some id ->
  exists nas b text, key_nas k = Some nas /\ subscriber_identity e = Some (b, text)
    /\ id = str "radius:" ++ (nas_tag nas ++ 58 :: hex_component (nas_bytes nas)) ++ 58 ::
            (identity_tag b ++ 58 :: hex_component (as_bytes text)).
Proof.
  unfold stable_subscriber_circuit_id, subscriber_identity, non_empty_text.
  destruct (key_nas k) as [nas|]; cbn; [|done].
  assert (circuit_id_component nas = nas_tag nas ++ 58 :: hex_component (nas_bytes nas)) as ->
    by by destruct nas.
  destruct (option_filter _ (ev_user_name e)) as [u|] eqn:Hu.
  - intros [= <-]. by exists nas, true, u.
  - intros (c & Hc & [= <-])%bind_Some. rewrite Hc. by eexists nas, false, _.
Qed.

(** The fields of an identifier between its colons. *)
Lemma stable_circuit_id_split nas b text :
  nas_ok nas -> Forall char_ok text ->
  split_char (str "radius:" ++ (nas_tag nas ++ 58 :: hex_component (nas_bytes nas)) ++ 58 ::
              (identity_tag b ++ 58 :: hex_component (as_bytes text))) 58 =
  [str "radius"; nas_tag nas; hex_component (nas_bytes nas); identity_tag b;
   hex_component (as_bytes text)].
Proof.
  intros Hn Ht. change (str "radius:") with (str "radius" ++ [58]). rewrite <- !app_assoc.
  cbn [app]. rewrite (split_colon (str "radius")) by (by repeat constructor).
  rewrite (split_colon (nas_tag nas)) by (by destruct nas; repeat constructor).
  rewrite split_colon by (by apply hex_no_colon, nas_bytes_ok).
  rewrite (split_colon (identity_tag b)) by (by destruct b; repeat constructor).
  by rewrite split_no_colon by (by apply hex_no_colon, as_bytes_ok).
Qed.

(** the circuit identifier of an unmatched subscriber determines its NAS and its subscriber
    identity (username, else normalised Calling-Station-Id): two sessions share an identifier only
    when they are the same subscriber on the same NAS.  Equal usernames behind different NASes, and
    a username that looks like another subscriber's station, never collide. *)
Theorem stable_circuit_id_injective k k' e e' id :
  (forall nas, key_nas k = Some nas -> nas_ok nas) ->
  (forall nas, key_nas k' = Some nas -> nas_ok nas) ->
  (forall b text, subscriber_identity e = Some (b, text) -> Forall char_ok text) ->
  (forall b text, subscriber_identity e' = Some (b, text) -> Forall char_ok text) ->
  stable_subscriber_circuit_id k e = Some id ->
  stable_subscriber_circuit_id k' e' = Some id ->
  key_nas k = key_nas k' /\ subscriber_identity e = subscriber_identity e'.
Proof.
  intros Hk Hk' He He' (nas & b & text & Hn & Hi & ->)%stable_circuit_id_fields
    (nas' & b' & text' & Hn' & Hi' & Heq)%stable_circuit_id_fields.
  apply (f_equal (fun s => split_char s 58)) in Heq.
  specialize (Hk _ Hn). specialize (Hk' _ Hn'). specialize (He _ _ Hi). specialize (He' _ _ Hi').
  rewrite !stable_circuit_id_split in Heq by done.
  injection Heq as Htag Hbytes Hb Htext.
  apply hex_component_inj in Hbytes; [|by apply nas_bytes_ok..].
  apply hex_component_inj in Htext; [|by apply as_bytes_ok..].
  apply as_bytes_inj in Htext; [|done..]. subst text'.
  rewrite Hn, Hn', Hi, Hi', (nas_inj nas nas') by done.
  assert (b = b') as -> by (by destruct b, b'). done.
Qed.

Lemma stable_circuit_id_injective_witness :
  let e := sample_event Status_Start (str "s-1") (str "bng-1") (str "alice") in
  let k := NasSession (Nas_Identifier (str "bng-1")) (str "s-1") in
  let k' := NasSession (Nas_Identifier (str "bng-1")) (str "s-2") in
  stable_subscriber_circuit_id k e = stable_subscriber_circuit_id k' e /\ key_nas k = key_nas k'.
Proof.
  cbv zeta. split; [vm_compute; reflexivity|].
  refine (proj1 (stable_circuit_id_injective
    (NasSession (Nas_Identifier (str "bng-1")) (str "s-1"))
    (NasSession (Nas_Identifier (str "bng-1")) (str "s-2"))
    (sample_event Status_Start (str "s-1") (str "bng-1") (str "alice"))
    (sample_event Status_Start (str "s-1") (str "bng-1") (str "alice"))
    (str "radius:nas-id:626e672d31:username:616c696365") _ _ _ _ _ _)).
  1, 2: intros nas [= <-]; by_compute.
  1, 2: intros b text H; vm_compute in H; injection H as <- <-; by_compute.
  all: vm_compute; reflexivity.
Defined.

(** ** Netmasks *)

Definition prefix_mask (n : Z) : Z :=
  if n =? 0 then 0 else Z.shiftl (2 ^ 32 - 1) (32 - n) mod 2 ^ 32.

Lemma prefix_masks_all :
  forallb (fun n => (Z.of_nat (u32_count_ones (prefix_mask n)) =? n)
    && in_range 0 (prefix_mask n) (2 ^ 32 - 1)
    && forallb (fun i => Bool.eqb (Z.testbit (prefix_mask n) (31 - i)) (i <? n)) (seqZ 0 32))
  (seqZ 0 33) = true.
Proof. vm_compute. reflexivity. Qed.

Lemma prefix_mask_spec n :
  0 <= n <= 32 ->
  Z.of_nat (u32_count_ones (prefix_mask n)) = n /\ 0 <= prefix_mask n < 2 ^ 32
  /\ forall i, 0 <= i < 32 -> Z.testbit (prefix_mask n) (31 - i) = (i <? n).
Proof.
  intros Hn. pose proof prefix_masks_all as Hall. rewrite forallb_forall in Hall.
  specialize (Hall n). rewrite <- list_elem_of_In, elem_of_seqZ in Hall.
  specialize (Hall ltac:(lia)). apply andb_true_iff in Hall as [Hall Hbits].
  apply andb_true_iff in Hall as [Hc Hr]. apply Z.eqb_eq in Hc. apply in_range_spec in Hr.
  split_and!; [done|lia|lia|]. intros i Hi. rewrite forallb_forall in Hbits.
  specialize (Hbits i). rewrite <- list_elem_of_In, elem_of_seqZ in Hbits.
  apply Bool.eqb_prop, Hbits. lia.
Qed.

Lemma testbit_above b n m : 0 <= b < 2 ^ n -> 0 <= n <= m -> Z.testbit b m = false.
Proof. intros Hb Hm. rewrite <- (Z.mod_small b (2 ^ n)) by done. by apply Z.mod_pow2_bits_high. Qed.

Lemma u32_eq_bits a b :
  0 <= a < 2 ^ 32 -> 0 <= b < 2 ^ 32 ->
  (forall i, 0 <= i < 32 -> Z.testbit a (31 - i) = Z.testbit b (31 - i)) -> a = b.
Proof.
  intros Ha Hb H. apply Z.bits_inj'. intros m Hm. destruct (decide (m < 32)).
  - specialize (H (31 - m) ltac:(lia)). by replace (31 - (31 - m)) with m in H by lia.
  - rewrite !(testbit_above _ 32) by lia. done.
Qed.

Lemma count_ones_le n : (u32_count_ones n <= 32)%nat.
Proof. unfold u32_count_ones. rewrite length_filter. rewrite length_seq. done. Qed.

Lemma ipv4_to_u32_bounds a : bytes_ok (ipv4_octets a) -> 0 <= ipv4_to_u32 a < 2 ^ 32.
Proof.
  destruct a as [a b c d]. cbn. unfold bytes_ok. rewrite !Forall_cons. unfold byte_ok.
  intros (? & ? & ? & ? & _). unfold u32_from_be_bytes. lia.
Qed.

(** a Framed-IP-Netmask is read as a prefix length exactly when its 32 bits are that many ones
    followed by zeros; a mask with a hole is never used. *)
Theorem ipv4_netmask_prefix_len_exact netmask n :
  bytes_ok (ipv4_octets netmask) ->
  ipv4_netmask_prefix_len netmask = Some n <->
  0 <= n <= 32 /\ forall i, 0 <= i < 32 -> Z.testbit (ipv4_to_u32 netmask) (31 - i) = (i <? n).
Proof.
  intros Hok. pose proof (ipv4_to_u32_bounds netmask Hok) as Hb.
  unfold ipv4_netmask_prefix_len. set (bits := ipv4_to_u32 netmask) in *.
  fold (prefix_mask (Z.of_nat (u32_count_ones bits))). split.
  - case_match eqn:Heq; [|done]. intros [= <-]. to_prop.
    pose proof (count_ones_le bits).
    destruct (prefix_mask_spec (Z.of_nat (u32_count_ones bits)) ltac:(lia)) as (_ & _ & Hbits).
    split; [lia|]. intros i Hi. rewrite Heq at 1. by apply Hbits.
  - intros [Hn Hbits]. destruct (prefix_mask_spec n Hn) as (Hc & Hr & Hm).
    assert (bits = prefix_mask n) as ->.
    { apply u32_eq_bits; [done|done|]. intros i Hi. by rewrite Hbits, Hm. }
    by rewrite Hc, Z.eqb_refl.
Qed.

Lemma ipv4_netmask_prefix_len_exact_witness :
  ipv4_netmask_prefix_len (V4Octets 255 255 255 240) = Some 28
  /\ (forall i, 0 <= i < 32 ->
        Z.testbit (ipv4_to_u32 (V4Octets 255 255 255 240)) (31 - i) = (i <? 28))
  /\ ipv4_netmask_prefix_len (V4Octets 255 0 255 0) = None.
Proof.
  assert (ipv4_netmask_prefix_len (V4Octets 255 255 255 240) = Some 28) as H
    by (vm_compute; reflexivity).
  split; [exact H|]. split; [|vm_compute; reflexivity].
  apply (ipv4_netmask_prefix_len_exact (V4Octets 255 255 255 240) 28); [by_compute|exact H].
Defined.

(** ** Merged events *)

(** The last known value of a field over a sequence of events, and the last non-empty list. *)
Definition last_known {T} (get : AccountingEvent -> option T) (es : list AccountingEvent) : option T :=
  fold_left (fun known e => carry (get e) known) es None.
Definition last_listed {T} (get : AccountingEvent -> list T) (es : list AccountingEvent) : list T :=
  fold_left (fun known e => carry_list (get e) known) es [].

(** The retained event after a sequence of Start and Interim-Update events. *)
Definition merge_all (e : AccountingEvent) (es : list AccountingEvent) : AccountingEvent :=
  fold_left merge_sparse_active_event es e.

Lemma merge_all_known {T} (get : AccountingEvent -> option T) :
  (forall p e, get (merge_sparse_active_event p e) = carry (get e) (get p)) ->
  forall es e, get (merge_all e es) = last_known get (e :: es).
Proof.
  intros Hget es e. unfold last_known, merge_all. cbn [fold_left].
  assert (carry (get e) None = get e) as -> by by destruct (get e).
  revert e. induction es as [|e' es IH]; intros e; cbn [fold_left]; [done|]. by rewrite IH, Hget.
Qed.

Lemma merge_all_listed {T} (get : AccountingEvent -> list T) :
  (forall p e, get (merge_sparse_active_event p e) = carry_list (get e) (get p)) ->
  forall es e, get (merge_all e es) = last_listed get (e :: es).
Proof.
  intros Hget es e. unfold last_listed, merge_all. cbn [fold_left].
  assert (carry_list (get e) [] = get e) as -> by by destruct (get e).
  revert e. induction es as [|e' es IH]; intros e; cbn [fold_left]; [done|]. by rewrite IH, Hget.
Qed.

(** after any sequence of Start and Interim-Update events, the retained event holds for every
    identity and address field the last value any of them carried (the last non-empty list for the
    list fields), and the status of the last event: a sparse update never forgets. *)
Theorem merged_event_is_last_known e es :
  let m := merge_all e es in
  ev_status_type m = ev_status_type (default e (last es))
  /\ ev_acct_session_id m = last_known ev_acct_session_id (e :: es)
  /\ ev_nas_identifier m = last_known ev_nas_identifier (e :: es)
  /\ ev_nas_ip_address m = last_known ev_nas_ip_address (e :: es)
  /\ ev_nas_ipv6_address m = last_known ev_nas_ipv6_address (e :: es)
  /\ ev_nas_port m = last_known ev_nas_port (e :: es)
  /\ ev_nas_port_id m = last_known ev_nas_port_id (e :: es)
  /\ ev_user_name m = last_known ev_user_name (e :: es)
  /\ ev_calling_station_id m = last_known ev_calling_station_id (e :: es)
  /\ ev_called_station_id m = last_known ev_called_station_id (e :: es)
  /\ ev_framed_ip_address m = last_known ev_framed_ip_address (e :: es)
  /\ ev_framed_ip_netmask m = last_known ev_framed_ip_netmask (e :: es)
  /\ ev_framed_ipv6_address m = last_known ev_framed_ipv6_address (e :: es)
  /\ ev_class m = last_listed ev_class (e :: es)
  /\ ev_framed_routes m = last_listed ev_framed_routes (e :: es)
  /\ ev_framed_ipv6_prefixes m = last_listed ev_framed_ipv6_prefixes (e :: es)
  /\ ev_delegated_ipv6_prefixes m = last_listed ev_delegated_ipv6_prefixes (e :: es)
  /\ ev_mikrotik_rate_limits m = last_listed ev_mikrotik_rate_limits (e :: es).
Proof.
  cbv zeta. split.
  { destruct es as [|e' es] using rev_ind; [done|].
    unfold merge_all. by rewrite fold_left_app, last_snoc. }
  split_and!; (apply merge_all_known || apply merge_all_listed); done.
Qed.
