(* ===== verification/SessionIndex.v ===== *)
(** * The lookup indexes of the session store are coherent with its sessions

    An index is coherent with a session map when the set under an index key holds exactly the session
    keys whose session has that entry, and no set is empty.  The store operations on one key restore
    coherence; the lookups through the indexes then equal a search of all retained sessions. *)

From S2P Require Import Prelude RustStd AccountingEvent ShapedDevice MacMatch.
From S2P Require Import SessionTypes SessionMetadata SessionStore.

Abbreviation SessionMap := (gmap AccountingSessionKey AccountingSession) (only parsing).

(** ** One index *)

Section Index.
Context {K : Type} `{Countable K}.
Implicit Types (idx : KeyIndex K) (k : K) (key : AccountingSessionKey).
Context (entries : AccountingSessionKey -> AccountingSession -> list K).

Definition indexed idx k : gset AccountingSessionKey := default ∅ (idx !! k).

Record coherent (idx : KeyIndex K) (m : SessionMap) : Prop := {
  coherent_elem k key :
    key ∈ indexed idx k <-> exists session, m !! key = Some session /\ k ∈ entries key session;
  coherent_nonempty k : idx !! k <> Some ∅
}.

Lemma coherent_empty : coherent ∅ ∅.
Proof.
  split.
  - intros k key. unfold indexed. rewrite !lookup_empty. cbn. split; [set_solver|].
    by intros (x & Hx & _).
  - intros k. by rewrite lookup_empty.
Qed.

Lemma indexed_add idx k key k' key' :
  key' ∈ indexed (add_indexed_session_key idx k key) k' <->
  (k' = k /\ key' = key) \/ key' ∈ indexed idx k'.
Proof.
  unfold indexed, add_indexed_session_key. destruct (decide (k' = k)) as [->|Hk].
  - rewrite lookup_insert_eq. cbn. set_solver.
  - rewrite lookup_insert_ne by done. naive_solver.
Qed.

Lemma indexed_add_all idx ks key k' key' :
  key' ∈ indexed (fold_left (fun idx k => add_indexed_session_key idx k key) ks idx) k' <->
  (k' ∈ ks /\ key' = key) \/ key' ∈ indexed idx k'.
Proof.
  revert idx. induction ks as [|k ks IH]; intros idx; cbn [fold_left]; [set_solver|].
  rewrite IH, indexed_add. set_solver.
Qed.

Lemma add_all_nonempty idx ks key :
  (forall k, idx !! k <> Some ∅) ->
  forall k, fold_left (fun idx k => add_indexed_session_key idx k key) ks idx !! k <> Some ∅.
Proof.
  revert idx. induction ks as [|k ks IH]; intros idx Hidx; cbn [fold_left]; [done|].
  apply IH. intros k'. unfold add_indexed_session_key. destruct (decide (k' = k)) as [->|Hk].
  - rewrite lookup_insert_eq. intros [= Hempty]. set_solver.
  - by rewrite lookup_insert_ne.
Qed.

Lemma indexed_remove idx k key k' key' :
  key' ∈ indexed (remove_indexed_session_key idx k key) k' <->
  key' ∈ indexed idx k' /\ ~ (k' = k /\ key' = key).
Proof.
  unfold indexed, remove_indexed_session_key. destruct (idx !! k) as [keys|] eqn:Hk.
  - destruct (decide (k' = k)) as [->|Hne].
    + rewrite Hk. cbn. case_bool_decide as Hempty.
      * rewrite lookup_delete_eq. cbn. set_solver.
      * rewrite lookup_insert_eq. cbn. set_solver.
    + case_bool_decide; rewrite ?lookup_delete_ne, ?lookup_insert_ne by done; naive_solver.
  - destruct (decide (k' = k)) as [->|Hne]; [rewrite Hk; cbn; set_solver|naive_solver].
Qed.

Lemma indexed_remove_all idx ks key k' key' :
  key' ∈ indexed (fold_left (fun idx k => remove_indexed_session_key idx k key) ks idx) k' <->
  key' ∈ indexed idx k' /\ ~ (k' ∈ ks /\ key' = key).
Proof.
  revert idx. induction ks as [|k ks IH]; intros idx; cbn [fold_left]; [set_solver|].
  rewrite IH, indexed_remove. set_solver.
Qed.

Lemma remove_all_nonempty idx ks key :
  (forall k, idx !! k <> Some ∅) ->
  forall k, fold_left (fun idx k => remove_indexed_session_key idx k key) ks idx !! k <> Some ∅.
Proof.
  revert idx. induction ks as [|k ks IH]; intros idx Hidx; cbn [fold_left]; [done|].
  apply IH. intros k'. unfold remove_indexed_session_key. destruct (idx !! k) as [keys|]; [|done].
  case_bool_decide as Hempty; destruct (decide (k' = k)) as [->|Hne].
  - by rewrite lookup_delete_eq.
  - by rewrite lookup_delete_ne.
  - rewrite lookup_insert_eq. naive_solver.
  - by rewrite lookup_insert_ne.
Qed.

Lemma coherent_remove idx m key session :
  coherent idx m -> m !! key = Some session ->
  coherent (fold_left (fun idx k => remove_indexed_session_key idx k key) (entries key session) idx)
    (delete key m).
Proof.
  intros [Helem Hne] Hkey. split; [|by apply remove_all_nonempty].
  intros k key'. rewrite indexed_remove_all, Helem. destruct (decide (key' = key)) as [->|Hk].
  - rewrite lookup_delete_eq. naive_solver.
  - rewrite lookup_delete_ne by done. naive_solver.
Qed.

Lemma coherent_insert idx m key session :
  coherent idx m -> m !! key = None ->
  coherent (fold_left (fun idx k => add_indexed_session_key idx k key) (entries key session) idx)
    (<[key := session]> m).
Proof.
  intros [Helem Hne] Hkey. split; [|by apply add_all_nonempty].
  intros k key'. rewrite indexed_add_all, Helem. destruct (decide (key' = key)) as [->|Hk].
  - rewrite lookup_insert_eq, Hkey. naive_solver.
  - rewrite lookup_insert_ne by done. naive_solver.
Qed.

(** Changes that keep the entries keep coherence. *)
Lemma coherent_ext idx m m' :
  (forall key, entries key <$> m !! key = entries key <$> m' !! key) ->
  coherent idx m -> coherent idx m'.
Proof.
  intros Hext [Helem Hne]. split; [|done]. intros k key. rewrite Helem. specialize (Hext key).
  destruct (m !! key), (m' !! key); cbn in Hext; simplify_eq; [|done].
  split; intros (x & [= <-] & Hx); eexists; (split; [done|]); congruence.
Qed.

End Index.

(** ** The three indexes of the store *)

Definition nas_entries (key : AccountingSessionKey) (session : AccountingSession) : list rstring :=
  option_list (nas_session_id (session_index_entries key session)).
Definition pending_entries (key : AccountingSessionKey) (session : AccountingSession)
    : list SessionLookupIndexKey := pending_lookup_keys (session_index_entries key session).
Definition fallback_entries (key : AccountingSessionKey) (session : AccountingSession)
    : list SessionLookupIndexKey := fallback_lookup_keys (session_index_entries key session).

(** The indexes of [s] describe the session map [m]. *)
Record indexes_ok (s : AccountingSessionStore) (m : SessionMap) : Prop := {
  nas_coherent : coherent nas_entries (nas_session_keys_by_acct_session_id s) m;
  pending_coherent : coherent pending_entries (pending_keys_by_lookup s) m;
  fallback_coherent : coherent fallback_entries (fallback_keys_by_lookup s) m
}.

Lemma remove_session_indexes_sessions s key :
  sessions (remove_session_indexes s key) = sessions s
  /\ activation_counters (remove_session_indexes s key) = activation_counters s.
Proof. unfold remove_session_indexes. by destruct (sessions s !! key). Qed.

Lemma index_session_sessions s key :
  sessions (index_session s key) = sessions s
  /\ activation_counters (index_session s key) = activation_counters s.
Proof. unfold index_session. by destruct (sessions s !! key). Qed.

Lemma remove_session_indexes_ok s key :
  indexes_ok s (sessions s) -> indexes_ok (remove_session_indexes s key) (delete key (sessions s)).
Proof.
  intros [Hn Hp Hf]. unfold remove_session_indexes.
  destruct (sessions s !! key) as [session|] eqn:Hkey; [|by rewrite delete_id].
  split; cbn.
  - pose proof (coherent_remove _ _ _ _ _ Hn Hkey) as Hn'. unfold nas_entries at 2 in Hn'.
    by destruct (nas_session_id _).
  - by apply (coherent_remove pending_entries).
  - by apply (coherent_remove fallback_entries).
Qed.

Lemma index_session_ok s key session :
  sessions s !! key = Some session -> indexes_ok s (delete key (sessions s)) ->
  indexes_ok (index_session s key) (sessions s).
Proof.
  intros Hkey [Hn Hp Hf]. unfold index_session. rewrite Hkey.
  rewrite <- (insert_id (sessions s) key session Hkey), <- insert_delete_eq.
  pose proof (lookup_delete_eq (sessions s) key) as Hnone. split; cbn.
  - pose proof (coherent_insert nas_entries _ _ _ session Hn Hnone) as Hn'.
    unfold nas_entries at 2 in Hn'. by destruct (nas_session_id _).
  - by apply (coherent_insert pending_entries).
  - by apply (coherent_insert fallback_entries).
Qed.

(** The entries depend on the key and the latest event only. *)
Lemma indexes_ok_ext s s' m m' :
  nas_session_keys_by_acct_session_id s = nas_session_keys_by_acct_session_id s' ->
  pending_keys_by_lookup s = pending_keys_by_lookup s' ->
  fallback_keys_by_lookup s = fallback_keys_by_lookup s' ->
  (forall key, latest_event <$> m !! key = latest_event <$> m' !! key) ->
  indexes_ok s m -> indexes_ok s' m'.
Proof.
  intros H1 H2 H3 Hext [Hn Hp Hf]. rewrite H1 in Hn. rewrite H2 in Hp. rewrite H3 in Hf.
  assert (forall key x y, latest_event x = latest_event y ->
    session_index_entries key x = session_index_entries key y) as Hentries.
  { intros key x y Hxy. unfold session_index_entries, session_lookup_index_keys, session_fingerprint.
    by rewrite Hxy. }
  split; (eapply coherent_ext; [|eassumption]); intros key; specialize (Hext key);
    destruct (m !! key), (m' !! key); cbn in Hext |- *; simplify_eq; try done; f_equal;
    unfold nas_entries, pending_entries, fallback_entries; by erewrite Hentries.
Qed.

(** ** Lookups equal a search of all retained sessions *)

Definition retained_keys (s : AccountingSessionStore) : list AccountingSessionKey :=
  map fst (map_to_list (sessions s)).

(** The only retained key that satisfies [p], if there is exactly one. *)
Definition the_key (s : AccountingSessionStore) (p : AccountingSessionKey -> bool)
    : option AccountingSessionKey := unique_match p None (retained_keys s).

Lemma retained_keys_NoDup s : NoDup (retained_keys s).
Proof. apply NoDup_fst_map_to_list. Qed.

Lemma elem_of_retained_keys s key : key ∈ retained_keys s <-> is_Some (sessions s !! key).
Proof.
  unfold retained_keys. rewrite list_elem_of_fmap. split.
  - intros ([k x] & -> & Hx%elem_of_map_to_list). by eexists.
  - intros [x Hx]. exists (key, x). split; [done|]. by apply elem_of_map_to_list.
Qed.

Lemma the_key_Some s p key :
  the_key s p = Some key <->
  is_Some (sessions s !! key) /\ p key = true
  /\ forall key', is_Some (sessions s !! key') -> p key' = true -> key' = key.
Proof.
  unfold the_key. rewrite unique_match_Some by apply retained_keys_NoDup.
  by setoid_rewrite elem_of_retained_keys.
Qed.

Definition nas_session_of (key : AccountingSessionKey) : option rstring :=
  match key with NasSession _ acct_session_id => Some acct_session_id | Pending _ => None end.

Lemma elem_of_nas_entries key session acct :
  acct ∈ nas_entries key session <-> nas_session_of key = Some acct.
Proof. destruct key; cbn; set_solver. Qed.

(** A search of the candidates of an index is a search of all sessions when every match is a
    candidate. *)
Lemma search_candidates s (candidates : gset AccountingSessionKey) p q :
  (forall key, key ∈ candidates /\ p key = true <-> is_Some (sessions s !! key) /\ q key = true) ->
  unique_match p None (elements candidates) = the_key s q.
Proof.
  intros Hext. apply unique_match_ext; [apply NoDup_elements|apply retained_keys_NoDup|].
  intros key. by rewrite elem_of_elements, elem_of_retained_keys.
Qed.

Lemma matching_session_key_scan s acct ids excluded :
  indexes_ok s (sessions s) ->
  matching_session_key s acct ids excluded =
  the_key s (fun key => bool_decide (nas_session_of key = Some acct)
                        && matching_session_test s ids excluded key).
Proof.
  intros [[Helem _] _ _].
  assert (matching_session_key s acct ids excluded =
    unique_match (matching_session_test s ids excluded) None
      (elements (indexed (nas_session_keys_by_acct_session_id s) acct))) as ->.
  { unfold matching_session_key, indexed.
    destruct (nas_session_keys_by_acct_session_id s !! acct); cbn; [done|].
    by rewrite elements_empty. }
  apply search_candidates. intros key. rewrite Helem, andb_true_iff, bool_decide_eq_true.
  setoid_rewrite elem_of_nas_entries. unfold is_Some. naive_solver.
Qed.

Lemma elem_of_push_key (o : option SessionLookupIndexKey) keys lk :
  lk ∈ match o with Some v => push_unique keys v | None => keys end <-> lk ∈ keys \/ o = Some lk.
Proof. destruct o; rewrite ?elem_of_push_unique; naive_solver. Qed.

Lemma elem_of_lookup_keys f lk :
  lk ∈ push_fingerprint_lookup_keys [] f <->
  match lk with
  | Lookup_AcctSessionId v => fp_acct_session_id f = Some v
  | Lookup_UserName v => fp_user_name f = Some v
  | Lookup_CallingStationId v => fp_calling_station_id f = Some v
  | Lookup_NasPortId v => fp_nas_port_id f = Some v
  | Lookup_NasPort v => fp_nas_port f = Some v
  end.
Proof.
  unfold push_fingerprint_lookup_keys.
  destruct f as [nas [a|] [u|] [c|] [i|] [p|]]; cbn -[push_unique];
    rewrite ?elem_of_push_unique, ?elem_of_nil; destruct lk; naive_solver.
Qed.

Lemma optional_match_true {T} `{EqDecision T} (l r : option T) :
  optional_match l r = Some true -> exists v, l = Some v /\ r = Some v.
Proof. destruct l, r; cbn; try done. case_bool_decide; naive_solver. Qed.

(** Fingerprints that match share a lookup key, so every match is a candidate. *)
Lemma matches_shares_key f g nas_context :
  matches_with_nas_context f g nas_context = true ->
  exists lk, lk ∈ push_fingerprint_lookup_keys [] f /\ lk ∈ push_fingerprint_lookup_keys [] g.
Proof.
  unfold matches_with_nas_context.
  destruct (if nas_context then _ else _) as [nas|]; cbn; [|done].
  destruct (optional_match (fp_acct_session_id f) _) as [[]|] eqn:Ha; cbn; [| |done].
  { intros _. apply optional_match_true in Ha as (v & H1 & H2).
    exists (Lookup_AcctSessionId v). by rewrite !elem_of_lookup_keys. }
  destruct (optional_match (fp_user_name f) _) as [u|] eqn:Hu; cbn; [|done].
  destruct (optional_match (fp_calling_station_id f) _) as [c|] eqn:Hc; cbn; [|done].
  destruct (optional_match (fp_nas_port_id f) _) as [i|] eqn:Hi; cbn; [|done].
  destruct (optional_match (fp_nas_port f) _) as [p|] eqn:Hp; cbn; [|done].
  intros Hcount. destruct u.
  { apply optional_match_true in Hu as (v & H1 & H2).
    exists (Lookup_UserName v). by rewrite !elem_of_lookup_keys. }
  destruct c.
  { apply optional_match_true in Hc as (v & H1 & H2).
    exists (Lookup_CallingStationId v). by rewrite !elem_of_lookup_keys. }
  destruct i.
  { apply optional_match_true in Hi as (v & H1 & H2).
    exists (Lookup_NasPortId v). by rewrite !elem_of_lookup_keys. }
  destruct p.
  { apply optional_match_true in Hp as (v & H1 & H2).
    exists (Lookup_NasPort v). by rewrite !elem_of_lookup_keys. }
  by destruct nas.
Qed.

Lemma elem_of_lookup_candidates idx event ids key :
  key ∈ lookup_candidates idx event ids <->
  exists lk, lk ∈ event_lookup_index_keys event ids /\ key ∈ indexed idx lk.
Proof.
  unfold lookup_candidates.
  assert (forall lks acc, key ∈ fold_left (fun candidates lookup_key =>
      match idx !! lookup_key with None => candidates | Some keys => candidates ∪ keys end) lks acc
    <-> key ∈ acc \/ exists lk, lk ∈ lks /\ key ∈ indexed idx lk) as Hfold.
  { induction lks as [|lk lks IH]; intros acc; cbn [fold_left]; [set_solver|].
    assert (key ∈ match idx !! lk with None => acc | Some keys => acc ∪ keys end <->
            key ∈ acc \/ key ∈ indexed idx lk) as Hlk
      by (unfold indexed; destruct (idx !! lk); cbn; set_solver).
    rewrite IH, Hlk. setoid_rewrite elem_of_cons. naive_solver. }
  rewrite Hfold. set_solver.
Qed.

(** The fingerprint of the latest event, with its NAS. *)
Definition event_fingerprint (event : AccountingEvent) : PendingSessionFingerprint :=
  fingerprint_from_event event (primary (NasIdentitySet_from_event event)).

(** A session under a pending key has the fingerprint of its key, which lacks the session id or the
    NAS. *)
Definition pending_keys_ok (m : SessionMap) : Prop :=
  forall f x, m !! Pending f = Some x ->
    event_fingerprint (latest_event x) = f /\ (fp_acct_session_id f = None \/ fp_nas f = None).

Lemma lookup_keys_ignore_nas e nas nas' :
  push_fingerprint_lookup_keys [] (fingerprint_from_event e nas) =
  push_fingerprint_lookup_keys [] (fingerprint_from_event e nas').
Proof. done. Qed.

Lemma existing_fallback_session_key_scan s event ids :
  indexes_ok s (sessions s) ->
  existing_fallback_session_key s event ids =
  the_key s (fallback_key_test s (fingerprint_from_event event (primary ids)) ids).
Proof.
  intros [_ _ [Helem _]]. apply search_candidates. intros key.
  rewrite elem_of_lookup_candidates. setoid_rewrite Helem. split.
  - intros ((lk & _ & x & Hx & _) & Ht). split; [by eexists|done].
  - intros [[x Hx] Ht]. split; [|done]. unfold fallback_key_test in Ht.
    destruct key as [nas acct|f]; [|done]. rewrite Hx in Ht.
    apply andb_true_iff in Ht as [_ Hm]. apply matches_shares_key in Hm as (lk & Hl & He).
    by exists lk; split; [|exists x].
Qed.

Lemma existing_pending_key_scan s event ids :
  indexes_ok s (sessions s) -> pending_keys_ok (sessions s) ->
  existing_pending_key s event ids =
  the_key s (pending_key_test s (fingerprint_from_event event (primary ids)) ids).
Proof.
  intros [_ [Helem _] _] Hpend. apply search_candidates. intros key.
  rewrite elem_of_lookup_candidates. setoid_rewrite Helem. split.
  - intros ((lk & _ & x & Hx & _) & Ht). split; [by eexists|done].
  - intros [[x Hx] Ht]. split; [|done]. unfold pending_key_test in Ht. rewrite Hx in Ht.
    destruct key as [nas acct|f]; [done|]. cbv zeta in Ht.
    apply matches_shares_key in Ht as (lk & Hl & He). exists lk. split; [done|]. exists x.
    split; [done|]. destruct (Hpend _ _ Hx) as [<- _]. exact Hl.
Qed.

(** Key resolution by searching all retained sessions. *)
Definition scan_session (s : AccountingSessionStore) (acct : rstring) (ids : NasIdentitySet)
    (excluded : option AccountingSessionKey) : option AccountingSessionKey :=
  the_key s (fun key => bool_decide (nas_session_of key = Some acct)
                        && matching_session_test s ids excluded key).
Definition scan_pending (s : AccountingSessionStore) (event : AccountingEvent)
    : option AccountingSessionKey :=
  let ids := NasIdentitySet_from_event event in
  the_key s (pending_key_test s (fingerprint_from_event event (primary ids)) ids).
Definition scan_fallback (s : AccountingSessionStore) (event : AccountingEvent)
    : option AccountingSessionKey :=
  let ids := NasIdentitySet_from_event event in
  the_key s (fallback_key_test s (fingerprint_from_event event (primary ids)) ids).

(** The key and the promoted keys of an event, by search. *)
Definition resolve_by_search (s : AccountingSessionStore) (event : AccountingEvent)
    : SessionKeyResolution :=
  let ids := NasIdentitySet_from_event event in
  match non_empty_text (ev_acct_session_id event), primary ids with
  | Some acct, Some nas =>
      let candidate := NasSession nas acct in
      if bool_decide (is_Some (sessions s !! candidate)) then
        mkSessionKeyResolution candidate
          (option_list (scan_session s acct ids (Some candidate)) ++ option_list (scan_pending s event))
      else
        mkSessionKeyResolution (default candidate (scan_session s acct ids None))
          (option_list (scan_pending s event))
  | _, nas =>
      mkSessionKeyResolution
        (default (Pending (fingerprint_from_event event nas)) (scan_fallback s event)) []
  end.

Lemma scan_session_nas s acct ids ex key : scan_session s acct ids ex = Some key -> nas_session_of key = Some acct.
Proof. intros (_ & Ht & _)%the_key_Some. apply andb_true_iff in Ht as [Ht _]. by to_prop. Qed.

Lemma scan_pending_Pending s event key : scan_pending s event = Some key -> exists f, key = Pending f.
Proof.
  intros ([x Hx] & Ht & _)%the_key_Some. unfold pending_key_test in Ht. rewrite Hx in Ht.
  destruct key; [done|by eexists].
Qed.

Lemma resolve_session_key_search s event :
  indexes_ok s (sessions s) -> pending_keys_ok (sessions s) ->
  resolve_session_key s event = resolve_by_search s event.
Proof.
  intros Hidx Hpend. unfold resolve_session_key, resolve_by_search. cbv zeta.
  set (ids := NasIdentitySet_from_event event).
  fold (non_empty_text (ev_acct_session_id event)).
  unfold existing_session_key, alternate_session_key.
  pose proof (existing_fallback_session_key_scan s event ids Hidx) as Hf.
  change (existing_fallback_session_key s event ids = scan_fallback s event) in Hf.
  pose proof (existing_pending_key_scan s event ids Hidx Hpend) as Hp.
  change (existing_pending_key s event ids = scan_pending s event) in Hp. rewrite Hf.
  destruct (non_empty_text (ev_acct_session_id event)) as [acct|];
    [|by destruct (scan_fallback s event)].
  destruct (primary ids) as [nas|] eqn:Hnas; [|by destruct (scan_fallback s event)].
  rewrite Hp, !matching_session_key_scan by done.
  fold (scan_session s acct ids (Some (NasSession nas acct))). fold (scan_session s acct ids None).
  case_bool_decide.
  - destruct (scan_session s acct ids (Some _)) as [alt|] eqn:Halt,
      (scan_pending s event) as [p|] eqn:Hsp; cbn; try done.
    rewrite push_unique_not_in; [done|]. intros ->%list_elem_of_singleton.
    apply scan_session_nas in Halt. by apply scan_pending_Pending in Hsp as [f ->].
  - destruct (scan_session s acct ids None) as [k|], (scan_pending s event); done.
Qed.
