(* ===== verification/SessionStoreSpec.v ===== *)
(** * The session store: invariant, key resolution and frame

    The invariant of every reachable store, the exact effect of an event on the session map, and the
    effect of a NAS reset. *)

From S2P Require Import Prelude RustStd AccountingEvent ShapedDevice MacMatch.
From S2P Require Import SessionTypes SessionMetadata SessionStore SessionMetadataSpec SessionIndex.

(** ** The invariant *)

Record session_ok (key : AccountingSessionKey) (x : AccountingSession) : Prop := {
  inactive_unresolved :
    ses_state x <> State_Active ->
    ses_resolved_shaped_device x = None /\ resolved_rate x = None /\ ses_pending_reasons x = [];
  active_resolved :
    ses_state x = State_Active ->
    (ses_pending_reasons x = [] <-> is_Some (ses_resolved_shaped_device x));
  nas_identities_distinct : NoDup (known_nas_identities x);
  active_ids_distinct : NoDup (active_dynamic_circuit_ids x);
  pending_not_shaped :
    forall f, key = Pending f ->
    ses_resolved_shaped_device x = None /\ active_dynamic_circuit_ids x = []
}.

Record store_ok (s : AccountingSessionStore) : Prop := {
  store_indexes_ok : indexes_ok s (sessions s);
  store_pending_keys_ok : pending_keys_ok (sessions s);
  store_sessions_ok : forall key x, sessions s !! key = Some x -> session_ok key x
}.

(** ** Removing promoted sessions *)

Definition delete_keys (m : SessionMap) (keys : list AccountingSessionKey) : SessionMap :=
  fold_left (fun m key => delete key m) keys m.

Lemma lookup_delete_keys m keys key :
  delete_keys m keys !! key = if bool_decide (key ∈ keys) then None else m !! key.
Proof.
  unfold delete_keys. revert m. induction keys as [|k keys IH]; intros m; cbn [fold_left].
  { by rewrite bool_decide_false by apply not_elem_of_nil. }
  rewrite IH. destruct (decide (key = k)) as [->|Hne].
  - rewrite lookup_delete_eq, (bool_decide_true (k ∈ k :: keys)) by left. by case_match.
  - rewrite lookup_delete_ne by done.
    by rewrite (bool_decide_ext (key ∈ k :: keys) (key ∈ keys)) by set_solver.
Qed.

Lemma remove_session_spec s key :
  indexes_ok s (sessions s) ->
  let '(s', removed) := remove_session s key in
  sessions s' = delete key (sessions s) /\ removed = sessions s !! key
  /\ activation_counters s' = activation_counters s /\ indexes_ok s' (sessions s').
Proof.
  intros Hok. cbn. destruct (remove_session_indexes_sessions s key) as [Hs Hc].
  rewrite Hs. split_and!; [done|done|done|].
  apply (indexes_ok_ext (remove_session_indexes s key) _ (delete key (sessions s))); try done.
  by apply remove_session_indexes_ok.
Qed.

Lemma remove_sessions_spec s keys :
  indexes_ok s (sessions s) -> NoDup keys ->
  let '(s', removed) := remove_sessions s keys in
  sessions s' = delete_keys (sessions s) keys
  /\ removed = omap (fun key => sessions s !! key) keys
  /\ activation_counters s' = activation_counters s /\ indexes_ok s' (sessions s').
Proof.
  intros Hok Hnd. revert s Hok. induction Hnd as [|key keys Hkey Hnd IH]; intros s Hok; [done|].
  cbn [remove_sessions].
  pose proof (remove_session_spec s key Hok) as H1.
  destruct (remove_session s key) as [s1 removed]. destruct H1 as (Hs1 & -> & Hc1 & Hok1).
  specialize (IH s1 Hok1). destruct (remove_sessions s1 keys) as [s2 rest].
  destruct IH as (Hs2 & -> & Hc2 & Hok2).
  split_and!; [by rewrite Hs2, Hs1| |congruence|done].
  cbn. assert (omap (fun k => sessions s1 !! k) keys = omap (fun k => sessions s !! k) keys) as ->.
  { rewrite Hs1. clear - Hkey. induction keys as [|k keys IH]; [done|]. cbn.
    rewrite lookup_delete_ne by set_solver. by rewrite IH by set_solver. }
  by destruct (sessions s !! key).
Qed.

(** ** The effect of an event on the session map *)

(** What the retained and the promoted sessions contribute. *)
Definition merged_of (state : AccountingSessionState) (existing : option AccountingSession)
    (promoted_sessions : list AccountingSession) : MergedSessions :=
  match existing with
  | Some x =>
      fold_left (merge_into_existing state) promoted_sessions
        (mkMergedSessions (known_nas_identities x) (active_dynamic_circuit_ids x) (diagnostic_ids x)
           (Some (latest_event x)))
  | None => fold_left (merge_into_new state) promoted_sessions (mkMergedSessions [] [] [] None)
  end.

Lemma resolve_previous_keys s event :
  store_ok s ->
  let r := resolve_session_key s event in
  NoDup (previous_keys r) /\ (resolution_key r ∉ previous_keys r)
  /\ forall key, key ∈ previous_keys r -> is_Some (sessions s !! key).
Proof.
  intros [Hidx Hpend _]. cbv zeta. rewrite resolve_session_key_search by done.
  unfold resolve_by_search. cbv zeta. set (ids := NasIdentitySet_from_event event).
  destruct (non_empty_text _) as [acct|], (primary ids) as [nas|]; cbn;
    try (split_and!; [constructor|set_solver|set_solver]).
  assert (forall key, scan_pending s event = Some key ->
    is_Some (sessions s !! key) /\ exists f, key = Pending f) as Hsp.
  { intros key Hkey. split; [by apply the_key_Some in Hkey as (? & _)|].
    by eapply scan_pending_Pending. }
  case_bool_decide as Hcand; cbn.
  - assert (forall key, scan_session s acct ids (Some (NasSession nas acct)) = Some key ->
      is_Some (sessions s !! key) /\ nas_session_of key = Some acct /\ key <> NasSession nas acct) as Hss.
    { intros key Hkey. split_and!; [by apply the_key_Some in Hkey as (? & _)|by eapply scan_session_nas|].
      apply the_key_Some in Hkey as (_ & Ht & _). unfold matching_session_test in Ht. to_prop. naive_solver. }
    destruct (scan_session _ _ _ _) as [alt|], (scan_pending s event) as [p|]; cbn;
      try (destruct (Hss _ eq_refl) as (? & Halt & ?));
      try (destruct (Hsp _ eq_refl) as (? & [f ->]));
      split_and!; repeat (constructor || set_solver).
  - assert (forall k, default (NasSession nas acct) (scan_session s acct ids None) <> Pending k) as Hnp.
    { intros k. destruct (scan_session s acct ids None) as [key|] eqn:Hk; cbn; [|done].
      apply scan_session_nas in Hk. by destruct key. }
    destruct (scan_pending s event) as [p|]; cbn; [|split_and!; [constructor|set_solver|set_solver]].
    destruct (Hsp _ eq_refl) as (? & [f ->]).
    split_and!; [apply NoDup_singleton|set_solver|set_solver].
Qed.

(** The exact effect: the promoted sessions go, the resolved key holds the merged session, the
    indexes follow. *)
Lemma apply_session_state_spec s event resolve state :
  store_ok s ->
  let r := resolve_session_key s event in
  let key := resolution_key r in
  let promoted_sessions := omap (fun k => sessions s !! k) (previous_keys r) in
  let x := updated_session key (merged_of state (sessions s !! key) promoted_sessions)
             event resolve state in
  exists s',
    apply_session_state s event resolve state = (s', SessionUpdated key state)
    /\ sessions s' = <[key := x]> (delete_keys (sessions s) (previous_keys r))
    /\ activation_counters s' = activation_counters s
    /\ indexes_ok s' (sessions s').
Proof.
  intros Hok. cbv zeta. destruct (resolve_previous_keys s event Hok) as (Hnd & Hkey & _).
  unfold apply_session_state. set (r := resolve_session_key s event) in *. cbv zeta.
  pose proof (remove_sessions_spec s (previous_keys r) (store_indexes_ok s Hok) Hnd) as Hrm.
  destruct (remove_sessions s (previous_keys r)) as [s1 removed].
  destruct Hrm as (Hs1 & -> & Hc1 & Hok1). set (key := resolution_key r) in *.
  assert (sessions s1 !! key = sessions s !! key) as Hlk.
  { by rewrite Hs1, lookup_delete_keys, bool_decide_false. }
  rewrite Hlk. eexists. split; [reflexivity|].
  destruct (sessions s !! key) as [x|] eqn:Hx; cbn [merged_of].
  - set (s2 := set_sessions _ _). destruct (index_session_sessions s2 key) as [-> ->].
    destruct (remove_session_indexes_sessions s1 key) as [Hs2 Hc2].
    split_and!; [by cbn; rewrite Hs2, Hs1|by cbn; rewrite Hc2|].
    eapply index_session_ok; [by cbn; rewrite lookup_insert_eq|].
    apply (indexes_ok_ext (remove_session_indexes s1 key) _ (delete key (sessions s1))); try done.
    + intros k. cbn. by rewrite Hs2, delete_insert_eq.
    + by apply remove_session_indexes_ok.
  - set (s2 := set_sessions _ _). destruct (index_session_sessions s2 key) as [-> ->].
    split_and!; [by cbn; rewrite Hs1|done|].
    eapply index_session_ok; [by cbn; rewrite lookup_insert_eq|].
    apply (indexes_ok_ext s1 _ (sessions s1)); try done.
    intros k. cbn. by rewrite delete_insert_id.
Qed.

(** ** What the merged session holds *)

Definition active_ids_of (x : option AccountingSession) : list rstring :=
  from_option active_dynamic_circuit_ids [] x.

Lemma merged_of_nil state existing :
  merged_event (merged_of state existing []) = latest_event <$> existing
  /\ merged_active (merged_of state existing []) = active_ids_of existing.
Proof. by destruct existing. Qed.

Lemma merged_of_snoc state existing ps p :
  merged_nas (merged_of state existing (ps ++ [p])) =
    push_all_unique (merged_nas (merged_of state existing ps)) (known_nas_identities p)
  /\ merged_active (merged_of state existing (ps ++ [p])) =
    push_all_unique (merged_active (merged_of state existing ps)) (active_dynamic_circuit_ids p).
Proof. destruct existing; cbn; by rewrite fold_left_app. Qed.

Lemma merged_of_distinct state existing ps :
  (forall x, existing = Some x ->
     NoDup (known_nas_identities x) /\ NoDup (active_dynamic_circuit_ids x)) ->
  NoDup (merged_nas (merged_of state existing ps))
  /\ NoDup (merged_active (merged_of state existing ps)).
Proof.
  intros Hex. induction ps as [|p ps [IHn IHa]] using rev_ind.
  - destruct existing as [x|]; cbn; [by apply Hex|split; constructor].
  - destruct (merged_of_snoc state existing ps p) as [-> ->].
    split; by apply NoDup_push_all_unique.
Qed.

(** No circuit identifier is lost or made up by merging. *)
Lemma elem_of_merged_active state existing ps id :
  id ∈ merged_active (merged_of state existing ps) <->
  id ∈ active_ids_of existing \/ exists p, p ∈ ps /\ id ∈ active_dynamic_circuit_ids p.
Proof.
  induction ps as [|p ps IH] using rev_ind.
  - destruct (merged_of_nil state existing) as [_ ->]. set_solver.
  - destruct (merged_of_snoc state existing ps p) as [_ ->].
    rewrite elem_of_push_all_unique, IH. setoid_rewrite elem_of_app.
    setoid_rewrite list_elem_of_singleton. naive_solver.
Qed.

(** ** Fingerprints of merged events *)

Lemma non_empty_text_carry a b :
  non_empty_text a = non_empty_text b -> non_empty_text (carry a b) = non_empty_text a.
Proof. by destruct a. Qed.

Lemma event_fingerprint_merge p e :
  event_fingerprint p = event_fingerprint e ->
  event_fingerprint (merge_sparse_active_event p e) = event_fingerprint e.
Proof.
  unfold event_fingerprint, fingerprint_from_event. intros [= Hn Ha Hu Hc Hi Hp]. cbn.
  rewrite !non_empty_text_carry by done. f_equal; [|by rewrite Hp; destruct (ev_nas_port e)].
  clear - Hn. unfold NasIdentitySet_from_event, primary in *. cbn in *.
  destruct (ev_nas_identifier e) as [[]|], (ev_nas_identifier p) as [[]|],
    (ev_nas_ip_address e), (ev_nas_ip_address p), (ev_nas_ipv6_address e), (ev_nas_ipv6_address p);
    cbn in *; congruence.
Qed.

Lemma latest_event_fingerprint previous e state :
  (forall p, previous = Some p -> event_fingerprint p = event_fingerprint e) ->
  event_fingerprint (latest_session_event previous e state) = event_fingerprint e.
Proof.
  intros Hp. unfold latest_session_event. case_match; [done|].
  destruct previous as [p|]; [|done]. by apply event_fingerprint_merge, Hp.
Qed.

(** An event without a session id or without a NAS is never shaped. *)
Lemma incomplete_event_unresolved key e r :
  fp_acct_session_id (event_fingerprint e) = None \/ fp_nas (event_fingerprint e) = None ->
  meta_resolved_shaped_device (session_dynamic_metadata key e r) = None.
Proof.
  intros Hinc. unfold session_dynamic_metadata. cbn [meta_resolved_shaped_device].
  destruct (is_nil _) eqn:Hnil; [|done]. exfalso.
  apply is_nil_true, pending_reasons_nil in Hnil as (Ha & Hn & _).
  destruct Hinc as [Hacct|Hnas]; cbn in *.
  - unfold non_empty_text, option_filter in Hacct. destruct (ev_acct_session_id e) as [a|]; [|done].
    by rewrite Ha in Hacct.
  - unfold NasIdentitySet_is_empty, primary in *. cbn in *.
    repeat case_match; simplify_eq/=; try done. by destruct (ev_nas_ipv6_address e).
Qed.

(** ** Preservation by events *)

Lemma updated_session_ok key m event resolve state :
  NoDup (merged_nas m) -> NoDup (merged_active m) ->
  (forall f, key = Pending f ->
     merged_active m = []
     /\ (forall e, merged_event m = Some e -> event_fingerprint e = f)
     /\ event_fingerprint event = f /\ (fp_acct_session_id f = None \/ fp_nas f = None)) ->
  session_ok key (updated_session key m event resolve state).
Proof.
  intros Hn Ha Hpend. split; cbn.
  - intros Hs. by rewrite bool_decide_false.
  - intros ->. rewrite bool_decide_true by done. split; [apply metadata_reasons_nil|].
    unfold session_dynamic_metadata. cbn [meta_pending_reasons meta_resolved_shaped_device].
    destruct (is_nil _) eqn:Hnil; [by intros _; apply is_nil_true|by intros []].
  - by apply NoDup_push_all_unique.
  - done.
  - intros f Hf. destruct (Hpend f Hf) as (-> & Hm & He & Hinc). split; [|done].
    case_bool_decide; [|done]. apply incomplete_event_unresolved.
    rewrite latest_event_fingerprint; [by rewrite He|]. intros p Hp. by rewrite (Hm p Hp), He.
Qed.

(** A pending resolution: the key is the fingerprint of the event, and nothing is promoted. *)
Lemma resolve_pending s event f :
  store_ok s -> resolution_key (resolve_session_key s event) = Pending f ->
  previous_keys (resolve_session_key s event) = [] /\ event_fingerprint event = f
  /\ (fp_acct_session_id f = None \/ fp_nas f = None).
Proof.
  intros [Hidx Hp _]. rewrite resolve_session_key_search by done.
  unfold resolve_by_search, event_fingerprint. cbv zeta.
  set (ids := NasIdentitySet_from_event event).
  assert (forall key, scan_fallback s event = Some key -> key <> Pending f) as Hsf.
  { intros key (_ & Ht & _)%the_key_Some ->. done. }
  destruct (non_empty_text (ev_acct_session_id event)) as [acct|] eqn:Ha,
    (primary ids) as [nas|] eqn:Hnas; cbn.
  { case_bool_decide; cbn; [done|]. destruct (scan_session s acct ids None) as [key|] eqn:Hk; cbn; [|done].
    intros ->. by apply scan_session_nas in Hk. }
  all: destruct (scan_fallback s event) as [key|]; cbn; [intros ->; by destruct (Hsf _ eq_refl)|].
  all: intros [= <-]; split_and!; [done|done|cbn; auto].
Qed.

Lemma apply_session_state_ok s event resolve state :
  store_ok s -> store_ok (apply_session_state s event resolve state).1.
Proof.
  intros Hok. destruct (apply_session_state_spec s event resolve state Hok) as (s' & -> & Hs & _ & Hidx).
  cbn. set (r := resolve_session_key s event) in *. set (key := resolution_key r) in *.
  pose proof (store_pending_keys_ok s Hok) as Hpend0. pose proof (store_sessions_ok s Hok) as Hses0.
  set (m := merged_of _ _ _) in *. set (x := updated_session _ _ _ _ _) in *.
  assert (NoDup (merged_nas m) /\ NoDup (merged_active m)) as [Hdn Hda].
  { apply merged_of_distinct. intros y Hy. destruct (Hses0 _ _ Hy). done. }
  assert (forall f, key = Pending f ->
    merged_active m = [] /\ (forall e, merged_event m = Some e -> event_fingerprint e = f)
    /\ event_fingerprint event = f /\ (fp_acct_session_id f = None \/ fp_nas f = None)) as Hpk.
  { intros f Hf. destruct (resolve_pending s event f Hok Hf) as (Hprev & He & Hinc).
    subst m. fold r in Hprev. rewrite Hprev. cbn [omap list_omap].
    destruct (merged_of_nil state (sessions s !! key)) as [-> ->].
    destruct (sessions s !! key) as [y|] eqn:Hy; cbn; [|by split_and!].
    pose proof (Hses0 _ _ Hy) as [_ _ _ _ Hps]. rewrite Hf in Hy.
    destruct (Hpend0 _ _ Hy) as [Hfy _]. split_and!; [by apply (Hps f)| |done|done].
    intros e [= <-]. done. }
  assert (forall k y, k <> key -> sessions s' !! k = Some y -> sessions s !! k = Some y) as Hother.
  { intros k y Hk. rewrite Hs, lookup_insert_ne, lookup_delete_keys by done. by case_match. }
  assert (sessions s' !! key = Some x) as Hx by (by rewrite Hs, lookup_insert_eq).
  split; [done| |].
  - intros f y Hy. destruct (decide (Pending f = key)) as [Hf|Hf]; [|by eauto].
    rewrite Hf, Hx in Hy. injection Hy as <-.
    destruct (Hpk f (eq_sym Hf)) as (_ & Hm & He & Hinc). split; [|done].
    subst x. cbn. rewrite latest_event_fingerprint; [done|]. intros p Hp. by rewrite (Hm p Hp), He.
  - intros k y Hy. destruct (decide (k = key)) as [->|Hk]; [|by eauto].
    rewrite Hx in Hy. injection Hy as <-. by apply updated_session_ok.
Qed.

(** ** NAS resets *)

Section Reset.
Context (ids : NasIdentitySet) (state : AccountingSessionState).

Definition reset_matches (entry : AccountingSessionKey * AccountingSession) : bool :=
  session_matches_identities entry.1 entry.2 ids.
Definition reset_newly (entry : AccountingSessionKey * AccountingSession) : bool :=
  reset_matches entry && negb (is_stale (ses_state entry.2)).
Definition reset_session (key : AccountingSessionKey) (x : AccountingSession) : AccountingSession :=
  if session_matches_identities key x ids then mark_stale x state else x.

Lemma mark_fold_sets l acc :
  let m := fold_left (mark_stale_step ids state) l acc in
  marked_count m = (marked_count acc + length (List.filter reset_matches l))%nat
  /\ all_stale m = list_to_set (map fst (List.filter reset_matches l)) ∪ all_stale acc
  /\ newly_stale m = list_to_set (map fst (List.filter reset_newly l)) ∪ newly_stale acc.
Proof.
  revert acc. induction l as [|[key x] l IH]; intros acc; cbn [fold_left].
  { cbn. split_and!; [lia|set_solver|set_solver]. }
  destruct (IH (mark_stale_step ids state acc (key, x))) as (-> & -> & ->).
  cbn [List.filter]. unfold mark_stale_step.
  change (reset_newly (key, x))
    with (session_matches_identities key x ids && negb (is_stale (ses_state x))).
  change (reset_matches (key, x)) with (session_matches_identities key x ids).
  destruct (session_matches_identities key x ids); cbn; [|done].
  destruct (is_stale (ses_state x)); cbn; (split_and!; [lia|set_solver|set_solver]).
Qed.

Lemma mark_fold_sessions l acc :
  NoDup (map fst l) ->
  let m := fold_left (mark_stale_step ids state) l acc in
  (forall key, key ∉ map fst l -> marked_sessions m !! key = marked_sessions acc !! key)
  /\ (forall key x, (key, x) ∈ l -> marked_sessions acc !! key = Some x ->
        marked_sessions m !! key = Some (reset_session key x)).
Proof.
  revert acc. induction l as [|[k y] l IH]; intros acc Hnd; cbn [fold_left]; cbv zeta.
  { split; [done|]. intros key x []%elem_of_nil. }
  cbn in Hnd. apply NoDup_cons in Hnd as [Hk Hnd].
  destruct (IH (mark_stale_step ids state acc (k, y)) Hnd) as [IH1 IH2].
  assert (forall key, key <> k -> marked_sessions (mark_stale_step ids state acc (k, y)) !! key =
                              marked_sessions acc !! key) as Hstep.
  { intros key Hne. unfold mark_stale_step. case_match; [done|]. cbn. by rewrite lookup_insert_ne. }
  split.
  - intros key Hkey. cbn in Hkey. rewrite IH1 by set_solver. apply Hstep. set_solver.
  - intros key x Hin Hacc. apply elem_of_cons in Hin as [[= -> ->]|Hin].
    + rewrite IH1 by done. unfold mark_stale_step, reset_session.
      destruct (session_matches_identities k y ids); cbn; [by rewrite lookup_insert_eq|done].
    + apply IH2; [done|]. rewrite Hstep; [done|]. intros ->. apply Hk.
      apply list_elem_of_fmap. by exists (k, x).
Qed.

End Reset.

Lemma elem_of_filter_fst s (p : AccountingSessionKey * AccountingSession -> bool) key :
  key ∈ map fst (List.filter p (map_to_list (sessions s))) <->
  exists x, sessions s !! key = Some x /\ p (key, x) = true.
Proof.
  rewrite list_elem_of_In, in_map_iff. split.
  - intros ([k x] & <- & [Hin Hp]%filter_In). exists x. split; [|done].
    by apply elem_of_map_to_list, list_elem_of_In.
  - intros (x & Hx & Hp). exists (key, x). split; [done|]. apply filter_In. split; [|done].
    by apply list_elem_of_In, elem_of_map_to_list.
Qed.

Lemma NoDup_filter_fst {A B} (p : A * B -> bool) l : NoDup (map fst l) -> NoDup (map fst (List.filter p l)).
Proof.
  induction l as [|[k x] l IH]; cbn; [done|]. intros [Hk Hnd]%NoDup_cons.
  case_match; cbn; [|by apply IH]. apply NoDup_cons. split; [|by apply IH].
  rewrite list_elem_of_In, in_map_iff in Hk |- *. intros (y & <- & [Hy _]%filter_In). naive_solver.
Qed.

Lemma mark_nas_sessions_stale_spec s event reset nas :
  primary (NasIdentitySet_from_event event) = Some nas ->
  let ids := NasIdentitySet_from_event event in
  exists s' count newly stale,
    mark_nas_sessions_stale s event reset = (s', NasSessionsMarkedStale nas reset count newly stale)
    /\ (forall key, sessions s' !! key = reset_session ids (State_Stale reset) key <$> sessions s !! key)
    /\ (forall key, key ∈ stale <->
          exists x, sessions s !! key = Some x /\ session_matches_identities key x ids = true)
    /\ (forall key, key ∈ newly <->
          exists x, sessions s !! key = Some x /\ session_matches_identities key x ids = true
                    /\ is_stale (ses_state x) = false)
    /\ count = size stale
    /\ s' = set_sessions (sessions s') s.
Proof.
  intros Hnas ids. unfold mark_nas_sessions_stale. rewrite Hnas. fold ids.
  set (acc := mkStaleMarks (sessions s) 0 ∅ ∅). set (l := map_to_list (sessions s)).
  pose proof (NoDup_fst_map_to_list (sessions s)) as Hnd. change (NoDup (map fst l)) in Hnd.
  destruct (mark_fold_sets ids (State_Stale reset) l acc) as (Hc & Ha & Hn).
  destruct (mark_fold_sessions ids (State_Stale reset) l acc Hnd) as [H1 H2].
  eexists _, _, _, _. split; [reflexivity|]. rewrite Hc, Ha, Hn. cbn. subst l. split_and!.
  - intros key. destruct (sessions s !! key) as [x|] eqn:Hx; cbn.
    + apply H2; [by apply elem_of_map_to_list|done].
    + rewrite H1; [done|]. intros ([k y] & -> & Hy%elem_of_map_to_list)%list_elem_of_fmap.
      cbn in Hx. by rewrite Hx in Hy.
  - intros key. rewrite elem_of_union, elem_of_list_to_set, elem_of_filter_fst. set_solver.
  - intros key. rewrite elem_of_union, elem_of_list_to_set, elem_of_filter_fst.
    unfold reset_newly. setoid_rewrite andb_true_iff. setoid_rewrite negb_true_iff. set_solver.
  - rewrite union_empty_r_L, size_list_to_set by by apply NoDup_filter_fst. by rewrite length_map.
  - done.
Qed.

Lemma reset_session_event ids state key x : latest_event (reset_session ids state key x) = latest_event x.
Proof. unfold reset_session. by case_match. Qed.

Lemma reset_session_active_ids ids state key x :
  active_dynamic_circuit_ids (reset_session ids state key x) = active_dynamic_circuit_ids x.
Proof. unfold reset_session. by case_match. Qed.

Lemma reset_session_ok ids reset key x :
  session_ok key x -> session_ok key (reset_session ids (State_Stale reset) key x).
Proof.
  intros Hx. unfold reset_session. case_match; [|done]. destruct Hx as [_ _ Hn Ha Hp].
  split; cbn; [done|done|done|done|]. intros f Hf. by destruct (Hp f Hf).
Qed.

Lemma mark_nas_sessions_stale_ok s event reset :
  store_ok s -> store_ok (mark_nas_sessions_stale s event reset).1.
Proof.
  intros Hok. destruct (primary (NasIdentitySet_from_event event)) as [nas|] eqn:Hnas.
  - destruct (mark_nas_sessions_stale_spec s event reset nas Hnas)
      as (s' & count & newly & stale & -> & Hs & _ & _ & _ & Hset). cbn.
    destruct Hok as [Hidx Hpend Hses]. split.
    + apply (indexes_ok_ext s _ (sessions s)); [by rewrite Hset..| |done].
      intros key. rewrite Hs. destruct (sessions s !! key); cbn; [|done].
      by rewrite reset_session_event.
    + intros f x. rewrite Hs. intros (y & Hy & ->)%fmap_Some. rewrite reset_session_event. by apply Hpend.
    + intros key x. rewrite Hs. intros (y & Hy & ->)%fmap_Some. by apply reset_session_ok, Hses.
  - unfold mark_nas_sessions_stale. by rewrite Hnas.
Qed.

Lemma apply_event_ok s event resolve :
  store_ok s -> store_ok (apply_event_with_resolution_resolver s event resolve).1.
Proof.
  intros Hok. unfold apply_event_with_resolution_resolver, upsert_active_session, stop_session.
  repeat case_match; auto using apply_session_state_ok, mark_nas_sessions_stale_ok.
Qed.

Lemma store_ok_new : store_ok AccountingSessionStore_new.
Proof.
  split; [split; apply coherent_empty| |]; unfold pending_keys_ok; cbn;
    intros ? ?; by rewrite lookup_empty.
Qed.

(** ** Circuits held by the store *)

Definition held (s : AccountingSessionStore) (id : rstring) : Prop :=
  exists key x, sessions s !! key = Some x /\ id ∈ active_dynamic_circuit_ids x.

(** Applying an event neither drops nor invents a held circuit. *)
Lemma apply_session_state_held s event resolve state id :
  store_ok s ->
  held (apply_session_state s event resolve state).1 id <-> held s id.
Proof.
  intros Hok. destruct (resolve_previous_keys s event Hok) as (_ & Hkey & Hprev).
  destruct (apply_session_state_spec s event resolve state Hok) as (s' & -> & Hs & _). cbn [fst].
  set (r := resolve_session_key s event) in *. unfold held. setoid_rewrite Hs. split.
  - intros (key & x & Hx & Hid). destruct (decide (key = resolution_key r)) as [->|Hne].
    + rewrite lookup_insert_eq in Hx. injection Hx as <-. cbn in Hid.
      apply elem_of_merged_active in Hid as [Hid|(p & Hp & Hid)].
      * destruct (sessions s !! resolution_key r) as [y|] eqn:Hy; cbn in Hid; [by eauto|set_solver].
      * apply list_elem_of_omap in Hp as (k & _ & Hk). by eauto.
    + rewrite lookup_insert_ne, lookup_delete_keys in Hx by done. case_match; [done|]. by eauto.
  - intros (key & x & Hx & Hid).
    destruct (decide (key = resolution_key r \/ key ∈ previous_keys r)) as [Hin|Hout].
    + exists (resolution_key r). eexists. split; [apply lookup_insert_eq|]. cbn.
      apply elem_of_merged_active. destruct Hin as [->|Hin]; [left; by rewrite Hx|right].
      exists x. split; [|done]. apply list_elem_of_omap. by exists key.
    + exists key, x. split; [|done]. rewrite lookup_insert_ne by naive_solver.
      rewrite lookup_delete_keys, bool_decide_false by naive_solver. done.
Qed.

Lemma mark_nas_sessions_stale_held s event reset id :
  held (mark_nas_sessions_stale s event reset).1 id <-> held s id.
Proof.
  destruct (primary (NasIdentitySet_from_event event)) as [nas|] eqn:Hnas.
  - destruct (mark_nas_sessions_stale_spec s event reset nas Hnas)
      as (s' & count & newly & stale & -> & Hs & _). cbn. unfold held. setoid_rewrite Hs. split.
    + intros (key & x & (y & Hy & ->)%fmap_Some & Hid). rewrite reset_session_active_ids in Hid. by eauto.
    + intros (key & x & Hx & Hid). exists key. eexists. rewrite Hx. split; [done|].
      by rewrite reset_session_active_ids.
  - unfold mark_nas_sessions_stale. by rewrite Hnas.
Qed.

Lemma apply_event_held s event resolve id :
  store_ok s ->
  held (apply_event_with_resolution_resolver s event resolve).1 id <-> held s id.
Proof.
  intros Hok. unfold apply_event_with_resolution_resolver, upsert_active_session, stop_session.
  repeat case_match; auto using apply_session_state_held, mark_nas_sessions_stale_held.
Qed.

Lemma apply_event_counters s event resolve :
  store_ok s ->
  activation_counters (apply_event_with_resolution_resolver s event resolve).1 = activation_counters s.
Proof.
  intros Hok. unfold apply_event_with_resolution_resolver, upsert_active_session, stop_session.
  assert (forall state, activation_counters (apply_session_state s event resolve state).1 =
                        activation_counters s) as Happly.
  { intros state. by destruct (apply_session_state_spec s event resolve state Hok) as (s' & -> & _ & Hc & _). }
  repeat case_match; try done; try apply Happly; unfold mark_nas_sessions_stale; by case_match.
Qed.
