(* ===== verification/SessionCommandsSpec.v ===== *)
(** * Dynamic-circuit commands: the sink contract

    Every emission is the fold of a list of intents that does not depend on the sink; the counters
    count those intents; and over any run of the store the emitted intents form a ledger in which no
    circuit is leaked, updated or removed without having been created. *)

From S2P Require Import Prelude RustStd AccountingEvent ShapedDevice MacMatch.
From S2P Require Import SessionTypes SessionMetadata SessionStore SessionCommands.
From S2P Require Import SessionMetadataSpec SessionIndex SessionStoreSpec.

(** The sink that records what it receives. *)
#[export] Instance trace_sink : DynamicCircuitCommandSink (list DynamicCircuitIntent) :=
  fun trace intent => trace ++ [intent].

Definition emit_all {S} `{DynamicCircuitCommandSink S} (sink : S) (intents : list DynamicCircuitIntent)
    : S := fold_left emit intents sink.

Lemma emit_all_trace tr intents : emit_all tr intents = tr ++ intents.
Proof.
  unfold emit_all. revert tr. induction intents as [|i intents IH]; intros tr; cbn.
  - by rewrite app_nil_r.
  - rewrite IH. unfold emit, trace_sink. by rewrite <- app_assoc.
Qed.

Lemma emit_all_app {S} `{DynamicCircuitCommandSink S} (sink : S) a b :
  emit_all sink (a ++ b) = emit_all (emit_all sink a) b.
Proof. apply fold_left_app. Qed.

(** The counters count intents. *)
Definition count_intent (c : RadiusActivationCounters) (i : DynamicCircuitIntent)
    : RadiusActivationCounters :=
  match i with
  | CreateDynamicCircuit _ => count_create c
  | UpdateDynamicCircuit _ => count_update c
  | RemoveDynamicCircuit _ => count_remove c
  end.
Definition count_all (c : RadiusActivationCounters) (intents : list DynamicCircuitIntent)
    : RadiusActivationCounters := fold_left count_intent intents c.

Lemma count_all_app c a b : count_all c (a ++ b) = count_all (count_all c a) b.
Proof. apply fold_left_app. Qed.

(** ** What one session emits *)

Definition removals (key : AccountingSessionKey) (reason : DynamicCircuitRemovalReason)
    (ids : list rstring) : list DynamicCircuitIntent :=
  map (fun id => RemoveDynamicCircuit (mkDynamicCircuitRemoval id key reason)) ids.

Definition upsert_intents (already_emitted : bool) (status : option AcctStatusType)
    (upsert : DynamicCircuitUpsert) : list DynamicCircuitIntent :=
  match already_emitted, status with
  | true, Some Status_InterimUpdate => [UpdateDynamicCircuit upsert]
  | _, Some (Status_Start | Status_InterimUpdate) => [CreateDynamicCircuit upsert]
  | _, _ => []
  end.

(** The circuit an active session is shaped as. *)
Definition shaped_circuit (x : AccountingSession) : option ShapedDevice :=
  option_filter (fun d => negb (is_blank (circuit_id d))) (ses_resolved_shaped_device x).

Definition active_intents (key : AccountingSessionKey) (x : AccountingSession)
    : list DynamicCircuitIntent :=
  match shaped_circuit x with
  | None => removals key Removal_NoLongerShapeable (active_dynamic_circuit_ids x)
  | Some d =>
      let id := circuit_id d in
      upsert_intents (bool_decide (id ∈ active_dynamic_circuit_ids x))
        (ev_status_type (latest_event x)) (mkDynamicCircuitUpsert id key (latest_event x) d)
      ++ removals key Removal_Rekeyed
           (List.filter (fun i => negb (bool_decide (i = id))) (active_dynamic_circuit_ids x))
  end.

(** The session afterwards: it holds exactly its shaped circuit. *)
Definition after_active (x : AccountingSession) : AccountingSession :=
  match shaped_circuit x with
  | None => set_active_ids [] x
  | Some d =>
      set_active_ids [circuit_id d]
        (set_diagnostic_ids (push_unique_text (diagnostic_ids x) (circuit_id d)) x)
  end.

Lemma existsb_elem_of (ids : list rstring) id :
  existsb (fun i => bool_decide (i = id)) ids = bool_decide (id ∈ ids).
Proof.
  induction ids as [|i ids IH]; cbn; [by rewrite bool_decide_false by apply not_elem_of_nil|].
  rewrite IH. destruct (decide (i = id)) as [->|Hne].
  - rewrite bool_decide_true by done. cbn. by rewrite bool_decide_true by left.
  - rewrite bool_decide_false by done. cbn. apply bool_decide_ext. set_solver.
Qed.

Section Emission.
Context {S : Type} `{Sink : !DynamicCircuitCommandSink S}.

Lemma emit_removals_spec key reason ids (c : RadiusActivationCounters) (sink : S) :
  emit_removals key reason ids (c, sink) =
  (count_all c (removals key reason ids), emit_all sink (removals key reason ids)).
Proof. revert c sink. induction ids as [|id ids IH]; intros c sink; cbn; [done|]. apply IH. Qed.

Lemma emit_active_removals_spec key x reason c (sink : S) :
  let intents := removals key reason (active_dynamic_circuit_ids x) in
  emit_active_dynamic_circuit_removals key x reason c sink =
  (set_active_ids [] x, count_all c intents, emit_all sink intents).
Proof. unfold emit_active_dynamic_circuit_removals. by rewrite emit_removals_spec. Qed.

Lemma rekeyed_loop_spec key current ids kept c (sink : S) :
  let others := List.filter (fun i => negb (bool_decide (i = current))) ids in
  rekeyed_loop key current ids kept c sink =
  (push_all_unique kept (List.filter (fun i => bool_decide (i = current)) ids),
   count_all c (removals key Removal_Rekeyed others),
   emit_all sink (removals key Removal_Rekeyed others)).
Proof.
  revert kept c sink. induction ids as [|id ids IH]; intros kept c sink; cbn; [done|].
  case_bool_decide; cbn; apply IH.
Qed.

Lemma emit_upsert_spec already status upsert c (sink : S) :
  emit_upsert already status upsert c sink =
  (count_all c (upsert_intents already status upsert),
   emit_all sink (upsert_intents already status upsert)).
Proof. by destruct already, status as [[]|]. Qed.

Lemma filter_push_current (ids : list rstring) id :
  NoDup ids ->
  push_all_unique [] (List.filter (fun i => bool_decide (i = id)) (push_unique ids id)) = [id]
  /\ List.filter (fun i => negb (bool_decide (i = id))) (push_unique ids id) =
     List.filter (fun i => negb (bool_decide (i = id))) ids.
Proof.
  intros Hnd.
  assert (forall l : list rstring, id ∉ l -> List.filter (fun i => bool_decide (i = id)) l = []) as Hno.
  { intros l. induction l as [|i l IH]; cbn; [done|]. intros Hi.
    rewrite bool_decide_false by set_solver. apply IH. set_solver. }
  assert (id ∈ ids -> List.filter (fun i => bool_decide (i = id)) ids = [id]) as Hyes.
  { induction Hnd as [|i l Hi Hnd IH]; [set_solver|]. cbn. intros [->|Hin]%elem_of_cons.
    - rewrite bool_decide_true by done. by rewrite Hno.
    - rewrite bool_decide_false by (intros ->; done). by apply IH. }
  unfold push_unique. case_bool_decide as Hin; [by rewrite Hyes|].
  rewrite !List.filter_app, Hno by done. cbn. rewrite bool_decide_true by done. cbn.
  split; [done|apply app_nil_r].
Qed.

(** An active session emits [active_intents] and then holds exactly its shaped circuit. *)
Lemma active_session_intents_spec key x c (sink : S) :
  NoDup (active_dynamic_circuit_ids x) ->
  active_session_intents key x c sink =
  (after_active x, count_all c (active_intents key x), emit_all sink (active_intents key x)).
Proof.
  intros Hnd. unfold active_session_intents, active_intents, after_active, shaped_circuit.
  destruct (ses_resolved_shaped_device x) as [d|] eqn:Hd; cbn [option_filter];
    [destruct (is_blank (circuit_id d)); cbn [negb]|];
    try (by rewrite emit_active_removals_spec).
  rewrite existsb_elem_of, emit_upsert_spec. cbv zeta.
  unfold emit_rekeyed_dynamic_circuit_removals, push_active_dynamic_circuit_id. cbn.
  rewrite rekeyed_loop_spec. destruct (filter_push_current _ (circuit_id d) Hnd) as [-> ->].
  by rewrite count_all_app, emit_all_app.
Qed.

End Emission.

(** ** What an update emits *)

(** The session, and the intents, an update leads to. *)
Definition session_outcome (key : AccountingSessionKey) (state : AccountingSessionState)
    (x : AccountingSession) : AccountingSession * list DynamicCircuitIntent :=
  match state with
  | State_Active => (after_active x, active_intents key x)
  | State_Stopped =>
      (set_active_ids [] x, removals key Removal_Stop (active_dynamic_circuit_ids x))
  | State_Stale _ => (x, [])
  end.

Definition update_intents (s : AccountingSessionStore) (update : AccountingSessionUpdate)
    : list DynamicCircuitIntent :=
  match update with
  | SessionUpdated key state =>
      from_option (fun x => (session_outcome key state x).2) [] (sessions s !! key)
  | _ => []
  end.

Definition after_update (s : AccountingSessionStore) (update : AccountingSessionUpdate)
    : AccountingSessionStore :=
  match update with
  | SessionUpdated key state =>
      match sessions s !! key with
      | Some x =>
          set_counters (count_all (activation_counters s) (session_outcome key state x).2)
            (set_sessions (<[key := (session_outcome key state x).1]> (sessions s)) s)
      | None => s
      end
  | _ => s
  end.

Lemma set_same_session s key x :
  sessions s !! key = Some x ->
  set_counters (activation_counters s) (set_sessions (<[key := x]> (sessions s)) s) = s.
Proof. intros Hx. rewrite insert_id by done. by destruct s. Qed.

Lemma emit_dynamic_circuit_intents_spec {S} `{DynamicCircuitCommandSink S} s update (sink : S) :
  store_ok s ->
  emit_dynamic_circuit_intents s update sink =
  (after_update s update, emit_all sink (update_intents s update)).
Proof.
  intros Hok. destruct update as [key state| |]; [|done|done]. cbn.
  destruct (sessions s !! key) as [x|] eqn:Hx.
  - pose proof (active_ids_distinct _ _ (store_sessions_ok s Hok key x Hx)) as Hnd.
    destruct state; cbn -[active_session_intents emit_active_dynamic_circuit_removals].
    + unfold emit_active_session_intents. rewrite Hx, active_session_intents_spec by done. done.
    + by rewrite Hx, emit_active_removals_spec.
    + by rewrite set_same_session.
  - destruct state; cbn; unfold emit_active_session_intents; by rewrite ?Hx.
Qed.

Lemma and_commands_spec {S} `{DynamicCircuitCommandSink S} s update (sink : S) :
  store_ok s ->
  and_commands (s, update) sink =
  (after_update s update, update, emit_all sink (update_intents s update)).
Proof. intros Hok. unfold and_commands. by rewrite emit_dynamic_circuit_intents_spec. Qed.

(** What changes in a session when its intents are emitted. *)
Lemma session_outcome_frame key state x :
  let x' := (session_outcome key state x).1 in
  ses_state x' = ses_state x /\ latest_event x' = latest_event x
  /\ known_nas_identities x' = known_nas_identities x /\ resolved_rate x' = resolved_rate x
  /\ ses_resolved_shaped_device x' = ses_resolved_shaped_device x
  /\ ses_pending_reasons x' = ses_pending_reasons x.
Proof. destruct state; cbn; [unfold after_active; destruct (shaped_circuit x)|..]; done. Qed.

Lemma session_outcome_ok key state x :
  session_ok key x -> session_ok key (session_outcome key state x).1.
Proof.
  intros [H1 H2 H3 H4 H5].
  destruct (session_outcome_frame key state x) as (Es & _ & En & Er & Ed & Ep).
  split; rewrite ?Es, ?En, ?Er, ?Ed, ?Ep; [done|done|done| |].
  - destruct state; cbn; [|constructor|done]. unfold after_active.
    destruct (shaped_circuit x); cbn; [apply NoDup_singleton|constructor].
  - intros f Hf. destruct (H5 f Hf) as [Hd Ha]. split; [done|].
    destruct state; cbn; [|done|done]. unfold after_active, shaped_circuit. by rewrite Hd.
Qed.

Lemma after_update_ok s update : store_ok s -> store_ok (after_update s update).
Proof.
  intros Hok. destruct update as [key state| |]; [|done|done]. cbn.
  destruct (sessions s !! key) as [x|] eqn:Hx; [|done].
  destruct Hok as [Hidx Hpend Hses].
  destruct (session_outcome_frame key state x) as (_ & Hev & _).
  split; cbn.
  - apply (indexes_ok_ext s _ (sessions s)); try done. intros k.
    destruct (decide (k = key)) as [->|Hne]; [|by rewrite lookup_insert_ne].
    rewrite lookup_insert_eq, Hx. cbn. by rewrite Hev.
  - intros f y. destruct (decide (Pending f = key)) as [<-|Hne]; [|rewrite lookup_insert_ne by done; apply Hpend].
    rewrite lookup_insert_eq. intros [= <-]. rewrite Hev. by apply Hpend.
  - intros k y. destruct (decide (k = key)) as [->|Hne]; [|rewrite lookup_insert_ne by done; apply Hses].
    rewrite lookup_insert_eq. intros [= <-]. by apply session_outcome_ok, Hses.
Qed.

(** ** Expiry *)

Definition expiry_reason (x : AccountingSession) : DynamicCircuitRemovalReason :=
  match ses_state x with State_Stale reset => Removal_NasReset reset | _ => Removal_Expired end.

Definition expiry_intents (s : AccountingSessionStore) (key : AccountingSessionKey)
    : list DynamicCircuitIntent :=
  from_option (fun x => removals key (expiry_reason x) (active_dynamic_circuit_ids x)) []
    (sessions s !! key).

Lemma expire_session_spec s key :
  store_ok s ->
  exists s',
    (forall (S : Type) (Sink : DynamicCircuitCommandSink S) (sink : S),
       expire_session_with_commands s key sink =
       (s', set_active_ids [] <$> sessions s !! key, emit_all sink (expiry_intents s key)))
    /\ sessions s' = delete key (sessions s) /\ indexes_ok s' (sessions s')
    /\ activation_counters s' =
       (if bool_decide (is_Some (sessions s !! key))
        then count_all (count_expiry (activation_counters s)) (expiry_intents s key)
        else activation_counters s).
Proof.
  intros Hok. unfold expire_session_with_commands, expiry_intents.
  pose proof (remove_session_spec s key (store_indexes_ok s Hok)) as Hr.
  destruct (remove_session s key) as [s1 removed]. destruct Hr as (Hs1 & -> & Hc & Hidx).
  destruct (sessions s !! key) as [x|]; cbn.
  - eexists. split.
    { intros S Sink sink. by rewrite emit_active_removals_spec. }
    cbn. rewrite Hc. split_and!; [done| |done].
    by apply (indexes_ok_ext s1 _ (sessions s1)).
  - exists s1. by split_and!.
Qed.

(** ** Runs of the store *)

(** A store, the intents emitted so far and the number of sessions expired.  Every public operation
    that changes the store is one of the steps, with its resolver. *)
Inductive reachable : AccountingSessionStore -> list DynamicCircuitIntent -> nat -> Prop :=
| reachable_new : reachable AccountingSessionStore_new [] 0
| reachable_apply s tr n event resolve :
    reachable s tr n ->
    reachable (apply_event_with_resolution_resolver s event resolve).1 tr n
| reachable_commands s tr n event resolve s' update tr' :
    reachable s tr n ->
    and_commands (apply_event_with_resolution_resolver s event resolve) tr = (s', update, tr') ->
    reachable s' tr' n
| reachable_expire s tr n key s' removed tr' :
    reachable s tr n ->
    expire_session_with_commands s key tr = (s', removed, tr') ->
    reachable s' tr' (n + length (option_list removed)).

Lemma expire_ok s key {S} `{DynamicCircuitCommandSink S} (sink : S) s' removed sink' :
  store_ok s -> expire_session_with_commands s key sink = (s', removed, sink') -> store_ok s'.
Proof.
  intros Hok. destruct (expire_session_spec s key Hok) as (s1 & Heq & Hs & Hidx & _).
  rewrite Heq. intros [= <- _ _]. destruct Hok as [_ Hpend Hses].
  split; [done|intros f x|intros k x]; rewrite Hs; intros [_ Hx]%lookup_delete_Some;
    [by apply Hpend|by apply Hses].
Qed.

Lemma reachable_ok s tr n : reachable s tr n -> store_ok s.
Proof.
  induction 1 as [|s tr n event resolve _ IH|s tr n event resolve s' update tr' _ IH Hc
    |s tr n key s' removed tr' _ IH He].
  - apply store_ok_new.
  - by apply apply_event_ok.
  - pose proof (apply_event_ok s event resolve IH) as Hok.
    destruct (apply_event_with_resolution_resolver s event resolve) as [s1 u].
    rewrite and_commands_spec in Hc by done. injection Hc as <- <- <-. by apply after_update_ok.
  - by eapply expire_ok.
Qed.

(** ** The ledger of intents *)

(** Whether the last intent about a circuit is a create or an update. *)
Definition circuit_open (tr : list DynamicCircuitIntent) (id : rstring) : bool :=
  fold_left (fun o i =>
      if bool_decide (intent_circuit_id i = id)
      then match i with RemoveDynamicCircuit _ => false | _ => true end
      else o) tr false.

Definition created (tr : list DynamicCircuitIntent) (id : rstring) : Prop :=
  exists upsert, CreateDynamicCircuit upsert ∈ tr /\ upsert_circuit_id upsert = id.

(** Every update or removal comes after a create of the same circuit. *)
Definition ledger_ok (tr : list DynamicCircuitIntent) : Prop :=
  forall before i after, tr = before ++ i :: after -> created (before ++ [i]) (intent_circuit_id i).

Record ledger (s : AccountingSessionStore) (tr : list DynamicCircuitIntent) : Prop := {
  open_held : forall id, circuit_open tr id = true -> held s id;
  held_created : forall id, held s id -> created tr id;
  ledger_order : ledger_ok tr
}.

Lemma circuit_open_app tr tr' id :
  circuit_open (tr ++ tr') id =
  fold_left (fun o i =>
      if bool_decide (intent_circuit_id i = id)
      then match i with RemoveDynamicCircuit _ => false | _ => true end
      else o) tr' (circuit_open tr id).
Proof. apply fold_left_app. Qed.

Lemma circuit_open_removals tr key reason ids id :
  circuit_open (tr ++ removals key reason ids) id =
  if bool_decide (id ∈ ids) then false else circuit_open tr id.
Proof.
  rewrite circuit_open_app. generalize (circuit_open tr id) as o.
  induction ids as [|i ids IH]; intros o; cbn.
  { by rewrite bool_decide_false by apply not_elem_of_nil. }
  rewrite IH. destruct (decide (i = id)) as [->|Hne].
  - rewrite (bool_decide_true (id = id)), (bool_decide_true (id ∈ id :: ids)) by (done || left).
    by case_match.
  - rewrite (bool_decide_false (i = id)) by done.
    by rewrite (bool_decide_ext (id ∈ i :: ids) (id ∈ ids)) by set_solver.
Qed.

Lemma created_app tr tr' id : created (tr ++ tr') id <-> created tr id \/ created tr' id.
Proof. unfold created. setoid_rewrite elem_of_app. naive_solver. Qed.

Lemma ledger_ok_snoc tr i :
  ledger_ok tr -> created (tr ++ [i]) (intent_circuit_id i) -> ledger_ok (tr ++ [i]).
Proof.
  intros Hok Hi before j after Heq.
  destruct after as [|k after] using rev_ind.
  - apply app_inj_tail in Heq as [-> ->]. done.
  - rewrite app_comm_cons, app_assoc in Heq. apply app_inj_tail in Heq as [-> ->]. by eapply Hok.
Qed.

Lemma ledger_ok_removals tr key reason ids :
  ledger_ok tr -> (forall id, id ∈ ids -> created tr id) -> ledger_ok (tr ++ removals key reason ids).
Proof.
  intros Hok Hids. induction ids as [|id ids IH] using rev_ind; cbn; [by rewrite app_nil_r|].
  unfold removals in *. rewrite map_app, app_assoc. apply ledger_ok_snoc.
  - apply IH. set_solver.
  - cbn. rewrite !created_app. left; left. apply Hids. set_solver.
Qed.

Lemma created_removals key reason ids id : ~ created (removals key reason ids) id.
Proof. unfold created, removals. intros (u & (i & ? & _)%list_elem_of_fmap & _). done. Qed.

(** One session changes from [ox] to [ox'] while [new] is emitted. *)
Lemma ledger_step s s' key ox' tr new :
  ledger s tr ->
  sessions s' !! key = ox' ->
  (forall k, k <> key -> sessions s' !! k = sessions s !! k) ->
  (forall id, circuit_open (tr ++ new) id = true ->
     id ∈ active_ids_of ox'
     \/ (circuit_open tr id = true /\ id ∉ active_ids_of (sessions s !! key))) ->
  (forall id, id ∈ active_ids_of ox' -> created (tr ++ new) id) ->
  ledger_ok (tr ++ new) ->
  ledger s' (tr ++ new).
Proof.
  intros [Hopen Hcreated _] <- Hother H1 H2 H3. split; [| |done].
  - intros id Hid. destruct (H1 id Hid) as [Hin|[Ho Hnot]].
    + destruct (sessions s' !! key) as [x|] eqn:Hx; cbn in Hin; [by exists key, x|set_solver].
    + destruct (Hopen id Ho) as (k & y & Hy & Hin). destruct (decide (k = key)) as [->|Hk].
      * by rewrite Hy in Hnot.
      * exists k, y. by rewrite Hother.
  - intros id (k & y & Hy & Hin). destruct (decide (k = key)) as [->|Hk].
    + apply H2. by rewrite Hy.
    + rewrite Hother in Hy by done. apply created_app. left. apply Hcreated. by exists k, y.
Qed.

Lemma active_ids_created s tr key :
  ledger s tr -> forall id, id ∈ active_ids_of (sessions s !! key) -> created tr id.
Proof.
  intros [_ Hc _] id Hid. destruct (sessions s !! key) as [x|] eqn:Hx; cbn in Hid; [|set_solver].
  apply Hc. by exists key, x.
Qed.

(** Removing every circuit of a session. *)
Lemma ledger_remove_all s s' key reason ox' tr :
  ledger s tr -> sessions s' !! key = ox' -> active_ids_of ox' = [] ->
  (forall k, k <> key -> sessions s' !! k = sessions s !! k) ->
  ledger s' (tr ++ removals key reason (active_ids_of (sessions s !! key))).
Proof.
  intros Hl Hkey Hnil Hother. eapply ledger_step; [done..| | |].
  - intros id. rewrite circuit_open_removals. case_bool_decide; naive_solver.
  - rewrite Hnil. set_solver.
  - apply ledger_ok_removals; [by apply (ledger_order s)|]. by apply active_ids_created.
Qed.

(** Emitting the shaped circuit of a session and removing its other ones. *)
Lemma ledger_upsert s s' key x x' i c tr :
  ledger s tr -> sessions s !! key = Some x -> sessions s' !! key = Some x' ->
  active_dynamic_circuit_ids x' = [c] ->
  (forall k, k <> key -> sessions s' !! k = sessions s !! k) ->
  intent_circuit_id i = c ->
  (exists u, i = CreateDynamicCircuit u \/ (i = UpdateDynamicCircuit u /\ c ∈ active_dynamic_circuit_ids x)) ->
  ledger s' (tr ++ [i] ++ removals key Removal_Rekeyed
    (List.filter (fun id => negb (bool_decide (id = c))) (active_dynamic_circuit_ids x))).
Proof.
  intros Hl Hx Hx' Hids Hother Hi Hkind.
  assert (created (tr ++ [i]) c) as Hc.
  { destruct Hkind as (u & [->|[-> Hin]]); apply created_app.
    - right. exists u. split; [by left|done].
    - left. apply (active_ids_created s tr key Hl). by rewrite Hx. }
  assert (forall id, id ∈ List.filter (fun id => negb (bool_decide (id = c))) (active_dynamic_circuit_ids x)
    <-> id ∈ active_dynamic_circuit_ids x /\ id <> c) as Hfilter.
  { intros id. rewrite !list_elem_of_In, filter_In, negb_true_iff, bool_decide_eq_false. done. }
  eapply ledger_step; [done|done|done| | |].
  - intros id. rewrite app_assoc, circuit_open_removals, Hx. cbn [active_ids_of from_option]. rewrite Hids.
    case_bool_decide as Hin; [done|]. rewrite Hfilter in Hin.
    rewrite circuit_open_app. cbn. rewrite Hi. case_bool_decide as Heq; [left; set_solver|].
    intros Hopen. right. naive_solver.
  - cbn [active_ids_of from_option]. rewrite Hids. intros id ->%list_elem_of_singleton. rewrite app_assoc. apply created_app. by left.
  - rewrite app_assoc. apply ledger_ok_removals.
    + apply ledger_ok_snoc; [by apply (ledger_order s)|by rewrite Hi].
    + intros id [Hin _]%Hfilter. apply created_app. left.
      apply (active_ids_created s tr key Hl). by rewrite Hx.
Qed.

(** The statuses under which a session is active. *)
Definition active_status (status : option AcctStatusType) : Prop :=
  status = Some Status_Start \/ status = Some Status_InterimUpdate.

Lemma upsert_intents_active already status u :
  active_status status ->
  upsert_intents already status u = [CreateDynamicCircuit u]
  \/ (upsert_intents already status u = [UpdateDynamicCircuit u] /\ already = true).
Proof. intros [->| ->]; destruct already; naive_solver. Qed.

Lemma after_update_ledger s key state tr :
  ledger s tr ->
  (forall x, sessions s !! key = Some x -> state = State_Active ->
     active_status (ev_status_type (latest_event x))) ->
  ledger (after_update s (SessionUpdated key state)) (tr ++ update_intents s (SessionUpdated key state)).
Proof.
  intros Hl Hstatus. cbn. destruct (sessions s !! key) as [x|] eqn:Hx; cbn; [|by rewrite app_nil_r].
  set (s' := set_counters _ _).
  assert (sessions s' !! key = Some (session_outcome key state x).1) as Hkey
    by (by cbn; rewrite lookup_insert_eq).
  assert (forall k, k <> key -> sessions s' !! k = sessions s !! k) as Hother
    by (intros k Hk; cbn; by rewrite lookup_insert_ne).
  clearbody s'.
  destruct state as [| |reset]; cbn [session_outcome fst snd] in *.
  - specialize (Hstatus x eq_refl eq_refl). unfold active_intents, after_active in *.
    destruct (shaped_circuit x) as [d|].
    + set (u := mkDynamicCircuitUpsert _ _ _ _).
      destruct (upsert_intents_active (bool_decide (circuit_id d ∈ active_dynamic_circuit_ids x))
        _ u Hstatus) as [->|[-> Hin]].
      * eapply ledger_upsert; [done..|]. by exists u; left.
      * eapply ledger_upsert; [done..|]. exists u; right. by apply bool_decide_eq_true in Hin.
    + replace (active_dynamic_circuit_ids x) with (active_ids_of (sessions s !! key)) by by rewrite Hx.
      by eapply ledger_remove_all.
  - replace (active_dynamic_circuit_ids x) with (active_ids_of (sessions s !! key)) by by rewrite Hx.
    by eapply ledger_remove_all.
  - eapply ledger_step; [done..| | |]; rewrite app_nil_r.
    + intros id Hid. destruct (decide (id ∈ active_dynamic_circuit_ids x)); [by left|right].
      by rewrite Hx.
    + intros id Hid. apply (active_ids_created s tr key Hl). by rewrite Hx.
    + by apply (ledger_order s).
Qed.

(** Only [held] of the store matters to the ledger. *)
Lemma ledger_held s s' tr :
  (forall id, held s' id <-> held s id) -> ledger s tr -> ledger s' tr.
Proof. intros Hh [H1 H2 H3]. split; [|by setoid_rewrite Hh|done]. intros id Hid. by apply Hh, H1. Qed.

Lemma latest_status previous event state :
  ev_status_type (latest_session_event previous event state) = ev_status_type event.
Proof. unfold latest_session_event. by repeat case_match. Qed.

Lemma apply_event_active_status s event resolve s' key x :
  store_ok s ->
  apply_event_with_resolution_resolver s event resolve = (s', SessionUpdated key State_Active) ->
  sessions s' !! key = Some x -> active_status (ev_status_type (latest_event x)).
Proof.
  intros Hok. unfold apply_event_with_resolution_resolver, upsert_active_session, stop_session.
  assert (forall state, apply_session_state s event resolve state = (s', SessionUpdated key State_Active) ->
    sessions s' !! key = Some x -> ev_status_type (latest_event x) = ev_status_type event /\ state = State_Active)
    as Happly.
  { intros state. destruct (apply_session_state_spec s event resolve state Hok) as (s1 & -> & Hs & _).
    intros [= <- Hk ->]. rewrite Hs, <- Hk, lookup_insert_eq. intros [= <-]. cbn.
    by rewrite latest_status. }
  unfold active_status. destruct (ev_status_type event) as [[]|] eqn:Hst; try done.
  1, 2, 3: intros Ha Hx; destruct (Happly _ Ha Hx) as [-> Hstate]; (done || auto).
  all: unfold mark_nas_sessions_stale; by case_match.
Qed.

Lemma apply_event_not_stale s event resolve s' key reset :
  store_ok s ->
  apply_event_with_resolution_resolver s event resolve <> (s', SessionUpdated key (State_Stale reset)).
Proof.
  intros Hok. unfold apply_event_with_resolution_resolver, upsert_active_session, stop_session.
  assert (forall state, apply_session_state s event resolve state = (s', SessionUpdated key (State_Stale reset)) ->
    state = State_Stale reset) as Happly.
  { intros state. destruct (apply_session_state_spec s event resolve state Hok) as (s1 & -> & _).
    by intros [= _ _ ->]. }
  unfold mark_nas_sessions_stale. repeat case_match; try done; by intros ?%Happly.
Qed.

Lemma commands_ledger s tr event resolve s' update tr' :
  store_ok s -> ledger s tr ->
  and_commands (apply_event_with_resolution_resolver s event resolve) tr = (s', update, tr') ->
  ledger s' tr'.
Proof.
  intros Hok Hl. pose proof (apply_event_ok s event resolve Hok) as Hok1.
  pose proof (fun id => apply_event_held s event resolve id Hok) as Hheld.
  pose proof (apply_event_active_status s event resolve) as Hstatus.
  destruct (apply_event_with_resolution_resolver s event resolve) as [s1 u]. cbn [fst] in *.
  rewrite and_commands_spec, emit_all_trace by done. intros [= <- <- <-].
  apply (ledger_held s s1) in Hl; [|done].
  destruct u as [key state| |]; [|by rewrite app_nil_r..].
  apply after_update_ledger; [done|]. intros x Hx ->. by eapply Hstatus.
Qed.

Lemma expire_ledger s tr key s' removed tr' :
  store_ok s -> ledger s tr ->
  expire_session_with_commands s key tr = (s', removed, tr') -> ledger s' tr'.
Proof.
  intros Hok Hl. destruct (expire_session_spec s key Hok) as (s1 & Heq & Hs & _).
  rewrite Heq, emit_all_trace. intros [= <- _ <-].
  assert (expiry_intents s key =
    removals key (from_option expiry_reason Removal_Stop (sessions s !! key))
      (active_ids_of (sessions s !! key))) as ->.
  { unfold expiry_intents. by destruct (sessions s !! key). }
  eapply ledger_remove_all; [done|rewrite Hs; apply lookup_delete_eq|done|].
  intros k Hk. by rewrite Hs, lookup_delete_ne.
Qed.

Lemma ledger_new : ledger AccountingSessionStore_new [].
Proof.
  split; [done| |].
  - intros id (key & x & Hx & _). cbn in Hx. by rewrite lookup_empty in Hx.
  - intros before i after Heq. by destruct before.
Qed.

Lemma reachable_ledger s tr n : reachable s tr n -> ledger s tr.
Proof.
  induction 1 as [|s tr n event resolve Hr IH|s tr n event resolve s' update tr' Hr IH Hc
    |s tr n key s' removed tr' Hr IH He].
  - apply ledger_new.
  - apply (ledger_held s); [|done]. intros id. by apply apply_event_held, (reachable_ok s tr n).
  - apply reachable_ok in Hr. by eapply commands_ledger.
  - apply reachable_ok in Hr. by eapply expire_ledger.
Qed.

(** ** Counters *)

Definition is_create (i : DynamicCircuitIntent) : bool :=
  match i with CreateDynamicCircuit _ => true | _ => false end.
Definition is_update (i : DynamicCircuitIntent) : bool :=
  match i with UpdateDynamicCircuit _ => true | _ => false end.
Definition is_removal (i : DynamicCircuitIntent) : bool :=
  match i with RemoveDynamicCircuit _ => true | _ => false end.

Definition occurrences (p : DynamicCircuitIntent -> bool) (tr : list DynamicCircuitIntent) : Z :=
  Z.of_nat (length (List.filter p tr)).

(** The counters are the numbers of intents of each kind, at 64 bits. *)
Definition counters_match (c : RadiusActivationCounters) (tr : list DynamicCircuitIntent) (n : nat)
    : Prop :=
  c = mkRadiusActivationCounters (occurrences is_create tr mod 2 ^ 64)
        (occurrences is_update tr mod 2 ^ 64) (occurrences is_removal tr mod 2 ^ 64)
        (Z.of_nat n mod 2 ^ 64).

Lemma occurrences_snoc p tr i :
  occurrences p (tr ++ [i]) = occurrences p tr + (if p i then 1 else 0).
Proof.
  unfold occurrences. rewrite List.filter_app, length_app. cbn. destruct (p i); cbn; lia.
Qed.

Lemma u64_succ_mod x : u64_succ (x mod 2 ^ 64) = (x + 1) mod 2 ^ 64.
Proof. unfold u64_succ. apply Z.add_mod_idemp_l. lia. Qed.

Lemma counters_match_all c tr n new :
  counters_match c tr n -> counters_match (count_all c new) (tr ++ new) n.
Proof.
  intros Hc. induction new as [|i new IH] using rev_ind; [by rewrite app_nil_r|].
  rewrite count_all_app, app_assoc. unfold counters_match in *. rewrite IH.
  rewrite !occurrences_snoc. destruct i; cbn [count_all fold_left count_intent is_create is_update is_removal];
    unfold count_create, count_update, count_remove;
    cbn [counter_create counter_update counter_remove counter_expiry];
    by rewrite ?Z.add_0_r, u64_succ_mod.
Qed.

Lemma counters_match_expiry c tr n :
  counters_match c tr n -> counters_match (count_expiry c) tr (n + 1).
Proof.
  unfold counters_match. intros ->. unfold count_expiry.
  cbn [counter_create counter_update counter_remove counter_expiry].
  rewrite u64_succ_mod. do 2 f_equal. lia.
Qed.

Lemma reachable_counters s tr n :
  reachable s tr n -> counters_match (activation_counters s) tr n.
Proof.
  induction 1 as [|s tr n event resolve Hr IH|s tr n event resolve s' update tr' Hr IH Hc
    |s tr n key s' removed tr' Hr IH He].
  - done.
  - apply reachable_ok in Hr. by rewrite apply_event_counters.
  - apply reachable_ok in Hr. pose proof (apply_event_ok s event resolve Hr) as Hok1.
    pose proof (apply_event_counters s event resolve Hr) as Hcnt.
    destruct (apply_event_with_resolution_resolver s event resolve) as [s1 u]. cbn [fst] in *.
    rewrite and_commands_spec, emit_all_trace in Hc by done. injection Hc as <- <- <-.
    rewrite <- Hcnt in IH.
    destruct u as [k state| |]; cbn; rewrite ?app_nil_r; try done.
    destruct (sessions s1 !! k); cbn; rewrite ?app_nil_r; [by apply counters_match_all|done].
  - apply reachable_ok in Hr. destruct (expire_session_spec s key Hr) as (s1 & Heq & _ & _ & Hcnt).
    rewrite Heq, emit_all_trace in He. injection He as <- <- <-. rewrite Hcnt.
    unfold expiry_intents. destruct (sessions s !! key); cbn.
    + by apply counters_match_all, counters_match_expiry.
    + by rewrite app_nil_r, Nat.add_0_r.
Qed.
