(* ===== verification/SessionProperties.v ===== *)
(** * Properties of the session store over all of its runs

    The claims about [AccountingSessionStore]: the invariant, key resolution, isolation of NASes, the
    effect of every kind of event, the ledger of emitted intents, the counters and the diagnostics. *)

From S2P Require Import Prelude RustStd AccountingEvent ShapedDevice MacMatch.
From S2P Require Import SessionTypes SessionMetadata SessionStore SessionCommands.
From S2P Require Import SessionMetadataSpec SessionIndex SessionStoreSpec SessionCommandsSpec.

(** ** Sample runs *)

Definition always (r : DynamicCircuitResolution) : AccountingEvent -> DynamicCircuitResolution :=
  fun _ => r.

(** A subscriber starts, with commands. *)
Definition sample_start : AccountingEvent :=
  sample_event Status_Start (str "s-1") (str "bng-1") (str "alice").
Definition sample_run :=
  and_commands (apply_event_with_resolution_resolver AccountingSessionStore_new sample_start
    (always sample_resolution)) ([] : list DynamicCircuitIntent).
Definition sample_store : AccountingSessionStore := sample_run.1.1.
Definition sample_trace : list DynamicCircuitIntent := sample_run.2.
Definition sample_key : AccountingSessionKey := NasSession (Nas_Identifier (str "bng-1")) (str "s-1").

Lemma sample_reachable : reachable sample_store sample_trace 0.
Proof.
  apply (reachable_commands AccountingSessionStore_new [] 0 sample_start (always sample_resolution)
    sample_store sample_run.1.2 sample_trace reachable_new).
  change (sample_run = (sample_run.1.1, sample_run.1.2, sample_run.2)).
  by destruct sample_run as [[s u] tr].
Qed.

(** ** The invariant *)

(** C4: after any sequence of operations each of the three lookup indexes holds, under each index
    key, exactly the keys of the retained sessions with that entry, and no empty set; a session
    under a pending key still has the fingerprint of its key and is never shaped; an inactive session
    keeps no resolved device; an active one has a device exactly when it has no pending reason; and
    no list of circuit or NAS identities has a duplicate. *)
Theorem store_invariant s tr n :
  reachable s tr n ->
  (forall acct key, key ∈ indexed (nas_session_keys_by_acct_session_id s) acct <->
     exists nas, key = NasSession nas acct /\ is_Some (sessions s !! key))
  /\ (forall lk key, key ∈ indexed (pending_keys_by_lookup s) lk <->
     exists f x, key = Pending f /\ sessions s !! key = Some x /\ lk ∈ session_lookup_index_keys key x)
  /\ (forall lk key, key ∈ indexed (fallback_keys_by_lookup s) lk <->
     exists nas acct x, key = NasSession nas acct /\ sessions s !! key = Some x
                        /\ lk ∈ session_lookup_index_keys key x)
  /\ (forall acct, nas_session_keys_by_acct_session_id s !! acct <> Some ∅)
  /\ (forall lk, pending_keys_by_lookup s !! lk <> Some ∅)
  /\ (forall lk, fallback_keys_by_lookup s !! lk <> Some ∅)
  /\ pending_keys_ok (sessions s)
  /\ (forall key x, sessions s !! key = Some x -> session_ok key x).
Proof.
  intros [[Hn Hp Hf] Hpend Hses]%reachable_ok. split_and!; [| | |by apply Hn|by apply Hp|by apply Hf|done|done].
  - intros acct key. rewrite (coherent_elem _ _ _ Hn). setoid_rewrite elem_of_nas_entries.
    unfold is_Some. destruct key; cbn; naive_solver.
  - intros lk key. rewrite (coherent_elem _ _ _ Hp). unfold pending_entries.
    destruct key; cbn; [set_solver|]. naive_solver.
  - intros lk key. rewrite (coherent_elem _ _ _ Hf). unfold fallback_entries.
    destruct key; cbn; [|set_solver]. naive_solver.
Qed.

Lemma store_invariant_witness :
  session_ok sample_key
    (default (mark_stale (mkAccountingSession State_Stopped sample_start [] None None [] [] [])
       State_Stopped) (sessions sample_store !! sample_key))
  /\ sample_key ∈ indexed (nas_session_keys_by_acct_session_id sample_store) (str "s-1").
Proof.
  destruct (store_invariant sample_store sample_trace 0 sample_reachable)
    as (Hn & _ & _ & _ & _ & _ & _ & Hs).
  assert (is_Some (sessions sample_store !! sample_key)) as [x Hx].
  { refine (bool_decide_eq_true_1 _ _). vm_compute. reflexivity. }
  split; [rewrite Hx; exact (Hs _ _ Hx)|].
  apply Hn. exists (Nas_Identifier (str "bng-1")). split; [reflexivity|by exists x].
Defined.

(** ** Key resolution *)

(** C5: in every reachable store the session key of an event, found through the lookup indexes, is
    the one a search of all retained sessions finds; in particular it does not depend on the
    iteration order of the hash sets, and a key is reused or promoted only when it is the only
    match. *)
Theorem key_resolution_is_search s tr n event :
  reachable s tr n -> resolve_session_key s event = resolve_by_search s event.
Proof. intros [Hidx Hpend _]%reachable_ok. by apply resolve_session_key_search. Qed.

Lemma key_resolution_is_search_witness :
  resolve_session_key sample_store (sample_event Status_Stop (str "s-1") (str "bng-1") (str "alice"))
  = mkSessionKeyResolution sample_key [].
Proof.
  rewrite (key_resolution_is_search sample_store sample_trace 0 _ sample_reachable).
  vm_compute. reflexivity.
Defined.

(** ** Isolation of NASes *)

Lemma primary_contains ids nas : primary ids = Some nas -> NasIdentitySet_contains ids nas = true.
Proof.
  destruct ids as [[i|] [a|] [b|]]; cbn; intros [= <-]; by apply bool_decide_eq_true.
Qed.

Lemma key_nas_matches key x ids nas :
  key_nas key = Some nas -> primary ids = Some nas -> session_matches_identities key x ids = true.
Proof. intros Hk Hp. unfold session_matches_identities. by rewrite Hk, primary_contains. Qed.

Lemma not_empty_primary ids : NasIdentitySet_is_empty ids = false -> is_Some (primary ids).
Proof.
  unfold NasIdentitySet_is_empty, primary. destruct ids as [[]  [] []]; cbn; done.
Qed.

Lemma pending_test_isolated s f x ids e :
  sessions s !! Pending f = Some x -> NasIdentitySet_is_empty ids = false ->
  pending_key_test s (fingerprint_from_event e (primary ids)) ids (Pending f) = true ->
  session_matches_identities (Pending f) x ids = true \/ fp_nas f = None.
Proof.
  intros Hx Hids. destruct (not_empty_primary ids Hids) as [nas Hnas].
  unfold pending_key_test. rewrite Hx, Hids. cbn [negb andb].
  destruct (session_matches_identities (Pending f) x ids) eqn:Hm; [by left|]. intros Ht. right.
  unfold matches_with_nas_context in Ht. cbn [fp_nas fingerprint_from_event] in Ht. rewrite Hnas in Ht.
  destruct (fp_nas f) as [n|] eqn:Hn; [|done]. exfalso. cbn in Ht.
  case_bool_decide as Heq; [|done]. subst n.
  by rewrite (key_nas_matches (Pending f) x ids nas) in Hm.
Qed.

(** an event that names its NAS updates or absorbs only sessions of that NAS (known under the
    same identifier or address) and pending sessions with no NAS at all: whatever a NAS sends, the
    sessions of other NASes stay as they are. *)
Theorem events_stay_on_their_nas s tr n event resolve state key x :
  reachable s tr n ->
  NasIdentitySet_is_empty (NasIdentitySet_from_event event) = false ->
  sessions s !! key = Some x ->
  sessions (apply_session_state s event resolve state).1 !! key <> Some x ->
  session_matches_identities key x (NasIdentitySet_from_event event) = true
  \/ exists f, key = Pending f /\ fp_nas f = None.
Proof.
  intros Hr Hids Hx Hchanged. apply reachable_ok in Hr as Hok.
  destruct (apply_session_state_spec s event resolve state Hok) as (s' & Heq & Hs & _).
  rewrite Heq in Hchanged. cbn in Hchanged. set (r := resolve_session_key s event) in *.
  assert (key = resolution_key r \/ key ∈ previous_keys r) as Hin.
  { destruct (decide (key = resolution_key r \/ key ∈ previous_keys r)) as [|Hno]; [done|].
    destruct Hchanged. rewrite Hs, lookup_insert_ne by naive_solver.
    by rewrite lookup_delete_keys, bool_decide_false by naive_solver. }
  clear Hchanged Heq Hs. subst r. destruct Hok as [Hidx Hpend _].
  rewrite resolve_session_key_search in Hin by done. unfold resolve_by_search in Hin. cbv zeta in Hin.
  set (ids := NasIdentitySet_from_event event) in *.
  destruct (not_empty_primary ids Hids) as [nas Hnas]. rewrite Hnas in Hin.
  assert (forall acct ex, scan_session s acct ids ex = Some key ->
    session_matches_identities key x ids = true) as Hscan.
  { intros acct ex (_ & Ht & _)%the_key_Some. unfold matching_session_test in Ht. rewrite Hx in Ht. by to_prop. }
  assert (scan_pending s event = Some key -> session_matches_identities key x ids = true
    \/ exists f, key = Pending f /\ fp_nas f = None) as Hsp.
  { intros Hk. destruct (scan_pending_Pending _ _ _ Hk) as [f ->]. apply the_key_Some in Hk as (_ & Ht & _).
    apply (pending_test_isolated _ _ x) in Ht as [Hm|Hf]; naive_solver. }
  destruct (non_empty_text (ev_acct_session_id event)) as [acct|].
  - case_bool_decide; cbn in Hin.
    + destruct Hin as [->|[Hin|Hin]%elem_of_app]; [left; by eapply key_nas_matches|..].
      * apply elem_of_option_list in Hin. left. by eapply Hscan.
      * by apply elem_of_option_list, Hsp in Hin.
    + destruct Hin as [Hin|Hin%elem_of_option_list]; [|by apply Hsp].
      destruct (scan_session s acct ids None) as [k|] eqn:Hk; cbn in Hin; subst key.
      * left. by eapply Hscan.
      * left. by eapply key_nas_matches.
  - cbn in Hin. destruct Hin as [Hin|[]%elem_of_nil].
    destruct (scan_fallback s event) as [k|] eqn:Hk; cbn in Hin; subst key.
    + apply the_key_Some in Hk as (_ & Ht & _). unfold fallback_key_test in Ht.
      destruct k as [nas' acct|]; [|done]. rewrite Hx in Ht. fold ids in Ht. rewrite Hids in Ht.
      cbn in Ht. apply andb_true_iff in Ht as [Ht _]. left. by destruct (session_matches_identities _ _ _).
    + left. by eapply key_nas_matches.
Qed.

Definition sample_stop : AccountingEvent :=
  sample_event Status_Stop (str "s-1") (str "bng-1") (str "alice").

Lemma sample_session : is_Some (sessions sample_store !! sample_key).
Proof. refine (bool_decide_eq_true_1 _ _). vm_compute. reflexivity. Qed.

Lemma events_stay_on_their_nas_witness :
  exists x, sessions sample_store !! sample_key = Some x
  /\ session_matches_identities sample_key x (NasIdentitySet_from_event sample_stop) = true.
Proof.
  destruct sample_session as [x Hx]. exists x. split; [exact Hx|].
  destruct (events_stay_on_their_nas sample_store sample_trace 0 sample_stop (always sample_resolution)
    State_Stopped sample_key x sample_reachable) as [Hm|[f [Hf _]]];
    [vm_compute; reflexivity|exact Hx| |exact Hm|discriminate Hf].
  intros H. pose proof (eq_trans Hx (eq_sym H)) as Heq.
  apply (f_equal (fmap ses_state)) in Heq. vm_compute in Heq. discriminate Heq.
Defined.

(** ** The effect of events *)

Lemma elem_of_merged_nas state existing ps nas :
  nas ∈ merged_nas (merged_of state existing ps) <->
  nas ∈ from_option known_nas_identities [] existing \/ exists p, p ∈ ps /\ nas ∈ known_nas_identities p.
Proof.
  induction ps as [|p ps IH] using rev_ind.
  - destruct existing; cbn; set_solver.
  - destruct (merged_of_snoc state existing ps p) as [-> _].
    rewrite elem_of_push_all_unique, IH. setoid_rewrite elem_of_app.
    setoid_rewrite list_elem_of_singleton. naive_solver.
Qed.

Lemma latest_event_identities previous event state nas :
  nas ∈ identities (NasIdentitySet_from_event event) ->
  nas ∈ identities (NasIdentitySet_from_event (latest_session_event previous event state)).
Proof.
  unfold latest_session_event. case_match; [done|]. destruct previous as [p|]; [|done].
  unfold identities, NasIdentitySet_from_event. cbn.
  rewrite !elem_of_app, !elem_of_option_list, !fmap_Some.
  destruct (ev_nas_identifier event), (ev_nas_ip_address event), (ev_nas_ipv6_address event); cbn; naive_solver.
Qed.

(** The lifecycle state a status leads to. *)
Definition lifecycle_state (status : option AcctStatusType) : option AccountingSessionState :=
  match status with
  | Some (Status_Start | Status_InterimUpdate) => Some State_Active
  | Some Status_Stop => Some State_Stopped
  | _ => None
  end.

Lemma apply_event_lifecycle s event resolve state :
  lifecycle_state (ev_status_type event) = Some state ->
  apply_event_with_resolution_resolver s event resolve = apply_session_state s event resolve state.
Proof.
  unfold lifecycle_state, apply_event_with_resolution_resolver, upsert_active_session, stop_session.
  by repeat case_match; intros [= <-].
Qed.

(** C6: a Start, Interim-Update or Stop event leaves one session under the resolved key, in the
    state of the event; the promoted sessions are gone and every other session is untouched; the
    session holds every circuit and knows every NAS identity that it or a promoted session had, and
    the identities of the event; an active one is resolved from its merged event, a stopped one
    keeps the Stop event and no device. *)
Theorem session_event_effect s tr n event resolve state :
  reachable s tr n ->
  lifecycle_state (ev_status_type event) = Some state ->
  let r := resolve_session_key s event in
  let touched k := k = resolution_key r \/ k ∈ previous_keys r in
  exists s' x,
    apply_event_with_resolution_resolver s event resolve = (s', SessionUpdated (resolution_key r) state)
    /\ sessions s' !! resolution_key r = Some x /\ ses_state x = state
    /\ (forall k, k ∈ previous_keys r -> sessions s' !! k = None)
    /\ (forall k, ~ touched k -> sessions s' !! k = sessions s !! k)
    /\ (forall id, id ∈ active_dynamic_circuit_ids x <->
          exists k y, touched k /\ sessions s !! k = Some y /\ id ∈ active_dynamic_circuit_ids y)
    /\ (forall k y nas, touched k -> sessions s !! k = Some y ->
          nas ∈ known_nas_identities y -> nas ∈ known_nas_identities x)
    /\ (forall nas, nas ∈ identities (NasIdentitySet_from_event event) -> nas ∈ known_nas_identities x)
    /\ match state with
       | State_Active =>
           ses_resolved_shaped_device x = meta_resolved_shaped_device
             (session_dynamic_metadata (resolution_key r) (latest_event x) (resolve (latest_event x)))
       | _ => latest_event x = event /\ ses_resolved_shaped_device x = None
       end.
Proof.
  intros Hr Hstate. apply reachable_ok in Hr as Hok. cbv zeta.
  destruct (resolve_previous_keys s event Hok) as (_ & Hkey & Hprev).
  destruct (apply_session_state_spec s event resolve state Hok) as (s' & Heq & Hs & _).
  rewrite (apply_event_lifecycle _ _ _ _ Hstate), Heq. set (r := resolve_session_key s event) in *. clearbody r.
  set (x := updated_session _ _ _ _ _) in Hs. exists s', x. rewrite Hs, lookup_insert_eq.
  split_and!; try done.
  - intros k Hk. rewrite lookup_insert_ne by (intros <-; done).
    by rewrite lookup_delete_keys, bool_decide_true.
  - intros k Hk. rewrite lookup_insert_ne by naive_solver.
    by rewrite lookup_delete_keys, bool_decide_false by naive_solver.
  - intros id. cbn. rewrite elem_of_merged_active. unfold active_ids_of.
    setoid_rewrite list_elem_of_omap. split.
    + intros [Hid|(p & (k & Hk & Hp) & Hid)]; [|by exists k, p; auto].
      destruct (sessions s !! resolution_key r) as [y|] eqn:Hy; cbn in Hid; [|set_solver].
      exists (resolution_key r), y. auto.
    + intros (k & y & [->|Hk] & Hy & Hid); [left; by rewrite Hy|right; by eauto].
  - intros k y nas Ht Hy Hnas. cbn. apply elem_of_push_all_unique. left.
    apply elem_of_merged_nas. destruct Ht as [->|Hk]; [left; by rewrite Hy|right].
    exists y. split; [|done]. apply list_elem_of_omap. by eauto.
  - intros nas Hnas. cbn. apply elem_of_push_all_unique. right. by apply latest_event_identities.
  - destruct state; cbn; [done|done|]. unfold lifecycle_state in Hstate. by repeat case_match.
Qed.

Lemma session_event_effect_witness :
  exists s' x,
    apply_event_with_resolution_resolver sample_store sample_stop (always sample_resolution) =
      (s', SessionUpdated sample_key State_Stopped)
    /\ sessions s' !! sample_key = Some x /\ latest_event x = sample_stop.
Proof.
  destruct (session_event_effect sample_store sample_trace 0 sample_stop (always sample_resolution)
    State_Stopped sample_reachable) as (s' & x & Heq & Hx & _ & _ & _ & _ & _ & _ & Hl & _);
    [vm_compute; reflexivity|].
  assert (resolution_key (resolve_session_key sample_store sample_stop) = sample_key) as Hk
    by (vm_compute; reflexivity).
  rewrite Hk in Heq, Hx. exists s', x. split; [exact Heq|]. split; [exact Hx|exact Hl].
Defined.

(** an Accounting-On or Accounting-Off event marks exactly the sessions known under one of its
    NAS identities stale: they lose their device, rate and pending reasons, keep their event and
    their circuits, and every other session is untouched; the update names the marked keys, the
    newly stale ones and their number; no key, index or counter changes. *)
Theorem nas_reset_marks_exactly s event resolve reset nas :
  ev_status_type event =
    Some (match reset with Reset_AccountingOn => Status_AccountingOn | Reset_AccountingOff => Status_AccountingOff end) ->
  primary (NasIdentitySet_from_event event) = Some nas ->
  let ids := NasIdentitySet_from_event event in
  exists s' newly stale,
    apply_event_with_resolution_resolver s event resolve =
      (s', NasSessionsMarkedStale nas reset (size stale) newly stale)
    /\ s' = set_sessions (sessions s') s
    /\ (forall key x, sessions s !! key = Some x ->
          sessions s' !! key =
          Some (if session_matches_identities key x ids then mark_stale x (State_Stale reset) else x))
    /\ (forall key, sessions s !! key = None -> sessions s' !! key = None)
    /\ (forall key, key ∈ stale <->
          exists x, sessions s !! key = Some x /\ session_matches_identities key x ids = true)
    /\ (forall key, key ∈ newly <->
          key ∈ stale /\ exists x, sessions s !! key = Some x /\ is_stale (ses_state x) = false).
Proof.
  intros Hst Hnas. cbv zeta.
  destruct (mark_nas_sessions_stale_spec s event reset nas Hnas)
    as (s' & count & newly & stale & Heq & Hs & Hstale & Hnewly & -> & Hset).
  exists s', newly, stale. split.
  { unfold apply_event_with_resolution_resolver. rewrite Hst. by destruct reset. }
  split_and!; [done|intros key x Hx; by rewrite Hs, Hx|intros key Hx; by rewrite Hs, Hx|done|].
  intros key. rewrite Hnewly, Hstale. naive_solver.
Qed.

Definition sample_reset : AccountingEvent :=
  set_ev_status_type (Some Status_AccountingOff)
    (set_ev_nas_identifier (Some (str "bng-1")) AccountingEvent_default).

Lemma nas_reset_marks_exactly_witness :
  exists s' newly stale,
    apply_event_with_resolution_resolver sample_store sample_reset (always sample_resolution) =
      (s', NasSessionsMarkedStale (Nas_Identifier (str "bng-1")) Reset_AccountingOff (size stale) newly stale)
    /\ sample_key ∈ stale.
Proof.
  destruct (nas_reset_marks_exactly sample_store sample_reset (always sample_resolution)
    Reset_AccountingOff (Nas_Identifier (str "bng-1"))) as (s' & newly & stale & Heq & _ & _ & _ & Hst & _);
    [reflexivity|reflexivity|].
  exists s', newly, stale. split; [exact Heq|]. apply Hst.
  destruct sample_session as [x Hx]. exists x. split; [exact Hx|].
  unfold session_matches_identities. change (key_nas sample_key) with (Some (Nas_Identifier (str "bng-1"))).
  reflexivity.
Defined.

(** an event is ignored exactly when it has no status, an unsupported one, or is a NAS reset
    without any NAS identity; the reason says which, and the store is then unchanged. *)
Theorem ignored_events_change_nothing s event resolve reason :
  (apply_event_with_resolution_resolver s event resolve).2 = Ignored reason <->
  match reason with
  | MissingStatusType => ev_status_type event = None
  | UnsupportedStatusType v => ev_status_type event = Some (Status_Unknown v)
  | MissingNasIdentityForReset reset =>
      ev_status_type event =
        Some (match reset with Reset_AccountingOn => Status_AccountingOn | Reset_AccountingOff => Status_AccountingOff end)
      /\ NasIdentitySet_is_empty (NasIdentitySet_from_event event) = true
  end /\ (apply_event_with_resolution_resolver s event resolve).1 = s.
Proof.
  unfold apply_event_with_resolution_resolver, upsert_active_session, stop_session.
  assert (forall state, (apply_session_state s event resolve state).2 <> Ignored reason) as Happly.
  { intros state. unfold apply_session_state. by destruct (remove_sessions _ _). }
  assert (primary (NasIdentitySet_from_event event) = None <->
    NasIdentitySet_is_empty (NasIdentitySet_from_event event) = true) as Hempty.
  { generalize (NasIdentitySet_from_event event) as ids. by intros [[] [] []]. }
  unfold mark_nas_sessions_stale.
  destruct (ev_status_type event) as [[]|]; try (by split; [intros []%Happly|destruct reason as [| |[]]; naive_solver]);
    [..|by destruct reason as [| |[]]; naive_solver].
  all: try (destruct reason as [| |[]]; cbn; naive_solver).
  all: destruct (primary (NasIdentitySet_from_event event)) eqn:Hp; cbn;
    destruct reason as [| |[]]; naive_solver.
Qed.

(** ** The ledger of intents *)

(** C3: over any run, a circuit whose last intent is a create or an update is held by a retained
    session, so it will be removed when that session stops, expires or is shaped differently: no
    circuit is leaked.  Every circuit a session holds was created, and every update or removal comes
    after a create of the same circuit. *)
Theorem no_circuit_leaks s tr n :
  reachable s tr n ->
  (forall id, circuit_open tr id = true -> held s id)
  /\ (forall id, held s id -> created tr id)
  /\ ledger_ok tr.
Proof. by intros [H1 H2 H3]%reachable_ledger. Qed.

Definition sample_circuit : rstring := str "radius:nas-id:626e672d31:username:616c696365".

Lemma no_circuit_leaks_witness :
  circuit_open sample_trace sample_circuit = true /\ held sample_store sample_circuit.
Proof.
  assert (circuit_open sample_trace sample_circuit = true) as H by (vm_compute; reflexivity).
  split; [exact H|].
  exact (proj1 (no_circuit_leaks sample_store sample_trace 0 sample_reachable) _ H).
Defined.

(** the activation counters are the numbers of create, update and remove intents emitted and of
    sessions expired so far, at 64 bits. *)
Theorem counters_count_intents s tr n :
  reachable s tr n ->
  activation_counters s =
  mkRadiusActivationCounters (occurrences is_create tr mod 2 ^ 64)
    (occurrences is_update tr mod 2 ^ 64) (occurrences is_removal tr mod 2 ^ 64)
    (Z.of_nat n mod 2 ^ 64).
Proof. apply reachable_counters. Qed.

Lemma counters_count_intents_witness :
  activation_counters sample_store = mkRadiusActivationCounters 1 0 0 0.
Proof.
  rewrite (counters_count_intents sample_store sample_trace 0 sample_reachable).
  vm_compute. reflexivity.
Defined.

(** what the store does and emits does not depend on the sink: with any sink, an operation
    with commands gives the same store and the same result as with a recording sink, and the sink
    has received exactly the recorded intents in order. *)
Theorem sink_is_only_a_listener s tr n {S} `{DynamicCircuitCommandSink S} (sink : S) :
  reachable s tr n ->
  (forall event resolve s' update intents,
     and_commands (apply_event_with_resolution_resolver s event resolve) [] = (s', update, intents) ->
     and_commands (apply_event_with_resolution_resolver s event resolve) sink =
       (s', update, fold_left emit intents sink))
  /\ (forall key s' removed intents,
     expire_session_with_commands s key [] = (s', removed, intents) ->
     expire_session_with_commands s key sink = (s', removed, fold_left emit intents sink)).
Proof.
  intros Hok%reachable_ok. split.
  - intros event resolve s' update intents. pose proof (apply_event_ok s event resolve Hok) as Hok1.
    destruct (apply_event_with_resolution_resolver s event resolve) as [s1 u].
    rewrite !and_commands_spec, emit_all_trace by done. by intros [= <- <- <-].
  - intros key s' removed intents. destruct (expire_session_spec s key Hok) as (s1 & Heq & _).
    rewrite !Heq, emit_all_trace. by intros [= <- <- <-].
Qed.

(** A sink that only counts. *)
Definition counting_sink : DynamicCircuitCommandSink nat := fun k _ => S k.

Lemma sink_is_only_a_listener_witness :
  (expire_session_with_commands (Sink := counting_sink) sample_store sample_key 0%nat).2 = 1%nat.
Proof.
  destruct (expire_session_with_commands sample_store sample_key ([] : list DynamicCircuitIntent))
    as [[s' removed] intents] eqn:He.
  rewrite (proj2 (sink_is_only_a_listener sample_store sample_trace 0 (H := counting_sink) 0%nat
    sample_reachable) sample_key s' removed intents He).
  vm_compute in He. injection He as _ _ <-. vm_compute. reflexivity.
Defined.

(** after an event with commands the session holds exactly its shaped circuit: the resolved
    device's circuit when it is active and has one, nothing when it is not shapeable or has stopped.
    One create or update precedes the removal of every other circuit it held; an update is sent only
    for a circuit it already held, on an Interim-Update. *)
Theorem commands_follow_the_device s tr n event resolve state :
  reachable s tr n ->
  lifecycle_state (ev_status_type event) = Some state ->
  let key := resolution_key (resolve_session_key s event) in
  exists s1 x s' x' update intents,
    apply_event_with_resolution_resolver s event resolve = (s1, update)
    /\ sessions s1 !! key = Some x
    /\ and_commands (apply_event_with_resolution_resolver s event resolve) tr
       = (s', update, tr ++ intents)
    /\ sessions s' !! key = Some x'
    /\ (forall k, k <> key -> sessions s' !! k = sessions s1 !! k)
    /\ match state, shaped_circuit x with
       | State_Active, Some d =>
           let upsert := mkDynamicCircuitUpsert (circuit_id d) key (latest_event x) d in
           active_dynamic_circuit_ids x' = [circuit_id d]
           /\ intents =
              (if bool_decide (circuit_id d ∈ active_dynamic_circuit_ids x
                               /\ ev_status_type event = Some Status_InterimUpdate)
               then UpdateDynamicCircuit upsert else CreateDynamicCircuit upsert)
              :: removals key Removal_Rekeyed
                   (List.filter (fun i => negb (bool_decide (i = circuit_id d)))
                      (active_dynamic_circuit_ids x))
       | State_Active, None =>
           active_dynamic_circuit_ids x' = []
           /\ intents = removals key Removal_NoLongerShapeable (active_dynamic_circuit_ids x)
       | _, _ =>
           active_dynamic_circuit_ids x' = []
           /\ intents = removals key Removal_Stop (active_dynamic_circuit_ids x)
       end.
Proof.
  intros Hr Hstate. apply reachable_ok in Hr as Hok. cbv zeta.
  destruct (apply_session_state_spec s event resolve state Hok) as (s1 & Heq & Hs & _).
  pose proof (apply_session_state_ok s event resolve state Hok) as Hok1. rewrite Heq in Hok1.
  rewrite (apply_event_lifecycle _ _ _ _ Hstate), Heq. cbn [fst] in Hok1.
  set (key := resolution_key (resolve_session_key s event)) in *.
  rewrite and_commands_spec, emit_all_trace by done.
  assert (exists x, sessions s1 !! key = Some x /\ ev_status_type (latest_event x) = ev_status_type event)
    as (x & Hx & Hst).
  { rewrite Hs, lookup_insert_eq. eexists. split; [done|]. cbn. by rewrite latest_status. }
  exists s1, x, (after_update s1 (SessionUpdated key state)), (session_outcome key state x).1,
    (SessionUpdated key state), (update_intents s1 (SessionUpdated key state)).
  cbn [update_intents after_update]. rewrite Hx. cbn [from_option].
  split_and!; [done|done|done|cbn; by rewrite lookup_insert_eq| |].
  { intros k Hk. cbn. by rewrite lookup_insert_ne. }
  destruct state as [| |reset]; cbn [session_outcome fst snd].
  - unfold after_active, active_intents. destruct (shaped_circuit x) as [d|]; [|done].
    split; [done|]. cbv zeta. rewrite Hst.
    assert (active_status (ev_status_type event)) as [Ha|Ha].
    { unfold lifecycle_state in Hstate. unfold active_status. repeat case_match; naive_solver. }
    + rewrite Ha, (bool_decide_false (_ /\ _)) by naive_solver. by case_bool_decide.
    + rewrite Ha. repeat case_bool_decide; naive_solver.
  - done.
  - unfold lifecycle_state in Hstate. by repeat case_match.
Qed.

Lemma commands_follow_the_device_witness :
  exists s' update intents,
    and_commands (apply_event_with_resolution_resolver sample_store sample_stop (always sample_resolution))
      sample_trace = (s', update, sample_trace ++ intents)
    /\ intents = removals sample_key Removal_Stop [sample_circuit].
Proof.
  destruct (commands_follow_the_device sample_store sample_trace 0 sample_stop (always sample_resolution)
    State_Stopped sample_reachable) as (s1 & x & s' & x' & update & intents & Ha & Hx & Hc & _ & _ & _ & Hi);
    [vm_compute; reflexivity|].
  exists s', update, intents. split; [exact Hc|].
  assert (resolution_key (resolve_session_key sample_store sample_stop) = sample_key) as Hk
    by (vm_compute; reflexivity).
  rewrite Hi, Hk. rewrite Hk in Hx. f_equal.
  assert (active_dynamic_circuit_ids <$> sessions
    (apply_event_with_resolution_resolver sample_store sample_stop (always sample_resolution)).1 !! sample_key
    = Some [sample_circuit]) as Hids by (vm_compute; reflexivity).
  rewrite Ha in Hids. cbn [fst] in Hids. rewrite Hx in Hids. by injection Hids.
Defined.

(** ** Diagnostics *)

Lemma elem_of_push_texts ids acc id :
  id ∈ fold_left push_unique_text ids acc <-> id ∈ acc \/ (id ∈ ids /\ is_blank id = false).
Proof.
  revert acc. induction ids as [|i ids IH]; intros acc; cbn; [set_solver|].
  rewrite IH. unfold push_unique_text. destruct (is_blank i) eqn:Hi.
  - rewrite elem_of_cons. split; [tauto|]. intros [?|[[->|?] Hb]]; [tauto|congruence|tauto].
  - rewrite elem_of_push_unique, elem_of_cons. split; [|tauto].
    intros [[?| ->]|?]; tauto.
Qed.

Lemma diagnostic_lists_held key x id :
  id ∈ active_dynamic_circuit_ids x -> is_blank id = false -> id ∈ diagnostic_circuit_ids key x.
Proof.
  intros Hid Hb. unfold diagnostic_circuit_ids.
  set (ids := fold_left push_unique_text (diagnostic_ids x) _).
  assert (id ∈ ids) as Hin.
  { subst ids. rewrite !elem_of_push_texts. naive_solver. }
  destruct ids; [set_solver|]. done.
Qed.

Lemma diagnostic_nonempty nas acct x : diagnostic_circuit_ids (NasSession nas acct) x <> [].
Proof.
  unfold diagnostic_circuit_ids. destruct (fold_left _ _ _) eqn:Hf; [|done].
  cbn [is_nil dynamic_circuit_id]. unfold push_unique_text. by rewrite not_blank_radius.
Qed.

(** the diagnostics of a reachable store have one entry per retained session; an entry is
    reported active exactly when the session resolved to a device and pending exactly when reasons
    are left; it lists every non-blank circuit the session holds, and a keyed session always names a
    circuit. *)
Theorem diagnostics_reflect_sessions s tr n :
  reachable s tr n ->
  length (activation_diagnostics s) = store_len s
  /\ (forall d, d ∈ activation_diagnostics s <->
        exists key x, sessions s !! key = Some x /\ d = from_retained_session key x)
  /\ forall key x, sessions s !! key = Some x ->
       let d := from_retained_session key x in
       (diag_state d = Diagnostic_Active <-> is_Some (ses_resolved_shaped_device x))
       /\ (diag_state d = Diagnostic_Pending <-> diag_pending_reasons d <> [])
       /\ (forall id, id ∈ active_dynamic_circuit_ids x -> is_blank id = false ->
             id ∈ diag_circuit_ids d)
       /\ (forall nas acct, key = NasSession nas acct -> diag_circuit_ids d <> []).
Proof.
  intros Hok%reachable_ok. unfold activation_diagnostics, store_len. split_and!.
  - rewrite length_map. by rewrite length_map_to_list.
  - intros d. rewrite list_elem_of_fmap. split.
    + intros ([key x] & -> & Hx%elem_of_map_to_list). by exists key, x.
    + intros (key & x & Hx & ->). exists (key, x). split; [done|]. by apply elem_of_map_to_list.
  - intros key x Hx. cbv zeta. destruct (store_sessions_ok s Hok key x Hx) as [Hin Hact _ _ _].
    split_and!; cbn.
    + unfold retained_activation_state. destruct (ses_state x) eqn:Hs.
      * rewrite <- (Hact eq_refl). destruct (ses_pending_reasons x); cbn; split; congruence.
      * destruct (Hin ltac:(discriminate)) as (-> & _). cbn. by split; [|intros []].
      * destruct (Hin ltac:(discriminate)) as (-> & _). cbn. by split; [|intros []].
    + unfold retained_activation_state. destruct (ses_state x) eqn:Hs.
      * destruct (ses_pending_reasons x); cbn; split; congruence.
      * destruct (Hin ltac:(discriminate)) as (_ & _ & ->). done.
      * destruct (Hin ltac:(discriminate)) as (_ & _ & ->). done.
    + intros id. apply diagnostic_lists_held.
    + intros nas acct ->. apply diagnostic_nonempty.
Qed.

Lemma diagnostics_reflect_sessions_witness :
  exists d, d ∈ activation_diagnostics sample_store /\ diag_state d = Diagnostic_Active.
Proof.
  destruct (diagnostics_reflect_sessions sample_store sample_trace 0 sample_reachable) as (_ & Hd & Hs).
  destruct sample_session as [x Hx]. exists (from_retained_session sample_key x). split.
  - apply Hd. exists sample_key, x. split; [exact Hx|reflexivity].
  - apply (Hs _ _ Hx). vm_compute in Hx. injection Hx as <-. by eexists.
Defined.
