(* ===== verification/Listener.v ===== *)
(** * The verified UDP listener (crate [lqos_radius], [listener.rs])

    Trusted clients and their source networks, and the handling of one datagram.  The socket is the
    environment: what [recv_from] returned and what [send_to] would return are arguments, and the
    datagrams handed to [send_to] are part of the result.  The crate [ip_network] is a parameter
    ([IpNetworkCrate]) with its documented behaviour as laws.  A [SocketAddr] is its address and
    port.

    The theorems show one outcome per datagram, a response only to an authentic request of exactly one
    trusted client and never longer than the request, and the addresses a configured source admits. *)

From S2P Require Import Prelude RustStd RustNet RadiusPacket RadiusPacketSpec.

(** ** The [ip_network] crate *)

Inductive IpNetworkError : Type := NetmaskError | IpNetwork_HostBitsSet.

Class IpNetworkCrate : Type := {
  IpNetwork : Type;
  network_from : IpAddr -> IpNetwork;
  network_new : IpAddr -> Z -> result IpNetworkError IpNetwork;
  network_contains : IpNetwork -> IpAddr -> bool;
  network_address : IpNetwork -> IpAddr;
  network_netmask : IpNetwork -> Z
}.

Definition addr_octets (a : IpAddr) : list Z :=
  match a with V4 a => ipv4_octets a | V6 a => ipv6_octets a end.
Definition same_family (a b : IpAddr) : bool :=
  match a, b with V4 _, V4 _ | V6 _, V6 _ => true | _, _ => false end.

(** Bit [i] of an address, from the most significant one. *)
Definition addr_bit (a : IpAddr) (i : nat) : bool :=
  Z.testbit (byte_at (addr_octets a) (i / 8)) (7 - Z.of_nat (i mod 8)).
Definition same_prefix (a b : IpAddr) (n : Z) : bool :=
  same_family a b
  && forallb (fun i => Bool.eqb (addr_bit a i) (addr_bit b i)) (seq 0 (Z.to_nat n)).

Definition max_prefix_len (address : IpAddr) : Z := match address with V4 _ => 32 | V6 _ => 128 end.

(** Host bits: any bit after the prefix. *)
Definition host_bits_set (a : IpAddr) (n : Z) : bool :=
  existsb (addr_bit a) (seq (Z.to_nat n) (Z.to_nat (max_prefix_len a - n))).

(** [IpNetwork::new] refuses a netmask out of range and an address with host bits set; a network
    contains the addresses with its prefix; [IpNetwork::from] is the network of one host. *)
Class IpNetworkLaws (C : IpNetworkCrate) : Prop := {
  network_new_netmask : forall a n, max_prefix_len a < n -> network_new a n = Err NetmaskError;
  network_new_host_bits : forall a n,
    n <= max_prefix_len a -> host_bits_set a n = true -> network_new a n = Err IpNetwork_HostBitsSet;
  network_new_ok : forall a n,
    n <= max_prefix_len a -> host_bits_set a n = false ->
    exists net, network_new a n = Ok net /\ forall x, network_contains net x = same_prefix a x n;
  network_from_contains : forall a x,
    network_contains (network_from a) x = same_prefix a x (max_prefix_len a)
}.

(** ** Trusted sources *)

Inductive TrustedClientSourceError : Type :=
| Source_Empty
| Source_InvalidAddress (raw : rstring)
| Source_InvalidPrefixLengthText (raw : rstring)
| Source_InvalidPrefixLength (address : IpAddr) (prefix_len max_prefix_len : Z)
| Source_HostBitsSet (address : IpAddr) (prefix_len : Z).

Inductive TrustedRadiusClientError : Type := NoSources | EmptySharedSecret.

Record SocketAddr : Type := mkSocketAddr { socket_ip : IpAddr; socket_port : Z }.

(** [DEFAULT_LISTEN_ADDR]. *)
Definition DEFAULT_LISTEN_ADDR : SocketAddr := mkSocketAddr (V4 (V4Octets 127 0 0 1)) 18130.

Record ListenerConfig : Type := mkListenerConfig { listen_addr : SocketAddr }.
Definition ListenerConfig_default : ListenerConfig := mkListenerConfig DEFAULT_LISTEN_ADDR.

Section Listener.
Context `{Crate : IpNetworkCrate}.

Record TrustedClientSource : Type := mkTrustedClientSource { source_network_of : IpNetwork }.

Definition network_error (address : IpAddr) (prefix_len : Z) (source : IpNetworkError)
    : TrustedClientSourceError :=
  match source with
  | NetmaskError => Source_InvalidPrefixLength address prefix_len (max_prefix_len address)
  | IpNetwork_HostBitsSet => Source_HostBitsSet address prefix_len
  end.

Definition source_network (address : IpAddr) (prefix_len : Z)
    : result TrustedClientSourceError IpNetwork :=
  map_err (network_error address prefix_len) (network_new address prefix_len).

(** [TrustedClientSource::host], [network], [address], [prefix_len], [contains]. *)
Definition source_host (address : IpAddr) : TrustedClientSource :=
  mkTrustedClientSource (network_from address).
Definition source_of_network (address : IpAddr) (prefix_len : Z)
    : result TrustedClientSourceError TrustedClientSource :=
  mkTrustedClientSource <$> source_network address prefix_len.
Definition source_address (s : TrustedClientSource) : IpAddr := network_address (source_network_of s).
Definition source_prefix_len (s : TrustedClientSource) : Z := network_netmask (source_network_of s).
Definition source_contains (s : TrustedClientSource) (address : IpAddr) : bool :=
  network_contains (source_network_of s) address.

(** [Option::ok_or]. *)
Definition ok_or {E A} (o : option A) (e : E) : result E A :=
  match o with Some a => Ok a | None => Err e end.

(** [TrustedClientSource::from_str]. *)
Definition source_from_str (raw : rstring) : result TrustedClientSourceError TrustedClientSource :=
  let trimmed := trim raw in
  if str_is_empty trimmed then Err Source_Empty
  else
    match split_once trimmed 47 with
    | None => source_host <$> ok_or (parse_ip_addr trimmed) (Source_InvalidAddress trimmed)
    | Some (address, prefix_len) =>
        address' ← ok_or (parse_ip_addr address) (Source_InvalidAddress address);
        prefix_len' ← ok_or (parse_uint (2 ^ 8) prefix_len) (Source_InvalidPrefixLengthText prefix_len);
        mkTrustedClientSource <$> source_network address' prefix_len'
    end.

(** ** Trusted clients *)

Record TrustedRadiusClient : Type := mkTrustedRadiusClient {
  client_sources : list TrustedClientSource;
  client_shared_secret : list Z;
  client_policy : MessageAuthenticatorPolicy
}.

Definition with_message_authenticator_policy (sources : list TrustedClientSource)
    (shared_secret : list Z) (policy : MessageAuthenticatorPolicy)
    : result TrustedRadiusClientError TrustedRadiusClient :=
  match sources with
  | [] => Err NoSources
  | _ =>
      match shared_secret with
      | [] => Err EmptySharedSecret
      | _ => Ok (mkTrustedRadiusClient sources shared_secret policy)
      end
  end.

Definition TrustedRadiusClient_new (sources : list TrustedClientSource) (shared_secret : list Z)
    : result TrustedRadiusClientError TrustedRadiusClient :=
  with_message_authenticator_policy sources shared_secret Policy_Optional.

Definition source_matches (client : TrustedRadiusClient) (address : IpAddr) : bool :=
  existsb (fun source => source_contains source address) (client_sources client).

(** ** Receiving *)

Context `{Digest : RadiusDigest} {IoError : Type}.

Record ReceivedAccountingPacket : Type := mkReceivedAccountingPacket {
  received_peer : SocketAddr;
  received_len : nat;
  received_request : AccountingRequest
}.

Record ReceivedVerifiedAccountingPacket : Type := mkReceivedVerifiedAccountingPacket {
  verified_peer : SocketAddr;
  verified_received_len : nat;
  verified_response_len : nat;
  received_verified_request : VerifiedAccountingRequest
}.

Inductive AccountingListenerOutcome : Type :=
| Accepted (packet : ReceivedVerifiedAccountingPacket)
| RejectedSource (peer : SocketAddr) (received_len : nat)
| RejectedAmbiguousSource (peer : SocketAddr) (received_len : nat)
| RejectedPacket (peer : SocketAddr) (received_len : nat) (source : PacketError).

Inductive ListenerError : Type :=
| Listener_Bind (addr : SocketAddr) (source : IoError)
| Listener_Receive (source : IoError)
| Listener_Send (peer : SocketAddr) (source : IoError)
| Listener_LocalAddr (source : IoError)
| Listener_Packet (peer : SocketAddr) (source : PacketError).

(** What [recv_from] gave: the received bytes and the peer. *)
Abbreviation Received := (result IoError (list Z * SocketAddr)) (only parsing).

Definition receive_datagram (recv : Received) : result ListenerError (list Z * SocketAddr) :=
  map_err Listener_Receive recv.

Definition receive_next (recv : Received) : result ListenerError ReceivedAccountingPacket :=
  '(datagram, peer) ← receive_datagram recv;
  match handle_accounting_request datagram with
  | Ok request => Ok (mkReceivedAccountingPacket peer (length datagram) request)
  | Err source => Err (Listener_Packet peer source)
  end.

(** The loop over the clients: [inl] is the early return on a second match. *)
Fixpoint select_client (clients : list TrustedRadiusClient) (address : IpAddr)
    (matched : option TrustedRadiusClient) : unit + option TrustedRadiusClient :=
  match clients with
  | [] => inr matched
  | client :: clients' =>
      if negb (source_matches client address) then select_client clients' address matched
      else
        match matched with
        | Some _ => inl tt
        | None => select_client clients' address (Some client)
        end
  end.

(** The result, and the datagrams passed to [send_to]. *)
Definition receive_next_verified (recv : Received)
    (send_to : list Z -> SocketAddr -> result IoError nat) (clients : list TrustedRadiusClient)
    : result ListenerError AccountingListenerOutcome * list (list Z * SocketAddr) :=
  match receive_datagram recv with
  | Err e => (Err e, [])
  | Ok (datagram, peer) =>
      match select_client clients (socket_ip peer) None with
      | inl _ => (Ok (RejectedAmbiguousSource peer (length datagram)), [])
      | inr None => (Ok (RejectedSource peer (length datagram)), [])
      | inr (Some client) =>
          match verify_accounting_request datagram (client_shared_secret client)
                  (client_policy client) with
          | Err source => (Ok (RejectedPacket peer (length datagram) source), [])
          | Ok request =>
              let response := build_accounting_response request (client_shared_secret client) in
              (match send_to response peer with
               | Ok response_len =>
                   Ok (Accepted (mkReceivedVerifiedAccountingPacket peer (length datagram)
                                   response_len request))
               | Err source => Err (Listener_Send peer source)
               end, [(response, peer)])
          end
      end
  end.

(** [start_listener], given what [bind] returned; the listener is its socket. *)
Definition start_listener {Socket} (bind : SocketAddr -> result IoError Socket)
    (config : ListenerConfig) : result ListenerError Socket :=
  map_err (Listener_Bind (listen_addr config)) (bind (listen_addr config)).

End Listener.

Arguments TrustedClientSource Crate : clear implicits.
Arguments TrustedRadiusClient Crate : clear implicits.
Arguments ListenerError IoError : clear implicits.

(** ** Properties *)

Section Spec.
Context `{Crate : IpNetworkCrate} `{Digest : RadiusDigest} {IoError : Type}.
Implicit Types (clients : list (TrustedRadiusClient Crate)) (peer : SocketAddr).
Context (send_to : list Z -> SocketAddr -> result IoError nat).

(** The clients whose sources contain an address. *)
Definition matching_clients clients (address : IpAddr) : list (TrustedRadiusClient Crate) :=
  List.filter (fun c => source_matches c address) clients.

Lemma select_client_found clients address c :
  select_client clients address (Some c) =
  match matching_clients clients address with [] => inr (Some c) | _ => inl tt end.
Proof.
  unfold matching_clients. induction clients as [|c' clients IH]; cbn; [done|].
  by destruct (source_matches c' address).
Qed.

Lemma select_client_spec clients address :
  select_client clients address None =
  match matching_clients clients address with
  | [] => inr None
  | [c] => inr (Some c)
  | _ => inl tt
  end.
Proof.
  unfold matching_clients. induction clients as [|c clients IH]; cbn; [done|].
  destruct (source_matches c address); cbn; [|done].
  rewrite select_client_found. unfold matching_clients. by destruct (List.filter _ _).
Qed.

(** a received datagram has the outcome its source and its bytes call for: no trusted client
    matches the peer address, it is rejected; several match, it is rejected as ambiguous; exactly one
    matches, its secret and policy decide, and only an accepted packet is answered, once, to the
    peer.  A receive error is returned as such, and nothing is sent. *)
Theorem datagram_outcome recv clients :
  receive_next_verified recv send_to clients =
  match recv with
  | Err source => (Err (Listener_Receive source), [])
  | Ok (datagram, peer) =>
      let len := length datagram in
      match matching_clients clients (socket_ip peer) with
      | [] => (Ok (RejectedSource peer len), [])
      | [client] =>
          let secret := client_shared_secret client in
          match verify_accounting_request datagram secret (client_policy client) with
          | Err source => (Ok (RejectedPacket peer len source), [])
          | Ok request =>
              let response := build_accounting_response request secret in
              match send_to response peer with
              | Ok sent =>
                  (Ok (Accepted (mkReceivedVerifiedAccountingPacket peer len sent request)),
                   [(response, peer)])
              | Err source => (Err (Listener_Send peer source), [(response, peer)])
              end
          end
      | _ => (Ok (RejectedAmbiguousSource peer len), [])
      end
  end.
Proof.
  unfold receive_next_verified. destruct recv as [[datagram peer]|source]; cbn; [|done].
  rewrite select_client_spec.
  destruct (matching_clients clients (socket_ip peer)) as [|c [|c' cs]]; [done| |done].
  destruct (verify_accounting_request _ _ _); [|done]. cbv zeta. by destruct (send_to _ _).
Qed.

(** C2: whatever is sent is one datagram, to the peer that was heard, in answer to a request that is
    authentic under the secret of the only client trusted for that address; and the answer is no
    longer than the datagram received, so the listener cannot be used to amplify traffic. *)
Theorem answers_only_authentic_requests `{Laws : !RadiusDigestLaws Digest} recv clients out sent :
  (forall datagram peer, recv = Ok (datagram, peer) -> bytes_ok datagram) ->
  receive_next_verified recv send_to clients = (out, sent) ->
  sent = []
  \/ exists datagram peer client response,
       recv = Ok (datagram, peer) /\ sent = [(response, peer)]
       /\ matching_clients clients (socket_ip peer) = [client]
       /\ request_authentic (packet_bytes datagram) (client_shared_secret client)
       /\ (length response <= length datagram)%nat.
Proof.
  intros Hbytes. unfold receive_next_verified.
  destruct recv as [[datagram peer]|source]; cbn; [|intros [= _ <-]; by left].
  specialize (Hbytes _ _ eq_refl). rewrite select_client_spec.
  destruct (matching_clients clients (socket_ip peer)) as [|c [|c' cs]] eqn:Hm;
    [intros [= _ <-]; by left| |intros [= _ <-]; by left].
  destruct (verify_accounting_request _ _ _) as [request|] eqn:Hv; [|intros [= _ <-]; by left].
  intros [= _ <-]. right. exists datagram, peer, c, (build_accounting_response request (client_shared_secret c)).
  split_and!; [done|done|done|by eapply verified_request_authentic|].
  etransitivity; [by eapply response_not_longer|].
  unfold packet_bytes. rewrite length_take. lia.
Qed.

End Spec.

(** ** Sources *)

Section Sources.
Context `{Crate : IpNetworkCrate}.

(** The address and prefix length a source text denotes. *)
Definition source_text (raw : rstring) : option (IpAddr * Z) :=
  let trimmed := trim raw in
  match split_once trimmed 47 with
  | None => (fun a => (a, max_prefix_len a)) <$> parse_ip_addr trimmed
  | Some (address, prefix_len) =>
      a ← parse_ip_addr address; n ← parse_uint (2 ^ 8) prefix_len; Some (a, n)
  end.

Lemma no_host_bits_full a : host_bits_set a (max_prefix_len a) = false.
Proof. unfold host_bits_set. by rewrite Z.sub_diag. Qed.

Lemma source_network_spec `{Laws : !IpNetworkLaws Crate} a n :
  match source_network a n with
  | Ok net => n <= max_prefix_len a /\ host_bits_set a n = false
              /\ forall x, network_contains net x = same_prefix a x n
  | Err e => (max_prefix_len a < n /\ e = Source_InvalidPrefixLength a n (max_prefix_len a))
             \/ (n <= max_prefix_len a /\ host_bits_set a n = true /\ e = Source_HostBitsSet a n)
  end.
Proof.
  unfold source_network. destruct (decide (max_prefix_len a < n)) as [Hlt|Hge].
  - rewrite network_new_netmask by done. by left.
  - destruct (host_bits_set a n) eqn:Hh.
    + rewrite network_new_host_bits by (done || lia). cbn. right. split_and!; [lia|done|done].
    + destruct (network_new_ok a n) as (net & -> & Hc); [lia|done|]. cbn. split_and!; [lia|done|done].
Qed.

(** a configured client source admits exactly the addresses of its family that share its prefix
    (for a bare address, that address); a prefix longer than the family allows, an address with host
    bits, an unreadable address or length and an empty text are refused, each with its own error. *)
Theorem source_admits_its_network `{Laws : !IpNetworkLaws Crate} raw :
  match source_from_str raw with
  | Ok source =>
      exists a n, source_text raw = Some (a, n) /\ n <= max_prefix_len a
        /\ host_bits_set a n = false /\ forall x, source_contains source x = same_prefix a x n
  | Err Source_Empty => trim raw = []
  | Err (Source_InvalidAddress text) =>
      parse_ip_addr text = None
      /\ (trim raw = text \/ exists len, split_once (trim raw) 47 = Some (text, len))
  | Err (Source_InvalidPrefixLengthText text) =>
      parse_uint (2 ^ 8) text = None /\ exists a, split_once (trim raw) 47 = Some (a, text)
  | Err (Source_InvalidPrefixLength a n m) =>
      source_text raw = Some (a, n) /\ m = max_prefix_len a /\ m < n
  | Err (Source_HostBitsSet a n) =>
      source_text raw = Some (a, n) /\ n <= max_prefix_len a /\ host_bits_set a n = true
  end.
Proof.
  unfold source_from_str, source_text. cbv zeta.
  destruct (str_is_empty (trim raw)) eqn:He; [by destruct (trim raw)|].
  destruct (split_once (trim raw) 47) as [[address len]|] eqn:Hs.
  - destruct (parse_ip_addr address) as [a|] eqn:Ha; cbn; [|split; [done|right; by eexists]].
    destruct (parse_uint (2 ^ 8) len) as [n|] eqn:Hn; cbn; [|split; [done|by eexists]].
    pose proof (source_network_spec a n) as Hspec.
    destruct (source_network a n) as [net|e]; cbn.
    + exists a, n. naive_solver.
    + destruct Hspec as [[Hlt ->]|(Hle & Hh & ->)]; [|done]. split_and!; [done|done|lia].
  - destruct (parse_ip_addr (trim raw)) as [a|] eqn:Ha; cbn; [|split; [done|by left]].
    exists a, (max_prefix_len a).
    split_and!; [done|lia|apply no_host_bits_full|intros x; apply network_from_contains].
Qed.

(** a trusted client has at least one source and a non-empty secret: without either, it is not
    built, so no request is ever verified under an empty secret. *)
Theorem trusted_client_is_usable sources secret policy :
  match with_message_authenticator_policy sources secret policy with
  | Ok client => client_sources client = sources /\ sources <> []
                 /\ client_shared_secret client = secret /\ secret <> []
                 /\ client_policy client = policy
  | Err NoSources => sources = []
  | Err EmptySharedSecret => sources <> [] /\ secret = []
  end.
Proof. by destruct sources as [|? ?], secret as [|? ?]; cbn; split_and?. Qed.

End Sources.

(** ** Witnesses *)

(** Networks as an address with a prefix length. *)
Definition sample_crate : IpNetworkCrate := {|
  IpNetwork := IpAddr * Z;
  network_from := fun a => (a, max_prefix_len a);
  network_new := fun a n =>
    if max_prefix_len a <? n then Err NetmaskError
    else if host_bits_set a n then Err IpNetwork_HostBitsSet else Ok (a, n);
  network_contains := fun net x => same_prefix net.1 x net.2;
  network_address := fst;
  network_netmask := snd
|}.

#[local] Instance sample_crate_laws : IpNetworkLaws sample_crate.
Proof.
  split.
  - intros a n Hn. cbn. by rewrite (proj2 (Z.ltb_lt _ _)).
  - intros a n Hn Hh. cbn. by rewrite (proj2 (Z.ltb_ge _ _)), Hh by done.
  - intros a n Hn Hh. exists (a, n). cbn. by rewrite (proj2 (Z.ltb_ge _ _)), Hh by done.
  - done.
Qed.

Definition sample_client : TrustedRadiusClient sample_crate :=
  @mkTrustedRadiusClient sample_crate [@mkTrustedClientSource sample_crate (V4 (V4Octets 192 0 2 0), 24)]
    sample_secret Policy_Required.
Definition sample_peer : SocketAddr := mkSocketAddr (V4 (V4Octets 192 0 2 9)) 1813.
Definition sample_send (response : list Z) (peer : SocketAddr) : result unit nat := Ok (length response).

Lemma answers_only_authentic_requests_witness :
  exists out response,
    receive_next_verified (Digest := sample_digest) (Ok (sample_datagram, sample_peer)) sample_send
      [sample_client] = (out, [(response, sample_peer)])
    /\ @request_authentic sample_digest (packet_bytes sample_datagram) sample_secret
    /\ (length response <= length sample_datagram)%nat.
Proof.
  destruct (receive_next_verified (Digest := sample_digest) (Ok (sample_datagram, sample_peer)) sample_send
    [sample_client]) as [out sent] eqn:Hr.
  destruct (answers_only_authentic_requests (Digest := sample_digest) (Laws := sample_digest_laws)
    sample_send (Ok (sample_datagram, sample_peer)) [sample_client] out sent)
    as [Hnil|(datagram & peer & client & response & [= <- <-] & -> & Hm & Hauth & Hlen)].
  - intros datagram peer [= <- _]. exact sample_datagram_ok.
  - exact Hr.
  - exfalso. subst sent. apply (f_equal (fun r => length r.2)) in Hr. vm_compute in Hr. discriminate Hr.
  - exists out, response. split; [reflexivity|].
    assert (client = sample_client) as -> by (vm_compute in Hm; injection Hm as <-; reflexivity).
    split; [exact Hauth|exact Hlen].
Defined.

Lemma source_admits_its_network_witness :
  exists source, source_from_str (Crate := sample_crate) (str " 192.0.2.0/24 ") = Ok source
    /\ source_contains source (V4 (V4Octets 192 0 2 9)) = true
    /\ source_contains source (V4 (V4Octets 192 0 3 9)) = false.
Proof.
  pose proof (source_admits_its_network (Laws := sample_crate_laws) (str " 192.0.2.0/24 ")) as H.
  destruct (source_from_str (Crate := sample_crate) (str " 192.0.2.0/24 ")) as [source|e] eqn:Hs;
    [|vm_compute in Hs; discriminate Hs].
  destruct H as (a & n & Ht & _ & _ & Hc). vm_compute in Ht. injection Ht as <- <-.
  exists source. split; [reflexivity|]. rewrite !Hc. split; vm_compute; reflexivity.
Defined.
