(* ===== verification/RadiusService.v ===== *)
(** * The accounting service of the daemon (crate [lqosd], [radius_accounting.rs])

    [RadiusAccountingSessions], the session store with the times of its sessions, the expiry timer
    and the listener loop.  An [Instant] and a [Duration] are a [Z] number of nanoseconds.  The
    timer's [Sleep] is always reset to [wake_at], so [wake_at] is the timer.  The sink is any instance
    of [DynamicCircuitCommandSink]; log output is not modelled. *)

From S2P Require Import Prelude RustStd RadiusPacket AccountingEvent ShapedDevice MacMatch.
From S2P Require Import SessionTypes SessionMetadata SessionStore SessionCommands Listener.

Definition Instant : Type := Z.
Definition Duration : Type := Z.
Definition duration_as_secs (d : Duration) : Z := d / 1000000000.
Definition duration_from_secs (s : Z) : Duration := s * 1000000000.

Definition RADIUS_RECENT_EXPIRED_DIAGNOSTIC_LIMIT : nat := 1024.

(** [push_limited]: the oldest items leave a full queue. *)
Definition push_limited {A} (items : list A) (item : A) (limit : nat) : list A :=
  if (limit =? 0)%nat then items
  else let items := items ++ [item] in drop (length items - limit) items.

(** [next_update_sequence]: the sequence number used, and the next one. *)
Definition next_sequence_number (next_sequence : Z) : Z * Z := (next_sequence, u64_succ next_sequence).

Record RadiusPacketCounters : Type := mkRadiusPacketCounters {
  packets_accepted : Z;
  packets_rejected : Z
}.

(** The fields of [RadiusAccountingSessions] set from the configuration, then those that change. *)
Record RadiusAccountingConfig : Type := mkRadiusAccountingConfig {
  default_ttl : Duration;
  stale_grace : Duration;
  fallback_rate_profile : option SessionRateProfile;
  fallback_parent : option DynamicCircuitParent;
  mac_matcher : option ShapedDevicesMacMatcher;
  match_shaped_devices_by_username : bool;
  match_shaped_devices_by_mac : bool
}.

Record RadiusAccountingSessions : Type := mkRadiusAccountingSessions {
  store : AccountingSessionStore;
  updated_at : gmap AccountingSessionKey Instant;
  update_sequence_by_key : gmap AccountingSessionKey Z;
  next_update_sequence : Z;
  activation_diagnostics_by_key : gmap AccountingSessionKey RadiusActivationDiagnostic;
  recent_expired_activation_diagnostics : list RadiusActivationDiagnostic;
  packet_counters : RadiusPacketCounters;
  config : RadiusAccountingConfig
}.

Definition new_with_fallback_and_identity_matcher (c : RadiusAccountingConfig)
    : RadiusAccountingSessions :=
  mkRadiusAccountingSessions AccountingSessionStore_new ∅ ∅ 0 ∅ [] (mkRadiusPacketCounters 0 0) c.

(** Field updates. *)
Definition set_store (s : AccountingSessionStore) (x : RadiusAccountingSessions) :=
  mkRadiusAccountingSessions s (updated_at x) (update_sequence_by_key x) (next_update_sequence x)
    (activation_diagnostics_by_key x) (recent_expired_activation_diagnostics x) (packet_counters x)
    (config x).
Definition set_times (times : gmap AccountingSessionKey Instant) (sequences : gmap AccountingSessionKey Z)
    (next : Z) (x : RadiusAccountingSessions) :=
  mkRadiusAccountingSessions (store x) times sequences next (activation_diagnostics_by_key x)
    (recent_expired_activation_diagnostics x) (packet_counters x) (config x).
Definition set_diagnostics (retained : gmap AccountingSessionKey RadiusActivationDiagnostic)
    (expired : list RadiusActivationDiagnostic) (x : RadiusAccountingSessions) :=
  mkRadiusAccountingSessions (store x) (updated_at x) (update_sequence_by_key x)
    (next_update_sequence x) retained expired (packet_counters x) (config x).
Definition set_packet_counters (c : RadiusPacketCounters) (x : RadiusAccountingSessions) :=
  mkRadiusAccountingSessions (store x) (updated_at x) (update_sequence_by_key x)
    (next_update_sequence x) (activation_diagnostics_by_key x)
    (recent_expired_activation_diagnostics x) c (config x).

Definition record_packet_accepted (x : RadiusAccountingSessions) : RadiusAccountingSessions :=
  set_packet_counters
    (mkRadiusPacketCounters (u64_succ (packets_accepted (packet_counters x)))
       (packets_rejected (packet_counters x))) x.
Definition record_packet_rejected (x : RadiusAccountingSessions) : RadiusAccountingSessions :=
  set_packet_counters
    (mkRadiusPacketCounters (packets_accepted (packet_counters x))
       (u64_succ (packets_rejected (packet_counters x)))) x.

(** ** Times and diagnostics *)

Definition record_session_update_time (x : RadiusAccountingSessions) (key : AccountingSessionKey)
    (now : Instant) : RadiusAccountingSessions :=
  let '(sequence, next) := next_sequence_number (next_update_sequence x) in
  set_times (<[key := now]> (updated_at x)) (<[key := sequence]> (update_sequence_by_key x)) next x.

(** The loop body for a newly stale key: its sequence number is kept when it has one. *)
Definition record_stale_time (now : Instant) (x : RadiusAccountingSessions)
    (key : AccountingSessionKey) : RadiusAccountingSessions :=
  match update_sequence_by_key x !! key with
  | Some _ =>
      set_times (<[key := now]> (updated_at x)) (update_sequence_by_key x) (next_update_sequence x) x
  | None =>
      let '(sequence, next) := next_sequence_number (next_update_sequence x) in
      set_times (<[key := now]> (updated_at x)) (<[key := sequence]> (update_sequence_by_key x)) next x
  end.

Definition record_update (x : RadiusAccountingSessions) (update : AccountingSessionUpdate)
    (now : Instant) : RadiusAccountingSessions :=
  match update with
  | SessionUpdated key _ => record_session_update_time x key now
  | NasSessionsMarkedStale _ _ _ newly_stale_session_keys _ =>
      fold_left (record_stale_time now) (elements newly_stale_session_keys) x
  | Ignored _ => x
  end.

(** [HashMap::retain] with [store.session(key).is_some()]. *)
Definition retain_retained {A} (x : RadiusAccountingSessions) (m : gmap AccountingSessionKey A)
    : gmap AccountingSessionKey A :=
  base.filter (fun kv => is_Some (sessions (store x) !! kv.1)) m.

Definition prune_removed_sessions (x : RadiusAccountingSessions) : RadiusAccountingSessions :=
  set_times (retain_retained x (updated_at x)) (retain_retained x (update_sequence_by_key x))
    (next_update_sequence x) x.

Definition prune_retained_activation_diagnostics (x : RadiusAccountingSessions)
    : RadiusAccountingSessions :=
  set_diagnostics (retain_retained x (activation_diagnostics_by_key x))
    (recent_expired_activation_diagnostics x) x.

Definition remove_recent_expired_activation_diagnostic
    (expired : list RadiusActivationDiagnostic) (key : AccountingSessionKey)
    : list RadiusActivationDiagnostic :=
  if is_nil expired then expired
  else List.filter (fun d => negb (bool_decide (diag_session_key d = key))) expired.

Definition record_retained_activation_diagnostic (x : RadiusAccountingSessions)
    (key : AccountingSessionKey) : RadiusAccountingSessions :=
  match sessions (store x) !! key with
  | None =>
      set_diagnostics (delete key (activation_diagnostics_by_key x))
        (recent_expired_activation_diagnostics x) x
  | Some session =>
      set_diagnostics
        (<[key := from_retained_session key session]> (activation_diagnostics_by_key x))
        (remove_recent_expired_activation_diagnostic (recent_expired_activation_diagnostics x) key) x
  end.

Definition record_activation_diagnostics_for_update (x : RadiusAccountingSessions)
    (update : AccountingSessionUpdate) : RadiusAccountingSessions :=
  match update with
  | SessionUpdated key _ => record_retained_activation_diagnostic x key
  | NasSessionsMarkedStale _ _ _ _ stale_session_keys =>
      fold_left record_retained_activation_diagnostic (elements stale_session_keys) x
  | Ignored _ => x
  end.

(** [RadiusAccountingSessions::activation_diagnostics]. *)
Definition service_diagnostics (x : RadiusAccountingSessions) : list RadiusActivationDiagnostic :=
  map snd (map_to_list (activation_diagnostics_by_key x)) ++ recent_expired_activation_diagnostics x.

(** ** Deadlines *)

Definition expiry_duration_for (x : RadiusAccountingSessions) (state : AccountingSessionState)
    : Duration :=
  match state with
  | State_Stale _ => stale_grace (config x)
  | State_Active | State_Stopped => default_ttl (config x)
  end.

Definition expiry_deadline_for (x : RadiusAccountingSessions) (key : AccountingSessionKey)
    : option Instant :=
  session ← sessions (store x) !! key;
  updated_at ← updated_at x !! key;
  Some (updated_at + expiry_duration_for x (ses_state session)).

(** [Iterator::min]. *)
Definition iter_min (l : list Z) : option Z :=
  match l with [] => None | a :: l' => Some (fold_left Z.min l' a) end.

Definition next_expiry_deadline (x : RadiusAccountingSessions) : option Instant :=
  iter_min
    (omap (fun '(key, session) =>
         (fun updated_at => updated_at + expiry_duration_for x (ses_state session))
           <$> updated_at x !! key)
       (map_to_list (sessions (store x)))).

Definition next_changed_expiry_deadline (x : RadiusAccountingSessions)
    (update : AccountingSessionUpdate) : option Instant :=
  match update with
  | SessionUpdated key _ => expiry_deadline_for x key
  | NasSessionsMarkedStale _ _ _ newly_stale_session_keys _ =>
      iter_min (omap (expiry_deadline_for x) (elements newly_stale_session_keys))
  | Ignored _ => None
  end.

Definition cleanup_interval (default_ttl stale_grace : Duration) : Duration :=
  duration_from_secs (Z.min 60 (Z.max 1 (duration_as_secs (Z.min default_ttl stale_grace)))).

Definition expiry_check_interval (x : RadiusAccountingSessions) : Duration :=
  cleanup_interval (default_ttl (config x)) (stale_grace (config x)).

(** ** Expiry order *)

(** The tuples collected: deadline, update sequence, key. *)
Definition Expired : Type := Instant * Z * AccountingSessionKey.

(** The sort key order of [sort_by_key], strict. *)
Definition expired_before (a b : Expired) : bool :=
  (a.1.1 <? b.1.1) || ((a.1.1 =? b.1.1) && (a.1.2 <? b.1.2)).

(** [sort_by_key] is stable: an element goes behind those it does not precede. *)
Fixpoint insert_expired (e : Expired) (l : list Expired) : list Expired :=
  match l with
  | [] => [e]
  | e' :: l' => if expired_before e e' then e :: l else e' :: insert_expired e l'
  end.
Definition sort_expired (l : list Expired) : list Expired :=
  fold_left (fun sorted e => insert_expired e sorted) l [].

Definition expired_keys (x : RadiusAccountingSessions) (now : Instant) : list Expired :=
  sort_expired
    (omap (fun '(key, session) =>
         updated_at ← updated_at x !! key;
         let deadline := updated_at + expiry_duration_for x (ses_state session) in
         let update_sequence := default 0 (update_sequence_by_key x !! key) in
         if deadline <=? now then Some (deadline, update_sequence, key) else None)
       (map_to_list (sessions (store x)))).

Section Service.
Context {S : Type} `{Sink : !DynamicCircuitCommandSink S}.

(** The loop body for one expired key. *)
Definition expire_key (xs : RadiusAccountingSessions * S) (e : Expired) : RadiusAccountingSessions * S :=
  let '(x, sink) := xs in
  let key := e.2 in
  let x := set_times (delete key (updated_at x)) (delete key (update_sequence_by_key x))
             (next_update_sequence x) x in
  let '(s, expired_session, sink) := expire_session_with_commands (store x) key sink in
  let x := set_store s x in
  match expired_session with
  | Some session =>
      (set_diagnostics (delete key (activation_diagnostics_by_key x))
         (push_limited (recent_expired_activation_diagnostics x) (from_expired_session key session)
            RADIUS_RECENT_EXPIRED_DIAGNOSTIC_LIMIT) x, sink)
  | None => (x, sink)
  end.

Definition expire_due_with_command_sink (x : RadiusAccountingSessions) (now : Instant) (sink : S)
    : RadiusAccountingSessions * nat * S :=
  let expired_keys := expired_keys x now in
  let expired_count := length expired_keys in
  let '(x, sink) := fold_left expire_key expired_keys (x, sink) in
  (x, expired_count, sink).

(** ** Applying an event *)

Definition service_resolution (x : RadiusAccountingSessions) : DynamicCircuitResolution :=
  mkDynamicCircuitResolution
    (match fallback_parent (config x) with
     | Some parent => ReadyWithParent parent
     | None => Mapping_MissingParent
     end)
    (mkSessionRateSources None (fallback_rate_profile (config x))) None.

Definition apply_event_with_command_sink (x : RadiusAccountingSessions) (event : AccountingEvent)
    (now : Instant) (sink : S) : RadiusAccountingSessions * AccountingSessionUpdate * S :=
  let '(s, update, sink) :=
    match mac_matcher (config x) with
    | Some mac_matcher =>
        apply_event_with_shaped_devices_matcher_and_commands (store x) event mac_matcher
          (mkShapedDevicesMatchOptions (match_shaped_devices_by_username (config x))
             (match_shaped_devices_by_mac (config x)) (fallback_rate_profile (config x))
             (fallback_parent (config x))) sink
    | None =>
        apply_event_with_dynamic_circuit_resolution_and_commands (store x) event
          (service_resolution x) sink
    end in
  let x := record_update (set_store s x) update now in
  let x :=
    if (size (sessions (store x)) <? size (updated_at x))%nat
    then prune_retained_activation_diagnostics (prune_removed_sessions x)
    else x in
  (record_activation_diagnostics_for_update x update, update, sink).

(** ** The timer *)

Record RadiusExpiryTimer : Type := mkRadiusExpiryTimer { wake_at : Instant }.

Definition radius_expiry_wake_at (x : RadiusAccountingSessions) (now : Instant) : Instant :=
  let next_cleanup := now + expiry_check_interval x in
  match next_expiry_deadline x with
  | None => next_cleanup
  | Some deadline => Z.min deadline next_cleanup
  end.

Definition RadiusExpiryTimer_new (x : RadiusAccountingSessions) (now : Instant) : RadiusExpiryTimer :=
  mkRadiusExpiryTimer (radius_expiry_wake_at x now).

Definition reset_from_sessions (x : RadiusAccountingSessions) (now : Instant) : RadiusExpiryTimer :=
  mkRadiusExpiryTimer (radius_expiry_wake_at x now).

Definition schedule_after_update (t : RadiusExpiryTimer) (x : RadiusAccountingSessions)
    (update : AccountingSessionUpdate) (now : Instant) : RadiusExpiryTimer :=
  let next_wake_at :=
    match next_changed_expiry_deadline x update with
    | Some deadline => Z.min deadline (now + expiry_check_interval x)
    | None => wake_at t
    end in
  if next_wake_at <? wake_at t then mkRadiusExpiryTimer next_wake_at else t.

Definition is_due (t : RadiusExpiryTimer) (now : Instant) : bool := wake_at t <=? now.

(** ** The sink in use *)

(** [SelectedDynamicCircuitSink]: the applying sink when application is enabled; the deferred sink
    only logs. *)
Inductive SelectedDynamicCircuitSink : Type :=
| Selected_Applying (sink : S)
| Selected_Deferred.

#[export] Instance Selected_sink : DynamicCircuitCommandSink SelectedDynamicCircuitSink :=
  fun selected intent =>
    match selected with
    | Selected_Applying sink => Selected_Applying (emit sink intent)
    | Selected_Deferred => Selected_Deferred
    end.

Definition selected_dynamic_circuit_sink (applying_sink : option S) : SelectedDynamicCircuitSink :=
  match applying_sink with
  | None => Selected_Deferred
  | Some sink => Selected_Applying sink
  end.

(** The borrowed sink after the call. *)
Definition applying_sink_of (selected : SelectedDynamicCircuitSink) : option S :=
  match selected with Selected_Applying sink => Some sink | Selected_Deferred => None end.

End Service.

Arguments SelectedDynamicCircuitSink S : clear implicits.

(** ** The listener loop *)

Section Loop.
Context {S : Type} `{Sink : !DynamicCircuitCommandSink S} {IoError : Type}.

(** What the loop of [run_radius_accounting_listener] owns. *)
Record ServiceState : Type := mkServiceState {
  svc_sessions : RadiusAccountingSessions;
  svc_timer : RadiusExpiryTimer;
  svc_sink : option S
}.

Definition start_service (c : RadiusAccountingConfig) (now : Instant) (sink : option S) : ServiceState :=
  let x := new_with_fallback_and_identity_matcher c in
  mkServiceState x (RadiusExpiryTimer_new x now) sink.

Definition expire_due_with_application_sink (x : RadiusAccountingSessions) (now : Instant)
    (applying_sink : option S) : RadiusAccountingSessions * nat * option S :=
  let '(x, count, selected) :=
    expire_due_with_command_sink x now (selected_dynamic_circuit_sink applying_sink) in
  (x, count, applying_sink_of selected).

Definition expire_due_after_timer_wake (st : ServiceState) (now : Instant) : ServiceState :=
  let '(x, _, sink) := expire_due_with_application_sink (svc_sessions st) now (svc_sink st) in
  mkServiceState x (reset_from_sessions x now) sink.

Definition expire_due_before_packet (st : ServiceState) (now : Instant) : ServiceState :=
  if is_due (svc_timer st) now then expire_due_after_timer_wake st now else st.

Definition handle_accounting_event (st : ServiceState) (event : AccountingEvent) (now : Instant)
    : ServiceState :=
  let '(x, update, selected) :=
    apply_event_with_command_sink (svc_sessions st) event now
      (selected_dynamic_circuit_sink (svc_sink st)) in
  mkServiceState x (schedule_after_update (svc_timer st) x update now) (applying_sink_of selected).

Definition set_svc_sessions (x : RadiusAccountingSessions) (st : ServiceState) : ServiceState :=
  mkServiceState x (svc_timer st) (svc_sink st).

Definition handle_listener_outcome_with_application_sink (st : ServiceState)
    (outcome : AccountingListenerOutcome) (now : Instant) : ServiceState :=
  match outcome with
  | Accepted accepted =>
      let st := set_svc_sessions (record_packet_accepted (svc_sessions st)) st in
      handle_accounting_event st (from_verified (received_verified_request accepted)) now
  | RejectedSource _ _ | RejectedAmbiguousSource _ _ | RejectedPacket _ _ _ =>
      set_svc_sessions (record_packet_rejected (svc_sessions st)) st
  end.

Definition listener_error_is_recoverable (err : ListenerError IoError) : bool :=
  match err with Listener_Send _ _ => true | _ => false end.

(** What one turn of [select!] waited for. *)
Inductive LoopEvent : Type :=
| Loop_Received (outcome : result (ListenerError IoError) AccountingListenerOutcome)
| Loop_TimerWoke.

(** One turn of the loop at time [now]; the flag says whether the loop goes on. *)
Definition loop_turn (st : ServiceState) (event : LoopEvent) (now : Instant) : ServiceState * bool :=
  match event with
  | Loop_Received received =>
      let st := expire_due_before_packet st now in
      match received with
      | Ok outcome => (handle_listener_outcome_with_application_sink st outcome now, true)
      | Err err => (st, listener_error_is_recoverable err)
      end
  | Loop_TimerWoke => (expire_due_after_timer_wake st now, true)
  end.

(** The states of a loop started at time [t0], with the time of the last turn.  The clock never goes
    back, and the timer does not wake early. *)
Inductive service_run (c : RadiusAccountingConfig) (t0 : Instant) (sink : option S)
    : ServiceState -> Instant -> Prop :=
| run_start : service_run c t0 sink (start_service c t0 sink) t0
| run_turn st t event now :
    service_run c t0 sink st t -> t <= now ->
    (event = Loop_TimerWoke -> wake_at (svc_timer st) <= now) ->
    service_run c t0 sink (loop_turn st event now).1 now.

End Loop.

Arguments ServiceState S : clear implicits.
Arguments LoopEvent IoError : clear implicits.
