(* ===== verification/RadiusServiceSpec.v ===== *)
(** * What the accounting service guarantees

    Over every run of the listener loop: each retained session has an update time and an exact
    diagnostic, the timer wakes no later than the next deadline, and no session outlives its own. *)

From S2P Require Import Prelude RustStd AccountingEvent ShapedDevice MacMatch.
From S2P Require Import SessionTypes SessionMetadata SessionStore SessionCommands.
From S2P Require Import SessionMetadataSpec SessionIndex SessionStoreSpec SessionCommandsSpec.
From S2P Require Import RadiusPacket Listener RadiusService.
From Stdlib Require Import Sorting.Sorted.

(** ** What one event does to the session map *)

(** Keys whose session an update may have changed. *)
Definition touches (update : AccountingSessionUpdate) (key : AccountingSessionKey) : Prop :=
  match update with
  | SessionUpdated key' _ => key = key'
  | NasSessionsMarkedStale _ _ _ _ stale => key ∈ stale
  | Ignored _ => False
  end.

(** Keys whose time an update sets. *)
Definition times_reset (update : AccountingSessionUpdate) (key : AccountingSessionKey) : Prop :=
  match update with
  | SessionUpdated key' _ => key = key'
  | NasSessionsMarkedStale _ _ _ newly _ => key ∈ newly
  | Ignored _ => False
  end.

Record event_effect (s s' : AccountingSessionStore) (update : AccountingSessionUpdate) : Prop := {
  effect_touched : forall key, touches update key -> is_Some (sessions s' !! key);
  effect_frame : forall key, ~ touches update key ->
    sessions s' !! key = sessions s !! key \/ sessions s' !! key = None;
  effect_times : forall key, times_reset update key -> touches update key;
  effect_known : forall key, ~ times_reset update key -> is_Some (sessions s' !! key) ->
    is_Some (sessions s !! key);
  effect_stale : forall key x x', ~ times_reset update key ->
    sessions s !! key = Some x -> sessions s' !! key = Some x' ->
    is_stale (ses_state x) = is_stale (ses_state x')
}.

Lemma after_update_sessions s key state x :
  sessions s !! key = Some x ->
  sessions (after_update s (SessionUpdated key state)) =
  <[key := (session_outcome key state x).1]> (sessions s).
Proof. intros Hx. cbn [after_update]. by rewrite Hx. Qed.

Lemma apply_event_effect {S} `{DynamicCircuitCommandSink S} s event resolve (sink : S) s' update sink' :
  store_ok s ->
  and_commands (apply_event_with_resolution_resolver s event resolve) sink = (s', update, sink') ->
  store_ok s' /\ event_effect s s' update.
Proof.
  intros Hok. pose proof (apply_event_ok s event resolve Hok) as Hok1.
  destruct (apply_event_with_resolution_resolver s event resolve) as [s1 u] eqn:Happ. cbn in Hok1.
  rewrite and_commands_spec by done. intros [= <- -> _]. split; [by apply after_update_ok|].
  assert (forall state, apply_session_state s event resolve state = (s1, update) ->
    event_effect s (after_update s1 update) update) as Hsession.
  { intros state Heq. destruct (apply_session_state_spec s event resolve state Hok) as (s2 & Heq2 & Hs & _).
    rewrite Heq in Heq2. injection Heq2 as -> ->. set (key := resolution_key (resolve_session_key s event)) in *.
    pose proof (after_update_sessions s2 key state) as Hau. rewrite Hs, lookup_insert_eq in Hau.
    specialize (Hau _ eq_refl). rewrite insert_insert_eq in Hau. clear Hs.
    assert (forall k, k <> key -> sessions (after_update s2 (SessionUpdated key state)) !! k =
      delete_keys (sessions s) (previous_keys (resolve_session_key s event)) !! k) as Hne.
    { intros k Hk. by rewrite Hau, lookup_insert_ne. }
    split; cbn [touches times_reset].
    - intros k ->. rewrite Hau, lookup_insert_eq. by eexists.
    - intros k Hk. rewrite Hne, lookup_delete_keys by done. case_bool_decide; tauto.
    - done.
    - intros k Hk. rewrite Hne, lookup_delete_keys by done. case_bool_decide; [by intros [? ?]|done].
    - intros k x x' Hk Hx. rewrite Hne, lookup_delete_keys by done.
      case_bool_decide; [done|]. rewrite Hx. by intros [= ->]. }
  assert (forall reset, mark_nas_sessions_stale s event reset = (s1, update) ->
    event_effect s (after_update s1 update) update) as Hmark.
  { intros reset Heq. destruct (primary (NasIdentitySet_from_event event)) as [nas|] eqn:Hnas.
    - destruct (mark_nas_sessions_stale_spec s event reset nas Hnas)
        as (s2 & count & newly & stale & Heq2 & Hs & Hstale & Hnewly & _).
      rewrite Heq in Heq2. injection Heq2 as -> ->. cbn [after_update].
      split; cbn [touches times_reset].
      + intros k (x & Hx & _)%Hstale. rewrite Hs, Hx. by eexists.
      + intros k Hk. left. rewrite Hs. destruct (sessions s !! k) as [x|] eqn:Hx; [|done]. cbn.
        unfold reset_session. destruct (session_matches_identities _ _ _) eqn:Hm; [|done].
        destruct Hk. apply Hstale. by exists x.
      + intros k (x & Hx & Hm & _)%Hnewly. apply Hstale. by exists x.
      + intros k _. rewrite Hs. by destruct (sessions s !! k).
      + intros k x x' Hk Hx. rewrite Hs, Hx. cbn. unfold reset_session. intros [= <-].
        destruct (session_matches_identities _ _ _) eqn:Hm; [|done]. cbn.
        destruct (is_stale (ses_state x)) eqn:Hst; [done|]. destruct Hk. apply Hnewly. by exists x.
    - unfold mark_nas_sessions_stale in Heq. rewrite Hnas in Heq. injection Heq as -> <-. cbn.
      split; cbn; naive_solver. }
  unfold apply_event_with_resolution_resolver in Happ.
  destruct (ev_status_type event) as [[]|]; eauto; injection Happ as -> <-; cbn;
    split; cbn; naive_solver.
Qed.

(** ** Recording an update *)

(** What recording times leaves alone. *)
Definition same_but_times (x y : RadiusAccountingSessions) : Prop :=
  store y = store x /\ activation_diagnostics_by_key y = activation_diagnostics_by_key x
  /\ recent_expired_activation_diagnostics y = recent_expired_activation_diagnostics x
  /\ config y = config x.

Record times_recorded (now : Instant) (reset : AccountingSessionKey -> Prop)
    (x y : RadiusAccountingSessions) : Prop := {
  times_frame : same_but_times x y;
  times_set : forall key, reset key -> updated_at y !! key = Some now;
  times_kept : forall key, ~ reset key -> updated_at y !! key = updated_at x !! key;
  sequences_set : forall key, reset key -> is_Some (update_sequence_by_key y !! key);
  sequences_kept : forall key, ~ reset key ->
    update_sequence_by_key y !! key = update_sequence_by_key x !! key
}.

Lemma record_session_update_time_spec x key now :
  times_recorded now (fun k => k = key) x (record_session_update_time x key now).
Proof.
  split; cbn; [by split_and!|..]; intros k; [intros ->|intros Hk|intros ->|intros Hk];
    by simplify_map_eq.
Qed.

Lemma record_stale_time_spec x key now :
  times_recorded now (fun k => k = key) x (record_stale_time now x key).
Proof.
  unfold record_stale_time. destruct (update_sequence_by_key x !! key) eqn:Hseq.
  - split; cbn; [by split_and!|..]; intros k; [intros ->|intros Hk|intros ->|intros Hk];
      by simplify_map_eq.
  - apply record_session_update_time_spec.
Qed.

Lemma record_update_spec x update now :
  times_recorded now (times_reset update) x (record_update x update now).
Proof.
  destruct update as [key ?|nas reset count newly stale|]; cbn [record_update times_reset].
  - apply record_session_update_time_spec.
  - assert (forall l x, times_recorded now (fun k => k ∈ l) x (fold_left (record_stale_time now) l x)) as Hfold.
    { induction l as [|key l IH]; intros x'; cbn [fold_left].
      - split; [by split_and!|..]; intros k; set_solver.
      - destruct (record_stale_time_spec x' key now) as [(?&?&?&?) Hs Hk Hqs Hqk].
        destruct (IH (record_stale_time now x' key)) as [(?&?&?&?) Is Ik Iqs Iqk].
        split; [split_and!; congruence|..]; intros k; destruct (decide (k ∈ l)) as [Hl|Hl]; auto.
        + intros [->|?]%elem_of_cons; [|done]. rewrite Ik by done. by apply Hs.
        + set_solver.
        + intros Hn. rewrite Ik, Hk by set_solver. done.
        + intros [->|?]%elem_of_cons; [|done]. rewrite Iqk by done. by apply Hqs.
        + set_solver.
        + intros Hn. rewrite Iqk, Hqk by set_solver. done. }
    destruct (Hfold (elements newly) x) as [? Is Ik Iqs Iqk].
    setoid_rewrite elem_of_elements in Is. setoid_rewrite elem_of_elements in Ik.
    setoid_rewrite elem_of_elements in Iqs. setoid_rewrite elem_of_elements in Iqk. by split.
  - split; [by split_and!|..]; cbn; by intros ?.
Qed.

(** Recording diagnostics sets those of the touched keys. *)
Record diagnostics_recorded (touched : AccountingSessionKey -> Prop)
    (x y : RadiusAccountingSessions) : Prop := {
  diag_frame : store y = store x /\ updated_at y = updated_at x
    /\ update_sequence_by_key y = update_sequence_by_key x /\ config y = config x;
  diag_set : forall key, touched key ->
    activation_diagnostics_by_key y !! key = from_retained_session key <$> sessions (store x) !! key;
  diag_kept : forall key, ~ touched key ->
    activation_diagnostics_by_key y !! key = activation_diagnostics_by_key x !! key;
  recent_kept : recent_expired_activation_diagnostics y `sublist_of` recent_expired_activation_diagnostics x;
  recent_touched : forall d, d ∈ recent_expired_activation_diagnostics y ->
    touched (diag_session_key d) -> sessions (store x) !! diag_session_key d = None
}.

Lemma remove_recent_spec l key :
  remove_recent_expired_activation_diagnostic l key =
  List.filter (fun d => negb (bool_decide (diag_session_key d = key))) l.
Proof. by destruct l. Qed.

Lemma sublist_list_filter {A} (p : A -> bool) l : List.filter p l `sublist_of` l.
Proof. induction l as [|a l IH]; cbn; [done|]. destruct (p a); by constructor. Qed.

Lemma sublist_map {A B} (f : A -> B) l k : l `sublist_of` k -> map f l `sublist_of` map f k.
Proof. induction 1; cbn; by constructor. Qed.

Lemma record_retained_spec x key :
  diagnostics_recorded (fun k => k = key) x (record_retained_activation_diagnostic x key).
Proof.
  unfold record_retained_activation_diagnostic. destruct (sessions (store x) !! key) as [ses|] eqn:Hs.
  - split; cbn; rewrite ?remove_recent_spec; [done|..].
    + intros k ->. by rewrite Hs, lookup_insert_eq.
    + intros k Hk. by rewrite lookup_insert_ne.
    + apply sublist_list_filter.
    + intros d [_ Hd%Is_true_true]%list_elem_of_In%filter_In Hk; by rewrite Hk, bool_decide_true in Hd.
  - split; cbn; [done|..].
    + intros k ->. by rewrite Hs, lookup_delete_eq.
    + intros k Hk. by rewrite lookup_delete_ne.
    + done.
    + by intros d _ ->.
Qed.

Lemma record_diagnostics_spec x update :
  diagnostics_recorded (touches update) x (record_activation_diagnostics_for_update x update).
Proof.
  destruct update as [key ?|nas reset count newly stale|]; cbn [record_activation_diagnostics_for_update touches].
  - apply record_retained_spec.
  - assert (forall l x, diagnostics_recorded (fun k => k ∈ l) x
      (fold_left record_retained_activation_diagnostic l x)) as Hfold.
    { induction l as [|key l IH]; intros x'; cbn [fold_left].
      - split; [done|..]; set_solver.
      - destruct (record_retained_spec x' key) as [(Es&?&?&?) Hs Hk Hr Ht].
        destruct (IH (record_retained_activation_diagnostic x' key)) as [(?&?&?&?) Is Ik Ir It].
        rewrite Es in *.
        split; [split_and!; congruence|..].
        + intros k Hin. destruct (decide (k ∈ l)) as [Hl|Hl]; [by apply Is|].
          rewrite Ik by done. apply Hs. set_solver.
        + intros k Hn. rewrite Ik, Hk by set_solver. done.
        + by etrans.
        + intros d Hd [Heq|Hin]%elem_of_cons; [|by apply It].
          apply Ht; [|done]. by eapply sublist_subseteq. }
    destruct (Hfold (elements stale) x) as [? Is Ik Ir It].
    setoid_rewrite elem_of_elements in Is. setoid_rewrite elem_of_elements in Ik.
    setoid_rewrite elem_of_elements in It. by split.
  - split; cbn; try done.
Qed.

(** ** The service invariant *)

Record service_ok (x : RadiusAccountingSessions) : Prop := {
  svc_store_ok : store_ok (store x);
  svc_times : forall key, is_Some (updated_at x !! key) <-> is_Some (sessions (store x) !! key);
  svc_sequences : forall key,
    is_Some (update_sequence_by_key x !! key) <-> is_Some (sessions (store x) !! key);
  svc_diagnostics : forall key,
    activation_diagnostics_by_key x !! key = from_retained_session key <$> sessions (store x) !! key;
  svc_expired : forall d, d ∈ recent_expired_activation_diagnostics x ->
    diag_state d = Diagnostic_Expired /\ sessions (store x) !! diag_session_key d = None;
  svc_expired_distinct : NoDup (map diag_session_key (recent_expired_activation_diagnostics x));
  svc_expired_bounded :
    (length (recent_expired_activation_diagnostics x) <= RADIUS_RECENT_EXPIRED_DIAGNOSTIC_LIMIT)%nat
}.

Lemma service_ok_new c : service_ok (new_with_fallback_and_identity_matcher c).
Proof.
  split; cbn; try (intros; by rewrite ?lookup_empty).
  - apply store_ok_new.
  - set_solver.
  - constructor.
  - unfold RADIUS_RECENT_EXPIRED_DIAGNOSTIC_LIMIT. lia.
Qed.

Lemma service_ok_counters x c : service_ok x -> service_ok (set_packet_counters c x).
Proof. by intros []. Qed.

Lemma lookup_retain {A} x (m : gmap AccountingSessionKey A) key :
  retain_retained x m !! key = if decide (is_Some (sessions (store x) !! key)) then m !! key else None.
Proof.
  unfold retain_retained. rewrite map_lookup_filter.
  destruct (m !! key) as [a|]; cbn; [|by case_decide].
  case_decide; [by rewrite option_guard_True|by rewrite option_guard_False].
Qed.

(** The [if] that prunes: times and diagnostics of sessions that are gone. *)
Definition pruned (x : RadiusAccountingSessions) : RadiusAccountingSessions :=
  if (size (sessions (store x)) <? size (updated_at x))%nat
  then prune_retained_activation_diagnostics (prune_removed_sessions x) else x.

Lemma same_dom_of_size {A B} (m : gmap AccountingSessionKey A) (n : gmap AccountingSessionKey B) :
  (forall key, is_Some (n !! key) -> is_Some (m !! key)) -> (size m <= size n)%nat ->
  forall key, is_Some (m !! key) -> is_Some (n !! key).
Proof.
  intros Hsub Hsize.
  assert (dom n = dom m) as Hdom.
  { apply leibniz_equiv, set_subseteq_size_equiv.
    - intros key. rewrite !elem_of_dom. apply Hsub.
    - by rewrite !size_dom. }
  intros key. rewrite <- !elem_of_dom, Hdom. done.
Qed.

(** When every session has a time, pruning leaves exactly the times of the sessions. *)
Lemma pruned_spec x :
  (forall key, is_Some (sessions (store x) !! key) -> is_Some (updated_at x !! key)) ->
  (forall key, is_Some (updated_at x !! key) <-> is_Some (update_sequence_by_key x !! key)) ->
  let y := pruned x in
  store y = store x /\ config y = config x
  /\ recent_expired_activation_diagnostics y = recent_expired_activation_diagnostics x
  /\ (forall key, updated_at y !! key =
        if decide (is_Some (sessions (store x) !! key)) then updated_at x !! key else None)
  /\ (forall key, update_sequence_by_key y !! key =
        if decide (is_Some (sessions (store x) !! key)) then update_sequence_by_key x !! key else None)
  /\ (forall key, is_Some (sessions (store x) !! key) ->
        activation_diagnostics_by_key y !! key = activation_diagnostics_by_key x !! key)
  /\ (forall key, sessions (store x) !! key = None ->
        activation_diagnostics_by_key y !! key = None
        \/ updated_at x !! key = None
           /\ activation_diagnostics_by_key y !! key = activation_diagnostics_by_key x !! key).
Proof.
  intros Hcover Hseq. unfold pruned. case_match eqn:Hsize; to_prop; cbn.
  - split_and!; try done; intros key; rewrite !lookup_retain; [done|done|..].
    + intros Hs. cbn. by rewrite decide_True.
    + intros Hs. cbn. rewrite decide_False; [by left|]. rewrite Hs. by intros [].
  - pose proof (same_dom_of_size (updated_at x) (sessions (store x)) Hcover Hsize) as Hback.
    split_and!; try done.
    + intros key. case_decide as Hs; [done|]. apply eq_None_not_Some. eauto.
    + intros key. case_decide as Hs; [done|]. apply eq_None_not_Some. rewrite <- Hseq. eauto.
    + intros key Hs. right. split; [|done]. apply eq_None_not_Some. intros Hu%Hback.
      rewrite Hs in Hu. by destruct Hu.
Qed.

Record applied (now : Instant) (x y : RadiusAccountingSessions) (update : AccountingSessionUpdate)
    : Prop := {
  applied_ok : service_ok y;
  applied_config : config y = config x;
  applied_effect : event_effect (store x) (store y) update;
  applied_set : forall key, times_reset update key -> updated_at y !! key = Some now;
  applied_kept : forall key, ~ times_reset update key -> is_Some (sessions (store y) !! key) ->
    updated_at y !! key = updated_at x !! key
}.

#[local] Instance times_reset_dec update key : Decision (times_reset update key).
Proof. destruct update; cbn; apply _. Defined.
#[local] Instance touches_dec update key : Decision (touches update key).
Proof. destruct update; cbn; apply _. Defined.

(** The bookkeeping after the store applied an update. *)
Definition bookkeeping (x : RadiusAccountingSessions) (s : AccountingSessionStore)
    (update : AccountingSessionUpdate) (now : Instant) : RadiusAccountingSessions :=
  record_activation_diagnostics_for_update
    (pruned (record_update (set_store s x) update now)) update.

Lemma bookkeeping_spec x s update now :
  service_ok x -> store_ok s -> event_effect (store x) s update ->
  applied now x (bookkeeping x s update now) update.
Proof.
  intros [Hok Htimes Hseqs Hdiags Hexp Hnd Hlen] Hs [Etouch Eframe Etimes Eknown Estale].
  unfold bookkeeping.
  destruct (record_update_spec (set_store s x) update now) as [(F1&F2&F3&F4) Ts Tk Qs Qk]. cbn in *.
  set (y := record_update (set_store s x) update now) in *.
  destruct (pruned_spec y) as (P1&P2&P3&P4&P5&P6&P7).
  { intros key. rewrite F1. intros Hk. destruct (decide (times_reset update key)) as [Hr|Hr].
    - rewrite Ts by done. by eexists.
    - rewrite Tk by done. by apply Htimes, Eknown. }
  { intros key. destruct (decide (times_reset update key)) as [Hr|Hr].
    - rewrite Ts by done. split; [by intros _; apply Qs|by eexists].
    - rewrite Tk, Qk by done. by rewrite Htimes, Hseqs. }
  rewrite F1 in *. set (z := pruned y) in *. clearbody y z.
  destruct (record_diagnostics_spec z update) as [(D1&D2&D3&D4) Ds Dk Dr Dt]. rewrite P1 in *.
  set (w := record_activation_diagnostics_for_update z update) in *. clearbody w.
  rewrite P3, F3 in Dr.
  assert (forall key, times_reset update key -> is_Some (sessions s !! key)) as Hreset by eauto.
  split; [split|..].
  - by rewrite D1.
  - intros key. rewrite D1, D2, P4. case_decide as Hk; [|done].
    split; [done|intros _]. destruct (decide (times_reset update key)) as [Hr|Hr].
    + rewrite Ts by done. by eexists.
    + rewrite Tk by done. by apply Htimes, Eknown.
  - intros key. rewrite D1, D3, P5. case_decide as Hk; [|done].
    split; [done|intros _]. destruct (decide (times_reset update key)) as [Hr|Hr].
    + by apply Qs.
    + rewrite Qk by done. by apply Hseqs, Eknown.
  - intros key. rewrite D1. destruct (decide (touches update key)) as [Ht|Ht]; [by apply Ds|].
    rewrite Dk by done. destruct (Eframe key Ht) as [Hf|Hf].
    + destruct (sessions s !! key) as [ses|] eqn:Hses.
      * rewrite P6 by (rewrite Hses; by eexists). by rewrite F2, Hdiags, <- Hf.
      * destruct (P7 key Hses) as [->|[_ ->]]; [done|]. by rewrite F2, Hdiags, <- Hf.
    + rewrite Hf. destruct (P7 key Hf) as [->|[Hu ->]]; [done|].
      rewrite Tk in Hu by (intros Hr; by apply Ht, Etimes).
      rewrite F2, Hdiags. cbn. destruct (sessions (store x) !! key) eqn:Hx; [|done].
      assert (is_Some (updated_at x !! key)) as [? Hu'] by (apply Htimes; by eexists). by rewrite Hu in Hu'.
  - intros d Hd. destruct (Hexp d) as [Hst Hgone]; [by eapply sublist_subseteq|]. split; [done|].
    rewrite D1. destruct (decide (touches update (diag_session_key d))) as [Ht|Ht]; [by apply Dt|].
    destruct (Eframe _ Ht) as [->|]; done.
  - eapply sublist_NoDup; [exact Hnd|]. by apply sublist_map.
  - etrans; [by apply sublist_length|done].
  - by rewrite D4, P2, F4.
  - by rewrite D1.
  - intros key Hr. rewrite D2, P4, decide_True by eauto. by apply Ts.
  - intros key Hr. rewrite D1. intros Hk. rewrite D2, P4, decide_True by done. by apply Tk.
Qed.

Section Apply.
Context {S : Type} `{Sink : !DynamicCircuitCommandSink S}.

(** The resolver the configuration selects. *)
Definition service_resolver (x : RadiusAccountingSessions) : AccountingEvent -> DynamicCircuitResolution :=
  match mac_matcher (config x) with
  | Some mac_matcher => fun latest_event =>
      from_shaped_devices_identity_match
        (match_event_with_identities mac_matcher latest_event
           (match_shaped_devices_by_username (config x)) (match_shaped_devices_by_mac (config x)))
        (fallback_rate_profile (config x)) (fallback_parent (config x))
  | None => fun _ => service_resolution x
  end.

Lemma apply_event_with_command_sink_eq x event now (sink : S) :
  apply_event_with_command_sink x event now sink =
  let '(s, update, sink) :=
    and_commands (apply_event_with_resolution_resolver (store x) event (service_resolver x)) sink in
  (bookkeeping x s update now, update, sink).
Proof.
  unfold apply_event_with_command_sink, service_resolver.
  destruct (mac_matcher (config x)); reflexivity.
Qed.

Lemma apply_event_service x event now (sink : S) y update sink' :
  service_ok x -> apply_event_with_command_sink x event now sink = (y, update, sink') ->
  applied now x y update.
Proof.
  intros Hx. rewrite apply_event_with_command_sink_eq.
  destruct (and_commands _ sink) as [[s u] sink1] eqn:Hc. intros [= <- -> _].
  destruct (apply_event_effect _ _ _ _ _ _ _ (svc_store_ok _ Hx) Hc) as [Hs He].
  by apply bookkeeping_spec.
Qed.
End Apply.

(** ** Expiry *)

Lemma push_limited_sublist {A} (l : list A) a limit : push_limited l a limit `sublist_of` l ++ [a].
Proof.
  unfold push_limited. case_match; [by apply sublist_inserts_r|apply sublist_drop].
Qed.

Lemma push_limited_length {A} (l : list A) a limit :
  (length l <= limit)%nat -> (length (push_limited l a limit) <= limit)%nat.
Proof. unfold push_limited. case_match; [done|]. rewrite length_drop. lia. Qed.

#[local] Arguments push_limited : simpl never.

Section Expiry.
Context {S : Type} `{Sink : !DynamicCircuitCommandSink S}.

Lemma expire_key_spec x (sink : S) e :
  service_ok x -> is_Some (sessions (store x) !! e.2) ->
  exists y, expire_key (x, sink) e = (y, emit_all sink (expiry_intents (store x) e.2))
    /\ service_ok y /\ config y = config x
    /\ sessions (store y) = delete e.2 (sessions (store x))
    /\ updated_at y = delete e.2 (updated_at x).
Proof.
  intros [Hok Htimes Hseqs Hdiags Hexp Hnd Hlen] [ses Hses].
  unfold expire_key. cbn [store set_times].
  destruct (expire_session_spec (store x) e.2 Hok) as (s & Heq & Hs & Hidx & _).
  rewrite Heq, Hses. cbn. eexists. split; [done|].
  assert (store_ok s) as Hsok by (eapply expire_ok; [exact Hok|apply (Heq S Sink sink)]).
  set (d := from_expired_session e.2 (set_active_ids [] ses)).
  assert (diag_session_key d = e.2) as Hdk by done.
  pose proof (push_limited_sublist (recent_expired_activation_diagnostics x) d
    RADIUS_RECENT_EXPIRED_DIAGNOSTIC_LIMIT) as Hsub.
  split_and!; cbn; try done; split; cbn [store set_diagnostics set_store set_times updated_at
    update_sequence_by_key activation_diagnostics_by_key recent_expired_activation_diagnostics];
    rewrite ?Hs; try done.
  - intros key. rewrite !lookup_delete. case_decide; [|done]. split; by intros [].
  - intros key. rewrite !lookup_delete. case_decide; [|done]. split; by intros [].
  - intros key. rewrite !lookup_delete. by case_decide.
  - intros d' Hd'. apply (sublist_subseteq _ _ Hsub) in Hd'.
    apply elem_of_app in Hd' as [Hin| ->%list_elem_of_singleton].
    + destruct (Hexp d' Hin) as [? Hgone]. split; [done|]. rewrite lookup_delete. by case_decide.
    + by rewrite Hdk, lookup_delete_eq.
  - eapply sublist_NoDup; [|by apply sublist_map].
    rewrite map_app. apply NoDup_app. split_and!; [done| |apply NoDup_singleton].
    intros k Hk ->%list_elem_of_singleton. apply list_elem_of_fmap in Hk as (d' & Heq' & Hd').
    destruct (Hexp d' Hd') as [_ Hgone]. by rewrite <- Heq', Hdk, Hses in Hgone.
  - by apply push_limited_length.
Qed.

Lemma expire_keys_spec l : forall x (sink : S),
  service_ok x -> NoDup (map snd l) ->
  (forall e, e ∈ l -> is_Some (sessions (store x) !! e.2)) ->
  exists y, fold_left expire_key l (x, sink) =
      (y, emit_all sink (concat (map (fun e => expiry_intents (store x) e.2) l)))
    /\ service_ok y /\ config y = config x
    /\ (forall key, sessions (store y) !! key =
          if decide (key ∈ map snd l) then None else sessions (store x) !! key)
    /\ (forall key, updated_at y !! key =
          if decide (key ∈ map snd l) then None else updated_at x !! key).
Proof.
  induction l as [|e l IH]; intros x sink Hx Hnd Hin.
  - exists x. cbn. split_and!; try done; intros key; rewrite decide_False by set_solver; done.
  - cbn [fold_left map] in *. apply NoDup_cons in Hnd as [He Hnd].
    destruct (expire_key_spec x sink e Hx) as (y & -> & Hy & Hc & Hs & Hu); [apply Hin; left|].
    destruct (IH y (emit_all sink (expiry_intents (store x) e.2)) Hy Hnd) as (z & -> & Hz & Hzc & Hzs & Hzu).
    { intros e' He'. rewrite Hs, lookup_delete_ne; [apply Hin; by right|].
      intros Heq. apply He. rewrite Heq. by apply list_elem_of_fmap_2. }
    exists z. split_and!; [|done|congruence|..].
    + cbn [concat]. rewrite emit_all_app. do 3 f_equal. apply map_ext_in. intros e' He'.
      unfold expiry_intents. rewrite Hs, lookup_delete_ne; [done|].
      intros Heq. apply He. rewrite Heq. apply list_elem_of_In in He'. by apply list_elem_of_fmap_2.
    + intros key. rewrite Hzs, Hs, lookup_delete. repeat case_decide; set_solver.
    + intros key. rewrite Hzu, Hu, lookup_delete. repeat case_decide; set_solver.
Qed.
End Expiry.

(** The expired keys are those past their deadline, once each, the earliest first. *)

Lemma insert_expired_perm e l : insert_expired e l ≡ₚ e :: l.
Proof.
  induction l as [|e' l IH]; cbn; [done|]. case_match; [done|]. rewrite IH. apply Permutation_swap.
Qed.

Lemma sort_expired_perm l : sort_expired l ≡ₚ l.
Proof.
  unfold sort_expired. rewrite <- (app_nil_r l) at 2. generalize (@nil Expired) as acc.
  induction l as [|e l IH]; intros acc; cbn; [done|].
  rewrite IH, insert_expired_perm. by rewrite Permutation_middle.
Qed.

Definition expired_le (a b : Expired) : Prop := expired_before b a = false.

#[local] Instance expired_le_trans : Transitive expired_le.
Proof. intros [[a1 a2] ?] [[b1 b2] ?] [[c1 c2] ?]; unfold expired_le, expired_before; cbn; lia. Qed.

Lemma insert_expired_sorted e l :
  StronglySorted expired_le l -> StronglySorted expired_le (insert_expired e l).
Proof.
  induction 1 as [|e' l Hs IH Hall]; cbn; [repeat constructor|].
  destruct (expired_before e e') eqn:He.
  - assert (expired_le e e') as Hle.
    { revert He. unfold expired_le, expired_before. destruct e as [[]], e' as [[]]; cbn. lia. }
    constructor; [by constructor|]. constructor; [done|].
    eapply Forall_impl; [exact Hall|]. intros b Hb. by etrans.
  - constructor; [done|]. rewrite insert_expired_perm. by constructor.
Qed.

Lemma sort_expired_sorted l : StronglySorted expired_le (sort_expired l).
Proof.
  unfold sort_expired. assert (StronglySorted expired_le []) as Hacc by constructor.
  revert Hacc. generalize (@nil Expired) as acc. induction l as [|e l IH]; intros acc Hacc; cbn; [done|].
  by apply IH, insert_expired_sorted.
Qed.

Lemma StronglySorted_weaken {A} (R Q : A -> A -> Prop) l :
  (forall a b, R a b -> Q a b) -> StronglySorted R l -> StronglySorted Q l.
Proof.
  intros Himp. induction 1 as [|a l _ IH Hall]; constructor; [done|].
  eapply Forall_impl; [exact Hall|]. apply Himp.
Qed.

Lemma elem_of_expired_keys x now key :
  key ∈ map snd (expired_keys x now) <->
  exists d, expiry_deadline_for x key = Some d /\ d <= now.
Proof.
  unfold expired_keys. rewrite sort_expired_perm, list_elem_of_fmap. unfold expiry_deadline_for.
  setoid_rewrite list_elem_of_omap. split.
  - intros (e & -> & [k ses] & Hin%elem_of_map_to_list & He). cbn in He.
    destruct (updated_at x !! k) as [u|] eqn:Hu; [|done]. cbn in He. case_match eqn:Hle; [|done].
    injection He as <-. to_prop. eexists. cbn. rewrite Hin. cbn. by rewrite Hu.
  - intros (d & Hd & Hle). destruct (sessions (store x) !! key) as [ses|] eqn:Hses; [|done]. cbn in Hd.
    destruct (updated_at x !! key) as [u|] eqn:Hu; [|done]. cbn in Hd. injection Hd as <-.
    eexists (_, _, key). split; [done|]. exists (key, ses). split; [by apply elem_of_map_to_list|].
    cbn. rewrite Hu. cbn. by rewrite (proj2 (Z.leb_le _ _)).
Qed.

Lemma NoDup_expired_keys x now : NoDup (map snd (expired_keys x now)).
Proof.
  unfold expired_keys. rewrite sort_expired_perm.
  eapply sublist_NoDup; [apply (NoDup_fst_map_to_list (sessions (store x)))|].
  induction (map_to_list (sessions (store x))) as [|[k ses] l IH]; cbn; [done|].
  destruct (updated_at x !! k) as [u|]; cbn; [|by constructor].
  destruct (u + _ <=? now); cbn; by constructor.
Qed.

Lemma expire_due_spec {S} `{DynamicCircuitCommandSink S} x now (sink : S) :
  service_ok x ->
  exists y, expire_due_with_command_sink x now sink =
      (y, length (expired_keys x now),
       emit_all sink (concat (map (fun e => expiry_intents (store x) e.2) (expired_keys x now))))
    /\ service_ok y /\ config y = config x
    /\ (forall key, sessions (store y) !! key =
          if decide (key ∈ map snd (expired_keys x now)) then None else sessions (store x) !! key)
    /\ (forall key, updated_at y !! key =
          if decide (key ∈ map snd (expired_keys x now)) then None else updated_at x !! key).
Proof.
  intros Hx. unfold expire_due_with_command_sink.
  destruct (expire_keys_spec (expired_keys x now) x sink Hx (NoDup_expired_keys x now))
    as (y & -> & Hy); [|by exists y].
  intros e He. assert (e.2 ∈ map snd (expired_keys x now)) as (d & Hd & _)%elem_of_expired_keys
    by (by apply list_elem_of_fmap_2).
  unfold expiry_deadline_for in Hd. by destruct (sessions (store x) !! e.2).
Qed.

(** ** The timer *)

Lemma iter_min_le l m a : iter_min l = Some m -> a ∈ l -> m <= a.
Proof.
  assert (forall l m, fold_left Z.min l m <= m /\ forall a, a ∈ l -> fold_left Z.min l m <= a) as Hfold.
  { clear. induction l as [|b l IH]; intros m; cbn; [split; [lia|set_solver]|].
    destruct (IH (Z.min m b)) as [H1 H2]. split; [lia|]. intros a [->|Ha]%elem_of_cons; [lia|auto]. }
  destruct l as [|b l]; cbn; [done|]. intros [= <-]. destruct (Hfold l b).
  intros [->|Ha]%elem_of_cons; auto.
Qed.

Lemma iter_min_None l : iter_min l = None -> l = [].
Proof. by destruct l. Qed.

Lemma deadline_has_session x key d :
  expiry_deadline_for x key = Some d ->
  exists ses u, sessions (store x) !! key = Some ses /\ updated_at x !! key = Some u
    /\ d = u + expiry_duration_for x (ses_state ses).
Proof.
  unfold expiry_deadline_for. destruct (sessions (store x) !! key) as [ses|]; [|done].
  destruct (updated_at x !! key) as [u|]; [|done]. cbn. intros [= <-]. by exists ses, u.
Qed.

Lemma deadline_intro x key ses u :
  sessions (store x) !! key = Some ses -> updated_at x !! key = Some u ->
  expiry_deadline_for x key = Some (u + expiry_duration_for x (ses_state ses)).
Proof. unfold expiry_deadline_for. by intros -> ->. Qed.

Lemma wake_at_deadlines x now key d :
  expiry_deadline_for x key = Some d -> radius_expiry_wake_at x now <= d.
Proof.
  intros (ses & u & Hs & Hu & ->)%deadline_has_session. unfold radius_expiry_wake_at, next_expiry_deadline.
  set (l := omap _ _).
  assert (u + expiry_duration_for x (ses_state ses) ∈ l) as Hin.
  { subst l. apply list_elem_of_omap. exists (key, ses). split; [by apply elem_of_map_to_list|]. by rewrite Hu. }
  destruct (iter_min l) as [m|] eqn:Hm.
  - pose proof (iter_min_le _ _ _ Hm Hin). lia.
  - apply iter_min_None in Hm. rewrite Hm in Hin. set_solver.
Qed.

Lemma wake_at_interval x now : radius_expiry_wake_at x now <= now + expiry_check_interval x.
Proof. unfold radius_expiry_wake_at. case_match; lia. Qed.

Lemma schedule_after_update_spec t x update now :
  let t' := schedule_after_update t x update now in
  wake_at t' <= wake_at t
  /\ forall key d, times_reset update key -> expiry_deadline_for x key = Some d -> wake_at t' <= d.
Proof.
  cbv zeta. unfold schedule_after_update.
  assert (forall key d, times_reset update key -> expiry_deadline_for x key = Some d ->
    exists m, next_changed_expiry_deadline x update = Some m /\ m <= d) as Hchanged.
  { intros key d Hr Hd. destruct update as [k ?|nas reset count newly stale|]; cbn in *; [subst| |done].
    - exists d. split; [done|lia].
    - set (l := omap _ _). assert (d ∈ l) as Hin.
      { subst l. apply list_elem_of_omap. exists key. by rewrite elem_of_elements. }
      destruct (iter_min l) as [m|] eqn:Hm; [|apply iter_min_None in Hm; rewrite Hm in Hin; set_solver].
      exists m. split; [done|]. by eapply iter_min_le. }
  split.
  - case_match eqn:Hlt; to_prop; cbn; lia.
  - intros key d Hr Hd. destruct (Hchanged key d Hr Hd) as (m & -> & Hm).
    case_match eqn:Hlt; to_prop; cbn; lia.
Qed.

(** ** Runs of the loop *)

Record loop_ok {S} (c : RadiusAccountingConfig) (st : ServiceState S) (t : Instant) : Prop := {
  loop_service : service_ok (svc_sessions st);
  loop_config : config (svc_sessions st) = c;
  loop_timer : forall key d, expiry_deadline_for (svc_sessions st) key = Some d ->
    wake_at (svc_timer st) <= d;
  loop_interval : wake_at (svc_timer st) <= t + cleanup_interval (default_ttl c) (stale_grace c)
}.

(** No retained session is past its deadline at [t]. *)
Definition none_due (x : RadiusAccountingSessions) (t : Instant) : Prop :=
  forall key d, expiry_deadline_for x key = Some d -> t < d.

Section Runs.
Context {S : Type} `{Sink : !DynamicCircuitCommandSink S} {IoError : Type}.
Implicit Types (st : ServiceState S).

Lemma expire_after_wake_ok c st t now :
  loop_ok c st t -> t <= now ->
  loop_ok c (expire_due_after_timer_wake st now) now
  /\ none_due (svc_sessions (expire_due_after_timer_wake st now)) now.
Proof.
  intros [Hok <- _ _] _. unfold expire_due_after_timer_wake, expire_due_with_application_sink.
  destruct (expire_due_spec (svc_sessions st) now (selected_dynamic_circuit_sink (svc_sink st)) Hok)
    as (y & -> & Hy & Hc & Hs & Hu). cbn. split.
  - split; cbn; [done|done|apply wake_at_deadlines|]. rewrite <- Hc. apply wake_at_interval.
  - intros key d Hd. pose proof Hd as (ses & u & Hs1 & Hu1 & ->)%deadline_has_session.
    rewrite Hs in Hs1. rewrite Hu in Hu1. case_decide as Hin; [done|].
    rewrite elem_of_expired_keys in Hin. unfold expiry_duration_for. rewrite Hc.
    apply Z.nle_gt. intros Hle. apply Hin. eexists. split; [by apply deadline_intro|exact Hle].
Qed.

Lemma expire_before_packet_ok c st t now :
  loop_ok c st t -> t <= now ->
  loop_ok c (expire_due_before_packet st now) now
  /\ none_due (svc_sessions (expire_due_before_packet st now)) now.
Proof.
  intros Hst Hle. unfold expire_due_before_packet, is_due. case_match eqn:Hdue; to_prop.
  - by apply (expire_after_wake_ok c st t).
  - destruct Hst as [Hok Hc Ht Hi]. split; [split; [done..|lia]|].
    intros key d Hd%Ht. lia.
Qed.

Lemma handle_event_ok c st event now :
  0 < default_ttl c -> 0 < stale_grace c ->
  loop_ok c st now -> none_due (svc_sessions st) now ->
  loop_ok c (handle_accounting_event st event now) now
  /\ none_due (svc_sessions (handle_accounting_event st event now)) now.
Proof.
  intros Httl Hgrace [Hok Hc Ht Hi] Hnone. unfold handle_accounting_event.
  destruct (apply_event_with_command_sink _ _ _ _) as [[y update] sink] eqn:Happ.
  apply apply_event_service in Happ as [Hy Hyc [_ _ _ Hknown Hstale] Hset Hkept]; [|done].
  destruct (schedule_after_update_spec (svc_timer st) y update now) as [Hlower Hsched].
  assert (forall key d, expiry_deadline_for y key = Some d ->
    times_reset update key /\ now < d \/ expiry_deadline_for (svc_sessions st) key = Some d) as Hcase.
  { intros key d Hd. pose proof Hd as (ses & u & Hs1 & Hu1 & ->)%deadline_has_session.
    unfold expiry_duration_for. rewrite Hyc, Hc. destruct (decide (times_reset update key)) as [Hr|Hr].
    - left. split; [done|]. rewrite Hset in Hu1 by done. injection Hu1 as <-. case_match; lia.
    - right. rewrite Hkept in Hu1 by (done || by rewrite Hs1).
      destruct (Hknown key Hr) as [ses0 Hs0]; [by rewrite Hs1|].
      pose proof (Hstale _ _ _ Hr Hs0 Hs1) as Hst. rewrite (deadline_intro _ _ _ _ Hs0 Hu1).
      unfold expiry_duration_for. rewrite Hc. do 2 f_equal.
      destruct (ses_state ses), (ses_state ses0); done. }
  split; [split|]; cbn; [done|congruence|..].
  - intros key d Hd. destruct (Hcase key d Hd) as [[Hr _]|Hold]; [by eapply Hsched|].
    apply Ht in Hold. lia.
  - lia.
  - intros key d Hd. destruct (Hcase key d Hd) as [[_ ?]|Hold]; [done|]. by apply (Hnone key).
Qed.

Lemma service_run_ok c t0 (sink : option S) st t :
  0 < default_ttl c -> 0 < stale_grace c ->
  service_run (IoError := IoError) c t0 sink st t ->
  loop_ok c st t /\ none_due (svc_sessions st) t.
Proof.
  intros Httl Hgrace. induction 1 as [|st t event now _ [IH _] Hle _].
  - split; [split; cbn|].
    + apply service_ok_new.
    + done.
    + intros key d (? & ? & ? & _)%deadline_has_session. cbn in *. by simplify_map_eq.
    + apply wake_at_interval.
    + intros key d (? & ? & ? & _)%deadline_has_session. cbn in *. by simplify_map_eq.
  - destruct event as [[outcome|err]|]; cbn [loop_turn fst].
    + destruct (expire_before_packet_ok c st t now IH Hle) as [Hok Hnone].
      set (st1 := expire_due_before_packet st now) in *. clearbody st1.
      destruct outcome; cbn; try (destruct Hok as [? ? ? ?]; split;
        [split; cbn; [by apply service_ok_counters|done|done|done]|done]).
      apply handle_event_ok; [done|done| |done].
      destruct Hok as [? ? ? ?]. split; cbn; [by apply service_ok_counters|done|done|done].
    + by apply (expire_before_packet_ok c st t).
    + by apply (expire_after_wake_ok c st t).
Qed.
End Runs.

(** ** A sample run *)

(** Fifteen minutes to live, two minutes of grace, a fallback rate and parent. *)
Definition sample_config : RadiusAccountingConfig :=
  mkRadiusAccountingConfig (duration_from_secs 900) (duration_from_secs 120)
    (Some (mkSessionRateProfile (f32_of_u64 1) (f32_of_u64 1) (f32_of_u64 100) (f32_of_u64 50)))
    (Some (DynamicCircuitParent_new (str "site-1"))) None false true.

Definition sample_attributes (status : Z) : list RadiusAttribute :=
  [mkRadiusAttribute 40 [0; 0; 0; status]; mkRadiusAttribute 44 (as_bytes (str "s-1"));
   mkRadiusAttribute 32 (as_bytes (str "bng-1")); mkRadiusAttribute 1 (as_bytes (str "alice"));
   mkRadiusAttribute 8 [100; 64; 0; 9]].

Definition sample_packet (status : Z) : LoopEvent unit :=
  Loop_Received (Ok (Accepted (mkReceivedVerifiedAccountingPacket
    (mkSocketAddr (V4 (V4Octets 10 0 0 1)) 1813) 64 20
    (mkVerifiedAccountingRequest (mkAccountingRequest
       (mkRadiusPacket Code_AccountingRequest 7 (replicate 16 0) (sample_attributes status))) false)))).

(** The subscriber starts one second after the service, with a recording sink. *)
Definition sample_service : ServiceState (list DynamicCircuitIntent) :=
  (loop_turn (start_service sample_config 0 (Some [])) (sample_packet 1) (duration_from_secs 1)).1.
Definition sample_service_key : AccountingSessionKey :=
  NasSession (Nas_Identifier (str "bng-1")) (str "s-1").

Lemma sample_service_run :
  service_run (IoError := unit) sample_config 0 (Some []) sample_service (duration_from_secs 1).
Proof. apply (run_turn _ _ _ _ 0 (sample_packet 1)); [constructor|done|done]. Qed.

(** ** The properties *)

Lemma service_diagnostics_perm x :
  service_ok x ->
  map snd (map_to_list (activation_diagnostics_by_key x)) ≡ₚ activation_diagnostics (store x).
Proof.
  intros Hx. pose proof (svc_diagnostics _ Hx) as Hdiag. unfold activation_diagnostics.
  assert (forall k d, activation_diagnostics_by_key x !! k = Some d -> diag_session_key d = k) as Hkey.
  { intros k d. rewrite Hdiag. destruct (sessions (store x) !! k); [|done]. by intros [= <-]. }
  apply NoDup_Permutation.
  - apply NoDup_fmap_2_strong; [|apply NoDup_map_to_list].
    intros [k d] [k' d'] Hin%elem_of_map_to_list Hin'%elem_of_map_to_list Heq. cbn in Heq. subst d'.
    by rewrite <- (Hkey _ _ Hin), <- (Hkey _ _ Hin').
  - apply NoDup_fmap_2_strong; [|apply NoDup_map_to_list].
    intros [k ses] [k' ses'] Hin%elem_of_map_to_list Hin'%elem_of_map_to_list Heq.
    assert (k = k') as <- by (by apply (f_equal diag_session_key) in Heq).
    by rewrite Hin in Hin'; injection Hin' as <-.
  - intros d. rewrite !list_elem_of_fmap. split.
    + intros ([k d'] & -> & Hin%elem_of_map_to_list). rewrite Hdiag in Hin.
      destruct (sessions (store x) !! k) as [ses|] eqn:Hses; [|done]. injection Hin as <-.
      exists (k, ses). split; [done|]. by apply elem_of_map_to_list.
    + intros ([k ses] & -> & Hin%elem_of_map_to_list).
      exists (k, from_retained_session k ses). split; [done|]. apply elem_of_map_to_list.
      by rewrite Hdiag, Hin.
Qed.

(** over every run of the listener loop the retained sessions are exactly the ones with an
    update time and an update sequence, so every one of them has a deadline; the diagnostics of the
    service are those of the retained sessions followed by at most 1024 of expired sessions, none of
    them retained and no key twice. *)
Theorem service_tracks_sessions {S} `{DynamicCircuitCommandSink S} {IoError} c t0 (sink : option S) st t :
  0 < default_ttl c -> 0 < stale_grace c ->
  service_run (IoError := IoError) c t0 sink st t ->
  let x := svc_sessions st in
  (forall key, is_Some (sessions (store x) !! key) <-> is_Some (expiry_deadline_for x key))
  /\ dom (updated_at x) = dom (sessions (store x))
  /\ dom (update_sequence_by_key x) = dom (sessions (store x))
  /\ service_diagnostics x ≡ₚ
     activation_diagnostics (store x) ++ recent_expired_activation_diagnostics x
  /\ NoDup (map diag_session_key (service_diagnostics x))
  /\ (length (recent_expired_activation_diagnostics x) <= RADIUS_RECENT_EXPIRED_DIAGNOSTIC_LIMIT)%nat
  /\ (forall d, d ∈ recent_expired_activation_diagnostics x ->
        diag_state d = Diagnostic_Expired /\ sessions (store x) !! diag_session_key d = None).
Proof.
  intros Httl Hgrace Hrun. destruct (service_run_ok _ _ _ _ _ Httl Hgrace Hrun) as [[Hok _ _ _] _].
  cbv zeta. set (x := svc_sessions st) in *. clearbody x.
  pose proof (service_diagnostics_perm x Hok) as Hperm.
  destruct Hok as [Hstore Htimes Hseqs Hdiags Hexp Hnd Hlen].
  split_and!; [|apply set_eq; intros k..| | |done|done].
  - intros key. split.
    + intros Hs. pose proof (proj2 (Htimes key) Hs) as [u Hu]. destruct Hs as [ses Hs].
      rewrite (deadline_intro _ _ _ _ Hs Hu). by eexists.
    + intros [d (ses & u & Hs & _)%deadline_has_session]. by eexists.
  - by rewrite !elem_of_dom, Htimes.
  - by rewrite !elem_of_dom, Hseqs.
  - unfold service_diagnostics. by rewrite Hperm.
  - unfold service_diagnostics. rewrite Hperm, map_app. apply NoDup_app. split_and!; [..|done].
    + unfold activation_diagnostics. rewrite map_map. eapply eq_rect; [apply (NoDup_fst_map_to_list (sessions (store x)))|].
      apply map_ext. by intros [k ses].
    + intros k (d & -> & ([k' ses] & -> & Hin%elem_of_map_to_list)%list_elem_of_fmap)%list_elem_of_fmap
        (d' & Hk & Hd')%list_elem_of_fmap. cbn in Hk.
      destruct (Hexp d' Hd') as [_ Hgone]. by rewrite <- Hk, Hin in Hgone.
Qed.

Lemma service_tracks_sessions_witness :
  dom (updated_at (svc_sessions sample_service)) = {[sample_service_key]}.
Proof.
  destruct (service_tracks_sessions (IoError := unit) sample_config 0 (Some []) sample_service
    (duration_from_secs 1) eq_refl eq_refl sample_service_run) as (_ & -> & _).
  by_compute.
Defined.

(** C21: after every turn of the loop no retained session is past its deadline, the timer is set no
    later than the earliest deadline, and it is due within the cleanup interval, which is between one
    second and one minute. *)
Theorem no_session_outlives_its_deadline {S} `{DynamicCircuitCommandSink S} {IoError} c t0
    (sink : option S) st t :
  0 < default_ttl c -> 0 < stale_grace c ->
  service_run (IoError := IoError) c t0 sink st t ->
  (forall key d, expiry_deadline_for (svc_sessions st) key = Some d ->
     t < d /\ wake_at (svc_timer st) <= d)
  /\ wake_at (svc_timer st) <= t + cleanup_interval (default_ttl c) (stale_grace c)
  /\ duration_from_secs 1 <= cleanup_interval (default_ttl c) (stale_grace c) <= duration_from_secs 60.
Proof.
  intros Httl Hgrace Hrun. destruct (service_run_ok _ _ _ _ _ Httl Hgrace Hrun) as [[_ _ Ht Hi] Hnone].
  split_and!; [|done|..].
  - intros key d Hd. split; [by apply (Hnone key)|by apply (Ht key)].
  - unfold cleanup_interval, duration_from_secs. lia.
  - unfold cleanup_interval, duration_from_secs. lia.
Qed.

Lemma no_session_outlives_its_deadline_witness :
  exists d, expiry_deadline_for (svc_sessions sample_service) sample_service_key = Some d
    /\ duration_from_secs 1 < d.
Proof.
  destruct (no_session_outlives_its_deadline (IoError := unit) sample_config 0 (Some []) sample_service
    (duration_from_secs 1) eq_refl eq_refl sample_service_run) as [Hd _].
  exists (duration_from_secs 901). split; [vm_compute; reflexivity|].
  apply (Hd sample_service_key). vm_compute. reflexivity.
Defined.

(** expiry at any time removes exactly the sessions whose deadline has passed, in the order of
    their deadlines and update sequences, counts them, and sends for each one the removal of every
    circuit it held and nothing else. *)
Theorem expiry_is_exact {S} `{DynamicCircuitCommandSink S} {IoError} c t0 (sink0 : option S) st t
    (now : Instant) (sink : S) :
  0 < default_ttl c -> 0 < stale_grace c ->
  service_run (IoError := IoError) c t0 sink0 st t ->
  let x := svc_sessions st in
  exists y (l : list Expired),
    expire_due_with_command_sink x now sink =
      (y, length l, emit_all sink (concat (map (fun e => expiry_intents (store x) e.2) l)))
    /\ NoDup (map snd l)
    /\ (forall key, key ∈ map snd l <-> exists d, expiry_deadline_for x key = Some d /\ d <= now)
    /\ StronglySorted (fun a b => a.1.1 < b.1.1 \/ (a.1.1 = b.1.1 /\ a.1.2 <= b.1.2)) l
    /\ (forall key, key ∈ map snd l -> sessions (store y) !! key = None)
    /\ (forall key, key ∉ map snd l -> sessions (store y) !! key = sessions (store x) !! key).
Proof.
  intros Httl Hgrace Hrun. destruct (service_run_ok _ _ _ _ _ Httl Hgrace Hrun) as [[Hok _ _ _] _].
  cbv zeta. set (x := svc_sessions st) in *. clearbody x.
  destruct (expire_due_spec x now sink Hok) as (y & Heq & _ & _ & Hs & _).
  exists y, (expired_keys x now). split_and!; [done|apply NoDup_expired_keys|apply elem_of_expired_keys|..].
  - eapply StronglySorted_weaken; [|apply sort_expired_sorted].
    intros [[a1 a2] ?] [[b1 b2] ?]. unfold expired_le, expired_before. cbn. lia.
  - intros key Hin. by rewrite Hs, decide_True.
  - intros key Hin. by rewrite Hs, decide_False.
Qed.

Lemma expiry_is_exact_witness :
  exists y intents,
    expire_due_with_command_sink (svc_sessions sample_service) (duration_from_secs 901)
      ([] : list DynamicCircuitIntent) = (y, 1%nat, intents)
    /\ sessions (store y) !! sample_service_key = None /\ length intents = 1%nat.
Proof.
  destruct (expiry_is_exact (IoError := unit) sample_config 0 (Some []) sample_service
    (duration_from_secs 1) (duration_from_secs 901) ([] : list DynamicCircuitIntent)
    eq_refl eq_refl sample_service_run) as (y & l & Heq & _ & Hin & _ & Hgone & _).
  assert ((expire_due_with_command_sink (svc_sessions sample_service) (duration_from_secs 901)
    ([] : list DynamicCircuitIntent)).1.2 = 1%nat) as Hcount by (vm_compute; reflexivity).
  assert (length (expire_due_with_command_sink (svc_sessions sample_service) (duration_from_secs 901)
    ([] : list DynamicCircuitIntent)).2 = 1%nat) as Hlen by (vm_compute; reflexivity).
  rewrite Heq in Hcount, Hlen. cbn in Hcount. rewrite Heq, Hcount.
  eexists _, _. split; [done|]. split; [|exact Hlen].
  apply Hgone, Hin. exists (duration_from_secs 901). split; [vm_compute; reflexivity|done].
Defined.
