(* ===== verification/ApplicationError.v ===== *)
(** * Errors of dynamic-circuit application and their redacted texts (crate [lqosd],
    [radius_accounting.rs])

    The error type with its [Display] texts, the sanitiser that redacts secrets from the failure
    detail of the bus and bounds its size, the interpretation of a bus reply, and the exact text the
    sanitiser produces.  A bus response other than [Ack] and [Fail] is its [Debug] text. *)

From S2P Require Import Prelude RustStd RustCollections.

Definition DYNAMIC_CIRCUIT_BUS_FAILURE_DETAIL_LIMIT : nat := 240.

(** ** String operations *)

(** [str::trim_matches] with a predicate. *)
Definition trim_matches (p : rchar -> bool) (s : rstring) : rstring :=
  reverse (drop_while p (reverse (drop_while p s))).

(** [str::strip_prefix]. *)
Fixpoint strip_prefix (prefix s : rstring) : option rstring :=
  match prefix, s with
  | [], _ => Some s
  | p :: prefix', c :: s' => if p =? c then strip_prefix prefix' s' else None
  | _ :: _, [] => None
  end.

(** [str::contains] with a string. *)
Fixpoint contains_str (s needle : rstring) : bool :=
  match strip_prefix needle s with
  | Some _ => true
  | None => match s with [] => false | _ :: s' => contains_str s' needle end
  end.

(** [char::is_ascii_alphanumeric], [char::len_utf8]. *)
Definition is_ascii_alphanumeric (c : rchar) : bool :=
  in_range 48 c 57 || in_range 65 c 90 || in_range 97 c 122.
Definition len_utf8 (c : rchar) : nat := length (utf8_encode_char c).

(** [matches!(character, ...)] on a literal set of characters. *)
Definition one_of (set : rstring) (c : rchar) : bool := existsb (Z.eqb c) set.

(** The quote and bracket characters; 34 is the double quote. *)
Definition wrapping_characters : rstring := 34 :: str "'()[]{}".
Definition connector_characters : rstring := str ":=>-".

(** ** The sanitiser *)

Definition trimmed_dynamic_circuit_bus_failure_token (token : rstring) : rstring :=
  to_ascii_lowercase (take 16 (trim_matches (one_of wrapping_characters) token)).

Definition compact_dynamic_circuit_bus_failure_token (token : rstring) : rstring :=
  map to_ascii_lowercase_char
    (List.filter is_ascii_alphanumeric (take DYNAMIC_CIRCUIT_BUS_FAILURE_DETAIL_LIMIT token)).

(** [suffix.starts_with([...])]. *)
Definition starts_with_one_of (set : rstring) (s : rstring) : bool :=
  match s with [] => false | c :: _ => one_of set c end.

Definition dynamic_circuit_bus_failure_token_is_bare_key_assignment_label (token : rstring) : bool :=
  let token := trimmed_dynamic_circuit_bus_failure_token token in
  match strip_prefix (str "key") token with
  | Some suffix => starts_with_one_of (str ":=") suffix
  | None => false
  end.

Definition dynamic_circuit_bus_failure_token_is_key_label (token : rstring) : bool :=
  let token := trimmed_dynamic_circuit_bus_failure_token token in
  if bool_decide (token = str "key") then true
  else
    match strip_prefix (str "key") token with
    | Some suffix => starts_with_one_of (str ":=-") suffix
    | None => false
    end.

Definition dynamic_circuit_bus_failure_token_is_secret_connector (token : rstring) : bool :=
  let token := trimmed_dynamic_circuit_bus_failure_token token in
  let connector := trim_matches (one_of connector_characters) token in
  bool_decide (connector ∈ [str ""; str "is"; str "was"; str "value"; str "key"]).

(** [token.find([':', '='])] and the slice after it. *)
Fixpoint after_separator (token : rstring) : option rstring :=
  match token with
  | [] => None
  | c :: token' => if one_of (str ":=") c then Some token' else after_separator token'
  end.

Definition dynamic_circuit_bus_failure_token_has_inline_secret_value (token : rstring) : bool :=
  match after_separator (trim_matches (one_of wrapping_characters) token) with
  | None => false
  | Some value => existsb (fun c => negb (one_of connector_characters c)) value
  end.

Definition dynamic_circuit_bus_failure_token_is_sensitive (token : rstring) : bool :=
  let compact := compact_dynamic_circuit_bus_failure_token token in
  contains_str compact (str "secret")
  || contains_str compact (str "password")
  || contains_str compact (str "passwd")
  || contains_str compact (str "token")
  || contains_str compact (str "apikey")
  || contains_str compact (str "privatekey")
  || contains_str compact (str "accesskey")
  || contains_str compact (str "credential")
  || contains_str compact (str "authorization")
  || contains_str compact (str "bearer")
  || dynamic_circuit_bus_failure_token_is_bare_key_assignment_label token.

Definition dynamic_circuit_bus_failure_token_starts_sensitive_phrase (token : rstring)
    (next_token : option rstring) : bool :=
  let token := compact_dynamic_circuit_bus_failure_token token in
  match next_token with
  | None => false
  | Some next_token =>
      if bool_decide (token = str "key")
         && (dynamic_circuit_bus_failure_token_is_secret_connector next_token
             || dynamic_circuit_bus_failure_token_has_inline_secret_value next_token)
      then true
      else bool_decide (token ∈ [str "api"; str "private"; str "access"])
           && dynamic_circuit_bus_failure_token_is_key_label next_token
  end.

(** The character loop of [push_bounded_dynamic_circuit_bus_failure_token]. *)
Fixpoint push_characters (sanitized : rstring) (sanitized_bytes : nat) (token : rstring)
    : rstring * nat * bool :=
  match token with
  | [] => (sanitized, sanitized_bytes, true)
  | character :: token' =>
      let character_bytes := len_utf8 character in
      if (DYNAMIC_CIRCUIT_BUS_FAILURE_DETAIL_LIMIT <? sanitized_bytes + character_bytes)%nat
      then (sanitized, sanitized_bytes, false)
      else push_characters (sanitized ++ [character]) (sanitized_bytes + character_bytes) token'
  end.

Definition push_bounded_dynamic_circuit_bus_failure_token (sanitized : rstring) (sanitized_bytes : nat)
    (token : rstring) : rstring * nat * bool :=
  if str_is_empty sanitized then push_characters sanitized sanitized_bytes token
  else if (DYNAMIC_CIRCUIT_BUS_FAILURE_DETAIL_LIMIT <=? sanitized_bytes)%nat
  then (sanitized, sanitized_bytes, false)
  else push_characters (sanitized ++ [32]) (sanitized_bytes + 1) token.

(** Whether a token is sensitive, by itself or with the next one. *)
Definition token_is_sensitive (token : rstring) (next_token : option rstring) : bool :=
  dynamic_circuit_bus_failure_token_is_sensitive token
  || dynamic_circuit_bus_failure_token_starts_sensitive_phrase token next_token.

(** The flag for the next token. *)
Definition redact_after (token : rstring) (sensitive redact_next_value : bool) : bool :=
  if sensitive then negb (dynamic_circuit_bus_failure_token_has_inline_secret_value token)
  else if redact_next_value && negb (dynamic_circuit_bus_failure_token_is_secret_connector token)
  then false else redact_next_value.

(** The token loop: the text so far, and whether it returned early. *)
Fixpoint sanitize_tokens (tokens : list rstring) (sanitized : rstring) (sanitized_bytes : nat)
    (redact_next_value : bool) : rstring * bool :=
  match tokens with
  | [] => (sanitized, true)
  | token :: tokens' =>
      let sensitive := token_is_sensitive token (head tokens') in
      let redact_token := redact_next_value || sensitive in
      let sanitized_token := if redact_token then str "[redacted]" else token in
      let '(sanitized, sanitized_bytes, pushed) :=
        push_bounded_dynamic_circuit_bus_failure_token sanitized sanitized_bytes sanitized_token in
      if negb pushed then (sanitized ++ str "...", false)
      else sanitize_tokens tokens' sanitized sanitized_bytes
             (redact_after token sensitive redact_next_value)
  end.

Definition sanitize_dynamic_circuit_bus_failure_detail (detail : rstring) : rstring :=
  let '(sanitized, complete) := sanitize_tokens (split_whitespace detail) [] 0 false in
  if complete && str_is_empty sanitized then str "no additional detail" else sanitized.

(** ** Errors *)

Inductive DynamicCircuitQueueUnavailableReason : Type := Queue_Full | Queue_Closed.

#[export] Instance QueueUnavailableReason_eq_dec : EqDecision DynamicCircuitQueueUnavailableReason.
Proof. solve_decision. Defined.

Definition queue_reason_text (r : DynamicCircuitQueueUnavailableReason) : rstring :=
  match r with Queue_Full => str "queue full" | Queue_Closed => str "queue closed" end.

Inductive DynamicCircuitApplicationError : Type :=
| QueueUnavailable (reason : DynamicCircuitQueueUnavailableReason)
| BusSendTimeout
| BusClosed
| ReplyTimeout
| ReplyDropped
| MissingResponse
| UnexpectedResponseCount (count : nat)
| RequestFailed (message : rstring)
| UnexpectedResponse (debug : rstring).

(** The [Display] of the error. *)
Definition application_error_text (e : DynamicCircuitApplicationError) : rstring :=
  match e with
  | QueueUnavailable reason =>
      str "dynamic circuit application queue unavailable: " ++ queue_reason_text reason
  | BusSendTimeout => str "timed out sending dynamic circuit bus request"
  | BusClosed => str "dynamic circuit bus channel is closed"
  | ReplyTimeout => str "timed out waiting for dynamic circuit bus reply"
  | ReplyDropped => str "dynamic circuit bus reply sender was dropped"
  | MissingResponse => str "dynamic circuit bus returned no response"
  | UnexpectedResponseCount count =>
      str "dynamic circuit bus returned " ++ usize_to_string count ++ str " responses for one request"
  | RequestFailed message =>
      str "dynamic circuit request failed: " ++ sanitize_dynamic_circuit_bus_failure_detail message
  | UnexpectedResponse debug =>
      str "dynamic circuit request returned unexpected response: "
      ++ sanitize_dynamic_circuit_bus_failure_detail debug
  end.

Abbreviation ApplicationResult := (result DynamicCircuitApplicationError unit) (only parsing).

Inductive BusResponse : Type :=
| Bus_Ack
| Bus_Fail (message : rstring)
| Bus_Other (debug : rstring).

Definition dynamic_circuit_application_result (responses : list BusResponse) : ApplicationResult :=
  match responses with
  | [] => Err MissingResponse
  | [Bus_Ack] => Ok tt
  | [Bus_Fail message] => Err (RequestFailed message)
  | [Bus_Other debug] => Err (UnexpectedResponse debug)
  | _ => Err (UnexpectedResponseCount (length responses))
  end.

(** What the two awaits of [apply_dynamic_circuit_request] gave: a send that timed out or found the
    channel closed, a reply that timed out or was dropped, or the responses. *)
Inductive BusOutcome : Type :=
| Send_TimedOut
| Send_Closed
| Reply_TimedOut
| Reply_Dropped
| Replied (responses : list BusResponse).

Definition apply_dynamic_circuit_request (outcome : BusOutcome) : ApplicationResult :=
  match outcome with
  | Send_TimedOut => Err BusSendTimeout
  | Send_Closed => Err BusClosed
  | Reply_TimedOut => Err ReplyTimeout
  | Reply_Dropped => Err ReplyDropped
  | Replied responses => dynamic_circuit_application_result responses
  end.

(** After a reply that never came the request may have been carried out: ownership is kept. *)
Definition dynamic_circuit_upsert_result_records_success (r : ApplicationResult) : bool :=
  match r with Ok _ | Err ReplyDropped | Err ReplyTimeout => true | Err _ => false end.

Definition dynamic_circuit_removal_result_releases_owner (r : ApplicationResult) : bool :=
  match r with Ok _ => true | Err _ => false end.

(** ** What the sanitiser produces *)

Definition redaction : rstring := str "[redacted]".

(** The tokens after redaction. *)
Fixpoint redacted (tokens : list rstring) (redact_next_value : bool) : list rstring :=
  match tokens with
  | [] => []
  | token :: tokens' =>
      let sensitive := token_is_sensitive token (head tokens') in
      (if redact_next_value || sensitive then redaction else token)
      :: redacted tokens' (redact_after token sensitive redact_next_value)
  end.

(** The tokens separated by one space. *)
Definition spaced (tokens : list rstring) : rstring := concat (map (fun t => 32 :: t) tokens).
Definition joined (tokens : list rstring) : rstring :=
  match tokens with [] => [] | t :: tokens' => t ++ spaced tokens' end.

(** The longest prefix of at most so many bytes. *)
Fixpoint take_bytes (budget : nat) (s : rstring) : rstring :=
  match s with
  | [] => []
  | c :: s' =>
      if (budget <? len_utf8 c)%nat then [] else c :: take_bytes (budget - len_utf8 c) s'
  end.

#[local] Arguments Nat.ltb : simpl never.
#[local] Arguments Nat.leb : simpl never.
#[local] Arguments len_utf8 : simpl never.
#[local] Arguments str_len : simpl never.

Lemma str_len_app a b : str_len (a ++ b) = (str_len a + str_len b)%nat.
Proof. unfold str_len, as_bytes. by rewrite map_app, concat_app, length_app. Qed.

Lemma str_len_cons c s : str_len (c :: s) = (len_utf8 c + str_len s)%nat.
Proof. unfold str_len, as_bytes. cbn. by rewrite length_app. Qed.

Lemma take_bytes_all budget s : (str_len s <= budget)%nat -> take_bytes budget s = s.
Proof.
  revert budget. induction s as [|c s IH]; intros budget; [done|]. rewrite str_len_cons. intros Hle. cbn.
  destruct (Nat.ltb_spec budget (len_utf8 c)); [lia|]. f_equal. apply IH. lia.
Qed.

Lemma take_bytes_app_le budget a b :
  (str_len a <= budget)%nat -> take_bytes budget (a ++ b) = a ++ take_bytes (budget - str_len a) b.
Proof.
  revert budget. induction a as [|c a IH]; intros budget.
  - intros _. cbn. by rewrite Nat.sub_0_r.
  - rewrite str_len_cons. intros Hle. cbn. destruct (Nat.ltb_spec budget (len_utf8 c)); [lia|].
    rewrite IH by lia. do 3 f_equal. lia.
Qed.

Lemma take_bytes_app_gt budget a b :
  (budget < str_len a)%nat -> take_bytes budget (a ++ b) = take_bytes budget a.
Proof.
  revert budget. induction a as [|c a IH]; intros budget.
  - change (str_len []) with 0%nat. lia.
  - rewrite str_len_cons. intros Hlt. cbn. destruct (Nat.ltb_spec budget (len_utf8 c)); [done|].
    f_equal. apply IH. lia.
Qed.

Lemma take_bytes_len budget s : (str_len (take_bytes budget s) <= budget)%nat.
Proof.
  revert budget. induction s as [|c s IH]; intros budget; cbn; [change (str_len []) with 0%nat; lia|].
  destruct (Nat.ltb_spec budget (len_utf8 c)); [change (str_len []) with 0%nat; lia|].
  rewrite str_len_cons. specialize (IH (budget - len_utf8 c)%nat). lia.
Qed.

Abbreviation limit := DYNAMIC_CIRCUIT_BUS_FAILURE_DETAIL_LIMIT (only parsing).
#[local] Arguments DYNAMIC_CIRCUIT_BUS_FAILURE_DETAIL_LIMIT : simpl never.

Lemma push_characters_spec token : forall acc,
  (str_len acc <= limit)%nat ->
  push_characters acc (str_len acc) token =
  if (str_len (acc ++ token) <=? limit)%nat
  then (acc ++ token, str_len (acc ++ token), true)
  else (take_bytes limit (acc ++ token), str_len (take_bytes limit (acc ++ token)), false).
Proof.
  induction token as [|c token IH]; intros acc Hacc; cbn.
  - rewrite app_nil_r. destruct (Nat.leb_spec (str_len acc) limit); [done|lia].
  - rewrite str_len_app, str_len_cons. destruct (Nat.ltb_spec limit (str_len acc + len_utf8 c)).
    + destruct (Nat.leb_spec (str_len acc + (len_utf8 c + str_len token)) limit); [lia|].
      rewrite take_bytes_app_le by done. cbn.
      destruct (Nat.ltb_spec (limit - str_len acc) (len_utf8 c)); [|lia]. by rewrite app_nil_r.
    + assert (str_len acc + len_utf8 c = str_len (acc ++ [c]))%nat as Heq
        by (rewrite str_len_app, str_len_cons; change (str_len []) with 0%nat; lia).
      rewrite Heq, IH by lia. rewrite <- app_assoc. cbn [app].
      by rewrite str_len_app, str_len_cons.
Qed.

(** One turn of the token loop. *)
Lemma push_token_spec acc token :
  (str_len acc <= limit)%nat ->
  let text := if str_is_empty acc then token else acc ++ 32 :: token in
  push_bounded_dynamic_circuit_bus_failure_token acc (str_len acc) token =
  if (str_len text <=? limit)%nat then (text, str_len text, true)
  else (take_bytes limit text, str_len (take_bytes limit text), false).
Proof.
  intros Hacc. cbv zeta. unfold push_bounded_dynamic_circuit_bus_failure_token.
  destruct acc as [|a acc]; cbn [str_is_empty]; [by rewrite (push_characters_spec token [])|].
  set (s := a :: acc) in *. clearbody s.
  assert (len_utf8 32 = 1%nat) as Hspace by done.
  destruct (Nat.leb_spec limit (str_len s)).
  - rewrite str_len_app, str_len_cons, Hspace.
    destruct (Nat.leb_spec (str_len s + (1 + str_len token)) limit); [lia|].
    rewrite take_bytes_app_le by done. cbn. rewrite Hspace.
    destruct (Nat.ltb_spec (limit - str_len s) 1); [|lia]. by rewrite app_nil_r.
  - assert (str_len s + 1%nat = str_len (s ++ [32%Z]))%nat as Heq by (rewrite str_len_app; done).
    rewrite Heq, push_characters_spec by lia. by rewrite <- app_assoc.
Qed.

Lemma sanitize_tokens_spec tokens : forall acc flag,
  Forall (fun t => t <> []) tokens -> (str_len acc <= limit)%nat ->
  let text := if str_is_empty acc then joined (redacted tokens flag)
              else acc ++ spaced (redacted tokens flag) in
  sanitize_tokens tokens acc (str_len acc) flag =
  if (str_len text <=? limit)%nat then (text, true) else (take_bytes limit text ++ str "...", false).
Proof.
  induction tokens as [|token tokens IH]; intros acc flag Hne Hacc; cbn [sanitize_tokens redacted].
  - destruct acc as [|a acc]; cbn [str_is_empty joined spaced concat map]; [done|].
    rewrite app_nil_r.
    destruct (Nat.leb_spec (str_len (a :: acc)) limit); [done|lia].
  - apply Forall_cons in Hne as [Ht Hne].
    set (sensitive := token_is_sensitive token (head tokens)) in *.
    set (flag' := redact_after token sensitive flag).
    change (str "[redacted]") with redaction. set (t := if flag || sensitive then redaction else token).
    assert (t <> []) as Htne by (subst t; by destruct (flag || sensitive)).
    rewrite push_token_spec by done. cbv zeta.
    set (text := if str_is_empty acc then t else acc ++ 32 :: t).
    assert ((if str_is_empty acc then joined (t :: redacted tokens flag')
             else acc ++ spaced (t :: redacted tokens flag')) = text ++ spaced (redacted tokens flag')) as ->.
    { subst text. destruct (str_is_empty acc); [done|]. by rewrite <- app_assoc. }
    assert (str_is_empty text = false) as Htext.
    { subst text. destruct acc; cbn [str_is_empty]; [by destruct t|done]. }
    clearbody text. destruct (Nat.leb_spec (str_len text) limit) as [Hle|Hgt]; cbn [negb].
    + specialize (IH text flag' Hne Hle). rewrite Htext in IH. done.
    + destruct (Nat.leb_spec (str_len (text ++ spaced (redacted tokens flag'))) limit) as [Hle2|_].
      * rewrite str_len_app in Hle2. lia.
      * by rewrite take_bytes_app_gt.
Qed.

Lemma split_whitespace_nonempty s : Forall (fun t => t <> []) (split_whitespace s).
Proof.
  apply Forall_forall. intros t [_ Ht]%list_elem_of_In%filter_In. by destruct t.
Qed.

Lemma redacted_lookup tokens : forall flag i t,
  tokens !! i = Some t ->
  exists sensitive flag_i, sensitive = token_is_sensitive t (tokens !! S i)
    /\ redacted tokens flag !! i = Some (if flag_i || sensitive then redaction else t)
    /\ (is_Some (tokens !! S i) -> redact_after t sensitive flag_i = true ->
        redacted tokens flag !! S i = Some redaction).
Proof.
  induction tokens as [|token tokens IH]; intros flag i t; [done|].
  destruct i as [|i]; cbn.
  - intros [= ->]. exists (token_is_sensitive t (head tokens)), flag.
    split_and!; [by destruct tokens|done|].
    intros Hnext Hafter. rewrite Hafter. by destruct tokens; [destruct Hnext|].
  - intros Hi. apply (IH _ _ _ Hi).
Qed.

(** the text of a bus failure is the input's words separated by one space, cut at 240 bytes
    with an ellipsis or replaced when there are none; every word that is or starts a secret is
    redacted, with the word after it when the secret is not in the word itself; every word that is
    not redacted is a word of the input that is not sensitive; and the text has at most 243 bytes. *)
Theorem sanitized_detail_exact detail :
  let words := split_whitespace detail in
  let text := joined (redacted words false) in
  sanitize_dynamic_circuit_bus_failure_detail detail =
    (if str_is_empty text then str "no additional detail"
     else if (str_len text <=? DYNAMIC_CIRCUIT_BUS_FAILURE_DETAIL_LIMIT)%nat then text
     else take_bytes DYNAMIC_CIRCUIT_BUS_FAILURE_DETAIL_LIMIT text ++ str "...")
  /\ (str_len (sanitize_dynamic_circuit_bus_failure_detail detail)
      <= DYNAMIC_CIRCUIT_BUS_FAILURE_DETAIL_LIMIT + 3)%nat
  /\ (forall i word, words !! i = Some word ->
        redacted words false !! i = Some redaction
        \/ (redacted words false !! i = Some word /\ token_is_sensitive word (words !! S i) = false))
  /\ (forall i word, words !! i = Some word -> token_is_sensitive word (words !! S i) = true ->
        redacted words false !! i = Some redaction
        /\ (dynamic_circuit_bus_failure_token_has_inline_secret_value word = false ->
            is_Some (words !! S i) -> redacted words false !! S i = Some redaction)).
Proof.
  cbv zeta. set (words := split_whitespace detail).
  assert (sanitize_dynamic_circuit_bus_failure_detail detail =
    (if str_is_empty (joined (redacted words false)) then str "no additional detail"
     else if (str_len (joined (redacted words false)) <=? limit)%nat then joined (redacted words false)
     else take_bytes limit (joined (redacted words false)) ++ str "...")) as Hexact.
  { unfold sanitize_dynamic_circuit_bus_failure_detail. fold words.
    pose proof (sanitize_tokens_spec words [] false (split_whitespace_nonempty detail)) as Hspec.
    change (str_len []) with 0%nat in Hspec. rewrite Hspec by (unfold limit; lia). cbn [str_is_empty].
    destruct (joined (redacted words false)) as [|c text] eqn:Htext; [done|]. cbn [str_is_empty].
    destruct (str_len (c :: text) <=? limit)%nat; cbn [andb]; done. }
  split_and!; [done|..].
  - rewrite Hexact. destruct (str_is_empty _); [vm_compute; lia|].
    destruct (Nat.leb_spec (str_len (joined (redacted words false))) limit); [lia|].
    rewrite str_len_app. pose proof (take_bytes_len limit (joined (redacted words false))).
    change (str_len (str "...")) with 3%nat. lia.
  - intros i word Hi. destruct (redacted_lookup words false i word Hi) as (sens & f & -> & Hr & _).
    rewrite Hr. destruct f; cbn; [by left|]. destruct (token_is_sensitive _ _) eqn:Hs; [by left|].
    right. done.
  - intros i word Hi Hs. destruct (redacted_lookup words false i word Hi) as (sens & f & -> & Hr & Hn).
    rewrite Hs in *. rewrite orb_true_r in Hr. split; [done|]. intros Hinline Hnext. apply Hn; [done|].
    unfold redact_after. by rewrite Hinline.
Qed.
