(* ===== verification/DynamicCircuitApplication.v ===== *)
(** * Applying dynamic-circuit intents (crate [lqosd], [radius_accounting.rs])

    [DynamicCircuitApplicationState], the ownership of runtime circuits by accounting sessions, and
    the two tasks that share it behind a mutex: the sink [ApplyingDynamicCircuitSink], which numbers
    and queues intents, and the worker, which sends bus requests for them.  Every critical section is
    one function on the state; a task is the point it has reached ([Emitter], [Worker]); the system
    is the interleaving of their steps.  A step that awaited a bus reply includes the critical
    section that follows it, since the worker does nothing else in between.  The clock and the bus
    are the environment: a reply is the [BusOutcome] of its step. *)

From S2P Require Import Prelude RustStd RustCollections AccountingEvent ShapedDevice.
From S2P Require Import SessionTypes SessionMetadata SessionStore SessionCommands.
From S2P Require Import RadiusService ApplicationError.

Definition DYNAMIC_CIRCUIT_APPLICATION_QUEUE_CAPACITY : nat := 1024.
Definition RADIUS_APPLY_FAILED_DIAGNOSTIC_LIMIT : nat := 1024.

(** ** Data *)

Definition DynamicCircuitOwnerKey : Type := rstring * AccountingSessionKey.

Record DynamicCircuitApplicationContext : Type := mkApplicationContext {
  ctx_intent_name : rstring;
  ctx_circuit_id : rstring;
  ctx_session_key : AccountingSessionKey
}.

Definition dynamic_circuit_intent_name (intent : DynamicCircuitIntent) : rstring :=
  match intent with
  | CreateDynamicCircuit _ => str "create"
  | UpdateDynamicCircuit _ => str "update"
  | RemoveDynamicCircuit _ => str "remove"
  end.

Definition from_upsert (intent_name : rstring) (upsert : DynamicCircuitUpsert)
    : DynamicCircuitApplicationContext :=
  mkApplicationContext intent_name (upsert_circuit_id upsert) (upsert_session_key upsert).

Definition from_intent (intent : DynamicCircuitIntent) : DynamicCircuitApplicationContext :=
  let intent_name := dynamic_circuit_intent_name intent in
  match intent with
  | CreateDynamicCircuit upsert => from_upsert intent_name upsert
  | UpdateDynamicCircuit upsert => from_upsert intent_name upsert
  | RemoveDynamicCircuit removal =>
      mkApplicationContext intent_name (removal_circuit_id removal) (removal_session_key removal)
  end.

Definition owner_key (c : DynamicCircuitApplicationContext) : DynamicCircuitOwnerKey :=
  (ctx_circuit_id c, ctx_session_key c).

Record QueuedDynamicCircuitIntent : Type := mkQueuedIntent {
  queued_sequence : Z;
  queued_intent : DynamicCircuitIntent
}.

Record RetainedDynamicCircuitUpsert : Type := mkRetainedUpsert {
  first_sequence : Z;
  retained_upsert : DynamicCircuitUpsert
}.

Inductive DynamicCircuitRemovalAction : Type :=
| Action_ReleaseOnly
| Action_Remove
| Action_Promote (upsert : RetainedDynamicCircuitUpsert).

Record DynamicCircuitApplicationState : Type := mkApplicationState {
  current_owners_by_circuit : gmap rstring (gset AccountingSessionKey);
  authoritative_session_by_circuit : gmap rstring AccountingSessionKey;
  pending_upsert_sequences_by_owner : gmap DynamicCircuitOwnerKey (gset Z);
  deferred_removal_sequence_by_owner : gmap DynamicCircuitOwnerKey Z;
  pending_removals_by_owner : gmap DynamicCircuitOwnerKey QueuedDynamicCircuitIntent;
  pending_removal_order : list DynamicCircuitOwnerKey;
  latest_applied_upsert_sequence_by_owner : gmap DynamicCircuitOwnerKey Z;
  retained_upserts_by_owner : gmap DynamicCircuitOwnerKey RetainedDynamicCircuitUpsert;
  retained_owners_by_circuit : gmap rstring (gset AccountingSessionKey);
  application_diagnostics_by_owner : gmap DynamicCircuitOwnerKey RadiusActivationDiagnostic;
  application_diagnostic_order : list DynamicCircuitOwnerKey
}.

Definition ApplicationState_default : DynamicCircuitApplicationState :=
  mkApplicationState ∅ ∅ ∅ ∅ ∅ [] ∅ ∅ ∅ ∅ [].

(** Field updates, by the groups of fields that change together. *)
Definition set_owners (owners : gmap rstring (gset AccountingSessionKey))
    (authoritative : gmap rstring AccountingSessionKey) (s : DynamicCircuitApplicationState) :=
  mkApplicationState owners authoritative (pending_upsert_sequences_by_owner s)
    (deferred_removal_sequence_by_owner s) (pending_removals_by_owner s) (pending_removal_order s)
    (latest_applied_upsert_sequence_by_owner s) (retained_upserts_by_owner s)
    (retained_owners_by_circuit s) (application_diagnostics_by_owner s) (application_diagnostic_order s).
Definition set_pending_upserts (pending : gmap DynamicCircuitOwnerKey (gset Z))
    (s : DynamicCircuitApplicationState) :=
  mkApplicationState (current_owners_by_circuit s) (authoritative_session_by_circuit s) pending
    (deferred_removal_sequence_by_owner s) (pending_removals_by_owner s) (pending_removal_order s)
    (latest_applied_upsert_sequence_by_owner s) (retained_upserts_by_owner s)
    (retained_owners_by_circuit s) (application_diagnostics_by_owner s) (application_diagnostic_order s).
Definition set_deferred_removals (deferred : gmap DynamicCircuitOwnerKey Z)
    (s : DynamicCircuitApplicationState) :=
  mkApplicationState (current_owners_by_circuit s) (authoritative_session_by_circuit s)
    (pending_upsert_sequences_by_owner s) deferred (pending_removals_by_owner s)
    (pending_removal_order s) (latest_applied_upsert_sequence_by_owner s) (retained_upserts_by_owner s)
    (retained_owners_by_circuit s) (application_diagnostics_by_owner s) (application_diagnostic_order s).
Definition set_pending_removals (removals : gmap DynamicCircuitOwnerKey QueuedDynamicCircuitIntent)
    (order : list DynamicCircuitOwnerKey) (s : DynamicCircuitApplicationState) :=
  mkApplicationState (current_owners_by_circuit s) (authoritative_session_by_circuit s)
    (pending_upsert_sequences_by_owner s) (deferred_removal_sequence_by_owner s) removals order
    (latest_applied_upsert_sequence_by_owner s) (retained_upserts_by_owner s)
    (retained_owners_by_circuit s) (application_diagnostics_by_owner s) (application_diagnostic_order s).
Definition set_latest_applied (latest : gmap DynamicCircuitOwnerKey Z)
    (s : DynamicCircuitApplicationState) :=
  mkApplicationState (current_owners_by_circuit s) (authoritative_session_by_circuit s)
    (pending_upsert_sequences_by_owner s) (deferred_removal_sequence_by_owner s)
    (pending_removals_by_owner s) (pending_removal_order s) latest (retained_upserts_by_owner s)
    (retained_owners_by_circuit s) (application_diagnostics_by_owner s) (application_diagnostic_order s).
Definition set_retained (upserts : gmap DynamicCircuitOwnerKey RetainedDynamicCircuitUpsert)
    (owners : gmap rstring (gset AccountingSessionKey)) (s : DynamicCircuitApplicationState) :=
  mkApplicationState (current_owners_by_circuit s) (authoritative_session_by_circuit s)
    (pending_upsert_sequences_by_owner s) (deferred_removal_sequence_by_owner s)
    (pending_removals_by_owner s) (pending_removal_order s)
    (latest_applied_upsert_sequence_by_owner s) upserts owners (application_diagnostics_by_owner s)
    (application_diagnostic_order s).
Definition set_app_diagnostics (by_owner : gmap DynamicCircuitOwnerKey RadiusActivationDiagnostic)
    (order : list DynamicCircuitOwnerKey) (s : DynamicCircuitApplicationState) :=
  mkApplicationState (current_owners_by_circuit s) (authoritative_session_by_circuit s)
    (pending_upsert_sequences_by_owner s) (deferred_removal_sequence_by_owner s)
    (pending_removals_by_owner s) (pending_removal_order s)
    (latest_applied_upsert_sequence_by_owner s) (retained_upserts_by_owner s)
    (retained_owners_by_circuit s) by_owner order.

(** [VecDeque::retain(|owner| owner != key)]. *)
Definition without (key : DynamicCircuitOwnerKey) (order : list DynamicCircuitOwnerKey)
    : list DynamicCircuitOwnerKey :=
  List.filter (fun owner => negb (bool_decide (owner = key))) order.

(** ** Diagnostics of failed applications *)

Definition record_application_success (s : DynamicCircuitApplicationState)
    (context : DynamicCircuitApplicationContext) : DynamicCircuitApplicationState :=
  let owner_key := owner_key context in
  set_app_diagnostics (delete owner_key (application_diagnostics_by_owner s))
    (without owner_key (application_diagnostic_order s)) s.

Definition prune_application_diagnostics_to_order (s : DynamicCircuitApplicationState)
    : DynamicCircuitApplicationState :=
  set_app_diagnostics
    (base.filter (fun kv => kv.1 ∈ application_diagnostic_order s) (application_diagnostics_by_owner s))
    (application_diagnostic_order s) s.

Definition record_application_failure (s : DynamicCircuitApplicationState)
    (context : DynamicCircuitApplicationContext) (error : rstring) : DynamicCircuitApplicationState :=
  let owner_key := owner_key context in
  let order := push_limited (without owner_key (application_diagnostic_order s)) owner_key
                 RADIUS_APPLY_FAILED_DIAGNOSTIC_LIMIT in
  let by_owner :=
    <[owner_key := apply_failed (ctx_session_key context) (ctx_circuit_id context) error]>
      (application_diagnostics_by_owner s) in
  prune_application_diagnostics_to_order (set_app_diagnostics by_owner order s).

Definition application_diagnostics (s : DynamicCircuitApplicationState)
    : list RadiusActivationDiagnostic :=
  omap (fun owner_key => application_diagnostics_by_owner s !! owner_key)
    (application_diagnostic_order s).

(** [diagnostic_owner_keys]. *)
Definition diagnostic_owner_keys (d : RadiusActivationDiagnostic) : list DynamicCircuitOwnerKey :=
  map (fun circuit_id => (circuit_id, diag_session_key d)) (diag_circuit_ids d).

Definition set_circuit_ids (ids : list rstring) (d : RadiusActivationDiagnostic)
    : RadiusActivationDiagnostic :=
  mkRadiusActivationDiagnostic (diag_session_key d) (diag_acct_session_id d) (diag_nas d) ids
    (diag_state d) (diag_pending_reasons d) (diag_apply_error d).

(** [retain_mut]: failed circuits leave a diagnostic, and one that loses all its circuits goes. *)
Definition suppress_failed_owner_diagnostics (diagnostics : list RadiusActivationDiagnostic)
    (failed_owners : gset DynamicCircuitOwnerKey) : list RadiusActivationDiagnostic :=
  omap (fun diagnostic =>
      let had_circuit_ids := negb (is_nil (diag_circuit_ids diagnostic)) in
      let session_key := diag_session_key diagnostic in
      let circuit_ids :=
        List.filter (fun circuit_id => negb (bool_decide ((circuit_id, session_key) ∈ failed_owners)))
          (diag_circuit_ids diagnostic) in
      if negb had_circuit_ids || negb (is_nil circuit_ids)
      then Some (set_circuit_ids circuit_ids diagnostic) else None)
    diagnostics.

(** [ApplyingDynamicCircuitSink::activation_diagnostics]. *)
Definition sink_activation_diagnostics (s : DynamicCircuitApplicationState)
    (sessions : RadiusAccountingSessions) : list RadiusActivationDiagnostic :=
  let application_diagnostics := application_diagnostics s in
  let failed_owners := list_to_set (concat (map diagnostic_owner_keys application_diagnostics)) in
  suppress_failed_owner_diagnostics (service_diagnostics sessions) failed_owners
  ++ application_diagnostics.

Definition record_dynamic_circuit_application_result (s : DynamicCircuitApplicationState)
    (context : DynamicCircuitApplicationContext) (r : ApplicationResult)
    : DynamicCircuitApplicationState :=
  match r with
  | Ok _ => record_application_success s context
  | Err err => record_application_failure s context (application_error_text err)
  end.

(** ** Ownership *)

Definition shared_upsert_may_apply (s : DynamicCircuitApplicationState)
    (context : DynamicCircuitApplicationContext) : bool :=
  match current_owners_by_circuit s !! ctx_circuit_id context with
  | None => true
  | Some session_keys =>
      if negb (existsb (fun session_key => negb (bool_decide (session_key = ctx_session_key context)))
                 (elements session_keys))
      then true
      else
        match authoritative_session_by_circuit s !! ctx_circuit_id context with
        | None => true
        | Some session_key => bool_decide (session_key = ctx_session_key context)
        end
  end.

Definition remove_retained_upsert (s : DynamicCircuitApplicationState) (owner_key : DynamicCircuitOwnerKey)
    : DynamicCircuitApplicationState :=
  set_retained (delete owner_key (retained_upserts_by_owner s))
    (entry_remove (retained_owners_by_circuit s) owner_key.1 owner_key.2) s.

Definition record_upsert_owner (s : DynamicCircuitApplicationState)
    (context : DynamicCircuitApplicationContext) : DynamicCircuitApplicationState :=
  let circuit_id := ctx_circuit_id context in
  let session_key := ctx_session_key context in
  let s := remove_retained_upsert s (owner_key context) in
  set_owners (entry_insert (current_owners_by_circuit s) circuit_id session_key)
    (match authoritative_session_by_circuit s !! circuit_id with
     | Some _ => authoritative_session_by_circuit s
     | None => <[circuit_id := session_key]> (authoritative_session_by_circuit s)
     end) s.

Definition record_applied_upsert (s : DynamicCircuitApplicationState)
    (context : DynamicCircuitApplicationContext) (sequence : Z) : DynamicCircuitApplicationState :=
  let s := record_upsert_owner s context in
  set_latest_applied
    (<[owner_key context := sequence]> (latest_applied_upsert_sequence_by_owner s)) s.

Definition has_pending_upsert_at_or_before (s : DynamicCircuitApplicationState)
    (owner_key : DynamicCircuitOwnerKey) (removal_sequence : Z) : bool :=
  match pending_upsert_sequences_by_owner s !! owner_key with
  | None => false
  | Some pending_sequences =>
      existsb (fun pending_sequence => pending_sequence <=? removal_sequence)
        (elements pending_sequences)
  end.

(** The prologue of [record_retained_upsert] on a deferred removal: [None] is the early return. *)
Definition retained_upsert_prologue (s : DynamicCircuitApplicationState)
    (owner_key : DynamicCircuitOwnerKey) (sequence : Z) : option DynamicCircuitApplicationState :=
  match deferred_removal_sequence_by_owner s !! owner_key with
  | Some removal_sequence =>
      if sequence <=? removal_sequence then None
      else if negb (has_pending_upsert_at_or_before s owner_key removal_sequence)
      then Some (set_deferred_removals (delete owner_key (deferred_removal_sequence_by_owner s)) s)
      else Some s
  | None => Some s
  end.

Definition record_retained_upsert (s : DynamicCircuitApplicationState)
    (context : DynamicCircuitApplicationContext) (sequence : Z) (upsert : DynamicCircuitUpsert)
    : DynamicCircuitApplicationState :=
  let owner_key := owner_key context in
  match retained_upsert_prologue s owner_key sequence with
  | None => s
  | Some s =>
      let s := record_upsert_owner s context in
      let retained :=
        match retained_upserts_by_owner s !! owner_key with
        | Some retained => mkRetainedUpsert (first_sequence retained) upsert
        | None => mkRetainedUpsert sequence upsert
        end in
      set_retained (<[owner_key := retained]> (retained_upserts_by_owner s))
        (entry_insert (retained_owners_by_circuit s) owner_key.1 owner_key.2) s
  end.

(** ** Pending upserts and removals *)

Definition track_pending_upsert (s : DynamicCircuitApplicationState)
    (context : DynamicCircuitApplicationContext) (sequence : Z) : DynamicCircuitApplicationState :=
  set_pending_upserts
    (entry_insert (pending_upsert_sequences_by_owner s) (owner_key context) sequence) s.

Definition upsert_was_removed_before_application (s : DynamicCircuitApplicationState)
    (context : DynamicCircuitApplicationContext) (sequence : Z) : bool :=
  match deferred_removal_sequence_by_owner s !! owner_key context with
  | Some removal_sequence => sequence <=? removal_sequence
  | None => false
  end.

Definition prune_deferred_removal (s : DynamicCircuitApplicationState)
    (owner_key : DynamicCircuitOwnerKey) : DynamicCircuitApplicationState :=
  match deferred_removal_sequence_by_owner s !! owner_key with
  | None => s
  | Some removal_sequence =>
      if negb (has_pending_upsert_at_or_before s owner_key removal_sequence)
      then set_deferred_removals (delete owner_key (deferred_removal_sequence_by_owner s)) s
      else s
  end.

Definition clear_pending_upsert (s : DynamicCircuitApplicationState)
    (context : DynamicCircuitApplicationContext) (sequence : Z) : DynamicCircuitApplicationState :=
  let owner_key := owner_key context in
  let s := set_pending_upserts
             (entry_remove (pending_upsert_sequences_by_owner s) owner_key sequence) s in
  prune_deferred_removal s owner_key.

Definition track_deferred_removal_for_pending_upserts (s : DynamicCircuitApplicationState)
    (context : DynamicCircuitApplicationContext) (sequence : Z) : DynamicCircuitApplicationState :=
  let owner_key := owner_key context in
  if has_pending_upsert_at_or_before s owner_key sequence
  then set_deferred_removals (<[owner_key := sequence]> (deferred_removal_sequence_by_owner s)) s
  else s.

Definition record_pending_removal (s : DynamicCircuitApplicationState)
    (context : DynamicCircuitApplicationContext) (queued_intent : QueuedDynamicCircuitIntent)
    : DynamicCircuitApplicationState :=
  let owner_key := owner_key context in
  let order :=
    match pending_removals_by_owner s !! owner_key with
    | Some _ => without owner_key (pending_removal_order s)
    | None => pending_removal_order s
    end in
  set_pending_removals (<[owner_key := queued_intent]> (pending_removals_by_owner s))
    (order ++ [owner_key]) s.

(** The loop of [take_next_pending_removal] over the order. *)
Fixpoint take_pending_loop (order : list DynamicCircuitOwnerKey) (s : DynamicCircuitApplicationState)
    : DynamicCircuitApplicationState * option QueuedDynamicCircuitIntent :=
  match order with
  | [] => (set_pending_removals (pending_removals_by_owner s) [] s, None)
  | owner_key :: order' =>
      match pending_removals_by_owner s !! owner_key with
      | Some queued_intent =>
          (set_pending_removals (delete owner_key (pending_removals_by_owner s)) order' s,
           Some queued_intent)
      | None => take_pending_loop order' s
      end
  end.
Definition take_next_pending_removal (s : DynamicCircuitApplicationState)
    : DynamicCircuitApplicationState * option QueuedDynamicCircuitIntent :=
  take_pending_loop (pending_removal_order s) s.

Definition removal_is_stale (s : DynamicCircuitApplicationState)
    (context : DynamicCircuitApplicationContext) (removal_sequence : Z) : bool :=
  match latest_applied_upsert_sequence_by_owner s !! owner_key context with
  | Some upsert_sequence => removal_sequence <? upsert_sequence
  | None => false
  end.

(** ** Releasing an owner *)

Definition owner_is_authoritative (s : DynamicCircuitApplicationState)
    (context : DynamicCircuitApplicationContext) : bool :=
  match authoritative_session_by_circuit s !! ctx_circuit_id context with
  | Some session_key => bool_decide (session_key = ctx_session_key context)
  | None => false
  end.

(** The end of [release_owner]: the owner leaves its circuit. *)
Definition release_from_circuit (s : DynamicCircuitApplicationState)
    (context : DynamicCircuitApplicationContext) (owner_was_authoritative : bool)
    : DynamicCircuitApplicationState :=
  let circuit_id := ctx_circuit_id context in
  let '(owners, remaining_owners) :=
    match current_owners_by_circuit s !! circuit_id with
    | Some session_keys =>
        let session_keys := session_keys ∖ {[ctx_session_key context]} in
        (<[circuit_id := session_keys]> (current_owners_by_circuit s), size session_keys)
    | None => (current_owners_by_circuit s, 0%nat)
    end in
  let authoritative :=
    if owner_was_authoritative then delete circuit_id (authoritative_session_by_circuit s)
    else authoritative_session_by_circuit s in
  if (remaining_owners =? 0)%nat
  then set_owners (delete circuit_id owners) (delete circuit_id authoritative) s
  else set_owners owners authoritative s.

Definition release_owner (s : DynamicCircuitApplicationState)
    (context : DynamicCircuitApplicationContext) : DynamicCircuitApplicationState :=
  let owner_was_authoritative := owner_is_authoritative s context in
  let owner_key := owner_key context in
  let s := record_application_success s context in
  let s := remove_retained_upsert s owner_key in
  let s := set_pending_upserts (delete owner_key (pending_upsert_sequences_by_owner s)) s in
  let s := set_deferred_removals (delete owner_key (deferred_removal_sequence_by_owner s)) s in
  let s := set_pending_removals (delete owner_key (pending_removals_by_owner s))
             (pending_removal_order s) s in
  let s := set_latest_applied (delete owner_key (latest_applied_upsert_sequence_by_owner s)) s in
  release_from_circuit s context owner_was_authoritative.

(** [Iterator::min_by_key] keeps the first of equal minima. *)
Definition min_by_first_sequence (l : list RetainedDynamicCircuitUpsert)
    : option RetainedDynamicCircuitUpsert :=
  fold_left (fun best r =>
      match best with
      | None => Some r
      | Some b => if first_sequence r <? first_sequence b then Some r else Some b
      end) l None.

Definition promotable_retained_upsert (s : DynamicCircuitApplicationState)
    (context : DynamicCircuitApplicationContext) : option RetainedDynamicCircuitUpsert :=
  retained_owners ← retained_owners_by_circuit s !! ctx_circuit_id context;
  min_by_first_sequence
    (omap (fun session_key => retained_upserts_by_owner s !! (ctx_circuit_id context, session_key))
       (List.filter (fun session_key => negb (bool_decide (session_key = ctx_session_key context)))
          (elements retained_owners))).

Definition removal_action (s : DynamicCircuitApplicationState)
    (context : DynamicCircuitApplicationContext) : DynamicCircuitRemovalAction :=
  if negb (owner_is_authoritative s context) then Action_ReleaseOnly
  else match promotable_retained_upsert s context with
       | Some upsert => Action_Promote upsert
       | None => Action_Remove
       end.

Definition removal_owner_context (s : DynamicCircuitApplicationState)
    (context : DynamicCircuitApplicationContext) (reason : DynamicCircuitRemovalReason)
    : option DynamicCircuitApplicationContext :=
  if bool_decide (ctx_session_key context ∈ set_at (current_owners_by_circuit s) (ctx_circuit_id context))
  then Some context
  else
    match reason with
    | Removal_Rekeyed =>
        session_keys ← current_owners_by_circuit s !! ctx_circuit_id context;
        match elements session_keys with
        | [owner] =>
            if bool_decide (authoritative_session_by_circuit s !! ctx_circuit_id context = Some owner)
            then Some (mkApplicationContext (ctx_intent_name context) (ctx_circuit_id context) owner)
            else None
        | _ => None
        end
    | _ => None
    end.

(** ** The sink task *)

Inductive BusRequest : Type :=
| Request_CreateDynamicCircuit (shaped_device : ShapedDevice)
| Request_RemoveDynamicCircuit (circuit_id : rstring).

Definition is_upsert (intent : DynamicCircuitIntent) : bool :=
  match intent with CreateDynamicCircuit _ | UpdateDynamicCircuit _ => true | _ => false end.
Definition is_remove (intent : DynamicCircuitIntent) : bool :=
  match intent with RemoveDynamicCircuit _ => true | _ => false end.

(** Where [ApplyingDynamicCircuitSink::emit] is: outside, before [try_send], or before the critical
    section of the failure. *)
Inductive Emitter : Type :=
| Emitter_Idle
| Emitter_Send (queued : QueuedDynamicCircuitIntent)
| Emitter_Failed (queued : QueuedDynamicCircuitIntent) (reason : DynamicCircuitQueueUnavailableReason).

(** The critical sections before the queue. *)
Definition emit_track (s : DynamicCircuitApplicationState) (sequence : Z) (intent : DynamicCircuitIntent)
    : DynamicCircuitApplicationState :=
  let context := from_intent intent in
  let s := if is_upsert intent then track_pending_upsert s context sequence else s in
  if is_remove intent then track_deferred_removal_for_pending_upserts s context sequence else s.

(** The critical section after a failed [try_send]. *)
Definition emit_failure (s : DynamicCircuitApplicationState) (queued : QueuedDynamicCircuitIntent)
    (reason : DynamicCircuitQueueUnavailableReason) : DynamicCircuitApplicationState :=
  let intent := queued_intent queued in
  let context := from_intent intent in
  let defer_removal_until_worker_drains := is_remove intent && bool_decide (reason = Queue_Full) in
  let s := record_application_failure s context (application_error_text (QueueUnavailable reason)) in
  let s := if is_upsert intent then clear_pending_upsert s context (queued_sequence queued) else s in
  if defer_removal_until_worker_drains then record_pending_removal s context queued else s.

(** ** The worker task *)

(** The point the worker has reached; each but [Worker_Receive] and the awaits is before a critical
    section. *)
Inductive Worker : Type :=
| Worker_Receive
| Worker_Process (queued : QueuedDynamicCircuitIntent)
| Worker_ShareCheck (context : DynamicCircuitApplicationContext) (sequence : Z)
    (upsert : DynamicCircuitUpsert)
| Worker_AwaitUpsert (context : DynamicCircuitApplicationContext) (sequence : Z)
    (shaped_device : ShapedDevice)
| Worker_RecordUpsert (context : DynamicCircuitApplicationContext) (sequence : Z) (r : ApplicationResult)
| Worker_ClearPending (context : DynamicCircuitApplicationContext) (sequence : Z)
| Worker_RemovalAction (context : DynamicCircuitApplicationContext) (circuit_id : rstring)
| Worker_Release (context : DynamicCircuitApplicationContext)
| Worker_AwaitRemoval (context : DynamicCircuitApplicationContext) (circuit_id : rstring)
    (extra_release_context : option DynamicCircuitApplicationContext)
| Worker_RecordRemoval (context : DynamicCircuitApplicationContext) (r : ApplicationResult)
| Worker_AwaitPromotion (context : DynamicCircuitApplicationContext) (circuit_id : rstring)
    (retained : RetainedDynamicCircuitUpsert)
| Worker_Drain.

(** The first critical section of an intent. *)
Definition process_dynamic_circuit_intent (s : DynamicCircuitApplicationState)
    (queued : QueuedDynamicCircuitIntent) : DynamicCircuitApplicationState * Worker :=
  let sequence := queued_sequence queued in
  let context := from_intent (queued_intent queued) in
  match queued_intent queued with
  | CreateDynamicCircuit upsert | UpdateDynamicCircuit upsert =>
      if upsert_was_removed_before_application s context sequence
      then (s, Worker_ClearPending context sequence)
      else (s, Worker_ShareCheck context sequence upsert)
  | RemoveDynamicCircuit removal =>
      match removal_owner_context s context (removal_reason removal) with
      | None => (record_application_success s context, Worker_Drain)
      | Some owner_context =>
          if removal_is_stale s owner_context sequence then (s, Worker_Drain)
          else (s, Worker_RemovalAction owner_context (removal_circuit_id removal))
      end
  end.

(** A critical section of the worker. *)
Definition worker_section (s : DynamicCircuitApplicationState) (w : Worker)
    : option (DynamicCircuitApplicationState * Worker) :=
  match w with
  | Worker_Process queued => Some (process_dynamic_circuit_intent s queued)
  | Worker_ShareCheck context sequence upsert =>
      if shared_upsert_may_apply s context
      then Some (s, Worker_AwaitUpsert context sequence (upsert_shaped_device upsert))
      else Some (record_retained_upsert s context sequence upsert, Worker_ClearPending context sequence)
  | Worker_RecordUpsert context sequence r =>
      Some (record_dynamic_circuit_application_result s context r, Worker_ClearPending context sequence)
  | Worker_ClearPending context sequence => Some (clear_pending_upsert s context sequence, Worker_Drain)
  | Worker_RemovalAction context circuit_id =>
      Some (s, match removal_action s context with
               | Action_ReleaseOnly => Worker_Release context
               | Action_Remove => Worker_AwaitRemoval context circuit_id None
               | Action_Promote retained => Worker_AwaitPromotion context circuit_id retained
               end)
  | Worker_Release context => Some (release_owner s context, Worker_Drain)
  | Worker_RecordRemoval context r =>
      Some (record_dynamic_circuit_application_result s context r, Worker_Drain)
  | Worker_Drain =>
      match take_next_pending_removal s with
      | (s, Some queued) => Some (s, Worker_Process queued)
      | (s, None) => Some (s, Worker_Receive)
      end
  | Worker_Receive | Worker_AwaitUpsert _ _ _ | Worker_AwaitRemoval _ _ _ | Worker_AwaitPromotion _ _ _ =>
      None
  end.

(** The request the worker awaits the outcome of, with the owner it is sent for. *)
Definition awaited (w : Worker) : option (DynamicCircuitApplicationContext * BusRequest) :=
  match w with
  | Worker_AwaitUpsert context _ shaped_device =>
      Some (context, Request_CreateDynamicCircuit shaped_device)
  | Worker_AwaitRemoval context circuit_id _ => Some (context, Request_RemoveDynamicCircuit circuit_id)
  | Worker_AwaitPromotion _ _ retained =>
      Some (from_upsert (str "update") (retained_upsert retained),
            Request_CreateDynamicCircuit (upsert_shaped_device (retained_upsert retained)))
  | _ => None
  end.

(** The critical section after the outcome of a request, by the function that sent it. *)
Definition apply_dynamic_circuit_request_and_record (s : DynamicCircuitApplicationState)
    (context : DynamicCircuitApplicationContext) (sequence : Z) (r : ApplicationResult)
    : DynamicCircuitApplicationState * Worker :=
  (if dynamic_circuit_upsert_result_records_success r
   then record_applied_upsert s context sequence else s,
   Worker_RecordUpsert context sequence r).

Definition apply_dynamic_circuit_removal_request (s : DynamicCircuitApplicationState)
    (context : DynamicCircuitApplicationContext)
    (extra_release_context : option DynamicCircuitApplicationContext) (r : ApplicationResult)
    : DynamicCircuitApplicationState * Worker :=
  (if dynamic_circuit_removal_result_releases_owner r
   then
     let s := release_owner s context in
     match extra_release_context with
     | Some extra_release_context => release_owner s extra_release_context
     | None => s
     end
   else s,
   Worker_RecordRemoval context r).

Definition promote_retained_upsert (s : DynamicCircuitApplicationState)
    (context : DynamicCircuitApplicationContext) (circuit_id : rstring)
    (retained : RetainedDynamicCircuitUpsert) (r : ApplicationResult)
    : DynamicCircuitApplicationState * Worker :=
  let promoted_context := from_upsert (str "update") (retained_upsert retained) in
  if dynamic_circuit_upsert_result_records_success r
  then
    let s := release_owner s context in
    let s := record_applied_upsert s promoted_context (first_sequence retained) in
    (record_application_success s promoted_context, Worker_Drain)
  else
    (match r with
     | Err err => record_application_failure s promoted_context (application_error_text err)
     | Ok _ => s
     end,
     Worker_AwaitRemoval context circuit_id (Some promoted_context)).

Definition reply_section (s : DynamicCircuitApplicationState) (w : Worker) (r : ApplicationResult)
    : DynamicCircuitApplicationState * Worker :=
  match w with
  | Worker_AwaitUpsert context sequence _ =>
      apply_dynamic_circuit_request_and_record s context sequence r
  | Worker_AwaitRemoval context _ extra_release_context =>
      apply_dynamic_circuit_removal_request s context extra_release_context r
  | Worker_AwaitPromotion context circuit_id retained =>
      promote_retained_upsert s context circuit_id retained r
  | _ => (s, w)
  end.

(** ** The system *)

Record System : Type := mkSystem {
  sys_state : DynamicCircuitApplicationState;
  sys_queue : list QueuedDynamicCircuitIntent;
  sys_next_sequence : Z;
  sys_emitter : Emitter;
  sys_worker : Worker
}.

Definition System_new : System := mkSystem ApplicationState_default [] 0 Emitter_Idle Worker_Receive.

(** What a step does that the rest of the daemon can see. *)
Inductive Label : Type :=
| Label_Emit (intent : DynamicCircuitIntent)
| Label_Send (r : result DynamicCircuitQueueUnavailableReason unit)
| Label_Failure
| Label_Receive
| Label_Section
| Label_Reply (context : DynamicCircuitApplicationContext) (request : BusRequest) (outcome : BusOutcome).

(** [try_send] on the bounded queue; a closed queue is the environment's. *)
Definition try_send_allowed (capacity : nat) (queue : list QueuedDynamicCircuitIntent)
    (r : result DynamicCircuitQueueUnavailableReason unit) : Prop :=
  match r with
  | Ok _ => (length queue < capacity)%nat
  | Err Queue_Full => (length queue = capacity)%nat
  | Err Queue_Closed => True
  end.

Inductive step (capacity : nat) : System -> Label -> System -> Prop :=
| step_emit s queue n w intent :
    step capacity (mkSystem s queue n Emitter_Idle w) (Label_Emit intent)
      (mkSystem (emit_track s n intent) queue (u64_succ n) (Emitter_Send (mkQueuedIntent n intent)) w)
| step_send s queue n w queued :
    try_send_allowed capacity queue (Ok tt) ->
    step capacity (mkSystem s queue n (Emitter_Send queued) w) (Label_Send (Ok tt))
      (mkSystem s (queue ++ [queued]) n Emitter_Idle w)
| step_send_failed s queue n w queued reason :
    try_send_allowed capacity queue (Err reason) ->
    step capacity (mkSystem s queue n (Emitter_Send queued) w) (Label_Send (Err reason))
      (mkSystem s queue n (Emitter_Failed queued reason) w)
| step_failure s queue n w queued reason :
    step capacity (mkSystem s queue n (Emitter_Failed queued reason) w) Label_Failure
      (mkSystem (emit_failure s queued reason) queue n Emitter_Idle w)
| step_receive s queue n e queued :
    step capacity (mkSystem s (queued :: queue) n e Worker_Receive) Label_Receive
      (mkSystem s queue n e (Worker_Process queued))
| step_section s queue n e w s' w' :
    worker_section s w = Some (s', w') ->
    step capacity (mkSystem s queue n e w) Label_Section (mkSystem s' queue n e w')
| step_reply s queue n e w context request outcome s' w' :
    awaited w = Some (context, request) ->
    reply_section s w (apply_dynamic_circuit_request outcome) = (s', w') ->
    step capacity (mkSystem s queue n e w) (Label_Reply context request outcome)
      (mkSystem s' queue n e w').

(** The runs from the start, with their labels. *)
Inductive app_run (capacity : nat) : list Label -> System -> Prop :=
| app_start : app_run capacity [] System_new
| app_step labels sys label sys' :
    app_run capacity labels sys -> step capacity sys label sys' ->
    app_run capacity (labels ++ [label]) sys'.
