(* ===== verification/DynamicCircuitApplicationSpec.v ===== *)
(** * What dynamic-circuit application guarantees

    The invariant of the ownership state under every interleaving of the sink and the worker; the
    session whose device is in force on the bus is the authoritative one; a circuit changes hands only
    by its owner's removal; and, when nothing fails, the circuits in force at rest are those of the
    sessions whose last intent is an upsert. *)

From S2P Require Import Prelude RustStd RustCollections AccountingEvent ShapedDevice MacMatch.
From S2P Require Import SessionTypes SessionMetadata SessionStore SessionCommands.
From S2P Require Import RadiusService ApplicationError DynamicCircuitApplication.

(** ** The ownership invariant *)

Definition owns (s : DynamicCircuitApplicationState) (c : rstring) (k : AccountingSessionKey) : Prop :=
  k ∈ set_at (current_owners_by_circuit s) c.
Definition authoritative (s : DynamicCircuitApplicationState) (c : rstring) : option AccountingSessionKey :=
  authoritative_session_by_circuit s !! c.
Definition retained (s : DynamicCircuitApplicationState) (c : rstring) (k : AccountingSessionKey)
    : option RetainedDynamicCircuitUpsert :=
  retained_upserts_by_owner s !! (c, k).

Record owners_ok (s : DynamicCircuitApplicationState) : Prop := {
  owners_no_empty : no_empty_set (current_owners_by_circuit s);
  authoritative_owns : forall c k, authoritative s c = Some k -> owns s c k;
  retained_no_empty : no_empty_set (retained_owners_by_circuit s);
  retained_indexed : forall c k,
    k ∈ set_at (retained_owners_by_circuit s) c <-> is_Some (retained s c k);
  retained_owns : forall c k, is_Some (retained s c k) -> owns s c k;
  retained_waits : forall c k, is_Some (retained s c k) -> authoritative s c <> Some k;
  retained_context : forall c k r, retained s c k = Some r ->
    upsert_circuit_id (retained_upsert r) = c /\ upsert_session_key (retained_upsert r) = k;
  applied_owns : forall c k,
    is_Some (latest_applied_upsert_sequence_by_owner s !! (c, k)) -> owns s c k
}.

(** The fields the ownership invariant is about. *)
Definition same_ownership (s s' : DynamicCircuitApplicationState) : Prop :=
  current_owners_by_circuit s' = current_owners_by_circuit s
  /\ authoritative_session_by_circuit s' = authoritative_session_by_circuit s
  /\ retained_upserts_by_owner s' = retained_upserts_by_owner s
  /\ retained_owners_by_circuit s' = retained_owners_by_circuit s
  /\ latest_applied_upsert_sequence_by_owner s' = latest_applied_upsert_sequence_by_owner s.

#[local] Instance same_ownership_trans : Transitive same_ownership.
Proof. intros s1 s2 s3 (?&?&?&?&?) (?&?&?&?&?). split_and!; congruence. Qed.
#[local] Instance same_ownership_refl : Reflexive same_ownership.
Proof. done. Qed.

Lemma owners_ok_same s s' : same_ownership s s' -> owners_ok s -> owners_ok s'.
Proof.
  intros (Ho & Ha & Hr & Hi & Hl) [].
  split; unfold owns, authoritative, retained in *; rewrite ?Ho, ?Ha, ?Hr, ?Hi, ?Hl; done.
Qed.

(** The critical sections that only do bookkeeping. *)
Lemma record_result_same s ctx r : same_ownership s (record_dynamic_circuit_application_result s ctx r).
Proof. by destruct r. Qed.
Lemma clear_pending_same s ctx n : same_ownership s (clear_pending_upsert s ctx n).
Proof. unfold clear_pending_upsert, prune_deferred_removal. by repeat case_match. Qed.
Lemma emit_track_same s n i : same_ownership s (emit_track s n i).
Proof.
  unfold emit_track, track_deferred_removal_for_pending_upserts. by repeat case_match.
Qed.
Lemma emit_failure_same s q r : same_ownership s (emit_failure s q r).
Proof.
  unfold emit_failure. set (s1 := record_application_failure _ _ _).
  assert (same_ownership s s1) as H1 by done.
  set (s2 := if is_upsert _ then _ else _). assert (same_ownership s s2) as H2.
  { etrans; [exact H1|]. subst s2. case_match; [apply clear_pending_same|done]. }
  clearbody s2. case_match; [|done]. by etrans.
Qed.
Lemma take_pending_same s : same_ownership s (take_next_pending_removal s).1.
Proof.
  unfold take_next_pending_removal. generalize (pending_removal_order s) as l.
  induction l as [|o l IH]; cbn; [done|]. by destruct (pending_removals_by_owner s !! o).
Qed.
Lemma prologue_same s o n s' : retained_upsert_prologue s o n = Some s' -> same_ownership s s'.
Proof. unfold retained_upsert_prologue. intros Hp. repeat case_match; simplify_eq; done. Qed.

(** ** Recording an owner *)

Section Owner.
Implicit Types (s : DynamicCircuitApplicationState) (ctx : DynamicCircuitApplicationContext).

Abbreviation cid ctx := (ctx_circuit_id ctx) (only parsing).
Abbreviation ses ctx := (ctx_session_key ctx) (only parsing).

(** What recording [ctx] as an owner changes. *)
Record owner_recorded ctx s s' : Prop := {
  rec_owns : forall c k, owns s' c k <-> owns s c k \/ (c = cid ctx /\ k = ses ctx);
  rec_authoritative : forall c, authoritative s' c =
    if decide (c = cid ctx) then Some (default (ses ctx) (authoritative s c)) else authoritative s c;
  rec_retained : forall c k, retained s' c k =
    if decide (c = cid ctx /\ k = ses ctx) then None else retained s c k
}.

Lemma record_upsert_owner_spec s ctx : owner_recorded ctx s (record_upsert_owner s ctx).
Proof.
  split.
  - intros c k. unfold owns, record_upsert_owner. cbn. rewrite set_at_insert. case_decide; set_solver.
  - intros c. unfold authoritative, record_upsert_owner. cbn.
    destruct (authoritative_session_by_circuit s !! cid ctx) eqn:Ha.
    + case_decide; [by subst; rewrite Ha|done].
    + rewrite lookup_insert. repeat case_decide; subst; rewrite ?Ha; done.
  - intros c k. unfold retained, record_upsert_owner. cbn. rewrite lookup_delete. unfold owner_key.
    repeat case_decide; naive_solver.
Qed.

Lemma record_upsert_owner_ok s ctx : owners_ok s -> owners_ok (record_upsert_owner s ctx).
Proof.
  intros [Hne Hauth Hrne Hridx Hrown Hrw Hrctx Hlat].
  destruct (record_upsert_owner_spec s ctx) as [Eo Ea Er].
  split.
  - by apply no_empty_insert.
  - intros c k. rewrite Ea, Eo. case_decide; [subst|by auto].
    destruct (authoritative s (cid ctx)) eqn:Hac; cbn; intros [= <-]; auto.
  - by apply no_empty_remove.
  - intros c k. rewrite Er. unfold record_upsert_owner. cbn. rewrite set_at_remove. unfold owner_key. cbn.
    specialize (Hridx c k). repeat case_decide; subst; rewrite ?elem_of_difference, ?not_elem_of_singleton.
    + destruct_and?. subst. split; [naive_solver|by intros []].
    + split; [naive_solver|]. intros Hs%Hridx. naive_solver.
    + naive_solver.
    + done.
  - intros c k. rewrite Er, Eo. case_decide; [by intros []|auto].
  - intros c k. rewrite Er, Ea. case_decide as Hck; [by intros []|]. intros Hs.
    case_decide; [subst|by apply Hrw]. destruct (authoritative s (cid ctx)) eqn:Hac; cbn.
    + rewrite <- Hac. by apply Hrw.
    + intros [= <-]. naive_solver.
  - intros c k r. rewrite Er. case_decide; [done|apply Hrctx].
  - intros c k Hs. apply Eo. left. by apply Hlat.
Qed.

Lemma record_applied_upsert_spec s ctx n : owner_recorded ctx s (record_applied_upsert s ctx n).
Proof. destruct (record_upsert_owner_spec s ctx). by split. Qed.

Lemma record_applied_upsert_ok s ctx n : owners_ok s -> owners_ok (record_applied_upsert s ctx n).
Proof.
  intros Hok. pose proof (record_upsert_owner_ok s ctx Hok) as [].
  split; try done. intros c k. unfold record_applied_upsert. cbn [set_latest_applied
    latest_applied_upsert_sequence_by_owner]. rewrite lookup_insert. case_decide as Hck.
  - intros _. apply (record_upsert_owner_spec s ctx). right. unfold owner_key in Hck. naive_solver.
  - intros Hs. by apply applied_owns0.
Qed.

(** Retaining an upsert on top of a recorded owner. *)
Definition add_retained s ctx n u : DynamicCircuitApplicationState :=
  set_retained (<[owner_key ctx := mkRetainedUpsert n u]> (retained_upserts_by_owner s))
    (entry_insert (retained_owners_by_circuit s) (cid ctx) (ses ctx)) s.

(** The owner's earlier retained upsert is gone when the new one is stored, so its sequence is new. *)
Lemma record_retained_upsert_eq s ctx n u :
  record_retained_upsert s ctx n u =
  match retained_upsert_prologue s (owner_key ctx) n with
  | None => s
  | Some s => add_retained (record_upsert_owner s ctx) ctx n u
  end.
Proof.
  unfold record_retained_upsert. destruct (retained_upsert_prologue s (owner_key ctx) n) as [s1|]; [|done].
  assert (retained_upserts_by_owner (record_upsert_owner s1 ctx) !! owner_key ctx = None) as ->; [|done].
  apply lookup_delete_eq.
Qed.

Lemma prologue_None s ctx n :
  retained_upsert_prologue s (owner_key ctx) n = None ->
  upsert_was_removed_before_application s ctx n = true.
Proof.
  unfold retained_upsert_prologue, upsert_was_removed_before_application.
  destruct (deferred_removal_sequence_by_owner s !! owner_key ctx); [|done].
  destruct (n <=? z); [done|]. by case_match.
Qed.

(** What retaining changes. *)
Record owner_retained ctx n u s s' : Prop := {
  ret_owns : forall c k, owns s' c k <-> owns s c k \/ (c = cid ctx /\ k = ses ctx);
  ret_authoritative : forall c, authoritative s' c =
    if decide (c = cid ctx) then Some (default (ses ctx) (authoritative s c)) else authoritative s c;
  ret_retained : forall c k, retained s' c k =
    if decide (c = cid ctx /\ k = ses ctx) then Some (mkRetainedUpsert n u) else retained s c k;
  ret_latest : latest_applied_upsert_sequence_by_owner s' = latest_applied_upsert_sequence_by_owner s
}.

Lemma add_retained_spec s s1 ctx n u :
  same_ownership s s1 -> owner_retained ctx n u s (add_retained (record_upsert_owner s1 ctx) ctx n u).
Proof.
  intros (Ho & Ha & Hr & _ & Hl). destruct (record_upsert_owner_spec s1 ctx) as [Eo Ea Er].
  unfold owns, authoritative, retained in *. rewrite Ho, Ha, Hr in *. split; [exact Eo|exact Ea| |exact Hl].
  intros c k. unfold retained, add_retained. cbn [set_retained retained_upserts_by_owner].
  rewrite lookup_insert. unfold owner_key. specialize (Er c k).
  case_decide; case_decide; [done|naive_solver|naive_solver|done].
Qed.

Lemma record_retained_upsert_cases s ctx n u :
  record_retained_upsert s ctx n u = s /\ upsert_was_removed_before_application s ctx n = true
  \/ owner_retained ctx n u s (record_retained_upsert s ctx n u).
Proof.
  rewrite record_retained_upsert_eq. destruct (retained_upsert_prologue _ _ _) as [s1|] eqn:Hp.
  - right. by eapply add_retained_spec, prologue_same.
  - left. split; [done|]. by apply prologue_None.
Qed.

Lemma add_retained_ok s ctx n u :
  owners_ok s -> owner_key ctx = (upsert_circuit_id u, upsert_session_key u) ->
  owns s (cid ctx) (ses ctx) -> authoritative s (cid ctx) <> Some (ses ctx) ->
  owners_ok (add_retained s ctx n u).
Proof.
  intros [Hne Hauth Hrne Hridx Hrown Hrw Hrctx Hlat] Hctx Hown Hother.
  assert (forall c k, retained (add_retained s ctx n u) c k =
    if decide (c = cid ctx /\ k = ses ctx) then Some (mkRetainedUpsert n u) else retained s c k) as Er.
  { intros c k. unfold retained, add_retained. cbn [set_retained retained_upserts_by_owner].
    rewrite lookup_insert. unfold owner_key. repeat case_decide; naive_solver. }
  split; [done|done|by apply no_empty_insert|..|done].
  - intros c k. rewrite Er. cbn. rewrite set_at_insert. specialize (Hridx c k).
    repeat case_decide; subst; rewrite ?elem_of_union, ?elem_of_singleton.
    + destruct_and?. subst. split; [by eexists|by left].
    + naive_solver.
    + naive_solver.
    + done.
  - intros c k. rewrite Er. case_decide as Hck; [|apply Hrown]. by destruct Hck as [-> ->].
  - intros c k. rewrite Er. case_decide as Hck; [|apply Hrw]. by destruct Hck as [-> ->].
  - intros c k r. rewrite Er. case_decide as Hck; [|apply Hrctx]. destruct Hck as [-> ->].
    intros [= <-]. unfold owner_key in Hctx. cbn. naive_solver.
Qed.

Lemma record_retained_upsert_ok s ctx n u :
  owners_ok s -> owner_key ctx = (upsert_circuit_id u, upsert_session_key u) ->
  authoritative s (cid ctx) <> None -> authoritative s (cid ctx) <> Some (ses ctx) ->
  owners_ok (record_retained_upsert s ctx n u).
Proof.
  intros Hok Hctx Hsome Hother. rewrite record_retained_upsert_eq.
  destruct (retained_upsert_prologue _ _ _) as [s1|] eqn:Hp; [|done].
  pose proof (prologue_same _ _ _ _ Hp) as Hsame. pose proof (owners_ok_same _ _ Hsame Hok) as Hok1.
  destruct Hsame as (_ & Ha & _). destruct (record_upsert_owner_spec s1 ctx) as [Eo Ea _].
  apply add_retained_ok; [by apply record_upsert_owner_ok|done| |].
  - apply Eo. by right.
  - rewrite Ea, decide_True by done. unfold authoritative in *. rewrite Ha.
    by destruct (authoritative_session_by_circuit s !! cid ctx).
Qed.

(** An upsert may apply exactly when no other session is authoritative. *)
Lemma may_apply_spec s ctx :
  owners_ok s ->
  shared_upsert_may_apply s ctx = true <->
  authoritative s (cid ctx) = None \/ authoritative s (cid ctx) = Some (ses ctx).
Proof.
  intros [Hne Hauth _ _ _ _ _ _]. unfold shared_upsert_may_apply.
  specialize (Hauth (cid ctx)). unfold owns, authoritative, set_at in *.
  destruct (current_owners_by_circuit s !! cid ctx) as [ks|] eqn:Hks; cbn in Hauth.
  - destruct (existsb _ (elements ks)) eqn:Hex; cbn [negb].
    + destruct (authoritative_session_by_circuit s !! cid ctx) as [k|]; [|naive_solver].
      rewrite bool_decide_eq_true. naive_solver.
    + split; [intros _|done]. destruct (authoritative_session_by_circuit s !! cid ctx) as [k|]; [|by left].
      right. f_equal. destruct (decide (k = ses ctx)) as [|Hneq]; [done|]. exfalso.
      apply not_true_iff_false in Hex. apply Hex, existsb_exists. exists k.
      split; [by apply list_elem_of_In, elem_of_elements, Hauth|]. by rewrite bool_decide_false.
  - split; [intros _|done]. destruct (authoritative_session_by_circuit s !! cid ctx) as [k|]; [|by left].
    specialize (Hauth k eq_refl). set_solver.
Qed.

(** ** Releasing an owner *)

Record owner_released ctx s s' : Prop := {
  rel_owns : forall c k, owns s' c k <-> owns s c k /\ ~ (c = cid ctx /\ k = ses ctx);
  rel_authoritative : forall c, authoritative s' c =
    if decide (c = cid ctx /\ authoritative s c = Some (ses ctx)) then None else authoritative s c;
  rel_retained : forall c k, retained s' c k =
    if decide (c = cid ctx /\ k = ses ctx) then None else retained s c k;
  rel_latest : latest_applied_upsert_sequence_by_owner s' =
    delete (owner_key ctx) (latest_applied_upsert_sequence_by_owner s)
}.

Lemma owner_is_authoritative_spec s ctx :
  owner_is_authoritative s ctx = true <-> authoritative s (cid ctx) = Some (ses ctx).
Proof.
  unfold owner_is_authoritative, authoritative.
  destruct (authoritative_session_by_circuit s !! cid ctx); [|done]. rewrite bool_decide_eq_true. naive_solver.
Qed.

(** The owners and the authoritative session after [release_from_circuit]. *)
Lemma release_from_circuit_owners s ctx b :
  no_empty_set (current_owners_by_circuit s) ->
  no_empty_set (current_owners_by_circuit (release_from_circuit s ctx b))
  /\ (forall c k, owns (release_from_circuit s ctx b) c k <-> owns s c k /\ ~ (c = cid ctx /\ k = ses ctx)).
Proof.
  intros Hne. unfold owns, release_from_circuit.
  destruct (current_owners_by_circuit s !! cid ctx) as [ks|] eqn:Hks; cbn.
  - destruct (Nat.eqb_spec (size (ks ∖ {[ses ctx]})) 0) as [Hz|Hz]; cbn.
    + apply size_empty_inv in Hz. split.
      * rewrite delete_insert_eq. by apply no_empty_delete.
      * intros c k. rewrite delete_insert_eq. unfold set_at. rewrite lookup_delete.
        case_decide; subst; [rewrite Hks; cbn; set_solver|naive_solver].
    + split.
      * intros c. rewrite lookup_insert. case_decide; [|apply Hne]. intros [= He]. apply Hz. rewrite He. done.
      * intros c k. unfold set_at. rewrite lookup_insert.
        case_decide; subst; [rewrite Hks; cbn; set_solver|naive_solver].
  - split; [by apply no_empty_delete|].
    intros c k. unfold set_at. rewrite lookup_delete. case_decide; subst; [rewrite Hks; cbn; set_solver|naive_solver].
Qed.

Lemma release_from_circuit_authoritative s ctx c :
  (forall c k, authoritative s c = Some k -> owns s c k) ->
  authoritative (release_from_circuit s ctx (owner_is_authoritative s ctx)) c =
  if decide (c = cid ctx /\ authoritative s c = Some (ses ctx)) then None else authoritative s c.
Proof.
  intros Hauth. unfold release_from_circuit. set (owners := match _ with Some _ => _ | None => _ end).
  assert (owners.2 = 0%nat -> forall k, owns s (cid ctx) k -> k = ses ctx) as Hlast.
  { subst owners. unfold owns, set_at. destruct (current_owners_by_circuit s !! cid ctx) as [ks|]; cbn.
    - intros Hz%size_empty_inv k Hk. destruct (decide (k = ses ctx)); [done|set_solver].
    - set_solver. }
  destruct owners as [os remaining]. cbn in Hlast.
  destruct (decide (c = cid ctx)) as [->|Hc].
  - destruct (owner_is_authoritative s ctx) eqn:Hoa.
    + apply owner_is_authoritative_spec in Hoa. rewrite decide_True by done.
      case_match; unfold authoritative; cbn; by rewrite !lookup_delete_eq.
    + rewrite decide_False.
      2: { intros [_ H]. apply owner_is_authoritative_spec in H. congruence. }
      case_match eqn:Hz; [|done]. apply Nat.eqb_eq in Hz. unfold authoritative at 1. cbn.
      rewrite lookup_delete_eq. destruct (authoritative s (cid ctx)) as [k|] eqn:Hk; [|done].
      assert (k = ses ctx) as -> by (by apply Hlast, Hauth).
      apply owner_is_authoritative_spec in Hk. congruence.
  - rewrite decide_False by (by intros [? _]).
    case_match; unfold authoritative; cbn; rewrite ?lookup_delete_ne by done; case_match;
      by rewrite ?lookup_delete_ne.
Qed.

Lemma release_owner_spec s ctx : owners_ok s -> owner_released ctx s (release_owner s ctx).
Proof.
  intros [Hne Hauth _ _ _ _ _ _]. unfold release_owner.
  set (s1 := set_latest_applied _ _).
  assert (current_owners_by_circuit s1 = current_owners_by_circuit s
    /\ authoritative_session_by_circuit s1 = authoritative_session_by_circuit s) as [Ho Ha] by done.
  assert (owner_is_authoritative s ctx = owner_is_authoritative s1 ctx) as -> by done.
  assert (retained_upserts_by_owner s1 = delete (owner_key ctx) (retained_upserts_by_owner s)
    /\ latest_applied_upsert_sequence_by_owner s1 =
       delete (owner_key ctx) (latest_applied_upsert_sequence_by_owner s)) as [Hr Hl] by done.
  clearbody s1.
  assert (forall b, retained_upserts_by_owner (release_from_circuit s1 ctx b) = retained_upserts_by_owner s1
    /\ latest_applied_upsert_sequence_by_owner (release_from_circuit s1 ctx b) =
       latest_applied_upsert_sequence_by_owner s1) as Hframe.
  { intros b. unfold release_from_circuit. by repeat case_match. }
  destruct (Hframe (owner_is_authoritative s1 ctx)) as [Fr Fl].
  split.
  - intros c k. rewrite (proj2 (release_from_circuit_owners s1 ctx _ ltac:(by rewrite Ho))).
    unfold owns. by rewrite Ho.
  - intros c. rewrite release_from_circuit_authoritative; unfold authoritative, owns; rewrite ?Ha, ?Ho; done.
  - intros c k. unfold retained. rewrite Fr, Hr, lookup_delete. unfold owner_key.
    destruct (decide ((cid ctx, ses ctx) = (c, k))), (decide (c = cid ctx /\ k = ses ctx)); naive_solver.
  - by rewrite Fl, Hl.
Qed.

Lemma release_owner_ok s ctx : owners_ok s -> owners_ok (release_owner s ctx).
Proof.
  intros Hok. destruct (release_owner_spec s ctx Hok) as [Eo Ea Er El].
  destruct Hok as [Hne Hauth Hrne Hridx Hrown Hrw Hrctx Hlat].
  assert (no_empty_set (current_owners_by_circuit (release_owner s ctx))) as N1
    by (by apply release_from_circuit_owners).
  assert (retained_owners_by_circuit (release_owner s ctx) =
    entry_remove (retained_owners_by_circuit s) (cid ctx) (ses ctx)) as Hro.
  { unfold release_owner, release_from_circuit. by repeat case_match. }
  split; rewrite ?Hro; [done|..].
  - intros c k. rewrite Ea, Eo. case_decide as Hd; [done|]. intros Hk. split; [by apply Hauth|].
    intros [-> ->]. by apply Hd.
  - by apply no_empty_remove.
  - intros c k. rewrite Er, set_at_remove. specialize (Hridx c k).
    destruct (decide (c = cid ctx)) as [->|Hc]; [destruct (decide (k = ses ctx)) as [->|Hk]|].
    + rewrite decide_True by done. split; [set_solver|by intros []].
    + rewrite decide_False by tauto. rewrite <- Hridx. set_solver.
    + rewrite decide_False by tauto. done.
  - intros c k. rewrite Er, Eo. case_decide as Hd; [by intros []|]. intros Hs. by split; [apply Hrown|].
  - intros c k. rewrite Er, Ea. case_decide as Hd; [by intros []|]. intros Hs.
    case_decide; [done|by apply Hrw].
  - intros c k r. rewrite Er. case_decide; [done|apply Hrctx].
  - intros c k. rewrite El, Eo, lookup_delete. unfold owner_key. case_decide as Hd; [by intros []|].
    intros Hs. split; [by apply Hlat|]. intros [-> ->]. by apply Hd.
Qed.
End Owner.

(** ** Choosing what a removal does *)

Lemma min_by_first_sequence_spec l :
  match min_by_first_sequence l with
  | None => l = []
  | Some r => r ∈ l /\ forall r', r' ∈ l -> first_sequence r <= first_sequence r'
  end.
Proof.
  unfold min_by_first_sequence. induction l as [|r l IH] using rev_ind; [done|].
  rewrite fold_left_app. cbn. destruct (fold_left _ l None) as [b|].
  - destruct IH as [Hb Hmin]. destruct (Z.ltb_spec (first_sequence r) (first_sequence b));
      (split; [set_solver|]); intros r' [Hin| ->%list_elem_of_singleton]%elem_of_app; try lia;
      apply Hmin in Hin; lia.
  - subst l. split; [set_solver|]. intros r' [Hin| ->%list_elem_of_singleton]%elem_of_app; [set_solver|lia].
Qed.

Lemma promotable_spec s ctx :
  owners_ok s ->
  match promotable_retained_upsert s ctx with
  | None => forall k, is_Some (retained s (ctx_circuit_id ctx) k) -> k = ctx_session_key ctx
  | Some r =>
      upsert_session_key (retained_upsert r) <> ctx_session_key ctx
      /\ retained s (ctx_circuit_id ctx) (upsert_session_key (retained_upsert r)) = Some r
      /\ forall k r', k <> ctx_session_key ctx -> retained s (ctx_circuit_id ctx) k = Some r' ->
           first_sequence r <= first_sequence r'
  end.
Proof.
  intros Hok. unfold promotable_retained_upsert. pose proof (retained_indexed _ Hok (ctx_circuit_id ctx)) as Hidx.
  unfold set_at in Hidx. destruct (retained_owners_by_circuit s !! ctx_circuit_id ctx) as [ks|]; cbn in Hidx |- *.
  2: { intros k Hk%Hidx. set_solver. }
  set (l := omap _ _).
  assert (forall r, r ∈ l <-> exists k, k <> ctx_session_key ctx /\ retained s (ctx_circuit_id ctx) k = Some r) as Hl.
  { intros r. subst l. rewrite list_elem_of_omap. split.
    - intros (k & [_ Hne]%list_elem_of_In%filter_In & Hr). to_prop. by exists k.
    - intros (k & Hne & Hr). exists k. split; [|done]. apply list_elem_of_In, filter_In.
      split; [apply list_elem_of_In, elem_of_elements, Hidx; by rewrite Hr|]. by rewrite bool_decide_false. }
  pose proof (min_by_first_sequence_spec l) as Hmin. destruct (min_by_first_sequence l) as [r|].
  - destruct Hmin as [(k & Hne & Hr)%Hl Hmin]. destruct (retained_context _ Hok _ _ _ Hr) as [_ <-].
    split_and!; [done|done|]. intros k' r' Hk' Hr'. apply Hmin, Hl. by exists k'.
  - intros k [r Hr]. destruct (decide (k = ctx_session_key ctx)) as [|Hne]; [done|].
    assert (r ∈ l) as Hin by (apply Hl; by exists k). rewrite Hmin in Hin. set_solver.
Qed.

Lemma removal_owner_context_spec s ctx reason :
  match removal_owner_context s ctx reason with
  | Some o =>
      ctx_circuit_id o = ctx_circuit_id ctx /\ owns s (ctx_circuit_id o) (ctx_session_key o)
      /\ (ctx_session_key o = ctx_session_key ctx \/ reason = Removal_Rekeyed)
  | None => ~ owns s (ctx_circuit_id ctx) (ctx_session_key ctx)
  end.
Proof.
  unfold removal_owner_context, owns. case_bool_decide as Hown; cbn; [split_and!; [done|done|by left]|].
  destruct reason; try done. unfold set_at in *.
  destruct (current_owners_by_circuit s !! ctx_circuit_id ctx) as [ks|] eqn:Hks; cbn in *; [|done].
  destruct (elements ks) as [|owner [|? ?]] eqn:Hel; [done| |done].
  case_bool_decide; [|done]. cbn. rewrite Hks. cbn. split_and!; [done| |by right].
  apply elem_of_elements. rewrite Hel. set_solver.
Qed.

Lemma removal_owner_context_own s ctx reason :
  owns s (ctx_circuit_id ctx) (ctx_session_key ctx) -> removal_owner_context s ctx reason = Some ctx.
Proof. intros Hown. unfold removal_owner_context. by rewrite bool_decide_true. Qed.

(** ** Runs: where intents and requests come from *)

Definition emitted (labels : list Label) (i : DynamicCircuitIntent) : Prop := Label_Emit i ∈ labels.

Definition upsert_emitted (labels : list Label) (u : DynamicCircuitUpsert) : Prop :=
  emitted labels (CreateDynamicCircuit u) \/ emitted labels (UpdateDynamicCircuit u).

(** A removal of circuit [c] that may concern session [k]. *)
Definition removal_emitted (labels : list Label) (c : rstring) (k : AccountingSessionKey) : Prop :=
  exists r, emitted labels (RemoveDynamicCircuit r) /\ removal_circuit_id r = c
    /\ (removal_session_key r = k \/ removal_reason r = Removal_Rekeyed).

(** The sessions whose devices the outcomes of the requests leave in force, by circuit: a create takes
    effect when it is acknowledged or its reply is lost, a removal when it is acknowledged. *)
Definition in_force_step (m : gmap rstring AccountingSessionKey) (l : Label)
    : gmap rstring AccountingSessionKey :=
  match l with
  | Label_Reply ctx (Request_CreateDynamicCircuit _) outcome =>
      if dynamic_circuit_upsert_result_records_success (apply_dynamic_circuit_request outcome)
      then <[ctx_circuit_id ctx := ctx_session_key ctx]> m else m
  | Label_Reply _ (Request_RemoveDynamicCircuit c) outcome =>
      if dynamic_circuit_removal_result_releases_owner (apply_dynamic_circuit_request outcome)
      then delete c m else m
  | _ => m
  end.
Definition in_force (labels : list Label) : gmap rstring AccountingSessionKey :=
  fold_left in_force_step labels ∅.

Lemma in_force_snoc labels l : in_force (labels ++ [l]) = in_force_step (in_force labels) l.
Proof. unfold in_force. by rewrite fold_left_app. Qed.

(** What the worker knows at each point. *)
Definition worker_ok (labels : list Label) (s : DynamicCircuitApplicationState) (w : Worker) : Prop :=
  match w with
  | Worker_Process q => emitted labels (queued_intent q)
  | Worker_ShareCheck ctx _ u =>
      owner_key ctx = (upsert_circuit_id u, upsert_session_key u) /\ upsert_emitted labels u
  | Worker_AwaitUpsert ctx _ d =>
      (authoritative s (ctx_circuit_id ctx) = None
       \/ authoritative s (ctx_circuit_id ctx) = Some (ctx_session_key ctx))
      /\ exists u, upsert_emitted labels u /\ upsert_shaped_device u = d
           /\ owner_key ctx = (upsert_circuit_id u, upsert_session_key u)
  | Worker_RemovalAction ctx c =>
      c = ctx_circuit_id ctx /\ owns s c (ctx_session_key ctx)
      /\ removal_emitted labels c (ctx_session_key ctx)
  | Worker_Release ctx =>
      owns s (ctx_circuit_id ctx) (ctx_session_key ctx)
      /\ authoritative s (ctx_circuit_id ctx) <> Some (ctx_session_key ctx)
      /\ removal_emitted labels (ctx_circuit_id ctx) (ctx_session_key ctx)
  | Worker_AwaitRemoval ctx c extra =>
      c = ctx_circuit_id ctx /\ authoritative s c = Some (ctx_session_key ctx)
      /\ removal_emitted labels c (ctx_session_key ctx)
      /\ match extra with
         | None => forall k, retained s c k = None
         | Some p => ctx_circuit_id p = c /\ ctx_session_key p <> ctx_session_key ctx
                     /\ is_Some (retained s c (ctx_session_key p))
         end
  | Worker_AwaitPromotion ctx c r =>
      c = ctx_circuit_id ctx /\ authoritative s c = Some (ctx_session_key ctx)
      /\ removal_emitted labels c (ctx_session_key ctx)
      /\ upsert_session_key (retained_upsert r) <> ctx_session_key ctx
      /\ retained s c (upsert_session_key (retained_upsert r)) = Some r
      /\ forall k r', k <> ctx_session_key ctx -> retained s c k = Some r' ->
           first_sequence r <= first_sequence r'
  | _ => True
  end.

Definition emitter_ok (labels : list Label) (e : Emitter) : Prop :=
  match e with
  | Emitter_Idle => True
  | Emitter_Send q | Emitter_Failed q _ => emitted labels (queued_intent q)
  end.

Record sys_ok (labels : list Label) (sys : System) : Prop := {
  sys_owners : owners_ok (sys_state sys);
  sys_worker_ok : worker_ok labels (sys_state sys) (sys_worker sys);
  sys_emitter_ok : emitter_ok labels (sys_emitter sys);
  sys_queued : forall q, q ∈ sys_queue sys -> emitted labels (queued_intent q);
  sys_pending : forall o q, pending_removals_by_owner (sys_state sys) !! o = Some q ->
    emitted labels (queued_intent q);
  sys_retained : forall c k r, retained (sys_state sys) c k = Some r ->
    upsert_emitted labels (retained_upsert r);
  sys_in_force : in_force labels = authoritative_session_by_circuit (sys_state sys)
}.

(** ** Preservation *)

Lemma emitted_snoc labels l i : emitted labels i -> emitted (labels ++ [l]) i.
Proof. unfold emitted. set_solver. Qed.

Lemma upsert_emitted_snoc labels l u : upsert_emitted labels u -> upsert_emitted (labels ++ [l]) u.
Proof. intros [?|?]; [left|right]; by apply emitted_snoc. Qed.

Lemma removal_emitted_snoc labels l c k :
  removal_emitted labels c k -> removal_emitted (labels ++ [l]) c k.
Proof. intros (r & ? & ? & ?). exists r. split_and!; [by apply emitted_snoc|done|done]. Qed.

#[local] Hint Resolve emitted_snoc upsert_emitted_snoc removal_emitted_snoc : rust.

Lemma worker_ok_snoc labels l s w : worker_ok labels s w -> worker_ok (labels ++ [l]) s w.
Proof.
  destruct w; cbn; try done; try naive_solver (eauto with rust).
Qed.

Lemma worker_ok_same labels s s' w : same_ownership s s' -> worker_ok labels s w -> worker_ok labels s' w.
Proof.
  intros (Ho & Ha & Hr & _ & _).
  destruct w; cbn; unfold owns, authoritative, retained; rewrite ?Ho, ?Ha, ?Hr; done.
Qed.

#[local] Arguments str : simpl never.
#[local] Arguments record_application_success : simpl never.
#[local] Arguments record_application_failure : simpl never.
#[local] Arguments record_dynamic_circuit_application_result : simpl never.
#[local] Arguments record_applied_upsert : simpl never.
#[local] Arguments record_retained_upsert : simpl never.
#[local] Arguments release_owner : simpl never.
#[local] Arguments clear_pending_upsert : simpl never.
#[local] Arguments take_next_pending_removal : simpl never.
#[local] Arguments process_dynamic_circuit_intent : simpl never.
#[local] Arguments removal_action : simpl never.
#[local] Arguments shared_upsert_may_apply : simpl never.
#[local] Arguments emit_track : simpl never.
#[local] Arguments emit_failure : simpl never.
#[local] Arguments from_upsert : simpl never.

(** What both tasks keep of the shared state. *)
Record state_ok (labels : list Label) (s : DynamicCircuitApplicationState) : Prop := {
  state_owners : owners_ok s;
  state_pending : forall o q, pending_removals_by_owner s !! o = Some q -> emitted labels (queued_intent q);
  state_retained : forall c k r, retained s c k = Some r -> upsert_emitted labels (retained_upsert r)
}.

Lemma state_ok_snoc labels l s : state_ok labels s -> state_ok (labels ++ [l]) s.
Proof. intros []. split; eauto with rust. Qed.

Lemma state_ok_same labels s s' :
  same_ownership s s' ->
  (forall o q, pending_removals_by_owner s' !! o = Some q ->
     pending_removals_by_owner s !! o = Some q \/ emitted labels (queued_intent q)) ->
  state_ok labels s -> state_ok labels s'.
Proof.
  intros Hsame Hp [Ho Hpend Hret]. split; [by eapply owners_ok_same| |].
  - intros o q [Hq|Hq]%Hp; eauto.
  - destruct Hsame as (_ & _ & Hr & _). unfold retained. rewrite Hr. apply Hret.
Qed.

Lemma clear_pending_removals s ctx n :
  pending_removals_by_owner (clear_pending_upsert s ctx n) = pending_removals_by_owner s.
Proof. unfold clear_pending_upsert, prune_deferred_removal. by repeat case_match. Qed.

Lemma record_result_pending s ctx r :
  pending_removals_by_owner (record_dynamic_circuit_application_result s ctx r) =
  pending_removals_by_owner s.
Proof. by destruct r. Qed.

Lemma record_success_state_ok labels s ctx :
  state_ok labels s -> state_ok labels (record_application_success s ctx).
Proof.
  intros Hok. apply (state_ok_same labels s); [exact (record_result_same s ctx (Ok tt))|by left|done].
Qed.

Lemma release_owner_pending s ctx :
  pending_removals_by_owner (release_owner s ctx) = delete (owner_key ctx) (pending_removals_by_owner s).
Proof. unfold release_owner, release_from_circuit. by repeat case_match. Qed.

Lemma same_authoritative s s' :
  (forall c, authoritative s' c = authoritative s c) ->
  authoritative_session_by_circuit s' = authoritative_session_by_circuit s.
Proof. intros Heq. apply map_eq. exact Heq. Qed.

Lemma released_other_authoritative ctx s s' :
  owner_released ctx s s' -> authoritative s (ctx_circuit_id ctx) <> Some (ctx_session_key ctx) ->
  authoritative_session_by_circuit s' = authoritative_session_by_circuit s.
Proof.
  intros [_ Ha _ _] Hna. apply same_authoritative. intros c.
  rewrite Ha, decide_False; [done|]. by intros [-> ?].
Qed.

Lemma released_authoritative ctx s s' :
  owner_released ctx s s' -> authoritative s (ctx_circuit_id ctx) = Some (ctx_session_key ctx) ->
  authoritative_session_by_circuit s' = delete (ctx_circuit_id ctx) (authoritative_session_by_circuit s).
Proof.
  intros [_ Hs' _ _] Ha. apply map_eq. intros c. rewrite lookup_delete. etrans; [apply Hs'|].
  destruct (decide (ctx_circuit_id ctx = c)) as [<-|Hne].
  - by rewrite decide_True.
  - rewrite decide_False; [done|]. by intros [-> _].
Qed.

Lemma recorded_authoritative ctx s s' :
  owner_recorded ctx s s' ->
  authoritative s (ctx_circuit_id ctx) = None
  \/ authoritative s (ctx_circuit_id ctx) = Some (ctx_session_key ctx) ->
  authoritative_session_by_circuit s' =
  <[ctx_circuit_id ctx := ctx_session_key ctx]> (authoritative_session_by_circuit s).
Proof.
  intros [_ Hs' _] Ha. apply map_eq. intros c. rewrite lookup_insert. etrans; [apply Hs'|].
  destruct (decide (ctx_circuit_id ctx = c)) as [<-|Hne].
  - rewrite decide_True by done. by destruct Ha as [-> | ->].
  - by rewrite decide_False.
Qed.

Lemma release_owner_state_ok labels s ctx : state_ok labels s -> state_ok labels (release_owner s ctx).
Proof.
  intros [Ho Hp Hr]. split; [by apply release_owner_ok|..].
  - intros o q. rewrite release_owner_pending, lookup_delete. case_decide; [done|apply Hp].
  - intros c k r. rewrite (rel_retained _ _ _ (release_owner_spec s ctx Ho)). case_decide; [done|apply Hr].
Qed.

Lemma record_applied_state_ok labels s ctx n :
  state_ok labels s -> state_ok labels (record_applied_upsert s ctx n).
Proof.
  intros [Ho Hp Hr]. split; [by apply record_applied_upsert_ok|done|].
  intros c k r. rewrite (rec_retained _ _ _ (record_applied_upsert_spec s ctx n)). case_decide; [done|apply Hr].
Qed.

Lemma take_pending_spec labels s s' q :
  state_ok labels s -> take_next_pending_removal s = (s', q) ->
  state_ok labels s' /\ same_ownership s s' /\ from_option (fun q => emitted labels (queued_intent q)) True q.
Proof.
  intros Hok Htake. pose proof (take_pending_same s) as Hsame. rewrite Htake in Hsame. cbn in Hsame.
  assert ((forall o x, pending_removals_by_owner s' !! o = Some x -> pending_removals_by_owner s !! o = Some x)
    /\ from_option (fun q => exists o, pending_removals_by_owner s !! o = Some q) True q) as [Hp Hq].
  { unfold take_next_pending_removal in Htake. revert Htake. generalize (pending_removal_order s) as l.
    induction l as [|o l IH]; cbn; [by intros [= <- <-]|].
    destruct (pending_removals_by_owner s !! o) as [x|] eqn:Hx; [|done]. intros [= <- <-]. cbn. split; [|by exists o].
    intros o' x'. rewrite lookup_delete. by case_decide. }
  split_and!; [|done|].
  - eapply state_ok_same; [done| |exact Hok]. intros o x Hx. left. by apply Hp.
  - destruct q as [q|]; [|done]. destruct Hq as [o Ho]. by apply (state_pending _ _ Hok o).
Qed.

(** A critical section of the worker keeps the invariant and the authoritative sessions. *)
Lemma process_intent_ok labels s q s' w' :
  state_ok labels s -> emitted labels (queued_intent q) ->
  process_dynamic_circuit_intent s q = (s', w') ->
  same_ownership s s' /\ pending_removals_by_owner s' = pending_removals_by_owner s
  /\ worker_ok labels s' w'.
Proof.
  intros Hok Hq. unfold process_dynamic_circuit_intent.
  destruct q as [n i]. cbn in *. destruct i as [u|u|r].
  - case_match; intros [= <- <-]; cbn; split_and!; try done. by left.
  - case_match; intros [= <- <-]; cbn; split_and!; try done. by right.
  - pose proof (removal_owner_context_spec s (from_intent (RemoveDynamicCircuit r)) (removal_reason r)) as Hspec.
    destruct (removal_owner_context _ _ _) as [o|]; [|by intros [= <- <-]].
    case_match; intros [= <- <-]; [done|]. cbn in *. destruct Hspec as (Hc & Hown & Hses).
    split_and!; [done|done|done|by rewrite <- Hc|]. exists r. split_and!; [done|done|]. naive_solver.
Qed.

Lemma record_retained_pending s ctx n u :
  pending_removals_by_owner (record_retained_upsert s ctx n u) = pending_removals_by_owner s.
Proof.
  unfold record_retained_upsert.
  assert (forall s1, retained_upsert_prologue s (owner_key ctx) n = Some s1 ->
    pending_removals_by_owner s1 = pending_removals_by_owner s) as Hp.
  { unfold retained_upsert_prologue. intros s1. repeat case_match; intros [= <-]; done. }
  destruct (retained_upsert_prologue s (owner_key ctx) n) as [s1|]; [|done]. by rewrite <- (Hp s1).
Qed.

Lemma retain_upsert_ok labels s ctx n u :
  state_ok labels s -> owner_key ctx = (upsert_circuit_id u, upsert_session_key u) ->
  upsert_emitted labels u -> shared_upsert_may_apply s ctx = false ->
  state_ok labels (record_retained_upsert s ctx n u)
  /\ authoritative_session_by_circuit (record_retained_upsert s ctx n u) =
     authoritative_session_by_circuit s.
Proof.
  intros Hok Hctx Hu Hmay. pose proof (state_owners _ _ Hok) as Ho.
  apply not_true_iff_false in Hmay. rewrite may_apply_spec in Hmay by done.
  pose proof (record_retained_upsert_ok s ctx n u Ho Hctx ltac:(tauto) ltac:(tauto)) as Ho'.
  destruct (record_retained_upsert_cases s ctx n u) as [[-> _]|[_ Ea Er _]]; [done|].
  split; [split; [done|rewrite record_retained_pending; apply Hok|]|].
  - intros c k r. rewrite Er. case_decide; [|apply Hok]. by intros [= <-].
  - apply map_eq. intros c. specialize (Ea c). unfold authoritative in *. rewrite Ea.
    case_decide; [subst|done]. destruct (authoritative_session_by_circuit s !! _); [done|tauto].
Qed.

Lemma worker_section_ok labels s w s' w' :
  state_ok labels s -> worker_ok labels s w -> worker_section s w = Some (s', w') ->
  state_ok labels s' /\ worker_ok labels s' w'
  /\ authoritative_session_by_circuit s' = authoritative_session_by_circuit s.
Proof.
  intros Hok Hw. pose proof (state_owners _ _ Hok) as Ho.
  destruct w as [|q|ctx n u|ctx n d|ctx n r|ctx n|ctx c|ctx|ctx c extra|ctx r|ctx c r|]; cbn in Hw |- *;
    try done.
  - intros Hp. destruct (process_dynamic_circuit_intent s q) as [s1 w1] eqn:Heq. injection Hp as <- <-.
    destruct (process_intent_ok labels s q _ _ Hok Hw Heq) as (Hsame & Hpend & Hw').
    split_and!; [|done|by apply Hsame]. eapply state_ok_same; [done| |done]. intros o x. rewrite Hpend. by left.
  - destruct Hw as [Hctx Hu]. destruct (shared_upsert_may_apply s ctx) eqn:Hmay; intros [= <- <-].
    + apply may_apply_spec in Hmay; [|done]. split_and!; [done| |done]. cbn. split; [done|]. by exists u.
    + destruct (retain_upsert_ok labels s ctx n u Hok Hctx Hu Hmay) as [? ?]. done.
  - intros [= <- <-]. pose proof (record_result_same s ctx r) as Hsame.
    split_and!; [|done|by apply Hsame]. eapply state_ok_same; [exact Hsame| |done].
    intros o x. rewrite record_result_pending. by left.
  - intros [= <- <-]. pose proof (clear_pending_same s ctx n) as Hsame.
    split_and!; [|done|by apply Hsame]. eapply state_ok_same; [done| |done]. intros o x.
    rewrite clear_pending_removals. by left.
  - destruct Hw as (-> & Hown & Hrem). intros [= <- <-]. split_and!; [done| |done].
    unfold removal_action. destruct (owner_is_authoritative s ctx) eqn:Hoa; cbn [negb].
    + apply owner_is_authoritative_spec in Hoa. pose proof (promotable_spec s ctx Ho) as Hprom.
      destruct (promotable_retained_upsert s ctx) as [r|]; cbn; [naive_solver|].
      split_and!; [done|done|done|]. intros k. destruct (retained s (ctx_circuit_id ctx) k) eqn:Hk; [|done].
      assert (k = ctx_session_key ctx) as -> by (apply Hprom; by rewrite Hk).
      destruct (retained_waits s Ho (ctx_circuit_id ctx) (ctx_session_key ctx)); [by rewrite Hk|done].
    + cbn. split_and!; [done| |done]. intros Ha. apply owner_is_authoritative_spec in Ha. congruence.
  - destruct Hw as (Hown & Hna & _). intros [= <- <-]. split_and!; [by apply release_owner_state_ok|done|].
    by apply (released_other_authoritative ctx), Hna; apply release_owner_spec.
  - intros [= <- <-]. pose proof (record_result_same s ctx r) as Hsame.
    split_and!; [|done|by apply Hsame]. eapply state_ok_same; [exact Hsame| |done].
    intros o x. rewrite record_result_pending. by left.
  - destruct (take_next_pending_removal s) as [s1 q] eqn:Htake.
    destruct (take_pending_spec labels s s1 q Hok Htake) as (Hok1 & Hsame & Hq).
    destruct q as [q|]; intros [= <- <-]; (split_and!; [done|done|by apply Hsame]).
Qed.

(** After the outcome of a request, the sessions in force are still the authoritative ones. *)
Lemma reply_section_ok labels s w ctx request outcome s' w' :
  state_ok labels s -> worker_ok labels s w -> awaited w = Some (ctx, request) ->
  reply_section s w (apply_dynamic_circuit_request outcome) = (s', w') ->
  state_ok labels s' /\ worker_ok labels s' w'
  /\ authoritative_session_by_circuit s' =
     in_force_step (authoritative_session_by_circuit s) (Label_Reply ctx request outcome).
Proof.
  intros Hok Hw. pose proof (state_owners _ _ Hok) as Ho. cbn [in_force_step].
  set (r := apply_dynamic_circuit_request outcome). clearbody r.
  unfold reply_section, apply_dynamic_circuit_request_and_record, apply_dynamic_circuit_removal_request,
    promote_retained_upsert.
  destruct w as [|q|ctx' n u|ctx' n d|ctx' n r'|ctx' n|ctx' c|ctx'|ctx' c extra|ctx' r'|ctx' c r'|]; cbn in Hw |- *;
    try done.
  - destruct Hw as [Ha _]. intros [= -> <-] [= <- <-]. cbn.
    destruct (dynamic_circuit_upsert_result_records_success r); [|done].
    split_and!; [by apply record_applied_state_ok|done|].
    apply (recorded_authoritative ctx); [apply record_applied_upsert_spec|done].
  - destruct Hw as (-> & Ha & Hrem & Hextra). intros [= -> <-] [= <- <-]. cbn.
    destruct (dynamic_circuit_removal_result_releases_owner r); [|done].
    pose proof (release_owner_state_ok labels s ctx Hok) as Hok1.
    pose proof (released_authoritative ctx s _ (release_owner_spec s ctx Ho) Ha) as Hdel.
    destruct extra as [p|]; [|by split_and!]. destruct Hextra as (Hpc & _ & _).
    split_and!; [by apply release_owner_state_ok|done|]. rewrite <- Hdel.
    apply (released_other_authoritative p); [apply release_owner_spec, Hok1|].
    unfold authoritative. by rewrite Hdel, Hpc, lookup_delete_eq.
  - destruct Hw as (-> & Ha & Hrem & Hne & Hret & Hmin). intros [= <- <-].
    destruct (retained_context _ Ho _ _ _ Hret) as [Hcid _].
    destruct (dynamic_circuit_upsert_result_records_success r) eqn:Hsucc; intros [= <- <-].
    + set (p := from_upsert (str "update") (retained_upsert r')).
      assert (ctx_circuit_id p = ctx_circuit_id ctx') as Hp by done.
      pose proof (release_owner_state_ok labels s ctx' Hok) as Hok1.
      pose proof (released_authoritative ctx' s _ (release_owner_spec s ctx' Ho) Ha) as Hdel.
      pose proof (record_applied_state_ok labels _ p (first_sequence r') Hok1) as Hok2.
      pose proof (record_applied_upsert_spec (release_owner s ctx') p (first_sequence r')) as Hrec.
      generalize dependent (record_applied_upsert (release_owner s ctx') p (first_sequence r')).
      generalize dependent (release_owner s ctx'). intros s1 _ Hdel s2 Hok2 Hrec.
      split_and!; [by apply record_success_state_ok|done|].
      etrans; [apply (recorded_authoritative p s1 s2 Hrec)|].
      * left. unfold authoritative. by rewrite Hdel, Hp, lookup_delete_eq.
      * rewrite Hdel, Hp. apply insert_delete_eq.
    + destruct r as [|err]; [done|]. split_and!; [|split_and!; [done|done|done|done|done|]|done].
      * apply (state_ok_same labels s); [done|by left|exact Hok].
      * by eexists.
Qed.

Lemma sys_ok_start : sys_ok [] System_new.
Proof.
  split; cbn; try done; [|set_solver].
  split; unfold owns, authoritative, retained; cbn;
    try (intros c k; rewrite lookup_empty; try done; by intros []); try by intros c; rewrite lookup_empty.
Qed.

Lemma sys_ok_step capacity labels sys l sys' :
  sys_ok labels sys -> step capacity sys l sys' -> sys_ok (labels ++ [l]) sys'.
Proof.
  intros [Ho Hw He Hq Hp Hr Hf] Hstep.
  assert (state_ok labels (sys_state sys)) as Hok by (by split).
  destruct Hstep as [s queue n w i|s queue n w q Hcap|s queue n w q reason Hcap|s queue n w q reason
    |s queue n e q|s queue n e w s' w' Hsec|s queue n e w ctx request outcome s' w' Haw Hrep]; cbn in *.
  - pose proof (emit_track_same s n i) as Hsame.
    assert (pending_removals_by_owner (emit_track s n i) = pending_removals_by_owner s) as Hpend.
    { unfold emit_track, track_deferred_removal_for_pending_upserts. by repeat case_match. }
    destruct (state_ok_same labels s (emit_track s n i)) as [Ho' Hp' Hr']; [done|rewrite Hpend; by left|done|].
    split; cbn; eauto with rust.
    + apply worker_ok_snoc. by eapply worker_ok_same.
    + unfold emitted. set_solver.
    + rewrite in_force_snoc, Hf. cbn. symmetry. apply Hsame.
  - split; cbn; eauto with rust.
    + by apply worker_ok_snoc.
    + intros q' [?| ->%list_elem_of_singleton]%elem_of_app; eauto with rust.
    + by rewrite in_force_snoc, Hf.
  - split; cbn; eauto with rust.
    + by apply worker_ok_snoc.
    + by rewrite in_force_snoc, Hf.
  - pose proof (emit_failure_same s q reason) as Hsame.
    assert (forall o x, pending_removals_by_owner (emit_failure s q reason) !! o = Some x ->
      pending_removals_by_owner s !! o = Some x \/ emitted labels (queued_intent x)) as Hpend.
    { intros o x. unfold emit_failure. set (s1 := if is_upsert _ then _ else _).
      assert (pending_removals_by_owner s1 = pending_removals_by_owner s) as <-.
      { subst s1. case_match; [by rewrite clear_pending_removals|done]. }
      clearbody s1. case_match; [|by left]. cbn. rewrite lookup_insert.
      destruct (decide (owner_key _ = o)); [|by left]. intros [= <-]. by right. }
    destruct (state_ok_same labels s (emit_failure s q reason)) as [Ho' Hp' Hr']; [done|done|done|].
    split; cbn; eauto with rust.
    + apply worker_ok_snoc. by eapply worker_ok_same.
    + rewrite in_force_snoc, Hf. cbn. symmetry. apply Hsame.
  - split; cbn; eauto with rust.
    + apply emitted_snoc, Hq. by left.
    + destruct e; cbn in *; eauto with rust.
    + intros q' Hq'. apply emitted_snoc, Hq. by right.
    + by rewrite in_force_snoc, Hf.
  - destruct (worker_section_ok labels s w s' w' Hok Hw Hsec) as ([Ho' Hp' Hr'] & Hw' & Ha).
    split; cbn; eauto with rust.
    + by apply worker_ok_snoc.
    + destruct e; cbn in *; eauto with rust.
    + by rewrite in_force_snoc, Hf.
  - destruct (reply_section_ok labels s w ctx request outcome s' w' Hok Hw Haw Hrep) as ([Ho' Hp' Hr'] & Hw' & Ha).
    split; cbn; eauto with rust.
    + by apply worker_ok_snoc.
    + destruct e; cbn in *; eauto with rust.
    + by rewrite in_force_snoc, Hf, Ha.
Qed.

Lemma app_run_ok capacity labels sys : app_run capacity labels sys -> sys_ok labels sys.
Proof. induction 1; [apply sys_ok_start|by eapply sys_ok_step]. Qed.
