(* ===== verification/ApplicationClean.v ===== *)
(** * Dynamic-circuit application when nothing fails

    In a run where the queue accepts every intent and the bus acknowledges every request, the owners
    follow the stream of intents: the invariant that relates them to the intents that took effect, the
    one in progress and the ones ahead. *)

From S2P Require Import Prelude RustStd RustCollections AccountingEvent ShapedDevice MacMatch.
From S2P Require Import SessionTypes SessionMetadata SessionStore SessionCommands.
From S2P Require Import RadiusService ApplicationError DynamicCircuitApplication.
From S2P Require Import DynamicCircuitApplicationSpec.

(** ** Runs in which nothing fails *)

(** The queue accepted every intent and the bus acknowledged every request. *)
Definition clean (l : Label) : Prop :=
  match l with
  | Label_Send (Err _) => False
  | Label_Reply _ _ outcome => apply_dynamic_circuit_request outcome = Ok tt
  | _ => True
  end.

(** The intents emitted, in order. *)
Definition intents_of (labels : list Label) : list DynamicCircuitIntent :=
  omap (fun l => match l with Label_Emit i => Some i | _ => None end) labels.

Definition intent_owner (i : DynamicCircuitIntent) : DynamicCircuitOwnerKey := owner_key (from_intent i).

(** The last intent of session [k] for circuit [c] is an upsert. *)
Definition wants (all : list DynamicCircuitIntent) (c : rstring) (k : AccountingSessionKey) : bool :=
  fold_left (fun b i => if bool_decide (intent_owner i = (c, k)) then is_upsert i else b) all false.

(** No removal of circuit [c] says that its session was rekeyed. *)
Definition no_rekey (all : list DynamicCircuitIntent) (c : rstring) : Prop :=
  forall r, RemoveDynamicCircuit r ∈ all -> removal_circuit_id r = c -> removal_reason r <> Removal_Rekeyed.

Definition removal_ahead (all : list DynamicCircuitIntent) (c : rstring) (k : AccountingSessionKey) : Prop :=
  exists i, i ∈ all /\ is_upsert i = false /\ intent_owner i = (c, k).

(** The owners after the intents [P] of [all] took effect: a session whose last intent is a removal
    owns nothing; one whose last intent is an upsert owns its circuit, unless a removal of it follows. *)
Definition tracks (all P : list DynamicCircuitIntent) (s : DynamicCircuitApplicationState) : Prop :=
  forall c k, no_rekey all c ->
    (wants P c k = false -> ~ owns s c k)
    /\ (wants P c k = true -> owns s c k \/ removal_ahead (drop (length P) all) c k).

Lemma wants_snoc P i c k :
  wants (P ++ [i]) c k = if bool_decide (intent_owner i = (c, k)) then is_upsert i else wants P c k.
Proof. unfold wants. by rewrite fold_left_app. Qed.

Lemma drop_next {A} (P : list A) i rest : drop (length (P ++ [i])) (P ++ i :: rest) = rest.
Proof.
  rewrite length_app, <- drop_drop, drop_app_length. done.
Qed.

(** One intent takes effect. *)
Lemma tracks_effect all P i rest s s' :
  all = P ++ i :: rest -> tracks all P s ->
  (forall c k, (c, k) <> intent_owner i -> no_rekey all c -> owns s' c k <-> owns s c k) ->
  (no_rekey all (intent_owner i).1 ->
   if is_upsert i
   then owns s' (intent_owner i).1 (intent_owner i).2
        \/ removal_ahead rest (intent_owner i).1 (intent_owner i).2
   else ~ owns s' (intent_owner i).1 (intent_owner i).2) ->
  tracks all (P ++ [i]) s'.
Proof.
  intros -> Htr Hframe Howner c k Hno. rewrite wants_snoc, drop_next. destruct (Htr c k Hno) as [Hf Ht].
  case_bool_decide as Heq.
  - rewrite Heq in Howner. specialize (Howner Hno). cbn in Howner. destruct (is_upsert i); naive_solver.
  - specialize (Hframe c k ltac:(congruence) Hno). split.
    + intros Hw. rewrite Hframe. auto.
    + intros Hw. rewrite Hframe. destruct (Ht Hw) as [|(j & Hj & Hup & Ho)]; [by left|].
      rewrite drop_app_length in Hj. apply elem_of_cons in Hj as [->|Hj]; [done|]. right. by exists j.
Qed.

(** A later intent is emitted. *)
Lemma tracks_emit all P s i : (length P <= length all)%nat -> tracks all P s -> tracks (all ++ [i]) P s.
Proof.
  intros Hlen Htr c k Hno. destruct (Htr c k) as [Hf Ht].
  { intros r Hr. apply Hno. set_solver. }
  split; [done|]. intros Hw. destruct (Ht Hw) as [|(j & Hj & ?)]; [by left|]. right. exists j.
  split; [|done]. rewrite drop_app_le by done. set_solver.
Qed.

Lemma tracks_same all P s s' :
  (forall c k, owns s' c k <-> owns s c k) -> tracks all P s -> tracks all P s'.
Proof. intros Heq Htr c k Hno. rewrite !Heq. by apply Htr. Qed.

(** ** The point the worker has reached in the stream of intents *)

(** The intent [cur], the [n]-th one, is in progress and has not taken effect. *)
Definition in_progress (w : Worker) (n : Z) (cur : option DynamicCircuitIntent) : Prop :=
  match w with
  | Worker_Process q => cur = Some (queued_intent q) /\ queued_sequence q = n
  | Worker_ShareCheck ctx n' _ | Worker_AwaitUpsert ctx n' _ =>
      n' = n /\ exists i, cur = Some i /\ is_upsert i = true /\ intent_owner i = owner_key ctx
  | Worker_RemovalAction ctx _ | Worker_Release ctx | Worker_AwaitRemoval ctx _ None
  | Worker_AwaitPromotion ctx _ _ =>
      exists r, cur = Some (RemoveDynamicCircuit r) /\ removal_circuit_id r = ctx_circuit_id ctx
        /\ (removal_reason r <> Removal_Rekeyed -> removal_session_key r = ctx_session_key ctx)
  | Worker_AwaitRemoval _ _ (Some _) => False
  | _ => cur = None
  end.

Definition sending (e : Emitter) : list QueuedDynamicCircuitIntent :=
  match e with Emitter_Send q | Emitter_Failed q _ => [q] | Emitter_Idle => [] end.

(** The numbers of the queued intents. *)
Definition numbered (n : nat) (qs : list QueuedDynamicCircuitIntent) : Prop :=
  forall j q, qs !! j = Some q -> queued_sequence q = Z.of_nat (n + j).

(** The shared state in a clean run: sequence numbers of the past, every owner is authoritative or
    waits behind the authoritative one, and no removal waits outside the queue. *)
Record clean_state (all P : list DynamicCircuitIntent) (s : DynamicCircuitApplicationState) : Prop := {
  clean_pending : pending_removals_by_owner s = ∅;
  clean_deferred : forall o r, deferred_removal_sequence_by_owner s !! o = Some r ->
    0 <= r /\ exists i, all !! Z.to_nat r = Some i /\ is_upsert i = false /\ intent_owner i = o;
  clean_latest : forall o m, latest_applied_upsert_sequence_by_owner s !! o = Some m ->
    m < Z.of_nat (length P);
  clean_first : forall c k r, retained s c k = Some r -> first_sequence r < Z.of_nat (length P);
  clean_owners : forall c k, owns s c k ->
    authoritative s c = Some k \/ (is_Some (retained s c k) /\ authoritative s c <> None);
  clean_tracks : tracks all P s
}.

Record clean_ok (labels : list Label) (sys : System) : Prop := {
  clean_next : sys_next_sequence sys = Z.of_nat (length (intents_of labels));
  clean_emitter : forall q r, sys_emitter sys <> Emitter_Failed q r;
  clean_progress : exists P cur,
    intents_of labels =
      P ++ option_list cur ++ map queued_intent (sys_queue sys ++ sending (sys_emitter sys))
    /\ numbered (length (P ++ option_list cur)) (sys_queue sys ++ sending (sys_emitter sys))
    /\ in_progress (sys_worker sys) (Z.of_nat (length P)) cur
    /\ clean_state (intents_of labels) P (sys_state sys)
}.

(** ** Critical sections in a clean run *)

#[local] Arguments str : simpl never.
#[local] Arguments record_application_success : simpl never.
#[local] Arguments record_dynamic_circuit_application_result : simpl never.
#[local] Arguments record_applied_upsert : simpl never.
#[local] Arguments record_retained_upsert : simpl never.
#[local] Arguments release_owner : simpl never.
#[local] Arguments clear_pending_upsert : simpl never.
#[local] Arguments take_next_pending_removal : simpl never.
#[local] Arguments emit_track : simpl never.
#[local] Arguments from_upsert : simpl never.
#[local] Arguments intent_owner : simpl never.

Definition deferred_subset (s s' : DynamicCircuitApplicationState) : Prop :=
  forall o r, deferred_removal_sequence_by_owner s' !! o = Some r ->
    deferred_removal_sequence_by_owner s !! o = Some r.

Lemma clean_state_same all P s s' :
  same_ownership s s' -> pending_removals_by_owner s' = pending_removals_by_owner s ->
  (forall o r, deferred_removal_sequence_by_owner s' !! o = Some r ->
     deferred_removal_sequence_by_owner s !! o = Some r
     \/ 0 <= r /\ exists i, all !! Z.to_nat r = Some i /\ is_upsert i = false /\ intent_owner i = o) ->
  clean_state all P s -> clean_state all P s'.
Proof.
  intros (Ho & Ha & Hr & _ & Hl) Hp Hd [Cp Cd Cl Cf Co Ct].
  split; unfold owns, authoritative, retained in *; rewrite ?Hp, ?Hl, ?Ha, ?Hr; try done.
  - intros o r [?|?]%Hd; auto.
  - intros c k. rewrite Ho. apply Co.
  - eapply tracks_same; [|exact Ct]. intros c k. unfold owns. by rewrite Ho.
Qed.

Lemma clean_state_emit all P s i :
  (length P <= length all)%nat -> clean_state all P s -> clean_state (all ++ [i]) P s.
Proof.
  intros Hlen [Cp Cd Cl Cf Co Ct]. split; try done; [|by apply tracks_emit].
  intros o r Hr. destruct (Cd o r Hr) as (Hr0 & j & Hj & ?). split; [done|]. exists j. split; [|done].
  by apply lookup_app_l_Some.
Qed.

(** An intent takes effect; the other hypotheses are what it left. *)
Lemma clean_effect all P i rest s s' :
  all = P ++ i :: rest -> clean_state all P s ->
  pending_removals_by_owner s' = ∅ -> deferred_subset s s' ->
  (forall o m, latest_applied_upsert_sequence_by_owner s' !! o = Some m ->
     latest_applied_upsert_sequence_by_owner s !! o = Some m \/ m <= Z.of_nat (length P)) ->
  (forall c k r, retained s' c k = Some r ->
     retained s c k = Some r \/ first_sequence r <= Z.of_nat (length P)) ->
  (forall c k, owns s' c k ->
     authoritative s' c = Some k \/ (is_Some (retained s' c k) /\ authoritative s' c <> None)) ->
  (forall c k, (c, k) <> intent_owner i -> no_rekey all c -> owns s' c k <-> owns s c k) ->
  (no_rekey all (intent_owner i).1 ->
   if is_upsert i
   then owns s' (intent_owner i).1 (intent_owner i).2
        \/ removal_ahead rest (intent_owner i).1 (intent_owner i).2
   else ~ owns s' (intent_owner i).1 (intent_owner i).2) ->
  clean_state all (P ++ [i]) s'.
Proof.
  intros Hall [Cp Cd Cl Cf Co Ct] Hp Hd Hl Hr Ho Hframe Howner.
  split; [done|..|done|by eapply tracks_effect].
  - intros o r Hor. by apply Cd, Hd.
  - intros o m Hom. rewrite length_app. cbn. destruct (Hl o m Hom) as [?%Cl|?]; lia.
  - intros c k r Hck. rewrite length_app. cbn. destruct (Hr c k r Hck) as [?%Cf|?]; lia.
Qed.

(** An upsert overtaken by a removal of the same owner. *)
Lemma removed_ahead all P i rest s ctx :
  all = P ++ i :: rest -> clean_state all P s -> is_upsert i = true -> intent_owner i = owner_key ctx ->
  upsert_was_removed_before_application s ctx (Z.of_nat (length P)) = true ->
  removal_ahead rest (intent_owner i).1 (intent_owner i).2.
Proof.
  intros Hall Hc Hup Hown. unfold upsert_was_removed_before_application.
  destruct (deferred_removal_sequence_by_owner s !! owner_key ctx) as [r|] eqn:Hr; [|done].
  intros Hle. to_prop. destruct (clean_deferred _ _ _ Hc _ _ Hr) as (Hr0 & j & Hj & Hrem & Hjo).
  exists j. rewrite Hown. split_and!; [|done|by rewrite Hjo; destruct (owner_key ctx)].
  rewrite Hall, lookup_app_r in Hj by lia. destruct (Z.to_nat r - length P)%nat as [|m].
  - cbn in Hj. injection Hj as <-. congruence.
  - by eapply list_elem_of_lookup_2.
Qed.

Lemma clean_dropped all P i rest s ctx :
  all = P ++ i :: rest -> clean_state all P s -> is_upsert i = true -> intent_owner i = owner_key ctx ->
  upsert_was_removed_before_application s ctx (Z.of_nat (length P)) = true ->
  clean_state all (P ++ [i]) s.
Proof.
  intros Hall Hc Hup Hown Hrem. apply (clean_effect all P i rest s s Hall Hc).
  - apply Hc.
  - by intros o r.
  - by left.
  - by left.
  - apply Hc.
  - done.
  - rewrite Hup. intros _. right. by eapply removed_ahead.
Qed.

Lemma clean_retained all P i rest s ctx u :
  all = P ++ i :: rest -> owners_ok s -> clean_state all P s -> is_upsert i = true ->
  intent_owner i = owner_key ctx -> shared_upsert_may_apply s ctx = false ->
  clean_state all (P ++ [i]) (record_retained_upsert s ctx (Z.of_nat (length P)) u).
Proof.
  intros Hall Hok Hc Hup Hown Hmay. apply not_true_iff_false in Hmay. rewrite may_apply_spec in Hmay by done.
  pose proof (record_retained_pending s ctx (Z.of_nat (length P)) u) as Hp.
  assert (deferred_subset s (record_retained_upsert s ctx (Z.of_nat (length P)) u)) as Hd.
  { unfold deferred_subset. rewrite record_retained_upsert_eq. unfold retained_upsert_prologue.
    intros o r. repeat case_match; simplify_eq; try done. cbn. rewrite lookup_delete. by case_decide. }
  destruct (record_retained_upsert_cases s ctx (Z.of_nat (length P)) u) as [[-> Hrem]|[Eo Ea Er El]];
    [by eapply clean_dropped|].
  apply (clean_effect all P i rest s _ Hall Hc).
  - rewrite Hp. apply Hc.
  - done.
  - intros o m. rewrite El. by left.
  - intros c k r. rewrite Er. case_decide; [|by left]. intros [= <-]. right. cbn. lia.
  - intros c k. rewrite Eo, Ea, Er. intros Hck.
    destruct (decide (c = ctx_circuit_id ctx /\ k = ctx_session_key ctx)) as [[-> ->]|Hne].
    + rewrite decide_True by done. right. split; [by eexists|done].
    + destruct Hck as [Hck|?]; [|done].
      destruct (clean_owners _ _ _ Hc c k Hck) as [Ha|[Hret Ha]];
        destruct (decide (c = ctx_circuit_id ctx)) as [->|Hcc]; [left|by left|by right|by right].
      by rewrite Ha.
  - intros c k Hne _. rewrite Eo, Hown in *. unfold owner_key in Hne. naive_solver.
  - rewrite Hup, Hown. intros _. left. apply Eo. by right.
Qed.

Lemma record_applied_fields s ctx n :
  pending_removals_by_owner (record_applied_upsert s ctx n) = pending_removals_by_owner s
  /\ deferred_removal_sequence_by_owner (record_applied_upsert s ctx n) =
     deferred_removal_sequence_by_owner s
  /\ latest_applied_upsert_sequence_by_owner (record_applied_upsert s ctx n) =
     <[owner_key ctx := n]> (latest_applied_upsert_sequence_by_owner s).
Proof. done. Qed.

Lemma clean_applied all P i rest s ctx :
  all = P ++ i :: rest -> clean_state all P s -> is_upsert i = true -> intent_owner i = owner_key ctx ->
  authoritative s (ctx_circuit_id ctx) = None
  \/ authoritative s (ctx_circuit_id ctx) = Some (ctx_session_key ctx) ->
  clean_state all (P ++ [i]) (record_applied_upsert s ctx (Z.of_nat (length P))).
Proof.
  intros Hall Hc Hup Hown Hauth.
  destruct (record_applied_upsert_spec s ctx (Z.of_nat (length P))) as [Eo Ea Er].
  apply (clean_effect all P i rest s _ Hall Hc).
  - apply Hc.
  - by intros o r.
  - intros o m. unfold record_applied_upsert. cbn [set_latest_applied latest_applied_upsert_sequence_by_owner].
    rewrite lookup_insert. case_decide; [|by left]. intros [= <-]. right. lia.
  - intros c k r. rewrite Er. case_decide; [done|by left].
  - intros c k. rewrite Eo, Ea, Er.
    destruct (decide (c = ctx_circuit_id ctx)) as [->|Hcc].
    + destruct (decide (k = ctx_session_key ctx)) as [->|Hk].
      * intros _. left. by destruct Hauth as [-> | ->].
      * intros [Hck|[_ ?]]; [|done]. rewrite decide_False by tauto. right.
        destruct (clean_owners _ _ _ Hc _ k Hck) as [Ha|[Hret Ha]]; [|done].
        destruct Hauth; congruence.
    + intros [Hck|[? _]]; [|done]. rewrite decide_False by tauto. by apply Hc.
  - intros c k Hne _. rewrite Eo, Hown in *. unfold owner_key in Hne. naive_solver.
  - rewrite Hup, Hown. intros _. left. apply Eo. by right.
Qed.

(** The removal in progress, and the owner it concerns. *)
Definition removes (i : DynamicCircuitIntent) (ctx : DynamicCircuitApplicationContext) : Prop :=
  exists r, i = RemoveDynamicCircuit r /\ removal_circuit_id r = ctx_circuit_id ctx
    /\ (removal_reason r <> Removal_Rekeyed -> removal_session_key r = ctx_session_key ctx).

Lemma removes_owner all P i rest ctx :
  all = P ++ i :: rest -> removes i ctx ->
  is_upsert i = false /\ (intent_owner i).1 = ctx_circuit_id ctx
  /\ (no_rekey all (ctx_circuit_id ctx) -> intent_owner i = owner_key ctx).
Proof.
  intros Hall (r & -> & Hcid & Hses). split_and!; [done|done|]. intros Hno.
  unfold intent_owner, owner_key. cbn. rewrite Hcid, Hses; [done|].
  apply Hno; [rewrite Hall; set_solver|done].
Qed.

(** The owners of circuits without rekeyed removals after the owner of [i] was released. *)
Lemma released_frame all P i rest s s' ctx :
  all = P ++ i :: rest -> removes i ctx ->
  (forall c k, owns s' c k <-> owns s c k /\ ~ (c = ctx_circuit_id ctx /\ k = ctx_session_key ctx)) ->
  (forall c k, (c, k) <> intent_owner i -> no_rekey all c -> owns s' c k <-> owns s c k)
  /\ (no_rekey all (intent_owner i).1 ->
      if is_upsert i
      then owns s' (intent_owner i).1 (intent_owner i).2
           \/ removal_ahead rest (intent_owner i).1 (intent_owner i).2
      else ~ owns s' (intent_owner i).1 (intent_owner i).2).
Proof.
  intros Hall Hrem Eo. destruct (removes_owner all P i rest ctx Hall Hrem) as (Hup & Hcid & Hown). split.
  - intros c k Hne Hno. rewrite Eo. split; [tauto|]. intros Hck. split; [done|]. intros [-> ->].
    by rewrite Hown in Hne.
  - rewrite Hup, Hcid. intros Hno. rewrite (Hown Hno). cbn. rewrite Eo. tauto.
Qed.

Lemma release_deferred s ctx : deferred_subset s (release_owner s ctx).
Proof.
  unfold deferred_subset, release_owner, release_from_circuit. intros o r.
  repeat case_match; cbn; rewrite lookup_delete; by case_decide.
Qed.

Lemma clean_skipped all P i rest s ctx :
  all = P ++ i :: rest -> clean_state all P s -> removes i ctx ->
  intent_owner i = owner_key ctx -> ~ owns s (ctx_circuit_id ctx) (ctx_session_key ctx) ->
  clean_state all (P ++ [i]) s.
Proof.
  intros Hall Hc Hrem Hown Hno. destruct (removes_owner all P i rest ctx Hall Hrem) as (Hup & _ & _).
  apply (clean_effect all P i rest s s Hall Hc).
  - apply Hc.
  - by intros o r.
  - by left.
  - by left.
  - apply Hc.
  - done.
  - by rewrite Hup, Hown.
Qed.

(** A released owner: one that waited, or the authoritative one when nobody waits. *)
Lemma clean_released all P i rest s ctx :
  all = P ++ i :: rest -> owners_ok s -> clean_state all P s -> removes i ctx ->
  authoritative s (ctx_circuit_id ctx) <> Some (ctx_session_key ctx)
  \/ (forall k, retained s (ctx_circuit_id ctx) k = None) ->
  clean_state all (P ++ [i]) (release_owner s ctx).
Proof.
  intros Hall Hok Hc Hrem Hlast. destruct (release_owner_spec s ctx Hok) as [Eo Ea Er El].
  destruct (released_frame all P i rest s _ ctx Hall Hrem Eo) as [Hframe Howner].
  apply (clean_effect all P i rest s _ Hall Hc); [..|done|done].
  - rewrite release_owner_pending, (clean_pending _ _ _ Hc). apply delete_empty.
  - apply release_deferred.
  - intros o m. rewrite El, lookup_delete. case_decide; [done|by left].
  - intros c k r. rewrite Er. case_decide; [done|by left].
  - intros c k. rewrite Eo, Ea, Er. intros [Hck Hne]. rewrite (decide_False (P := c = _ /\ k = _)) by done.
    destruct (clean_owners _ _ _ Hc c k Hck) as [Ha|[Hret Ha]].
    + rewrite decide_False; [by left|]. rewrite Ha. intros [-> [= ->]]. by apply Hne.
    + rewrite decide_False; [by right|]. intros [-> Hauth]. destruct Hlast as [|Hnone]; [done|].
      rewrite Hnone in Hret. by destruct Hret.
Qed.

(** A promotion: the authoritative owner is released and the waiting one takes its place. *)
Lemma clean_promoted all P i rest s ctx p n :
  all = P ++ i :: rest -> owners_ok s -> clean_state all P s -> removes i ctx ->
  ctx_circuit_id p = ctx_circuit_id ctx -> ctx_session_key p <> ctx_session_key ctx ->
  authoritative s (ctx_circuit_id ctx) = Some (ctx_session_key ctx) ->
  is_Some (retained s (ctx_circuit_id ctx) (ctx_session_key p)) -> n < Z.of_nat (length P) ->
  clean_state all (P ++ [i]) (record_applied_upsert (release_owner s ctx) p n).
Proof.
  intros Hall Hok Hc Hrem Hpc Hps Hauth Hret Hn. destruct (release_owner_spec s ctx Hok) as [Eo Ea Er El].
  destruct (record_applied_upsert_spec (release_owner s ctx) p n) as [Fo Fa Fr].
  destruct (record_applied_fields (release_owner s ctx) p n) as (Gp & Gd & Gl).
  pose proof (retained_owns _ Hok _ _ Hret) as Hpown.
  assert (forall c k, owns (record_applied_upsert (release_owner s ctx) p n) c k <->
    owns s c k /\ ~ (c = ctx_circuit_id ctx /\ k = ctx_session_key ctx)) as Go.
  { intros c k. rewrite Fo, Eo, Hpc. split; [|tauto]. intros [?|[-> ->]]; [done|]. split; [done|].
    intros [_ ?]. done. }
  destruct (released_frame all P i rest s _ ctx Hall Hrem Go) as [Hframe Howner].
  apply (clean_effect all P i rest s _ Hall Hc); [..|done|done].
  - rewrite Gp, release_owner_pending, (clean_pending _ _ _ Hc). apply delete_empty.
  - intros o r. rewrite Gd. apply release_deferred.
  - intros o m. rewrite Gl, lookup_insert. case_decide; [intros [= <-]; right; lia|].
    rewrite El, lookup_delete. case_decide; [done|by left].
  - intros c k r. rewrite Fr, Er. do 2 (case_decide; [done|]). by left.
  - intros c k. rewrite Go, Fa, Fr, Ea, Er. intros [Hck Hne].
    destruct (clean_owners _ _ _ Hc c k Hck) as [Ha|[Hretk Ha]];
      destruct (decide (c = ctx_circuit_id p)) as [->|Hcc].
    + rewrite Hpc in *. rewrite Ha in Hauth. injection Hauth as ->. by destruct Hne.
    + left. rewrite Hpc in *. rewrite decide_False; [done|]. tauto.
    + rewrite Hpc in *. rewrite decide_True by done. cbn.
      destruct (decide (k = ctx_session_key p)) as [->|Hkp]; [by left|]. right.
      rewrite !decide_False by tauto. done.
    + right. rewrite Hpc in *. rewrite !decide_False by tauto. done.
Qed.

(** The state after a critical section: the intent in progress is still so, or has taken effect. *)
Definition progressed (all P : list DynamicCircuitIntent) (cur : option DynamicCircuitIntent)
    (s' : DynamicCircuitApplicationState) (w' : Worker) : Prop :=
  exists P' cur', P' ++ option_list cur' = P ++ option_list cur
    /\ in_progress w' (Z.of_nat (length P')) cur' /\ clean_state all P' s'.

Lemma progressed_effect all P i s' w' :
  in_progress w' (Z.of_nat (length (P ++ [i]))) None -> clean_state all (P ++ [i]) s' ->
  progressed all P (Some i) s' w'.
Proof. intros Hw Hc. exists (P ++ [i]), None. cbn. by rewrite app_nil_r. Qed.

Lemma progressed_stays all P cur s' w' :
  in_progress w' (Z.of_nat (length P)) cur -> clean_state all P s' -> progressed all P cur s' w'.
Proof. intros Hw Hc. by exists P, cur. Qed.

Lemma clear_pending_deferred s ctx n : deferred_subset s (clear_pending_upsert s ctx n).
Proof.
  unfold deferred_subset, clear_pending_upsert, prune_deferred_removal. intros o r.
  repeat case_match; try done. cbn. rewrite lookup_delete. by case_decide.
Qed.

Lemma record_result_deferred s ctx r :
  deferred_removal_sequence_by_owner (record_dynamic_circuit_application_result s ctx r) =
  deferred_removal_sequence_by_owner s.
Proof. by destruct r. Qed.

Lemma take_pending_clean all P s :
  clean_state all P s ->
  exists s', take_next_pending_removal s = (s', None) /\ clean_state all P s'.
Proof.
  intros Hc. unfold take_next_pending_removal. generalize (pending_removal_order s) as l.
  induction l as [|o l IH]; cbn.
  - eexists. split; [done|]. apply (clean_state_same all P s); [done|done|by left|done].
  - by rewrite (clean_pending _ _ _ Hc), lookup_empty.
Qed.

Lemma clean_result all P s ctx r :
  clean_state all P s -> clean_state all P (record_dynamic_circuit_application_result s ctx r).
Proof.
  intros Hc. apply (clean_state_same all P s); [apply record_result_same|apply record_result_pending| |done].
  intros o x. rewrite record_result_deferred. by left.
Qed.

Lemma clean_process all P rest labels s q s' w' :
  all = P ++ queued_intent q :: rest -> state_ok labels s -> clean_state all P s ->
  queued_sequence q = Z.of_nat (length P) ->
  process_dynamic_circuit_intent s q = (s', w') -> progressed all P (Some (queued_intent q)) s' w'.
Proof.
  intros Hall Hok Hc Hn. destruct q as [n i]. cbn in Hn, Hall |- *. subst n.
  assert (forall u, (i = CreateDynamicCircuit u \/ i = UpdateDynamicCircuit u) ->
    (if upsert_was_removed_before_application s (from_intent i) (Z.of_nat (length P))
     then (s, Worker_ClearPending (from_intent i) (Z.of_nat (length P)))
     else (s, Worker_ShareCheck (from_intent i) (Z.of_nat (length P)) u)) = (s', w') ->
    progressed all P (Some i) s' w') as Hups.
  { intros u Hi. assert (is_upsert i = true) as Hup by (by destruct Hi as [-> | ->]).
    case_match eqn:Hrem; intros [= <- <-].
    - apply progressed_effect; [done|]. by eapply clean_dropped.
    - apply progressed_stays; [|done]. cbn. split; [done|]. by exists i. }
  unfold process_dynamic_circuit_intent. cbn [queued_intent queued_sequence].
  destruct i as [u|u|r]; [by apply Hups; left|by apply Hups; right|clear Hups].
  pose proof (removal_owner_context_spec s (from_intent (RemoveDynamicCircuit r)) (removal_reason r)) as Hspec.
  destruct (removal_owner_context _ _ _) as [o|].
  - destruct Hspec as (Hcid & Hown & Hses). assert (removal_is_stale s o (Z.of_nat (length P)) = false) as ->.
    { unfold removal_is_stale. destruct (latest_applied_upsert_sequence_by_owner s !! owner_key o) eqn:Hl; [|done].
      apply (clean_latest _ _ _ Hc) in Hl. apply Z.ltb_ge. lia. }
    intros [= <- <-]. apply progressed_stays; [|done]. cbn. exists r. split_and!; [done|done|].
    intros Hne. destruct Hses as [->|?]; done.
  - intros [= <- <-]. apply progressed_effect; [done|].
    apply (clean_result all (P ++ [_]) s (from_intent (RemoveDynamicCircuit r)) (Ok tt)).
    apply (clean_skipped all P _ rest s (from_intent (RemoveDynamicCircuit r))); [done|done|by exists r|done|done].
Qed.

Lemma clean_section all P cur rest labels s w s' w' :
  all = P ++ option_list cur ++ rest -> state_ok labels s -> worker_ok labels s w -> clean_state all P s ->
  in_progress w (Z.of_nat (length P)) cur -> worker_section s w = Some (s', w') ->
  progressed all P cur s' w'.
Proof.
  intros Hall Hok Hw Hc Hcur. pose proof (state_owners _ _ Hok) as Ho.
  destruct w as [|q|ctx n u|ctx n d|ctx n r|ctx n|ctx c|ctx|ctx c extra|ctx r|ctx c r|];
    cbn [worker_section in_progress] in *; try done.
  - destruct Hcur as [-> Hn]. cbn in Hall. intros [= Hp]. by eapply clean_process.
  - destruct Hcur as (-> & i & -> & Hup & Hown). cbn in Hall.
    destruct (shared_upsert_may_apply s ctx) eqn:Hmay; intros [= <- <-].
    + apply progressed_stays; [|done]. cbn. split; [done|]. by exists i.
    + apply progressed_effect; [done|]. by eapply clean_retained.
  - intros [= <- <-]. apply progressed_stays; [done|]. by apply clean_result.
  - intros [= <- <-]. apply progressed_stays; [done|].
    apply (clean_state_same all P s); [apply clear_pending_same|apply clear_pending_removals| |done].
    intros o x Hx. left. by eapply clear_pending_deferred.
  - destruct Hw as (-> & Hown & Hrem). intros [= <- <-]. unfold removal_action.
    destruct (owner_is_authoritative s ctx); cbn [negb]; [|by apply progressed_stays].
    destruct (promotable_retained_upsert s ctx); by apply progressed_stays.
  - destruct Hw as (_ & Hna & _). destruct Hcur as (r & -> & Hcid & Hses). cbn in Hall. intros [= <- <-].
    apply progressed_effect; [done|]. apply (clean_released all P _ rest s ctx); [done|done|done|by exists r|by left].
  - intros [= <- <-]. apply progressed_stays; [done|]. by apply clean_result.
  - destruct (take_pending_clean all P s Hc) as (s1 & -> & Hc1). intros [= <- <-]. by apply progressed_stays.
Qed.

Lemma clean_reply all P cur rest labels s w ctx request s' w' :
  all = P ++ option_list cur ++ rest -> state_ok labels s -> worker_ok labels s w -> clean_state all P s ->
  in_progress w (Z.of_nat (length P)) cur -> awaited w = Some (ctx, request) ->
  reply_section s w (Ok tt) = (s', w') -> progressed all P cur s' w'.
Proof.
  intros Hall Hok Hw Hc Hcur. pose proof (state_owners _ _ Hok) as Ho.
  destruct w as [|q|ctx' n u|ctx' n d|ctx' n r|ctx' n|ctx' c|ctx'|ctx' c extra|ctx' r|ctx' c r|];
    cbn [awaited in_progress] in *; try done; intros _; cbn [reply_section apply_dynamic_circuit_request_and_record
    apply_dynamic_circuit_removal_request promote_retained_upsert
      dynamic_circuit_upsert_result_records_success dynamic_circuit_removal_result_releases_owner].
  - destruct Hcur as (-> & i & -> & Hup & Hown). destruct Hw as [Ha _]. cbn in Hall. intros [= <- <-].
    apply progressed_effect; [done|]. by eapply clean_applied.
  - destruct extra as [p|]; [done|]. destruct Hw as (-> & Ha & _ & Hnone).
    destruct Hcur as (r & -> & Hcid & Hses). intros [= <- <-]. apply progressed_effect; [done|].
    apply (clean_released all P _ rest s ctx'); [done|done|done|by exists r|by right].
  - destruct Hw as (-> & Ha & _ & Hne & Hret & _). destruct Hcur as (r' & -> & Hcid & Hses).
    intros [= <- <-]. destruct (retained_context _ Ho _ _ _ Hret) as [Hpc _].
    apply progressed_effect; [done|].
    apply (clean_result all (P ++ [_]) _ (from_upsert (str "update") (retained_upsert r)) (Ok tt)).
    apply (clean_promoted all P _ rest s ctx'); try done.
    + by exists r'.
    + by eapply clean_first.
Qed.

(** ** Clean runs *)

Lemma intents_snoc labels l :
  intents_of (labels ++ [l]) =
  intents_of labels ++ match l with Label_Emit i => [i] | _ => [] end.
Proof. unfold intents_of. rewrite omap_app. by destruct l. Qed.

Lemma clean_ok_start : clean_ok [] System_new.
Proof.
  split; [done|done|]. exists [], None. split_and!; [done|by intros ? ?|done|].
  split; cbn; done.
Qed.

Lemma emit_track_clean all P s n i :
  clean_state all P s -> all !! Z.to_nat n = Some i -> 0 <= n -> clean_state all P (emit_track s n i).
Proof.
  intros Hc Hi Hn. apply (clean_state_same all P s); [apply emit_track_same| | |done].
  - unfold emit_track, track_deferred_removal_for_pending_upserts. by repeat case_match.
  - unfold emit_track, track_deferred_removal_for_pending_upserts.
    intros o r. destruct i as [u|u|rm]; cbn [is_upsert is_remove]; [by left|by left|].
    case_match; [|by left]. cbn [set_deferred_removals deferred_removal_sequence_by_owner].
    rewrite lookup_insert. case_decide; [subst o|by left]. intros [= <-]. right. split; [done|]. by eexists.
Qed.

Lemma numbered_app n a b : numbered n (a ++ b) <-> numbered n a /\ numbered (n + length a) b.
Proof.
  split.
  - intros Hn. split; intros j q Hj.
    + apply Hn. by apply lookup_app_l_Some.
    + rewrite (Hn (length a + j)%nat q); [f_equal; lia|]. rewrite lookup_app_r by lia.
      by replace (length a + j - length a)%nat with j by lia.
  - intros [Ha Hb] j q. rewrite lookup_app_Some. intros [Hj|[Hle Hj]]; [by apply Ha|].
    rewrite (Hb _ _ Hj). f_equal. lia.
Qed.

Lemma clean_ok_step capacity labels sys l sys' :
  sys_ok labels sys -> clean_ok labels sys -> clean l ->
  Z.of_nat (length (intents_of (labels ++ [l]))) < 2 ^ 64 ->
  step capacity sys l sys' -> clean_ok (labels ++ [l]) sys'.
Proof.
  intros Hsys [Hnext Hem (P & cur & Hall & Hnum & Hcur & Hc)] Hcl Hlen Hstep.
  pose proof (intents_snoc labels l) as Hsnoc. rewrite Hsnoc in Hlen.
  assert (state_ok labels (sys_state sys)) as Hok by (destruct Hsys; by split).
  pose proof (sys_worker_ok _ _ Hsys) as Hw. clear Hsys.
  destruct Hstep as [s queue n w i|s queue n w q Hcap|s queue n w q reason Hcap|s queue n w q reason
    |s queue n e q|s queue n e w s' w' Hsec|s queue n e w ctx request outcome s' w' Haw Hrep];
    cbn [sys_state sys_queue sys_next_sequence sys_emitter sys_worker sending] in *;
    rewrite ?app_nil_r in *; rewrite ?Hsnoc.
  - assert (length (intents_of labels) = length (P ++ option_list cur) + length queue)%nat as Hlength.
    { rewrite Hall, !length_app, length_map. lia. }
    rewrite length_app in Hlen. cbn in Hlen.
    split; cbn [sys_state sys_queue sys_next_sequence sys_emitter sys_worker sending]; rewrite ?Hsnoc.
    + rewrite Hnext, length_app. cbn. unfold u64_succ. rewrite Z.mod_small; lia.
    + done.
    + exists P, cur. split_and!; [|apply numbered_app; split; [done|]|done|].
      * by rewrite map_app, Hall, <- !app_assoc.
      * intros [|j] q; [|done]. cbn. intros [= <-]. cbn. rewrite Hnext, Hlength. lia.
      * apply emit_track_clean; [|rewrite Hnext, Nat2Z.id; by apply list_lookup_middle|lia].
        apply clean_state_emit; [|done]. rewrite Hlength, length_app. lia.
  - split; cbn; rewrite ?Hsnoc, ?app_nil_r; [done|done|]. by exists P, cur.
  - done.
  - by destruct (Hem q reason).
  - split; cbn; rewrite ?Hsnoc, ?app_nil_r; [done|done|]. cbn in Hcur. subst cur.
    exists P, (Some (queued_intent q)). cbn in Hall, Hnum |- *. rewrite app_nil_r in Hnum. split_and!; [done| |done| |done].
    + intros j x Hj. rewrite (Hnum (S j) x Hj), length_app. cbn. f_equal. lia.
    + rewrite (Hnum 0%nat q eq_refl). f_equal. lia.
  - destruct (clean_section _ P cur _ labels s w s' w' Hall Hok Hw Hc Hcur Hsec) as (P' & cur' & Hcat & Hcur' & Hc').
    split; cbn; rewrite ?Hsnoc, ?app_nil_r; [done|done|]. exists P', cur'.
    rewrite app_assoc, Hcat, <- app_assoc. split_and!; done.
  - cbn in Hcl. rewrite Hcl in Hrep.
    destruct (clean_reply _ P cur _ labels s w ctx request s' w' Hall Hok Hw Hc Hcur Haw Hrep)
      as (P' & cur' & Hcat & Hcur' & Hc').
    split; cbn; rewrite ?Hsnoc, ?app_nil_r; [done|done|]. exists P', cur'.
    rewrite app_assoc, Hcat, <- app_assoc. split_and!; done.
Qed.

Lemma clean_run_ok capacity labels sys :
  app_run capacity labels sys -> Forall clean labels ->
  Z.of_nat (length (intents_of labels)) < 2 ^ 64 -> clean_ok labels sys.
Proof.
  induction 1 as [|labels sys l sys' Hrun IH Hstep]; [intros _ _; apply clean_ok_start|].
  intros [Hcl Hl]%Forall_app Hlen. rewrite Forall_singleton in Hl.
  eapply (clean_ok_step capacity labels sys); [by eapply app_run_ok|apply IH; [done|]|done|done|exact Hstep].
  rewrite intents_snoc, length_app in Hlen. lia.
Qed.
