(* ===== verification/ApplicationRuns.v ===== *)
(** * Runs of dynamic-circuit application

    An executable scheduler for the system, the properties of all its runs, and the schedules in which
    the daemon does not do what its intents ask for. *)

From S2P Require Import Prelude RustStd RustCollections AccountingEvent ShapedDevice MacMatch.
From S2P Require Import SessionTypes SessionMetadata SessionStore SessionCommands.
From S2P Require Import RadiusService ApplicationError DynamicCircuitApplication.
From S2P Require Import DynamicCircuitApplicationSpec ApplicationClean.
From S2P Require Import SessionMetadataSpec SessionIndex SessionStoreSpec SessionCommandsSpec.

(** ** Executing a schedule *)

(** Which task moves next, and what its environment answers. *)
Inductive Move : Type :=
| Move_Emit (intent : DynamicCircuitIntent)
| Move_Send
| Move_Failure
| Move_Receive
| Move_Section
| Move_Reply (outcome : BusOutcome).

Definition move (capacity : nat) (sys : System) (m : Move) : option (Label * System) :=
  let 'mkSystem s queue n e w := sys in
  match m, e, w with
  | Move_Emit i, Emitter_Idle, _ =>
      Some (Label_Emit i,
            mkSystem (emit_track s n i) queue (u64_succ n) (Emitter_Send (mkQueuedIntent n i)) w)
  | Move_Send, Emitter_Send q, _ =>
      if (length queue <? capacity)%nat
      then Some (Label_Send (Ok tt), mkSystem s (queue ++ [q]) n Emitter_Idle w)
      else if (length queue =? capacity)%nat
      then Some (Label_Send (Err Queue_Full), mkSystem s queue n (Emitter_Failed q Queue_Full) w)
      else None
  | Move_Failure, Emitter_Failed q reason, _ =>
      Some (Label_Failure, mkSystem (emit_failure s q reason) queue n Emitter_Idle w)
  | Move_Receive, _, Worker_Receive =>
      match queue with
      | q :: queue' => Some (Label_Receive, mkSystem s queue' n e (Worker_Process q))
      | [] => None
      end
  | Move_Section, _, _ =>
      match worker_section s w with
      | Some (s', w') => Some (Label_Section, mkSystem s' queue n e w')
      | None => None
      end
  | Move_Reply outcome, _, _ =>
      match awaited w with
      | Some (ctx, request) =>
          let '(s', w') := reply_section s w (apply_dynamic_circuit_request outcome) in
          Some (Label_Reply ctx request outcome, mkSystem s' queue n e w')
      | None => None
      end
  | _, _, _ => None
  end.

Fixpoint execute (capacity : nat) (labels : list Label) (sys : System) (moves : list Move)
    : option (list Label * System) :=
  match moves with
  | [] => Some (labels, sys)
  | m :: moves' =>
      match move capacity sys m with
      | Some (l, sys') => execute capacity (labels ++ [l]) sys' moves'
      | None => None
      end
  end.

Lemma move_step capacity sys m l sys' : move capacity sys m = Some (l, sys') -> step capacity sys l sys'.
Proof.
  destruct sys as [s queue n e w]. unfold move. intros Hm.
  destruct m as [i| | | | |outcome].
  - destruct e; try done. injection Hm as <- <-. constructor.
  - destruct e; try done. destruct (Nat.ltb_spec (length queue) capacity).
    + injection Hm as <- <-. by constructor.
    + destruct (Nat.eqb_spec (length queue) capacity); [|done]. injection Hm as <- <-. by constructor.
  - destruct e; try done. injection Hm as <- <-. constructor.
  - destruct w; try done. destruct queue; [done|]. injection Hm as <- <-. constructor.
  - destruct (worker_section s w) as [[s' w']|] eqn:Hsec; [|by destruct e, w].
    assert (Some (Label_Section, mkSystem s' queue n e w') = Some (l, sys')) as [= <- <-] by (by destruct e, w).
    by constructor.
  - destruct (awaited w) as [[ctx request]|] eqn:Haw; [|by destruct e, w].
    destruct (reply_section s w (apply_dynamic_circuit_request outcome)) as [s' w'] eqn:Hrep.
    assert (Some (Label_Reply ctx request outcome, mkSystem s' queue n e w') = Some (l, sys')) as [= <- <-]
      by (by destruct e, w). by econstructor.
Qed.

Lemma execute_run capacity moves : forall labels sys labels' sys',
  app_run capacity labels sys -> execute capacity labels sys moves = Some (labels', sys') ->
  app_run capacity labels' sys'.
Proof.
  induction moves as [|m moves IH]; intros labels sys labels' sys' Hrun; cbn.
  - by intros [= <- <-].
  - destruct (move capacity sys m) as [[l sys1]|] eqn:Hm; [|done]. apply IH.
    econstructor; [done|]. by eapply move_step.
Qed.

(** ** Sample schedules *)

Definition sample_session (n : Z) : AccountingSessionKey :=
  NasSession (Nas_Identifier (str "bng-1")) [48 + n].
Definition sample_upsert (n : Z) : DynamicCircuitIntent :=
  CreateDynamicCircuit (mkDynamicCircuitUpsert (str "c-1") (sample_session n) AccountingEvent_default
    ShapedDevice_default).
Definition sample_removal (n : Z) (reason : DynamicCircuitRemovalReason) : DynamicCircuitIntent :=
  RemoveDynamicCircuit (mkDynamicCircuitRemoval (str "c-1") (sample_session n) reason).

Definition acknowledged : Move := Move_Reply (Replied [Bus_Ack]).
Definition emit_and_send (i : DynamicCircuitIntent) : list Move := [Move_Emit i; Move_Send].
Definition work (middle : list Move) : list Move := [Move_Receive; Move_Section] ++ middle ++ [Move_Section].

(** Two sessions share a circuit and the first one stops: the second takes over. *)
Definition takeover_moves : list Move :=
  emit_and_send (sample_upsert 1) ++ emit_and_send (sample_upsert 2)
  ++ work [Move_Section; acknowledged; Move_Section; Move_Section]
  ++ work [Move_Section; Move_Section]
  ++ emit_and_send (sample_removal 1 Removal_Stop)
  ++ work [Move_Section; acknowledged].
Definition takeover : option (list Label * System) := execute 4 [] System_new takeover_moves.
Definition takeover_labels : list Label := from_option fst [] takeover.
Definition takeover_system : System := from_option snd System_new takeover.

Lemma executed_run capacity moves :
  app_run capacity (from_option fst [] (execute capacity [] System_new moves))
    (from_option snd System_new (execute capacity [] System_new moves)).
Proof.
  destruct (execute capacity [] System_new moves) as [[labels sys]|] eqn:Heq; [|constructor].
  apply (execute_run capacity moves [] System_new labels sys); [constructor|done].
Qed.

Lemma takeover_run : app_run 4 takeover_labels takeover_system.
Proof. apply executed_run. Qed.

(** ** The properties *)

(** C19: whatever the interleaving, the failures and the lost replies, the session whose device is in
    force for a circuit, as far as the bus has said, is the authoritative one; it owns the circuit;
    every session that waits for a circuit owns it too, is not the authoritative one, and waits with
    an upsert of its own that was emitted. *)
Theorem authoritative_session_is_in_force capacity labels sys :
  app_run capacity labels sys ->
  let s := sys_state sys in
  in_force labels = authoritative_session_by_circuit s
  /\ (forall c k, in_force labels !! c = Some k -> owns s c k)
  /\ (forall c k r, retained s c k = Some r ->
        owns s c k /\ in_force labels !! c <> Some k /\ upsert_emitted labels (retained_upsert r)
        /\ upsert_circuit_id (retained_upsert r) = c /\ upsert_session_key (retained_upsert r) = k)
  /\ (forall c k, k ∈ set_at (retained_owners_by_circuit s) c <-> is_Some (retained s c k))
  /\ no_empty_set (current_owners_by_circuit s) /\ no_empty_set (retained_owners_by_circuit s).
Proof.
  intros [Ho _ _ _ _ Hr Hf]%app_run_ok. cbv zeta. rewrite Hf.
  destruct Ho as [Hne Hauth Hrne Hridx Hrown Hrw Hrctx _]. split_and!; try done.
  intros c k r Hck. assert (is_Some (retained (sys_state sys) c k)) as Hs by (by rewrite Hck).
  destruct (Hrctx c k r Hck). split_and!; [by apply Hrown|by apply Hrw|by eapply Hr|done|done].
Qed.

Lemma authoritative_session_is_in_force_witness :
  in_force takeover_labels = {[ str "c-1" := sample_session 2 ]}
  /\ owns (sys_state takeover_system) (str "c-1") (sample_session 2).
Proof.
  destruct (authoritative_session_is_in_force 4 takeover_labels takeover_system takeover_run)
    as (_ & Hown & _).
  assert (in_force takeover_labels = {[ str "c-1" := sample_session 2 ]}) as Heq by by_compute.
  split; [exact Heq|]. apply Hown. rewrite Heq. by_compute.
Defined.

(** every create request carries the device of an upsert that was emitted for its session and
    circuit, and is sent only when no other session's device is in force, or when a removal of the
    one in force was emitted; every removal request is for the session whose device is in force, and
    such a removal was emitted for it or for a rekeyed session. *)
Theorem circuits_change_hands_by_removal capacity labels sys ctx request :
  app_run capacity labels sys -> awaited (sys_worker sys) = Some (ctx, request) ->
  let c := ctx_circuit_id ctx in
  let k := ctx_session_key ctx in
  match request with
  | Request_CreateDynamicCircuit d =>
      (exists u, upsert_emitted labels u /\ upsert_shaped_device u = d
         /\ upsert_circuit_id u = c /\ upsert_session_key u = k)
      /\ (in_force labels !! c = None \/ in_force labels !! c = Some k
          \/ exists k', in_force labels !! c = Some k' /\ removal_emitted labels c k')
  | Request_RemoveDynamicCircuit c' =>
      c' = c /\ in_force labels !! c = Some k /\ removal_emitted labels c k
  end.
Proof.
  intros Hrun Haw. destruct (app_run_ok _ _ _ Hrun) as [Ho Hw _ _ _ Hret Hf]. cbv zeta. rewrite Hf.
  destruct (sys_worker sys) as [|q|ctx' n u|ctx' n d|ctx' n r|ctx' n|ctx' c|ctx'|ctx' c extra|ctx' r|ctx' c r|];
    cbn in Haw, Hw; try done; injection Haw as <- <-.
  - destruct Hw as [Ha (u & Hu & Hd & Hctx)]. unfold owner_key in Hctx. injection Hctx as Hc Hk.
    split; [by exists u|]. unfold authoritative in Ha. tauto.
  - destruct Hw as (-> & Ha & Hrem & _). done.
  - destruct Hw as (-> & Ha & Hrem & _ & Hr & _). destruct (retained_context _ Ho _ _ _ Hr) as [Hc _].
    cbn. rewrite Hc. split.
    + exists (retained_upsert r). split_and!; [by eapply Hret|done..].
    + right. right. by exists (ctx_session_key ctx').
Qed.

(** The run before the last acknowledgement: the stop of the first session is being processed. *)
Definition takeover_pending : option (list Label * System) :=
  execute 4 [] System_new (removelast (removelast takeover_moves)).

Lemma circuits_change_hands_by_removal_witness :
  removal_emitted (from_option fst [] takeover_pending) (str "c-1") (sample_session 1).
Proof.
  destruct (circuits_change_hands_by_removal 4 (from_option fst [] takeover_pending)
    (from_option snd System_new takeover_pending)
    (mkApplicationContext (str "update") (str "c-1") (sample_session 2))
    (Request_CreateDynamicCircuit ShapedDevice_default) (executed_run _ _)) as [_ Hforce].
  - vm_compute. reflexivity.
  - assert (in_force (from_option fst [] takeover_pending) !! str "c-1" = Some (sample_session 1)) as Heq
      by by_compute.
    cbn [ctx_circuit_id ctx_session_key] in Hforce. rewrite Heq in Hforce.
    destruct Hforce as [[=]|[[=]|(k & [= <-] & Hrem)]]. exact Hrem.
Defined.

(** C23: when every intent was queued and every request acknowledged, then at rest, for every circuit
    without rekeyed removals, the owners are exactly the sessions whose last intent for it is an
    upsert; a device is in force exactly when there is one, and it is that of such a session. *)
Theorem settled_circuits_follow_last_intents capacity labels sys c :
  app_run capacity labels sys -> Forall clean labels ->
  Z.of_nat (length (intents_of labels)) < 2 ^ 64 ->
  sys_queue sys = [] -> sys_emitter sys = Emitter_Idle -> sys_worker sys = Worker_Receive ->
  no_rekey (intents_of labels) c ->
  (forall k, owns (sys_state sys) c k <-> wants (intents_of labels) c k = true)
  /\ (is_Some (in_force labels !! c) <-> exists k, wants (intents_of labels) c k = true)
  /\ (forall k, in_force labels !! c = Some k -> wants (intents_of labels) c k = true).
Proof.
  intros Hrun Hcl Hlen Hq He Hw Hno. destruct (app_run_ok _ _ _ Hrun) as [Ho _ _ _ _ _ Hf].
  destruct (clean_run_ok _ _ _ Hrun Hcl Hlen) as [_ _ (P & cur & Hall & _ & Hcur & Hc)].
  rewrite Hw in Hcur. cbn in Hcur. subst cur. rewrite Hq, He in Hall. cbn in Hall. rewrite app_nil_r in Hall.
  assert (forall k, owns (sys_state sys) c k <-> wants (intents_of labels) c k = true) as Howns.
  { intros k. destruct (clean_tracks _ _ _ Hc c k Hno) as [Hff Htt]. rewrite <- Hall in Hff, Htt.
    rewrite drop_all in Htt. destruct (wants (intents_of labels) c k).
    - split; [done|intros _]. destruct (Htt eq_refl) as [|(i & Hi & _)]; [done|]. set_solver.
    - split; [intros Hk; by destruct (Hff eq_refl)|done]. }
  split_and!; [done|..].
  - rewrite Hf. split.
    + intros [k Hk]. exists k. apply Howns. by apply (authoritative_owns _ Ho).
    + intros [k Hk%Howns]. destruct (clean_owners _ _ _ Hc c k Hk) as [Ha|[_ Ha]].
      * by exists k.
      * unfold authoritative in Ha. destruct (authoritative_session_by_circuit (sys_state sys) !! c); [by eexists|done].
  - rewrite Hf. intros k Hk. apply Howns. by apply (authoritative_owns _ Ho).
Qed.

Lemma settled_circuits_follow_last_intents_witness :
  owns (sys_state takeover_system) (str "c-1") (sample_session 2)
  /\ ~ owns (sys_state takeover_system) (str "c-1") (sample_session 1).
Proof.
  assert (Forall clean takeover_labels) as Hcl by (vm_compute; repeat constructor).
  assert (no_rekey (intents_of takeover_labels) (str "c-1")) as Hno.
  { assert (intents_of takeover_labels = [sample_upsert 1; sample_upsert 2; sample_removal 1 Removal_Stop]) as ->
      by (vm_compute; reflexivity).
    intros r [Hr|[Hr|[Hr|[]]]]%list_elem_of_In; [discriminate Hr|discriminate Hr|].
    injection Hr as <-. intros _ [=]. }
  destruct (settled_circuits_follow_last_intents 4 takeover_labels takeover_system (str "c-1")
    takeover_run Hcl) as [Howns _]; [vm_compute; reflexivity..|done|].
  rewrite !Howns. split; vm_compute; [reflexivity|discriminate].
Defined.

(** ** Schedules that leave the wrong circuits in force *)

Definition upsert_for (c : rstring) (n : Z) : DynamicCircuitIntent :=
  UpdateDynamicCircuit (mkDynamicCircuitUpsert c (sample_session n) AccountingEvent_default
    ShapedDevice_default).

(** A create that is applied, from the queue to the drained worker. *)
Definition applied_create : list Move := work [Move_Section; acknowledged; Move_Section; Move_Section].

Definition at_rest (sys : System) : Prop :=
  sys_queue sys = [] /\ sys_emitter sys = Emitter_Idle /\ sys_worker sys = Worker_Receive.

Definition run_labels (capacity : nat) (moves : list Move) : list Label :=
  from_option fst [] (execute capacity [] System_new moves).
Definition run_system (capacity : nat) (moves : list Move) : System :=
  from_option snd System_new (execute capacity [] System_new moves).

(** Session 1 holds the circuit.  While the worker applies an intent of session 2, an update of
    session 1 fills the queue, so its removal is kept aside and executed before the update.  Releasing
    the owner forgets that the update was overtaken, and the update then creates the circuit again. *)
Definition overflow_moves : list Move :=
  emit_and_send (sample_upsert 1) ++ applied_create
  ++ emit_and_send (upsert_for (str "c-2") 2)
  ++ [Move_Receive; Move_Section; Move_Section]
  ++ emit_and_send (sample_upsert 1)
  ++ emit_and_send (sample_removal 1 Removal_Stop) ++ [Move_Failure]
  ++ [acknowledged; Move_Section; Move_Section]
  ++ [Move_Section; Move_Section; Move_Section; acknowledged; Move_Section; Move_Section]
  ++ applied_create.

(** A removal that overflowed the queue is undone by the earlier update it overtook: at rest, with
    every request acknowledged, the circuit of a session whose last intent is a removal is in force. *)
Theorem overflowed_removal_is_undone :
  exists capacity labels sys c k,
    app_run capacity labels sys /\ at_rest sys
    /\ (forall ctx request outcome, Label_Reply ctx request outcome ∈ labels ->
          apply_dynamic_circuit_request outcome = Ok tt)
    /\ wants (intents_of labels) c k = false /\ in_force labels !! c = Some k.
Proof.
  exists 1%nat, (run_labels 1 overflow_moves), (run_system 1 overflow_moves), (str "c-1"), (sample_session 1).
  split_and!; [apply executed_run|by split_and!; vm_compute| |by vm_compute|by_compute].
  assert (Forall (fun l => match l with
    | Label_Reply _ _ outcome => apply_dynamic_circuit_request outcome = Ok tt | _ => True end)
    (run_labels 1 overflow_moves)) as Hall by (vm_compute; repeat constructor).
  intros ctx request outcome Hin. by apply (proj1 (Forall_forall _ _) Hall _ Hin).
Qed.

(** Sessions 1 and 2 share the circuit, which session 2 holds.  Session 1 is rekeyed before its create
    is processed: the create is dropped as overtaken, and the rekeyed removal is then taken to be for
    the only owner there is. *)
Definition rekeyed_moves : list Move :=
  emit_and_send (sample_upsert 2) ++ applied_create
  ++ emit_and_send (sample_upsert 1) ++ emit_and_send (sample_removal 1 Removal_Rekeyed)
  ++ work [Move_Section]
  ++ work [Move_Section; acknowledged; Move_Section].

(** A rekeyed removal takes the circuit of another live session out of force, although nothing failed. *)
Theorem rekeyed_removal_takes_another_owner :
  exists capacity labels sys c k,
    app_run capacity labels sys /\ Forall clean labels /\ at_rest sys
    /\ wants (intents_of labels) c k = true /\ in_force labels !! c = None.
Proof.
  exists 4%nat, (run_labels 4 rekeyed_moves), (run_system 4 rekeyed_moves), (str "c-1"), (sample_session 2).
  split_and!; [apply executed_run|vm_compute; repeat constructor|by split_and!; vm_compute|by vm_compute|by_compute].
Qed.

(** The upsert stored for a waiting session carries the sequence of the last one, not of the first:
    the entry is removed before it is looked up. *)
Theorem retained_sequence_is_renewed s ctx n u :
  retained_upsert_prologue s (owner_key ctx) n <> None ->
  retained (record_retained_upsert s ctx n u) (ctx_circuit_id ctx) (ctx_session_key ctx) =
  Some (mkRetainedUpsert n u).
Proof.
  intros Hp. rewrite record_retained_upsert_eq.
  destruct (retained_upsert_prologue s (owner_key ctx) n) as [s1|] eqn:Heq; [|done].
  rewrite (ret_retained _ _ _ _ _ (add_retained_spec s s1 ctx n u (prologue_same _ _ _ _ Heq))).
  by rewrite decide_True.
Qed.

(** ** The session store and the application together *)

(** One event with commands, on the store and the trace of its intents. *)
Definition store_turn (st : AccountingSessionStore * list DynamicCircuitIntent) (event : AccountingEvent)
    : AccountingSessionStore * list DynamicCircuitIntent :=
  let '(s, _, tr) :=
    and_commands (apply_event_with_resolution_resolver st.1 event (fun _ => sample_resolution)) st.2 in
  (s, tr).

Lemma store_turns_reachable events st n :
  reachable st.1 st.2 n ->
  reachable (fold_left store_turn events st).1 (fold_left store_turn events st).2 n.
Proof.
  revert st. induction events as [|event events IH]; intros st Hr; cbn; [done|]. apply IH.
  unfold store_turn. destruct (and_commands _ st.2) as [[s u] tr] eqn:Heq. cbn.
  by eapply reachable_commands.
Qed.

(** The same Acct-Session-Id is first seen under the NAS identifier and then under the NAS address;
    the stop names both, so the second session is merged into the first. *)
Definition merged_events : list AccountingEvent :=
  let start := sample_event Status_Start (str "s-1") (str "bng-1") (str "alice") in
  let stop := sample_event Status_Stop (str "s-1") (str "bng-1") (str "alice") in
  let address := Some (V4Octets 10 0 0 1) in
  [start; set_ev_nas_ip_address address (set_ev_nas_identifier None start);
   set_ev_nas_ip_address address stop].
Definition merged_store : AccountingSessionStore * list DynamicCircuitIntent :=
  fold_left store_turn merged_events (AccountingSessionStore_new, []).

(** Every intent is processed before the next one is emitted. *)
Definition merged_moves : list Move :=
  match merged_store.2 with
  | [create1; create2; remove1; remove2] =>
      emit_and_send create1 ++ applied_create ++ emit_and_send create2 ++ applied_create
      ++ emit_and_send remove1 ++ work [Move_Section; acknowledged; Move_Section]
      ++ emit_and_send remove2 ++ work []
  | _ => []
  end.

(** The stop of a merged session removes the circuits of the sessions merged into it under its own
    key, which the application ignores: no session holds the circuit and it stays in force. *)
Theorem stop_of_merged_session_leaks :
  exists s tr n capacity labels sys c,
    reachable s tr n /\ app_run capacity labels sys /\ Forall clean labels /\ at_rest sys
    /\ intents_of labels = tr /\ ~ held s c /\ is_Some (in_force labels !! c).
Proof.
  exists merged_store.1, merged_store.2, 0%nat, 4%nat, (run_labels 4 merged_moves),
    (run_system 4 merged_moves), (intent_circuit_id (default (sample_upsert 1) (merged_store.2 !! 1%nat))).
  split_and!.
  - apply store_turns_reachable. constructor.
  - apply executed_run.
  - vm_compute. repeat constructor.
  - by split_and!; vm_compute.
  - vm_compute. reflexivity.
  - assert (map (fun kv => active_dynamic_circuit_ids kv.2) (map_to_list (sessions merged_store.1)) = [[]]) as Hids
      by by_compute.
    intros (key & x & Hx%elem_of_map_to_list & Hin).
    apply (list_elem_of_fmap_2 (fun kv => active_dynamic_circuit_ids kv.2)) in Hx.
    change (active_dynamic_circuit_ids x ∈
      map (fun kv : AccountingSessionKey * AccountingSession => active_dynamic_circuit_ids kv.2)
        (map_to_list (sessions merged_store.1))) in Hx.
    rewrite Hids in Hx. apply list_elem_of_singleton in Hx. rewrite Hx in Hin. by apply not_elem_of_nil in Hin.
  - by_compute.
Qed.
