(* ===== verification/ApplicationDiagnostics.v ===== *)
(** * Diagnostics of failed applications

    The bounded record of failed applications under every interleaving, and the snapshot that joins it
    with the diagnostics of the sessions. *)

From S2P Require Import Prelude RustStd RustCollections AccountingEvent ShapedDevice MacMatch.
From S2P Require Import SessionTypes SessionMetadata SessionStore SessionCommands.
From S2P Require Import RadiusService RadiusServiceSpec ApplicationError DynamicCircuitApplication.
From S2P Require Import DynamicCircuitApplicationSpec ApplicationClean ApplicationRuns.

#[local] Arguments str : simpl never.
#[local] Arguments push_limited : simpl never.

(** One failure for each owner in the order, and nothing else. *)
Record failures_ok (s : DynamicCircuitApplicationState) : Prop := {
  failures_distinct : NoDup (application_diagnostic_order s);
  failures_bounded : (length (application_diagnostic_order s) <= RADIUS_APPLY_FAILED_DIAGNOSTIC_LIMIT)%nat;
  failures_ordered : forall o,
    is_Some (application_diagnostics_by_owner s !! o) <-> o ∈ application_diagnostic_order s;
  failures_described : forall o d, application_diagnostics_by_owner s !! o = Some d ->
    exists error, d = apply_failed o.2 o.1 error
}.

Definition same_failures (s s' : DynamicCircuitApplicationState) : Prop :=
  application_diagnostics_by_owner s' = application_diagnostics_by_owner s
  /\ application_diagnostic_order s' = application_diagnostic_order s.

Lemma failures_ok_same s s' : same_failures s s' -> failures_ok s -> failures_ok s'.
Proof. intros [Hd Ho] []. split; rewrite ?Hd, ?Ho; done. Qed.

Lemma elem_of_without o o' l : o ∈ without o' l <-> o ∈ l /\ o <> o'.
Proof.
  unfold without. rewrite !list_elem_of_In, filter_In, negb_true_iff, bool_decide_eq_false. done.
Qed.

Lemma without_sublist o l : without o l `sublist_of` l.
Proof. apply sublist_list_filter. Qed.

Lemma record_success_failures s ctx : failures_ok s -> failures_ok (record_application_success s ctx).
Proof.
  intros [Hnd Hb Ho Hd]. split; cbn.
  - by eapply sublist_NoDup, without_sublist.
  - etrans; [apply sublist_length, without_sublist|done].
  - intros o. rewrite lookup_delete, elem_of_without, <- Ho. case_decide; [subst; naive_solver|naive_solver].
  - intros o d. rewrite lookup_delete. case_decide; [done|apply Hd].
Qed.

Lemma push_limited_last {A} (l : list A) a limit : (0 < limit)%nat -> a ∈ push_limited l a limit.
Proof.
  intros Hlim. unfold push_limited. destruct (Nat.eqb_spec limit 0); [lia|]. rewrite length_app. cbn.
  rewrite drop_app_le by lia. set_solver.
Qed.

Lemma record_failure_failures s ctx e : failures_ok s -> failures_ok (record_application_failure s ctx e).
Proof.
  intros [Hnd Hb Ho Hd]. set (order := without (owner_key ctx) (application_diagnostic_order s)).
  assert (NoDup (order ++ [owner_key ctx])) as Hnd2.
  { apply NoDup_app. split_and!; [by eapply sublist_NoDup, without_sublist| |apply NoDup_singleton].
    intros o [_ Hne]%elem_of_without ->%list_elem_of_singleton. done. }
  pose proof (push_limited_sublist order (owner_key ctx) RADIUS_APPLY_FAILED_DIAGNOSTIC_LIMIT) as Hsub.
  assert (owner_key ctx ∈ push_limited order (owner_key ctx) RADIUS_APPLY_FAILED_DIAGNOSTIC_LIMIT) as Hlast.
  { apply push_limited_last. unfold RADIUS_APPLY_FAILED_DIAGNOSTIC_LIMIT. lia. }
  split; cbn; fold order.
  - by eapply sublist_NoDup.
  - apply push_limited_length. etrans; [apply sublist_length, without_sublist|done].
  - intros o. split.
    + intros [d [_ Hin]%map_lookup_filter_Some]. done.
    + intros Hin. destruct (decide (owner_key ctx = o)) as [<-|Hne].
      { eexists. apply map_lookup_filter_Some. split; [apply lookup_insert_eq|done]. }
      pose proof (sublist_subseteq _ _ Hsub o Hin) as Hin2.
      apply elem_of_app in Hin2 as [Hin2|Heq]; [|by apply list_elem_of_singleton in Heq].
      apply elem_of_without in Hin2 as [Hin2 _].
      apply Ho in Hin2 as [d Hd']. exists d. apply map_lookup_filter_Some.
      split; [by rewrite lookup_insert_ne|done].
  - intros o d [Hlook _]%map_lookup_filter_Some. revert Hlook. rewrite lookup_insert.
    case_decide; [subst; intros [= <-]; by eexists|apply Hd].
Qed.

Lemma record_result_failures s ctx r :
  failures_ok s -> failures_ok (record_dynamic_circuit_application_result s ctx r).
Proof. destruct r; [apply record_success_failures|apply record_failure_failures]. Qed.

Lemma release_owner_failures s ctx : failures_ok s -> failures_ok (release_owner s ctx).
Proof.
  intros Hok. apply (failures_ok_same (record_application_success s ctx)); [|by apply record_success_failures].
  unfold release_owner, release_from_circuit. by repeat case_match.
Qed.

Lemma clear_pending_failures s ctx n : failures_ok s -> failures_ok (clear_pending_upsert s ctx n).
Proof.
  apply failures_ok_same. unfold clear_pending_upsert, prune_deferred_removal. by repeat case_match.
Qed.

Lemma record_retained_failures s ctx n u : failures_ok s -> failures_ok (record_retained_upsert s ctx n u).
Proof.
  apply failures_ok_same. rewrite record_retained_upsert_eq. unfold retained_upsert_prologue.
  repeat case_match; simplify_eq; done.
Qed.

Lemma take_pending_failures s s' q :
  take_next_pending_removal s = (s', q) -> failures_ok s -> failures_ok s'.
Proof.
  intros Htake. apply failures_ok_same. revert Htake. unfold take_next_pending_removal.
  generalize (pending_removal_order s) as l. induction l as [|o l IH]; cbn; [by intros [= <- <-]|].
  destruct (pending_removals_by_owner s !! o); [by intros [= <- <-]|done].
Qed.

Lemma process_failures s q s' w' :
  process_dynamic_circuit_intent s q = (s', w') -> failures_ok s -> failures_ok s'.
Proof.
  unfold process_dynamic_circuit_intent. intros Hp Hok.
  repeat case_match; simplify_eq; try done; by apply record_success_failures.
Qed.

Lemma worker_section_failures s w s' w' :
  worker_section s w = Some (s', w') -> failures_ok s -> failures_ok s'.
Proof.
  intros Hs Hok. destruct w; cbn [worker_section] in Hs; try done.
  - injection Hs as Hs. by eapply process_failures.
  - case_match; injection Hs as <- _; [done|by apply record_retained_failures].
  - injection Hs as <- _. by apply record_result_failures.
  - injection Hs as <- _. by apply clear_pending_failures.
  - by injection Hs as <- _.
  - injection Hs as <- _. by apply release_owner_failures.
  - injection Hs as <- _. by apply record_result_failures.
  - destruct (take_next_pending_removal s) as [s1 q] eqn:Htake. eapply take_pending_failures in Htake; [|done].
    by destruct q; injection Hs as <- _.
Qed.

Lemma record_applied_failures s ctx n : failures_ok s -> failures_ok (record_applied_upsert s ctx n).
Proof. by apply failures_ok_same. Qed.

Lemma reply_section_failures s w r s' w' :
  reply_section s w r = (s', w') -> failures_ok s -> failures_ok s'.
Proof.
  intros Hs Hok. destruct w; cbn [reply_section] in Hs; try by injection Hs as <- _.
  all: unfold apply_dynamic_circuit_request_and_record,
    apply_dynamic_circuit_removal_request, promote_retained_upsert in Hs.
  - injection Hs as <- _. case_match; [|done]. by apply record_applied_failures.
  - injection Hs as <- _. case_match; [|done]. case_match; by repeat apply release_owner_failures.
  - case_match; injection Hs as <- _.
    + by apply record_success_failures, record_applied_failures, release_owner_failures.
    + destruct r; [done|by apply record_failure_failures].
Qed.

Lemma emit_failure_failures s q reason : failures_ok s -> failures_ok (emit_failure s q reason).
Proof.
  intros Hok. unfold emit_failure. set (s1 := record_application_failure _ _ _).
  assert (failures_ok s1) as H1 by (by apply record_failure_failures). clearbody s1.
  set (s2 := if is_upsert _ then _ else _).
  assert (failures_ok s2) as H2 by (subst s2; case_match; [by apply clear_pending_failures|done]).
  clearbody s2. case_match; [|done]. by apply (failures_ok_same s2).
Qed.

Lemma app_run_failures capacity labels sys : app_run capacity labels sys -> failures_ok (sys_state sys).
Proof.
  induction 1 as [|labels sys l sys' _ IH Hstep].
  - split; cbn; [constructor|unfold RADIUS_APPLY_FAILED_DIAGNOSTIC_LIMIT; lia| |done].
    intros o. rewrite lookup_empty. split; [by intros []|set_solver].
  - destruct Hstep; cbn in *; try done.
    + apply (failures_ok_same s); [|done].
      unfold emit_track, track_deferred_removal_for_pending_upserts. by repeat case_match.
    + by apply emit_failure_failures.
    + by eapply worker_section_failures.
    + by eapply reply_section_failures.
Qed.

(** ** The snapshot *)

Lemma application_diagnostics_owners s :
  failures_ok s ->
  map diagnostic_owner_keys (application_diagnostics s) = map (fun o => [o]) (application_diagnostic_order s).
Proof.
  intros [_ _ Ho Hd]. unfold application_diagnostics.
  assert (forall o, o ∈ application_diagnostic_order s -> is_Some (application_diagnostics_by_owner s !! o)) as Hin
    by (intros o; apply Ho).
  revert Hin. generalize (application_diagnostic_order s) as l.
  induction l as [|o l IH]; intros Hin; [done|]. destruct (Hin o) as [d Hlook]; [left|].
  cbn. rewrite Hlook. cbn. rewrite IH by (intros; apply Hin; by right).
  destruct (Hd o d Hlook) as [error ->]. by destruct o.
Qed.

Lemma concat_singletons {A} (l : list A) : concat (map (fun a => [a]) l) = l.
Proof. induction l as [|a l IH]; cbn; congruence. Qed.

Lemma diagnostic_owner_keys_failed s :
  failures_ok s ->
  concat (map diagnostic_owner_keys (application_diagnostics s)) = application_diagnostic_order s.
Proof. intros Hok. by rewrite application_diagnostics_owners, concat_singletons. Qed.

Lemma application_diagnostics_length s :
  failures_ok s -> length (application_diagnostics s) = length (application_diagnostic_order s).
Proof.
  intros Hok. apply application_diagnostics_owners in Hok. apply (f_equal length) in Hok.
  by rewrite !length_map in Hok.
Qed.

Lemma application_diagnostics_failed s d :
  failures_ok s -> d ∈ application_diagnostics s -> diag_state d = Diagnostic_ApplyFailed.
Proof.
  intros Hok (o & _ & Hlook)%list_elem_of_omap. by destruct (failures_described s Hok o d Hlook) as [error ->].
Qed.

(** What is left of a session's diagnostic when the [failed] owners are taken out. *)
Definition unfailed (failed : list DynamicCircuitOwnerKey) (d : RadiusActivationDiagnostic) : list rstring :=
  List.filter (fun circuit_id => negb (bool_decide ((circuit_id, diag_session_key d) ∈ failed)))
    (diag_circuit_ids d).

Lemma suppress_spec l (failed : list DynamicCircuitOwnerKey) :
  suppress_failed_owner_diagnostics l (list_to_set failed)
  = omap (fun d => if is_nil (diag_circuit_ids d) || negb (is_nil (unfailed failed d))
                   then Some (set_circuit_ids (unfailed failed d) d) else None) l.
Proof.
  unfold suppress_failed_owner_diagnostics. apply list_omap_ext. apply Forall2_same_length_lookup_2; [done|].
  intros i d d' Hd Hd'. replace d' with d by congruence. cbn.
  replace (List.filter _ (diag_circuit_ids d)) with (unfailed failed d).
  - by rewrite negb_involutive.
  - apply filter_ext. intros c. f_equal. apply bool_decide_ext. by rewrite elem_of_list_to_set.
Qed.

(** In every run of sink and worker, and for any sessions, the failed applications in the snapshot
    are at most 1024, one for each (circuit, session) owner, all in state [ApplyFailed]; before them it
    has the diagnostics of the sessions, in order, each without the circuits that failed for its
    session, and a session's diagnostic is left out exactly when it had circuits and all of them
    failed. *)
Theorem failed_applications_replace_session_diagnostics capacity labels sys x
    (Hrun : app_run capacity labels sys) :
  let failures := application_diagnostics (sys_state sys) in
  let failed := concat (map diagnostic_owner_keys failures) in
  NoDup failed /\ length failures = length failed
  /\ (length failed <= RADIUS_APPLY_FAILED_DIAGNOSTIC_LIMIT)%nat
  /\ (forall d, d ∈ failures -> diag_state d = Diagnostic_ApplyFailed)
  /\ sink_activation_diagnostics (sys_state sys) x
     = omap (fun d => if is_nil (diag_circuit_ids d) || negb (is_nil (unfailed failed d))
                      then Some (set_circuit_ids (unfailed failed d) d) else None)
         (service_diagnostics x) ++ failures.
Proof.
  pose proof (app_run_failures capacity labels sys Hrun) as Hok. cbn zeta.
  unfold sink_activation_diagnostics. rewrite suppress_spec.
  rewrite application_diagnostics_length, diagnostic_owner_keys_failed by done.
  split_and!; [by apply failures_distinct|done|by apply failures_bounded| |done].
  intros d. by apply application_diagnostics_failed.
Qed.

(** The subscriber of the sample service asks for a circuit and the bus refuses it. *)
Definition refused_moves : list Move :=
  concat (map emit_and_send (default [] (svc_sink sample_service)))
  ++ work [Move_Section; Move_Reply (Replied [Bus_Fail (str "no such parent")]); Move_Section; Move_Section].

(** Its activation diagnostic gives way to the failure. *)
Lemma failed_applications_replace_session_diagnostics_witness :
  length (service_diagnostics (svc_sessions sample_service)) = 1%nat
  /\ map diag_state (sink_activation_diagnostics (sys_state (run_system 4 refused_moves))
                       (svc_sessions sample_service)) = [Diagnostic_ApplyFailed].
Proof.
  split; [by_compute|].
  destruct (failed_applications_replace_session_diagnostics 4 (run_labels 4 refused_moves)
    (run_system 4 refused_moves) (svc_sessions sample_service)
    (executed_run 4 refused_moves)) as (_ & _ & _ & _ & ->). vm_compute. reflexivity.
Defined.
