(* ===== verification/ApplicationDrain.v ===== *)
(** * The worker drains its queue

    With the sink idle and the bus answering, whatever it answers, the worker comes to rest in a number
    of steps bounded by its queue, and the bookkeeping of unfinished intents is then empty.  The one
    thing it can leave behind is a removal that overflowed the queue after the worker had come to rest,
    which waits for the next intent. *)

From S2P Require Import Prelude RustStd RustCollections AccountingEvent ShapedDevice MacMatch.
From S2P Require Import SessionTypes SessionMetadata SessionStore SessionCommands.
From S2P Require Import RadiusService ApplicationError DynamicCircuitApplication.
From S2P Require Import DynamicCircuitApplicationSpec ApplicationClean ApplicationRuns.

#[local] Arguments entry_insert : simpl never.
#[local] Arguments entry_remove : simpl never.
#[local] Arguments owner_key : simpl never.

(** ** Steps of the worker *)

Definition worker_label (l : Label) : Prop :=
  match l with Label_Receive | Label_Section | Label_Reply _ _ _ => True | _ => False end.

Inductive worker_steps (capacity : nat) : System -> list Label -> System -> Prop :=
| worker_stays sys : worker_steps capacity sys [] sys
| worker_moves sys l sys1 labels sys2 :
    worker_label l -> step capacity sys l sys1 -> worker_steps capacity sys1 labels sys2 ->
    worker_steps capacity sys (l :: labels) sys2.

(** How many steps an intent still takes at most. *)
Definition stage (w : Worker) : nat :=
  match w with
  | Worker_Receive => 0
  | Worker_Drain => 1
  | Worker_ClearPending _ _ | Worker_RecordRemoval _ _ | Worker_Release _ => 2
  | Worker_RecordUpsert _ _ _ | Worker_AwaitRemoval _ _ _ => 3
  | Worker_AwaitUpsert _ _ _ | Worker_AwaitPromotion _ _ _ => 4
  | Worker_ShareCheck _ _ _ | Worker_RemovalAction _ _ => 5
  | Worker_Process _ => 6
  end.
Definition work_left (sys : System) : nat :=
  7 * (length (sys_queue sys) + size (pending_removals_by_owner (sys_state sys))) + stage (sys_worker sys).

(** ** The bookkeeping of unfinished intents *)

Record book_ok (s : DynamicCircuitApplicationState) : Prop := {
  book_upserts : no_empty_set (pending_upsert_sequences_by_owner s);
  book_deferred : forall o r, deferred_removal_sequence_by_owner s !! o = Some r ->
    exists n, n ∈ set_at (pending_upsert_sequences_by_owner s) o /\ n <= r;
  book_removals : forall o, is_Some (pending_removals_by_owner s !! o) -> o ∈ pending_removal_order s
}.

(** The invariant is kept, and nothing becomes unfinished. *)
Record tidies (s s' : DynamicCircuitApplicationState) : Prop := {
  tidy_ok : book_ok s -> book_ok s';
  tidy_upserts : forall o, set_at (pending_upsert_sequences_by_owner s') o
                           ⊆ set_at (pending_upsert_sequences_by_owner s) o;
  tidy_removals : (size (pending_removals_by_owner s') <= size (pending_removals_by_owner s))%nat
}.

#[local] Instance tidies_preorder : PreOrder tidies.
Proof.
  split; [intros s; by split|]. intros s1 s2 s3 [] []. split; [tauto|intros o; etrans; eauto|lia].
Qed.

Lemma tidies_same s s' :
  pending_upsert_sequences_by_owner s' = pending_upsert_sequences_by_owner s ->
  deferred_removal_sequence_by_owner s' = deferred_removal_sequence_by_owner s ->
  pending_removals_by_owner s' = pending_removals_by_owner s ->
  pending_removal_order s' = pending_removal_order s -> tidies s s'.
Proof. intros Hp Hd Hr Ho. split; [|by rewrite Hp|by rewrite Hr]. intros []. split; by rewrite ?Hp, ?Hd, ?Hr, ?Ho. Qed.

Lemma tidies_deferred s o :
  tidies s (set_deferred_removals (delete o (deferred_removal_sequence_by_owner s)) s).
Proof.
  split; [|done..]. intros []. split; [done| |done]. intros o' r. cbn. rewrite lookup_delete.
  case_decide; [done|eauto].
Qed.

Lemma has_pending_spec s o r :
  has_pending_upsert_at_or_before s o r = true
  <-> exists n, n ∈ set_at (pending_upsert_sequences_by_owner s) o /\ n <= r.
Proof.
  unfold has_pending_upsert_at_or_before, set_at.
  destruct (pending_upsert_sequences_by_owner s !! o) as [ns|]; cbn.
  - rewrite existsb_exists. setoid_rewrite <- list_elem_of_In. setoid_rewrite elem_of_elements.
    by setoid_rewrite Z.leb_le.
  - split; [done|]. intros (n & Hn & _). by apply not_elem_of_empty in Hn.
Qed.

Lemma clear_pending_tidies s ctx n : tidies s (clear_pending_upsert s ctx n).
Proof.
  unfold clear_pending_upsert. set (s1 := set_pending_upserts _ s).
  assert (forall o, set_at (pending_upsert_sequences_by_owner s1) o ⊆ set_at (pending_upsert_sequences_by_owner s) o)
    as Hsub.
  { intros o. cbn. rewrite set_at_remove. case_decide; [subst|]; set_solver. }
  split.
  - intros [Hne Hd Hr]. unfold prune_deferred_removal.
    assert (no_empty_set (pending_upsert_sequences_by_owner s1)) as Hne1 by (by apply no_empty_remove).
    assert (forall o r, o <> owner_key ctx -> deferred_removal_sequence_by_owner s !! o = Some r ->
      exists m, m ∈ set_at (pending_upsert_sequences_by_owner s1) o /\ m <= r) as Hother.
    { intros o r Ho Hlook. cbn. rewrite set_at_remove, decide_False by done. eauto. }
    destruct (deferred_removal_sequence_by_owner s1 !! owner_key ctx) as [r|] eqn:Hlook.
    + destruct (has_pending_upsert_at_or_before s1 (owner_key ctx) r) eqn:Hhas; cbn [negb].
      * split; [done| |done]. intros o r' Hr'. destruct (decide (o = owner_key ctx)) as [->|]; [|by apply Hother].
        apply has_pending_spec. congruence.
      * split; [done| |done]. cbn. intros o r'. rewrite lookup_delete. case_decide; [done|]. by apply Hother.
    + split; [done| |done]. intros o r' Hr'. destruct (decide (o = owner_key ctx)) as [->|]; [|by apply Hother].
      cbn in *. congruence.
  - unfold prune_deferred_removal. repeat case_match; exact Hsub.
  - unfold prune_deferred_removal. repeat case_match; done.
Qed.

Lemma release_owner_tidies s ctx : tidies s (release_owner s ctx).
Proof.
  set (s1 := set_pending_removals (delete (owner_key ctx) (pending_removals_by_owner s)) (pending_removal_order s)
    (set_deferred_removals (delete (owner_key ctx) (deferred_removal_sequence_by_owner s))
       (set_pending_upserts (delete (owner_key ctx) (pending_upsert_sequences_by_owner s)) s))).
  trans s1.
  - assert (forall o, set_at (pending_upsert_sequences_by_owner s1) o
      = if decide (owner_key ctx = o) then ∅ else set_at (pending_upsert_sequences_by_owner s) o) as Hat.
    { intros o. unfold set_at. cbn. rewrite lookup_delete. by case_decide. }
    split.
    + intros [Hne Hd Hr]. split; cbn.
      * by apply no_empty_delete.
      * intros o r. rewrite lookup_delete. change (delete (owner_key ctx) (pending_upsert_sequences_by_owner s))
          with (pending_upsert_sequences_by_owner s1). rewrite Hat. case_decide; [done|apply Hd].
      * intros o [q [_ Hq]%lookup_delete_Some]. apply Hr. by eexists.
    + intros o. rewrite Hat. case_decide; set_solver.
    + cbn. rewrite map_size_delete. destruct (pending_removals_by_owner s !! owner_key ctx); cbn; lia.
  - unfold release_owner, release_from_circuit. repeat case_match; by apply tidies_same.
Qed.

Lemma record_result_tidies s ctx r : tidies s (record_dynamic_circuit_application_result s ctx r).
Proof. destruct r; by apply tidies_same. Qed.

Lemma record_applied_tidies s ctx n : tidies s (record_applied_upsert s ctx n).
Proof. by apply tidies_same. Qed.

Lemma record_retained_tidies s ctx n u : tidies s (record_retained_upsert s ctx n u).
Proof.
  rewrite record_retained_upsert_eq. unfold retained_upsert_prologue.
  destruct (deferred_removal_sequence_by_owner s !! owner_key ctx) as [r|]; [|by apply tidies_same].
  destruct (n <=? r); [done|]. destruct (negb _); [|by apply tidies_same].
  etrans; [apply (tidies_deferred s (owner_key ctx))|by apply tidies_same].
Qed.

(** Taking a pending removal uses one up, and finds none only when there is none. *)
Lemma take_pending_tidies s s' q :
  take_next_pending_removal s = (s', q) ->
  tidies s s'
  /\ match q with
     | Some _ => (size (pending_removals_by_owner s') < size (pending_removals_by_owner s))%nat
     | None => book_ok s -> pending_removals_by_owner s' = ∅ /\ pending_removal_order s' = []
     end.
Proof.
  intros Htake.
  enough (forall order, take_pending_loop order s = (s', q) ->
    (forall o, is_Some (pending_removals_by_owner s !! o) -> o ∈ pending_removal_order s -> o ∈ order) ->
    tidies s s' /\ match q with
     | Some _ => (size (pending_removals_by_owner s') < size (pending_removals_by_owner s))%nat
     | None => book_ok s -> pending_removals_by_owner s' = ∅ /\ pending_removal_order s' = []
     end) as Hloop by (by eapply Hloop).
  clear Htake. induction order as [|o order IH]; cbn [take_pending_loop]; intros Htake Hin.
  - injection Htake as <- <-. split; [split; [|done..]|].
    + intros [Hne Hd Hr]. split; [done|done|]. intros o Ho. apply (Hin o Ho). by apply Hr.
    + intros [_ _ Hr]. split; [|done]. cbn. apply map_empty. intros o.
      destruct (pending_removals_by_owner s !! o) eqn:Ho; [|done].
      destruct (not_elem_of_nil o). apply Hin; [by eexists|]. apply Hr. by eexists.
  - destruct (pending_removals_by_owner s !! o) as [x|] eqn:Hx.
    + injection Htake as <- <-.
      assert (size (pending_removals_by_owner s) <> 0%nat) as Hsize.
      { rewrite map_size_ne_0_lookup. by eauto. }
      cbn. rewrite map_size_delete, Hx. split; [|lia]. split; [|done|cbn; rewrite map_size_delete, Hx; lia].
      intros [Hne Hd Hr]. split; [done|done|]. cbn. intros o' [x' [Hne' Hx']%lookup_delete_Some].
      assert (o' ∈ o :: order) as Ho' by (apply Hin; [|apply Hr]; by eexists).
      apply elem_of_cons in Ho' as [->|?]; done.
    + apply IH; [done|]. intros o' Ho' Hord. apply (Hin o' Ho') in Hord as [->|?]%elem_of_cons; [|done].
      rewrite Hx in Ho'. by destruct Ho'.
Qed.

(** ** The upserts in flight *)

Definition queued_upsert (q : QueuedDynamicCircuitIntent) : list (DynamicCircuitOwnerKey * Z) :=
  if is_upsert (queued_intent q) then [(owner_key (from_intent (queued_intent q)), queued_sequence q)] else [].
Definition emitter_upserts (e : Emitter) : list (DynamicCircuitOwnerKey * Z) :=
  match e with Emitter_Idle => [] | Emitter_Send q | Emitter_Failed q _ => queued_upsert q end.
Definition worker_upserts (w : Worker) : list (DynamicCircuitOwnerKey * Z) :=
  match w with
  | Worker_Process q => queued_upsert q
  | Worker_ShareCheck ctx n _ | Worker_AwaitUpsert ctx n _ | Worker_RecordUpsert ctx n _
  | Worker_ClearPending ctx n => [(owner_key ctx, n)]
  | _ => []
  end.

(** A section hands an upsert on or clears it, takes a stage, and tidies. *)
Record section_spec (s : DynamicCircuitApplicationState) (w : Worker)
    (s' : DynamicCircuitApplicationState) (w' : Worker) : Prop := {
  section_tidies : tidies s s';
  section_upserts : forall o n, (o, n) ∈ worker_upserts w -> (o, n) ∈ worker_upserts w'
    \/ n ∉ set_at (pending_upsert_sequences_by_owner s') o;
  section_stage : (7 * size (pending_removals_by_owner s') + stage w'
                   < 7 * size (pending_removals_by_owner s) + stage w)%nat;
  section_drained : w' = Worker_Receive -> book_ok s ->
    pending_removals_by_owner s' = ∅ /\ pending_removal_order s' = []
}.

Lemma section_of_tidies s w s' w' :
  tidies s s' -> (stage w' < stage w)%nat -> w' <> Worker_Receive ->
  (forall p, p ∈ worker_upserts w -> p ∈ worker_upserts w') -> section_spec s w s' w'.
Proof. intros Ht Hst Hw Hu. split; [done|auto|destruct Ht; lia|done]. Qed.

Lemma process_section s q s' w' :
  process_dynamic_circuit_intent s q = (s', w') -> section_spec s (Worker_Process q) s' w'.
Proof.
  unfold process_dynamic_circuit_intent. intros Hp.
  destruct q as [n i]. cbn [queued_intent queued_sequence] in Hp.
  destruct i as [u|u|r].
  1-2: case_match; injection Hp as <- <-; by apply section_of_tidies; [|cbn; lia| |].
  repeat case_match; simplify_eq; (apply section_of_tidies; [|cbn; lia|done|done]);
    try done; by apply tidies_same.
Qed.

Lemma cleared_upsert s ctx n :
  n ∉ set_at (pending_upsert_sequences_by_owner (clear_pending_upsert s ctx n)) (owner_key ctx).
Proof.
  unfold clear_pending_upsert, prune_deferred_removal.
  assert (n ∉ set_at (entry_remove (pending_upsert_sequences_by_owner s) (owner_key ctx) n) (owner_key ctx)).
  { rewrite set_at_remove, decide_True by done. set_solver. }
  by repeat case_match.
Qed.

Lemma worker_section_spec s w s' w' : worker_section s w = Some (s', w') -> section_spec s w s' w'.
Proof.
  intros Hs. destruct w; cbn [worker_section] in Hs; try done.
  - injection Hs as Hs. by apply process_section.
  - case_match; injection Hs as <- <-; (apply section_of_tidies; [|cbn; lia|done|done]); [done|].
    apply record_retained_tidies.
  - injection Hs as <- <-. apply section_of_tidies; [apply record_result_tidies|cbn; lia|done|done].
  - injection Hs as <- <-. split; [apply clear_pending_tidies| | |done].
    + cbn. intros o n [= -> ->]%list_elem_of_singleton. right. apply cleared_upsert.
    + cbn. rewrite clear_pending_removals. lia.
  - injection Hs as <- <-. apply section_of_tidies; [done|case_match; cbn; lia|by case_match|by intros p ?%elem_of_nil].
  - injection Hs as <- <-. apply section_of_tidies; [apply release_owner_tidies|cbn; lia|done|done].
  - injection Hs as <- <-. apply section_of_tidies; [apply record_result_tidies|cbn; lia|done|done].
  - destruct (take_next_pending_removal s) as [s1 q] eqn:Htake.
    apply take_pending_tidies in Htake as [Ht Hq]. destruct q as [q|]; injection Hs as <- <-.
    + split; [done|by intros ?? ?%elem_of_nil|cbn; lia|done].
    + split; [done|by intros ?? ?%elem_of_nil|destruct Ht; cbn; lia|done].
Qed.

Lemma reply_section_spec s w r s' w' :
  is_Some (awaited w) -> reply_section s w r = (s', w') -> section_spec s w s' w'.
Proof.
  intros [p Haw] Hs. destruct w; cbn [awaited reply_section] in *; try done.
  all: unfold apply_dynamic_circuit_request_and_record, apply_dynamic_circuit_removal_request,
    promote_retained_upsert in Hs.
  - injection Hs as <- <-. apply section_of_tidies; [|cbn; lia|done|done].
    case_match; [apply record_applied_tidies|done].
  - injection Hs as <- <-. apply section_of_tidies; [|cbn; lia|done|done].
    repeat case_match; [|apply release_owner_tidies|done].
    etrans; [apply release_owner_tidies|apply release_owner_tidies].
  - case_match; injection Hs as <- <-; (apply section_of_tidies; [|cbn; lia|done|done]).
    + etrans; [apply release_owner_tidies|]. etrans; [apply record_applied_tidies|].
      exact (record_result_tidies _ _ (Ok tt)).
    + destruct r as [|err]; [done|]. exact (record_result_tidies _ _ (Err err)).
Qed.

(** ** The invariant of the system *)

Definition in_flight (sys : System) : list (DynamicCircuitOwnerKey * Z) :=
  concat (map queued_upsert (sys_queue sys)) ++ emitter_upserts (sys_emitter sys)
  ++ worker_upserts (sys_worker sys).

Record book_sys (sys : System) : Prop := {
  sys_book : book_ok (sys_state sys);
  sys_upserts : forall o n, n ∈ set_at (pending_upsert_sequences_by_owner (sys_state sys)) o ->
    (o, n) ∈ in_flight sys
}.

Lemma emit_track_book s n i : book_ok s -> book_ok (emit_track s n i).
Proof.
  intros [Hne Hd Hr]. unfold emit_track.
  assert (book_ok (track_pending_upsert s (from_intent i) n)) as Hup.
  { split; cbn; [by apply no_empty_insert| |done]. intros o r Hlook. destruct (Hd o r Hlook) as (m & Hm & Hle).
    exists m. split; [|done]. rewrite set_at_insert. case_decide; [subst|]; set_solver. }
  destruct i as [u|u|r]; cbn [is_upsert is_remove]; [done|done|].
  unfold track_deferred_removal_for_pending_upserts. case_match eqn:Hhas; [|done]. split; cbn; [done| |done].
  intros o r'. rewrite lookup_insert. case_decide; [subst|apply Hd]. intros [= <-].
  by apply has_pending_spec.
Qed.

Lemma emit_track_upserts s n i o m :
  m ∈ set_at (pending_upsert_sequences_by_owner (emit_track s n i)) o ->
  m ∈ set_at (pending_upsert_sequences_by_owner s) o \/ (o, m) ∈ queued_upsert (mkQueuedIntent n i).
Proof.
  unfold emit_track, queued_upsert. destruct i as [u|u|r]; cbn [is_upsert is_remove queued_intent queued_sequence].
  1-2: cbn; rewrite set_at_insert; case_decide; [subst|by left];
    intros [->%elem_of_singleton|?]%elem_of_union; [right; by left|by left].
  unfold track_deferred_removal_for_pending_upserts. case_match; by left.
Qed.

Lemma record_pending_removal_book s ctx q : book_ok s -> book_ok (record_pending_removal s ctx q).
Proof.
  intros [Hne Hd Hr]. split; [done|done|]. cbn. intros o. rewrite lookup_insert, elem_of_app.
  case_decide as Ho; [subst; intros _; right; by left|]. intros Hs. left. apply Hr in Hs.
  case_match; [|done]. unfold without. rewrite list_elem_of_In, filter_In, <- list_elem_of_In.
  split; [done|]. apply negb_true_iff, bool_decide_eq_false. congruence.
Qed.

Lemma emit_failure_book s q reason :
  book_ok s ->
  book_ok (emit_failure s q reason)
  /\ forall o n, n ∈ set_at (pending_upsert_sequences_by_owner (emit_failure s q reason)) o ->
     n ∈ set_at (pending_upsert_sequences_by_owner s) o /\ (o, n) ∉ queued_upsert q.
Proof.
  intros Hok. unfold emit_failure, queued_upsert.
  set (s1 := record_application_failure _ _ _). assert (tidies s s1) as [Ht Hu _] by (by apply tidies_same).
  apply Ht in Hok. clearbody s1. clear Ht. destruct (is_upsert (queued_intent q)) eqn:Hup.
  - assert (is_remove (queued_intent q) = false) as -> by (by destruct (queued_intent q)). cbn [andb].
    destruct (clear_pending_tidies s1 (from_intent (queued_intent q)) (queued_sequence q)) as [Ht Hu' _].
    split; [by apply Ht|]. intros o n Hn. split; [by apply Hu, Hu'|].
    intros [= -> ->]%list_elem_of_singleton. by apply cleared_upsert in Hn.
  - split; [case_match; [by apply record_pending_removal_book|done]|].
    intros o n Hn. split; [|by intros ?%elem_of_nil]. apply Hu. by case_match.
Qed.

Lemma book_sys_section s queue n e w s' w' :
  section_spec s w s' w' -> book_sys (mkSystem s queue n e w) -> book_sys (mkSystem s' queue n e w').
Proof.
  intros Hsec [Hok Hin]. destruct Hsec as [[Ht Hu _] Hw _ _]. split; cbn in *; [by apply Ht|].
  intros o m Hm. specialize (Hin o m (Hu o m Hm)). unfold in_flight in *. cbn in *.
  rewrite !elem_of_app in *. destruct Hin as [?|[?|Hin]]; [by left|by right; left|].
  destruct (Hw o m Hin); [by right; right|done].
Qed.

Lemma book_sys_step capacity sys l sys' : step capacity sys l sys' -> book_sys sys -> book_sys sys'.
Proof.
  intros Hstep Hbook. destruct Hstep as [s queue n w i|s queue n w q|s queue n w q|s queue n w q reason
    |s queue n e q|s queue n e w s' w' Hsec|s queue n e w ctx req outcome s' w' Haw Hrep].
  - destruct Hbook as [Hok Hin]. split; cbn in *; [by apply emit_track_book|].
    intros o m Hm. apply emit_track_upserts in Hm. unfold in_flight in *. cbn in *.
    rewrite !elem_of_app. destruct Hm as [Hm|Hm]; [|tauto]. specialize (Hin o m Hm).
    rewrite elem_of_app in Hin. tauto.
  - destruct Hbook as [Hok Hin]. split; cbn in *; [done|]. intros o m Hm. specialize (Hin o m Hm).
    unfold in_flight in *. cbn in *. rewrite map_app, concat_app. cbn. rewrite app_nil_r, !elem_of_app in *. tauto.
  - destruct Hbook as [Hok Hin]. by split.
  - destruct Hbook as [Hok Hin]. cbn in *. destruct (emit_failure_book s q reason Hok) as [Hok' Hu].
    split; cbn; [done|]. intros o m Hm. destruct (Hu o m Hm) as [Hm' Hno]. specialize (Hin o m Hm').
    unfold in_flight in *. cbn in *. rewrite !elem_of_app in *. tauto.
  - destruct Hbook as [Hok Hin]. split; cbn in *; [done|]. intros o m Hm. specialize (Hin o m Hm).
    unfold in_flight in *. cbn in *. rewrite app_nil_r, !elem_of_app in *. tauto.
  - eapply book_sys_section; [by apply worker_section_spec|done].
  - eapply book_sys_section; [|done]. eapply reply_section_spec; [by eexists|done].
Qed.

Lemma app_run_book capacity labels sys : app_run capacity labels sys -> book_sys sys.
Proof.
  induction 1; [|by eapply book_sys_step]. split; cbn.
  - split; cbn; [by intros k ?|by intros o r ?|by intros o []].
  - intros o n Hn. by apply not_elem_of_empty in Hn.
Qed.

(** ** Coming to rest *)

Lemma worker_step_spec capacity sys l sys' :
  step capacity sys l sys' -> worker_label l -> book_sys sys ->
  (work_left sys' < work_left sys)%nat /\ sys_emitter sys' = sys_emitter sys
  /\ (sys_worker sys' = Worker_Receive ->
      pending_removals_by_owner (sys_state sys') = ∅ /\ pending_removal_order (sys_state sys') = []).
Proof.
  intros Hstep Hl [Hok _]. unfold work_left.
  destruct Hstep as [| | | |s queue n e q|s queue n e w s' w' Hsec|s queue n e w ctx req outcome s' w' Haw Hrep];
    try done; cbn in *.
  - split_and!; [lia|done|done].
  - apply worker_section_spec in Hsec as [_ _ Hst Hdr]. split_and!; [lia|done|auto].
  - apply reply_section_spec in Hrep as [_ _ Hst Hdr]; [|by eexists]. split_and!; [lia|done|auto].
Qed.

Lemma worker_steps_spec capacity sys more sys' :
  worker_steps capacity sys more sys' -> book_sys sys ->
  (length more + work_left sys' <= work_left sys)%nat /\ sys_emitter sys' = sys_emitter sys /\ book_sys sys'
  /\ (more <> [] -> sys_worker sys' = Worker_Receive ->
      pending_removals_by_owner (sys_state sys') = ∅ /\ pending_removal_order (sys_state sys') = []).
Proof.
  induction 1 as [sys|sys l sys1 more sys2 Hl Hstep Hmore IH]; intros Hbook; [by cbn|].
  destruct (worker_step_spec _ _ _ _ Hstep Hl Hbook) as (Hlt & He & Hdr).
  destruct IH as (Hle & He' & Hbook' & Hdr'); [by eapply book_sys_step|].
  split_and!; [cbn [length]; lia|congruence|done|]. intros _ Hw. destruct more as [|l' more]; [|by apply Hdr'].
  inversion Hmore; subst. by apply Hdr.
Qed.

(** The worker moves whenever it is not waiting on an empty queue, whatever the bus answers. *)
Lemma worker_moves_on capacity sys outcome :
  (sys_queue sys = [] /\ sys_worker sys = Worker_Receive)
  \/ exists l sys', worker_label l /\ step capacity sys l sys'
     /\ forall ctx req o, l = Label_Reply ctx req o -> o = outcome.
Proof.
  destruct sys as [s queue n e w]. cbn.
  destruct (awaited w) as [[ctx req]|] eqn:Haw.
  { right. destruct (reply_section s w (apply_dynamic_circuit_request outcome)) as [s' w'] eqn:Hrep.
    eexists _, _. split; [|split; [by econstructor|]]; [done|]. by intros ??? [= _ _ <-]. }
  destruct (worker_section s w) as [[s' w']|] eqn:Hsec.
  { right. eexists _, _. split; [|split; [by econstructor|]]; done. }
  destruct w; try done; [|by cbn in Hsec; destruct (shared_upsert_may_apply s context)
                         |by cbn in Hsec; destruct (take_next_pending_removal s) as [? []]].
  destruct queue as [|q queue]; [by left|]. right. eexists _, _. split; [|split; [by econstructor|]]; done.
Qed.

Lemma book_at_rest sys :
  book_sys sys -> at_rest sys ->
  pending_upsert_sequences_by_owner (sys_state sys) = ∅
  /\ deferred_removal_sequence_by_owner (sys_state sys) = ∅.
Proof.
  intros [Hok Hin] (Hq & He & Hw). unfold in_flight in Hin. rewrite Hq, He, Hw in Hin. cbn in Hin.
  assert (forall o n, n ∉ set_at (pending_upsert_sequences_by_owner (sys_state sys)) o) as Hno
    by (intros o n Hn; by apply Hin, elem_of_nil in Hn).
  split; apply map_empty; intros o; apply eq_None_not_Some.
  - rewrite (no_empty_lookup _ _ (book_upserts _ Hok)). intros [n Hn]. by apply (Hno o n).
  - intros [r Hr]. destruct (book_deferred _ Hok o r Hr) as (n & Hn & _). by apply (Hno o n).
Qed.

(** C25: From any reachable state with the sink idle, the worker alone takes at most [work_left] steps
    (seven for each queued or deferred intent, and what is left of the present one); until it rests it
    can always take one, whatever the bus answers; and at rest no upsert is pending and no removal
    deferred.  No overflowed removal is left if the worker took at least one of these steps; a worker that was
    at rest already may have one left ([overflowed_removal_can_be_stranded]). *)
Theorem worker_comes_to_rest capacity labels sys
    (Hrun : app_run capacity labels sys) (Hidle : sys_emitter sys = Emitter_Idle) :
  forall more sys', worker_steps capacity sys more sys' ->
  (length more <= work_left sys)%nat
  /\ (forall outcome, at_rest sys' \/ exists l sys'', worker_label l /\ step capacity sys' l sys''
        /\ forall ctx req o, l = Label_Reply ctx req o -> o = outcome)
  /\ (at_rest sys' ->
      pending_upsert_sequences_by_owner (sys_state sys') = ∅
      /\ deferred_removal_sequence_by_owner (sys_state sys') = ∅
      /\ (more <> [] -> pending_removals_by_owner (sys_state sys') = ∅
                        /\ pending_removal_order (sys_state sys') = [])).
Proof.
  intros more sys' Hmore. apply app_run_book in Hrun.
  destruct (worker_steps_spec _ _ _ _ Hmore Hrun) as (Hle & He & Hbook & Hdr). split_and!; [lia| |].
  - intros outcome. destruct (worker_moves_on capacity sys' outcome) as [[Hq Hw]|]; [left|by right].
    split_and!; [done|congruence|done].
  - intros Hrest. destruct (book_at_rest _ Hbook Hrest) as [Hu Hd]. split_and!; [done|done|].
    intros Hne. apply Hdr; [done|apply Hrest].
Qed.

(** Two queued intents, the first refused by the bus. *)
Definition refused_then_applied : list Move :=
  [Move_Receive; Move_Section; Move_Section; Move_Reply (Replied [Bus_Fail (str "no")]);
   Move_Section; Move_Section; Move_Section] ++ applied_create.
Definition two_queued : list Move :=
  emit_and_send (sample_upsert 1) ++ emit_and_send (upsert_for (str "c-2") 2).

Lemma execute_worker_steps capacity moves : forall labels sys labels' sys',
  execute capacity labels sys moves = Some (labels', sys') ->
  Forall (fun m => match m with Move_Receive | Move_Section | Move_Reply _ => True | _ => False end) moves ->
  exists more, labels' = labels ++ more /\ worker_steps capacity sys more sys'.
Proof.
  induction moves as [|m moves IH]; intros labels sys labels' sys'; cbn.
  - intros [= <- <-] _. exists []. split; [by rewrite app_nil_r|constructor].
  - destruct (move capacity sys m) as [[l sys1]|] eqn:Hm; [|done]. intros Hex [Hw Hall]%Forall_cons.
    destruct (IH _ _ _ _ Hex Hall) as (more & -> & Hmore). exists (l :: more).
    split; [by rewrite <- app_assoc|]. econstructor; [|by eapply move_step|done].
    destruct sys as [s queue n e w]. destruct m, e, w; cbn in Hm; repeat case_match; simplify_eq; done.
Qed.

Lemma execute_app capacity moves1 moves2 : forall labels sys,
  execute capacity labels sys (moves1 ++ moves2) =
  match execute capacity labels sys moves1 with
  | Some (labels', sys') => execute capacity labels' sys' moves2
  | None => None
  end.
Proof. induction moves1 as [|m moves1 IH]; intros; cbn; [done|]. destruct (move _ _ _) as [[]|]; [apply IH|done]. Qed.

Lemma executed_app capacity moves1 moves2 :
  bool_decide (is_Some (execute capacity [] System_new (moves1 ++ moves2))) = true ->
  execute capacity (run_labels capacity moves1) (run_system capacity moves1) moves2
  = Some (run_labels capacity (moves1 ++ moves2), run_system capacity (moves1 ++ moves2)).
Proof.
  rewrite bool_decide_eq_true. unfold run_labels, run_system. rewrite execute_app.
  destruct (execute capacity [] System_new moves1) as [[labels sys]|]; cbn; [|by intros []].
  by intros [[] ->].
Qed.

Lemma worker_comes_to_rest_witness :
  work_left (run_system 4 two_queued) = 14%nat
  /\ exists more sys', worker_steps 4 (run_system 4 two_queued) more sys' /\ length more = 14%nat
     /\ at_rest sys' /\ pending_upsert_sequences_by_owner (sys_state sys') = ∅
     /\ pending_removals_by_owner (sys_state sys') = ∅.
Proof.
  pose proof (executed_app 4 two_queued refused_then_applied ltac:(vm_compute; reflexivity)) as Hex.
  destruct (execute_worker_steps _ _ _ _ _ _ Hex) as (more & Hlab & Hmore); [vm_compute; repeat constructor|].
  assert (length more = 14%nat) as Hlen.
  { apply (f_equal length) in Hlab. rewrite length_app in Hlab.
    assert (length (run_labels 4 two_queued) = 4%nat) as H1 by by_compute.
    assert (length (run_labels 4 (two_queued ++ refused_then_applied)) = 18%nat) as H2 by by_compute. lia. }
  assert (at_rest (run_system 4 (two_queued ++ refused_then_applied))) as Hrest
    by (split_and!; vm_compute; reflexivity).
  destruct (worker_comes_to_rest 4 _ _ (executed_run 4 two_queued) ltac:(vm_compute; reflexivity) _ _ Hmore)
    as (_ & _ & Hend). destruct (Hend Hrest) as (Hu & _ & Hr).
  split; [by_compute|]. exists more, (run_system 4 (two_queued ++ refused_then_applied)).
  split_and!; [done|done|done|done|]. apply Hr. intros ->. discriminate Hlen.
Defined.

(** The sink finds the queue full, the worker then drains it and rests, and only then is the removal
    recorded. *)
Definition late_removal_moves : list Move :=
  emit_and_send (sample_upsert 1) ++ applied_create
  ++ emit_and_send (upsert_for (str "c-2") 2)
  ++ emit_and_send (sample_removal 1 Removal_Stop)
  ++ applied_create ++ [Move_Failure].

(** A removal that overflows the queue can miss the worker: with everything idle, the queue empty and
    every request acknowledged, the circuit of a stopped session is in force and its removal waits for
    an intent that may never come. *)
Theorem overflowed_removal_can_be_stranded :
  exists capacity labels sys c k,
    app_run capacity labels sys /\ at_rest sys
    /\ Forall (fun l => match l with Label_Reply _ _ outcome => outcome = Replied [Bus_Ack] | _ => True end) labels
    /\ is_Some (pending_removals_by_owner (sys_state sys) !! (c, k)) /\ in_force labels !! c = Some k.
Proof.
  exists 1%nat, (run_labels 1 late_removal_moves), (run_system 1 late_removal_moves), (str "c-1"), (sample_session 1).
  split; [apply executed_run|]. split; [by split_and!; vm_compute|].
  split; [vm_compute; repeat constructor|]. split; [|by_compute].
  assert (bool_decide (is_Some (pending_removals_by_owner (sys_state (run_system 1 late_removal_moves))
    !! (str "c-1", sample_session 1))) = true) as Hs by (vm_compute; reflexivity).
  by apply bool_decide_eq_true in Hs.
Qed.
