(* ===== verification/QdiscHandles.v ===== *)
(** * Qdisc handles of circuits (crate [lqos_bakery], [qdisc_handles.rs])

    The allocator of explicit qdisc handle majors: the handles an MQ layout reserves on an interface,
    the circuits of each interface with the handles they own, the search for a free handle, rotation
    with handles kept retired until the next apply cycle, release, and the persisted form.  A handle
    is a [u16] and a circuit hash an [i64], both [Z].  Reading and writing the file and its JSON text
    are the environment: [load] takes the parsed file, [None] when there is none. *)

From S2P Require Import Prelude RustStd RustCollections.

Definition MQ_ROOT_HANDLE_MAJOR : Z := 0x7FFF.
Definition PREFERRED_CIRCUIT_START : Z := 0x9000.
Definition MAX_DYNAMIC_HANDLE_MAJOR : Z := 0xFFFE.
Definition INFRA_HANDLE_BASE : Z := 0x2000.
Definition QDISC_HANDLE_FILE_VERSION : Z := 1.

(** ** Reserved handles *)

Inductive InfraQdiscSlot : Type := Slot_Primary | Slot_Default.

Definition infra_qdisc_handle (queue_major : Z) (slot : InfraQdiscSlot) : Z :=
  let base := u16_saturating_add INFRA_HANDLE_BASE (u16_saturating_mul queue_major 2) in
  match slot with
  | Slot_Primary => base
  | Slot_Default => u16_saturating_add base 1
  end.

Record MqDeviceLayout : Type := mkMqDeviceLayout { devices : gmap rstring (gset Z) }.

(** One loop of [from_setup]: the majors of [queues_available] queues from [offset] on. *)
Definition add_majors (layout : gmap rstring (gset Z)) (interface : rstring)
    (queues_available offset : nat) : gmap rstring (gset Z) :=
  <[interface := set_at layout interface
                 ∪ list_to_set (map (fun queue => u16_of_usize (queue + offset + 1)) (seq 0 queues_available))]>
    layout.

Definition from_setup (isp_interface internet_interface : rstring)
    (queues_available stick_offset : nat) : MqDeviceLayout :=
  let devices := add_majors ∅ isp_interface queues_available 0 in
  mkMqDeviceLayout (add_majors devices internet_interface queues_available stick_offset).

Definition reserved_handles (layout : MqDeviceLayout) (interface : rstring) : gset Z :=
  {[MQ_ROOT_HANDLE_MAJOR; 0xFFFF]}
  ∪ match devices layout !! interface with
    | Some majors =>
        list_to_set (concat (map (fun major =>
            [major; infra_qdisc_handle major Slot_Primary; infra_qdisc_handle major Slot_Default])
          (btree_set_iter majors)))
    | None => ∅
    end.

(** ** The handles of one interface *)

Record InterfaceHandleState : Type := mkInterfaceHandleState {
  circuits : gmap Z Z;
  owners : gmap Z Z;
  next_candidate : Z
}.

Definition InterfaceHandleState_default : InterfaceHandleState :=
  mkInterfaceHandleState ∅ ∅ PREFERRED_CIRCUIT_START.

Definition from_circuits (circuits : gmap Z Z) : InterfaceHandleState :=
  mkInterfaceHandleState circuits
    (insert_all (fun '(_, handle) => Some handle) fst (btree_iter circuits) ∅)
    PREFERRED_CIRCUIT_START.

Definition owner_of (st : InterfaceHandleState) (handle : Z) : option Z := owners st !! handle.

Definition set_next_candidate (next : Z) (st : InterfaceHandleState) : InterfaceHandleState :=
  mkInterfaceHandleState (circuits st) (owners st) next.

Definition advance_handle_candidate (handle : Z) : Z :=
  if MAX_DYNAMIC_HANDLE_MAJOR <=? handle then 1 else handle + 1.

Definition note_reusable_handle (st : InterfaceHandleState) (handle : Z) : InterfaceHandleState :=
  if (PREFERRED_CIRCUIT_START <=? handle) || (next_candidate st <? PREFERRED_CIRCUIT_START)
  then set_next_candidate (Z.min (next_candidate st) handle) st
  else if bool_decide (circuits st = ∅) then set_next_candidate PREFERRED_CIRCUIT_START st
  else st.

(** [InterfaceHandleState::insert]. *)
Definition insert_handle (st : InterfaceHandleState) (circuit_hash handle : Z) : InterfaceHandleState :=
  let previous := circuits st !! circuit_hash in
  let st := mkInterfaceHandleState (<[circuit_hash := handle]> (circuits st)) (owners st) (next_candidate st) in
  let st :=
    match previous with
    | Some previous =>
        note_reusable_handle
          (mkInterfaceHandleState (circuits st) (delete previous (owners st)) (next_candidate st)) previous
    | None => st
    end in
  let st := mkInterfaceHandleState (circuits st) (<[handle := circuit_hash]> (owners st)) (next_candidate st) in
  if next_candidate st =? handle then set_next_candidate (advance_handle_candidate handle) st else st.

(** [InterfaceHandleState::remove]. *)
Definition remove_handle (st : InterfaceHandleState) (circuit_hash : Z)
    : InterfaceHandleState * option Z :=
  match circuits st !! circuit_hash with
  | None => (st, None)
  | Some removed =>
      (note_reusable_handle
         (mkInterfaceHandleState (delete circuit_hash (circuits st)) (delete removed (owners st))
            (next_candidate st)) removed,
       Some removed)
  end.

Definition unavailable (st : InterfaceHandleState) (reserved : gset Z) (retired : option (gset Z))
    (handle : Z) : bool :=
  bool_decide (handle ∈ reserved) || bool_decide (is_Some (owners st !! handle))
  || match retired with Some set => bool_decide (handle ∈ set) | None => false end.

(** The loop of [scan_available] over [n] handles from [handle] on. *)
Fixpoint scan_loop (st : InterfaceHandleState) (reserved : gset Z) (retired : option (gset Z))
    (n : nat) (handle : Z) : option Z :=
  match n with
  | O => None
  | S n' =>
      if unavailable st reserved retired handle then scan_loop st reserved retired n' (handle + 1)
      else Some handle
  end.

Definition scan_available (st : InterfaceHandleState) (first last : Z) (reserved : gset Z)
    (retired : option (gset Z)) : option Z :=
  if last <? first then None else scan_loop st reserved retired (Z.to_nat (last - first + 1)) first.

(** The four scans of [next_free_handle], in order. *)
Definition candidate_ranges (next_candidate : Z) : list (Z * Z) :=
  let low_start :=
    if next_candidate <? PREFERRED_CIRCUIT_START then Z.max next_candidate 1 else 1 in
  [(next_candidate, MAX_DYNAMIC_HANDLE_MAJOR)]
  ++ (if PREFERRED_CIRCUIT_START <? next_candidate
      then [(PREFERRED_CIRCUIT_START, next_candidate - 1)] else [])
  ++ [(low_start, PREFERRED_CIRCUIT_START - 1)]
  ++ (if 1 <? low_start then [(1, low_start - 1)] else []).

Fixpoint first_available (st : InterfaceHandleState) (reserved : gset Z) (retired : option (gset Z))
    (ranges : list (Z * Z)) : option Z :=
  match ranges with
  | [] => None
  | (first, last) :: ranges' =>
      match scan_available st first last reserved retired with
      | Some handle => Some handle
      | None => first_available st reserved retired ranges'
      end
  end.

Definition next_free_handle (st : InterfaceHandleState) (reserved : gset Z) (retired : option (gset Z))
    : InterfaceHandleState * option Z :=
  match first_available st reserved retired (candidate_ranges (next_candidate st)) with
  | Some handle => (set_next_candidate (advance_handle_candidate handle) st, Some handle)
  | None => (st, None)
  end.

(** ** All interfaces *)

Record QdiscHandleState : Type := mkQdiscHandleState {
  interfaces : gmap rstring InterfaceHandleState;
  retired_handles : gmap rstring (gset Z)
}.

Definition QdiscHandleState_default : QdiscHandleState := mkQdiscHandleState ∅ ∅.

(** [interfaces.entry(interface).or_default()]. *)
Definition interface_state (s : QdiscHandleState) (interface : rstring) : InterfaceHandleState :=
  default InterfaceHandleState_default (interfaces s !! interface).

Definition circuit_handle (s : QdiscHandleState) (interface : rstring) (circuit_hash : Z) : option Z :=
  interfaces s !! interface ≫= fun state => circuits state !! circuit_hash.

Definition clear_retired_on (ifaces : gmap rstring InterfaceHandleState) (entry : rstring * gset Z)
    : gmap rstring InterfaceHandleState :=
  match ifaces !! entry.1 with
  | None => ifaces
  | Some state => <[entry.1 := fold_left note_reusable_handle (btree_set_iter entry.2) state]> ifaces
  end.

Definition clear_retired_handles (s : QdiscHandleState) : QdiscHandleState :=
  mkQdiscHandleState (fold_left clear_retired_on (btree_iter (retired_handles s)) (interfaces s)) ∅.

Definition assign_circuit_handle (s : QdiscHandleState) (interface : rstring) (circuit_hash : Z)
    (reserved : gset Z) : QdiscHandleState * option Z :=
  let allocate :=
    let retired := retired_handles s !! interface in
    match next_free_handle (interface_state s interface) reserved retired with
    | (state, None) => (mkQdiscHandleState (<[interface := state]> (interfaces s)) (retired_handles s), None)
    | (state, Some next) =>
        (mkQdiscHandleState (<[interface := insert_handle state circuit_hash next]> (interfaces s))
           (retired_handles s), Some next)
    end in
  match circuit_handle s interface circuit_hash with
  | Some existing =>
      if negb (bool_decide (existing ∈ reserved))
         && bool_decide ((interfaces s !! interface ≫= fun state => owner_of state existing)
                         = Some circuit_hash)
      then (s, Some existing)
      else allocate
  | None => allocate
  end.

Definition rotate_circuit_handle (s : QdiscHandleState) (interface : rstring) (circuit_hash : Z)
    (reserved : gset Z) : QdiscHandleState * option Z :=
  let retired_handle := circuit_handle s interface circuit_hash in
  let retired := retired_handles s !! interface in
  match next_free_handle (interface_state s interface) reserved retired with
  | (state, None) => (mkQdiscHandleState (<[interface := state]> (interfaces s)) (retired_handles s), None)
  | (state, Some next) =>
      (mkQdiscHandleState (<[interface := insert_handle state circuit_hash next]> (interfaces s))
         (match retired_handle with
          | Some handle => entry_insert (retired_handles s) interface handle
          | None => retired_handles s
          end),
       Some next)
  end.

Definition release_circuit (s : QdiscHandleState) (interface : rstring) (circuit_hash : Z)
    : QdiscHandleState * bool :=
  match interfaces s !! interface with
  | None => (s, false)
  | Some state =>
      let '(state, removed) := remove_handle state circuit_hash in
      (mkQdiscHandleState (<[interface := state]> (interfaces s)) (retired_handles s),
       bool_decide (is_Some removed))
  end.

(** ** The persisted form *)

Record PersistedQdiscHandleState : Type := mkPersistedQdiscHandleState {
  file_version : Z;
  file_interfaces : gmap rstring (gmap rstring Z)
}.

(** What [save] writes. *)
Definition persisted (s : QdiscHandleState) : PersistedQdiscHandleState :=
  mkPersistedQdiscHandleState QDISC_HANDLE_FILE_VERSION
    ((fun state => list_to_map (map (fun '(hash, handle) => (i64_to_string hash, handle))
                                  (btree_iter (circuits state)))) <$> interfaces s).

(** [filter_map(|(hash, handle)| hash.parse().ok().map(|h| (h, handle))).collect()]. *)
Definition load_circuits (entry : gmap rstring Z) : gmap Z Z :=
  insert_all (fun '(hash, _) => parse_i64 hash) snd (btree_iter entry) ∅.

Definition load (file : option PersistedQdiscHandleState) : QdiscHandleState :=
  match file with
  | None => QdiscHandleState_default
  | Some file =>
      if negb (file_version file =? QDISC_HANDLE_FILE_VERSION) then QdiscHandleState_default
      else mkQdiscHandleState ((fun entry => from_circuits (load_circuits entry)) <$> file_interfaces file) ∅
  end.
