(* ===== verification/QdiscHandlesSpec.v ===== *)
(** * What the qdisc handle allocator guarantees

    The invariant of the allocator over every sequence of operations and restarts, the exactness of
    the search for a free handle, stability of assigned handles, retirement, and persistence. *)

From S2P Require Import Prelude RustStd RustCollections QdiscHandles.

Definition dynamic_handle (handle : Z) : Prop := 1 <= handle <= MAX_DYNAMIC_HANDLE_MAJOR.

(** ** The invariant of an interface *)

Record interface_ok (st : InterfaceHandleState) : Prop := {
  iface_inverse : forall c h, circuits st !! c = Some h <-> owners st !! h = Some c;
  iface_range : forall c h, circuits st !! c = Some h -> dynamic_handle h;
  iface_next : dynamic_handle (next_candidate st)
}.

(** [circuits] and [owners] unchanged. *)
Definition same_handles (st st' : InterfaceHandleState) : Prop :=
  circuits st' = circuits st /\ owners st' = owners st.

#[local] Instance same_handles_preorder : PreOrder same_handles.
Proof. split; [done|]. intros ??? [] []. split; congruence. Qed.

Lemma interface_ok_same st st' :
  same_handles st st' -> dynamic_handle (next_candidate st') -> interface_ok st -> interface_ok st'.
Proof. intros [Hc Ho] Hn []. split; rewrite ?Hc, ?Ho; done. Qed.

Lemma default_ok : interface_ok InterfaceHandleState_default.
Proof. split; cbn; [intros; by rewrite !lookup_empty|intros ??; by rewrite lookup_empty|done]. Qed.

Lemma note_reusable_same st h : same_handles st (note_reusable_handle st h).
Proof. unfold note_reusable_handle. by repeat case_match. Qed.

Lemma note_reusable_next st h :
  dynamic_handle h -> dynamic_handle (next_candidate st) ->
  dynamic_handle (next_candidate (note_reusable_handle st h)).
Proof.
  unfold note_reusable_handle, dynamic_handle. intros Hh Hn. repeat case_match; cbn; [lia|done|done].
Qed.

Lemma advance_range h : dynamic_handle h -> dynamic_handle (advance_handle_candidate h).
Proof.
  unfold advance_handle_candidate, dynamic_handle, MAX_DYNAMIC_HANDLE_MAJOR. intros Hh. case_match; lia.
Qed.

Lemma insert_handle_spec st c h :
  (forall c' h', circuits st !! c' = Some h' <-> owners st !! h' = Some c') -> owners st !! h = None ->
  circuits (insert_handle st c h) = <[c := h]> (circuits st)
  /\ owners (insert_handle st c h)
     = <[h := c]> (match circuits st !! c with Some p => delete p (owners st) | None => owners st end).
Proof.
  intros Hinv Hfree. unfold insert_handle, note_reusable_handle.
  destruct (circuits st !! c) as [p|]; cbn; repeat case_match; done.
Qed.

Lemma insert_handle_next st c h :
  interface_ok st -> dynamic_handle h -> dynamic_handle (next_candidate (insert_handle st c h)).
Proof.
  intros [_ Hr Hn] Hh. unfold insert_handle.
  set (st1 := match circuits st !! c with Some _ => _ | None => _ end).
  assert (dynamic_handle (next_candidate st1)) as Hn1.
  { subst st1. destruct (circuits st !! c) as [p|] eqn:Hc; [|done]. apply note_reusable_next; [by eapply Hr|done]. }
  cbn. destruct (next_candidate st1 =? h); cbn; [by apply advance_range|done].
Qed.

Lemma insert_handle_ok st c h :
  interface_ok st -> owners st !! h = None -> dynamic_handle h -> interface_ok (insert_handle st c h).
Proof.
  intros Hok Hfree Hh. pose proof (insert_handle_next st c h Hok Hh) as Hnext. destruct Hok as [Hinv Hr Hn].
  destruct (insert_handle_spec st c h Hinv Hfree) as [Ec Eo]. split; [|rewrite Ec|done].
  - intros c' h'. rewrite Ec, Eo, !lookup_insert.
    destruct (decide (c = c')) as [<-|Hcc], (decide (h = h')) as [<-|Hhh]; [done| | |].
    + split; [by intros [= ->]|]. destruct (circuits st !! c) as [p|] eqn:Hp.
      * rewrite lookup_delete. case_decide; [done|]. rewrite <- Hinv. congruence.
      * rewrite <- Hinv. congruence.
    + split; [|by intros [= ->]]. rewrite Hinv. congruence.
    + destruct (circuits st !! c) as [p|] eqn:Hp; [|apply Hinv]. rewrite lookup_delete, Hinv.
      case_decide as Hph; [subst|done]. apply Hinv in Hp. split; [congruence|done].
  - intros c' h'. rewrite lookup_insert. case_decide; [by intros [= <-]|apply Hr].
Qed.

Lemma remove_handle_ok st c st' r :
  interface_ok st -> remove_handle st c = (st', r) ->
  interface_ok st' /\ r = circuits st !! c /\ circuits st' = delete c (circuits st).
Proof.
  intros Hok. unfold remove_handle. destruct (circuits st !! c) as [h|] eqn:Hc; intros [= <- <-].
  - destruct Hok as [Hinv Hr Hn]. pose proof (Hr _ _ Hc) as Hh.
    set (st1 := mkInterfaceHandleState _ _ _). destruct (note_reusable_same st1 h) as [Ec Eo].
    split_and!; [|done|by rewrite Ec].
    apply (interface_ok_same st1); [done|by apply note_reusable_next|]. split; [|cbn|done].
    + intros c' h'. cbn. rewrite !lookup_delete. apply Hinv in Hc as Ho.
      destruct (decide (c = c')) as [<-|], (decide (h = h')) as [<-|]; try done.
      * apply Hinv in Hc. split; [done|]. rewrite <- Hinv. apply Hinv in Hc. congruence.
      * split; [|done]. rewrite Hinv. congruence.
    + intros c' h'. rewrite lookup_delete. case_decide; [done|apply Hr].
  - split_and!; [done|done|]. by rewrite delete_id.
Qed.

(** ** The search for a free handle *)

Lemma scan_loop_spec st reserved retired n : forall h,
  match scan_loop st reserved retired n h with
  | Some r => h <= r < h + Z.of_nat n /\ unavailable st reserved retired r = false
              /\ forall x, h <= x < r -> unavailable st reserved retired x = true
  | None => forall x, h <= x < h + Z.of_nat n -> unavailable st reserved retired x = true
  end.
Proof.
  induction n as [|n IH]; intros h; cbn [scan_loop]; [lia|].
  destruct (unavailable st reserved retired h) eqn:Hu; [|split_and!; [lia|lia|done|lia]].
  specialize (IH (h + 1)). destruct (scan_loop st reserved retired n (h + 1)) as [r|].
  - destruct IH as (Hr & Hfree & Hall). split_and!; [lia|lia|done|]. intros x Hx.
    destruct (decide (x = h)) as [->|]; [done|apply Hall; lia].
  - intros x Hx. destruct (decide (x = h)) as [->|]; [done|apply IH; lia].
Qed.

Lemma scan_available_spec st a b reserved retired :
  match scan_available st a b reserved retired with
  | Some r => a <= r <= b /\ unavailable st reserved retired r = false
  | None => forall x, a <= x <= b -> unavailable st reserved retired x = true
  end.
Proof.
  unfold scan_available. destruct (Z.ltb_spec b a); [lia|].
  pose proof (scan_loop_spec st reserved retired (Z.to_nat (b - a + 1)) a) as Hs.
  destruct (scan_loop _ _ _ _ _); [destruct Hs as (? & ? & _); split; [lia|done]|intros x Hx; apply Hs; lia].
Qed.

Lemma first_available_spec st reserved retired ranges :
  match first_available st reserved retired ranges with
  | Some r => (exists a b, (a, b) ∈ ranges /\ (a <= r <= b)) /\ unavailable st reserved retired r = false
  | None => forall a b x, (a, b) ∈ ranges -> a <= x <= b -> unavailable st reserved retired x = true
  end.
Proof.
  induction ranges as [|[a b] ranges IH]; cbn [first_available]; [by intros a b x ?%elem_of_nil|].
  pose proof (scan_available_spec st a b reserved retired) as Hs.
  destruct (scan_available st a b reserved retired) as [r|].
  - destruct Hs. split; [|done]. exists a, b. split; [left|done].
  - destruct (first_available st reserved retired ranges) as [r|].
    + destruct IH as [(a' & b' & Hin & Hr) Hu]. split; [|done]. exists a', b'. split; [by right|done].
    + intros a' b' x [[= -> ->]|Hin]%elem_of_cons Hx; [by apply Hs|by eapply IH].
Qed.

(** The four ranges are the dynamic handles. *)
Lemma candidate_ranges_sound n a b x :
  dynamic_handle n -> (a, b) ∈ candidate_ranges n -> a <= x <= b -> dynamic_handle x.
Proof.
  unfold dynamic_handle, candidate_ranges, PREFERRED_CIRCUIT_START, MAX_DYNAMIC_HANDLE_MAJOR.
  rewrite !elem_of_app. intros Hn Hin Hx. destruct (n <? 0x9000) eqn:Hlow, (0x9000 <? n) eqn:Hhigh;
    repeat case_match; to_prop; destruct Hin as [Hin|[Hin|[Hin|Hin]]];
    rewrite ?list_elem_of_singleton, ?elem_of_nil in Hin; try done; simplify_eq; lia.
Qed.

Lemma candidate_ranges_complete n x :
  dynamic_handle n -> dynamic_handle x -> exists a b, (a, b) ∈ candidate_ranges n /\ a <= x <= b.
Proof.
  unfold dynamic_handle, candidate_ranges, PREFERRED_CIRCUIT_START, MAX_DYNAMIC_HANDLE_MAJOR. intros Hn Hx.
  destruct (decide (n <= x)) as [Hnx|Hnx].
  { exists n, 0xFFFE. split; [by left|lia]. }
  destruct (decide (0x9000 <= x)) as [Hp|Hp].
  { exists 0x9000, (n - 1). rewrite (proj2 (Z.ltb_lt 0x9000 n)) by lia. split; [by right; left|lia]. }
  destruct (Z.ltb_spec n 0x9000) as [Hlow|Hlow].
  - rewrite Z.max_l by lia. exists 1, (n - 1). rewrite (proj2 (Z.ltb_lt 1 n)) by lia.
    rewrite !elem_of_app. split; [right; right; right; by left|lia].
  - exists 1, 0x8FFF. rewrite !elem_of_app. split; [right; right; left; by left|lia].
Qed.

(** [next_free_handle] finds a free handle exactly when there is one. *)
Lemma next_free_spec st reserved retired st' r :
  dynamic_handle (next_candidate st) -> next_free_handle st reserved retired = (st', r) ->
  same_handles st st' /\ dynamic_handle (next_candidate st')
  /\ match r with
     | Some h => dynamic_handle h /\ unavailable st reserved retired h = false
     | None => forall x, dynamic_handle x -> unavailable st reserved retired x = true
     end.
Proof.
  intros Hn. unfold next_free_handle.
  pose proof (first_available_spec st reserved retired (candidate_ranges (next_candidate st))) as Hs.
  destruct (first_available _ _ _ _) as [h|]; intros [= <- <-].
  - destruct Hs as [(a & b & Hin & Hh) Hu]. pose proof (candidate_ranges_sound _ _ _ _ Hn Hin Hh) as Hd.
    split_and!; [done|by apply advance_range|done|done].
  - split_and!; [done|done|]. intros x Hx.
    destruct (candidate_ranges_complete _ _ Hn Hx) as (a & b & Hin & Hab). by eapply Hs.
Qed.

Lemma unavailable_false st reserved retired h :
  unavailable st reserved retired h = false
  <-> (h ∉ reserved) /\ owners st !! h = None /\ (h ∉ default ∅ retired).
Proof.
  unfold unavailable. rewrite !orb_false_iff, !bool_decide_eq_false, <- eq_None_not_Some.
  destruct retired; cbn; rewrite ?bool_decide_eq_false; set_solver.
Qed.

(** ** The invariant of all interfaces *)

Record handles_ok (s : QdiscHandleState) : Prop := {
  ok_interface : forall i, interface_ok (interface_state s i);
  ok_hashes : forall i c h, circuits (interface_state s i) !! c = Some h -> i64_ok c;
  ok_retired : forall i h, h ∈ set_at (retired_handles s) i ->
    owners (interface_state s i) !! h = None /\ dynamic_handle h
}.

Lemma circuit_handle_state s i c : circuit_handle s i c = circuits (interface_state s i) !! c.
Proof.
  unfold circuit_handle, interface_state. destruct (interfaces s !! i); cbn; [done|by rewrite lookup_empty].
Qed.

Lemma interface_state_insert s i st retired j :
  interface_state (mkQdiscHandleState (<[i := st]> (interfaces s)) retired) j
  = if decide (i = j) then st else interface_state s j.
Proof. unfold interface_state. cbn. rewrite lookup_insert. by case_decide. Qed.

(** Replacing the state of one interface. *)
Lemma handles_ok_insert s i st retired :
  handles_ok s -> interface_ok st ->
  (forall c h, circuits st !! c = Some h -> i64_ok c) ->
  (forall h, h ∈ set_at retired i -> owners st !! h = None /\ dynamic_handle h) ->
  (forall j, j <> i -> set_at retired j = set_at (retired_handles s) j) ->
  handles_ok (mkQdiscHandleState (<[i := st]> (interfaces s)) retired).
Proof.
  intros Hok Hst Hc Hr Hother.
  split; intros j; rewrite interface_state_insert; case_decide as Hj; subst; try done; cbn;
    rewrite ?Hother by done; apply Hok.
Qed.

Definition op_interface_frame (i : rstring) (c : Z) (s s' : QdiscHandleState) : Prop :=
  forall j d, (j, d) <> (i, c) -> circuit_handle s' j d = circuit_handle s j d.

(** A new handle for a circuit, after the search. *)
Lemma allocate_spec s i c reserved retired st h :
  handles_ok s -> i64_ok c ->
  next_free_handle (interface_state s i) reserved (retired_handles s !! i) = (st, Some h) ->
  (forall j, j <> i -> set_at retired j = set_at (retired_handles s) j) ->
  (forall x, x ∈ set_at retired i -> x ∈ set_at (retired_handles s) i \/ circuit_handle s i c = Some x) ->
  let s' := mkQdiscHandleState (<[i := insert_handle st c h]> (interfaces s)) retired in
  handles_ok s' /\ dynamic_handle h /\ (h ∉ reserved) /\ (h ∉ set_at (retired_handles s) i)
  /\ (forall d, circuit_handle s i d <> Some h)
  /\ circuit_handle s' i c = Some h /\ op_interface_frame i c s s'.
Proof.
  intros Hok Hc Hnext Hother Hret. cbn zeta. pose proof (ok_interface s Hok i) as Hi.
  destruct (next_free_spec _ _ _ _ _ (iface_next _ Hi) Hnext) as ([Ec Eo] & Hn & Hd & Hfree).
  apply unavailable_false in Hfree as (Hnr & Hno & Hnret).
  assert (interface_ok st) as Hst by (by apply (interface_ok_same (interface_state s i))).
  rewrite <- Eo in Hno. pose proof (insert_handle_ok st c h Hst Hno Hd) as Hok'.
  destruct (insert_handle_spec st c h (iface_inverse _ Hst) Hno) as [Ec' Eo'].
  assert (forall d, circuit_handle s i d <> Some h) as Hnone.
  { intros d. rewrite circuit_handle_state, <- Ec, (iface_inverse _ Hst). congruence. }
  split_and!; try done.
  - apply handles_ok_insert; [done|done| | |done].
    + intros d x. rewrite Ec', lookup_insert, Ec. case_decide; [by subst|apply (ok_hashes s Hok)].
    + intros x Hx. apply Hret in Hx as [Hx|Hx].
      * destruct (ok_retired s Hok i x Hx) as [Hxo Hxd]. split; [|done]. rewrite Eo', lookup_insert.
        case_decide; [by subst|]. rewrite Eo. case_match; [|done]. by rewrite lookup_delete, Hxo; case_decide.
      * assert (x <> h) by (by intros ->; apply (Hnone c)). rewrite circuit_handle_state, <- Ec in Hx.
        split; [|by apply (iface_range _ Hst c)]. rewrite Eo', lookup_insert_ne, Hx by done. apply lookup_delete_eq.
  - rewrite circuit_handle_state, interface_state_insert, decide_True, Ec' by done. apply lookup_insert_eq.
  - intros j d Hne. rewrite !circuit_handle_state, interface_state_insert. case_decide; [subst|done].
    rewrite Ec', lookup_insert_ne, Ec by congruence. done.
Qed.

(** A search that finds nothing. *)
Lemma exhausted_spec s i reserved st :
  handles_ok s ->
  next_free_handle (interface_state s i) reserved (retired_handles s !! i) = (st, None) ->
  let s' := mkQdiscHandleState (<[i := st]> (interfaces s)) (retired_handles s) in
  handles_ok s' /\ (forall j d, circuit_handle s' j d = circuit_handle s j d)
  /\ forall h, dynamic_handle h ->
      h ∈ reserved \/ h ∈ set_at (retired_handles s) i \/ exists d, circuit_handle s i d = Some h.
Proof.
  intros Hok Hnext. cbn zeta. pose proof (ok_interface s Hok i) as Hi.
  destruct (next_free_spec _ _ _ _ _ (iface_next _ Hi) Hnext) as ([Ec Eo] & Hn & Hall).
  split_and!.
  - apply handles_ok_insert; [done|by apply (interface_ok_same (interface_state s i))| | |done].
    + intros c h. rewrite Ec. apply (ok_hashes s Hok).
    + intros h. rewrite Eo. apply (ok_retired s Hok).
  - intros j d. rewrite !circuit_handle_state, interface_state_insert. case_decide; [subst|done]. by rewrite Ec.
  - intros h Hh. specialize (Hall h Hh). destruct (decide (h ∈ reserved)) as [|Hr]; [by left|].
    destruct (decide (h ∈ set_at (retired_handles s) i)) as [|Hret]; [by right; left|]. right. right.
    destruct (owners (interface_state s i) !! h) as [d|] eqn:Ho.
    + exists d. by rewrite circuit_handle_state, (iface_inverse _ Hi).
    + apply not_false_iff_true in Hall. destruct Hall. by apply unavailable_false.
Qed.

(** ** The operations *)

(** Whatever the circuit held, [assign_circuit_handle] keeps its own unreserved handle or allocates. *)
Lemma assign_cases s i c reserved :
  handles_ok s ->
  assign_circuit_handle s i c reserved =
  match circuit_handle s i c with
  | Some h =>
      if bool_decide (h ∈ reserved) then
        match next_free_handle (interface_state s i) reserved (retired_handles s !! i) with
        | (st, None) => (mkQdiscHandleState (<[i := st]> (interfaces s)) (retired_handles s), None)
        | (st, Some next) =>
            (mkQdiscHandleState (<[i := insert_handle st c next]> (interfaces s)) (retired_handles s), Some next)
        end
      else (s, Some h)
  | None =>
      match next_free_handle (interface_state s i) reserved (retired_handles s !! i) with
      | (st, None) => (mkQdiscHandleState (<[i := st]> (interfaces s)) (retired_handles s), None)
      | (st, Some next) =>
          (mkQdiscHandleState (<[i := insert_handle st c next]> (interfaces s)) (retired_handles s), Some next)
      end
  end.
Proof.
  intros Hok. unfold assign_circuit_handle. destruct (circuit_handle s i c) as [h|] eqn:Hh; [|done].
  destruct (bool_decide (h ∈ reserved)); cbn [negb andb]; [done|].
  rewrite bool_decide_eq_true_2; [done|]. rewrite circuit_handle_state in Hh.
  pose proof (ok_interface s Hok i) as Hi. apply (iface_inverse _ Hi) in Hh.
  unfold interface_state in Hh. unfold owner_of. by destruct (interfaces s !! i).
Qed.

Lemma set_at_default {K V} `{Countable K, Countable V} (m : gmap K (gset V)) k : default ∅ (m !! k) = set_at m k.
Proof. done. Qed.

Lemma assign_ok s i c reserved :
  handles_ok s -> i64_ok c -> handles_ok (assign_circuit_handle s i c reserved).1.
Proof.
  intros Hok Hc. rewrite assign_cases by done.
  destruct (next_free_handle _ _ _) as [st [h|]] eqn:Hnext.
  - pose proof (allocate_spec s i c reserved (retired_handles s) st h Hok Hc Hnext ltac:(done) ltac:(by left)) as Ha.
    repeat case_match; cbn; try done; apply Ha.
  - destruct (exhausted_spec s i reserved st Hok Hnext) as [Ha _]. by repeat case_match.
Qed.

Lemma rotate_retired s i c j :
  set_at (match circuit_handle s i c with
          | Some handle => entry_insert (retired_handles s) i handle | None => retired_handles s end) j
  = if decide (j = i) then option_to_set (circuit_handle s i c) ∪ set_at (retired_handles s) i
    else set_at (retired_handles s) j.
Proof.
  destruct (circuit_handle s i c) as [h|]; cbn.
  - rewrite set_at_insert. by case_decide.
  - case_decide; [subst|done]. by rewrite union_empty_l_L.
Qed.

Lemma rotate_spec s i c reserved s' r :
  handles_ok s -> i64_ok c -> rotate_circuit_handle s i c reserved = (s', r) ->
  handles_ok s'
  /\ match r with
     | Some h => dynamic_handle h /\ (h ∉ reserved) /\ (h ∉ set_at (retired_handles s) i)
                 /\ (forall d, circuit_handle s i d <> Some h)
                 /\ circuit_handle s' i c = Some h /\ op_interface_frame i c s s'
                 /\ set_at (retired_handles s') i = option_to_set (circuit_handle s i c) ∪ set_at (retired_handles s) i
     | None => (forall j d, circuit_handle s' j d = circuit_handle s j d) /\ retired_handles s' = retired_handles s
     end
  /\ forall j, j <> i -> set_at (retired_handles s') j = set_at (retired_handles s) j.
Proof.
  intros Hok Hc. unfold rotate_circuit_handle.
  set (retired := match circuit_handle s i c with Some _ => _ | None => _ end).
  assert (forall j, set_at retired j = if decide (j = i)
    then option_to_set (circuit_handle s i c) ∪ set_at (retired_handles s) i else set_at (retired_handles s) j)
    as Hret by (intros j; apply rotate_retired). clearbody retired.
  destruct (next_free_handle _ _ _) as [st [h|]] eqn:Hnext; intros [= <- <-].
  - destruct (allocate_spec s i c reserved retired st h Hok Hc Hnext) as (Hok' & Ha).
    + intros j Hj. by rewrite Hret, decide_False.
    + intros x. rewrite Hret, decide_True by done. intros [Hx|Hx]%elem_of_union; [right|by left].
      destruct (circuit_handle s i c); cbn in Hx; set_solver.
    + split_and!; [done|apply Ha..| |]; cbn.
      * by rewrite Hret, decide_True.
      * intros j Hj. by rewrite Hret, decide_False.
  - destruct (exhausted_spec s i reserved st Hok Hnext) as (Ha & Hb & _). by split_and!.
Qed.

Lemma release_spec s i c s' b :
  handles_ok s -> release_circuit s i c = (s', b) ->
  handles_ok s' /\ b = bool_decide (is_Some (circuit_handle s i c)) /\ circuit_handle s' i c = None
  /\ op_interface_frame i c s s' /\ retired_handles s' = retired_handles s.
Proof.
  intros Hok. unfold release_circuit. destruct (interfaces s !! i) as [st|] eqn:Hi.
  - assert (interface_state s i = st) as Hst by (unfold interface_state; by rewrite Hi).
    destruct (remove_handle st c) as [st' r] eqn:Hrem. intros [= <- <-].
    pose proof (ok_interface s Hok i) as Hio. rewrite Hst in Hio.
    destruct (remove_handle_ok st c st' r Hio Hrem) as (Hok' & -> & Ec).
    assert (forall h, owners st !! h = None -> owners st' !! h = None) as Hown.
    { intros h Hh. destruct (owners st' !! h) as [d|] eqn:Hd; [|done]. apply (iface_inverse _ Hok') in Hd.
      rewrite Ec in Hd. apply lookup_delete_Some in Hd as [_ Hd]. apply (iface_inverse _ Hio) in Hd. congruence. }
    split_and!.
    + apply handles_ok_insert; [done|done| | |done].
      * intros d h. rewrite Ec. intros [_ Hd]%lookup_delete_Some. apply (ok_hashes s Hok i d h). by rewrite Hst.
      * intros h Hh. destruct (ok_retired s Hok i h Hh) as [Ho Hd]. rewrite Hst in Ho. auto.
    + by rewrite circuit_handle_state, Hst.
    + by rewrite circuit_handle_state, interface_state_insert, decide_True, Ec, lookup_delete_eq.
    + intros j d Hne. rewrite !circuit_handle_state, interface_state_insert. case_decide; [subst|done].
      rewrite Ec, lookup_delete_ne by congruence. done.
    + done.
  - intros [= <- <-]. assert (circuit_handle s i c = None) as Hn by (unfold circuit_handle; by rewrite Hi).
    rewrite Hn. by split_and!.
Qed.

Lemma note_all_spec l : forall st,
  Forall dynamic_handle l -> interface_ok st ->
  same_handles st (fold_left note_reusable_handle l st) /\ interface_ok (fold_left note_reusable_handle l st).
Proof.
  induction l as [|h l IH]; intros st Hl Hst; cbn; [done|]. apply Forall_cons in Hl as [Hh Hl].
  assert (interface_ok (note_reusable_handle st h)) as Hok.
  { apply (interface_ok_same st); [apply note_reusable_same| |done]. apply note_reusable_next; [done|apply Hst]. }
  destruct (IH _ Hl Hok) as [Hsame Hok']. split; [|done]. etrans; [apply note_reusable_same|done].
Qed.

(** Clearing touches only the candidates. *)
Lemma clear_loop_spec l : forall ifaces,
  (forall i st, ifaces !! i = Some st -> interface_ok st) ->
  Forall (fun e => forall h, h ∈ e.2 -> dynamic_handle h) l ->
  forall i, match ifaces !! i with
    | Some st => exists st', fold_left clear_retired_on l ifaces !! i = Some st'
                             /\ same_handles st st' /\ interface_ok st'
    | None => fold_left clear_retired_on l ifaces !! i = None
    end.
Proof.
  induction l as [|[j hs] l IH]; intros ifaces Hok Hl i; cbn [fold_left].
  - destruct (ifaces !! i) as [st|] eqn:Hi; [|done]. exists st. split_and!; [done|done|by eapply Hok].
  - apply Forall_cons in Hl as [Hhs Hl]. cbn in Hhs.
    change (clear_retired_on ifaces (j, hs)) with (match ifaces !! j with
      | None => ifaces
      | Some st => <[j := fold_left note_reusable_handle (btree_set_iter hs) st]> ifaces end).
    destruct (ifaces !! j) as [st|] eqn:Hj; [|by apply IH].
    assert (Forall dynamic_handle (btree_set_iter hs)) as Hd.
    { apply Forall_forall. intros h. rewrite elem_of_btree_set_iter. apply Hhs. }
    destruct (note_all_spec _ st Hd (Hok _ _ Hj)) as [Hsame Hnok].
    assert (forall k st', <[j := fold_left note_reusable_handle (btree_set_iter hs) st]> ifaces !! k = Some st' ->
      interface_ok st') as Hok'.
    { intros k st'. rewrite lookup_insert. case_decide; [by intros [= <-]|apply Hok]. }
    specialize (IH _ Hok' Hl i). rewrite lookup_insert in IH. case_decide; [subst|done]. rewrite Hj.
    destruct IH as (st' & Hst' & Hs' & Hok2). exists st'. split_and!; [done| |done]. by etrans.
Qed.

Lemma clear_spec s :
  handles_ok s ->
  handles_ok (clear_retired_handles s)
  /\ (forall i c, circuit_handle (clear_retired_handles s) i c = circuit_handle s i c).
Proof.
  intros Hok.
  assert (forall i, same_handles (interface_state s i) (interface_state (clear_retired_handles s) i)
    /\ interface_ok (interface_state (clear_retired_handles s) i)) as Hall.
  { intros i. assert (forall j st, interfaces s !! j = Some st -> interface_ok st) as Hst.
    { intros j st Hj. pose proof (ok_interface s Hok j) as Hjo. unfold interface_state in Hjo. by rewrite Hj in Hjo. }
    assert (Forall (fun e => forall h, h ∈ e.2 -> dynamic_handle h) (btree_iter (retired_handles s))) as Hret.
    { apply Forall_forall. intros [j hs] Hin h Hh. apply elem_of_btree_iter in Hin. cbn in Hh.
      apply (ok_retired s Hok j h). unfold set_at. by rewrite Hin. }
    pose proof (clear_loop_spec _ _ Hst Hret i) as Hc.
    unfold interface_state. cbn [interfaces clear_retired_handles].
    destruct (interfaces s !! i) as [st|]; [by destruct Hc as (st' & -> & Hc)|rewrite Hc].
    split; [done|apply default_ok]. }
  split; [split|].
  - intros i. apply Hall.
  - intros i c h. destruct (Hall i) as [[-> _] _]. apply (ok_hashes s Hok).
  - intros i h Hh. unfold set_at in Hh. cbn in Hh. rewrite lookup_empty in Hh. set_solver.
  - intros i c. rewrite !circuit_handle_state. by destruct (Hall i) as [[-> _] _].
Qed.

(** ** Persistence *)

Lemma i64_to_string_inj a b : i64_ok a -> i64_ok b -> i64_to_string a = i64_to_string b -> a = b.
Proof. intros Ha%parse_i64_to_string Hb%parse_i64_to_string Heq. congruence. Qed.

Lemma persisted_circuits_lookup (m : gmap Z Z) t v :
  (forall c h, m !! c = Some h -> i64_ok c) ->
  (list_to_map (map (fun '(hash, handle) => (i64_to_string hash, handle)) (btree_iter m)) : gmap rstring Z) !! t
    = Some v <-> exists c, m !! c = Some v /\ t = i64_to_string c.
Proof.
  intros Hok. rewrite <- elem_of_list_to_map.
  - change (map (fun '(hash, handle) => (i64_to_string hash, handle)) (btree_iter m))
      with ((fun '(hash, handle) => (i64_to_string hash, handle)) <$> btree_iter m).
    rewrite list_elem_of_fmap. split.
    + intros ([c h] & [= -> ->] & Hin%elem_of_btree_iter). eauto.
    + intros (c & Hc & ->). exists (c, v). by rewrite elem_of_btree_iter.
  - replace ((map (fun '(hash, handle) => (i64_to_string hash, handle)) (btree_iter m)).*1)
      with (i64_to_string <$> map fst (btree_iter m)).
    + apply NoDup_fmap_2_strong; [|apply NoDup_btree_iter].
      assert (forall c, c ∈ map fst (btree_iter m) -> i64_ok c) as Hin.
      { intros c Hc. apply (list_elem_of_fmap_1 fst) in Hc as ([c' h] & -> & Hc'). apply elem_of_btree_iter in Hc'. eauto. }
      intros a b Ha Hb. apply i64_to_string_inj; auto.
    + induction (btree_iter m) as [|[c h] l IH]; cbn; [done|]. by f_equal.
Qed.

Lemma load_circuits_persisted (m : gmap Z Z) :
  (forall c h, m !! c = Some h -> i64_ok c) ->
  load_circuits (list_to_map (map (fun '(hash, handle) => (i64_to_string hash, handle)) (btree_iter m))) = m.
Proof.
  intros Hok. set (entry := list_to_map _). apply map_eq. intros c. apply option_eq. intros v.
  assert (forall t h, (t, h) ∈ btree_iter entry -> exists c', m !! c' = Some h /\ t = i64_to_string c') as Hin.
  { intros t h Ht%elem_of_btree_iter. by apply persisted_circuits_lookup in Ht. }
  unfold load_circuits. rewrite lookup_insert_all.
  - split.
    + intros [([t h] & Ht & Hp & Hv)|[_ Hno]]; [|by rewrite lookup_empty in Hno]. cbn in Hv. subst.
      destruct (Hin t v Ht) as (c' & Hc' & ->). rewrite parse_i64_to_string in Hp by eauto. congruence.
    + intros Hc. left. exists (i64_to_string c, v). rewrite elem_of_btree_iter, parse_i64_to_string by eauto.
      split_and!; [|done|done]. apply persisted_circuits_lookup; eauto.
  - intros [t h] [t' h'] Ht Ht' Hp Hp'. destruct (Hin t h Ht) as (d & Hd & ->), (Hin t' h' Ht') as (d' & Hd' & ->).
    rewrite parse_i64_to_string in Hp, Hp' by eauto. cbn. congruence.
Qed.

Lemma from_circuits_ok (m : gmap Z Z) :
  (forall c c' h, m !! c = Some h -> m !! c' = Some h -> c = c') ->
  (forall c h, m !! c = Some h -> dynamic_handle h) -> interface_ok (from_circuits m).
Proof.
  intros Hinj Hr. split; [|exact Hr|done]. intros c h. cbn. rewrite lookup_insert_all.
  - split.
    + intros Hc. left. exists (c, h). by rewrite elem_of_btree_iter.
    + intros [([c' h'] & Hin & [= ->] & Hc)|[_ Hno]]; [|by rewrite lookup_empty in Hno]. cbn in Hc. subst.
      by apply elem_of_btree_iter in Hin.
  - intros [a x] [b y] Ha Hb [= ->] [= ->]. apply elem_of_btree_iter in Ha, Hb. cbn. by eapply Hinj.
Qed.

Lemma load_persisted s :
  handles_ok s ->
  handles_ok (load (Some (persisted s)))
  /\ (forall i c, circuit_handle (load (Some (persisted s))) i c = circuit_handle s i c).
Proof.
  intros Hok. set (s' := load (Some (persisted s))).
  assert (forall i, interface_state s' i = from_circuits (circuits (interface_state s i))
                    \/ (circuits (interface_state s i) = ∅ /\ interface_state s' i = InterfaceHandleState_default)) as Hst.
  { intros i. pose proof (ok_hashes s Hok i) as Hh. unfold interface_state in *. cbn.
    rewrite !lookup_fmap. destruct (interfaces s !! i) as [st|]; cbn in *; [left|by right].
    by rewrite load_circuits_persisted. }
  assert (forall i, interface_ok (interface_state s' i)
                    /\ circuits (interface_state s' i) = circuits (interface_state s i)) as Hall.
  { intros i. destruct (ok_interface s Hok i) as [Hinv Hr _].
    destruct (Hst i) as [->|[-> ->]]; [|split; [apply default_ok|done]]. split; [|done].
    apply from_circuits_ok; [|done]. intros c c' h Hc%Hinv Hc'%Hinv. congruence. }
  split; [split|].
  - intros i. apply Hall.
  - intros i c h. destruct (Hall i) as [_ ->]. apply (ok_hashes s Hok).
  - intros i h Hh. unfold set_at in Hh. cbn in Hh. rewrite lookup_empty in Hh. set_solver.
  - intros i c. rewrite !circuit_handle_state. by destruct (Hall i) as [_ ->].
Qed.

(** ** Sequences of operations *)

Inductive HandleOp : Type :=
| Op_Assign (interface : rstring) (circuit_hash : Z) (reserved : gset Z)
| Op_Rotate (interface : rstring) (circuit_hash : Z) (reserved : gset Z)
| Op_Release (interface : rstring) (circuit_hash : Z)
| Op_Clear
| Op_Restart.

(** A circuit hash is an [i64]. *)
Definition op_ok (op : HandleOp) : Prop :=
  match op with Op_Assign _ c _ | Op_Rotate _ c _ | Op_Release _ c => i64_ok c | _ => True end.

Definition handle_step (s : QdiscHandleState) (op : HandleOp) : QdiscHandleState :=
  match op with
  | Op_Assign i c reserved => (assign_circuit_handle s i c reserved).1
  | Op_Rotate i c reserved => (rotate_circuit_handle s i c reserved).1
  | Op_Release i c => (release_circuit s i c).1
  | Op_Clear => clear_retired_handles s
  | Op_Restart => load (Some (persisted s))
  end.
Definition handle_steps (s : QdiscHandleState) (ops : list HandleOp) : QdiscHandleState :=
  fold_left handle_step ops s.

Lemma handle_step_ok s op : op_ok op -> handles_ok s -> handles_ok (handle_step s op).
Proof.
  intros Hop Hok. destruct op as [i c reserved|i c reserved|i c| |]; cbn in *.
  - by apply assign_ok.
  - destruct (rotate_circuit_handle s i c reserved) as [s' r] eqn:Hr. by eapply rotate_spec in Hr as [? _].
  - destruct (release_circuit s i c) as [s' b] eqn:Hr. by eapply release_spec in Hr as [? _].
  - by apply clear_spec.
  - by apply load_persisted.
Qed.

Lemma default_handles_ok : handles_ok QdiscHandleState_default.
Proof.
  assert (forall i, interface_state QdiscHandleState_default i = InterfaceHandleState_default) as Hst.
  { intros i. unfold interface_state. cbn. by rewrite lookup_empty. }
  split; intros i; rewrite ?Hst.
  - apply default_ok.
  - intros c h. cbn. by rewrite lookup_empty.
  - intros h Hh. unfold set_at in Hh. cbn in Hh. rewrite lookup_empty in Hh. set_solver.
Qed.

Lemma handle_steps_ok ops : forall s, Forall op_ok ops -> handles_ok s -> handles_ok (handle_steps s ops).
Proof.
  induction ops as [|op ops IH]; intros s Hops Hok; [done|]. apply Forall_cons in Hops as [Hop Hops].
  apply IH; [done|]. by apply handle_step_ok.
Qed.

(** ** Retirement *)

Definition clears (op : HandleOp) : Prop := match op with Op_Clear | Op_Restart => True | _ => False end.

Lemma retired_grows s op i :
  handles_ok s -> op_ok op -> ~ clears op ->
  set_at (retired_handles s) i ⊆ set_at (retired_handles (handle_step s op)) i.
Proof.
  intros Hok Hop Hcl. destruct op as [j c reserved|j c reserved|j c| |]; cbn in *; try done.
  - rewrite assign_cases by done. by repeat case_match.
  - destruct (rotate_circuit_handle s j c reserved) as [s' r] eqn:Hr. cbn.
    destruct (rotate_spec _ _ _ _ _ _ Hok Hop Hr) as (_ & Hm & Hother).
    destruct (decide (i = j)) as [->|Hij]; [|by rewrite Hother].
    destruct r as [h|]; [destruct Hm as (_ & _ & _ & _ & _ & _ & ->); set_solver|by destruct Hm as [_ ->]].
  - destruct (release_circuit s j c) as [s' b] eqn:Hr. cbn.
    destruct (release_spec _ _ _ _ _ Hok Hr) as (_ & _ & _ & _ & ->). done.
Qed.

Lemma retired_grows_steps ops i : forall s,
  handles_ok s -> Forall op_ok ops -> Forall (fun op => ~ clears op) ops ->
  set_at (retired_handles s) i ⊆ set_at (retired_handles (handle_steps s ops)) i.
Proof.
  induction ops as [|op ops IH]; intros s Hok Hops Hcl; [done|].
  apply Forall_cons in Hops as [Hop Hops], Hcl as [Hc Hcl].
  etrans; [by apply retired_grows|]. apply IH; [by apply handle_step_ok|done|done].
Qed.

(** ** The properties *)

(** C27: After any operations and restarts, no two circuits of an interface have the same handle; every
    handle in use is between 1 and 0xFFFE and not retired; and the owner index lists exactly the
    circuits with their handles. *)
Theorem handles_never_collide ops (Hops : Forall op_ok ops) :
  let s := handle_steps QdiscHandleState_default ops in
  (forall i c c' h, circuit_handle s i c = Some h -> circuit_handle s i c' = Some h -> c = c')
  /\ (forall i c h, circuit_handle s i c = Some h -> dynamic_handle h /\ (h ∉ set_at (retired_handles s) i))
  /\ (forall i c h, circuit_handle s i c = Some h <-> owner_of (interface_state s i) h = Some c).
Proof.
  cbn zeta. pose proof (handle_steps_ok ops _ Hops default_handles_ok) as Hok.
  generalize dependent (handle_steps QdiscHandleState_default ops). intros s Hok. unfold owner_of.
  setoid_rewrite circuit_handle_state. split_and!; intros i; destruct (ok_interface s Hok i) as [Hinv Hr _].
  - intros c c' h Hc%Hinv Hc'%Hinv. congruence.
  - intros c h Hc. split; [by eapply Hr|]. intros [Hno _]%(ok_retired s Hok). apply Hinv in Hc. congruence.
  - apply Hinv.
Qed.

Lemma assign_spec s i c reserved :
  handles_ok s -> i64_ok c ->
  match assign_circuit_handle s i c reserved with
  | (s', Some h) =>
      dynamic_handle h /\ (h ∉ reserved) /\ (h ∉ set_at (retired_handles s) i)
      /\ (forall d, d <> c -> circuit_handle s i d <> Some h)
      /\ circuit_handle s' i c = Some h
      /\ (forall old, circuit_handle s i c = Some old -> old ∉ reserved -> h = old /\ s' = s)
      /\ (forall j d, (j, d) <> (i, c) -> circuit_handle s' j d = circuit_handle s j d)
  | (s', None) =>
      (forall h, dynamic_handle h ->
         h ∈ reserved \/ h ∈ set_at (retired_handles s) i \/ exists d, circuit_handle s i d = Some h)
      /\ (forall old, circuit_handle s i c = Some old -> old ∈ reserved)
      /\ (forall j d, circuit_handle s' j d = circuit_handle s j d)
  end.
Proof.
  intros Hok Hc. rewrite assign_cases by done.
  destruct (next_free_handle _ _ _) as [st r] eqn:Hnext.
  assert (forall old, circuit_handle s i c = Some old ->
    dynamic_handle old /\ (old ∉ set_at (retired_handles s) i)
    /\ forall d, d <> c -> circuit_handle s i d <> Some old) as Hold.
  { intros old. setoid_rewrite circuit_handle_state. intros Ho. destruct (ok_interface s Hok i) as [Hinv Hr _].
    pose proof Ho as Hown. apply Hinv in Hown. split_and!; [by eapply Hr| |].
    - intros [Hno _]%(ok_retired s Hok). congruence.
    - intros d Hd Hx%Hinv. congruence. }
  destruct (circuit_handle s i c) as [old|] eqn:Ho.
  - case_bool_decide as Hres.
    + destruct r as [h|].
      * destruct (allocate_spec s i c reserved (retired_handles s) st h Hok Hc Hnext ltac:(done) ltac:(by left))
          as (_ & Hd & Hnr & Hnret & Hnew & Hgot & Hframe).
        split_and!; try done. by intros x [= <-].
      * destruct (exhausted_spec s i reserved st Hok Hnext) as (_ & Hsame & Hall).
        split_and!; [done|by intros x [= <-]|done].
    + destruct (Hold old eq_refl) as (Hd & Hret & Huniq). split_and!; try done. by intros x [= <-].
  - destruct r as [h|].
    + destruct (allocate_spec s i c reserved (retired_handles s) st h Hok Hc Hnext ltac:(done) ltac:(by left))
        as (_ & Hd & Hnr & Hnret & Hnew & Hgot & Hframe). split_and!; done.
    + destruct (exhausted_spec s i reserved st Hok Hnext) as (_ & Hsame & Hall). split_and!; done.
Qed.

(** [assign_circuit_handle] gives a circuit a handle that is not reserved, not retired and of no
    other circuit; it keeps the circuit's own handle, and the whole state, unless that handle is
    reserved; it changes no other circuit; and it fails exactly when every handle from 1 to 0xFFFE is
    reserved, retired or in use, and then changes no circuit. *)
Theorem assign_is_exact ops i c reserved (Hops : Forall op_ok ops) (Hc : i64_ok c) :
  let s := handle_steps QdiscHandleState_default ops in
  match assign_circuit_handle s i c reserved with
  | (s', Some h) =>
      dynamic_handle h /\ (h ∉ reserved) /\ (h ∉ set_at (retired_handles s) i)
      /\ (forall d, d <> c -> circuit_handle s i d <> Some h)
      /\ circuit_handle s' i c = Some h
      /\ (forall old, circuit_handle s i c = Some old -> old ∉ reserved -> h = old /\ s' = s)
      /\ (forall j d, (j, d) <> (i, c) -> circuit_handle s' j d = circuit_handle s j d)
  | (s', None) =>
      (forall h, dynamic_handle h ->
         h ∈ reserved \/ h ∈ set_at (retired_handles s) i \/ exists d, circuit_handle s i d = Some h)
      /\ (forall old, circuit_handle s i c = Some old -> old ∈ reserved)
      /\ (forall j d, circuit_handle s' j d = circuit_handle s j d)
  end.
Proof. cbn zeta. apply assign_spec; [apply (handle_steps_ok ops _ Hops default_handles_ok)|done]. Qed.

(** A rotated circuit gets a handle it did not have, and the one it had stays unused on its
    interface until retired handles are cleared or the allocator restarts, whatever is assigned,
    rotated or released in between. *)
Theorem rotated_handle_rests ops more i c reserved old
    (Hops : Forall op_ok ops) (Hc : i64_ok c) (Hmore : Forall op_ok more)
    (Hclear : Forall (fun op => ~ clears op) more) :
  let s := handle_steps QdiscHandleState_default ops in
  circuit_handle s i c = Some old ->
  match rotate_circuit_handle s i c reserved with
  | (s', Some h) =>
      h <> old /\ (h ∉ reserved) /\ circuit_handle s' i c = Some h
      /\ forall d, circuit_handle (handle_steps s' more) i d <> Some old
  | (s', None) => forall j d, circuit_handle s' j d = circuit_handle s j d
  end.
Proof.
  cbn zeta. pose proof (handle_steps_ok ops _ Hops default_handles_ok) as Hok.
  generalize dependent (handle_steps QdiscHandleState_default ops). intros s Hok Hold.
  destruct (rotate_circuit_handle s i c reserved) as [s' r] eqn:Hrot.
  destruct (rotate_spec _ _ _ _ _ _ Hok Hc Hrot) as (Hok' & Hr & _). destruct r as [h|]; [|apply Hr].
  destruct Hr as (Hd & Hnr & Hnret & Hnew & Hgot & _ & Hret). split_and!; [|done|done|].
  - intros ->. by apply (Hnew c).
  - intros d Hbad. rewrite circuit_handle_state in Hbad.
    pose proof (handle_steps_ok more s' Hmore Hok') as Hok2. destruct (ok_interface _ Hok2 i) as [Hinv _ _].
    apply Hinv in Hbad. destruct (ok_retired _ Hok2 i old) as [Hno _]; [|congruence].
    apply (retired_grows_steps more i s' Hok' Hmore Hclear). rewrite Hret, Hold. cbn. set_solver.
Qed.

(** What is saved loads back: after any operations every circuit keeps its handle on every
    interface across a restart and nothing is retired; with no file, or one of another version, no
    circuit has a handle. *)
Theorem handles_survive_restart ops (Hops : Forall op_ok ops) :
  let s := handle_steps QdiscHandleState_default ops in
  (forall i c, circuit_handle (load (Some (persisted s))) i c = circuit_handle s i c)
  /\ retired_handles (load (Some (persisted s))) = ∅
  /\ (forall file i c, from_option file_version 0 file <> QDISC_HANDLE_FILE_VERSION ->
        circuit_handle (load file) i c = None).
Proof.
  cbn zeta. pose proof (handle_steps_ok ops _ Hops default_handles_ok) as Hok.
  generalize dependent (handle_steps QdiscHandleState_default ops). intros s Hok.
  split_and!; [by apply load_persisted|done|]. intros file i c Hv.
  assert (load file = QdiscHandleState_default) as ->.
  { destruct file as [file|]; [|done]. cbn in Hv. unfold load. by rewrite (proj2 (Z.eqb_neq _ _) Hv). }
  unfold circuit_handle. cbn. by rewrite lookup_empty.
Qed.

(** ** A layout of four queues *)

Definition sample_layout : MqDeviceLayout := from_setup (str "eth0") (str "eth1") 4 0.
Definition sample_reserved : gset Z := reserved_handles sample_layout (str "eth0").
Definition sample_ops : list HandleOp :=
  [Op_Assign (str "eth0") 1 sample_reserved; Op_Assign (str "eth0") (-2) sample_reserved;
   Op_Rotate (str "eth0") 1 sample_reserved; Op_Restart].

Lemma sample_ops_ok : Forall op_ok sample_ops.
Proof. repeat constructor; done. Qed.

Lemma handles_never_collide_witness :
  circuit_handle (handle_steps QdiscHandleState_default sample_ops) (str "eth0") 1 = Some 0x9002
  /\ owner_of (interface_state (handle_steps QdiscHandleState_default sample_ops) (str "eth0")) 0x9002 = Some 1.
Proof.
  destruct (handles_never_collide sample_ops sample_ops_ok) as (_ & _ & Hinv).
  assert (circuit_handle (handle_steps QdiscHandleState_default sample_ops) (str "eth0") 1 = Some 0x9002) as Hh
    by by_compute.
  split; [exact Hh|exact (proj1 (Hinv _ _ _) Hh)].
Defined.

Lemma assign_is_exact_witness :
  (assign_circuit_handle (handle_steps QdiscHandleState_default sample_ops) (str "eth0") 7 sample_reserved).2
    = Some 0x9000
  /\ (0x9000 ∉ sample_reserved).
Proof.
  pose proof (assign_is_exact sample_ops (str "eth0") 7 sample_reserved sample_ops_ok ltac:(done)) as Hex.
  cbn zeta in Hex.
  assert ((assign_circuit_handle (handle_steps QdiscHandleState_default sample_ops) (str "eth0") 7 sample_reserved).2
    = Some 0x9000) as Hh by by_compute.
  destruct (assign_circuit_handle _ _ _ _) as [s' [h|]]; [|discriminate Hh]. cbn in Hh. injection Hh as ->.
  split; [done|apply Hex].
Defined.

Definition sample_more : list HandleOp :=
  [Op_Release (str "eth0") (-2); Op_Assign (str "eth0") 3 sample_reserved; Op_Assign (str "eth0") 4 sample_reserved].

Lemma rotated_handle_rests_witness :
  let s := handle_steps QdiscHandleState_default (take 2 sample_ops) in
  let s' := (rotate_circuit_handle s (str "eth0") 1 sample_reserved).1 in
  map (circuit_handle (handle_steps s' sample_more) (str "eth0")) [1; 3; 4] = [Some 0x9002; Some 0x9001; Some 0x9003]
  /\ forall d, circuit_handle (handle_steps s' sample_more) (str "eth0") d <> Some 0x9000.
Proof.
  cbn zeta. split; [by_compute|].
  pose proof (rotated_handle_rests (take 2 sample_ops) sample_more (str "eth0") 1 sample_reserved 0x9000
    ltac:(repeat constructor; done) ltac:(done) ltac:(repeat constructor; done)
    ltac:(repeat constructor; cbn; tauto) ltac:(by_compute)) as Hrot.
  assert ((rotate_circuit_handle (handle_steps QdiscHandleState_default (take 2 sample_ops)) (str "eth0") 1
    sample_reserved).2 = Some 0x9002) as Hh by by_compute.
  destruct (rotate_circuit_handle _ _ _ _) as [s' [h|]]; [|discriminate Hh]. apply Hrot.
Defined.

Lemma handles_survive_restart_witness :
  circuit_handle (load (Some (persisted (handle_steps QdiscHandleState_default sample_ops)))) (str "eth0") (-2)
  = Some 0x9001.
Proof.
  destruct (handles_survive_restart sample_ops sample_ops_ok) as [Heq _]. rewrite Heq. by_compute.
Defined.

(** ** Infrastructure handles *)

Lemma infra_qdisc_handle_small m slot :
  1 <= m <= 0x6FFE ->
  infra_qdisc_handle m slot = 0x2000 + 2 * m + match slot with Slot_Primary => 0 | Slot_Default => 1 end.
Proof.
  unfold infra_qdisc_handle, u16_saturating_add, u16_saturating_mul, u16_max, INFRA_HANDLE_BASE. destruct slot; lia.
Qed.

(** Below 4096 queues, root, queue and infrastructure handles are all different. *)
Lemma infra_handles_distinct m m' slot slot' :
  1 <= m < 0x1000 -> 1 <= m' < 0x1000 ->
  (infra_qdisc_handle m slot = infra_qdisc_handle m' slot' -> m = m' /\ slot = slot')
  /\ infra_qdisc_handle m slot <> m' /\ infra_qdisc_handle m slot <> MQ_ROOT_HANDLE_MAJOR.
Proof.
  intros Hm Hm'. rewrite !infra_qdisc_handle_small by lia. unfold MQ_ROOT_HANDLE_MAJOR.
  destruct slot, slot'; (split_and!; [intros Heq|lia|lia]); (split; [lia|]); done || lia.
Qed.
