(* ===== verification/ClassPlanner.v ===== *)
(** * Class identities of sites and circuits (crate [lqos_config], [planner.rs])

    [plan_class_identities]: every site and circuit of the queue tree gets a class minor on its queue,
    the one it had before when it did not move, else the next one that is not reserved.  A queue or a
    minor is a [u32] and a class number a [u16], all [Z]; [candidate += 1] wraps as in a release
    build.  The loops are the source's, over its [BTreeMap]s in key order; what a loop pushes and
    inserts for each site or circuit is built from the minor the loop chose. *)

From S2P Require Import Prelude RustStd RustCollections.

(** ** Data *)

Record SiteIdentityInput : Type := mkSiteIdentityInput {
  site_key : rstring;
  site_parent_path : rstring;
  site_queue : Z;
  has_children : bool
}.

Record CircuitIdentityGroupInput : Type := mkCircuitIdentityGroupInput {
  group_parent_node : rstring;
  group_queue : Z;
  circuit_ids : list rstring
}.

Record SiteIdentityAssignment : Type := mkSiteIdentityAssignment {
  assigned_site_key : rstring;
  assigned_site_queue : Z;
  assigned_site_minor : Z;
  assigned_site_major : Z;
  assigned_site_up_major : Z;
  assigned_site_parent_path : rstring
}.

Record CircuitIdentityAssignment : Type := mkCircuitIdentityAssignment {
  assigned_circuit_id : rstring;
  assigned_circuit_parent_node : rstring;
  assigned_circuit_queue : Z;
  assigned_circuit_minor : Z;
  assigned_circuit_major : Z;
  assigned_circuit_up_major : Z
}.

(** [PlannerSiteIdentityState] and [PlannerCircuitIdentityState] differ in the name of one field. *)
Record PlannerIdentityState : Type := mkPlannerIdentityState {
  stored_minor : Z;
  stored_queue : Z;
  stored_parent : rstring;
  stored_major : Z;
  stored_up_major : Z
}.

Abbreviation PlannerMinorReservations := (gmap Z (gset Z)) (only parsing).

Record ClassIdentityPlannerConstraints : Type := mkClassIdentityPlannerConstraints {
  reserved_site_minors : PlannerMinorReservations;
  reserved_circuit_minors : PlannerMinorReservations;
  site_minor_start : Z;
  circuit_minor_start : Z;
  stick_offset : Z;
  circuit_padding : Z
}.

Record ClassIdentityPlannerOutput : Type := mkClassIdentityPlannerOutput {
  out_sites : list SiteIdentityAssignment;
  out_circuits : list CircuitIdentityAssignment;
  out_site_state : gmap rstring PlannerIdentityState;
  out_circuit_state : gmap rstring PlannerIdentityState;
  last_used_minor_by_queue : gmap Z Z
}.

(** ** Minors *)

Definition u32_succ (n : Z) : Z := (n + 1) mod 2 ^ 32.

Fixpoint next_free_loop (fuel : nat) (candidate : Z) (reserved : gset Z) : Z :=
  match fuel with
  | O => candidate
  | S fuel' =>
      if bool_decide (candidate ∈ reserved) then next_free_loop fuel' (u32_succ candidate) reserved
      else candidate
  end.

(** One candidate more than there are reserved minors is enough. *)
Definition next_free_minor (start_minor : Z) (reserved : gset Z) : Z :=
  next_free_loop (S (size reserved)) (Z.max start_minor 3) reserved.

Definition valid_class_minor (class_minor : Z) : option Z :=
  if (3 <=? class_minor) && (class_minor <? u16_max) then Some class_minor else None.

Definition expected_class_majors (queue stick_offset : Z) : option (Z * Z) :=
  class_major ← u16_try_from queue;
  if 0 <? class_major then Some (class_major, u16_saturating_add class_major stick_offset) else None.

(** ** Minors kept from the previous plan *)

(** The guards of both [reserve_reusable] loops: the stored minor, when nothing has moved. *)
Definition reusable_minor (stored : option PlannerIdentityState) (queue : Z) (parent : rstring)
    (stick_offset : Z) : option Z :=
  stored ← stored;
  class_minor ← valid_class_minor (stored_minor stored);
  '(class_major, up_class_major) ← expected_class_majors queue stick_offset;
  if bool_decide (stored_queue stored = queue) && bool_decide (stored_parent stored = parent)
     && bool_decide (stored_major stored = class_major)
     && bool_decide (stored_up_major stored = up_class_major)
  then Some class_minor else None.

(** The end of a turn: the minor is reserved, and reusable when it was not. *)
Definition reserve_minor (acc : PlannerMinorReservations * gmap rstring Z) (key : rstring) (queue : Z)
    (minor : option Z) : PlannerMinorReservations * gmap rstring Z :=
  match minor with
  | None => acc
  | Some class_minor =>
      (entry_insert acc.1 queue class_minor,
       if bool_decide (class_minor ∈ set_at acc.1 queue) then acc.2 else <[key := class_minor]> acc.2)
  end.

Definition reserve_reusable_site_minors (sites : list SiteIdentityInput)
    (previous_sites : gmap rstring PlannerIdentityState) (stick_offset : Z)
    (reserved : PlannerMinorReservations) : PlannerMinorReservations * gmap rstring Z :=
  let current_sites := insert_all (fun site => Some (site_key site)) id sites ∅ in
  fold_left (fun acc '(key, site) =>
      reserve_minor acc key (site_queue site)
        (reusable_minor (previous_sites !! key) (site_queue site) (site_parent_path site) stick_offset))
    (btree_iter current_sites) (reserved, ∅).

(** Every circuit with its group. *)
Definition grouped_circuits (groups : list CircuitIdentityGroupInput)
    : list (rstring * CircuitIdentityGroupInput) :=
  concat (map (fun group => map (fun circuit_id => (circuit_id, group)) (circuit_ids group)) groups).

Definition reserve_reusable_circuit_minors (groups : list CircuitIdentityGroupInput)
    (previous_circuits : gmap rstring PlannerIdentityState) (stick_offset : Z)
    (reserved : PlannerMinorReservations) : PlannerMinorReservations * gmap rstring Z :=
  let current_circuits := insert_all (fun x => Some (fst x)) snd (grouped_circuits groups) ∅ in
  fold_left (fun acc '(key, group) =>
      reserve_minor acc key (group_queue group)
        (reusable_minor (previous_circuits !! key) (group_queue group) (group_parent_node group) stick_offset))
    (btree_iter current_circuits) (reserved, ∅).

(** One loop of [build_class_identity_reservations], and a turn of it. *)
Definition reserve_stored (planned : gset rstring) (reserved : PlannerMinorReservations)
    (entry : rstring * PlannerIdentityState) : PlannerMinorReservations :=
  if bool_decide (entry.1 ∈ planned) then reserved
  else match valid_class_minor (stored_minor entry.2) with
       | Some class_minor => entry_insert reserved (stored_queue entry.2) class_minor
       | None => reserved
       end.

Definition reserve_unplanned (planned : gset rstring) (previous : gmap rstring PlannerIdentityState)
    : PlannerMinorReservations :=
  fold_left (reserve_stored planned) (btree_iter previous) ∅.

Definition build_class_identity_reservations (sites : list SiteIdentityInput)
    (groups : list CircuitIdentityGroupInput) (previous_sites previous_circuits : gmap rstring PlannerIdentityState)
    : PlannerMinorReservations * PlannerMinorReservations :=
  (reserve_unplanned (list_to_set (map site_key sites)) previous_sites,
   reserve_unplanned (list_to_set (map fst (grouped_circuits groups))) previous_circuits).

(** ** The plan *)

(** [reserved.entry(queue).or_default().extend(minors)] for every entry of [more]. *)
Definition extend_reservations (reserved more : PlannerMinorReservations) : PlannerMinorReservations :=
  fold_left (fun reserved '(queue, minors) => <[queue := set_at reserved queue ∪ minors]> reserved)
    (btree_iter more) reserved.

(** What the loops over sites and circuits carry: the reserved minors, the next minor of each queue and
    the minors chosen so far. *)
Record MinorLoop : Type := mkMinorLoop {
  loop_reserved : PlannerMinorReservations;
  loop_next : gmap Z Z;
  loop_minors : list Z
}.

Definition site_step (c : ClassIdentityPlannerConstraints) (reusable : gmap rstring Z) (st : MinorLoop)
    (site : SiteIdentityInput) : MinorLoop :=
  let queue := site_queue site in
  let reserved := set_at (loop_reserved st) queue in
  let next_minor := default (Z.max (site_minor_start c) 3) (loop_next st !! queue) in
  let '(class_minor, next_minor) :=
    match reusable !! site_key site with
    | Some reused_minor => (reused_minor, next_minor)
    | None =>
        let allocated_minor := next_free_minor next_minor reserved in
        let next_minor := u32_saturating_add allocated_minor 1 in
        (allocated_minor, if has_children site then u32_saturating_add next_minor 1 else next_minor)
    end in
  mkMinorLoop (entry_insert (loop_reserved st) queue class_minor) (<[queue := next_minor]> (loop_next st))
    (loop_minors st ++ [class_minor]).

(** The first circuit minor of every queue with reservations. *)
Definition circuit_starts (c : ClassIdentityPlannerConstraints) (reserved : PlannerMinorReservations)
    (next_site_minor : gmap Z Z) : gmap Z Z :=
  let circuit_start := Z.max (circuit_minor_start c) 3 in
  map_imap (fun queue minors =>
      let start := default (next_free_minor circuit_start minors) (next_site_minor !! queue) in
      Some (next_free_minor (Z.max start circuit_start) minors))
    reserved.

(** A circuit of a group: the minors reserved on its queue, the next one and the ones chosen. *)
Definition circuit_step (reusable : gmap rstring Z) (st : gset Z * Z * list Z) (circuit_id : rstring)
    : gset Z * Z * list Z :=
  let '(reserved, next_minor, minors) := st in
  match reusable !! circuit_id with
  | Some reused_minor => ({[reused_minor]} ∪ reserved, next_minor, minors ++ [reused_minor])
  | None =>
      let allocated_minor := next_free_minor next_minor reserved in
      ({[allocated_minor]} ∪ reserved, u32_saturating_add allocated_minor 1, minors ++ [allocated_minor])
  end.

Definition group_step (c : ClassIdentityPlannerConstraints) (reusable : gmap rstring Z) (st : MinorLoop)
    (group : CircuitIdentityGroupInput) : MinorLoop :=
  let queue := group_queue group in
  let reserved := set_at (loop_reserved st) queue in
  let next_minor :=
    default (next_free_minor (Z.max (circuit_minor_start c) 3) reserved) (loop_next st !! queue) in
  let '(reserved, next_minor, minors) :=
    fold_left (circuit_step reusable) (circuit_ids group) (reserved, next_minor, loop_minors st) in
  mkMinorLoop (<[queue := reserved]> (loop_reserved st))
    (<[queue := u32_saturating_add next_minor (circuit_padding c)]> (loop_next st)) minors.

Definition class_number (n : Z) : Z := default u16_max (u16_try_from n).

Definition site_assignment (c : ClassIdentityPlannerConstraints) (site : SiteIdentityInput) (minor : Z)
    : SiteIdentityAssignment :=
  let class_major := class_number (site_queue site) in
  mkSiteIdentityAssignment (site_key site) (site_queue site) (class_number minor) class_major
    (u16_saturating_add class_major (stick_offset c)) (site_parent_path site).

Definition circuit_assignment (c : ClassIdentityPlannerConstraints)
    (circuit : rstring * CircuitIdentityGroupInput) (minor : Z) : CircuitIdentityAssignment :=
  let class_major := class_number (group_queue circuit.2) in
  mkCircuitIdentityAssignment circuit.1 (group_parent_node circuit.2) (group_queue circuit.2)
    (class_number minor) class_major (u16_saturating_add class_major (stick_offset c)).

Definition site_identity (a : SiteIdentityAssignment) : PlannerIdentityState :=
  mkPlannerIdentityState (assigned_site_minor a) (assigned_site_queue a) (assigned_site_parent_path a)
    (assigned_site_major a) (assigned_site_up_major a).
Definition circuit_identity (a : CircuitIdentityAssignment) : PlannerIdentityState :=
  mkPlannerIdentityState (assigned_circuit_minor a) (assigned_circuit_queue a) (assigned_circuit_parent_node a)
    (assigned_circuit_major a) (assigned_circuit_up_major a).

(** [reserved.iter().next_back()]: the greatest minor. *)
Definition highest (minors : gset Z) : option Z := last (btree_set_iter minors).

Definition last_used_minors (reserved : PlannerMinorReservations) (next_site next_circuit : gmap Z Z)
    : gmap Z Z :=
  set_to_map (fun queue =>
      let site_next := default 3 (next_site !! queue) in
      let circuit_next := default 3 (next_circuit !! queue) in
      let highest_reserved_next := u32_saturating_add (default 2 (reserved !! queue ≫= highest)) 1 in
      (queue, Z.max (Z.max site_next circuit_next) highest_reserved_next))
    (dom reserved ∪ dom next_site).

Definition plan_class_identities_with_constraints (sites : list SiteIdentityInput)
    (groups : list CircuitIdentityGroupInput) (previous_sites previous_circuits : gmap rstring PlannerIdentityState)
    (c : ClassIdentityPlannerConstraints) : ClassIdentityPlannerOutput :=
  let reserved := extend_reservations (reserved_site_minors c) (reserved_circuit_minors c) in
  let '(reserved, reusable_sites) :=
    reserve_reusable_site_minors sites previous_sites (stick_offset c) reserved in
  let '(reserved, reusable_circuits) :=
    reserve_reusable_circuit_minors groups previous_circuits (stick_offset c) reserved in
  let site_loop := fold_left (site_step c reusable_sites) sites (mkMinorLoop reserved ∅ []) in
  let circuit_loop :=
    fold_left (group_step c reusable_circuits) groups
      (mkMinorLoop (loop_reserved site_loop)
         (circuit_starts c (loop_reserved site_loop) (loop_next site_loop)) []) in
  let site_assignments := zip_with (site_assignment c) sites (loop_minors site_loop) in
  let circuit_assignments :=
    zip_with (circuit_assignment c) (grouped_circuits groups) (loop_minors circuit_loop) in
  mkClassIdentityPlannerOutput site_assignments circuit_assignments
    (insert_all (fun a => Some (assigned_site_key a)) site_identity site_assignments ∅)
    (insert_all (fun a => Some (assigned_circuit_id a)) circuit_identity circuit_assignments ∅)
    (last_used_minors (loop_reserved circuit_loop) (loop_next site_loop) (loop_next circuit_loop)).

Definition plan_class_identities (sites : list SiteIdentityInput) (groups : list CircuitIdentityGroupInput)
    (previous_sites previous_circuits : gmap rstring PlannerIdentityState)
    (stick_offset circuit_padding : Z) : ClassIdentityPlannerOutput :=
  let '(reserved_site_minors, reserved_circuit_minors) :=
    build_class_identity_reservations sites groups previous_sites previous_circuits in
  plan_class_identities_with_constraints sites groups previous_sites previous_circuits
    (mkClassIdentityPlannerConstraints reserved_site_minors reserved_circuit_minors 3 3
       stick_offset circuit_padding).
