(* ===== verification/ClassPlannerSpec.v ===== *)
(** * What class-identity planning guarantees

    The search for a free minor, the minors kept from the previous plan, and the plan itself: no two
    classes of a queue share a minor, none uses a reserved one, and what did not move keeps its
    identity. *)

From S2P Require Import Prelude RustStd RustCollections ClassPlanner.

#[local] Arguments next_free_minor : simpl never.

(** ** The search for a free minor *)

Definition u32_ok (n : Z) : Prop := 0 <= n < 2 ^ 32.

(** The [k]-th candidate from [c]. *)
Definition candidate (c : Z) (k : nat) : Z := (c + Z.of_nat k) mod 2 ^ 32.

Lemma candidate_0 c : u32_ok c -> candidate c 0 = c.
Proof. unfold candidate, u32_ok. intros. rewrite Z.add_0_r. by apply Z.mod_small. Qed.

Lemma candidate_succ c k : candidate (u32_succ c) k = candidate c (S k).
Proof. unfold candidate, u32_succ. rewrite Zplus_mod_idemp_l. f_equal. lia. Qed.

Lemma u32_succ_ok c : u32_ok (u32_succ c).
Proof. apply Z.mod_pos_bound. lia. Qed.

Lemma candidate_inj c j k :
  Z.of_nat j < 2 ^ 32 -> Z.of_nat k < 2 ^ 32 -> candidate c j = candidate c k -> j = k.
Proof.
  unfold candidate. intros Hj Hk Heq. apply (f_equal (fun x => (x - c) mod 2 ^ 32)) in Heq.
  rewrite !Zminus_mod_idemp_l in Heq.
  replace (c + Z.of_nat j - c) with (Z.of_nat j) in Heq by lia.
  replace (c + Z.of_nat k - c) with (Z.of_nat k) in Heq by lia.
  rewrite !Z.mod_small in Heq by lia. lia.
Qed.

Lemma next_free_loop_spec fuel : forall c reserved, u32_ok c ->
  (exists k, (k < fuel)%nat /\ next_free_loop fuel c reserved = candidate c k /\ (candidate c k ∉ reserved)
             /\ forall j, (j < k)%nat -> candidate c j ∈ reserved)
  \/ (forall k, (k < fuel)%nat -> candidate c k ∈ reserved).
Proof.
  induction fuel as [|fuel IH]; intros c reserved Hc; cbn [next_free_loop]; [right; lia|].
  case_bool_decide as Hin.
  - destruct (IH (u32_succ c) reserved (u32_succ_ok c)) as [(k & Hk & Heq & Hfree & Hall)|Hall].
    + left. exists (S k). rewrite <- candidate_succ. split_and!; [lia|done|done|].
      intros [|j] Hj; [by rewrite candidate_0|]. rewrite <- candidate_succ. apply Hall. lia.
    + right. intros [|k] Hk; [by rewrite candidate_0|]. rewrite <- candidate_succ. apply Hall. lia.
  - left. exists 0%nat. rewrite candidate_0 by done. split_and!; [lia|done|done|lia].
Qed.

Lemma candidates_exceed c reserved :
  Z.of_nat (size (reserved : gset Z)) < 2 ^ 32 ->
  ~ (forall k, (k < S (size reserved))%nat -> candidate c k ∈ reserved).
Proof.
  intros Hsize Hall.
  set (l := map (candidate c) (seq 0 (S (size reserved)))).
  assert (NoDup l) as Hnd.
  { apply (NoDup_fmap_2_strong (candidate c)); [|apply NoDup_seq]. intros j k Hj%elem_of_seq Hk%elem_of_seq.
    apply candidate_inj; lia. }
  assert (list_to_set l ⊆ reserved) as Hsub.
  { intros x Hx%elem_of_list_to_set. apply (list_elem_of_fmap_1 (candidate c)) in Hx as (k & -> & Hk%elem_of_seq).
    apply Hall. lia. }
  apply subseteq_size in Hsub. rewrite size_list_to_set in Hsub by done. subst l.
  rewrite length_map, length_seq in Hsub. lia.
Qed.

(** The minor found is free and is reached within one step for each reserved minor. *)
Lemma next_free_minor_spec start reserved :
  u32_ok start -> Z.of_nat (size reserved) < 2 ^ 32 ->
  exists k, (k <= size reserved)%nat /\ next_free_minor start reserved = candidate (Z.max start 3) k
            /\ (candidate (Z.max start 3) k ∉ reserved)
            /\ forall j, (j < k)%nat -> candidate (Z.max start 3) j ∈ reserved.
Proof.
  unfold u32_ok. intros Hs Hsize. assert (u32_ok (Z.max start 3)) as Hm by (unfold u32_ok; lia).
  destruct (next_free_loop_spec (S (size reserved)) (Z.max start 3) reserved Hm) as [(k & Hk & H)|Hall].
  - exists k. split; [lia|done].
  - by apply candidates_exceed in Hall.
Qed.

Lemma next_free_minor_fresh start reserved :
  u32_ok start -> Z.of_nat (size reserved) < 2 ^ 32 ->
  u32_ok (next_free_minor start reserved) /\ (next_free_minor start reserved ∉ reserved).
Proof.
  intros Hs Hsize. destruct (next_free_minor_spec start reserved Hs Hsize) as (k & _ & -> & Hfree & _).
  split; [apply Z.mod_pos_bound; lia|done].
Qed.

(** ** Reusable minors *)

(** What the reservation loops do with entries of key, queue and reusable minor. *)
Definition reserve_entries (entries : list (rstring * Z * option Z))
    (acc : PlannerMinorReservations * gmap rstring Z) : PlannerMinorReservations * gmap rstring Z :=
  fold_left (fun acc e => reserve_minor acc e.1.1 e.1.2 e.2) entries acc.

Record reserved_spec (entries : list (rstring * Z * option Z)) (res : PlannerMinorReservations)
    (res' : PlannerMinorReservations) (reusable : gmap rstring Z) : Prop := {
  rs_grows : forall q, set_at res q ⊆ set_at res' q;
  rs_only : forall q m, m ∈ set_at res' q -> m ∈ set_at res q \/ exists k, (k, q, Some m) ∈ entries;
  rs_size : forall q, (size (set_at res' q) <= size (set_at res q) + length entries)%nat;
  rs_sound : forall k m, reusable !! k = Some m ->
    exists q, (k, q, Some m) ∈ entries /\ (m ∉ set_at res q) /\ m ∈ set_at res' q;
  rs_inj : forall k k' q m, reusable !! k = Some m -> reusable !! k' = Some m ->
    (k, q, Some m) ∈ entries -> (k', q, Some m) ∈ entries -> k = k';
  rs_complete : forall k q m, (k, q, Some m) ∈ entries -> m ∉ set_at res q ->
    (forall k', (k', q, Some m) ∈ entries -> k' = k) -> reusable !! k = Some m
}.

Lemma size_entry_insert (res : PlannerMinorReservations) q m q' :
  (size (set_at (entry_insert res q m) q') <= S (size (set_at res q')))%nat.
Proof.
  rewrite set_at_insert. case_decide; [subst|lia].
  rewrite size_union_alt, size_singleton. cbn. apply le_n_S, subseteq_size. set_solver.
Qed.

Lemma entry_unique (entries : list (rstring * Z * option Z)) k q q' m m' :
  NoDup (map (fun e => e.1.1) entries) -> (k, q, m) ∈ entries -> (k, q', m') ∈ entries -> q = q' /\ m = m'.
Proof.
  induction entries as [|[[k0 q0] m0] entries IH]; cbn; intros Hnd Hin Hin'; [by apply elem_of_nil in Hin|].
  apply NoDup_cons in Hnd as [Hno Hnd].
  assert (forall q m, (k0, q, m) ∉ entries) as Habs.
  { intros x y Hx. apply Hno. by apply (list_elem_of_fmap_2 (fun e => e.1.1)) in Hx. }
  apply elem_of_cons in Hin as [Heq|Hin], Hin' as [Heq'|Hin']; simplify_eq; [done| | |by apply IH].
  - by apply Habs in Hin'.
  - by apply Habs in Hin.
Qed.

Lemma reserved_spec_some entries res r ru k q m :
  NoDup (map (fun e => e.1.1) (entries ++ [(k, q, Some m)])) -> reserved_spec entries res r ru ->
  reserved_spec (entries ++ [(k, q, Some m)]) res (entry_insert r q m)
    (if bool_decide (m ∈ set_at r q) then ru else <[k := m]> ru).
Proof.
  intros Hnd [Hg Ho Hs Hso Hi Hc].
  assert (forall q' m', (k, q', m') ∉ entries) as Hkno.
  { intros q' m' Hin. rewrite map_app in Hnd. apply NoDup_app in Hnd as (_ & Hfresh & _).
    apply (list_elem_of_fmap_2 (fun e => e.1.1)) in Hin. apply (Hfresh k Hin). by left. }
  assert (forall q', set_at r q' ⊆ set_at (entry_insert r q m) q') as Hg'.
  { intros q'. rewrite set_at_insert. case_decide; [subst|]; set_solver. }
  assert (m ∈ set_at (entry_insert r q m) q) as Hm by (rewrite set_at_insert, decide_True by done; set_solver).
  split.
  - intros q'. etrans; [apply Hg|apply Hg'].
  - intros q' m'. rewrite set_at_insert. setoid_rewrite elem_of_app.
    assert (m' ∈ set_at r q' -> m' ∈ set_at res q' \/ exists k0, (k0, q', Some m') ∈ entries
      \/ (k0, q', Some m') ∈ [(k, q, Some m)]) as Hold by (intros [?|[k' ?]]%Ho; eauto).
    case_decide as Hq; [subst|done]. intros [->%elem_of_singleton|?]%elem_of_union; [|auto].
    right. exists k. right. by left.
  - intros q'. rewrite length_app. cbn. pose proof (size_entry_insert r q m q'). specialize (Hs q'). lia.
  - intros k' m'. case_bool_decide as Hin.
    + intros Hk'. destruct (Hso k' m' Hk') as (q' & He & Hn & Hin'). exists q'. rewrite elem_of_app.
      split_and!; [by left|done|by apply Hg'].
    + rewrite lookup_insert. case_decide as Hk; [subst; intros [= <-]|].
      * exists q. rewrite elem_of_app. split_and!; [right; by left|intros Hx; by apply Hin, Hg|done].
      * intros Hk'. destruct (Hso k' m' Hk') as (q' & He & Hn & Hin'). exists q'. rewrite elem_of_app.
         split_and!; [by left|done|by apply Hg'].
  - intros k1 k2 q' m' H1 H2 E1 E2.
    assert (forall k', ru !! k' = Some m' -> (k', q', Some m') ∈ entries ++ [(k, q, Some m)] ->
      m' ∈ set_at r q' /\ (k', q', Some m') ∈ entries) as Hold.
    { intros k' Hk' He. destruct (Hso k' m' Hk') as (q'' & He' & _ & Hin). 
      destruct (entry_unique _ k' q' q'' (Some m') (Some m') Hnd He) as [-> _]; [by apply elem_of_app; left|done]. }
    case_bool_decide as Hin; [apply (Hi k1 k2 q' m'); [done|done|by apply Hold..]|].
    rewrite lookup_insert in H1, H2. destruct (decide (k = k1)) as [<-|Hk1], (decide (k = k2)) as [<-|Hk2]; [done| | |].
    + injection H1 as <-. destruct (entry_unique _ k q' q (Some m) (Some m) Hnd E1) as [-> _];
        [by apply elem_of_app; right; left|]. by destruct (Hold k2 H2 E2).
    + injection H2 as <-. destruct (entry_unique _ k q' q (Some m) (Some m) Hnd E2) as [-> _];
        [by apply elem_of_app; right; left|]. by destruct (Hold k1 H1 E1).
    + apply (Hi k1 k2 q' m'); [done|done|by apply Hold..].
  - intros k' q' m' He Hno Huniq. apply elem_of_app in He as [He|[= -> -> ->]%list_elem_of_singleton].
    + assert (ru !! k' = Some m') as Hk'.
      { apply (Hc k' q' m' He Hno). intros k'' He''. apply Huniq, elem_of_app. by left. }
      case_bool_decide; [done|]. rewrite lookup_insert. case_decide; [subst|done]. by apply Hkno in He.
    + rewrite bool_decide_eq_false_2; [by rewrite lookup_insert_eq|]. intros [Hin|[k' Hin]]%Ho; [done|].
      assert (k' = k) as -> by (apply Huniq, elem_of_app; by left). by apply Hkno in Hin.
Qed.

Lemma reserved_spec_none entries res r ru k q :
  reserved_spec entries res r ru -> reserved_spec (entries ++ [(k, q, None)]) res r ru.
Proof.
  intros [Hg Ho Hs Hso Hi Hc].
  assert (forall k' q' m', (k', q', Some m') ∈ entries ++ [(k, q, None)] <-> (k', q', Some m') ∈ entries) as Hin.
  { intros k' q' m'. rewrite elem_of_app, list_elem_of_singleton. naive_solver. }
  split.
  - done.
  - intros q' m' Hm. setoid_rewrite Hin. by apply Ho.
  - intros q'. rewrite length_app. specialize (Hs q'). cbn. lia.
  - intros k' m' Hk'. setoid_rewrite Hin. by apply Hso.
  - intros k1 k2 q' m'. rewrite !Hin. apply Hi.
  - intros k' q' m'. rewrite Hin. setoid_rewrite Hin. apply Hc.
Qed.

Lemma reserve_entries_spec entries res :
  NoDup (map (fun e => e.1.1) entries) ->
  reserved_spec entries res (reserve_entries entries (res, ∅)).1 (reserve_entries entries (res, ∅)).2.
Proof.
  induction entries as [|[[k q] m] entries IH] using rev_ind.
  { intros _. split; cbn; [done|by left|lia| | |]; intros *; rewrite ?lookup_empty, ?elem_of_nil; done. }
  intros Hnd. pose proof Hnd as Hnd'. rewrite map_app in Hnd'. apply NoDup_app in Hnd' as (Hnd1 & _ & _).
  unfold reserve_entries. rewrite fold_left_app. cbn [fold_left]. fold (reserve_entries entries (res, ∅)).
  specialize (IH Hnd1). destruct (reserve_entries entries (res, ∅)) as [r ru]. cbn [fst snd] in *.
  destruct m as [m|]; cbn [reserve_minor fst snd]; [by apply reserved_spec_some|by apply reserved_spec_none].
Qed.

Lemma fold_left_ext {A B} (f g : A -> B -> A) l :
  (forall a b, f a b = g a b) -> forall a, fold_left f l a = fold_left g l a.
Proof. intros Hfg. induction l as [|b l IH]; intros a; cbn; [done|]. by rewrite Hfg. Qed.

(** The entries of both loops, for elements with a key and a value. *)
Section Keyed.
Context {X V : Type} (key : X -> rstring) (value : X -> V) (entry : rstring -> V -> Z * option Z).

Definition keyed_entries (l : list X) : list (rstring * Z * option Z) :=
  map (fun '(k, v) => (k, (entry k v).1, (entry k v).2)) (btree_iter (insert_all (fun x => Some (key x)) value l ∅)).

Lemma keyed_entries_keys l : NoDup (map (fun e => e.1.1) (keyed_entries l)).
Proof.
  unfold keyed_entries. rewrite map_map.
  rewrite (map_ext _ fst) by (by intros []).
  apply (NoDup_btree_iter (insert_all (fun x => Some (key x)) value l ∅)).
Qed.

Lemma elem_of_keyed_entries l k q m :
  NoDup (map key l) ->
  (k, q, m) ∈ keyed_entries l <-> exists x, x ∈ l /\ key x = k /\ entry k (value x) = (q, m).
Proof.
  intros Hnd. unfold keyed_entries.
  assert (forall k x y, x ∈ l -> y ∈ l -> Some (key x) = Some k -> Some (key y) = Some k -> value x = value y) as Hinj.
  { intros k' x y Hx Hy [= Hk] [= Hk']. f_equal. apply (NoDup_map_inj key l); [done..|congruence]. }
  rewrite (list_elem_of_fmap (fun '(k, v) => (k, (entry k v).1, (entry k v).2))). split.
  - intros ([k' v] & [= -> -> ->] & Hin%elem_of_btree_iter). apply lookup_insert_all in Hin; [|by apply Hinj].
    destruct Hin as [(y & Hy & [= <-] & <-)|[_ Hno]]; [|by rewrite lookup_empty in Hno].
    exists y. by destruct (entry (key y) (value y)).
  - intros (x & Hx & <- & He). exists (key x, value x). rewrite He. split; [done|].
    apply elem_of_btree_iter, lookup_insert_all; [by apply Hinj|left; by exists x].
Qed.

Lemma length_keyed_entries l : (length (keyed_entries l) <= length l)%nat.
Proof.
  unfold keyed_entries. rewrite length_map, (Permutation_length (btree_iter_perm _)), length_map_to_list.
  enough (forall m, (size (insert_all (fun x => Some (key x)) value l m) <= size m + length l)%nat) as Hs
    by (specialize (Hs ∅); by rewrite map_size_empty in Hs).
  clear entry. unfold insert_all. induction l as [|x l IH]; intros m; cbn; [lia|].
  etrans; [apply IH|]. rewrite map_size_insert. destruct (m !! key x); cbn; lia.
Qed.
End Keyed.

Definition site_entry (previous_sites : gmap rstring PlannerIdentityState) (stick_offset : Z) (key : rstring)
    (site : SiteIdentityInput) : Z * option Z :=
  (site_queue site,
   reusable_minor (previous_sites !! key) (site_queue site) (site_parent_path site) stick_offset).
Definition circuit_entry (previous_circuits : gmap rstring PlannerIdentityState) (stick_offset : Z)
    (key : rstring) (group : CircuitIdentityGroupInput) : Z * option Z :=
  (group_queue group,
   reusable_minor (previous_circuits !! key) (group_queue group) (group_parent_node group) stick_offset).

Lemma reserve_sites_entries sites ps so res :
  reserve_reusable_site_minors sites ps so res
  = reserve_entries (keyed_entries site_key id (site_entry ps so) sites) (res, ∅).
Proof.
  unfold reserve_reusable_site_minors, reserve_entries, keyed_entries. rewrite fold_left_map.
  apply fold_left_ext. by intros acc [k site].
Qed.

Lemma reserve_circuits_entries groups pc so res :
  reserve_reusable_circuit_minors groups pc so res
  = reserve_entries (keyed_entries fst snd (circuit_entry pc so) (grouped_circuits groups)) (res, ∅).
Proof.
  unfold reserve_reusable_circuit_minors, reserve_entries, keyed_entries. rewrite fold_left_map.
  apply fold_left_ext. by intros acc [k group].
Qed.

(** ** The loops choose minors *)

(** Every entry of key and queue gets the minor reusable for it or one that is not taken, and takes it. *)
Inductive chooses (reusable : gmap rstring Z)
    : PlannerMinorReservations -> list (rstring * Z) -> list Z -> PlannerMinorReservations -> Prop :=
| chooses_nil res res' : (forall q, set_at res' q = set_at res q) -> chooses reusable res [] [] res'
| chooses_cons res res1 res' k q m entries ms :
    (reusable !! k = Some m \/ (reusable !! k = None /\ m ∉ set_at res q)) ->
    (forall q', set_at res1 q' = set_at (entry_insert res q m) q') ->
    chooses reusable res1 entries ms res' ->
    chooses reusable res ((k, q) :: entries) (m :: ms) res'.

Lemma chooses_length reusable res entries ms res' :
  chooses reusable res entries ms res' -> length ms = length entries.
Proof. induction 1; cbn; congruence. Qed.

Lemma chooses_grows reusable res entries ms res' :
  chooses reusable res entries ms res' -> forall q, set_at res q ⊆ set_at res' q.
Proof.
  induction 1 as [res res' Heq|res res1 res' k q m entries ms _ Heq _ IH]; intros q'; [by rewrite Heq|].
  etrans; [|apply IH]. rewrite Heq, set_at_insert. case_decide; [subst|]; set_solver.
Qed.

Lemma chooses_app reusable res entries1 ms1 res1 :
  chooses reusable res entries1 ms1 res1 -> forall entries2 ms2 res2,
  chooses reusable res1 entries2 ms2 res2 -> chooses reusable res (entries1 ++ entries2) (ms1 ++ ms2) res2.
Proof.
  induction 1 as [res res1 Heq|res r res1 k q m entries ms Hm Heq _ IH]; intros entries2 ms2 res2 H2; cbn.
  - destruct H2 as [r r' Heq'|r r1 r' k q m entries ms Hm Heq' H2]; [constructor; intros; congruence|].
    econstructor; [by rewrite <- Heq| |done]. intros q'. rewrite Heq', !set_at_insert. by rewrite !Heq.
  - econstructor; [done|done|by apply IH].
Qed.

(** Key, queue and chosen minor. *)
Definition triples (entries : list (rstring * Z)) (ms : list Z) : list (rstring * Z * Z) :=
  zip_with (fun e m => (e.1, e.2, m)) entries ms.

Lemma chooses_triples reusable res entries ms res' :
  chooses reusable res entries ms res' -> forall k q m, (k, q, m) ∈ triples entries ms ->
  (k, q) ∈ entries /\ m ∈ set_at res' q /\ (reusable !! k = Some m \/ (reusable !! k = None /\ m ∉ set_at res q)).
Proof.
  induction 1 as [|res res1 res' k q m entries ms Hm Heq Hch IH]; intros k0 q0 m0; cbn; [by intros ?%elem_of_nil|].
  intros [[= -> -> ->]|Hin]%elem_of_cons.
  - split_and!; [by left| |done]. apply (chooses_grows _ _ _ _ _ Hch). rewrite Heq, set_at_insert, decide_True by done.
    set_solver.
  - destruct (IH _ _ _ Hin) as (He & Ht & Hor). split_and!; [by right|done|].
    destruct Hor as [|[Hn Hno]]; [by left|right]. split; [done|]. intros Hbad. apply Hno.
    rewrite Heq, set_at_insert. case_decide; [subst|done]. set_solver.
Qed.

Lemma chooses_only reusable res entries ms res' :
  chooses reusable res entries ms res' -> forall q m, m ∈ set_at res' q ->
  m ∈ set_at res q \/ exists k, (k, q, m) ∈ triples entries ms.
Proof.
  induction 1 as [res res' Heq|res res1 res' k q m entries ms Hm Heq Hch IH]; intros q0 m0; [rewrite Heq; auto|].
  intros [Hin|[k' Hin]]%IH; [|right; exists k'; by right]. rewrite Heq, set_at_insert in Hin.
  case_decide; [subst|by left]. apply elem_of_union in Hin as [->%elem_of_singleton|?]; [|by left].
  right. exists k. by left.
Qed.

(** Chosen minors of one queue are distinct. *)
Lemma chooses_distinct reusable res entries ms res' :
  chooses reusable res entries ms res' -> NoDup (map fst entries) ->
  (forall k q m, (k, q) ∈ entries -> reusable !! k = Some m -> m ∈ set_at res q) ->
  (forall k k' q m, (k, q) ∈ entries -> (k', q) ∈ entries -> reusable !! k = Some m -> reusable !! k' = Some m ->
     k = k') ->
  NoDup (map (fun t => (t.1.2, t.2)) (triples entries ms)).
Proof.
  induction 1 as [|res res1 res' k q m entries ms Hm Heq Hch IH]; cbn; [constructor|].
  intros [Hk Hnd]%NoDup_cons Hin Hinj.
  assert (m ∈ set_at res1 q) as Hmq by (rewrite Heq, set_at_insert, decide_True by done; set_solver).
  assert (forall q', set_at res q' ⊆ set_at res1 q') as Hsub.
  { intros q'. rewrite Heq, set_at_insert. case_decide; [subst|]; set_solver. }
  constructor.
  - intros Hbad. apply (list_elem_of_fmap_1 (fun t : rstring * Z * Z => (t.1.2, t.2))) in Hbad
      as ([[k' q'] m'] & [= -> ->] & Ht). cbn in *.
    destruct (chooses_triples _ _ _ _ _ Hch _ _ _ Ht) as (He & _ & [Hr'|[_ Hno]]); [|done].
    destruct Hm as [Hr|[_ Hno]].
    + assert (k = k') as <- by (by apply (Hinj k k' q' m'); [left|right| |]).
      destruct Hk. by apply (list_elem_of_fmap_2 fst) in He.
    + destruct Hno. apply (Hin k' q' m'); [by right|done].
  - apply IH; [done| |].
    + intros k' q' m' He Hr. apply Hsub, (Hin k'); [by right|done].
    + intros k1 k2 q' m' H1 H2. apply (Hinj k1 k2 q'); by right.
Qed.

(** ** The loops over sites and circuits *)

Definition next_ok (next : gmap Z Z) : Prop := forall q n, next !! q = Some n -> u32_ok n.

Lemma u32_saturating_ok a b : 0 <= a -> 0 <= b -> u32_ok (u32_saturating_add a b).
Proof. unfold u32_ok, u32_saturating_add, u32_max. lia. Qed.

Lemma site_loop_chooses c reusable sites : forall st,
  u32_ok (site_minor_start c) -> next_ok (loop_next st) ->
  (forall q, Z.of_nat (size (set_at (loop_reserved st) q)) + Z.of_nat (length sites) < 2 ^ 32) ->
  let st' := fold_left (site_step c reusable) sites st in
  next_ok (loop_next st') /\ exists ms, loop_minors st' = loop_minors st ++ ms
  /\ chooses reusable (loop_reserved st) (map (fun site => (site_key site, site_queue site)) sites) ms
       (loop_reserved st').
Proof.
  induction sites as [|site sites IH]; intros st Hstart Hnext Hsize; cbn [fold_left map].
  { split; [done|]. exists []. split; [by rewrite app_nil_r|by constructor]. }
  cbn [length] in Hsize. set (q := site_queue site).
  set (n := default (Z.max (site_minor_start c) 3) (loop_next st !! q)).
  assert (u32_ok n) as Hn.
  { subst n. destruct (loop_next st !! q) eqn:Hq; [by eapply Hnext|]. unfold u32_ok in *. cbn. lia. }
  pose proof (Hsize q) as Hq. destruct (next_free_minor_fresh n (set_at (loop_reserved st) q) Hn) as [Ha Hfresh]; [lia|].
  assert (exists m n', site_step c reusable st site
    = mkMinorLoop (entry_insert (loop_reserved st) q m) (<[q := n']> (loop_next st)) (loop_minors st ++ [m])
    /\ u32_ok n' /\ (reusable !! site_key site = Some m
                     \/ (reusable !! site_key site = None /\ m ∉ set_at (loop_reserved st) q)))
    as (m & n' & Hstep & Hn' & Hm).
  { unfold site_step. fold q n. destruct (reusable !! site_key site) as [m|]; [by eexists m, _; eauto|].
    eexists (next_free_minor n _), _. split; [done|]. split; [|by right].
    assert (u32_ok (u32_saturating_add (next_free_minor n (set_at (loop_reserved st) q)) 1)) as Hs.
    { apply u32_saturating_ok; [apply Ha|lia]. }
    destruct (has_children site); [|done]. apply u32_saturating_ok; [apply Hs|lia]. }
  rewrite Hstep. destruct (IH (mkMinorLoop (entry_insert (loop_reserved st) q m) (<[q := n']> (loop_next st))
    (loop_minors st ++ [m]))) as (Hnext' & ms & Hms & Hch); [done| | |].
  - intros q' x. cbn. rewrite lookup_insert. case_decide; [by intros [= <-]|apply Hnext].
  - intros q'. cbn. pose proof (size_entry_insert (loop_reserved st) q m q'). specialize (Hsize q'). lia.
  - split; [done|]. exists (m :: ms). cbn in Hms. split; [by rewrite Hms, <- app_assoc|].
    by econstructor.
Qed.

Lemma set_at_set (res : gmap Z (gset Z)) q s q' :
  set_at (<[q := s]> res) q' = if decide (q' = q) then s else set_at res q'.
Proof. unfold set_at. rewrite lookup_insert. repeat case_decide; congruence || done. Qed.

Lemma circuit_loop_chooses reusable q ids : forall res n ms0,
  u32_ok n -> Z.of_nat (size (set_at res q)) + Z.of_nat (length ids) < 2 ^ 32 ->
  exists reserved n' ms,
    fold_left (circuit_step reusable) ids (set_at res q, n, ms0) = (reserved, n', ms0 ++ ms)
    /\ u32_ok n' /\ (size reserved <= size (set_at res q) + length ids)%nat
    /\ chooses reusable res (map (fun id => (id, q)) ids) ms (<[q := reserved]> res).
Proof.
  induction ids as [|id ids IH]; intros res n ms0 Hn Hsize; cbn [fold_left map length] in *.
  { exists (set_at res q), n, []. rewrite app_nil_r. split_and!; [done|done|lia|]. constructor.
    intros q'. rewrite set_at_set. by case_decide; subst. }
  destruct (next_free_minor_fresh n (set_at res q) Hn) as [Ha Hfresh]; [lia|].
  assert (exists m n', circuit_step reusable (set_at res q, n, ms0) id = ({[m]} ∪ set_at res q, n', ms0 ++ [m])
    /\ u32_ok n' /\ (reusable !! id = Some m \/ (reusable !! id = None /\ m ∉ set_at res q)))
    as (m & n' & Hstep & Hn' & Hm).
  { unfold circuit_step. destruct (reusable !! id) as [m|]; [by eexists m, _; eauto|].
    eexists (next_free_minor n _), _. split; [done|]. split; [|by right]. apply u32_saturating_ok; [apply Ha|lia]. }
  assert (set_at (entry_insert res q m) q = {[m]} ∪ set_at res q) as Hat.
  { by rewrite set_at_insert, decide_True. }
  pose proof (size_entry_insert res q m q) as Hsz.
  destruct (IH (entry_insert res q m) n' (ms0 ++ [m]) Hn') as (R & n2 & ms & Hfold & Hn2 & HR & Hch); [lia|].
  rewrite Hstep, <- Hat, Hfold. exists R, n2, (m :: ms). rewrite <- app_assoc.
  split_and!; [done|done|lia|]. econstructor; [done|done|].
  replace (<[q := R]> res) with (<[q := R]> (entry_insert res q m)); [done|]. apply insert_insert_eq.
Qed.

Lemma length_grouped_cons g groups :
  length (grouped_circuits (g :: groups)) = (length (circuit_ids g) + length (grouped_circuits groups))%nat.
Proof. unfold grouped_circuits. cbn. by rewrite length_app, length_map. Qed.

Definition circuit_keys (groups : list CircuitIdentityGroupInput) : list (rstring * Z) :=
  map (fun x => (x.1, group_queue x.2)) (grouped_circuits groups).

Lemma circuit_keys_cons g groups :
  circuit_keys (g :: groups) = map (fun id => (id, group_queue g)) (circuit_ids g) ++ circuit_keys groups.
Proof. unfold circuit_keys, grouped_circuits. cbn. by rewrite map_app, map_map. Qed.

Lemma group_loop_chooses c reusable groups : forall st,
  u32_ok (circuit_minor_start c) -> 0 <= circuit_padding c -> next_ok (loop_next st) ->
  (forall q, Z.of_nat (size (set_at (loop_reserved st) q)) + Z.of_nat (length (grouped_circuits groups)) < 2 ^ 32) ->
  let st' := fold_left (group_step c reusable) groups st in
  exists ms, loop_minors st' = loop_minors st ++ ms
  /\ chooses reusable (loop_reserved st) (circuit_keys groups) ms (loop_reserved st').
Proof.
  induction groups as [|g groups IH]; intros st Hstart Hpad Hnext Hsize; cbn [fold_left].
  { exists []. split; [by rewrite app_nil_r|by constructor]. }
  rewrite length_grouped_cons, circuit_keys_cons in *. set (q := group_queue g) in *.
  set (n := default (next_free_minor (Z.max (circuit_minor_start c) 3) (set_at (loop_reserved st) q))
    (loop_next st !! q)). pose proof (Hsize q) as Hq.
  assert (u32_ok n) as Hn.
  { subst n. destruct (loop_next st !! q) eqn:Hl; [by eapply Hnext|]. apply next_free_minor_fresh; [|lia].
    unfold u32_ok in *. lia. }
  destruct (circuit_loop_chooses reusable q (circuit_ids g) (loop_reserved st) n (loop_minors st) Hn)
    as (R & n' & ms & Hfold & Hn' & HR & Hch); [lia|].
  set (st1 := mkMinorLoop (<[q := R]> (loop_reserved st))
    (<[q := u32_saturating_add n' (circuit_padding c)]> (loop_next st)) (loop_minors st ++ ms)).
  assert (group_step c reusable st g = st1) as -> by (unfold group_step; fold q n; by rewrite Hfold).
  destruct (IH st1 Hstart Hpad) as (ms' & Hms' & Hch').
  - intros q' x. cbn. rewrite lookup_insert. case_decide; [intros [= <-]|apply Hnext].
    apply u32_saturating_ok; [apply Hn'|done].
  - intros q'. cbn. rewrite set_at_set. specialize (Hsize q'). case_decide; [subst|]; lia.
  - exists (ms ++ ms'). cbn in Hms'. split; [by rewrite Hms', app_assoc|]. by eapply chooses_app.
Qed.

(** ** The plan *)

Lemma elem_of_extend l : forall (res : gmap Z (gset Z)) q m,
  m ∈ set_at (fold_left (fun reserved '(queue, minors) => <[queue := set_at reserved queue ∪ minors]> reserved) l res) q
  <-> m ∈ set_at res q \/ exists ms, (q, ms) ∈ l /\ m ∈ ms.
Proof.
  induction l as [|[q' ms'] l IH]; intros res q m; cbn [fold_left].
  - split; [by left|]. intros [|(ms & ?%elem_of_nil & _)]; done.
  - rewrite IH, set_at_set. setoid_rewrite elem_of_cons. split.
    + intros [Hm|(ms & Hin & Hm)]; [|right; eauto]. case_decide; [subst|by left].
      apply elem_of_union in Hm as [|]; [by left|right]. eauto.
    + intros [Hm|(ms & [[= -> ->]|Hin] & Hm)]; [left..|right; eauto].
      * case_decide; [subst; set_solver|done].
      * rewrite decide_True by done. set_solver.
Qed.

Lemma extend_reservations_spec res more q :
  set_at (extend_reservations res more) q = set_at res q ∪ set_at more q.
Proof.
  apply set_eq. intros m. unfold extend_reservations. rewrite elem_of_extend, elem_of_union. split.
  - intros [|(ms & Hin%elem_of_btree_iter & Hm)]; [by left|right]. unfold set_at. by rewrite Hin.
  - intros [|Hm]; [by left|right]. unfold set_at in Hm. destruct (more !! q) as [ms|] eqn:Hq; [|by apply not_elem_of_empty in Hm].
    exists ms. by rewrite elem_of_btree_iter.
Qed.

Record inputs_ok (sites : list SiteIdentityInput) (groups : list CircuitIdentityGroupInput)
    (c : ClassIdentityPlannerConstraints) : Prop := {
  in_sites : NoDup (map site_key sites);
  in_circuits : NoDup (map fst (grouped_circuits groups));
  in_site_start : u32_ok (site_minor_start c);
  in_circuit_start : u32_ok (circuit_minor_start c);
  in_padding : 0 <= circuit_padding c;
  in_size : forall q,
    Z.of_nat (size (set_at (reserved_site_minors c) q)) + Z.of_nat (size (set_at (reserved_circuit_minors c) q))
    + 2 * (Z.of_nat (length sites) + Z.of_nat (length (grouped_circuits groups))) < 2 ^ 32
}.

Definition site_keys (sites : list SiteIdentityInput) : list (rstring * Z) :=
  map (fun site => (site_key site, site_queue site)) sites.

Lemma circuit_starts_ok c reserved next :
  u32_ok (circuit_minor_start c) -> next_ok next ->
  (forall q, Z.of_nat (size (set_at reserved q)) < 2 ^ 32) -> next_ok (circuit_starts c reserved next).
Proof.
  intros Hstart Hnext Hsize q n. unfold circuit_starts. rewrite map_lookup_imap.
  destruct (reserved !! q) as [minors|] eqn:Hq; cbn; [|done]. intros [= <-].
  assert (Z.of_nat (size minors) < 2 ^ 32) as Hm by (specialize (Hsize q); unfold set_at in Hsize; by rewrite Hq in Hsize).
  assert (u32_ok (Z.max (circuit_minor_start c) 3)) as Hs by (unfold u32_ok in *; lia).
  apply next_free_minor_fresh; [|done].
  assert (u32_ok (default (next_free_minor (Z.max (circuit_minor_start c) 3) minors) (next !! q))) as Hd.
  { destruct (next !! q) eqn:Hn; [by eapply Hnext|]. by apply next_free_minor_fresh. }
  unfold u32_ok in *. lia.
Qed.

(** The passes of the plan. *)
Record planned (sites : list SiteIdentityInput) (groups : list CircuitIdentityGroupInput)
    (ps pc : gmap rstring PlannerIdentityState) (c : ClassIdentityPlannerConstraints)
    (res0 res1 res2 res3 : PlannerMinorReservations) (ru_sites ru_circuits : gmap rstring Z)
    (ms mc : list Z) : Prop := {
  pl_start : forall q, set_at res0 q = set_at (reserved_site_minors c) q ∪ set_at (reserved_circuit_minors c) q;
  pl_sites : reserved_spec (keyed_entries site_key id (site_entry ps (stick_offset c)) sites) res0 res1 ru_sites;
  pl_circuits : reserved_spec
    (keyed_entries fst snd (circuit_entry pc (stick_offset c)) (grouped_circuits groups)) res1 res2 ru_circuits;
  pl_site_minors : chooses ru_sites res2 (site_keys sites) ms res3;
  pl_circuit_minors : exists res4, chooses ru_circuits res3 (circuit_keys groups) mc res4
}.

Lemma chooses_size reusable res entries ms res' :
  chooses reusable res entries ms res' -> forall q,
  (size (set_at res' q) <= size (set_at res q) + length entries)%nat.
Proof.
  induction 1 as [res res' Heq|res res1 res' k q m entries ms _ Heq _ IH]; intros q'; [rewrite Heq; lia|].
  cbn. specialize (IH q'). rewrite Heq in IH. pose proof (size_entry_insert res q m q'). lia.
Qed.

Lemma plan_passes sites groups ps pc c :
  inputs_ok sites groups c ->
  exists res0 res1 res2 res3 ru_sites ru_circuits ms mc,
    planned sites groups ps pc c res0 res1 res2 res3 ru_sites ru_circuits ms mc
    /\ out_sites (plan_class_identities_with_constraints sites groups ps pc c)
       = zip_with (site_assignment c) sites ms
    /\ out_circuits (plan_class_identities_with_constraints sites groups ps pc c)
       = zip_with (circuit_assignment c) (grouped_circuits groups) mc.
Proof.
  intros [Hs Hc Hss Hcs Hpad Hsize]. unfold plan_class_identities_with_constraints.
  set (res0 := extend_reservations (reserved_site_minors c) (reserved_circuit_minors c)).
  rewrite reserve_sites_entries. set (es := keyed_entries site_key id _ sites).
  pose proof (reserve_entries_spec es res0 (keyed_entries_keys _ _ _ _)) as Hes.
  destruct (reserve_entries es (res0, ∅)) as [res1 ru_s]. cbn [fst snd] in Hes.
  rewrite reserve_circuits_entries. set (ec := keyed_entries fst snd _ (grouped_circuits groups)).
  pose proof (reserve_entries_spec ec res1 (keyed_entries_keys _ _ _ _)) as Hec.
  destruct (reserve_entries ec (res1, ∅)) as [res2 ru_c]. cbn [fst snd] in Hec.
  assert (forall q, Z.of_nat (size (set_at res2 q)) + Z.of_nat (length sites)
    + Z.of_nat (length (grouped_circuits groups)) < 2 ^ 32) as Hsize2.
  { intros q. pose proof (rs_size _ _ _ _ Hec q). pose proof (rs_size _ _ _ _ Hes q).
    assert (size (set_at res0 q) <= size (set_at (reserved_site_minors c) q) + size (set_at (reserved_circuit_minors c) q))%nat.
    { unfold res0. rewrite extend_reservations_spec, size_union_alt. apply Nat.add_le_mono_l, subseteq_size. set_solver. }
    pose proof (length_keyed_entries site_key id (site_entry ps (stick_offset c)) sites) as Hl1. fold es in Hl1.
    pose proof (length_keyed_entries fst snd (circuit_entry pc (stick_offset c)) (grouped_circuits groups)) as Hl2.
    fold ec in Hl2. specialize (Hsize q). lia. }
  destruct (site_loop_chooses c ru_s sites (mkMinorLoop res2 ∅ [])) as (Hnext & ms & Hms & Hch); [done| | |].
  { intros q n. cbn. by rewrite lookup_empty. }
  { intros q. cbn. specialize (Hsize2 q). lia. }
  cbn zeta. set (loop := fold_left (site_step c ru_s) sites (mkMinorLoop res2 ∅ [])) in *. cbn in Hms, Hch.
  assert (forall q, Z.of_nat (size (set_at (loop_reserved loop) q)) + Z.of_nat (length (grouped_circuits groups)) < 2 ^ 32)
    as Hsize3.
  { intros q. pose proof (chooses_size _ _ _ _ _ Hch q) as Hq. rewrite length_map in Hq. specialize (Hsize2 q). lia. }
  destruct (group_loop_chooses c ru_c groups (mkMinorLoop (loop_reserved loop)
    (circuit_starts c (loop_reserved loop) (loop_next loop)) [])) as (mc & Hmc & Hch2); [done|done| |done|].
  { cbn. apply circuit_starts_ok; [done|done|]. intros q. specialize (Hsize3 q). lia. }
  exists res0, res1, res2, (loop_reserved loop), ru_s, ru_c, ms, mc. split; [|cbn; cbn in Hmc; by rewrite Hms, Hmc].
  split; [intros q; apply extend_reservations_spec|done|done|done|by eexists].
Qed.

(** A reusable minor is the entry's, and was free before its pass. *)
Lemma keyed_reusable {X V} (key : X -> rstring) (value : X -> V) entry (queue : V -> Z) l res res' ru k q m :
  reserved_spec (keyed_entries key value entry l) res res' ru -> NoDup (map key l) ->
  (forall k v, (entry k v).1 = queue v) -> (k, q) ∈ map (fun x => (key x, queue (value x))) l ->
  ru !! k = Some m ->
  (k, q, Some m) ∈ keyed_entries key value entry l /\ (m ∉ set_at res q) /\ m ∈ set_at res' q.
Proof.
  intros Hrs Hnd Hq Hin Hk. destruct (rs_sound _ _ _ _ Hrs k m Hk) as (q' & He & Hno & Hyes).
  assert (q' = q) as ->; [|done].
  apply elem_of_keyed_entries in He as (x & Hx & <- & Hex); [|done].
  apply (list_elem_of_fmap_1 (fun x => (key x, queue (value x)))) in Hin as (y & [= Hkey ->] & Hy).
  assert (x = y) as <- by (by apply (NoDup_map_inj key l)). by rewrite <- (Hq (key x) (value x)), Hex.
Qed.

Definition pair_of (t : rstring * Z * Z) : Z * Z := (t.1.2, t.2).

Section Planned.
Context (sites : list SiteIdentityInput) (groups : list CircuitIdentityGroupInput).
Context (ps pc : gmap rstring PlannerIdentityState) (c : ClassIdentityPlannerConstraints).
Context (res0 res1 res2 res3 : PlannerMinorReservations) (ru_sites ru_circuits : gmap rstring Z) (ms mc : list Z).
Hypothesis Hin : inputs_ok sites groups c.
Hypothesis Hpl : planned sites groups ps pc c res0 res1 res2 res3 ru_sites ru_circuits ms mc.

Lemma site_reusable k q m :
  (k, q) ∈ site_keys sites -> ru_sites !! k = Some m ->
  (k, q, Some m) ∈ keyed_entries site_key id (site_entry ps (stick_offset c)) sites
  /\ (m ∉ set_at res0 q) /\ m ∈ set_at res1 q.
Proof. intros Hk. by apply (keyed_reusable _ _ _ site_queue); [apply Hpl|apply Hin| |]. Qed.

Lemma circuit_reusable k q m :
  (k, q) ∈ circuit_keys groups -> ru_circuits !! k = Some m ->
  (k, q, Some m) ∈ keyed_entries fst snd (circuit_entry pc (stick_offset c)) (grouped_circuits groups)
  /\ (m ∉ set_at res1 q) /\ m ∈ set_at res2 q.
Proof. intros Hk. by apply (keyed_reusable _ _ _ group_queue); [apply Hpl|apply Hin| |]. Qed.

Lemma planned_grows q : set_at res0 q ⊆ set_at res1 q /\ set_at res1 q ⊆ set_at res2 q /\ set_at res2 q ⊆ set_at res3 q.
Proof.
  destruct Hpl as [_ Hs Hc Hsm _].
  split_and!; [apply (rs_grows _ _ _ _ Hs)|apply (rs_grows _ _ _ _ Hc)|by eapply chooses_grows].
Qed.

Lemma site_keys_NoDup : NoDup (map fst (site_keys sites)).
Proof. unfold site_keys. rewrite map_map. apply (in_sites _ _ _ Hin). Qed.

Lemma circuit_keys_NoDup : NoDup (map fst (circuit_keys groups)).
Proof. unfold circuit_keys. rewrite map_map. apply (in_circuits _ _ _ Hin). Qed.

(** Where a minor comes from. *)
Lemma site_minor_origin k q m :
  (k, q, m) ∈ triples (site_keys sites) ms ->
  (m ∉ set_at res0 q) /\ m ∈ set_at res3 q /\ (m ∈ set_at res1 q \/ m ∉ set_at res2 q).
Proof.
  intros Ht. destruct (chooses_triples _ _ _ _ _ (pl_site_minors _ _ _ _ _ _ _ _ _ _ _ _ _ Hpl) _ _ _ Ht)
    as (Hk & H3 & Hor). destruct (planned_grows q) as (H01 & H12 & H23).
  destruct Hor as [Hr|[_ Hno]]; [destruct (site_reusable k q m Hk Hr) as (_ & ? & ?)|]; split_and!; auto.
Qed.

Lemma circuit_minor_origin k q m :
  (k, q, m) ∈ triples (circuit_keys groups) mc ->
  (m ∉ set_at res1 q) /\ (m ∈ set_at res2 q \/ m ∉ set_at res3 q).
Proof.
  intros Ht. destruct (pl_circuit_minors _ _ _ _ _ _ _ _ _ _ _ _ _ Hpl) as [res4 Hch].
  destruct (chooses_triples _ _ _ _ _ Hch _ _ _ Ht) as (Hk & _ & Hor). destruct (planned_grows q) as (H01 & H12 & H23).
  destruct Hor as [Hr|[_ Hno]]; [destruct (circuit_reusable k q m Hk Hr) as (_ & ? & ?)|]; split; auto.
Qed.

Lemma planned_distinct :
  NoDup (map pair_of (triples (site_keys sites) ms ++ triples (circuit_keys groups) mc)).
Proof.
  rewrite map_app. apply NoDup_app. split_and!.
  - eapply chooses_distinct; [apply Hpl|apply site_keys_NoDup| |].
    + intros k q m Hk Hr. apply planned_grows. by apply (site_reusable k q m).
    + intros k k' q m Hk Hk' Hr Hr'. eapply (rs_inj _ _ _ _ (pl_sites _ _ _ _ _ _ _ _ _ _ _ _ _ Hpl)); [done|done|..];
        by apply site_reusable.
  - intros [q m] Hs Hc. apply (list_elem_of_fmap_1 pair_of) in Hs as ([[k q1] m1] & [= <- <-] & Hs).
    apply (list_elem_of_fmap_1 pair_of) in Hc as ([[k' q2] m2] & [= -> ->] & Hc).
    apply site_minor_origin in Hs as (_ & H3 & Hs). apply circuit_minor_origin in Hc as (H1 & Hc). tauto.
  - destruct (pl_circuit_minors _ _ _ _ _ _ _ _ _ _ _ _ _ Hpl) as [res4 Hch].
    eapply chooses_distinct; [done|apply circuit_keys_NoDup| |].
    + intros k q m Hk Hr. apply planned_grows. by apply (circuit_reusable k q m).
    + intros k k' q m Hk Hk' Hr Hr'. eapply (rs_inj _ _ _ _ (pl_circuits _ _ _ _ _ _ _ _ _ _ _ _ _ Hpl)); [done|done|..];
        by apply circuit_reusable.
Qed.

Lemma planned_unreserved q m :
  (q, m) ∈ map pair_of (triples (site_keys sites) ms ++ triples (circuit_keys groups) mc) ->
  (m ∉ set_at (reserved_site_minors c) q) /\ (m ∉ set_at (reserved_circuit_minors c) q).
Proof.
  intros Ht. apply (list_elem_of_fmap_1 pair_of) in Ht as ([[k q1] m1] & [= <- <-] & Ht).
  assert (m ∉ set_at res0 q) as Hno.
  { apply elem_of_app in Ht as [Ht%site_minor_origin|[Ht _]%circuit_minor_origin]; [apply Ht|].
    intros Hbad. by apply Ht, planned_grows. }
  rewrite (pl_start _ _ _ _ _ _ _ _ _ _ _ _ _ Hpl) in Hno. set_solver.
Qed.
End Planned.
