(* ===== verification/ClassPlannerProperties.v ===== *)
(** * Properties of class-identity planning

    Uniqueness of class identities, identities kept from one plan to the next, and termination of the
    search for a free minor. *)

From S2P Require Import Prelude RustStd RustCollections ClassPlanner ClassPlannerSpec.

(** ** Identities of a plan *)

(** Queue and minor of every class of a plan. *)
Definition class_identities (out : ClassIdentityPlannerOutput) : list (Z * Z) :=
  map (fun a => (assigned_site_queue a, assigned_site_minor a)) (out_sites out)
  ++ map (fun a => (assigned_circuit_queue a, assigned_circuit_minor a)) (out_circuits out).

Lemma map_zip_with {A B C D} (f : C -> D) (g : A -> B -> C) (l : list A) (k : list B) :
  map f (zip_with g l k) = zip_with (fun a b => f (g a b)) l k.
Proof. revert k. induction l as [|a l IH]; intros [|b k]; cbn; [done..|]. by rewrite IH. Qed.

Lemma zip_with_map_l {A B C D} (f : A -> B) (g : B -> C -> D) (l : list A) (k : list C) :
  zip_with g (map f l) k = zip_with (fun a c => g (f a) c) l k.
Proof. revert k. induction l as [|a l IH]; intros [|b k]; cbn; [done..|]. by rewrite IH. Qed.

Lemma zip_with_left {A B C} (h : A -> C) (l : list A) (k : list B) :
  length k = length l -> zip_with (fun a _ => h a) l k = map h l.
Proof. revert k. induction l as [|a l IH]; intros [|b k]; cbn; intros Hk; [done..|]. rewrite IH; congruence. Qed.

Lemma planned_lengths sites groups ps pc c res0 res1 res2 res3 ru_s ru_c ms mc :
  planned sites groups ps pc c res0 res1 res2 res3 ru_s ru_c ms mc ->
  length ms = length sites /\ length mc = length (grouped_circuits groups).
Proof.
  intros [_ _ _ Hs [res4 Hc]]. apply chooses_length in Hs, Hc.
  unfold site_keys, circuit_keys in *. by rewrite length_map in *.
Qed.

Lemma class_identities_triples sites groups c out ms mc :
  out_sites out = zip_with (site_assignment c) sites ms ->
  out_circuits out = zip_with (circuit_assignment c) (grouped_circuits groups) mc ->
  class_identities out
  = map (fun p => (p.1, class_number p.2))
      (map pair_of (triples (site_keys sites) ms ++ triples (circuit_keys groups) mc)).
Proof.
  intros Hs Hc. unfold class_identities. rewrite Hs, Hc, !map_app, !map_map. f_equal.
  - unfold triples, site_keys. by rewrite zip_with_map_l, !map_zip_with.
  - unfold triples, circuit_keys. by rewrite zip_with_map_l, !map_zip_with.
Qed.

Lemma class_number_inj n m : class_number n = m -> m <> u16_max -> n = m.
Proof. unfold class_number, u16_try_from. destruct (Z.leb_spec n u16_max); cbn; congruence. Qed.

(** Classes of a plan below the 16-bit limit are distinct. *)
Lemma pairs_class_unique (pairs : list (Z * Z)) i j q m :
  NoDup pairs ->
  map (fun p => (p.1, class_number p.2)) pairs !! i = Some (q, m) ->
  map (fun p => (p.1, class_number p.2)) pairs !! j = Some (q, m) -> m <> u16_max -> i = j.
Proof.
  intros Hnd Hi Hj Hm.
  apply (list_lookup_fmap_Some_1 (fun p : Z * Z => (p.1, class_number p.2))) in Hi as ([q1 m1] & [= -> H1] & Hi).
  apply (list_lookup_fmap_Some_1 (fun p : Z * Z => (p.1, class_number p.2))) in Hj as ([q2 m2] & [= -> H2] & Hj).
  cbn in *. apply (NoDup_lookup pairs i j (q2, m2)); [done| |done].
  rewrite (class_number_inj m2 m) by done. by rewrite <- (class_number_inj m1 m).
Qed.

Lemma class_identities_distinct sites groups ps pc c i j q m :
  inputs_ok sites groups c ->
  let out := plan_class_identities_with_constraints sites groups ps pc c in
  class_identities out !! i = Some (q, m) -> class_identities out !! j = Some (q, m) -> m <> u16_max -> i = j.
Proof.
  intros Hin. cbn zeta. destruct (plan_passes sites groups ps pc c Hin)
    as (res0 & res1 & res2 & res3 & ru_s & ru_c & ms & mc & Hpl & Hs & Hc).
  rewrite (class_identities_triples _ _ _ _ _ _ Hs Hc). apply pairs_class_unique.
  by apply (planned_distinct _ _ ps pc c res0 res1 res2 res3 ru_s ru_c).
Qed.

(** C29: Within one plan no two classes of a queue have the same minor, sites and circuits taken
    together, except classes past the 16-bit range, which all saturate at 0xFFFF; and no class below
    it has a minor the constraints reserve on its queue.  Every site and circuit is assigned, in the
    given order, on its own queue. *)
Theorem class_identities_unique sites groups ps pc c (Hin : inputs_ok sites groups c) :
  let out := plan_class_identities_with_constraints sites groups ps pc c in
  (forall i j q m, class_identities out !! i = Some (q, m) -> class_identities out !! j = Some (q, m) ->
     i = j \/ m = u16_max)
  /\ (forall q m, (q, m) ∈ class_identities out ->
        m = u16_max \/ ((m ∉ set_at (reserved_site_minors c) q) /\ (m ∉ set_at (reserved_circuit_minors c) q)))
  /\ map (fun a => (assigned_site_key a, assigned_site_queue a)) (out_sites out) = site_keys sites
  /\ map (fun a => (assigned_circuit_id a, assigned_circuit_queue a)) (out_circuits out) = circuit_keys groups.
Proof.
  cbn zeta. destruct (plan_passes sites groups ps pc c Hin)
    as (res0 & res1 & res2 & res3 & ru_s & ru_c & ms & mc & Hpl & Hs & Hc).
  rewrite (class_identities_triples _ _ _ _ _ _ Hs Hc), Hs, Hc.
  destruct (planned_lengths _ _ _ _ _ _ _ _ _ _ _ _ _ Hpl) as [Hlms Hlmc].
  pose proof (planned_distinct _ _ _ _ _ _ _ _ _ _ _ _ _ Hin Hpl) as Hnd.
  pose proof (planned_unreserved _ _ _ _ _ _ _ _ _ _ _ _ _ Hin Hpl) as Hun.
  generalize dependent (map pair_of (triples (site_keys sites) ms ++ triples (circuit_keys groups) mc)).
  intros pairs Hnd Hun. split_and!.
  - intros i j q m Hi Hj. destruct (decide (m = u16_max)) as [|Hm]; [by right|left]. by eapply pairs_class_unique.
  - intros q m Hqm. apply (list_elem_of_fmap_1 (fun p : Z * Z => (p.1, class_number p.2))) in Hqm
      as ([q1 m1] & [= -> Hm1] & Hp). cbn in *.
    destruct (decide (m = u16_max)) as [|Hm]; [by left|right]. symmetry in Hm1.
    apply class_number_inj in Hm1 as <-; [by apply Hun|done].
  - by rewrite map_zip_with, (zip_with_left (fun site => (site_key site, site_queue site))).
  - rewrite map_zip_with.
    exact (zip_with_left (fun x : rstring * CircuitIdentityGroupInput => (x.1, group_queue x.2)) _ _ Hlmc).
Qed.

(** ** Identities kept from the previous plan *)

(** What a plan stored for a class that has not moved. *)
Record unmoved (stored : PlannerIdentityState) (queue : Z) (parent : rstring) (stick_offset : Z) : Prop := {
  unmoved_minor : 3 <= stored_minor stored < 0xFFFF;
  unmoved_queue : stored_queue stored = queue;
  unmoved_parent : stored_parent stored = parent;
  unmoved_range : 1 <= queue <= 0xFFFF;
  unmoved_major : stored_major stored = queue;
  unmoved_up_major : stored_up_major stored = u16_saturating_add queue stick_offset
}.

Lemma reusable_minor_unmoved stored queue parent so m :
  reusable_minor (Some stored) queue parent so = Some m
  <-> m = stored_minor stored /\ unmoved stored queue parent so.
Proof.
  unfold reusable_minor, valid_class_minor, expected_class_majors, u16_try_from, u16_max. cbn.
  destruct (Z.leb_spec 3 (stored_minor stored)), (Z.ltb_spec (stored_minor stored) 0xFFFF); cbn.
  2-4: split; [done|intros [_ [? _ _ _ _ _]]; lia].
  destruct (Z.leb_spec queue 0xFFFF); cbn; [|split; [done|intros [_ [_ _ _ ? _ _]]; lia]].
  destruct (Z.ltb_spec 0 queue); cbn; [|split; [done|intros [_ [_ _ _ ? _ _]]; lia]].
  destruct (_ && _) eqn:Hg.
  - rewrite !andb_true_iff, !bool_decide_eq_true in Hg. destruct Hg as [[[? ?] ?] ?].
    split; [intros [= <-]; split; [done|by split; [lia| | |lia| |]]|by intros [-> _]].
  - split; [done|]. intros [_ [? Hq Hp _ Hm Hu]]. by rewrite Hq, Hp, Hm, Hu, !bool_decide_eq_true_2 in Hg by done.
Qed.

(** Stored identities with a valid minor are unique on their queue. *)
Record stored_unique (ps pc : gmap rstring PlannerIdentityState) : Prop := {
  su_sites : forall k k' s s', ps !! k = Some s -> ps !! k' = Some s' -> stored_queue s = stored_queue s' ->
    stored_minor s = stored_minor s' -> stored_minor s < 0xFFFF -> k = k';
  su_circuits : forall k k' s s', pc !! k = Some s -> pc !! k' = Some s' -> stored_queue s = stored_queue s' ->
    stored_minor s = stored_minor s' -> stored_minor s < 0xFFFF -> k = k';
  su_both : forall k k' s s', ps !! k = Some s -> pc !! k' = Some s' -> stored_queue s = stored_queue s' ->
    stored_minor s = stored_minor s' -> stored_minor s < 0xFFFF -> False
}.

Lemma elem_of_reserve_stored planned res k s q m :
  m ∈ set_at (reserve_stored planned res (k, s)) q <->
  m ∈ set_at res q \/ ((k ∉ planned) /\ stored_queue s = q /\ stored_minor s = m /\ 3 <= m < 0xFFFF).
Proof.
  unfold reserve_stored, valid_class_minor, u16_max. cbn [fst snd]. case_bool_decide as Hk; [tauto|].
  destruct (Z.leb_spec 3 (stored_minor s)), (Z.ltb_spec (stored_minor s) 0xFFFF); cbn.
  2-4: split; [tauto|]; intros [|(_ & _ & ? & ?)]; [done|lia].
  rewrite set_at_insert. case_decide as Hq; [subst|split; [tauto|intros [|(_ & ? & _)]; congruence]].
  rewrite elem_of_union, elem_of_singleton. split.
  - intros [->|]; [right|by left]. split_and!; done || lia.
  - intros [|(_ & _ & <- & _)]; [by right|by left].
Qed.

Lemma elem_of_unplanned planned previous q m :
  m ∈ set_at (reserve_unplanned planned previous) q <->
  exists k s, previous !! k = Some s /\ (k ∉ planned) /\ stored_queue s = q /\ stored_minor s = m /\ 3 <= m < 0xFFFF.
Proof.
  enough (forall l (res : gmap Z (gset Z)), m ∈ set_at (fold_left (reserve_stored planned) l res) q
    <-> m ∈ set_at res q \/ exists k s, (k, s) ∈ l /\ (k ∉ planned) /\ stored_queue s = q /\ stored_minor s = m
        /\ 3 <= m < 0xFFFF) as Hfold.
  { unfold reserve_unplanned. rewrite (Hfold (btree_iter previous) ∅). setoid_rewrite elem_of_btree_iter.
    unfold set_at. rewrite lookup_empty. cbn. rewrite elem_of_empty. tauto. }
  induction l as [|[k s] l IH]; intros res; cbn [fold_left].
  - split; [by left|]. intros [|(k & s & ?%elem_of_nil & _)]; done.
  - rewrite IH, elem_of_reserve_stored. setoid_rewrite elem_of_cons. split.
    + intros [[|Hks]|(k' & s' & ? & Hks)]; [by left|right; exists k, s; auto|right; exists k', s'; auto].
    + intros [|(k' & s' & [[= -> ->]|Hin] & Hks)]; [auto|auto|right; eauto].
Qed.

Lemma size_unplanned planned previous q :
  (size (set_at (reserve_unplanned planned previous) q) <= size previous)%nat.
Proof.
  unfold reserve_unplanned. rewrite <- length_map_to_list, <- (Permutation_length (btree_iter_perm previous)).
  enough (forall l (res : gmap Z (gset Z)),
    (size (set_at (fold_left (reserve_stored planned) l res) q) <= size (set_at res q) + length l)%nat) as Hfold.
  { specialize (Hfold (btree_iter previous) ∅). unfold set_at in Hfold at 2. rewrite lookup_empty in Hfold.
    cbn in Hfold. rewrite size_empty in Hfold. lia. }
  induction l as [|e l IH]; intros res; cbn [fold_left length]; [lia|]. etrans; [apply IH|].
  enough (size (set_at (reserve_stored planned res e) q) <= S (size (set_at res q)))%nat by lia.
  unfold reserve_stored. case_bool_decide; [lia|]. case_match; [apply size_entry_insert|lia].
Qed.

Record plan_ok (sites : list SiteIdentityInput) (groups : list CircuitIdentityGroupInput)
    (ps pc : gmap rstring PlannerIdentityState) (circuit_padding : Z) : Prop := {
  plan_sites : NoDup (map site_key sites);
  plan_circuits : NoDup (map fst (grouped_circuits groups));
  plan_padding : 0 <= circuit_padding;
  plan_size : Z.of_nat (size ps) + Z.of_nat (size pc)
    + 2 * (Z.of_nat (length sites) + Z.of_nat (length (grouped_circuits groups))) < 2 ^ 32
}.

(** The constraints of [plan_class_identities]. *)
Definition default_constraints (sites : list SiteIdentityInput) (groups : list CircuitIdentityGroupInput)
    (ps pc : gmap rstring PlannerIdentityState) (so padding : Z) : ClassIdentityPlannerConstraints :=
  mkClassIdentityPlannerConstraints (reserve_unplanned (list_to_set (map site_key sites)) ps)
    (reserve_unplanned (list_to_set (map fst (grouped_circuits groups))) pc) 3 3 so padding.

Lemma plan_inputs sites groups ps pc so padding :
  plan_ok sites groups ps pc padding -> inputs_ok sites groups (default_constraints sites groups ps pc so padding).
Proof.
  intros [Hs Hc Hp Hsz]. split; cbn; try done. intros q.
  pose proof (size_unplanned (list_to_set (map site_key sites)) ps q).
  pose proof (size_unplanned (list_to_set (map fst (grouped_circuits groups))) pc q). lia.
Qed.

Section Kept.
Context (sites : list SiteIdentityInput) (groups : list CircuitIdentityGroupInput).
Context (ps pc : gmap rstring PlannerIdentityState) (so padding : Z).
Hypothesis Hok : plan_ok sites groups ps pc padding.
Hypothesis Hsu : stored_unique ps pc.
Let c := default_constraints sites groups ps pc so padding.
Context (res0 res1 res2 res3 : PlannerMinorReservations) (ru_s ru_c : gmap rstring Z) (ms mc : list Z).
Hypothesis Hpl : planned sites groups ps pc c res0 res1 res2 res3 ru_s ru_c ms mc.

Lemma site_entry_stored k q m :
  (k, q, Some m) ∈ keyed_entries site_key id (site_entry ps (stick_offset c)) sites ->
  exists s, ps !! k = Some s /\ stored_queue s = q /\ stored_minor s = m /\ m < 0xFFFF.
Proof.
  rewrite elem_of_keyed_entries by apply Hok. intros (x & _ & _ & [= <- Hm]).
  destruct (ps !! k) as [s|]; [|done]. apply reusable_minor_unmoved in Hm as (-> & [Hv Hq _ _ _ _]). eauto with lia.
Qed.

Lemma circuit_entry_stored k q m :
  (k, q, Some m) ∈ keyed_entries fst snd (circuit_entry pc (stick_offset c)) (grouped_circuits groups) ->
  exists s, pc !! k = Some s /\ stored_queue s = q /\ stored_minor s = m /\ m < 0xFFFF.
Proof.
  rewrite elem_of_keyed_entries by apply Hok. intros (x & _ & _ & [= <- Hm]).
  destruct (pc !! k) as [s|]; [|done]. apply reusable_minor_unmoved in Hm as (-> & [Hv Hq _ _ _ _]). eauto with lia.
Qed.

(** An unmoved site's minor is reusable. *)
Lemma unmoved_site_reusable site stored :
  site ∈ sites -> ps !! site_key site = Some stored ->
  unmoved stored (site_queue site) (site_parent_path site) so ->
  ru_s !! site_key site = Some (stored_minor stored).
Proof.
  intros Hs Hst Hun. pose proof (unmoved_queue _ _ _ _ Hun) as Hq. pose proof (unmoved_minor _ _ _ _ Hun) as Hm.
  apply (rs_complete _ _ _ _ (pl_sites _ _ _ _ _ _ _ _ _ _ _ _ _ Hpl) _ (site_queue site)).
  - apply elem_of_keyed_entries; [apply Hok|]. exists site. split_and!; [done|done|]. unfold site_entry, id.
    rewrite Hst. f_equal. by apply reusable_minor_unmoved.
  - rewrite (pl_start _ _ _ _ _ _ _ _ _ _ _ _ _ Hpl), elem_of_union. cbn. rewrite !elem_of_unplanned.
    intros [(k & s & Hk & Hno & Hsq & Hsm & _)|(k & s & Hk & _ & Hsq & Hsm & _)].
    + apply Hno. replace k with (site_key site) by (eapply (su_sites _ _ Hsu); eauto with lia; congruence).
      apply elem_of_list_to_set. by apply (list_elem_of_fmap_2 site_key).
    + eapply (su_both _ _ Hsu); [apply Hst|apply Hk|congruence|congruence|lia].
  - intros k (s & Hk & Hsq & Hsm & _)%site_entry_stored.
    eapply (su_sites _ _ Hsu); [apply Hk|apply Hst|congruence|congruence|lia].
Qed.

Lemma unmoved_circuit_reusable circuit stored :
  circuit ∈ grouped_circuits groups -> pc !! circuit.1 = Some stored ->
  unmoved stored (group_queue circuit.2) (group_parent_node circuit.2) so ->
  ru_c !! circuit.1 = Some (stored_minor stored).
Proof.
  intros Hs Hst Hun. pose proof (unmoved_queue _ _ _ _ Hun) as Hq. pose proof (unmoved_minor _ _ _ _ Hun) as Hm.
  apply (rs_complete _ _ _ _ (pl_circuits _ _ _ _ _ _ _ _ _ _ _ _ _ Hpl) _ (group_queue circuit.2)).
  - apply elem_of_keyed_entries; [apply Hok|]. exists circuit. split_and!; [done|done|]. unfold circuit_entry.
    rewrite Hst. f_equal. by apply reusable_minor_unmoved.
  - intros Hin. apply (rs_only _ _ _ _ (pl_sites _ _ _ _ _ _ _ _ _ _ _ _ _ Hpl)) in Hin as [Hin|[k Hin]].
    + revert Hin. rewrite (pl_start _ _ _ _ _ _ _ _ _ _ _ _ _ Hpl), elem_of_union. cbn. rewrite !elem_of_unplanned.
      intros [(k & s & Hk & _ & Hsq & Hsm & _)|(k & s & Hk & Hno & Hsq & Hsm & _)].
      * eapply (su_both _ _ Hsu); [apply Hk|apply Hst|congruence|congruence|lia].
      * apply Hno. replace k with (circuit.1) by (eapply (su_circuits _ _ Hsu); eauto with lia; congruence).
        apply elem_of_list_to_set. by apply (list_elem_of_fmap_2 fst).
    + apply site_entry_stored in Hin as (s & Hk & Hsq & Hsm & _).
      eapply (su_both _ _ Hsu); [apply Hk|apply Hst|congruence|congruence|lia].
  - intros k (s & Hk & Hsq & Hsm & _)%circuit_entry_stored.
    eapply (su_circuits _ _ Hsu); [apply Hk|apply Hst|congruence|congruence|lia].
Qed.
End Kept.

Lemma class_number_small n : n <= 0xFFFF -> class_number n = n.
Proof. unfold class_number, u16_try_from, u16_max. intros Hn. by rewrite (proj2 (Z.leb_le _ _) Hn). Qed.

(** The states a plan stores. *)
Lemma zip_state_lookup {A S} (key : A -> rstring) (state : A -> S) (l : list A) k s :
  NoDup (map key l) ->
  insert_all (fun a => Some (key a)) state l ∅ !! k = Some s <-> exists a, a ∈ l /\ key a = k /\ state a = s.
Proof.
  intros Hnd. rewrite lookup_insert_all.
  - split; [|intros (a & ? & <- & ?); left; eauto].
    intros [(a & ? & [= <-] & ?)|[_ Hno]]; [eauto|by rewrite lookup_empty in Hno].
  - intros x y Hx Hy [= Hk] [= Hk']. f_equal. apply (NoDup_map_inj key l); [done..|congruence].
Qed.

Lemma plan_site_state sites groups ps pc c k s :
  inputs_ok sites groups c ->
  let out := plan_class_identities_with_constraints sites groups ps pc c in
  out_site_state out !! k = Some s
  <-> exists a, a ∈ out_sites out /\ assigned_site_key a = k /\ site_identity a = s.
Proof.
  intros Hin. cbn zeta. destruct (plan_passes sites groups ps pc c Hin)
    as (res0 & res1 & res2 & res3 & ru_s & ru_c & ms & mc & Hpl & Hs & Hc).
  rewrite <- (zip_state_lookup assigned_site_key site_identity).
  - unfold plan_class_identities_with_constraints. by do 2 case_match.
  - rewrite Hs, map_zip_with, (zip_with_left site_key) by apply (planned_lengths _ _ _ _ _ _ _ _ _ _ _ _ _ Hpl).
    apply Hin.
Qed.

Lemma plan_circuit_state sites groups ps pc c k s :
  inputs_ok sites groups c ->
  let out := plan_class_identities_with_constraints sites groups ps pc c in
  out_circuit_state out !! k = Some s
  <-> exists a, a ∈ out_circuits out /\ assigned_circuit_id a = k /\ circuit_identity a = s.
Proof.
  intros Hin. cbn zeta. destruct (plan_passes sites groups ps pc c Hin)
    as (res0 & res1 & res2 & res3 & ru_s & ru_c & ms & mc & Hpl & Hs & Hc).
  rewrite <- (zip_state_lookup assigned_circuit_id circuit_identity).
  - unfold plan_class_identities_with_constraints. by do 2 case_match.
  - rewrite Hc, map_zip_with. rewrite (zip_with_left (fun x : rstring * CircuitIdentityGroupInput => x.1))
      by apply (planned_lengths _ _ _ _ _ _ _ _ _ _ _ _ _ Hpl). apply Hin.
Qed.

(** What a plan stores is unique again. *)
Lemma plan_stored_unique sites groups ps pc c :
  inputs_ok sites groups c ->
  let out := plan_class_identities_with_constraints sites groups ps pc c in
  stored_unique (out_site_state out) (out_circuit_state out).
Proof.
  intros Hin. cbn zeta. set (out := plan_class_identities_with_constraints sites groups ps pc c).
  assert (forall i j q m, class_identities out !! i = Some (q, m) -> class_identities out !! j = Some (q, m) ->
    m < 0xFFFF -> i = j) as Huniq.
  { intros i j q m Hi Hj Hm. eapply (class_identities_distinct sites groups ps pc c i j q m); [done..|].
    unfold u16_max. lia. }
  assert (forall i a, out_sites out !! i = Some a ->
    class_identities out !! i = Some (assigned_site_queue a, assigned_site_minor a)) as Hsite.
  { intros i a Ha. unfold class_identities. apply lookup_app_l_Some.
    by apply (list_lookup_fmap_Some_2 (fun a => (assigned_site_queue a, assigned_site_minor a))). }
  assert (forall i a, out_circuits out !! i = Some a -> class_identities out !! (length (out_sites out) + i)%nat
    = Some (assigned_circuit_queue a, assigned_circuit_minor a)) as Hcircuit.
  { intros i a Ha. unfold class_identities. rewrite lookup_app_r by (rewrite length_map; lia). rewrite length_map.
    replace (length (out_sites out) + i - length (out_sites out))%nat with i by lia.
    by apply (list_lookup_fmap_Some_2 (fun a => (assigned_circuit_queue a, assigned_circuit_minor a))). }
  split.
  - intros k k' s s' (a & [i Ha]%list_elem_of_lookup_1 & <- & <-)%plan_site_state
      (a' & [j Ha']%list_elem_of_lookup_1 & <- & <-)%plan_site_state; [|done..].
    cbn. intros Hq Hm Hlt. apply Hsite in Ha as Hi. apply Hsite in Ha' as Hj. rewrite <- Hq, <- Hm in Hj.
    specialize (Huniq _ _ _ _ Hi Hj Hlt). subst j. congruence.
  - intros k k' s s' (a & [i Ha]%list_elem_of_lookup_1 & <- & <-)%plan_circuit_state
      (a' & [j Ha']%list_elem_of_lookup_1 & <- & <-)%plan_circuit_state; [|done..].
    cbn. intros Hq Hm Hlt. apply Hcircuit in Ha as Hi. apply Hcircuit in Ha' as Hj. rewrite <- Hq, <- Hm in Hj.
    specialize (Huniq _ _ _ _ Hi Hj Hlt). assert (i = j) as <- by lia. congruence.
  - intros k k' s s' (a & [i Ha]%list_elem_of_lookup_1 & <- & <-)%plan_site_state
      (a' & [j Ha']%list_elem_of_lookup_1 & <- & <-)%plan_circuit_state; [|done..].
    cbn. intros Hq Hm Hlt. apply Hsite in Ha as Hi. apply Hcircuit in Ha' as Hj. rewrite <- Hq, <- Hm in Hj.
    specialize (Huniq _ _ _ _ Hi Hj Hlt). apply lookup_lt_Some in Ha. fold out in Ha. lia.
Qed.

(** The minor a loop chose for an element with a reusable one. *)
Lemma chosen_reusable reusable res entries ms res' i k q m :
  chooses reusable res entries ms res' -> entries !! i = Some (k, q) -> reusable !! k = Some m -> ms !! i = Some m.
Proof.
  intros Hch He Hr. pose proof (chooses_length _ _ _ _ _ Hch) as Hlen.
  destruct (lookup_lt_is_Some_2 ms i) as [m' Hm']; [rewrite Hlen; by eapply lookup_lt_Some|].
  assert ((k, q, m') ∈ triples entries ms) as Ht.
  { apply list_elem_of_lookup. exists i. unfold triples. by rewrite lookup_zip_with, He, Hm'. }
  destruct (chooses_triples _ _ _ _ _ Hch _ _ _ Ht) as (_ & _ & [|[]]); congruence.
Qed.

Lemma kept_identity stored queue parent so :
  unmoved stored queue parent so ->
  mkPlannerIdentityState (class_number (stored_minor stored)) queue parent (class_number queue)
    (u16_saturating_add (class_number queue) so) = stored.
Proof.
  intros [Hm Hq Hp Hr Hma Hup]. rewrite !class_number_small by lia. rewrite <- Hup, <- Hp.
  destruct stored. cbn in *. congruence.
Qed.

(** C31: When the stored identities are unique on their queues, every site and every circuit whose
    queue and parent have not changed keeps exactly the identity stored for it, whatever else is
    added, removed or moved; and what the plan stores is unique again, so this holds from plan to
    plan. *)
Theorem unmoved_classes_keep_their_identity sites groups ps pc so padding
    (Hok : plan_ok sites groups ps pc padding) (Hsu : stored_unique ps pc) :
  let out := plan_class_identities sites groups ps pc so padding in
  (forall site stored, site ∈ sites -> ps !! site_key site = Some stored ->
     unmoved stored (site_queue site) (site_parent_path site) so ->
     out_site_state out !! site_key site = Some stored)
  /\ (forall group circuit_id stored, group ∈ groups -> circuit_id ∈ circuit_ids group ->
        pc !! circuit_id = Some stored -> unmoved stored (group_queue group) (group_parent_node group) so ->
        out_circuit_state out !! circuit_id = Some stored)
  /\ stored_unique (out_site_state out) (out_circuit_state out).
Proof.
  cbn zeta. set (c := default_constraints sites groups ps pc so padding).
  change (plan_class_identities sites groups ps pc so padding)
    with (plan_class_identities_with_constraints sites groups ps pc c).
  pose proof (plan_inputs sites groups ps pc so padding Hok) as Hin. fold c in Hin.
  destruct (plan_passes sites groups ps pc c Hin)
    as (res0 & res1 & res2 & res3 & ru_s & ru_c & ms & mc & Hpl & Hs & Hc).
  split_and!; [| |by apply plan_stored_unique].
  - intros site stored Hsite Hst Hun. apply plan_site_state; [done|].
    pose proof (unmoved_site_reusable _ _ _ _ _ _ Hok Hsu _ _ _ _ _ _ _ _ Hpl _ _ Hsite Hst Hun) as Hr.
    apply list_elem_of_lookup_1 in Hsite as [i Hi].
    assert (ms !! i = Some (stored_minor stored)) as Hm.
    { eapply (chosen_reusable _ _ _ _ _ i _ _ _ (pl_site_minors _ _ _ _ _ _ _ _ _ _ _ _ _ Hpl)); [|done].
      by apply (list_lookup_fmap_Some_2 (fun site => (site_key site, site_queue site))). }
    exists (site_assignment c site (stored_minor stored)). split_and!; [|done|by apply kept_identity].
    rewrite Hs. apply list_elem_of_lookup. exists i. by rewrite lookup_zip_with, Hi, Hm.
  - intros group id stored Hg Hid Hst Hun. apply plan_circuit_state; [done|].
    assert ((id, group) ∈ grouped_circuits groups) as Hcirc.
    { unfold grouped_circuits. apply list_elem_of_In, in_concat.
      exists (map (fun circuit_id => (circuit_id, group)) (circuit_ids group)). rewrite !in_map_iff. split.
      - exists group. split; [done|by apply list_elem_of_In].
      - exists id. split; [done|by apply list_elem_of_In]. }
    pose proof (unmoved_circuit_reusable _ _ _ _ _ _ Hok Hsu _ _ _ _ _ _ _ _ Hpl _ _ Hcirc Hst Hun) as Hr.
    apply list_elem_of_lookup_1 in Hcirc as [i Hi]. destruct (pl_circuit_minors _ _ _ _ _ _ _ _ _ _ _ _ _ Hpl) as [res4 Hch].
    assert (mc !! i = Some (stored_minor stored)) as Hm.
    { eapply (chosen_reusable _ _ _ _ _ i _ _ _ Hch); [|done]. cbn.
      by apply (list_lookup_fmap_Some_2 (fun x : rstring * CircuitIdentityGroupInput => (x.1, group_queue x.2))) in Hi. }
    exists (circuit_assignment c (id, group) (stored_minor stored)). split_and!; [|done|by apply kept_identity].
    rewrite Hc. apply list_elem_of_lookup. exists i. by rewrite lookup_zip_with, Hi, Hm.
Qed.

(** ** Termination of the search *)

Lemma next_free_loop_stops fuel : forall c reserved k,
  u32_ok c -> (k < fuel)%nat -> candidate c k ∉ reserved -> (forall j, (j < k)%nat -> candidate c j ∈ reserved) ->
  next_free_loop fuel c reserved = candidate c k.
Proof.
  induction fuel as [|fuel IH]; intros c reserved k Hc Hk Hfree Hall; [lia|]. cbn [next_free_loop].
  destruct k as [|k].
  - rewrite candidate_0 in * by done. by rewrite bool_decide_eq_false_2.
  - rewrite bool_decide_eq_true_2 by (rewrite <- (candidate_0 c) by done; apply Hall; lia).
    rewrite <- candidate_succ in *. apply IH; [apply u32_succ_ok|lia|done|].
    intros j Hj. rewrite candidate_succ. apply Hall. lia.
Qed.

(** The search for a free minor ends after at most as many steps as there are reserved minors, and
    more steps would not change its result; the result is not reserved; and when the range does not
    wrap it is the least minor from the start (at least 3) that is not reserved. *)
Theorem next_free_minor_terminates start reserved
    (Hstart : u32_ok start) (Hsize : Z.of_nat (size reserved) < 2 ^ 32) :
  let r := next_free_minor start reserved in
  (forall fuel, (size reserved < fuel)%nat -> next_free_loop fuel (Z.max start 3) reserved = r)
  /\ (r ∉ reserved)
  /\ (Z.max start 3 + Z.of_nat (size reserved) < 2 ^ 32 ->
      Z.max start 3 <= r <= Z.max start 3 + Z.of_nat (size reserved)
      /\ forall m, Z.max start 3 <= m < r -> m ∈ reserved).
Proof.
  cbn zeta. destruct (next_free_minor_spec start reserved Hstart Hsize) as (k & Hk & -> & Hfree & Hall).
  assert (u32_ok (Z.max start 3)) as Hm by (unfold u32_ok in *; lia). split_and!; [|done|].
  - intros fuel Hf. apply next_free_loop_stops; [done|lia|done|done].
  - intros Hwrap. assert (forall j, (j <= k)%nat -> candidate (Z.max start 3) j = Z.max start 3 + Z.of_nat j) as Hc.
    { intros j Hj. apply Z.mod_small. lia. }
    rewrite (Hc k) by lia. split; [lia|]. intros m Hmr.
    replace m with (candidate (Z.max start 3) (Z.to_nat (m - Z.max start 3))) by (rewrite Hc; lia).
    apply Hall. lia.
Qed.

(** ** A small tree *)

Definition sample_sites : list SiteIdentityInput :=
  [mkSiteIdentityInput (str "a") (str "") 1 true; mkSiteIdentityInput (str "a/b") (str "a") 1 false;
   mkSiteIdentityInput (str "c") (str "") 2 false].
Definition sample_groups : list CircuitIdentityGroupInput :=
  [mkCircuitIdentityGroupInput (str "a/b") 1 [str "c-1"; str "c-2"]; mkCircuitIdentityGroupInput (str "c") 2 [str "c-3"]].
Definition sample_plan : ClassIdentityPlannerOutput := plan_class_identities sample_sites sample_groups ∅ ∅ 10 8.

Lemma sample_plan_ok : plan_ok sample_sites sample_groups ∅ ∅ 8.
Proof.
  split; [| |done|by vm_compute].
  - by_compute.
  - by_compute.
Qed.

Lemma class_identities_unique_witness :
  class_identities sample_plan = [(1, 3); (1, 5); (2, 3); (1, 6); (1, 7); (2, 4)]
  /\ forall i j, class_identities sample_plan !! i = Some (1, 5) -> class_identities sample_plan !! j = Some (1, 5) -> i = j.
Proof.
  split; [by_compute|].
  destruct (class_identities_unique sample_sites sample_groups ∅ ∅ (default_constraints sample_sites sample_groups ∅ ∅ 10 8)
    (plan_inputs _ _ _ _ 10 8 sample_plan_ok)) as [Huniq _].
  intros i j Hi Hj. by destruct (Huniq i j 1 5 Hi Hj).
Defined.

(** A new site and a new circuit are planned before the old ones. *)
Definition grown_sites : list SiteIdentityInput := mkSiteIdentityInput (str "0") (str "") 1 true :: sample_sites.
Definition grown_groups : list CircuitIdentityGroupInput :=
  mkCircuitIdentityGroupInput (str "0") 1 [str "c-0"] :: sample_groups.

Lemma sample_stored_unique : stored_unique (out_site_state sample_plan) (out_circuit_state sample_plan).
Proof. apply (plan_stored_unique sample_sites sample_groups ∅ ∅), plan_inputs, sample_plan_ok. Qed.

Lemma grown_plan_ok :
  plan_ok grown_sites grown_groups (out_site_state sample_plan) (out_circuit_state sample_plan) 8.
Proof.
  split; [| |done|by vm_compute].
  - by_compute.
  - by_compute.
Qed.

Lemma unmoved_classes_keep_their_identity_witness :
  let out := plan_class_identities grown_sites grown_groups (out_site_state sample_plan) (out_circuit_state sample_plan) 10 8 in
  out_site_state out !! str "a/b" = Some (mkPlannerIdentityState 5 1 (str "a") 1 11)
  /\ out_circuit_state out !! str "c-1" = Some (mkPlannerIdentityState 6 1 (str "a/b") 1 11).
Proof.
  cbn zeta.
  destruct (unmoved_classes_keep_their_identity grown_sites grown_groups (out_site_state sample_plan)
    (out_circuit_state sample_plan) 10 8 grown_plan_ok sample_stored_unique) as (Hs & Hc & _). split.
  - apply (Hs (mkSiteIdentityInput (str "a/b") (str "a") 1 false)).
    + right. right. left.
    + vm_compute. reflexivity.
    + split; cbn; done || lia.
  - apply (Hc (mkCircuitIdentityGroupInput (str "a/b") 1 [str "c-1"; str "c-2"])).
    + right. left.
    + left.
    + vm_compute. reflexivity.
    + split; cbn; done || lia.
Defined.

Lemma next_free_minor_terminates_witness :
  next_free_minor 2 {[3; 4; 6]} = 5 /\ (5 ∉ ({[3; 4; 6]} : gset Z)).
Proof.
  destruct (next_free_minor_terminates 2 {[3; 4; 6]} ltac:(done) ltac:(by vm_compute)) as (_ & Hfree & _).
  assert (next_free_minor 2 {[3; 4; 6]} = 5) as Heq by by_compute. split; [exact Heq|]. by rewrite Heq in Hfree.
Defined.
