(* ===== verification/TopLevelPlanner.v ===== *)
(** * Placing top-level items in bins (crate [lqos_config], [planner.rs])

    [plan_top_level_assignments]: every top-level node is placed on a shaping queue, by round robin, by
    greedy balancing of weights, or by greedy balancing that keeps previous placements unless a move
    is worth it, its cooldown has passed and the budget of moves is not used up.  Weights and times
    are [f64]; maps are [BTreeMap]s, iterated in key order. *)

From S2P Require Import Prelude RustStd RustCollections RustFloat.

Record TopLevelPlannerItem : Type := mkTopLevelPlannerItem {
  item_id : rstring;
  item_weight : f64
}.

Inductive TopLevelPlannerMode : Type := Mode_RoundRobin | Mode_Greedy | Mode_StableGreedy.

Record TopLevelPlannerParams : Type := mkTopLevelPlannerParams {
  planner_mode : TopLevelPlannerMode;
  hysteresis_threshold : f64;
  cooldown_seconds : f64;
  move_budget_per_run : nat
}.

Record TopLevelPlannerOutput : Type := mkTopLevelPlannerOutput {
  out_assignment : gmap rstring rstring;
  out_changed : list rstring;
  planner_used : bool
}.

Definition sanitize_weight (weight : f64) : f64 :=
  if negb (f64_is_finite weight) || f64_le weight f64_zero then f64_one else weight.

(** [usize % usize] into a slice. *)
Definition bin_at (bins : list rstring) (idx : nat) : option rstring := bins !! (idx mod length bins)%nat.

Definition round_robin_assign (items : list TopLevelPlannerItem) (bins : list rstring)
    : gmap rstring rstring :=
  let ids := sort_with ord_leb (map item_id items) in
  fold_left (fun assignment '(idx, id) =>
      match bin_at bins idx with Some bin => <[id := bin]> assignment | None => assignment end)
    (imap pair ids) ∅.

(** Descending weight, then ascending id. *)
Definition heavier_first (a b : rstring * f64) : bool :=
  match f64_cmp b.2 a.2 with
  | Lt => true
  | Gt => false
  | Eq => ord_leb a.1 b.1
  end.

(** Ascending load, then ascending name. *)
Definition lighter (a b : rstring * f64) : bool :=
  match f64_cmp a.2 b.2 with
  | Lt => true
  | Gt => false
  | Eq => ord_leb a.1 b.1
  end.

(** [min_by]: the first of equal minima. *)
Definition lightest_bin (loads : gmap rstring f64) : option rstring :=
  match btree_iter loads with
  | [] => None
  | entry :: entries => Some (fold_left (fun best e => if lighter best e then best else e) entries entry).1
  end.

Definition empty_loads (bins : list rstring) : gmap rstring f64 :=
  insert_all Some (fun _ => f64_zero) bins ∅.

Definition greedy_step (bins : list rstring) (st : gmap rstring f64 * gmap rstring rstring)
    (pair : rstring * f64) : gmap rstring f64 * gmap rstring rstring :=
  let '(loads, assignment) := st in
  let target := match lightest_bin loads with Some bin => bin | None => default [] (head bins) end in
  (alter (fun load => f64_add load pair.2) target loads, <[pair.1 := target]> assignment).

Definition greedy_assign (items : list TopLevelPlannerItem) (bins : list rstring)
    : gmap rstring rstring :=
  let pairs := sort_with heavier_first (map (fun item => (item_id item, sanitize_weight (item_weight item))) items) in
  (fold_left (greedy_step bins) pairs (empty_loads bins, ∅)).2.

Definition load_by_bin (assignment : gmap rstring rstring) (item_weights : gmap rstring f64)
    (bins : list rstring) : gmap rstring f64 :=
  fold_left (fun loads '(id, bin) =>
      match item_weights !! id with
      | Some weight => alter (fun load => f64_add load weight) bin loads
      | None => loads
      end)
    (btree_iter assignment) (empty_loads bins).

(** ** The stable planner *)

(** The first placement: the previous one, else the greedy one, else round robin, else the first bin. *)
Definition initial_assignment (item_ids : list rstring) (bins : list rstring)
    (prev_valid greedy_assignment rr_assignment : gmap rstring rstring) : gmap rstring rstring :=
  fold_left (fun assignment id =>
      let chosen :=
        default (default [] (head bins))
          (option_or (prev_valid !! id) (option_or (greedy_assignment !! id) (rr_assignment !! id))) in
      <[id := chosen]> assignment)
    item_ids rr_assignment.

Record MoveState : Type := mkMoveState {
  mv_assignment : gmap rstring rstring;
  mv_loads : gmap rstring f64;
  moves_used : nat
}.

(** Whether an item may leave its bin for another: budget, cooldown and a worthwhile improvement. *)
Definition may_move (item_weights last_change_ts : gmap rstring f64) (now_ts min_improvement : f64)
    (params : TopLevelPlannerParams) (st : MoveState) (id current_bin target_bin : rstring) : bool :=
  let last_changed := default f64_zero (last_change_ts !! id) in
  let current_load := default f64_zero (mv_loads st !! current_bin) in
  let target_load := default f64_zero (mv_loads st !! target_bin) in
  let weight := default f64_one (item_weights !! id) in
  let imbalance_before := f64_sub current_load target_load in
  let imbalance_after := f64_abs (f64_sub (f64_sub current_load weight) (f64_add target_load weight)) in
  negb (bool_decide (current_bin = target_bin))
  && (moves_used st <? move_budget_per_run params)%nat
  && negb (f64_lt (f64_sub now_ts last_changed) (cooldown_seconds params))
  && negb (f64_le (f64_sub imbalance_before imbalance_after) min_improvement).

Definition move_step (greedy_assignment : gmap rstring rstring) (item_weights last_change_ts : gmap rstring f64)
    (now_ts min_improvement : f64) (params : TopLevelPlannerParams) (st : MoveState) (id : rstring) : MoveState :=
  match mv_assignment st !! id, greedy_assignment !! id with
  | Some current_bin, Some target_bin =>
      if may_move item_weights last_change_ts now_ts min_improvement params st id current_bin target_bin
      then
        let weight := default f64_one (item_weights !! id) in
        mkMoveState (<[id := target_bin]> (mv_assignment st))
          (alter (fun load => f64_add load weight) target_bin
             (alter (fun load => f64_sub load weight) current_bin (mv_loads st)))
          (S (moves_used st))
      else st
  | _, _ => st
  end.

(** The loop that spreads a single used bin: the first item whose greedy bin is another one moves. *)
Fixpoint spread_loop (greedy_assignment : gmap rstring rstring) (ids : list rstring)
    (assignment : gmap rstring rstring) : gmap rstring rstring :=
  match ids with
  | [] => assignment
  | id :: ids' =>
      match assignment !! id, greedy_assignment !! id with
      | Some current_bin, Some target_bin =>
          if bool_decide (current_bin = target_bin) then spread_loop greedy_assignment ids' assignment
          else <[id := target_bin]> assignment
      | _, _ => spread_loop greedy_assignment ids' assignment
      end
  end.

Definition stable_assignment (item_ids bins : list rstring)
    (prev_valid greedy_assignment rr_assignment : gmap rstring rstring)
    (item_weights last_change_ts : gmap rstring f64) (now_ts : f64) (params : TopLevelPlannerParams)
    : gmap rstring rstring :=
  let assignment := initial_assignment item_ids bins prev_valid greedy_assignment rr_assignment in
  let loads := load_by_bin assignment item_weights bins in
  let total_weight := fold_left f64_add (map snd (btree_iter item_weights)) f64_zero in
  let min_improvement := f64_mul total_weight (f64_max (hysteresis_threshold params) f64_zero) in
  let weight_of id := default f64_one (item_weights !! id) in
  let weighted_ids :=
    sort_with (fun a b => heavier_first (a, weight_of a) (b, weight_of b)) item_ids in
  let st :=
    fold_left (move_step greedy_assignment item_weights last_change_ts now_ts min_improvement params)
      weighted_ids (mkMoveState assignment loads 0) in
  let used_bins : gset rstring := list_to_set (map snd (btree_iter (mv_assignment st))) in
  if (1 <? length bins)%nat && (1 <? size (mv_assignment st))%nat && (size used_bins <=? 1)%nat
     && (moves_used st <? move_budget_per_run params)%nat
  then spread_loop greedy_assignment weighted_ids (mv_assignment st)
  else mv_assignment st.

(** The valid part of the previous assignment. *)
Definition valid_previous (prev_assign : gmap rstring rstring) (item_weights : gmap rstring f64)
    (bins : list rstring) : gmap rstring rstring :=
  base.filter (fun kv => is_Some (item_weights !! kv.1) /\ kv.2 ∈ bins) prev_assign.

(** The items whose bin is not the previous one. *)
Definition changed_items (assignment prev_valid : gmap rstring rstring) : list rstring :=
  sort_with ord_leb
    (omap (fun '(id, bin) =>
        match prev_valid !! id with
        | Some prev => if bool_decide (prev = bin) then None else Some id
        | None => None
        end)
      (btree_iter assignment)).

Definition plan_top_level_assignments (items : list TopLevelPlannerItem) (bins : list rstring)
    (prev_assign : gmap rstring rstring) (last_change_ts : gmap rstring f64) (now_ts : f64)
    (params : TopLevelPlannerParams) : TopLevelPlannerOutput :=
  if (length bins =? 0)%nat || (length items =? 0)%nat
  then mkTopLevelPlannerOutput ∅ [] (match planner_mode params with Mode_RoundRobin => false | _ => true end)
  else
    let item_ids := map item_id items in
    let item_weights :=
      insert_all (fun item => Some (item_id item)) (fun item => sanitize_weight (item_weight item)) items ∅ in
    let prev_valid := valid_previous prev_assign item_weights bins in
    let rr_assignment := round_robin_assign items bins in
    let greedy_assignment := greedy_assign items bins in
    let '(assignment, planner_used) :=
      match planner_mode params with
      | Mode_RoundRobin => (rr_assignment, false)
      | Mode_Greedy => (greedy_assignment, false)
      | Mode_StableGreedy =>
          (stable_assignment item_ids bins prev_valid greedy_assignment rr_assignment item_weights
             last_change_ts now_ts params, true)
      end in
    mkTopLevelPlannerOutput assignment (changed_items assignment prev_valid) planner_used.
