(* ===== verification/TopLevelPlannerSpec.v ===== *)
(** * What top-level placement guarantees

    Every item gets a bin of the list, the changes reported are exactly the moves away from valid
    previous bins, and the stable planner makes no more of them than its budget and, but for one that
    spreads a single used bin, none within the cooldown. *)

From S2P Require Import Prelude RustStd RustCollections RustFloat TopLevelPlanner.

(** ** Placements *)

(** An assignment of exactly [ids] to bins of the list. *)
Record places (ids bins : list rstring) (assignment : gmap rstring rstring) : Prop := {
  places_dom : forall id, is_Some (assignment !! id) <-> id ∈ ids;
  places_bins : forall id bin, assignment !! id = Some bin -> bin ∈ bins
}.

Lemma places_insert ids bins assignment id bin :
  places ids bins assignment -> id ∈ ids -> bin ∈ bins -> places ids bins (<[id := bin]> assignment).
Proof.
  intros [Hd Hb] Hid Hbin. split; intros id'.
  - rewrite lookup_insert. case_decide; [subst; split; [done|by eexists]|apply Hd].
  - intros bin'. rewrite lookup_insert. case_decide; [by intros [= <-]|apply Hb].
Qed.

(** A loop that places one id at a time. *)
Lemma places_fold {X S} (key : X -> rstring) (step : S -> X -> S) (view : S -> gmap rstring rstring)
    (inv : S -> Prop) bins xs : forall ids st,
  (forall st x, inv st -> x ∈ xs -> inv (step st x)
     /\ exists bin, bin ∈ bins /\ view (step st x) = <[key x := bin]> (view st)) ->
  inv st -> places ids bins (view st) -> places (ids ++ map key xs) bins (view (fold_left step xs st)).
Proof.
  induction xs as [|x xs IH]; intros ids st Hstep Hinv Hpl; cbn [fold_left map]; [by rewrite app_nil_r|].
  destruct (Hstep st x Hinv ltac:(left)) as (Hinv' & bin & Hbin & Hview).
  rewrite (cons_middle (key x)).
  rewrite (app_assoc ids [key x] (map key xs)).
  apply IH; [intros; apply Hstep; [done|by right]|done|]. rewrite Hview.
  destruct Hpl as [Hd Hb]. split; intros id; rewrite lookup_insert.
  - rewrite elem_of_app, list_elem_of_singleton. case_decide; [subst; split; [by right|by eexists]|].
    rewrite Hd. naive_solver.
  - intros bin'. case_decide; [by intros [= <-]|apply Hb].
Qed.

Lemma places_empty bins : places [] bins ∅.
Proof. split; intros id; [|intros bin]; rewrite lookup_empty, ?elem_of_nil; [by split; [intros []|]|done]. Qed.

Lemma places_perm ids ids' bins assignment :
  (forall id, id ∈ ids <-> id ∈ ids') -> places ids bins assignment -> places ids' bins assignment.
Proof. intros Heq [Hd Hb]. split; [|done]. intros id. by rewrite Hd. Qed.

Lemma bin_at_elem bins idx : bins <> [] -> exists bin, bin_at bins idx = Some bin /\ bin ∈ bins.
Proof.
  intros Hb. unfold bin_at. destruct (lookup_lt_is_Some_2 bins (idx mod length bins)) as [bin Hbin].
  - apply Nat.mod_upper_bound. by destruct bins.
  - exists bin. split; [done|]. by eapply list_elem_of_lookup_2.
Qed.

Lemma round_robin_places items bins :
  bins <> [] -> places (map item_id items) bins (round_robin_assign items bins).
Proof.
  intros Hb. unfold round_robin_assign. set (ids := sort_with ord_leb (map item_id items)).
  apply (places_perm (map snd (imap pair ids))).
  { intros id. replace (map snd (imap pair ids)) with ids; [subst ids; by rewrite sort_with_perm|].
    change (map snd (imap pair ids)) with (snd <$> imap pair ids). rewrite fmap_imap. cbn.
    symmetry. apply (list_eq (imap (fun _ x => x) ids) ids). intros i. rewrite list_lookup_imap. by destruct (ids !! i). }
  apply (places_fold snd _ id (fun _ => True) bins _ []); [|done|apply places_empty].
  intros assignment [idx id'] _ _. split; [done|]. destruct (bin_at_elem bins idx Hb) as (bin & -> & Hin).
  by exists bin.
Qed.

Lemma lightest_bin_elem loads bin : lightest_bin loads = Some bin -> is_Some (loads !! bin).
Proof.
  unfold lightest_bin. destruct (btree_iter loads) as [|e es] eqn:Hl; [done|]. intros [= <-].
  assert (forall es best, best ∈ btree_iter loads -> (forall x, x ∈ es -> x ∈ btree_iter loads) ->
    fold_left (fun best e => if lighter best e then best else e) es best ∈ btree_iter loads) as Hfold.
  { clear. induction es as [|x es IH]; intros best Hbest Hes; [done|]. cbn. apply IH.
    - case_match; [done|]. apply Hes. left.
    - intros y Hy. apply Hes. by right. }
  assert (fold_left (fun best e => if lighter best e then best else e) es e ∈ btree_iter loads) as Hin.
  { apply Hfold; rewrite Hl; [left|]. intros x Hx. by right. }
  destruct (fold_left _ es e) as [k v]. apply elem_of_btree_iter in Hin. by eexists.
Qed.

Lemma empty_loads_dom bins bin : is_Some (empty_loads bins !! bin) <-> bin ∈ bins.
Proof.
  unfold empty_loads. split.
  - intros [v Hv]. apply lookup_insert_all in Hv; [|done].
    destruct Hv as [(x & Hx & [= ->] & _)|[_ Hno]]; [done|by rewrite lookup_empty in Hno].
  - intros Hin. exists f64_zero. apply lookup_insert_all; [done|]. left. by exists bin.
Qed.

Lemma greedy_places items bins : bins <> [] -> places (map item_id items) bins (greedy_assign items bins).
Proof.
  intros Hb. unfold greedy_assign.
  set (pairs := map (fun item => (item_id item, sanitize_weight (item_weight item))) items).
  apply (places_perm (map fst (sort_with heavier_first pairs))).
  { intros id. rewrite (Permutation_map fst (sort_with_perm heavier_first pairs)). subst pairs. by rewrite map_map. }
  apply (places_fold fst _ snd (fun st => forall bin, is_Some (st.1 !! bin) <-> bin ∈ bins) bins _ []);
    [|apply empty_loads_dom|apply places_empty].
  intros [loads assignment] [id w] Hinv _. cbn in *. split.
  - intros bin. rewrite lookup_alter. case_decide; [subst|apply Hinv]. by rewrite fmap_is_Some.
  - eexists. split; [|done]. destruct (lightest_bin loads) as [bin|] eqn:Hl.
    + by apply Hinv, lightest_bin_elem.
    + destruct bins; [done|left].
Qed.

(** ** The stable planner *)

Section Stable.
Context (ids bins : list rstring) (prev_valid greedy rr : gmap rstring rstring).
Context (weights last_change_ts : gmap rstring f64) (now_ts : f64) (params : TopLevelPlannerParams).
Hypothesis Hgreedy : places ids bins greedy.
Hypothesis Hrr : places ids bins rr.
Hypothesis Hprev : forall id bin, prev_valid !! id = Some bin -> id ∈ ids /\ bin ∈ bins.

Let initial := initial_assignment ids bins prev_valid greedy rr.

Lemma initial_places : places ids bins initial.
Proof.
  apply (places_perm (ids ++ map id ids)).
  { intros x. rewrite map_id, elem_of_app. tauto. }
  apply (places_fold id _ id (fun _ => True) bins ids ids); [|done|done]. intros assignment x _ Hx. split; [done|].
  eexists. split; [|done]. destruct (prev_valid !! x) as [bin|] eqn:Hp; cbn; [by eapply Hprev|].
  destruct (proj2 (places_dom _ _ _ Hgreedy x) Hx) as [bin Hg]. rewrite Hg. cbn. by eapply (places_bins _ _ _ Hgreedy).
Qed.

(** Items with a valid previous bin start there. *)
Lemma initial_previous x bin : prev_valid !! x = Some bin -> initial !! x = Some bin.
Proof.
  intros Hp. destruct (Hprev x bin Hp) as [Hx _]. subst initial. unfold initial_assignment. revert Hx.
  set (f := fun (assignment : gmap rstring rstring) (id : rstring) => _).
  assert (forall assignment, f assignment x = <[x := bin]> assignment) as Hf
    by (intros; subst f; cbn; by rewrite Hp).
  assert (forall assignment y, exists b, f assignment y = <[y := b]> assignment) as Hg by (intros; by eexists).
  clearbody f. clear -Hf Hg. induction ids as [|y l IH] using rev_ind; intros Hx; [by apply elem_of_nil in Hx|].
  rewrite fold_left_app. cbn. destruct (decide (y = x)) as [->|Hy]; [by rewrite Hf, lookup_insert_eq|].
  destruct (Hg (fold_left f l rr) y) as [b ->]. rewrite lookup_insert_ne by done.
  apply IH. apply elem_of_app in Hx as [Hx|Hx%list_elem_of_singleton]; [done|congruence].
Qed.

Definition cooled_down (x : rstring) : Prop :=
  f64_lt (f64_sub now_ts (default f64_zero (last_change_ts !! x))) (cooldown_seconds params) = false.

(** What the loop of moves keeps: at most [moves_used] items have left their first bin, all of them
    past their cooldown. *)
Record moved_ok (st : MoveState) : Prop := {
  moved_places : places ids bins (mv_assignment st);
  moved_budget : (moves_used st <= move_budget_per_run params)%nat;
  moved_items : exists M : gset rstring, (size M <= moves_used st)%nat
    /\ (forall x, x ∉ M -> mv_assignment st !! x = initial !! x) /\ (forall x, x ∈ M -> cooled_down x)
}.

Lemma move_step_ok min_improvement st x :
  moved_ok st -> moved_ok (move_step greedy weights last_change_ts now_ts min_improvement params st x).
Proof.
  intros Hok. unfold move_step. destruct (mv_assignment st !! x) as [current|] eqn:Hx; [|done].
  destruct (greedy !! x) as [target|] eqn:Hg; [|done].
  destruct (may_move _ _ _ _ _ _ _ _ _) eqn:Hmay; [|done]. destruct Hok as [Hpl Hb (M & HM & Hsame & Hcool)].
  unfold may_move in Hmay. rewrite !andb_true_iff in Hmay. destruct Hmay as [[[_ Hbud] Hcd] _].
  apply Nat.ltb_lt in Hbud. apply negb_true_iff in Hcd. split; cbn.
  - apply places_insert; [done| |by eapply (places_bins _ _ _ Hgreedy)]. apply (places_dom _ _ _ Hpl). by eexists.
  - lia.
  - exists ({[x]} ∪ M). split_and!.
    + rewrite size_union_alt, size_singleton. pose proof (subseteq_size (M ∖ {[x]}) M ltac:(set_solver)). lia.
    + intros y Hy. rewrite lookup_insert_ne by set_solver. apply Hsame. set_solver.
    + intros y [->%elem_of_singleton|Hy]%elem_of_union; [exact Hcd|by apply Hcool].
Qed.

Lemma move_loop_ok min_improvement xs : forall st,
  moved_ok st ->
  moved_ok (fold_left (move_step greedy weights last_change_ts now_ts min_improvement params) xs st).
Proof. induction xs as [|x xs IH]; intros st Hok; [done|]. cbn. apply IH. by apply move_step_ok. Qed.

Lemma spread_loop_spec xs assignment :
  places ids bins assignment ->
  places ids bins (spread_loop greedy xs assignment)
  /\ exists x, forall y, y <> x -> spread_loop greedy xs assignment !! y = assignment !! y.
Proof.
  intros Hpl. induction xs as [|x xs IH]; cbn; [split; [done|by exists []]|].
  destruct (assignment !! x) as [current|] eqn:Hx; [|done]. destruct (greedy !! x) as [target|] eqn:Hg; [|done].
  case_bool_decide; [done|]. split.
  - apply places_insert; [done| |by eapply (places_bins _ _ _ Hgreedy)]. apply (places_dom _ _ _ Hpl). by eexists.
  - exists x. intros y Hy. by rewrite lookup_insert_ne.
Qed.

Lemma stable_assignment_spec :
  let result := stable_assignment ids bins prev_valid greedy rr weights last_change_ts now_ts params in
  places ids bins result
  /\ exists (M : gset rstring) (spread : option rstring),
       (size M + length (option_list spread) <= move_budget_per_run params)%nat
       /\ (forall x, x ∈ M -> cooled_down x)
       /\ forall x, x ∉ M -> Some x <> spread -> result !! x = initial !! x.
Proof.
  cbn zeta. unfold stable_assignment. fold initial.
  set (xs := sort_with _ ids). set (st := fold_left _ xs _).
  assert (moved_ok st) as [Hpl Hb (M & HM & Hsame & Hcool)].
  { apply move_loop_ok. split; [apply initial_places|cbn; lia|]. exists ∅. rewrite size_empty. set_solver. }
  clearbody st xs. case_match eqn:Hspread.
  - rewrite !andb_true_iff in Hspread. destruct Hspread as [_ Hbud%Nat.ltb_lt].
    destruct (spread_loop_spec xs _ Hpl) as [Hpl' [x Hx]]. split; [done|]. exists M, (Some x). cbn.
    split_and!; [lia|done|]. intros y Hy Hne. rewrite Hx by congruence. by apply Hsame.
  - split; [done|]. exists M, None. cbn. split_and!; [lia|done|auto].
Qed.
End Stable.

(** ** Changes *)

Lemma changed_items_spec assignment prev_valid :
  NoDup (changed_items assignment prev_valid)
  /\ forall x, x ∈ changed_items assignment prev_valid
     <-> exists prev bin, prev_valid !! x = Some prev /\ assignment !! x = Some bin /\ prev <> bin.
Proof.
  unfold changed_items. set (f := fun '(id, bin) => _).
  assert (forall k b x, f (k, b) = Some x <-> k = x /\ exists prev, prev_valid !! x = Some prev /\ prev <> b) as Hf.
  { intros k b x. subst f. cbn. destruct (prev_valid !! k) as [prev|] eqn:Hk; [case_bool_decide|]; naive_solver. }
  assert (forall x, x ∈ omap f (btree_iter assignment)
    <-> exists prev bin, prev_valid !! x = Some prev /\ assignment !! x = Some bin /\ prev <> bin) as Hin.
  { intros x. rewrite list_elem_of_omap. split.
    - intros ([k b] & Hkb%elem_of_btree_iter & (-> & prev & Hp & Hne)%Hf). eauto.
    - intros (prev & bin & Hp & Ha & Hne). exists (x, bin). rewrite elem_of_btree_iter, Hf. eauto. }
  split; [|intros x; by rewrite sort_with_perm].
  rewrite sort_with_perm. clear Hin. pose proof (NoDup_btree_iter assignment) as Hnd. revert Hnd.
  induction (btree_iter assignment) as [|[k b] l IH]; cbn [map omap list_omap]; [constructor|].
  intros [Hk Hnd]%NoDup_cons. destruct (f (k, b)) as [x|] eqn:Hx; [|by apply IH].
  apply Hf in Hx as [-> _]. constructor; [|by apply IH].
  intros ([k' b'] & Hin & [-> _]%Hf)%list_elem_of_omap. destruct Hk. by apply (list_elem_of_fmap_2 fst) in Hin.
Qed.

Lemma valid_previous_spec prev_assign items bins x p :
  valid_previous prev_assign
    (insert_all (fun item => Some (item_id item)) (fun item => sanitize_weight (item_weight item)) items ∅) bins !! x
    = Some p
  <-> prev_assign !! x = Some p /\ x ∈ map item_id items /\ p ∈ bins.
Proof.
  unfold valid_previous. rewrite map_lookup_filter_Some. cbn [fst snd].
  assert (forall m : gmap rstring f64, is_Some (insert_all (fun item => Some (item_id item))
      (fun item => sanitize_weight (item_weight item)) items m !! x)
    <-> is_Some (m !! x) \/ x ∈ map item_id items) as Hdom.
  { unfold insert_all. induction items as [|item items IH]; intros m; cbn.
    - rewrite elem_of_nil. tauto.
    - rewrite IH, elem_of_cons, lookup_insert_is_Some. destruct (decide (item_id item = x)); naive_solver. }
  rewrite Hdom, lookup_empty. split.
  - intros (? & [[? [=]]|?] & ?). done.
  - intros (? & ? & ?). auto.
Qed.

(** What every mode reports of a placement. *)
Lemma placement_reported (items : list TopLevelPlannerItem) (bins : list rstring)
    (prev_assign prev_valid assignment : gmap rstring rstring) :
  (forall x p, prev_valid !! x = Some p <-> prev_assign !! x = Some p /\ x ∈ map item_id items /\ p ∈ bins) ->
  places (map item_id items) bins assignment ->
  (forall x, is_Some (assignment !! x) <-> x ∈ map item_id items)
  /\ (forall x bin, assignment !! x = Some bin -> bin ∈ bins)
  /\ NoDup (changed_items assignment prev_valid)
  /\ (forall x, x ∈ changed_items assignment prev_valid <-> exists prev bin,
        prev_assign !! x = Some prev /\ prev ∈ bins /\ assignment !! x = Some bin /\ prev <> bin).
Proof.
  intros Hprev [Hd Hb]. destruct (changed_items_spec assignment prev_valid) as [Hnd Hin]. split_and!; [done..|].
  intros x. rewrite Hin. split; intros (prev & bin & Hx).
  - destruct Hx as (Hp & Ha & Hne). apply Hprev in Hp as (? & _ & ?). eauto 10.
  - destruct Hx as (Hp & Hpb & Ha & Hne). exists prev, bin. rewrite Hprev, <- Hd. eauto 10.
Qed.

(** With at least one bin and one item, every item and nothing else is placed, in a bin of the
    list; the items reported as changed are exactly those placed elsewhere than in their previous bin,
    when that bin still exists, each once; and the stable planner changes no more items than its
    budget, none within the cooldown but possibly one, which spreads a single used bin. *)
Theorem top_level_plan_is_bounded items (bins : list rstring) prev_assign last_change_ts now_ts params
    (Hbins : bins <> []) (Hitems : items <> []) :
  let out := plan_top_level_assignments items bins prev_assign last_change_ts now_ts params in
  (forall x, is_Some (out_assignment out !! x) <-> x ∈ map item_id items)
  /\ (forall x bin, out_assignment out !! x = Some bin -> bin ∈ bins)
  /\ NoDup (out_changed out)
  /\ (forall x, x ∈ out_changed out <-> exists prev bin,
        prev_assign !! x = Some prev /\ prev ∈ bins /\ out_assignment out !! x = Some bin /\ prev <> bin)
  /\ (planner_mode params = Mode_StableGreedy ->
      (length (out_changed out) <= move_budget_per_run params)%nat
      /\ exists spread, forall x, x ∈ out_changed out ->
           Some x = spread \/ cooled_down last_change_ts now_ts params x).
Proof.
  cbn zeta. unfold plan_top_level_assignments.
  rewrite (proj2 (Nat.eqb_neq (length bins) 0)) by (by destruct bins).
  rewrite (proj2 (Nat.eqb_neq (length items) 0)) by (by destruct items). cbn [orb].
  set (prev_valid := valid_previous _ _ _).
  assert (forall x p, prev_valid !! x = Some p <-> prev_assign !! x = Some p /\ x ∈ map item_id items /\ p ∈ bins)
    as Hprev by (intros; apply valid_previous_spec). clearbody prev_valid.
  pose proof (round_robin_places items bins Hbins) as Hrr. pose proof (greedy_places items bins Hbins) as Hg.
  destruct (planner_mode params); cbn [out_assignment out_changed].
  - destruct (placement_reported items bins _ _ _ Hprev Hrr) as (? & ? & ? & ?). by split_and!.
  - destruct (placement_reported items bins _ _ _ Hprev Hg) as (? & ? & ? & ?). by split_and!.
  - assert (forall x p, prev_valid !! x = Some p -> x ∈ map item_id items /\ p ∈ bins) as Hpv
      by (intros x p Hp; by apply Hprev in Hp as (_ & ? & ?)).
    set (weights := insert_all _ _ items ∅).
    destruct (stable_assignment_spec (map item_id items) bins prev_valid _ _ weights last_change_ts now_ts params
      Hg Hrr Hpv) as (Hpl & M & spread & Hsize & Hcool & Hsame).
    destruct (placement_reported items bins _ _ _ Hprev Hpl) as (H1 & H2 & Hnd & Hch). split_and!; [done..|].
    intros _. set (result := stable_assignment _ _ _ _ _ _ _ _ _) in *.
    assert (forall x, x ∈ changed_items result prev_valid -> x ∈ M \/ Some x = spread) as Hmoved.
    { intros x Hx. destruct (decide (x ∈ M)) as [|HM]; [by left|]. destruct (decide (Some x = spread)) as [|Hs]; [by right|].
      destruct (proj1 (proj2 (changed_items_spec result prev_valid) x) Hx) as (prev & bin & Hp & Hr & Hne).
      rewrite (Hsame x HM Hs) in Hr. rewrite (initial_previous (map item_id items) bins prev_valid _ _ Hpv x prev Hp) in Hr.
      congruence. }
    split.
    + etrans; [|exact Hsize].
      assert (list_to_set (changed_items result prev_valid) ⊆ M ∪ list_to_set (option_list spread)) as Hsub.
      { intros x Hx%elem_of_list_to_set. apply Hmoved in Hx as [|<-]; set_solver. }
      apply subseteq_size in Hsub. rewrite size_list_to_set in Hsub by done. etrans; [exact Hsub|].
      rewrite size_union_alt. apply Nat.add_le_mono_l. etrans; [apply subseteq_size, subseteq_difference_l; reflexivity|].
      destruct spread; cbn; [rewrite union_empty_r_L, size_singleton; lia|rewrite size_empty; lia].
    + exists spread. intros x Hx. apply Hmoved in Hx as [HM|]; [right; by apply Hcool|by left].
Qed.

(** The nodes of a run within their cooldown, both on one queue. *)
Definition sample_params : TopLevelPlannerParams :=
  mkTopLevelPlannerParams Mode_StableGreedy f64_zero (f64_of_Z 3600) 1.
Definition sample_items : list TopLevelPlannerItem :=
  [mkTopLevelPlannerItem (str "heavy") (f64_of_Z 100); mkTopLevelPlannerItem (str "light") f64_one].
Definition sample_bins : list rstring := [str "CpueQueue0"; str "CpueQueue1"].
Definition sample_previous : gmap rstring rstring :=
  <[str "heavy" := str "CpueQueue0"]> {[ str "light" := str "CpueQueue0" ]}.
Definition sample_changes : gmap rstring f64 :=
  <[str "heavy" := f64_of_Z 990]> {[ str "light" := f64_of_Z 990 ]}.

Lemma top_level_plan_is_bounded_witness :
  let out := plan_top_level_assignments sample_items sample_bins sample_previous ∅ (f64_of_Z 9000) sample_params in
  out_changed out = [str "light"]
  /\ (length (out_changed out) <= 1)%nat.
Proof.
  cbn zeta. split; [vm_compute; reflexivity|].
  refine (proj1 (proj2 (proj2 (proj2 (proj2
    (top_level_plan_is_bounded sample_items sample_bins sample_previous ∅ (f64_of_Z 9000) sample_params _ _)))) _));
    [discriminate..|reflexivity].
Defined.

(** The one move that spreads a single used bin does not wait for the cooldown: ten seconds after its
    last change, with a cooldown of an hour, an item moves. *)
Theorem spread_ignores_cooldown :
  let out :=
    plan_top_level_assignments sample_items sample_bins sample_previous sample_changes (f64_of_Z 1000) sample_params in
  out_changed out = [str "light"]
  /\ ~ cooled_down sample_changes (f64_of_Z 1000) sample_params (str "light").
Proof. split; [vm_compute; reflexivity|]. vm_compute. discriminate. Qed.
