(* ===== verification/TreeGuardTypes.v ===== *)
(** * TreeGuard: configuration and state

    TreeGuard saves CPU time by switching idle circuits from CAKE to fq_codel and by virtualizing idle
    nodes.  Its configuration with the validation of its values
    ([lqos_config/src/etc/v15/treeguard.rs]), the state it keeps for each circuit direction and link
    ([lqosd/src/treeguard/state.rs]) and its errors ([errors.rs]).  Times are seconds, [u64]. *)

From S2P Require Import Prelude RustStd RustCollections RustFloat.
From Stdlib Require Import SpecFloat.

(** [DownUpOrder]. *)
Record DownUpOrder (A : Type) : Type := mkDownUp { down : A; up : A }.
Arguments mkDownUp {A} down up.
Arguments down {A} d.
Arguments up {A} d.

#[export] Instance DownUpOrder_eq_dec {A} `{EqDecision A} : EqDecision (DownUpOrder A).
Proof. solve_decision. Defined.

(** ** Configuration *)

Inductive TreeguardCpuMode : Type := CpuAware | TrafficRttOnly.

Record TreeguardCpuConfig : Type := mkTreeguardCpuConfig {
  cpu_mode : TreeguardCpuMode;
  cpu_high_pct : Z;
  cpu_low_pct : Z
}.

Record TreeguardLinksConfig : Type := mkTreeguardLinksConfig {
  links_enabled : bool;
  all_nodes : bool;
  link_nodes : list rstring;
  links_idle_util_pct : f32;
  links_idle_min_minutes : Z;
  links_rtt_missing_seconds : Z;
  unvirtualize_util_pct : f32;
  min_state_dwell_minutes : Z;
  max_link_changes_per_hour : Z;
  reload_cooldown_minutes : Z;
  top_level_auto_virtualize : bool;
  top_level_safe_util_pct : f32
}.

Record TreeguardCircuitsConfig : Type := mkTreeguardCircuitsConfig {
  circuits_enabled : bool;
  all_circuits : bool;
  listed_circuits : list rstring;
  switching_enabled : bool;
  independent_directions : bool;
  idle_util_pct : f32;
  idle_min_minutes : Z;
  rtt_missing_seconds : Z;
  upgrade_util_pct : f32;
  min_switch_dwell_minutes : Z;
  max_switches_per_hour : Z;
  persist_sqm_overrides : bool
}.

Record TreeguardQooConfig : Type := mkTreeguardQooConfig {
  qoo_enabled : bool;
  min_score : f32
}.

Record TreeguardConfig : Type := mkTreeguardConfig {
  treeguard_enabled : bool;
  treeguard_dry_run : bool;
  tick_seconds : Z;
  tg_cpu : TreeguardCpuConfig;
  tg_links : TreeguardLinksConfig;
  tg_circuits : TreeguardCircuitsConfig;
  tg_qoo : TreeguardQooConfig
}.

Definition TreeguardCpuConfig_default : TreeguardCpuConfig := mkTreeguardCpuConfig CpuAware 75 55.
Definition TreeguardLinksConfig_default : TreeguardLinksConfig :=
  mkTreeguardLinksConfig false true [] (f32_of_Z 2) 15 120 (f32_of_Z 5) 30 4 10 false (f32_of_Z 85).
Definition TreeguardCircuitsConfig_default : TreeguardCircuitsConfig :=
  mkTreeguardCircuitsConfig true true [] true true (f32_of_Z 2) 15 120 (f32_of_Z 5) 30 4 true.
Definition TreeguardQooConfig_default : TreeguardQooConfig := mkTreeguardQooConfig true (f32_of_Z 70).
Definition TreeguardConfig_default : TreeguardConfig :=
  mkTreeguardConfig true false 1 TreeguardCpuConfig_default TreeguardLinksConfig_default
    TreeguardCircuitsConfig_default TreeguardQooConfig_default.

Definition validate_percent_u8 (name : rstring) (value : Z) : result rstring unit :=
  if 100 <? value then Err (name ++ str " must be between 0 and 100") else Ok tt.

Definition validate_percent_f32 (name : rstring) (value : f32) : result rstring unit :=
  if negb (f32_is_finite value) || negb (f32_le f32_zero value && f32_le value (f32_of_Z 100))
  then Err (name ++ str " must be between 0 and 100") else Ok tt.

Definition validate_non_zero (name : rstring) (value : Z) : result rstring unit :=
  if value =? 0 then Err (name ++ str " must be greater than 0") else Ok tt.

Definition links_validate (c : TreeguardLinksConfig) : result rstring unit :=
  _ ← validate_percent_f32 (str "treeguard.links.idle_util_pct") (links_idle_util_pct c);
  _ ← validate_percent_f32 (str "treeguard.links.unvirtualize_util_pct") (unvirtualize_util_pct c);
  _ ← validate_percent_f32 (str "treeguard.links.top_level_safe_util_pct") (top_level_safe_util_pct c);
  Ok tt.

Definition circuits_validate (c : TreeguardCircuitsConfig) : result rstring unit :=
  _ ← validate_percent_f32 (str "treeguard.circuits.idle_util_pct") (idle_util_pct c);
  _ ← validate_percent_f32 (str "treeguard.circuits.upgrade_util_pct") (upgrade_util_pct c);
  if f32_lt (upgrade_util_pct c) (idle_util_pct c)
  then Err (str "treeguard.circuits.upgrade_util_pct must be greater than or equal to treeguard.circuits.idle_util_pct")
  else Ok tt.

Definition qoo_validate (c : TreeguardQooConfig) : result rstring unit :=
  validate_percent_f32 (str "treeguard.qoo.min_score") (min_score c).

Definition TreeguardConfig_validate (c : TreeguardConfig) : result rstring unit :=
  let cpu := tg_cpu c in
  _ ← validate_percent_u8 (str "treeguard.cpu.cpu_high_pct") (cpu_high_pct cpu);
  _ ← validate_percent_u8 (str "treeguard.cpu.cpu_low_pct") (cpu_low_pct cpu);
  if cpu_high_pct cpu <? cpu_low_pct cpu
  then Err (str "treeguard.cpu.cpu_low_pct must be less than or equal to treeguard.cpu.cpu_high_pct")
  else
    _ ← validate_non_zero (str "treeguard.tick_seconds") (tick_seconds c);
    _ ← links_validate (tg_links c);
    _ ← circuits_validate (tg_circuits c);
    _ ← qoo_validate (tg_qoo c);
    Ok tt.

(** ** State *)

Record Ewma : Type := mkEwma { ewma_initialized : bool; ewma_value : f64 }.
Definition Ewma_default : Ewma := mkEwma false f64_zero.

(** [Ewma::update]; the value it returns is that of the new state. *)
Definition Ewma_update (e : Ewma) (sample alpha : f64) : Ewma :=
  if negb (ewma_initialized e) then mkEwma true sample
  else mkEwma true (f64_add (f64_mul alpha sample) (f64_mul (f64_sub f64_one alpha) (ewma_value e))).

Definition Ewma_current (e : Ewma) : option f64 := if ewma_initialized e then Some (ewma_value e) else None.

Inductive LinkVirtualState : Type := Physical | Virtual.
Inductive CircuitSqmState : Type := Cake | FqCodel.

#[export] Instance LinkVirtualState_eq_dec : EqDecision LinkVirtualState.
Proof. solve_decision. Defined.
#[export] Instance CircuitSqmState_eq_dec : EqDecision CircuitSqmState.
Proof. solve_decision. Defined.
#[export] Instance f64_eq_dec : EqDecision f64.
Proof. unfold f64. solve_decision. Defined.
#[export] Instance Ewma_eq_dec : EqDecision Ewma.
Proof. solve_decision. Defined.

Record LinkDirectionState : Type := mkLinkDirectionState {
  link_util_ewma_pct : Ewma;
  link_idle_since_unix : option Z;
  top_level_safe_since_unix : option Z;
  top_level_emergency_since_unix : option Z
}.

Record LinkTopologyFingerprint : Type := mkLinkTopologyFingerprint {
  direct_child_sites : nat;
  direct_circuits : nat
}.
#[export] Instance LinkTopologyFingerprint_eq_dec : EqDecision LinkTopologyFingerprint.
Proof. solve_decision. Defined.

(** [BakeryRuntimeNodeOperationFailureReason] of [lqos_bakery]. *)
Inductive BakeryRuntimeNodeOperationFailureReason : Type :=
| StructuralIneligibleNoPromotableChildren
| StructuralIneligibleSinglePromotableChild
| StructuralIneligibleNestedRuntimeBranch.

Record LinkStructuralIneligibleState : Type := mkLinkStructuralIneligibleState {
  ineligible_reason : BakeryRuntimeNodeOperationFailureReason;
  ineligible_fingerprint : LinkTopologyFingerprint
}.

Record LinkState : Type := mkLinkState {
  link_desired : LinkVirtualState;
  link_last_change_unix : option Z;
  link_recent_changes_unix : list Z;
  topology_fingerprint : LinkTopologyFingerprint;
  structural_ineligible : option LinkStructuralIneligibleState;
  link_down : LinkDirectionState;
  link_up : LinkDirectionState
}.

Record CircuitDirectionState : Type := mkCircuitDirectionState {
  desired : CircuitSqmState;
  last_change_unix : option Z;
  recent_changes_unix : list Z;
  util_ewma_pct : Ewma;
  idle_since_unix : option Z
}.
#[export] Instance CircuitDirectionState_eq_dec : EqDecision CircuitDirectionState.
Proof. solve_decision. Defined.

(** The two directions of a circuit. *)
Abbreviation CircuitState := (DownUpOrder CircuitDirectionState) (only parsing).

Definition CircuitDirectionState_default : CircuitDirectionState :=
  mkCircuitDirectionState Cake None [] Ewma_default None.
Definition CircuitState_default : CircuitState :=
  mkDownUp CircuitDirectionState_default CircuitDirectionState_default.

Definition is_sustained_window (now_unix : Z) (down_since_unix up_since_unix : option Z) (min_minutes : Z) : bool :=
  match down_since_unix, up_since_unix with
  | Some down_since, Some up_since =>
      let min_secs := u64_saturating_mul min_minutes 60 in
      (min_secs <=? u64_saturating_sub now_unix down_since) && (min_secs <=? u64_saturating_sub now_unix up_since)
  | _, _ => false
  end.

Definition is_sustained_idle (now_unix : Z) (down_idle_since_unix up_idle_since_unix : option Z)
    (idle_min_minutes : Z) : bool :=
  is_sustained_window now_unix down_idle_since_unix up_idle_since_unix idle_min_minutes.

(** ** Errors *)

(** [TreeguardError]; the text of an I/O error is carried as it prints. *)
Inductive TreeguardError : Type :=
| SpawnThread (error : rstring)
| OverridesLoad (details : rstring)
| OverridesSave (details : rstring)
| BakeryNotReady
| BakerySend (details : rstring)
| LiveMutationUnavailable (details : rstring)
| QueueStructureUnavailable (details : rstring)
| CircuitNotFound (id : rstring)
| InvalidClassId (details : rstring).

Definition treeguard_error_text (e : TreeguardError) : rstring :=
  match e with
  | SpawnThread error => str "failed to spawn TreeGuard actor thread: " ++ error
  | OverridesLoad details => str "failed to load overrides file: " ++ details
  | OverridesSave details => str "failed to save overrides file: " ++ details
  | BakeryNotReady => str "bakery is not initialized"
  | BakerySend details => str "failed to send command to bakery: " ++ details
  | LiveMutationUnavailable details => str "bakery live mutation unavailable: " ++ details
  | QueueStructureUnavailable details => str "queue structure snapshot unavailable: " ++ details
  | CircuitNotFound id => str "circuit not found in queue structure: " ++ id
  | InvalidClassId details => str "invalid queue structure class id: " ++ details
  end.
