(* ===== verification/TreeGuardDecisions.v ===== *)
(** * TreeGuard: decisions ([lqosd/src/treeguard/decisions.rs])

    The pure decisions: whether a link is virtualized or restored, and whether a direction of a circuit
    switches between CAKE and fq_codel; and the text of an SQM override. *)

From S2P Require Import Prelude RustStd RustCollections RustFloat TreeGuardTypes.

Inductive LinkVirtualDecision : Type := NoChange | SetLink (state : LinkVirtualState).

(** The switch of each direction, if any. *)
Abbreviation CircuitSqmDecision := (DownUpOrder (option CircuitSqmState)) (only parsing).
Definition CircuitSqmDecision_default : CircuitSqmDecision := mkDownUp None None.

Record LinkVirtualizationInput : Type := mkLinkVirtualizationInput {
  lv_now_unix : Z;
  lv_allowlisted : bool;
  lv_cpu_max_pct : option Z;
  lv_cpu_cfg : TreeguardCpuConfig;
  lv_links_cfg : TreeguardLinksConfig;
  lv_qoo_cfg : TreeguardQooConfig;
  lv_rtt_missing : bool;
  lv_qoo : DownUpOrder (option f32);
  lv_util_ewma_pct : DownUpOrder f64;
  lv_sustained_idle : bool;
  lv_state : LinkState
}.

Record TopLevelLinkVirtualizationInput : Type := mkTopLevelLinkVirtualizationInput {
  tl_now_unix : Z;
  tl_cpu_max_pct : option Z;
  tl_cpu_cfg : TreeguardCpuConfig;
  tl_links_cfg : TreeguardLinksConfig;
  tl_qoo_cfg : TreeguardQooConfig;
  tl_rtt_missing : bool;
  tl_qoo : DownUpOrder (option f32);
  tl_util_ewma_pct : DownUpOrder f64;
  safe_util_pct : f64;
  sustained_safe : bool;
  emergency_util_sustained : bool;
  tl_state : LinkState
}.

Record CircuitSqmInput : Type := mkCircuitSqmInput {
  cs_now_unix : Z;
  cs_allowlisted : bool;
  cs_cpu_max_pct : option Z;
  cs_cpu_cfg : TreeguardCpuConfig;
  cs_circuits_cfg : TreeguardCircuitsConfig;
  cs_qoo_cfg : TreeguardQooConfig;
  cs_rtt_missing : bool;
  cs_qoo : DownUpOrder (option f32);
  cs_state : CircuitState
}.

Definition cpu_allows_saving (cpu : TreeguardCpuConfig) (cpu_max_pct : option Z) : bool :=
  match cpu_mode cpu with
  | CpuAware => match cpu_max_pct with Some pct => cpu_high_pct cpu <=? pct | None => false end
  | TrafficRttOnly => true
  end.

Definition cpu_calls_for_revert (cpu : TreeguardCpuConfig) (cpu_max_pct : option Z) : bool :=
  match cpu_mode cpu with
  | CpuAware => match cpu_max_pct with Some pct => pct <=? cpu_low_pct cpu | None => false end
  | TrafficRttOnly => false
  end.

(** [score < qoo_cfg.min_score], of a score that is known. *)
Definition score_below (qoo_cfg : TreeguardQooConfig) (score : option f32) : bool :=
  match score with Some score => f32_lt score (min_score qoo_cfg) | None => false end.

Definition qoo_below_threshold (qoo_cfg : TreeguardQooConfig) (qoo : DownUpOrder (option f32)) : bool :=
  if negb (qoo_enabled qoo_cfg) then false
  else score_below qoo_cfg (down qoo) || score_below qoo_cfg (up qoo).

Definition in_dwell_window (now_unix : Z) (last_change_unix : option Z) (dwell_minutes : Z) : bool :=
  match last_change_unix with
  | None => false
  | Some last => u64_saturating_sub now_unix last <? u64_saturating_mul dwell_minutes 60
  end.

Definition rate_limited (recent_changes : nat) (max_changes_per_hour : Z) : bool :=
  if max_changes_per_hour =? 0 then true else max_changes_per_hour <=? Z.of_nat recent_changes.

(** ** Links *)

Definition decide_link_virtualization (i : LinkVirtualizationInput) : LinkVirtualDecision :=
  let state := lv_state i in
  let links_cfg := lv_links_cfg i in
  if negb (lv_allowlisted i) then NoChange
  else
    let qoo_bad := qoo_below_threshold (lv_qoo_cfg i) (lv_qoo i) in
    match link_desired state with
    | Physical =>
        if in_dwell_window (lv_now_unix i) (link_last_change_unix state) (min_state_dwell_minutes links_cfg)
        then NoChange
        else if rate_limited (length (link_recent_changes_unix state)) (max_link_changes_per_hour links_cfg)
        then NoChange
        else if negb (cpu_allows_saving (lv_cpu_cfg i) (lv_cpu_max_pct i)) then NoChange
        else if lv_sustained_idle i && negb qoo_bad then SetLink Virtual
        else NoChange
    | Virtual =>
        let threshold := f64_of_f32 (unvirtualize_util_pct links_cfg) in
        let util_high :=
          f64_le threshold (down (lv_util_ewma_pct i)) || f64_le threshold (up (lv_util_ewma_pct i)) in
        if util_high || qoo_bad || (lv_rtt_missing i && negb (lv_sustained_idle i))
        then SetLink Physical else NoChange
    end.

Definition decide_top_level_link_virtualization (i : TopLevelLinkVirtualizationInput) : LinkVirtualDecision :=
  let state := tl_state i in
  let links_cfg := tl_links_cfg i in
  let util_high :=
    f64_le (safe_util_pct i) (down (tl_util_ewma_pct i)) || f64_le (safe_util_pct i) (up (tl_util_ewma_pct i)) in
  match link_desired state with
  | Physical =>
      if in_dwell_window (tl_now_unix i) (link_last_change_unix state) (min_state_dwell_minutes links_cfg)
      then NoChange
      else if rate_limited (length (link_recent_changes_unix state)) (max_link_changes_per_hour links_cfg)
      then NoChange
      else if cpu_allows_saving (tl_cpu_cfg i) (tl_cpu_max_pct i) && sustained_safe i then SetLink Virtual
      else NoChange
  | Virtual => if emergency_util_sustained i || util_high then SetLink Physical else NoChange
  end.

(** ** Circuits *)

(** The choice between the two profiles, from what was measured. *)
Definition proposed_sqm (i : CircuitSqmInput) (desired : CircuitSqmState)
    (sustained_idle util_high qoo_bad : bool) : option CircuitSqmState :=
  match desired with
  | Cake =>
      if sustained_idle && cpu_allows_saving (cs_cpu_cfg i) (cs_cpu_max_pct i) && negb qoo_bad
      then Some FqCodel else None
  | FqCodel =>
      if util_high || qoo_bad || cpu_calls_for_revert (cs_cpu_cfg i) (cs_cpu_max_pct i)
      then Some Cake else None
  end.

Definition direction_util_high (cfg : TreeguardCircuitsConfig) (d : CircuitDirectionState) : bool :=
  f64_le (f64_of_f32 (upgrade_util_pct cfg)) (default f64_zero (Ewma_current (util_ewma_pct d))).

Definition score_bad (qoo_cfg : TreeguardQooConfig) (score : option f32) : bool :=
  if qoo_enabled qoo_cfg then score_below qoo_cfg score else false.

(** The closure [decide_direction]. *)
Definition decide_direction (i : CircuitSqmInput) (dir_qoo : option f32) (d : CircuitDirectionState)
    : option CircuitSqmState :=
  let cfg := cs_circuits_cfg i in
  let sustained_idle :=
    match idle_since_unix d with
    | Some since => u64_saturating_mul (idle_min_minutes cfg) 60 <=? u64_saturating_sub (cs_now_unix i) since
    | None => false
    end in
  if in_dwell_window (cs_now_unix i) (last_change_unix d) (min_switch_dwell_minutes cfg) then None
  else if rate_limited (length (recent_changes_unix d)) (max_switches_per_hour cfg) then None
  else proposed_sqm i (desired d) sustained_idle (direction_util_high cfg d) (score_bad (cs_qoo_cfg i) dir_qoo).

(** Both directions together. *)
Definition decide_both (i : CircuitSqmInput) : CircuitSqmDecision :=
  let cfg := cs_circuits_cfg i in
  let state := cs_state i in
  let worst_qoo :=
    match down (cs_qoo i), up (cs_qoo i) with
    | Some d, Some u => Some (f32_min d u)
    | Some v, None | None, Some v => Some v
    | None, None => None
    end in
  let sustained_idle :=
    is_sustained_idle (cs_now_unix i) (idle_since_unix (down state)) (idle_since_unix (up state))
      (idle_min_minutes cfg) in
  let util_high := direction_util_high cfg (down state) || direction_util_high cfg (up state) in
  let both :=
    if bool_decide (desired (down state) = FqCodel) && bool_decide (desired (up state) = FqCodel)
    then FqCodel else Cake in
  let proposed := proposed_sqm i both sustained_idle util_high (score_bad (cs_qoo_cfg i) worst_qoo) in
  mkDownUp proposed proposed.

Definition decide_circuit_sqm (i : CircuitSqmInput) : CircuitSqmDecision :=
  if negb (cs_allowlisted i) then CircuitSqmDecision_default
  else if negb (switching_enabled (cs_circuits_cfg i)) then CircuitSqmDecision_default
  else if independent_directions (cs_circuits_cfg i)
  then mkDownUp (decide_direction i (down (cs_qoo i)) (down (cs_state i)))
         (decide_direction i (up (cs_qoo i)) (up (cs_state i)))
  else decide_both i.

(** ** SQM override texts *)

Definition sqm_text (s : CircuitSqmState) : rstring :=
  match s with Cake => str "cake" | FqCodel => str "fq_codel" end.

Definition format_directional_sqm_override (down_state up_state : CircuitSqmState) : rstring :=
  sqm_text down_state ++ str "/" ++ sqm_text up_state.

(** [str::eq_ignore_ascii_case]. *)
Definition eq_ignore_ascii_case (s t : rstring) : bool :=
  bool_decide (to_ascii_lowercase s = to_ascii_lowercase t).

Definition parse_one (t : rstring) : option CircuitSqmState :=
  let t := trim t in
  if str_is_empty t || eq_ignore_ascii_case t (str "none") then None
  else if eq_ignore_ascii_case t (str "cake") then Some Cake
  else if eq_ignore_ascii_case t (str "fq_codel") then Some FqCodel
  else None.

Definition parse_directional_sqm_override (token : rstring) : DownUpOrder (option CircuitSqmState) :=
  let token := trim token in
  if str_is_empty token then mkDownUp None None
  else match split_once token 47 with
       | Some (d, u) => mkDownUp (parse_one d) (parse_one u)
       | None => mkDownUp (parse_one token) (parse_one token)
       end.
