(* ===== verification/TreeGuardCircuits.v ===== *)
(** * TreeGuard: the tick of a circuit ([lqosd/src/treeguard/actor.rs])

    What the actor does with one circuit each tick: prune its history, measure and smooth its
    utilization, decide, and apply the switch of either direction within the budget of the tick, with
    the warnings, the summary and the activity ring it reports; and the batches in which circuits are
    visited.  The three closures that write override files and reach the
    bakery are the environment [SqmEnv]; the calls made to it are recorded. *)

From S2P Require Import Prelude RustStd RustCollections RustFloat ShapedDevice TreeGuardTypes TreeGuardDecisions.

Definition ACTIVITY_RING_CAPACITY : nat := 200.
(** 0.1 *)
Definition UTIL_EWMA_ALPHA : f64 := Eval vm_compute in f64_div f64_one (f64_of_Z 10).
Definition TREEGUARD_CIRCUIT_TARGET_SWEEP_SECONDS : nat := 15.
Definition TREEGUARD_CIRCUIT_MIN_BATCH_SIZE : nat := 128.

(** ** What a tick reports and changes besides the circuit *)

Record TreeguardActivityEntry : Type := mkTreeguardActivityEntry {
  act_time : rstring;
  act_entity_type : rstring;
  act_entity_id : rstring;
  act_action : rstring;
  act_persisted : bool;
  act_reason : rstring;
  act_batch_id : option rstring;
  act_batch_kind : option rstring
}.

Inductive SqmCall : Type :=
| PersistOverride (device_ids : list rstring) (token : rstring)
| ClearOverride (device_ids : list rstring)
| LiveApply (circuit : rstring) (token : rstring).

Record Tick : Type := mkTick {
  tick_warnings : list rstring;
  tick_summary : option rstring;
  tick_activity : list TreeguardActivityEntry;
  tick_managed : gset rstring;
  tick_budget : nat;
  tick_deferred : Z;
  tick_calls : list SqmCall
}.

Record SqmEnv : Type := mkSqmEnv {
  persist_override : list rstring -> rstring -> result TreeguardError bool;
  clear_override : list rstring -> result TreeguardError bool;
  live_apply : rstring -> list ShapedDevice -> rstring -> result TreeguardError unit
}.

Definition push_activity (activity : list TreeguardActivityEntry) (entry : TreeguardActivityEntry)
    : list TreeguardActivityEntry :=
  (if (ACTIVITY_RING_CAPACITY <=? length activity)%nat then tail activity else activity) ++ [entry].

Definition tick_warn (warning : rstring) (t : Tick) : Tick :=
  mkTick (tick_warnings t ++ [warning]) (tick_summary t) (tick_activity t) (tick_managed t) (tick_budget t)
    (tick_deferred t) (tick_calls t).
Definition tick_act (entry : TreeguardActivityEntry) (t : Tick) : Tick :=
  mkTick (tick_warnings t) (tick_summary t) (push_activity (tick_activity t) entry) (tick_managed t)
    (tick_budget t) (tick_deferred t) (tick_calls t).
Definition tick_summarize (summary : rstring) (t : Tick) : Tick :=
  mkTick (tick_warnings t) (Some summary) (tick_activity t) (tick_managed t) (tick_budget t) (tick_deferred t)
    (tick_calls t).
Definition tick_call (call : SqmCall) (t : Tick) : Tick :=
  mkTick (tick_warnings t) (tick_summary t) (tick_activity t) (tick_managed t) (tick_budget t) (tick_deferred t)
    (tick_calls t ++ [call]).
Definition tick_manage (device_ids : list rstring) (t : Tick) : Tick :=
  mkTick (tick_warnings t) (tick_summary t) (tick_activity t) (tick_managed t ∪ list_to_set device_ids)
    (tick_budget t) (tick_deferred t) (tick_calls t).
Definition tick_set_budget (budget : nat) (t : Tick) : Tick :=
  mkTick (tick_warnings t) (tick_summary t) (tick_activity t) (tick_managed t) budget (tick_deferred t)
    (tick_calls t).
Definition tick_defer (t : Tick) : Tick :=
  mkTick (tick_warnings t) (tick_summary t) (tick_activity t) (tick_managed t) (tick_budget t)
    (u64_saturating_add (tick_deferred t) 1) (tick_calls t).

(** ** History and idleness *)

Fixpoint prune_recent_changes (recent_changes : list Z) (now_unix : Z) : list Z :=
  match recent_changes with
  | [] => []
  | t :: rest =>
      if 3600 <? u64_saturating_sub now_unix t then prune_recent_changes rest now_unix else recent_changes
  end.

Definition update_idle_since (idle_since : option Z) (now_unix : Z) (util_pct idle_pct : f64) : option Z :=
  if f64_lt util_pct idle_pct
  then match idle_since with None => Some now_unix | Some since => Some since end
  else None.

Definition prune_direction (now_unix : Z) (d : CircuitDirectionState) : CircuitDirectionState :=
  mkCircuitDirectionState (desired d) (last_change_unix d) (prune_recent_changes (recent_changes_unix d) now_unix)
    (util_ewma_pct d) (idle_since_unix d).

Definition forget_idle (d : CircuitDirectionState) : CircuitDirectionState :=
  mkCircuitDirectionState (desired d) (last_change_unix d) (recent_changes_unix d) (util_ewma_pct d) None.

(** A sample of a direction: [bps] bytes a second of [cap] megabits. *)
Definition util_pct (bps : Z) (cap : f32) : f64 :=
  let mbps := f64_div (f64_mul (f64_of_Z bps) (f64_of_Z 8)) (f64_of_Z 1000000) in
  f64_mul (f64_div mbps (f64_of_f32 cap)) (f64_of_Z 100).

Definition measure_direction (now_unix : Z) (cfg : TreeguardCircuitsConfig) (bps : Z) (cap : f32)
    (d : CircuitDirectionState) : CircuitDirectionState :=
  let ewma := Ewma_update (util_ewma_pct d) (util_pct bps cap) UTIL_EWMA_ALPHA in
  mkCircuitDirectionState (desired d) (last_change_unix d) (recent_changes_unix d) ewma
    (update_idle_since (idle_since_unix d) now_unix (ewma_value ewma) (f64_of_f32 (idle_util_pct cfg))).

(** A switch of a direction that was applied. *)
Definition record_switch (now_unix : Z) (proposed : CircuitSqmState) (d : CircuitDirectionState)
    : CircuitDirectionState :=
  mkCircuitDirectionState proposed (Some now_unix)
    (prune_recent_changes (recent_changes_unix d ++ [now_unix]) now_unix) (util_ewma_pct d) (idle_since_unix d).

(** ** Applying a switch *)

Record CircuitSqmTransition : Type := mkCircuitSqmTransition {
  proposed_down : CircuitSqmState;
  proposed_up : CircuitSqmState;
  changed_down : bool;
  changed_up : bool
}.

Definition treeguard_manages_circuit_direction (base_sqm : CircuitSqmState) : bool :=
  match base_sqm with Cake => true | FqCodel => false end.

(** One direction of [circuit_sqm_transition_from_decision]. *)
Definition proposed_direction (current base : CircuitSqmState) (decision : option CircuitSqmState)
    : CircuitSqmState :=
  if treeguard_manages_circuit_direction base then default current decision else base.

Definition circuit_sqm_transition_from_decision (state : CircuitState) (base_sqm : DownUpOrder CircuitSqmState)
    (decision : CircuitSqmDecision) : CircuitSqmTransition :=
  let pd := proposed_direction (desired (down state)) (down base_sqm) (down decision) in
  let pu := proposed_direction (desired (up state)) (up base_sqm) (up decision) in
  mkCircuitSqmTransition pd pu (negb (bool_decide (pd = desired (down state))))
    (negb (bool_decide (pu = desired (up state)))).

Definition try_consume_circuit_change_budget (remaining_budget : nat) : option nat :=
  match remaining_budget with O => None | S remaining => Some remaining end.

Definition is_retryable_live_mutation_unavailable (error : TreeguardError) : option rstring :=
  match error with LiveMutationUnavailable details => Some details | _ => None end.

(** What the actor knows of the circuit and of the tick ([CircuitTickContext]). *)
Record CircuitTickInput : Type := mkCircuitTickInput {
  in_now_unix : Z;
  in_now_nanos_since_boot : option Z;
  in_cpu_max_pct : option Z;
  in_dry_run : bool;
  in_circuit_id : rstring;
  in_circuit_entity_id : rstring;
  in_circuit_label : rstring;
  in_devices : list ShapedDevice;
  in_sqm_batch_id : rstring;
  in_allowlisted : bool;
  in_cap_down : f32;
  in_cap_up : f32;
  in_bps : DownUpOrder Z;
  in_last_rtt_seen_nanos : option Z;
  in_qoo : DownUpOrder (option f32);
  in_cpu_cfg : TreeguardCpuConfig;
  in_circuits_cfg : TreeguardCircuitsConfig;
  in_qoo_cfg : TreeguardQooConfig;
  in_base_sqm : DownUpOrder CircuitSqmState
}.

Definition sqm_entry (i : CircuitTickInput) (action : rstring) (persisted : bool) (reason : rstring)
    : TreeguardActivityEntry :=
  mkTreeguardActivityEntry (i64_to_string (in_now_unix i)) (str "circuit") (in_circuit_entity_id i) action
    persisted reason (Some (in_sqm_batch_id i)) (Some (str "sqm")).

(** The new desired states, where they change. *)
Definition apply_transition (now_unix : Z) (tr : CircuitSqmTransition) (state : CircuitState) : CircuitState :=
  mkDownUp
    (if changed_down tr then record_switch now_unix (proposed_down tr) (down state) else down state)
    (if changed_up tr then record_switch now_unix (proposed_up tr) (up state) else up state).

Definition applied_action (returning_to_base persisted_ok live_ok live_deferred : bool) : rstring * rstring :=
  match returning_to_base, persisted_ok, live_ok with
  | false, true, true => (str "set_sqm_override", str "Applied live + persisted")
  | false, true, false =>
      (str "set_sqm_override",
       if live_deferred then str "Persisted (live apply deferred)" else str "Persisted (live apply failed)")
  | false, false, true => (str "set_sqm_live", str "Applied live")
  | false, false, false => (str "set_sqm_live", str "Not applied")
  | true, true, true => (str "clear_sqm_override", str "Cleared live + persisted overlay")
  | true, true, false =>
      (str "clear_sqm_override",
       if live_deferred then str "Persisted clear (live apply deferred)"
       else str "Persisted clear (live apply failed)")
  | true, false, true => (str "clear_sqm_live", str "Applied live clear")
  | true, false, false => (str "clear_sqm_live", str "Not applied")
  end.

(** The write of the overrides, when it is wanted: whether it succeeded. *)
Definition persist_section (env : SqmEnv) (i : CircuitTickInput) (returning_to_base : bool) (token : rstring)
    (t : Tick) : Tick * bool :=
  if negb (persist_sqm_overrides (in_circuits_cfg i)) then (t, false)
  else
    let device_ids := map device_id (in_devices i) in
    let '(call, reply) :=
      if returning_to_base then (ClearOverride device_ids, clear_override env device_ids)
      else (PersistOverride device_ids token, persist_override env device_ids token) in
    let t := tick_call call t in
    match reply with
    | Ok _ => (t, true)
    | Err e =>
        (tick_act (sqm_entry i
             (if returning_to_base then str "clear_sqm_override_failed" else str "set_sqm_override_failed")
             false (str "Overrides write failed: " ++ treeguard_error_text e))
           (tick_warn (str "TreeGuard circuits: failed to " ++ (if returning_to_base then str "clear" else str "persist")
              ++ str " SQM overrides for circuit '" ++ in_circuit_id i ++ str "': " ++ treeguard_error_text e) t),
         false)
    end.

(** The live change: whether it succeeded, and whether it was deferred. *)
Definition live_section (env : SqmEnv) (i : CircuitTickInput) (returning_to_base : bool) (token live_token : rstring)
    (persisted_ok : bool) (t : Tick) : Tick * bool * bool :=
  let t := tick_call (LiveApply (in_circuit_id i) live_token) t in
  match live_apply env (in_circuit_id i) (in_devices i) live_token with
  | Ok _ => (t, true, false)
  | Err e =>
      match is_retryable_live_mutation_unavailable e with
      | Some details =>
          (tick_act (sqm_entry i
               (if returning_to_base then str "clear_sqm_live_deferred" else str "apply_sqm_live_deferred:" ++ token)
               persisted_ok (str "Bakery live apply deferred: " ++ details)) t,
           false, true)
      | None =>
          (tick_act (sqm_entry i
               (if returning_to_base then str "clear_sqm_live_failed" else str "apply_sqm_live_failed:" ++ token)
               persisted_ok (str "Bakery live apply failed: " ++ treeguard_error_text e))
             (tick_warn (str "TreeGuard circuits: live SQM apply failed for circuit '" ++ in_circuit_id i
                ++ str "': " ++ treeguard_error_text e) t),
           false, false)
      end
  end.

Definition apply_circuit_sqm_change (env : SqmEnv) (i : CircuitTickInput) (state : CircuitState)
    (tr : CircuitSqmTransition) (t : Tick) : CircuitState * Tick :=
  let now_unix := in_now_unix i in
  let token := format_directional_sqm_override (proposed_down tr) (proposed_up tr) in
  let returning_to_base :=
    bool_decide (proposed_down tr = down (in_base_sqm i)) && bool_decide (proposed_up tr = up (in_base_sqm i)) in
  let live_token := if returning_to_base then str "/" else token in
  if in_dry_run i
  then
    (apply_transition now_unix tr state,
     tick_summarize
       (if returning_to_base
        then str "Would clear TreeGuard SQM override for circuit '" ++ in_circuit_label i ++ str "' (base "
             ++ token ++ str ")"
        else str "Would set SQM override for circuit '" ++ in_circuit_label i ++ str "' -> " ++ token)
       (tick_act (sqm_entry i
            (if returning_to_base then str "would_clear_sqm_override" else str "would_set_sqm_override:" ++ token)
            false (str "Dry-run")) t))
  else
    let '(t, persisted_ok) := persist_section env i returning_to_base token t in
    let '(t, live_ok, live_deferred) := live_section env i returning_to_base token live_token persisted_ok t in
    if live_ok || persisted_ok
    then
      let '(action, reason) := applied_action returning_to_base persisted_ok live_ok live_deferred in
      (apply_transition now_unix tr state,
       tick_summarize
         (if returning_to_base
          then str "Cleared TreeGuard SQM override for circuit '" ++ in_circuit_label i ++ str "' (base "
               ++ token ++ str ")"
          else str "SQM override for circuit '" ++ in_circuit_label i ++ str "' -> " ++ token)
         (tick_act (sqm_entry i (action ++ str ":" ++ token) persisted_ok reason) t))
    else (state, t).

(** ** The tick *)

Definition capacity_known (i : CircuitTickInput) : bool :=
  f32_gt (in_cap_down i) f32_zero && f32_gt (in_cap_up i) f32_zero.

Definition rtt_missing (i : CircuitTickInput) : bool :=
  match in_now_nanos_since_boot i, in_last_rtt_seen_nanos i with
  | Some now_nanos, Some last_seen =>
      if 0 <? last_seen
      then u64_saturating_mul (rtt_missing_seconds (in_circuits_cfg i)) 1000000000
           <=? u64_saturating_sub now_nanos last_seen
      else true
  | _, _ => true
  end.

(** The state after the measurements of a tick. *)
Definition measured_state (i : CircuitTickInput) (state : CircuitState) : CircuitState :=
  let pruned := mkDownUp (prune_direction (in_now_unix i) (down state)) (prune_direction (in_now_unix i) (up state)) in
  if capacity_known i
  then mkDownUp
         (measure_direction (in_now_unix i) (in_circuits_cfg i) (down (in_bps i)) (in_cap_down i) (down pruned))
         (measure_direction (in_now_unix i) (in_circuits_cfg i) (up (in_bps i)) (in_cap_up i) (up pruned))
  else mkDownUp (forget_idle (down pruned)) (forget_idle (up pruned)).

Definition tick_decision (i : CircuitTickInput) (state : CircuitState) : CircuitSqmDecision :=
  decide_circuit_sqm
    (mkCircuitSqmInput (in_now_unix i) (in_allowlisted i && capacity_known i) (in_cpu_max_pct i) (in_cpu_cfg i)
       (in_circuits_cfg i) (in_qoo_cfg i) (rtt_missing i) (in_qoo i) state).

Definition process_circuit_tick (env : SqmEnv) (i : CircuitTickInput) (state : CircuitState) (t : Tick)
    : CircuitState * Tick * bool :=
  let no_devices := (length (in_devices i) =? 0)%nat in
  let t :=
    if capacity_known i then t
    else tick_warn (str "TreeGuard circuits: circuit '" ++ in_circuit_id i
                      ++ str "' has unknown capacity; no changes will be made.") t in
  let state := measured_state i state in
  let tr := circuit_sqm_transition_from_decision state (in_base_sqm i) (tick_decision i state) in
  let t :=
    if no_devices
    then tick_warn (str "TreeGuard circuits: circuit '" ++ in_circuit_id i
                      ++ str "' has no devices in ShapedDevices.csv.") t
    else tick_manage (map device_id (in_devices i)) t in
  let '(state, t) :=
    if (changed_down tr || changed_up tr) && negb no_devices
    then match try_consume_circuit_change_budget (tick_budget t) with
         | Some remaining => apply_circuit_sqm_change env i state tr (tick_set_budget remaining t)
         | None => (state, tick_defer t)
         end
    else (state, t) in
  (state, t, bool_decide (desired (down state) = FqCodel) || bool_decide (desired (up state) = FqCodel)).

(** ** Batches *)

Definition circuit_evaluation_batch_size (managed_circuits : nat) (all_circuits : bool) : nat :=
  if (managed_circuits =? 0)%nat then 0%nat
  else if negb all_circuits then managed_circuits
  else
    let target :=
      ((managed_circuits + TREEGUARD_CIRCUIT_TARGET_SWEEP_SECONDS - 1) / TREEGUARD_CIRCUIT_TARGET_SWEEP_SECONDS)%nat in
    Nat.min managed_circuits (Nat.max target TREEGUARD_CIRCUIT_MIN_BATCH_SIZE).

(** [n] turns of the loop of [collect_circuit_batch]. *)
Fixpoint batch_loop (enrolled : list rstring) (n index : nat) : list rstring * nat :=
  match n with
  | O => ([], index)
  | S n' =>
      let '(batch, last) :=
        batch_loop enrolled n' (if (length enrolled <=? S index)%nat then 0%nat else S index) in
      (option_list (enrolled !! index) ++ batch, last)
  end.

Definition collect_circuit_batch (enrolled : list rstring) (cursor batch_size : nat) : list rstring * nat :=
  if (length enrolled =? 0)%nat || (batch_size =? 0)%nat then ([], 0%nat)
  else
    let cursor := if (length enrolled <=? cursor)%nat then 0%nat else cursor in
    batch_loop enrolled (Nat.min batch_size (length enrolled)) cursor.
