(* ===== verification/TreeGuardCircuitsSpec.v ===== *)
(** * What TreeGuard guarantees for a circuit

    A run is a sequence of ticks of one circuit, each with its own measurements, environment and
    budget.  With directions managed independently, switches of a direction keep the configured dwell
    and hourly limit, a switch to fq_codel follows a whole idle period, and the calls made are those
    that put the desired profile in place.  With directions managed together neither limit holds. *)

From S2P Require Import Prelude RustStd RustCollections RustFloat ShapedDevice.
From S2P Require Import TreeGuardTypes TreeGuardDecisions TreeGuardCircuits.

(** ** Runs *)

Inductive Direction : Type := Down | Up.
Definition at_dir {A} (d : Direction) (x : DownUpOrder A) : A := match d with Down => down x | Up => up x end.

Record TickEvent : Type := mkTickEvent { ev_env : SqmEnv; ev_input : CircuitTickInput; ev_tick : Tick }.

Definition ev_now (e : TickEvent) : Z := in_now_unix (ev_input e).
Definition tick_step (state : CircuitState) (e : TickEvent) : CircuitState :=
  (process_circuit_tick (ev_env e) (ev_input e) state (ev_tick e)).1.1.

(** The times at which a direction switches. *)
Fixpoint switch_times (d : Direction) (state : CircuitState) (evs : list TickEvent) : list Z :=
  match evs with
  | [] => []
  | e :: evs' =>
      let state' := tick_step state e in
      (if bool_decide (desired (at_dir d state') = desired (at_dir d state)) then [] else [ev_now e])
      ++ switch_times d state' evs'
  end.

(** The smoothed utilization a tick leaves, when the capacity is known. *)
Definition sample_of (d : Direction) (state' : CircuitState) (e : TickEvent) : Z * option f64 :=
  (ev_now e,
   if capacity_known (ev_input e) then Some (ewma_value (util_ewma_pct (at_dir d state'))) else None).

Fixpoint samples (d : Direction) (state : CircuitState) (evs : list TickEvent) : list (Z * option f64) :=
  match evs with
  | [] => []
  | e :: evs' =>
      let state' := tick_step state e in sample_of d state' e :: samples d state' evs'
  end.

Definition after_ticks (state : CircuitState) (evs : list TickEvent) : CircuitState := fold_left tick_step evs state.

Lemma switch_times_app d evs evs' : forall state,
  switch_times d state (evs ++ evs') = switch_times d state evs ++ switch_times d (after_ticks state evs) evs'.
Proof.
  induction evs as [|e evs IH]; intros state; [done|].
  cbn [app switch_times after_ticks fold_left]. by rewrite IH, (assoc_L (++)).
Qed.

Lemma samples_app d evs evs' : forall state,
  samples d state (evs ++ evs') = samples d state evs ++ samples d (after_ticks state evs) evs'.
Proof. induction evs as [|e evs IH]; intros state; [done|]. cbn [app samples after_ticks fold_left]. by rewrite IH. Qed.

Lemma after_ticks_app state evs evs' : after_ticks state (evs ++ evs') = after_ticks (after_ticks state evs) evs'.
Proof. apply fold_left_app. Qed.

(** ** One tick *)

(** What a tick makes of a direction: the measured state, or a switch of it that was decided. *)
Lemma tick_step_direction d state e :
  let i := ev_input e in
  let m := measured_state i state in
  let p := proposed_direction (desired (at_dir d m)) (at_dir d (in_base_sqm i)) (at_dir d (tick_decision i m)) in
  at_dir d (tick_step state e) = at_dir d m
  \/ p <> desired (at_dir d m) /\ at_dir d (tick_step state e) = record_switch (in_now_unix i) p (at_dir d m).
Proof.
  cbn zeta. unfold tick_step, process_circuit_tick. set (i := ev_input e). set (m := measured_state i state).
  set (tr := circuit_sqm_transition_from_decision _ _ _).
  assert (forall t, (apply_circuit_sqm_change (ev_env e) i m tr t).1 = m
    \/ (apply_circuit_sqm_change (ev_env e) i m tr t).1 = apply_transition (in_now_unix i) tr m) as Happly'.
  { intros t. unfold apply_circuit_sqm_change. repeat case_match; auto. }
  set (t0 := if (length _ =? 0)%nat then _ else _).
  assert (at_dir d (apply_transition (in_now_unix i) tr m) = at_dir d m
    \/ proposed_direction (desired (at_dir d m)) (at_dir d (in_base_sqm i)) (at_dir d (tick_decision i m))
         <> desired (at_dir d m)
       /\ at_dir d (apply_transition (in_now_unix i) tr m)
          = record_switch (in_now_unix i)
              (proposed_direction (desired (at_dir d m)) (at_dir d (in_base_sqm i)) (at_dir d (tick_decision i m)))
              (at_dir d m)) as Htr.
  { subst tr. destruct d; cbn; case_bool_decide; cbn; auto. }
  destruct ((changed_down tr || changed_up tr) && negb _); [|by left].
  destruct (try_consume_circuit_change_budget _) as [r|]; [|by left].
  destruct (Happly' (tick_set_budget r t0)) as [Hs|Hs];
    destruct (apply_circuit_sqm_change _ _ _ _ _) as [s t]; cbn in *; subst s; [by left|done].
Qed.

(** The measurements do not touch what was decided before. *)
Lemma measured_direction d i state :
  let m := at_dir d (measured_state i state) in
  desired m = desired (at_dir d state)
  /\ last_change_unix m = last_change_unix (at_dir d state)
  /\ recent_changes_unix m = prune_recent_changes (recent_changes_unix (at_dir d state)) (in_now_unix i).
Proof. cbn zeta. unfold measured_state. destruct (capacity_known i), d; done. Qed.

(** A [u32] of minutes does not saturate. *)
Lemma minutes_in_u64 n : 0 <= n < 2 ^ 32 -> u64_saturating_mul n 60 = n * 60.
Proof.
  intros Hn. unfold u64_saturating_mul. assert (n * 60 <= u64_max) by (change u64_max with 18446744073709551615; lia).
  lia.
Qed.

Lemma prune_suffix l now :
  exists old, l = old ++ prune_recent_changes l now /\ Forall (fun x => x + 3600 < now) old.
Proof.
  induction l as [|x l (old & Hl & Hold)]; cbn; [by exists []|].
  destruct (3600 <? u64_saturating_sub now x) eqn:Hx; [|by exists []]. to_prop. unfold u64_saturating_sub in Hx.
  exists (x :: old). split; [by rewrite Hl at 1|]. constructor; [lia|done].
Qed.

Lemma prune_idemp l now : prune_recent_changes (prune_recent_changes l now) now = prune_recent_changes l now.
Proof. induction l as [|x l IH]; cbn; [done|]. destruct (3600 <? u64_saturating_sub now x) eqn:Hx; cbn; by rewrite ?Hx. Qed.

(** A switch of a managed direction, directions being independent, was decided for that direction. *)
Lemma switch_decided d state e :
  let i := ev_input e in
  let m := at_dir d (measured_state i state) in
  independent_directions (in_circuits_cfg i) = true -> at_dir d (in_base_sqm i) = Cake ->
  desired (at_dir d (tick_step state e)) <> desired (at_dir d state) ->
  exists p, at_dir d (tick_step state e) = record_switch (in_now_unix i) p m
  /\ in_allowlisted i = true /\ capacity_known i = true /\ switching_enabled (in_circuits_cfg i) = true
  /\ in_dwell_window (in_now_unix i) (last_change_unix m) (min_switch_dwell_minutes (in_circuits_cfg i)) = false
  /\ rate_limited (length (recent_changes_unix m)) (max_switches_per_hour (in_circuits_cfg i)) = false
  /\ match desired m with
     | Cake =>
         p = FqCodel /\ cpu_allows_saving (in_cpu_cfg i) (in_cpu_max_pct i) = true
         /\ score_bad (in_qoo_cfg i) (at_dir d (in_qoo i)) = false
         /\ exists since, idle_since_unix m = Some since
            /\ u64_saturating_mul (idle_min_minutes (in_circuits_cfg i)) 60 <= u64_saturating_sub (in_now_unix i) since
     | FqCodel =>
         p = Cake
         /\ (direction_util_high (in_circuits_cfg i) m = true \/ score_bad (in_qoo_cfg i) (at_dir d (in_qoo i)) = true
             \/ cpu_calls_for_revert (in_cpu_cfg i) (in_cpu_max_pct i) = true)
     end.
Proof.
  cbn zeta. intros Hind Hbase Hne. set (i := ev_input e) in *.
  destruct (tick_step_direction d state e) as [Hs|[Hp Hs]]; fold i in Hs.
  { destruct (measured_direction d i state) as (Hd & _). rewrite Hs, Hd in Hne. done. }
  fold i in Hp. set (m := at_dir d (measured_state i state)) in *. rewrite Hbase in Hp, Hs. cbn in Hp, Hs.
  destruct (at_dir d (tick_decision i (measured_state i state))) as [p|] eqn:Hdec; cbn in Hp, Hs; [|done].
  exists p. split; [done|]. revert Hdec. unfold tick_decision, decide_circuit_sqm. cbn.
  destruct (in_allowlisted i); [|by destruct d]. destruct (capacity_known i) eqn:Hcap; cbn; [|by destruct d].
  destruct (switching_enabled (in_circuits_cfg i)); cbn; [|by destruct d]. rewrite Hind.
  set (ci := mkCircuitSqmInput _ _ _ _ _ _ _ _ _). intros Hdec.
  assert (decide_direction ci (at_dir d (in_qoo i)) m = Some p) as Hdir by (by destruct d).
  clear Hdec. unfold decide_direction in Hdir. cbn in Hdir.
  destruct (in_dwell_window _ _ _); [done|]. destruct (rate_limited _ _); [done|]. split_and!; [done..|].
  unfold proposed_sqm in Hdir. cbn in Hdir. destruct (desired m).
  - destruct (_ && negb _) eqn:Hc in Hdir; [|done]. injection Hdir as <-. to_prop. split_and!; [done..|].
    destruct (idle_since_unix m) as [since|]; [|done]. to_prop. by exists since.
  - destruct (_ || _ || _) eqn:Hc in Hdir; [|done]. injection Hdir as <-. split; [done|].
    rewrite !orb_true_iff in Hc. tauto.
Qed.

(** ** Limits on switches *)

(** Ticks come in the order of time. *)
Definition ticks_in_order (evs : list TickEvent) : Prop :=
  forall k e e', evs !! k = Some e -> evs !! S k = Some e' -> ev_now e <= ev_now e'.

(** A direction that TreeGuard manages, under one configuration with independent directions. *)
Definition managed_run (cfg : TreeguardCircuitsConfig) (d : Direction) (evs : list TickEvent) : Prop :=
  independent_directions cfg = true
  /\ Forall (fun e => in_circuits_cfg (ev_input e) = cfg /\ at_dir d (in_base_sqm (ev_input e)) = Cake) evs.

Definition in_last_hour (w x : Z) : Prop := w - 3600 <= x <= w.
#[export] Instance in_last_hour_dec w x : Decision (in_last_hour w x).
Proof. unfold in_last_hour. apply _. Defined.

Section Limits.
Context (cfg : TreeguardCircuitsConfig) (d : Direction).
Hypothesis Hdwell : 0 <= min_switch_dwell_minutes cfg < 2 ^ 32.

Let dwell_secs := min_switch_dwell_minutes cfg * 60.

(** The history of a direction up to time [now], whose switches are [T]. *)
Record limited (now : Z) (T : list Z) (s : CircuitDirectionState) : Prop := {
  lim_last : last_change_unix s = last T;
  lim_past : Forall (fun x => x <= now) T;
  lim_recent : exists old, T = old ++ recent_changes_unix s /\ Forall (fun x => x + 3600 < now) old;
  lim_gaps : forall k a b, T !! k = Some a -> T !! S k = Some b -> dwell_secs <= b - a;
  lim_hour : forall w, Z.of_nat (length (base.filter (in_last_hour w) T)) <= Z.max 0 (max_switches_per_hour cfg)
}.

Lemma dwell_passed now last :
  in_dwell_window now (Some last) (min_switch_dwell_minutes cfg) = false -> last <= now -> dwell_secs <= now - last.
Proof.
  unfold in_dwell_window. intros Hdw%Z.ltb_ge. rewrite minutes_in_u64 in Hdw by done.
  unfold u64_saturating_sub in Hdw. subst dwell_secs. lia.
Qed.

Lemma limited_mono now now' T s : now <= now' -> limited now T s -> limited now' T s.
Proof.
  intros Hle [Hl Hp (old & HT & Hold) Hg Hh]. split; [done| | |done|done].
  - eapply Forall_impl; [done|]. cbn. lia.
  - exists old. split; [done|]. eapply Forall_impl; [done|]. cbn. lia.
Qed.

Lemma limited_default now : limited now [] CircuitDirectionState_default.
Proof. split; cbn; [done|constructor|by exists []|done|]. intros _. change (length (base.filter _ [])) with 0%nat. lia. Qed.

(** Only the history counts. *)
Lemma limited_same now T s s' :
  last_change_unix s' = last_change_unix s ->
  recent_changes_unix s' = prune_recent_changes (recent_changes_unix s) now ->
  limited now T s -> limited now T s'.
Proof.
  intros Hl Hr [Hl' Hp (old & HT & Hold) Hg Hh]. split; [congruence|done| |done|done].
  rewrite Hr. destruct (prune_suffix (recent_changes_unix s) now) as (old' & Heq & Hold').
  exists (old ++ old'). rewrite <- (assoc_L (++)), <- Heq. split; [done|]. by apply Forall_app.
Qed.

Lemma limited_switch now T s p :
  limited now T s ->
  recent_changes_unix s = prune_recent_changes (recent_changes_unix s) now ->
  in_dwell_window now (last_change_unix s) (min_switch_dwell_minutes cfg) = false ->
  rate_limited (length (recent_changes_unix s)) (max_switches_per_hour cfg) = false ->
  limited now (T ++ [now]) (record_switch now p s).
Proof.
  intros [Hl Hp (old & HT & Hold) Hg Hh] Hpr Hdw Hrate. split; unfold record_switch; cbn [last_change_unix recent_changes_unix].
  - by rewrite last_snoc.
  - apply Forall_app. split; [done|]. constructor; [lia|constructor].
  - destruct (prune_suffix (recent_changes_unix s ++ [now]) now) as (old' & Heq & Hold').
    exists (old ++ old'). rewrite <- (assoc_L (++)), <- Heq, HT, (assoc_L (++)). split; [done|]. by apply Forall_app.
  - intros k a b Ha Hb. destruct (decide (S k < length T)%nat) as [Hlt|Hge].
    { rewrite lookup_app_l in Ha, Hb by lia. by eapply Hg. }
    assert (k < length T)%nat as Hk by (apply lookup_lt_Some in Hb; rewrite length_app in Hb; cbn in Hb; lia).
    rewrite lookup_app_l in Ha by lia. rewrite lookup_app_r in Hb by lia.
    replace (S k - length T)%nat with 0%nat in Hb by lia. injection Hb as <-.
    assert (last T = Some a) as Hlast by (rewrite last_lookup; by replace (pred (length T)) with k by lia).
    rewrite Hl, Hlast in Hdw. apply (dwell_passed _ _ Hdw). exact (Forall_lookup_1 _ _ _ _ Hp Ha).
  - intros w. rewrite filter_app, length_app, filter_cons, filter_nil.
    case_decide as Hw; cbn [length]; [|specialize (Hh w); lia].
    assert (length (base.filter (in_last_hour w) T) <= length (recent_changes_unix s))%nat as Hle.
    { rewrite HT, filter_app, length_app.
      replace (base.filter (in_last_hour w) old) with (@nil Z).
      { cbn. apply length_filter. }
      symmetry. apply elem_of_nil_inv. intros x [[Hx1 Hx2] Hx]%list_elem_of_filter. rewrite Forall_forall in Hold.
      specialize (Hold x Hx). destruct Hw. lia. }
    unfold rate_limited in Hrate. destruct (max_switches_per_hour cfg =? 0); [done|]. to_prop. lia.
Qed.

Lemma limited_run evs now :
  managed_run cfg d evs -> ticks_in_order evs -> (forall e, last evs = Some e -> ev_now e <= now) ->
  limited now (switch_times d CircuitState_default evs) (at_dir d (after_ticks CircuitState_default evs)).
Proof.
  revert now. induction evs as [|e evs IH] using rev_ind; intros now [Hind Hev] Hord Hnow.
  { destruct d; apply limited_default. }
  apply Forall_app in Hev as [Hev He]. apply Forall_singleton in He as [Hcfg Hbase].
  apply (limited_mono (ev_now e)); [apply Hnow; by rewrite last_snoc|].
  rewrite switch_times_app, after_ticks_app. cbn [switch_times after_ticks fold_left].
  assert (limited (ev_now e) (switch_times d CircuitState_default evs)
    (at_dir d (after_ticks CircuitState_default evs))) as Hprev.
  { apply IH; [by split| |].
    - intros k a b Ha Hb. by eapply (Hord k); apply lookup_app_l_Some.
    - intros a Ha. rewrite last_lookup in Ha. apply (Hord (pred (length evs))); [by apply lookup_app_l_Some|].
      apply lookup_lt_Some in Ha as Hl. rewrite lookup_app_r by lia.
      by replace (S (pred (length evs)) - length evs)%nat with 0%nat by lia. }
  set (st := after_ticks CircuitState_default evs) in *. clearbody st.
  destruct (measured_direction d (ev_input e) st) as (Hmd & Hml & Hmr).
  assert (limited (ev_now e) (switch_times d CircuitState_default evs) (at_dir d (measured_state (ev_input e) st)))
    as Hm by (by eapply limited_same).
  case_bool_decide as Hsw.
  - rewrite app_nil_r. destruct (tick_step_direction d st e) as [->|[Hp Hs]]; [done|].
    rewrite Hs in Hsw. cbn in Hsw. congruence.
  - rewrite app_nil_r. destruct (switch_decided d st e) as (p & Hs & _ & _ & _ & Hdw & Hrate & _);
      [by rewrite Hcfg|done|done|].
    rewrite Hs. rewrite Hcfg in Hdw, Hrate. apply limited_switch; [done| |done|done].
    rewrite Hmr. symmetry. apply prune_idemp.
Qed.
End Limits.

(** ** Idleness *)

(** The switch of a tick leaves the measurements as they are. *)
Lemma tick_step_measures d state e :
  let m := at_dir d (measured_state (ev_input e) state) in
  idle_since_unix (at_dir d (tick_step state e)) = idle_since_unix m
  /\ util_ewma_pct (at_dir d (tick_step state e)) = util_ewma_pct m.
Proof. cbn zeta. by destruct (tick_step_direction d state e) as [->|[_ ->]]. Qed.

(** An idle period of the samples, from the [k]-th on. *)
Definition idle_from (cfg : TreeguardCircuitsConfig) (l : list (Z * option f64)) (k : nat) : Prop :=
  forall j t u, (k <= j)%nat -> l !! j = Some (t, u) ->
    exists util, u = Some util /\ f64_lt util (f64_of_f32 (idle_util_pct cfg)) = true.

Lemma idle_from_snoc cfg l k t util :
  idle_from cfg l k -> f64_lt util (f64_of_f32 (idle_util_pct cfg)) = true ->
  idle_from cfg (l ++ [(t, Some util)]) k.
Proof.
  intros Hk Hu j t' u Hj Hl. apply lookup_app_Some in Hl as [Hl|[_ Hl]]; [by eapply Hk|].
  apply list_lookup_singleton_Some in Hl as [_ [= _ <-]]. eauto.
Qed.

Lemma idle_since_period cfg d evs since :
  Forall (fun e => in_circuits_cfg (ev_input e) = cfg) evs ->
  idle_since_unix (at_dir d (after_ticks CircuitState_default evs)) = Some since ->
  exists k u, samples d CircuitState_default evs !! k = Some (since, u)
  /\ idle_from cfg (samples d CircuitState_default evs) k.
Proof.
  revert since. induction evs as [|e evs IH] using rev_ind; intros since Hcfg Hsince; [by destruct d|].
  apply Forall_app in Hcfg as [Hcfg He]. apply Forall_inv in He. cbn beta in He.
  rewrite after_ticks_app in Hsince. cbn [after_ticks fold_left] in Hsince.
  rewrite samples_app. cbn [samples]. unfold sample_of.
  set (l := samples d CircuitState_default evs) in *. set (st := after_ticks CircuitState_default evs) in *.
  destruct (tick_step_measures d st e) as [Hi Hu]. rewrite Hi in Hsince. rewrite Hu. clear Hi Hu.
  unfold measured_state in Hsince |- *. destruct (capacity_known (ev_input e)); [|by destruct d].
  set (util := ewma_value _).
  assert (update_idle_since (idle_since_unix (at_dir d st)) (ev_now e) util (f64_of_f32 (idle_util_pct cfg))
    = Some since) as Hup by (rewrite <- He; subst util; by destruct d).
  clearbody util. unfold update_idle_since in Hup. destruct (f64_lt util _) eqn:Hlt; [|done].
  destruct (idle_since_unix (at_dir d st)) as [s|] eqn:Hs; injection Hup as <-.
  - destruct (IH s Hcfg eq_refl) as (k & u & Hk & Hidle). exists k, u.
    split; [by apply lookup_app_l_Some|]. by apply idle_from_snoc.
  - exists (length l), (Some util). split; [by rewrite lookup_app_r, Nat.sub_diag|].
    apply idle_from_snoc; [|done]. intros j t u Hj Hl%lookup_lt_Some. lia.
Qed.

(** ** Override texts *)

Lemma parse_one_exact t s : parse_one t = Some s <-> to_ascii_lowercase (trim t) = sqm_text s.
Proof.
  unfold parse_one, eq_ignore_ascii_case. change (to_ascii_lowercase (str "none")) with (str "none").
  change (to_ascii_lowercase (str "cake")) with (str "cake").
  change (to_ascii_lowercase (str "fq_codel")) with (str "fq_codel").
  destruct (trim t) as [|c x]; cbn [str_is_empty orb]; [by destruct s; split|].
  set (l := to_ascii_lowercase (c :: x)). clearbody l. repeat case_bool_decide; subst; destruct s; split; try done.
  all: intros ->; done.
Qed.

(** ** Effects of a tick *)

(** The live token of a pair of profiles: ["/"] for the base profiles. *)
Definition live_token_for (base : DownUpOrder CircuitSqmState) (d u : CircuitSqmState) : rstring :=
  if bool_decide (d = down base) && bool_decide (u = up base) then str "/"
  else format_directional_sqm_override d u.

(** The calls that put a pair of profiles in place. *)
Definition calls_for (i : CircuitTickInput) (d u : CircuitSqmState) : list SqmCall :=
  let ids := map device_id (in_devices i) in
  let base := in_base_sqm i in
  (if persist_sqm_overrides (in_circuits_cfg i)
   then [if bool_decide (d = down base) && bool_decide (u = up base) then ClearOverride ids
         else PersistOverride ids (format_directional_sqm_override d u)]
   else [])
  ++ [LiveApply (in_circuit_id i) (live_token_for base d u)].

(** Whether the environment accepts a call. *)
Definition call_accepted (env : SqmEnv) (i : CircuitTickInput) (c : SqmCall) : Prop :=
  match c with
  | PersistOverride ids token => exists b, persist_override env ids token = Ok b
  | ClearOverride ids => exists b, clear_override env ids = Ok b
  | LiveApply circuit token => exists b, live_apply env circuit (in_devices i) token = Ok b
  end.

Lemma push_activity_length l entry :
  (length l <= ACTIVITY_RING_CAPACITY)%nat -> (length (push_activity l entry) <= ACTIVITY_RING_CAPACITY)%nat.
Proof.
  intros Hl. unfold push_activity. rewrite length_app. cbn [length].
  destruct (ACTIVITY_RING_CAPACITY <=? length l)%nat eqn:Hc; to_prop; [|lia].
  destruct l; cbn in *; unfold ACTIVITY_RING_CAPACITY in *; lia.
Qed.

Definition ring_ok (t : Tick) : Prop := (length (tick_activity t) <= ACTIVITY_RING_CAPACITY)%nat.

#[local] Arguments push_activity : simpl never.
#[local] Arguments sqm_entry : simpl never.

(** What a tick keeps of the rest: the budget and the bound of the ring. *)
Lemma persist_section_spec env i rb token t :
  let r := persist_section env i rb token t in
  tick_budget r.1 = tick_budget t /\ (ring_ok t -> ring_ok r.1)
  /\ let calls :=
       if persist_sqm_overrides (in_circuits_cfg i)
       then [if rb then ClearOverride (map device_id (in_devices i))
             else PersistOverride (map device_id (in_devices i)) token]
       else [] in
     tick_calls r.1 = tick_calls t ++ calls
     /\ (r.2 = true <-> exists c, c ∈ calls /\ call_accepted env i c).
Proof.
  cbn zeta. unfold persist_section. destruct (persist_sqm_overrides (in_circuits_cfg i)); cbn [negb].
  2: { cbn. rewrite app_nil_r. split_and!; [done..|]. split; [done|]. intros (c & Hc & _). by apply elem_of_nil in Hc. }
  setoid_rewrite list_elem_of_singleton.
  destruct rb; [destruct (clear_override env _) as [b|err] eqn:Hr|destruct (persist_override env _ _) as [b|err] eqn:Hr];
    cbn; (split_and!; [done|try done; apply push_activity_length|done|]).
  all: split; [intros|intros (c & -> & b' & Hb)]; try done; try (eexists; split; [done|]; by exists b).
  all: cbn in Hb; congruence.
Qed.

Lemma live_section_spec env i rb token live_token p t :
  let r := live_section env i rb token live_token p t in
  tick_budget r.1.1 = tick_budget t /\ (ring_ok t -> ring_ok r.1.1)
  /\ tick_calls r.1.1 = tick_calls t ++ [LiveApply (in_circuit_id i) live_token]
  /\ (r.1.2 = true <-> call_accepted env i (LiveApply (in_circuit_id i) live_token)).
Proof.
  cbn zeta. unfold live_section, call_accepted.
  destruct (live_apply env _ _ _) as [b|err]; [|destruct (is_retryable_live_mutation_unavailable err)]; cbn;
    (split_and!; [done|try done; apply push_activity_length|done|]).
  - split; [by exists b|done].
  - split; [done|by intros [? [=]]].
  - split; [done|by intros [? [=]]].
Qed.

Lemma apply_change_spec env i state tr t :
  let r := apply_circuit_sqm_change env i state tr t in
  let calls := calls_for i (proposed_down tr) (proposed_up tr) in
  tick_budget r.2 = tick_budget t /\ (ring_ok t -> ring_ok r.2)
  /\ if in_dry_run i then tick_calls r.2 = tick_calls t /\ r.1 = apply_transition (in_now_unix i) tr state
     else tick_calls r.2 = tick_calls t ++ calls
          /\ ((exists c, c ∈ calls /\ call_accepted env i c) /\ r.1 = apply_transition (in_now_unix i) tr state
              \/ (forall c, c ∈ calls -> ~ call_accepted env i c) /\ r.1 = state).
Proof.
  cbn zeta. unfold apply_circuit_sqm_change, calls_for, live_token_for.
  destruct (in_dry_run i). { cbn. split_and!; [done|apply push_activity_length|done|done]. }
  set (token := format_directional_sqm_override _ _). set (rb := bool_decide _ && bool_decide _).
  set (live_token := if rb then _ else _). set (ids := map device_id (in_devices i)).
  destruct (persist_section_spec env i rb token t) as (Hb1 & Hr1 & Hc1 & Hok1).
  destruct (persist_section env i rb token t) as [t1 persisted]. cbn [fst snd] in *. fold ids in Hc1, Hok1.
  set (pcalls := if persist_sqm_overrides _ then _ else _) in *. clearbody pcalls.
  destruct (live_section_spec env i rb token live_token persisted t1) as (Hb2 & Hr2 & Hc2 & Hok2).
  destruct (live_section env i rb token live_token persisted t1) as [[t2 live] deferred]. cbn [fst snd] in *.
  set (live_call := LiveApply (in_circuit_id i) live_token) in *. clearbody live_call.
  rewrite Hc1, <- (assoc_L (++)) in Hc2. rewrite Hb1 in Hb2.
  destruct (live || persisted) eqn:Hor.
  - destruct (applied_action _ _ _ _) as [action reason]. cbn [fst snd tick_summarize tick_act tick_budget tick_calls].
    split_and!; [done|intros Ht; by apply push_activity_length, Hr2, Hr1|done|]. left. split; [|done].
    apply orb_true_iff in Hor as [Hl|Hp].
    + exists live_call. split; [|by apply Hok2]. apply elem_of_app. right. by apply list_elem_of_singleton.
    + apply Hok1 in Hp as (c & Hc & Ha). exists c. split; [|done]. apply elem_of_app. by left.
  - apply orb_false_iff in Hor as [-> ->]. cbn [fst snd]. split_and!; [done|auto|done|]. right. split; [|done].
    intros c [Hc| ->%list_elem_of_singleton]%elem_of_app Ha.
    + apply diff_false_true. apply Hok1. eauto.
    + apply diff_false_true. by apply Hok2.
Qed.

(** The desired profiles after a transition are the proposed ones. *)
Lemma apply_transition_desired now state base decision :
  let tr := circuit_sqm_transition_from_decision state base decision in
  desired (down (apply_transition now tr state)) = proposed_down tr
  /\ desired (up (apply_transition now tr state)) = proposed_up tr.
Proof. cbn zeta. unfold apply_transition. cbn. split; case_bool_decide; done. Qed.

(** A tick changes the desired profile of a circuit only when it has devices and takes one from the
    budget of the tick, and then, unless it is a dry run, has made exactly the calls that put the new
    profiles of both directions in place (clearing the override when they are the base profiles), at
    least one of which was accepted; a tick that changes nothing made no call, or calls none of which
    was accepted; the activity ring keeps its capacity; and the flag returned says whether fq_codel is
    in use. *)
Theorem tick_puts_profiles_in_place env i state t :
  let '(state', t', fq_codel) := process_circuit_tick env i state t in
  let d := desired (down state') in
  let u := desired (up state') in
  (if bool_decide (d = desired (down state) /\ u = desired (up state))
   then tick_budget t' = tick_budget t /\ tick_calls t' = tick_calls t
        \/ in_dry_run i = false /\ tick_budget t = S (tick_budget t')
           /\ exists d' u', tick_calls t' = tick_calls t ++ calls_for i d' u'
              /\ forall c, c ∈ calls_for i d' u' -> ~ call_accepted env i c
   else in_devices i <> [] /\ tick_budget t = S (tick_budget t')
        /\ if in_dry_run i then tick_calls t' = tick_calls t
           else tick_calls t' = tick_calls t ++ calls_for i d u
                /\ exists c, c ∈ calls_for i d u /\ call_accepted env i c)
  /\ (ring_ok t -> ring_ok t')
  /\ (fq_codel = true <-> d = FqCodel \/ u = FqCodel).
Proof.
  destruct (process_circuit_tick env i state t) as [[state' t'] fq] eqn:Htick. cbn zeta.
  unfold process_circuit_tick in Htick.
  destruct (measured_direction Down i state) as [Hd _]. destruct (measured_direction Up i state) as [Hu _].
  cbn [at_dir] in Hd, Hu. set (m := measured_state i state) in *. set (dec := tick_decision i m) in *.
  destruct (apply_transition_desired (in_now_unix i) m (in_base_sqm i) dec) as [Hpd Hpu].
  set (tr := circuit_sqm_transition_from_decision m (in_base_sqm i) dec) in *.
  assert (changed_down tr = negb (bool_decide (proposed_down tr = desired (down m)))
    /\ changed_up tr = negb (bool_decide (proposed_up tr = desired (up m)))) as [Hcd Hcu] by done.
  clearbody dec tr. set (t0 := if (length _ =? 0)%nat then _ else _) in Htick.
  assert (tick_budget t0 = tick_budget t /\ tick_calls t0 = tick_calls t /\ (ring_ok t -> ring_ok t0)) as (Hb0 & Hc0 & Hr0)
    by (subst t0; destruct (length _ =? 0)%nat, (capacity_known i); done).
  clearbody t0. rewrite <- Hd, <- Hu. unfold try_consume_circuit_change_budget in Htick.
  assert ((fq = true <-> desired (down state') = FqCodel \/ desired (up state') = FqCodel)) as Hfq.
  { repeat case_match; simplify_eq; rewrite orb_true_iff, !bool_decide_eq_true; done. }
  destruct ((changed_down tr || changed_up tr) && negb _) eqn:Hwant in Htick.
  2: { simplify_eq. rewrite bool_decide_eq_true_2 by done. rewrite <- Hb0, <- Hc0. auto. }
  apply andb_true_iff in Hwant as [Hch Hdev%negb_true_iff%Nat.eqb_neq].
  assert (in_devices i <> []) as Hne by (by destruct (in_devices i)).
  destruct (tick_budget t0) as [|remaining] eqn:Hb.
  { simplify_eq. rewrite bool_decide_eq_true_2 by done. cbn [tick_defer tick_budget tick_calls]. rewrite <- Hc0, Hb. auto. }
  destruct (apply_change_spec env i m tr (tick_set_budget remaining t0)) as (Hbud & Hring & Hcalls).
  destruct (apply_circuit_sqm_change _ _ _ _ _) as [s1 t1]. injection Htick as <- <- Hfq'. clear Hfq'.
  cbn [fst snd tick_set_budget tick_budget tick_calls] in *. rewrite Hc0 in Hcalls.
  assert (proposed_down tr = desired (down m) /\ proposed_up tr = desired (up m) -> False) as Hnot.
  { intros [H1 H2]. rewrite Hcd, Hcu, H1, H2, !bool_decide_eq_true_2 in Hch by done. done. }
  split_and!; [|auto|done].
  destruct (in_dry_run i).
  - destruct Hcalls as [Hcalls ->]. rewrite Hpd, Hpu, bool_decide_eq_false_2 by auto. split_and!; [done|lia|done].
  - destruct Hcalls as [Hcalls [[Hacc ->]|[Hno ->]]].
    + rewrite Hpd, Hpu, bool_decide_eq_false_2 by auto. split_and!; [done|lia|done|done].
    + rewrite bool_decide_eq_true_2 by done. right. split_and!; [done|lia|]. by exists (proposed_down tr), (proposed_up tr).
Qed.

(** ** The properties *)

(** C33: Over any run of a circuit in order of time, switches of a direction that TreeGuard manages on
    its own are at least the configured dwell apart, and in any hour there are no more of them than the
    configured limit. *)
Theorem circuit_switches_are_limited cfg d evs
    (Hdwell : 0 <= min_switch_dwell_minutes cfg < 2 ^ 32) (Hmax : 0 <= max_switches_per_hour cfg)
    (Hrun : managed_run cfg d evs) (Hord : ticks_in_order evs) :
  let switches := switch_times d CircuitState_default evs in
  (forall k a b, switches !! k = Some a -> switches !! S k = Some b ->
     min_switch_dwell_minutes cfg * 60 <= b - a)
  /\ (forall w, Z.of_nat (length (base.filter (in_last_hour w) switches)) <= max_switches_per_hour cfg).
Proof.
  cbn zeta. destruct (limited_run cfg d Hdwell evs (default 0 (ev_now <$> last evs)) Hrun Hord) as [_ _ _ Hg Hh].
  { intros e ->. cbn. lia. }
  split; [exact Hg|]. intros w. specialize (Hh w). lia.
Qed.

(** A direction that TreeGuard manages on its own switches to fq_codel only when the CPU calls for it,
    its QoO is not bad, and its smoothed utilization was known and below the idle threshold at every
    tick since one at least the idle period ago; it switches back only when utilization, QoO or CPU
    call for it. *)
Theorem circuit_switches_are_justified cfg d evs e
    (Hidle : 0 <= idle_min_minutes cfg < 2 ^ 32)
    (Hrun : managed_run cfg d (evs ++ [e])) :
  let before := at_dir d (after_ticks CircuitState_default evs) in
  let after := at_dir d (after_ticks CircuitState_default (evs ++ [e])) in
  let i := ev_input e in
  desired after <> desired before ->
  match desired after with
  | FqCodel =>
      cpu_allows_saving (in_cpu_cfg i) (in_cpu_max_pct i) = true
      /\ score_bad (in_qoo_cfg i) (at_dir d (in_qoo i)) = false
      /\ exists k since u,
           samples d CircuitState_default (evs ++ [e]) !! k = Some (since, u)
           /\ (since + idle_min_minutes cfg * 60 <= ev_now e \/ idle_min_minutes cfg = 0)
           /\ idle_from cfg (samples d CircuitState_default (evs ++ [e])) k
  | Cake =>
      direction_util_high cfg after = true \/ score_bad (in_qoo_cfg i) (at_dir d (in_qoo i)) = true
      \/ cpu_calls_for_revert (in_cpu_cfg i) (in_cpu_max_pct i) = true
  end.
Proof.
  cbn zeta. destruct Hrun as [Hind Hev]. pose proof Hev as Hall. apply Forall_app in Hall as [_ He].
  apply Forall_inv in He as [Hcfg Hbase].
  assert (forall since, idle_since_unix (at_dir d (after_ticks CircuitState_default (evs ++ [e]))) = Some since ->
    exists k u, samples d CircuitState_default (evs ++ [e]) !! k = Some (since, u)
    /\ idle_from cfg (samples d CircuitState_default (evs ++ [e])) k) as Hper.
  { intros since. apply idle_since_period. by eapply Forall_impl; [exact Hev|intros ? []]. }
  revert Hper. rewrite after_ticks_app. cbn [after_ticks fold_left].
  set (st := after_ticks CircuitState_default evs). intros Hper Hne.
  destruct (switch_decided d st e) as (p & Hs & _ & _ & _ & _ & _ & Hwhy); [by rewrite Hcfg|done|done|].
  destruct (tick_step_measures d st e) as [Hi Hu]. rewrite Hi in Hper.
  assert (desired (at_dir d (tick_step st e)) = p) as Hp by (by rewrite Hs). rewrite Hp.
  destruct (desired (at_dir d (measured_state (ev_input e) st))); destruct Hwhy as [-> Hwhy].
  - destruct Hwhy as (Hcpu & Hq & since & Hsince & Hlong). split_and!; [done|done|].
    destruct (Hper since Hsince) as (k & u & Hk & Hfrom). exists k, since, u. split_and!; [done| |done].
    rewrite Hcfg, minutes_in_u64 in Hlong by done. unfold u64_saturating_sub in Hlong. unfold ev_now. lia.
  - unfold direction_util_high in *. by rewrite Hu, <- Hcfg.
Qed.

(** An override text reads back as the profiles it was written for, in either case and with
    surrounding space on each side; a text without a separator stands for both directions. *)
Theorem sqm_override_roundtrip :
  (forall d u, parse_directional_sqm_override (format_directional_sqm_override d u) = mkDownUp (Some d) (Some u))
  /\ (forall t s, parse_one t = Some s <-> to_ascii_lowercase (trim t) = sqm_text s)
  /\ (forall t, split_once (trim t) 47 = None -> down (parse_directional_sqm_override t) = up (parse_directional_sqm_override t)).
Proof.
  split_and!.
  - intros [] []; vm_compute; reflexivity.
  - apply parse_one_exact.
  - intros t Ht. unfold parse_directional_sqm_override. rewrite Ht. by destruct (str_is_empty (trim t)).
Qed.

(** ** A circuit over some ticks *)

Definition sample_circuits_cfg (independent : bool) : TreeguardCircuitsConfig :=
  mkTreeguardCircuitsConfig true true [] true independent (f32_of_Z 2) 1 120 (f32_of_Z 5) 30 1 true.
Definition sample_env : SqmEnv := mkSqmEnv (fun _ _ => Ok true) (fun _ => Ok true) (fun _ _ _ => Ok tt).
Definition sample_tick : Tick := mkTick [] None [] ∅ 8 0 [].

(** A tick at time [now] with [bps] bytes a second on a link of 100 Mbps and a QoO score. *)
Definition sample_event (independent : bool) (now bps score : Z) : TickEvent :=
  mkTickEvent sample_env
    (mkCircuitTickInput now None None false (str "c1") (str "c1") (str "c1") [ShapedDevice_default] (str "sqm-1")
       true (f32_of_Z 100) (f32_of_Z 100) (mkDownUp bps bps) None
       (mkDownUp (Some (f32_of_Z score)) (Some (f32_of_Z score)))
       (mkTreeguardCpuConfig TrafficRttOnly 75 55) (sample_circuits_cfg independent) TreeguardQooConfig_default
       (mkDownUp Cake Cake))
    sample_tick.

(** Idle for a minute, then busy from the third tick on. *)
Definition sample_run : list TickEvent :=
  [sample_event true 0 0 90; sample_event true 60 0 90; sample_event true 120 12500000 90;
   sample_event true 1900 12500000 90; sample_event true 3700 12500000 90].

Lemma sample_run_managed : managed_run (sample_circuits_cfg true) Down sample_run.
Proof. split; [done|]. repeat constructor. Qed.

Lemma circuit_switches_are_limited_witness :
  let switches := switch_times Down CircuitState_default sample_run in
  switches = [60; 3700]
  /\ (forall w, Z.of_nat (length (base.filter (in_last_hour w) switches)) <= 1).
Proof.
  cbn zeta. split; [vm_compute; reflexivity|].
  refine (proj2 (circuit_switches_are_limited (sample_circuits_cfg true) Down sample_run _ _ sample_run_managed _));
    [cbn; lia|cbn; lia|].
  intros k a b. do 6 (destruct k as [|k]; [cbn; intros [= <-]; intros [= <-]; cbn; lia|]). done.
Defined.

Lemma circuit_switches_are_justified_witness :
  desired (down (after_ticks CircuitState_default [sample_event true 0 0 90; sample_event true 60 0 90])) = FqCodel
  /\ exists k since u,
       samples Down CircuitState_default [sample_event true 0 0 90; sample_event true 60 0 90] !! k = Some (since, u)
       /\ (since + 60 <= 60 \/ 1 = 0)
       /\ idle_from (sample_circuits_cfg true)
            (samples Down CircuitState_default [sample_event true 0 0 90; sample_event true 60 0 90]) k.
Proof.
  split; [vm_compute; reflexivity|].
  pose proof (circuit_switches_are_justified (sample_circuits_cfg true) Down [sample_event true 0 0 90]
    (sample_event true 60 0 90)) as H.
  cbn zeta in H.
  replace (desired (at_dir Down (after_ticks CircuitState_default ([sample_event true 0 0 90] ++ [sample_event true 60 0 90]))))
    with FqCodel in H by (vm_compute; reflexivity).
  exact (proj2 (proj2 (H ltac:(cbn; lia) ltac:(split; [done|repeat constructor]) ltac:(vm_compute; discriminate)))).
Defined.

(** With both directions managed together neither the dwell nor the hourly limit is looked at: with a
    dwell of thirty minutes and one switch allowed in an hour, a circuit switches five times in four
    seconds while its QoO score moves about the threshold. *)
Theorem combined_directions_switch_without_limit :
  switch_times Down CircuitState_default
    [sample_event false 0 0 90; sample_event false 60 0 90; sample_event false 61 0 60; sample_event false 62 0 90;
     sample_event false 63 0 60; sample_event false 64 0 90]
  = [60; 61; 62; 63; 64].
Proof. vm_compute. reflexivity. Qed.
