(* ===== verification/TreeGuardSweep.v ===== *)
(** * What TreeGuard visits and accepts

    The batches of circuits cover every enrolled circuit within fifteen ticks, and the validation of
    the configuration accepts exactly the values in range. *)

From S2P Require Import Prelude RustStd RustCollections RustFloat ShapedDevice.
From S2P Require Import TreeGuardTypes TreeGuardDecisions TreeGuardCircuits.

(** ** Batches *)

(** The circuits visited in [n] ticks. *)
Fixpoint sweep (enrolled : list rstring) (batch_size n cursor : nat) : list rstring :=
  match n with
  | O => []
  | S n' =>
      let '(batch, cursor') := collect_circuit_batch enrolled cursor batch_size in
      batch ++ sweep enrolled batch_size n' cursor'
  end.

Section Batches.
Context (enrolled : list rstring).
Hypothesis Hne : (0 < length enrolled)%nat.

Lemma next_index index :
  (index < length enrolled)%nat ->
  (if (length enrolled <=? S index)%nat then 0%nat else S index) = (S index mod length enrolled)%nat.
Proof.
  intros Hi. destruct (length enrolled <=? S index)%nat eqn:Hc; to_prop.
  - assert (S index = length enrolled) as -> by lia. by rewrite Nat.Div0.mod_same.
  - by rewrite Nat.mod_small.
Qed.

(** A batch takes the circuits from the cursor on, round and round, and leaves the cursor after them. *)
Lemma batch_loop_spec n : forall index,
  (index < length enrolled)%nat ->
  let r := batch_loop enrolled n index in
  length r.1 = n /\ r.2 = ((index + n) mod length enrolled)%nat
  /\ forall j, (j < n)%nat -> exists x, enrolled !! ((index + j) mod length enrolled)%nat = Some x /\ x ∈ r.1.
Proof.
  induction n as [|n IH]; intros index Hi; cbn zeta; cbn [batch_loop].
  { split_and!; [done|by rewrite Nat.add_0_r, Nat.mod_small|lia]. }
  rewrite next_index by done. assert (S index mod length enrolled < length enrolled)%nat as Hm
    by (apply Nat.mod_upper_bound; lia).
  destruct (IH _ Hm) as (Hlen & Hlast & Hin). destruct (batch_loop enrolled n _) as [batch last]. cbn [fst snd] in *.
  destruct (lookup_lt_is_Some_2 enrolled index Hi) as [x Hx]. rewrite Hx. cbn.
  split_and!; [by rewrite Hlen| |].
  - rewrite Hlast, Nat.Div0.add_mod_idemp_l. f_equal. lia.
  - intros [|j] Hj.
    + exists x. rewrite Nat.add_0_r, Nat.mod_small by done. split; [done|left].
    + destruct (Hin j ltac:(lia)) as (y & Hy & Hyb). exists y. split; [|by right].
      rewrite <- Hy, Nat.Div0.add_mod_idemp_l. f_equal. f_equal. lia.
Qed.

Context (batch_size : nat).
Hypothesis Hsize : (0 < batch_size)%nat.
Let turns := Nat.min batch_size (length enrolled).

Lemma collect_spec cursor :
  let start := (if (length enrolled <=? cursor)%nat then 0%nat else cursor) in
  let r := collect_circuit_batch enrolled cursor batch_size in
  (start < length enrolled)%nat /\ r = batch_loop enrolled turns start.
Proof.
  cbn zeta. unfold collect_circuit_batch. rewrite (proj2 (Nat.eqb_neq _ _)), (proj2 (Nat.eqb_neq _ _)) by lia.
  split; [|done]. destruct (length enrolled <=? cursor)%nat eqn:Hc; to_prop; lia.
Qed.

Lemma sweep_spec n : forall cursor,
  let start := (if (length enrolled <=? cursor)%nat then 0%nat else cursor) in
  forall j, (j < n * turns)%nat ->
    exists x, enrolled !! ((start + j) mod length enrolled)%nat = Some x /\ x ∈ sweep enrolled batch_size n cursor.
Proof.
  induction n as [|n IH]; intros cursor start j Hj; [lia|]. cbn [sweep].
  destruct (collect_spec cursor) as [Hs Hc]. fold start in Hs, Hc. rewrite Hc.
  destruct (batch_loop_spec turns start Hs) as (_ & Hlast & Hin).
  destruct (batch_loop enrolled turns start) as [batch cursor']. cbn [fst snd] in *.
  destruct (decide (j < turns)%nat) as [Hlt|Hge].
  - destruct (Hin j Hlt) as (x & Hx & Hb). exists x. split; [done|]. apply elem_of_app. by left.
  - destruct (IH cursor' (j - turns)%nat) as (x & Hx & Hb); [lia|].
    assert (cursor' < length enrolled)%nat as Hcu by (rewrite Hlast; apply Nat.mod_upper_bound; lia).
    rewrite (proj2 (Nat.leb_gt _ _) Hcu), Hlast, Nat.Div0.add_mod_idemp_l in Hx.
    exists x. split; [|apply elem_of_app; by right]. rewrite <- Hx. f_equal. f_equal. lia.
Qed.

Lemma sweep_complete n cursor x :
  (length enrolled <= n * turns)%nat -> x ∈ enrolled -> x ∈ sweep enrolled batch_size n cursor.
Proof.
  intros Hn [p Hp]%list_elem_of_lookup_1. apply lookup_lt_Some in Hp as Hlt.
  destruct (collect_spec cursor) as [Hs _].
  pose proof (sweep_spec n cursor) as Hsw. cbn zeta in Hsw.
  set (start := if (length enrolled <=? cursor)%nat then 0%nat else cursor) in *.
  destruct (Hsw ((p + length enrolled - start) mod length enrolled)%nat) as (y & Hy & Hin).
  { eapply Nat.lt_le_trans; [apply Nat.mod_upper_bound; lia|done]. }
  rewrite Nat.Div0.add_mod_idemp_r in Hy.
  replace (start + (p + length enrolled - start))%nat with (p + 1 * length enrolled)%nat in Hy by lia.
  rewrite Nat.Div0.mod_add, Nat.mod_small in Hy by done. congruence.
Qed.
End Batches.

(** A sweep is long enough. *)
Lemma batch_size_sweeps n all :
  (0 < n)%nat ->
  (0 < circuit_evaluation_batch_size n all <= n)%nat /\ (n <= 15 * circuit_evaluation_batch_size n all)%nat.
Proof.
  intros Hn. unfold circuit_evaluation_batch_size, TREEGUARD_CIRCUIT_TARGET_SWEEP_SECONDS, TREEGUARD_CIRCUIT_MIN_BATCH_SIZE.
  rewrite (proj2 (Nat.eqb_neq n 0)) by lia. destruct all; cbn [negb]; [|lia].
  pose proof (Nat.div_mod_eq (n + 15 - 1) 15). pose proof (Nat.mod_upper_bound (n + 15 - 1) 15 ltac:(lia)). lia.
Qed.

(** From any cursor, the batches of fifteen consecutive ticks visit every enrolled circuit, and a
    single one does when circuits are listed; a batch visits no more circuits than its size. *)
Theorem sweep_visits_every_circuit enrolled all cursor :
  let size := circuit_evaluation_batch_size (length enrolled) all in
  (forall x, x ∈ enrolled -> x ∈ sweep enrolled size (if all then 15 else 1) cursor)
  /\ length (collect_circuit_batch enrolled cursor size).1 = size.
Proof.
  cbn zeta. destruct (decide (0 < length enrolled)%nat) as [Hn|Hn].
  2: { destruct enrolled; [|cbn in Hn; lia]. split; [|done]. intros x Hx. by apply elem_of_nil in Hx. }
  destruct (batch_size_sweeps _ all Hn) as [Hpos Hle]. set (size := circuit_evaluation_batch_size _ all) in *. split.
  - intros x Hx. apply sweep_complete; [done|lia| |done]. rewrite Nat.min_l by lia. destruct all; [lia|].
    subst size. unfold circuit_evaluation_batch_size. rewrite (proj2 (Nat.eqb_neq _ 0)) by lia. cbn. lia.
  - destruct (collect_spec enrolled Hn size ltac:(lia) cursor) as [Hs ->].
    destruct (batch_loop_spec enrolled Hn (Nat.min size (length enrolled)) _ Hs) as (-> & _). lia.
Qed.

(** ** Validation *)

Definition percent_ok (x : f32) : Prop := f32_le f32_zero x = true /\ f32_le x (f32_of_Z 100) = true.

(** Values in range: percentages between 0 and 100, a tick, and thresholds in order. *)
Record config_in_range (c : TreeguardConfig) : Prop := {
  range_cpu : cpu_low_pct (tg_cpu c) <= cpu_high_pct (tg_cpu c) /\ cpu_high_pct (tg_cpu c) <= 100;
  range_tick : tick_seconds c <> 0;
  range_links : percent_ok (links_idle_util_pct (tg_links c)) /\ percent_ok (unvirtualize_util_pct (tg_links c))
    /\ percent_ok (top_level_safe_util_pct (tg_links c));
  range_circuits : percent_ok (idle_util_pct (tg_circuits c)) /\ percent_ok (upgrade_util_pct (tg_circuits c))
    /\ f32_lt (upgrade_util_pct (tg_circuits c)) (idle_util_pct (tg_circuits c)) = false;
  range_qoo : percent_ok (min_score (tg_qoo c))
}.

Lemma validate_percent_f32_ok name x : validate_percent_f32 name x = Ok tt <-> percent_ok x.
Proof.
  unfold validate_percent_f32, percent_ok. destruct (f32_is_finite x) eqn:Hf; cbn [negb orb].
  - destruct (f32_le f32_zero x), (f32_le x (f32_of_Z 100)); cbn; split; (done || intros []; done).
  - split; [done|]. intros [H0 H1]. destruct x as [z|s| |s m e]; [discriminate Hf| |discriminate H0|discriminate Hf].
    destruct s; [discriminate H0|discriminate H1].
Qed.

(** The settings out of range, by the key a message begins with. *)
Inductive defect (c : TreeguardConfig) : rstring -> Prop :=
| defect_cpu_high : 100 < cpu_high_pct (tg_cpu c) -> defect c (str "treeguard.cpu.cpu_high_pct")
| defect_cpu_low :
    100 < cpu_low_pct (tg_cpu c) \/ cpu_high_pct (tg_cpu c) < cpu_low_pct (tg_cpu c) ->
    defect c (str "treeguard.cpu.cpu_low_pct")
| defect_tick : tick_seconds c = 0 -> defect c (str "treeguard.tick_seconds")
| defect_links_idle : ~ percent_ok (links_idle_util_pct (tg_links c)) -> defect c (str "treeguard.links.idle_util_pct")
| defect_links_unvirtualize :
    ~ percent_ok (unvirtualize_util_pct (tg_links c)) -> defect c (str "treeguard.links.unvirtualize_util_pct")
| defect_links_top_level :
    ~ percent_ok (top_level_safe_util_pct (tg_links c)) -> defect c (str "treeguard.links.top_level_safe_util_pct")
| defect_circuits_idle :
    ~ percent_ok (idle_util_pct (tg_circuits c)) -> defect c (str "treeguard.circuits.idle_util_pct")
| defect_circuits_upgrade :
    ~ percent_ok (upgrade_util_pct (tg_circuits c))
    \/ f32_lt (upgrade_util_pct (tg_circuits c)) (idle_util_pct (tg_circuits c)) = true ->
    defect c (str "treeguard.circuits.upgrade_util_pct")
| defect_qoo : ~ percent_ok (min_score (tg_qoo c)) -> defect c (str "treeguard.qoo.min_score").

Lemma validate_percent_f32_cases name x :
  validate_percent_f32 name x = Ok tt /\ percent_ok x
  \/ exists msg, validate_percent_f32 name x = Err msg /\ name `prefix_of` msg /\ ~ percent_ok x.
Proof.
  pose proof (validate_percent_f32_ok name x) as Hok.
  destruct (validate_percent_f32 name x) as [[]|msg] eqn:Hv; [left; split; [done|by apply Hok]|right].
  exists msg. split_and!; [done| |by intros Hp%Hok]. unfold validate_percent_f32 in Hv. destruct (_ || _); [|done].
  injection Hv as <-. by apply prefix_app_r.
Qed.

(** One step of the validation: a percentage, then the rest. *)
Ltac percent_step name x :=
  let msg := fresh "msg" in
  destruct (validate_percent_f32_cases name x) as [[-> ?]|(msg & -> & ? & ?)];
    [cbn [mbind result_bind]|cbn [mbind result_bind]; right; exists msg, name; split_and!; [done| |done]; by constructor; auto].

Lemma validate_cases c :
  TreeguardConfig_validate c = Ok tt /\ config_in_range c
  \/ exists msg key, TreeguardConfig_validate c = Err msg /\ defect c key /\ key `prefix_of` msg.
Proof.
  unfold TreeguardConfig_validate, validate_percent_u8.
  destruct (100 <? cpu_high_pct (tg_cpu c)) eqn:Hhigh; to_prop; cbn [mbind result_bind].
  { right. eexists _, (str "treeguard.cpu.cpu_high_pct"). split_and!; [done|by constructor|by apply prefix_app_r]. }
  destruct (100 <? cpu_low_pct (tg_cpu c)) eqn:Hlow; to_prop; cbn [mbind result_bind].
  { right. eexists _, (str "treeguard.cpu.cpu_low_pct"). split_and!; [done|constructor; auto|by apply prefix_app_r]. }
  destruct (cpu_high_pct (tg_cpu c) <? cpu_low_pct (tg_cpu c)) eqn:Hord; to_prop.
  { right. eexists _, (str "treeguard.cpu.cpu_low_pct"). split_and!; [done|constructor; auto|].
    by apply (bool_decide_eq_true_1 _); vm_compute. }
  unfold validate_non_zero. destruct (tick_seconds c =? 0) eqn:Htick; to_prop; cbn [mbind result_bind].
  { right. eexists _, (str "treeguard.tick_seconds"). split_and!; [done|by constructor|by apply prefix_app_r]. }
  unfold links_validate, circuits_validate, qoo_validate.
  percent_step (str "treeguard.links.idle_util_pct") (links_idle_util_pct (tg_links c)).
  percent_step (str "treeguard.links.unvirtualize_util_pct") (unvirtualize_util_pct (tg_links c)).
  percent_step (str "treeguard.links.top_level_safe_util_pct") (top_level_safe_util_pct (tg_links c)).
  percent_step (str "treeguard.circuits.idle_util_pct") (idle_util_pct (tg_circuits c)).
  percent_step (str "treeguard.circuits.upgrade_util_pct") (upgrade_util_pct (tg_circuits c)).
  destruct (f32_lt _ _) eqn:Hlt; cbn [mbind result_bind].
  { right. eexists _, (str "treeguard.circuits.upgrade_util_pct"). split_and!; [done|constructor; auto|].
    by apply (bool_decide_eq_true_1 _); vm_compute. }
  percent_step (str "treeguard.qoo.min_score") (min_score (tg_qoo c)).
  left. split; [done|]. by split.
Qed.

(** The configuration is accepted exactly when every value is in range, and a refusal names a
    setting that is not. *)
Theorem treeguard_config_validation_exact c :
  (TreeguardConfig_validate c = Ok tt <-> config_in_range c)
  /\ (forall msg, TreeguardConfig_validate c = Err msg -> exists key, defect c key /\ key `prefix_of` msg)
  /\ (forall key, defect c key -> ~ config_in_range c).
Proof.
  assert (forall key, defect c key -> ~ config_in_range c) as Hdef.
  { intros key Hk [Hcpu Ht Hl Hci Hq]. destruct Hk; destruct_and?; destruct_or?; (done || lia || congruence). }
  split_and!; [| |done].
  - destruct (validate_cases c) as [[-> Hr]|(msg & key & -> & Hk & _)]; [done|].
    split; [done|]. intros Hr. by destruct (Hdef key Hk).
  - intros msg Hmsg. destruct (validate_cases c) as [[Hv _]|(msg' & key & Hv & Hk & Hp)]; [congruence|].
    rewrite Hv in Hmsg. injection Hmsg as <-. eauto.
Qed.
