(* ===== verification/TreeGuardLinks.v ===== *)
(** * TreeGuard: which links change ([lqosd/src/treeguard/actor.rs])

    The sizes of subtrees, the value of virtualizing a node, the choice of the changes of a tick among
    all that were decided, the structural latch of a link, its thresholds over time, and the limiter of
    warnings.  Nodes are indices into the list of their parents. *)

From S2P Require Import Prelude RustStd RustCollections RustFloat TreeGuardTypes.
From Stdlib Require Import SpecFloat.

Definition TREEGUARD_LINK_CHANGE_BUDGET_PER_TICK : nat := 4.
Definition TREEGUARD_MIN_AUTO_VIRTUALIZE_SUBTREE_NODES : nat := 8.
Definition TREEGUARD_MIN_AUTO_VIRTUALIZE_SUBTREE_NODES_LOW_THROUGHPUT : nat := 16.
Definition TREEGUARD_LOW_VALUE_THROUGHPUT_MBPS : f64 := f64_one.
Definition TREEGUARD_MAX_AUTO_VIRTUALIZED_NODES : nat := 64.
Definition TREEGUARD_TOP_LEVEL_VIRTUALIZATION_VALUE_BONUS : Z := 1000000000.
Definition TREEGUARD_WARNING_DETAIL_LIMIT_PER_GROUP : nat := 3.

(** ** Subtrees *)

(** The children of every node, in the order of their indices. *)
Definition children_of (parent_by_index : list (option nat)) (parent : nat) : list nat :=
  List.filter (fun index => bool_decide (parent_by_index !! index = Some (Some parent)))
    (seq 0 (length parent_by_index)).

(** [dfs] with its memo. *)
Fixpoint dfs (fuel : nat) (parent_by_index : list (option nat)) (index : nat) (memo : list nat) : nat * list nat :=
  match fuel with
  | O => (0%nat, memo)
  | S fuel' =>
      let known := default 0%nat (memo !! index) in
      if negb (known =? 0)%nat then (known, memo)
      else
        let '(total, memo) :=
          fold_left (fun '(total, memo) child =>
              let '(count, memo) := dfs fuel' parent_by_index child memo in ((total + count)%nat, memo))
            (children_of parent_by_index index) (1%nat, memo) in
        (total, <[index := total]> memo)
  end.

Definition build_subtree_node_counts (parent_by_index : list (option nat)) : list nat :=
  let n := length parent_by_index in
  fold_left (fun memo index => (dfs (S n) parent_by_index index memo).2) (seq 0 n) (replicate n 0%nat).

Definition link_virtualization_value_score (is_top_level : bool) (subtree_nodes : nat)
    (cap_down_mbps cap_up_mbps : f64) : Z :=
  let top_level_bonus := if is_top_level then TREEGUARD_TOP_LEVEL_VIRTUALIZATION_VALUE_BONUS else 0 in
  let subtree_score := (Z.of_nat subtree_nodes * 1000000) mod 2 ^ 64 in
  let capacity_score :=
    u64_of_f64 (f64_mul (f64_add (f64_max cap_down_mbps f64_zero) (f64_max cap_up_mbps f64_zero)) (f64_of_Z 100)) in
  u64_saturating_add (u64_saturating_add top_level_bonus subtree_score) capacity_score.

(** ** The changes of a tick *)

Record PendingLinkVirtualizationDecision : Type := mkPendingLink {
  pl_node_name : rstring;
  pl_node_index : nat;
  pl_target : LinkVirtualState;
  pl_reason : rstring;
  pl_subtree_nodes : nat;
  pl_current_subtree_throughput_mbps : f64;
  pl_explicit_allowlist : bool;
  pl_is_top_level : bool;
  pl_value_score : Z
}.

(** The loop of [has_ancestor_in_set] from [current] on. *)
Fixpoint ancestor_loop (fuel : nat) (parent_by_index : list (option nat)) (selected_ancestors : gset nat)
    (current : option nat) : bool :=
  match fuel, current with
  | S fuel', Some parent =>
      if bool_decide (parent ∈ selected_ancestors) then true
      else ancestor_loop fuel' parent_by_index selected_ancestors (mjoin (parent_by_index !! parent))
  | _, _ => false
  end.

Definition has_ancestor_in_set (node_index : nat) (parent_by_index : list (option nat))
    (selected_ancestors : gset nat) : bool :=
  ancestor_loop (S (length parent_by_index)) parent_by_index selected_ancestors
    (mjoin (parent_by_index !! node_index)).

Definition is_restore (c : PendingLinkVirtualizationDecision) : bool :=
  match pl_target c with Physical => true | Virtual => false end.

(** [Ordering::then_with]. *)
Definition then_with (c c' : comparison) : comparison := match c with Eq => c' | _ => c end.
Definition bool_cmp (a b : bool) : comparison :=
  match a, b with false, true => Lt | true, false => Gt | _, _ => Eq end.
Definition str_cmp (a b : rstring) : comparison :=
  if ord_leb a b then if ord_leb b a then Eq else Lt else Gt.

(** The order of the candidates: restores first, then by value, size and name. *)
Definition candidate_cmp (left right : PendingLinkVirtualizationDecision) : comparison :=
  then_with (bool_cmp (is_restore right) (is_restore left))
    (then_with (pl_value_score right ?= pl_value_score left)
       (then_with (Nat.compare (pl_subtree_nodes right) (pl_subtree_nodes left))
          (str_cmp (pl_node_name left) (pl_node_name right)))).

Definition candidate_leb (left right : PendingLinkVirtualizationDecision) : bool :=
  match candidate_cmp left right with Gt => false | _ => true end.

Record LinkSelection : Type := mkLinkSelection {
  sel_selected : list PendingLinkVirtualizationDecision;
  sel_deferred : nat;
  sel_skipped_low_value : nat;
  sel_virtualized : gset nat;
  sel_virtualized_total : nat
}.

(** The subtree an automatic virtualization must have. *)
Definition required_subtree_nodes (c : PendingLinkVirtualizationDecision) : nat :=
  if f64_lt (pl_current_subtree_throughput_mbps c) TREEGUARD_LOW_VALUE_THROUGHPUT_MBPS
  then TREEGUARD_MIN_AUTO_VIRTUALIZE_SUBTREE_NODES_LOW_THROUGHPUT
  else TREEGUARD_MIN_AUTO_VIRTUALIZE_SUBTREE_NODES.

Definition defer_link (st : LinkSelection) : LinkSelection :=
  mkLinkSelection (sel_selected st) (S (sel_deferred st)) (sel_skipped_low_value st) (sel_virtualized st)
    (sel_virtualized_total st).
Definition skip_link (st : LinkSelection) : LinkSelection :=
  mkLinkSelection (sel_selected st) (sel_deferred st) (S (sel_skipped_low_value st)) (sel_virtualized st)
    (sel_virtualized_total st).
Definition select_restore (c : PendingLinkVirtualizationDecision) (st : LinkSelection) : LinkSelection :=
  mkLinkSelection (sel_selected st ++ [c]) (sel_deferred st) (sel_skipped_low_value st) (sel_virtualized st)
    (sel_virtualized_total st).
Definition select_virtual (c : PendingLinkVirtualizationDecision) (st : LinkSelection) : LinkSelection :=
  mkLinkSelection (sel_selected st ++ [c]) (sel_deferred st) (sel_skipped_low_value st)
    ({[pl_node_index c]} ∪ sel_virtualized st) (S (sel_virtualized_total st)).

Definition select_step (parent_by_index : list (option nat)) (existing_virtualized_indices : gset nat)
    (st : LinkSelection) (c : PendingLinkVirtualizationDecision) : LinkSelection :=
  if (TREEGUARD_LINK_CHANGE_BUDGET_PER_TICK <=? length (sel_selected st))%nat then defer_link st
  else match pl_target c with
       | Physical => select_restore c st
       | Virtual =>
           if has_ancestor_in_set (pl_node_index c) parent_by_index existing_virtualized_indices
              || has_ancestor_in_set (pl_node_index c) parent_by_index (sel_virtualized st)
           then defer_link st
           else if pl_explicit_allowlist c then select_virtual c st
           else if negb (pl_is_top_level c) && (pl_subtree_nodes c <? required_subtree_nodes c)%nat
           then skip_link st
           else if (TREEGUARD_MAX_AUTO_VIRTUALIZED_NODES <=? sel_virtualized_total st)%nat then defer_link st
           else select_virtual c st
       end.

Definition select_link_virtualization_candidates (candidates : list PendingLinkVirtualizationDecision)
    (parent_by_index : list (option nat)) (existing_virtualized_indices : gset nat)
    (current_virtualized_nodes : nat) : list PendingLinkVirtualizationDecision * nat * nat :=
  let st :=
    fold_left (select_step parent_by_index existing_virtualized_indices) (sort_with candidate_leb candidates)
      (mkLinkSelection [] 0 0 ∅ current_virtualized_nodes) in
  (sel_selected st, sel_deferred st, sel_skipped_low_value st).

(** ** The structural latch *)

Definition direct_child_site_counts_by_node (parents : list (option nat)) : list nat :=
  fold_left (fun counts parent =>
      match parent with
      | Some parent => if (parent <? length counts)%nat then alter S parent counts else counts
      | None => counts
      end)
    parents (replicate (length parents) 0%nat).

Definition top_level_structural_ineligibility (state : LinkState) (target : LinkVirtualState) (is_top_level : bool)
    : option (BakeryRuntimeNodeOperationFailureReason * rstring) :=
  if negb (bool_decide (target = Virtual)) || negb is_top_level then None
  else
    let direct_promotable_children :=
      (direct_child_sites (topology_fingerprint state) + direct_circuits (topology_fingerprint state))%nat in
    if (direct_promotable_children =? 0)%nat
    then Some (StructuralIneligibleNoPromotableChildren,
               str "has no direct child sites or direct circuits to promote safely")
    else if (direct_promotable_children =? 1)%nat
    then Some (StructuralIneligibleSinglePromotableChild,
               str "has only one promotable direct child, so top-level runtime virtualization would not produce a deterministic v1 split point")
    else None.

Definition set_structural (latch : option LinkStructuralIneligibleState) (state : LinkState) : LinkState :=
  mkLinkState (link_desired state) (link_last_change_unix state) (link_recent_changes_unix state)
    (topology_fingerprint state) latch (link_down state) (link_up state).

Definition clear_structural_ineligible_if_topology_changed (state : LinkState)
    (new_topology_fingerprint : LinkTopologyFingerprint) : LinkState * bool :=
  match structural_ineligible state with
  | Some latched =>
      if bool_decide (ineligible_fingerprint latched = new_topology_fingerprint) then (state, false)
      else (set_structural None state, true)
  | None => (state, false)
  end.

Definition latched_structural_ineligible_reason (state : LinkState) (target : LinkVirtualState)
    : option BakeryRuntimeNodeOperationFailureReason :=
  if negb (bool_decide (target = Virtual)) then None
  else
    latched ← structural_ineligible state;
    if bool_decide (ineligible_fingerprint latched = topology_fingerprint state)
    then Some (ineligible_reason latched) else None.

(** ** Thresholds over time *)

Definition update_below_since (below_since : option Z) (now_unix : Z) (util_pct threshold_pct : f64) : option Z :=
  if f64_lt util_pct threshold_pct
  then match below_since with None => Some now_unix | Some since => Some since end
  else None.

Definition update_above_since (above_since : option Z) (now_unix : Z) (util_pct threshold_pct : f64) : option Z :=
  if f64_le threshold_pct util_pct
  then match above_since with None => Some now_unix | Some since => Some since end
  else None.

(** ** Warnings *)

Record TreeguardWarningGroupState : Type := mkWarningGroup {
  wg_emitted : nat;
  wg_suppressed : nat;
  wg_suppression_summary : rstring
}.

(** [TreeguardWarningLimiter::push], on the groups and the warnings of the status. *)
Definition limiter_push (groups : gmap rstring TreeguardWarningGroupState) (warnings : list rstring)
    (group_key warning suppression_summary : rstring) : gmap rstring TreeguardWarningGroupState * list rstring :=
  let state := default (mkWarningGroup 0 0 suppression_summary) (groups !! group_key) in
  if (wg_emitted state <? TREEGUARD_WARNING_DETAIL_LIMIT_PER_GROUP)%nat
  then (<[group_key := mkWarningGroup (S (wg_emitted state)) (wg_suppressed state) (wg_suppression_summary state)]> groups,
        warnings ++ [warning])
  else (<[group_key := mkWarningGroup (wg_emitted state) (S (wg_suppressed state)) (wg_suppression_summary state)]> groups,
        warnings).

(** [TreeguardWarningLimiter::flush]. *)
Definition limiter_flush (groups : gmap rstring TreeguardWarningGroupState) (warnings : list rstring) : list rstring :=
  fold_left (fun warnings '(_, state) =>
      if (wg_suppressed state =? 0)%nat then warnings
      else warnings ++ [str "Suppressed " ++ usize_to_string (wg_suppressed state) ++ str " additional "
                        ++ wg_suppression_summary state ++ str " this tick."])
    (btree_iter groups) warnings.
