(* ===== verification/TreeGuardLinksSpec.v ===== *)
(** * What TreeGuard guarantees of the links it changes

    The memoised subtree sizes are the numbers of nodes below each node; the changes selected for a
    tick keep the budget, put restores first, and never virtualize a node below a virtualized one. *)

From S2P Require Import Prelude RustStd RustCollections RustFloat TreeGuardTypes TreeGuardLinks.
From stdpp Require Import sorting.

(** ** Ancestors *)

(** Parents come before their children, as the network tree is read. *)
Definition parents_first (parents : list (option nat)) : Prop :=
  forall i p, parents !! i = Some (Some p) -> (p < i)%nat.

Inductive ancestor (parents : list (option nat)) : nat -> nat -> Prop :=
| ancestor_parent i p : parents !! i = Some (Some p) -> ancestor parents i p
| ancestor_up i p a : parents !! i = Some (Some p) -> ancestor parents p a -> ancestor parents i a.

Section Tree.
Context (parents : list (option nat)).
Hypothesis Hfirst : parents_first parents.

Lemma ancestor_lt i a : ancestor parents i a -> (a < i)%nat.
Proof. induction 1 as [i p Hp|i p a Hp Ha IH]; apply Hfirst in Hp; lia. Qed.

Lemma ancestor_loop_spec set fuel : forall current,
  (forall p, current = Some p -> (p < fuel)%nat) ->
  ancestor_loop fuel parents set current = true
  <-> exists p, current = Some p /\ (p ∈ set \/ exists a, ancestor parents p a /\ a ∈ set).
Proof.
  induction fuel as [|fuel IH]; intros [p|] Hp; cbn [ancestor_loop]; try (split; [done|intros (q & [=] & _)]).
  { specialize (Hp p eq_refl). lia. }
  specialize (Hp p eq_refl). case_bool_decide as Hin.
  { split; [|done]. intros _. exists p. auto. }
  rewrite IH.
  - destruct (parents !! p) as [[q|]|] eqn:Hq; cbn.
    + split.
      * intros (q' & [= <-] & Hs). exists p. split; [done|right].
        destruct Hs as [Hs|(a & Ha & Hs)]; [exists q|exists a]; split; [by constructor|done|by eapply ancestor_up|done].
      * intros (p' & [= <-] & [Hs|(a & Ha & Hs)]); [done|]. exists q. split; [done|].
        inversion Ha as [? ? Hp'|? q' ? Hp' Ha']; subst; rewrite Hq in Hp'; simplify_eq; [by left|right; eauto].
    + split; [intros (? & [=] & _)|]. intros (p' & [= <-] & [Hs|(a & Ha & Hs)]); [done|].
      inversion Ha as [? ? Hp'|? q' ? Hp' Ha']; subst; congruence.
    + split; [intros (? & [=] & _)|]. intros (p' & [= <-] & [Hs|(a & Ha & Hs)]); [done|].
      inversion Ha as [? ? Hp'|? q' ? Hp' Ha']; subst; congruence.
  - intros q Hq. destruct (parents !! p) as [[q'|]|] eqn:Hpp; [|done..]. cbn in Hq. simplify_eq.
    apply Hfirst in Hpp. lia.
Qed.

Lemma has_ancestor_spec i set :
  has_ancestor_in_set i parents set = true <-> exists a, ancestor parents i a /\ a ∈ set.
Proof.
  unfold has_ancestor_in_set. rewrite ancestor_loop_spec.
  - split.
    + intros (p & Hp & Hs). destruct (parents !! i) as [[q|]|] eqn:Hi; [|done..]. cbn in Hp. simplify_eq.
      destruct Hs as [Hs|(a & Ha & Hs)]; [exists p|exists a]; split; [by constructor|done|by eapply ancestor_up|done].
    + intros (a & Ha & Hs). inversion Ha as [? p Hp|? p ? Hp Ha']; subst; rewrite Hp; cbn; eauto 10.
  - intros p Hp. destruct (parents !! i) as [[q|]|] eqn:Hi; [|done..]. cbn in Hp. simplify_eq.
    apply lookup_lt_Some in Hi as Hl. apply Hfirst in Hi. lia.
Qed.

(** ** Sizes of subtrees *)

(** Whether [i] is [j] or an ancestor of it. *)
Fixpoint reaches (fuel j i : nat) : bool :=
  match fuel with
  | O => false
  | S fuel' =>
      (j =? i)%nat || match parents !! j with Some (Some p) => reaches fuel' p i | _ => false end
  end.

Definition below (i j : nat) : bool := reaches (S j) j i.

Lemma reaches_fuel f : forall f' j i, (j < f)%nat -> (j < f')%nat -> reaches f j i = reaches f' j i.
Proof.
  induction f as [|f IH]; intros f' j i Hf Hf'; [lia|]. destruct f' as [|f']; [lia|]. cbn. f_equal.
  destruct (parents !! j) as [[p|]|] eqn:Hp; [|done..]. apply Hfirst in Hp. apply IH; lia.
Qed.

Lemma below_unfold i j :
  below i j = (j =? i)%nat || match parents !! j with Some (Some p) => below i p | _ => false end.
Proof.
  unfold below at 1. cbn [reaches]. f_equal. destruct (parents !! j) as [[p|]|] eqn:Hp; [|done..].
  apply reaches_fuel; [by apply Hfirst|lia].
Qed.

Lemma below_le i j : below i j = true -> (i <= j)%nat.
Proof.
  induction (lt_wf j) as [j _ IH]. rewrite below_unfold, orb_true_iff, Nat.eqb_eq. intros [->|Hp]; [done|].
  destruct (parents !! j) as [[p|]|] eqn:Hpp; [|done..]. apply Hfirst in Hpp. specialize (IH p Hpp Hp). lia.
Qed.

Lemma below_spec i j : below i j = true <-> i = j \/ ancestor parents j i.
Proof.
  induction (lt_wf j) as [j _ IH]. rewrite below_unfold, orb_true_iff, Nat.eqb_eq. split.
  - intros [->|Hp]; [by left|right]. destruct (parents !! j) as [[p|]|] eqn:Hpp; [|done..].
    apply IH in Hp as [->|Ha]; [by constructor|by eapply ancestor_up|by apply Hfirst].
  - intros [->|Ha]; [by left|right].
    inversion Ha as [? p Hp|? p ? Hp Ha']; subst; rewrite Hp; apply IH; auto.
Qed.

(** The number of nodes of the subtree of [i]. *)
Definition subtree_size (i : nat) : nat := length (List.filter (below i) (seq 0 (length parents))).

Lemma elem_of_children i c : c ∈ children_of parents i <-> parents !! c = Some (Some i).
Proof.
  unfold children_of. rewrite list_elem_of_In, filter_In, in_seq, bool_decide_eq_true. split; [by intros []|].
  intros Hc. split; [|done]. apply lookup_lt_Some in Hc. lia.
Qed.

Lemma NoDup_children i : NoDup (children_of parents i).
Proof. apply NoDup_ListNoDup, List.NoDup_filter, NoDup_ListNoDup, NoDup_seq. Qed.

Lemma sum_zero {A} (f : A -> nat) l : (forall x, x ∈ l -> f x = 0%nat) -> sum_list_with f l = 0%nat.
Proof.
  induction l as [|x l IH]; intros Hf; cbn; [done|]. rewrite Hf, IH; [done| |left]. intros y Hy. apply Hf. by right.
Qed.

Lemma sum_ext {A} (f g : A -> nat) l : (forall x, x ∈ l -> f x = g x) -> sum_list_with f l = sum_list_with g l.
Proof.
  induction l as [|x l IH]; intros Hf; cbn; [done|]. rewrite (Hf x), IH; [done| |left]. intros y Hy. apply Hf. by right.
Qed.

Lemma sum_add {A} (f g : A -> nat) l :
  sum_list_with (fun x => (f x + g x)%nat) l = (sum_list_with f l + sum_list_with g l)%nat.
Proof. induction l; cbn; lia. Qed.

Lemma sum_swap {A B} (f : A -> B -> nat) l l' :
  sum_list_with (fun x => sum_list_with (f x) l') l = sum_list_with (fun y => sum_list_with (fun x => f x y) l) l'.
Proof.
  induction l as [|x l IH]; cbn; [symmetry; by apply sum_zero|]. rewrite IH. symmetry. apply sum_add.
Qed.

Lemma sum_one (j : nat) l : NoDup l -> j ∈ l -> sum_list_with (fun c => Nat.b2n (j =? c)%nat) l = 1%nat.
Proof.
  induction l as [|x l IH]; [intros _ Hj; by apply elem_of_nil in Hj|]. intros [Hx Hl]%NoDup_cons Hj. cbn.
  apply elem_of_cons in Hj as [->|Hj].
  - rewrite Nat.eqb_refl, sum_zero; [done|]. intros y Hy. destruct (x =? y)%nat eqn:Hxy; to_prop; [by subst|done].
  - rewrite IH by done. destruct (j =? x)%nat eqn:Hjx; to_prop; [by subst|done].
Qed.

Lemma length_filter_sum {A} (f : A -> bool) l : length (List.filter f l) = sum_list_with (fun x => Nat.b2n (f x)) l.
Proof. induction l as [|x l IH]; cbn; [done|]. destruct (f x); cbn; lia. Qed.

(** A node of a subtree is its root or in the subtree of one child. *)
Lemma below_split i j :
  Nat.b2n (below i j)
  = (Nat.b2n (j =? i)%nat + sum_list_with (fun c => Nat.b2n (below c j)) (children_of parents i))%nat.
Proof.
  assert (forall c, c ∈ children_of parents i -> below c i = false) as Hup.
  { intros c Hc%elem_of_children%Hfirst. apply not_true_iff_false. intros Hb%below_le. lia. }
  induction (lt_wf j) as [j _ IH]. rewrite below_unfold. destruct (j =? i)%nat eqn:Hji; to_prop.
  { subst. cbn [orb]. rewrite sum_zero; [done|]. intros c Hc. by rewrite Hup. }
  cbn [orb Nat.b2n Nat.add].
  destruct (parents !! j) as [[p|]|] eqn:Hp.
  - destruct (decide (p = i)) as [->|Hpi].
    + rewrite below_unfold, Nat.eqb_refl. cbn [orb Nat.b2n]. symmetry.
      rewrite <- (sum_one j (children_of parents i)); [|apply NoDup_children|by apply elem_of_children].
      apply sum_ext. intros c Hc. rewrite (below_unfold c j), Hp. by rewrite Hup, orb_false_r.
    + rewrite IH by (by apply Hfirst). rewrite (proj2 (Nat.eqb_neq p i)) by done. cbn [Nat.b2n Nat.add].
      apply sum_ext. intros c Hc%elem_of_children. rewrite (below_unfold c j), Hp.
      destruct (j =? c)%nat eqn:Hjc; to_prop; [|done]. subst. congruence.
  - symmetry. apply sum_zero. intros c Hc%elem_of_children. rewrite below_unfold, Hp, orb_false_r.
    destruct (j =? c)%nat eqn:Hjc; to_prop; [|done]. subst. congruence.
  - symmetry. apply sum_zero. intros c Hc%elem_of_children. rewrite below_unfold, Hp, orb_false_r.
    destruct (j =? c)%nat eqn:Hjc; to_prop; [|done]. subst. congruence.
Qed.

Lemma subtree_size_children i :
  (i < length parents)%nat ->
  subtree_size i = (1 + sum_list_with subtree_size (children_of parents i))%nat.
Proof.
  intros Hi. unfold subtree_size. rewrite length_filter_sum.
  rewrite (sum_ext _ (fun j => (Nat.b2n (i =? j)%nat
    + sum_list_with (fun c => Nat.b2n (below c j)) (children_of parents i))%nat)).
  2: { intros j _. rewrite below_split. by rewrite Nat.eqb_sym. }
  rewrite sum_add, sum_one; [|apply NoDup_seq|by apply elem_of_seq; lia]. f_equal.
  rewrite sum_swap. apply sum_ext. intros c _. by rewrite length_filter_sum.
Qed.

(** ** The memoised count *)

Record memo_ok (memo : list nat) : Prop := {
  memo_length : length memo = length parents;
  memo_values : forall i v, memo !! i = Some v -> v = 0%nat \/ v = subtree_size i
}.

(** What is counted stays counted. *)
Definition memo_grows (memo memo' : list nat) : Prop :=
  memo_ok memo' /\ forall i, memo !! i = Some (subtree_size i) -> memo' !! i = Some (subtree_size i).

Lemma dfs_children fuel l : forall total memo,
  (forall c memo, c ∈ l -> memo_ok memo ->
     (dfs fuel parents c memo).1 = subtree_size c /\ memo_grows memo (dfs fuel parents c memo).2) ->
  memo_ok memo ->
  let r := fold_left (fun '(total, memo) child =>
      let '(count, memo) := dfs fuel parents child memo in ((total + count)%nat, memo)) l (total, memo) in
  r.1 = (total + sum_list_with subtree_size l)%nat /\ memo_grows memo r.2.
Proof.
  induction l as [|c l IH]; intros total memo Hdfs Hok; cbn zeta; cbn [fold_left sum_list_with].
  { split; [cbn; lia|by split]. }
  destruct (Hdfs c memo ltac:(left) Hok) as [Hc [Hok' Hgrow]]. destruct (dfs fuel parents c memo) as [count memo'].
  cbn [fst snd] in *. subst count.
  destruct (IH (total + subtree_size c)%nat memo') as [Ht [Hok2 Hgrow2]]; [|done|].
  { intros c' m' Hc'. apply Hdfs. by right. }
  split; [rewrite Ht; lia|]. split; [done|auto].
Qed.

Lemma dfs_spec fuel : forall index memo,
  (index < length parents)%nat -> (length parents < fuel + index)%nat -> memo_ok memo ->
  (dfs fuel parents index memo).1 = subtree_size index
  /\ memo_grows memo (dfs fuel parents index memo).2
  /\ (dfs fuel parents index memo).2 !! index = Some (subtree_size index).
Proof.
  induction fuel as [|fuel IH]; intros index memo Hi Hf Hok; [lia|]. cbn [dfs].
  destruct (lookup_lt_is_Some_2 memo index) as [v Hv]; [by rewrite (memo_length _ Hok)|]. rewrite Hv. cbn [default from_option id].
  pose proof (subtree_size_children index Hi) as Hsize.
  destruct (v =? 0)%nat eqn:Hv0; to_prop; cbn [negb].
  - destruct (dfs_children fuel (children_of parents index) 1 memo) as [Ht [Hok' Hgrow]]; [|done|].
    { intros c m Hc%elem_of_children Hm. apply lookup_lt_Some in Hc as Hl. apply Hfirst in Hc.
      destruct (IH c m Hl ltac:(lia) Hm) as (? & ? & _). done. }
    destruct (fold_left _ _ _) as [total memo']. cbn [fst snd] in *. rewrite <- Hsize in Ht. subst total.
    assert (index < length memo')%nat as Hlt by (by rewrite (memo_length _ Hok')).
    split_and!; [done| |by apply list_lookup_insert_eq]. split; [split|].
    + by rewrite length_insert, (memo_length _ Hok').
    + intros i w Hw. apply list_lookup_insert_Some in Hw as [(-> & -> & _)|[_ Hw]]; [by right|by eapply memo_values].
    + intros i Hiv. destruct (decide (index = i)) as [->|Hne]; [by apply list_lookup_insert_eq|].
      rewrite list_lookup_insert_ne by done. auto.
  - destruct (memo_values _ Hok index v Hv) as [Hz|Hz]; [done|subst v]. cbn [fst snd]. split_and!; [done|by split|done].
Qed.

Lemma counts_fold l : forall memo,
  (forall i, i ∈ l -> (i < length parents)%nat) -> memo_ok memo ->
  let memo' := fold_left (fun memo index => (dfs (S (length parents)) parents index memo).2) l memo in
  memo_grows memo memo' /\ forall i, i ∈ l -> memo' !! i = Some (subtree_size i).
Proof.
  induction l as [|x l IH]; intros memo Hl Hok; cbn zeta; cbn [fold_left].
  { split; [by split|]. intros i Hi. by apply elem_of_nil in Hi. }
  destruct (dfs_spec (S (length parents)) x memo) as (_ & [Hok' Hgrow] & Hx); [apply Hl; left|lia|done|].
  destruct (IH _ ltac:(intros i Hi; apply Hl; by right) Hok') as [[Hok2 Hgrow2] Hin]. split; [split; auto|].
  intros i [->|Hi]%elem_of_cons; auto.
Qed.

Lemma subtree_counts i :
  (i < length parents)%nat -> build_subtree_node_counts parents !! i = Some (subtree_size i).
Proof.
  intros Hi. unfold build_subtree_node_counts.
  apply (counts_fold (seq 0 (length parents)) (replicate (length parents) 0%nat)).
  - intros j Hj%elem_of_seq. lia.
  - split; [by rewrite length_replicate|]. intros j v [-> _]%lookup_replicate. by left.
  - apply elem_of_seq. lia.
Qed.
End Tree.

(** ** The order of candidates *)

#[export] Instance candidate_total : Total (ordered candidate_leb).
Proof.
  intros a b. unfold ordered, candidate_leb, candidate_cmp.
  assert (str_cmp (pl_node_name b) (pl_node_name a) = Gt -> str_cmp (pl_node_name a) (pl_node_name b) = Lt) as Hstr.
  { unfold str_cmp. destruct (ord_total (pl_node_name a) (pl_node_name b)) as [-> | ->]; by repeat case_match. }
  rewrite (Z.compare_antisym (pl_value_score b) (pl_value_score a)).
  rewrite (Nat.compare_antisym (pl_subtree_nodes b) (pl_subtree_nodes a)).
  destruct (is_restore a), (is_restore b), (Z.compare (pl_value_score b) (pl_value_score a));
    destruct (Nat.compare (pl_subtree_nodes b) (pl_subtree_nodes a)); cbn; auto.
  all: destruct (str_cmp (pl_node_name b) (pl_node_name a)); auto; rewrite Hstr by done; auto.
Qed.

(** Restores come first. *)
Definition restores_first (a b : PendingLinkVirtualizationDecision) : Prop := is_restore b = true -> is_restore a = true.

Lemma sorted_restores_first l : StronglySorted restores_first (sort_with candidate_leb l).
Proof.
  apply Sorted_StronglySorted; [by intros a b c Hab Hbc Hc; apply Hab, Hbc|].
  assert (forall a b, ordered candidate_leb a b -> restores_first a b) as Himpl.
  { intros a b. unfold ordered, restores_first, candidate_leb, candidate_cmp.
    destruct (is_restore a), (is_restore b); cbn; (done || (intros; discriminate)). }
  pose proof (Sorted_merge_sort (ordered candidate_leb) l) as Hs. fold (sort_with candidate_leb l) in Hs.
  induction Hs as [|a l' Hs IH Hhd]; constructor; [done|]. destruct Hhd; constructor. auto.
Qed.

Lemma StronglySorted_sublist {A} (R : relation A) l l' : sublist l l' -> StronglySorted R l' -> StronglySorted R l.
Proof.
  intros Hsub. induction Hsub as [|x l l' Hsub IH|x l l' Hsub IH]; intros Hs; [constructor| |].
  - inversion Hs as [|? ? Hs' Hall]; subst. constructor; [auto|]. rewrite Forall_forall in *. intros y Hy.
    apply Hall. by eapply elem_of_sublist.
  - inversion Hs; subst. auto.
Qed.

(** ** The selection *)

Section Selection.
Context (parents : list (option nat)) (existing : gset nat) (current : nat).
Hypothesis Hfirst : parents_first parents.

Definition virtuals (l : list PendingLinkVirtualizationDecision) : list PendingLinkVirtualizationDecision :=
  List.filter (fun c => negb (is_restore c)) l.

(** What a virtualization after the changes [earlier] meets. *)
Record may_virtualize (earlier : list PendingLinkVirtualizationDecision) (c : PendingLinkVirtualizationDecision)
    : Prop := {
  mv_alone : forall a, ancestor parents (pl_node_index c) a ->
    (a ∉ existing) /\ forall c', c' ∈ virtuals earlier -> pl_node_index c' <> a;
  mv_worth : pl_explicit_allowlist c = true
    \/ (pl_is_top_level c = true \/ (required_subtree_nodes c <= pl_subtree_nodes c)%nat)
       /\ (current + length (virtuals earlier) < TREEGUARD_MAX_AUTO_VIRTUALIZED_NODES)%nat
}.

Record selection_ok (prefix : list PendingLinkVirtualizationDecision) (st : LinkSelection) : Prop := {
  so_budget : (length (sel_selected st) <= TREEGUARD_LINK_CHANGE_BUDGET_PER_TICK)%nat;
  so_count : (length (sel_selected st) + sel_deferred st + sel_skipped_low_value st = length prefix)%nat;
  so_sublist : sublist (sel_selected st) prefix;
  so_set : forall n, n ∈ sel_virtualized st <-> exists c, c ∈ virtuals (sel_selected st) /\ pl_node_index c = n;
  so_total : sel_virtualized_total st = (current + length (virtuals (sel_selected st)))%nat;
  so_virtual : forall j c, sel_selected st !! j = Some c -> is_restore c = false ->
    may_virtualize (take j (sel_selected st)) c;
  so_restores : forall c, c ∈ prefix -> is_restore c = true ->
    c ∈ sel_selected st
    \/ length (sel_selected st) = TREEGUARD_LINK_CHANGE_BUDGET_PER_TICK
       /\ Forall (fun c => is_restore c = true) (sel_selected st)
}.

Lemma selection_ok_nil : selection_ok [] (mkLinkSelection [] 0 0 ∅ current).
Proof.
  split; cbn; [lia|done|constructor| |lia|done|].
  - intros n. split; [set_solver|]. intros (c & Hc & _). by apply elem_of_nil in Hc.
  - intros c Hc. by apply elem_of_nil in Hc.
Qed.

(** A candidate that is passed over: a virtualization, or anything when the budget is used. *)
Lemma selection_ok_pass prefix st st' c :
  selection_ok prefix st -> sel_selected st' = sel_selected st ->
  sel_virtualized st' = sel_virtualized st -> sel_virtualized_total st' = sel_virtualized_total st ->
  (sel_deferred st' + sel_skipped_low_value st' = S (sel_deferred st + sel_skipped_low_value st))%nat ->
  (is_restore c = true -> length (sel_selected st) = TREEGUARD_LINK_CHANGE_BUDGET_PER_TICK
     /\ Forall (fun c => is_restore c = true) prefix) ->
  selection_ok (prefix ++ [c]) st'.
Proof.
  intros [Hb Hc Hs Hset Ht Hv Hr] Hsel Hvs Hvt Hcount Hres. split; rewrite ?Hsel, ?Hvs, ?Hvt; try done.
  - rewrite length_app. cbn. lia.
  - by apply sublist_inserts_r.
  - intros c' [Hc'| ->%list_elem_of_singleton]%elem_of_app Hr'; [auto|]. right. destruct (Hres Hr') as [Hlen Hall].
    split; [done|]. apply Forall_forall. intros x Hx. rewrite Forall_forall in Hall. apply Hall. by eapply elem_of_sublist.
Qed.

(** A candidate that is taken. *)
Lemma selection_ok_take prefix st st' c :
  selection_ok prefix st -> (length (sel_selected st) < TREEGUARD_LINK_CHANGE_BUDGET_PER_TICK)%nat ->
  sel_selected st' = sel_selected st ++ [c] ->
  sel_deferred st' = sel_deferred st -> sel_skipped_low_value st' = sel_skipped_low_value st ->
  (forall n, n ∈ sel_virtualized st' <-> n ∈ sel_virtualized st \/ is_restore c = false /\ pl_node_index c = n) ->
  sel_virtualized_total st' = (sel_virtualized_total st + length (virtuals [c]))%nat ->
  (is_restore c = false -> may_virtualize (sel_selected st) c) ->
  selection_ok (prefix ++ [c]) st'.
Proof.
  intros [Hb Hc Hs Hset Ht Hv Hr] Hlen Hsel Hd Hsk Hvs Hvt Hmay.
  assert (virtuals (sel_selected st ++ [c]) = virtuals (sel_selected st) ++ virtuals [c]) as Happ by apply List.filter_app.
  split; rewrite Hsel.
  - rewrite length_app. cbn. lia.
  - rewrite Hd, Hsk, !length_app. cbn. lia.
  - by apply sublist_app.
  - intros n. rewrite Hvs, Hset, Happ. setoid_rewrite elem_of_app. unfold virtuals at 3. cbn [List.filter].
    destruct (is_restore c) eqn:Hrc; cbn [negb].
    + split; [intros [(c' & Hc' & Hn)|[? _]]; [eauto|done]|]. intros (c' & [Hc'|Hc'] & Hn); [eauto|by apply elem_of_nil in Hc'].
    + split.
      * intros [(c' & Hc' & Hn)|[_ Hn]]; [eauto|]. exists c. split; [right; by apply list_elem_of_singleton|done].
      * intros (c' & [Hc'| ->%list_elem_of_singleton] & Hn); [eauto|auto].
  - rewrite Hvt, Ht, Happ, length_app. lia.
  - intros j c' Hj Hrc. apply lookup_app_Some in Hj as [Hj|[Hge Hj]].
    + apply lookup_lt_Some in Hj as Hl. rewrite take_app_le by lia. by apply Hv.
    + apply list_lookup_singleton_Some in Hj as [Hj ->]. rewrite take_app_le by lia.
      rewrite take_ge by lia. by apply Hmay.
  - intros c' [Hc'| ->%list_elem_of_singleton]%elem_of_app Hr'.
    + destruct (Hr c' Hc' Hr') as [Hin|[Hfull _]]; [left; apply elem_of_app; by left|lia].
    + left. apply elem_of_app. right. by apply list_elem_of_singleton.
Qed.

Lemma select_step_ok prefix st c :
  selection_ok prefix st -> (forall c', c' ∈ prefix -> restores_first c' c) ->
  selection_ok (prefix ++ [c]) (select_step parents existing st c).
Proof.
  intros Hok Hsorted. unfold select_step.
  destruct (_ <=? length (sel_selected st))%nat eqn:Hbud; to_prop.
  { apply (selection_ok_pass _ st); [done|done|done|done|cbn; lia|]. intros Hr.
    pose proof (so_budget _ _ Hok). split; [lia|]. apply Forall_forall. intros c' Hc'. by apply Hsorted. }
  assert (forall st', sel_selected st' = sel_selected st -> sel_virtualized st' = sel_virtualized st ->
    sel_virtualized_total st' = sel_virtualized_total st ->
    (sel_deferred st' + sel_skipped_low_value st' = S (sel_deferred st + sel_skipped_low_value st))%nat ->
    is_restore c = false -> selection_ok (prefix ++ [c]) st') as Hpass.
  { intros. apply (selection_ok_pass _ st); try done. by intros; congruence. }
  destruct (pl_target c) eqn:Htarget.
  { assert (is_restore c = true) as Hr by (unfold is_restore; by rewrite Htarget).
    apply (selection_ok_take _ st); try done; [|unfold virtuals; cbn; rewrite Hr; cbn; lia|congruence].
    intros n. cbn. rewrite Hr. naive_solver. }
  assert (is_restore c = false) as Hr by (unfold is_restore; by rewrite Htarget).
  destruct (has_ancestor_in_set _ _ existing || has_ancestor_in_set _ _ (sel_virtualized st)) eqn:Hanc.
  { apply Hpass; try done; cbn; lia. }
  apply orb_false_iff in Hanc as [Hex Hsel].
  assert (forall a, ancestor parents (pl_node_index c) a ->
    (a ∉ existing) /\ forall c', c' ∈ virtuals (sel_selected st) -> pl_node_index c' <> a) as Halone.
  { intros a Ha. split.
    - intros Hin. apply diff_true_false. rewrite <- Hex. symmetry. apply has_ancestor_spec; eauto.
    - intros c' Hc' Hn. apply diff_true_false. rewrite <- Hsel. symmetry. apply has_ancestor_spec; [done|].
      exists a. split; [done|]. apply (so_set _ _ Hok). eauto. }
  assert (forall (Hw : pl_explicit_allowlist c = true
    \/ (pl_is_top_level c = true \/ (required_subtree_nodes c <= pl_subtree_nodes c)%nat)
       /\ (current + length (virtuals (sel_selected st)) < TREEGUARD_MAX_AUTO_VIRTUALIZED_NODES)%nat),
    selection_ok (prefix ++ [c]) (select_virtual c st)) as Htake.
  { intros Hw. apply (selection_ok_take _ st); try done; [|unfold virtuals; cbn; rewrite Hr; cbn; lia].
    intros n. cbn. rewrite elem_of_union, elem_of_singleton. naive_solver. }
  destruct (pl_explicit_allowlist c); [apply Htake; by left|].
  destruct (negb (pl_is_top_level c) && _) eqn:Hlow. { apply Hpass; try done; cbn; lia. }
  destruct (_ <=? sel_virtualized_total st)%nat eqn:Htot; to_prop. { apply Hpass; try done; cbn; lia. }
  apply Htake. right. rewrite (so_total _ _ Hok) in Htot. split; [|done].
  destruct (pl_is_top_level c); [by left|right]. cbn [negb andb] in Hlow. by apply Nat.ltb_ge in Hlow.
Qed.

Lemma selection_ok_fold l : forall prefix st,
  StronglySorted restores_first (prefix ++ l) -> selection_ok prefix st ->
  selection_ok (prefix ++ l) (fold_left (select_step parents existing) l st).
Proof.
  induction l as [|c l IH]; intros prefix st Hs Hok; cbn [fold_left]; [by rewrite app_nil_r|].
  rewrite (cons_middle c), (assoc_L (++)) in *. apply IH; [done|]. apply select_step_ok; [done|].
  intros c' Hc'. rewrite <- (assoc_L (++)) in Hs. eapply StronglySorted_app_1_elem_of; [exact Hs|done|left].
Qed.

Lemma selection_spec candidates :
  exists st, selection_ok (sort_with candidate_leb candidates) st
  /\ select_link_virtualization_candidates candidates parents existing current
     = (sel_selected st, sel_deferred st, sel_skipped_low_value st).
Proof.
  eexists. split; [|done]. apply (selection_ok_fold _ []); [apply sorted_restores_first|apply selection_ok_nil].
Qed.
End Selection.

(** ** The properties *)

(** In a tree whose parents come before their children, the selection of a tick takes at most four
    of the candidates and accounts for every other; restores come before virtualizations, and one is
    left out only when four restores are taken; no selected virtualization is below a node that is
    virtual or was selected before it; and one that was not asked for by name is of a top-level node
    or a large enough subtree and leaves at most 64 nodes virtual. *)
Theorem link_selection_is_safe candidates parents existing current (Hfirst : parents_first parents) :
  let '(selected, deferred, skipped) :=
    select_link_virtualization_candidates candidates parents existing current in
  (length selected <= 4)%nat
  /\ selected ⊆+ candidates
  /\ (length selected + deferred + skipped = length candidates)%nat
  /\ (forall i j a b, (i < j)%nat -> selected !! i = Some a -> selected !! j = Some b -> restores_first a b)
  /\ (forall c, c ∈ candidates -> is_restore c = true ->
        c ∈ selected \/ length selected = 4%nat /\ Forall (fun c => is_restore c = true) selected)
  /\ (forall j c, selected !! j = Some c -> is_restore c = false ->
        may_virtualize parents existing current (take j selected) c).
Proof.
  destruct (selection_spec parents existing current Hfirst candidates) as (st & Hok & ->).
  pose proof (sort_with_perm candidate_leb candidates) as Hperm. pose proof (sorted_restores_first candidates) as Hsorted.
  generalize dependent (sort_with candidate_leb candidates). intros sorted Hok Hperm Hsorted.
  destruct Hok as [Hb Hc Hs _ _ Hv Hr]. split_and!; [done| | | | |done].
  - rewrite <- Hperm. by apply sublist_submseteq.
  - by rewrite <- Hperm.
  - assert (StronglySorted restores_first (sel_selected st)) as Hss by (by eapply StronglySorted_sublist).
    clear -Hss. intros i j a b Hij Hi Hj. revert i j Hij Hi Hj.
    induction Hss as [|x l Hss IH Hall]; intros [|i] [|j] Hij Hi Hj; try done; try lia.
    + cbn in Hi, Hj. simplify_eq. rewrite Forall_forall in Hall. apply Hall. by eapply list_elem_of_lookup_2.
    + apply (IH i j); [lia|done|done].
  - intros c Hcin. apply Hr. by rewrite Hperm.
Qed.

(** In a tree whose parents come before their children, the memoised count of every node is the
    number of nodes that are it or have it as an ancestor. *)
Theorem subtree_counts_are_exact parents (Hfirst : parents_first parents) :
  length (build_subtree_node_counts parents) = length parents
  /\ forall i, (i < length parents)%nat ->
     exists nodes, NoDup nodes /\ build_subtree_node_counts parents !! i = Some (length nodes)
     /\ forall j, j ∈ nodes <-> (j < length parents)%nat /\ (i = j \/ ancestor parents j i).
Proof.
  split.
  - unfold build_subtree_node_counts. destruct (counts_fold parents Hfirst (seq 0 (length parents)) (replicate (length parents) 0%nat))
      as [[[Hl _] _] _]; [intros j Hj%elem_of_seq; lia| |done].
    split; [by rewrite length_replicate|]. intros j v (-> & _)%lookup_replicate. by left.
  - intros i Hi. exists (List.filter (below parents i) (seq 0 (length parents))). split_and!.
    + apply NoDup_ListNoDup, List.NoDup_filter, NoDup_ListNoDup, NoDup_seq.
    + by apply subtree_counts.
    + intros j. rewrite list_elem_of_In, filter_In, in_seq, below_spec by done. cbn. intuition lia.
Qed.

(** ** A small tree *)

(** Node 1 below the root 0, node 2 below it, node 3 below the root. *)
Definition sample_parents : list (option nat) := [None; Some 0%nat; Some 1%nat; Some 0%nat].

Lemma sample_parents_first : parents_first sample_parents.
Proof. intros i p. do 4 (destruct i as [|i]; [cbn; intros [= <-]; lia || done|]). done. Qed.

Definition sample_candidate (name : rstring) (index : nat) (target : LinkVirtualState) (nodes : nat)
    : PendingLinkVirtualizationDecision :=
  mkPendingLink name index target (str "idle") nodes (f64_of_Z 5) false false
    (link_virtualization_value_score false nodes f64_zero f64_zero).

Definition sample_candidates : list PendingLinkVirtualizationDecision :=
  [sample_candidate (str "b") 2 Virtual 9; sample_candidate (str "a") 1 Virtual 10; sample_candidate (str "c") 3 Physical 1].

(** The restore, then the larger subtree; the node below it waits. *)
Lemma link_selection_is_safe_witness :
  let '(selected, deferred, skipped) :=
    select_link_virtualization_candidates sample_candidates sample_parents ∅ 0 in
  (map pl_node_name selected, deferred, skipped) = ([str "c"; str "a"], 1%nat, 0%nat)
  /\ (length selected + deferred + skipped = 3)%nat.
Proof.
  pose proof (link_selection_is_safe sample_candidates sample_parents ∅ 0 sample_parents_first) as Hs.
  assert (let '(selected, deferred, skipped) :=
      select_link_virtualization_candidates sample_candidates sample_parents ∅ 0 in
    (map pl_node_name selected, deferred, skipped) = ([str "c"; str "a"], 1%nat, 0%nat)) as Hv
    by (vm_compute; reflexivity).
  destruct (select_link_virtualization_candidates sample_candidates sample_parents ∅ 0) as [[selected deferred] skipped].
  split; [exact Hv|]. exact (proj1 (proj2 (proj2 Hs))).
Defined.

Lemma subtree_counts_are_exact_witness :
  build_subtree_node_counts sample_parents = [4; 2; 1; 1]%nat
  /\ exists nodes, build_subtree_node_counts sample_parents !! 1%nat = Some (length nodes)
     /\ forall j, j ∈ nodes <-> (j < 4)%nat /\ (1%nat = j \/ ancestor sample_parents j 1).
Proof.
  split; [vm_compute; reflexivity|].
  destruct (proj2 (subtree_counts_are_exact sample_parents sample_parents_first) 1%nat ltac:(cbn; lia))
    as (nodes & _ & Hc & Hn).
  exists nodes. split; [exact Hc|exact Hn].
Defined.
