(* ===== verification/TcHandle.v ===== *)
(** * Traffic-control handles ([lqos_bus/src/tc_handle.rs], [lqos_utils/src/hex_string.rs])

    A handle is a [u32] whose upper half is the major number and whose lower half is the minor one. *)

From S2P Require Import Prelude RustStd RustCollections RustFloat RustFormat.

Record TcHandle : Type := mkTcHandle { as_u32 : Z }.

#[export] Instance TcHandle_eq_dec : EqDecision TcHandle.
Proof. solve_decision. Defined.
#[export] Instance TcHandle_countable : Countable TcHandle.
Proof. refine (inj_countable' as_u32 mkTcHandle _). by intros []. Defined.

Definition TC_H_ROOT : Z := 4294967295.
Definition TC_H_UNSPEC : Z := 0.

Definition from_u32 (tc : Z) : TcHandle := mkTcHandle tc.
Definition tc_zero : TcHandle := mkTcHandle 0.

Definition get_major_minor (h : TcHandle) : Z * Z :=
  (Z.shiftr (as_u32 h) 16 mod 2 ^ 16, Z.land (as_u32 h) 0xFFFF).

(** [read_hex_string]. *)
Definition read_hex_string (s : rstring) : option Z :=
  if str_is_empty s then Some 0 else from_str_radix_16 (2 ^ 32) (remove_pair 48 120 s).

(** [(major << 16) | minor] in [u32]. *)
Definition join_halves (major minor : Z) : TcHandle :=
  mkTcHandle (Z.lor (Z.shiftl major 16 mod 2 ^ 32) minor).

Inductive TcHandleParseError : Type := InvalidInput (input : rstring).

Definition from_string (handle : rstring) : result TcHandleParseError TcHandle :=
  let handle := trim handle in
  if bool_decide (handle = str "root") then Ok (mkTcHandle TC_H_ROOT)
  else if bool_decide (handle = str "none") then Ok (mkTcHandle TC_H_UNSPEC)
  else if negb (str_contains handle 58) then
    match read_hex_string handle with
    | Some major => Ok (join_halves major 0)
    | None => Err (InvalidInput handle)
    end
  else
    let parts := split_char handle 58 in
    match read_hex_string (default [] (parts !! 0%nat)) with
    | None => Err (InvalidInput handle)
    | Some major =>
        match read_hex_string (default [] (parts !! 1%nat)) with
        | None => Err (InvalidInput handle)
        | Some minor =>
            if (2 ^ 16 <=? major) || (2 ^ 16 <=? minor) then Err (InvalidInput handle)
            else Ok (join_halves major minor)
        end
    end.

(** [format!("0x{:x}:0x{:x}", major, minor)]. *)
Definition class_id_text (major minor : Z) : rstring :=
  str "0x" ++ lower_hex major ++ str ":" ++ str "0x" ++ lower_hex minor.
(** [format!("0x{:x}:", major)]. *)
Definition qdisc_id_text (major : Z) : rstring := str "0x" ++ lower_hex major ++ str ":".

Definition as_tc_string (h : TcHandle) : rstring :=
  let '(major, minor) := get_major_minor h in
  if negb (minor =? 0) then class_id_text major minor else qdisc_id_text major.

(** [Display] of a handle. *)
Definition display_handle (h : TcHandle) : rstring :=
  let '(major, minor) := get_major_minor h in lower_hex major ++ str ":" ++ lower_hex minor.

(** [tc_handle_from_major_minor] of [lqos_bakery]. *)
Definition tc_handle_from_major_minor (major minor : Z) : TcHandle :=
  from_u32 (Z.lor (Z.shiftl major 16) minor).

(** ** Well-formed handles and their halves *)

Definition handle_ok (h : TcHandle) : Prop := 0 <= as_u32 h < 2 ^ 32.
Definition u16_ok (n : Z) : Prop := 0 <= n < 2 ^ 16.

Lemma get_major_minor_div h :
  handle_ok h -> get_major_minor h = (as_u32 h / 2 ^ 16, as_u32 h mod 2 ^ 16).
Proof.
  unfold handle_ok, get_major_minor. intros Hh. f_equal.
  - rewrite Z.shiftr_div_pow2 by lia. rewrite Z.mod_small; [done|]. dlia.
  - change 0xFFFF with (Z.ones 16). by rewrite Z.land_ones by lia.
Qed.

Lemma major_minor_ok h major minor :
  handle_ok h -> get_major_minor h = (major, minor) -> u16_ok major /\ u16_ok minor.
Proof.
  intros Hh. rewrite get_major_minor_div by done. intros [= <- <-]. unfold handle_ok, u16_ok in *. dlia.
Qed.

Lemma join_halves_add major minor :
  u16_ok major -> u16_ok minor -> join_halves major minor = mkTcHandle (major * 2 ^ 16 + minor).
Proof.
  unfold u16_ok, join_halves. intros Hma Hmi. f_equal.
  rewrite Z.shiftl_mul_pow2, (Z.mod_small (major * 2 ^ 16)) by lia.
  symmetry. rewrite <- Z.lxor_lor, <- Z.add_nocarry_lxor; [done|..].
  all: apply Z.bits_inj'; intros n Hn; rewrite Z.land_spec, Z.bits_0;
    destruct (Z.ltb_spec n 16); [rewrite Z.mul_pow2_bits_low by lia; done|];
    rewrite (Z.bits_above_log2 minor n); [apply andb_false_r|lia|];
    destruct (decide (minor = 0)) as [->|Hne]; [cbn; lia|];
    apply Z.log2_lt_pow2; [lia|]; apply Z.lt_le_trans with (2 ^ 16); [lia|];
    apply Z.pow_le_mono_r; lia.
Qed.

Lemma get_major_minor_join major minor :
  u16_ok major -> u16_ok minor -> get_major_minor (join_halves major minor) = (major, minor).
Proof.
  intros Hma Hmi. rewrite join_halves_add by done. unfold u16_ok in *.
  rewrite get_major_minor_div by (unfold handle_ok; cbn [as_u32]; lia). cbn [as_u32]. f_equal; dlia.
Qed.

Lemma tc_handle_from_major_minor_join major minor :
  u16_ok major -> u16_ok minor -> tc_handle_from_major_minor major minor = join_halves major minor.
Proof.
  unfold u16_ok, tc_handle_from_major_minor, from_u32, join_halves. intros Hma Hmi.
  rewrite (Z.mod_small (Z.shiftl major 16)); [done|]. rewrite Z.shiftl_mul_pow2; lia.
Qed.

Lemma join_get_major_minor h major minor :
  handle_ok h -> get_major_minor h = (major, minor) -> join_halves major minor = h.
Proof.
  intros Hh Hg. destruct (major_minor_ok h major minor Hh Hg) as [Hma Hmi].
  rewrite join_halves_add by done. rewrite get_major_minor_div in Hg by done. injection Hg as <- <-.
  destruct h as [n]. cbn [as_u32]. f_equal. dlia.
Qed.

(** ** Printing and parsing *)

Lemma read_hex_string_lower_hex n :
  u16_ok n -> read_hex_string (lower_hex n) = Some n.
Proof.
  intros Hn. unfold read_hex_string, u16_ok in *. pose proof (lower_hex_nonempty n) as Hne.
  rewrite remove_pair_none; [|intros H%lower_hex_digits; lia].
  destruct (str_is_empty (lower_hex n)) eqn:He; [by destruct (lower_hex n)|].
  apply from_str_radix_lower_hex. lia.
Qed.

Lemma read_hex_string_prefixed n :
  u16_ok n -> read_hex_string (str "0x" ++ lower_hex n) = Some n.
Proof.
  intros Hn. unfold read_hex_string, u16_ok in *.
  change (str "0x" ++ lower_hex n) with (48 :: 120 :: lower_hex n). cbn [str_is_empty remove_pair].
  cbn [Z.eqb Pos.eqb andb]. rewrite remove_pair_none by (intros H%lower_hex_digits; lia).
  apply from_str_radix_lower_hex. lia.
Qed.

(** The characters of a printed handle: digits, [a]-[f], [x] and the colon. *)
Definition handle_char (c : rchar) : Prop := 48 <= c <= 58 \/ 97 <= c <= 102 \/ c = 120.

Lemma drop_while_none p s : (forall c, c ∈ s -> p c = false) -> drop_while p s = s.
Proof. destruct s as [|c s]; [done|]. intros H. cbn. by rewrite (H c) by left. Qed.

Lemma trim_handle_chars s : (forall c, c ∈ s -> handle_char c) -> trim s = s.
Proof.
  intros H. assert (forall c, c ∈ s -> is_whitespace c = false) as Hw.
  { intros c Hc%H. unfold handle_char in Hc. unfold is_whitespace, in_range.
    repeat match goal with |- context [?a =? ?b] => destruct (Z.eqb_spec a b); [lia|] end.
    repeat match goal with |- context [?a <=? ?b] => destruct (Z.leb_spec a b) end; try lia; done. }
  unfold trim. rewrite (drop_while_none is_whitespace s) by done.
  rewrite drop_while_none by (intros c; rewrite ?elem_of_rev, ?elem_of_reverse; auto).
  first [apply rev_involutive | apply reverse_involutive].
Qed.

Lemma split_on_plain p s : (forall c, c ∈ s -> p c = false) -> split_on p s = [s].
Proof.
  induction s as [|c s IH]; [done|]. intros H. cbn. rewrite (H c) by left.
  rewrite IH; [done|]. intros d Hd. apply H. by right.
Qed.

Lemma split_on_at_sep p s c t :
  (forall d, d ∈ s -> p d = false) -> p c = true -> split_on p (s ++ c :: t) = s :: split_on p t.
Proof.
  intros H Hc. induction s as [|d s IH]; cbn [app split_on]; [by rewrite Hc|].
  rewrite (H d) by left. rewrite IH; [done|]. intros e He. apply H. by right.
Qed.

Lemma str_contains_app s c t : str_contains (s ++ c :: t) c = true.
Proof. unfold str_contains. apply existsb_exists. exists c. rewrite in_app_iff. cbn. rewrite Z.eqb_refl. auto. Qed.

(** Parsing [major:minor] whose two sides read as 16-bit numbers. *)
Lemma from_string_parts s t major minor :
  (forall c, c ∈ s ++ 58 :: t -> handle_char c) -> (58 ∉ s) -> (58 ∉ t) ->
  read_hex_string s = Some major -> read_hex_string t = Some minor -> u16_ok major -> u16_ok minor ->
  from_string (s ++ 58 :: t) = Ok (join_halves major minor).
Proof.
  intros Hc Hs Ht Rs Rt Hma Hmi. unfold from_string, u16_ok in *.
  rewrite trim_handle_chars by done.
  assert (forall w, (58 ∉ w) -> s ++ 58 :: t <> w) as Hne.
  { intros w Hw <-. apply Hw. rewrite elem_of_app, elem_of_cons. auto. }
  rewrite (bool_decide_false (_ = str "root")) by (apply Hne; by_compute).
  rewrite (bool_decide_false (_ = str "none")) by (apply Hne; by_compute).
  rewrite str_contains_app. cbn [negb]. unfold split_char.
  rewrite split_on_at_sep by first [done | intros d Hd; apply Z.eqb_neq; by intros <-].
  rewrite split_on_plain by (intros d Hd; apply Z.eqb_neq; by intros <-).
  change (default [] ([s; t] !! 0%nat)) with s. change (default [] ([s; t] !! 1%nat)) with t. rewrite Rs, Rt.
  rewrite (proj2 (Z.leb_gt _ _)), (proj2 (Z.leb_gt _ _)) by lia. done.
Qed.

Lemma lower_hex_no_colon n : (58 ∉ lower_hex n).
Proof. intros H%lower_hex_digits. lia. Qed.
Lemma prefixed_no_colon n : (58 ∉ str "0x" ++ lower_hex n).
Proof.
  intros H. change (str "0x" ++ lower_hex n) with (48 :: 120 :: lower_hex n) in H.
  rewrite !elem_of_cons in H. destruct H as [H|[H|H%lower_hex_digits]]; lia.
Qed.
Lemma lower_hex_handle_char n c : c ∈ lower_hex n -> handle_char c.
Proof. unfold handle_char. intros H%lower_hex_digits. lia. Qed.
Lemma prefixed_handle_char n c : c ∈ str "0x" ++ lower_hex n -> handle_char c.
Proof.
  intros H. change (str "0x" ++ lower_hex n) with (48 :: 120 :: lower_hex n) in H.
  rewrite !elem_of_cons in H. destruct H as [->|[->|H%lower_hex_handle_char]]; [..|done]; unfold handle_char; lia.
Qed.

Lemma app_handle_char s t c :
  (forall d, d ∈ s -> handle_char d) -> (forall d, d ∈ t -> handle_char d) -> c ∈ s ++ 58 :: t -> handle_char c.
Proof. intros Hs Ht. rewrite elem_of_app, elem_of_cons. intros [H|[->|H]]; auto. unfold handle_char. lia. Qed.

#[local] Hint Resolve lower_hex_no_colon prefixed_no_colon lower_hex_handle_char prefixed_handle_char
  read_hex_string_lower_hex read_hex_string_prefixed : rust.

Lemma from_string_as_tc_string h : handle_ok h -> from_string (as_tc_string h) = Ok h.
Proof.
  intros Hh. unfold as_tc_string. destruct (get_major_minor h) as [major minor] eqn:Hg.
  destruct (major_minor_ok h major minor Hh Hg) as [Hma Hmi].
  rewrite <- (join_get_major_minor h major minor Hh Hg). unfold class_id_text, qdisc_id_text.
  destruct (Z.eqb_spec minor 0) as [->|_]; cbn [negb].
  - change (str ":") with [58]. rewrite app_assoc.
    apply from_string_parts; eauto with rust; [|by_compute].
    intros c. apply app_handle_char; [eauto with rust|]. intros d Hd%not_elem_of_nil. done.
  - rewrite app_assoc. change (str ":" ++ str "0x" ++ lower_hex minor) with (58 :: (str "0x" ++ lower_hex minor)).
    apply from_string_parts; eauto using app_handle_char with rust.
Qed.

Lemma as_tc_string_inj h h' : handle_ok h -> handle_ok h' -> as_tc_string h = as_tc_string h' -> h = h'.
Proof.
  intros Hh Hh' Heq. apply from_string_as_tc_string in Hh, Hh'. rewrite Heq in Hh. congruence.
Qed.

(** A traffic-control handle survives both of its printed forms: reading the text given to [tc]
    ("0x1:0x2", with the minor left out when it is zero) or the displayed text ("1:2") gives the handle
    back, for every 32-bit handle. *)
Theorem handle_text_roundtrip h :
  handle_ok h -> from_string (as_tc_string h) = Ok h /\ from_string (display_handle h) = Ok h.
Proof.
  intros Hh. split; [by apply from_string_as_tc_string|].
  unfold display_handle. destruct (get_major_minor h) as [major minor] eqn:Hg.
  destruct (major_minor_ok h major minor Hh Hg) as [Hma Hmi].
  rewrite <- (join_get_major_minor h major minor Hh Hg).
  change (str ":" ++ lower_hex minor) with (58 :: lower_hex minor).
  apply from_string_parts; eauto using app_handle_char with rust.
Qed.

Lemma handle_text_roundtrip_witness :
  handle_ok (mkTcHandle 0x7FFF0002) /\ from_string (as_tc_string (mkTcHandle 0x7FFF0002)) = Ok (mkTcHandle 0x7FFF0002).
Proof.
  assert (handle_ok (mkTcHandle 0x7FFF0002)) as H by (unfold handle_ok; cbn; lia).
  split; [exact H|]. apply (proj1 (handle_text_roundtrip (mkTcHandle 0x7FFF0002) H)).
Defined.

(** A major number that does not fit 16 bits is refused before a colon and truncated without one. *)
Lemma oversized_major_without_colon :
  from_string (str "12345:0") = Err (InvalidInput (str "12345:0"))
  /\ from_string (str "12345") = Ok (mkTcHandle 0x23450000).
Proof. split; by vm_compute. Qed.
