(* ===== verification/SysIpMapping.v ===== *)
(** * The kernel's IP mappings ([lqos_sys/src/ip_mapping], [lqos_sys/src/bpf_map.rs])

    A mapping takes an address or a network to a class handle and a CPU.  It is an entry of a pinned bpf map
    whose key is a prefix length and sixteen address bytes; an IPv4 address fills the last four of them and
    has its prefix length raised by 96.  The recent lookups are kept in a second map, the hot cache, which is
    emptied after a change, and a third map counts the changes.

    The system calls are [BpfTable], one table for each type of key; a descriptor of a pinned map is named by
    its path.  [rounds] is how often the loops over a map go round at most. *)

From S2P Require Import Prelude RustStd RustCollections RustFormat RustNet TcHandle.

(** ** Pinned maps *)

(** The system calls on the maps with keys [K] and values [V].  A return code of 0 is success; a lookup also
    returns what it left in the value, and a batch deletion how many keys it took. *)
Class BpfTable (W K V : Type) : Type := {
  bpf_map_get_next_key : W -> rstring -> option K -> Z * K;
  bpf_map_lookup_elem : W -> rstring -> K -> Z * V;
  bpf_map_update_elem : W -> rstring -> K -> V -> Z * W;
  bpf_map_delete_elem : W -> rstring -> K -> Z * W;
  bpf_map_delete_batch : W -> rstring -> list K -> Z -> Z * Z * W
}.

(** [bpf_obj_get]: the descriptor of a pinned map, negative on failure. *)
Class BpfFs (W : Type) : Type := { bpf_obj_get : W -> rstring -> Z * W }.

Record BpfMap : Type := mkBpfMap { bpf_path : rstring }.

Definition ENOENT : Z := -2.

Section Maps.
  Context {W K V : Type} `{BpfFs W, BpfTable W K V}.
  Variable rounds : nat.

Definition from_path (w : W) (filename : rstring) : result rstring BpfMap * W :=
  let '(fd, w) := bpf_obj_get w filename in
  (if fd <? 0 then Err (str "Unable to open BPF map") else Ok (mkBpfMap filename), w).

Definition bpf_lookup (w : W) (m : BpfMap) (key : K) : result rstring (option V) :=
  let '(err, value) := bpf_map_lookup_elem w (bpf_path m) key in
  if negb (err =? 0) then
    if err =? ENOENT then Ok None
    else Err (str "Unable to lookup map element (" ++ i64_to_string err ++ str ")")
  else Ok (Some value).

Definition insert_or_update (w : W) (m : BpfMap) (key : K) (value : V) : result rstring unit * W :=
  let '(err, w) := bpf_map_update_elem w (bpf_path m) key value in
  if negb (err =? 0) then (Err (str "Unable to insert into map (" ++ i64_to_string err ++ str ")"), w)
  else (Ok tt, w).

Definition bpf_delete (w : W) (m : BpfMap) (key : K) : result rstring unit * W :=
  let '(err, w) := bpf_map_delete_elem w (bpf_path m) key in
  if negb (err =? 0) then
    if err =? ENOENT then (Ok tt, w) else (Err (str "Unable to delete from map"), w)
  else (Ok tt, w).

(** The [while] loop of [dump_vec] from [prev_key] on. *)
Fixpoint dump_from (fuel : nat) (w : W) (m : BpfMap) (prev_key : option K) : list (K * V) :=
  match fuel with
  | O => []
  | S fuel =>
      let '(code, key) := bpf_map_get_next_key w (bpf_path m) prev_key in
      if code =? 0 then (key, (bpf_map_lookup_elem w (bpf_path m) key).2) :: dump_from fuel w m (Some key) else []
  end.

Definition dump_vec (w : W) (m : BpfMap) : list (K * V) := dump_from rounds w m None.

(** The inner [while] loop of [clear]. *)
Fixpoint clear_from (fuel : nat) (w : W) (m : BpfMap) (prev_key : option K) : W :=
  match fuel with
  | O => w
  | S fuel =>
      let '(code, key) := bpf_map_get_next_key w (bpf_path m) prev_key in
      if code =? 0 then clear_from fuel (bpf_map_delete_elem w (bpf_path m) key).2 m (Some key) else w
  end.

Fixpoint clear_loop (fuel : nat) (w : W) (m : BpfMap) : W :=
  match fuel with
  | O => w
  | S fuel =>
      let w := clear_from rounds w m None in
      if (bpf_map_get_next_key w (bpf_path m) None).1 =? 0 then clear_loop fuel w m else w
  end.

Definition bpf_clear (w : W) (m : BpfMap) : result rstring unit * W := (Ok tt, clear_loop rounds w m).

(** The [loop] of [clear_bulk]. *)
Fixpoint delete_batches (fuel : nat) (w : W) (m : BpfMap) (keys : list K) (count : Z) : W :=
  match fuel with
  | O => w
  | S fuel =>
      let '(ret, count, w) := bpf_map_delete_batch w (bpf_path m) keys count in
      if negb (ret =? 0) || (count =? 0) then w else delete_batches fuel w m keys count
  end.

Definition clear_bulk (w : W) (m : BpfMap) : result rstring unit * W :=
  let keys := map fst (dump_vec w m) in
  (Ok tt, delete_batches rounds w m keys (Z.of_nat (length keys) mod 2 ^ 32)).

End Maps.

(** ** Addresses *)

Record IpHashKey : Type := mkIpHashKey { prefixlen : Z; address : list Z }.
#[export] Instance IpHashKey_eq_dec : EqDecision IpHashKey.
Proof. solve_decision. Defined.

Record IpHashData : Type := mkIpHashData {
  hash_cpu : Z;
  hash_tc_handle : Z;
  hash_circuit_id : Z;
  hash_device_id : Z
}.

(** [XdpIpAddress], and [XdpIpAddress::from_ip]: four octets at the end of sixteen bytes 0xFF, or all sixteen. *)
Record XdpIpAddress : Type := mkXdpIpAddress { xdp_bytes : list Z }.

Definition XdpIpAddress_default : XdpIpAddress := mkXdpIpAddress (replicate 16 0xFF).

Definition from_ip (ip : IpAddr) : XdpIpAddress :=
  match ip with
  | V4 ip => mkXdpIpAddress (take 12 (xdp_bytes XdpIpAddress_default) ++ ipv4_octets ip)
  | V6 ip => mkXdpIpAddress (ipv6_octets ip)
  end.

(** The text of the [ParseIntError] of [str::parse::<u32>] for a text that is no [u32]. *)
Fixpoint digits_error (limit acc : Z) (s : rstring) : rstring :=
  match s with
  | [] => str "invalid digit found in string"
  | c :: s =>
      if is_ascii_digit c then
        if acc * 10 + (c - 48) <? limit then digits_error limit (acc * 10 + (c - 48)) s
        else str "number too large to fit in target type"
      else str "invalid digit found in string"
  end.
Definition parse_uint_error (limit : Z) (s : rstring) : rstring :=
  match s with
  | [] => str "cannot parse integer from empty string"
  | c :: s' => if c =? 43 then digits_error limit 0 s' else digits_error limit 0 s
  end.
Definition parse_u32 (s : rstring) : result rstring Z :=
  match parse_uint (2 ^ 32) s with Some n => Ok n | None => Err (parse_uint_error (2 ^ 32) s) end.

(** [str::parse] for [Ipv4Addr], [Ipv6Addr] and [IpAddr], with the texts of [AddrParseError]. *)
Definition parse_v4 (s : rstring) : result rstring Ipv4Addr :=
  match parse_ipv4 s with Some ip => Ok ip | None => Err (str "invalid IPv4 address syntax") end.
Definition parse_v6 (s : rstring) : result rstring Ipv6Addr :=
  match read_ipv6_addr s with Some (ip, []) => Ok ip | _ => Err (str "invalid IPv6 address syntax") end.
Definition parse_ip (s : rstring) : result rstring IpAddr :=
  match parse_ip_addr s with Some ip => Ok ip | None => Err (str "invalid IP address syntax") end.

Record IpToMap : Type := mkIpToMap { subnet : IpAddr; subnet_prefix : Z; ip_tc_handle : TcHandle; ip_cpu : Z }.

(** [s.replace('/', "")]. *)
Definition without_slash (s : rstring) : rstring := List.filter (fun c => negb (c =? 47)) s.

(** [IpToMap::new]; [subnet_part += 96] wraps, as in a release build. *)
Definition IpToMap_new (address : rstring) (tc_handle : TcHandle) (cpu : Z) : result rstring IpToMap :=
  '(address_part, subnet_part) ←
    (if str_contains address 47 then
       let parts := split_char address 47 in
       n ← parse_u32 (without_slash (default [] (parts !! 1%nat)));
       Ok (default [] (parts !! 0%nat), n)
     else Ok (address, 128));
  '(subnet, subnet_part) ←
    (if str_contains address_part 58 then
       ip ← parse_v6 address_part; Ok (V6 ip, subnet_part)
     else
       let subnet_part := if negb (subnet_part =? 128) then (subnet_part + 96) mod 2 ^ 32 else subnet_part in
       ip ← parse_v4 address_part; Ok (V4 ip, subnet_part));
  if 128 <? subnet_part then Err (str "Invalid subnet mask")
  else Ok (mkIpToMap subnet subnet_part tc_handle cpu).

(** ** The mappings *)

Definition ip_map_path : rstring := str "/sys/fs/bpf/map_ip_to_cpu_and_tc".
Definition legacy_map_path : rstring := str "/sys/fs/bpf/map_ip_to_cpu_and_tc_recip".
Definition hotcache_path : rstring := str "/sys/fs/bpf/ip_to_cpu_and_tc_hotcache".
Definition epoch_path : rstring := str "/sys/fs/bpf/ip_mapping_epoch".

(** The maps that the mappings need. *)
Class IpMaps (W : Type) : Type := {
  ip_fs :: BpfFs W;
  ip_table :: BpfTable W IpHashKey IpHashData;
  hotcache_table :: BpfTable W XdpIpAddress IpHashData;
  epoch_table :: BpfTable W Z Z
}.

Section Mappings.
  Context {W : Type} `{IpMaps W}.
  Variable rounds : nat.

Definition clear_hot_cache (w : W) : result rstring unit * W :=
  match from_path w hotcache_path with
  | (Err e, w) => (Err e, w)
  | (Ok hotcache, w) =>
      let '(_, w) := clear_bulk (K := XdpIpAddress) rounds w hotcache in
      match from_path w epoch_path with
      | (Err e, w) => (Err e, w)
      | (Ok epoch_map, w) =>
          match bpf_lookup (K := Z) w epoch_map 0 with
          | Err e => (Err e, w)
          | Ok found => insert_or_update w epoch_map 0 ((default 0 found + 1) mod 2 ^ 32)
          end
      end
  end.

(** The identifiers of [add_ip_to_tc]: one that is 0 is taken from the entry that is found, if any. *)
Definition kept_ids (w : W) (bpf_map : BpfMap) (key : IpHashKey) (circuit_id device_id : Z)
    : result rstring (Z * Z) :=
  if (circuit_id =? 0) || (device_id =? 0) then
    existing ← bpf_lookup w bpf_map key;
    Ok match existing with
       | Some d => (if circuit_id =? 0 then hash_circuit_id d else circuit_id,
                    if device_id =? 0 then hash_device_id d else device_id)
       | None => (circuit_id, device_id)
       end
  else Ok (circuit_id, device_id).

(** [upload] is not looked at. *)
Definition add_ip_to_tc (w : W) (address : rstring) (tc_handle : TcHandle) (cpu : Z) (upload : bool)
    (circuit_id device_id : Z) : result rstring unit * W :=
  match IpToMap_new address tc_handle cpu with
  | Err e => (Err e, w)
  | Ok ip_to_add =>
      match from_path w ip_map_path with
      | (Err e, w) => (Err e, w)
      | (Ok bpf_map, w) =>
          let key := mkIpHashKey (subnet_prefix ip_to_add) (xdp_bytes (from_ip (subnet ip_to_add))) in
          match kept_ids w bpf_map key circuit_id device_id with
          | Err e => (Err e, w)
          | Ok (circuit_id, device_id) =>
              insert_or_update w bpf_map key
                (mkIpHashData (ip_cpu ip_to_add) (as_u32 (ip_tc_handle ip_to_add)) circuit_id device_id)
          end
      end
  end.

(** [TcHandle::from_string("0:0")?] succeeds. *)
Definition del_ip_from_tc (w : W) (address : rstring) (upload : bool) : result rstring unit * W :=
  match IpToMap_new address tc_zero 0 with
  | Err e => (Err e, w)
  | Ok ip_to_add =>
      match from_path w ip_map_path with
      | (Err e, w) => (Err e, w)
      | (Ok bpf_map, w) =>
          match parse_ip address with
          | Err e => (Err e, w)
          | Ok ip =>
              match bpf_delete w bpf_map (mkIpHashKey (subnet_prefix ip_to_add) (xdp_bytes (from_ip ip))) with
              | (Err e, w) => (Err e, w)
              | (Ok _, w) => clear_hot_cache w
              end
          end
      end
  end.

Definition clear_ips_from_tc (w : W) : result rstring unit * W :=
  match from_path w ip_map_path with
  | (Err e, w) => (Err e, w)
  | (Ok bpf_map, w) =>
      let '(_, w) := bpf_clear (K := IpHashKey) rounds w bpf_map in
      let w := match from_path w legacy_map_path with
               | (Ok legacy, w) => (bpf_clear (K := IpHashKey) rounds w legacy).2
               | (Err _, w) => w
               end in
      clear_hot_cache w
  end.

Definition list_mapped_ips (w : W) : result rstring (list (IpHashKey * IpHashData)) * W :=
  match from_path w ip_map_path with
  | (Err e, w) => (Err e, w)
  | (Ok bpf_map, w) => (Ok (dump_vec rounds w bpf_map), w)
  end.

End Mappings.

(** ** Texts of addresses *)

(** What is left of a text after characters with [P] were read. *)
Definition reads (P : rchar -> Prop) (s rest : rstring) : Prop := exists t, s = t ++ rest /\ Forall P t.

Lemma reads_refl P s : reads P s s.
Proof. by exists []. Qed.

Lemma reads_trans P s t u : reads P s t -> reads P t u -> reads P s u.
Proof. intros (a & -> & Ha) (b & -> & Hb). exists (a ++ b). by rewrite <- app_assoc, Forall_app. Qed.

Lemma reads_weaken (P Q : rchar -> Prop) s t : (forall c, P c -> Q c) -> reads P s t -> reads Q s t.
Proof. intros Hpq (a & -> & Ha). exists a. split; [done|]. by eapply Forall_impl. Qed.

Lemma take_while_reads p s : reads (fun c => p c = true) s (drop (length (take_while p s)) s).
Proof.
  induction s as [|c s (t & Heq & Ht)]; cbn [take_while]; [apply reads_refl|].
  destruct (p c) eqn:Hc; cbn [length drop]; [|apply reads_refl]. exists (c :: t). split; [by rewrite Heq at 1|].
  by constructor.
Qed.

Definition decimal_char (c : rchar) : Prop := 48 <= c <= 57 \/ c = 46.
Definition address_char (c : rchar) : Prop := is_ascii_hexdigit c = true \/ c = 46 \/ c = 58.

Lemma decimal_address_char c : decimal_char c -> address_char c.
Proof.
  intros [Hc| ->]; [|by right; left]. left. unfold is_ascii_hexdigit.
  by rewrite (proj2 (in_range_spec 48 c 57)) by lia.
Qed.

Lemma given_char_reads c s v rest : read_given_char c s = Some (v, rest) -> s = c :: rest.
Proof. destruct s as [|c' s]; cbn; [done|]. destruct (Z.eqb_spec c' c) as [->|]; [|done]. by intros [= _ ->]. Qed.

Lemma octet_reads s v rest : read_octet s = Some (v, rest) -> reads decimal_char s rest.
Proof.
  unfold read_octet. destruct (parse_ipv4_octet _) as [o|]; cbn; [|done]. intros [= _ <-].
  eapply reads_weaken; [|apply take_while_reads]. intros c Hc. left. by apply in_range_spec.
Qed.

Lemma dot_reads s v rest : read_given_char 46 s = Some (v, rest) -> reads decimal_char s rest.
Proof. intros ->%given_char_reads. exists [46]. split; [done|]. by apply Forall_singleton; right. Qed.

Lemma ipv4_reads s v rest : read_ipv4_addr s = Some (v, rest) -> reads decimal_char s rest.
Proof.
  unfold read_ipv4_addr. intros Hr.
  repeat match goal with
  | H : _ ≫= _ = Some _ |- _ => apply bind_Some in H as ([? ?] & ?%octet_reads & H)
  | H : _ ≫= _ = Some _ |- _ => apply bind_Some in H as ([? ?] & ?%dot_reads & H)
  end.
  injection Hr as <- <-. eauto 10 using reads_trans.
Qed.

Lemma group_reads s v rest : read_group s = Some (v, rest) -> reads address_char s rest.
Proof.
  unfold read_group. destruct (_ || _); [done|]. intros [= _ <-].
  eapply reads_weaken; [|apply take_while_reads]. intros c Hc. by left.
Qed.

Lemma colon_reads s v rest : read_given_char 58 s = Some (v, rest) -> reads address_char s rest.
Proof. intros ->%given_char_reads. exists [58]. split; [done|]. by apply Forall_singleton; right; right. Qed.

Lemma separator_reads {A} index (inner : reader A) s v rest :
  (forall s v rest, inner s = Some (v, rest) -> reads address_char s rest) ->
  read_separator index inner s = Some (v, rest) -> reads address_char s rest /\ (index <> O -> exists t, s = 58 :: t).
Proof.
  intros Hin. destruct index as [|index]; cbn [read_separator]; [intros Hr%Hin; by split|].
  intros ([[] t] & Hc & Hr%Hin)%bind_Some. split; [by eapply reads_trans; [eapply colon_reads|]|].
  intros _. exists t. by eapply given_char_reads.
Qed.

Lemma reads_elem P s rest c : reads P s rest -> c ∈ rest -> c ∈ s.
Proof. intros (t & -> & _) Hc. apply elem_of_app. by right. Qed.

Lemma groups_reads limit fuel : forall index s gs v4 rest,
  read_groups limit index fuel s = (gs, v4, rest) ->
  reads address_char s rest /\ (index <> O -> gs <> [] -> 58 ∈ s) /\ ((3 <= length gs)%nat -> 58 ∈ s).
Proof.
  assert (forall s v rest, read_ipv4_addr s = Some (v, rest) -> reads address_char s rest) as H4.
  { intros s v rest Hr%ipv4_reads. by eapply reads_weaken; [apply decimal_address_char|]. }
  induction fuel as [|fuel IH]; intros index s gs v4 rest; cbn [read_groups].
  { intros [= <- <- <-]. split_and!; [apply reads_refl|done|cbn; lia]. }
  destruct (if (index <? limit - 1)%nat then read_separator index read_ipv4_addr s else None)
    as [[[? ? ? ?] s']|] eqn:H4r.
  - intros [= <- <- <-]. destruct (_ <? _)%nat; [|done]. apply separator_reads in H4r as [? Hsep]; [|done].
    split_and!; [done| |cbn; lia]. intros [t ->]%Hsep _. left.
  - destruct (read_separator index read_group s) as [[g s']|] eqn:Hg.
    + apply separator_reads in Hg as [Hs Hsep]; [|intros ? ? ?; apply group_reads].
      destruct (read_groups _ _ _ _) as [[gs' v4'] s''] eqn:Hrest. intros [= <- <- <-].
      apply IH in Hrest as (Hrest & Hcolon & _). split_and!; [by eapply reads_trans|intros [t ->]%Hsep _; left|].
      intros Hlen. eapply reads_elem; [done|]. apply Hcolon; [done|]. by intros ->; cbn in Hlen; lia.
    + intros [= <- <- <-]. split_and!; [apply reads_refl|done|cbn; lia].
Qed.

Lemma ipv6_reads s v rest : read_ipv6_addr s = Some (v, rest) -> reads address_char s rest /\ 58 ∈ s.
Proof.
  unfold read_ipv6_addr. destruct (read_groups 8 0 8 s) as [[gs v4] s1] eqn:Hg.
  apply groups_reads in Hg as (Hs & _ & Hcolon). destruct (Nat.eqb_spec (length gs) 8) as [Hlen|_].
  - intros [= _ <-]. split; [done|]. apply Hcolon. lia.
  - destruct v4; [done|]. intros ([[] s2] & Hc & ([[] s3] & Hc' & Hr)%bind_Some)%bind_Some.
    destruct (read_groups _ 0 _ s3) as [[gs' v4'] s4] eqn:Hg'. injection Hr as _ <-.
    apply groups_reads in Hg' as [Hs' _]. split.
    + eauto 10 using reads_trans, colon_reads.
    + eapply reads_elem; [done|]. apply given_char_reads in Hc as ->. left.
Qed.

Lemma digits_decimal limit s : forall acc v, parse_digits limit acc s = Some v -> Forall decimal_char s.
Proof.
  induction s as [|c s IH]; intros acc v; cbn [parse_digits]; [constructor|].
  destruct (is_ascii_digit c) eqn:Hc; [|done]. case_match; [|done]. intros Hr%IH. constructor; [|done].
  left. by apply in_range_spec.
Qed.

Lemma octet_decimal s v : parse_ipv4_octet s = Some v -> Forall decimal_char s.
Proof. unfold parse_ipv4_octet. destruct s; [done|]. repeat case_match; try done. apply digits_decimal. Qed.

Lemma split_on_pieces p (P : rchar -> Prop) s :
  (forall c, p c = true -> P c) -> Forall (Forall P) (split_on p s) -> Forall P s.
Proof.
  intros Hp. induction s as [|c s IH]; cbn [split_on]; [constructor|]. destruct (p c) eqn:Hc.
  - intros [_ Hs]%Forall_cons. constructor; auto.
  - destruct (split_on p s) as [|g gs]; rewrite !Forall_cons.
    + intros [[? _] _]. constructor; [done|]. by apply IH.
    + intros [[? ?] ?]. constructor; [done|]. apply IH. by constructor.
Qed.

Lemma parse_ipv4_decimal s a : parse_ipv4 s = Some a -> Forall decimal_char s.
Proof.
  unfold parse_ipv4. intros Hp. destruct (split_char s 46) as [|x [|y [|z [|t [|]]]]] eqn:Hs; try done.
  repeat match goal with H : _ ≫= _ = Some _ |- _ => apply bind_Some in H as (? & ?%octet_decimal & H) end.
  apply (split_on_pieces (Z.eqb 46)); [intros c <-%Z.eqb_eq; by right|].
  unfold split_char in Hs. rewrite Hs. by repeat constructor.
Qed.

Lemma parse_ipv4_no_colon s a : parse_ipv4 s = Some a -> 58 ∉ s.
Proof.
  intros Hd%parse_ipv4_decimal Hin. rewrite Forall_forall in Hd. apply Hd in Hin as [?|?]; lia.
Qed.

(** A text with a slash is the text of no address. *)
Lemma slash_is_no_address s : 47 ∈ s -> parse_ip_addr s = None.
Proof.
  intros Hin. unfold parse_ip_addr. destruct (parse_ipv4 s) as [a|] eqn:H4.
  - apply parse_ipv4_decimal in H4. rewrite Forall_forall in H4. apply H4 in Hin as [?|?]; lia.
  - destruct (read_ipv6_addr s) as [[a [|]]|] eqn:H6; try done.
    apply ipv6_reads in H6 as [(t & -> & Ht) _]. rewrite app_nil_r, Forall_forall in *.
    by apply Ht in Hin as [?|[?|?]].
Qed.

Lemma str_contains_elem s c : str_contains s c = true <-> c ∈ s.
Proof.
  unfold str_contains. rewrite existsb_exists, list_elem_of_In. split.
  - by intros (d & Hd & ->%Z.eqb_eq).
  - intros Hc. exists c. by rewrite Z.eqb_refl.
Qed.

Lemma parse_u32_decimal p : 0 <= p < 2 ^ 32 -> parse_u32 (without_slash (u64_to_string p)) = Ok p.
Proof.
  intros Hp. unfold parse_u32, u64_to_string.
  assert (parse_digits (2 ^ 32) 0 (decimal_text (N.to_uint (Z.to_N p))) = Some p) as Hd.
  { rewrite parse_digits_decimal by (rewrite ?DecimalN.Unsigned.of_to, ?Z2N.id; lia).
    rewrite DecimalN.Unsigned.of_to. f_equal. rewrite Z2N.id; lia. }
  assert (without_slash (decimal_text (N.to_uint (Z.to_N p))) = decimal_text (N.to_uint (Z.to_N p))) as ->.
  { apply digits_decimal in Hd. unfold without_slash. induction Hd as [|c s Hc _ IH]; [done|]. cbn [List.filter].
    rewrite IH. destruct (Z.eqb_spec c 47) as [->|]; [|done]. destruct Hc; lia. }
  destruct (decimal_text_N (Z.to_N p)) as (c & s & Heq & Hc). rewrite Heq in *. unfold parse_uint.
  destruct (Z.eqb_spec c 43) as [->|]; [done|]. by rewrite Hd.
Qed.

(** ** What a mapping names

    The entry of the address text [ip] with the prefix length [p].  A prefix length of 128 names the host for
    IPv4 as well, and one near [2 ^ 32] wraps round when it is raised by 96. *)
Definition network_of (ip : rstring) (p : Z) : option IpHashKey :=
  match parse_ip_addr ip with
  | Some (V4 (V4Octets a b c d)) =>
      let bits := if decide (p = 128) then 128 else (96 + p) mod 2 ^ 32 in
      if decide (bits <= 128)
      then Some (mkIpHashKey bits [255; 255; 255; 255; 255; 255; 255; 255; 255; 255; 255; 255; a; b; c; d])
      else None
  | Some (V6 (V6Octets bytes)) => if decide (p <= 128) then Some (mkIpHashKey p bytes) else None
  | None => None
  end.

Lemma IpToMap_of_cidr ip p h cpu :
  47 ∉ ip -> 0 <= p < 2 ^ 32 ->
  match network_of ip p with
  | Some key => exists subnet, IpToMap_new (ip ++ str "/" ++ u64_to_string p) h cpu
                  = Ok (mkIpToMap subnet (prefixlen key) h cpu) /\ xdp_bytes (from_ip subnet) = address key
  | None => exists e, IpToMap_new (ip ++ str "/" ++ u64_to_string p) h cpu = Err e
  end.
Proof.
  intros Hip Hp. unfold IpToMap_new, split_char. change (str "/") with [47]. cbn [app].
  rewrite str_contains_app, split_on_at_sep;
    [|intros d Hd; apply Z.eqb_neq; by intros <-|done].
  assert (split_on (Z.eqb 47) (u64_to_string p) = [u64_to_string p]) as ->.
  { apply split_on_plain. intros c Hc. apply Z.eqb_neq. intros <-.
    assert (parse_digits (2 ^ 32) 0 (u64_to_string p) = Some p) as Hd%digits_decimal.
    { unfold u64_to_string. rewrite parse_digits_decimal by (rewrite ?DecimalN.Unsigned.of_to, ?Z2N.id; lia).
      rewrite DecimalN.Unsigned.of_to. f_equal. rewrite Z2N.id; lia. }
    rewrite Forall_forall in Hd. apply Hd in Hc as [?|?]; lia. }
  change (default [] ([ip; u64_to_string p] !! 1%nat)) with (u64_to_string p).
  change (default [] ([ip; u64_to_string p] !! 0%nat)) with ip.
  rewrite parse_u32_decimal by done. cbn [mbind result_bind].
  unfold network_of, parse_ip_addr, parse_v4, parse_v6. destruct (str_contains ip 58) eqn:Hc.
  - apply str_contains_elem in Hc. destruct (parse_ipv4 ip) as [a|] eqn:H4; [by apply parse_ipv4_no_colon in H4|].
    destruct (read_ipv6_addr ip) as [[[bytes] [|]]|]; cbn [mbind result_bind]; [|by eexists..].
    destruct (Z.ltb_spec 128 p); [rewrite decide_False by lia; by eexists|]. rewrite decide_True by lia.
    by eexists.
  - assert (58 ∉ ip) as Hn by (intros ?%str_contains_elem; congruence).
    destruct (parse_ipv4 ip) as [[a b c d]|] eqn:H4; cbn [mbind result_bind].
    + rewrite (Z.add_comm 96 p). destruct (Z.eqb_spec p 128) as [->|Hne]; cbn [negb].
      * rewrite decide_True by done. by eexists.
      * rewrite (decide_False (P := p = 128)) by done. destruct (Z.ltb_spec 128 ((p + 96) mod 2 ^ 32)).
        -- rewrite decide_False by lia. by eexists.
        -- rewrite decide_True by lia. by eexists.
    + destruct (read_ipv6_addr ip) as [[[bytes] [|]]|] eqn:H6; try by eexists.
      by apply ipv6_reads in H6 as [_ ?].
Qed.

(** An IPv4 prefix length near [2 ^ 32] is accepted as a short one. *)
Lemma oversized_prefix_wraps :
  map_err (fun _ => tt) (subnet_prefix <$> IpToMap_new (str "192.0.2.1/4294967200") tc_zero 0) = Ok 0
  /\ map_err (fun _ => tt) (subnet_prefix <$> IpToMap_new (str "192.0.2.1/33") tc_zero 0) = Err tt.
Proof. by_compute. Qed.

(** ** The entries

    The map of the mappings is a trie: two keys name the same entry when their prefix lengths and that many
    leading bits of their addresses agree. *)

Definition address_bits (bytes : list Z) : list bool :=
  concat (map (fun byte => map (Z.testbit byte) [7; 6; 5; 4; 3; 2; 1; 0]) bytes).

Definition leading_bits (key : IpHashKey) : list bool :=
  take (Z.to_nat (prefixlen key)) (address_bits (address key)).

Definition same_entry (key key' : IpHashKey) : Prop :=
  prefixlen key = prefixlen key' /\ leading_bits key = leading_bits key'.
#[export] Instance same_entry_dec key key' : Decision (same_entry key key').
Proof. unfold same_entry. apply _. Defined.

#[export] Instance same_entry_equiv : Equivalence same_entry.
Proof. unfold same_entry. split; [by intros ?|by intros ? ? [-> ->]|by intros ? ? ? [-> ->] [-> ->]]. Qed.

(** The entry that a key names. *)
Class IpMapView (W : Type) : Type := { ip_entry : W -> IpHashKey -> option IpHashData }.

(** An update or a deletion that succeeds changes the entry of its key, one that fails changes nothing, and
    the other maps are other maps. *)
Class IpMapLaws (W : Type) `{IpMaps W, IpMapView W} : Prop := {
  obj_get_frame : forall w path key, ip_entry (bpf_obj_get w path).2 key = ip_entry w key;
  update_sets : forall w key value err w',
    bpf_map_update_elem w ip_map_path key value = (err, w') ->
    forall key', ip_entry w' key'
      = if decide (err = 0 /\ same_entry key key') then Some value else ip_entry w key';
  delete_removes : forall w key err w',
    bpf_map_delete_elem (K := IpHashKey) w ip_map_path key = (err, w') ->
    forall key', ip_entry w' key'
      = if decide (err = 0 /\ same_entry key key') then None else ip_entry w key';
  hotcache_frame : forall w keys count key,
    ip_entry (bpf_map_delete_batch (K := XdpIpAddress) w hotcache_path keys count).2 key = ip_entry w key;
  epoch_frame : forall w index epoch key,
    ip_entry (bpf_map_update_elem (K := Z) w epoch_path index epoch).2 key = ip_entry w key
}.

Section Entries.
  Context {W : Type} `{IpMaps W, IpMapView W, !IpMapLaws W}.

Lemma from_path_frame w path r w' : from_path w path = (r, w') -> forall key, ip_entry w' key = ip_entry w key.
Proof.
  unfold from_path. destruct (bpf_obj_get w path) as [fd w1] eqn:Hg. intros [= _ <-] key.
  change w1 with (fd, w1).2. rewrite <- Hg. apply obj_get_frame.
Qed.

Lemma batches_frame fuel : forall w keys count key,
  ip_entry (delete_batches (K := XdpIpAddress) fuel w (mkBpfMap hotcache_path) keys count) key = ip_entry w key.
Proof.
  induction fuel as [|fuel IH]; intros w keys count key; cbn [delete_batches bpf_path]; [done|].
  pose proof (hotcache_frame w keys count key) as Hf.
  destruct (bpf_map_delete_batch _ _ _ _) as [[ret count'] w']. cbn [snd] in Hf.
  destruct (_ || _); [done|]. by rewrite IH.
Qed.

Lemma from_path_Ok w path m w' : from_path w path = (Ok m, w') -> m = mkBpfMap path.
Proof. unfold from_path. destruct (bpf_obj_get _ _). destruct (_ <? _); [done|]. by intros [= <- _]. Qed.

(** Emptying the hot cache leaves the entries alone. *)
Lemma clear_hot_cache_frame rounds w r w' :
  clear_hot_cache rounds w = (r, w') -> forall key, ip_entry w' key = ip_entry w key.
Proof.
  unfold clear_hot_cache. destruct (from_path w hotcache_path) as [[hot|e] w1] eqn:Hh;
    [|intros [= _ <-]; by eapply from_path_frame].
  pose proof (from_path_Ok _ _ _ _ Hh) as ->. unfold clear_bulk. cbn beta iota zeta.
  destruct (from_path _ epoch_path) as [re w2] eqn:He.
  assert (forall key, ip_entry w2 key = ip_entry w key) as Hw2.
  { intros key. rewrite (from_path_frame _ _ _ _ He), batches_frame. by apply (from_path_frame _ _ _ _ Hh). }
  destruct re as [em|e]; [|intros [= _ <-]; apply Hw2]. apply from_path_Ok in He as ->.
  destruct (bpf_lookup w2 _ 0) as [found|e]; [|intros [= _ <-]; apply Hw2].
  unfold insert_or_update. cbn [bpf_path]. intros Hr key. rewrite <- Hw2.
  pose proof (epoch_frame w2 0 ((default 0 found + 1) mod 2 ^ 32) key) as Hf.
  destruct (bpf_map_update_elem _ _ _ _) as [err w3]. destruct (negb _); injection Hr as _ <-; exact Hf.
Qed.

(** Adding a mapping by a text [ip/p] sets the entry of that network, or fails and changes nothing. *)
Lemma add_ip_of_cidr w ip p h cpu upload circuit device r w' :
  47 ∉ ip -> 0 <= p < 2 ^ 32 ->
  add_ip_to_tc w (ip ++ str "/" ++ u64_to_string p) h cpu upload circuit device = (r, w') ->
  match r with
  | Ok _ => exists key c d, network_of ip p = Some key
      /\ forall key', ip_entry w' key'
           = if decide (same_entry key key') then Some (mkIpHashData cpu (as_u32 h) c d) else ip_entry w key'
  | Err _ => forall key', ip_entry w' key' = ip_entry w key'
  end.
Proof.
  intros Hip Hp. unfold add_ip_to_tc. pose proof (IpToMap_of_cidr ip p h cpu Hip Hp) as Hnew.
  destruct (network_of ip p) as [key|]; [|destruct Hnew as [e ->]; by intros [= <- <-]].
  destruct Hnew as (sn & -> & Hsn). destruct (from_path w ip_map_path) as [[m|e] w1] eqn:Hm;
    [|intros [= <- <-]; by eapply from_path_frame].
  pose proof (from_path_frame _ _ _ _ Hm) as Hw1. apply from_path_Ok in Hm as ->. cbn [subnet subnet_prefix].
  rewrite Hsn. replace (mkIpHashKey (prefixlen key) (address key)) with key by (by destruct key).
  destruct (kept_ids _ _ _ _ _) as [[c d]|e]; [|by intros [= <- <-]].
  unfold insert_or_update. cbn [bpf_path ip_cpu ip_tc_handle].
  destruct (bpf_map_update_elem _ _ _ _) as [err w2] eqn:Hu. pose proof (update_sets _ _ _ _ _ Hu) as Hset.
  destruct (Z.eqb_spec err 0) as [->|Hne]; cbn [negb]; intros [= <- <-].
  - exists key, c, d. split; [done|]. intros key'. rewrite Hset, <- Hw1.
    destruct (decide (same_entry key key')); [by rewrite decide_True|by rewrite decide_False by tauto].
  - intros key'. rewrite Hset, decide_False by tauto. apply Hw1.
Qed.

(** No deletion by a text with a slash takes place. *)
Lemma del_ip_of_cidr_fails rounds w text upload r w' :
  47 ∈ text -> del_ip_from_tc rounds w text upload = (r, w') ->
  (exists e, r = Err e) /\ forall key, ip_entry w' key = ip_entry w key.
Proof.
  intros Hs. unfold del_ip_from_tc, parse_ip. rewrite (slash_is_no_address _ Hs).
  destruct (IpToMap_new _ _ _); [|intros [= <- <-]; by eauto].
  destruct (from_path w ip_map_path) as [[m|e] w1] eqn:Hm; intros [= <- <-]; (split; [by eexists|]);
    by eapply from_path_frame.
Qed.

(** A deletion removes the entry of the host, and may do so and still fail when the hot cache is not emptied. *)
Lemma del_ip_entries rounds w text upload r w' :
  del_ip_from_tc rounds w text upload = (r, w') ->
  (exists removed, forall key, ip_entry w' key = if decide (same_entry removed key) then None else ip_entry w key)
  \/ forall key, ip_entry w' key = ip_entry w key.
Proof.
  unfold del_ip_from_tc. destruct (IpToMap_new _ _ _) as [m|]; [|intros [= _ <-]; by right].
  destruct (from_path w ip_map_path) as [[bm|e] w1] eqn:Hm; [|intros [= _ <-]; right; by eapply from_path_frame].
  pose proof (from_path_frame _ _ _ _ Hm) as Hw1. apply from_path_Ok in Hm as ->.
  destruct (parse_ip text) as [ip|]; [|intros [= _ <-]; by right]. unfold bpf_delete. cbn [bpf_path].
  set (key := mkIpHashKey _ _). destruct (bpf_map_delete_elem _ _ _) as [err w2] eqn:Hd.
  pose proof (delete_removes _ _ _ _ Hd) as Hrem. intros Hr.
  assert (forall key', ip_entry w' key' = ip_entry w2 key') as Hw2.
  { destruct (negb _); [destruct (err =? ENOENT)|]; [..|by injection Hr as _ <-|];
      by eapply clear_hot_cache_frame. }
  destruct (decide (err = 0)) as [->|Hne].
  - left. exists key. intros key'. rewrite Hw2, Hrem, <- Hw1.
    destruct (decide (same_entry key key')); [by rewrite decide_True|by rewrite decide_False by tauto].
  - right. intros key'. rewrite Hw2, Hrem, decide_False by tauto. apply Hw1.
Qed.

End Entries.
