(* ===== verification/StormguardConfig.v ===== *)
(** * Configuration of StormGuard ([lqos_config/src/etc/v15/stormguard.rs])

    The [stormguard] section of the configuration file, its defaults and its validation.  A decimal
    literal is the quotient of two exact integers, which rounds as the literal does. *)

From S2P Require Import Prelude RustStd RustCollections RustFloat RustFormat.

Inductive StormguardStrategy : Type := LegacyScore | DelayProbe | DelayProbeActive.

#[export] Instance StormguardStrategy_eq_dec : EqDecision StormguardStrategy.
Proof. solve_decision. Defined.

Record StormguardConfig : Type := mkStormguardConfig {
  sgc_enabled : bool;
  sgc_all_sites : bool;
  sgc_targets : list rstring;
  sgc_exclude_sites : list rstring;
  sgc_dry_run : bool;
  sgc_log_file : option rstring;
  sgc_strategy : StormguardStrategy;
  sgc_minimum_download_percentage : f32;
  sgc_minimum_upload_percentage : f32;
  sgc_increase_fast_multiplier : f32;
  sgc_increase_multiplier : f32;
  sgc_decrease_multiplier : f32;
  sgc_decrease_fast_multiplier : f32;
  sgc_increase_fast_cooldown_seconds : f32;
  sgc_increase_cooldown_seconds : f32;
  sgc_decrease_cooldown_seconds : f32;
  sgc_decrease_fast_cooldown_seconds : f32;
  sgc_circuit_fallback_enabled : bool;
  sgc_circuit_fallback_persist : bool;
  sgc_circuit_fallback_sqm : rstring;
  sgc_delay_threshold_ms : f32;
  sgc_delay_threshold_ratio : f32;
  sgc_baseline_alpha_up : f32;
  sgc_baseline_alpha_down : f32;
  sgc_probe_interval_seconds : f32;
  sgc_min_throughput_mbps_for_rtt : f32;
  sgc_active_ping_target : rstring;
  sgc_active_ping_interval_seconds : f32;
  sgc_active_ping_weight : f32;
  sgc_active_ping_timeout_seconds : f32
}.

(** The [f32] nearest to [n / d]. *)
Definition f32_ratio (n d : Z) : f32 := f32_div (f32_of_Z n) (f32_of_Z d).

Definition StormguardConfig_default : StormguardConfig := {|
  sgc_enabled := false;
  sgc_all_sites := false;
  sgc_targets := [];
  sgc_exclude_sites := [];
  sgc_dry_run := true;
  sgc_log_file := None;
  sgc_strategy := DelayProbe;
  sgc_minimum_download_percentage := f32_ratio 1 2;
  sgc_minimum_upload_percentage := f32_ratio 1 2;
  sgc_increase_fast_multiplier := f32_ratio 130 100;
  sgc_increase_multiplier := f32_ratio 115 100;
  sgc_decrease_multiplier := f32_ratio 95 100;
  sgc_decrease_fast_multiplier := f32_ratio 88 100;
  sgc_increase_fast_cooldown_seconds := f32_of_Z 2;
  sgc_increase_cooldown_seconds := f32_of_Z 1;
  sgc_decrease_cooldown_seconds := f32_ratio 375 100;
  sgc_decrease_fast_cooldown_seconds := f32_ratio 75 10;
  sgc_circuit_fallback_enabled := false;
  sgc_circuit_fallback_persist := true;
  sgc_circuit_fallback_sqm := str "fq_codel";
  sgc_delay_threshold_ms := f32_of_Z 40;
  sgc_delay_threshold_ratio := f32_ratio 110 100;
  sgc_baseline_alpha_up := f32_ratio 1 100;
  sgc_baseline_alpha_down := f32_ratio 1 10;
  sgc_probe_interval_seconds := f32_of_Z 10;
  sgc_min_throughput_mbps_for_rtt := f32_ratio 5 100;
  sgc_active_ping_target := str "1.1.1.1";
  sgc_active_ping_interval_seconds := f32_of_Z 10;
  sgc_active_ping_weight := f32_ratio 70 100;
  sgc_active_ping_timeout_seconds := f32_of_Z 1
|}.

(** ** Validation *)

Definition validate_percentage (name : rstring) (value : f32) : result rstring unit :=
  if negb (f32_le f32_zero value && f32_le value (f32_of_Z 1)) || f32_le value f32_zero
  then Err (name ++ str " must be > 0.0 and <= 1.0") else Ok tt.

Definition validate_multiplier_gt_one (name : rstring) (value : f32) : result rstring unit :=
  if negb (f32_is_finite value) || f32_le value (f32_of_Z 1) then Err (name ++ str " must be > 1.0") else Ok tt.

Definition validate_multiplier_lt_one (name : rstring) (value : f32) : result rstring unit :=
  if negb (f32_is_finite value) || negb (f32_le f32_zero value && f32_lt value (f32_of_Z 1))
  then Err (name ++ str " must be > 0.0 and < 1.0") else Ok tt.

Definition validate_positive_seconds (name : rstring) (value : f32) : result rstring unit :=
  if negb (f32_is_finite value) || f32_le value f32_zero then Err (name ++ str " must be > 0.0") else Ok tt.

Definition validate_positive (name : rstring) (value : f32) : result rstring unit :=
  if negb (f32_is_finite value) || f32_le value f32_zero then Err (name ++ str " must be > 0.0") else Ok tt.

Definition validate_ratio_gt_one (name : rstring) (value : f32) : result rstring unit :=
  if negb (f32_is_finite value) || f32_le value (f32_of_Z 1) then Err (name ++ str " must be > 1.0") else Ok tt.

Definition validate_alpha (name : rstring) (value : f32) : result rstring unit :=
  if negb (f32_is_finite value) || negb (f32_le f32_zero value && f32_le value (f32_of_Z 1)) || f32_eq value f32_zero
  then Err (name ++ str " must be > 0.0 and <= 1.0") else Ok tt.

Definition validate_nonnegative (name : rstring) (value : f32) : result rstring unit :=
  if negb (f32_is_finite value) || f32_lt value f32_zero then Err (name ++ str " must be >= 0.0") else Ok tt.

(** An [if condition { return Err(message) }] of a validation. *)
Definition refuse_if (condition : bool) (message : rstring) : result rstring unit :=
  if condition then Err message else Ok tt.

Definition stormguard_validate (c : StormguardConfig) : result rstring unit :=
  _ ← refuse_if (sgc_enabled c && negb (sgc_all_sites c) && bool_decide (sgc_targets c = []))
    (str "stormguard.targets must not be empty when stormguard.enabled = true and stormguard.all_sites = false");
  _ ← validate_percentage (str "stormguard.minimum_download_percentage") (sgc_minimum_download_percentage c);
  _ ← validate_percentage (str "stormguard.minimum_upload_percentage") (sgc_minimum_upload_percentage c);
  _ ← validate_multiplier_gt_one (str "stormguard.increase_fast_multiplier") (sgc_increase_fast_multiplier c);
  _ ← validate_multiplier_gt_one (str "stormguard.increase_multiplier") (sgc_increase_multiplier c);
  _ ← validate_multiplier_lt_one (str "stormguard.decrease_multiplier") (sgc_decrease_multiplier c);
  _ ← validate_multiplier_lt_one (str "stormguard.decrease_fast_multiplier") (sgc_decrease_fast_multiplier c);
  _ ← validate_positive_seconds (str "stormguard.increase_fast_cooldown_seconds")
        (sgc_increase_fast_cooldown_seconds c);
  _ ← validate_positive_seconds (str "stormguard.increase_cooldown_seconds") (sgc_increase_cooldown_seconds c);
  _ ← validate_positive_seconds (str "stormguard.decrease_cooldown_seconds") (sgc_decrease_cooldown_seconds c);
  _ ← validate_positive_seconds (str "stormguard.decrease_fast_cooldown_seconds")
        (sgc_decrease_fast_cooldown_seconds c);
  let sqm := to_ascii_lowercase (trim (sgc_circuit_fallback_sqm c)) in
  _ ← refuse_if (sgc_circuit_fallback_enabled c && negb (bool_decide (sqm = str "fq_codel") || bool_decide (sqm = str "cake")))
    (str "stormguard.circuit_fallback_sqm must be either 'fq_codel' or 'cake'");
  _ ← validate_positive_seconds (str "stormguard.probe_interval_seconds") (sgc_probe_interval_seconds c);
  _ ← validate_positive (str "stormguard.delay_threshold_ms") (sgc_delay_threshold_ms c);
  _ ← validate_ratio_gt_one (str "stormguard.delay_threshold_ratio") (sgc_delay_threshold_ratio c);
  _ ← validate_alpha (str "stormguard.baseline_alpha_up") (sgc_baseline_alpha_up c);
  _ ← validate_alpha (str "stormguard.baseline_alpha_down") (sgc_baseline_alpha_down c);
  _ ← validate_nonnegative (str "stormguard.min_throughput_mbps_for_rtt") (sgc_min_throughput_mbps_for_rtt c);
  _ ← validate_nonnegative (str "stormguard.active_ping_weight") (sgc_active_ping_weight c);
  _ ← refuse_if (f32_gt (sgc_active_ping_weight c) (f32_of_Z 1))
    (str "stormguard.active_ping_weight must be <= 1.0");
  _ ← validate_positive_seconds (str "stormguard.active_ping_interval_seconds") (sgc_active_ping_interval_seconds c);
  _ ← validate_positive_seconds (str "stormguard.active_ping_timeout_seconds") (sgc_active_ping_timeout_seconds c);
  refuse_if (bool_decide (sgc_strategy c = DelayProbeActive) && str_is_empty (trim (sgc_active_ping_target c)))
    (str "stormguard.active_ping_target must not be empty when strategy = delay_probe_active").

(** The defaults pass the validation, and so does a decrease multiplier of zero, which the message of
    the check excludes. *)
Lemma stormguard_default_valid : stormguard_validate StormguardConfig_default = Ok tt.
Proof. by vm_compute. Qed.

Lemma zero_decrease_multiplier_accepted name : validate_multiplier_lt_one name f32_zero = Ok tt.
Proof. reflexivity. Qed.
