(* ===== verification/BakeryCommands.v ===== *)
(** * Bakery commands ([lqos_bakery/src/commands.rs], [queue_math.rs])

    The commands sent to the Bakery, the part of the configuration they read, the rates and SQM tokens
    of a circuit, and their translation into argument vectors of [tc].  Reply channels are not data of
    the model.  The flag [MQ_CREATED] is passed and returned; a missing interface is the panic of
    [isp_interface] and [internet_interface]. *)

From S2P Require Import Prelude RustStd RustCollections RustFloat RustFormat ShapedDevice.
From S2P Require Import TcHandle QdiscHandles StormguardConfig.
From Stdlib Require Import SpecFloat.

(** ** Configuration *)

Inductive QueueMode : Type := Shape | Observe.
Inductive LazyQueueMode : Type := Lazy_No | Lazy_Htb | Lazy_Full.

Record QueueConfig : Type := mkQueueConfig {
  default_sqm : rstring;
  queue_mode : QueueMode;
  uplink_bandwidth_mbps : Z;
  downlink_bandwidth_mbps : Z;
  generated_pn_download_mbps : Z;
  generated_pn_upload_mbps : Z;
  queues_dry_run : bool;
  queues_sudo : bool;
  override_available_queues : option Z;
  use_binpacking : bool;
  lazy_queues : option LazyQueueMode;
  lazy_expire_seconds : option Z;
  lazy_threshold_bytes : option Z;
  fast_queues_fq_codel : option f64
}.

Record BridgeConfig : Type := mkBridgeConfig {
  use_xdp_bridge : bool;
  to_internet : rstring;
  to_network : rstring;
  bridge_mtu : option Z
}.

Record SingleInterfaceConfig : Type := mkSingleInterfaceConfig {
  single_interface_name : rstring;
  internet_vlan : Z;
  network_vlan : Z;
  single_mtu : option Z
}.

(** The sections of [Config] that the Bakery reads. *)
Record Config : Type := mkConfig {
  queues : QueueConfig;
  bridge : option BridgeConfig;
  single_interface : option SingleInterfaceConfig;
  stormguard : option StormguardConfig
}.

Inductive Panic : Type := Panicked (message : rstring).

Definition is_observe (mode : QueueMode) : bool := match mode with Observe => true | Shape => false end.

Definition internet_interface (config : Config) : result Panic rstring :=
  match bridge config with
  | Some b => Ok (to_internet b)
  | None =>
      match single_interface config with
      | Some s => Ok (single_interface_name s)
      | None => Err (Panicked (str "No internet interface configured"))
      end
  end.

Definition isp_interface (config : Config) : result Panic rstring :=
  match bridge config with
  | Some b => Ok (to_network b)
  | None =>
      match single_interface config with
      | Some s => Ok (single_interface_name s)
      | None => Err (Panicked (str "No ISP interface configured"))
      end
  end.

Definition on_a_stick_mode (config : Config) : bool :=
  match bridge config with None => true | Some _ => false end.

(** ** Commands *)

Inductive ExecutionMode : Type := Builder | LiveUpdate.

Record StormGuardRestoreAdjustment : Type := mkStormGuardRestoreAdjustment {
  ra_interface_name : rstring;
  ra_class_id : TcHandle;
  ra_planned_rate : Z;
  ra_planned_ceil : Z
}.

Record StormGuardClassAdjustment : Type := mkStormGuardClassAdjustment {
  ca_interface_name : rstring;
  ca_class_id : TcHandle;
  ca_new_rate : Z;
  ca_previous_rate : Z;
  ca_planned_rate : Z;
  ca_planned_ceil : Z
}.

(** The fields of [BakeryCommands::AddSite]. *)
Record AddSiteParams : Type := mkAddSiteParams {
  site_hash : Z;
  site_parent_class_id : TcHandle;
  site_up_parent_class_id : TcHandle;
  site_class_minor : Z;
  site_download_min : f32;
  site_upload_min : f32;
  site_download_max : f32;
  site_upload_max : f32
}.

(** The fields of [BakeryCommands::AddCircuit]. *)
Record AddCircuitCommand : Type := mkAddCircuit {
  ac_circuit_hash : Z;
  ac_circuit_name : option rstring;
  ac_site_name : option rstring;
  ac_parent_class_id : TcHandle;
  ac_up_parent_class_id : TcHandle;
  ac_class_minor : Z;
  ac_download_min : f32;
  ac_upload_min : f32;
  ac_download_max : f32;
  ac_upload_max : f32;
  ac_class_major : Z;
  ac_up_class_major : Z;
  ac_down_qdisc_handle : option Z;
  ac_up_qdisc_handle : option Z;
  ac_ip_addresses : rstring;
  ac_sqm_override : option rstring
}.

Inductive BakeryCommands : Type :=
| BusReady
| MapIp (ip_address : rstring) (tc_handle : TcHandle) (cpu : Z) (upload : bool)
| DelIp (ip_address : rstring) (upload : bool)
| ClearIpAll
| CommitMappings
| OnCircuitActivity (circuit_ids : gset Z)
| Tick
| ChangeSiteSpeedLive (site : Z) (download_min upload_min download_max upload_max : f32)
| StartBatch
| CommitBatch
| MqSetup (queues_available stick_offset : nat)
| AddSite (params : AddSiteParams)
| AddCircuit (circuit : AddCircuitCommand)
| UpsertDynamicCircuitOverlay (shaped_device : ShapedDevice)
| RemoveDynamicCircuitOverlay (overlay_circuit_id : rstring)
| StormGuardAdjustmentBatch (tree_generation : Z) (dry_run : bool) (adjustments : list StormGuardClassAdjustment)
| ResetStormGuardAdjustments (tree_generation : Z) (restores : list StormGuardRestoreAdjustment)
    (restore_untracked : bool)
| DiscardStormGuardAdjustments (tree_generation : Z)
| StormGuardCircuitAdjustment (tree_generation : Z) (circuit : Z) (sqm : option rstring)
| TreeGuardSetNodeVirtual (site : Z) (virtualized : bool).

(** ** Rates ([queue_math.rs]) *)

Inductive SqmKind : Type := SqmCake | SqmFqCodel.

(** [default_sqm.split(" ")]; 32 is the space. *)
Definition sqm_as_vec (config : Config) : list rstring := split_char (default_sqm (queues config)) 32.

Definition format_rate_for_tc (rate : Z) : rstring :=
  if 1000 <=? rate then format_fixed 1 (f64_div (f64_of_Z rate) (f64_of_Z 1000)) ++ str "gbit"
  else if 1 <=? rate then format_fixed 1 (f64_of_Z rate) ++ str "mbit"
  else format_fixed 0 (f64_mul (f64_of_Z rate) (f64_of_Z 1000)) ++ str "kbit".

(** The literals 0.01 and 10,000,000.0 as [f32]. *)
Definition MIN_RATE_MBPS : f32 := f32_div (f32_of_Z 1) (f32_of_Z 100).
Definition MAX_RATE_MBPS : f32 := f32_of_Z 10000000.

(** The rate that [format_rate_for_tc_f32] formats. *)
Definition clamp_rate (rate : f32) : f32 :=
  let r := if negb (f32_is_finite rate) then MIN_RATE_MBPS else rate in
  if f32_lt r MIN_RATE_MBPS then MIN_RATE_MBPS
  else if f32_gt r MAX_RATE_MBPS then MAX_RATE_MBPS
  else r.

Definition format_rate_for_tc_f32 (rate : f32) : rstring :=
  let r := clamp_rate rate in
  if f32_le (f32_of_Z 1000) r then format_fixed 1 (f64_div (f64_of_f32 r) (f64_of_Z 1000)) ++ str "gbit"
  else if f32_le (f32_of_Z 1) r then format_fixed 1 (f64_of_f32 r) ++ str "mbit"
  else format_fixed 0 (f64_mul (f64_of_f32 r) (f64_of_Z 1000)) ++ str "kbit".

Definition MAX_R2Q : f64 := f64_of_Z 60000.

(** The [while] loop of [r2q]; [None] when the fuel runs out. *)
Fixpoint r2q_loop (fuel : nat) (max_rate_in_bytes_per_second : f64) (r2q : Z) : option Z :=
  match fuel with
  | O => None
  | S fuel' =>
      let quantum := f64_div max_rate_in_bytes_per_second (f64_of_Z r2q) in
      if f64_lt MAX_R2Q quantum then r2q_loop fuel' max_rate_in_bytes_per_second (r2q + 1) else Some r2q
  end.

(** The bytes per second of a rate in Mbps, wrapping as a release build does. *)
Definition bytes_per_second (rate : Z) : Z := u64_wrap (rate * 125000).

(** A number of iterations that is always enough: the loop ends within [bytes / 60000 + 2] of them. *)
Definition r2q_fuel (max_rate_in_mbps : Z) : nat := Z.to_nat (bytes_per_second max_rate_in_mbps / 60000 + 4).
Definition r2q (max_rate_in_mbps : Z) : Z :=
  default 10 (r2q_loop (r2q_fuel max_rate_in_mbps) (f64_of_Z (bytes_per_second max_rate_in_mbps)) 10).

Definition MIN_QUANTUM : Z := 1522.

Definition quantum (rate r2q : Z) : rstring :=
  u64_to_string (Z.max MIN_QUANTUM (bytes_per_second rate / r2q)).

(** ** SQM tokens *)

(** The RTT tokens for low rates. *)
Definition low_rate_rtt (rate : f32) : list rstring :=
  if f32_le rate (f32_of_Z 1) then [str "rtt"; str "300ms"]
  else if f32_le rate (f32_of_Z 2) then [str "rtt"; str "180ms"]
  else if f32_le rate (f32_of_Z 3) then [str "rtt"; str "140ms"]
  else if f32_le rate (f32_of_Z 4) then [str "rtt"; str "120ms"]
  else [].

Definition sqm_rate_fixup (rate : f32) (config : Config) : list rstring :=
  let sqm := default_sqm (queues config) in
  if negb (starts_with sqm (str "cake")) || contains_str sqm (str "rtt") then sqm_as_vec config
  else sqm_as_vec config ++ low_rate_rtt rate.

Definition sqm_tokens_for (rate : f32) (config : Config) (override_opt : option rstring) : list rstring :=
  match override_opt with
  | None =>
      let threshold := f32_of_f64 (default (f64_of_Z 1000) (fast_queues_fq_codel (queues config))) in
      if f32_le threshold rate then [str "fq_codel"] else sqm_rate_fixup rate config
  | Some token =>
      if bool_decide (token = str "fq_codel") then [str "fq_codel"]
      else if bool_decide (token = str "cake") then
        let base := if starts_with (default_sqm (queues config)) (str "cake") then sqm_as_vec config
                    else [str "cake"; str "diffserv4"] in
        if existsb (fun s => bool_decide (s = str "rtt")) base then base else base ++ low_rate_rtt rate
      else sqm_rate_fixup rate config
  end.

Definition effective_sqm_kind (rate : f32) (config : Config) (override_opt : option rstring) : SqmKind :=
  if bool_decide (head (sqm_tokens_for rate config override_opt) = Some (str "fq_codel")) then SqmFqCodel
  else SqmCake.

(** The override of each direction: one token for both, or [down/up] with either side optionally empty. *)
Definition directional_override (sqm : option rstring) : option rstring * option rstring :=
  match sqm with
  | None => (None, None)
  | Some s =>
      match split_once s 47 with
      | Some (down, up) =>
          let token t := let t := trim t in if str_is_empty t then None else Some t in
          (token down, token up)
      | None => (Some s, Some s)
      end
  end.

Definition is_none_token (t : option rstring) : bool :=
  match t with Some s => eq_ignore_ascii_case s (str "none") | None => false end.

(** ** Argument vectors of [tc] *)

Abbreviation argv := (list rstring).

Definition root_mq_add_command (interface_name : rstring) : argv :=
  [str "qdisc"; str "add"; str "dev"; interface_name; str "root"; str "handle"; str "7FFF:"; str "mq"].

(** The five commands of one queue of [mq_setup]: its HTB root, its class and leaf qdisc, its default
    class and default leaf qdisc. *)
Definition mq_queue_commands (interface : rstring) (major : nat) (bandwidth_mbps r2q : Z)
    (sqm_strings : list rstring) : list argv :=
  let hex := lower_hex (Z.of_nat major) in
  let mbps := f64_of_Z bandwidth_mbps in
  let mbps_quarter := f64_div (f64_sub mbps f64_one) (f64_of_Z 4) in
  let mbps_minus_one := f64_sub mbps f64_one in
  [ [str "qdisc"; str "add"; str "dev"; interface; str "parent"; str "7FFF:0x" ++ hex;
     str "handle"; str "0x" ++ hex ++ str ":"; str "htb"; str "default"; str "2"];
    [str "class"; str "add"; str "dev"; interface; str "parent"; str "0x" ++ hex ++ str ":";
     str "classid"; str "0x" ++ hex ++ str ":1"; str "htb";
     str "rate"; format_rate_for_tc bandwidth_mbps; str "ceil"; format_rate_for_tc bandwidth_mbps;
     str "quantum"; quantum bandwidth_mbps r2q];
    [str "qdisc"; str "add"; str "dev"; interface; str "parent"; str "0x" ++ hex ++ str ":1";
     str "handle"; qdisc_id_text (infra_qdisc_handle (u16_of_usize major) Slot_Primary)] ++ sqm_strings;
    [str "class"; str "add"; str "dev"; interface; str "parent"; str "0x" ++ hex ++ str ":1";
     str "classid"; str "0x" ++ hex ++ str ":2"; str "htb";
     str "rate"; format_rate_for_tc (u64_of_f64 mbps_quarter);
     str "ceil"; format_rate_for_tc (u64_of_f64 mbps_minus_one);
     str "prio"; str "5"; str "quantum"; quantum bandwidth_mbps r2q];
    [str "qdisc"; str "add"; str "dev"; interface; str "parent"; str "0x" ++ hex ++ str ":2";
     str "handle"; qdisc_id_text (infra_qdisc_handle (u16_of_usize major) Slot_Default)] ++ sqm_strings ].

(** The root [mq] qdisc of an interface, unless [MQ_CREATED] was set. *)
Definition root_commands (mq_already_created : bool) (interface : result Panic rstring) : result Panic (list argv) :=
  if mq_already_created then Ok []
  else interface ← interface; Ok [root_mq_add_command interface].

(** The commands of a setup on both interfaces, and the flag [MQ_CREATED] before it (set afterwards). *)
Definition mq_setup (config : Config) (mq_already_created : bool) (queues_available stick_offset : nat)
    : result Panic (list argv) :=
  let isp_root := root_commands mq_already_created (isp_interface config) in
  let internet_root :=
    if on_a_stick_mode config then Ok [] else root_commands mq_already_created (internet_interface config) in
  if is_observe (queue_mode (queues config)) then
    roots ← isp_root; more ← internet_root; Ok (roots ++ more)
  else
    let sqm_strings := sqm_as_vec config in
    let r2q := r2q (Z.max (uplink_bandwidth_mbps (queues config)) (downlink_bandwidth_mbps (queues config))) in
    let commands interface offset bandwidth :=
      mapM (fun queue : nat => interface ← interface;
              Ok (mq_queue_commands interface (queue + offset + 1) bandwidth r2q sqm_strings))
        (seq 0 queues_available) in
    isp_root ← isp_root;
    isp ← commands (isp_interface config) 0%nat (downlink_bandwidth_mbps (queues config));
    internet_root ← internet_root;
    internet ← commands (internet_interface config) stick_offset (uplink_bandwidth_mbps (queues config));
    Ok (isp_root ++ concat isp ++ internet_root ++ concat internet).

(** One HTB class of a site or circuit. *)
Definition htb_class_command (interface : rstring) (parent : TcHandle) (classid : rstring) (rate_min rate_max : f32)
    (bandwidth_mbps : Z) : argv :=
  [str "class"; str "replace"; str "dev"; interface; str "parent"; as_tc_string parent; str "classid"; classid;
   str "htb"; str "rate"; format_rate_for_tc_f32 rate_min; str "ceil"; format_rate_for_tc_f32 rate_max;
   str "prio"; str "3"; str "quantum"; quantum (u64_of_f64 rate_max) (r2q bandwidth_mbps)].

Definition add_site (config : Config) (params : AddSiteParams) : result Panic (option (list argv)) :=
  if is_observe (queue_mode (queues config)) then Ok None
  else
    isp ← isp_interface config;
    internet ← internet_interface config;
    let down_major := (get_major_minor (site_parent_class_id params)).1 in
    let up_major := (get_major_minor (site_up_parent_class_id params)).1 in
    Ok (Some
      [ htb_class_command isp (site_parent_class_id params) (class_id_text down_major (site_class_minor params))
          (site_download_min params) (site_download_max params) (downlink_bandwidth_mbps (queues config));
        htb_class_command internet (site_up_parent_class_id params) (class_id_text up_major (site_class_minor params))
          (site_upload_min params) (site_upload_max params) (uplink_bandwidth_mbps (queues config)) ]).

(** Whether [add_circuit] emits the HTB classes and the leaf qdiscs. *)
Definition circuit_work (execution_mode : ExecutionMode) (lazy : option LazyQueueMode) : bool * bool :=
  match execution_mode with
  | Builder => (true, match lazy with Some Lazy_Htb => false | _ => true end)
  | LiveUpdate =>
      match lazy with
      | None | Some Lazy_No => (false, false)
      | Some Lazy_Htb => (false, true)
      | Some Lazy_Full => (true, true)
      end
  end.

(** One leaf qdisc of a circuit. *)
Definition sqm_command (config : Config) (interface classid : rstring) (handle : option Z) (rate : f32)
    (override_opt : option rstring) : argv :=
  [str "qdisc"; str "replace"; str "dev"; interface; str "parent"; classid]
  ++ match handle with Some handle => [str "handle"; qdisc_id_text handle] | None => [] end
  ++ sqm_tokens_for rate config override_opt.

(** [if cond { result.push(command) }], where the command needs the interface. *)
Definition push_if (cond : bool) (interface : result Panic rstring) (command : rstring -> argv)
    : result Panic (list argv) :=
  if cond then interface ← interface; Ok [command interface] else Ok [].

Definition add_circuit (execution_mode : ExecutionMode) (config : Config) (params : AddCircuitCommand)
    : result Panic (option (list argv)) :=
  if is_observe (queue_mode (queues config)) then Ok None
  else
    let '(do_htb, do_sqm) := circuit_work execution_mode (lazy_queues (queues config)) in
    let '(down_override_opt, up_override_opt) := directional_override (ac_sqm_override params) in
    let down_classid := class_id_text (ac_class_major params) (ac_class_minor params) in
    let up_classid := class_id_text (ac_up_class_major params) (ac_class_minor params) in
    down_htb ← push_if do_htb (isp_interface config) (fun interface =>
      htb_class_command interface (ac_parent_class_id params) down_classid
        (ac_download_min params) (ac_download_max params) (downlink_bandwidth_mbps (queues config)));
    down_sqm ← push_if (do_sqm && negb (is_none_token down_override_opt)) (isp_interface config) (fun interface =>
      sqm_command config interface down_classid (ac_down_qdisc_handle params) (ac_download_max params)
        down_override_opt);
    up_htb ← push_if do_htb (internet_interface config) (fun interface =>
      htb_class_command interface (ac_up_parent_class_id params) up_classid
        (ac_upload_min params) (ac_upload_max params) (uplink_bandwidth_mbps (queues config)));
    up_sqm ← push_if (do_sqm && negb (on_a_stick_mode config) && negb (is_none_token up_override_opt))
      (internet_interface config) (fun interface =>
      sqm_command config interface up_classid (ac_up_qdisc_handle params) (ac_upload_max params) up_override_opt);
    Ok (Some (down_htb ++ down_sqm ++ up_htb ++ up_sqm)).

(** [BakeryCommands::to_commands], with the flag [MQ_CREATED] before and after. *)
Definition to_commands (config : Config) (execution_mode : ExecutionMode) (mq_created : bool) (cmd : BakeryCommands)
    : result Panic (option (list argv) * bool) :=
  match cmd with
  | MqSetup queues_available stick_offset =>
      result ← mq_setup config mq_created queues_available stick_offset; Ok (Some result, true)
  | AddSite params => result ← add_site config params; Ok (result, mq_created)
  | AddCircuit params => result ← add_circuit execution_mode config params; Ok (result, mq_created)
  | _ => Ok (None, mq_created)
  end.

(** ** Deletions *)

Definition qdisc_del_command (interface classid : rstring) : argv :=
  [str "qdisc"; str "del"; str "dev"; interface; str "parent"; classid].
Definition class_del_command (interface : rstring) (parent : TcHandle) (class_minor : Z) : argv :=
  [str "class"; str "del"; str "dev"; interface; str "parent"; as_tc_string parent;
   str "classid"; class_id_text (get_major_minor parent).1 class_minor].

(** Whether [to_prune] deletes the HTB classes and the leaf qdiscs; [None] when there is nothing to do. *)
Definition prune_work (force : bool) (lazy : option LazyQueueMode) : option (bool * bool) :=
  if force then Some (true, true)
  else
    match lazy with
    | None | Some Lazy_No => None
    | Some Lazy_Htb => Some (false, true)
    | Some Lazy_Full => Some (true, true)
    end.

(** [BakeryCommands::to_prune]. *)
Definition to_prune (config : Config) (force : bool) (cmd : BakeryCommands) : result Panic (option (list argv)) :=
  match cmd with
  | AddCircuit params =>
      match prune_work force (lazy_queues (queues config)) with
      | None => Ok None
      | Some (prune_htb, prune_sqm) =>
          let '(down_override_opt, up_override_opt) := directional_override (ac_sqm_override params) in
          up_sqm ← push_if (prune_sqm && negb (is_none_token up_override_opt) && negb (on_a_stick_mode config))
            (internet_interface config) (fun interface =>
            qdisc_del_command interface (class_id_text (ac_up_class_major params) (ac_class_minor params)));
          down_sqm ← push_if (prune_sqm && negb (is_none_token down_override_opt)) (isp_interface config)
            (fun interface =>
            qdisc_del_command interface (class_id_text (ac_class_major params) (ac_class_minor params)));
          down_htb ← push_if prune_htb (isp_interface config) (fun interface =>
            class_del_command interface (ac_parent_class_id params) (ac_class_minor params));
          up_htb ← push_if prune_htb (internet_interface config) (fun interface =>
            class_del_command interface (ac_up_parent_class_id params) (ac_class_minor params));
          Ok (Some (up_sqm ++ down_sqm ++ down_htb ++ up_htb))
      end
  | _ => Ok None
  end.
