(* ===== verification/BakeryPlan.v ===== *)
(** * Planning the commands of the Bakery ([lqos_bakery/src/lib.rs], [utils.rs])

    Reading [tc] argument vectors, the estimate of qdiscs and memory of a full reload, the limit on
    mapped circuits, the live snapshots of classes and qdiscs with the deletions that drain them, and
    the parsers of [tc class show] and [/proc/meminfo].  Running [tc] and reading the files are the
    environment; where a [HashMap] is iterated and the order can be observed, the order is an argument. *)

From S2P Require Import Prelude RustStd RustCollections RustFloat RustFormat RustNet.
From S2P Require Import ShapedDevice TcHandle QdiscHandles BakeryCommands.

(** ** Arguments *)

(** [argv.windows(2).find(|pair| pair[0] == key)]: [find_arg_value] and [command_token_after]. *)
Fixpoint find_arg_value (command : argv) (key : rstring) : option rstring :=
  match command with
  | a :: ((b :: _) as rest) => if bool_decide (a = key) then Some b else find_arg_value rest key
  | _ => None
  end.

Definition command_handle_after (command : argv) (needle : rstring) : option TcHandle :=
  find_arg_value command needle ≫= fun token => result_ok (from_string token).

Definition command_interface (command : argv) : option rstring := find_arg_value command (str "dev").

Definition has_arg (command : argv) (token : rstring) : bool := existsb (fun arg => bool_decide (arg = token)) command.

Inductive TcCommandType : Type := TcClass | TcQdisc.

Definition tc_command_type (command : argv) : option TcCommandType :=
  match head command with
  | Some word =>
      if bool_decide (word = str "class") then Some TcClass
      else if bool_decide (word = str "qdisc") then Some TcQdisc else None
  | None => None
  end.

Definition count_tc_command_types (commands : list argv) : nat * nat * nat :=
  fold_left (fun '(total, class_count, qdisc_count) command =>
      match tc_command_type command with
      | Some TcClass => (total, S class_count, qdisc_count)
      | Some TcQdisc => (total, class_count, S qdisc_count)
      | None => (total, class_count, qdisc_count)
      end) commands (length commands, 0%nat, 0%nat).

(** ** Planned qdiscs *)

Definition HARD_QDISC_HANDLE_LIMIT_PER_INTERFACE : Z := 65534.
Definition SAFE_QDISC_BUDGET_PER_INTERFACE : Z := 65000.
Definition INFRA_QDISC_ESTIMATED_MEMORY_BYTES : Z := 16 * 1024.
Definition FQ_CODEL_QDISC_ESTIMATED_MEMORY_BYTES : Z := 64 * 1024.
Definition CAKE_QDISC_ESTIMATED_MEMORY_BYTES : Z := 512 * 1024.
Definition BAKERY_MEMORY_GUARD_MIN_AVAILABLE_BYTES : Z := 2 * 1024 * 1024 * 1024.
Definition BAKERY_MEMORY_GUARD_TOTAL_RAM_DIVISOR : Z := 8.

Definition bakery_memory_guard_min_available_bytes (total_bytes : Z) : Z :=
  Z.max BAKERY_MEMORY_GUARD_MIN_AVAILABLE_BYTES (total_bytes / BAKERY_MEMORY_GUARD_TOTAL_RAM_DIVISOR).

Inductive PlannedQdiscKind : Type := PlannedInfra | PlannedCake | PlannedFqCodel.

Definition planned_qdisc_is_leaf (command : argv) : bool :=
  match command_handle_after command (str "parent") with
  | None => false
  | Some parent => let minor := (get_major_minor parent).2 in negb (minor =? 1) && negb (minor =? 2)
  end.

(** [argv] is [qdisc add ...] or [qdisc replace ...]. *)
Definition plans_qdisc (command : argv) : bool :=
  match command with
  | word :: verb :: _ =>
      bool_decide (word = str "qdisc") && (bool_decide (verb = str "add") || bool_decide (verb = str "replace"))
  | _ => false
  end.

Definition planned_qdisc_kind (command : argv) : option PlannedQdiscKind :=
  if negb (plans_qdisc command) then None
  else if has_arg command (str "cake") then
    Some (if planned_qdisc_is_leaf command then PlannedCake else PlannedInfra)
  else if has_arg command (str "fq_codel") then
    Some (if planned_qdisc_is_leaf command then PlannedFqCodel else PlannedInfra)
  else Some PlannedInfra.

Definition qdisc_kind_estimated_memory_bytes (kind : PlannedQdiscKind) : Z :=
  match kind with
  | PlannedInfra => INFRA_QDISC_ESTIMATED_MEMORY_BYTES
  | PlannedCake => CAKE_QDISC_ESTIMATED_MEMORY_BYTES
  | PlannedFqCodel => FQ_CODEL_QDISC_ESTIMATED_MEMORY_BYTES
  end.

Definition planned_qdisc_identity (command : argv) : option (rstring * rstring) :=
  if negb (plans_qdisc command) then None
  else
    dev ← find_arg_value command (str "dev");
    match find_arg_value command (str "handle") with
    | Some handle => Some (dev, str "handle:" ++ handle)
    | None =>
        match find_arg_value command (str "parent") with
        | Some parent => Some (dev, str "parent:" ++ parent)
        | None => if has_arg command (str "root") then Some (dev, str "root") else None
        end
    end.

(** ** The estimate of a full reload *)

Record QdiscInterfaceEstimate : Type := mkInterfaceEstimate {
  planned_qdiscs : nat;
  infra_qdiscs : nat;
  cake_qdiscs : nat;
  fq_codel_qdiscs : nat;
  estimated_memory_bytes : Z
}.

Record MemorySnapshot : Type := mkMemorySnapshot { total_bytes : Z; available_bytes : Z }.

Record QdiscBudgetEstimate : Type := mkBudgetEstimate {
  budget_interfaces : gmap rstring nat;
  interface_details : gmap rstring QdiscInterfaceEstimate;
  safe_budget : Z;
  hard_limit : Z;
  estimated_total_memory_bytes : Z;
  memory_snapshot : option MemorySnapshot;
  memory_guard_min_available_bytes : Z;
  memory_ok : bool;
  memory_warning_only : bool
}.

Definition all_within (counts : gmap rstring nat) (budget : Z) : bool :=
  forallb (fun entry => Z.of_nat entry.2 <=? budget) (map_to_list counts).

Definition budget_ok (e : QdiscBudgetEstimate) : bool :=
  all_within (budget_interfaces e) (safe_budget e) && (memory_ok e || memory_warning_only e).

Definition add_planned (kind : PlannedQdiscKind) (d : QdiscInterfaceEstimate) : QdiscInterfaceEstimate :=
  mkInterfaceEstimate (S (planned_qdiscs d))
    (match kind with PlannedInfra => S (infra_qdiscs d) | _ => infra_qdiscs d end)
    (match kind with PlannedCake => S (cake_qdiscs d) | _ => cake_qdiscs d end)
    (match kind with PlannedFqCodel => S (fq_codel_qdiscs d) | _ => fq_codel_qdiscs d end)
    (u64_saturating_add (estimated_memory_bytes d) (qdisc_kind_estimated_memory_bytes kind)).

Record EstimateState : Type := mkEstimateState {
  est_interfaces : gmap rstring nat;
  est_details : gmap rstring QdiscInterfaceEstimate;
  est_seen : gset (rstring * rstring)
}.

(** The body of the inner loop: one argument vector. *)
Definition estimate_argv (st : EstimateState) (command : argv) : EstimateState :=
  match planned_qdisc_identity command with
  | None => st
  | Some (dev, identity) =>
      if bool_decide ((dev, identity) ∈ est_seen st) then st
      else
        let kind := default PlannedInfra (planned_qdisc_kind command) in
        mkEstimateState
          (<[dev := S (default 0%nat (est_interfaces st !! dev))]> (est_interfaces st))
          (<[dev := add_planned kind (default (mkInterfaceEstimate 0 0 0 0 0) (est_details st !! dev))]>
             (est_details st))
          ({[(dev, identity)]} ∪ est_seen st)
  end.

(** The outer loop, which passes the flag [MQ_CREATED] through the commands. *)
Fixpoint estimate_loop (config : Config) (mq_created : bool) (queue : list BakeryCommands) (st : EstimateState)
    : result Panic (EstimateState * bool) :=
  match queue with
  | [] => Ok (st, mq_created)
  | command :: queue' =>
      '(commands, mq_created) ← to_commands config Builder mq_created command;
      estimate_loop config mq_created queue'
        (match commands with Some commands => fold_left estimate_argv commands st | None => st end)
  end.

Definition lazy_queue_memory_preflight_is_warning (lazy_queue_mode : option LazyQueueMode)
    (qdisc_counts_fit memory_ok : bool) : bool :=
  qdisc_counts_fit && negb memory_ok
  && match lazy_queue_mode with Some Lazy_Htb | Some Lazy_Full => true | _ => false end.

(** [estimate_full_reload_auto_qdisc_budget], with the memory it reads and the flag [MQ_CREATED] before
    and after. *)
Definition estimate_full_reload_auto_qdisc_budget (config : Config) (mq_created : bool)
    (snapshot : option MemorySnapshot) (queue : list BakeryCommands) : result Panic (QdiscBudgetEstimate * bool) :=
  '(st, mq_created) ← estimate_loop config mq_created queue (mkEstimateState ∅ ∅ ∅);
  let total := fold_left u64_saturating_add
    (map (fun entry => estimated_memory_bytes entry.2) (btree_iter (est_details st))) 0 in
  let guard := match snapshot with
    | Some s => bakery_memory_guard_min_available_bytes (total_bytes s)
    | None => BAKERY_MEMORY_GUARD_MIN_AVAILABLE_BYTES end in
  let memory_ok := match snapshot with
    | Some s => total <=? u64_saturating_sub (available_bytes s) guard
    | None => true end in
  let fit := all_within (est_interfaces st) SAFE_QDISC_BUDGET_PER_INTERFACE in
  Ok (mkBudgetEstimate (est_interfaces st) (est_details st) SAFE_QDISC_BUDGET_PER_INTERFACE
        HARD_QDISC_HANDLE_LIMIT_PER_INTERFACE total snapshot guard memory_ok
        (lazy_queue_memory_preflight_is_warning (lazy_queues (queues config)) fit memory_ok), mq_created).

(** ** The limit on mapped circuits *)

Definition DEFAULT_MAPPED_CIRCUIT_LIMIT : nat := 1000.

Definition is_valid_ipv4_prefix (prefix : Z) : bool := prefix <=? 32.
Definition is_valid_ipv6_prefix (prefix : Z) : bool := prefix <=? 128.

Definition is_none_or {A} (p : A -> bool) (o : option A) : bool := match o with Some a => p a | None => true end.

Definition is_valid_ip_mapping_text (mapping : rstring) : bool :=
  let mapping := trim mapping in
  if str_is_empty mapping then false
  else
    let check address prefix :=
      match parse_ip_addr address with
      | Some (V4 _) => is_none_or is_valid_ipv4_prefix prefix
      | Some (V6 _) => is_none_or is_valid_ipv6_prefix prefix
      | None => false
      end in
    match split_once mapping 47 with
    | Some (address, prefix) =>
        match parse_uint (2 ^ 32) prefix with
        | None => false
        | Some prefix => check address (Some prefix)
        end
    | None => check mapping None
    end.

Definition parse_ip_list (s : rstring) : list rstring :=
  List.filter (fun x => negb (str_is_empty x)) (map trim (split_char s 44)).

Definition unique_mapped_circuit_hashes (circuit_hashes : list Z) : list Z := push_all_unique [] circuit_hashes.

Definition is_mapped_add_circuit (cmd : BakeryCommands) : bool :=
  match cmd with
  | AddCircuit c => existsb is_valid_ip_mapping_text (parse_ip_list (ac_ip_addresses c))
  | _ => false
  end.

Definition mapped_circuit_hash (cmd : BakeryCommands) : option Z :=
  match cmd with
  | AddCircuit c => if is_mapped_add_circuit cmd then Some (ac_circuit_hash c) else None
  | _ => None
  end.

Record MappedLimitStats : Type := mkMappedLimitStats {
  enforced_limit : option nat;
  requested_mapped : nat;
  allowed_mapped : nat;
  dropped_mapped : nat
}.

(** [InsightLicenseSummary] as the bus answers it; [None] when it cannot be asked or does not answer. *)
Record InsightLicenseSummary : Type := mkLicenseSummary { licensed : bool; max_circuits : option nat }.

Record ResolvedMappedLimit : Type := mkResolvedMappedLimit {
  limit_licensed : bool;
  limit_max_circuits : option nat;
  effective_limit : option nat
}.

Definition resolve_mapped_circuit_limit (answer : option InsightLicenseSummary) : ResolvedMappedLimit :=
  match answer with
  | None => mkResolvedMappedLimit false None (Some DEFAULT_MAPPED_CIRCUIT_LIMIT)
  | Some s =>
      mkResolvedMappedLimit (licensed s) (max_circuits s)
        (if licensed s then max_circuits s else Some DEFAULT_MAPPED_CIRCUIT_LIMIT)
  end.

(** [for hash in &mapped_candidates { if keep_set.len() >= limit { break } if p(hash) { insert } }]. *)
Fixpoint fill_keep_set (limit : nat) (p : Z -> bool) (candidates : list Z) (keep_set : gset Z) : gset Z :=
  match candidates with
  | [] => keep_set
  | hash :: candidates' =>
      if (limit <=? size keep_set)%nat then keep_set
      else fill_keep_set limit p candidates' (if p hash then {[hash]} ∪ keep_set else keep_set)
  end.

Definition filter_batch_by_mapped_circuit_limit (batch : list BakeryCommands)
    (existing_circuits : gmap Z BakeryCommands) (effective_limit : option nat)
    : list BakeryCommands * MappedLimitStats :=
  let mapped_candidates := unique_mapped_circuit_hashes (omap mapped_circuit_hash batch) in
  let requested := length mapped_candidates in
  match effective_limit with
  | None => (batch, mkMappedLimitStats None requested requested 0)
  | Some limit =>
      if (requested <=? limit)%nat then (batch, mkMappedLimitStats (Some limit) requested requested 0)
      else
        let was_mapped hash :=
          match existing_circuits !! hash with Some existing => is_mapped_add_circuit existing | None => false end in
        let keep_set := fill_keep_set limit was_mapped mapped_candidates ∅ in
        let keep_set := fill_keep_set limit (fun _ => true) mapped_candidates keep_set in
        let filtered := List.filter (fun cmd =>
            match mapped_circuit_hash cmd with
            | Some hash => bool_decide (hash ∈ keep_set)
            | None => true
            end) batch in
        let allowed := size keep_set in
        (filtered, mkMappedLimitStats (Some limit) requested allowed (requested - allowed))
  end.

(** ** Live snapshots *)

Record LiveTcClassEntry : Type := mkLiveClass {
  class_id : TcHandle;
  class_parent : option TcHandle;
  leaf_qdisc_major : option Z
}.

Record LiveTcQdiscEntry : Type := mkLiveQdisc {
  qdisc_kind : rstring;
  qdisc_handle : option TcHandle;
  qdisc_parent : option TcHandle;
  is_root : bool
}.

Abbreviation class_snapshot := (gmap TcHandle LiveTcClassEntry).

(** The loop over the tokens of a class line from index 3 on. *)
Fixpoint parse_class_tokens (tokens : list rstring) (parent : option TcHandle) (leaf : option Z)
    : option TcHandle * option Z :=
  match tokens with
  | [] => (parent, leaf)
  | word :: rest =>
      match rest with
      | [] => (parent, leaf)
      | value :: rest' =>
          if bool_decide (word = str "parent") then
            parse_class_tokens rest' (match from_string value with Ok h => Some h | Err _ => parent end) leaf
          else if bool_decide (word = str "leaf") then
            parse_class_tokens rest' parent
              (match from_string value with
               | Ok h => let major := (get_major_minor h).1 in if negb (major =? 0) then Some major else leaf
               | Err _ => leaf
               end)
          else parse_class_tokens rest parent leaf
      end
  end.

Inductive ClassLineError : Type := MalformedLine (line : rstring) | InvalidClassHandle (line : rstring).

Definition parse_class_line (trimmed : rstring) : result ClassLineError LiveTcClassEntry :=
  match split_whitespace trimmed with
  | _ :: _ :: handle :: rest =>
      match from_string handle with
      | Err _ => Err (InvalidClassHandle trimmed)
      | Ok class_id =>
          let '(parent, leaf) := parse_class_tokens rest None None in
          Ok (mkLiveClass class_id parent leaf)
      end
  | _ => Err (MalformedLine trimmed)
  end.

(** [parse_live_class_snapshot] over the lines of [tc class show]. *)
Fixpoint parse_class_lines (lines : list rstring) (snapshot : class_snapshot) : result ClassLineError class_snapshot :=
  match lines with
  | [] => Ok snapshot
  | line :: lines' =>
      let trimmed := trim line in
      if str_is_empty trimmed || negb (starts_with trimmed (str "class ")) then parse_class_lines lines' snapshot
      else entry ← parse_class_line trimmed; parse_class_lines lines' (<[class_id entry := entry]> snapshot)
  end.
Definition parse_live_class_snapshot (raw : rstring) : result ClassLineError class_snapshot :=
  parse_class_lines (str_lines raw) ∅.

(** [parse_memory_snapshot]: the last value of each key. *)
Definition parse_meminfo_line (acc : option Z * option Z) (line : rstring) : option Z * option Z :=
  match split_once line 58 with
  | None => acc
  | Some (key, value) =>
      let kib := head (split_whitespace value) ≫= parse_uint (2 ^ 64) in
      let key := trim key in
      if bool_decide (key = str "MemTotal") then (kib, acc.2)
      else if bool_decide (key = str "MemAvailable") then (acc.1, kib)
      else acc
  end.
Definition parse_memory_snapshot (raw : rstring) : result rstring MemorySnapshot :=
  match fold_left parse_meminfo_line (str_lines raw) (None, None) with
  | (None, _) => Err (str "MemTotal missing from /proc/meminfo")
  | (Some _, None) => Err (str "MemAvailable missing from /proc/meminfo")
  | (Some total, Some available) =>
      Ok (mkMemorySnapshot (u64_saturating_mul total 1024) (u64_saturating_mul available 1024))
  end.
