(* ===== verification/BakeryCommandsSpec.v ===== *)
(** * Rates and commands of the Bakery: properties

    The search for [r2q] ends and gives the smallest divisor, every formatted rate is a positive number
    within bounds, the infrastructure handles of a setup are the reserved ones, and pruning a circuit
    deletes exactly the objects that building it creates. *)

From S2P Require Import Prelude RustStd RustCollections RustFloat RustFormat.
From S2P Require Import ShapedDevice TcHandle QdiscHandles BakeryCommands.
From Stdlib Require Import SpecFloat.

(** ** The divisor [r2q] *)

Section Loop.
Context (bytes : f64).

Definition quantum_above (r2q : Z) : bool := f64_lt MAX_R2Q (f64_div bytes (f64_of_Z r2q)).

Lemma r2q_loop_spec fuel start r :
  r2q_loop fuel bytes start = Some r ->
  start <= r /\ quantum_above r = false /\ forall j, start <= j < r -> quantum_above j = true.
Proof.
  revert start. induction fuel as [|fuel IH]; intros start; [done|]. cbn [r2q_loop]. fold (quantum_above start).
  destruct (quantum_above start) eqn:Hq.
  - intros (H1 & H2 & H3)%IH. split_and!; [lia|done|]. intros j Hj.
    destruct (decide (j = start)) as [->|]; [done|]. apply H3. lia.
  - intros [= <-]. split_and!; [lia|done|lia].
Qed.

Lemma r2q_loop_ends fuel start k :
  start <= k -> k - start < Z.of_nat fuel -> quantum_above k = false ->
  exists r, r2q_loop fuel bytes start = Some r /\ r <= k.
Proof.
  revert start. induction fuel as [|fuel IH]; intros start Hle Hf Hk; [lia|].
  cbn [r2q_loop]. fold (quantum_above start). destruct (quantum_above start) eqn:Hq.
  - apply IH; [|lia|done]. destruct (decide (k = start)) as [->|]; [congruence|lia].
  - exists start. split; [done|lia].
Qed.
End Loop.

Lemma bytes_per_second_range rate : 0 <= bytes_per_second rate < 2 ^ 64.
Proof. unfold bytes_per_second, u64_wrap. apply Z.mod_pos_bound. lia. Qed.

(** With [k] large enough the quantum is at most 60000. *)
Lemma quantum_not_above bytes k :
  0 <= bytes < 2 ^ 64 -> bytes + 4095 <= 60000 * k -> 0 < k < 2 ^ 52 -> quantum_above (f64_of_Z bytes) k = false.
Proof.
  intros Hb Hk Hk52. unfold quantum_above.
  assert (at_most (f64_of_Z bytes) ((bytes + 4095) / 4096) 12) as Hm by (apply f64_of_Z_at_most; [|lia|]; dlia).
  destruct (f64_of_Z_exact k Hk52) as (mk & ek & -> & Hek & Hmk).
  replace MAX_R2Q with (S754_finite false 8246337208320000 (-37)) by by_compute.
  apply at_most_not_above. destruct Hm as [->|(m & e & -> & He & Hm)]; [by left|].
  unfold f64_div, f64_prec, f64_emax. apply SFdiv_at_most; [lia|lia| |unfold emin; lia].
  set (c := Z.min e (Z.min 0 (ek - 37))). apply (dle_at c); [lia..|].
  rewrite Hmk. replace (k * 2 ^ (- ek) * 8246337208320000 * 2 ^ (ek + -37 - c)) with (60000 * k * 2 ^ (- c)).
  2:{ change 8246337208320000 with (60000 * 2 ^ 37).
      transitivity (60000 * k * (2 ^ (- ek) * 2 ^ 37 * 2 ^ (ek + -37 - c))); [|ring].
      rewrite <- !Z.pow_add_r by lia. do 2 f_equal. lia. }
  apply Z.le_trans with ((bytes + 4095) / 4096 * 2 ^ (12 - e) * 2 ^ (e - c)).
  { apply Z.mul_le_mono_nonneg_r; [apply Z.pow_nonneg; lia|done]. }
  rewrite <- Z.mul_assoc, <- Z.pow_add_r by lia. replace (12 - e + (e - c)) with (12 + - c) by lia.
  rewrite Z.pow_add_r, Z.mul_assoc by lia. apply Z.mul_le_mono_nonneg_r; [apply Z.pow_nonneg; lia|]. dlia.
Qed.

Lemma r2q_loop_terminates max_rate_in_mbps :
  exists r, r2q_loop (r2q_fuel max_rate_in_mbps) (f64_of_Z (bytes_per_second max_rate_in_mbps)) 10 = Some r
    /\ 10 <= r <= bytes_per_second max_rate_in_mbps / 60000 + 12.
Proof.
  pose proof (bytes_per_second_range max_rate_in_mbps) as Hb. unfold r2q_fuel.
  set (bytes := bytes_per_second max_rate_in_mbps) in *.
  destruct (r2q_loop_ends (f64_of_Z bytes) (Z.to_nat (bytes / 60000 + 4)) 10 (Z.max 10 (bytes / 60000 + 2)))
    as (r & Hr & Hle); [lia|dlia| |].
  - apply quantum_not_above; [done|dlia|dlia].
  - exists r. apply r2q_loop_spec in Hr as Hs. destruct Hs as (Hs & _). split; [done|].
    assert (0 <= bytes / 60000) by (apply Z.div_pos; lia). lia.
Qed.

(** C37: The search for the HTB divisor ends for every link rate, also the ones whose conversion to bytes
    wraps, and returns the first divisor from 10 on whose quantum is not above 60000; it needs at most
    [bytes / 60000 + 3] iterations. *)
Theorem r2q_is_first_divisor max_rate_in_mbps :
  let bytes := f64_of_Z (bytes_per_second max_rate_in_mbps) in
  r2q_loop (r2q_fuel max_rate_in_mbps) bytes 10 = Some (r2q max_rate_in_mbps)
  /\ 10 <= r2q max_rate_in_mbps <= bytes_per_second max_rate_in_mbps / 60000 + 12
  /\ f64_lt MAX_R2Q (f64_div bytes (f64_of_Z (r2q max_rate_in_mbps))) = false
  /\ forall j, 10 <= j < r2q max_rate_in_mbps -> f64_lt MAX_R2Q (f64_div bytes (f64_of_Z j)) = true.
Proof.
  cbv zeta. destruct (r2q_loop_terminates max_rate_in_mbps) as (r & Hr & Hb).
  assert (r2q max_rate_in_mbps = r) as -> by (unfold r2q; by rewrite Hr).
  destruct (r2q_loop_spec _ _ _ _ Hr) as (_ & Hq & Hj). unfold quantum_above in *. auto.
Qed.

(** ** Formatted rates *)

(** What a Rust [f32] can be. *)
Definition f32_valid (x : f32) : Prop := valid_binary 24 128 x = true.

Lemma MIN_RATE_value : MIN_RATE_MBPS = S754_finite false 10737418 (-30).
Proof. by_compute. Qed.
Lemma MAX_RATE_value : MAX_RATE_MBPS = S754_finite false 10000000 0.
Proof. by_compute. Qed.

(** The formatted rate is positive, finite and within the bounds. *)
Lemma clamp_rate_bounds rate :
  f32_valid rate ->
  exists m e, clamp_rate rate = S754_finite false m e /\ bounded 24 128 m e = true
    /\ f32_le MIN_RATE_MBPS (clamp_rate rate) = true /\ f32_le (clamp_rate rate) MAX_RATE_MBPS = true.
Proof.
  intros Hv. unfold clamp_rate. set (r := if negb (f32_is_finite rate) then MIN_RATE_MBPS else rate).
  assert (f32_valid r /\ f32_is_finite r = true) as [Hr Hf].
  { unfold r. destruct (f32_is_finite rate) eqn:Hf; [done|]. by rewrite MIN_RATE_value. }
  destruct (f32_lt r MIN_RATE_MBPS) eqn:Hlt; [rewrite MIN_RATE_value, MAX_RATE_value; exists 10737418%positive, (-30); split_and!; by_compute|].
  unfold f32_gt. destruct (SFltb MAX_RATE_MBPS r) eqn:Hgt; [rewrite MIN_RATE_value, MAX_RATE_value; exists 10000000%positive, 0; split_and!; by_compute|].
  rewrite MIN_RATE_value, MAX_RATE_value in *. unfold f32_lt, f32_le in *.
  destruct r as [[]|[]| |[] m e]; try done. exists m, e. split_and!; [done|done|..]; by apply SFltb_SFleb.
Qed.

(** ** The three units *)

Lemma f32_le_dle m1 e1 m2 e2 :
  bounded 24 128 m1 e1 = true -> bounded 24 128 m2 e2 = true ->
  f32_le (S754_finite false m1 e1) (S754_finite false m2 e2) = true -> dle (Z.pos m1) e1 (Z.pos m2) e2.
Proof. intros [H1 _]%andb_true_iff [H2 _]%andb_true_iff. by apply (SFleb_dle 24 128). Qed.

Lemma format_gbit m e :
  bounded 24 128 m e = true -> dle 16384000 (-14) (Z.pos m) e -> dle (Z.pos m) e 10000000 0 ->
  exists q, format_fixed 1 (f64_div (f64_of_f32 (S754_finite false m e)) (f64_of_Z 1000)) = fixed_text 1 q
    /\ 10 <= q <= 100000.
Proof.
  intros Hb Hl Hu. destruct (f64_of_f32_exact m e Hb) as (m' & e' & -> & He & Hm).
  destruct (f64_of_Z_exact 1000 ltac:(lia)) as (mk & ek & -> & Hek & Hmk).
  rewrite <- Z.sub_0_l in Hmk.
  assert (dle (Z.pos m') e' 10000000 0) as Hu' by (rewrite Hm; by apply dle_shift_l).
  assert (dle 1000 0 (Z.pos m') e') as Hl'.
  { rewrite Hm. apply dle_shift_r; [done|]. by apply (dle_shift_l 1000 (Z.pos m) e 0 (-14)). }
  unfold f64_div, f64_prec, f64_emax.
  destruct (at_least_dle (SFdiv 53 1024 (S754_finite false m' e') (S754_finite false mk ek)) 1 0) as (mq & eq & Hq & Hlow).
  - apply SFdiv_at_least; [lia|lia|..|unfold emin; lia].
    + rewrite Hmk, Z.mul_1_r, Z.add_0_r. by apply dle_shift_l.
    + eapply dle_dlt_trans; [exact Hu'|]. rewrite Hmk.
      replace (0 - ek) with (52 - (ek + (53 - 1 + 0))) by lia. apply dlt_shift_r; [lia|]. by vm_compute.
  - rewrite Hq. apply (format_fixed_between 1 mq eq 10 100000 1 0 10000 0); [done| |by vm_compute..].
    apply at_most_dle. rewrite <- Hq. apply SFdiv_at_most; [lia|lia| |unfold emin; lia].
    rewrite Hmk, Z.add_0_r. replace (1000 * 2 ^ (0 - ek) * 10000) with (10000000 * 2 ^ (0 - ek)) by ring.
    by apply dle_shift_r.
Qed.

Lemma format_mbit m e :
  bounded 24 128 m e = true -> dle 8388608 (-23) (Z.pos m) e -> dle (Z.pos m) e 16384000 (-14) ->
  exists q, format_fixed 1 (f64_of_f32 (S754_finite false m e)) = fixed_text 1 q /\ 10 <= q <= 10000.
Proof.
  intros Hb Hl Hu. destruct (f64_of_f32_exact m e Hb) as (m' & e' & -> & He & Hm).
  apply (format_fixed_between 1 m' e' 10 10000 8388608 (-23) 16384000 (-14)); [..|by vm_compute|by vm_compute].
  - rewrite Hm. by apply dle_shift_r.
  - rewrite Hm. by apply dle_shift_l.
Qed.

Lemma format_kbit m e :
  bounded 24 128 m e = true -> dle 10737418 (-30) (Z.pos m) e -> dle (Z.pos m) e 8388608 (-23) ->
  exists q, format_fixed 0 (f64_mul (f64_of_f32 (S754_finite false m e)) (f64_of_Z 1000)) = fixed_text 0 q
    /\ 10 <= q <= 1000.
Proof.
  intros Hb Hl Hu. destruct (f64_of_f32_exact m e Hb) as (m' & e' & -> & He & Hm).
  replace (f64_of_Z 1000) with (S754_finite false 8796093022208000 (-43)) by by_compute.
  rewrite <- (dle_shift_r _ _ _ _ e' He), <- Hm in Hl. rewrite <- (dle_shift_l _ _ _ _ e' He), <- Hm in Hu.
  apply (dle_scale 8796093022208000) in Hl, Hu; [|lia..].
  apply (dle_add (-43)) in Hl, Hu.
  assert (e' <= 0) as He0.
  { apply (dle_at (Z.min (-66) (e' - 43))) in Hu; [|lia..]. destruct (Z.leb_spec e' 0); [done|].
    rewrite Z.min_l, Z.sub_diag in Hu by lia. assert (2 ^ 24 <= 2 ^ (e' + -43 - -66)) by (apply Z.pow_le_mono_r; lia).
    nia. }
  unfold f64_mul, f64_prec, f64_emax.
  destruct (at_least_dle (SFmul 53 1024 (S754_finite false m' e') (S754_finite false 8796093022208000 (-43))) 39 (-2))
    as (mq & eq & Hq & Hlow).
  - apply SFmul_at_least; [lia|lia|lia|..|unfold emin; lia].
    + assert (dle 39 (-2) (Z.pos m' * 8796093022208000) (e' + -43)) as H.
      { eapply dle_trans; [|exact Hl]. by vm_compute. }
      apply (dle_at (e' + -43)) in H; [|lia..]. by rewrite Z.sub_diag, Z.mul_1_r in H.
    + assert (dlt (Z.pos m' * 8796093022208000) (e' + -43) 1 50) as H.
      { eapply dle_dlt_trans; [exact Hu|]. by vm_compute. }
      apply (dlt_at (e' + -43)) in H; [|lia..]. rewrite Z.sub_diag, Z.mul_1_r, Z.mul_1_l in H.
      by replace (53 - 1 + (-2 - (e' + -43))) with (50 - (e' + -43)) by lia.
  - rewrite Hq. apply (format_fixed_between 0 mq eq 10 1000 39 (-2) 1000 0); [done| |by vm_compute..].
    apply at_most_dle. rewrite <- Hq. apply SFmul_at_most; [lia|lia|lia| |unfold emin; lia].
    apply (dle_trans _ _ _ _ 1000 0) in Hu; [|by vm_compute].
    apply (dle_at (e' + -43)) in Hu; [|lia..]. by rewrite Z.sub_diag, Z.mul_1_r in Hu.
Qed.

(** Whatever [f32] a rate is (NaN, infinite, negative, zero or huge), the text handed to [tc] is a
    positive number within fixed bounds: 10 to 1000 kbit, or 1.0 to 1000.0 mbit, or 1.0 to 10000.0
    gbit. *)
Theorem formatted_rate_is_positive rate :
  f32_valid rate ->
  exists digits q unit,
    format_rate_for_tc_f32 rate = fixed_text digits q ++ unit
    /\ ((digits = 0%nat /\ unit = str "kbit" /\ 10 <= q <= 1000)
        \/ (digits = 1%nat /\ unit = str "mbit" /\ 10 <= q <= 10000)
        \/ (digits = 1%nat /\ unit = str "gbit" /\ 10 <= q <= 100000)).
Proof.
  intros (m & e & Hr & Hb & Hl & Hu)%clamp_rate_bounds. unfold format_rate_for_tc_f32. cbv zeta.
  rewrite Hr in *. rewrite MIN_RATE_value in Hl. rewrite MAX_RATE_value in Hu.
  replace (f32_of_Z 1000) with (S754_finite false 16384000 (-14)) by by_compute.
  replace (f32_of_Z 1) with (S754_finite false 8388608 (-23)) by by_compute.
  destruct (f32_le (S754_finite false 16384000 (-14)) _) eqn:H1000.
  - destruct (format_gbit m e) as (q & -> & Hq); [done|by apply f32_le_dle..|]. exists 1%nat, q, (str "gbit"). auto 8.
  - apply SFleb_total in H1000. destruct (f32_le (S754_finite false 8388608 (-23)) _) eqn:H1.
    + destruct (format_mbit m e) as (q & -> & Hq); [done|by apply f32_le_dle..|]. exists 1%nat, q, (str "mbit"). auto 8.
    + apply SFleb_total in H1. destruct (format_kbit m e) as (q & -> & Hq); [done|by apply f32_le_dle..|].
      exists 0%nat, q, (str "kbit"). auto 8.
Qed.

Lemma formatted_rate_is_positive_witness :
  f32_valid S754_nan /\ exists digits q unit,
    format_rate_for_tc_f32 S754_nan = fixed_text digits q ++ unit
    /\ ((digits = 0%nat /\ unit = str "kbit" /\ 10 <= q <= 1000)
        \/ (digits = 1%nat /\ unit = str "mbit" /\ 10 <= q <= 10000)
        \/ (digits = 1%nat /\ unit = str "gbit" /\ 10 <= q <= 100000)).
Proof. split; [reflexivity|]. apply (formatted_rate_is_positive S754_nan). reflexivity. Defined.

Example format_rates :
  format_rate_for_tc_f32 (S754_zero true) = str "10kbit"
  /\ format_rate_for_tc_f32 (f32_div (f32_of_Z 5) (f32_of_Z 2)) = str "2.5mbit"
  /\ format_rate_for_tc_f32 (f32_of_Z 2450) = str "2.5gbit" /\ format_rate_for_tc 2500 = str "2.5gbit"
  /\ format_rate_for_tc 0 = str "0kbit".
Proof. split_and!; by vm_compute. Qed.

(** ** The objects that argument vectors name *)

(** A class by its identifier, a leaf qdisc by the class it hangs from. *)
Inductive tc_object : Type := ClassObject (dev classid : rstring) | QdiscObject (dev parent : rstring).

Definition object_of (command : argv) : option tc_object :=
  match command with
  | word :: _ :: _ :: dev :: _ :: parent :: rest =>
      if bool_decide (word = str "class") then
        match rest with _ :: classid :: _ => Some (ClassObject dev classid) | _ => None end
      else Some (QdiscObject dev parent)
  | _ => None
  end.

Definition verb_of (command : argv) : option rstring := command !! 1%nat.
Definition is_class_command (command : argv) : bool := bool_decide (head command = Some (str "class")).

(** No class command comes before a qdisc command. *)
Definition qdiscs_first (commands : list argv) : Prop :=
  exists qdiscs classes, commands = qdiscs ++ classes
    /\ Forall (fun c => is_class_command c = false) qdiscs /\ Forall (fun c => is_class_command c = true) classes.

Lemma push_if_ok cond interface i command :
  interface = Ok i -> push_if cond interface command = Ok (if cond then [command i] else []).
Proof. intros ->. by destruct cond. Qed.

Lemma object_of_htb i parent classid rmin rmax bw :
  object_of (htb_class_command i parent classid rmin rmax bw) = Some (ClassObject i classid).
Proof. done. Qed.
Lemma object_of_sqm config i classid handle rate o :
  object_of (sqm_command config i classid handle rate o) = Some (QdiscObject i classid).
Proof. by destruct handle. Qed.
Lemma object_of_qdisc_del i classid : object_of (qdisc_del_command i classid) = Some (QdiscObject i classid).
Proof. done. Qed.
Lemma object_of_class_del i parent minor :
  object_of (class_del_command i parent minor) = Some (ClassObject i (class_id_text (get_major_minor parent).1 minor)).
Proof. done. Qed.

#[local] Arguments object_of : simpl never.
#[local] Arguments htb_class_command : simpl never.
#[local] Arguments sqm_command : simpl never.
#[local] Arguments qdisc_del_command : simpl never.
#[local] Arguments class_del_command : simpl never.

Lemma omap_if {A B} (f : A -> option B) (b : bool) x y :
  f x = Some y -> omap f (if b then [x] else []) = if b then [y] else [].
Proof. intros H. destruct b; [|done]. cbn. by rewrite H. Qed.

(** C32: Pruning a circuit undoes building it.  Outside observe mode, with both interfaces configured and a
    circuit whose parent classes have the majors of its own classes in both directions: whenever both do the
    same work (a full build and a forced prune, or the activation and the expiry of a lazy queue), the
    deletions name exactly the classes and leaf qdiscs that the build creates, every command is a deletion, and
    the qdiscs go before the classes they hang from. *)
Theorem prune_undoes_build config mode force work c isp internet :
  isp_interface config = Ok isp -> internet_interface config = Ok internet ->
  is_observe (queue_mode (queues config)) = false ->
  circuit_work mode (lazy_queues (queues config)) = work ->
  prune_work force (lazy_queues (queues config)) = Some work ->
  (get_major_minor (ac_parent_class_id c)).1 = ac_class_major c ->
  (get_major_minor (ac_up_parent_class_id c)).1 = ac_up_class_major c ->
  exists created deleted,
    add_circuit mode config c = Ok (Some created)
    /\ to_prune config force (AddCircuit c) = Ok (Some deleted)
    /\ omap object_of deleted ≡ₚ omap object_of created
    /\ Forall (fun d => verb_of d = Some (str "del")) deleted
    /\ qdiscs_first deleted.
Proof.
  intros Hisp Hnet Hobs Hw Hp Hd Hu. unfold add_circuit, to_prune. rewrite Hobs, Hw, Hp. cbv beta iota.
  destruct work as [htb sqm], (directional_override (ac_sqm_override c)) as [down up].
  rewrite !(push_if_ok _ _ _ _ Hisp), !(push_if_ok _ _ _ _ Hnet). eexists _, _. split_and!; [done|done|..].
  - rewrite !omap_app. erewrite !omap_if by first [apply object_of_htb|apply object_of_sqm
      |apply object_of_qdisc_del|apply object_of_class_del].
    rewrite Hd, Hu. destruct htb, sqm, (is_none_token down), (is_none_token up), (on_a_stick_mode config); cbn;
      solve_Permutation.
  - rewrite !Forall_app. split_and!; destruct (_ && _) || destruct htb; repeat constructor.
  - exists ((if sqm && negb (is_none_token up) && negb (on_a_stick_mode config)
             then [qdisc_del_command internet (class_id_text (ac_up_class_major c) (ac_class_minor c))] else [])
            ++ (if sqm && negb (is_none_token down)
                then [qdisc_del_command isp (class_id_text (ac_class_major c) (ac_class_minor c))] else [])).
    eexists. rewrite <- app_assoc. split; [done|]. rewrite !Forall_app.
    split_and!; destruct (_ && _) || destruct htb; repeat constructor.
Qed.

Definition example_config : Config :=
  mkConfig (mkQueueConfig (str "cake diffserv4") Shape 4 4 4 4 false false None false None None None None)
    (Some (mkBridgeConfig true (str "eth0") (str "eth1") None)) None None.
Definition example_circuit : AddCircuitCommand :=
  mkAddCircuit 7 None None (mkTcHandle 0x10003) (mkTcHandle 0x20003) 5 (f32_of_Z 1) (f32_of_Z 1) (f32_of_Z 100)
    (f32_of_Z 20) 1 2 (Some 0x9000) (Some 0x9000) (str "192.0.2.1") (Some (str "cake/none")).

Lemma prune_undoes_build_witness :
  isp_interface example_config = Ok (str "eth1") /\ exists created deleted,
    add_circuit Builder example_config example_circuit = Ok (Some created)
    /\ to_prune example_config true (AddCircuit example_circuit) = Ok (Some deleted)
    /\ omap object_of deleted ≡ₚ omap object_of created
    /\ Forall (fun d => verb_of d = Some (str "del")) deleted
    /\ qdiscs_first deleted.
Proof.
  split; [reflexivity|].
  apply (prune_undoes_build example_config Builder true (true, true) example_circuit (str "eth1") (str "eth0"));
    vm_compute; reflexivity.
Defined.

(** ** Handles of the infrastructure *)

(** The interface and the explicit handle of a qdisc command. *)
Definition explicit_handle (command : argv) : option (rstring * rstring) :=
  match command with
  | word :: _ :: _ :: dev :: place :: a :: b :: c :: _ =>
      if negb (bool_decide (word = str "qdisc")) then None
      else if bool_decide (place = str "root") then (if bool_decide (a = str "handle") then Some (dev, b) else None)
      else if bool_decide (b = str "handle") then Some (dev, c) else None
  | _ => None
  end.

Lemma from_string_qdisc_id major : u16_ok major -> from_string (qdisc_id_text major) = Ok (join_halves major 0).
Proof.
  intros Hm. unfold qdisc_id_text. change (str ":") with [58]. rewrite app_assoc.
  apply from_string_parts.
  - intros c. apply app_handle_char; [apply prefixed_handle_char|]. by intros d ?%not_elem_of_nil.
  - apply prefixed_no_colon.
  - apply not_elem_of_nil.
  - by apply read_hex_string_prefixed.
  - done.
  - done.
  - done.
Qed.

Lemma infra_qdisc_handle_ok major slot : 0 <= major -> u16_ok (infra_qdisc_handle major slot).
Proof.
  intros H. unfold infra_qdisc_handle, u16_saturating_add, u16_saturating_mul, u16_max, u16_ok, INFRA_HANDLE_BASE.
  destruct slot; lia.
Qed.

(** The majors that [from_setup] records for an interface. *)
Lemma from_setup_major isp internet n offset q :
  (q < n)%nat ->
  exists majors, devices (from_setup isp internet n offset) !! isp = Some majors /\ u16_of_usize (q + 1) ∈ majors.
Proof.
  intros Hq. unfold from_setup, add_majors. cbn [devices].
  assert (u16_of_usize (q + 1) ∈ (list_to_set (map (fun queue => u16_of_usize (queue + 0 + 1)) (seq 0 n)) : gset Z)) as Hin.
  { apply elem_of_list_to_set, list_elem_of_fmap. exists q. rewrite Nat.add_0_r. split; [done|]. apply elem_of_seq. lia. }
  rewrite lookup_insert. case_decide as Heq.
  - subst. eexists. split; [done|]. apply elem_of_union_l. unfold set_at. rewrite lookup_insert_eq. cbn. set_solver.
  - rewrite lookup_insert_eq. eexists. split; [done|]. set_solver.
Qed.

Lemma from_setup_up_major isp internet n offset q :
  (q < n)%nat ->
  exists majors, devices (from_setup isp internet n offset) !! internet = Some majors
    /\ u16_of_usize (q + offset + 1) ∈ majors.
Proof.
  intros Hq. unfold from_setup, add_majors. cbn [devices]. rewrite lookup_insert_eq. eexists. split; [done|].
  apply elem_of_union_r, elem_of_list_to_set, list_elem_of_fmap. exists q. split; [done|]. apply elem_of_seq. lia.
Qed.

(** What a recorded major reserves. *)
Lemma reserved_of_major layout interface majors major :
  devices layout !! interface = Some majors -> major ∈ majors ->
  forall h, h ∈ [major; infra_qdisc_handle major Slot_Primary; infra_qdisc_handle major Slot_Default] ->
  h ∈ reserved_handles layout interface.
Proof.
  intros Hl Hm h Hh. unfold reserved_handles. rewrite Hl. apply elem_of_union_r, elem_of_list_to_set.
  apply list_elem_of_In, in_concat. eexists. split; [|by apply list_elem_of_In].
  apply in_map_iff. exists major. split; [done|]. apply list_elem_of_In. by apply elem_of_btree_set_iter.
Qed.

Lemma explicit_handle_parent verb key dev parent text rest :
  explicit_handle (str "qdisc" :: verb :: key :: dev :: str "parent" :: parent :: str "handle" :: text :: rest)
  = Some (dev, text).
Proof. reflexivity. Qed.
Lemma explicit_handle_class rest : explicit_handle (str "class" :: rest) = None.
Proof. by do 7 (destruct rest as [|? rest]; [reflexivity|]). Qed.
Lemma explicit_handle_root dev : explicit_handle (root_mq_add_command dev) = Some (dev, str "7FFF:").
Proof. reflexivity. Qed.

#[local] Arguments explicit_handle : simpl never.

(** The handles of the commands of one queue. *)
Lemma queue_commands_handles interface major bw r sqm command dev text :
  command ∈ mq_queue_commands interface major bw r sqm -> explicit_handle command = Some (dev, text) ->
  dev = interface /\ exists h, text = qdisc_id_text h
    /\ h ∈ [Z.of_nat major; infra_qdisc_handle (u16_of_usize major) Slot_Primary;
            infra_qdisc_handle (u16_of_usize major) Slot_Default].
Proof.
  unfold mq_queue_commands. cbv zeta. intros Hin.
  repeat (apply elem_of_cons in Hin as [->|Hin]); [..|by apply not_elem_of_nil in Hin]; intros H;
    rewrite ?explicit_handle_class in H; try discriminate H; cbn [app] in H; rewrite explicit_handle_parent in H;
    injection H as <- <-; (split; [done|]).
  - exists (Z.of_nat major). split; [done|]. left.
  - eexists. split; [done|]. right; left.
  - eexists. split; [done|]. right; right; left.
Qed.

(** The result of a loop over the queues, when the interface is known. *)
Lemma mapM_queues (f : rstring -> nat -> list argv) interface i l :
  interface = Ok i ->
  mapM (M := result Panic) (fun queue : nat => interface ← interface; Ok (f interface queue)) l = Ok (map (f i) l).
Proof.
  intros ->. induction l as [|q l IH]; [done|]. cbn. cbn in IH. rewrite IH. done.
Qed.

(** The commands of a setup when both interfaces are known. *)
Lemma mq_setup_value config (mq_created : bool) n offset isp internet :
  isp_interface config = Ok isp -> internet_interface config = Ok internet ->
  exists r,
    let root (interface : rstring) : list argv := if mq_created then [] else [root_mq_add_command interface] in
    let internet_root := if on_a_stick_mode config then [] else root internet in
    let queue_commands (interface : rstring) (offset : nat) (bw : Z) :=
      concat (map (fun q => mq_queue_commands interface (q + offset + 1) bw r (sqm_as_vec config)) (seq 0 n)) in
    mq_setup config mq_created n offset
    = Ok (if is_observe (queue_mode (queues config)) then root isp ++ internet_root
          else root isp ++ queue_commands isp 0%nat (downlink_bandwidth_mbps (queues config))
               ++ internet_root ++ queue_commands internet offset (uplink_bandwidth_mbps (queues config))).
Proof.
  intros Hisp Hnet. unfold mq_setup. cbv zeta.
  exists (r2q (Z.max (uplink_bandwidth_mbps (queues config)) (downlink_bandwidth_mbps (queues config)))).
  set (r := r2q _). set (sqm := sqm_as_vec config).
  rewrite (mapM_queues (fun i q => mq_queue_commands i (q + 0 + 1) (downlink_bandwidth_mbps (queues config)) r sqm) _ _ _ Hisp).
  rewrite (mapM_queues (fun i q => mq_queue_commands i (q + offset + 1) (uplink_bandwidth_mbps (queues config)) r sqm) _ _ _ Hnet).
  unfold root_commands. rewrite Hisp, Hnet.
  by destruct mq_created, (on_a_stick_mode config), (is_observe _).
Qed.

(** A command of a setup belongs to the root or to a queue of one of the interfaces. *)
Lemma mq_setup_command config (mq_created : bool) n offset isp internet commands command :
  isp_interface config = Ok isp -> internet_interface config = Ok internet ->
  mq_setup config mq_created n offset = Ok commands -> command ∈ commands ->
  (exists dev, command = root_mq_add_command dev)
  \/ (exists q bw r sqm, (q < n)%nat /\ command ∈ mq_queue_commands isp (q + 1) bw r sqm)
  \/ (exists q bw r sqm, (q < n)%nat /\ command ∈ mq_queue_commands internet (q + offset + 1) bw r sqm).
Proof.
  intros Hisp Hnet Hset Hin. destruct (mq_setup_value config mq_created n offset isp internet Hisp Hnet) as [r Hv].
  rewrite Hset in Hv. injection Hv as ->.
  assert (forall dev : rstring, command ∈ (if mq_created then [] else [root_mq_add_command dev]) ->
    exists dev, command = root_mq_add_command dev) as Hroot.
  { intros dev H. destruct mq_created; [by apply not_elem_of_nil in H|]. apply list_elem_of_singleton in H. eauto. }
  assert (forall (i : rstring) (o : nat) (bw : Z), command ∈ concat (map (fun q => mq_queue_commands i (q + o + 1) bw r (sqm_as_vec config)) (seq 0 n)) ->
    exists q, (q < n)%nat /\ command ∈ mq_queue_commands i (q + o + 1) bw r (sqm_as_vec config)) as Hq.
  { intros i o bw (l & Hl & Hc)%list_elem_of_In%in_concat. apply in_map_iff in Hl as (q & <- & Hs).
    apply in_seq in Hs. exists q. split; [lia|]. by apply list_elem_of_In. }
  destruct (is_observe _); rewrite ?elem_of_app in Hin.
  - destruct Hin as [Hin|Hin]; [left; by eapply Hroot|]. destruct (on_a_stick_mode config); [by apply not_elem_of_nil in Hin|].
    left; by eapply Hroot.
  - destruct Hin as [Hin|[Hin|[Hin|Hin]]].
    + left; by eapply Hroot.
    + right; left. apply Hq in Hin as (q & Hlt & Hc). rewrite Nat.add_0_r in Hc. eauto 7.
    + destruct (on_a_stick_mode config); [by apply not_elem_of_nil in Hin|]. left; by eapply Hroot.
    + right; right. apply Hq in Hin as (q & Hlt & Hc). eauto 7.
Qed.

(** Every qdisc of the infrastructure has an explicit handle that the allocator of circuit handles
    keeps reserved on that interface: the handle of a root, of a queue, or of one of its two leaves is
    always in the reserved set of the layout of the same setup, so no circuit is ever given it. *)
Theorem infrastructure_handles_reserved config mq_created n offset isp internet commands command dev text h :
  isp_interface config = Ok isp -> internet_interface config = Ok internet ->
  mq_setup config mq_created n offset = Ok commands -> command ∈ commands ->
  explicit_handle command = Some (dev, text) -> from_string text = Ok h ->
  Z.of_nat (n + offset) < 2 ^ 16 ->
  (get_major_minor h).1 ∈ reserved_handles (from_setup isp internet n offset) dev.
Proof.
  intros Hisp Hnet Hset Hin Hex Htext Hn.
  destruct (mq_setup_command _ _ _ _ _ _ _ _ Hisp Hnet Hset Hin) as [[d ->]|[(q & bw & r & sqm & Hq & Hc)|(q & bw & r & sqm & Hq & Hc)]].
  { rewrite explicit_handle_root in Hex. injection Hex as <- <-. vm_compute in Htext. injection Htext as <-.
    unfold reserved_handles. apply elem_of_union_l, elem_of_union_l. by apply elem_of_singleton. }
  all: destruct (queue_commands_handles _ _ _ _ _ _ _ _ Hc Hex) as (-> & x & -> & Hx).
  all: match type of Hc with _ ∈ mq_queue_commands _ ?m _ _ _ =>
    assert (u16_of_usize m = Z.of_nat m) as Hu by (unfold u16_of_usize; apply Z.mod_small; lia) end.
  all: rewrite <- Hu in Hx.
  all: assert (u16_ok x) as Hok by (rewrite Hu in Hx; repeat (apply elem_of_cons in Hx as [->|Hx]);
    [unfold u16_ok; lia|apply infra_qdisc_handle_ok; lia..|by apply not_elem_of_nil in Hx]).
  all: rewrite from_string_qdisc_id in Htext by done; injection Htext as <-; rewrite get_major_minor_join by done; cbn [fst].
  - destruct (from_setup_major isp internet n offset q Hq) as (majors & Hl & Hm). by eapply reserved_of_major.
  - destruct (from_setup_up_major isp internet n offset q Hq) as (majors & Hl & Hm). by eapply reserved_of_major.
Qed.

Lemma infrastructure_handles_reserved_witness :
  exists commands command,
    mq_setup example_config true 1 0 = Ok commands /\ command ∈ commands
    /\ explicit_handle command = Some (str "eth1", str "0x2002:")
    /\ 0x2002 ∈ reserved_handles (from_setup (str "eth1") (str "eth0") 1 0) (str "eth1").
Proof.
  destruct (mq_setup example_config true 1 0) as [commands|] eqn:Hs; [|vm_compute in Hs; discriminate Hs].
  assert (exists command, command ∈ commands /\ explicit_handle command = Some (str "eth1", str "0x2002:")) as (command & Hin & Hex).
  { vm_compute in Hs. injection Hs as <-. eexists. split; [right; right; left|]. vm_compute. reflexivity. }
  exists commands, command. split; [reflexivity|]. split; [exact Hin|]. split; [exact Hex|].
  apply (infrastructure_handles_reserved example_config true 1 0 (str "eth1") (str "eth0") commands command (str "eth1")
    (str "0x2002:") (mkTcHandle 0x20020000)); [reflexivity|reflexivity|exact Hs|exact Hin|exact Hex|vm_compute; reflexivity|lia].
Defined.

(** Comments beside the default class ask for [round((mbps - 1) / 4)]; the code truncates, so a link of
    4 Mbps gets the rate [0kbit] and one of 1000 Mbps gets 249 Mbps instead of 250. *)
Lemma default_class_rate_truncates :
  let quarter mbps := format_rate_for_tc (u64_of_f64 (f64_div (f64_sub (f64_of_Z mbps) f64_one) (f64_of_Z 4))) in
  quarter 4 = str "0kbit" /\ quarter 1000 = str "249.0mbit".
Proof. split; by vm_compute. Qed.
