(* ===== verification/BakeryExecute.v ===== *)
(** * Running batches of [tc] commands ([lqos_bakery/src/utils.rs])

    A batch is cut into chunks; each chunk is written to a file, run by [tc -f -batch], and its result
    judged, with an optional check of the free memory before and after every chunk.  The host (files,
    [tc], [/proc/meminfo]) is the class [TcHost].  The lock [FILE_LOCK] makes the chunk file private to the
    executor, so [tc] is given the text that was written.  Logging, the copies of a failed batch under
    [/tmp] and the duration of a run are not modelled. *)

From S2P Require Import Prelude RustStd RustCollections RustFloat RustFormat TcHandle.
From S2P Require Import QdiscHandles BakeryCommands BakeryPlan.

(** The exit status ([None]: ended by a signal) and the standard error of [tc]. *)
Record TcOutput : Type := mkTcOutput { status_code : option Z; tc_stderr : list Z }.

Record ExecuteResult : Type := mkExecuteResult { exec_ok : bool; failure_summary : option rstring }.

Class TcHost (W : Type) : Type := {
  write_file : W -> rstring -> bool * W;
  run_tc_batch : W -> rstring -> option TcOutput * W;
  read_meminfo : W -> result rstring rstring
}.

Definition status_success (output : TcOutput) : bool := bool_decide (status_code output = Some 0).

(** ** Judging the output *)

Definition summarize_tc_batch_failure (output : TcOutput) : option rstring :=
  if status_success output then None
  else
    let stderr := trim (from_utf8_lossy (tc_stderr output)) in
    let status_summary :=
      match status_code output with
      | Some code => str "tc batch exited with status " ++ i64_to_string code
      | None => str "tc batch terminated by signal"
      end in
    if str_is_empty stderr then Some status_summary else Some (status_summary ++ str ": " ++ stderr).

Definition tc_batch_command_is_delete_only (line : rstring) : bool :=
  match split_whitespace line with
  | object :: verb :: _ =>
      (bool_decide (object = str "qdisc") || bool_decide (object = str "class")) && bool_decide (verb = str "del")
  | _ => false
  end.

Definition ignorable_stderr_line (line : rstring) : bool :=
  let trimmed := to_ascii_lowercase (trim line) in
  str_is_empty trimmed
  || starts_with trimmed (str "command failed ")
  || starts_with trimmed (str "error: specified class not found")
  || starts_with trimmed (str "error: cannot find specified qdisc on specified device")
  || starts_with trimmed (str "rtnetlink answers: no such file or directory").

Definition tc_batch_failure_is_ignorable_delete_absence (output : TcOutput) (lines : rstring) : bool :=
  if status_success output then false
  else if str_is_empty (trim lines) || negb (forallb tc_batch_command_is_delete_only (str_lines lines)) then false
  else
    let stderr := from_utf8_lossy (tc_stderr output) in
    if str_is_empty (trim stderr) then false else forallb ignorable_stderr_line (str_lines stderr).

(** ** The command file *)

Fixpoint join_words (separator : rchar) (words : argv) : rstring :=
  match words with
  | [] => []
  | [word] => word
  | word :: rest => word ++ separator :: join_words separator rest
  end.

(** The text that [write_command_file] writes: one command a line; 32 is the space and 10 the newline. *)
Definition command_file_text (commands : list argv) : rstring :=
  concat (map (fun line => join_words 32 line ++ [10]) commands).

(** [commands.chunks(n)], for [n > 0]; the length is fuel enough. *)
Fixpoint chunks_loop (fuel n : nat) (commands : list argv) : list (list argv) :=
  match fuel, commands with
  | O, _ | _, [] => []
  | S fuel', _ => take n commands :: chunks_loop fuel' n (drop n commands)
  end.
Definition chunks (n : nat) (commands : list argv) : list (list argv) := chunks_loop (length commands) n commands.

(** ** The executor *)

Definition memory_guard_failure_summary (snapshot : MemorySnapshot) (min_available_bytes : Z) (purpose : rstring)
    (chunk_number total_chunks : nat) (phase : rstring) : rstring :=
  str "Bakery memory guard stopped " ++ purpose ++ str " " ++ phase ++ str " chunk " ++ usize_to_string chunk_number
  ++ str "/" ++ usize_to_string total_chunks ++ str ": available memory " ++ u64_to_string (available_bytes snapshot)
  ++ str " bytes is below required available memory " ++ u64_to_string min_available_bytes
  ++ str " bytes (total RAM " ++ u64_to_string (total_bytes snapshot) ++ str " bytes).".

Definition exec_failed (summary : rstring) : ExecuteResult := mkExecuteResult false (Some summary).
Definition exec_done : ExecuteResult := mkExecuteResult true None.

(** The arguments of one call of [on_progress]. *)
Record ChunkProgress : Type := mkChunkProgress {
  done_commands : nat; all_commands : nat; done_chunks : nat; all_chunks : nat
}.

Section Execute.
  Context {W : Type} `{TcHost W}.

Definition read_memory_snapshot (w : W) : result rstring MemorySnapshot :=
  match read_meminfo w with
  | Err e => Err (str "Failed to read /proc/meminfo: " ++ e)
  | Ok raw => parse_memory_snapshot raw
  end.

(** The check of the free memory around a chunk; an error stops the run. *)
Definition memory_guard (w : W) (guard : option Z) (purpose : rstring) (chunk_number total_chunks : nat)
    (phase : rstring) : result rstring unit :=
  match guard with
  | None => Ok tt
  | Some min_available_bytes =>
      match read_memory_snapshot w with
      | Ok snapshot =>
          if available_bytes snapshot <? min_available_bytes
          then Err (memory_guard_failure_summary snapshot min_available_bytes purpose chunk_number total_chunks phase)
          else Ok tt
      | Err err =>
          Err (str "Bakery memory guard could not read host memory state " ++ phase ++ str " chunk "
               ++ usize_to_string chunk_number ++ str "/" ++ usize_to_string total_chunks ++ str " for " ++ purpose
               ++ str ": " ++ err)
      end
  end.

(** One chunk: written, run and judged. *)
Definition execute_chunk (w : W) (purpose : rstring) (chunk : list argv) : result rstring unit * W :=
  let lines := command_file_text chunk in
  match write_file w lines with
  | (false, w) => (Err (str "Failed to write commands to file for " ++ purpose), w)
  | (true, w) =>
      match run_tc_batch w lines with
      | (None, w) => (Err (str "Failed to execute tc batch command for " ++ purpose ++ str "."), w)
      | (Some output, w) =>
          if tc_batch_failure_is_ignorable_delete_absence output lines then (Ok tt, w)
          else
            match summarize_tc_batch_failure output with
            | Some summary => (Err summary, w)
            | None => (Ok tt, w)
            end
      end
  end.

(** The loop over the chunks, with the calls of [on_progress]. *)
Fixpoint execute_chunks (w : W) (purpose : rstring) (guard : option Z) (all_commands all_chunks : nat)
    (completed_commands completed_chunks : nat) (rest : list (list argv)) : ExecuteResult * list ChunkProgress * W :=
  match rest with
  | [] => (exec_done, [], w)
  | chunk :: rest =>
      match memory_guard w guard purpose (S completed_chunks) all_chunks (str "before") with
      | Err summary => (exec_failed summary, [], w)
      | Ok _ =>
          match execute_chunk w purpose chunk with
          | (Err summary, w) => (exec_failed summary, [], w)
          | (Ok _, w) =>
              let completed_commands := (completed_commands + length chunk)%nat in
              let completed_chunks := S completed_chunks in
              match memory_guard w guard purpose completed_chunks all_chunks (str "after") with
              | Err summary => (exec_failed summary, [], w)
              | Ok _ =>
                  let '(result, progress, w) :=
                    execute_chunks w purpose guard all_commands all_chunks completed_commands completed_chunks rest in
                  (result, mkChunkProgress completed_commands all_commands completed_chunks all_chunks :: progress, w)
              end
          end
      end
  end.

Definition execute_in_memory_chunked (w : W) (command_buffer : list argv) (purpose : rstring) (chunk_size : nat)
    (guard : option Z) : ExecuteResult * list ChunkProgress * W :=
  match write_file w (command_file_text command_buffer) with
  | (false, w) => (exec_failed (str "Failed to write commands to file for " ++ purpose), [], w)
  | (true, w) =>
      let rest := chunks (Nat.max chunk_size 1) command_buffer in
      execute_chunks w purpose guard (length command_buffer) (length rest) 0 0 rest
  end.

Definition execute_in_memory (w : W) (command_buffer : list argv) (purpose : rstring) : ExecuteResult * W :=
  let '(result, _, w) :=
    execute_in_memory_chunked w command_buffer purpose (Nat.max (length command_buffer) 1) None in
  (result, w).

End Execute.

(** ** What [tc -f -batch] does

    [live] is the live tree of a host and [effect] what a command does to it.  With [-f] every command is
    attempted in order: it takes effect, or there was nothing to delete, or it is rejected.  The exit status
    tells whether all took effect.  Each failure is reported on the standard error, in lines of [tc] and of the
    kernel; a deletion that was rejected has a line there that is not one of those for a missing target. *)

Inductive CommandOutcome : Type := Took_effect | Target_absent | Rejected.

Class TcLive (W L : Type) : Type := { live : W -> L; effect : L -> argv -> L }.

Inductive batch_run {W L} `{TcLive W L} : L -> list (argv * CommandOutcome) -> L -> Prop :=
| batch_nil l : batch_run l [] l
| batch_took l c rest l' : batch_run (effect l c) rest l' -> batch_run l ((c, Took_effect) :: rest) l'
| batch_absent l c rest l' : effect l c = l -> batch_run l rest l' -> batch_run l ((c, Target_absent) :: rest) l'
| batch_rejected l c rest l' : batch_run l rest l' -> batch_run l ((c, Rejected) :: rest) l'.
#[global] Arguments batch_run W L {_} _ _ _.

(** Words that the command file keeps apart: none is split by a space or a line end. *)
Definition word_ok (word : rstring) : Prop := Forall (fun c => c <> 10 /\ c <> 13 /\ c <> 32) word.
Definition command_ok (command : argv) : Prop := command <> [] /\ Forall word_ok command.

(** What [tc] and the kernel say of a command that failed and of a target that is missing. *)
Definition absence_reports : list rstring :=
  [str "Command failed "; str "Error: Specified class not found";
   str "Error: Cannot find specified qdisc on specified device"; str "RTNETLINK answers: No such file or directory"].

(** A line of output with this text, whatever the case and the blanks around it. *)
Definition says (line text : rstring) : Prop := exists rest, to_ascii_lowercase (trim line) = to_ascii_lowercase text ++ rest.
(** A line that reports something else. *)
Definition reports_failure (line : rstring) : Prop :=
  trim line <> [] /\ Forall (fun text => ~ says line text) absence_reports.

(** A line of the command file that deletes a queue discipline or a class. *)
Definition deletion_line (line : rstring) : Prop :=
  exists object rest, split_whitespace line = object :: str "del" :: rest /\ (object = str "qdisc" \/ object = str "class").

(** The commands of a batch file: one a line, with a space between its words. *)
Definition batch_commands (text : rstring) : list argv := map (fun line => split_char line 32) (str_lines text).

Class TcHostLaws (W L : Type) `{TcHost W, TcLive W L} : Prop := {
  write_file_live : forall w text ok w', write_file w text = (ok, w') -> live w' = live w;
  run_none_live : forall w text w', run_tc_batch w text = (None, w') -> live w' = live w;
  run_outcomes : forall w text output w', Forall command_ok (batch_commands text) ->
    run_tc_batch w text = (Some output, w') ->
    exists outs, map fst outs = batch_commands text /\ batch_run W L (live w) outs (live w')
      /\ (status_success output = true -> Forall (fun co => co.2 = Took_effect) outs)
      /\ (forall command, command ∈ str_lines text -> deletion_line command ->
          (split_char command 32, Rejected) ∈ outs ->
          exists line, line ∈ str_lines (from_utf8_lossy (tc_stderr output)) /\ reports_failure line)
}.
