(* ===== verification/BakeryExecuteSpec.v ===== *)
(** * Theorems about batches of [tc] commands *)

From S2P Require Import Prelude RustStd RustCollections RustFloat RustFormat TcHandle.
From S2P Require Import QdiscHandles BakeryCommands BakeryPlan BakeryExecute.

(** ** Chunks *)

Lemma chunks_loop_concat fuel n cmds :
  (0 < n)%nat -> (length cmds <= fuel)%nat -> concat (chunks_loop fuel n cmds) = cmds.
Proof.
  intros Hn. revert cmds. induction fuel as [|fuel IH]; intros cmds Hf.
  - destruct cmds; [done|cbn in Hf; lia].
  - destruct cmds as [|c cmds]; [done|].
    cbn [chunks_loop concat]. rewrite IH; [apply take_drop|]. rewrite length_drop. cbn in *. lia.
Qed.

Lemma chunks_concat n cmds : (0 < n)%nat -> concat (chunks n cmds) = cmds.
Proof. intros Hn. by apply chunks_loop_concat. Qed.

(** ** Lines of the command file *)

Lemma join_words_no c sep words :
  c <> sep -> Forall (fun w => c ∉ w) words -> (c ∉ join_words sep words).
Proof.
  intros Hc. induction words as [|w [|w' rest] IH]; intros Hw; inversion_clear Hw as [|?? H1 H2].
  - apply not_elem_of_nil.
  - done.
  - cbn [join_words]. rewrite elem_of_app, elem_of_cons. intros [?|[?|?]]; [done..|]. by apply IH.
Qed.

Lemma word_ok_no c word : word_ok word -> c = 10 \/ c = 13 \/ c = 32 -> (c ∉ word).
Proof. intros Hw Hc Hin. unfold word_ok in Hw. rewrite Forall_forall in Hw. apply Hw in Hin. lia. Qed.

Lemma command_ok_line command c : command_ok command -> c = 10 \/ c = 13 -> (c ∉ join_words 32 command).
Proof.
  intros [_ Hw] Hc. apply join_words_no; [lia|]. eapply Forall_impl; [exact Hw|].
  intros w Hok. apply word_ok_no; [done|lia].
Qed.

Lemma strip_cr_none line : (13 ∉ line) -> strip_cr line = line.
Proof.
  intros H. unfold strip_cr. destruct (last line) as [c|] eqn:Hl; [|done].
  apply last_Some in Hl as [l ->]. rewrite (proj2 (Z.eqb_neq c 13)); [done|].
  intros ->. apply H. rewrite elem_of_app. right. left.
Qed.

Lemma split_command_file cmds :
  Forall command_ok cmds -> split_char (command_file_text cmds) 10 = map (join_words 32) cmds ++ [[]].
Proof.
  unfold split_char, command_file_text. induction 1 as [|c cmds Hc _ IH]; [done|].
  cbn [map concat]. rewrite <- app_assoc. change ([10] ++ ?x) with (10 :: x).
  rewrite split_on_at_sep; [by rewrite IH| |done].
  intros d Hd. apply Z.eqb_neq. intros <-. by apply (command_ok_line c 10 Hc); [left|].
Qed.

Lemma str_lines_command_file cmds :
  Forall command_ok cmds -> str_lines (command_file_text cmds) = map (join_words 32) cmds.
Proof.
  intros Hc. unfold str_lines. rewrite (split_command_file cmds Hc), last_snoc.
  rewrite length_app, Nat.add_sub, take_app_length, map_map.
  apply map_ext_in. intros c Hin. apply strip_cr_none, command_ok_line; [|by right].
  rewrite Forall_forall in Hc. apply Hc. by apply list_elem_of_In.
Qed.

(** The words of a command are read back from its line. *)
Lemma split_join_words command : command_ok command -> split_char (join_words 32 command) 32 = command.
Proof.
  intros [Hne Hw]. unfold split_char.
  induction command as [|w [|w' rest] IH]; [done|..]; inversion_clear Hw as [|?? H1 H2].
  - cbn [join_words]. apply split_on_plain. intros c Hc. apply Z.eqb_neq. intros <-.
    by apply (word_ok_no 32 w H1); [lia|].
  - cbn [join_words]. rewrite split_on_at_sep; [f_equal; apply IH; done| |done].
    intros c Hc. apply Z.eqb_neq. intros <-. by apply (word_ok_no 32 w H1); [lia|].
Qed.

(** The commands that are written are those that are read. *)
Lemma batch_commands_written cmds : Forall command_ok cmds -> batch_commands (command_file_text cmds) = cmds.
Proof.
  intros Hok. unfold batch_commands. rewrite str_lines_command_file, map_map by done.
  rewrite <- (map_id cmds) at 2. apply map_ext_in. intros c Hc. apply split_join_words.
  rewrite Forall_forall in Hok. by apply Hok, list_elem_of_In.
Qed.

(** ** Reports *)

Lemma starts_with_split p : forall s, starts_with s p = true -> exists rest, s = p ++ rest.
Proof.
  induction p as [|c p IH]; intros s; [by exists s|]. destruct s as [|d s]; [done|]. cbn [starts_with].
  intros [->%Z.eqb_eq (rest & ->)%IH]%andb_true_iff. by exists rest.
Qed.

(** Only reports of absence are ignored. *)
Lemma ignored_line line : ignorable_stderr_line line = true -> ~ reports_failure line.
Proof.
  unfold ignorable_stderr_line. intros Hi [Hne Hsays]. rewrite !orb_true_iff in Hi.
  assert (forall text, text ∈ absence_reports -> starts_with (to_ascii_lowercase (trim line)) (to_ascii_lowercase text) = true -> False)
    as Hno.
  { intros text Hin Hs%starts_with_split. rewrite Forall_forall in Hsays. by apply (Hsays text Hin). }
  destruct Hi as [[[[Hi|Hi]|Hi]|Hi]|Hi].
  - apply Hne. revert Hi. unfold to_ascii_lowercase. by destruct (trim line).
  - apply (Hno (str "Command failed ")); [by left|done].
  - apply (Hno (str "Error: Specified class not found")); [right; by left|done].
  - apply (Hno (str "Error: Cannot find specified qdisc on specified device")); [do 2 right; by left|done].
  - apply (Hno (str "RTNETLINK answers: No such file or directory")); [do 3 right; by left|done].
Qed.

Lemma delete_only_line line : tc_batch_command_is_delete_only line = true -> deletion_line line.
Proof.
  unfold tc_batch_command_is_delete_only, deletion_line. destruct (split_whitespace line) as [|object [|verb rest]]; [done..|].
  intros [Ho Hv%bool_decide_eq_true]%andb_true_iff. rewrite orb_true_iff, !bool_decide_eq_true in Ho. subst verb. by exists object, rest.
Qed.

(** ** Batches *)

Section Batches.
  Context {W L : Type} `{HL : TcHostLaws W L}.

Lemma batch_run_sublist l outs l' :
  batch_run W L l outs l' -> exists sub, sub `sublist_of` map fst outs /\ l' = foldl effect l sub.
Proof.
  induction 1 as [l|l c rest l' _ (sub & Hs & ->)|l c rest l' _ _ (sub & Hs & ->)|l c rest l' _ (sub & Hs & ->)].
  - by exists [].
  - exists (c :: sub). split; [by apply sublist_skip|done].
  - exists sub. split; [by apply sublist_cons|done].
  - exists sub. split; [by apply sublist_cons|done].
Qed.

Lemma batch_run_accepted l outs l' :
  batch_run W L l outs l' -> (forall c, ((c, Rejected) ∉ outs)) -> l' = foldl effect l (map fst outs).
Proof.
  induction 1 as [l|l c rest l' _ IH|l c rest l' He _ IH|l c rest l' _ IH]; intros Hr; cbn [map fst foldl].
  - done.
  - apply IH. intros d Hd. apply (Hr d). by right.
  - rewrite He. apply IH. intros d Hd. apply (Hr d). by right.
  - exfalso. apply (Hr c). left.
Qed.

Lemma execute_chunk_live w purpose chunk r w' :
  Forall command_ok chunk -> execute_chunk w purpose chunk = (r, w') ->
  (r = Ok tt -> live w' = foldl effect (live w) chunk)
  /\ exists sub, sub `sublist_of` chunk /\ live w' = foldl effect (live w) sub.
Proof.
  intros Hok. unfold execute_chunk. destruct (write_file w _) as [ok w1] eqn:Hw.
  pose proof (write_file_live (L := L) _ _ _ _ Hw) as Hl1. destruct ok; cycle 1.
  { intros [= <- <-]. split; [done|]. exists []. by split; [apply sublist_nil_l|]. }
  destruct (run_tc_batch w1 _) as [[output|] w2] eqn:Hr; cycle 1.
  { intros [= <- <-]. split; [done|]. exists []. split; [apply sublist_nil_l|].
    by rewrite (run_none_live _ _ _ Hr). }
  destruct (run_outcomes w1 (command_file_text chunk) output w2) as (outs & Houts & Hrun & Hsuccess & Hrej);
    [by rewrite batch_commands_written|done|]. rewrite batch_commands_written in Houts by done.
  rewrite Hl1 in Hrun. destruct (batch_run_sublist _ _ _ Hrun) as (sub & Hsub & Hsl). rewrite Houts in Hsub.
  assert (forall c, (c, Rejected) ∈ outs -> c ∈ chunk) as Hin.
  { intros c Hc. rewrite <- Houts. apply list_elem_of_In, in_map_iff. exists (c, Rejected). by rewrite <- list_elem_of_In. }
  destruct (tc_batch_failure_is_ignorable_delete_absence _ _) eqn:Hi.
  - intros [= <- <-]. split; [|by exists sub]. intros _. rewrite <- Houts. apply batch_run_accepted; [done|].
    intros c Hc. unfold tc_batch_failure_is_ignorable_delete_absence in Hi.
    destruct (status_success output); [done|]. rewrite str_lines_command_file in Hi by done.
    destruct (forallb tc_batch_command_is_delete_only _) eqn:Hdel; [|by rewrite orb_true_r in Hi].
    rewrite forallb_forall in Hdel. rewrite str_lines_command_file in Hrej by done.
    assert (In (join_words 32 c) (map (join_words 32) chunk)) as Hline by (by apply in_map, list_elem_of_In, Hin).
    ospecialize (Hrej (join_words 32 c) _ _ _); [by apply list_elem_of_In|by apply delete_only_line, Hdel| |].
    { rewrite split_join_words; [done|]. rewrite Forall_forall in Hok. by apply Hok, Hin. }
    destruct (_ || _); [done|]. destruct (str_is_empty _); [done|].
    rewrite forallb_forall in Hi. destruct Hrej as (line & Hl & Hn).
    by apply (ignored_line line); [apply Hi, list_elem_of_In|].
  - unfold summarize_tc_batch_failure. destruct (status_success output) eqn:Hs.
    + intros [= <- <-]. split; [|by exists sub]. intros _. rewrite <- Houts. apply batch_run_accepted; [done|].
      intros c Hc. specialize (Hsuccess eq_refl). rewrite Forall_forall in Hsuccess. by apply Hsuccess in Hc.
    + destruct (str_is_empty _); intros [= <- <-]; (split; [done|by exists sub]).
Qed.

Lemma foldl_effect_app l xs ys : foldl effect (foldl effect l xs) ys = foldl effect l (xs ++ ys).
Proof. by rewrite foldl_app. Qed.

Lemma execute_chunks_live rest : forall w purpose guard total_commands total_chunks n k r progress w',
  Forall (Forall command_ok) rest ->
  execute_chunks w purpose guard total_commands total_chunks n k rest = (r, progress, w') ->
  (exec_ok r = true -> live w' = foldl effect (live w) (concat rest))
  /\ exists sub, sub `sublist_of` concat rest /\ live w' = foldl effect (live w) sub.
Proof.
  induction rest as [|chunk rest IH]; intros w purpose guard tc tk n k r progress w' Hok; cbn [execute_chunks].
  { intros [= <- <- <-]. split; [done|]. by exists []. }
  inversion_clear Hok as [|?? Hc Hrest].
  assert (forall e : rstring, (exec_failed e, @nil ChunkProgress, w) = (r, progress, w') ->
    (exec_ok r = true -> live w' = foldl effect (live w) (concat (chunk :: rest)))
    /\ exists sub, sub `sublist_of` concat (chunk :: rest) /\ live w' = foldl effect (live w) sub) as Hnone.
  { intros e [= <- <- <-]. split; [done|]. exists []. by split; [apply sublist_nil_l|]. }
  destruct (memory_guard w guard purpose (S k) tk (str "before")) as [[]|e]; [|apply Hnone].
  destruct (execute_chunk w purpose chunk) as [[[]|e] w1] eqn:He;
    destruct (execute_chunk_live _ _ _ _ _ Hc He) as [Hall (sub & Hsub & Hsl)].
  2: { intros [= <- <- <-]. split; [done|]. exists sub. split; [|done]. cbn [concat].
    by apply sublist_inserts_r. }
  specialize (Hall eq_refl).
  destruct (memory_guard w1 guard purpose (S k) tk (str "after")) as [[]|e].
  2: { intros [= <- <- <-]. split; [done|]. exists chunk. split; [|done]. by apply sublist_inserts_r. }
  destruct (execute_chunks w1 _ _ _ _ _ _ rest) as [[r1 progress1] w2] eqn:Hr. intros [= <- <- <-].
  destruct (IH _ _ _ _ _ _ _ _ _ _ Hrest Hr) as [IHall (sub1 & Hsub1 & Hsl1)].
  rewrite Hall in IHall, Hsl1. split.
  - intros Hr1. rewrite (IHall Hr1). apply foldl_effect_app.
  - exists (chunk ++ sub1). split; [by apply sublist_app|]. rewrite Hsl1. apply foldl_effect_app.
Qed.

Lemma execute_in_memory_chunked_live w cmds purpose chunk_size guard r progress w' :
  Forall command_ok cmds ->
  execute_in_memory_chunked w cmds purpose chunk_size guard = (r, progress, w') ->
  (exec_ok r = true -> live w' = foldl effect (live w) cmds)
  /\ exists sub, sub `sublist_of` cmds /\ live w' = foldl effect (live w) sub.
Proof.
  intros Hok. unfold execute_in_memory_chunked. destruct (write_file w _) as [ok w1] eqn:Hw.
  rewrite <- (write_file_live (L := L) _ _ _ _ Hw). destruct ok; cycle 1.
  { intros [= <- <- <-]. split; [done|]. exists []. by split; [apply sublist_nil_l|]. }
  intros He. assert (concat (chunks (Nat.max chunk_size 1) cmds) = cmds) as Hcc by (apply chunks_concat; lia).
  rewrite <- Hcc. eapply execute_chunks_live; [|exact He].
  rewrite <- Hcc in Hok. clear -Hok. induction (chunks _ _) as [|c l IH]; [constructor|].
  cbn [concat] in Hok. apply Forall_app in Hok as [H1 H2]. constructor; auto.
Qed.

(** C20: A batch handed to the executor takes effect exactly: when it is reported as done, the live tree
    is the effect of every command in order, whatever the size of the chunks and the memory guard and
    although missing targets of deletions are tolerated; in every other case a subsequence of the
    commands took effect.  ([TcHostLaws] states what [tc -f -batch] does and which texts
    it uses for missing targets.) *)
Theorem executed_batch_takes_effect w cmds purpose chunk_size guard r progress w' :
  Forall command_ok cmds ->
  execute_in_memory_chunked w cmds purpose chunk_size guard = (r, progress, w') ->
  (exec_ok r = true -> live w' = foldl effect (live w) cmds)
  /\ exists sub, sub `sublist_of` cmds /\ live w' = foldl effect (live w) sub.
Proof. apply execute_in_memory_chunked_live. Qed.

Lemma execute_in_memory_live w cmds purpose r w' :
  Forall command_ok cmds -> execute_in_memory w cmds purpose = (r, w') ->
  (exec_ok r = true -> live w' = foldl effect (live w) cmds)
  /\ exists sub, sub `sublist_of` cmds /\ live w' = foldl effect (live w) sub.
Proof.
  intros Hok. unfold execute_in_memory. destruct (execute_in_memory_chunked _ _ _ _ _) as [[r' progress] w1] eqn:He.
  intros [= <- <-]. by eapply execute_in_memory_chunked_live.
Qed.

End Batches.

(** ** A host

    It records the commands that took effect; [toy_faults] tells which of the next commands it rejects. *)

Record ToyHost : Type := mkToyHost { toy_log : list argv; toy_faults : list bool }.

Fixpoint toy_run (faults : list bool) (cmds : list argv) : list (argv * CommandOutcome) :=
  match cmds with
  | [] => []
  | c :: cmds => (c, if default false (head faults) then Rejected else Took_effect) :: toy_run (tail faults) cmds
  end.

Definition took_effect (co : argv * CommandOutcome) : bool := match co.2 with Took_effect => true | _ => false end.

#[export] Instance toy_host : TcHost ToyHost := {
  write_file w _ := (true, w);
  run_tc_batch w text :=
    let cmds := map (fun line => split_char line 32) (str_lines text) in
    let outs := toy_run (toy_faults w) cmds in
    let output := if forallb took_effect outs then mkTcOutput (Some 0) []
                  else mkTcOutput (Some 1) (as_bytes (str "RTNETLINK answers: Invalid argument")) in
    (Some output, mkToyHost (toy_log w ++ map fst (List.filter took_effect outs)) (drop (length cmds) (toy_faults w)));
  read_meminfo _ := Ok (str "MemTotal: 2048 kB
MemAvailable: 1024 kB
")
}.

#[export] Instance toy_live : TcLive ToyHost (list argv) := { live := toy_log; effect log c := log ++ [c] }.

Lemma toy_run_fst faults cmds : map fst (toy_run faults cmds) = cmds.
Proof. revert faults. induction cmds as [|c cmds IH]; intros faults; [done|]. cbn. by rewrite IH. Qed.

Lemma toy_run_batch faults cmds log :
  batch_run ToyHost (list argv) log (toy_run faults cmds)
    (log ++ map fst (List.filter took_effect (toy_run faults cmds))).
Proof.
  revert faults log. induction cmds as [|c cmds IH]; intros faults log; cbn [toy_run List.filter].
  - rewrite app_nil_r. constructor.
  - destruct (default false (head faults)); cbn [took_effect snd map fst].
    + constructor. apply IH.
    + constructor. change (effect log c) with (log ++ [c]). specialize (IH (tail faults) (log ++ [c])).
      by rewrite <- app_assoc in IH.
Qed.

Lemma invalid_argument_reports : reports_failure (str "RTNETLINK answers: Invalid argument").
Proof.
  split; [by vm_compute|]. repeat (apply Forall_cons; split; [intros [rest Hs]; vm_compute in Hs; discriminate Hs|]). by apply Forall_nil.
Qed.

#[export] Instance toy_host_laws : TcHostLaws ToyHost (list argv).
Proof.
  split.
  - by intros w text ok w' [= <- <-].
  - by intros w text w' [=].
  - intros w text output w' _. cbn [run_tc_batch toy_host]. fold (batch_commands text).
    set (outs := toy_run (toy_faults w) (batch_commands text)). intros [= <- <-]. exists outs. split_and!.
    + apply toy_run_fst.
    + apply toy_run_batch.
    + destruct (forallb took_effect outs) eqn:Hf; [|done]. intros _. rewrite forallb_forall in Hf.
      apply Forall_forall. intros [c o] Hc%list_elem_of_In. specialize (Hf _ Hc). by destruct o.
    + intros c _ _ Hc. destruct (forallb took_effect outs) eqn:Hf.
      2:{ exists (str "RTNETLINK answers: Invalid argument"). split; [by vm_compute; left|apply invalid_argument_reports]. }
      rewrite forallb_forall in Hf. apply list_elem_of_In, Hf in Hc. done.
Qed.

Lemma executed_batch_takes_effect_witness :
  let cmds := [[str "qdisc"; str "del"; str "dev"; str "eth0"]; [str "class"; str "del"; str "dev"; str "eth0"]] in
  exists r progress w',
    execute_in_memory_chunked (mkToyHost [] [false; true]) cmds (str "drain") 1 (Some 1) = (r, progress, w')
    /\ exec_ok r = false /\ exists sub, sub `sublist_of` cmds /\ live w' = foldl effect [] sub.
Proof.
  eexists _, _, _. split; [by vm_compute|]. split; [done|].
  refine (proj2 (executed_batch_takes_effect (mkToyHost [] [false; true]) _ (str "drain") 1 (Some 1) _ _ _ _ _)).
  - repeat constructor; done.
  - by vm_compute.
Defined.
