(* ===== verification/BakeryDrain.v ===== *)
(** * Draining the live tree ([lqos_bakery/src/lib.rs])

    Before a full reload the live classes and qdiscs below the root [mq] are deleted, down to the
    infrastructure classes [1] and [2] of every queue, which are kept; the builder's commands for the kept
    classes then replace instead of add.  [order] is the order in which the map of classes is iterated.

    The depth of a class counts its ancestors, so a drain deletes every class after its children; it
    deletes each managed class exactly once, and never the kept infrastructure. *)

From S2P Require Import Prelude RustStd RustCollections RustFloat RustFormat ShapedDevice.
From S2P Require Import TcHandle QdiscHandles BakeryCommands BakeryPlan.
From stdpp Require Import sorting relations.
#[local] Open Scope Z_scope.

Definition ROOT_MQ_MAJOR : Z := 0x7fff.

Definition major_of (h : TcHandle) : Z := (get_major_minor h).1.
Definition minor_of (h : TcHandle) : Z := (get_major_minor h).2.

Definition managed_interfaces_for_config (config : Config) : result Panic (list rstring) :=
  isp ← isp_interface config;
  if on_a_stick_mode config then Ok [isp] else internet ← internet_interface config; Ok [isp; internet].

Definition is_some_and {A} (o : option A) (p : A -> bool) : bool := match o with Some a => p a | None => false end.

Definition retained_root_mq_entry (snapshot : list LiveTcQdiscEntry) : option LiveTcQdiscEntry :=
  List.find (fun entry =>
    is_root entry && bool_decide (qdisc_kind entry = str "mq")
    && is_some_and (qdisc_handle entry) (fun handle => major_of handle =? ROOT_MQ_MAJOR)) snapshot.

Definition managed_root_child_parent_handles (snapshot : list LiveTcQdiscEntry) : gset TcHandle :=
  list_to_set (omap qdisc_parent (List.filter (fun entry =>
    is_some_and (qdisc_parent entry) (fun parent => major_of parent =? ROOT_MQ_MAJOR)
    && is_some_and (qdisc_handle entry) (fun handle => negb (major_of handle =? 0))) snapshot)).

Definition verify_root_mq_snapshot (snapshot : list LiveTcQdiscEntry) (interface : rstring) : result rstring unit :=
  match retained_root_mq_entry snapshot with
  | None => Err (str "interface " ++ interface ++ str " does not currently have root mq handle 7fff:")
  | Some _ => Ok tt
  end.

Definition verify_clean_root_child_tree (qdiscs : list LiveTcQdiscEntry) (classes : class_snapshot)
    (interface : rstring) : result rstring unit :=
  _ ← verify_root_mq_snapshot qdiscs interface;
  let child_handles := managed_root_child_parent_handles qdiscs in
  if negb (bool_decide (child_handles = ∅)) then
    Err (str "interface " ++ interface ++ str " still has " ++ usize_to_string (size child_handles)
         ++ str " managed child qdisc(s) beneath root mq 7fff:")
  else
    let managed_class_count :=
      length (List.filter (fun e => negb (major_of (class_id e.2) =? ROOT_MQ_MAJOR)) (map_to_list classes)) in
    if negb (managed_class_count =? 0)%nat then
      Err (str "interface " ++ interface ++ str " still has " ++ usize_to_string managed_class_count
           ++ str " managed tc class(es) after root-child prune")
    else Ok tt.

(** [matches!(minor, 1 | 2)]. *)
Definition infra_minor (minor : Z) : bool := (minor =? 1) || (minor =? 2).

Definition root_infra_class_handle (handle : TcHandle) (root_child_majors : gset Z) : bool :=
  bool_decide (major_of handle ∈ root_child_majors) && infra_minor (minor_of handle).

Definition root_infra_class_entry (entry : LiveTcClassEntry) (root_child_majors : gset Z) : bool :=
  let '(major, minor) := get_major_minor (class_id entry) in
  if negb (bool_decide (major ∈ root_child_majors)) then false
  else
    match class_parent entry with
    | Some parent =>
        if minor =? 1 then bool_decide (parent = tc_handle_from_major_minor major 0)
        else if minor =? 2 then bool_decide (parent = tc_handle_from_major_minor major 1)
        else false
    | None => false
    end.

Definition root_infra_qdisc_entry (entry : LiveTcQdiscEntry) (root_child_majors : gset Z) : bool :=
  bool_decide (qdisc_kind entry = str "clsact") || is_root entry
  || is_some_and (qdisc_parent entry) (fun parent => major_of parent =? ROOT_MQ_MAJOR)
  || is_some_and (qdisc_parent entry) (fun parent => root_infra_class_handle parent root_child_majors).

Definition command_word (command : argv) (word : rstring) : bool := bool_decide (head command = Some word).

Definition root_infra_class_command (command : argv) (preserved : gmap rstring (gset Z)) : bool :=
  command_word command (str "class")
  && is_some_and (command_interface command ≫= fun interface => preserved !! interface) (fun majors =>
       is_some_and (command_handle_after command (str "classid")) (fun handle =>
         root_infra_class_handle handle majors)).

Definition idempotent_full_reload_command (command : argv) (preserved : gmap rstring (gset Z)) : argv :=
  if bool_decide (command !! 1%nat = Some (str "add")) && root_infra_class_command command preserved
  then <[1%nat := str "replace"]> command
  else command.

(** ** Depth of a class *)

(** [class_depth]; the set [seen] bounds the recursion. *)
Fixpoint class_depth (fuel : nat) (snapshot : class_snapshot) (seen : gset TcHandle) (handle : TcHandle) : nat :=
  match fuel with
  | O => 0
  | S fuel' =>
      if bool_decide (handle ∈ seen) then 0
      else
        match snapshot !! handle ≫= class_parent with
        | Some parent => S (class_depth fuel' snapshot ({[handle]} ∪ seen) parent)
        | None => 0
        end
  end.

Definition depth_of (snapshot : class_snapshot) (handle : TcHandle) : nat :=
  class_depth (S (size snapshot)) snapshot ∅ handle.

(** ** Deletions *)

Definition class_delete_command (interface : rstring) (parent class : TcHandle) : argv :=
  [str "class"; str "del"; str "dev"; interface; str "parent"; as_tc_string parent;
   str "classid"; as_tc_string class].

(** The classes to delete with their depths and parents, deepest first. *)
Definition class_delete_entries (snapshot : class_snapshot) (order : list LiveTcClassEntry)
    (root_child_majors : gset Z) : list (nat * TcHandle * TcHandle) :=
  let entries := omap (fun entry =>
      if negb (major_of (class_id entry) =? ROOT_MQ_MAJOR) && negb (root_infra_class_entry entry root_child_majors)
      then (fun parent => (depth_of snapshot (class_id entry), class_id entry, parent)) <$> class_parent entry
      else None) order in
  sort_with (fun a b => (b.1.1 <=? a.1.1)%nat) entries.

Definition class_delete_commands (interface : rstring) (snapshot : class_snapshot) (order : list LiveTcClassEntry)
    (root_child_majors : gset Z) : list argv :=
  map (fun '(_, class, parent) => class_delete_command interface parent class)
    (class_delete_entries snapshot order root_child_majors).

Definition qdisc_delete_commands (interface : rstring) (qdiscs : list LiveTcQdiscEntry) (root_child_majors : gset Z)
    : list argv :=
  map (fun parent => [str "qdisc"; str "del"; str "dev"; interface; str "parent"; as_tc_string parent])
    (omap qdisc_parent (List.filter (fun entry => negb (root_infra_qdisc_entry entry root_child_majors)) qdiscs)).

(** [drain_managed_tree_to_defaults]: the majors kept and the commands it runs. *)
Definition drain_managed_tree_to_defaults (interface : rstring) (qdiscs : list LiveTcQdiscEntry)
    (snapshot : class_snapshot) (order : list LiveTcClassEntry) : gset Z * list argv :=
  let root_child_majors := set_map minor_of (managed_root_child_parent_handles qdiscs) in
  if bool_decide (root_child_majors = ∅) then (root_child_majors, [])
  else (root_child_majors, qdisc_delete_commands interface qdiscs root_child_majors
                           ++ class_delete_commands interface snapshot order root_child_majors).

(** ** Properties *)

Section Depth.
Context (snapshot : class_snapshot).

Definition parent_of (h : TcHandle) : option TcHandle := snapshot !! h ≫= class_parent.
Definition parent_step (h p : TcHandle) : Prop := parent_of h = Some p.

(** No class is its own ancestor. *)
Definition acyclic : Prop := forall h, ~ tc parent_step h h.

Lemma class_depth_indep fuel : forall seen h x,
  x <> h -> ~ tc parent_step h x -> class_depth fuel snapshot ({[x]} ∪ seen) h = class_depth fuel snapshot seen h.
Proof.
  induction fuel as [|fuel IH]; intros seen h x Hx Ht; [done|]. cbn [class_depth].
  rewrite (bool_decide_ext (h ∈ {[x]} ∪ seen) (h ∈ seen)) by set_solver.
  case_bool_decide; [done|]. fold (parent_of h). destruct (parent_of h) as [p|] eqn:Hp; [|done].
  f_equal. replace ({[h]} ∪ ({[x]} ∪ seen)) with ({[x]} ∪ ({[h]} ∪ seen)) by set_solver.
  apply IH.
  - intros ->. apply Ht. by constructor.
  - intros Hpx. apply Ht. by eapply tc_l.
Qed.

Lemma class_depth_fuel f : forall f' seen h,
  (size (dom snapshot ∖ seen) < f)%nat -> (size (dom snapshot ∖ seen) < f')%nat ->
  class_depth f snapshot seen h = class_depth f' snapshot seen h.
Proof.
  induction f as [|f IH]; intros [|f'] seen h Hf Hf'; [lia..|]. cbn [class_depth].
  case_bool_decide as Hs; [done|]. fold (parent_of h). destruct (parent_of h) as [p|] eqn:Hp; [|done].
  f_equal. apply IH.
  all: assert (h ∈ dom snapshot ∖ seen) as Hh
    by (apply elem_of_difference; split; [|done]; unfold parent_of in Hp; apply elem_of_dom;
        destruct (snapshot !! h); [done|discriminate]).
  all: assert (dom snapshot ∖ ({[h]} ∪ seen) ⊂ dom snapshot ∖ seen) as Hsub by set_solver.
  all: apply subset_size in Hsub; lia.
Qed.

(** The depth of a class is one more than its parent's. *)
Lemma depth_of_parent h p :
  acyclic -> parent_of h = Some p -> depth_of snapshot h = S (depth_of snapshot p).
Proof.
  intros Hac Hp. unfold depth_of at 1. cbn [class_depth]. rewrite bool_decide_false by set_solver.
  fold (parent_of h). rewrite Hp. f_equal. rewrite union_empty_r_L.
  assert (h ∈ dom snapshot) as Hh by (apply elem_of_dom; unfold parent_of in Hp; destruct (snapshot !! h); [done|discriminate]).
  assert (size (dom snapshot ∖ {[h]}) < size snapshot)%nat as Hsz.
  { rewrite <- size_dom. apply subset_size. set_solver. }
  rewrite (class_depth_fuel (size snapshot) (S (size snapshot))) by lia.
  rewrite <- (union_empty_r_L {[h]}). apply class_depth_indep.
  - intros ->. apply (Hac p). by constructor.
  - intros Hph. apply (Hac h). eapply tc_l; [|exact Hph]. done.
Qed.
End Depth.

(** ** The order of deletions *)

Lemma StronglySorted_lookup {A} (R : relation A) l i j a b :
  StronglySorted R l -> (i < j)%nat -> l !! i = Some a -> l !! j = Some b -> R a b.
Proof.
  intros Hs. revert i j. induction Hs as [|x l Hs IH Hall]; intros i j Hij Hi Hj; [done|].
  destruct j as [|j]; [lia|]. cbn in Hj. destruct i as [|i]; cbn in Hi.
  - injection Hi as ->. rewrite Forall_forall in Hall. apply Hall. by eapply list_elem_of_lookup_2.
  - eapply IH; [|done..]. lia.
Qed.

Lemma NoDup_omap_key {A B K} (f : A -> option B) (key : B -> K) (id : A -> K) l :
  (forall a b, f a = Some b -> key b = id a) -> NoDup (map id l) -> NoDup (map key (omap f l)).
Proof.
  intros Hf. induction l as [|a l IH]; cbn; [done|]. intros [Hno Hnd]%NoDup_cons.
  specialize (IH Hnd). destruct (f a) as [b|] eqn:Ha; [|done]. cbn. apply NoDup_cons. split; [|done].
  intros (b' & Hk & (a' & Ha' & Hfa')%list_elem_of_omap)%list_elem_of_fmap. apply Hno.
  rewrite <- (Hf a b Ha), Hk, (Hf a' b' Hfa'). by apply (list_elem_of_fmap_2 id).
Qed.

Section Drain.
Context (snapshot : class_snapshot) (order : list LiveTcClassEntry) (majors : gset Z).
Hypothesis Hkeys : forall h e, snapshot !! h = Some e -> class_id e = h.
Hypothesis Horder : order ≡ₚ (map_to_list snapshot).*2.

(** The managed classes that are not infrastructure. *)
Definition drained (c p : TcHandle) : Prop :=
  exists e, snapshot !! c = Some e /\ class_parent e = Some p
    /\ major_of c <> ROOT_MQ_MAJOR /\ root_infra_class_entry e majors = false.

Lemma elem_of_order e : e ∈ order <-> snapshot !! class_id e = Some e.
Proof.
  rewrite Horder, list_elem_of_fmap. split.
  - intros ([h e'] & -> & Hin%elem_of_map_to_list). cbn. by rewrite (Hkeys h e').
  - intros H. exists (class_id e, e). by rewrite elem_of_map_to_list.
Qed.

Lemma elem_of_delete_entries d c p :
  (d, c, p) ∈ class_delete_entries snapshot order majors <-> d = depth_of snapshot c /\ drained c p.
Proof.
  unfold class_delete_entries. rewrite sort_with_perm, list_elem_of_omap. unfold drained. split.
  - intros (e & He & Hf). apply elem_of_order in He. destruct (negb _ && negb _) eqn:Hb; [|done]. to_prop.
    destruct (class_parent e) as [p'|] eqn:Hp; [|done]. injection Hf as <- <- <-. eauto 6.
  - intros (-> & e & He & Hp & Hm & Hi). exists e. pose proof (Hkeys c e He) as Hid.
    split; [apply elem_of_order; by rewrite Hid|].
    rewrite Hid, (proj2 (Z.eqb_neq _ _) Hm), Hi, Hp. done.
Qed.

Lemma NoDup_delete_classes : NoDup (map (fun e => e.1.2) (class_delete_entries snapshot order majors)).
Proof.
  unfold class_delete_entries. rewrite (sort_with_perm _ _).
  assert (NoDup (map class_id order)) as Hnd.
  { rewrite Horder. rewrite map_map. erewrite map_ext_in; [apply NoDup_fst_map_to_list|].
    intros [h e] Hin%list_elem_of_In%elem_of_map_to_list. cbn. by apply Hkeys. }
  eapply NoDup_omap_key; [|exact Hnd]. intros e y Hf. destruct (negb _ && negb _); [|done].
  destruct (class_parent e); [|done]. by injection Hf as <-.
Qed.

(** C34: A drain deletes every managed class outside the kept infrastructure exactly once, and each class
    only after all of its children, whatever order the map of classes is iterated in. *)
Theorem drain_deletes_children_first interface :
  acyclic snapshot ->
  exists l : list (TcHandle * TcHandle),
    class_delete_commands interface snapshot order majors = map (fun '(c, p) => class_delete_command interface p c) l
    /\ (forall c p, (c, p) ∈ l <-> drained c p)
    /\ NoDup (map fst l)
    /\ forall i j c p q, l !! i = Some (c, p) -> l !! j = Some (p, q) -> (i < j)%nat.
Proof.
  intros Hac. exists (map (fun e => (e.1.2, e.2)) (class_delete_entries snapshot order majors)). split_and!.
  - unfold class_delete_commands. rewrite map_map. apply map_ext. by intros [[d c] p].
  - intros c p. rewrite list_elem_of_fmap. split.
    + intros ([[d c'] p'] & Heq & Hin). injection Heq as -> ->. by apply elem_of_delete_entries in Hin as [_ ?].
    + intros H. exists (depth_of snapshot c, c, p). split; [done|]. by apply elem_of_delete_entries.
  - rewrite map_map. apply NoDup_delete_classes.
  - intros i j c p q Hi Hj. rewrite list_lookup_fmap in Hi, Hj.
    destruct (class_delete_entries snapshot order majors !! i) as [[[d c'] p']|] eqn:Ei; [|done].
    destruct (class_delete_entries snapshot order majors !! j) as [[[d' c''] q']|] eqn:Ej; [|done].
    injection Hi as -> ->. injection Hj as -> ->.
    pose proof (list_elem_of_lookup_2 _ _ _ Ei) as [-> (e & He & Hp & _)]%elem_of_delete_entries.
    pose proof (list_elem_of_lookup_2 _ _ _ Ej) as [-> _]%elem_of_delete_entries.
    assert (depth_of snapshot c = S (depth_of snapshot p)) as Hd
      by (apply depth_of_parent; [done|]; unfold parent_of; by rewrite He).
    destruct (Nat.lt_ge_cases i j) as [Hlt|Hge]; [done|]. exfalso.
    destruct (decide (i = j)) as [->|Hne]; [rewrite Ei in Ej; injection Ej; lia|].
    assert (ordered (fun a b : nat * TcHandle * TcHandle => (b.1.1 <=? a.1.1)%nat) (depth_of snapshot p, p, q) (depth_of snapshot c, c, p)) as Ho.
    { eapply StronglySorted_lookup; [|assert (j < i)%nat as Hji by lia; exact Hji|exact Ej|exact Ei].
      apply sort_with_sorted; [intros a b|intros a b d]; rewrite !Nat.leb_le; lia. }
    unfold ordered in Ho. cbn [fst snd] in Ho. apply Nat.leb_le in Ho. lia.
Qed.
End Drain.

Definition example_class (id parent : Z) : LiveTcClassEntry :=
  mkLiveClass (mkTcHandle id) (Some (mkTcHandle parent)) None.
Definition example_classes : class_snapshot :=
  <[mkTcHandle 0x10003 := example_class 0x10003 0x10001]>
    (<[mkTcHandle 0x10004 := example_class 0x10004 0x10003]>
      (<[mkTcHandle 0x10001 := example_class 0x10001 0x10000]> ∅)).

Lemma example_classes_entries h e :
  example_classes !! h = Some e -> class_id e = h /\ forall p, class_parent e = Some p -> as_u32 p < as_u32 h.
Proof.
  unfold example_classes. rewrite !lookup_insert, lookup_empty. repeat case_decide; intros [= <-]; subst;
    (split; [done|]; intros p [= <-]; cbn; lia).
Qed.

Lemma example_classes_acyclic : acyclic example_classes.
Proof.
  assert (forall a b, tc (parent_step example_classes) a b -> as_u32 b < as_u32 a) as Hdec.
  { intros a b. assert (forall a b, parent_step example_classes a b -> as_u32 b < as_u32 a) as Hstep.
    { intros x y. unfold parent_step, parent_of. destruct (example_classes !! x) as [e|] eqn:He; [|done].
      intros Hp. by apply (proj2 (example_classes_entries x e He)). }
    induction 1 as [x y Hxy|x y z Hxy _ IH]; apply Hstep in Hxy; lia. }
  intros h Hh%Hdec. lia.
Qed.

Lemma drain_deletes_children_first_witness :
  exists l : list (TcHandle * TcHandle),
    class_delete_commands (str "eth1") example_classes ((map_to_list example_classes).*2) {[1]}
    = map (fun '(c, p) => class_delete_command (str "eth1") p c) l
    /\ (forall c p, (c, p) ∈ l <-> drained example_classes {[1]} c p)
    /\ NoDup (map fst l)
    /\ forall i j c p q, l !! i = Some (c, p) -> l !! j = Some (p, q) -> (i < j)%nat.
Proof.
  apply (drain_deletes_children_first example_classes ((map_to_list example_classes).*2) {[1]}).
  - intros h e He. apply (proj1 (example_classes_entries h e He)).
  - reflexivity.
  - exact example_classes_acyclic.
Defined.

(** The kept infrastructure: the class and the default class of every queue. *)
Example drain_example :
  class_delete_commands (str "eth1") example_classes ((map_to_list example_classes).*2) {[1]}
  = [class_delete_command (str "eth1") (mkTcHandle 0x10003) (mkTcHandle 0x10004);
     class_delete_command (str "eth1") (mkTcHandle 0x10001) (mkTcHandle 0x10003)].
Proof. by vm_compute. Qed.
