(* ===== verification/BakeryPlanSpec.v ===== *)
(** * Planning the commands of the Bakery: properties

    The limit on mapped circuits keeps exactly as many circuits as it allows and prefers the ones already
    mapped; the estimate of a full reload counts every planned qdisc once. *)

From S2P Require Import Prelude RustStd RustCollections RustFloat RustFormat RustNet.
From S2P Require Import ShapedDevice TcHandle QdiscHandles BakeryCommands BakeryPlan.

(** ** Mapped circuits *)

Section Fill.
Context (limit : nat) (p : Z -> bool).

Lemma fill_grows l : forall keep, keep ⊆ fill_keep_set limit p l keep.
Proof.
  induction l as [|h l IH]; intros keep; cbn [fill_keep_set]; [done|].
  case_match; [done|]. etrans; [|apply IH]. destruct (p h); set_solver.
Qed.

Lemma fill_from l : forall keep x, x ∈ fill_keep_set limit p l keep -> x ∈ keep \/ (x ∈ l /\ p x = true).
Proof.
  induction l as [|h l IH]; intros keep x; cbn [fill_keep_set]; [by left|].
  case_match; [by left|]. intros [Hx|[Hx Hp]]%IH; [|right; split; [by right|done]].
  destruct (p h) eqn:Hh; [|by left]. apply elem_of_union in Hx as [->%elem_of_singleton|Hx]; [|by left].
  right. split; [left|done].
Qed.

Lemma fill_size l : forall keep, (size keep <= limit)%nat -> (size (fill_keep_set limit p l keep) <= limit)%nat.
Proof.
  induction l as [|h l IH]; intros keep Hk; cbn [fill_keep_set]; [done|].
  case_match eqn:Hle; [done|]. apply Nat.leb_gt in Hle. apply IH. destruct (p h); [|done].
  pose proof (size_union_alt {[h]} keep). rewrite size_singleton in *.
  pose proof (subseteq_size (keep ∖ {[h]}) keep ltac:(set_solver)). lia.
Qed.

(** With room left, every candidate that qualifies is kept. *)
Lemma fill_complete l : forall keep,
  (size (fill_keep_set limit p l keep) < limit)%nat ->
  forall x, x ∈ l -> p x = true -> x ∈ fill_keep_set limit p l keep.
Proof.
  induction l as [|h l IH]; intros keep; cbn [fill_keep_set]; [by intros _ x ?%elem_of_nil|].
  case_match eqn:Hle; [apply Nat.leb_le in Hle; lia|]. intros Hsz x [->|Hx]%elem_of_cons Hp; [|by apply IH].
  apply fill_grows. rewrite Hp. set_solver.
Qed.

Lemma fill_full l keep : (limit <= size keep)%nat -> fill_keep_set limit p l keep = keep.
Proof. intros H. destruct l; cbn [fill_keep_set]; [done|]. by rewrite (proj2 (Nat.leb_le _ _) H). Qed.
End Fill.

Definition mapped_hashes (batch : list BakeryCommands) : gset Z := list_to_set (omap mapped_circuit_hash batch).
Definition was_mapped (existing : gmap Z BakeryCommands) (hash : Z) : bool :=
  match existing !! hash with Some e => is_mapped_add_circuit e | None => false end.

Lemma elem_of_candidates batch h :
  h ∈ unique_mapped_circuit_hashes (omap mapped_circuit_hash batch) <-> h ∈ mapped_hashes batch.
Proof.
  unfold unique_mapped_circuit_hashes, mapped_hashes. rewrite elem_of_push_all_unique, elem_of_list_to_set.
  set_solver.
Qed.

Lemma candidates_length batch :
  length (unique_mapped_circuit_hashes (omap mapped_circuit_hash batch)) = size (mapped_hashes batch).
Proof.
  assert (NoDup (unique_mapped_circuit_hashes (omap mapped_circuit_hash batch))) as Hnd
    by (apply NoDup_push_all_unique; constructor).
  rewrite <- (size_list_to_set (C := gset Z)) by done. f_equal. apply set_eq. intros h.
  by rewrite elem_of_list_to_set, elem_of_candidates.
Qed.

(** The set kept when there are more candidates than the limit. *)
Lemma keep_set_spec limit existing batch :
  (limit < size (mapped_hashes batch))%nat ->
  let candidates := unique_mapped_circuit_hashes (omap mapped_circuit_hash batch) in
  let keep := fill_keep_set limit (fun _ => true) candidates
                (fill_keep_set limit (was_mapped existing) candidates ∅) in
  size keep = limit /\ keep ⊆ mapped_hashes batch
  /\ ((forall h, h ∈ keep -> was_mapped existing h = true)
      \/ (forall h, h ∈ mapped_hashes batch -> was_mapped existing h = true -> h ∈ keep)).
Proof.
  intros Hlt. cbv zeta. set (candidates := unique_mapped_circuit_hashes _).
  set (first := fill_keep_set limit (was_mapped existing) candidates ∅).
  assert (size first <= limit)%nat as Hf by (apply fill_size; rewrite size_empty; lia).
  set (keep := fill_keep_set limit (fun _ => true) candidates first).
  assert (keep ⊆ mapped_hashes batch) as Hsub.
  { intros h [[Hh|[Hh _]]%fill_from|[Hh _]]%fill_from; [set_solver|by apply elem_of_candidates..]. }
  split_and!; [|done|].
  - assert (size keep <= limit)%nat by (by apply fill_size).
    destruct (Nat.lt_ge_cases (size keep) limit) as [Hk|]; [|lia]. exfalso.
    assert (mapped_hashes batch ⊆ keep) as Hall%subseteq_size; [|lia].
    intros h Hh. apply fill_complete; [done|by apply elem_of_candidates|done].
  - destruct (Nat.lt_ge_cases (size first) limit) as [Hk|Hk].
    + right. intros h Hh Hw. apply fill_grows. by apply fill_complete; [|apply elem_of_candidates|].
    + left. unfold keep. rewrite fill_full by done. intros h [Hh|[_ Hh]]%fill_from; [set_solver|done].
Qed.

(** C36: The limit on mapped circuits is exact: commands without a valid IP mapping always stay, the
    circuits kept are as many as the limit allows (all of them below it), a circuit's commands stay or go
    together, and a circuit that was already mapped is dropped only when every kept one was mapped too. *)
Theorem mapped_limit_exact batch existing limit filtered stats :
  filter_batch_by_mapped_circuit_limit batch existing (Some limit) = (filtered, stats) ->
  requested_mapped stats = size (mapped_hashes batch)
  /\ allowed_mapped stats = Nat.min limit (size (mapped_hashes batch))
  /\ dropped_mapped stats = (size (mapped_hashes batch) - limit)%nat
  /\ size (mapped_hashes filtered) = allowed_mapped stats
  /\ filtered = List.filter (fun cmd =>
       match mapped_circuit_hash cmd with
       | Some h => bool_decide (h ∈ mapped_hashes filtered)
       | None => true
       end) batch
  /\ ((forall h, h ∈ mapped_hashes filtered -> was_mapped existing h = true)
      \/ (forall h, h ∈ mapped_hashes batch -> was_mapped existing h = true -> h ∈ mapped_hashes filtered)).
Proof.
  unfold filter_batch_by_mapped_circuit_limit. rewrite candidates_length.
  destruct (Nat.leb_spec (size (mapped_hashes batch)) limit) as [Hle|Hlt].
  - intros [= <- <-]. cbn. split_and!; [done|lia|lia|done| |by right].
    symmetry. apply forallb_filter_id, forallb_forall. intros cmd Hin%list_elem_of_In.
    destruct (mapped_circuit_hash cmd) as [h|] eqn:Hh; [|done]. apply bool_decide_eq_true.
    apply elem_of_list_to_set, list_elem_of_omap. eauto.
  - fold (was_mapped existing). destruct (keep_set_spec limit existing batch Hlt) as (Hsz & Hsub & Hpref).
    set (keep := fill_keep_set _ _ _ _) in *. intros [= <- <-]. cbn [requested_mapped allowed_mapped dropped_mapped].
    set (q := fun cmd : BakeryCommands => match mapped_circuit_hash cmd with
      | Some hash => bool_decide (hash ∈ keep) | None => true end).
    assert (mapped_hashes (List.filter q batch) = keep) as Hkeep.
    { apply set_eq. intros h. unfold mapped_hashes. rewrite elem_of_list_to_set, list_elem_of_omap. split.
      - intros (cmd & Hin & Hh). apply list_elem_of_In, filter_In in Hin as [_ Hq]. unfold q in Hq.
        rewrite Hh in Hq. by apply bool_decide_eq_true in Hq.
      - intros Hh. pose proof (Hsub h Hh) as Hm. unfold mapped_hashes in Hm.
        apply elem_of_list_to_set, list_elem_of_omap in Hm as (cmd & Hin & Hc). exists cmd. split; [|done].
        apply list_elem_of_In, filter_In. split; [by apply list_elem_of_In|]. unfold q. rewrite Hc.
        by apply bool_decide_eq_true. }
    rewrite Hkeep, Hsz. split_and!; [done|lia|lia|done|done|exact Hpref].
Qed.

Definition mapped_example (hash : Z) : BakeryCommands :=
  AddCircuit (mkAddCircuit hash None None (mkTcHandle 0x10003) (mkTcHandle 0x20003) 5 f32_zero f32_zero
    f32_zero f32_zero 1 2 None None (str "192.0.2.1/32, 2001:db8::/64") None).

Lemma mapped_limit_exact_witness :
  let batch := [mapped_example 1; Tick; mapped_example 2; mapped_example 1; mapped_example 3] in
  let existing := {[3 := mapped_example 3]} in
  exists filtered stats,
    filter_batch_by_mapped_circuit_limit batch existing (Some 2%nat) = (filtered, stats)
    /\ dropped_mapped stats = (size (mapped_hashes batch) - 2)%nat
    /\ filtered = [mapped_example 1; Tick; mapped_example 1; mapped_example 3].
Proof.
  cbv zeta.
  destruct (filter_batch_by_mapped_circuit_limit [mapped_example 1; Tick; mapped_example 2; mapped_example 1; mapped_example 3]
    {[3 := mapped_example 3]} (Some 2%nat)) as [filtered stats] eqn:Hf.
  exists filtered, stats. split; [reflexivity|]. split.
  - exact (proj1 (proj2 (proj2 (mapped_limit_exact _ _ _ _ _ Hf)))).
  - vm_compute in Hf. injection Hf as <- <-. vm_compute. reflexivity.
Defined.

(** ** The estimate *)

(** The argument vectors of a queue of commands, with the flag [MQ_CREATED] passed through. *)
Fixpoint expand_queue (config : Config) (mq_created : bool) (queue : list BakeryCommands)
    : result Panic (list argv * bool) :=
  match queue with
  | [] => Ok ([], mq_created)
  | command :: queue' =>
      '(commands, mq_created) ← to_commands config Builder mq_created command;
      '(rest, mq_created) ← expand_queue config mq_created queue';
      Ok (default [] commands ++ rest, mq_created)
  end.

Lemma estimate_loop_expand config queue : forall mq_created st,
  estimate_loop config mq_created queue st
  = '(commands, mq_created) ← expand_queue config mq_created queue; Ok (fold_left estimate_argv commands st, mq_created).
Proof.
  induction queue as [|c queue IH]; intros mq st; cbn [estimate_loop expand_queue]; [done|].
  destruct (to_commands config Builder mq c) as [[commands mq']|e]; cbn; [|done].
  cbn in IH. rewrite IH. destruct (expand_queue config mq' queue) as [[rest mq'']|e]; cbn; [|done].
  destruct commands as [commands|]; cbn; [by rewrite fold_left_app|done].
Qed.

(** The distinct qdiscs a list of argument vectors plans on a device. *)
Definition planned_on (commands : list argv) (dev : rstring) : gset (rstring * rstring) :=
  filter (fun k => k.1 = dev) (list_to_set (omap planned_qdisc_identity commands) : gset (rstring * rstring)).

(** What the estimate of a device adds up to. *)
Definition detail_ok (count : nat) (d : QdiscInterfaceEstimate) : Prop :=
  planned_qdiscs d = count /\ (infra_qdiscs d + cake_qdiscs d + fq_codel_qdiscs d)%nat = count
  /\ estimated_memory_bytes d
     = Z.min u64_max (Z.of_nat (infra_qdiscs d) * INFRA_QDISC_ESTIMATED_MEMORY_BYTES
                      + Z.of_nat (cake_qdiscs d) * CAKE_QDISC_ESTIMATED_MEMORY_BYTES
                      + Z.of_nat (fq_codel_qdiscs d) * FQ_CODEL_QDISC_ESTIMATED_MEMORY_BYTES).

Record estimate_ok (st : EstimateState) : Prop := {
  est_counts : forall dev, est_interfaces st !! dev =
    (let n := size (filter (fun k => k.1 = dev) (est_seen st)) in if (n =? 0)%nat then None else Some n);
  est_detail : forall dev d, est_details st !! dev = Some d ->
    detail_ok (size (filter (fun k => k.1 = dev) (est_seen st))) d;
  est_same_dom : forall dev, is_Some (est_details st !! dev) <-> is_Some (est_interfaces st !! dev)
}.

Lemma add_planned_ok kind n d : detail_ok n d -> detail_ok (S n) (add_planned kind d).
Proof.
  unfold detail_ok. intros (Hp & Hs & Hm). unfold add_planned, u64_saturating_add.
  assert (0 < u64_max) as Hu by done.
  unfold INFRA_QDISC_ESTIMATED_MEMORY_BYTES, CAKE_QDISC_ESTIMATED_MEMORY_BYTES, FQ_CODEL_QDISC_ESTIMATED_MEMORY_BYTES in *.
  destruct kind; cbn [planned_qdiscs infra_qdiscs cake_qdiscs fq_codel_qdiscs estimated_memory_bytes
    qdisc_kind_estimated_memory_bytes]; rewrite Hm;
    unfold INFRA_QDISC_ESTIMATED_MEMORY_BYTES, CAKE_QDISC_ESTIMATED_MEMORY_BYTES, FQ_CODEL_QDISC_ESTIMATED_MEMORY_BYTES;
    revert Hu; generalize u64_max; intros M HM; split_and!; lia.
Qed.

Lemma seen_filter_new (seen : gset (rstring * rstring)) dev identity dev' :
  (dev, identity) ∉ seen ->
  size (filter (fun k => k.1 = dev') ({[(dev, identity)]} ∪ seen))
  = ((if decide (dev = dev') then 1 else 0) + size (filter (fun k => k.1 = dev') seen))%nat.
Proof.
  intros Hno. case_decide as Hd.
  - replace (filter (fun k => k.1 = dev') ({[(dev, identity)]} ∪ seen))
      with ({[(dev, identity)]} ∪ filter (fun k => k.1 = dev') seen) by set_solver.
    rewrite size_union by set_solver. by rewrite size_singleton.
  - by replace (filter (fun k => k.1 = dev') ({[(dev, identity)]} ∪ seen))
      with (filter (fun k => k.1 = dev') seen) by set_solver.
Qed.

Lemma estimate_argv_ok st command : estimate_ok st -> estimate_ok (estimate_argv st command).
Proof.
  intros [Hc Hd Hs]. unfold estimate_argv. destruct (planned_qdisc_identity command) as [[dev identity]|]; [|done].
  case_bool_decide as Hseen; [done|]. split; cbn [est_interfaces est_details est_seen].
  - intros dev'. rewrite seen_filter_new, lookup_insert by done. case_decide as Heq; [|apply Hc].
    subst dev'. rewrite Hc. cbn [Nat.add Nat.eqb]. by destruct (size _).
  - intros dev' d. rewrite seen_filter_new, lookup_insert by done. case_decide as Heq; [|apply Hd].
    subst dev'. intros [= <-]. apply add_planned_ok. destruct (est_details st !! dev) as [d|] eqn:Hdev; cbn [default].
    + by apply Hd.
    + destruct (size (filter _ (est_seen st))) eqn:Hsz; [done|].
      exfalso. assert (is_Some (est_details st !! dev)) as [? ?]; [|congruence].
      apply Hs. rewrite Hc, Hsz. eauto.
  - intros dev'. rewrite !lookup_insert. case_decide; [|apply Hs]. split; eauto.
Qed.

Lemma estimate_argv_seen st command :
  est_seen (estimate_argv st command) = list_to_set (option_list (planned_qdisc_identity command)) ∪ est_seen st.
Proof.
  unfold estimate_argv. destruct (planned_qdisc_identity command) as [[dev identity]|]; cbn; [|set_solver].
  case_bool_decide; cbn; set_solver.
Qed.

Lemma estimate_all commands : forall st,
  estimate_ok st ->
  estimate_ok (fold_left estimate_argv commands st)
  /\ est_seen (fold_left estimate_argv commands st)
     = list_to_set (omap planned_qdisc_identity commands) ∪ est_seen st.
Proof.
  induction commands as [|c l IH]; intros st Hst; cbn; [split; [done|set_solver]|].
  destruct (IH _ (estimate_argv_ok st c Hst)) as [H1 H2]. split; [done|]. rewrite H2, estimate_argv_seen.
  destruct (planned_qdisc_identity c); cbn; set_solver.
Qed.

Lemma estimate_start_ok : estimate_ok (mkEstimateState ∅ ∅ ∅).
Proof.
  split; cbn [est_interfaces est_details est_seen].
  - intros dev. replace (filter (fun k : rstring * rstring => k.1 = dev) ∅) with (∅ : gset (rstring * rstring)) by set_solver.
    by rewrite size_empty, lookup_empty.
  - intros dev d. by rewrite lookup_empty.
  - intros dev. rewrite !lookup_empty. done.
Qed.

(** The preflight estimate of a full reload counts each planned qdisc of the expanded command queue
    exactly once per device, splits the count into infrastructure, cake and fq_codel without loss, and
    its memory figure is the weighted sum of the three (saturated at the largest [u64]). *)
Theorem estimate_counts_each_qdisc_once config mq_created snapshot queue commands mq_created' estimate :
  expand_queue config mq_created queue = Ok (commands, mq_created') ->
  estimate_full_reload_auto_qdisc_budget config mq_created snapshot queue = Ok (estimate, mq_created') ->
  forall dev,
    default 0%nat (budget_interfaces estimate !! dev) = size (planned_on commands dev)
    /\ forall d, interface_details estimate !! dev = Some d -> detail_ok (size (planned_on commands dev)) d.
Proof.
  intros Hex. unfold estimate_full_reload_auto_qdisc_budget. rewrite estimate_loop_expand, Hex.
  intros [= <-] dev. destruct (estimate_all commands _ estimate_start_ok) as [[Hc Hd _] Hs].
  cbn [budget_interfaces interface_details]. unfold planned_on.
  cbn [est_seen] in Hs. rewrite union_empty_r_L in Hs. rewrite <- Hs, Hc. split; [|apply Hd].
  cbv zeta. by destruct (size _).
Qed.

Definition estimate_example_queue : list BakeryCommands := [MqSetup 1 0; mapped_example 4].
Definition estimate_example_config : Config :=
  mkConfig (mkQueueConfig (str "cake diffserv4") Shape 4 4 4 4 false false None false None None None None)
    (Some (mkBridgeConfig true (str "eth0") (str "eth1") None)) None None.

Lemma estimate_counts_each_qdisc_once_witness :
  exists commands estimate,
    expand_queue estimate_example_config false estimate_example_queue = Ok (commands, true)
    /\ estimate_full_reload_auto_qdisc_budget estimate_example_config false None estimate_example_queue = Ok (estimate, true)
    /\ default 0%nat (budget_interfaces estimate !! str "eth1") = size (planned_on commands (str "eth1")).
Proof.
  destruct (expand_queue estimate_example_config false estimate_example_queue) as [[commands mq]|] eqn:He;
    [|vm_compute in He; discriminate He].
  assert (mq = true) as -> by (vm_compute in He; injection He as _ <-; reflexivity).
  destruct (estimate_full_reload_auto_qdisc_budget estimate_example_config false None estimate_example_queue)
    as [[estimate mq]|] eqn:Hq; [|vm_compute in Hq; discriminate Hq].
  assert (mq = true) as -> by (vm_compute in Hq; injection Hq as _ <-; reflexivity).
  exists commands, estimate. split; [reflexivity|]. split; [reflexivity|].
  exact (proj1 (estimate_counts_each_qdisc_once _ _ _ _ _ _ _ He Hq (str "eth1"))).
Defined.

(** An estimate sets the flag [MQ_CREATED], so a second one in the same process no longer counts the root
    qdiscs: 5 planned qdiscs on the first interface become 4. *)
Lemma second_estimate_misses_roots :
  let count mq := match estimate_full_reload_auto_qdisc_budget estimate_example_config mq None estimate_example_queue with
    | Ok (e, mq') => Some (budget_interfaces e !! str "eth1", mq') | Err _ => None end in
  count false = Some (Some 5%nat, true) /\ count true = Some (Some 4%nat, true).
Proof. split; by vm_compute. Qed.
