(* ===== verification/Overrides.v ===== *)
(** * Override files ([lqos_overrides/src/overrides_file.rs])

    An override file holds persistent devices, adjustments of circuits and of the network, and exclusions.
    The operator, StormGuard and TreeGuard own one file each; shaping uses their merge.  Reading and writing
    the files (JSON, locks, atomic renames) is not modelled: a layer is its contents. *)

From S2P Require Import Prelude RustStd RustCollections RustFloat RustFormat ShapedDevice.

Inductive OverrideLayer : Type := Layer_Operator | Layer_Stormguard | Layer_Treeguard.

Inductive CircuitAdjustment : Type :=
| CircuitAdjustSpeed (circuit : rstring) (min_download max_download min_upload max_upload : option f32)
| DeviceAdjustSpeed (device : rstring) (min_download max_download min_upload max_upload : option f32)
| DeviceAdjustSqm (device : rstring) (sqm : option rstring)
| RemoveCircuit (circuit : rstring)
| RemoveDevice (device : rstring)
| ReparentCircuit (circuit : rstring) (parent : rstring).

Inductive TopologyParentOverrideMode : Type := Pinned | PreferredOrder.

#[export] Instance TopologyParentOverrideMode_eq_dec : EqDecision TopologyParentOverrideMode.
Proof. solve_decision. Defined.

Inductive NetworkAdjustment : Type :=
| AdjustSiteSpeed (node_id : option rstring) (site_name : rstring) (download_mbps upload_mbps : option f32)
| SetNodeVirtual (node_name : rstring) (virtual_node : bool)
| TopologyParentOverride (node_id node_name : rstring) (mode : TopologyParentOverrideMode)
    (parent_node_ids parent_node_names : list rstring).

Record UispRouteOverride : Type := mkRouteOverride { from_site : rstring; to_site : rstring; route_cost : Z }.
Record UispOverrides : Type := mkUispOverrides {
  bandwidth_overrides : gmap rstring (f32 * f32); route_overrides : list UispRouteOverride
}.

Record OverrideFile : Type := mkOverrideFile {
  persistent_devices : list ShapedDevice;
  circuit_adjustments : list CircuitAdjustment;
  network_adjustments : list NetworkAdjustment;
  rtt_excluded_circuits : list rstring;
  uisp : option UispOverrides
}.

Definition OverrideFile_default : OverrideFile := mkOverrideFile [] [] [] [] None.

(** ** Equality of entries, with the [==] of floats *)

Definition option_f32_eq (a b : option f32) : bool :=
  match a, b with Some x, Some y => f32_eq x y | None, None => true | _, _ => false end.

(** [==] of devices: the rates as floats, every other field exactly. *)
Definition device_eq (a b : ShapedDevice) : bool :=
  f32_eq (download_min_mbps a) (download_min_mbps b) && f32_eq (upload_min_mbps a) (upload_min_mbps b)
  && f32_eq (download_max_mbps a) (download_max_mbps b) && f32_eq (upload_max_mbps a) (upload_max_mbps b)
  && bool_decide (circuit_id a = circuit_id b) && bool_decide (circuit_name a = circuit_name b)
  && bool_decide (device_id a = device_id b) && bool_decide (device_name a = device_name b)
  && bool_decide (parent_node a = parent_node b) && bool_decide (parent_node_id a = parent_node_id b)
  && bool_decide (anchor_node_id a = anchor_node_id b) && bool_decide (mac a = mac b)
  && bool_decide (dev_ipv4 a = dev_ipv4 b) && bool_decide (dev_ipv6 a = dev_ipv6 b)
  && bool_decide (comment a = comment b) && bool_decide (sqm_override a = sqm_override b)
  && bool_decide (circuit_hash a = circuit_hash b) && bool_decide (device_hash a = device_hash b)
  && bool_decide (parent_hash a = parent_hash b).

Definition network_adjustment_eq (a b : NetworkAdjustment) : bool :=
  match a, b with
  | AdjustSiteSpeed id1 name1 down1 up1, AdjustSiteSpeed id2 name2 down2 up2 =>
      bool_decide (id1 = id2) && bool_decide (name1 = name2) && option_f32_eq down1 down2 && option_f32_eq up1 up2
  | SetNodeVirtual name1 v1, SetNodeVirtual name2 v2 => bool_decide (name1 = name2) && bool_decide (v1 = v2)
  | TopologyParentOverride id1 name1 mode1 ids1 names1, TopologyParentOverride id2 name2 mode2 ids2 names2 =>
      bool_decide (id1 = id2) && bool_decide (name1 = name2) && bool_decide (mode1 = mode2)
      && bool_decide (ids1 = ids2) && bool_decide (names1 = names2)
  | _, _ => false
  end.

(** ** Operations *)

Definition with_devices (f : OverrideFile) (l : list ShapedDevice) : OverrideFile :=
  mkOverrideFile l (circuit_adjustments f) (network_adjustments f) (rtt_excluded_circuits f) (uisp f).
Definition with_circuit_adjustments (f : OverrideFile) (l : list CircuitAdjustment) : OverrideFile :=
  mkOverrideFile (persistent_devices f) l (network_adjustments f) (rtt_excluded_circuits f) (uisp f).
Definition with_network_adjustments (f : OverrideFile) (l : list NetworkAdjustment) : OverrideFile :=
  mkOverrideFile (persistent_devices f) (circuit_adjustments f) l (rtt_excluded_circuits f) (uisp f).
Definition with_excluded (f : OverrideFile) (l : list rstring) : OverrideFile :=
  mkOverrideFile (persistent_devices f) (circuit_adjustments f) (network_adjustments f) l (uisp f).
Definition with_uisp (f : OverrideFile) (u : option UispOverrides) : OverrideFile :=
  mkOverrideFile (persistent_devices f) (circuit_adjustments f) (network_adjustments f) (rtt_excluded_circuits f) u.

(** [retain] with the number of removed entries. *)
Definition retain_count {A} (keep : A -> bool) (l : list A) : list A * nat :=
  let kept := List.filter keep l in (kept, (length l - length kept)%nat).

Definition is_circuit_rtt_excluded (f : OverrideFile) (circuit : rstring) : bool :=
  existsb (fun c => bool_decide (c = circuit)) (rtt_excluded_circuits f).

Definition set_circuit_rtt_excluded_return_changed (f : OverrideFile) (circuit : rstring) (excluded : bool)
    : OverrideFile * bool :=
  let id := trim circuit in
  if str_is_empty id then (f, false)
  else
    let others := List.filter (fun c => negb (bool_decide (trim c = id))) (rtt_excluded_circuits f) in
    let matches := (length (rtt_excluded_circuits f) - length others)%nat in
    if excluded then
      if (matches =? 1)%nat then (f, false) else (with_excluded f (others ++ [id]), true)
    else if (matches =? 0)%nat then (f, false) else (with_excluded f others, true).

Definition add_persistent_shaped_device_return_changed (f : OverrideFile) (device : ShapedDevice) : OverrideFile * bool :=
  match List.find (fun d => bool_decide (device_id d = device_id device)) (persistent_devices f) with
  | Some existing =>
      if device_eq existing device then (f, false)
      else (with_devices f (List.filter (fun d => negb (bool_decide (device_id d = device_id device)))
                              (persistent_devices f) ++ [device]), true)
  | None => (with_devices f (List.filter (fun d => negb (bool_decide (device_id d = device_id device)))
                               (persistent_devices f) ++ [device]), true)
  end.

Definition remove_persistent_shaped_device_by_circuit_count (f : OverrideFile) (circuit : rstring) : OverrideFile * nat :=
  let '(kept, n) := retain_count (fun d => negb (bool_decide (circuit_id d = circuit))) (persistent_devices f) in
  (with_devices f kept, n).
Definition remove_persistent_shaped_device_by_device_count (f : OverrideFile) (device : rstring) : OverrideFile * nat :=
  let '(kept, n) := retain_count (fun d => negb (bool_decide (device_id d = device))) (persistent_devices f) in
  (with_devices f kept, n).

Definition add_circuit_adjustment (f : OverrideFile) (adj : CircuitAdjustment) : OverrideFile :=
  with_circuit_adjustments f (circuit_adjustments f ++ [adj]).

(** The adjustment sets the SQM token of [device]. *)
Definition is_sqm_of (device : rstring) (adj : CircuitAdjustment) : bool :=
  match adj with DeviceAdjustSqm current _ => bool_decide (current = device) | _ => false end.

Definition set_device_sqm_override_return_changed (f : OverrideFile) (device : rstring) (sqm : option rstring)
    : OverrideFile * bool :=
  let normalized := sqm ≫= fun sqm => let trimmed := trim sqm in if str_is_empty trimmed then None else Some trimmed in
  if existsb (fun adj =>
       match adj with
       | DeviceAdjustSqm current existing => bool_decide (current = device) && bool_decide (existing = normalized)
       | _ => false
       end) (circuit_adjustments f)
  then (f, false)
  else (with_circuit_adjustments f (List.filter (fun adj => negb (is_sqm_of device adj)) (circuit_adjustments f)
                                    ++ [DeviceAdjustSqm device normalized]), true).

Definition remove_device_sqm_override_by_device_count (f : OverrideFile) (device : rstring) : OverrideFile * nat :=
  let '(kept, n) := retain_count (fun adj => negb (is_sqm_of device adj)) (circuit_adjustments f) in
  (with_circuit_adjustments f kept, n).

Definition remove_circuit_adjustment_by_index (f : OverrideFile) (index : nat) : OverrideFile * bool :=
  if (index <? length (circuit_adjustments f))%nat
  then (with_circuit_adjustments f (delete index (circuit_adjustments f)), true) else (f, false).

Definition add_network_adjustment (f : OverrideFile) (adj : NetworkAdjustment) : OverrideFile :=
  with_network_adjustments f (network_adjustments f ++ [adj]).

Definition speed_with_id (id : rstring) (adj : NetworkAdjustment) : bool :=
  match adj with AdjustSiteSpeed (Some current) _ _ _ => bool_decide (current = id) | _ => false end.
Definition speed_with_name_only (name : rstring) (adj : NetworkAdjustment) : bool :=
  match adj with AdjustSiteSpeed None current _ _ => bool_decide (current = name) | _ => false end.

Definition find_site_bandwidth_override (f : OverrideFile) (node_id : option rstring) (site_name : rstring)
    : option NetworkAdjustment :=
  match node_id ≫= fun id => List.find (speed_with_id id) (network_adjustments f) with
  | Some found => Some found
  | None => List.find (speed_with_name_only site_name) (network_adjustments f)
  end.

Definition site_speed_override_matches (current_node_id : option rstring) (current_site_name : rstring)
    (requested_node_id : option rstring) (requested_site_name : rstring) : bool :=
  match requested_node_id with
  | Some requested =>
      if bool_decide (current_node_id = Some requested) then true
      else match current_node_id with None => bool_decide (current_site_name = requested_site_name) | Some _ => false end
  | None => bool_decide (current_site_name = requested_site_name)
  end.

(** The adjustments that are no override of the speed of this site. *)
Definition keep_other_speeds (node_id : option rstring) (site_name : rstring) (adj : NetworkAdjustment) : bool :=
  match adj with
  | AdjustSiteSpeed current_id current_name _ _ =>
      negb (site_speed_override_matches current_id current_name node_id site_name)
  | _ => true
  end.

Definition set_site_bandwidth_override (f : OverrideFile) (node_id : option rstring) (site_name : rstring)
    (download upload : option f32) : OverrideFile * bool :=
  let desired := AdjustSiteSpeed node_id site_name download upload in
  if match find_site_bandwidth_override f node_id site_name with
     | Some found => network_adjustment_eq found desired
     | None => false
     end
  then (f, false)
  else (with_network_adjustments f (List.filter (keep_other_speeds node_id site_name) (network_adjustments f) ++ [desired]),
        true).

Definition remove_site_bandwidth_override_count (f : OverrideFile) (node_id : option rstring) (site_name : rstring)
    : OverrideFile * nat :=
  let '(kept, n) := retain_count (keep_other_speeds node_id site_name) (network_adjustments f) in
  (with_network_adjustments f kept, n).

Definition is_virtual_of (name : rstring) (adj : NetworkAdjustment) : bool :=
  match adj with SetNodeVirtual n _ => bool_decide (n = name) | _ => false end.

Definition set_network_node_virtual (f : OverrideFile) (node_name : rstring) (virtual_node : bool) : OverrideFile :=
  with_network_adjustments f (List.filter (fun adj => negb (is_virtual_of node_name adj)) (network_adjustments f)
                              ++ [SetNodeVirtual node_name virtual_node]).

Definition remove_network_node_virtual_by_name_count (f : OverrideFile) (node_name : rstring) : OverrideFile * nat :=
  let '(kept, n) := retain_count (fun adj => negb (is_virtual_of node_name adj)) (network_adjustments f) in
  (with_network_adjustments f kept, n).

Definition virtual_name (adj : NetworkAdjustment) : option rstring :=
  match adj with SetNodeVirtual n _ => Some n | _ => None end.

Definition remove_network_node_virtual_by_names (f : OverrideFile) (node_names : list rstring)
    : OverrideFile * list rstring :=
  let requested adj := match virtual_name adj with Some n => bool_decide (n ∈ node_names) | None => false end in
  let removed : gset rstring := list_to_set (omap virtual_name (List.filter requested (network_adjustments f))) in
  (with_network_adjustments f (List.filter (fun adj => negb (requested adj)) (network_adjustments f)),
   btree_set_iter removed).

Definition is_parent_of (id : rstring) (adj : NetworkAdjustment) : bool :=
  match adj with TopologyParentOverride current _ _ _ _ => bool_decide (current = id) | _ => false end.

Definition find_topology_parent_override (f : OverrideFile) (node_id : rstring) : option NetworkAdjustment :=
  List.find (is_parent_of node_id) (network_adjustments f).

(** The loop over the wanted parents: trimmed, without empty and repeated identifiers. *)
Fixpoint normalize_parents (seen : gset rstring) (parents : list (rstring * rstring)) : list (rstring * rstring) :=
  match parents with
  | [] => []
  | (id, name) :: rest =>
      let id := trim id in
      if str_is_empty id || bool_decide (id ∈ seen) then normalize_parents seen rest
      else (id, trim name) :: normalize_parents ({[id]} ∪ seen) rest
  end.

Definition set_topology_parent_override_return_changed (f : OverrideFile) (node_id node_name : rstring)
    (mode : TopologyParentOverrideMode) (parent_nodes : list (rstring * rstring)) : OverrideFile * bool :=
  let id := trim node_id in
  let parents := normalize_parents ∅ parent_nodes in
  let desired := TopologyParentOverride id (trim node_name) mode (map fst parents) (map snd parents) in
  if match find_topology_parent_override f id with Some found => network_adjustment_eq found desired | None => false end
  then (f, false)
  else (with_network_adjustments f (List.filter (fun adj => negb (is_parent_of id adj)) (network_adjustments f)
                                    ++ [desired]), true).

Definition remove_topology_parent_override_by_node_id_count (f : OverrideFile) (node_id : rstring) : OverrideFile * nat :=
  let '(kept, n) := retain_count (fun adj => negb (is_parent_of node_id adj)) (network_adjustments f) in
  (with_network_adjustments f kept, n).

Definition remove_network_adjustment_by_index (f : OverrideFile) (index : nat) : OverrideFile * bool :=
  if (index <? length (network_adjustments f))%nat
  then (with_network_adjustments f (delete index (network_adjustments f)), true) else (f, false).

(** *** UISP *)

Definition ensure_uisp (f : OverrideFile) : UispOverrides := default (mkUispOverrides ∅ []) (uisp f).

Definition set_uisp_bandwidth_override (f : OverrideFile) (site_name : rstring) (down up : f32) : OverrideFile :=
  let u := ensure_uisp f in
  with_uisp f (Some (mkUispOverrides (<[site_name := (down, up)]> (bandwidth_overrides u)) (route_overrides u))).
Definition remove_uisp_bandwidth_override (f : OverrideFile) (site_name : rstring) : OverrideFile * bool :=
  let u := ensure_uisp f in
  (with_uisp f (Some (mkUispOverrides (delete site_name (bandwidth_overrides u)) (route_overrides u))),
   bool_decide (is_Some (bandwidth_overrides u !! site_name))).
Definition add_uisp_route_override (f : OverrideFile) (from to : rstring) (cost : Z) : OverrideFile :=
  let u := ensure_uisp f in
  with_uisp f (Some (mkUispOverrides (bandwidth_overrides u) (route_overrides u ++ [mkRouteOverride from to cost]))).
Definition remove_uisp_route_by_index (f : OverrideFile) (index : nat) : OverrideFile * bool :=
  let u := ensure_uisp f in
  if (index <? length (route_overrides u))%nat
  then (with_uisp f (Some (mkUispOverrides (bandwidth_overrides u) (delete index (route_overrides u)))), true)
  else (with_uisp f (Some u), false).

(** ** Merging the layers *)

Definition persistent_device_carries_sqm (device : ShapedDevice) : bool :=
  match sqm_override device with Some sqm => negb (str_is_empty (trim sqm)) | None => false end.

(** The entries of all layers in order: each key where it is first met, with its last value. *)
Fixpoint emit_first_seen {K A} `{Countable K} (key : A -> K) (by_key : gmap K A) (seen : gset K) (l : list A) : list A :=
  match l with
  | [] => []
  | a :: l' =>
      if bool_decide (key a ∈ seen) then emit_first_seen key by_key seen l'
      else
        match by_key !! key a with
        | Some merged => merged :: emit_first_seen key by_key ({[key a]} ∪ seen) l'
        | None => emit_first_seen key by_key seen l'
        end
  end.
Definition last_by_key {K A} `{Countable K} (key : A -> K) (l : list A) : gmap K A :=
  foldl (fun m a => <[key a := a]> m) ∅ l.
Definition merge_layers {K A} `{Countable K} (key : A -> K) (l : list A) : list A :=
  emit_first_seen key (last_by_key key l) ∅ l.

Definition merge_persistent_devices_by_id (operator_devices stormguard_devices treeguard_devices : list ShapedDevice)
    : list ShapedDevice :=
  let without_sqm := List.filter (fun d => negb (persistent_device_carries_sqm d)) in
  merge_layers device_id (operator_devices ++ without_sqm stormguard_devices ++ without_sqm treeguard_devices).

Definition legacy_sqm_adjustments_from_devices (devices : list ShapedDevice) : list CircuitAdjustment :=
  omap (fun device =>
    sqm ← sqm_override device;
    let sqm := trim sqm in
    if str_is_empty sqm then None else Some (DeviceAdjustSqm (device_id device) (Some sqm))) devices.

Definition circuit_adjustment_merge_key (adj : CircuitAdjustment) : rstring * rstring :=
  match adj with
  | CircuitAdjustSpeed circuit _ _ _ _ => (str "circuit_speed", circuit)
  | DeviceAdjustSpeed device _ _ _ _ => (str "device_speed", device)
  | DeviceAdjustSqm device _ => (str "device_sqm", device)
  | RemoveCircuit circuit => (str "remove_circuit", circuit)
  | RemoveDevice device => (str "remove_device", device)
  | ReparentCircuit circuit _ => (str "reparent_circuit", circuit)
  end.

Definition merge_circuit_adjustments_owned
    (operator_adjustments stormguard_adjustments treeguard_adjustments : list CircuitAdjustment)
    (stormguard_devices treeguard_devices : list ShapedDevice) : list CircuitAdjustment :=
  merge_layers circuit_adjustment_merge_key
    (operator_adjustments
     ++ (stormguard_adjustments ++ legacy_sqm_adjustments_from_devices stormguard_devices)
     ++ (treeguard_adjustments ++ legacy_sqm_adjustments_from_devices treeguard_devices)).

Definition site_speed_key (node_id : option rstring) (site_name : rstring) : rstring :=
  match node_id with
  | Some id => if negb (str_is_empty (trim id)) then str "id:" ++ id else str "name:" ++ site_name
  | None => str "name:" ++ site_name
  end.

(** The key under which the operator's entries are kept once: the kind and the name. *)
Definition operator_network_key (adj : NetworkAdjustment) : rstring * rstring :=
  match adj with
  | SetNodeVirtual name _ => (str "virtual", name)
  | AdjustSiteSpeed id name _ _ => (str "speed", site_speed_key id name)
  | TopologyParentOverride id _ _ _ _ => (str "topology", id)
  end.

(** The first entry of each key. *)
Fixpoint keep_first {K A} `{Countable K} (key : A -> K) (seen : gset K) (l : list A) : list A :=
  match l with
  | [] => []
  | a :: l' =>
      if bool_decide (key a ∈ seen) then keep_first key seen l' else a :: keep_first key ({[key a]} ∪ seen) l'
  end.

Definition is_site_speed (adj : NetworkAdjustment) : bool := match adj with AdjustSiteSpeed _ _ _ _ => true | _ => false end.
Definition speed_key (adj : NetworkAdjustment) : rstring :=
  match adj with AdjustSiteSpeed id name _ _ => site_speed_key id name | _ => [] end.
Definition speed_site (adj : NetworkAdjustment) : rstring :=
  match adj with AdjustSiteSpeed _ name _ _ => name | _ => [] end.

(** The operator's entries once per key, then StormGuard's site speeds for sites the operator does not set. *)
Definition merge_network_adjustments_owned
    (operator_adjustments stormguard_adjustments treeguard_adjustments : list NetworkAdjustment)
    : list NetworkAdjustment :=
  let operator := keep_first operator_network_key ∅ operator_adjustments in
  let speeds := List.filter is_site_speed operator in
  let stormguard := merge_layers speed_key (List.filter is_site_speed stormguard_adjustments) in
  operator ++ List.filter (fun adj =>
    negb (bool_decide (speed_key adj ∈ map speed_key speeds)) && negb (bool_decide (speed_site adj ∈ map speed_site speeds)))
    stormguard.

Definition merge_owned_sections (operator stormguard treeguard : OverrideFile) : OverrideFile :=
  mkOverrideFile
    (merge_persistent_devices_by_id (persistent_devices operator) (persistent_devices stormguard)
       (persistent_devices treeguard))
    (merge_circuit_adjustments_owned (circuit_adjustments operator) (circuit_adjustments stormguard)
       (circuit_adjustments treeguard) (persistent_devices stormguard) (persistent_devices treeguard))
    (merge_network_adjustments_owned (network_adjustments operator) (network_adjustments stormguard)
       (network_adjustments treeguard))
    (rtt_excluded_circuits operator) (uisp operator).

(** [load_effective_for_config_inner] on the contents of the files; an absent file is [None]. *)
Definition load_effective (apply_stormguard apply_treeguard : bool) (operator : OverrideFile)
    (stormguard treeguard : option OverrideFile) : OverrideFile :=
  if negb apply_stormguard && negb apply_treeguard then operator
  else merge_owned_sections operator
    (if apply_stormguard then default OverrideFile_default stormguard else OverrideFile_default)
    (if apply_treeguard then default OverrideFile_default treeguard else OverrideFile_default).
