(* ===== verification/OverridesSpec.v ===== *)
(** * Theorems about override files *)

From S2P Require Import Prelude RustStd RustCollections RustFloat RustFormat ShapedDevice Overrides.

(** ** Merging by key *)

Section Merge.
  Context {K A : Type} `{Countable K} (key : A -> K).

(** The last entry of its key. *)
Definition last_of_key (l : list A) (a : A) : Prop :=
  exists l1 l2, l = l1 ++ a :: l2 /\ (key a ∉ map key l2).

Lemma last_by_key_is_Some l a : a ∈ l -> is_Some (last_by_key key l !! key a).
Proof.
  unfold last_by_key. induction l as [|b l IH] using rev_ind; [by intros ?%not_elem_of_nil|].
  rewrite foldl_snoc, lookup_insert_is_Some', elem_of_app, list_elem_of_singleton.
  intros [Ha| ->]; [right; by apply IH|by left].
Qed.

Lemma last_by_key_spec l k a : last_by_key key l !! k = Some a <-> key a = k /\ last_of_key l a.
Proof.
  unfold last_by_key. induction l as [|b l IH] using rev_ind.
  - cbn. rewrite lookup_empty. split; [done|]. intros (_ & l1 & l2 & Hl & _). by destruct l1.
  - rewrite foldl_snoc. destruct (decide (k = key b)) as [->|Hne].
    + rewrite lookup_insert_eq. split.
      * intros [= ->]. split; [done|]. exists l, []. split; [done|]. apply not_elem_of_nil.
      * intros (Hk & l1 & l2 & Hl & Hno). destruct l2 as [|c l2 _] using rev_ind.
        { by apply app_inj_tail in Hl as [_ ->]. }
        exfalso. rewrite app_comm_cons, app_assoc in Hl. apply app_inj_tail in Hl as [_ <-].
        apply Hno. rewrite map_app, elem_of_app. right. rewrite Hk. left.
    + rewrite lookup_insert_ne by done. rewrite IH. split; intros (Hk & l1 & l2 & Hl & Hno); (split; [done|]).
      * exists l1, (l2 ++ [b]). subst l. split; [by rewrite <- app_assoc|].
        rewrite map_app, elem_of_app. intros [?|Hb]; [done|]. cbn in Hb. apply list_elem_of_singleton in Hb. congruence.
      * destruct l2 as [|c l2 _] using rev_ind; [apply app_inj_tail in Hl as [_ ->]; congruence|].
        rewrite app_comm_cons, app_assoc in Hl. apply app_inj_tail in Hl as [-> _]. exists l1, l2. split; [done|].
        intros Hin. apply Hno. rewrite map_app, elem_of_app. by left.
Qed.

Lemma emit_first_seen_spec by_key l : forall seen,
  (forall a, a ∈ l -> exists b, by_key !! key a = Some b /\ key b = key a) ->
  (forall b, b ∈ emit_first_seen key by_key seen l <->
     key b ∈ map key l /\ (key b ∉ seen) /\ by_key !! key b = Some b)
  /\ NoDup (map key (emit_first_seen key by_key seen l)).
Proof.
  induction l as [|a l IH]; intros seen Hby; cbn [emit_first_seen map].
  { split; [|constructor]. intros b. rewrite elem_of_nil. split; [done|]. by intros [?%not_elem_of_nil _]. }
  assert (forall a, a ∈ l -> exists b, by_key !! key a = Some b /\ key b = key a) as Hby'
    by (intros; apply Hby; by right).
  case_bool_decide as Hs.
  - destruct (IH seen Hby') as [Hin Hnd]. split; [|done]. intros b. rewrite Hin, elem_of_cons.
    split; [naive_solver|]. intros ([Heq|?] & Hno & ?); [|done]. by rewrite Heq in Hno.
  - destruct (Hby a) as (m & Hm & Hkm); [left|]. rewrite Hm. cbn [map].
    destruct (IH ({[key a]} ∪ seen) Hby') as [Hin Hnd]. split.
    + intros b. rewrite elem_of_cons, Hin, elem_of_cons, not_elem_of_union, not_elem_of_singleton. split.
      * intros [->|(? & [? ?] & ?)]; [|naive_solver]. rewrite Hkm. split_and!; [by left|done|done].
      * intros (Hk & Hno & Hb). destruct (decide (key b = key a)) as [Heq|Hne]; [|naive_solver].
        left. rewrite Heq, Hm in Hb. by injection Hb.
    + apply NoDup_cons. split; [|done]. intros Hk. apply list_elem_of_In, in_map_iff in Hk as (b & Hkb & Hb%list_elem_of_In).
      apply Hin in Hb as (_ & Hno & _). apply Hno. rewrite Hkb, Hkm. by apply elem_of_union_l, elem_of_singleton.
Qed.

(** A merge has, for every key, its last entry and no other. *)
Lemma merge_layers_spec l :
  NoDup (map key (merge_layers key l)) /\ (forall a, a ∈ merge_layers key l <-> last_of_key l a).
Proof.
  unfold merge_layers. destruct (emit_first_seen_spec (last_by_key key l) l ∅) as [Hin Hnd].
  { intros a Ha. destruct (last_by_key_is_Some l a Ha) as [b Hb]. exists b. split; [done|]. by apply last_by_key_spec in Hb as [? _]. }
  split; [done|]. intros a. rewrite Hin, last_by_key_spec. split; [by intros (_ & _ & _ & ?)|].
  intros Ha. split_and!; [|apply not_elem_of_empty|done|done]. destruct Ha as (l1 & l2 & -> & _).
  rewrite map_app, elem_of_app. right. left.
Qed.

Lemma keep_first_spec l : forall seen,
  NoDup (map key (keep_first key seen l))
  /\ (forall a, a ∈ keep_first key seen l -> a ∈ l /\ (key a ∉ seen))
  /\ (forall k, k ∈ map key l -> (k ∉ seen) -> k ∈ map key (keep_first key seen l)).
Proof.
  induction l as [|a l IH]; intros seen; cbn [keep_first map].
  { split_and!; [constructor|by intros a ?%not_elem_of_nil|done]. }
  case_bool_decide as Hs.
  - destruct (IH seen) as (H1 & H2 & H3). split_and!; [done| |].
    + intros b Hb%H2. rewrite elem_of_cons. naive_solver.
    + intros k. rewrite elem_of_cons. intros [->|Hk] Hno; [done|]. by apply H3.
  - destruct (IH ({[key a]} ∪ seen)) as (H1 & H2 & H3). cbn [map]. split_and!.
    + apply NoDup_cons. split; [|done]. intros Hk. apply list_elem_of_In, in_map_iff in Hk as (b & Hkb & Hb%list_elem_of_In).
      apply H2 in Hb as [_ Hno]. apply Hno. rewrite Hkb. by apply elem_of_union_l, elem_of_singleton.
    + intros b. rewrite elem_of_cons. intros [->|Hb%H2]; [by split; [left|]|].
      rewrite elem_of_cons. destruct Hb as [? Hno]. rewrite not_elem_of_union in Hno. naive_solver.
    + intros k. rewrite !elem_of_cons. intros [->|Hk] Hno; [by left|].
      destruct (decide (k = key a)) as [->|Hne]; [by left|]. right. apply H3; [done|].
      rewrite not_elem_of_union, not_elem_of_singleton. done.
Qed.

End Merge.

(** ** The effective overrides *)

(** The circuit adjustments of all layers, lowest precedence first. *)
Definition layered_circuit_adjustments (operator stormguard treeguard : OverrideFile) : list CircuitAdjustment :=
  circuit_adjustments operator
  ++ (circuit_adjustments stormguard ++ legacy_sqm_adjustments_from_devices (persistent_devices stormguard))
  ++ (circuit_adjustments treeguard ++ legacy_sqm_adjustments_from_devices (persistent_devices treeguard)).

Lemma speed_operator_key adj adj' :
  is_site_speed adj = true -> operator_network_key adj' = operator_network_key adj ->
  is_site_speed adj' = true /\ speed_key adj' = speed_key adj.
Proof. destruct adj, adj'; cbn; intros Hs Heq; try done; injection Heq as Heq; by split. Qed.

Lemma merged_network_members operator_adj stormguard_adj treeguard_adj adj :
  adj ∈ merge_network_adjustments_owned operator_adj stormguard_adj treeguard_adj ->
  adj ∈ operator_adj
  \/ (adj ∈ stormguard_adj /\ is_site_speed adj = true
      /\ forall op, op ∈ keep_first operator_network_key ∅ operator_adj -> is_site_speed op = true ->
         speed_key op <> speed_key adj /\ speed_site op <> speed_site adj).
Proof.
  unfold merge_network_adjustments_owned. rewrite elem_of_app. intros [Hop|Hsg].
  - left. by apply (keep_first_spec operator_network_key operator_adj ∅) in Hop as [? _].
  - right. apply list_elem_of_In, filter_In in Hsg as [Hsg%list_elem_of_In Hno].
    apply (merge_layers_spec speed_key) in Hsg as (l1 & l2 & Hl & _).
    assert (adj ∈ List.filter is_site_speed stormguard_adj) as Hin by (rewrite Hl, elem_of_app; right; left).
    apply list_elem_of_In, filter_In in Hin as [Hin%list_elem_of_In Hs]. split_and!; [done..|].
    intros op Hop Hsop. apply andb_true_iff in Hno as [Hk Hn]. rewrite negb_true_iff in Hk, Hn.
    rewrite bool_decide_eq_false in Hk, Hn.
    assert (op ∈ List.filter is_site_speed (keep_first operator_network_key ∅ operator_adj)) as Hopf
      by (apply list_elem_of_In, filter_In; by rewrite <- list_elem_of_In).
    split; intros Heq; [apply Hk|apply Hn]; rewrite <- Heq; by apply list_elem_of_In, in_map, list_elem_of_In.
Qed.

(** C35: The overrides that shaping uses are exactly determined by the three layers.  For each kind of
    adjustment and target there is exactly one circuit adjustment, the last one in the order operator,
    StormGuard, TreeGuard (with the SQM tokens of their persistent devices last in each layer); persistent
    devices are unique; and a network adjustment is either the operator's or a site speed of StormGuard's
    whose key no speed of the operator's has, so the operator has the last word on the network, and every
    adjustment of the operator is represented. *)
Theorem effective_overrides_exact operator stormguard treeguard :
  let effective := merge_owned_sections operator stormguard treeguard in
  NoDup (map circuit_adjustment_merge_key (circuit_adjustments effective))
  /\ (forall adj, adj ∈ circuit_adjustments effective
      <-> last_of_key circuit_adjustment_merge_key (layered_circuit_adjustments operator stormguard treeguard) adj)
  /\ NoDup (map device_id (persistent_devices effective))
  /\ (forall adj, adj ∈ network_adjustments effective ->
      adj ∈ network_adjustments operator
      \/ adj ∈ network_adjustments stormguard /\ is_site_speed adj = true
         /\ forall op, op ∈ network_adjustments operator -> is_site_speed op = true -> speed_key op <> speed_key adj)
  /\ (forall adj, adj ∈ network_adjustments operator ->
      operator_network_key adj ∈ map operator_network_key (network_adjustments effective)).
Proof.
  cbv zeta. split_and!.
  - apply merge_layers_spec.
  - apply merge_layers_spec.
  - apply merge_layers_spec.
  - intros adj Hadj. destruct (merged_network_members (network_adjustments operator) (network_adjustments stormguard)
      (network_adjustments treeguard) adj Hadj) as [Hop|(Hsg & Hs & Hno)]; [by left|].
    right. split; [done|]. split; [done|].
    intros op Hop Hsop Heq.
    assert (operator_network_key op ∈ map operator_network_key (keep_first operator_network_key ∅ (network_adjustments operator))) as Hk.
    { apply keep_first_spec; [by apply list_elem_of_In, in_map, list_elem_of_In|set_solver]. }
    apply list_elem_of_In, in_map_iff in Hk as (op' & Hk & Hop'%list_elem_of_In).
    destruct (speed_operator_key op op' Hsop Hk) as [Hs' Hkey]. destruct (Hno op' Hop' Hs') as [Hne _]. congruence.
  - intros adj Hadj. cbn [network_adjustments merge_owned_sections]. unfold merge_network_adjustments_owned.
    rewrite map_app, elem_of_app. left. apply keep_first_spec; [by apply list_elem_of_In, in_map, list_elem_of_In|set_solver].
Qed.

(** ** Setting and finding *)

Lemma keep_other_speeds_not_id id name adj : keep_other_speeds (Some id) name adj = true -> speed_with_id id adj = false.
Proof.
  destruct adj as [[current|] site d u| |]; cbn; try done. unfold site_speed_override_matches.
  repeat case_bool_decide; naive_solver.
Qed.
Lemma keep_other_speeds_not_name id name adj :
  keep_other_speeds id name adj = true -> speed_with_name_only name adj = false.
Proof.
  destruct adj as [[current|] site d u| |], id as [id|]; cbn; try done; unfold site_speed_override_matches;
    repeat case_bool_decide; naive_solver.
Qed.

Lemma find_none_filter {A} (p q : A -> bool) (l : list A) :
  (forall a, q a = true -> p a = false) -> List.find p (List.filter q l) = None.
Proof.
  intros Hpq. induction l as [|a l IH]; [done|]. cbn. destruct (q a) eqn:Hq; [|done]. cbn. by rewrite (Hpq a Hq).
Qed.

Lemma find_app_none {A} (p : A -> bool) (l l' : list A) : List.find p l = None -> List.find p (l ++ l') = List.find p l'.
Proof. induction l as [|a l IH]; [done|]. cbn. destruct (p a); [done|exact IH]. Qed.

(** Setting the speed override of a site is idempotent and leaves everything else: either the override
    that would be found already has these values and the file does not change, or afterwards exactly the
    new override is found for the site, it is the only one that matches the site, and all entries that
    do not match it are kept in their order. *)
Theorem site_override_set_then_found f node_id site_name download upload f' changed :
  set_site_bandwidth_override f node_id site_name download upload = (f', changed) ->
  (changed = false -> f' = f /\ exists found, find_site_bandwidth_override f node_id site_name = Some found
     /\ network_adjustment_eq found (AdjustSiteSpeed node_id site_name download upload) = true)
  /\ (changed = true ->
      find_site_bandwidth_override f' node_id site_name = Some (AdjustSiteSpeed node_id site_name download upload)
      /\ List.filter (keep_other_speeds node_id site_name) (network_adjustments f')
         = List.filter (keep_other_speeds node_id site_name) (network_adjustments f)
      /\ length (List.filter (fun adj => negb (keep_other_speeds node_id site_name adj)) (network_adjustments f')) = 1%nat).
Proof.
  unfold set_site_bandwidth_override.
  assert (keep_other_speeds node_id site_name (AdjustSiteSpeed node_id site_name download upload) = false) as Hdesired.
  { cbn. unfold site_speed_override_matches. destruct node_id; rewrite bool_decide_true by done; done. }
  destruct (match find_site_bandwidth_override f node_id site_name with Some _ => _ | None => _ end) eqn:Hf.
  { intros [= <- <-]. split; [|done]. intros _. split; [done|].
    destruct (find_site_bandwidth_override f node_id site_name) as [found|]; [|done]. by exists found. }
  intros [= <- <-]. split; [done|]. intros _. cbn [network_adjustments with_network_adjustments].
  set (kept := List.filter (keep_other_speeds node_id site_name) (network_adjustments f)). split_and!.
  - unfold find_site_bandwidth_override. cbn [network_adjustments with_network_adjustments].
    destruct node_id as [id|]; cbn [mbind option_bind].
    + rewrite find_app_none by (apply find_none_filter; intros; by eapply keep_other_speeds_not_id).
      cbn. by rewrite bool_decide_true.
    + rewrite find_app_none by (apply find_none_filter; intros; by eapply keep_other_speeds_not_name).
      cbn. by rewrite bool_decide_true.
  - rewrite List.filter_app. cbn [List.filter]. rewrite Hdesired, app_nil_r. unfold kept.
    apply List.forallb_filter_id. apply forallb_forall. by intros a [_ Ha]%filter_In.
  - rewrite List.filter_app. cbn [List.filter]. rewrite Hdesired. cbn [negb]. rewrite length_app.
    assert (List.filter (fun adj => negb (keep_other_speeds node_id site_name adj)) kept = []) as ->; [|done].
    unfold kept. induction (network_adjustments f) as [|a l IH]; [done|]. cbn.
    destruct (keep_other_speeds node_id site_name a) eqn:Ha; [|done]. cbn. by rewrite Ha.
Qed.

Definition tower_example : OverrideFile :=
  mkOverrideFile [] [] [AdjustSiteSpeed None (str "Tower") (Some (f32_of_Z 10)) None; SetNodeVirtual (str "Tower") true]
    [] None.
Definition tower_example' : OverrideFile :=
  mkOverrideFile [] [] [SetNodeVirtual (str "Tower") true; AdjustSiteSpeed None (str "Tower") (Some (f32_of_Z 20)) None]
    [] None.

Lemma site_override_set_then_found_witness :
  set_site_bandwidth_override tower_example None (str "Tower") (Some (f32_of_Z 20)) None = (tower_example', true)
  /\ find_site_bandwidth_override tower_example' None (str "Tower")
     = Some (AdjustSiteSpeed None (str "Tower") (Some (f32_of_Z 20)) None).
Proof.
  assert (set_site_bandwidth_override tower_example None (str "Tower") (Some (f32_of_Z 20)) None
          = (tower_example', true)) as Hset by (by vm_compute).
  split; [exact Hset|].
  exact (proj1 (proj2 (site_override_set_then_found tower_example None (str "Tower") (Some (f32_of_Z 20)) None
    tower_example' true Hset) eq_refl)).
Defined.

(** ** Circuits excluded from round-trip times *)

(** With trimmed entries, a circuit reads as it was set. *)
Lemma excluded_set_then_read f circuit excluded :
  Forall (fun c => trim c = c) (rtt_excluded_circuits f) -> trim circuit <> [] ->
  is_circuit_rtt_excluded (set_circuit_rtt_excluded_return_changed f circuit excluded).1 (trim circuit) = excluded.
Proof.
  intros Htrim Hne. unfold set_circuit_rtt_excluded_return_changed.
  destruct (str_is_empty (trim circuit)) eqn:He; [by destruct (trim circuit)|].
  set (id := trim circuit). set (others := List.filter _ _).
  assert (existsb (fun c => bool_decide (c = id)) others = false) as Hothers.
  { apply not_true_is_false. intros (c & Hc & Heq)%existsb_exists. apply bool_decide_eq_true in Heq as ->.
    apply filter_In in Hc as [Hin Hno]. rewrite negb_true_iff, bool_decide_eq_false in Hno. apply Hno.
    rewrite Forall_forall in Htrim. by apply Htrim, list_elem_of_In. }
  assert (existsb (fun c => bool_decide (c = id)) (rtt_excluded_circuits f)
          = negb (length (rtt_excluded_circuits f) - length others =? 0)%nat) as Hread.
  { clear Hothers. unfold others. induction Htrim as [|c l Hc _ IH]; [done|]. cbn [existsb List.filter].
    pose proof (List.filter_length_le (fun c => negb (bool_decide (trim c = id))) l). rewrite Hc.
    destruct (bool_decide (c = id)) eqn:Hcid; cbn [negb orb].
    - symmetry. apply negb_true_iff, Nat.eqb_neq. cbn [length]. lia.
    - rewrite IH. done. }
  unfold is_circuit_rtt_excluded. destruct excluded.
  - destruct (Nat.eqb_spec (length (rtt_excluded_circuits f) - length others) 1) as [H1|H1]; cbn [fst rtt_excluded_circuits with_excluded].
    + by rewrite Hread, H1.
    + rewrite existsb_app. cbn. rewrite bool_decide_true by done. by rewrite orb_true_r.
  - destruct (Nat.eqb_spec (length (rtt_excluded_circuits f) - length others) 0) as [H0|H0]; cbn [fst rtt_excluded_circuits with_excluded].
    + by rewrite Hread.
    + done.
Qed.

(** An entry with a trailing space blocks the exclusion of its circuit: it counts as present when the
    exclusion is set, and not when it is read. *)
Lemma padded_entry_blocks_exclusion :
  let f := mkOverrideFile [] [] [] [str "C1 "] None in
  set_circuit_rtt_excluded_return_changed f (str "C1") true = (f, false)
  /\ is_circuit_rtt_excluded f (str "C1") = false.
Proof. by vm_compute. Qed.
