(* ===== verification/StormguardSite.v ===== *)
(** * State of a watched site ([lqos_stormguard/src/site_state/*.rs])

    StormGuard measures the throughput, the retransmits and the round-trip time of each watched site and
    raises or lowers its rate in each direction.  Fields that the code has once per direction are grouped
    in a record [Lane].  An [Instant] is a number of nanoseconds; the time of a step is an argument. *)

From S2P Require Import Prelude RustStd RustCollections RustFloat RustFormat TcHandle StormguardConfig.
From Stdlib Require Import SpecFloat.

(** ** Configuration of a run ([config.rs]) *)

Record WatchingSiteDependency : Type := mkDependency {
  dep_name : rstring;
  dep_class_id : TcHandle;
  original_min_download_mbps : Z;
  original_min_upload_mbps : Z;
  original_max_download_mbps : Z;
  original_max_upload_mbps : Z
}.

Record WatchingSite : Type := mkWatchingSite {
  watch_name : rstring;
  max_download_mbps : Z;
  max_upload_mbps : Z;
  min_download_mbps : Z;
  min_upload_mbps : Z;
  dependent_nodes : list WatchingSiteDependency;
  current_download_mbps : Z;
  current_upload_mbps : Z
}.

(** [StormguardConfig] of this crate. *)
Record SgRunConfig : Type := mkSgRunConfig {
  sg_sites : gmap rstring WatchingSite;
  sg_download_interface : rstring;
  sg_upload_interface : rstring;
  sg_dry_run : bool;
  sg_strategy : StormguardStrategy;
  sg_increase_fast_multiplier : f64;
  sg_increase_multiplier : f64;
  sg_decrease_multiplier : f64;
  sg_decrease_fast_multiplier : f64;
  sg_increase_fast_cooldown_seconds : f32;
  sg_increase_cooldown_seconds : f32;
  sg_decrease_cooldown_seconds : f32;
  sg_decrease_fast_cooldown_seconds : f32;
  sg_circuit_fallback_enabled : bool;
  sg_circuit_fallback_persist : bool;
  sg_circuit_fallback_sqm : rstring;
  sg_delay_threshold_ms : f32;
  sg_delay_threshold_ratio : f32;
  sg_baseline_alpha_up : f32;
  sg_baseline_alpha_down : f32;
  sg_probe_interval_seconds : f32;
  sg_min_throughput_mbps_for_rtt : f32;
  sg_active_ping_interval_seconds : f32;
  sg_active_ping_weight : f32
}.

(** ** Ring buffers ([ring_buffer.rs]) *)

Record RingBuffer : Type := mkRing { ring_data : list (option f64); ring_index : nat }.

Definition ring_new (size : nat) : RingBuffer := mkRing (replicate size None) 0.

(** [add]; an empty buffer would panic, and none is ever made. *)
Definition ring_add (r : RingBuffer) (item : f64) : RingBuffer :=
  mkRing (<[ring_index r := Some item]> (ring_data r)) ((ring_index r + 1) mod length (ring_data r)).

Definition ring_count (r : RingBuffer) : nat := length (List.filter (fun x => match x with Some _ => true | None => false end) (ring_data r)).

(** The sum of an iterator of [f64] starts at minus zero. *)
Definition f64_sum (l : list f64) : f64 := fold_left f64_add l (S754_zero true).

Definition ring_average (r : RingBuffer) : option f64 :=
  let count := ring_count r in
  if (count =? 0)%nat then None
  else
    let sum := f64_sum (omap id (ring_data r)) in
    let count := f64_of_Z (Z.of_nat count) in
    if f64_lt f64_zero count then Some (f64_div sum count) else None.

(** ** Analysis ([analysis.rs]) *)

Inductive SaturationLevel : Type := Sat_Low | Sat_Medium | Sat_High.
Inductive RetransmitState : Type := RisingFast | Rising | Stable | Falling | FallingFast.
Inductive RttState : Type := Rtt_Rising (magnitude : f32) | Rtt_Flat | Rtt_Falling (magnitude : f32).

Definition saturation_text (s : SaturationLevel) : rstring :=
  match s with Sat_Low => str "Low" | Sat_Medium => str "Medium" | Sat_High => str "High" end.
Definition retransmit_text (s : RetransmitState) : rstring :=
  match s with
  | RisingFast => str "RisingFast" | Rising => str "Rising" | Stable => str "Stable"
  | Falling => str "Falling" | FallingFast => str "FallingFast"
  end.
Definition rtt_state_text (s : RttState) : rstring :=
  match s with
  | Rtt_Rising magnitude => str "Rising (" ++ format_fixed 2 (f64_of_f32 magnitude) ++ str ")"
  | Rtt_Flat => str "Flat"
  | Rtt_Falling magnitude => str "Falling (" ++ format_fixed 2 (f64_of_f32 magnitude) ++ str ")"
  end.

Definition from_throughput (value max : f64) : SaturationLevel :=
  if f64_lt value (f64_mul max (f64_ratio 1 2)) then Sat_Low
  else if f64_lt value (f64_mul max (f64_ratio 85 100)) then Sat_Medium
  else Sat_High.

Definition retransmit_state_new (moving_average recent : RingBuffer) : RetransmitState :=
  let tcp_retransmits_ma := default f64_zero (ring_average moving_average) in
  let tcp_retransmits_avg := default f64_zero (ring_average recent) in
  let tcp_retransmits_relative :=
    if f64_le tcp_retransmits_ma f64_zero
    then if f64_le tcp_retransmits_avg f64_zero then f64_one else S754_infinity false
    else f64_div tcp_retransmits_avg tcp_retransmits_ma in
  if f64_lt tcp_retransmits_relative (f64_ratio 4 10) then FallingFast
  else if f64_lt tcp_retransmits_relative (f64_ratio 8 10) then Falling
  else if f64_lt (f64_ratio 14 10) tcp_retransmits_relative then RisingFast
  else if f64_lt (f64_ratio 11 10) tcp_retransmits_relative then Rising
  else Stable.

Definition rtt_state_new (moving_average recent : RingBuffer) : RttState :=
  if (ring_count recent <? 2)%nat || (ring_count moving_average <? 2)%nat then Rtt_Flat
  else
    let rtt_ma := default f64_zero (ring_average moving_average) in
    let rtt_avg := default f64_zero (ring_average recent) in
    if f64_le rtt_ma f64_zero || f64_le rtt_avg f64_zero then Rtt_Flat
    else
      let rtt_relative := f64_div rtt_avg rtt_ma in
      let delta := f32_of_f64 (f64_abs (f64_sub rtt_relative f64_one)) in
      if f64_lt (f64_ratio 12 10) rtt_relative then Rtt_Rising delta
      else if f64_lt rtt_relative (f64_ratio 8 10) then Rtt_Falling delta
      else Rtt_Flat.

(** ** Recommendations ([recommendation.rs], [stormguard_state.rs]) *)

Inductive RecommendationDirection : Type := Download | Upload.
Inductive RecommendationAction : Type := IncreaseFast | Increase | Decrease | DecreaseFast.

#[export] Instance RecommendationDirection_eq_dec : EqDecision RecommendationDirection.
Proof. solve_decision. Defined.
#[export] Instance RecommendationAction_eq_dec : EqDecision RecommendationAction.
Proof. solve_decision. Defined.

Record Recommendation : Type := mkRecommendation {
  rec_site : rstring; rec_direction : RecommendationDirection; rec_action : RecommendationAction
}.

Inductive StormguardState : Type := Warmup | Running | Cooldown (start : Z) (duration_secs : f32).

Definition direction_text (d : RecommendationDirection) : rstring :=
  match d with Download => str "Download" | Upload => str "Upload" end.

(** ** State of a site ([site.rs]) *)

Record DirectionDecision : Type := mkDecision {
  dd_score : option f64;
  dd_candidate_action : option RecommendationAction;
  dd_target_mbps : option Z;
  dd_reason : rstring;
  dd_blocker : option rstring
}.
Definition decision_default : DirectionDecision := mkDecision None None None [] None.

(** [ActionAttempt]; the wall-clock stamp is not modelled. *)
Record ActionAttempt : Type := mkAttempt {
  at_action : RecommendationAction; at_target_mbps : Z; at_outcome : rstring; at_error : option rstring
}.

(** The fields of [SiteState] that exist once per direction. *)
Record Lane : Type := mkLane {
  lane_state : StormguardState;
  lane_queue_mbps : Z;
  lane_throughput : RingBuffer;
  lane_retransmits : RingBuffer;
  lane_throughput_ma : RingBuffer;
  lane_retransmits_ma : RingBuffer;
  lane_ticks_since_last_probe : Z;
  lane_last_action : option (RecommendationAction * Z);
  lane_decision : DirectionDecision;
  lane_last_attempt : option ActionAttempt
}.

Record SiteState : Type := mkSiteState {
  ss_config : WatchingSite;
  ss_download : Lane;
  ss_upload : Lane;
  ss_current_throughput : f64 * f64;
  ss_current_rtt_ms : option f64;
  ss_passive_rtt_ms : option f64;
  ss_active_ping_rtt_ms : option f64;
  ss_passive_rtt_flow_counts : Z * Z;
  ss_rtt_sample_for_baseline_ms : option f64;
  ss_rtt_baseline_ms : option f64;
  ss_last_passive_rtt : option (f64 * Z);
  ss_passive_rtt_updated_this_tick : bool;
  ss_round_trip_time : RingBuffer;
  ss_round_trip_time_ma : RingBuffer
}.

Definition lane (s : SiteState) (d : RecommendationDirection) : Lane :=
  match d with Download => ss_download s | Upload => ss_upload s end.

Definition set_lane (s : SiteState) (d : RecommendationDirection) (l : Lane) : SiteState :=
  mkSiteState (ss_config s)
    (match d with Download => l | Upload => ss_download s end)
    (match d with Download => ss_upload s | Upload => l end)
    (ss_current_throughput s) (ss_current_rtt_ms s) (ss_passive_rtt_ms s) (ss_active_ping_rtt_ms s)
    (ss_passive_rtt_flow_counts s) (ss_rtt_sample_for_baseline_ms s) (ss_rtt_baseline_ms s) (ss_last_passive_rtt s)
    (ss_passive_rtt_updated_this_tick s) (ss_round_trip_time s) (ss_round_trip_time_ma s).

Definition min_mbps (site : WatchingSite) (d : RecommendationDirection) : Z :=
  match d with Download => min_download_mbps site | Upload => min_upload_mbps site end.
Definition max_mbps (site : WatchingSite) (d : RecommendationDirection) : Z :=
  match d with Download => max_download_mbps site | Upload => max_upload_mbps site end.
Definition throughput_mbps (s : SiteState) (d : RecommendationDirection) : f64 :=
  match d with Download => (ss_current_throughput s).1 | Upload => (ss_current_throughput s).2 end.

Definition set_decision (s : SiteState) (d : RecommendationDirection) (decision : DirectionDecision) : SiteState :=
  let l := lane s d in
  set_lane s d (mkLane (lane_state l) (lane_queue_mbps l) (lane_throughput l) (lane_retransmits l) (lane_throughput_ma l)
    (lane_retransmits_ma l) (lane_ticks_since_last_probe l) (lane_last_action l) decision (lane_last_attempt l)).

Definition record_attempt (s : SiteState) (d : RecommendationDirection) (attempt : ActionAttempt) : SiteState :=
  let l := lane s d in
  set_lane s d (mkLane (lane_state l) (lane_queue_mbps l) (lane_throughput l) (lane_retransmits l) (lane_throughput_ma l)
    (lane_retransmits_ma l) (lane_ticks_since_last_probe l) (lane_last_action l) (lane_decision l) (Some attempt)).

Definition state_blocker (s : SiteState) (d : RecommendationDirection) : option rstring :=
  match lane_state (lane s d) with
  | Warmup => Some (str "warmup")
  | Cooldown _ _ => Some (str "cooldown")
  | Running => None
  end.

(** *** State changes *)

Definition push_moving_average (source target : RingBuffer) : RingBuffer :=
  match ring_average source with Some value => ring_add target value | None => target end.

(** [check_state_direction] at time [now]. *)
Definition check_state_direction (now : Z) (l : Lane) : Lane :=
  let moved state := mkLane state (lane_queue_mbps l) (lane_throughput l) (lane_retransmits l)
    (push_moving_average (lane_throughput l) (lane_throughput_ma l))
    (push_moving_average (lane_retransmits l) (lane_retransmits_ma l))
    (lane_ticks_since_last_probe l) (lane_last_action l) (lane_decision l) (lane_last_attempt l) in
  match lane_state l with
  | Warmup =>
      if (10 <? ring_count (lane_throughput l))%nat && (10 <? ring_count (lane_retransmits l))%nat
      then mkLane Running (lane_queue_mbps l) (lane_throughput l) (lane_retransmits l) (lane_throughput_ma l)
             (lane_retransmits_ma l) (lane_ticks_since_last_probe l) (lane_last_action l) (lane_decision l)
             (lane_last_attempt l)
      else l
  | Running => moved Running
  | Cooldown start duration_secs =>
      moved (if f32_gt (as_secs_f32 (duration_since now start)) duration_secs then Running
             else Cooldown start duration_secs)
  end.

Definition is_delay_probe (strategy : StormguardStrategy) : bool :=
  match strategy with DelayProbe | DelayProbeActive => true | LegacyScore => false end.

(** The new baseline of [update_rtt_baseline]. *)
Definition next_rtt_baseline (config : SgRunConfig) (sample baseline : option f64) : option f64 :=
  if negb (is_delay_probe (sg_strategy config)) then baseline
  else
    match sample with
    | None => baseline
    | Some rtt_ms =>
        Some (match baseline with
              | None => rtt_ms
              | Some baseline_ms =>
                  let alpha := f64_of_f32 (f32_clamp
                    (if f64_lt baseline_ms rtt_ms then sg_baseline_alpha_up config else sg_baseline_alpha_down config)
                    f32_zero (f32_of_Z 1)) in
                  f64_add baseline_ms (f64_mul alpha (f64_sub rtt_ms baseline_ms))
              end)
    end.

Definition is_warmup (s : StormguardState) : bool := match s with Warmup => true | _ => false end.

Definition site_check_state (config : SgRunConfig) (now : Z) (s : SiteState) : SiteState :=
  let baseline := next_rtt_baseline config (ss_rtt_sample_for_baseline_ms s) (ss_rtt_baseline_ms s) in
  let download := check_state_direction now (ss_download s) in
  let upload := check_state_direction now (ss_upload s) in
  let rtt_ma :=
    if negb (is_warmup (lane_state download)) || negb (is_warmup (lane_state upload))
    then push_moving_average (ss_round_trip_time s) (ss_round_trip_time_ma s) else ss_round_trip_time_ma s in
  mkSiteState (ss_config s) download upload (ss_current_throughput s) (ss_current_rtt_ms s) (ss_passive_rtt_ms s)
    (ss_active_ping_rtt_ms s) (ss_passive_rtt_flow_counts s) (ss_rtt_sample_for_baseline_ms s) baseline
    (ss_last_passive_rtt s) (ss_passive_rtt_updated_this_tick s) (ss_round_trip_time s) rtt_ma.
