(* ===== verification/StormguardDecisions.v ===== *)
(** * Decisions of StormGuard ([lqos_stormguard/src/site_state/site.rs])

    The two strategies: the legacy score, and the delay probe.  A strategy chooses an action and a target
    rate for a direction, records the decision, and recommends it unless the direction is blocked. *)

From S2P Require Import Prelude RustStd RustCollections RustFloat RustFormat TcHandle StormguardConfig StormguardSite.
From Stdlib Require Import SpecFloat.

(** A recommendation with its summary. *)
Abbreviation recommendations := (list (Recommendation * rstring)).

Definition bool_text (b : bool) : rstring := if b then str "true" else str "false".

Definition candidate_target (queue_mbps min_mbps max_mbps : Z) (action : RecommendationAction) (config : SgRunConfig)
    : option Z :=
  let multiplier :=
    match action with
    | IncreaseFast => sg_increase_fast_multiplier config
    | Increase => sg_increase_multiplier config
    | Decrease => sg_decrease_multiplier config
    | DecreaseFast => sg_decrease_fast_multiplier config
    end in
  let target := Z.max 4 (rounded_to_unsigned u64_max (f64_mul (f64_of_Z queue_mbps) multiplier)) in
  if negb (target =? queue_mbps) && (min_mbps <=? target) && (target <=? max_mbps) then Some target else None.

(** ** The legacy score *)

Record RecommendationParams : Type := mkParams {
  p_direction : RecommendationDirection;
  p_can_increase : bool;
  p_can_decrease : bool;
  p_saturation_max : SaturationLevel;
  p_saturation_current : SaturationLevel;
  p_retransmit_state : RetransmitState;
  p_rtt_state : RttState;
  p_abs_retransmit : option f64
}.

(** [{value:.3}], or [unavailable]. *)
Definition format_metric (value : option f64) : rstring :=
  match value with None => str "unavailable" | Some v => format_fixed 3 v end.

Definition summary_string (p : RecommendationParams) : rstring :=
  direction_text (p_direction p) ++ str " legacy score inputs: configured saturation=" ++ saturation_text (p_saturation_max p)
  ++ str "; current saturation=" ++ saturation_text (p_saturation_current p)
  ++ str "; increase allowed=" ++ bool_text (p_can_increase p)
  ++ str "; decrease allowed=" ++ bool_text (p_can_decrease p)
  ++ str "; retransmit trend=" ++ retransmit_text (p_retransmit_state p)
  ++ str "; RTT trend=" ++ rtt_state_text (p_rtt_state p)
  ++ str "; retransmit fraction=" ++ format_metric (p_abs_retransmit p).

Definition rtt_weight (s : SaturationLevel) : f32 :=
  match s with Sat_High => f32_of_Z 3 | Sat_Medium => f32_of_Z 2 | Sat_Low => f32_ratio 3 2 end.

Definition is_stable_rtt (s : RttState) : bool := match s with Rtt_Flat | Rtt_Falling _ => true | Rtt_Rising _ => false end.
Definition is_stable_retransmit (s : RetransmitState) : bool :=
  match s with Stable | Falling | FallingFast => true | RisingFast | Rising => false end.
Definition is_low (s : SaturationLevel) : bool := match s with Sat_Low => true | _ => false end.

(** The score; the bias of the saturation and of the ticks is zero, and the weight of retransmits one. *)
Definition legacy_score (p : RecommendationParams) : f32 :=
  let weight := rtt_weight (p_saturation_current p) in
  let retransmit_weight := f32_of_Z 1 in
  let score_base := f32_zero in
  let score_rtt :=
    match p_rtt_state p with
    | Rtt_Rising magnitude => f32_mul (f32_abs magnitude) weight
    | Rtt_Flat => f32_zero
    | Rtt_Falling magnitude => f32_mul (f32_neg (f32_abs magnitude)) weight
    end in
  let score_retransmit :=
    match p_retransmit_state p with
    | RisingFast => f32_mul (f32_ratio 3 2) retransmit_weight
    | Rising => f32_mul (f32_of_Z 1) retransmit_weight
    | Stable => f32_zero
    | Falling => f32_neg retransmit_weight
    | FallingFast => f32_mul (f32_neg (f32_ratio 3 2)) retransmit_weight
    end in
  let high_loss_penalty :=
    match p_abs_retransmit p with
    | Some v => if f64_le (f64_ratio 10 100) v then f32_of_Z 3 else f32_zero
    | None => f32_zero
    end in
  let score_tick := f32_zero in
  let score_stability_bonus :=
    if is_stable_rtt (p_rtt_state p) && is_stable_retransmit (p_retransmit_state p) && is_low (p_saturation_current p)
    then f32_neg (f32_ratio 3 2) else f32_zero in
  f32_add (f32_add (f32_add (f32_add (f32_add score_base score_rtt) score_retransmit) score_stability_bonus) score_tick)
    high_loss_penalty.

Definition legacy_action (score : f32) : option RecommendationAction :=
  if f32_lt score (f32_neg (f32_of_Z 1)) then Some IncreaseFast
  else if f32_gt score (f32_of_Z 3) then Some DecreaseFast
  else if f32_lt score f32_zero then Some Increase
  else if f32_gt score (f32_of_Z 2) then Some Decrease
  else None.

Definition is_increase (a : RecommendationAction) : bool :=
  match a with IncreaseFast | Increase => true | Decrease | DecreaseFast => false end.

(** [.or_else(|| cond.then(|| text))]. *)
Definition or_blocked (o : option rstring) (cond : bool) (text : rstring) : option rstring :=
  match o with Some t => Some t | None => if cond then Some text else None end.

(** [recommendation_matrix]: the decision it records, and what it recommends. *)
Definition recommendation_matrix (s : SiteState) (p : RecommendationParams) : SiteState * recommendations :=
  let score := legacy_score p in
  let action := legacy_action score in
  let blocker := or_blocked (state_blocker s (p_direction p)) (negb (p_can_increase p) && negb (p_can_decrease p))
                   (str "at_bounds") in
  let s' := set_decision s (p_direction p)
              (mkDecision (Some (f64_of_f32 score)) action None (summary_string p) blocker) in
  let recommended :=
    match blocker, action with
    | None, Some action =>
        if (if is_increase action then p_can_increase p else p_can_decrease p)
        then [(mkRecommendation (watch_name (ss_config s)) (p_direction p) action, summary_string p)] else []
    | _, _ => []
    end in
  (s', recommended).

Definition recommendations_legacy_score_direction (config : SgRunConfig) (s : SiteState) (d : RecommendationDirection)
    : SiteState * recommendations :=
  let l := lane s d in
  let queue := lane_queue_mbps l in
  let lo := min_mbps (ss_config s) d in
  let hi := max_mbps (ss_config s) d in
  let throughput := throughput_mbps s d in
  let p := mkParams d (queue <? hi) (lo <? queue) (from_throughput throughput (f64_of_Z hi))
    (from_throughput throughput (f64_of_Z queue)) (retransmit_state_new (lane_retransmits_ma l) (lane_retransmits l))
    (rtt_state_new (ss_round_trip_time_ma s) (ss_round_trip_time s)) (ring_average (lane_retransmits_ma l)) in
  let '(s', recommended) := recommendation_matrix s p in
  let decision := lane_decision (lane s' d) in
  let target := dd_candidate_action decision ≫= fun action => candidate_target queue lo hi action config in
  let blocker :=
    match dd_candidate_action decision, target, dd_blocker decision with
    | Some _, None, None => Some (str "bounds")
    | _, _, blocker => blocker
    end in
  (set_decision s' d (mkDecision (dd_score decision) (dd_candidate_action decision) target (dd_reason decision) blocker),
   recommended).

(** ** The delay probe *)

(** What the delay probe measures in a direction: the delay over the baseline with its ratio, and whether it
    is bloat or severe bloat. *)
Record DelaySignal : Type := mkDelaySignal {
  sig_delay_ms : option f64; sig_delay_ratio : option f64; sig_bloat : bool; sig_severe_bloat : bool
}.

Definition f64_ge (x y : f64) : bool := f64_le y x.

Definition fast_ratio (threshold_ratio factor : f64) : f64 :=
  f64_add f64_one (f64_mul (f64_sub threshold_ratio f64_one) factor).

Definition delay_signal (config : SgRunConfig) (s : SiteState) (d : RecommendationDirection) : DelaySignal :=
  let threshold_ms := f64_of_f32 (sg_delay_threshold_ms config) in
  let threshold_ratio := f64_of_f32 (sg_delay_threshold_ratio config) in
  let rtt_allowed :=
    match sg_strategy config, ss_active_ping_rtt_ms s with
    | DelayProbeActive, Some _ => true
    | _, _ => f64_ge (throughput_mbps s d) (f64_of_f32 (sg_min_throughput_mbps_for_rtt config))
    end in
  match rtt_allowed, ss_current_rtt_ms s, ss_rtt_baseline_ms s with
  | true, Some rtt_ms, Some baseline_ms =>
      let baseline_ms := f64_max baseline_ms f64_one in
      let delay := f64_max (f64_sub rtt_ms baseline_ms) f64_zero in
      let ratio := f64_div rtt_ms baseline_ms in
      mkDelaySignal (Some delay) (Some ratio)
        (f64_ge delay threshold_ms || f64_ge ratio threshold_ratio)
        (f64_ge delay (f64_mul threshold_ms (f64_of_Z 2)) || f64_ge ratio (fast_ratio threshold_ratio (f64_of_Z 2)))
  | _, _, _ => mkDelaySignal None None false false
  end.

Definition loss_at_least (average : option f64) (fraction : f64) : bool :=
  match average with Some v => f64_ge v fraction | None => false end.

Definition probe_interval_ticks (config : SgRunConfig) : Z :=
  rounded_to_unsigned u32_max (f32_max (sg_probe_interval_seconds config) (f32_of_Z 1)).

Definition load_ratio (throughput : f64) (queue_mbps : Z) : f64 :=
  if 0 <? queue_mbps then f64_div throughput (f64_of_Z queue_mbps) else f64_zero.

(** Whether the probe increases: a small delay, a loaded queue, and a probe interval gone by. *)
Definition probe_conditions (config : SgRunConfig) (delay_ms delay_ratio load : f64) (ticks : Z) : bool :=
  let threshold_ms := f64_of_f32 (sg_delay_threshold_ms config) in
  let threshold_ratio := f64_of_f32 (sg_delay_threshold_ratio config) in
  f64_le delay_ms (f64_mul threshold_ms (f64_ratio 1 2))
  && f64_le delay_ratio (fast_ratio threshold_ratio (f64_ratio 1 2))
  && f64_ge load (f64_ratio 80 100) && (probe_interval_ticks config <=? ticks).

Definition delay_probe_action (config : SgRunConfig) (can_increase can_decrease : bool) (sig : DelaySignal)
    (retransmits : option f64) (load : f64) (ticks : Z) : option RecommendationAction * rstring :=
  let high_loss := loss_at_least retransmits (f64_ratio 10 100) in
  let moderate_loss := loss_at_least retransmits (f64_ratio 5 100) in
  if negb can_increase && negb can_decrease then (None, str "queue is fixed at its configured bound")
  else if can_decrease && (sig_severe_bloat sig || high_loss) then
    (Some DecreaseFast, str "severe delay or retransmit signal")
  else if can_decrease && (sig_bloat sig || moderate_loss) then (Some Decrease, str "delay or retransmit signal")
  else if can_increase then
    match sig_delay_ms sig, sig_delay_ratio sig with
    | Some delay_ms, Some delay_ratio =>
        if probe_conditions config delay_ms delay_ratio load ticks then (Some Increase, str "probe increase conditions met")
        else (None, str "probe increase conditions not met")
    | _, _ => (None, str "no usable RTT and baseline pair")
    end
  else (None, str "queue cannot increase and no decrease signal is present").

(** The reason that the delay probe records. *)
Definition delay_probe_summary (config : SgRunConfig) (reason : rstring) (sig : DelaySignal) (retransmits : option f64)
    (load : f64) (ticks : Z) : rstring :=
  let threshold_ms := f64_of_f32 (sg_delay_threshold_ms config) in
  let threshold_ratio := f64_of_f32 (sg_delay_threshold_ratio config) in
  reason ++ str "; delay=" ++ format_metric (sig_delay_ms sig) ++ str " ms (decrease " ++ format_fixed 1 threshold_ms
  ++ str ", fast " ++ format_fixed 1 (f64_mul threshold_ms (f64_of_Z 2)) ++ str "); delay ratio="
  ++ format_metric (sig_delay_ratio sig) ++ str " (decrease " ++ format_fixed 2 threshold_ratio ++ str ", fast "
  ++ format_fixed 2 (fast_ratio threshold_ratio (f64_of_Z 2)) ++ str "); retransmits=" ++ format_metric retransmits
  ++ str "; load ratio=" ++ format_fixed 3 load ++ str "; probe requirements: delay <= "
  ++ format_fixed 1 (f64_mul threshold_ms (f64_ratio 1 2)) ++ str " ms, ratio <= "
  ++ format_fixed 2 (fast_ratio threshold_ratio (f64_ratio 1 2)) ++ str ", load >= 0.800, age >= "
  ++ u64_to_string (probe_interval_ticks config) ++ str " ticks; current probe age=" ++ u64_to_string ticks ++ str " ticks".

Definition recommendations_delay_probe_direction (config : SgRunConfig) (s : SiteState) (d : RecommendationDirection)
    : SiteState * recommendations :=
  let l := lane s d in
  let queue := lane_queue_mbps l in
  let lo := min_mbps (ss_config s) d in
  let hi := max_mbps (ss_config s) d in
  let can_increase := queue <? hi in
  let can_decrease := lo <? queue in
  let sig := delay_signal config s d in
  let retransmits := ring_average (lane_retransmits l) in
  let load := load_ratio (throughput_mbps s d) queue in
  let ticks := lane_ticks_since_last_probe l in
  let '(action, reason) := delay_probe_action config can_increase can_decrease sig retransmits load ticks in
  let summary := delay_probe_summary config reason sig retransmits load ticks in
  let target := action ≫= fun action => candidate_target queue lo hi action config in
  let blocker :=
    or_blocked (or_blocked (state_blocker s d) (negb can_increase && negb can_decrease) (str "at_bounds"))
      (match action, target with Some _, None => true | _, _ => false end) (str "bounds") in
  let s' := set_decision s d (mkDecision None action target summary blocker) in
  match blocker, action with
  | None, Some action => (s', [(mkRecommendation (watch_name (ss_config s)) d action, summary)])
  | _, _ => (s', [])
  end.

(** ** Both directions *)

Definition tick_lane (l : Lane) : Lane :=
  mkLane (lane_state l) (lane_queue_mbps l) (lane_throughput l) (lane_retransmits l) (lane_throughput_ma l)
    (lane_retransmits_ma l) (u32_saturating_add (lane_ticks_since_last_probe l) 1) (lane_last_action l)
    (lane_decision l) (lane_last_attempt l).

Definition is_running (s : StormguardState) : bool := match s with Running => true | _ => false end.

Definition site_recommendations (config : SgRunConfig) (s : SiteState) : SiteState * recommendations :=
  if is_delay_probe (sg_strategy config) then
    let s := set_lane s Download (tick_lane (ss_download s)) in
    let s := set_lane s Upload (tick_lane (ss_upload s)) in
    let '(s, down) := recommendations_delay_probe_direction config s Download in
    let '(s, up) := recommendations_delay_probe_direction config s Upload in
    (s, down ++ up)
  else
    let '(s, down) := recommendations_legacy_score_direction config s Download in
    let s := if is_running (lane_state (ss_download s)) then set_lane s Download (tick_lane (ss_download s)) else s in
    let '(s, up) := recommendations_legacy_score_direction config s Upload in
    let s := if is_running (lane_state (ss_upload s)) then set_lane s Upload (tick_lane (ss_upload s)) else s in
    (s, down ++ up).
