(* ===== verification/StormguardActions.v ===== *)
(** * Persisted and live actions of StormGuard ([lqos_stormguard/src/adaptive_actions.rs])

    The overrides that StormGuard keeps in its layer, and the fallback that changes the queue discipline of
    a circuit.  The Bakery, the override files and the device files are the environment [SgEnv]; a call of
    the Bakery includes waiting for its reply, so its error is a refusal, a closed channel or a timeout; the
    last argument of a circuit call is the operation that the error names. *)

From S2P Require Import Prelude RustStd RustCollections RustFloat RustFormat ShapedDevice.
From S2P Require Import TcHandle QdiscHandles StormguardConfig BakeryCommands Overrides StormguardSite.

Class SgEnv (B : Type) : Type := {
  bakery_batch : B -> Z -> bool -> list StormGuardClassAdjustment -> result rstring unit * B;
  bakery_circuit : B -> Z -> Z -> option rstring -> rstring -> result rstring bool * B;
  load_layer : B -> OverrideLayer -> result rstring OverrideFile;
  save_layer : B -> OverrideLayer -> OverrideFile -> result rstring unit * B;
  load_shaped_devices : B -> result rstring (list ShapedDevice);
  load_source_shaped_devices : B -> result rstring (list ShapedDevice)
}.

Inductive CircuitFallbackOutcome : Type :=
| Applied (persisted : bool)
| AppliedUnpersisted (error : rstring)
| Cleared (persisted : bool)
| DryRun (action : rstring)
| Skipped (reason : rstring).

Record SiteOverrideUpdate : Type := mkSiteUpdate {
  up_site_name : rstring; up_download : option f32; up_upload : option f32
}.

Record PersistedCircuitFallback : Type := mkFallback { fb_sqm_override : rstring; fb_devices : list ShapedDevice }.

(** ** Site overrides *)

Definition current_site_override (overrides : OverrideFile) (site_name : rstring) : option (option f32 * option f32) :=
  match List.find (fun adj => match adj with AdjustSiteSpeed _ current _ _ => bool_decide (current = site_name) | _ => false end)
          (network_adjustments overrides) with
  | Some (AdjustSiteSpeed _ _ down up) => Some (down, up)
  | _ => None
  end.

Definition apply_site_update (acc : OverrideFile * bool) (update : SiteOverrideUpdate) : OverrideFile * bool :=
  let '(overrides, changed) := acc in
  match up_download update, up_upload update with
  | None, None =>
      let '(overrides, removed) := remove_site_bandwidth_override_count overrides None (up_site_name update) in
      (overrides, changed || (0 <? removed)%nat)
  | down, up =>
      if match current_site_override overrides (up_site_name update) with
         | Some (d, u) => option_f32_eq d down && option_f32_eq u up
         | None => false
         end
      then acc
      else ((set_site_bandwidth_override overrides None (up_site_name update) down up).1, true)
  end.

(** ** Circuit fallbacks *)

Definition nonblank (o : option rstring) : bool := match o with Some t => negb (str_is_empty (trim t)) | None => false end.

Definition has_source_sqm_override (device_ids : list rstring) (source_devices : list ShapedDevice) : bool :=
  existsb (fun device => bool_decide (device_id device ∈ device_ids) && nonblank (sqm_override device)) source_devices.

Definition has_sqm_override_for_device_ids (overrides : OverrideFile) (device_ids : list rstring) : bool :=
  existsb (fun adj =>
    match adj with DeviceAdjustSqm device sqm => bool_decide (device ∈ device_ids) && nonblank sqm | _ => false end)
    (circuit_adjustments overrides)
  || existsb (fun device => bool_decide (device_id device ∈ device_ids) && nonblank (sqm_override device))
       (persistent_devices overrides).

(** [entry(circuit).or_insert_with(...)] followed by the push of the device, when the token is the same. *)
Definition push_fallback (unless_present : bool) (grouped : gmap rstring PersistedCircuitFallback) (token : rstring)
    (device : ShapedDevice) : gmap rstring PersistedCircuitFallback :=
  let entry := default (mkFallback token []) (grouped !! circuit_id device) in
  if negb (bool_decide (fb_sqm_override entry = token)) then <[circuit_id device := entry]> grouped
  else if unless_present && existsb (fun d => bool_decide (device_id d = device_id device)) (fb_devices entry)
  then <[circuit_id device := entry]> grouped
  else <[circuit_id device := mkFallback (fb_sqm_override entry) (fb_devices entry ++ [device])]> grouped.

(** The device that a [HashMap] of the current devices by identifier has: the last one. *)
Definition device_by_id (devices : list ShapedDevice) (id : rstring) : option ShapedDevice :=
  List.find (fun d => bool_decide (device_id d = id)) (rev devices).

(** One persisted token of a device. *)
Definition group_token (current_devices : list ShapedDevice) (unless_present : bool)
    (grouped : gmap rstring PersistedCircuitFallback) (id : rstring) (sqm : option rstring)
    : gmap rstring PersistedCircuitFallback :=
  match sqm, device_by_id current_devices id with
  | Some sqm, Some device =>
      let token := trim sqm in
      if str_is_empty token || str_is_empty (trim (circuit_id device)) then grouped
      else push_fallback unless_present grouped token device
  | _, _ => grouped
  end.

Definition group_circuit_fallbacks (overrides : OverrideFile) (current_devices : list ShapedDevice)
    : gmap rstring PersistedCircuitFallback :=
  let from_adjustments :=
    foldl (fun grouped adj =>
      match adj with DeviceAdjustSqm id sqm => group_token current_devices false grouped id sqm | _ => grouped end)
      ∅ (circuit_adjustments overrides) in
  foldl (fun grouped device => group_token current_devices true grouped (device_id device) (sqm_override device))
    from_adjustments (persistent_devices overrides).

Definition set_device_sqm (sqm : rstring) (acc : OverrideFile * bool) (device : ShapedDevice) : OverrideFile * bool :=
  let '(overrides, changed) := acc in
  let '(overrides, c1) := set_device_sqm_override_return_changed overrides (device_id device) (Some sqm) in
  let '(overrides, removed) := remove_persistent_shaped_device_by_device_count overrides (device_id device) in
  (overrides, changed || c1 || (0 <? removed)%nat).

Definition clear_device_sqm (acc : OverrideFile * bool) (device : rstring) : OverrideFile * bool :=
  let '(overrides, changed) := acc in
  let '(overrides, n1) := remove_device_sqm_override_by_device_count overrides device in
  let '(overrides, n2) := remove_persistent_shaped_device_by_device_count overrides device in
  (overrides, changed || (0 <? n1)%nat || (0 <? n2)%nat).

Section Actions.
  Context {B : Type} `{SgEnv B}.

(** A layer is loaded, changed and saved when something changed. *)
Definition update_layer (b : B) (update : OverrideFile -> OverrideFile * bool) : result rstring bool * B :=
  match load_layer b Layer_Stormguard with
  | Err e => (Err e, b)
  | Ok overrides =>
      let '(overrides, changed) := update overrides in
      if negb changed then (Ok false, b)
      else
        match save_layer b Layer_Stormguard overrides with
        | (Err e, b) => (Err e, b)
        | (Ok _, b) => (Ok true, b)
        end
  end.

Definition apply_site_override_updates (b : B) (updates : list SiteOverrideUpdate) : result rstring bool * B :=
  match updates with
  | [] => (Ok false, b)
  | _ => update_layer b (fun overrides => foldl apply_site_update (overrides, false) updates)
  end.

Definition set_devices_sqm_override (b : B) (base_devices : list ShapedDevice) (sqm : rstring) : result rstring bool * B :=
  update_layer b (fun overrides => foldl (set_device_sqm sqm) (overrides, false) base_devices).

Definition clear_device_overrides (b : B) (device_ids : list rstring) : result rstring bool * B :=
  update_layer b (fun overrides => foldl clear_device_sqm (overrides, false) device_ids).

Definition clear_stormguard_override_layer (b : B) : result rstring unit * B :=
  save_layer b Layer_Stormguard OverrideFile_default.

Definition load_devices_for_circuit (b : B) (circuit : rstring) : result rstring (list ShapedDevice) :=
  devices ← load_shaped_devices b;
  Ok (List.filter (fun d => bool_decide (circuit_id d = circuit)) devices).

Definition conflicting_sqm_owner (b : B) (devices : list ShapedDevice) : result rstring (option rstring) :=
  let device_ids := map device_id devices in
  source ← load_source_shaped_devices b;
  if has_source_sqm_override device_ids source
  then Ok (Some (str "The circuit already has a source-configured SQM override."))
  else
    operator ← load_layer b Layer_Operator;
    if has_sqm_override_for_device_ids operator device_ids
    then Ok (Some (str "Operator SQM overrides are present for this circuit."))
    else
      treeguard ← load_layer b Layer_Treeguard;
      if has_sqm_override_for_device_ids treeguard device_ids
      then Ok (Some (str "TreeGuard SQM overrides are present for this circuit."))
      else Ok None.

Definition load_persisted_circuit_fallbacks (b : B) : result rstring (gmap rstring PersistedCircuitFallback) :=
  overrides ← load_layer b Layer_Stormguard;
  devices ← load_shaped_devices b;
  Ok (group_circuit_fallbacks overrides devices).

Definition apply_circuit_sqm_override_live (b : B) (circuit : rstring) (sqm : option rstring) (tree_generation : Z)
    (operation : rstring) : result rstring bool * B :=
  bakery_circuit b tree_generation (hash_to_i64 circuit) sqm operation.

Definition apply_circuit_fallback (b : B) (circuit sqm : rstring) (persist dry_run : bool) (tree_generation : Z)
    : result rstring CircuitFallbackOutcome * B :=
  match load_devices_for_circuit b circuit with
  | Err e => (Err e, b)
  | Ok [] => (Ok (Skipped (str "No ShapedDevices rows found for circuit.")), b)
  | Ok devices =>
      match conflicting_sqm_owner b devices with
      | Err e => (Err e, b)
      | Ok (Some reason) => (Ok (Skipped reason), b)
      | Ok None =>
          if dry_run then (Ok (DryRun (str "Would set SQM override to '" ++ sqm ++ str "'")), b)
          else
            match apply_circuit_sqm_override_live b circuit (Some sqm) tree_generation
                    (str "apply StormGuard circuit fallback") with
            | (Err e, b) => (Err e, b)
            | (Ok false, b) => (Ok (Skipped (str "Circuit is absent from Bakery state.")), b)
            | (Ok true, b) =>
                if negb persist then (Ok (Applied false), b)
                else
                  match set_devices_sqm_override b devices sqm with
                  | (Ok persisted, b) => (Ok (Applied persisted), b)
                  | (Err persistence_error, b) =>
                      match apply_circuit_sqm_override_live b circuit None tree_generation
                              (str "roll back unpersisted StormGuard circuit fallback") with
                      | (Err rollback_error, b) =>
                          (Ok (AppliedUnpersisted
                             (str "StormGuard could not persist or roll back circuit fallback for " ++ circuit
                              ++ str "; retaining in-memory ownership: persistence=" ++ persistence_error
                              ++ str "; rollback=" ++ rollback_error)), b)
                      | (Ok _, b) =>
                          (Err (str "failed to persist StormGuard circuit fallback; live change was rolled back"), b)
                      end
                  end
            end
      end
  end.

(** The persisted devices of a circuit, or its current ones. *)
Definition fallback_devices (b : B) (circuit : rstring) : result rstring (list ShapedDevice) :=
  fallbacks ← load_persisted_circuit_fallbacks b;
  devices ← load_devices_for_circuit b circuit;
  Ok (match fallbacks !! circuit with Some fallback => fb_devices fallback | None => devices end).

Definition clear_circuit_fallback (b : B) (circuit : rstring) (dry_run : bool) (tree_generation : Z)
    : result rstring CircuitFallbackOutcome * B :=
  match fallback_devices b circuit with
  | Err e => (Err e, b)
  | Ok [] => (Ok (Skipped (str "No ShapedDevices rows found for circuit.")), b)
  | Ok devices =>
      match conflicting_sqm_owner b devices with
      | Err e => (Err e, b)
      | Ok (Some reason) => (Ok (Skipped reason), b)
      | Ok None =>
          if dry_run then (Ok (DryRun (str "Would clear SQM fallback override")), b)
          else
            match apply_circuit_sqm_override_live b circuit None tree_generation
                    (str "clear StormGuard circuit fallback") with
            | (Err e, b) => (Err e, b)
            | (Ok present, b) =>
                match clear_device_overrides b (map device_id devices) with
                | (Err e, b) => (Err e, b)
                | (Ok persisted, b) =>
                    if present : bool then (Ok (Cleared persisted), b)
                    else (Ok (Skipped (str "Circuit is absent from Bakery state; persisted="
                                       ++ (if persisted then str "true" else str "false"))), b)
                end
            end
      end
  end.

End Actions.
