(* ===== verification/StormguardTracker.v ===== *)
(** * The tracker of StormGuard ([lqos_stormguard/src/site_state.rs], [config.rs], [queue_structure.rs])

    The watched sites, built from the queue structure; reading a tick of measurements; and applying
    recommendations through the Bakery with their persistence.  Where a [HashMap] of sites is iterated, the
    order is an argument.  The published statistics are part of the tracker's state. *)

From S2P Require Import Prelude RustStd RustCollections RustFloat RustFormat ShapedDevice.
From S2P Require Import TcHandle QdiscHandles StormguardConfig BakeryCommands Overrides StormguardSite.
From S2P Require Import StormguardDecisions StormguardActions.
From Stdlib Require Import SpecFloat.

(** ** The queue structure *)

(** The fields of a [QueueNode] that StormGuard reads. *)
Record QueueNode : Type := mkQueueNode {
  q_name : option rstring;
  q_download_mbps : Z;
  q_upload_mbps : Z;
  q_download_min_mbps : Z;
  q_upload_min_mbps : Z;
  q_class_id : TcHandle;
  q_parent_class_id : TcHandle;
  q_circuit_id : option rstring;
  q_parent_node : option rstring
}.

Definition find_queue (queues : list QueueNode) (name : rstring) : option QueueNode :=
  List.find (fun q => bool_decide (q_name q = Some name)) queues.

Definition find_queue_bandwidth (queues : option (list QueueNode)) (name : rstring) : option (Z * Z) :=
  queues ← queues; queue ← find_queue queues name; Some (q_download_mbps queue, q_upload_mbps queue).

Definition find_queue_dependents (queues : option (list QueueNode)) (parent_name : rstring)
    : option (list WatchingSiteDependency) :=
  queues ← queues;
  queue ← find_queue queues parent_name;
  Some (omap (fun candidate =>
    if bool_decide (q_class_id queue = q_parent_class_id candidate) && bool_decide (q_parent_node candidate = None)
       && negb (existsb (fun child => bool_decide (q_parent_class_id child = q_class_id candidate)
                                      && bool_decide (is_Some (q_parent_node child))) queues)
    then Some (mkDependency (default [] (q_name candidate)) (q_class_id candidate) (q_download_min_mbps candidate)
                 (q_upload_min_mbps candidate) (q_download_mbps candidate) (q_upload_mbps candidate))
    else None) queues).

(** [sort] and [dedup] of names. *)
Definition sorted_names (names : list rstring) : list rstring := btree_set_iter (list_to_set names : gset rstring).

Definition all_candidate_site_names (queues : option (list QueueNode)) : list rstring :=
  match queues with
  | None => []
  | Some queues =>
      let sites := List.filter (fun q => bool_decide (q_circuit_id q = None)) queues in
      let parent_ids := map q_parent_class_id sites in
      sorted_names (omap (fun q => if bool_decide (q_class_id q ∈ parent_ids) then None else q_name q) sites)
  end.

(** ** Watched sites *)

(** [clamp] of integers; it panics when [lo > hi]. *)
Definition u64_clamp (x lo hi : Z) : option Z :=
  if hi <? lo then None else Some (if x <? lo then lo else if hi <? x then hi else x).

(** [(max as f32 * percentage) as u64]. *)
Definition minimum_of (max : Z) (percentage : f32) : Z := u64_of_f64 (f64_of_f32 (f32_mul (f32_of_u64 max) percentage)).

(** The current rate: the persisted one, or the planned one, between the bounds. *)
Definition current_of (persisted : option f32) (min max : Z) : option Z :=
  u64_clamp (match persisted with Some mbps => u64_of_f64 (f64_of_f32 (f32_max mbps f32_zero)) | None => max end) min max.

(** One target of [get_sites_from_queueing_structure]: [None] is the panic of [clamp], [Some None] a target
    that is skipped. *)
Definition watching_site (sg : StormguardConfig) (persisted : gmap rstring (option f32 * option f32))
    (queues : option (list QueueNode)) (target : rstring) : option (option WatchingSite) :=
  match find_queue_bandwidth queues target, find_queue_dependents queues target with
  | Some (max_down, max_up), Some dependencies =>
      let min_down := minimum_of max_down (sgc_minimum_download_percentage sg) in
      let min_up := minimum_of max_up (sgc_minimum_upload_percentage sg) in
      let p := default (None, None) (persisted !! target) in
      down ← current_of p.1 min_down max_down;
      up ← current_of p.2 min_up max_up;
      Some (Some (mkWatchingSite target max_down max_up min_down min_up dependencies down up))
  | _, _ => Some None
  end.

Definition selected_targets (sg : StormguardConfig) (queues : option (list QueueNode)) : list rstring :=
  sorted_names (List.filter (fun site => negb (bool_decide (site ∈ sgc_exclude_sites sg)))
    (if sgc_all_sites sg then all_candidate_site_names queues else sgc_targets sg)).

(** The sites and the published statistics. *)
Definition get_sites_from_queueing_structure (sg : StormguardConfig) (persisted : gmap rstring (option f32 * option f32))
    (queues : option (list QueueNode)) : option (gmap rstring WatchingSite * list (rstring * Z * Z)) :=
  sites ← mapM (watching_site sg persisted queues) (selected_targets sg queues);
  let sites := omap id sites in
  Some (list_to_map (map (fun s => (watch_name s, s)) sites),
        map (fun s => (watch_name s, current_download_mbps s, current_upload_mbps s)) sites).

Definition load_stormguard_site_overrides (overrides : OverrideFile) : gmap rstring (option f32 * option f32) :=
  foldl (fun m adj => match adj with AdjustSiteSpeed _ name down up => <[name := (down, up)]> m | _ => m end)
    ∅ (network_adjustments overrides).

(** ** State *)

Record SiteStateTracker : Type := mkTracker {
  tr_generation : Z;
  tr_sites : gmap rstring SiteState;
  tr_fallbacks : gset rstring;
  tr_stats : list (rstring * Z * Z)
}.

Definition READING_ACCUMULATOR_SIZE : nat := 15.
Definition MOVING_AVERAGE_BUFFER_SIZE : nat := 15.

Definition new_lane (state : StormguardState) (rate : Z) : Lane :=
  mkLane state rate (ring_new READING_ACCUMULATOR_SIZE) (ring_new READING_ACCUMULATOR_SIZE)
    (ring_new MOVING_AVERAGE_BUFFER_SIZE) (ring_new MOVING_AVERAGE_BUFFER_SIZE) 0 None decision_default None.

Definition new_site (strategy : StormguardStrategy) (site : WatchingSite) : SiteState :=
  let state := if is_delay_probe strategy then Running else Warmup in
  mkSiteState site (new_lane state (current_download_mbps site)) (new_lane state (current_upload_mbps site))
    (f64_zero, f64_zero) None None None (0, 0) None None None false
    (ring_new READING_ACCUMULATOR_SIZE) (ring_new MOVING_AVERAGE_BUFFER_SIZE).

Definition from_config (config : SgRunConfig) (tree_generation : Z) (stats : list (rstring * Z * Z)) : SiteStateTracker :=
  mkTracker tree_generation (new_site (sg_strategy config) <$> sg_sites config) ∅ stats.

Definition with_sites (t : SiteStateTracker) (sites : gmap rstring SiteState) : SiteStateTracker :=
  mkTracker (tr_generation t) sites (tr_fallbacks t) (tr_stats t).
Definition put_site (t : SiteStateTracker) (name : rstring) (s : SiteState) : SiteStateTracker :=
  with_sites t (<[name := s]> (tr_sites t)).

(** ** A tick of measurements *)

(** The fields of [NetworkJsonTransport] that are read. *)
Record NodeInfo : Type := mkNodeInfo {
  ni_name : rstring;
  ni_current_throughput : Z * Z;
  ni_current_tcp_packets : Z * Z;
  ni_current_retransmits : Z * Z;
  ni_current_rtt_flows : Z * Z;
  ni_rtts : list f32
}.

Record TimedRtt : Type := mkTimedRtt { tr_rtt_ms : f64; tr_at : Z }.

Definition clear_tick_rtt_state (s : SiteState) : SiteState :=
  mkSiteState (ss_config s) (ss_download s) (ss_upload s) (f64_zero, f64_zero) None None None (0, 0) None
    (ss_rtt_baseline_ms s) (ss_last_passive_rtt s) false (ss_round_trip_time s) (ss_round_trip_time_ma s).

Definition mbps_of (bytes : Z) : f64 := f64_div (f64_mul (f64_of_Z bytes) (f64_of_Z 8)) (f64_of_Z 1000000).

Definition retransmit_fraction (retransmits packets : Z) : f64 :=
  if 0 <? packets then f64_div (f64_of_Z retransmits) (f64_of_Z packets) else f64_zero.

Definition read_lane (l : Lane) (mbps retransmits : f64) : Lane :=
  mkLane (lane_state l) (lane_queue_mbps l) (ring_add (lane_throughput l) mbps)
    (ring_add (lane_retransmits l) retransmits) (lane_throughput_ma l) (lane_retransmits_ma l)
    (lane_ticks_since_last_probe l) (lane_last_action l) (lane_decision l) (lane_last_attempt l).

(** The 90th percentile of the samples. *)
Definition percentile_90 (rtts : list f32) : option f64 :=
  let sorted := sort_with f32_total_le rtts in
  let samples := length sorted in
  let index := Nat.min (Z.to_nat (u64_of_f64 (f64_of_f32 (f32_mul (f32_of_Z (Z.of_nat samples)) (f32_ratio 9 10)))))
                 (samples - 1) in
  f64_of_f32 <$> sorted !! index.

(** The measurements of one node. *)
Definition read_node (now : Z) (node : NodeInfo) (s : SiteState) : SiteState :=
  let down := mbps_of (ni_current_throughput node).1 in
  let up := mbps_of (ni_current_throughput node).2 in
  let retransmits_down := retransmit_fraction (ni_current_retransmits node).1 (ni_current_tcp_packets node).1 in
  let retransmits_up := retransmit_fraction (ni_current_retransmits node).2 (ni_current_tcp_packets node).2 in
  let sample := percentile_90 (ni_rtts node) in
  mkSiteState (ss_config s) (read_lane (ss_download s) down retransmits_down) (read_lane (ss_upload s) up retransmits_up)
    (down, up) (ss_current_rtt_ms s) (ss_passive_rtt_ms s) (ss_active_ping_rtt_ms s) (ni_current_rtt_flows node)
    (ss_rtt_sample_for_baseline_ms s) (ss_rtt_baseline_ms s)
    (match sample with Some ms => Some (ms, now) | None => ss_last_passive_rtt s end)
    (match sample with Some _ => true | None => ss_passive_rtt_updated_this_tick s end)
    (ss_round_trip_time s) (ss_round_trip_time_ma s).

(** [Duration::from_secs_f32] of a finite value that is not negative. *)
Definition duration_from_secs_f32 (x : f32) : Z :=
  match x with
  | S754_finite false m e =>
      if 0 <=? e then Z.pos m * 2 ^ e * 1000000000 else round_half_even (Z.pos m * 1000000000) (2 ^ (- e))
  | _ => 0
  end.

Definition passive_max_age : Z := 15 * 1000000000.
Definition active_max_age (config : SgRunConfig) : Z :=
  duration_from_secs_f32 (f32_clamp (f32_mul (f32_max (sg_active_ping_interval_seconds config) (f32_of_Z 1)) (f32_of_Z 3))
    (f32_of_Z 5) (f32_of_Z 300)).

(** A sample that is not older than [max_age]. *)
Definition fresh (now max_age : Z) (sample : option (f64 * Z)) : option f64 :=
  sample ≫= fun '(ms, at_) => if duration_since now at_ <=? max_age then Some ms else None.

Definition blend_rtt (config : SgRunConfig) (active passive : option f64) : option f64 :=
  match sg_strategy config with
  | DelayProbeActive =>
      let weight := f64_of_f32 (f32_clamp (sg_active_ping_weight config) f32_zero (f32_of_Z 1)) in
      match active, passive with
      | Some active_ms, Some passive_ms =>
          Some (f64_add (f64_mul weight active_ms) (f64_mul (f64_sub f64_one weight) passive_ms))
      | Some active_ms, None => Some active_ms
      | None, Some passive_ms => Some passive_ms
      | None, None => None
      end
  | _ => passive
  end.

(** The effective round-trip time of a site. *)
Definition update_site_rtt (config : SgRunConfig) (now : Z) (ping : option TimedRtt) (ping_updated : bool) (s : SiteState)
    : SiteState :=
  let passive := fresh now passive_max_age (ss_last_passive_rtt s) in
  let active := fresh now (active_max_age config) ((fun p => (tr_rtt_ms p, tr_at p)) <$> ping) in
  let effective := blend_rtt config active passive in
  let active_updated :=
    match sg_strategy config, active with DelayProbeActive, Some _ => ping_updated | _, _ => false end in
  let updated := ss_passive_rtt_updated_this_tick s || active_updated in
  let sample := if updated then effective else None in
  mkSiteState (ss_config s) (ss_download s) (ss_upload s) (ss_current_throughput s) effective passive active
    (ss_passive_rtt_flow_counts s)
    (match sample with Some ms => Some ms | None => ss_rtt_sample_for_baseline_ms s end)
    (ss_rtt_baseline_ms s) (ss_last_passive_rtt s) (ss_passive_rtt_updated_this_tick s)
    (match sample with Some ms => ring_add (ss_round_trip_time s) ms | None => ss_round_trip_time s end)
    (ss_round_trip_time_ma s).

Definition read_new_tick_data (config : SgRunConfig) (now : Z) (ping : option TimedRtt) (ping_updated : bool)
    (all_nodes : list NodeInfo) (t : SiteStateTracker) : SiteStateTracker :=
  let cleared := clear_tick_rtt_state <$> tr_sites t in
  let read := foldl (fun (sites : gmap rstring SiteState) node =>
      match sites !! ni_name node with
      | None => sites
      | Some s => <[ni_name node := read_node now node s]> sites
      end) cleared all_nodes in
  with_sites t (update_site_rtt config now ping ping_updated <$> read).

Definition tracker_check_state (config : SgRunConfig) (now : Z) (t : SiteStateTracker) : SiteStateTracker :=
  with_sites t (site_check_state config now <$> tr_sites t).

(** The recommendations of all sites, in the order [names] of the map. *)
Definition tracker_recommendations (config : SgRunConfig) (names : list rstring) (t : SiteStateTracker)
    : SiteStateTracker * recommendations :=
  (with_sites t ((fun s => (site_recommendations config s).1) <$> tr_sites t),
   concat (map (fun name => match tr_sites t !! name with
                            | Some s => (site_recommendations config s).2
                            | None => []
                            end) names)).

(** ** Applying recommendations *)

Record ApplicationReport : Type := mkReport { rep_errors : list rstring; rep_acknowledged_success : bool }.

Definition site_rate (s : SiteState) (d : RecommendationDirection) : Z := lane_queue_mbps (lane s d).
Definition attempt_target (s : SiteState) (d : RecommendationDirection) : Z :=
  default (site_rate s d) (dd_target_mbps (lane_decision (lane s d))).
Definition queue_minimum_rate (q : QueueNode) (d : RecommendationDirection) : Z :=
  match d with Download => q_download_min_mbps q | Upload => q_upload_min_mbps q end.
Definition interface_name (config : SgRunConfig) (d : RecommendationDirection) : rstring :=
  match d with Download => sg_download_interface config | Upload => sg_upload_interface config end.
Definition cooldown_for_action (config : SgRunConfig) (a : RecommendationAction) : f32 :=
  match a with
  | IncreaseFast => sg_increase_fast_cooldown_seconds config
  | Increase => sg_increase_cooldown_seconds config
  | Decrease => sg_decrease_cooldown_seconds config
  | DecreaseFast => sg_decrease_fast_cooldown_seconds config
  end.

(** The rate of a lane, with its probe age reset. *)
Definition rated_lane (l : Lane) (rate : Z) : Lane :=
  mkLane (lane_state l) rate (lane_throughput l) (lane_retransmits l) (lane_throughput_ma l) (lane_retransmits_ma l) 0
    (lane_last_action l) (lane_decision l) (lane_last_attempt l).

(** The first entry of a name in the published statistics gets the rate of a direction. *)
Fixpoint publish_rate (stats : list (rstring * Z * Z)) (name : rstring) (d : RecommendationDirection) (rate : Z)
    : list (rstring * Z * Z) :=
  match stats with
  | [] => []
  | (n, down, up) :: rest =>
      if bool_decide (n = name) then (match d with Download => (n, rate, up) | Upload => (n, down, rate) end) :: rest
      else (n, down, up) :: publish_rate rest name d rate
  end.

Definition enter_cooldown (now : Z) (s : SiteState) (d : RecommendationDirection) (cooldown_secs : f32)
    (action : RecommendationAction) : SiteState :=
  let l := lane s d in
  set_lane s d (mkLane (Cooldown now cooldown_secs) (lane_queue_mbps l) (lane_throughput l) (lane_retransmits l)
    (lane_throughput_ma l) (lane_retransmits_ma l) 0 (Some (action, now)) (lane_decision l) (lane_last_attempt l)).

Definition dependent_adjustments (site : WatchingSite) (d : RecommendationDirection) (target_rate : Z)
    : list (TcHandle * Z * Z * Z) :=
  map (fun dep =>
    let '(min_rate, max_rate) :=
      match d with
      | Download => (original_min_download_mbps dep, original_max_download_mbps dep)
      | Upload => (original_min_upload_mbps dep, original_max_upload_mbps dep)
      end in
    (dep_class_id dep, min_rate, max_rate, Z.min target_rate max_rate)) (dependent_nodes site).

Definition site_adjustment_batch (site : WatchingSite) (d : RecommendationDirection) (previous_rate new_rate : Z)
    (interface : rstring) (site_class_id : TcHandle) (site_planned_rate : Z) : list StormGuardClassAdjustment :=
  map (fun '(class_id, planned_rate, planned_ceil, rate) =>
    mkStormGuardClassAdjustment interface class_id rate (Z.min previous_rate planned_ceil) planned_rate planned_ceil)
    (dependent_adjustments site d new_rate)
  ++ [mkStormGuardClassAdjustment interface site_class_id new_rate previous_rate site_planned_rate (max_mbps site d)].

(** [(rate != planned).then_some(rate as f32)]. *)
Definition rate_override (rate planned : Z) : option f32 := if rate =? planned then None else Some (f32_of_u64 rate).

Definition site_override_update_with_target (s : SiteState) (d : RecommendationDirection) (target_mbps : Z)
    : SiteOverrideUpdate :=
  let site := ss_config s in
  mkSiteUpdate (watch_name site)
    (rate_override (match d with Download => target_mbps | Upload => lane_queue_mbps (ss_download s) end) (max_download_mbps site))
    (rate_override (match d with Download => lane_queue_mbps (ss_upload s) | Upload => target_mbps end) (max_upload_mbps site)).

Definition record_failed_application (s : SiteState) (d : RecommendationDirection) (action : RecommendationAction)
    (target_mbps : Z) (error : rstring) : SiteState :=
  record_attempt s d (mkAttempt action target_mbps (str "failed") (Some error)).

Definition record_skipped_application (s : SiteState) (r : Recommendation) (reason : rstring) : SiteState :=
  record_attempt s (rec_direction r)
    (mkAttempt (rec_action r) (attempt_target s (rec_direction r)) (str "skipped") (Some reason)).

Definition successful_application_outcome (dry_run : bool) : rstring := if dry_run then str "dry_run" else str "applied".

(** [complete_successful_application]: the site, and the published statistics. *)
Definition complete_successful_application (now : Z) (s : SiteState) (d : RecommendationDirection)
    (action : RecommendationAction) (target_mbps : Z) (cooldown_secs : f32) (dry_run : bool)
    (stats : list (rstring * Z * Z)) : SiteState * list (rstring * Z * Z) :=
  let s1 := if dry_run then s else set_lane s d (rated_lane (lane s d) target_mbps) in
  let stats := if dry_run then stats else publish_rate stats (watch_name (ss_config s)) d target_mbps in
  let s2 := record_attempt s1 d (mkAttempt action target_mbps (successful_application_outcome dry_run) None) in
  (enter_cooldown now s2 d cooldown_secs action, stats).

(** The adjustments that undo a batch. *)
Definition rollback_adjustments (adjustments : list StormGuardClassAdjustment) : list StormGuardClassAdjustment :=
  map (fun a => mkStormGuardClassAdjustment (ca_interface_name a) (ca_class_id a) (ca_previous_rate a) (ca_new_rate a)
                  (ca_planned_rate a) (ca_planned_ceil a)) adjustments.

Section Apply.
  Context {B : Type} `{SgEnv B}.

(** What a recommendation for a circuit's queue leads to: the fallbacks, the outcome's label, its error, whether
    the direction cools down, and the text of a failure. *)
Definition circuit_outcome (config : SgRunConfig) (circuit : rstring) (fallbacks : gset rstring)
    (outcome : result rstring CircuitFallbackOutcome) : gset rstring * rstring * option rstring * bool * rstring :=
  match outcome with
  | Ok (Applied persisted) =>
      ({[circuit]} ∪ fallbacks, str "applied", None, true,
       str "circuit_fallback=applied sqm=" ++ sg_circuit_fallback_sqm config ++ str " persisted=" ++ bool_text persisted)
  | Ok (AppliedUnpersisted error) =>
      ({[circuit]} ∪ fallbacks, str "failed", Some error, false, str "circuit_fallback=applied_unpersisted error=" ++ error)
  | Ok (Cleared persisted) =>
      (fallbacks ∖ {[circuit]}, str "applied", None, true, str "circuit_fallback=cleared persisted=" ++ bool_text persisted)
  | Ok (DryRun action) => (fallbacks, str "dry_run", None, true, str "circuit_fallback=dry_run " ++ action)
  | Ok (Skipped reason) => (fallbacks, str "skipped", Some reason, false, str "circuit_fallback=skipped reason=" ++ reason)
  | Err reason => (fallbacks, str "failed", Some reason, false, str "circuit_fallback=failed reason=" ++ reason)
  end.

(** The fallback that a recommendation asks for. *)
Definition circuit_fallback_call (b : B) (config : SgRunConfig) (r : Recommendation) (circuit : rstring)
    (tree_generation : Z) (fallbacks : gset rstring) : result rstring CircuitFallbackOutcome * B :=
  if negb (sg_circuit_fallback_enabled config) then (Ok (Skipped (str "Circuit fallback disabled in config.")), b)
  else if is_increase (rec_action r) then
    if negb (bool_decide (circuit ∈ fallbacks)) then
      (Ok (Skipped (str "No active StormGuard circuit fallback to clear.")), b)
    else
      let '(outcome, b) := clear_circuit_fallback b circuit (sg_dry_run config) tree_generation in
      (map_err (fun e => str "Fallback clear error: " ++ e) outcome, b)
  else
    let '(outcome, b) := apply_circuit_fallback b circuit (sg_circuit_fallback_sqm config)
                           (sg_circuit_fallback_persist config) (sg_dry_run config) tree_generation in
    (map_err (fun e => str "Fallback error: " ++ e) outcome, b).

(** [handle_circuit_queue_recommendation]: the site and the fallbacks, and the text of a failure. *)
Definition handle_circuit_queue_recommendation (b : B) (now : Z) (config : SgRunConfig) (tree_generation : Z)
    (fallbacks : gset rstring) (s : SiteState) (r : Recommendation) (circuit : rstring)
    : SiteState * gset rstring * option rstring * B :=
  let '(outcome, b) := circuit_fallback_call b config r circuit tree_generation fallbacks in
  let '(fallbacks, label, error, cools_down, text) := circuit_outcome config circuit fallbacks outcome in
  let s1 := record_attempt s (rec_direction r) (mkAttempt (rec_action r) (site_rate s (rec_direction r)) label error) in
  let s2 := if cools_down
            then enter_cooldown now s1 (rec_direction r) (cooldown_for_action config (rec_action r)) (rec_action r)
            else s1 in
  (s2, fallbacks, if bool_decide (label = str "failed") then Some text else None, b).

(** A batch that the Bakery acknowledged is persisted; when that fails, it is rolled back. *)
Definition persist_or_roll_back (b : B) (tree_generation : Z) (adjustments : list StormGuardClassAdjustment)
    (update : SiteOverrideUpdate) : result rstring unit * B :=
  match apply_site_override_updates b [update] with
  | (Ok _, b) => (Ok tt, b)
  | (Err error, b) =>
      match bakery_batch b tree_generation false (rollback_adjustments adjustments) with
      | (Err rollback_error, b) =>
          (Err (str "failed to persist StormGuard rate: " ++ error ++ str "; rollback failed: " ++ rollback_error), b)
      | (Ok _, b) => (Err (str "failed to persist StormGuard rate: " ++ error ++ str "; live classes restored"), b)
      end
  end.

(** The live part of a recommendation for a site's queue. *)
Definition apply_batch (b : B) (config : SgRunConfig) (tree_generation : Z) (s : SiteState) (d : RecommendationDirection)
    (q : QueueNode) (new_rate : Z) : result rstring unit * B :=
  let adjustments := site_adjustment_batch (ss_config s) d (site_rate s d) new_rate (interface_name config d)
                       (q_class_id q) (queue_minimum_rate q d) in
  match bakery_batch b tree_generation (sg_dry_run config) adjustments with
  | (Err error, b) => (Err error, b)
  | (Ok _, b) =>
      if sg_dry_run config then (Ok tt, b)
      else persist_or_roll_back b tree_generation adjustments (site_override_update_with_target s d new_rate)
  end.

(** One recommendation: the tracker, the errors it adds, and whether it was acknowledged. *)
Definition apply_recommendation (b : B) (now : Z) (config : SgRunConfig) (queues : list QueueNode)
    (t : SiteStateTracker) (r : Recommendation) : SiteStateTracker * list rstring * bool * B :=
  let d := rec_direction r in
  let skip s reason := put_site t (rec_site r) (record_skipped_application s r reason) in
  match tr_sites t !! rec_site r with
  | None => (t, [], false, b)
  | Some s =>
      match sg_sites config !! rec_site r with
      | None =>
          (skip s (str "watched-site configuration unavailable"),
           [str "StormGuard watched-site configuration is unavailable for " ++ rec_site r], false, b)
      | Some site_config =>
          match find_queue queues (rec_site r) with
          | None =>
              (skip s (str "watched queue is absent from the shaping tree"),
               [str "StormGuard watched queue " ++ rec_site r ++ str " is absent from the shaping tree"], false, b)
          | Some q =>
              match q_circuit_id q with
              | Some circuit =>
                  let '(s', fallbacks, error, b) :=
                    handle_circuit_queue_recommendation b now config (tr_generation t) (tr_fallbacks t) s r circuit in
                  let acknowledged :=
                    match lane_last_attempt (lane s' d) with
                    | Some a => bool_decide (at_outcome a = str "applied") || bool_decide (at_outcome a = str "dry_run")
                    | None => false
                    end in
                  (mkTracker (tr_generation t) (<[rec_site r := s']> (tr_sites t)) fallbacks (tr_stats t),
                   match error with Some e => [e] | None => [] end, acknowledged, b)
              | None =>
                  match dd_target_mbps (lane_decision (lane s d)) with
                  | None => (skip s (str "decision has no applicable target rate"), [], false, b)
                  | Some new_rate =>
                      if negb ((min_mbps site_config d <=? new_rate) && (new_rate <=? max_mbps site_config d)) then
                        (skip s (str "decision target is outside the configured bounds"), [], false, b)
                      else
                        match apply_batch b config (tr_generation t) s d q new_rate with
                        | (Err error, b) =>
                            (put_site t (rec_site r) (record_failed_application s d (rec_action r) new_rate error),
                             [error], false, b)
                        | (Ok _, b) =>
                            let '(s', stats) :=
                              complete_successful_application now s d (rec_action r) new_rate
                                (cooldown_for_action config (rec_action r)) (sg_dry_run config) (tr_stats t) in
                            (mkTracker (tr_generation t) (<[rec_site r := s']> (tr_sites t)) (tr_fallbacks t) stats,
                             [], true, b)
                        end
                  end
              end
          end
      end
  end.

Fixpoint apply_loop (b : B) (now : Z) (config : SgRunConfig) (queues : list QueueNode) (t : SiteStateTracker)
    (errors : list rstring) (acknowledged : bool) (rs : recommendations) : SiteStateTracker * ApplicationReport * B :=
  match rs with
  | [] => (t, mkReport errors acknowledged, b)
  | (r, _) :: rs =>
      let '(t, new_errors, ok, b) := apply_recommendation b now config queues t r in
      apply_loop b now config queues t (errors ++ new_errors) (acknowledged || ok) rs
  end.

Definition apply_recommendations (b : B) (now : Z) (config : SgRunConfig) (queues : option (list QueueNode))
    (t : SiteStateTracker) (rs : recommendations) : SiteStateTracker * ApplicationReport * B :=
  match queues with
  | None =>
      (foldl (fun t '(r, _) =>
         match tr_sites t !! rec_site r with
         | Some s => put_site t (rec_site r) (record_skipped_application s r (str "queue structure unavailable"))
         | None => t
         end) t rs,
       mkReport [str "StormGuard cannot apply recommendations because queue state is unavailable"] false, b)
  | Some queues => apply_loop b now config queues t [] false rs
  end.

(** One cycle of the main loop over a configured tracker. *)
Definition tracker_tick (b : B) (now : Z) (config : SgRunConfig) (queues : option (list QueueNode)) (names : list rstring)
    (ping : option TimedRtt) (ping_updated : bool) (nodes : list NodeInfo) (t : SiteStateTracker)
    : SiteStateTracker * ApplicationReport * B :=
  let t := read_new_tick_data config now ping ping_updated nodes t in
  let t := tracker_check_state config now t in
  let '(t, rs) := tracker_recommendations config names t in
  match rs with
  | [] => (t, mkReport [] false, b)
  | _ => apply_recommendations b now config queues t rs
  end.

End Apply.
