(* ===== verification/StormguardSpec.v ===== *)
(** * Theorems about StormGuard *)

From S2P Require Import Prelude RustStd RustCollections RustFloat RustFormat ShapedDevice.
From S2P Require Import TcHandle QdiscHandles StormguardConfig BakeryCommands Overrides StormguardSite.
From S2P Require Import StormguardDecisions StormguardActions StormguardTracker.

(** ** Ring buffers *)

(** The last [n] elements of a list, oldest first. *)
Definition last_n {A} (n : nat) (l : list A) : list A := drop (length l - n) l.

(** The buffer that holds exactly the last readings: the oldest at the index when it is full, and free
    places from the index on before that. *)
Definition ring_holds (n : nat) (r : RingBuffer) (xs : list f64) : Prop :=
  length (ring_data r) = n
  /\ ring_index r = (length xs mod n)%nat
  /\ (if (length xs <? n)%nat then ring_data r = map Some xs ++ replicate (n - length xs) None
      else drop (ring_index r) (ring_data r) ++ take (ring_index r) (ring_data r) = map Some (last_n n xs)).

Lemma ring_holds_new n : (0 < n)%nat -> ring_holds n (ring_new n) [].
Proof.
  intros Hn. unfold ring_holds, ring_new. cbn [ring_data ring_index length].
  rewrite length_replicate, Nat.Div0.mod_0_l, (proj2 (Nat.ltb_lt 0 n)) by done.
  split_and!; [done..|]. by rewrite Nat.sub_0_r.
Qed.

Lemma last_n_snoc {A} n (xs : list A) x y rest :
  (0 < n)%nat -> (n <= length xs)%nat -> last_n n xs = y :: rest -> last_n n (xs ++ [x]) = rest ++ [x].
Proof.
  intros Hn Hl. unfold last_n. rewrite length_app. cbn [length]. intros Hd.
  replace (length xs + 1 - n)%nat with (S (length xs - n)) by lia. rewrite drop_app_le by lia.
  f_equal. change (S ?k) with (1 + k)%nat. by rewrite Nat.add_comm, <- drop_drop, Hd.
Qed.

(** Writing over the oldest of a full buffer. *)
Lemma ring_write_full (D : list (option f64)) i x y rest :
  (i < length D)%nat -> drop i D ++ take i D = y :: rest ->
  let i' := ((i + 1) mod length D)%nat in
  drop i' (<[i := x]> D) ++ take i' (<[i := x]> D) = rest ++ [x].
Proof.
  intros Hi. assert (exists A d E, D = A ++ d :: E /\ length A = i) as (A & d & E & -> & <-).
  { exists (take i D), (D !!! i), (drop (S i) D). rewrite length_take. split; [|lia]. symmetry.
    apply take_drop_middle, list_lookup_lookup_total_lt. lia. }
  rewrite drop_app_length, take_app_length. cbn [app]. intros [= <- <-].
  rewrite insert_app_r_alt, Nat.sub_diag by lia. cbn [insert list_insert]. rewrite length_app. cbn [length].
  destruct E as [|e E].
  - rewrite Nat.Div0.mod_same. cbn [drop take app]. by rewrite app_nil_r.
  - cbn [length]. rewrite Nat.mod_small by lia. cbv zeta. change (A ++ x :: e :: E) with (A ++ [x] ++ e :: E). rewrite app_assoc.
    rewrite drop_app_length', take_app_length' by (rewrite length_app; cbn; lia). by rewrite app_assoc.
Qed.

Lemma ring_holds_add n r xs x : (0 < n)%nat -> ring_holds n r xs -> ring_holds n (ring_add r x) (xs ++ [x]).
Proof.
  intros Hn (Hlen & Hidx & Hdata). unfold ring_holds, ring_add. cbn [ring_data ring_index].
  rewrite length_insert, Hlen, length_app. cbn [length].
  assert (((ring_index r + 1) mod n = (length xs + 1) mod n)%nat) as Hi'.
  { rewrite Hidx. by rewrite Nat.Div0.add_mod_idemp_l. }
  split_and!; [done|done|].
  destruct (Nat.ltb_spec (length xs) n) as [Hlt|Hge].
  - rewrite Nat.mod_small in Hidx by lia. rewrite Hidx, Hdata.
    rewrite insert_app_r_alt by (rewrite length_map; lia). rewrite length_map, Nat.sub_diag.
    replace (n - length xs)%nat with (S (n - (length xs + 1))) by lia. cbn [replicate insert list_insert].
    assert (map Some xs ++ Some x :: replicate (n - (length xs + 1)) None
            = map Some (xs ++ [x]) ++ replicate (n - (length xs + 1)) None) as -> by (by rewrite map_app, <- app_assoc).
    destruct (Nat.ltb_spec (length xs + 1) n) as [Hlt'|Hge']; [done|].
    replace (length xs + 1)%nat with n by lia. rewrite Nat.Div0.mod_same, Nat.sub_diag. cbn [replicate drop take].
    rewrite !app_nil_r. unfold last_n. rewrite length_app. cbn [length].
    by replace (length xs + 1 - n)%nat with 0%nat by lia.
  - rewrite (proj2 (Nat.ltb_ge _ _)) by lia.
    assert (length (last_n n xs) = n) as Hll by (unfold last_n; rewrite length_drop; lia).
    destruct (last_n n xs) as [|y rest] eqn:Hl; [cbn in Hll; lia|]. cbn [map] in Hdata.
    rewrite (last_n_snoc n xs x y rest Hn Hge Hl), map_app. cbn [map].
    pose proof (ring_write_full (ring_data r) (ring_index r) (Some x) (Some y) (map Some rest)) as Hw.
    rewrite Hlen in Hw. apply Hw; [|done]. rewrite Hidx. apply Nat.mod_upper_bound. lia.
Qed.

Lemma ring_holds_adds n xs : (0 < n)%nat -> ring_holds n (foldl ring_add (ring_new n) xs) xs.
Proof.
  intros Hn. induction xs as [|x xs IH] using rev_ind; [by apply ring_holds_new|].
  rewrite foldl_snoc. by apply ring_holds_add.
Qed.

Lemma omap_id_some {A} (l : list A) : omap id (map Some l) = l.
Proof. induction l as [|x l IH]; [done|]. cbn. by rewrite IH. Qed.

Lemma omap_id_none {A} n : omap id (replicate n (@None A)) = [].
Proof. by induction n. Qed.

Lemma ring_held n r xs : (0 < n)%nat -> ring_holds n r xs -> omap id (ring_data r) ≡ₚ last_n n xs.
Proof.
  intros Hn (Hlen & Hidx & Hdata). destruct (Nat.ltb_spec (length xs) n) as [Hlt|Hge].
  - rewrite Hdata, omap_app, omap_id_some, omap_id_none, app_nil_r. unfold last_n.
    by replace (length xs - n)%nat with 0%nat by lia.
  - rewrite <- (take_drop (ring_index r) (ring_data r)), omap_app, Permutation_app_comm, <- omap_app, Hdata.
    by rewrite omap_id_some.
Qed.

Lemma ring_count_held r : ring_count r = length (omap id (ring_data r)).
Proof. unfold ring_count. induction (ring_data r) as [|[x|] l IH]; [done|..]; cbn in *; lia. Qed.

Lemma small_count_positive (c : nat) : (1 <= c <= 15)%nat -> f64_lt f64_zero (f64_of_Z (Z.of_nat c)) = true.
Proof. intros Hc. do 16 (destruct c as [|c]; [first [lia | by vm_compute]|]). lia. Qed.

(** A buffer of readings holds exactly the last fifteen: after any sequence of readings it counts as many
    of them as fit, the readings in it are the last ones, and its average exists exactly when there has been
    a reading, as their sum over their number. *)
Theorem ring_buffer_keeps_last_readings xs :
  let r := foldl ring_add (ring_new READING_ACCUMULATOR_SIZE) xs in
  ring_count r = Nat.min READING_ACCUMULATOR_SIZE (length xs)
  /\ omap id (ring_data r) ≡ₚ last_n READING_ACCUMULATOR_SIZE xs
  /\ ring_average r = (if decide (xs = []) then None
       else Some (f64_div (f64_sum (omap id (ring_data r))) (f64_of_Z (Z.of_nat (ring_count r))))).
Proof.
  cbv zeta. assert (0 < READING_ACCUMULATOR_SIZE)%nat as Hn by (unfold READING_ACCUMULATOR_SIZE; lia).
  pose proof (ring_held _ _ _ Hn (ring_holds_adds _ xs Hn)) as Hheld.
  set (r := foldl ring_add (ring_new READING_ACCUMULATOR_SIZE) xs) in *.
  assert (ring_count r = Nat.min READING_ACCUMULATOR_SIZE (length xs)) as Hcount.
  { rewrite ring_count_held, Hheld. unfold last_n. rewrite length_drop. lia. }
  split_and!; [done|done|]. unfold ring_average. rewrite Hcount. case_decide as Hxs.
  - by rewrite Hxs.
  - assert (0 < length xs)%nat as Hpos by (destruct xs; [done|cbn; lia]). unfold READING_ACCUMULATOR_SIZE in *.
    rewrite (proj2 (Nat.eqb_neq _ _)) by lia. by rewrite small_count_positive by lia.
Qed.

(** ** Decisions *)

Lemma candidate_target_bounds queue lo hi action config target :
  candidate_target queue lo hi action config = Some target -> lo <= target <= hi /\ target <> queue.
Proof.
  unfold candidate_target. destruct (negb _ && _ && _) eqn:H; [|done]. intros [= <-]. lia.
Qed.

(** When the delay probe increases. *)
Lemma delay_probe_action_increase config can_increase can_decrease sig retransmits load ticks reason action :
  delay_probe_action config can_increase can_decrease sig retransmits load ticks = (Some action, reason) ->
  is_increase action = true ->
  can_increase = true
  /\ (can_decrease = true -> sig_bloat sig = false /\ loss_at_least retransmits (f64_ratio 5 100) = false)
  /\ exists delay ratio, sig_delay_ms sig = Some delay /\ sig_delay_ratio sig = Some ratio
     /\ probe_conditions config delay ratio load ticks = true.
Proof.
  unfold delay_probe_action. destruct can_increase, can_decrease; cbn [negb andb]; try done.
  - destruct (sig_severe_bloat sig || _); [by intros [= <- <-]|].
    destruct (sig_bloat sig || loss_at_least _ _) eqn:Hb; [by intros [= <- <-]|]. apply orb_false_iff in Hb as [? ?].
    destruct (sig_delay_ms sig) as [delay|], (sig_delay_ratio sig) as [ratio|]; try done.
    destruct (probe_conditions _ _ _ _ _) eqn:Hp; [|done]. intros _ _. naive_solver.
  - destruct (sig_delay_ms sig) as [delay|], (sig_delay_ratio sig) as [ratio|]; try done.
    destruct (probe_conditions _ _ _ _ _) eqn:Hp; [|done]. intros _ _. naive_solver.
  - destruct (sig_severe_bloat sig || _); [by intros [= <- <-]|]. by destruct (sig_bloat sig || _); intros [= <- <-].
Qed.

Lemma lane_set_lane s d d' l : lane (set_lane s d l) d' = if decide (d' = d) then l else lane s d'.
Proof. by destruct d, d'. Qed.
Lemma config_set_lane s d l : ss_config (set_lane s d l) = ss_config s.
Proof. done. Qed.
Lemma delay_signal_set_lane config s d l d' : delay_signal config (set_lane s d l) d' = delay_signal config s d'.
Proof. by destruct d'. Qed.

#[local] Arguments set_lane : simpl never.
#[local] Arguments delay_signal : simpl never.

Lemma lane_set_decision s d d' decision :
  lane_state (lane (set_decision s d decision) d') = lane_state (lane s d')
  /\ lane_queue_mbps (lane (set_decision s d decision) d') = lane_queue_mbps (lane s d')
  /\ lane_decision (lane (set_decision s d decision) d') = (if decide (d' = d) then decision else lane_decision (lane s d')).
Proof. unfold set_decision. rewrite lane_set_lane. case_decide as Hd; [by rewrite Hd|done]. Qed.

(** The delay of a round trip over its baseline, which counts as at least 1 ms, and the ratio of the two. *)
Definition excess_delay (rtt baseline : f64) : f64 := f64_max (f64_sub rtt (f64_max baseline f64_one)) f64_zero.
Definition delay_factor (rtt baseline : f64) : f64 := f64_div rtt (f64_max baseline f64_one).

(** The loss that is measured in a direction. *)
Definition measured_loss (s : SiteState) (d : RecommendationDirection) : option f64 :=
  ring_average (lane_retransmits (lane s d)).

(** When the delay probe may increase: the delay is measured and at most half of what the thresholds allow, at
    least 80% of the rate is used, the last probe is [age] ticks ago, which is a probe interval, and unless the
    rate is at its minimum neither delay nor loss is over a threshold. *)
Definition probe_justified (config : SgRunConfig) (s : SiteState) (d : RecommendationDirection) (age : Z) : Prop :=
  let rate := lane_queue_mbps (lane s d) in
  let threshold_ms := f64_of_f32 (sg_delay_threshold_ms config) in
  let threshold_ratio := f64_of_f32 (sg_delay_threshold_ratio config) in
  exists rtt baseline, ss_current_rtt_ms s = Some rtt /\ ss_rtt_baseline_ms s = Some baseline
  /\ f64_le (excess_delay rtt baseline) (f64_mul threshold_ms (f64_ratio 1 2)) = true
  /\ f64_le (delay_factor rtt baseline)
       (f64_add f64_one (f64_mul (f64_sub threshold_ratio f64_one) (f64_ratio 1 2))) = true
  /\ 0 < rate /\ f64_le (f64_ratio 80 100) (f64_div (throughput_mbps s d) (f64_of_Z rate)) = true
  /\ rounded_to_unsigned u32_max (f32_max (sg_probe_interval_seconds config) (f32_of_Z 1)) <= age
  /\ (min_mbps (ss_config s) d < rate ->
      f64_le threshold_ms (excess_delay rtt baseline) = false
      /\ f64_le threshold_ratio (delay_factor rtt baseline) = false
      /\ forall loss, measured_loss s d = Some loss -> f64_le (f64_ratio 5 100) loss = false).

(** When it may decrease: a delay or a loss reaches its threshold, for a fast decrease a larger one. *)
Definition congested (config : SgRunConfig) (s : SiteState) (d : RecommendationDirection) (fast : bool) : Prop :=
  let threshold_ms := f64_of_f32 (sg_delay_threshold_ms config) in
  let threshold_ratio := f64_of_f32 (sg_delay_threshold_ratio config) in
  (exists rtt baseline, ss_current_rtt_ms s = Some rtt /\ ss_rtt_baseline_ms s = Some baseline
   /\ (f64_le (if fast then f64_mul threshold_ms (f64_of_Z 2) else threshold_ms) (excess_delay rtt baseline) = true
       \/ f64_le (if fast then f64_add f64_one (f64_mul (f64_sub threshold_ratio f64_one) (f64_of_Z 2)) else threshold_ratio)
            (delay_factor rtt baseline) = true))
  \/ exists loss, measured_loss s d = Some loss /\ f64_le (if fast then f64_ratio 10 100 else f64_ratio 5 100) loss = true.

Definition is_fast (action : RecommendationAction) : bool :=
  match action with IncreaseFast | DecreaseFast => true | Increase | Decrease => false end.

(** What a recommendation promises: it is for this site and a running direction, its action is possible
    between the bounds, and under the delay probe it is justified by what was measured. *)
Definition recommendation_ok (config : SgRunConfig) (s : SiteState) (age : Z) (r : Recommendation) : Prop :=
  let d := rec_direction r in
  let rate := lane_queue_mbps (lane s d) in
  rec_site r = watch_name (ss_config s)
  /\ lane_state (lane s d) = Running
  /\ (if is_increase (rec_action r) then rate < max_mbps (ss_config s) d else min_mbps (ss_config s) d < rate)
  /\ (is_delay_probe (sg_strategy config) = true ->
      if is_increase (rec_action r) then probe_justified config s d age
      else congested config s d (is_fast (rec_action r))).

Lemma delay_signal_cases config s d :
  let threshold_ms := f64_of_f32 (sg_delay_threshold_ms config) in
  let threshold_ratio := f64_of_f32 (sg_delay_threshold_ratio config) in
  delay_signal config s d = mkDelaySignal None None false false
  \/ exists rtt baseline, ss_current_rtt_ms s = Some rtt /\ ss_rtt_baseline_ms s = Some baseline
     /\ let delay := excess_delay rtt baseline in
        let ratio := delay_factor rtt baseline in
        delay_signal config s d
        = mkDelaySignal (Some delay) (Some ratio) (f64_ge delay threshold_ms || f64_ge ratio threshold_ratio)
            (f64_ge delay (f64_mul threshold_ms (f64_of_Z 2)) || f64_ge ratio (fast_ratio threshold_ratio (f64_of_Z 2))).
Proof.
  cbn zeta. unfold delay_signal. destruct (match sg_strategy config with DelayProbeActive => _ | _ => _ end); [|by left].
  destruct (ss_current_rtt_ms s) as [rtt|]; [|by left]. destruct (ss_rtt_baseline_ms s) as [baseline|]; [|by left].
  right. by exists rtt, baseline.
Qed.

Lemma delay_signal_measured config s d delay ratio :
  sig_delay_ms (delay_signal config s d) = Some delay -> sig_delay_ratio (delay_signal config s d) = Some ratio ->
  exists rtt baseline, ss_current_rtt_ms s = Some rtt /\ ss_rtt_baseline_ms s = Some baseline
    /\ delay = excess_delay rtt baseline /\ ratio = delay_factor rtt baseline
    /\ sig_bloat (delay_signal config s d)
       = f64_le (f64_of_f32 (sg_delay_threshold_ms config)) delay || f64_le (f64_of_f32 (sg_delay_threshold_ratio config)) ratio.
Proof.
  destruct (delay_signal_cases config s d) as [->|(rtt & baseline & Hrtt & Hbase & ->)]; [done|].
  cbn [sig_delay_ms sig_delay_ratio sig_bloat]. intros [= <-] [= <-]. by exists rtt, baseline.
Qed.

Lemma signal_congested config s d (fast : bool) :
  (if fast then sig_severe_bloat (delay_signal config s d) else sig_bloat (delay_signal config s d))
    || loss_at_least (measured_loss s d) (if fast then f64_ratio 10 100 else f64_ratio 5 100) = true ->
  congested config s d fast.
Proof.
  unfold congested, loss_at_least, f64_ge. intros [Hb|Hl]%orb_true_iff.
  - left. destruct (delay_signal_cases config s d) as [Heq|(rtt & baseline & Hrtt & Hbase & Heq)]; rewrite Heq in Hb.
    { by destruct fast. }
    exists rtt, baseline. split; [done|]. split; [done|]. apply orb_true_iff. by destruct fast.
  - right. destruct (measured_loss s d) as [loss|]; [|done]. by exists loss.
Qed.

Lemma delay_probe_action_decrease config can_increase can_decrease sig retransmits load ticks reason action :
  delay_probe_action config can_increase can_decrease sig retransmits load ticks = (Some action, reason) ->
  is_increase action = false ->
  can_decrease = true
  /\ (if is_fast action then sig_severe_bloat sig else sig_bloat sig)
     || loss_at_least retransmits (if is_fast action then f64_ratio 10 100 else f64_ratio 5 100) = true.
Proof.
  unfold delay_probe_action. intros Ha Hi.
  destruct (negb can_increase && negb can_decrease); [done|]. destruct can_decrease; cbn [andb] in Ha.
  - destruct (sig_severe_bloat sig || _) eqn:Hs; [by injection Ha as <- _|].
    destruct (sig_bloat sig || _) eqn:Hb; [by injection Ha as <- _|].
    destruct can_increase; [|done]. by repeat case_match; simplify_eq/=.
  - destruct can_increase; [|done]. by repeat case_match; simplify_eq/=.
Qed.

(** The conditions of a probe, written out. *)
Lemma probe_conditions_justify config s d delay ratio ticks :
  sig_delay_ms (delay_signal config s d) = Some delay -> sig_delay_ratio (delay_signal config s d) = Some ratio ->
  probe_conditions config delay ratio (load_ratio (throughput_mbps s d) (lane_queue_mbps (lane s d))) ticks = true ->
  (min_mbps (ss_config s) d < lane_queue_mbps (lane s d) ->
     sig_bloat (delay_signal config s d) = false /\ loss_at_least (measured_loss s d) (f64_ratio 5 100) = false) ->
  probe_justified config s d ticks.
Proof.
  intros Hd Hr Hp Hlow. destruct (delay_signal_measured _ _ _ _ _ Hd Hr) as (rtt & baseline & Hrtt & Hbase & -> & -> & Hbloat).
  rewrite Hbloat in Hlow. clear Hbloat. unfold probe_conditions, f64_ge, load_ratio in Hp.
  apply andb_true_iff in Hp as [[[Hp1 Hp2]%andb_true_iff Hp3]%andb_true_iff Hp4%Z.leb_le].
  exists rtt, baseline. destruct (Z.ltb_spec 0 (lane_queue_mbps (lane s d))) as [Hpos|]; [|by vm_compute in Hp3].
  split_and!; try done. intros Hmin. destruct (Hlow Hmin) as [[? ?]%orb_false_iff Hloss].
  split_and!; [done..|]. intros loss Hl. by rewrite Hl in Hloss.
Qed.

Lemma delay_probe_direction_ok config s d s' rs :
  is_delay_probe (sg_strategy config) = true ->
  recommendations_delay_probe_direction config s d = (s', rs) ->
  (exists decision, s' = set_decision s d decision
     /\ (forall target, dd_target_mbps decision = Some target ->
         min_mbps (ss_config s) d <= target <= max_mbps (ss_config s) d))
  /\ (forall r text, (r, text) ∈ rs -> rec_direction r = d
      /\ recommendation_ok config s (lane_ticks_since_last_probe (lane s d)) r).
Proof.
  intros Hstrategy. unfold recommendations_delay_probe_direction.
  set (queue := lane_queue_mbps (lane s d)). set (lo := min_mbps (ss_config s) d). set (hi := max_mbps (ss_config s) d).
  set (sig := delay_signal config s d).
  destruct (delay_probe_action _ _ _ _ _ _ _) as [action reason] eqn:Ha.
  set (target := _ ≫= _). set (summary := delay_probe_summary _ _ _ _ _ _). set (blocker := or_blocked _ _ _).
  assert (forall t, target = Some t -> lo <= t <= hi) as Htarget.
  { intros t. unfold target. destruct action as [action|]; [|done]. cbn [mbind option_bind].
    intros Ht%candidate_target_bounds. lia. }
  destruct blocker eqn:Hblocker; [intros [= <- <-]; split; [by eexists|]; by intros r text ?%not_elem_of_nil|].
  destruct action as [action|]; [|intros [= <- <-]; split; [by eexists|]; by intros r text ?%not_elem_of_nil].
  intros [= <- <-]. split; [by eexists|]. intros r text Hin%list_elem_of_singleton. injection Hin as -> ->.
  split; [done|]. unfold recommendation_ok. cbn [rec_direction rec_site rec_action]. split; [done|].
  assert (lane_state (lane s d) = Running) as Hrun.
  { revert Hblocker. unfold blocker, or_blocked, state_blocker. destruct (lane_state (lane s d)); done. }
  split; [done|]. destruct (is_increase action) eqn:Hinc.
  - apply delay_probe_action_increase in Ha as (Hci & Hcd & delay & ratio & Hd1 & Hd2 & Hp); [|done].
    fold queue hi lo. split; [lia|]. intros _. eapply probe_conditions_justify; [done..|].
    intros Hlo. apply Hcd. lia.
  - apply delay_probe_action_decrease in Ha as [Hcd Hsig]; [|done]. fold queue hi lo. split; [lia|]. intros _.
    by apply signal_congested.
Qed.

Lemma legacy_direction_ok config s d age s' rs :
  is_delay_probe (sg_strategy config) = false ->
  recommendations_legacy_score_direction config s d = (s', rs) ->
  (exists decision decision', s' = set_decision (set_decision s d decision) d decision'
     /\ (forall target, dd_target_mbps decision' = Some target ->
         min_mbps (ss_config s) d <= target <= max_mbps (ss_config s) d))
  /\ (forall r text, (r, text) ∈ rs -> rec_direction r = d /\ recommendation_ok config s age r).
Proof.
  intros Hstrategy. unfold recommendations_legacy_score_direction.
  set (queue := lane_queue_mbps (lane s d)). set (lo := min_mbps (ss_config s) d). set (hi := max_mbps (ss_config s) d).
  set (p := mkParams _ _ _ _ _ _ _ _). unfold recommendation_matrix.
  set (action := legacy_action _). set (blocker := or_blocked _ _ _).
  intros [= <- <-]. split.
  - eexists _, _. split; [done|]. cbn [dd_target_mbps]. intros target.
    rewrite (proj2 (proj2 (lane_set_decision _ _ _ _))), decide_True by done. cbn [dd_candidate_action].
    destruct action as [action|]; [|done]. cbn [mbind option_bind]. intros Ht%candidate_target_bounds. lia.
  - intros r text. destruct blocker eqn:Hblocker; [by intros ?%not_elem_of_nil|].
    destruct action as [act|]; [|by intros ?%not_elem_of_nil].
    destruct (if is_increase act then _ else _) eqn:Hcan; [|by intros ?%not_elem_of_nil].
    intros Hin%list_elem_of_singleton. injection Hin as -> ->. split; [done|].
    unfold recommendation_ok. cbn [rec_direction rec_site rec_action p p_direction] in *.
    assert (lane_state (lane s d) = Running) as Hrun.
    { revert Hblocker. unfold blocker, or_blocked, state_blocker. cbn [p_direction p]. destruct (lane_state (lane s d)); done. }
    rewrite Hstrategy. split_and!; [done|done| |done]. fold queue lo hi. cbn [p_can_increase p_can_decrease p] in Hcan.
    destruct (is_increase act); lia.
Qed.

(** States that differ only in what no recommendation depends on. *)
Definition same_view (s s' : SiteState) : Prop :=
  ss_config s' = ss_config s
  /\ (forall d, lane_state (lane s' d) = lane_state (lane s d) /\ lane_queue_mbps (lane s' d) = lane_queue_mbps (lane s d)
        /\ lane_retransmits (lane s' d) = lane_retransmits (lane s d))
  /\ ss_current_rtt_ms s' = ss_current_rtt_ms s /\ ss_rtt_baseline_ms s' = ss_rtt_baseline_ms s
  /\ ss_current_throughput s' = ss_current_throughput s.

#[export] Instance same_view_preorder : PreOrder same_view.
Proof.
  split; [by intros s; split_and!|]. intros s1 s2 s3 (C1 & L1 & R1 & B1 & T1) (C2 & L2 & R2 & B2 & T2).
  split_and!; [congruence| |congruence..]. intros d. destruct (L1 d) as (? & ? & ?), (L2 d) as (? & ? & ?).
  split_and!; congruence.
Qed.

Lemma same_view_set_lane s d l :
  lane_state l = lane_state (lane s d) -> lane_queue_mbps l = lane_queue_mbps (lane s d) ->
  lane_retransmits l = lane_retransmits (lane s d) -> same_view s (set_lane s d l).
Proof.
  intros H1 H2 H3. split_and!; try by destruct d.
  intros d'. rewrite lane_set_lane. case_decide as Hd; [by rewrite Hd|done].
Qed.
Lemma same_view_set_decision s d decision : same_view s (set_decision s d decision).
Proof. by apply same_view_set_lane. Qed.
Lemma same_view_tick s d : same_view s (set_lane s d (tick_lane (lane s d))).
Proof. by apply same_view_set_lane. Qed.
#[local] Hint Resolve same_view_set_decision same_view_tick : rust.

Lemma recommendation_ok_view config s s' age r :
  same_view s s' -> recommendation_ok config s' age r -> recommendation_ok config s age r.
Proof.
  intros (C & L & R & B & T). unfold recommendation_ok, probe_justified, congested, measured_loss, throughput_mbps.
  destruct (L (rec_direction r)) as (E1 & E2 & E3). by rewrite C, E1, E2, E3, R, B, T.
Qed.

(** The targets that a site has decided on lie between its bounds. *)
Definition targets_ok (s : SiteState) : Prop :=
  forall d target, dd_target_mbps (lane_decision (lane s d)) = Some target ->
    min_mbps (ss_config s) d <= target <= max_mbps (ss_config s) d.

Lemma targets_ok_set_decision s d decision :
  targets_ok s ->
  (forall target, dd_target_mbps decision = Some target -> min_mbps (ss_config s) d <= target <= max_mbps (ss_config s) d) ->
  targets_ok (set_decision s d decision).
Proof.
  intros Hs Hd d' target. change (ss_config (set_decision s d decision)) with (ss_config s).
  rewrite (proj2 (proj2 (lane_set_decision s d d' decision))). case_decide as Heq; [rewrite Heq; apply Hd|apply Hs].
Qed.

Lemma targets_ok_set_lane s d l :
  targets_ok s -> dd_target_mbps (lane_decision l) = dd_target_mbps (lane_decision (lane s d)) -> targets_ok (set_lane s d l).
Proof.
  intros Hs Hl d' target. change (ss_config (set_lane s d l)) with (ss_config s).
  rewrite lane_set_lane. case_decide as Heq; [rewrite Hl, Heq; apply Hs|apply Hs].
Qed.

Lemma set_decision_twice s d decision decision' :
  set_decision (set_decision s d decision) d decision' = set_decision s d decision'.
Proof. destruct d; reflexivity. Qed.

(** One direction of either strategy. *)
Lemma direction_step config s d s' rs :
  (is_delay_probe (sg_strategy config) = true /\ recommendations_delay_probe_direction config s d = (s', rs))
  \/ (is_delay_probe (sg_strategy config) = false /\ recommendations_legacy_score_direction config s d = (s', rs)) ->
  same_view s s' /\ (targets_ok s -> targets_ok s')
  /\ (forall d', lane_ticks_since_last_probe (lane s' d') = lane_ticks_since_last_probe (lane s d'))
  /\ forall r text, (r, text) ∈ rs -> rec_direction r = d
       /\ forall age, (is_delay_probe (sg_strategy config) = true -> age = lane_ticks_since_last_probe (lane s d)) ->
          recommendation_ok config s age r.
Proof.
  intros [[Hs Hd]|[Hs Hd]].
  - apply delay_probe_direction_ok in Hd as [(decision & -> & Ht) Hr]; [|done].
    split_and!; [auto with rust|intros; by apply targets_ok_set_decision|by destruct d; intros []|].
    intros r text Hin. destruct (Hr r text Hin) as [? Hok]. split; [done|]. by intros age ->.
  - pose proof (fun age => legacy_direction_ok config s d age s' rs Hs Hd) as Hlegacy.
    destruct (Hlegacy 0) as [(decision & decision' & -> & Ht) _]. rewrite set_decision_twice in *.
    split_and!; [auto with rust|intros; by apply targets_ok_set_decision|by destruct d; intros []|].
    intros r text Hin. split; [by eapply (proj2 (Hlegacy 0))|]. intros age _. by eapply (proj2 (Hlegacy age)).
Qed.

(** The ticks since the last probe when a site is evaluated. *)
Definition probe_age (s : SiteState) (d : RecommendationDirection) : Z :=
  Z.min (lane_ticks_since_last_probe (lane s d) + 1) u32_max.

Lemma site_recommendations_ok config s s' rs :
  site_recommendations config s = (s', rs) ->
  same_view s s' /\ (targets_ok s -> targets_ok s')
  /\ forall r text, (r, text) ∈ rs -> recommendation_ok config s (probe_age s (rec_direction r)) r.
Proof.
  unfold site_recommendations. destruct (is_delay_probe (sg_strategy config)) eqn:Hstrategy.
  - set (s1 := set_lane s Download _). set (s2 := set_lane s1 Upload _).
    assert (same_view s s2) as V2 by (etrans; [apply (same_view_tick s Download)|apply (same_view_tick s1 Upload)]).
    assert (targets_ok s -> targets_ok s2) as T2 by (intros; by do 2 (apply targets_ok_set_lane; [|done])).
    destruct (recommendations_delay_probe_direction config s2 Download) as [s3 down] eqn:H3.
    destruct (recommendations_delay_probe_direction config s3 Upload) as [s4 up] eqn:H4. intros [= <- <-].
    destruct (direction_step config s2 Download s3 down) as (V3 & T3 & A3 & R3); [by left|].
    destruct (direction_step config s3 Upload s4 up) as (V4 & T4 & _ & R4); [by left|].
    split; [by do 2 (etrans; [eassumption|])|]. split; [auto|].
    intros r text. rewrite elem_of_app. intros [Hr|Hr].
    + destruct (R3 r text Hr) as [-> Hok]. eapply recommendation_ok_view; [exact V2|]. by apply Hok.
    + destruct (R4 r text Hr) as [-> Hok]. eapply recommendation_ok_view; [exact V2|].
      eapply recommendation_ok_view; [exact V3|]. apply Hok. intros _. by rewrite A3.
  - destruct (recommendations_legacy_score_direction config s Download) as [s1 down] eqn:H1.
    set (s2 := if _ : bool then _ else s1).
    assert (same_view s1 s2) as V2 by (unfold s2; destruct (is_running (lane_state (ss_download s1))); [apply (same_view_tick s1 Download)|done]).
    assert (targets_ok s1 -> targets_ok s2) as T2
      by (unfold s2; destruct (is_running (lane_state (ss_download s1))); [|done]; intros; by apply targets_ok_set_lane).
    destruct (recommendations_legacy_score_direction config s2 Upload) as [s3 up] eqn:H3. intros [= <- <-].
    set (s4 := if _ : bool then _ else s3).
    assert (same_view s3 s4) as V4 by (unfold s4; destruct (is_running (lane_state (ss_upload s3))); [apply (same_view_tick s3 Upload)|done]).
    assert (targets_ok s3 -> targets_ok s4) as T4
      by (unfold s4; destruct (is_running (lane_state (ss_upload s3))); [|done]; intros; by apply targets_ok_set_lane).
    destruct (direction_step config s Download s1 down) as (V1 & T1 & _ & R1); [by right|].
    destruct (direction_step config s2 Upload s3 up) as (V3 & T3 & _ & R3); [by right|].
    split; [by do 3 (etrans; [eassumption|])|]. split; [auto|].
    intros r text. rewrite elem_of_app. intros [Hr|Hr]; [by apply (R1 r text Hr); rewrite Hstrategy|].
    eapply recommendation_ok_view; [exact V1|]. eapply recommendation_ok_view; [exact V2|].
    by apply (R3 r text Hr); rewrite Hstrategy.
Qed.

(** C30: Every recommendation is justified: it is for the site itself and for a direction that is neither
    warming up nor cooling down, an increase is below the configured maximum and a decrease above the
    minimum; under the delay probe an increase has a measured delay of at most half of what the thresholds
    allow, a load of at least 80%, a probe interval gone by and, above the minimum rate, neither delay nor loss
    over a threshold, and a decrease has a delay or a loss that reaches its threshold; and every target decided
    on lies between the bounds. *)
Theorem recommendations_are_justified config s s' rs :
  site_recommendations config s = (s', rs) -> targets_ok s ->
  (forall r text, (r, text) ∈ rs -> recommendation_ok config s (probe_age s (rec_direction r)) r) /\ targets_ok s'.
Proof. intros H Ht. destruct (site_recommendations_ok config s s' rs H) as (_ & T & R). auto. Qed.

(** ** Rates over ticks *)

(** Steps that change neither the configuration of a site nor its rates. *)
Definition same_rates (s s' : SiteState) : Prop :=
  ss_config s' = ss_config s /\ forall d, site_rate s' d = site_rate s d.

#[export] Instance same_rates_preorder : PreOrder same_rates.
Proof.
  split; [done|]. intros s1 s2 s3 [C1 R1] [C2 R2]. split; [congruence|]. intros d. by rewrite R2, R1.
Qed.

Lemma same_view_rates s s' : same_view s s' -> same_rates s s'.
Proof. intros (C & L & _). split; [done|]. intros d. apply L. Qed.

Lemma same_rates_set_lane s d l : lane_queue_mbps l = site_rate s d -> same_rates s (set_lane s d l).
Proof.
  intros H1. split; [done|]. intros d'. unfold site_rate. rewrite lane_set_lane. case_decide as Hd; [by rewrite Hd|done].
Qed.
Lemma same_rates_record_attempt s d attempt : same_rates s (record_attempt s d attempt).
Proof. by apply same_rates_set_lane. Qed.
Lemma same_rates_enter_cooldown now s d secs action : same_rates s (enter_cooldown now s d secs action).
Proof. by apply same_rates_set_lane. Qed.
Lemma same_rates_skipped s r reason : same_rates s (record_skipped_application s r reason).
Proof. apply same_rates_record_attempt. Qed.

Lemma check_state_direction_rate now l : lane_queue_mbps (check_state_direction now l) = lane_queue_mbps l.
Proof. unfold check_state_direction. destruct (lane_state l); [by destruct (_ && _)|done..]. Qed.

Lemma same_rates_check_state config now s : same_rates s (site_check_state config now s).
Proof. split; [done|]. intros []; apply check_state_direction_rate. Qed.
Lemma same_rates_clear_tick s : same_rates s (clear_tick_rtt_state s).
Proof. by split; [|intros []]. Qed.
Lemma same_rates_read_node now node s : same_rates s (read_node now node s).
Proof. by split; [|intros []]. Qed.
Lemma same_rates_update_rtt config now ping updated s : same_rates s (update_site_rtt config now ping updated s).
Proof. by split; [|intros []]. Qed.
#[local] Hint Resolve same_rates_record_attempt same_rates_enter_cooldown same_rates_skipped same_rates_check_state
  same_rates_clear_tick same_rates_read_node same_rates_update_rtt : rust.

(** A site of a tracker: as configured, and with its rates between the bounds. *)
Definition site_ok (config : SgRunConfig) (name : rstring) (s : SiteState) : Prop :=
  sg_sites config !! name = Some (ss_config s)
  /\ forall d, min_mbps (ss_config s) d <= site_rate s d <= max_mbps (ss_config s) d.
Definition sites_ok (config : SgRunConfig) (sites : gmap rstring SiteState) : Prop := map_Forall (site_ok config) sites.

Lemma site_ok_same_rates config name s s' : same_rates s s' -> site_ok config name s -> site_ok config name s'.
Proof. intros [C R] [Hc Hb]. split; [by rewrite C|]. intros d. rewrite C, R. apply Hb. Qed.

Lemma sites_ok_fmap config f sites : (forall s, same_rates s (f s)) -> sites_ok config sites -> sites_ok config (f <$> sites).
Proof.
  intros Hf Hok name s. rewrite lookup_fmap. intros (s0 & Hs & ->)%fmap_Some. eapply site_ok_same_rates; [apply Hf|by apply Hok].
Qed.

Lemma sites_ok_insert config name s sites : site_ok config name s -> sites_ok config sites -> sites_ok config (<[name := s]> sites).
Proof. intros Hs Hok. by apply map_Forall_insert_2. Qed.

Lemma sites_ok_read_tick config now ping updated nodes t :
  sites_ok config (tr_sites t) -> sites_ok config (tr_sites (read_new_tick_data config now ping updated nodes t)).
Proof.
  intros Hok. unfold read_new_tick_data. cbn [tr_sites with_sites]. apply sites_ok_fmap; [auto with rust|].
  assert (sites_ok config (clear_tick_rtt_state <$> tr_sites t)) as Hc by (apply sites_ok_fmap; auto with rust).
  revert Hc. generalize (clear_tick_rtt_state <$> tr_sites t). induction nodes as [|node nodes IH]; intros sites Hs; [done|].
  cbn [foldl]. apply IH. destruct (sites !! ni_name node) as [s|] eqn:Hl; [|done].
  apply sites_ok_insert; [|done]. eapply site_ok_same_rates; [apply same_rates_read_node|by apply Hs].
Qed.

Section Ticks.
  Context {B : Type} `{SgEnv B}.

Lemma sites_ok_recommendation b now config queues t r t' errors ok b' :
  sites_ok config (tr_sites t) -> apply_recommendation b now config queues t r = (t', errors, ok, b') ->
  sites_ok config (tr_sites t').
Proof.
  intros Hok. unfold apply_recommendation. destruct (tr_sites t !! rec_site r) as [s|] eqn:Hs; [|by intros [= <- <- <- <-]].
  pose proof (Hok _ _ Hs) as Hsok.
  assert (forall s', same_rates s s' -> sites_ok config (<[rec_site r := s']> (tr_sites t))) as Hput.
  { intros s' Hr. apply sites_ok_insert; [by eapply site_ok_same_rates|done]. }
  destruct (sg_sites config !! rec_site r) as [site_config|] eqn:Hsc; [|intros [= <- <- <- <-]; by apply Hput, same_rates_skipped].
  destruct (find_queue queues (rec_site r)) as [q|]; [|intros [= <- <- <- <-]; by apply Hput, same_rates_skipped].
  destruct (q_circuit_id q) as [circuit|].
  { unfold handle_circuit_queue_recommendation.
    destruct (circuit_fallback_call _ _ _ _ _ _) as [outcome b1].
    destruct (circuit_outcome _ _ _ _) as [[[[fallbacks label] error] cools] text]. intros [= <- <- <- <-]. apply Hput.
    destruct cools; [etrans; [apply same_rates_record_attempt|apply same_rates_enter_cooldown]|apply same_rates_record_attempt]. }
  destruct (dd_target_mbps _) as [new_rate|]; [|intros [= <- <- <- <-]; by apply Hput, same_rates_skipped].
  destruct (negb _) eqn:Hb; [intros [= <- <- <- <-]; by apply Hput, same_rates_skipped|].
  destruct (apply_batch _ _ _ _ _ _ _) as [[[]|error] b1]; [|intros [= <- <- <- <-]; by apply Hput, same_rates_record_attempt].
  unfold complete_successful_application. intros [= <- <- <- <-]. cbn [tr_sites].
  destruct Hsok as [Hc Hbounds]. rewrite Hsc in Hc. injection Hc as Hc.
  apply sites_ok_insert; [|done].
  eapply site_ok_same_rates; [etrans; [apply same_rates_record_attempt|apply same_rates_enter_cooldown]|].
  destruct (sg_dry_run config); [by split; [rewrite Hsc, Hc|]|]. split; [by rewrite Hsc, Hc|].
  intros d. unfold site_rate. rewrite lane_set_lane, config_set_lane. case_decide as Hd; [|apply Hbounds].
  cbn [lane_queue_mbps rated_lane]. rewrite Hd, <- Hc. lia.
Qed.

Lemma sites_ok_apply b now config queues t rs t' report b' :
  sites_ok config (tr_sites t) -> apply_recommendations b now config queues t rs = (t', report, b') ->
  sites_ok config (tr_sites t').
Proof.
  intros Hok. unfold apply_recommendations. destruct queues as [queues|]; cycle 1.
  { intros [= <- <- <-]. revert t Hok. induction rs as [|[r text] rs IH]; intros t Hok; [done|]. cbn [foldl]. apply IH.
    destruct (tr_sites t !! rec_site r) as [s|] eqn:Hs; [|done]. apply sites_ok_insert; [|done].
    eapply site_ok_same_rates; [apply same_rates_skipped|by apply Hok]. }
  generalize (@nil rstring), false. revert b t Hok. induction rs as [|[r text] rs IH]; intros b t Hok errors ack; cbn [apply_loop].
  { by intros [= <- <- <-]. }
  destruct (apply_recommendation b now config queues t r) as [[[t1 e1] ok1] b1] eqn:H1.
  apply IH. by eapply sites_ok_recommendation.
Qed.

Lemma sites_ok_tick b now config queues names ping updated nodes t t' report b' :
  sites_ok config (tr_sites t) ->
  tracker_tick b now config queues names ping updated nodes t = (t', report, b') -> sites_ok config (tr_sites t').
Proof.
  intros Hok. unfold tracker_tick. destruct (tracker_recommendations _ _ _) as [t1 rs] eqn:Hr.
  assert (sites_ok config (tr_sites t1)) as H1.
  { injection Hr as <- _. cbn [tr_sites with_sites]. apply sites_ok_fmap.
    - intros s. destruct (site_recommendations config s) as [s1 rs1] eqn:Hs. cbn. apply same_view_rates.
      by apply (site_recommendations_ok config s s1 rs1).
    - apply sites_ok_fmap; [auto with rust|]. by apply sites_ok_read_tick. }
  destruct rs; [by intros [= <- <- <-]|]. by apply sites_ok_apply.
Qed.

(** The inputs of a tick, and a run of ticks. *)
Record TickInput : Type := mkTickInput {
  ti_now : Z; ti_queues : option (list QueueNode); ti_names : list rstring; ti_ping : option TimedRtt;
  ti_ping_updated : bool; ti_nodes : list NodeInfo
}.

Definition run_ticks (config : SgRunConfig) : B * SiteStateTracker -> list TickInput -> B * SiteStateTracker :=
  foldl (fun '(b, t) i =>
    let '(t, _, b) := tracker_tick b (ti_now i) config (ti_queues i) (ti_names i) (ti_ping i) (ti_ping_updated i)
                        (ti_nodes i) t in (b, t)).

Lemma sites_ok_run config inputs : forall bt,
  sites_ok config (tr_sites bt.2) -> sites_ok config (tr_sites (run_ticks config bt inputs).2).
Proof.
  induction inputs as [|i inputs IH]; intros [b t] Hok; [done|]. unfold run_ticks. cbn [foldl].
  destruct (tracker_tick b _ _ _ _ _ _ _ t) as [[t' report] b'] eqn:Ht. apply (IH (b', t')). by eapply sites_ok_tick.
Qed.

End Ticks.

(** ** Configured sites *)

Lemma u64_clamp_bounds x lo hi y : u64_clamp x lo hi = Some y -> lo <= y <= hi.
Proof. unfold u64_clamp. destruct (Z.ltb_spec hi lo); [done|]. intros [= <-]. destruct (Z.ltb_spec x lo), (Z.ltb_spec hi x); lia. Qed.

Lemma watching_site_ok sg persisted queues target site :
  watching_site sg persisted queues target = Some (Some site) ->
  watch_name site = target
  /\ min_download_mbps site <= current_download_mbps site <= max_download_mbps site
  /\ min_upload_mbps site <= current_upload_mbps site <= max_upload_mbps site.
Proof.
  unfold watching_site. destruct (find_queue_bandwidth queues target) as [[max_down max_up]|]; [|done].
  destruct (find_queue_dependents queues target); [|done].
  destruct (current_of _ _ max_down) as [down|] eqn:Hd; [|done]. destruct (current_of _ _ max_up) as [up|] eqn:Hu; [|done].
  intros [= <-]. apply u64_clamp_bounds in Hd, Hu. cbn; split; [done|]; by split.
Qed.

Lemma get_sites_ok sg persisted queues sites stats name site :
  get_sites_from_queueing_structure sg persisted queues = Some (sites, stats) -> sites !! name = Some site ->
  watch_name site = name
  /\ min_download_mbps site <= current_download_mbps site <= max_download_mbps site
  /\ min_upload_mbps site <= current_upload_mbps site <= max_upload_mbps site.
Proof.
  unfold get_sites_from_queueing_structure. destruct (mapM _ _) as [found|] eqn:Hm; [|done]. intros [= <- <-].
  intros Hl%elem_of_list_to_map_2. apply list_elem_of_In, in_map_iff in Hl as (s & Heq & Hs%list_elem_of_In).
  injection Heq as <- <-. apply list_elem_of_omap in Hs as (o & Ho & Hs). cbn in Hs. subst o.
  apply mapM_Some in Hm. apply list_elem_of_lookup_1 in Ho as [i Hi].
  destruct (Forall2_lookup_r _ _ _ _ _ Hm Hi) as (target & _ & Hw).
  destruct (watching_site_ok _ _ _ _ _ Hw) as (_ & H1 & H2). done.
Qed.

(** C28: From its configuration on and through every tick, whatever is measured, recommended, refused by the
    Bakery or not persisted, the rate of every watched site stays between its minimum and its maximum in
    both directions. *)
Theorem rates_stay_within_bounds {B} `{SgEnv B} sg persisted queues sites stats config generation (b : B) inputs :
  get_sites_from_queueing_structure sg persisted queues = Some (sites, stats) -> sg_sites config = sites ->
  forall name s d,
    tr_sites (run_ticks config (b, from_config config generation stats) inputs).2 !! name = Some s ->
    min_mbps (ss_config s) d <= site_rate s d <= max_mbps (ss_config s) d.
Proof.
  intros Hg Hc name s d Hs. refine (proj2 (sites_ok_run config inputs (b, from_config config generation stats) _ name s Hs) d).
  intros n s0. cbn [snd tr_sites from_config]. rewrite lookup_fmap, Hc. intros (site & Hsite & ->)%fmap_Some.
  destruct (get_sites_ok _ _ _ _ _ _ _ Hg Hsite) as (_ & H1 & H2). split; [by rewrite Hc|]. by intros [].
Qed.

(** ** Examples *)

Definition stormguard_example_queue : QueueNode :=
  mkQueueNode (Some (str "Tower")) 100 50 10 5 (mkTcHandle 0x10003) (mkTcHandle 0x10000) None None.
Definition stormguard_example_watching : WatchingSite := mkWatchingSite (str "Tower") 100 50 50 25 [] 100 50.
Definition stormguard_example_config : SgRunConfig :=
  mkSgRunConfig {[str "Tower" := stormguard_example_watching]} (str "eth1") (str "eth0") false DelayProbe
    (f64_ratio 130 100) (f64_ratio 115 100) (f64_ratio 95 100) (f64_ratio 88 100)
    (f32_of_Z 2) (f32_of_Z 1) (f32_ratio 375 100) (f32_ratio 75 10) false true (str "fq_codel")
    (f32_of_Z 40) (f32_ratio 110 100) (f32_ratio 1 100) (f32_ratio 1 10) (f32_of_Z 10) (f32_ratio 5 100)
    (f32_of_Z 10) (f32_ratio 70 100).

(** A site whose downloads retransmit half of their packets. *)
Definition stormguard_example_site : SiteState :=
  let s := new_site DelayProbe stormguard_example_watching in
  set_lane s Download (read_lane (lane s Download) (f64_of_Z 90) (f64_ratio 1 2)).

Lemma recommendations_are_justified_witness :
  exists s' text,
    site_recommendations stormguard_example_config stormguard_example_site
      = (s', [(mkRecommendation (str "Tower") Download DecreaseFast, text)])
    /\ recommendation_ok stormguard_example_config stormguard_example_site
         (probe_age stormguard_example_site Download) (mkRecommendation (str "Tower") Download DecreaseFast).
Proof.
  destruct (site_recommendations stormguard_example_config stormguard_example_site) as [s' rs] eqn:Hr.
  assert (map fst rs = [mkRecommendation (str "Tower") Download DecreaseFast]) as Hrs.
  { change rs with (s', rs).2. rewrite <- Hr. by vm_compute. }
  destruct rs as [|[r text] [|]]; [done| |done]. cbn in Hrs. injection Hrs as ->. exists s', text. split; [done|].
  exact (proj1 (recommendations_are_justified _ _ _ _ Hr ltac:(by intros [] target)) _ text ltac:(left)).
Defined.

(** A queue structure with one site, from which the configuration is derived, and a tick that lowers it. *)
Definition stormguard_example_stored : StormguardConfig :=
  let z := f32_zero in
  mkStormguardConfig true true [] [] false None DelayProbe (f32_ratio 1 2) (f32_ratio 1 2) z z z z z z z z false false []
    z z z z z z [] z z z.

#[local] Instance unit_env : SgEnv unit := {
  bakery_batch b _ _ _ := (Ok tt, b);
  bakery_circuit b _ _ _ _ := (Ok false, b);
  load_layer _ _ := Ok OverrideFile_default;
  save_layer b _ _ := (Ok tt, b);
  load_shaped_devices _ := Ok [];
  load_source_shaped_devices _ := Ok []
}.

Definition stormguard_example_tick : TickInput :=
  mkTickInput 0 (Some [stormguard_example_queue]) [str "Tower"] None false
    [mkNodeInfo (str "Tower") (11250000, 0) (10, 0) (5, 0) (0, 0) []].

Definition stormguard_example_stats : list (rstring * Z * Z) := [(str "Tower", 100, 50)].
Definition stormguard_example_run : unit * SiteStateTracker :=
  run_ticks stormguard_example_config (tt, from_config stormguard_example_config 1 stormguard_example_stats)
    [stormguard_example_tick].

Lemma rates_stay_within_bounds_witness :
  exists s, tr_sites stormguard_example_run.2 !! str "Tower" = Some s /\ site_rate s Download = 88
    /\ min_mbps (ss_config s) Download <= site_rate s Download <= max_mbps (ss_config s) Download.
Proof.
  assert (get_sites_from_queueing_structure stormguard_example_stored ∅ (Some [stormguard_example_queue])
    = Some (sg_sites stormguard_example_config, stormguard_example_stats)) as Hg by (by vm_compute).
  pose proof (rates_stay_within_bounds stormguard_example_stored ∅ (Some [stormguard_example_queue])
    (sg_sites stormguard_example_config) stormguard_example_stats stormguard_example_config 1 tt [stormguard_example_tick]
    Hg eq_refl (str "Tower")) as Hbounds. fold stormguard_example_run in Hbounds.
  assert ((fun s => site_rate s Download) <$> (tr_sites stormguard_example_run.2 !! str "Tower") = Some 88) as H88
    by (by vm_compute).
  destruct (tr_sites stormguard_example_run.2 !! str "Tower") as [s|]; [|discriminate H88].
  exists s. split; [reflexivity|]. split; [injection H88 as H88; exact H88|]. exact (Hbounds s Download eq_refl).
Defined.

(** With a minimum of all of the maximum, a maximum that no [f32] has can round up past itself: [clamp] then
    panics. *)
Lemma minimum_rounds_past_maximum : current_of None (minimum_of 16777219 (f32_of_Z 1)) 16777219 = None.
Proof. by vm_compute. Qed.
