(* ===== verification/BakeryDiff.v ===== *)
(** * Diffs of a batch ([lqos_bakery/src/diff/circuits.rs], [diff/sites.rs])

    A committed batch is compared with the sites and circuits of the last one: circuits fall into
    categories, sites either need a rebuild, changed speeds, or did not change.  [order] is the order in
    which a map is iterated. *)

From S2P Require Import Prelude RustStd RustCollections RustFloat RustFormat ShapedDevice.
From S2P Require Import TcHandle QdiscHandles BakeryCommands.
From Stdlib Require Import SpecFloat.

(** ** Circuits *)

Record CircuitDiffCategories : Type := mkCategories {
  newly_added : list BakeryCommands;
  removed_circuits : list Z;
  speed_changed : list BakeryCommands;
  ip_changed : list BakeryCommands;
  migrated : list BakeryCommands;
  structural_changed : list BakeryCommands
}.

Inductive CircuitDiffResult : Type := Circuits_NoChange | Categorized (categories : CircuitDiffCategories).

Inductive CircuitChange : Type := Change_None | Change_Migration | Change_Speed | Change_Ip | Change_SpeedAndIp.

Definition circuit_structural (a b : AddCircuitCommand) : bool :=
  negb (bool_decide (ac_parent_class_id a = ac_parent_class_id b))
  || negb (bool_decide (ac_up_parent_class_id a = ac_up_parent_class_id b))
  || negb (ac_class_minor a =? ac_class_minor b)
  || negb (ac_class_major a =? ac_class_major b)
  || negb (ac_up_class_major a =? ac_up_class_major b).

Definition circuit_speed (a b : AddCircuitCommand) : bool :=
  f32_ne (ac_download_min a) (ac_download_min b) || f32_ne (ac_upload_min a) (ac_upload_min b)
  || f32_ne (ac_download_max a) (ac_download_max b) || f32_ne (ac_upload_max a) (ac_upload_max b)
  || negb (bool_decide (ac_sqm_override a = ac_sqm_override b)).

Definition circuit_ip (a b : AddCircuitCommand) : bool :=
  negb (bool_decide (ac_ip_addresses a = ac_ip_addresses b)).

Definition classify_circuit_change (a b : BakeryCommands) : CircuitChange :=
  match a, b with
  | AddCircuit a, AddCircuit b =>
      if circuit_structural a b then Change_Migration
      else
        match circuit_speed a b, circuit_ip a b with
        | false, false => Change_None
        | true, false => Change_Speed
        | false, true => Change_Ip
        | true, true => Change_SpeedAndIp
        end
  | _, _ => Change_None
  end.

Definition circuit_key (cmd : BakeryCommands) : option Z :=
  match cmd with AddCircuit c => Some (ac_circuit_hash c) | _ => None end.
Definition site_key (cmd : BakeryCommands) : option Z :=
  match cmd with AddSite s => Some (site_hash s) | _ => None end.

(** The commands of a batch by their key; a later command replaces an earlier one. *)
Definition batch_circuits (batch : list BakeryCommands) : gmap Z BakeryCommands :=
  insert_all circuit_key (fun cmd => cmd) batch ∅.
Definition batch_sites (batch : list BakeryCommands) : gmap Z BakeryCommands :=
  insert_all site_key (fun cmd => cmd) batch ∅.

(** The body of the third loop: one old circuit. *)
Definition diff_step (new_circuits : gmap Z BakeryCommands)
    (acc : list BakeryCommands * list BakeryCommands * list BakeryCommands) (entry : Z * BakeryCommands)
    : list BakeryCommands * list BakeryCommands * list BakeryCommands :=
  let '(speed, ip, migrated) := acc in
  match new_circuits !! entry.1 with
  | None => acc
  | Some new_cmd =>
      match classify_circuit_change entry.2 new_cmd with
      | Change_None => acc
      | Change_Migration => (speed, ip, migrated ++ [new_cmd])
      | Change_Speed => (speed ++ [new_cmd], ip, migrated)
      | Change_Ip => (speed, ip ++ [new_cmd], migrated)
      | Change_SpeedAndIp => (speed ++ [new_cmd], ip ++ [new_cmd], migrated)
      end
  end.

Definition is_nil {A} (l : list A) : bool := match l with [] => true | _ => false end.

(** [new_order] and [old_order] are the orders of the two maps. *)
Definition diff_circuits (batch : list BakeryCommands) (old_circuits : gmap Z BakeryCommands)
    (new_order old_order : list (Z * BakeryCommands)) : CircuitDiffResult :=
  let new_circuits := batch_circuits batch in
  let newly_added := map snd (List.filter (fun e => negb (bool_decide (is_Some (old_circuits !! e.1)))) new_order) in
  let removed := map fst (List.filter (fun e => negb (bool_decide (is_Some (new_circuits !! e.1)))) old_order) in
  let '(speed, ip, migrated) := fold_left (diff_step new_circuits) old_order ([], [], []) in
  if is_nil newly_added && is_nil removed && is_nil speed && is_nil ip && is_nil migrated then Circuits_NoChange
  else Categorized (mkCategories newly_added removed speed ip migrated []).

(** ** Sites *)

Definition SITE_DELTA_PREVIEW_THRESHOLD : nat := 8.

Inductive SiteDiffResult : Type :=
| RebuildRequired (summary : rstring) (details : option Z)
| SpeedChanges (changes : list BakeryCommands)
| Sites_NoChange.

(** [sort_unstable] of hashes. *)
Definition sort_hashes (l : list Z) : list Z := sort_with Z.leb l.

Definition site_set_delta (old_sites new_sites : gmap Z BakeryCommands) : list Z * list Z :=
  let missing (l : list (Z * BakeryCommands)) (m : gmap Z BakeryCommands) :=
    sort_hashes (map fst (List.filter (fun e => negb (bool_decide (is_Some (m !! e.1)))) l)) in
  (missing (map_to_list new_sites) old_sites, missing (map_to_list old_sites) new_sites).

(** [{hashes:?}] of a vector of [i64]. *)
Definition debug_hashes (hashes : list Z) : rstring :=
  str "[" ++ concat (match map i64_to_string hashes with
                     | [] => []
                     | first :: rest => first :: map (fun s => str ", " ++ s) rest
                     end) ++ str "]".

Definition format_site_hash_preview (label : rstring) (hashes : list Z) (total_changed : nat) : option rstring :=
  if is_nil hashes || (SITE_DELTA_PREVIEW_THRESHOLD <? length hashes)%nat
     || (SITE_DELTA_PREVIEW_THRESHOLD <? total_changed)%nat
  then None
  else Some (str " " ++ label ++ str "=" ++ debug_hashes hashes).

Definition format_site_delta_summary (reason : rstring) (missing_old_site_hash : option Z) (old_count new_count : nat)
    (added_site_hashes removed_site_hashes : list Z) : rstring :=
  let total_changed := (length added_site_hashes + length removed_site_hashes)%nat in
  str "Bakery full reload triggered by site diff: " ++ reason
  ++ str " old_count=" ++ usize_to_string old_count ++ str " new_count=" ++ usize_to_string new_count
  ++ str " added_count=" ++ usize_to_string (length added_site_hashes)
  ++ str " removed_count=" ++ usize_to_string (length removed_site_hashes)
  ++ match missing_old_site_hash with
     | Some hash => str " missing_old_site_hash=" ++ i64_to_string hash | None => [] end
  ++ default [] (format_site_hash_preview (str "added_preview") added_site_hashes total_changed)
  ++ default [] (format_site_hash_preview (str "removed_preview") removed_site_hashes total_changed).

Definition is_structurally_different (a b : BakeryCommands) : bool :=
  match a, b with
  | AddSite a, AddSite b =>
      if negb (site_hash a =? site_hash b) then false
      else negb (bool_decide (site_parent_class_id a = site_parent_class_id b))
           || negb (bool_decide (site_up_parent_class_id a = site_up_parent_class_id b))
           || negb (site_class_minor a =? site_class_minor b)
  | _, _ => false
  end.

Definition site_speeds_differ (a b : AddSiteParams) : bool :=
  f32_ne (site_download_min a) (site_download_min b) || f32_ne (site_upload_min a) (site_upload_min b)
  || f32_ne (site_download_max a) (site_download_max b) || f32_ne (site_upload_max a) (site_upload_max b).

Definition site_speeds_changed (a b : BakeryCommands) : option BakeryCommands :=
  match a, b with
  | AddSite a, AddSite b =>
      if negb (site_hash a =? site_hash b) then None
      else if site_speeds_differ a b then
        Some (AddSite (mkAddSiteParams (site_hash a) (site_parent_class_id a) (site_up_parent_class_id a)
          (site_class_minor a) (site_download_min b) (site_upload_min b) (site_download_max b) (site_upload_max b)))
      else None
  | _, _ => None
  end.

(** The parents and minor that a structural diff reports; 8594 is the arrow. *)
Definition site_place (cmd : BakeryCommands) : rstring * rstring * Z :=
  match cmd with
  | AddSite s => (as_tc_string (site_parent_class_id s), as_tc_string (site_up_parent_class_id s), site_class_minor s)
  | _ => ([], [], 0)
  end.
Definition structural_summary (hash : Z) (old_cmd new_cmd : BakeryCommands) : rstring :=
  let '(opar, oup, omin) := site_place old_cmd in
  let '(npar, nup, nmin) := site_place new_cmd in
  str "Bakery full reload triggered by site diff: site_hash=" ++ i64_to_string hash
  ++ str " parent=" ++ opar ++ [8594] ++ npar ++ str " up_parent=" ++ oup ++ [8594] ++ nup
  ++ str " minor=0x" ++ lower_hex omin ++ [8594] ++ str "0x" ++ lower_hex nmin.

(** The loop over the old sites with the speed changes found so far. *)
Fixpoint diff_sites_loop (old_sites new_sites : gmap Z BakeryCommands) (order : list (Z * BakeryCommands))
    (speed_changes : list BakeryCommands) : SiteDiffResult :=
  match order with
  | [] => if is_nil speed_changes then Sites_NoChange else SpeedChanges speed_changes
  | (hash, old_cmd) :: order' =>
      match new_sites !! hash with
      | Some new_cmd =>
          if is_structurally_different old_cmd new_cmd then
            RebuildRequired (structural_summary hash old_cmd new_cmd) (Some hash)
          else
            diff_sites_loop old_sites new_sites order'
              (speed_changes ++ option_list (site_speeds_changed old_cmd new_cmd))
      | None =>
          let '(added, removed) := site_set_delta old_sites new_sites in
          RebuildRequired (format_site_delta_summary (str "site_set_changed") (Some hash) (size old_sites)
            (size new_sites) added removed) None
      end
  end.

Definition diff_sites (batch : list BakeryCommands) (old_sites : gmap Z BakeryCommands)
    (order : list (Z * BakeryCommands)) : SiteDiffResult :=
  let new_sites := batch_sites batch in
  if negb (size old_sites =? size new_sites)%nat then
    let '(added, removed) := site_set_delta old_sites new_sites in
    RebuildRequired (format_site_delta_summary (str "site_count_mismatch") None (size old_sites) (size new_sites)
      added removed) None
  else diff_sites_loop old_sites new_sites order [].

(** ** Properties

    The categories of a circuit diff are exactly the differences between the two maps, applying them to
    the old map gives the new one, and a site diff asks for a rebuild exactly when the set or the
    structure of the sites changed. *)

(** *** Circuits *)

Section Circuits.
Context (batch : list BakeryCommands) (old : gmap Z BakeryCommands) (new_order old_order : list (Z * BakeryCommands)).
Hypothesis Hnew : new_order ≡ₚ map_to_list (batch_circuits batch).
Hypothesis Hold : old_order ≡ₚ map_to_list old.

Abbreviation new := (batch_circuits batch).

(** The circuits present in both maps whose change satisfies [p]. *)
Definition changed (p : CircuitChange -> bool) (cmd : BakeryCommands) : Prop :=
  exists h o, old !! h = Some o /\ new !! h = Some cmd /\ p (classify_circuit_change o cmd) = true.

Definition speed_change (c : CircuitChange) : bool :=
  match c with Change_Speed | Change_SpeedAndIp => true | _ => false end.
Definition ip_change (c : CircuitChange) : bool := match c with Change_Ip | Change_SpeedAndIp => true | _ => false end.
Definition migration_change (c : CircuitChange) : bool := match c with Change_Migration => true | _ => false end.

Definition pick (p : CircuitChange -> bool) (entry : Z * BakeryCommands) : option BakeryCommands :=
  match new !! entry.1 with
  | Some cmd => if p (classify_circuit_change entry.2 cmd) then Some cmd else None
  | None => None
  end.

Lemma diff_step_pick s i m e :
  diff_step new (s, i, m) e
  = (s ++ option_list (pick speed_change e), i ++ option_list (pick ip_change e),
     m ++ option_list (pick migration_change e)).
Proof.
  unfold diff_step, pick. destruct (new !! e.1) as [cmd|]; [|by rewrite !app_nil_r].
  by destruct (classify_circuit_change e.2 cmd); cbn; rewrite ?app_nil_r.
Qed.

Lemma omap_cons_list {A B} (f : A -> option B) a l : omap f (a :: l) = option_list (f a) ++ omap f l.
Proof. cbn. by destruct (f a). Qed.

Lemma diff_fold l : forall s i m,
  fold_left (diff_step new) l (s, i, m)
  = (s ++ omap (pick speed_change) l, i ++ omap (pick ip_change) l, m ++ omap (pick migration_change) l).
Proof.
  induction l as [|e l IH]; intros s i m; [cbn; by rewrite !app_nil_r|].
  cbn [fold_left]. by rewrite diff_step_pick, IH, !omap_cons_list, <- !app_assoc.
Qed.

Lemma elem_of_pick p cmd : cmd ∈ omap (pick p) old_order <-> changed p cmd.
Proof.
  rewrite list_elem_of_omap. unfold changed, pick. split.
  - intros ([h o] & Hin & Hf). rewrite Hold, elem_of_map_to_list in Hin. cbn [fst snd] in Hf.
    destruct (new !! h) as [c|] eqn:Hc; [|done]. destruct (p _) eqn:Hp; [|done]. injection Hf as ->. eauto 6.
  - intros (h & o & Ho & Hc & Hp). exists (h, o). rewrite Hold, elem_of_map_to_list. cbn. by rewrite Hc, Hp.
Qed.

Definition fresh_circuit (cmd : BakeryCommands) : Prop := exists h, new !! h = Some cmd /\ old !! h = None.
Definition gone (h : Z) : Prop := is_Some (old !! h) /\ new !! h = None.

Lemma elem_of_fresh cmd :
  cmd ∈ map snd (List.filter (fun e => negb (bool_decide (is_Some (old !! e.1)))) new_order) <-> fresh_circuit cmd.
Proof.
  unfold fresh_circuit. rewrite list_elem_of_fmap. split.
  - intros ([h c] & -> & Hin%list_elem_of_In). apply filter_In in Hin as [Hin Hno].
    apply list_elem_of_In in Hin. rewrite Hnew, elem_of_map_to_list in Hin. to_prop. cbn in Hno.
    exists h. split; [done|]. by apply eq_None_not_Some.
  - intros (h & Hc & Ho). exists (h, cmd). split; [done|]. apply list_elem_of_In, filter_In. split.
    + apply list_elem_of_In. by rewrite Hnew, elem_of_map_to_list.
    + cbn. rewrite Ho. done.
Qed.

Lemma elem_of_gone h :
  h ∈ map fst (List.filter (fun e => negb (bool_decide (is_Some (new !! e.1)))) old_order) <-> gone h.
Proof.
  unfold gone. rewrite list_elem_of_fmap. split.
  - intros ([h' o] & -> & Hin%list_elem_of_In). apply filter_In in Hin as [Hin Hno].
    apply list_elem_of_In in Hin. rewrite Hold, elem_of_map_to_list in Hin. to_prop. cbn in *.
    split; [eauto|]. by apply eq_None_not_Some.
  - intros [[o Ho] Hc]. exists (h, o). split; [done|]. apply list_elem_of_In, filter_In. split.
    + apply list_elem_of_In. by rewrite Hold, elem_of_map_to_list.
    + cbn. rewrite Hc. done.
Qed.

Lemma is_nil_empty {A} (l : list A) : is_nil l = true <-> forall x, x ∉ l.
Proof.
  destruct l as [|a l]; cbn; split; [by intros _ x ?%not_elem_of_nil|done|done|].
  intros H. destruct (H a). left.
Qed.

(** What a diff has found. *)
Definition diff_is_exact (diff : CircuitDiffResult) : Prop :=
  match diff with
  | Circuits_NoChange =>
      (forall h, is_Some (old !! h) <-> is_Some (new !! h))
      /\ forall h o c, old !! h = Some o -> new !! h = Some c -> classify_circuit_change o c = Change_None
  | Categorized cats =>
      (forall cmd, cmd ∈ newly_added cats <-> fresh_circuit cmd)
      /\ (forall h, h ∈ removed_circuits cats <-> gone h)
      /\ (forall cmd, cmd ∈ migrated cats <-> changed migration_change cmd)
      /\ (forall cmd, cmd ∈ speed_changed cats <-> changed speed_change cmd)
      /\ (forall cmd, cmd ∈ ip_changed cats <-> changed ip_change cmd)
      /\ structural_changed cats = []
  end.

Lemma circuit_diff_lists : diff_is_exact (diff_circuits batch old new_order old_order).
Proof.
  unfold diff_is_exact, diff_circuits. cbv zeta. rewrite diff_fold. cbn [app].
  destruct (is_nil _ && _ && _ && _ && _) eqn:Hnil.
  - to_prop. repeat match goal with H : is_nil _ = true |- _ => rewrite is_nil_empty in H end.
    setoid_rewrite elem_of_fresh in H. setoid_rewrite elem_of_gone in H3. setoid_rewrite elem_of_pick in H2.
    setoid_rewrite elem_of_pick in H1. setoid_rewrite elem_of_pick in H0. split.
    + intros h. destruct (old !! h) as [o|] eqn:Ho, (new !! h) as [c|] eqn:Hc; [by split; eauto|..].
      * destruct (H3 h). split; [by rewrite Ho; eauto|done].
      * destruct (H c). by exists h.
      * done.
    + intros h o c Ho Hc. destruct (classify_circuit_change o c) eqn:Hcl; [done|..]; exfalso.
      * apply (H0 c). exists h, o. by rewrite Hcl.
      * apply (H2 c). exists h, o. by rewrite Hcl.
      * apply (H1 c). exists h, o. by rewrite Hcl.
      * apply (H2 c). exists h, o. by rewrite Hcl.
  - cbn [newly_added removed_circuits migrated speed_changed ip_changed structural_changed].
    split_and!; [apply elem_of_fresh|apply elem_of_gone|apply elem_of_pick..|done].
Qed.

(** A circuit diff is exact, whatever order the maps are iterated in: it reports no change only when
    both maps have the same circuits and none of them is classified as changed; otherwise its categories
    list exactly the new circuits, the removed hashes, the migrated ones (moved in the tree) and, among
    the rest, those with changed speeds or addresses. *)
Theorem circuit_diff_exact :
  match diff_circuits batch old new_order old_order with
  | Circuits_NoChange =>
      (forall h, is_Some (old !! h) <-> is_Some (new !! h))
      /\ forall h o c, old !! h = Some o -> new !! h = Some c -> classify_circuit_change o c = Change_None
  | Categorized cats =>
      (forall cmd, cmd ∈ newly_added cats <-> fresh_circuit cmd)
      /\ (forall h, h ∈ removed_circuits cats <-> gone h)
      /\ (forall cmd, cmd ∈ migrated cats <-> changed migration_change cmd)
      /\ (forall cmd, cmd ∈ speed_changed cats <-> changed speed_change cmd)
      /\ (forall cmd, cmd ∈ ip_changed cats <-> changed ip_change cmd)
      /\ structural_changed cats = []
  end.
Proof. exact circuit_diff_lists. Qed.
End Circuits.

(** *** Sites *)

Section Sites.
Context (batch : list BakeryCommands) (old : gmap Z BakeryCommands) (order : list (Z * BakeryCommands)).
Hypothesis Horder : order ≡ₚ map_to_list old.
(** The keys of the old map, as the Bakery inserts them. *)
Hypothesis Hkeys : forall h cmd, old !! h = Some cmd -> site_key cmd = Some h.

Abbreviation new_sites := (batch_sites batch).

Lemma insert_all_keys (l : list BakeryCommands) : forall (m : gmap Z BakeryCommands),
  (forall h cmd, m !! h = Some cmd -> site_key cmd = Some h) ->
  forall h cmd, insert_all site_key (fun c => c) l m !! h = Some cmd -> site_key cmd = Some h.
Proof.
  unfold insert_all. induction l as [|c l IH]; intros m Hm; cbn; [done|]. apply IH. intros h cmd.
  destruct (site_key c) as [k|] eqn:Hk; [|apply Hm]. rewrite lookup_insert. case_decide as Hd; [|apply Hm].
  intros [= <-]. by subst.
Qed.

Lemma batch_sites_keys h cmd : new_sites !! h = Some cmd -> site_key cmd = Some h.
Proof. apply insert_all_keys. intros k c. by rewrite lookup_empty. Qed.

Lemma site_key_inv cmd h : site_key cmd = Some h -> exists s, cmd = AddSite s /\ site_hash s = h.
Proof. destruct cmd; cbn; try done. intros [= <-]. eauto. Qed.

(** The old sites that stay. *)
Definition structural_change (h : Z) : Prop :=
  exists o c, old !! h = Some o /\ new_sites !! h = Some c /\ is_structurally_different o c = true.
Definition speed_command (cmd : BakeryCommands) : Prop :=
  exists h o c, old !! h = Some o /\ new_sites !! h = Some c /\ site_speeds_changed o c = Some cmd.

(** What the loop has found when it returns. *)
Lemma diff_sites_loop_spec l : forall speeds,
  (forall h o, (h, o) ∈ l -> old !! h = Some o) ->
  match diff_sites_loop old new_sites l speeds with
  | RebuildRequired _ (Some h) => structural_change h
  | RebuildRequired _ None => exists h, is_Some (old !! h) /\ new_sites !! h = None
  | SpeedChanges changes =>
      changes <> []
      /\ changes = speeds ++ omap (fun e => new_sites !! e.1 ≫= site_speeds_changed e.2) l
      /\ forall h o, (h, o) ∈ l -> exists c, new_sites !! h = Some c /\ is_structurally_different o c = false
  | Sites_NoChange =>
      speeds = [] /\ omap (fun e => new_sites !! e.1 ≫= site_speeds_changed e.2) l = []
      /\ forall h o, (h, o) ∈ l -> exists c, new_sites !! h = Some c /\ is_structurally_different o c = false
  end.
Proof.
  induction l as [|[h o] l IH]; intros speeds Hl; cbn [diff_sites_loop].
  - destruct speeds as [|s speeds]; cbn [is_nil]; [split_and!; [done|done|by intros h o ?%elem_of_nil]|].
    split_and!; [done|by rewrite app_nil_r|by intros h o ?%elem_of_nil].
  - pose proof (Hl h o ltac:(left)) as Ho. destruct (new_sites !! h) as [c|] eqn:Hc.
    2:{ destruct (site_set_delta old new_sites). eauto. }
    destruct (is_structurally_different o c) eqn:Hs; [exists o, c; auto|].
    specialize (IH (speeds ++ option_list (site_speeds_changed o c)) ltac:(intros; apply Hl; by right)).
    assert (forall P : Z -> BakeryCommands -> Prop, P h o -> (forall h' o', (h', o') ∈ l -> P h' o') ->
      forall h' o', (h', o') ∈ (h, o) :: l -> P h' o') as Hcons
      by (intros P H1 H2 h' o' [[= -> ->]|Hin]%elem_of_cons; auto).
    rewrite omap_cons_list. cbn [fst snd]. rewrite Hc. cbn [mbind option_bind].
    destruct (diff_sites_loop _ _ l _) as [summary [k|]|changes|]; [done|done|..].
    + destruct IH as (H1 & H2 & H3). split_and!; [done|by rewrite H2, <- app_assoc|apply Hcons; eauto].
    + destruct IH as (H1 & H2 & H3). apply app_eq_nil in H1 as [-> H1]. split_and!; [done|by rewrite H1|apply Hcons; eauto].
Qed.

(** A site whose structure did not change is updated to exactly the new command. *)
Lemma site_speeds_changed_new h o c :
  site_key o = Some h -> site_key c = Some h -> is_structurally_different o c = false ->
  forall x, site_speeds_changed o c = Some x -> x = c.
Proof.
  intros (a & -> & Ha)%site_key_inv (b & -> & Hb)%site_key_inv. cbn [is_structurally_different site_speeds_changed].
  rewrite Ha, Hb, Z.eqb_refl. cbn [negb]. intros Hs x. to_prop.
  destruct (site_speeds_differ a b); [|done]. intros [= <-]. f_equal. destruct a, b. cbn in *. by subst.
Qed.

Definition same_sites : Prop := forall h, is_Some (old !! h) <-> is_Some (new_sites !! h).

Lemma same_sites_of_size :
  size old = size new_sites -> (forall h, is_Some (old !! h) -> is_Some (new_sites !! h)) -> same_sites.
Proof.
  intros Hsz Hsub h. split; [apply Hsub|]. rewrite <- !elem_of_dom.
  assert (dom old ⊆ dom new_sites) as Hd by (intros k; rewrite !elem_of_dom; apply Hsub).
  assert (dom old = dom new_sites) as ->; [|done].
  apply set_subseteq_size_eq; [done|]. rewrite !size_dom. lia.
Qed.

Lemma elem_of_speed_changes cmd :
  cmd ∈ omap (fun e => new_sites !! e.1 ≫= site_speeds_changed e.2) order <-> speed_command cmd.
Proof.
  rewrite list_elem_of_omap. unfold speed_command. split.
  - intros ([h o] & Hin & Hf). rewrite Horder, elem_of_map_to_list in Hin. cbn [fst snd] in Hf.
    destruct (new_sites !! h) as [c|] eqn:Hc; [|done]. eauto 6.
  - intros (h & o & c & Ho & Hc & Hs). exists (h, o). rewrite Horder, elem_of_map_to_list. cbn. by rewrite Hc.
Qed.

(** Every old site is still there, at the same place. *)
Definition unmoved : Prop :=
  forall h o, old !! h = Some o -> exists c, new_sites !! h = Some c /\ is_structurally_different o c = false.

Lemma speed_command_new x k :
  unmoved -> speed_command x -> site_key x = Some k ->
  new_sites !! k = Some x /\ exists o, old !! k = Some o /\ is_Some (site_speeds_changed o x).
Proof.
  intros Hun (h & o & c & Ho & Hc & Hs) Hk. destruct (Hun h o Ho) as (c' & Hc' & Hst).
  assert (c' = c) as -> by congruence.
  pose proof (site_speeds_changed_new h o c (Hkeys _ _ Ho) (batch_sites_keys _ _ Hc) Hst x Hs) as ->.
  assert (h = k) as -> by (pose proof (batch_sites_keys _ _ Hc); congruence). eauto.
Qed.

Lemma apply_speed_changes changes h o c :
  unmoved -> (forall cmd, cmd ∈ changes <-> speed_command cmd) -> old !! h = Some o -> new_sites !! h = Some c ->
  insert_all site_key (fun cmd => cmd) changes old !! h
  = Some (match site_speeds_changed o c with Some _ => c | None => o end).
Proof.
  intros Hun Hch Ho Hc. apply lookup_insert_all.
  { intros x y Hx%Hch Hy%Hch Hkx Hky. destruct (speed_command_new x h Hun Hx Hkx) as [Hnx _].
    destruct (speed_command_new y h Hun Hy Hky) as [Hny _]. congruence. }
  destruct (site_speeds_changed o c) as [x|] eqn:Hs.
  - left. assert (x = c) as ->.
    { destruct (Hun h o Ho) as (c' & Hc' & Hst). assert (c' = c) as -> by congruence.
      by apply (site_speeds_changed_new h o c (Hkeys _ _ Ho) (batch_sites_keys _ _ Hc) Hst). }
    exists c. split_and!; [apply Hch; by exists h, o, c|by eapply batch_sites_keys|done].
  - right. split; [|done]. intros x Hx%Hch Hk. destruct (speed_command_new x h Hun Hx Hk) as (Hn & o' & Ho' & [y Hy]).
    congruence.
Qed.

(** A site diff is exact: it asks for a rebuild only when the set of sites or the place of one of
    them changed, reports speed changes only when neither did, and then lists exactly the sites with new
    speeds, so that applying the list to the old map leaves every site with the command of the new batch
    (or unchanged where no speed differs). *)
Theorem site_diff_exact :
  match diff_sites batch old order with
  | RebuildRequired _ details =>
      (~ same_sites \/ exists h, structural_change h)
      /\ forall h, details = Some h -> structural_change h
  | SpeedChanges changes =>
      same_sites /\ (~ exists h, structural_change h) /\ changes <> []
      /\ (forall cmd, cmd ∈ changes <-> speed_command cmd)
      /\ forall h o c, old !! h = Some o -> new_sites !! h = Some c ->
           insert_all site_key (fun cmd => cmd) changes old !! h
           = Some (match site_speeds_changed o c with Some _ => c | None => o end)
  | Sites_NoChange =>
      same_sites /\ (~ exists h, structural_change h) /\ forall cmd, ~ speed_command cmd
  end.
Proof.
  unfold diff_sites. cbv zeta. destruct (Nat.eqb_spec (size old) (size new_sites)) as [Hsz|Hsz]; cbn [negb].
  2:{ destruct (site_set_delta old new_sites). split; [|done]. left. intros Hsame. apply Hsz.
      rewrite <- !size_dom. f_equal. apply set_eq. intros h. rewrite !elem_of_dom. apply Hsame. }
  assert (forall h o, (h, o) ∈ order -> old !! h = Some o) as Ho by (intros h o; by rewrite Horder, elem_of_map_to_list).
  assert (forall h o, old !! h = Some o -> (h, o) ∈ order) as Ho' by (intros h o; by rewrite Horder, elem_of_map_to_list).
  pose proof (diff_sites_loop_spec order [] Ho) as Hloop.
  assert ((forall h o, (h, o) ∈ order -> exists c, new_sites !! h = Some c /\ is_structurally_different o c = false) ->
    same_sites /\ ~ exists h, structural_change h) as Hsame.
  { intros H. split.
    - apply same_sites_of_size; [done|]. intros h [o Hold]. destruct (H h o (Ho' h o Hold)) as (c & -> & _). eauto.
    - intros (h & o & c & Hold & Hc & Hs). destruct (H h o (Ho' h o Hold)) as (c' & Hc' & Hs'). congruence. }
  destruct (diff_sites_loop old new_sites order []) as [summary details|changes|].
  - destruct details as [h|].
    + split; [eauto|]. by intros h' [= ->].
    + destruct Hloop as (h & Hold & Hnone). split; [|done]. left. intros Hs. apply Hs in Hold as [? ?]. congruence.
  - destruct Hloop as (Hne & Hch & Hall). destruct (Hsame Hall) as [H1 H2]. cbn [app] in Hch. subst changes.
    split_and!; [done|done|done|apply elem_of_speed_changes|]. intros h o c Hold Hc.
    apply apply_speed_changes; [|apply elem_of_speed_changes|done|done]. intros k o' Hk. by apply Hall, Ho'.
  - destruct Hloop as (_ & Hch & Hall). destruct (Hsame Hall) as [H1 H2]. split_and!; [done|done|].
    intros cmd Hc%elem_of_speed_changes. rewrite Hch in Hc. by apply not_elem_of_nil in Hc.
Qed.
End Sites.

(** *** Witnesses *)

Definition diff_circuit (hash minor : Z) (ips : rstring) : BakeryCommands :=
  AddCircuit (mkAddCircuit hash None None (mkTcHandle 0x10003) (mkTcHandle 0x20003) minor (f32_of_Z 1) (f32_of_Z 1)
    (f32_of_Z 10) (f32_of_Z 10) 1 2 None None ips None).
Definition diff_old : gmap Z BakeryCommands :=
  {[1 := diff_circuit 1 5 (str "192.0.2.1"); 2 := diff_circuit 2 6 (str "192.0.2.2")]}.
Definition diff_batch : list BakeryCommands :=
  [StartBatch; diff_circuit 1 7 (str "192.0.2.1"); diff_circuit 3 8 (str "192.0.2.3")].

Lemma circuit_diff_exact_witness :
  exists cats,
    diff_circuits diff_batch diff_old (map_to_list (batch_circuits diff_batch)) (map_to_list diff_old) = Categorized cats
    /\ forall cmd, cmd ∈ migrated cats <-> changed diff_batch diff_old migration_change cmd.
Proof.
  pose proof (circuit_diff_exact diff_batch diff_old (map_to_list (batch_circuits diff_batch)) (map_to_list diff_old)
    (reflexivity _) (reflexivity _)) as H.
  destruct (diff_circuits diff_batch diff_old _ _) as [|cats] eqn:Hd; [vm_compute in Hd; discriminate Hd|].
  exists cats. split; [reflexivity|]. exact (proj1 (proj2 (proj2 H))).
Defined.

Example circuit_diff_example :
  diff_circuits diff_batch diff_old (map_to_list (batch_circuits diff_batch)) (map_to_list diff_old)
  = Categorized (mkCategories [diff_circuit 3 8 (str "192.0.2.3")] [2] [] [] [diff_circuit 1 7 (str "192.0.2.1")] []).
Proof. by vm_compute. Qed.

Definition diff_site (hash : Z) (rate : f32) : BakeryCommands :=
  AddSite (mkAddSiteParams hash (mkTcHandle 0x10001) (mkTcHandle 0x20001) 3 rate rate rate rate).
Definition diff_old_sites : gmap Z BakeryCommands := {[10 := diff_site 10 (f32_of_Z 1)]}.

Lemma site_diff_exact_witness :
  exists changes,
    diff_sites [diff_site 10 (f32_of_Z 2)] diff_old_sites (map_to_list diff_old_sites) = SpeedChanges changes
    /\ insert_all site_key (fun cmd => cmd) changes diff_old_sites !! 10 = Some (diff_site 10 (f32_of_Z 2)).
Proof.
  assert (forall h cmd, diff_old_sites !! h = Some cmd -> site_key cmd = Some h) as Hkeys.
  { intros h cmd H. unfold diff_old_sites in H. apply lookup_singleton_Some in H as [<- <-]. reflexivity. }
  pose proof (site_diff_exact [diff_site 10 (f32_of_Z 2)] diff_old_sites (map_to_list diff_old_sites)
    (reflexivity _) Hkeys) as H.
  destruct (diff_sites [diff_site 10 (f32_of_Z 2)] diff_old_sites (map_to_list diff_old_sites)) as [| changes |] eqn:Hd;
    [vm_compute in Hd; discriminate Hd| |vm_compute in Hd; discriminate Hd].
  exists changes. split; [reflexivity|]. destruct H as (_ & _ & _ & _ & H).
  apply (H 10 (diff_site 10 (f32_of_Z 1)) (diff_site 10 (f32_of_Z 2))); vm_compute; reflexivity.
Defined.

(** A rate that is not a number differs from itself: such a circuit is reported as changed in every batch. *)
Lemma nan_rate_always_changes c :
  ac_download_max c = S754_nan -> classify_circuit_change (AddCircuit c) (AddCircuit c) = Change_Speed.
Proof.
  intros Hn. cbn [classify_circuit_change].
  assert (circuit_structural c c = false) as ->.
  { unfold circuit_structural. by rewrite !bool_decide_true, !Z.eqb_refl by done. }
  assert (circuit_speed c c = true) as ->.
  { unfold circuit_speed. rewrite Hn. cbn. by rewrite ?orb_true_r. }
  assert (circuit_ip c c = false) as -> by (unfold circuit_ip; by rewrite bool_decide_true). done.
Qed.
