(* ===== verification/BakeryStormguard.v ===== *)
(** * StormGuard commands of the Bakery ([lqos_bakery/src/lib.rs])

    StormGuard changes the rates of live HTB classes and the queue discipline of circuits through the
    Bakery.  The Bakery remembers the planned rates of every class it changed, so that a reset can restore
    them; a request made for an older shaping tree is refused.  The process-wide atomics are the record
    [BakeryFlags]; [load] is what [load_config] returns; [order] is the iteration order of the map of
    restorations.  A reply is the result of the handler. *)

From S2P Require Import Prelude RustStd RustCollections RustFloat RustFormat ShapedDevice.
From S2P Require Import TcHandle QdiscHandles StormguardConfig BakeryCommands BakeryPlan BakeryExecute.
From S2P Require Import BakeryDrain BakeryDiff.

(** ** State *)

(** The atomics [MQ_CREATED], [SHAPING_TREE_ACTIVE], [FULL_RELOAD_IN_PROGRESS], [FIRST_COMMIT_APPLIED],
    [STORMGUARD_TREE_GENERATION] and [STORMGUARD_TREE_REBUILD_GENERATION]. *)
Record BakeryFlags : Type := mkBakeryFlags {
  mq_created : bool;
  shaping_tree_active : bool;
  full_reload_in_progress : bool;
  first_commit_applied : bool;
  stormguard_tree_generation : Z;
  stormguard_tree_rebuild_generation : Z
}.

Record StormguardOverrideKey : Type := mkOverrideKey { key_interface : rstring; key_class : TcHandle }.
Record StormguardOverrideValue : Type := mkOverrideValue { value_planned_rate : Z; value_planned_ceil : Z }.

#[export] Instance StormguardOverrideKey_eq_dec : EqDecision StormguardOverrideKey.
Proof. solve_decision. Defined.
#[export] Instance StormguardOverrideKey_countable : Countable StormguardOverrideKey.
Proof.
  refine (inj_countable' (fun k => (key_interface k, key_class k)) (fun p => mkOverrideKey p.1 p.2) _). by intros [].
Defined.

Abbreviation stormguard_overrides := (gmap StormguardOverrideKey StormguardOverrideValue).

(** Reading the classes of an interface: the output of [tc class show], or why there is none. *)
Class TcShow (W : Type) : Type := class_show : W -> rstring -> result rstring rstring.

(** An error reply: a text, or a class line that could not be read. *)
Inductive StormguardError : Type :=
| Sg_message (text : rstring)
| Sg_class_line (interface : rstring) (error : ClassLineError).

(** ** Guards *)

Definition live_tree_mutation_blocker_for_config (flags : BakeryFlags) (config : Config) : option rstring :=
  if full_reload_in_progress flags then Some (str "a full reload is currently in progress")
  else if is_observe (queue_mode (queues config)) then
    Some (str "queue_mode is observe; root MQ is retained but the shaping tree is not live")
  else if negb (shaping_tree_active flags) then Some (str "the shaping tree is not currently active")
  else None.

Definition stormguard_live_enabled (config : Config) : bool :=
  match stormguard config with Some sg => sgc_enabled sg && negb (sgc_dry_run sg) | None => false end.

(** The guards of [apply_stormguard_adjustment_batch]. *)
Definition adjustment_batch_guard (flags : BakeryFlags) (load : result rstring Config) (tree_generation : Z)
    (dry_run : bool) (adjustments : list StormGuardClassAdjustment) : result rstring unit :=
  let current_generation := stormguard_tree_generation flags in
  if negb (tree_generation =? current_generation) then
    Err (str "StormGuard class batch used shaping-tree generation " ++ u64_to_string tree_generation
         ++ str ", but Bakery is at generation " ++ u64_to_string current_generation)
  else if is_nil adjustments then Err (str "StormGuard class batch must contain at least one adjustment")
  else if dry_run then Ok tt
  else if negb (mq_created flags) then Err (str "StormGuard class batch received before MQ setup")
  else
    match load with
    | Err error => Err (str "failed to load configuration for StormGuard class batch: " ++ error)
    | Ok config =>
        if negb (stormguard_live_enabled config) then Err (str "StormGuard is disabled or in dry-run mode")
        else
          match live_tree_mutation_blocker_for_config flags config with
          | Some reason => Err (str "StormGuard live class batch is blocked because " ++ reason)
          | None => Ok tt
          end
    end.

(** ** Commands *)

Definition stormguard_effective_rate_pair (effective_limit planned_rate planned_ceil : Z) : Z * Z :=
  if planned_ceil <=? effective_limit then (planned_rate, planned_ceil)
  else (u64_saturating_sub effective_limit 1, effective_limit).

Definition mbit (rate : Z) : rstring := u64_to_string rate ++ str "mbit".

Definition stormguard_htb_command (interface_name : rstring) (class_id : TcHandle) (rate ceil : Z) : argv :=
  [str "class"; str "replace"; str "dev"; interface_name; str "classid"; as_tc_string class_id; str "htb";
   str "rate"; mbit rate; str "ceil"; mbit ceil].

(** The command that limits the class of an adjustment to [limit]. *)
Definition limit_command (limit : StormGuardClassAdjustment -> Z) (a : StormGuardClassAdjustment) : argv :=
  let '(rate, ceil) := stormguard_effective_rate_pair (limit a) (ca_planned_rate a) (ca_planned_ceil a) in
  stormguard_htb_command (ca_interface_name a) (ca_class_id a) rate ceil.

Definition summarize_apply_result (purpose : rstring) (result : ExecuteResult) : rstring :=
  match failure_summary result with
  | Some summary =>
      if negb (str_is_empty summary) then purpose ++ str ": " ++ summary
      else if exec_ok result then purpose ++ str ": completed" else purpose ++ str ": failed"
  | None => if exec_ok result then purpose ++ str ": completed" else purpose ++ str ": failed"
  end.

(** ** Retained planned rates *)

(** [entry(key).or_insert(value)]. *)
Definition record_stormguard_override (overrides : stormguard_overrides) (key : StormguardOverrideKey)
    (planned_rate planned_ceil : Z) : stormguard_overrides :=
  match overrides !! key with
  | Some _ => overrides
  | None => <[key := mkOverrideValue planned_rate planned_ceil]> overrides
  end.

Definition adjustment_key (a : StormGuardClassAdjustment) : StormguardOverrideKey :=
  mkOverrideKey (ca_interface_name a) (ca_class_id a).

Definition finish_stormguard_adjustment_batch (overrides : stormguard_overrides)
    (adjustments : list StormGuardClassAdjustment) (result : result rstring unit)
    : Prelude.result rstring unit * stormguard_overrides :=
  match result with
  | Err e => (Err e, overrides)
  | Ok _ =>
      (Ok tt, foldl (fun overrides a =>
         record_stormguard_override overrides (adjustment_key a) (ca_planned_rate a) (ca_planned_ceil a))
         overrides adjustments)
  end.

(** ** Restoration *)

Definition restore_key (a : StormGuardRestoreAdjustment) : StormguardOverrideKey :=
  mkOverrideKey (ra_interface_name a) (ra_class_id a).

Definition stormguard_restorations (adjustments : list StormGuardRestoreAdjustment) (restore_untracked : bool)
    (overrides : stormguard_overrides) : gmap StormguardOverrideKey StormGuardRestoreAdjustment :=
  let untracked : gmap StormguardOverrideKey StormGuardRestoreAdjustment :=
    if restore_untracked then foldl (fun m a => <[restore_key a := a]> m) ∅ adjustments else ∅ in
  map_imap (fun key value =>
    Some (mkStormGuardRestoreAdjustment (key_interface key) (key_class key)
            (value_planned_rate value) (value_planned_ceil value))) overrides ∪ untracked.

Definition stormguard_restore_precondition (restore_untracked mq_ready full_reload_in_progress : bool)
    : result rstring unit :=
  if full_reload_in_progress then Err (str "a full Bakery reload is currently in progress")
  else if negb restore_untracked && negb mq_ready then Err (str "Bakery MQ setup has not completed")
  else Ok tt.

Definition stormguard_reset_command_precondition (requested_generation current_generation : Z)
    (rebuild_batch_open has_work restore_untracked mq_ready full_reload_in_progress : bool) : result rstring unit :=
  if negb (requested_generation =? current_generation) then
    Err (str "StormGuard reset used shaping-tree generation " ++ u64_to_string requested_generation
         ++ str ", but Bakery is at generation " ++ u64_to_string current_generation)
  else if rebuild_batch_open then Err (str "Bakery queue rebuild batch is still open")
  else if has_work then stormguard_restore_precondition restore_untracked mq_ready full_reload_in_progress
  else Ok tt.

Definition stormguard_restore_commands (restorations : list StormGuardRestoreAdjustment)
    (live_classes : gmap rstring (gset TcHandle)) : list argv :=
  omap (fun restoration =>
    if is_some_and (live_classes !! ra_interface_name restoration)
         (fun classes => bool_decide (ra_class_id restoration ∈ classes))
    then Some (stormguard_htb_command (ra_interface_name restoration) (ra_class_id restoration)
                 (ra_planned_rate restoration) (ra_planned_ceil restoration))
    else None) restorations.

Definition finish_stormguard_restore (overrides : stormguard_overrides) (result : result rstring unit)
    : Prelude.result rstring unit * stormguard_overrides :=
  match result with Err e => (Err e, overrides) | Ok _ => (Ok tt, ∅) end.

Definition circuit_with_sqm_override (existing : BakeryCommands) (sqm_override : option rstring)
    : result rstring BakeryCommands :=
  match existing with
  | AddCircuit c =>
      Ok (AddCircuit (mkAddCircuit (ac_circuit_hash c) (ac_circuit_name c) (ac_site_name c) (ac_parent_class_id c)
        (ac_up_parent_class_id c) (ac_class_minor c) (ac_download_min c) (ac_upload_min c) (ac_download_max c)
        (ac_upload_max c) (ac_class_major c) (ac_up_class_major c) (ac_down_qdisc_handle c) (ac_up_qdisc_handle c)
        (ac_ip_addresses c) sqm_override))
  | _ => Err (str "existing Bakery circuit state is not AddCircuit")
  end.

(** ** Handlers *)

Section Handlers.
  Context {W : Type} `{TcHost W} `{TcShow W}.
  Variable order : gmap StormguardOverrideKey StormGuardRestoreAdjustment -> list StormGuardRestoreAdjustment.

Definition execute_stormguard_batch_commands (w : W) (adjustments : list StormGuardClassAdjustment)
    (commands : list argv) : result rstring unit * W :=
  let '(result, w) := execute_in_memory w commands (str "applying StormGuard class batch") in
  if exec_ok result then (Ok tt, w)
  else
    let apply_error := summarize_apply_result (str "applying StormGuard class batch") result in
    let rollback_commands := map (limit_command ca_previous_rate) adjustments in
    let '(rollback, w) := execute_in_memory w rollback_commands (str "rolling back failed StormGuard class batch") in
    if exec_ok rollback then (Err (apply_error ++ str "; previous class rates restored"), w)
    else (Err (apply_error ++ str "; rollback also failed: "
               ++ summarize_apply_result (str "rolling back failed StormGuard class batch") rollback), w).

Definition apply_stormguard_adjustment_batch (w : W) (flags : BakeryFlags) (load : result rstring Config)
    (tree_generation : Z) (dry_run : bool) (adjustments : list StormGuardClassAdjustment)
    (overrides : stormguard_overrides) : result rstring unit * stormguard_overrides * W :=
  match adjustment_batch_guard flags load tree_generation dry_run adjustments with
  | Err e => (Err e, overrides, w)
  | Ok _ =>
      let commands := map (limit_command ca_new_rate) adjustments in
      if dry_run then (Ok tt, overrides, w)
      else
        let '(result, w) := execute_stormguard_batch_commands w adjustments commands in
        (finish_stormguard_adjustment_batch overrides adjustments result, w)
  end.

Definition read_live_class_snapshot_raw (w : W) (interface : rstring) : result StormguardError class_snapshot :=
  match class_show w interface with
  | Err e => Err (Sg_message e)
  | Ok text =>
      match parse_live_class_snapshot text with
      | Ok snapshot => Ok snapshot
      | Err e => Err (Sg_class_line interface e)
      end
  end.

(** The classes of every interface among the restorations, read once each. *)
Fixpoint read_restoration_classes (w : W) (restorations : list StormGuardRestoreAdjustment)
    (live_classes : gmap rstring (gset TcHandle)) : result StormguardError (gmap rstring (gset TcHandle)) :=
  match restorations with
  | [] => Ok live_classes
  | r :: rest =>
      match live_classes !! ra_interface_name r with
      | Some _ => read_restoration_classes w rest live_classes
      | None =>
          snapshot ← read_live_class_snapshot_raw w (ra_interface_name r);
          read_restoration_classes w rest (<[ra_interface_name r := dom snapshot]> live_classes)
      end
  end.

(** The guards of [reset_stormguard_adjustments] when there is something to restore. *)
Definition reset_guard (flags : BakeryFlags) (load : result rstring Config) (restore_untracked : bool)
    : result rstring unit :=
  _ ← stormguard_restore_precondition restore_untracked (mq_created flags) (full_reload_in_progress flags);
  if restore_untracked then Ok tt
  else
    match load with
    | Err error => Err (str "failed to load configuration: " ++ error)
    | Ok config =>
        match live_tree_mutation_blocker_for_config flags config with
        | Some reason => Err (str "live queue mutation is blocked because " ++ reason)
        | None => Ok tt
        end
    end.

Definition run_restore_commands (w : W) (commands : list argv) : result rstring unit * W :=
  if is_nil commands then (Ok tt, w)
  else
    let '(result, w) := execute_in_memory w commands (str "restoring StormGuard planned rates") in
    if exec_ok result then (Ok tt, w)
    else (Err (summarize_apply_result (str "restoring StormGuard planned rates") result), w).

Definition reset_stormguard_adjustments (w : W) (flags : BakeryFlags) (load : result rstring Config)
    (adjustments : list StormGuardRestoreAdjustment) (restore_untracked : bool) (overrides : stormguard_overrides)
    : result StormguardError unit * stormguard_overrides * W :=
  if bool_decide (overrides = ∅) && (negb restore_untracked || is_nil adjustments) then (Ok tt, ∅, w)
  else
    match reset_guard flags load restore_untracked with
    | Err e => (Err (Sg_message e), overrides, w)
    | Ok _ =>
        let restorations := order (stormguard_restorations adjustments restore_untracked overrides) in
        match read_restoration_classes w restorations ∅ with
        | Err e => (Err e, overrides, w)
        | Ok live_classes =>
            let '(apply_result, w) := run_restore_commands w (stormguard_restore_commands restorations live_classes) in
            let '(result, overrides) := finish_stormguard_restore overrides apply_result in
            (map_err Sg_message result, overrides, w)
        end
    end.

(** The outcome of an SQM change is a panic of [isp_interface], or the reply with the circuits. *)
Definition apply_stormguard_circuit_adjustment (w : W) (flags : BakeryFlags) (load : result rstring Config)
    (circuit_hash : Z) (sqm_override : option rstring) (circuits : gmap Z BakeryCommands)
    : result Panic (result rstring bool * gmap Z BakeryCommands * W) :=
  match circuits !! circuit_hash with
  | None => Ok (Ok false, circuits, w)
  | Some existing =>
      match circuit_with_sqm_override existing sqm_override with
      | Err e => Ok (Err e, circuits, w)
      | Ok command =>
          if negb (mq_created flags) then Ok (Err (str "Bakery MQ setup has not completed"), circuits, w)
          else
            match load with
            | Err error => Ok (Err (str "failed to load configuration: " ++ error), circuits, w)
            | Ok config =>
                match live_tree_mutation_blocker_for_config flags config with
                | Some reason => Ok (Err (str "live queue mutation is blocked because " ++ reason), circuits, w)
                | None =>
                    planned ← to_commands config Builder (mq_created flags) command;
                    match planned.1 with
                    | Some ((_ :: _) as commands) =>
                        let purpose := str "applying StormGuard circuit SQM adjustment" in
                        let '(result, w) := execute_in_memory w commands purpose in
                        if exec_ok result then Ok (Ok true, <[circuit_hash := command]> circuits, w)
                        else Ok (Err (summarize_apply_result purpose result), circuits, w)
                    | _ => Ok (Err (str "StormGuard circuit adjustment produced no live tc commands"), circuits, w)
                    end
                end
            end
      end
  end.

(** ** The arms of the main loop *)

(** The state of the main loop that StormGuard commands touch; [batch_open] is [batch.is_some()]. *)
Record BakerySgState : Type := mkSgState {
  sg_flags : BakeryFlags;
  sg_batch_open : bool;
  sg_overrides : stormguard_overrides;
  sg_circuits : gmap Z BakeryCommands
}.

Inductive StormguardReply : Type :=
| Reply_unit (r : result StormguardError unit)
| Reply_bool (r : result StormguardError bool)
| Reply_none.

(** A command for an older tree, or while a rebuild batch is open, is refused. *)
Definition generation_guard (what : rstring) (s : BakerySgState) (tree_generation : Z) : result rstring unit :=
  let current_generation := stormguard_tree_generation (sg_flags s) in
  if negb (tree_generation =? current_generation) then
    Err (str "StormGuard " ++ what ++ str " used shaping-tree generation " ++ u64_to_string tree_generation
         ++ str ", but Bakery is at generation " ++ u64_to_string current_generation)
  else if sg_batch_open s then Err (str "Bakery queue rebuild batch is still open")
  else Ok tt.

Definition with_overrides (s : BakerySgState) (overrides : stormguard_overrides) : BakerySgState :=
  mkSgState (sg_flags s) (sg_batch_open s) overrides (sg_circuits s).
Definition with_circuits (s : BakerySgState) (circuits : gmap Z BakeryCommands) : BakerySgState :=
  mkSgState (sg_flags s) (sg_batch_open s) (sg_overrides s) circuits.

Definition stormguard_command (w : W) (s : BakerySgState) (load : result rstring Config) (cmd : BakeryCommands)
    : result Panic (StormguardReply * BakerySgState * W) :=
  match cmd with
  | StormGuardAdjustmentBatch tree_generation dry_run adjustments =>
      let '(result, overrides, w) :=
        apply_stormguard_adjustment_batch w (sg_flags s) load tree_generation dry_run adjustments (sg_overrides s) in
      Ok (Reply_unit (map_err Sg_message result), with_overrides s overrides, w)
  | ResetStormGuardAdjustments tree_generation adjustments restore_untracked =>
      let has_work := negb (bool_decide (sg_overrides s = ∅)) || (restore_untracked && negb (is_nil adjustments)) in
      match stormguard_reset_command_precondition tree_generation (stormguard_tree_generation (sg_flags s))
              (sg_batch_open s) has_work restore_untracked (mq_created (sg_flags s))
              (full_reload_in_progress (sg_flags s)) with
      | Err e => Ok (Reply_unit (Err (Sg_message e)), s, w)
      | Ok _ =>
          let '(result, overrides, w) :=
            reset_stormguard_adjustments w (sg_flags s) load adjustments restore_untracked (sg_overrides s) in
          Ok (Reply_unit result, with_overrides s overrides, w)
      end
  | DiscardStormGuardAdjustments tree_generation =>
      match generation_guard (str "discard") s tree_generation with
      | Err e => Ok (Reply_unit (Err (Sg_message e)), s, w)
      | Ok _ => Ok (Reply_unit (Ok tt), with_overrides s ∅, w)
      end
  | StormGuardCircuitAdjustment tree_generation circuit_hash sqm_override =>
      match generation_guard (str "circuit adjustment") s tree_generation with
      | Err e => Ok (Reply_bool (Err (Sg_message e)), s, w)
      | Ok _ =>
          outcome ← apply_stormguard_circuit_adjustment w (sg_flags s) load circuit_hash sqm_override (sg_circuits s);
          let '(result, circuits, w) := outcome in
          Ok (Reply_bool (map_err Sg_message result), with_circuits s circuits, w)
      end
  | _ => Ok (Reply_none, s, w)
  end.

End Handlers.

(** [site_class_handles] and [stormguard_site_changes_intersect_ownership]: whether a change of site
    speeds touches a class that StormGuard owns. *)
Definition site_class_handles (cmd : BakeryCommands) : option (TcHandle * TcHandle) :=
  match cmd with
  | AddSite params =>
      Some (tc_handle_from_major_minor (major_of (site_parent_class_id params)) (site_class_minor params),
            tc_handle_from_major_minor (major_of (site_up_parent_class_id params)) (site_class_minor params))
  | _ => None
  end.

(** Whether one changed site is owned; the upload class is only looked up when the download class is not. *)
Definition site_change_owned (config : Config) (overrides : stormguard_overrides) (change : BakeryCommands)
    : result Panic bool :=
  match site_class_handles change with
  | None => Ok false
  | Some (down_class, up_class) =>
      isp ← isp_interface config;
      if bool_decide (is_Some (overrides !! mkOverrideKey isp down_class)) then Ok true
      else internet ← internet_interface config; Ok (bool_decide (is_Some (overrides !! mkOverrideKey internet up_class)))
  end.

Fixpoint any_change_owned (config : Config) (overrides : stormguard_overrides) (changes : list BakeryCommands)
    : result Panic bool :=
  match changes with
  | [] => Ok false
  | change :: rest =>
      owned ← site_change_owned config overrides change;
      if owned : bool then Ok true else any_change_owned config overrides rest
  end.

Definition stormguard_site_changes_intersect_ownership (site_change_mode : SiteDiffResult) (config : Config)
    (overrides : stormguard_overrides) : result Panic bool :=
  match site_change_mode with
  | SpeedChanges changes => any_change_owned config overrides changes
  | _ => Ok false
  end.
