(* ===== verification/BakeryStormguardSpec.v ===== *)
(** * Theorems about the StormGuard commands of the Bakery *)

From S2P Require Import Prelude RustStd RustCollections RustFloat RustFormat ShapedDevice.
From S2P Require Import TcHandle QdiscHandles StormguardConfig BakeryCommands BakeryPlan BakeryExecute.
From S2P Require Import BakeryExecuteSpec BakeryDrain BakeryDiff BakeryStormguard.

(** ** The rates of the live classes

    [rates] reads the rate and ceiling of a class, by device and class identity as [tc] prints them;
    [tc class replace dev .. classid .. htb rate .. ceil ..] sets those of its class and no other. *)

Class HtbRates (W L : Type) `{TcLive W L} : Type := rates : L -> rstring -> rstring -> option (rstring * rstring).

Class HtbRatesLaws (W L : Type) `{HtbRates W L} : Prop :=
  rates_replace : forall l interface class rate ceil interface' class',
    rates (effect l [str "class"; str "replace"; str "dev"; interface; str "classid"; class; str "htb";
                     str "rate"; rate; str "ceil"; ceil]) interface' class'
    = if decide (interface' = interface /\ class' = class) then Some (rate, ceil) else rates l interface' class'.

(** A class as [tc] addresses it, and the rates of an adjustment under a limit: the planned ones if the limit
    lets them pass, else the limit as ceiling and one Mbps less as rate. *)
Definition address (a : StormGuardClassAdjustment) : rstring * rstring :=
  (ca_interface_name a, as_tc_string (ca_class_id a)).
Definition limited_rates (limit : StormGuardClassAdjustment -> Z) (a : StormGuardClassAdjustment) : rstring * rstring :=
  if decide (ca_planned_ceil a <= limit a)
  then (u64_to_string (ca_planned_rate a) ++ str "mbit", u64_to_string (ca_planned_ceil a) ++ str "mbit")
  else (u64_to_string (Z.max 0 (limit a - 1)) ++ str "mbit", u64_to_string (limit a) ++ str "mbit").

(** ** Words of the commands *)

Lemma word_ok_app s t : word_ok s -> word_ok t -> word_ok (s ++ t).
Proof. unfold word_ok. rewrite Forall_app. auto. Qed.

Lemma word_ok_plain (s : rstring) : (forall c, c ∈ s -> 32 < c) -> word_ok s.
Proof. intros H. apply Forall_forall. intros c Hc%H. lia. Qed.

Lemma decimal_text_chars d c : c ∈ decimal_text d -> 48 <= c <= 57.
Proof.
  induction d; cbn [decimal_text]; [intros H%not_elem_of_nil; done|..];
    (rewrite elem_of_cons; intros [->|H]; [lia|auto]).
Qed.

(** A literal word, checked by evaluation. *)
Ltac word_literal := by (apply (bool_decide_unpack _); vm_compute).

Lemma lower_hex_ok n : word_ok (lower_hex n).
Proof. apply word_ok_plain. intros c Hc%lower_hex_digits. lia. Qed.

Lemma mbit_ok rate : word_ok (mbit rate).
Proof.
  apply word_ok_app; [|word_literal]. apply word_ok_plain. intros c Hc%decimal_text_chars. lia.
Qed.

Lemma as_tc_string_ok h : word_ok (as_tc_string h).
Proof.
  unfold as_tc_string, class_id_text, qdisc_id_text. destruct (get_major_minor h) as [major minor].
  destruct (negb _); repeat (apply word_ok_app || apply lower_hex_ok); word_literal.
Qed.

Lemma htb_command_ok interface class rate ceil :
  word_ok interface -> command_ok (stormguard_htb_command interface class rate ceil).
Proof.
  intros Hi. split; [done|]. unfold stormguard_htb_command.
  repeat (apply Forall_cons; split); [..|apply Forall_nil; exact I];
    first [exact Hi | apply mbit_ok | apply as_tc_string_ok | word_literal].
Qed.

Lemma limit_commands_ok limit adjustments :
  Forall (fun a => word_ok (ca_interface_name a)) adjustments ->
  Forall command_ok (map (limit_command limit) adjustments).
Proof.
  intros H. apply Forall_fmap. eapply Forall_impl; [exact H|]. intros a Ha. cbn. unfold limit_command.
  destruct (stormguard_effective_rate_pair _ _ _). by apply htb_command_ok.
Qed.

(** ** Retained rates *)

(** The planned rates of each class of a batch; its first adjustment counts. *)
Definition first_planned (adjustments : list StormGuardClassAdjustment) : stormguard_overrides :=
  foldr (fun a m => <[adjustment_key a := mkOverrideValue (ca_planned_rate a) (ca_planned_ceil a)]> m) ∅ adjustments.

Lemma record_override_union (overrides : stormguard_overrides) key rate ceil :
  record_stormguard_override overrides key rate ceil = overrides ∪ {[key := mkOverrideValue rate ceil]}.
Proof.
  unfold record_stormguard_override. apply map_eq. intros k. destruct (overrides !! key) as [v|] eqn:Hk.
  - rewrite lookup_union. destruct (decide (k = key)) as [->|Hne]; [by rewrite Hk, union_Some_l|].
    rewrite lookup_singleton_ne by done. by rewrite (right_id_L None _).
  - destruct (decide (k = key)) as [->|Hne].
    + rewrite lookup_insert_eq, lookup_union, Hk, lookup_singleton_eq. done.
    + rewrite lookup_insert_ne, lookup_union, lookup_singleton_ne by done. by rewrite (right_id_L None _).
Qed.

Lemma record_overrides_lookup (overrides : stormguard_overrides) adjustments :
  foldl (fun overrides a =>
    record_stormguard_override overrides (adjustment_key a) (ca_planned_rate a) (ca_planned_ceil a)) overrides adjustments
  = overrides ∪ first_planned adjustments.
Proof.
  revert overrides. induction adjustments as [|a adjustments IH]; intros overrides; cbn [foldl first_planned foldr].
  - by rewrite (right_id_L ∅ (∪)).
  - rewrite IH, record_override_union, <- (assoc_L (∪)). by rewrite <- insert_union_singleton_l.
Qed.

Lemma first_planned_key adjustments a :
  NoDup (map address adjustments) -> a ∈ adjustments ->
  first_planned adjustments !! adjustment_key a = Some (mkOverrideValue (ca_planned_rate a) (ca_planned_ceil a)).
Proof.
  induction adjustments as [|b adjustments IH]; [by intros _ ?%not_elem_of_nil|].
  cbn [map first_planned foldr]. intros [Hb Hnd]%NoDup_cons [->|Ha]%elem_of_cons; [by rewrite lookup_insert_eq|].
  rewrite lookup_insert_ne; [by apply IH|]. intros Hk. apply Hb. apply list_elem_of_In, in_map_iff. exists a.
  split; [|by apply list_elem_of_In]. unfold address, adjustment_key in *. injection Hk as -> ->. done.
Qed.

Lemma first_planned_other adjustments key :
  (key ∉ map adjustment_key adjustments) -> first_planned adjustments !! key = None.
Proof.
  induction adjustments as [|b adjustments IH]; cbn [map first_planned foldr]; [by rewrite lookup_empty|].
  intros [Hne Hno]%not_elem_of_cons. rewrite lookup_insert_ne by done. by apply IH.
Qed.

(** ** Effects *)

Section Rates.
  Context {W L : Type} `{HL : TcHostLaws W L} `{HR : !HtbRates W L} `{HRL : !HtbRatesLaws W L}.

Lemma limited_rates_pair limit a :
  limited_rates limit a
  = let '(rate, ceil) := stormguard_effective_rate_pair (limit a) (ca_planned_rate a) (ca_planned_ceil a) in
    (mbit rate, mbit ceil).
Proof.
  unfold limited_rates, stormguard_effective_rate_pair, u64_saturating_sub. rewrite (Z.max_comm (limit a - 1)).
  destruct (Z.leb_spec (ca_planned_ceil a) (limit a)); [by rewrite decide_True|by rewrite decide_False by lia].
Qed.

Lemma rates_limit_command l limit a interface class :
  rates (effect l (limit_command limit a)) interface class
  = if decide ((interface, class) = address a) then Some (limited_rates limit a) else rates l interface class.
Proof.
  unfold limit_command. rewrite limited_rates_pair. destruct (stormguard_effective_rate_pair _ _ _) as [rate ceil].
  unfold stormguard_htb_command, address. rewrite rates_replace. do 2 case_decide; naive_solver.
Qed.

(** Commands of some adjustments leave every other class alone. *)
Lemma rates_other l limit cmds adjustments interface class :
  cmds ⊆ map (limit_command limit) adjustments -> ((interface, class) ∉ map address adjustments) ->
  rates (foldl effect l cmds) interface class = rates l interface class.
Proof.
  intros Hsub Hno. revert l. induction cmds as [|c cmds IH]; intros l; [done|]. cbn [foldl].
  rewrite IH by (intros x Hx; apply Hsub; by right).
  assert (c ∈ map (limit_command limit) adjustments) as Hc by (apply Hsub; left).
  apply list_elem_of_In, in_map_iff in Hc as (a & <- & Ha). rewrite rates_limit_command, decide_False; [done|].
  intros Heq. apply Hno. rewrite Heq. by apply list_elem_of_In, in_map.
Qed.

Lemma rates_all l limit adjustments a :
  NoDup (map address adjustments) -> a ∈ adjustments ->
  rates (foldl effect l (map (limit_command limit) adjustments)) (address a).1 (address a).2 = Some (limited_rates limit a).
Proof.
  intros Hnd. revert l. induction adjustments as [|b adjustments IH]; intros l; [by intros ?%not_elem_of_nil|].
  cbn [map] in Hnd. apply NoDup_cons in Hnd as [Hb Hnd]. rewrite elem_of_cons. cbn [map foldl].
  intros [->|Ha]; [|by apply IH].
  rewrite (rates_other _ limit _ adjustments) by done.
  rewrite rates_limit_command, decide_True; [done|]. by destruct (address b).
Qed.

Lemma execute_stormguard_batch_spec w adjustments r w' :
  Forall (fun a => word_ok (ca_interface_name a)) adjustments -> NoDup (map address adjustments) ->
  (forall a, a ∈ adjustments ->
     rates (live w) (address a).1 (address a).2 = Some (limited_rates ca_previous_rate a)) ->
  execute_stormguard_batch_commands w adjustments (map (limit_command ca_new_rate) adjustments) = (r, w') ->
  (forall interface class, ((interface, class) ∉ map address adjustments) ->
     rates (live w') interface class = rates (live w) interface class)
  /\ (r = Ok tt -> forall a, a ∈ adjustments ->
       rates (live w') (address a).1 (address a).2 = Some (limited_rates ca_new_rate a))
  /\ (r <> Ok tt ->
      (forall interface class, rates (live w') interface class = rates (live w) interface class)
      \/ exists w1 rollback e, exec_ok rollback = false /\
          execute_in_memory w1 (map (limit_command ca_previous_rate) adjustments)
            (str "rolling back failed StormGuard class batch") = (rollback, w')
          /\ r = Err (e ++ str "; rollback also failed: "
                       ++ summarize_apply_result (str "rolling back failed StormGuard class batch") rollback)).
Proof.
  intros Hok Hnd Hprev. unfold execute_stormguard_batch_commands.
  destruct (execute_in_memory w _ _) as [r1 w1] eqn:H1.
  destruct (execute_in_memory_live (L := L) _ _ _ _ _ (limit_commands_ok ca_new_rate _ Hok) H1) as [Hall1 (sub1 & Hs1 & Hl1)].
  assert (forall interface class, ((interface, class) ∉ map address adjustments) ->
    rates (live w1) interface class = rates (live w) interface class) as Hother1.
  { intros i c Hic. rewrite Hl1. apply (rates_other _ ca_new_rate _ adjustments); [|done].
    intros x Hx. by eapply elem_of_sublist. }
  destruct (exec_ok r1) eqn:Hr1.
  { intros [= <- <-]. split; [done|]. split; [|done]. intros _ a Ha. rewrite (Hall1 eq_refl). by apply rates_all. }
  destruct (execute_in_memory w1 _ _) as [r2 w2] eqn:H2.
  destruct (execute_in_memory_live (L := L) _ _ _ _ _ (limit_commands_ok ca_previous_rate _ Hok) H2)
    as [Hall2 (sub2 & Hs2 & Hl2)].
  assert (forall interface class, ((interface, class) ∉ map address adjustments) ->
    rates (live w2) interface class = rates (live w) interface class) as Hother2.
  { intros i c Hic. rewrite <- Hother1 by done. rewrite Hl2. apply (rates_other _ ca_previous_rate _ adjustments); [|done].
    intros x Hx. by eapply elem_of_sublist. }
  destruct (exec_ok r2) eqn:Hr2; intros [= <- <-]; (split; [done|]; split; [done|]); intros _.
  - left. intros i c. destruct (decide ((i, c) ∈ map address adjustments)) as [Hin|Hno]; [|by apply Hother2].
    apply list_elem_of_In, in_map_iff in Hin as (a & Ha & Hin%list_elem_of_In).
    rewrite (Hall2 eq_refl). change i with (i, c).1. change c with (i, c).2 at 2 4. rewrite <- Ha.
    rewrite Hprev by done. by apply rates_all.
  - right. by exists w1, r2, (summarize_apply_result (str "applying StormGuard class batch") r1).
Qed.

(** C22: A live StormGuard class batch is all or nothing.  When it is acknowledged, every class of the
    batch has its new rates (the planned ones if the new limit lets them pass, else the limit and one Mbps
    less), and its retained rates are those it had, or else its planned ones; when it is refused or fails, no
    retained rate changes, and the live classes have their previous rates again unless the rollback itself
    failed.  Classes outside the batch never change, nor do their retained rates. *)
Theorem stormguard_batch_all_or_nothing w flags load generation adjustments overrides r overrides' w' :
  Forall (fun a => word_ok (ca_interface_name a)) adjustments -> NoDup (map address adjustments) ->
  (forall a, a ∈ adjustments ->
     rates (live w) (address a).1 (address a).2 = Some (limited_rates ca_previous_rate a)) ->
  apply_stormguard_adjustment_batch w flags load generation false adjustments overrides = (r, overrides', w') ->
  (forall interface class, ((interface, class) ∉ map address adjustments) ->
     rates (live w') interface class = rates (live w) interface class)
  /\ (forall key, (key ∉ map adjustment_key adjustments) -> overrides' !! key = overrides !! key)
  /\ (r = Ok tt -> forall a, a ∈ adjustments ->
       rates (live w') (address a).1 (address a).2 = Some (limited_rates ca_new_rate a)
       /\ overrides' !! adjustment_key a
          = Some (default (mkOverrideValue (ca_planned_rate a) (ca_planned_ceil a)) (overrides !! adjustment_key a)))
  /\ (r <> Ok tt -> overrides' = overrides /\
      ((forall interface class, rates (live w') interface class = rates (live w) interface class)
       \/ exists w1 rollback, exec_ok rollback = false /\
           execute_in_memory w1 (map (limit_command ca_previous_rate) adjustments)
             (str "rolling back failed StormGuard class batch") = (rollback, w'))).
Proof.
  intros Hok Hnd Hprev. unfold apply_stormguard_adjustment_batch.
  destruct (adjustment_batch_guard _ _ _ _ _) as [[]|e]; cycle 1.
  { intros [= <- <- <-]. split_and!; [done..|]. intros _. split; [done|]. by left. }
  destruct (execute_stormguard_batch_commands w _ _) as [r1 w1] eqn:He.
  destruct (execute_stormguard_batch_spec _ _ _ _ Hok Hnd Hprev He) as (Hother & Hall & Hfail).
  destruct r1 as [[]|e]; cbn [finish_stormguard_adjustment_batch]; intros [= <- <- <-]; split_and!; try done.
  - intros key Hno. rewrite record_overrides_lookup, lookup_union, first_planned_other by done.
    by rewrite (right_id_L None _).
  - intros _ a Ha. split; [by apply Hall|]. rewrite record_overrides_lookup, lookup_union, first_planned_key by done.
    by destruct (overrides !! adjustment_key a).
  - intros _. split; [done|]. destruct (Hfail ltac:(done)) as [Hsame|(w2 & rollback & e' & Hrb & Hexec & _)]; [by left|].
    right. by exists w2, rollback.
Qed.

End Rates.

(** ** The ledger of planned rates *)

(** What an acknowledged command does to the retained rates. *)
Definition ledger_step (cmd : BakeryCommands) (reply : StormguardReply) (overrides : stormguard_overrides)
    : stormguard_overrides :=
  match cmd, reply with
  | StormGuardAdjustmentBatch _ false adjustments, Reply_unit (Ok _) => overrides ∪ first_planned adjustments
  | ResetStormGuardAdjustments _ _ _, Reply_unit (Ok _) | DiscardStormGuardAdjustments _, Reply_unit (Ok _) => ∅
  | _, _ => overrides
  end.

Definition requested_generation (cmd : BakeryCommands) : option Z :=
  match cmd with
  | StormGuardAdjustmentBatch generation _ _ | ResetStormGuardAdjustments generation _ _
  | DiscardStormGuardAdjustments generation | StormGuardCircuitAdjustment generation _ _ => Some generation
  | _ => None
  end.

Section Ledger.
  Context {W : Type} `{TcHost W} `{TcShow W}.
  Variable order : gmap StormguardOverrideKey StormGuardRestoreAdjustment -> list StormGuardRestoreAdjustment.

Lemma adjustment_batch_ledger w flags load generation dry adjustments overrides r overrides' w' :
  apply_stormguard_adjustment_batch w flags load generation dry adjustments overrides = (r, overrides', w') ->
  overrides' = (if dry then overrides else match r with Ok _ => overrides ∪ first_planned adjustments | Err _ => overrides end).
Proof.
  unfold apply_stormguard_adjustment_batch. destruct (adjustment_batch_guard _ _ _ _ _) as [[]|e]; cycle 1.
  { intros [= <- <- <-]. by destruct dry. }
  destruct dry; [by intros [= <- <- <-]|]. destruct (execute_stormguard_batch_commands _ _ _) as [[[]|e] w1];
    cbn [finish_stormguard_adjustment_batch]; intros [= <- <- <-]; [apply record_overrides_lookup|done].
Qed.

Lemma reset_ledger w flags load adjustments untracked overrides r overrides' w' :
  reset_stormguard_adjustments order w flags load adjustments untracked overrides = (r, overrides', w') ->
  overrides' = match r with Ok _ => ∅ | Err _ => overrides end.
Proof.
  unfold reset_stormguard_adjustments. destruct (_ && _); [by intros [= <- <- <-]|].
  destruct (reset_guard _ _ _); [|by intros [= <- <- <-]].
  destruct (read_restoration_classes _ _ _); [|by intros [= <- <- <-]].
  destruct (run_restore_commands _ _) as [[[]|e] w1]; cbn; by intros [= <- <- <-].
Qed.

(** C26: The planned rates that the Bakery retains are exactly a ledger of the acknowledged commands: an
    acknowledged live batch adds the planned rates of the classes that were not yet retained, an
    acknowledged reset or discard empties it, and everything else, refusals and failures included, leaves
    it alone; a command made for another generation of the shaping tree is refused and changes nothing
    at all. *)
Theorem retained_rates_are_a_ledger w s load cmd reply s' w' :
  stormguard_command order w s load cmd = Ok (reply, s', w') ->
  sg_overrides s' = ledger_step cmd reply (sg_overrides s)
  /\ (forall generation, requested_generation cmd = Some generation ->
      generation <> stormguard_tree_generation (sg_flags s) ->
      s' = s /\ w' = w /\ ((exists e, reply = Reply_unit (Err e)) \/ exists e, reply = Reply_bool (Err e))).
Proof.
  destruct s as [flags batch_open overrides circuits]. destruct cmd; cbn [stormguard_command requested_generation];
    try (intros [= <- <- <-]; by split).
  - destruct (apply_stormguard_adjustment_batch _ _ _ _ _ _ _) as [[r overrides1] w1] eqn:Ha. intros [= <- <- <-]. split.
    + cbn. rewrite (adjustment_batch_ledger _ _ _ _ _ _ _ _ _ _ Ha). by destruct dry_run, r.
    + intros g [= <-] Hg. unfold apply_stormguard_adjustment_batch, adjustment_batch_guard in Ha. cbn in Ha, Hg.
      rewrite (proj2 (Z.eqb_neq _ _) Hg) in Ha. cbn in Ha. injection Ha as <- <- <-. split_and!; [done..|]. left. by eexists.
  - cbn [sg_flags sg_overrides sg_batch_open]. destruct (stormguard_reset_command_precondition _ _ _ _ _ _ _) as [[]|e] eqn:Hp.
    + destruct (reset_stormguard_adjustments _ _ _ _ _ _ _) as [[r overrides1] w1] eqn:Ha. intros [= <- <- <-]. split.
      * cbn. rewrite (reset_ledger _ _ _ _ _ _ _ _ _ Ha). by destruct r.
      * intros g [= <-] Hg. unfold stormguard_reset_command_precondition in Hp.
        by rewrite (proj2 (Z.eqb_neq _ _) Hg) in Hp.
    + intros [= <- <- <-]. split; [done|]. intros. split_and!; [done..|]. left. by eexists.
  - unfold generation_guard. cbn [sg_flags sg_overrides sg_batch_open].
    destruct (Z.eqb_spec tree_generation (stormguard_tree_generation flags)); cbn [negb].
    + destruct batch_open; intros [= <- <- <-]; (split; [done|]); by intros g [= <-].
    + intros [= <- <- <-]. split; [done|]. intros. split_and!; [done..|]. left. by eexists.
  - unfold generation_guard. cbn [sg_flags sg_overrides sg_batch_open sg_circuits].
    destruct (Z.eqb_spec tree_generation (stormguard_tree_generation flags)); cbn [negb].
    + destruct batch_open; [intros [= <- <- <-]; (split; [done|]); by intros g [= <-]|].
      destruct (apply_stormguard_circuit_adjustment _ _ _ _ _ _) as [[[r circuits1] w1]|p]; cbn; [|done].
      intros [= <- <- <-]. split; [done|]. by intros g [= <-].
    + intros [= <- <- <-]. split; [done|]. intros. split_and!; [done..|]. right. by eexists.
Qed.

End Ledger.

(** ** Reset *)

Section Reset.
  Context {W L : Type} `{HL : TcHostLaws W L} `{HR : !HtbRates W L} `{HRL : !HtbRatesLaws W L} `{HS : TcShow W}.
  Variable order : gmap StormguardOverrideKey StormGuardRestoreAdjustment -> list StormGuardRestoreAdjustment.
  Hypothesis order_values : forall m, order m ≡ₚ (map_to_list m).*2.

(** The class of a key is among the live classes of its interface. *)
Definition class_present (w : W) (key : StormguardOverrideKey) : Prop :=
  exists snapshot, read_live_class_snapshot_raw w (key_interface key) = Ok snapshot /\ is_Some (snapshot !! key_class key).

Definition key_ok (key : StormguardOverrideKey) : Prop := word_ok (key_interface key) /\ handle_ok (key_class key).
Definition key_address (key : StormguardOverrideKey) : rstring * rstring := (key_interface key, as_tc_string (key_class key)).

Lemma key_address_inj k k' : key_ok k -> key_ok k' -> key_address k = key_address k' -> k = k'.
Proof.
  destruct k as [i c], k' as [i' c']. intros [_ H1] [_ H2] [= -> Heq]. f_equal. by apply as_tc_string_inj.
Qed.

(** The recorded classes of an interface are those that were read. *)
Definition classes_read (w : W) (m : gmap rstring (gset TcHandle)) : Prop :=
  forall i classes, m !! i = Some classes ->
    exists snapshot, read_live_class_snapshot_raw w i = Ok snapshot /\ classes = dom snapshot.

Lemma read_restoration_classes_spec w rs : forall acc live_classes,
  classes_read w acc -> read_restoration_classes w rs acc = Ok live_classes ->
  classes_read w live_classes /\ dom acc ⊆ dom live_classes
  /\ (forall r, r ∈ rs -> ra_interface_name r ∈ dom live_classes).
Proof.
  induction rs as [|r rs IH]; intros acc live_classes Hacc; cbn [read_restoration_classes].
  { intros [= <-]. split_and!; [done..|]. by intros r ?%not_elem_of_nil. }
  assert (forall acc' : gmap rstring (gset TcHandle), ra_interface_name r ∈ dom acc' -> dom acc ⊆ dom acc' ->
    classes_read w acc' -> read_restoration_classes w rs acc' = Ok live_classes ->
    classes_read w live_classes /\ dom acc ⊆ dom live_classes
    /\ (forall r', r' ∈ r :: rs -> ra_interface_name r' ∈ dom live_classes)) as Hstep.
  { intros acc' Hin Hsub Hacc' Hread. destruct (IH acc' live_classes Hacc' Hread) as (H1 & H2 & H3).
    split_and!; [exact H1|by etrans|]. intros r'. rewrite elem_of_cons. intros [->|?]; [by apply H2|by apply H3]. }
  destruct (acc !! ra_interface_name r) eqn:Hr; [apply (Hstep acc); [by apply elem_of_dom_2 in Hr|done..]|].
  destruct (read_live_class_snapshot_raw w (ra_interface_name r)) as [snapshot|] eqn:Hs; [|done]. apply Hstep.
  - rewrite dom_insert. by apply elem_of_union_l, elem_of_singleton.
  - rewrite dom_insert. apply union_subseteq_r.
  - intros i classes. rewrite lookup_insert_Some. intros [[<- <-]|[_ ?]]; [by eexists|by apply Hacc].
Qed.

Definition restore_command (r : StormGuardRestoreAdjustment) : argv :=
  stormguard_htb_command (ra_interface_name r) (ra_class_id r) (ra_planned_rate r) (ra_planned_ceil r).

(** Restoring distinct classes: each gets its planned rates, and no other class changes. *)
Lemma restore_rates present rs : forall l,
  NoDup (map (fun r => key_address (restore_key r)) rs) ->
  let l' := foldl effect l (omap (fun r => if present r : bool then Some (restore_command r) else None) rs) in
  (forall r, r ∈ rs -> present r = true ->
     rates l' (key_address (restore_key r)).1 (key_address (restore_key r)).2
     = Some (mbit (ra_planned_rate r), mbit (ra_planned_ceil r)))
  /\ (forall interface class, ((interface, class) ∉ map (fun r => key_address (restore_key r)) rs) ->
      rates l' interface class = rates l interface class).
Proof.
  induction rs as [|r rs IH]; intros l; cbn [map omap list_omap]; intros Hnd.
  { split; [by intros r ?%not_elem_of_nil|done]. }
  apply NoDup_cons in Hnd as [Hr Hnd].
  set (l0 := if present r then effect l (restore_command r) else l).
  assert (forall interface class, rates l0 interface class =
     if decide (present r = true /\ (interface, class) = key_address (restore_key r))
     then Some (mbit (ra_planned_rate r), mbit (ra_planned_ceil r)) else rates l interface class) as Hl0.
  { intros i c. unfold l0, restore_command, stormguard_htb_command. destruct (present r); [rewrite rates_replace|by rewrite decide_False by naive_solver].
    case_decide as Hd; [destruct Hd as [-> ->]; by rewrite decide_True|].
    rewrite decide_False; [done|]. intros [_ [= -> ->]]. by apply Hd. }
  replace (foldl _ _ _) with
    (foldl effect l0 (omap (fun r => if present r : bool then Some (restore_command r) else None) rs))
    by (unfold l0; by destruct (present r)).
  destruct (IH l0 Hnd) as [Hin Hout]. split.
  - intros r'. rewrite elem_of_cons. intros [->|Hr'] Hp; [|by apply Hin].
    rewrite Hout by (by destruct (key_address (restore_key r))).
    rewrite Hl0, decide_True; [done|]. split; [done|]. by destruct (key_address (restore_key r)).
  - intros i c. rewrite not_elem_of_cons. intros [Hne Hno]. rewrite Hout by done.
    rewrite Hl0, decide_False; [done|]. by intros [_ ?].
Qed.

Lemma restore_other l cmds rs interface class :
  cmds ⊆ map restore_command rs -> ((interface, class) ∉ map (fun r => key_address (restore_key r)) rs) ->
  rates (foldl effect l cmds) interface class = rates l interface class.
Proof.
  intros Hsub Hno. revert l. induction cmds as [|c cmds IH]; intros l; [done|]. cbn [foldl].
  rewrite IH by (intros x Hx; apply Hsub; by right).
  assert (c ∈ map restore_command rs) as Hc by (apply Hsub; left).
  apply list_elem_of_In, in_map_iff in Hc as (r & <- & Hr). unfold restore_command, stormguard_htb_command. rewrite rates_replace, decide_False; [done|].
  intros [-> ->]. apply Hno. apply list_elem_of_In, in_map_iff. by exists r.
Qed.

Lemma omap_restore_ok present rs :
  (forall r, r ∈ rs -> word_ok (ra_interface_name r)) ->
  Forall command_ok (omap (fun r => if present r : bool then Some (restore_command r) else None) rs).
Proof.
  intros H1. apply Forall_forall. intros c (r & Hr & Hc)%list_elem_of_omap.
  destruct (present r); [|done]. injection Hc as <-. by apply htb_command_ok, H1.
Qed.

Lemma run_restore_commands_live w commands r w' :
  Forall command_ok commands -> run_restore_commands w commands = (r, w') ->
  (r = Ok tt -> live w' = foldl effect (live w) commands)
  /\ exists sub, sub `sublist_of` commands /\ live w' = foldl effect (live w) sub.
Proof.
  intros Hok. unfold run_restore_commands. destruct commands as [|c commands]; cbn [is_nil].
  { intros [= <- <-]. split; [done|]. by exists []. }
  destruct (execute_in_memory w _ _) as [r1 w1] eqn:He.
  destruct (execute_in_memory_live (L := L) _ _ _ _ _ Hok He) as [Hall Hsub].
  destruct (exec_ok r1); intros [= <- <-]; (split; [|done]); [by intros _; apply Hall|done].
Qed.

Lemma restorations_keyed adjustments untracked overrides key r :
  (forall k, k ∈ dom overrides -> key_ok k) -> Forall (fun a => key_ok (restore_key a)) adjustments ->
  stormguard_restorations adjustments untracked overrides !! key = Some r -> restore_key r = key /\ key_ok key.
Proof.
  intros Hov Hadj. unfold stormguard_restorations. rewrite lookup_union_Some_raw, map_lookup_imap. intros [Hl|[_ Hu]].
  - destruct (overrides !! key) as [v|] eqn:Hk; [|done]. injection Hl as <-. split; [by destruct key|].
    apply Hov. by apply elem_of_dom_2 in Hk.
  - destruct untracked; [|done].
    assert (forall (m : gmap StormguardOverrideKey StormGuardRestoreAdjustment),
      (forall k a, m !! k = Some a -> restore_key a = k /\ key_ok k) ->
      foldl (fun m a => <[restore_key a := a]> m) m adjustments !! key = Some r -> restore_key r = key /\ key_ok key) as Hfold.
    { clear Hu. induction Hadj as [|a adjustments Ha _ IH]; intros m Hm; cbn [foldl]; [apply Hm|].
      apply IH. intros k b. rewrite lookup_insert_Some. intros [[<- <-]|[_ ?]]; [done|by apply Hm]. }
    apply (Hfold ∅); [|done]. intros k a. by rewrite lookup_empty.
Qed.

Lemma restorations_override adjustments untracked (overrides : stormguard_overrides) key value :
  overrides !! key = Some value ->
  stormguard_restorations adjustments untracked overrides !! key
  = Some (mkStormGuardRestoreAdjustment (key_interface key) (key_class key)
            (value_planned_rate value) (value_planned_ceil value)).
Proof. intros H1. unfold stormguard_restorations. apply lookup_union_Some_l. by rewrite map_lookup_imap, H1. Qed.

Lemma restorations_nodup (m : gmap StormguardOverrideKey StormGuardRestoreAdjustment) :
  (forall key r, m !! key = Some r -> restore_key r = key /\ key_ok key) ->
  NoDup (map (fun r => key_address (restore_key r)) (order m)).
Proof.
  intros Hm.
  assert (map (fun r => key_address (restore_key r)) (order m)
          ≡ₚ map (fun r => key_address (restore_key r)) (map_to_list m).*2) as -> by (apply Permutation_map, order_values).
  rewrite map_map. pose proof (NoDup_fst_map_to_list m) as Hnd.
  assert (forall kr, kr ∈ map_to_list m -> restore_key kr.2 = kr.1 /\ key_ok kr.1) as Hk.
  { intros [k r] Hkr%elem_of_map_to_list. by apply Hm. }
  clear Hm. induction (map_to_list m) as [|[k r] l IH]; [constructor|].
  cbn [map fst snd] in *. apply NoDup_cons in Hnd as [Hno Hnd]. apply NoDup_cons. split.
  - intros Hin. apply list_elem_of_In, in_map_iff in Hin as ([k' r'] & Heq & Hin%list_elem_of_In). cbn in Heq.
    destruct (Hk (k, r)) as [E1 O1]; [left|]. destruct (Hk (k', r')) as [E2 O2]; [by right|]. cbn in *.
    rewrite E1, E2 in Heq. apply key_address_inj in Heq as ->; [|done..]. apply Hno.
    apply list_elem_of_In, in_map_iff. exists (k, r'). split; [done|]. by apply list_elem_of_In.
  - apply IH; [done|]. intros kr Hkr. apply Hk. by right.
Qed.

(** C24: A reset gives StormGuard's classes back their planned rates: once it is acknowledged, nothing is
    retained any more, and every class whose planned rates had been retained and that is still live has
    exactly those rates, while classes outside the restored ones never change; when it is not
    acknowledged, everything stays retained for another attempt. *)
Theorem reset_restores_planned_rates w flags load adjustments untracked overrides r overrides' w' :
  (forall k, k ∈ dom overrides -> key_ok k) -> Forall (fun a => key_ok (restore_key a)) adjustments ->
  reset_stormguard_adjustments order w flags load adjustments untracked overrides = (r, overrides', w') ->
  (forall e, r = Err e -> overrides' = overrides)
  /\ (r = Ok tt -> overrides' = ∅ /\ forall key value, overrides !! key = Some value -> class_present w key ->
      rates (live w') (key_address key).1 (key_address key).2
      = Some (mbit (value_planned_rate value), mbit (value_planned_ceil value)))
  /\ (forall interface class,
      (forall key, is_Some (stormguard_restorations adjustments untracked overrides !! key) ->
        (interface, class) <> key_address key) ->
      rates (live w') interface class = rates (live w) interface class).
Proof.
  intros Hov Hadj. pose proof (fun key r => restorations_keyed adjustments untracked overrides key r Hov Hadj) as Hkeyed.
  unfold reset_stormguard_adjustments. destruct (_ && _) eqn:Hempty.
  { apply andb_true_iff in Hempty as [->%bool_decide_eq_true _]. intros [= <- <- <-].
    split_and!; [done| |done]. intros _. split; [done|]. intros key value. by rewrite lookup_empty. }
  destruct (reset_guard _ _ _) as [[]|e]; [|intros [= <- <- <-]; split_and!; done].
  set (m := stormguard_restorations adjustments untracked overrides) in *.
  destruct (read_restoration_classes w (order m) ∅) as [classes|e] eqn:Hread; [|intros [= <- <- <-]; split_and!; done].
  destruct (read_restoration_classes_spec w (order m) ∅ classes) as (Hclasses & _ & Hdom); [by intros i ?|done|].
  set (present r := is_some_and (classes !! ra_interface_name r) (fun classes => bool_decide (ra_class_id r ∈ classes))).
  change (stormguard_restore_commands (order m) classes)
    with (omap (fun r => if present r then Some (restore_command r) else None) (order m)).
  destruct (restore_rates present (order m) (live w) (restorations_nodup m Hkeyed)) as [Hin _].
  assert (forall r, r ∈ order m <-> exists key, m !! key = Some r) as Hmem.
  { intros r0. rewrite order_values, list_elem_of_fmap. split.
    - intros ([k r1] & -> & Hk%elem_of_map_to_list). by exists k.
    - intros [k Hk]. exists (k, r0). by rewrite elem_of_map_to_list. }
  destruct (run_restore_commands w _) as [r1 w1] eqn:Hrun.
  apply run_restore_commands_live in Hrun as [Hall (sub & Hsub & Hlive)].
  2: { apply omap_restore_ok. intros r0 [key Hr0]%Hmem. destruct (Hkeyed _ _ Hr0) as [<- [? _]]. done. }
  assert (forall interface class, (forall key, is_Some (m !! key) -> (interface, class) <> key_address key) ->
    rates (live w1) interface class = rates (live w) interface class) as Hother.
  { intros i c Hic. rewrite Hlive. apply (restore_other _ _ (order m)).
    - intros x Hx. apply (sublist_subseteq _ _ Hsub), list_elem_of_omap in Hx as (r0 & Hr0 & Hx).
      destruct (present r0); [|done]. injection Hx as <-. by apply list_elem_of_In, in_map, list_elem_of_In.
    - intros Hx. apply list_elem_of_In, in_map_iff in Hx as (r0 & Heq & Hr0%list_elem_of_In).
      apply Hmem in Hr0 as [key Hr0]. apply (Hic key); [by eexists|]. destruct (Hkeyed _ _ Hr0) as [<- _]. done. }
  destruct r1 as [[]|e]; cbn [finish_stormguard_restore map_err]; intros [= <- <- <-]; (split_and!; [done| |done]);
    [|done]. intros _. split; [done|].
  intros key value Hkey (snapshot & Hsnap & Hclass). rewrite (Hall eq_refl).
  pose proof (restorations_override adjustments untracked overrides key value Hkey) as Hr. fold m in Hr.
  set (r0 := mkStormGuardRestoreAdjustment _ _ _ _) in Hr.
  assert (restore_key r0 = key) as Hk0 by (by apply Hkeyed). rewrite <- Hk0.
  apply (Hin r0); [apply Hmem; by eexists|]. unfold present, is_some_and.
  assert (r0 ∈ order m) as Hin0 by (apply Hmem; by eexists).
  apply Hdom, elem_of_dom in Hin0 as [cs Hcs]. rewrite Hcs. destruct (Hclasses _ _ Hcs) as (snapshot' & Hs' & ->).
  apply bool_decide_eq_true, elem_of_dom. cbn in Hsnap, Hclass, Hs'. rewrite Hsnap in Hs'. by injection Hs' as ->.
Qed.

End Reset.

(** ** Examples *)

#[export] Instance toy_rates : HtbRates ToyHost (list argv) := fun log interface class =>
  foldl (fun acc c =>
    match c with
    | [_; _; _; i; _; t; _; _; rate; _; ceil] => if decide (interface = i /\ class = t) then Some (rate, ceil) else acc
    | _ => acc
    end) None log.

#[export] Instance toy_rates_laws : HtbRatesLaws ToyHost (list argv).
Proof.
  intros l interface class rate ceil interface' class'. unfold rates, toy_rates.
  change (effect l ?c) with (l ++ [c]). by rewrite foldl_snoc.
Qed.

#[export] Instance toy_show : TcShow ToyHost := fun _ _ => Ok (str "class htb 1:3 parent 1:1 prio 3 rate 9Mbit ceil 9Mbit
").

Definition sg_live_config : StormguardConfig :=
  let z := f32_zero in
  mkStormguardConfig true true [] [] false None DelayProbe z z z z z z z z z z false false [] z z z z z z [] z z z.
Definition sg_example_config : Config :=
  mkConfig (mkQueueConfig (str "cake diffserv4") Shape 4 4 4 4 false false None false None None None None)
    (Some (mkBridgeConfig true (str "eth0") (str "eth1") None)) None (Some sg_live_config).
Definition sg_example_flags : BakeryFlags := mkBakeryFlags true true false true 1 1.
Definition sg_example_adjustment : StormGuardClassAdjustment :=
  mkStormGuardClassAdjustment (str "eth1") (mkTcHandle 0x10003) 80 90 10 100.
(** A host whose class is at 90 Mbps and that rejects the next command. *)
Definition sg_example_host : ToyHost :=
  mkToyHost [limit_command ca_previous_rate sg_example_adjustment] [true].

Lemma stormguard_batch_all_or_nothing_witness :
  exists r overrides' w',
    apply_stormguard_adjustment_batch sg_example_host sg_example_flags (Ok sg_example_config) 1 false
      [sg_example_adjustment] ∅ = (r, overrides', w')
    /\ r <> Ok tt /\ overrides' = ∅.
Proof.
  eexists _, _, _. split; [by vm_compute|]. split; [done|].
  refine (proj1 (proj2 (proj2 (proj2 (stormguard_batch_all_or_nothing (W := ToyHost) (L := list argv) sg_example_host
    sg_example_flags (Ok sg_example_config) 1 [sg_example_adjustment] ∅ _ _ _ _ _ _ _))) _)).
  - apply Forall_singleton. word_literal.
  - apply NoDup_singleton.
  - intros a ->%list_elem_of_singleton. by vm_compute.
  - by vm_compute.
  - done.
Defined.

Definition sg_example_state : BakerySgState :=
  mkSgState sg_example_flags false {[ mkOverrideKey (str "eth1") (mkTcHandle 0x10003) := mkOverrideValue 10 100 ]} ∅.

Lemma retained_rates_are_a_ledger_witness :
  exists reply s' w',
    stormguard_command (fun m => (map_to_list m).*2) (mkToyHost [] []) sg_example_state (Ok sg_example_config)
      (ResetStormGuardAdjustments 1 [] false) = Ok (reply, s', w')
    /\ reply = Reply_unit (Ok tt) /\ sg_overrides s' = ∅.
Proof.
  eexists _, _, _. split; [by vm_compute|]. split; [done|].
  refine (proj1 (retained_rates_are_a_ledger (fun m => (map_to_list m).*2) (mkToyHost [] []) sg_example_state
    (Ok sg_example_config) (ResetStormGuardAdjustments 1 [] false) (Reply_unit (Ok tt)) _ _ _)).
  by vm_compute.
Defined.

Definition sg_adjusted_host : ToyHost := mkToyHost [limit_command ca_previous_rate sg_example_adjustment] [].
Definition sg_example_key : StormguardOverrideKey := mkOverrideKey (str "eth1") (mkTcHandle 0x10003).

(** The class is at 90 Mbps before the reset and at its planned rates, 10 and 100 Mbps, after it. *)
Lemma reset_restores_planned_rates_witness :
  rates (live sg_adjusted_host) (key_address sg_example_key).1 (key_address sg_example_key).2 = Some (mbit 89, mbit 90)
  /\ exists overrides' w',
    reset_stormguard_adjustments (fun m => (map_to_list m).*2) sg_adjusted_host sg_example_flags (Ok sg_example_config)
      [] false (sg_overrides sg_example_state) = (Ok tt, overrides', w')
    /\ rates (live w') (key_address sg_example_key).1 (key_address sg_example_key).2 = Some (mbit 10, mbit 100).
Proof.
  split; [by vm_compute|]. eexists _, _. split; [by vm_compute|].
  refine (proj2 (proj1 (proj2 (reset_restores_planned_rates (W := ToyHost) (L := list argv) (fun m => (map_to_list m).*2) _
    sg_adjusted_host sg_example_flags (Ok sg_example_config) [] false (sg_overrides sg_example_state) (Ok tt) ∅ _ _ _ _))
    eq_refl) sg_example_key (mkOverrideValue 10 100) _ _).
  - done.
  - intros k. cbn [sg_overrides sg_example_state]. rewrite dom_singleton, elem_of_singleton. intros ->.
    split; [word_literal|]. unfold handle_ok. cbn. lia.
  - constructor.
  - by vm_compute.
  - by vm_compute.
  - eexists. split; [by vm_compute|]. vm_compute. by eexists.
Defined.

(** With lazy queues of the kind [Htb], an acknowledged SQM change of a circuit has replaced its classes only:
    no command for its queue disciplines is among those that were run. *)
Lemma htb_mode_sqm_change_runs_no_qdisc config mq c planned :
  lazy_queues (queues config) = Some Lazy_Htb -> to_commands config Builder mq (AddCircuit c) = Ok planned ->
  match planned.1 with
  | Some commands => Forall (fun command => head command = Some (str "class")) commands
  | None => True
  end.
Proof.
  intros Hlazy. cbn [to_commands]. unfold add_circuit. rewrite Hlazy. cbn [circuit_work].
  destruct (is_observe _); [by intros [= <-]|]. destruct (directional_override _) as [down up]. unfold push_if. cbn [andb].
  destruct (isp_interface config); [|done]. cbn [mbind result_bind].
  destruct (internet_interface config); [|done]. intros [= <-]. cbn [fst]. repeat constructor.
Qed.
