(* ===== verification/StormguardLive.v ===== *)
(** * StormGuard on the live shaper

    The tracker of StormGuard run against the Bakery: the environment of its actions is the state of the
    Bakery with a host of [tc], the override layers and the devices.  The theorem of this file composes the
    tracker, the Bakery's handlers, the executor and [tc]. *)

From S2P Require Import Prelude RustStd RustCollections RustFloat RustFormat ShapedDevice.
From S2P Require Import TcHandle QdiscHandles StormguardConfig BakeryCommands BakeryPlan BakeryExecute.
From S2P Require Import BakeryExecuteSpec BakeryDrain Overrides StormguardSite StormguardDecisions StormguardActions.
From S2P Require Import StormguardTracker StormguardSpec BakeryDiff BakeryStormguard BakeryStormguardSpec.

(** ** The Bakery as StormGuard reaches it *)

(** A request in the channel of the Bakery. *)
Inductive SgRequest : Type :=
| Batch_Request (generation : Z) (dry_run : bool) (adjustments : list StormGuardClassAdjustment)
| Circuit_Request (generation circuit : Z) (sqm : option rstring).

(** How a wait for the Bakery goes: the reply is there before the deadline, or the deadline passes when so many
    of the queued requests have been served. *)
Inductive BakeryWait : Type := Reply_in_time | Deadline_after (served : nat).

(** [env_queue] holds the requests that the Bakery has not served yet, [env_alive] tells whether its thread runs,
    [env_waits] how the waits to come go (in time once it is empty), and [env_writable] whether override files
    can be written. *)
Record BakeryEnv (W : Type) : Type := mkBakeryEnv {
  env_host : W;
  env_state : BakerySgState;
  env_alive : bool;
  env_queue : list SgRequest;
  env_waits : list BakeryWait;
  env_load : result rstring Config;
  env_stormguard_layer : OverrideFile;
  env_operator_layer : OverrideFile;
  env_treeguard_layer : OverrideFile;
  env_writable : bool;
  env_devices : list ShapedDevice
}.
Arguments mkBakeryEnv {W}. Arguments env_host {W}. Arguments env_state {W}. Arguments env_alive {W}.
Arguments env_queue {W}. Arguments env_waits {W}. Arguments env_load {W}.
Arguments env_stormguard_layer {W}. Arguments env_operator_layer {W}. Arguments env_treeguard_layer {W}.
Arguments env_writable {W}. Arguments env_devices {W}.

Definition with_bakery {W} (e : BakeryEnv W) (w : W) (s : BakerySgState) : BakeryEnv W :=
  mkBakeryEnv w s (env_alive e) (env_queue e) (env_waits e) (env_load e) (env_stormguard_layer e)
    (env_operator_layer e) (env_treeguard_layer e) (env_writable e) (env_devices e).

Definition with_channel {W} (e : BakeryEnv W) (alive : bool) (queue : list SgRequest) (waits : list BakeryWait)
    : BakeryEnv W :=
  mkBakeryEnv (env_host e) (env_state e) alive queue waits (env_load e) (env_stormguard_layer e)
    (env_operator_layer e) (env_treeguard_layer e) (env_writable e) (env_devices e).

Definition with_layer {W} (e : BakeryEnv W) (layer : OverrideLayer) (f : OverrideFile) : BakeryEnv W :=
  let at_ l old := match layer, l with
    | Layer_Operator, Layer_Operator | Layer_Stormguard, Layer_Stormguard | Layer_Treeguard, Layer_Treeguard => f
    | _, _ => old
    end in
  mkBakeryEnv (env_host e) (env_state e) (env_alive e) (env_queue e) (env_waits e) (env_load e)
    (at_ Layer_Stormguard (env_stormguard_layer e)) (at_ Layer_Operator (env_operator_layer e))
    (at_ Layer_Treeguard (env_treeguard_layer e)) (env_writable e) (env_devices e).

Section Channel.
  Context {W : Type} `{TcHost W}.

(** The Bakery serves a batch: its reply and its state. *)
Definition serve_batch (e : BakeryEnv W) (generation : Z) (dry_run : bool)
    (adjustments : list StormGuardClassAdjustment) : result rstring unit * BakeryEnv W :=
  let '(r, overrides, w) :=
    apply_stormguard_adjustment_batch (env_host e) (sg_flags (env_state e)) (env_load e) generation dry_run adjustments
      (sg_overrides (env_state e)) in
  (r, with_bakery e w (with_overrides (env_state e) overrides)).

(** The Bakery serves a circuit; a panic ends its thread without a reply. *)
Definition serve_circuit (e : BakeryEnv W) (generation circuit : Z) (sqm : option rstring)
    : option (result rstring bool) * BakeryEnv W :=
  match generation_guard (str "circuit adjustment") (env_state e) generation with
  | Err error => (Some (Err error), e)
  | Ok _ =>
      match apply_stormguard_circuit_adjustment (env_host e) (sg_flags (env_state e)) (env_load e) circuit sqm
              (sg_circuits (env_state e)) with
      | Err (Panicked _) => (None, with_channel e false [] (env_waits e))
      | Ok (r, circuits, w) => (Some r, with_bakery e w (with_circuits (env_state e) circuits))
      end
  end.

Definition serve (e : BakeryEnv W) (request : SgRequest) : BakeryEnv W :=
  match request with
  | Batch_Request generation dry_run adjustments => (serve_batch e generation dry_run adjustments).2
  | Circuit_Request generation circuit sqm => (serve_circuit e generation circuit sqm).2
  end.

Fixpoint serve_all (e : BakeryEnv W) (requests : list SgRequest) : BakeryEnv W :=
  match requests with
  | [] => e
  | request :: rest => let e := serve e request in if env_alive e then serve_all e rest else e
  end.

(** [wait_for_bakery_reply] after [request] was sent; [answer] is how the Bakery serves it.  The requests that
    were sent before are served first; after the deadline the request stays in the channel. *)
Definition wait_for_bakery_reply {A} (e : BakeryEnv W) (request : SgRequest)
    (answer : BakeryEnv W -> option (result rstring A) * BakeryEnv W) (operation : rstring)
    : result rstring A * BakeryEnv W :=
  let closed := Err (str "Bakery closed the " ++ operation ++ str " reply channel") in
  match env_waits e with
  | Deadline_after n :: waits =>
      let queue := env_queue e ++ [request] in
      let e := serve_all (with_channel e true (drop n queue) waits) (take n queue) in
      (if env_alive e then Err (str "timed out waiting for Bakery to " ++ operation) else closed, e)
  | waits =>
      let e := serve_all (with_channel e true [] (tail waits)) (env_queue e) in
      if env_alive e then
        match answer e with
        | (Some r, e) => (r, e)
        | (None, e) => (closed, e)
        end
      else (closed, e)
  end.

#[export] Instance bakery_env : SgEnv (BakeryEnv W) := {
  bakery_batch e generation dry_run adjustments :=
    if env_alive e then
      wait_for_bakery_reply e (Batch_Request generation dry_run adjustments)
        (fun e => let '(r, e) := serve_batch e generation dry_run adjustments in (Some r, e))
        (str "apply StormGuard adjustment batch")
    else (Err (str "failed to send StormGuard adjustment batch to Bakery"), e);
  bakery_circuit e generation circuit sqm operation :=
    if env_alive e then
      wait_for_bakery_reply e (Circuit_Request generation circuit sqm)
        (fun e => serve_circuit e generation circuit sqm) operation
    else (Err (str "sending on a disconnected channel"), e);
  load_layer e layer := Ok (match layer with
    | Layer_Operator => env_operator_layer e
    | Layer_Stormguard => env_stormguard_layer e
    | Layer_Treeguard => env_treeguard_layer e
    end);
  save_layer e layer f := if env_writable e then (Ok tt, with_layer e layer f) else (Err (str "read-only file system"), e);
  load_shaped_devices e := Ok (env_devices e);
  load_source_shaped_devices e := Ok (env_devices e)
}.

End Channel.

(** ** The rates of a site on the host *)

Section Live.
  Context {W L : Type} `{HL : TcHostLaws W L} `{HR : !HtbRates W L} `{HRL : !HtbRatesLaws W L}.

(** The classes of a site in a direction, at its present rate. *)
Definition site_classes (config : SgRunConfig) (s : SiteState) (d : RecommendationDirection) (q : QueueNode) (rate : Z)
    : list StormGuardClassAdjustment :=
  site_adjustment_batch (ss_config s) d (site_rate s d) rate (interface_name config d) (q_class_id q) (queue_minimum_rate q d).

(** Every class of the site has the rates that the site's rate asks for. *)
Definition synced (e : BakeryEnv W) (config : SgRunConfig) (s : SiteState) (d : RecommendationDirection) (q : QueueNode) : Prop :=
  forall a, a ∈ site_classes config s d q (site_rate s d) ->
    rates (live (env_host e)) (address a).1 (address a).2 = Some (limited_rates ca_previous_rate a).

(** The error says that a request was still unanswered at the deadline. *)
Definition reports_timeout (errors : list rstring) : Prop :=
  errors = [str "timed out waiting for Bakery to apply StormGuard adjustment batch"].

(** The error says that the live classes could not be restored. *)
Definition reports_lost_rollback (errors : list rstring) : Prop :=
  exists e1 e2, errors = [e1 ++ str "; rollback also failed: " ++ e2] \/ errors = [e1 ++ str "; rollback failed: " ++ e2].

Lemma batch_addresses site d previous new previous' new' interface class planned :
  map address (site_adjustment_batch site d previous new interface class planned)
  = map address (site_adjustment_batch site d previous' new' interface class planned).
Proof.
  unfold site_adjustment_batch, dependent_adjustments. rewrite !map_app, !map_map. f_equal.
  apply map_ext. intros dep. by destruct d.
Qed.

(** The classes of a batch that goes on from [new], paired with those of the batch that led there. *)
Lemma batch_next site d previous new next interface class planned a :
  a ∈ site_adjustment_batch site d new next interface class planned ->
  exists a0, a0 ∈ site_adjustment_batch site d previous new interface class planned
    /\ address a0 = address a /\ limited_rates ca_new_rate a0 = limited_rates ca_previous_rate a.
Proof.
  unfold site_adjustment_batch, dependent_adjustments. rewrite map_map, elem_of_app, list_elem_of_singleton. intros [Ha|Ha].
  - apply list_elem_of_In, in_map_iff in Ha as (dep & <- & Hdep).
    eexists. split.
    + rewrite elem_of_app. left. rewrite map_map. apply list_elem_of_In, in_map_iff. exists dep. split; [reflexivity|done].
    + by destruct d.
  - subst a. eexists. split; [rewrite elem_of_app; right; by apply list_elem_of_singleton|]. done.
Qed.

(** The classes before a batch do not depend on where it goes. *)
Lemma batch_same_previous site d previous new new' interface class planned a :
  a ∈ site_adjustment_batch site d previous new interface class planned ->
  exists a0, a0 ∈ site_adjustment_batch site d previous new' interface class planned
    /\ address a0 = address a /\ limited_rates ca_previous_rate a0 = limited_rates ca_previous_rate a.
Proof.
  unfold site_adjustment_batch, dependent_adjustments. rewrite map_map, elem_of_app, list_elem_of_singleton. intros [Ha|Ha].
  - apply list_elem_of_In, in_map_iff in Ha as (dep & <- & Hdep).
    eexists. split.
    + rewrite elem_of_app. left. rewrite map_map. apply list_elem_of_In, in_map_iff. exists dep. split; [reflexivity|done].
    + by destruct d.
  - subst a. eexists. split; [rewrite elem_of_app; right; by apply list_elem_of_singleton|]. done.
Qed.

Lemma served_batch_spec (e : BakeryEnv W) generation adjustments r e' :
  Forall (fun a => word_ok (ca_interface_name a)) adjustments -> NoDup (map address adjustments) ->
  (forall a, a ∈ adjustments ->
     rates (live (env_host e)) (address a).1 (address a).2 = Some (limited_rates ca_previous_rate a)) ->
  serve_batch e generation false adjustments = (r, e') ->
  env_queue e' = env_queue e
  /\ (r = Ok tt -> forall a, a ∈ adjustments ->
       rates (live (env_host e')) (address a).1 (address a).2 = Some (limited_rates ca_new_rate a))
  /\ (forall error, r = Err error ->
       (forall interface class, rates (live (env_host e')) interface class = rates (live (env_host e)) interface class)
       \/ exists e1 e2, error = e1 ++ str "; rollback also failed: " ++ e2).
Proof.
  intros Hok Hnd Hprev. unfold serve_batch, apply_stormguard_adjustment_batch.
  destruct (adjustment_batch_guard _ _ _ _ _) as [[]|e0]; cycle 1.
  { intros [= <- <-]. split_and!; [done|done|]. intros error [= <-]. by left. }
  destruct (execute_stormguard_batch_commands _ _ _) as [r1 w1] eqn:He.
  destruct (execute_stormguard_batch_spec (L := L) _ _ _ _ Hok Hnd Hprev He) as (_ & Hall & Hfail).
  destruct r1 as [[]|e1]; cbn [finish_stormguard_adjustment_batch]; intros [= <- <-].
  - split_and!; [done| |done]. intros _. by apply Hall.
  - split_and!; [done|done|]. intros error [= <-].
    destruct (Hfail ltac:(done)) as [Hsame|(w2 & rb & e2 & _ & _ & Heq)]; [by left|].
    right. injection Heq as ->. by eexists _, _.
Qed.

(** What a batch did: all of it, or nothing, or its rollback failed, or the deadline passed. *)
Definition batch_outcome (e e' : BakeryEnv W) (adjustments : list StormGuardClassAdjustment) (r : result rstring unit)
    : Prop :=
  match r with
  | Ok _ => env_queue e' = [] /\ forall a, a ∈ adjustments ->
      rates (live (env_host e')) (address a).1 (address a).2 = Some (limited_rates ca_new_rate a)
  | Err error =>
      (env_queue e' = [] /\ forall interface class,
         rates (live (env_host e')) interface class = rates (live (env_host e)) interface class)
      \/ (exists e1 e2, error = e1 ++ str "; rollback also failed: " ++ e2) \/ reports_timeout [error]
  end.

(** A batch sent when the channel is empty: unless the wait runs into the deadline, nothing stays in it. *)
Lemma env_batch_spec (e : BakeryEnv W) generation adjustments r e' :
  env_queue e = [] ->
  Forall (fun a => word_ok (ca_interface_name a)) adjustments -> NoDup (map address adjustments) ->
  (forall a, a ∈ adjustments ->
     rates (live (env_host e)) (address a).1 (address a).2 = Some (limited_rates ca_previous_rate a)) ->
  bakery_batch e generation false adjustments = (r, e') -> batch_outcome e e' adjustments r.
Proof.
  intros Hq Hok Hnd Hprev. cbn [bakery_batch bakery_env]. destruct (env_alive e); cycle 1.
  { intros [= <- <-]. by left. }
  unfold wait_for_bakery_reply. rewrite Hq.
  assert (forall waits, serve_batch (with_channel e true [] waits) generation false adjustments = (r, e') ->
    batch_outcome e e' adjustments r) as Hserved.
  { intros waits Hs. apply (served_batch_spec (with_channel e true [] waits)) in Hs as (Hqueue & Hall & Hfail); [|done..].
    destruct r as [[]|error]; cbn [batch_outcome]; [by eauto|].
    destruct (Hfail error eq_refl) as [Hsame|Hlost]; [left|right; left]; done. }
  destruct (env_waits e) as [|[|[|n]] waits]; cbn [tail app take drop serve_all serve env_alive with_channel].
  - intros Hr. apply (Hserved []). by destruct (serve_batch _ _ _ _).
  - intros Hr. apply (Hserved waits). by destruct (serve_batch _ _ _ _).
  - intros [= <- <-]. by right; right.
  - rewrite take_nil. cbn [serve_all]. destruct (serve_batch _ _ _ _) as [r1 e1] eqn:Hs.
    assert (env_alive e1 = true) as Halive.
    { unfold serve_batch in Hs. destruct (apply_stormguard_adjustment_batch _ _ _ _ _ _ _) as [[r2 o2] w2].
      by injection Hs as <- <-. }
    cbn [snd]. rewrite !Halive. intros [= <- <-]. by right; right.
Qed.

Lemma site_update_host (e : BakeryEnv W) updates r e' :
  apply_site_override_updates e updates = (r, e') -> env_host e' = env_host e /\ env_queue e' = env_queue e.
Proof.
  unfold apply_site_override_updates, update_layer. destruct updates as [|u us]; [by intros [= <- <-]|].
  cbn [load_layer save_layer bakery_env]. destruct (foldl _ _ _) as [f changed].
  destruct (negb changed); [by intros [= <- <-]|]. destruct (env_writable e); by intros [= <- <-].
Qed.

Lemma rollback_addresses adjustments : map address (rollback_adjustments adjustments) = map address adjustments.
Proof. unfold rollback_adjustments. rewrite map_map. apply map_ext. by intros []. Qed.

(** The live part of a recommendation: the classes follow the rate that the site will have. *)
Lemma apply_batch_synced (e : BakeryEnv W) config generation s d q new_rate r e' :
  sg_dry_run config = false -> word_ok (interface_name config d) -> env_queue e = [] ->
  NoDup (map address (site_classes config s d q new_rate)) -> synced e config s d q ->
  apply_batch e config generation s d q new_rate = (r, e') ->
  match r with
  | Ok _ => env_queue e' = [] /\ forall a, a ∈ site_classes config s d q new_rate ->
      rates (live (env_host e')) (address a).1 (address a).2 = Some (limited_rates ca_new_rate a)
  | Err error => env_queue e' = [] /\ synced e' config s d q \/ reports_lost_rollback [error] \/ reports_timeout [error]
  end.
Proof.
  intros Hdry Hword Hq Hnd Hsync. unfold apply_batch. rewrite Hdry. set (adjustments := site_adjustment_batch _ _ _ _ _ _ _).
  assert (Forall (fun a => word_ok (ca_interface_name a)) adjustments) as Hok.
  { unfold adjustments, site_adjustment_batch. apply Forall_app. split; [|by apply Forall_singleton].
    apply Forall_map, Forall_forall. by intros [[[c p] m] x] _. }
  assert (forall a, a ∈ adjustments ->
    rates (live (env_host e)) (address a).1 (address a).2 = Some (limited_rates ca_previous_rate a)) as Hprev.
  { intros a Ha. destruct (batch_same_previous _ _ _ _ (site_rate s d) _ _ _ _ Ha) as (a0 & Ha0 & Haddr & Hrates).
    rewrite <- Haddr, <- Hrates. by apply Hsync. }
  destruct (bakery_batch e generation false adjustments) as [r1 e1] eqn:Hb.
  pose proof (env_batch_spec _ _ _ _ _ Hq Hok Hnd Hprev Hb) as Hout. destruct r1 as [[]|error]; cycle 1.
  { intros [= <- <-]. destruct Hout as [[Hq1 Hsame]|[(x & y & ->)|Htimeout]].
    - left. split; [done|]. intros a Ha. rewrite Hsame. by apply Hsync.
    - right; left. exists x, y. by left.
    - by right; right. }
  destruct Hout as [Hq1 Hall]. unfold persist_or_roll_back.
  destruct (apply_site_override_updates e1 _) as [[p|error] e2] eqn:Hp; apply site_update_host in Hp as [Hp Hq2].
  { intros [= <- <-]. by rewrite Hp, Hq2. }
  assert (forall a, a ∈ rollback_adjustments adjustments ->
    rates (live (env_host e2)) (address a).1 (address a).2 = Some (limited_rates ca_previous_rate a)) as Hprev2.
  { intros a Ha. apply list_elem_of_In, in_map_iff in Ha as (a0 & <- & Ha0%list_elem_of_In). rewrite Hp. exact (Hall a0 Ha0). }
  destruct (bakery_batch e2 generation false (rollback_adjustments adjustments)) as [r3 e3] eqn:Hb3.
  apply env_batch_spec in Hb3 as Hout3; [|by rewrite Hq2| |by rewrite rollback_addresses|done]; cycle 1.
  { apply Forall_map. eapply Forall_impl; [exact Hok|]. by intros []. }
  destruct r3 as [[]|rollback_error]; intros [= <- <-].
  - destruct Hout3 as [Hq3 Hall3]. left. split; [done|]. intros a Ha.
    destruct (batch_same_previous _ _ _ _ new_rate _ _ _ _ Ha) as (a0 & Ha0 & <- & <-).
    apply (Hall3 (mkStormGuardClassAdjustment (ca_interface_name a0) (ca_class_id a0) (ca_previous_rate a0)
      (ca_new_rate a0) (ca_planned_rate a0) (ca_planned_ceil a0))).
    apply list_elem_of_In, in_map_iff. exists a0. split; [done|]. by apply list_elem_of_In.
  - right; left. exists (str "failed to persist StormGuard rate: " ++ error), rollback_error. right. by rewrite <- !app_assoc.
Qed.

(** C18: StormGuard's view of a site is the live one.  When no request is left in the channel of the Bakery and
    the classes of a site have the rates that the tracker believes, then after a recommendation for that site
    and direction has been applied through the Bakery, refused or not and persisted or not, the channel is
    empty again and the classes have exactly the rates of the site's recorded rate, unless the reported error
    says that a rollback failed or that the Bakery had not answered after ten seconds. *)
Theorem tracker_rate_is_live_rate (e : BakeryEnv W) now config queues t r s q t' errors ok e' :
  sg_dry_run config = false -> tr_sites t !! rec_site r = Some s -> find_queue queues (rec_site r) = Some q ->
  q_circuit_id q = None -> word_ok (interface_name config (rec_direction r)) ->
  NoDup (map address (site_classes config s (rec_direction r) q (site_rate s (rec_direction r)))) ->
  env_queue e = [] -> synced e config s (rec_direction r) q ->
  apply_recommendation e now config queues t r = (t', errors, ok, e') ->
  exists s', tr_sites t' !! rec_site r = Some s'
    /\ (env_queue e' = [] /\ synced e' config s' (rec_direction r) q
        \/ reports_lost_rollback errors \/ reports_timeout errors).
Proof.
  intros Hdry Hs Hq Hcircuit Hword Hnd Hqueue Hsync. unfold apply_recommendation. rewrite Hs, Hq, Hcircuit.
  assert (forall s', same_rates s s' -> synced e config s' (rec_direction r) q) as Hsame.
  { intros s' [C R]. unfold synced, site_classes. by rewrite C, R. }
  assert (forall rate, NoDup (map address (site_classes config s (rec_direction r) q rate))) as Hnd'.
  { intros rate. unfold site_classes in *. by erewrite batch_addresses. }
  destruct (sg_sites config !! rec_site r) as [site_config|]; cycle 1.
  { intros [= <- <- <- <-]. eexists. cbn [tr_sites put_site with_sites]. rewrite lookup_insert_eq.
    split; [done|]. left. split; [done|]. apply Hsame, same_rates_skipped. }
  destruct (dd_target_mbps _) as [new_rate|]; cycle 1.
  { intros [= <- <- <- <-]. eexists. cbn [tr_sites put_site with_sites]. rewrite lookup_insert_eq.
    split; [done|]. left. split; [done|]. apply Hsame, same_rates_skipped. }
  destruct (negb _).
  { intros [= <- <- <- <-]. eexists. cbn [tr_sites put_site with_sites]. rewrite lookup_insert_eq.
    split; [done|]. left. split; [done|]. apply Hsame, same_rates_skipped. }
  destruct (apply_batch e config (tr_generation t) s (rec_direction r) q new_rate) as [[[]|error] e1] eqn:Ha;
    pose proof (apply_batch_synced _ _ _ _ _ _ _ _ _ Hdry Hword Hqueue (Hnd' new_rate) Hsync Ha) as Hout; cycle 1.
  { intros [= <- <- <- <-]. eexists. cbn [tr_sites put_site with_sites]. rewrite lookup_insert_eq. split; [done|].
    destruct Hout as [[Hq' Hs']|Hl]; [left; split; [done|]|by right].
    unfold synced, site_classes, record_failed_application. by destruct (same_rates_record_attempt s (rec_direction r)
      (mkAttempt (rec_action r) new_rate (str "failed") (Some error))) as [-> ->]. }
  destruct Hout as [Hq' Hall]. unfold complete_successful_application. rewrite Hdry. intros [= <- <- <- <-].
  eexists. cbn [tr_sites]. rewrite lookup_insert_eq. split; [done|]. left. split; [exact Hq'|].
  set (s1 := set_lane s (rec_direction r) (rated_lane (lane s (rec_direction r)) new_rate)).
  set (s' := enter_cooldown _ _ _ _ _).
  assert (same_rates s1 s') as [C R] by (etrans; [apply same_rates_record_attempt|apply same_rates_enter_cooldown]).
  assert (site_rate s1 (rec_direction r) = new_rate) as Hrate.
  { unfold site_rate, s1. rewrite lane_set_lane, decide_True; done. }
  intros a. unfold site_classes. rewrite C, R, Hrate. intros Hin.
  destruct (batch_next _ _ (site_rate s (rec_direction r)) _ _ _ _ _ _ Hin) as (a0 & Ha0 & <- & <-). by apply Hall.
Qed.

End Live.

(** ** An example: a site at 100 Mbps is lowered to 88 Mbps *)

Definition live_example_env (waits : list BakeryWait) : BakeryEnv ToyHost :=
  let site := stormguard_example_site in
  mkBakeryEnv
    (mkToyHost (map (limit_command ca_previous_rate)
       (site_classes stormguard_example_config site Download stormguard_example_queue 100)) [])
    (mkSgState sg_example_flags false ∅ ∅) true [] waits (Ok sg_example_config) OverrideFile_default OverrideFile_default
    OverrideFile_default true [].
Definition live_example_tracker : SiteStateTracker :=
  mkTracker 1 {[str "Tower" := (site_recommendations stormguard_example_config stormguard_example_site).1]} ∅ [].
Definition live_example_recommendation : Recommendation := mkRecommendation (str "Tower") Download DecreaseFast.

Definition live_example_result (waits : list BakeryWait) : SiteStateTracker * list rstring * bool * BakeryEnv ToyHost :=
  apply_recommendation (live_example_env waits) 0 stormguard_example_config [stormguard_example_queue] live_example_tracker
    live_example_recommendation.

Lemma tracker_rate_is_live_rate_witness :
  exists t' errors ok e',
    live_example_result [] = (t', errors, ok, e') /\ ok = true
    /\ exists s', tr_sites t' !! str "Tower" = Some s' /\ site_rate s' Download = 88
       /\ (env_queue e' = [] /\ synced (L := list argv) e' stormguard_example_config s' Download stormguard_example_queue
           \/ reports_lost_rollback errors \/ reports_timeout errors).
Proof.
  pose proof (tracker_rate_is_live_rate (W := ToyHost) (L := list argv) (live_example_env []) 0 stormguard_example_config
    [stormguard_example_queue] live_example_tracker live_example_recommendation
    (site_recommendations stormguard_example_config stormguard_example_site).1 stormguard_example_queue) as Hlive.
  fold (live_example_result []) in Hlive.
  assert ((live_example_result []).1.2 = true) as Hok by (by vm_compute).
  assert ((fun s => site_rate s Download) <$> (tr_sites (live_example_result []).1.1.1 !! str "Tower") = Some 88) as H88
    by (by vm_compute).
  destruct (live_example_result []) as [[[t' errors] ok] e']. cbn [fst snd] in *.
  exists t', errors, ok, e'. split; [reflexivity|]. split; [exact Hok|].
  destruct (Hlive t' errors ok e') as (s' & Hs' & Hsync); [reflexivity|by vm_compute|by vm_compute|reflexivity|word_literal|..].
  - apply (bool_decide_unpack _). by vm_compute.
  - reflexivity.
  - intros a Ha'%list_elem_of_singleton. rewrite Ha'. by vm_compute.
  - reflexivity.
  - exists s'. split; [exact Hs'|]. split; [|exact Hsync].
    change (rec_site live_example_recommendation) with (str "Tower") in Hs'. rewrite Hs' in H88. injection H88 as H88. exact H88.
Defined.

(** A change that is served after the deadline: the tracker keeps 100 Mbps, the class has 88 Mbps. *)
Lemma unanswered_change_diverges :
  let '(t', errors, ok, e') := live_example_result [Deadline_after 1] in
  reports_timeout errors /\ ok = false
  /\ (fun s => site_rate s Download) <$> tr_sites t' !! str "Tower" = Some 100
  /\ map (fun a => rates (L := list argv) (live (env_host e')) (address a).1 (address a).2)
       (site_classes stormguard_example_config stormguard_example_site Download stormguard_example_queue 88)
     = map (fun a => Some (limited_rates ca_new_rate a))
         (site_classes stormguard_example_config stormguard_example_site Download stormguard_example_queue 88).
Proof. by vm_compute. Qed.
