(* ===== verification/BakeryHandles.v ===== *)
(** * Qdisc handles of circuit commands ([lqos_bakery/src/lib.rs])

    Before a circuit command is run it is given explicit qdisc handles: the ones the allocator of
    [qdisc_handles.rs] assigns to the circuit on each interface, never one that the queue layout or a live
    qdisc holds.  A change of the queue discipline or of the parent class rotates the handle, since the
    kernel cannot change a live qdisc in place.  [extra] are the majors of live qdiscs by interface. *)

From S2P Require Import Prelude RustStd RustCollections RustFloat RustFormat ShapedDevice.
From S2P Require Import TcHandle QdiscHandles BakeryCommands BakeryPlan BakeryDrain.

Fixpoint current_mq_layout_loop (batch : list BakeryCommands) (config : Config) (latest : option MqDeviceLayout)
    : result Panic (option MqDeviceLayout) :=
  match batch with
  | [] => Ok latest
  | MqSetup queues_available stick_offset :: rest =>
      isp ← isp_interface config;
      internet ← internet_interface config;
      current_mq_layout_loop rest config (Some (from_setup isp internet queues_available stick_offset))
  | _ :: rest => current_mq_layout_loop rest config latest
  end.

Definition current_mq_layout (batch : list BakeryCommands) (config : Config) (existing : option MqDeviceLayout)
    : result Panic (option MqDeviceLayout) := current_mq_layout_loop batch config existing.

(** The reserved handles of an interface, with those of its live qdiscs. *)
Definition reserved_with (layout : MqDeviceLayout) (extra : gmap rstring (gset Z)) (interface : rstring) : gset Z :=
  reserved_handles layout interface ∪ default ∅ (extra !! interface).

Definition with_handles (c : AddCircuitCommand) (down up : option Z) : AddCircuitCommand :=
  mkAddCircuit (ac_circuit_hash c) (ac_circuit_name c) (ac_site_name c) (ac_parent_class_id c)
    (ac_up_parent_class_id c) (ac_class_minor c) (ac_download_min c) (ac_upload_min c) (ac_download_max c)
    (ac_upload_max c) (ac_class_major c) (ac_up_class_major c) down up (ac_ip_addresses c) (ac_sqm_override c).

(** ** Assignment *)

(** [if handle.is_none() { *handle = assign_circuit_handle(..) }], when [wanted]. *)
Definition assign_missing (wanted : bool) (handles : QdiscHandleState) (interface : rstring) (circuit_hash : Z)
    (reserved : gset Z) (handle : option Z) : QdiscHandleState * option Z :=
  match handle with
  | None => if wanted then assign_circuit_handle handles interface circuit_hash reserved else (handles, None)
  | Some h => (handles, Some h)
  end.

Definition with_assigned_qdisc_handles_reserved (command : BakeryCommands) (config : Config)
    (layout : MqDeviceLayout) (handles : QdiscHandleState) (extra : gmap rstring (gset Z))
    : result Panic (BakeryCommands * QdiscHandleState) :=
  match command with
  | AddCircuit c =>
      if is_observe (queue_mode (queues config)) then Ok (command, handles)
      else
        isp ← isp_interface config;
        internet ← internet_interface config;
        let '(handles, down) := assign_missing true handles isp (ac_circuit_hash c) (reserved_with layout extra isp)
                                  (ac_down_qdisc_handle c) in
        let '(handles, up) := assign_missing (negb (on_a_stick_mode config)) handles internet (ac_circuit_hash c)
                                (reserved_with layout extra internet) (ac_up_qdisc_handle c) in
        Ok (AddCircuit (with_handles c down up), handles)
  | _ => Ok (command, handles)
  end.

(** ** What a circuit has in each direction *)

Definition effective_directional_sqm_kinds (command : BakeryCommands) (config : Config)
    : option SqmKind * option SqmKind :=
  match command with
  | AddCircuit c =>
      if is_observe (queue_mode (queues config)) then (None, None)
      else
        let '(down_override_opt, up_override_opt) := directional_override (ac_sqm_override c) in
        (if is_none_token down_override_opt then None
         else Some (effective_sqm_kind (ac_download_max c) config down_override_opt),
         if on_a_stick_mode config || is_none_token up_override_opt then None
         else Some (effective_sqm_kind (ac_upload_max c) config up_override_opt))
  | _ => (None, None)
  end.

Definition effective_directional_qdisc_parents (command : BakeryCommands) (config : Config)
    : option TcHandle * option TcHandle :=
  match command with
  | AddCircuit c =>
      if is_observe (queue_mode (queues config)) then (None, None)
      else
        let '(down_override_opt, up_override_opt) := directional_override (ac_sqm_override c) in
        (if is_none_token down_override_opt then None
         else Some (tc_handle_from_major_minor (ac_class_major c) (ac_class_minor c)),
         if on_a_stick_mode config || is_none_token up_override_opt then None
         else Some (tc_handle_from_major_minor (ac_up_class_major c) (ac_class_minor c)))
  | _ => (None, None)
  end.

Definition previous_down_qdisc_handle (previous : BakeryCommands) : option Z :=
  match previous with AddCircuit c => ac_down_qdisc_handle c | _ => None end.
Definition previous_up_qdisc_handle (previous : BakeryCommands) : option Z :=
  match previous with AddCircuit c => ac_up_qdisc_handle c | _ => None end.

(** ** Fresh handles *)

(** A fresh handle for a direction that has a qdisc; [Err] when none is left. *)
Definition fresh_handle (parent : option TcHandle) (handles : QdiscHandleState) (interface : rstring) (hash : Z)
    (reserved : gset Z) (error : rstring) : result rstring (option Z) * QdiscHandleState :=
  match parent with
  | None => (Ok None, handles)
  | Some _ =>
      match rotate_circuit_handle handles interface hash reserved with
      | (handles, Some h) => (Ok (Some h), handles)
      | (handles, None) => (Err error, handles)
      end
  end.

Definition assign_fresh_qdisc_handles_reserved (command : BakeryCommands) (config : Config)
    (layout : MqDeviceLayout) (handles : QdiscHandleState) (extra : gmap rstring (gset Z))
    : result Panic (result rstring BakeryCommands * QdiscHandleState) :=
  match command with
  | AddCircuit c =>
      if is_observe (queue_mode (queues config)) then Ok (Ok command, handles)
      else
        let '(down_parent, up_parent) := effective_directional_qdisc_parents command config in
        let hash := ac_circuit_hash c in
        isp ← isp_interface config;
        internet ← internet_interface config;
        Ok match fresh_handle down_parent handles isp hash (reserved_with layout extra isp)
                   (str "Bakery could not allocate a fresh downlink qdisc handle for restored circuit "
                    ++ i64_to_string hash) with
           | (Err e, handles) => (Err e, handles)
           | (Ok down, handles) =>
               match fresh_handle up_parent handles internet hash (reserved_with layout extra internet)
                       (str "Bakery could not allocate a fresh uplink qdisc handle for restored circuit "
                        ++ i64_to_string hash) with
               | (Err e, handles) => (Err e, handles)
               | (Ok up, handles) => (Ok (AddCircuit (with_handles c down up)), handles)
               end
           end
  | _ => Ok (Ok command, handles)
  end.

(** ** Rotation *)

(** [old.is_some() && new.is_some() && old != new]. *)
Definition both_and_differ {A} `{EqDecision A} (old new : option A) : bool :=
  match old, new with Some a, Some b => negb (bool_decide (a = b)) | _, _ => false end.

#[export] Instance SqmKind_eq_dec : EqDecision SqmKind.
Proof. solve_decision. Defined.

(** Whether the handle of a direction has to change. *)
Definition must_rotate (old_kind new_kind : option SqmKind) (old_parent new_parent : option TcHandle)
    (reserved : gset Z) (handle previous : option Z) : bool :=
  both_and_differ old_kind new_kind || both_and_differ old_parent new_parent
  || is_some_and handle (fun h => bool_decide (h ∈ reserved) && negb (bool_decide (Some h = previous))).

Definition rotate_if (rotate : bool) (handles : QdiscHandleState) (interface : rstring) (hash : Z) (reserved : gset Z)
    (handle : option Z) : QdiscHandleState * option Z :=
  if rotate then rotate_circuit_handle handles interface hash reserved else (handles, handle).

Definition rotate_changed_qdisc_handles_reserved (previous command : BakeryCommands) (config : Config)
    (layout : MqDeviceLayout) (handles : QdiscHandleState) (extra : gmap rstring (gset Z))
    : result Panic (BakeryCommands * QdiscHandleState) :=
  let '(old_down_kind, old_up_kind) := effective_directional_sqm_kinds previous config in
  let '(new_down_kind, new_up_kind) := effective_directional_sqm_kinds command config in
  let '(old_down_parent, old_up_parent) := effective_directional_qdisc_parents previous config in
  let '(new_down_parent, new_up_parent) := effective_directional_qdisc_parents command config in
  isp ← isp_interface config;
  internet ← internet_interface config;
  match command with
  | AddCircuit c =>
      let isp_reserved := reserved_with layout extra isp in
      let up_reserved := reserved_with layout extra internet in
      let '(handles, down) :=
        rotate_if (must_rotate old_down_kind new_down_kind old_down_parent new_down_parent isp_reserved
                     (ac_down_qdisc_handle c) (previous_down_qdisc_handle previous))
          handles isp (ac_circuit_hash c) isp_reserved (ac_down_qdisc_handle c) in
      let '(handles, up) :=
        rotate_if (must_rotate old_up_kind new_up_kind old_up_parent new_up_parent up_reserved
                     (ac_up_qdisc_handle c) (previous_up_qdisc_handle previous))
          handles internet (ac_circuit_hash c) up_reserved (ac_up_qdisc_handle c) in
      Ok (AddCircuit (with_handles c down up), handles)
  | _ => Ok (command, handles)
  end.
