(* ===== verification/BakeryTelemetry.v ===== *)
(** * Telemetry of the Bakery ([lqos_bakery/src/lib.rs])

    What the Bakery tells about itself: the mode, the progress of the batch that runs, the last batch, two
    alerts (a reload is required; traffic passes without shaping) and a bounded list of recent events.  The
    reload-required alert is also read back by the Bakery: it freezes incremental changes.  [ts] is
    [current_timestamp()].  The snapshots of runtime operations, queue distribution, live capacity and
    preflight, and the durations, are not modelled. *)

From S2P Require Import Prelude RustStd RustCollections RustFloat RustFormat.

Definition BAKERY_EVENT_LIMIT : nat := 50.

Inductive BakeryMode : Type := Mode_Idle | Mode_ApplyingFullReload | Mode_ApplyingLiveChange.
Inductive BakeryApplyType : Type := Apply_None | Apply_FullReload | Apply_LiveChange.
#[export] Instance BakeryMode_eq_dec : EqDecision BakeryMode.
Proof. solve_decision. Defined.
#[export] Instance BakeryApplyType_eq_dec : EqDecision BakeryApplyType.
Proof. solve_decision. Defined.

Record BakeryActivityEntry : Type := mkActivityEntry {
  activity_ts : Z;
  activity_event : rstring;
  activity_status : rstring;
  activity_site_hash : option Z;
  activity_site_name : option rstring;
  activity_summary : rstring
}.

(** The fields [current_apply_*]. *)
Record ApplyProgress : Type := mkApplyProgress {
  apply_phase : option rstring;
  apply_total_commands : nat;
  apply_completed_commands : nat;
  apply_total_chunks : nat;
  apply_completed_chunks : nat
}.

(** The fields [last_*]. *)
Record LastApply : Type := mkLastApply {
  last_success_unix : option Z;
  last_full_reload_success_unix : option Z;
  last_failure_unix : option Z;
  last_failure_summary : option rstring;
  last_apply_type : BakeryApplyType;
  last_total_tc_commands : nat;
  last_class_commands : nat;
  last_qdisc_commands : nat
}.

(** An alert with its reason: [reload_required] or [passthrough_degraded]. *)
Record Alert : Type := mkAlert { raised : bool; reason : option rstring }.

Record BakeryTelemetryState : Type := mkTelemetry {
  tel_mode : BakeryMode;
  tel_action_started_unix : option Z;
  tel_progress : ApplyProgress;
  tel_last : LastApply;
  tel_reload_required : Alert;
  tel_passthrough_degraded : Alert;
  tel_activity : list BakeryActivityEntry
}.

Record BakeryApplyMetrics : Type := mkMetrics {
  metrics_apply_type : BakeryApplyType;
  metrics_summary : rstring;
  metrics_total_tc_commands : nat;
  metrics_class_commands : nat;
  metrics_qdisc_commands : nat;
  metrics_ok : bool
}.

Definition no_progress : ApplyProgress := mkApplyProgress None 0 0 0 0.

Definition with_activity (t : BakeryTelemetryState) (activity : list BakeryActivityEntry) : BakeryTelemetryState :=
  mkTelemetry (tel_mode t) (tel_action_started_unix t) (tel_progress t) (tel_last t) (tel_reload_required t)
    (tel_passthrough_degraded t) activity.
Definition with_reload_required (t : BakeryTelemetryState) (alert : Alert) : BakeryTelemetryState :=
  mkTelemetry (tel_mode t) (tel_action_started_unix t) (tel_progress t) (tel_last t) alert
    (tel_passthrough_degraded t) (tel_activity t).
Definition with_passthrough (t : BakeryTelemetryState) (alert : Alert) : BakeryTelemetryState :=
  mkTelemetry (tel_mode t) (tel_action_started_unix t) (tel_progress t) (tel_last t) (tel_reload_required t)
    alert (tel_activity t).
Definition with_progress (t : BakeryTelemetryState) (progress : ApplyProgress) : BakeryTelemetryState :=
  mkTelemetry (tel_mode t) (tel_action_started_unix t) progress (tel_last t) (tel_reload_required t)
    (tel_passthrough_degraded t) (tel_activity t).

(** ** Events *)

(** [push_front], then [pop_back] while there are more than the limit. *)
Definition push_bakery_event_with_site_name (ts : Z) (event status : rstring) (site_hash : option Z)
    (site_name : option rstring) (summary : rstring) (t : BakeryTelemetryState) : BakeryTelemetryState :=
  with_activity t (take BAKERY_EVENT_LIMIT
    (mkActivityEntry ts event status site_hash site_name summary :: tel_activity t)).

Definition push_bakery_event (ts : Z) (event status summary : rstring) (t : BakeryTelemetryState)
    : BakeryTelemetryState := push_bakery_event_with_site_name ts event status None None summary t.

Definition announce_full_reload (ts : Z) (summary : rstring) (t : BakeryTelemetryState) : BakeryTelemetryState :=
  push_bakery_event ts (str "full_reload_trigger") (str "warning") summary t.

(** ** Alerts *)

(** Whether raising the alert with [summary] changes it. *)
Definition alert_news (alert : Alert) (summary : rstring) : bool :=
  negb (raised alert) || negb (bool_decide (reason alert = Some summary)).

Definition mark_reload_required (ts : Z) (summary : rstring) (t : BakeryTelemetryState) : BakeryTelemetryState :=
  if alert_news (tel_reload_required t) summary then
    push_bakery_event ts (str "reload_required") (str "error") summary
      (with_reload_required t (mkAlert true (Some summary)))
  else t.

Definition mark_passthrough_degraded (ts : Z) (summary : rstring) (emit_activity : bool) (t : BakeryTelemetryState)
    : BakeryTelemetryState :=
  if alert_news (tel_passthrough_degraded t) summary then
    let t := with_passthrough t (mkAlert true (Some summary)) in
    if emit_activity then push_bakery_event ts (str "passthrough_degraded") (str "warning") summary t else t
  else t.

Definition alert_on (alert : Alert) : bool := raised alert || bool_decide (is_Some (reason alert)).

Definition clear_passthrough_degraded (ts : Z) (summary : rstring) (t : BakeryTelemetryState)
    : BakeryTelemetryState :=
  if alert_on (tel_passthrough_degraded t) then
    push_bakery_event ts (str "passthrough_degraded_cleared") (str "info") summary
      (with_passthrough t (mkAlert false None))
  else t.

Definition clear_reload_required (ts : Z) (summary : rstring) (t : BakeryTelemetryState) : BakeryTelemetryState :=
  if alert_on (tel_reload_required t) then
    push_bakery_event ts (str "reload_required_cleared") (str "info") summary
      (with_reload_required t (mkAlert false None))
  else t.

Definition bakery_reload_required_reason (t : BakeryTelemetryState) : option rstring :=
  if raised (tel_reload_required t) then reason (tel_reload_required t) else None.

Definition is_live_migration_reload_required_reason (reason : rstring) : bool :=
  starts_with reason (str "Bakery live-move ") || starts_with reason (str "Bakery live migration ").

(** ** Actions *)

Definition clear_bakery_apply_progress (t : BakeryTelemetryState) : BakeryTelemetryState :=
  with_progress t no_progress.

Definition update_bakery_apply_progress (phase : option rstring) (total completed chunks completed_chunks : nat)
    (t : BakeryTelemetryState) : BakeryTelemetryState :=
  with_progress t (mkApplyProgress phase total completed chunks completed_chunks).

Definition with_mode (t : BakeryTelemetryState) (mode : BakeryMode) (started : option Z) : BakeryTelemetryState :=
  mkTelemetry mode started (tel_progress t) (tel_last t) (tel_reload_required t) (tel_passthrough_degraded t)
    (tel_activity t).

Definition mark_bakery_action_started (ts : Z) (mode : BakeryMode) (event summary : rstring)
    (t : BakeryTelemetryState) : BakeryTelemetryState :=
  push_bakery_event ts event (str "info") summary (clear_bakery_apply_progress (with_mode t mode (Some ts))).

Definition last_after (ts : Z) (m : BakeryApplyMetrics) (l : LastApply) : LastApply :=
  mkLastApply
    (if metrics_ok m then Some ts else last_success_unix l)
    (if metrics_ok m && bool_decide (metrics_apply_type m = Apply_FullReload) then Some ts
     else last_full_reload_success_unix l)
    (if metrics_ok m then last_failure_unix l else Some ts)
    (if metrics_ok m then last_failure_summary l else Some (metrics_summary m))
    (metrics_apply_type m) (metrics_total_tc_commands m) (metrics_class_commands m) (metrics_qdisc_commands m).

Definition mark_bakery_action_finished (ts : Z) (m : BakeryApplyMetrics) (t : BakeryTelemetryState)
    : BakeryTelemetryState :=
  let t := mkTelemetry (tel_mode t) (tel_action_started_unix t) no_progress (last_after ts m (tel_last t))
             (tel_reload_required t) (tel_passthrough_degraded t) (tel_activity t) in
  let t := if bool_decide (tel_mode t = Mode_ApplyingFullReload) then t else with_mode t Mode_Idle None in
  push_bakery_event ts (if metrics_ok m then str "apply_finished" else str "apply_failed")
    (if metrics_ok m then str "info" else str "error") (metrics_summary m) t.

(** [Drop for FullReloadScope], less the flag. *)
Definition end_full_reload_scope (t : BakeryTelemetryState) : BakeryTelemetryState :=
  let t := clear_bakery_apply_progress t in
  if bool_decide (tel_mode t = Mode_ApplyingFullReload) then with_mode t Mode_Idle None else t.
