(* ===== verification/BakeryReload.v ===== *)
(** * Full reload of the shaping tree ([lqos_bakery/src/lib.rs], [utils.rs])

    A full reload rebuilds the queues of both interfaces from a batch.  Classification is bypassed while it
    runs; the root [mq] of every managed interface is kept and drained, or replaced; then the commands of
    the batch are built into fresh maps and a fresh allocator, and run in chunks.  Only when they were
    accepted do the new maps replace the old ones.

    The host is [TcHost] with [TcShow] and [ReloadHost]: the clocks, [tc qdisc show] as parsed JSON, [tc
    filter show], the classifier's bypass switch ([lqos_sys]) and the file of handles.  [cache] is the
    snapshot cache as the reload finds it; what it leaves there is not modelled.  [order] is the iteration
    order of a class map and [class_error_text] the text of an unreadable class line.  The debug copy of
    the commands, urgent issues, logging and the queue-distribution and capacity snapshots are left out. *)

From S2P Require Import Prelude RustStd RustCollections RustFloat RustFormat ShapedDevice.
From S2P Require Import TcHandle QdiscHandles StormguardConfig BakeryCommands BakeryPlan BakeryExecute.
From S2P Require Import BakeryDrain BakeryDiff BakeryStormguard BakeryHandles BakeryTelemetry.

(** ** JSON of [tc] *)

(** [serde_json::Value]; an object has unique keys. *)
Inductive Json : Type :=
| JNull
| JBool (b : bool)
| JNumber (n : Z)
| JString (s : rstring)
| JArray (items : list Json)
| JObject (fields : list (rstring * Json)).

(** [Value::get] with a string. *)
Definition json_get (v : Json) (key : rstring) : option Json :=
  match v with
  | JObject fields => snd <$> List.find (fun field => bool_decide (field.1 = key)) fields
  | _ => None
  end.
Definition json_str (v : Json) : option rstring := match v with JString s => Some s | _ => None end.
Definition json_bool (v : Json) : option bool := match v with JBool b => Some b | _ => None end.

Definition parse_qdisc_item (item : Json) : LiveTcQdiscEntry :=
  let text key := json_get item key ≫= json_str in
  let is_root_text value := eq_ignore_ascii_case value (str "root") in
  let parent_raw := text (str "parent") in
  mkLiveQdisc (default [] (text (str "kind")))
    (text (str "handle") ≫= fun value => result_ok (from_string value))
    (parent_raw ≫= fun value => if is_root_text value then None else result_ok (from_string value))
    (default false (json_get item (str "root") ≫= json_bool) || is_some_and parent_raw is_root_text).

Definition parse_live_qdisc_snapshot (parsed : Json) : result rstring (list LiveTcQdiscEntry) :=
  match parsed with
  | JArray items => Ok (map parse_qdisc_item items)
  | _ => Err (str "expected JSON array from tc qdisc show -j")
  end.

(** ** The host and the snapshot cache *)

Class ReloadHost (W : Type) : Type := {
  unix_time : W -> Z;
  instant_ms : W -> Z;
  qdisc_show : W -> rstring -> result rstring Json;
  filter_show : W -> rstring -> result rstring (TcOutput * list Z);
  set_tc_classify_bypass : W -> bool -> result rstring unit * W;
  save_handles : W -> PersistedQdiscHandleState -> W
}.

Definition LIVE_TC_SNAPSHOT_MAX_AGE_MS : Z := 250.

(** [LiveTcSnapshotCache]: what was read and when. *)
Record LiveTcSnapshotCache : Type := mkSnapshotCache {
  qdisc_snapshots : gmap rstring (Z * list LiveTcQdiscEntry);
  class_snapshots : gmap rstring (Z * class_snapshot)
}.
Definition empty_cache : LiveTcSnapshotCache := mkSnapshotCache ∅ ∅.

(** A cached value that is recent enough. *)
Definition cached {A} (now : Z) (entry : option (Z * A)) : option A :=
  match entry with
  | Some (captured_at, a) => if now - captured_at <=? LIVE_TC_SNAPSHOT_MAX_AGE_MS then Some a else None
  | None => None
  end.

Definition FULL_RELOAD_TC_CHUNK_SIZE : nat := 2500.

(** ** Commands *)

Definition root_replace_failure_is_fallbackable (summary : rstring) : bool :=
  let normalized := to_ascii_lowercase summary in
  contains_str normalized (str "exclusivity flag on, cannot modify")
  || contains_str normalized (str "rtnetlink answers: file exists")
  || contains_str normalized (str "file exists").

Definition root_mq_replace_command (interface_name : rstring) : argv :=
  [str "qdisc"; str "replace"; str "dev"; interface_name; str "root"; str "handle"; str "7FFF:"; str "mq"].

Definition root_mq_delete_command (interface_name : rstring) : argv :=
  [str "qdisc"; str "del"; str "dev"; interface_name; str "root"].

Definition root_infra_qdisc_command (command : argv) (preserved : gmap rstring (gset Z)) : bool :=
  command_word command (str "qdisc")
  && is_some_and (command_interface command ≫= fun interface => preserved !! interface) (fun majors =>
       is_some_and (command_handle_after command (str "parent")) (fun parent =>
         (major_of parent =? ROOT_MQ_MAJOR) || root_infra_class_handle parent majors)).

(** The state of the loop of [count_tc_command_types_and_estimate_qdisc_memory]. *)
Definition count_and_estimate_step (acc : gset (rstring * rstring) * Z) (command : argv)
    : gset (rstring * rstring) * Z :=
  match planned_qdisc_identity command with
  | None => acc
  | Some identity =>
      if bool_decide (identity ∈ acc.1) then acc
      else
        let kind := default PlannedInfra (planned_qdisc_kind command) in
        ({[identity]} ∪ acc.1, u64_saturating_add acc.2 (qdisc_kind_estimated_memory_bytes kind))
  end.

Definition count_tc_command_types_and_estimate_qdisc_memory (commands : list argv) : nat * nat * nat * Z :=
  let '(total, class_count, qdisc_count) := count_tc_command_types commands in
  (total, class_count, qdisc_count, (fold_left count_and_estimate_step commands (∅, 0)).2).

(** ** State of the main loop that a reload replaces *)

Record BakeryTree : Type := mkTree {
  tree_sites : gmap Z BakeryCommands;
  tree_circuits : gmap Z BakeryCommands;
  tree_live_circuits : gmap Z Z;
  tree_mq_layout : option MqDeviceLayout;
  tree_handles : QdiscHandleState
}.

(** The batch of the commands with its bookkeeping: [BakeryFullReloadBatchResult] less the durations. *)
Record BatchResult : Type := mkBatchResult {
  batch_result : ExecuteResult;
  batch_summary : rstring;
  batch_total_tc_commands : nat;
  batch_class_commands : nat;
  batch_qdisc_commands : nat
}.

Definition batch_metrics (b : BatchResult) (summary : rstring) (ok : bool) : BakeryApplyMetrics :=
  mkMetrics Apply_FullReload summary (batch_total_tc_commands b) (batch_class_commands b)
    (batch_qdisc_commands b) ok.

(** The metrics of a reload that ran no command. *)
Definition unattempted_metrics (summary : rstring) : BakeryApplyMetrics :=
  mkMetrics Apply_FullReload summary 0 0 0 false.

(** ** Building the batch *)

(** What the iterator of [process_batch] builds: the maps, the allocator, the flag [MQ_CREATED] and the
    argument lists. *)
Record BuildState : Type := mkBuildState {
  build_sites : gmap Z BakeryCommands;
  build_circuits : gmap Z BakeryCommands;
  build_handles : QdiscHandleState;
  build_mq_created : bool;
  build_commands : list argv
}.

Definition build_start (mq_created : bool) : BuildState :=
  mkBuildState ∅ ∅ QdiscHandleState_default mq_created [].

(** The commands that are run for one argument list: none for kept infrastructure qdiscs. *)
Definition reload_argv (preserved : gmap rstring (gset Z)) (command : argv) : list argv :=
  let command := idempotent_full_reload_command command preserved in
  if root_infra_qdisc_command command preserved then [] else [command].

Definition build_step (config : Config) (layout : MqDeviceLayout) (extra preserved : gmap rstring (gset Z))
    (command : BakeryCommands) (s : BuildState) : result Panic BuildState :=
  assigned ← with_assigned_qdisc_handles_reserved command config layout (build_handles s) extra;
  let '(command, handles) := assigned in
  let sites := match command with AddSite p => <[site_hash p := command]> (build_sites s) | _ => build_sites s end in
  let circuits :=
    match command with AddCircuit c => <[ac_circuit_hash c := command]> (build_circuits s) | _ => build_circuits s end in
  planned ← to_commands config Builder (build_mq_created s) command;
  let '(commands, mq_created) := planned in
  Ok (mkBuildState sites circuits handles mq_created
        (build_commands s ++ concat (map (reload_argv preserved) (default [] commands)))).

Fixpoint build_batch (config : Config) (layout : MqDeviceLayout) (extra preserved : gmap rstring (gset Z))
    (batch : list BakeryCommands) (s : BuildState) : result Panic BuildState :=
  match batch with
  | [] => Ok s
  | command :: rest =>
      s ← build_step config layout extra preserved command s;
      build_batch config layout extra preserved rest s
  end.

Section Reload.
  Context {W : Type} `{TcHost W} `{TcShow W} `{ReloadHost W}.
  Variable order : class_snapshot -> list LiveTcClassEntry.
  Variable class_error_text : rstring -> ClassLineError -> rstring.

(** ** Reading the live tree *)

Definition read_live_qdisc_snapshot_raw (w : W) (interface : rstring) : result rstring (list LiveTcQdiscEntry) :=
  match qdisc_show w interface with
  | Err e => Err e
  | Ok parsed =>
      map_err (fun e => str "Failed to parse live qdisc snapshot on " ++ interface ++ str ": " ++ e)
        (parse_live_qdisc_snapshot parsed)
  end.

Definition read_live_qdisc_snapshot (w : W) (cache : LiveTcSnapshotCache) (interface : rstring)
    : result rstring (list LiveTcQdiscEntry) * LiveTcSnapshotCache :=
  match cached (instant_ms w) (qdisc_snapshots cache !! interface) with
  | Some entries => (Ok entries, cache)
  | None =>
      match read_live_qdisc_snapshot_raw w interface with
      | Err e => (Err e, cache)
      | Ok entries =>
          (Ok entries, mkSnapshotCache (<[interface := (instant_ms w, entries)]> (qdisc_snapshots cache))
                         (class_snapshots cache))
      end
  end.

(** The text of an error of [read_live_class_snapshot_raw]. *)
Definition read_error_text (e : StormguardError) : rstring :=
  match e with Sg_message text => text | Sg_class_line interface error => class_error_text interface error end.

Definition read_live_class_snapshot (w : W) (cache : LiveTcSnapshotCache) (interface : rstring)
    : result rstring class_snapshot * LiveTcSnapshotCache :=
  match cached (instant_ms w) (class_snapshots cache !! interface) with
  | Some snapshot => (Ok snapshot, cache)
  | None =>
      match read_live_class_snapshot_raw w interface with
      | Err e => (Err (read_error_text e), cache)
      | Ok snapshot =>
          (Ok snapshot, mkSnapshotCache (qdisc_snapshots cache)
                          (<[interface := (instant_ms w, snapshot)]> (class_snapshots cache)))
      end
  end.

(** The majors of the live qdiscs of an interface. *)
Definition handle_majors (entries : list LiveTcQdiscEntry) : gset Z :=
  list_to_set (List.filter (fun major => negb (major =? 0)) (map major_of (omap qdisc_handle entries))).

Definition read_live_qdisc_handle_majors (w : W) (cache : LiveTcSnapshotCache) (interface : rstring)
    : result rstring (gset Z) * LiveTcSnapshotCache :=
  let '(entries, cache) := read_live_qdisc_snapshot w cache interface in
  (handle_majors <$> entries, cache).

Definition snapshot_live_qdisc_handle_majors (w : W) (cache : LiveTcSnapshotCache) (config : Config)
    : result Panic (result rstring (gmap rstring (gset Z))) :=
  isp ← isp_interface config;
  let '(isp_majors, cache) := read_live_qdisc_handle_majors w cache isp in
  match isp_majors with
  | Err e => Ok (Err e)
  | Ok isp_majors =>
      let reserved : gmap rstring (gset Z) := {[isp := isp_majors]} in
      if on_a_stick_mode config then Ok (Ok reserved)
      else
        internet ← internet_interface config;
        if bool_decide (internet = isp) then Ok (Ok reserved)
        else
          match (read_live_qdisc_handle_majors w cache internet).1 with
          | Err e => Ok (Err e)
          | Ok majors => Ok (Ok (<[internet := majors]> reserved))
          end
  end.

(** ** Preparing the roots *)

Definition run_root_preflight_commands (w : W) (commands : list argv) (purpose : rstring) : result rstring unit * W :=
  let '(result, _, w) := execute_in_memory_chunked w commands purpose 1 None in
  if exec_ok result then (Ok tt, w)
  else (Err (default (purpose ++ str " failed") (failure_summary result)), w).

(** [drain_managed_tree_to_defaults] with the commands it runs. *)
Definition run_drain (w : W) (cache : LiveTcSnapshotCache) (interface : rstring) (qdiscs : list LiveTcQdiscEntry)
    : result rstring (gset Z) * LiveTcSnapshotCache * W :=
  let majors := (drain_managed_tree_to_defaults interface qdiscs ∅ []).1 in
  if bool_decide (majors = ∅) then (Ok majors, cache, w)
  else
    let '(classes, cache) := read_live_class_snapshot w cache interface in
    match classes with
    | Err e => (Err e, cache, w)
    | Ok classes =>
        let '(majors, commands) := drain_managed_tree_to_defaults interface qdiscs classes (order classes) in
        if is_nil commands then (Ok majors, cache, w)
        else
          match run_root_preflight_commands w commands
                  (str "full reload drain managed tree to defaults on " ++ interface) with
          | (Err e, w) => (Err e, cache, w)
          | (Ok _, w) => (Ok majors, empty_cache, w)
          end
    end.

(** Whether the tree below the root of an interface is clean, after a replacement. *)
Definition read_and_verify (w : W) (interface : rstring) : result rstring unit :=
  let '(qdiscs, cache) := read_live_qdisc_snapshot w empty_cache interface in
  qdiscs ← qdiscs;
  classes ← (read_live_class_snapshot w cache interface).1;
  verify_clean_root_child_tree qdiscs classes interface.

(** A root that is deleted and added again. *)
Definition recreate_root (w : W) (interface : rstring) : result rstring unit * W :=
  match run_root_preflight_commands w [root_mq_delete_command interface]
          (str "full reload root mq delete on " ++ interface) with
  | (Err e, w) => (Err e, w)
  | (Ok _, w) =>
      match run_root_preflight_commands w [root_mq_add_command interface]
              (str "full reload root mq add on " ++ interface) with
      | (Err e, w) => (Err e, w)
      | (Ok _, w) => (read_and_verify w interface, w)
      end
  end.

(** A root that is not the retained [mq]: replaced, and recreated when that did not do. *)
Definition replace_root (w : W) (interface : rstring) : result rstring unit * W :=
  match run_root_preflight_commands w [root_mq_replace_command interface]
          (str "full reload root mq replace on " ++ interface) with
  | (Err summary, w) =>
      if negb (root_replace_failure_is_fallbackable summary) then (Err summary, w) else recreate_root w interface
  | (Ok _, w) =>
      let '(qdiscs, cache) := read_live_qdisc_snapshot w empty_cache interface in
      match qdiscs with
      | Err e => (Err e, w)
      | Ok qdiscs =>
          match (read_live_class_snapshot w cache interface).1 with
          | Err e => (Err e, w)
          | Ok classes =>
              match verify_clean_root_child_tree qdiscs classes interface with
              | Ok _ => (Ok tt, w)
              | Err _ => recreate_root w interface
              end
          end
      end
  end.

Definition prepare_interface (w : W) (cache : LiveTcSnapshotCache) (preserved : gmap rstring (gset Z))
    (interface : rstring) : result rstring (gmap rstring (gset Z)) * LiveTcSnapshotCache * W :=
  let '(qdiscs, cache) := read_live_qdisc_snapshot w cache interface in
  match qdiscs with
  | Err e => (Err e, cache, w)
  | Ok qdiscs =>
      match retained_root_mq_entry qdiscs with
      | Some _ =>
          if bool_decide (managed_root_child_parent_handles qdiscs = ∅) then (Ok preserved, cache, w)
          else
            match run_drain w cache interface qdiscs with
            | (Err e, cache, w) => (Err e, cache, w)
            | (Ok majors, cache, w) =>
                (Ok (if bool_decide (majors = ∅) then preserved else <[interface := majors]> preserved), cache, w)
            end
      | None =>
          match replace_root w interface with
          | (Err e, w) => (Err e, empty_cache, w)
          | (Ok _, w) => (Ok preserved, empty_cache, w)
          end
      end
  end.

Fixpoint prepare_interfaces (w : W) (cache : LiveTcSnapshotCache) (interfaces : list rstring)
    (preserved : gmap rstring (gset Z)) : result rstring (gmap rstring (gset Z)) * W :=
  match interfaces with
  | [] => (Ok preserved, w)
  | interface :: rest =>
      match prepare_interface w cache preserved interface with
      | (Err e, _, w) => (Err e, w)
      | (Ok preserved, cache, w) => prepare_interfaces w cache rest preserved
      end
  end.

Definition prepare_root_mq_for_full_reload (w : W) (cache : LiveTcSnapshotCache) (config : Config)
    : result Panic (result rstring (gmap rstring (gset Z)) * W) :=
  interfaces ← managed_interfaces_for_config config;
  Ok (prepare_interfaces w cache interfaces ∅).

(** ** Running the batch *)

Definition progress_text : rstring := str "Applying tc command chunks".

Definition memory_guard_required (w : W) (estimated_qdisc_memory_bytes : Z) : Z :=
  u64_saturating_add
    match read_memory_snapshot w with
    | Ok snapshot => bakery_memory_guard_min_available_bytes (total_bytes snapshot)
    | Err _ => BAKERY_MEMORY_GUARD_MIN_AVAILABLE_BYTES
    end estimated_qdisc_memory_bytes.

Definition process_batch (w : W) (t : BakeryTelemetryState) (batch : list BakeryCommands) (config : Config)
    (layout : MqDeviceLayout) (extra preserved : gmap rstring (gset Z)) (mq_created : bool)
    : result Panic (BatchResult * BuildState * BakeryTelemetryState * W) :=
  let t := update_bakery_apply_progress (Some (str "Building tc command batch")) 0 0 0 0 t in
  built ← build_batch config layout extra preserved batch (build_start mq_created);
  let commands := build_commands built in
  let '(total, class_commands, qdisc_commands, estimate) :=
    count_tc_command_types_and_estimate_qdisc_memory commands in
  let guard := memory_guard_required w estimate in
  let total_chunks := length (chunks FULL_RELOAD_TC_CHUNK_SIZE commands) in
  let t := update_bakery_apply_progress (Some progress_text) total 0 total_chunks 0 t in
  let '(result, progress, w) :=
    execute_in_memory_chunked w commands (str "processing batch") FULL_RELOAD_TC_CHUNK_SIZE (Some guard) in
  let t := foldl (fun t p => update_bakery_apply_progress (Some progress_text) (all_commands p) (done_commands p)
                               (all_chunks p) (done_chunks p) t) t progress in
  let summary := summarize_apply_result (str "processing batch") result in
  Ok (mkBatchResult result summary total class_commands qdisc_commands, built, t, w).

(** ** The bypass of classification *)

(** [TcClassifyBypassGuard::new]. *)
Definition bypass_guard_new (w : W) (t : BakeryTelemetryState) : result rstring unit * BakeryTelemetryState * W :=
  match set_tc_classify_bypass w true with
  | (Err e, w) => (Err e, t, w)
  | (Ok _, w) =>
      (Ok tt, mark_passthrough_degraded (unix_time w)
         (str "Bakery full reload is rebuilding TC. Traffic is temporarily passing without shaping to avoid stale class-handle classification.") false t, w)
  end.

(** [TcClassifyBypassGuard::disable], for a guard that still cleans up. *)
Definition bypass_guard_disable (w : W) (t : BakeryTelemetryState)
    : result rstring unit * BakeryTelemetryState * W :=
  match set_tc_classify_bypass w false with
  | (Err error, w) =>
      (Err error, mark_passthrough_degraded (unix_time w)
         (str "Bakery full reload applied TC commands but could not disable pass-through mode: " ++ error
          ++ str ". Traffic may remain unshaped until operator intervention or a later successful reload.") true t, w)
  | (Ok _, w) =>
      (Ok tt, clear_passthrough_degraded (unix_time w)
         (str "Bakery full reload disabled pass-through mode; normal shaping is active.") t, w)
  end.

Definition keep_bypass_enabled_after_failure (ts : Z) (summary : rstring) (t : BakeryTelemetryState)
    : BakeryTelemetryState :=
  mark_passthrough_degraded ts
    (summary ++ str ". Traffic is passing without shaping until a successful full reload clears TC classify bypass.")
    true t.

Definition tc_classify_attached (w : W) (interface : rstring) : result rstring bool :=
  match filter_show w interface with
  | Err error => Err (str "Failed to inspect TC classify attachment on " ++ interface ++ str ": " ++ error)
  | Ok (output, stdout) =>
      if status_success output then Ok (contains_str (from_utf8_lossy stdout) (str "tc_iphash_to_cp"))
      else
        let stderr := trim (from_utf8_lossy (tc_stderr output)) in
        Err (str "Failed to inspect TC classify attachment on " ++ interface ++ str ": "
             ++ if str_is_empty stderr then
                  str "tc exited with "
                  ++ match status_code output with
                     | Some code => str "Some(" ++ i64_to_string code ++ str ")"
                     | None => str "None"
                     end
                else stderr)
  end.

Fixpoint missing_classifiers (w : W) (interfaces : list rstring) : result rstring (list rstring) :=
  match interfaces with
  | [] => Ok []
  | interface :: rest =>
      match tc_classify_attached w interface with
      | Err e => Err e
      | Ok attached =>
          missing ← missing_classifiers w rest;
          Ok (if attached : bool then missing else interface :: missing)
      end
  end.

(** [missing.join(", ")]. *)
Fixpoint join_comma (names : list rstring) : rstring :=
  match names with
  | [] => []
  | [name] => name
  | name :: rest => name ++ str ", " ++ join_comma rest
  end.

Definition verify_tc_classify_attached (w : W) (config : Config) : result Panic (result rstring unit) :=
  interfaces ← managed_interfaces_for_config config;
  Ok match missing_classifiers w interfaces with
     | Err e => Err e
     | Ok [] => Ok tt
     | Ok missing => Err (str "TC classify egress attachment missing on interface(s): " ++ join_comma missing)
     end.

(** ** Full reload *)

(** What a reload works on: the tree, the atomics and the telemetry. *)
Record BakeryState : Type := mkBakeryState {
  bs_tree : BakeryTree;
  bs_flags : BakeryFlags;
  bs_telemetry : BakeryTelemetryState
}.

Definition with_telemetry (s : BakeryState) (t : BakeryTelemetryState) : BakeryState :=
  mkBakeryState (bs_tree s) (bs_flags s) t.
Definition on_telemetry (f : BakeryTelemetryState -> BakeryTelemetryState) (s : BakeryState) : BakeryState :=
  with_telemetry s (f (bs_telemetry s)).
Definition with_flags (s : BakeryState) (flags : BakeryFlags) : BakeryState :=
  mkBakeryState (bs_tree s) flags (bs_telemetry s).

Definition set_in_progress (b : bool) (f : BakeryFlags) : BakeryFlags :=
  mkBakeryFlags (mq_created f) (shaping_tree_active f) b (first_commit_applied f) (stormguard_tree_generation f)
    (stormguard_tree_rebuild_generation f).
Definition set_mq_created (b : bool) (f : BakeryFlags) : BakeryFlags :=
  mkBakeryFlags b (shaping_tree_active f) (full_reload_in_progress f) (first_commit_applied f)
    (stormguard_tree_generation f) (stormguard_tree_rebuild_generation f).

Definition desired_shaping_tree_active (config : Config) : bool := negb (is_observe (queue_mode (queues config))).

(** The end of the scope of a reload. *)
Definition leave_reload (s : BakeryState) : BakeryState :=
  on_telemetry end_full_reload_scope (with_flags s (set_in_progress false (bs_flags s))).

Definition bypass_remains : rstring :=
  str ". TC classify bypass remains enabled to avoid stale class-handle classification until a successful reload "
  ++ str "or operator intervention.".

(** A reload that fails before its commands run, with the bypass kept. *)
Definition fail_prepared (ts : Z) (summary : rstring) (t : BakeryTelemetryState) : BakeryTelemetryState :=
  mark_bakery_action_finished ts (unattempted_metrics summary)
    (mark_reload_required ts (summary ++ bypass_remains) (keep_bypass_enabled_after_failure ts summary t)).

(** The tree and the atomics after the commands of the batch were accepted. *)
Definition install_batch (config : Config) (built : BuildState) (layout : option MqDeviceLayout) (s : BakeryState)
    : BakeryState :=
  let f := bs_flags s in
  let rebuild_generation := (stormguard_tree_generation f + 1) mod 2 ^ 64 in
  mkBakeryState
    (mkTree (build_sites built) (build_circuits built) ∅
       (match layout with Some l => Some l | None => tree_mq_layout (bs_tree s) end) (build_handles built))
    (mkBakeryFlags true (desired_shaping_tree_active config) (full_reload_in_progress f) true rebuild_generation
       rebuild_generation)
    (bs_telemetry s).

(** The end of a reload whose commands were accepted: classification is switched on again. *)
Definition finish_installed (w : W) (config : Config) (b : BatchResult) (s : BakeryState)
    : result Panic (BakeryState * W) :=
  attached ← verify_tc_classify_attached w config;
  match attached with
  | Err error =>
      let ts := unix_time w in
      let summary := str "Bakery full reload applied TC commands but TC classify is not attached: " ++ error
        ++ str ". Operator intervention may be required because traffic would otherwise remain unshaped." in
      Ok (on_telemetry (fun t =>
            mark_bakery_action_finished ts (batch_metrics b summary false)
              (mark_reload_required ts (summary ++ str ". TC classify bypass remains enabled until a successful "
                 ++ str "reload or lqosd restart restores classifier attachment.")
                 (keep_bypass_enabled_after_failure ts summary t))) s, w)
  | Ok _ =>
      let '(disabled, t, w) := bypass_guard_disable w (bs_telemetry s) in
      let ts := unix_time w in
      match disabled with
      | Err error =>
          let summary := str "Bakery full reload applied TC commands but could not disable TC classify bypass: "
            ++ error ++ str ". Operator intervention may be required because traffic may remain unshaped." in
          Ok (with_telemetry s (mark_bakery_action_finished ts (batch_metrics b summary false)
                                  (mark_reload_required ts summary t)), w)
      | Ok _ =>
          Ok (with_telemetry s (mark_bakery_action_finished ts (batch_metrics b (batch_summary b) true) t), w)
      end
  end.

Definition batch_failed_summary : rstring := str "Bakery full reload failed while applying TC command batch".

(** The commands of the batch, run with the roots prepared. *)
Definition reload_batch (w : W) (config : Config) (new_batch : list BakeryCommands)
    (resolved_mq_layout : option MqDeviceLayout) (preserved live_reserved : gmap rstring (gset Z))
    (previous_mq_created : bool) (s : BakeryState) : result Panic (BakeryState * W) :=
  let layout := default (mkMqDeviceLayout ∅) resolved_mq_layout in
  processed ← process_batch w (bs_telemetry s) new_batch config layout live_reserved preserved true;
  let '(b, built, t, w) := processed in
  let s := with_telemetry s t in
  if exec_ok (batch_result b) then
    let w := save_handles w (persisted (build_handles built)) in
    finish_installed w config b
      (on_telemetry (clear_reload_required (unix_time w)
         (str "A successful Bakery full reload re-established baseline state; incremental topology mutations can "
          ++ str "resume.")) (install_batch config built resolved_mq_layout s))
  else
    let ts := unix_time w in
    Ok (on_telemetry (fun t =>
          mark_bakery_action_finished ts (batch_metrics b (batch_summary b) false)
            (mark_reload_required ts (batch_failed_summary ++ bypass_remains)
               (keep_bypass_enabled_after_failure ts batch_failed_summary t)))
          (with_flags s (set_mq_created previous_mq_created (bs_flags s))), w).

(** A reload with the bypass on. *)
Definition reload_bypassed (w : W) (cache : LiveTcSnapshotCache) (config : Config) (new_batch : list BakeryCommands)
    (resolved_mq_layout : option MqDeviceLayout) (s : BakeryState) : result Panic (BakeryState * W) :=
  let previous_mq_created := mq_created (bs_flags s) in
  prepared ← prepare_root_mq_for_full_reload w cache config;
  match prepared with
  | (Err error, w) =>
      Ok (on_telemetry (fail_prepared (unix_time w)
            (str "Failed to prepare root mq state before full reload: " ++ error)) s, w)
  | (Ok preserved, w) =>
      let s := with_flags s (set_mq_created true (bs_flags s)) in
      live ← snapshot_live_qdisc_handle_majors w empty_cache config;
      match live with
      | Err error =>
          Ok (on_telemetry (fail_prepared (unix_time w)
                (str "Failed to snapshot live qdisc handles before full reload: " ++ error)) s, w)
      | Ok live_reserved =>
          reload_batch w config new_batch resolved_mq_layout preserved live_reserved previous_mq_created s
      end
  end.

Definition full_reload (w : W) (cache : LiveTcSnapshotCache) (s : BakeryState) (config : Config)
    (new_batch : list BakeryCommands) (resolved_mq_layout : option MqDeviceLayout) (trigger_summary : rstring)
    : result Panic (BakeryState * W) :=
  let ts := unix_time w in
  let s := with_flags s (set_in_progress true (bs_flags s)) in
  let s := on_telemetry (mark_bakery_action_started ts Mode_ApplyingFullReload (str "full_reload_started")
                           trigger_summary) s in
  let '(guard, t, w) := bypass_guard_new w (bs_telemetry s) in
  let s := with_telemetry s t in
  match guard with
  | Err error =>
      let ts := unix_time w in
      let summary := str "Failed to enable TC classify bypass before full reload: " ++ error in
      Ok (leave_reload (on_telemetry (fun t =>
            mark_bakery_action_finished ts (unattempted_metrics summary)
              (mark_reload_required ts (summary ++ str ". Full reload was not attempted because TC classify could not "
                 ++ str "be safely bypassed.") t)) s), w)
  | Ok _ =>
      reloaded ← reload_bypassed w cache config new_batch resolved_mq_layout s;
      let '(s, w) := reloaded in
      Ok (leave_reload s, w)
  end.

End Reload.
