(* ===== verification/BakeryReloadSpec.v ===== *)
(** * Theorems about full reloads of the Bakery *)

From S2P Require Import Prelude RustStd RustCollections RustFloat RustFormat ShapedDevice.
From S2P Require Import TcHandle QdiscHandles QdiscHandlesSpec StormguardConfig BakeryCommands BakeryPlan.
From S2P Require Import BakeryExecute BakeryExecuteSpec BakeryDrain BakeryDiff BakeryStormguard.
From S2P Require Import BakeryStormguardSpec BakeryHandles BakeryTelemetry BakeryReload.

(** ** The words of a batch

    The commands of the builder keep their words apart in the command file, when the names of the
    interfaces and the tokens of the default queue discipline do. *)

Record config_words (config : Config) : Prop := {
  isp_word : forall isp, isp_interface config = Ok isp -> word_ok isp;
  internet_word : forall internet, internet_interface config = Ok internet -> word_ok internet;
  sqm_words : Forall word_ok (sqm_as_vec config)
}.

Lemma u64_to_string_ok n : word_ok (u64_to_string n).
Proof. apply word_ok_plain. intros c Hc%decimal_text_chars. lia. Qed.

Lemma fixed_text_ok digits q : word_ok (fixed_text digits q).
Proof.
  unfold fixed_text. destruct digits as [|d]; [apply u64_to_string_ok|].
  apply word_ok_app; [apply u64_to_string_ok|]. apply word_ok_app; [word_literal|].
  apply word_ok_app; [|apply u64_to_string_ok]. apply word_ok_plain. intros c Hc%elem_of_replicate. lia.
Qed.

Lemma format_fixed_ok digits x : word_ok (format_fixed digits x).
Proof.
  assert (forall sign : bool, word_ok (if sign then str "-" else [])) as Hsign by (intros []; word_literal).
  destruct x as [sign|sign| |sign m e]; cbn [format_fixed];
    [apply word_ok_app; [done|apply fixed_text_ok]|apply word_ok_app; [done|word_literal]|word_literal
    |apply word_ok_app; [done|apply fixed_text_ok]].
Qed.

Lemma format_rate_ok rate : word_ok (format_rate_for_tc rate).
Proof.
  unfold format_rate_for_tc. repeat case_match; (apply word_ok_app; [apply format_fixed_ok|word_literal]).
Qed.

Lemma format_rate_f32_ok rate : word_ok (format_rate_for_tc_f32 rate).
Proof.
  unfold format_rate_for_tc_f32. repeat case_match; (apply word_ok_app; [apply format_fixed_ok|word_literal]).
Qed.

Lemma class_id_text_ok major minor : word_ok (class_id_text major minor).
Proof. unfold class_id_text. repeat (apply word_ok_app || apply lower_hex_ok); word_literal. Qed.

Lemma qdisc_id_text_ok handle : word_ok (qdisc_id_text handle).
Proof. unfold qdisc_id_text. repeat (apply word_ok_app || apply lower_hex_ok); word_literal. Qed.

Lemma quantum_ok rate r : word_ok (quantum rate r).
Proof. apply u64_to_string_ok. Qed.

(** A word of a command, by its form. *)
Ltac word :=
  lazymatch goal with
  | |- word_ok (str _) => word_literal
  | |- word_ok (_ ++ _) => apply word_ok_app; word
  | |- word_ok (lower_hex _) => apply lower_hex_ok
  | |- word_ok (format_rate_for_tc _) => apply format_rate_ok
  | |- word_ok (format_rate_for_tc_f32 _) => apply format_rate_f32_ok
  | |- word_ok (class_id_text _ _) => apply class_id_text_ok
  | |- word_ok (qdisc_id_text _) => apply qdisc_id_text_ok
  | |- word_ok (as_tc_string _) => apply as_tc_string_ok
  | |- word_ok (quantum _ _) => apply quantum_ok
  | |- word_ok _ => assumption
  end.
Ltac words := repeat (apply Forall_cons; split; [word|]); apply Forall_nil; exact I.

Section Words.
  Context (config : Config) (Hconfig : config_words config).

Lemma sqm_tokens_ok rate override_opt : Forall word_ok (sqm_tokens_for rate config override_opt).
Proof.
  pose proof (sqm_words _ Hconfig) as Hsqm.
  assert (Forall word_ok (low_rate_rtt rate)) as Hrtt
    by (unfold low_rate_rtt; repeat case_match; words).
  assert (Forall word_ok (sqm_rate_fixup rate config)) as Hfix.
  { unfold sqm_rate_fixup. case_match; [done|]. by apply Forall_app. }
  unfold sqm_tokens_for. destruct override_opt as [token|]; repeat case_match; try done; try (by words);
    rewrite ?Forall_app; try (split; [|done]); repeat case_match; try done; words.
Qed.

Lemma sqm_command_ok interface classid handle rate override_opt :
  word_ok interface -> word_ok classid -> command_ok (sqm_command config interface classid handle rate override_opt).
Proof.
  intros Hi Hc. split; [done|]. unfold sqm_command. rewrite !Forall_app. split_and!.
  - words.
  - destruct handle; [words|constructor].
  - apply sqm_tokens_ok.
Qed.

Lemma htb_class_command_ok interface parent classid rate_min rate_max bandwidth :
  word_ok interface -> word_ok classid ->
  command_ok (htb_class_command interface parent classid rate_min rate_max bandwidth).
Proof. intros Hi Hc. split; [done|]. unfold htb_class_command. words. Qed.

Lemma mq_queue_commands_ok interface major bandwidth r :
  word_ok interface -> Forall command_ok (mq_queue_commands interface major bandwidth r (sqm_as_vec config)).
Proof.
  intros Hi. pose proof (sqm_words _ Hconfig) as Hsqm. unfold mq_queue_commands.
  repeat (apply Forall_cons; split); try (apply Forall_nil; exact I); (split; [done|]);
    rewrite ?Forall_app; try (split; [|done]); words.
Qed.

Lemma push_if_commands cond interface command commands :
  push_if cond interface command = Ok commands ->
  (forall i, interface = Ok i -> word_ok i) -> (forall i, word_ok i -> command_ok (command i)) ->
  Forall command_ok commands.
Proof.
  unfold push_if. destruct cond; [|intros [= <-] _ _; constructor].
  intros [i [Hi [= <-]]]%result_bind_Ok Hw Hc. constructor; [|constructor]. eauto.
Qed.

Lemma root_commands_ok created interface commands :
  root_commands created interface = Ok commands -> (forall i, interface = Ok i -> word_ok i) ->
  Forall command_ok commands.
Proof.
  unfold root_commands. destruct created; [intros [= <-] _; constructor|].
  intros [i [Hi [= <-]]]%result_bind_Ok Hw. specialize (Hw i Hi). constructor; [|constructor]. split; [done|].
  unfold root_mq_add_command. words.
Qed.

Lemma add_circuit_ok mode c commands : add_circuit mode config c = Ok (Some commands) -> Forall command_ok commands.
Proof.
  unfold add_circuit. case_match; [done|]. destruct (circuit_work _ _) as [htb sqm].
  destruct (directional_override _) as [down up].
  intros (l1 & H1 & (l2 & H2 & (l3 & H3 & (l4 & H4 & [= <-])%result_bind_Ok)%result_bind_Ok)%result_bind_Ok)%result_bind_Ok.
  pose proof (isp_word _ Hconfig). pose proof (internet_word _ Hconfig). rewrite !Forall_app. split_and!;
    (eapply push_if_commands; [eassumption|done|]; intros i Hi;
     (apply htb_class_command_ok || apply sqm_command_ok); [done|apply class_id_text_ok]).
Qed.

Lemma add_site_ok p commands : add_site config p = Ok (Some commands) -> Forall command_ok commands.
Proof.
  unfold add_site. case_match; [done|].
  intros (isp & Hisp & (internet & Hinternet & [= <-])%result_bind_Ok)%result_bind_Ok.
  constructor; [|constructor; [|constructor]]; (apply htb_class_command_ok; [|apply class_id_text_ok]);
    [by apply (isp_word _ Hconfig)|by apply (internet_word _ Hconfig)].
Qed.

#[local] Arguments mq_queue_commands : simpl never.

Lemma mapM_queue_commands_ok interface f bandwidth r (l : list nat) commands :
  mapM (fun queue : nat => i ← interface;
          Ok (E := Panic) (mq_queue_commands i (f queue) bandwidth r (sqm_as_vec config))) l = Ok commands ->
  (forall i, interface = Ok i -> word_ok i) -> Forall command_ok (concat commands).
Proof.
  intros Hm Hw. revert commands Hm. induction l as [|q l IH]; cbn; intros commands.
  - intros [= <-]. constructor.
  - intros (c & (i & Hi & [= <-])%result_bind_Ok & (cs & Hcs & [= <-])%result_bind_Ok)%result_bind_Ok.
    cbn. apply Forall_app. split; [apply mq_queue_commands_ok; by apply Hw|by apply IH].
Qed.

Lemma mq_setup_ok created n offset commands :
  mq_setup config created n offset = Ok commands -> Forall command_ok commands.
Proof.
  pose proof (isp_word _ Hconfig) as Hi. pose proof (internet_word _ Hconfig) as Hn. unfold mq_setup.
  assert (forall l, (if on_a_stick_mode config then Ok (E := Panic) []
     else root_commands created (internet_interface config)) = Ok l -> Forall command_ok l) as Hroot.
  { intros l. case_match; [intros [= <-]; constructor|]. intros Hl. by eapply root_commands_ok. }
  destruct (is_observe _).
  - intros (l1 & H1 & (l2 & H2 & [= <-])%result_bind_Ok)%result_bind_Ok. apply Forall_app.
    split; [by eapply root_commands_ok|by apply Hroot].
  - intros (l1 & H1 & (l2 & H2 & (l3 & H3 & (l4 & H4 & [= <-])%result_bind_Ok)%result_bind_Ok)%result_bind_Ok)%result_bind_Ok.
    rewrite !Forall_app. split_and!; [by eapply root_commands_ok| |by apply Hroot|].
    + by eapply (mapM_queue_commands_ok _ (fun q => q + 0 + 1)%nat).
    + by eapply (mapM_queue_commands_ok _ (fun q => q + offset + 1)%nat).
Qed.

Lemma to_commands_ok mode created cmd commands created' :
  to_commands config mode created cmd = Ok (commands, created') -> Forall command_ok (default [] commands).
Proof.
  destruct cmd; cbn [to_commands]; try (intros [= <- <-]; constructor).
  - intros (l & Hl & [= <- <-])%result_bind_Ok. by eapply mq_setup_ok.
  - intros (l & Hl & [= <- <-])%result_bind_Ok. destruct l; [by eapply add_site_ok|constructor].
  - intros (l & Hl & [= <- <-])%result_bind_Ok. destruct l; [by eapply add_circuit_ok|constructor].
Qed.

Lemma reload_argv_ok preserved command : command_ok command -> Forall command_ok (reload_argv preserved command).
Proof.
  intros [Hne Hw]. unfold reload_argv. case_match; constructor; [|constructor]. unfold idempotent_full_reload_command.
  case_match; [|by split]. split; [by destruct command as [|? []]|]. apply Forall_insert; [done|word_literal].
Qed.

Lemma build_batch_ok layout extra preserved batch : forall s s',
  build_batch config layout extra preserved batch s = Ok s' -> Forall command_ok (build_commands s) ->
  Forall command_ok (build_commands s').
Proof.
  induction batch as [|cmd batch IH]; intros s s'; cbn [build_batch]; [by intros [= <-]|].
  intros (s1 & Hs1 & Hrest)%result_bind_Ok Hs. eapply IH; [done|]. revert Hs1. unfold build_step.
  intros ([cmd' handles] & _ & ([commands created] & Hc & [= <-])%result_bind_Ok)%result_bind_Ok.
  cbn [build_commands]. apply Forall_app. split; [done|]. apply to_commands_ok in Hc.
  apply Forall_concat, Forall_fmap. eapply Forall_impl; [exact Hc|]. intros. by apply reload_argv_ok.
Qed.
End Words.

(** ** Handles of a batch *)

Section BuildHandles.
  Context (config : Config) (layout : MqDeviceLayout) (extra preserved : gmap rstring (gset Z)).
  Context (isp internet : rstring) (Hisp : isp_interface config = Ok isp).
  Context (Hinternet : internet_interface config = Ok internet).
  Context (Hdistinct : on_a_stick_mode config = false -> isp <> internet).

(** A command as the scheduler sends it: a circuit has a hash of 64 bits and no handles yet. *)
Definition unassigned (cmd : BakeryCommands) : Prop :=
  match cmd with
  | AddCircuit c => i64_ok (ac_circuit_hash c) /\ ac_down_qdisc_handle c = None /\ ac_up_qdisc_handle c = None
  | _ => True
  end.

(** The handles of the circuits built so far are the allocator's, and no reserved one is in use. *)
Record build_handles_ok (s : BuildState) : Prop := {
  build_allocator : handles_ok (build_handles s);
  build_unreserved : forall i c h, i = isp \/ i = internet -> circuit_handle (build_handles s) i c = Some h ->
    h ∉ reserved_with layout extra i;
  build_down : forall hash c, build_circuits s !! hash = Some (AddCircuit c) ->
    is_observe (queue_mode (queues config)) = false ->
    ac_circuit_hash c = hash /\ ac_down_qdisc_handle c = circuit_handle (build_handles s) isp hash
    /\ (on_a_stick_mode config = false -> ac_up_qdisc_handle c = circuit_handle (build_handles s) internet hash)
}.

Lemma assign_missing_spec wanted handles i hash handles' r :
  handles_ok handles -> i64_ok hash ->
  (forall c h, circuit_handle handles i c = Some h -> h ∉ reserved_with layout extra i) ->
  assign_missing wanted handles i hash (reserved_with layout extra i) None = (handles', r) ->
  handles_ok handles'
  /\ (forall c h, circuit_handle handles' i c = Some h -> h ∉ reserved_with layout extra i)
  /\ (wanted = true -> r = circuit_handle handles' i hash)
  /\ (forall j d, (j, d) <> (i, hash) -> circuit_handle handles' j d = circuit_handle handles j d).
Proof.
  intros Hok Hc Hres. unfold assign_missing. destruct wanted; [|by intros [= <- <-]]. intros Ha.
  pose proof (assign_ok handles i hash (reserved_with layout extra i) Hok Hc) as Hok'.
  pose proof (assign_spec handles i hash (reserved_with layout extra i) Hok Hc) as Hs. rewrite Ha in Hok', Hs.
  destruct r as [h|].
  - destruct Hs as (_ & Hnr & _ & _ & Hgot & _ & Hframe). split_and!; [done| |done|done].
    intros c h'. destruct (decide (c = hash)) as [->|Hne]; [rewrite Hgot; by intros [= <-]|].
    rewrite Hframe by congruence. apply Hres.
  - destruct Hs as (_ & Hold & Hsame). split_and!; [done| | |].
    + intros c h'. rewrite Hsame. apply Hres.
    + intros _. rewrite Hsame. destruct (circuit_handle handles i hash) as [old|] eqn:Ho; [|done].
      exfalso. by apply (Hres hash old Ho), Hold.
    + intros j d _. apply Hsame.
Qed.

Lemma with_assigned_spec cmd handles cmd' handles' :
  handles_ok handles -> unassigned cmd ->
  (forall i c h, i = isp \/ i = internet -> circuit_handle handles i c = Some h -> h ∉ reserved_with layout extra i) ->
  with_assigned_qdisc_handles_reserved cmd config layout handles extra = Ok (cmd', handles') ->
  handles_ok handles'
  /\ (forall i c h, i = isp \/ i = internet -> circuit_handle handles' i c = Some h -> h ∉ reserved_with layout extra i)
  /\ match cmd with
     | AddCircuit c =>
         (forall i d, d <> ac_circuit_hash c -> circuit_handle handles' i d = circuit_handle handles i d)
         /\ exists down up, cmd' = AddCircuit (with_handles c down up)
            /\ (is_observe (queue_mode (queues config)) = false ->
                down = circuit_handle handles' isp (ac_circuit_hash c)
                /\ (on_a_stick_mode config = false -> up = circuit_handle handles' internet (ac_circuit_hash c)))
     | _ => cmd' = cmd /\ handles' = handles
     end.
Proof.
  intros Hok Hun Hres. unfold with_assigned_qdisc_handles_reserved.
  destruct cmd as [| | | | | | | | | | | |c| | | | | | |]; try (by intros [= <- <-]).
  destruct Hun as (Hhash & Hdown & Hup). destruct (is_observe _) eqn:Ho.
  { intros [= <- <-]. split_and!; [done|done|done|]. exists (ac_down_qdisc_handle c), (ac_up_qdisc_handle c).
    split; [by destruct c|done]. }
  rewrite Hisp, Hinternet, Hdown, Hup. cbn [mbind result_bind].
  destruct (assign_missing true _ _ _ _ _) as [h1 down] eqn:H1.
  destruct (assign_missing (negb _) _ _ _ _ _) as [h2 up] eqn:H2. intros [= <- <-].
  destruct (assign_missing_spec true handles isp (ac_circuit_hash c) h1 down Hok Hhash ltac:(eauto) H1)
    as (Hok1 & Hres1 & Hr1 & Hf1).
  assert (forall i d x, i = isp \/ i = internet -> circuit_handle h1 i d = Some x ->
    x ∉ reserved_with layout extra i) as Hres1'.
  { intros i d x Hi. destruct (decide (i = isp)) as [->|Hne]; [apply Hres1|]. rewrite Hf1 by congruence. by apply Hres. }
  destruct (assign_missing_spec _ h1 internet (ac_circuit_hash c) h2 up Hok1 Hhash ltac:(eauto) H2)
    as (Hok2 & Hres2 & Hr2 & Hf2).
  split_and!; [done| | |].
  - intros i d x Hi. destruct (decide (i = internet)) as [->|Hne]; [apply Hres2|]. rewrite Hf2 by congruence. by apply Hres1'.
  - intros i d Hd. rewrite Hf2, Hf1 by congruence. done.
  - exists down, up. split; [done|]. intros _. split.
    + rewrite Hr1 by done. destruct (on_a_stick_mode config) eqn:Hst; cbn [negb assign_missing] in H2.
      * by injection H2 as <- _.
      * rewrite Hf2; [done|]. intros [= Heq]. by apply Hdistinct in Heq.
    + intros Hst. apply Hr2. by rewrite Hst.
Qed.

Lemma build_step_handles cmd s s' :
  build_step config layout extra preserved cmd s = Ok s' -> unassigned cmd -> build_handles_ok s -> build_handles_ok s'.
Proof.
  unfold build_step. intros ([cmd' handles] & Ha & ([commands created] & _ & [= <-])%result_bind_Ok)%result_bind_Ok Hun [Hok Hres Hb].
  destruct (with_assigned_spec cmd _ cmd' handles Hok Hun Hres Ha) as (Hok' & Hres' & Hcmd).
  split; cbn [build_handles build_circuits]; [done|done|].
  destruct cmd as [| | | | | | | | | | | |c| | | | | | |]; try (destruct Hcmd as [-> ->]; exact Hb).
  destruct Hcmd as (Hframe & down & up & -> & Hhandles). intros hash c'. rewrite lookup_insert.
  case_decide as Heq; [|].
  - intros [= <-] Ho. cbn. destruct (Hhandles Ho) as [Hd Hu]. cbn in Heq. subst hash. by split_and!.
  - intros Hc Ho. cbn in Heq. destruct (Hb hash c' Hc Ho) as (Hh & Hd & Hu). rewrite !Hframe by congruence. by split_and!.
Qed.

Lemma build_batch_handles batch : forall s s',
  build_batch config layout extra preserved batch s = Ok s' -> Forall unassigned batch -> build_handles_ok s ->
  build_handles_ok s'.
Proof.
  induction batch as [|cmd batch IH]; intros s s'; cbn [build_batch]; [by intros [= <-]|].
  intros (s1 & Hs1 & Hrest)%result_bind_Ok [Hun Hall]%Forall_cons Hs. eapply IH; [done|done|]. by eapply build_step_handles.
Qed.

Lemma build_start_handles created : build_handles_ok (build_start created).
Proof.
  split; cbn [build_start build_handles build_circuits]; [apply default_handles_ok| |].
  - intros i c h _. unfold circuit_handle. cbn. by rewrite lookup_empty.
  - intros hash c. by rewrite lookup_empty.
Qed.

End BuildHandles.

(** ** Alerts *)

Lemma reason_push ts event status summary t :
  bakery_reload_required_reason (push_bakery_event ts event status summary t) = bakery_reload_required_reason t.
Proof. done. Qed.

Lemma reason_mark_required ts summary t :
  bakery_reload_required_reason (mark_reload_required ts summary t) = Some summary.
Proof.
  unfold mark_reload_required, alert_news. destruct (raised (tel_reload_required t)) eqn:Hr; cbn [negb orb]; [|done].
  case_bool_decide as Hreason; cbn [negb]; [|done]. unfold bakery_reload_required_reason. by rewrite Hr.
Qed.

Lemma reason_clear ts summary t : bakery_reload_required_reason (clear_reload_required ts summary t) = None.
Proof.
  unfold clear_reload_required, alert_on, bakery_reload_required_reason.
  destruct (raised (tel_reload_required t)) eqn:Hr; [done|]. cbn [orb]. by case_bool_decide; cbn; rewrite ?Hr.
Qed.

Lemma reason_finished ts m t :
  bakery_reload_required_reason (mark_bakery_action_finished ts m t) = bakery_reload_required_reason t.
Proof. unfold mark_bakery_action_finished. by case_bool_decide. Qed.

Lemma reason_end_scope t : bakery_reload_required_reason (end_full_reload_scope t) = bakery_reload_required_reason t.
Proof. unfold end_full_reload_scope. by case_bool_decide. Qed.

Lemma reason_passthrough ts summary emit t :
  bakery_reload_required_reason (mark_passthrough_degraded ts summary emit t) = bakery_reload_required_reason t.
Proof. unfold mark_passthrough_degraded. by repeat case_match. Qed.

Lemma reason_clear_passthrough ts summary t :
  bakery_reload_required_reason (clear_passthrough_degraded ts summary t) = bakery_reload_required_reason t.
Proof. unfold clear_passthrough_degraded. by case_match. Qed.

Lemma passthrough_mark ts summary emit t :
  raised (tel_passthrough_degraded (mark_passthrough_degraded ts summary emit t)) = true.
Proof.
  unfold mark_passthrough_degraded, alert_news. destruct (raised (tel_passthrough_degraded t)) eqn:Hr; cbn [negb orb].
  - by repeat case_match.
  - by case_match.
Qed.

Lemma passthrough_required ts summary t :
  tel_passthrough_degraded (mark_reload_required ts summary t) = tel_passthrough_degraded t.
Proof. unfold mark_reload_required. by case_match. Qed.

Lemma passthrough_finished ts m t :
  tel_passthrough_degraded (mark_bakery_action_finished ts m t) = tel_passthrough_degraded t.
Proof. unfold mark_bakery_action_finished. by case_bool_decide. Qed.

Lemma passthrough_end_scope t :
  tel_passthrough_degraded (end_full_reload_scope t) = tel_passthrough_degraded t.
Proof. unfold end_full_reload_scope. by case_bool_decide. Qed.

Lemma passthrough_clear ts summary t :
  raised (tel_passthrough_degraded (clear_passthrough_degraded ts summary t)) = false.
Proof.
  unfold clear_passthrough_degraded, alert_on. destruct (raised (tel_passthrough_degraded t)) eqn:Hr; [done|].
  cbn [orb]. by case_bool_decide.
Qed.

Lemma mode_end_scope t : tel_mode (end_full_reload_scope t) <> Mode_ApplyingFullReload.
Proof. unfold end_full_reload_scope. by case_bool_decide. Qed.

Create Rewrite HintDb alerts.
#[local] Hint Rewrite reason_push reason_mark_required reason_clear reason_finished reason_end_scope
  reason_passthrough reason_clear_passthrough passthrough_mark passthrough_required passthrough_finished
  passthrough_end_scope passthrough_clear : alerts.

(** ** The classifier switch *)

(** Whether classification is bypassed. *)
Class ClassifyBypass (W : Type) : Type := bypass : W -> bool.

Class ReloadLaws (W L : Type) `{TcHost W, TcLive W L, ReloadHost W, ClassifyBypass W} : Prop := {
  set_bypass_ok : forall w b w', set_tc_classify_bypass w b = (Ok tt, w') -> bypass w' = b /\ live w' = live w;
  set_bypass_err : forall w b e w', set_tc_classify_bypass w b = (Err e, w') -> bypass w' = bypass w /\ live w' = live w;
  write_file_bypass : forall w text ok w', write_file w text = (ok, w') -> bypass w' = bypass w;
  run_batch_bypass : forall w text output w', run_tc_batch w text = (output, w') -> bypass w' = bypass w;
  save_handles_frame : forall w p, bypass (save_handles w p) = bypass w /\ live (save_handles w p) = live w
}.

Section Runs.
  Context {W L : Type} `{TcHost W, TcShow W, TcLive W L, !TcHostLaws W L, ReloadHost W, ClassifyBypass W}.
  Context `{!ReloadLaws W L}.
  Context (order : class_snapshot -> list LiveTcClassEntry) (class_error_text : rstring -> ClassLineError -> rstring).

Lemma execute_chunk_bypass w purpose chunk r w' : execute_chunk w purpose chunk = (r, w') -> bypass w' = bypass w.
Proof.
  unfold execute_chunk. destruct (write_file w _) as [[] w1] eqn:Hw; pose proof (write_file_bypass _ _ _ _ Hw) as E1.
  - destruct (run_tc_batch w1 _) as [out w2] eqn:Hr. pose proof (run_batch_bypass _ _ _ _ Hr) as E2.
    destruct out; repeat case_match; intros; simplify_eq; congruence.
  - by intros [= _ <-].
Qed.

Lemma execute_chunks_bypass purpose guard all_c all_ch rest : forall w c ch r progress w',
  execute_chunks w purpose guard all_c all_ch c ch rest = (r, progress, w') -> bypass w' = bypass w.
Proof.
  induction rest as [|chunk rest IH]; intros w c ch r progress w'; cbn [execute_chunks]; [by intros [= _ _ <-]|].
  destruct (memory_guard _ _ _ _ _ _); [|by intros [= _ _ <-]].
  destruct (execute_chunk w purpose chunk) as [r1 w1] eqn:He. apply execute_chunk_bypass in He.
  destruct r1; [|by intros [= _ _ <-]].
  destruct (memory_guard _ _ _ _ _ _); [|by intros [= _ _ <-]].
  destruct (execute_chunks _ _ _ _ _ _ _ _) as [[r2 p2] w2] eqn:Hrest. apply IH in Hrest.
  intros [= _ _ <-]. congruence.
Qed.

Lemma execute_chunked_bypass w cmds purpose n guard r progress w' :
  execute_in_memory_chunked w cmds purpose n guard = (r, progress, w') -> bypass w' = bypass w.
Proof.
  unfold execute_in_memory_chunked. destruct (write_file w _) as [[] w1] eqn:Hw; apply write_file_bypass in Hw.
  - intros He%execute_chunks_bypass. congruence.
  - by intros [= _ _ <-].
Qed.

Lemma preflight_bypass w cmds purpose r w' :
  run_root_preflight_commands w cmds purpose = (r, w') -> bypass w' = bypass w.
Proof.
  unfold run_root_preflight_commands. destruct (execute_in_memory_chunked _ _ _ _ _) as [[x p] w1] eqn:He.
  apply execute_chunked_bypass in He. by case_match; intros [= _ <-].
Qed.

Lemma recreate_root_bypass w i r w' : recreate_root class_error_text w i = (r, w') -> bypass w' = bypass w.
Proof.
  unfold recreate_root. destruct (run_root_preflight_commands w _ _) as [[] w1] eqn:Hrun1; apply preflight_bypass in Hrun1;
    [|by intros [= _ <-]].
  destruct (run_root_preflight_commands w1 _ _) as [[] w2] eqn:Hrun2; apply preflight_bypass in Hrun2;
    intros [= _ <-]; congruence.
Qed.

Lemma replace_root_bypass w i r w' : replace_root class_error_text w i = (r, w') -> bypass w' = bypass w.
Proof.
  unfold replace_root. destruct (run_root_preflight_commands w _ _) as [[] w1] eqn:Hrun1; apply preflight_bypass in Hrun1.
  - repeat case_match; intros Hr; try (apply recreate_root_bypass in Hr; congruence); by injection Hr as _ <-.
  - case_match; [by intros [= _ <-]|]. intros Hr%recreate_root_bypass. congruence.
Qed.

Lemma prepare_interface_bypass w cache preserved i r cache' w' :
  prepare_interface order class_error_text w cache preserved i = (r, cache', w') -> bypass w' = bypass w.
Proof.
  unfold prepare_interface. destruct (read_live_qdisc_snapshot w cache i) as [[qdiscs|e] c1]; [|by intros [= _ _ <-]].
  destruct (retained_root_mq_entry qdiscs).
  - case_match; [by intros [= _ _ <-]|]. unfold run_drain.
    repeat case_match; simplify_eq; intros; simplify_eq; try done;
      match goal with Hp : run_root_preflight_commands _ _ _ = _ |- _ => by apply preflight_bypass in Hp end.
  - destruct (replace_root _ _ _) as [[] w1] eqn:Hr; apply replace_root_bypass in Hr; intros [= _ _ <-]; done.
Qed.

Lemma prepare_interfaces_bypass interfaces : forall w cache preserved r w',
  prepare_interfaces order class_error_text w cache interfaces preserved = (r, w') -> bypass w' = bypass w.
Proof.
  induction interfaces as [|i rest IH]; intros w cache preserved r w'; cbn [prepare_interfaces]; [by intros [= _ <-]|].
  destruct (prepare_interface _ _ _ _ _ _) as [[[p|e] c1] w1] eqn:Hp; apply prepare_interface_bypass in Hp;
    [|by intros [= _ <-]]. intros Hr%IH. congruence.
Qed.

(** ** The outcome of a reload *)

(** The tree and the flags that a failed reload keeps. *)
Definition reload_kept (s s' : BakeryState) : Prop :=
  bs_tree s' = bs_tree s
  /\ shaping_tree_active (bs_flags s') = shaping_tree_active (bs_flags s)
  /\ first_commit_applied (bs_flags s') = first_commit_applied (bs_flags s)
  /\ stormguard_tree_generation (bs_flags s') = stormguard_tree_generation (bs_flags s)
  /\ stormguard_tree_rebuild_generation (bs_flags s') = stormguard_tree_rebuild_generation (bs_flags s).

(** The tree and the flags that a reload installs. *)
Definition reload_installed (config : Config) (built : BuildState) (layout : option MqDeviceLayout)
    (s s' : BakeryState) : Prop :=
  let generation := (stormguard_tree_generation (bs_flags s) + 1) mod 2 ^ 64 in
  bs_tree s' = mkTree (build_sites built) (build_circuits built) ∅
                 (if decide (is_Some layout) then layout else tree_mq_layout (bs_tree s)) (build_handles built)
  /\ mq_created (bs_flags s') = true /\ first_commit_applied (bs_flags s') = true
  /\ shaping_tree_active (bs_flags s') = negb (is_observe (queue_mode (queues config)))
  /\ stormguard_tree_generation (bs_flags s') = generation
  /\ stormguard_tree_rebuild_generation (bs_flags s') = generation.

Lemma reload_installed_kept config built layout s s1 s' :
  reload_kept s s1 -> reload_installed config built layout s1 s' -> reload_installed config built layout s s'.
Proof. intros (Ht & _ & _ & Hg & _). unfold reload_installed. by rewrite Ht, Hg. Qed.

Lemma install_batch_installs config built layout s :
  reload_installed config built layout s (install_batch config built layout s).
Proof. unfold reload_installed. split_and!; try done. destruct layout; [by rewrite decide_True|by rewrite decide_False by (by intros [])]. Qed.

(** Whether the alert and the switch agree after commands were run: traffic is classified only when nothing is
    required and the classifier was found on every interface. *)
Definition alerts_match (config : Config) (t : BakeryTelemetryState) (w : W) : Prop :=
  if bypass w then is_Some (bakery_reload_required_reason t)
  else bakery_reload_required_reason t = None
       /\ exists w0, live w0 = live w /\ verify_tc_classify_attached w0 config = Ok (Ok tt).

Lemma finish_installed_spec w config b s s' w' :
  finish_installed w config b s = Ok (s', w') -> bypass w = true ->
  bakery_reload_required_reason (bs_telemetry s) = None ->
  bs_tree s' = bs_tree s /\ bs_flags s' = bs_flags s /\ live w' = live w /\ alerts_match config (bs_telemetry s') w'.
Proof.
  unfold finish_installed, alerts_match. intros (attached & Hatt & Hf)%result_bind_Ok Hb Hr. destruct attached as [[]|error].
  - revert Hf. unfold bypass_guard_disable.
    destruct (set_tc_classify_bypass w false) as [[[]|e] w1] eqn:Hset; intros [= <- <-]; cbn.
    + apply set_bypass_ok in Hset as [-> ->]. autorewrite with alerts. by split_and!; eauto.
    + apply set_bypass_err in Hset as [-> ->]. rewrite Hb. autorewrite with alerts. by split_and!.
  - injection Hf as <- <-. cbn. rewrite Hb. autorewrite with alerts. by split_and!.
Qed.

Lemma progress_alerts progress text : forall t,
  bakery_reload_required_reason (foldl (fun t p => update_bakery_apply_progress text (all_commands p) (done_commands p)
    (all_chunks p) (done_chunks p) t) t progress) = bakery_reload_required_reason t.
Proof. induction progress as [|p progress IH]; intros t; [done|]. cbn [foldl]. by rewrite IH. Qed.

Lemma process_batch_spec w t batch config layout extra preserved created b built t' w' :
  process_batch w t batch config layout extra preserved created = Ok (b, built, t', w') ->
  config_words config ->
  build_batch config layout extra preserved batch (build_start created) = Ok built
  /\ bypass w' = bypass w
  /\ (exec_ok (batch_result b) = true -> live w' = foldl effect (live w) (build_commands built)).
Proof.
  unfold process_batch. intros (built' & Hb & Hrun)%result_bind_Ok Hw.
  destruct (count_tc_command_types_and_estimate_qdisc_memory _) as [[[total cc] qc] estimate].
  destruct (execute_in_memory_chunked _ _ _ _ _) as [[r progress] w1] eqn:He.
  injection Hrun as <- <- <- <-. split_and!; [done|by eapply execute_chunked_bypass|].
  apply execute_in_memory_chunked_live in He as [Hl _]; [done|].
  eapply build_batch_ok; [done|exact Hb|constructor].
Qed.

Lemma reload_batch_spec w config batch layout preserved live_reserved created s s' w' :
  reload_batch w config batch layout preserved live_reserved created s = Ok (s', w') ->
  config_words config -> bypass w = true ->
  (reload_kept s s' /\ bypass w' = true /\ is_Some (bakery_reload_required_reason (bs_telemetry s')))
  \/ exists built,
       build_batch config (default (mkMqDeviceLayout ∅) layout) live_reserved preserved batch (build_start true) = Ok built
       /\ reload_installed config built layout s s' /\ live w' = foldl effect (live w) (build_commands built)
       /\ alerts_match config (bs_telemetry s') w'.
Proof.
  unfold reload_batch. intros ([[[b built] t] w1] & Hp & Hend)%result_bind_Ok Hw Hb.
  destruct (process_batch_spec _ _ _ _ _ _ _ _ _ _ _ _ Hp Hw) as (Hbuild & Hbp & Hlive).
  destruct (exec_ok (batch_result b)).
  - right. exists built. split; [done|]. destruct (save_handles_frame w1 (persisted (build_handles built))) as [Hsb Hsl].
    apply finish_installed_spec in Hend as (Htree & Hflags & Hl & Ha); [|congruence|cbn; apply reason_clear].
    split_and!; [|rewrite Hl, Hsl; by apply Hlive|done]. unfold reload_installed. rewrite Htree, Hflags.
    apply (install_batch_installs config built layout (with_telemetry s t)).
  - left. injection Hend as <- <-. cbn. autorewrite with alerts. split_and!; try done. congruence.
Qed.

Lemma reload_bypassed_spec w cache config batch layout s s' w' :
  reload_bypassed order class_error_text w cache config batch layout s = Ok (s', w') ->
  config_words config -> bypass w = true ->
  (reload_kept s s' /\ bypass w' = true /\ is_Some (bakery_reload_required_reason (bs_telemetry s')))
  \/ exists preserved w1 live_reserved built,
       prepare_root_mq_for_full_reload order class_error_text w cache config = Ok (Ok preserved, w1)
       /\ snapshot_live_qdisc_handle_majors w1 empty_cache config = Ok (Ok live_reserved)
       /\ build_batch config (default (mkMqDeviceLayout ∅) layout) live_reserved preserved batch (build_start true)
          = Ok built
       /\ reload_installed config built layout s s' /\ live w' = foldl effect (live w1) (build_commands built)
       /\ alerts_match config (bs_telemetry s') w'.
Proof.
  unfold reload_bypassed. intros ([prepared w1] & Hp & Hrest)%result_bind_Ok Hw Hb.
  assert (bypass w1 = true) as Hb1.
  { revert Hp. unfold prepare_root_mq_for_full_reload. intros (is' & _ & [= Hi])%result_bind_Ok.
    apply prepare_interfaces_bypass in Hi. congruence. }
  destruct prepared as [preserved|e].
  - apply result_bind_Ok in Hrest as (snapshot & Hs & Hrest). destruct snapshot as [live_reserved|e].
    + destruct (reload_batch_spec _ _ _ _ _ _ _ _ _ _ Hrest Hw Hb1) as [Hkept|(built & Hbuild & Hi & Hl & Ha)].
      * left. exact Hkept.
      * right. exists preserved, w1, live_reserved, built. by split_and!.
    + left. injection Hrest as <- <-. unfold fail_prepared. cbn. autorewrite with alerts. by split_and!.
  - left. injection Hrest as <- <-. unfold fail_prepared. cbn. autorewrite with alerts. by split_and!.
Qed.

(** C7: A full reload, on a host whose switch and queues behave as documented, ends with the reload scope
    closed.  It either keeps the site and circuit maps, the handles, the layout, the shaping flag and both
    generations, and then leaves a reload-required reason; or the roots were prepared, the live handles read
    and the batch built, every command of it took effect on the prepared tree, and exactly the built maps
    and handles are installed with the next generation.  Classification is bypassed afterwards only with a
    reload-required reason.  It is on only when the installed tree is live, nothing is required and the
    classifier was found on every interface, or when the switch could not be turned at all and the live
    queues are untouched. *)
Theorem reload_is_safe w cache s config batch layout trigger s' w' :
  config_words config ->
  full_reload order class_error_text w cache s config batch layout trigger = Ok (s', w') ->
  full_reload_in_progress (bs_flags s') = false /\ tel_mode (bs_telemetry s') <> Mode_ApplyingFullReload
  /\ ((reload_kept s s' /\ is_Some (bakery_reload_required_reason (bs_telemetry s'))
        /\ (bypass w' = false -> live w' = live w))
      \/ exists w0 preserved w1 live_reserved built,
           set_tc_classify_bypass w true = (Ok tt, w0)
           /\ prepare_root_mq_for_full_reload order class_error_text w0 cache config = Ok (Ok preserved, w1)
           /\ snapshot_live_qdisc_handle_majors w1 empty_cache config = Ok (Ok live_reserved)
           /\ build_batch config (default (mkMqDeviceLayout ∅) layout) live_reserved preserved batch (build_start true)
              = Ok built
           /\ reload_installed config built layout s s' /\ live w' = foldl effect (live w1) (build_commands built)
           /\ alerts_match config (bs_telemetry s') w').
Proof.
  intros Hw. unfold full_reload, bypass_guard_new.
  destruct (set_tc_classify_bypass w true) as [[[]|e] w0] eqn:Hset.
  - apply set_bypass_ok in Hset as Hb. destruct Hb as [Hb _].
    intros ([s1 w1] & Hr & [= <- <-])%result_bind_Ok. split; [done|]. split; [apply mode_end_scope|].
    destruct (reload_bypassed_spec _ _ _ _ _ _ _ _ Hr Hw Hb)
      as [(Hk & Hb1 & Hreason)|(preserved & w2 & live_reserved & built & Hp & Hs & Hbuild & Hi & Hl & Ha)].
    + left. split_and!; [by destruct Hk| |by rewrite Hb1]. cbn. by rewrite reason_end_scope.
    + right. exists w0, preserved, w2, live_reserved, built. do 4 (split; [done|]). split; [|split; [done|]].
      * eapply reload_installed_kept in Hi; [exact Hi|]. by unfold reload_kept.
      * unfold alerts_match in *. cbn. by rewrite reason_end_scope.
  - apply set_bypass_err in Hset as [Hb Hl]. intros [= <- <-]. split; [done|]. split; [apply mode_end_scope|].
    left. cbn. autorewrite with alerts. by split_and!.
Qed.
End Runs.

(** ** Fresh handles *)

(** The handles of the built circuits on an interface: numbers for dynamic use, none reserved, none used twice. *)
Definition handles_well_typed (handle : AddCircuitCommand -> option Z) (reserved : gset Z)
    (circuits : gmap Z BakeryCommands) : Prop :=
  forall hash c h, circuits !! hash = Some (AddCircuit c) -> handle c = Some h ->
    dynamic_handle h /\ (h ∉ reserved)
    /\ forall hash' c', circuits !! hash' = Some (AddCircuit c') -> handle c' = Some h -> hash' = hash.

Lemma well_typed_of_allocator handle s interface reserved circuits :
  handles_ok s -> (forall c h, circuit_handle s interface c = Some h -> h ∉ reserved) ->
  (forall hash c, circuits !! hash = Some (AddCircuit c) -> handle c = circuit_handle s interface hash) ->
  handles_well_typed handle reserved circuits.
Proof.
  intros Hok Hres Hc hash c h Hlook Hh. pose proof (ok_interface s Hok interface) as Hi.
  rewrite (Hc _ _ Hlook) in Hh. split_and!; [|by eapply Hres|].
  - rewrite circuit_handle_state in Hh. by eapply iface_range.
  - intros hash' c' Hlook' Hh'. rewrite (Hc _ _ Hlook'), circuit_handle_state in Hh'.
    rewrite circuit_handle_state in Hh. apply (iface_inverse _ Hi) in Hh, Hh'. congruence.
Qed.

(** C9: The queue handles that a full reload gives to its circuits are well typed: each is a dynamic handle
    (1 to 0xFFFE), is none of the handles the MQ layout reserves nor of those live on the interface when the
    reload began, and belongs to one circuit of the interface only.  In the upload direction this holds on
    the internet interface, when the two directions have an interface each. *)
Theorem reload_handles_are_fresh config layout extra preserved isp internet batch created built :
  isp_interface config = Ok isp -> internet_interface config = Ok internet ->
  (on_a_stick_mode config = false -> isp <> internet) ->
  is_observe (queue_mode (queues config)) = false -> Forall unassigned batch ->
  build_batch config layout extra preserved batch (build_start created) = Ok built ->
  handles_well_typed ac_down_qdisc_handle (reserved_handles layout isp ∪ default ∅ (extra !! isp))
     (build_circuits built)
  /\ (on_a_stick_mode config = false ->
      handles_well_typed ac_up_qdisc_handle (reserved_handles layout internet ∪ default ∅ (extra !! internet))
        (build_circuits built)).
Proof.
  intros Hisp Hinternet Hne Ho Hun Hb.
  destruct (build_batch_handles config layout extra preserved isp internet Hisp Hinternet Hne batch _ _ Hb Hun
    (build_start_handles _ _ _ _ _ created)) as [Hok Hres Hc].
  split; [|intros Hst]; (eapply well_typed_of_allocator; [exact Hok| |]).
  - intros c h Hh. by apply (Hres isp c h); [left|].
  - intros hash c Hl. by apply (Hc hash c Hl Ho).
  - intros c h Hh. by apply (Hres internet c h); [right|].
  - intros hash c Hl. by apply (Hc hash c Hl Ho).
Qed.

(** ** A host with a classifier switch *)

Record ReloadToy : Type := mkReloadToy { reload_toy : ToyHost; toy_bypass : bool; toy_time : Z }.

#[export] Instance reload_toy_host : TcHost ReloadToy := {
  write_file w _ := (true, w);
  run_tc_batch w text := let '(output, host) := run_tc_batch (reload_toy w) text in (output, mkReloadToy host (toy_bypass w) (toy_time w));
  read_meminfo _ := Ok (str "MemTotal: 16000000 kB
MemAvailable: 15000000 kB
")
}.
#[export] Instance reload_toy_show : TcShow ReloadToy := fun _ _ => Ok [].
#[export] Instance reload_toy_live : TcLive ReloadToy (list argv) :=
  { live w := live (reload_toy w); effect log c := effect (W := ToyHost) log c }.

#[export] Instance reload_toy_reload : ReloadHost ReloadToy := {
  unix_time := toy_time;
  instant_ms _ := 0;
  qdisc_show _ _ := Ok (JArray
    [JObject [(str "kind", JString (str "mq")); (str "handle", JString (str "7fff:")); (str "root", JBool true)];
     JObject [(str "kind", JString (str "cake")); (str "handle", JString (str "1:")); (str "parent", JString (str "1:5"))]]);
  filter_show _ _ := Ok (mkTcOutput (Some 0) [], as_bytes (str "filter protocol all bpf tc_iphash_to_cpu"));
  set_tc_classify_bypass w b := (Ok tt, mkReloadToy (reload_toy w) b (toy_time w));
  save_handles w _ := w
}.
#[export] Instance reload_toy_bypass : ClassifyBypass ReloadToy := toy_bypass.

Lemma reload_toy_run l outs l' : batch_run ToyHost (list argv) l outs l' -> batch_run ReloadToy (list argv) l outs l'.
Proof. induction 1; by constructor. Qed.

#[export] Instance reload_toy_laws : TcHostLaws ReloadToy (list argv).
Proof.
  split.
  - by intros w text ok w' [= <- <-].
  - intros w text w'. cbn. by intros [=].
  - intros w text output w' Hok Hrun.
    destruct (run_tc_batch (reload_toy w) text) as [out host] eqn:Hr.
    cbn [run_tc_batch reload_toy_host] in Hrun. rewrite Hr in Hrun. injection Hrun as -> <-.
    destruct (run_outcomes (W := ToyHost) (L := list argv) _ _ _ _ Hok Hr) as (outs & Hf & Hb & Hrest).
    exists outs. split; [done|]. split; [by apply reload_toy_run|done].
Qed.

#[export] Instance reload_toy_reload_laws : ReloadLaws ReloadToy (list argv).
Proof.
  split.
  - by intros w b w' [= <-].
  - by intros w b e w' [=].
  - by intros w text ok w' [= _ <-].
  - intros w text output w'. cbn [run_tc_batch reload_toy_host]. destruct (run_tc_batch (reload_toy w) text). by intros [= _ <-].
  - done.
Qed.

Definition reload_example_circuit (hash minor : Z) : AddCircuitCommand :=
  mkAddCircuit hash None None (mkTcHandle 0x10003) (mkTcHandle 0x20003) minor (f32_of_Z 1) (f32_of_Z 1) (f32_of_Z 100)
    (f32_of_Z 20) 1 2 None None (str "192.0.2.1") None.
Definition reload_example_batch : list BakeryCommands :=
  [AddCircuit (reload_example_circuit 7 5); AddCircuit (reload_example_circuit (-9) 6)].
Definition reload_example_state : BakeryState :=
  mkBakeryState (mkTree ∅ ∅ ∅ None QdiscHandleState_default) sg_example_flags
    (mkTelemetry Mode_Idle None no_progress (mkLastApply None None None None Apply_None 0 0 0) (mkAlert true (Some []))
       (mkAlert false None) []).

Lemma sg_example_words : config_words sg_example_config.
Proof.
  split; [intros i [= <-]; word_literal..|]. unfold sqm_as_vec.
  repeat constructor; by vm_compute.
Qed.

Definition reload_example_layout : MqDeviceLayout := from_setup (str "eth1") (str "eth0") 2 0.
Definition reload_example : result Panic (BakeryState * ReloadToy) :=
  full_reload (W := ReloadToy) (fun m => (map_to_list m).*2) (fun _ _ => []) (mkReloadToy (mkToyHost [] []) false 1700000000)
    empty_cache reload_example_state sg_example_config reload_example_batch (Some reload_example_layout) [].

(** A reload of two circuits that the host accepts. *)
Lemma reload_is_safe_witness :
  exists s' w', reload_example = Ok (s', w') /\ bypass w' = false /\ size (tree_circuits (bs_tree s')) = 2%nat
    /\ tel_mode (bs_telemetry s') <> Mode_ApplyingFullReload.
Proof.
  destruct reload_example as [[s' w']|e] eqn:He; [|by vm_compute in He].
  exists s', w'. split; [done|].
  pose proof (reload_is_safe (W := ReloadToy) (L := list argv) _ _ _ _ _ _ _ _ _ _ _ sg_example_words He) as (_ & Hm & _).
  split_and!; [..|exact Hm]; vm_compute in He; injection He as <- <-; reflexivity.
Defined.

Definition reload_example_built : result Panic BuildState :=
  build_batch sg_example_config reload_example_layout {[str "eth1" := {[0x9000]}]} ∅ reload_example_batch (build_start true).

(** Two circuits, with 0x9000 live on the ISP interface: they are given 0x9001 and 0x9002 there. *)
Lemma reload_handles_are_fresh_witness :
  exists built, reload_example_built = Ok built /\ size (build_circuits built) = 2%nat
    /\ handles_well_typed ac_down_qdisc_handle
         (reserved_handles reload_example_layout (str "eth1") ∪ {[0x9000]}) (build_circuits built).
Proof.
  destruct reload_example_built as [built|e] eqn:He; [|by vm_compute in He].
  exists built. split; [done|]. split; [vm_compute in He; injection He as <-; reflexivity|].
  refine (proj1 (reload_handles_are_fresh sg_example_config reload_example_layout _ ∅ (str "eth1") (str "eth0")
    reload_example_batch true built eq_refl eq_refl _ eq_refl _ He)).
  - intros _. by vm_compute.
  - repeat constructor; by vm_compute.
Defined.
