(* ===== verification/BakeryLazy.v ===== *)
(** * Live changes and lazy queues ([lqos_bakery/src/lib.rs])

    With lazy queues the leaf queue disciplines of a circuit (and, in the mode [Full], its classes) are
    created when traffic of the circuit is seen and deleted when none was seen for a while.  The Bakery keeps
    the time of the last activity of every activated circuit.

    [config] is the result of [load_config].  [iter] is the iteration order of the map of activated circuits
    and the identifiers of an activity come in the order in which their set is iterated.  A one-shot test
    fault is read from a file of the host ([FaultHost]).  Capacity of the maps and live-capacity snapshots
    are left out. *)

From S2P Require Import Prelude RustStd RustCollections RustFloat RustFormat ShapedDevice.
From S2P Require Import TcHandle QdiscHandles StormguardConfig BakeryCommands BakeryPlan BakeryExecute.
From S2P Require Import BakeryDrain BakeryDiff BakeryStormguard BakeryTelemetry BakeryReload.

(** The file of a test fault: its text, when it can be read, and its removal. *)
Class FaultHost (W : Type) : Type := {
  fault_file : W -> option rstring;
  remove_fault_file : W -> W
}.

Section Lazy.
  Context {W : Type} `{TcHost W} `{ReloadHost W} `{FaultHost W}.

(** ** Live changes *)

Definition consume_test_fault_once (w : W) (purpose : rstring) : option rstring * W :=
  match fault_file w with
  | None => (None, w)
  | Some raw =>
      let needle := trim raw in
      if str_is_empty needle || negb (bool_decide (needle = str "*") || contains_str purpose needle) then (None, w)
      else (Some (str "synthetic Bakery test fault for purpose '" ++ purpose ++ str "' matched selector '" ++ needle
                  ++ str "'"), remove_fault_file w)
  end.

(** The metrics of a live change. *)
Definition live_change_metrics (command_buffer : list argv) (summary : rstring) (ok : bool) : BakeryApplyMetrics :=
  let '(total, class_commands, qdisc_commands) := count_tc_command_types command_buffer in
  mkMetrics Apply_LiveChange summary total class_commands qdisc_commands ok.

Definition execute_and_record_live_change (w : W) (t : BakeryTelemetryState) (command_buffer : list argv)
    (purpose : rstring) : ExecuteResult * BakeryTelemetryState * W :=
  let t := mark_bakery_action_started (unix_time w) Mode_ApplyingLiveChange (str "live_change_started")
             (purpose ++ str ": started") t in
  let '(fault, w) := consume_test_fault_once w purpose in
  let '(result, w) :=
    match fault with
    | Some summary => (mkExecuteResult false (Some summary), w)
    | None => execute_in_memory w command_buffer purpose
    end in
  let summary := summarize_apply_result purpose result in
  (result, mark_bakery_action_finished (unix_time w) (live_change_metrics command_buffer summary (exec_ok result)) t, w).

(** A live change of which only the effects matter. *)
Definition run_live_change (w : W) (s : BakeryState) (command_buffer : list argv) (purpose : rstring)
    : BakeryState * W :=
  let '(_, t, w) := execute_and_record_live_change w (bs_telemetry s) command_buffer purpose in
  (with_telemetry s t, w).

(** ** Activity *)

Definition lazy_enabled (config : Config) : bool :=
  match lazy_queues (queues config) with None | Some Lazy_No => false | _ => true end.

Definition with_live_circuits (s : BakeryState) (live : gmap Z Z) : BakeryState :=
  let tree := bs_tree s in
  mkBakeryState (mkTree (tree_sites tree) (tree_circuits tree) live (tree_mq_layout tree) (tree_handles tree))
    (bs_flags s) (bs_telemetry s).

(** The commands of [BakeryCommands::to_commands] once [MQ_CREATED] is set. *)
Definition created_commands (config : Config) (mode : ExecutionMode) (command : BakeryCommands)
    : result Panic (option (list argv)) :=
  planned ← to_commands config mode true command; Ok planned.1.

(** The commands that activate a circuit; [None] leaves it inactive. *)
Definition activation_commands (config : Config) (command : BakeryCommands) : result Panic (option (list argv)) :=
  match lazy_queues (queues config) with
  | Some Lazy_Htb =>
      builder ← created_commands config Builder command;
      live ← created_commands config LiveUpdate command;
      let cmd := default [] builder ++ default [] live in
      Ok (if is_nil cmd then None else Some cmd)
  | _ => created_commands config LiveUpdate command
  end.

Fixpoint activity_loop (config : Config) (now : Z) (circuits : gmap Z BakeryCommands) (circuit_ids : list Z)
    (live : gmap Z Z) (commands : list argv) : result Panic (gmap Z Z * list argv) :=
  match circuit_ids with
  | [] => Ok (live, commands)
  | circuit_id :: rest =>
      match live !! circuit_id, circuits !! circuit_id with
      | Some _, _ => activity_loop config now circuits rest (<[circuit_id := now]> live) commands
      | None, Some command =>
          cmd ← activation_commands config command;
          match cmd with
          | None => activity_loop config now circuits rest live commands
          | Some cmd => activity_loop config now circuits rest (<[circuit_id := now]> live) (commands ++ cmd)
          end
      | None, None => activity_loop config now circuits rest live commands
      end
  end.

Definition handle_circuit_activity (w : W) (config : result rstring Config) (circuit_ids : list Z) (s : BakeryState)
    : result Panic (BakeryState * W) :=
  match config with
  | Err _ => Ok (s, w)
  | Ok config =>
      if negb (lazy_enabled config) then Ok (s, w)
      else if negb (mq_created (bs_flags s)) || negb (first_commit_applied (bs_flags s)) then Ok (s, w)
      else
        looped ← activity_loop config (unix_time w) (tree_circuits (bs_tree s)) circuit_ids
                   (tree_live_circuits (bs_tree s)) [];
        let '(live, commands) := looped in
        let s := with_live_circuits s live in
        Ok (if is_nil commands then (s, w) else run_live_change w s commands (str "enabling live circuits"))
  end.

(** ** Expiry *)

(** [now - *last_activity > max_age_seconds] on [u64]. *)
Definition lazy_expired (now max_age last_activity : Z) : bool := max_age <? (now - last_activity) mod 2 ^ 64.

Fixpoint expiry_loop (config : Config) (circuits : gmap Z BakeryCommands) (to_destroy : list Z) (live : gmap Z Z)
    (commands : list argv) : result Panic (gmap Z Z * list argv) :=
  match to_destroy with
  | [] => Ok (live, commands)
  | circuit_id :: rest =>
      match circuits !! circuit_id with
      | None => expiry_loop config circuits rest live commands
      | Some command =>
          cmd ← to_prune config false command;
          match cmd with
          | None => expiry_loop config circuits rest live commands
          | Some cmd => expiry_loop config circuits rest (delete circuit_id live) (commands ++ cmd)
          end
      end
  end.

(** With the new value of [ACTIVE_CIRCUITS]; a configuration that cannot be read leaves it alone. *)
Definition handle_tick (iter : gmap Z Z -> list (Z * Z)) (w : W) (config : result rstring Config) (s : BakeryState)
    : result Panic (BakeryState * option nat * W) :=
  match config with
  | Err _ => Ok (s, None, w)
  | Ok config =>
      let tree := bs_tree s in
      if negb (lazy_enabled config) then Ok (s, Some (size (tree_circuits tree)), w)
      else
        let active := Some (size (tree_live_circuits tree)) in
        let max_age_seconds := default 600 (lazy_expire_seconds (queues config)) in
        if max_age_seconds =? 0 then Ok (s, active, w)
        else
          let now := unix_time w in
          let to_destroy := map fst (List.filter (fun entry => lazy_expired now max_age_seconds entry.2)
                                       (iter (tree_live_circuits tree))) in
          looped ← expiry_loop config (tree_circuits tree) to_destroy (tree_live_circuits tree) [];
          let '(live, commands) := looped in
          let s := with_live_circuits s live in
          let '(s, w) := if is_nil commands then (s, w) else run_live_change w s commands (str "pruning lazy queues") in
          Ok (s, active, w)
  end.

End Lazy.
