(* ===== verification/BakeryLazySpec.v ===== *)
(** * Theorems about lazy queues *)

From S2P Require Import Prelude RustStd RustCollections RustFloat RustFormat ShapedDevice.
From S2P Require Import TcHandle QdiscHandles StormguardConfig BakeryCommands BakeryCommandsSpec BakeryPlan.
From S2P Require Import BakeryExecute BakeryExecuteSpec BakeryDrain BakeryDiff BakeryStormguard.
From S2P Require Import BakeryStormguardSpec BakeryTelemetry BakeryReload BakeryReloadSpec BakeryLazy.

#[local] Arguments object_of : simpl never.
#[local] Arguments htb_class_command : simpl never.
#[local] Arguments sqm_command : simpl never.
#[local] Arguments qdisc_del_command : simpl never.
#[local] Arguments class_del_command : simpl never.

(** ** Objects of the live tree

    Which objects are live, and what an accepted command does to them: [replace] makes its object live,
    [del] removes it, and the leaf qdisc of a class goes with the class. *)

Class TcObjects (L : Type) : Type := has : L -> tc_object -> Prop.

Class TcObjectLaws (W L : Type) `{TcLive W L, TcObjects L} : Prop := {
  has_replaced : forall l command o o', verb_of command = Some (str "replace") -> object_of command = Some o ->
    has (effect l command) o' <-> has l o' \/ o' = o;
  has_qdisc_deleted : forall l command dev parent o', verb_of command = Some (str "del") ->
    object_of command = Some (QdiscObject dev parent) ->
    has (effect l command) o' <-> has l o' /\ o' <> QdiscObject dev parent;
  has_class_deleted : forall l command dev classid o', verb_of command = Some (str "del") ->
    object_of command = Some (ClassObject dev classid) ->
    has (effect l command) o' <-> has l o' /\ o' <> ClassObject dev classid /\ o' <> QdiscObject dev classid
}.

(** The device and class that an object hangs from. *)
Definition place_of (o : tc_object) : rstring * rstring :=
  match o with ClassObject dev classid => (dev, classid) | QdiscObject dev parent => (dev, parent) end.

Section Objects.
  Context {W L : Type} `{TcLive W L, TcObjects L, !TcObjectLaws W L}.

(** A command that makes the object [o] live, and one that deletes it. *)
Definition creates (command : argv) (o : tc_object) : Prop :=
  verb_of command = Some (str "replace") /\ object_of command = Some o.
Definition deletes (command : argv) (o : tc_object) : Prop :=
  verb_of command = Some (str "del") /\ object_of command = Some o.

Lemma created_objects commands objects o : forall l,
  Forall2 creates commands objects -> has (foldl effect l commands) o <-> has l o \/ o ∈ objects.
Proof.
  intros l Hc. revert l. induction Hc as [|command o' commands objects [Hv Ho] _ IH]; intros l; cbn [foldl].
  - rewrite elem_of_nil. tauto.
  - rewrite IH, (has_replaced _ _ _ _ Hv Ho), elem_of_cons. tauto.
Qed.

(** Deletions remove the leaf qdiscs they name and leave every other place alone. *)
Lemma deleted_leaves commands objects dev parent : forall l,
  Forall2 deletes commands objects ->
  (QdiscObject dev parent ∈ objects -> ~ has (foldl effect l commands) (QdiscObject dev parent))
  /\ ((dev, parent) ∉ map place_of objects ->
      has (foldl effect l commands) (QdiscObject dev parent) <-> has l (QdiscObject dev parent)).
Proof.
  intros l Hc. revert l. induction Hc as [|command o' commands objects [Hv Ho] Hrest IH]; intros l; cbn [foldl map].
  - split; [by intros ?%not_elem_of_nil|done].
  - assert (forall x, has (effect l command) x -> has l x /\ x <> o') as Hstep.
    { intros x. destruct o'; [rewrite (has_class_deleted _ _ _ _ _ Hv Ho)|rewrite (has_qdisc_deleted _ _ _ _ _ Hv Ho)];
        tauto. }
    split.
    + intros [<-|Hin]%elem_of_cons; [|by apply (IH (effect l command))].
      assert (~ has (effect l command) (QdiscObject dev parent)) as Hno 
        by (intros [_ Hn]%Hstep; by apply Hn).
      revert Hno. generalize (effect l command). clear -Hrest TcObjectLaws0. intros l Hno.
      revert l Hno. induction Hrest as [|c o cs os [Hv Ho] _ IH]; intros l Hno; cbn [foldl]; [done|].
      apply IH. intros Hh. apply Hno.
      destruct o; [apply (has_class_deleted _ _ _ _ _ Hv Ho) in Hh|apply (has_qdisc_deleted _ _ _ _ _ Hv Ho) in Hh];
        tauto.
    + intros [Hne Hni]%not_elem_of_cons. rewrite (proj2 (IH (effect l command)) Hni).
      destruct o' as [d c|d p]; cbn [place_of] in Hne.
      * rewrite (has_class_deleted _ _ _ _ _ Hv Ho). split; [tauto|]. intros Hh. split_and!; [done|done|congruence].
      * rewrite (has_qdisc_deleted _ _ _ _ _ Hv Ho). split; [tauto|]. intros Hh. split; [done|congruence].
Qed.

End Objects.

(** ** The queues of a circuit *)

Section Circuits.
  Context (config : Config) (isp internet : rstring).
  Context (Hisp : isp_interface config = Ok isp) (Hinternet : internet_interface config = Ok internet).
  Context (Hshape : is_observe (queue_mode (queues config)) = false) (Hlazy : lazy_enabled config = true).

Definition down_place (c : AddCircuitCommand) : rstring * rstring :=
  (isp, class_id_text (ac_class_major c) (ac_class_minor c)).
Definition up_place (c : AddCircuitCommand) : rstring * rstring :=
  (internet, class_id_text (ac_up_class_major c) (ac_class_minor c)).

(** The leaf qdiscs of a circuit. *)
Definition leaf_objects (c : AddCircuitCommand) : list tc_object :=
  let '(down_override_opt, up_override_opt) := directional_override (ac_sqm_override c) in
  (if negb (is_none_token down_override_opt) then [QdiscObject (down_place c).1 (down_place c).2] else [])
  ++ (if negb (on_a_stick_mode config) && negb (is_none_token up_override_opt)
      then [QdiscObject (up_place c).1 (up_place c).2] else []).

Definition class_objects (c : AddCircuitCommand) : list tc_object :=
  [ClassObject (down_place c).1 (down_place c).2; ClassObject (up_place c).1 (up_place c).2].

Lemma leaf_objects_place c o : o ∈ leaf_objects c -> exists dev parent,
  o = QdiscObject dev parent /\ ((dev, parent) = down_place c \/ (dev, parent) = up_place c).
Proof.
  unfold leaf_objects. destruct (directional_override _) as [down up]. rewrite elem_of_app.
  intros [Ho|Ho]; destruct (_ : bool) in Ho; try by apply not_elem_of_nil in Ho.
  all: apply list_elem_of_singleton in Ho as ->; eexists _, _; split; [done|]; rewrite <- !surjective_pairing; tauto.
Qed.

Lemma creates_if (b : bool) command o :
  creates command o -> Forall2 creates (if b then [command] else []) (if b then [o] else []).
Proof. intros Hc. destruct b; repeat constructor; apply Hc. Qed.
Lemma deletes_if (b : bool) command o :
  deletes command o -> Forall2 deletes (if b then [command] else []) (if b then [o] else []).
Proof. intros Hc. destruct b; repeat constructor; apply Hc. Qed.

(** The objects of [add_circuit] in the order in which it makes them. *)
Definition built_objects (work : bool * bool) (c : AddCircuitCommand) : list tc_object :=
  let '(down_override_opt, up_override_opt) := directional_override (ac_sqm_override c) in
  (if work.1 then [ClassObject (down_place c).1 (down_place c).2] else [])
  ++ (if work.2 && negb (is_none_token down_override_opt)
      then [QdiscObject (down_place c).1 (down_place c).2] else [])
  ++ (if work.1 then [ClassObject (up_place c).1 (up_place c).2] else [])
  ++ (if work.2 && negb (on_a_stick_mode config) && negb (is_none_token up_override_opt)
      then [QdiscObject (up_place c).1 (up_place c).2] else []).

Lemma add_circuit_objects mode c :
  exists commands, add_circuit mode config c = Ok (Some commands)
    /\ Forall2 creates commands (built_objects (circuit_work mode (lazy_queues (queues config))) c).
Proof.
  unfold add_circuit, built_objects. rewrite Hshape. destruct (circuit_work _ _) as [htb sqm]. cbn [fst snd].
  destruct (directional_override (ac_sqm_override c)) as [down up].
  rewrite !(push_if_ok _ _ _ _ Hisp), !(push_if_ok _ _ _ _ Hinternet). eexists. split; [done|].
  repeat apply Forall2_app; apply creates_if; (split; [done|]); apply object_of_htb || apply object_of_sqm.
Qed.

Lemma activation_objects c :
  exists commands objects, activation_commands config (AddCircuit c) = Ok (Some commands)
    /\ Forall2 creates commands objects
    /\ forall dev parent, QdiscObject dev parent ∈ objects <-> QdiscObject dev parent ∈ leaf_objects c.
Proof.
  destruct (add_circuit_objects Builder c) as (builder & Hb & Hbo).
  destruct (add_circuit_objects LiveUpdate c) as (live & Hl & Hlo).
  unfold activation_commands, created_commands. cbn [to_commands]. rewrite Hb, Hl. cbn [mbind result_bind fst snd default].
  unfold lazy_enabled in Hlazy. revert Hbo Hlo. unfold built_objects, leaf_objects.
  destruct (directional_override _) as [down up], (lazy_queues (queues config)) as [[]|]; try done; cbn [circuit_work fst snd].
  - intros Hbo Hlo. pose proof (Forall2_length _ _ _ Hbo) as Hlen. destruct builder; [done|].
    eexists _, _. split; [done|]. split; [by apply Forall2_app|]. intros dev parent.
    destruct (is_none_token down), (is_none_token up), (on_a_stick_mode config); cbn; set_solver.
  - intros _ Hlo. eexists _, _. split; [done|]. split; [exact Hlo|]. intros dev parent.
    destruct (is_none_token down), (is_none_token up), (on_a_stick_mode config); cbn; set_solver.
Qed.

(** The deletions of an expired circuit. *)
Lemma prune_objects c :
  (get_major_minor (ac_parent_class_id c)).1 = ac_class_major c ->
  (get_major_minor (ac_up_parent_class_id c)).1 = ac_up_class_major c ->
  exists commands objects, to_prune config false (AddCircuit c) = Ok (Some commands)
    /\ Forall2 deletes commands objects /\ (forall o, o ∈ leaf_objects c -> o ∈ objects)
    /\ forall o, o ∈ objects -> place_of o = down_place c \/ place_of o = up_place c.
Proof.
  intros Hd Hu. unfold to_prune. unfold lazy_enabled in Hlazy.
  assert (exists htb, prune_work false (lazy_queues (queues config)) = Some (htb, true)) as [htb ->]
    by (destruct (lazy_queues (queues config)) as [[]|]; cbn; eauto; done).
  unfold leaf_objects. destruct (directional_override (ac_sqm_override c)) as [down up].
  rewrite !(push_if_ok _ _ _ _ Hisp), !(push_if_ok _ _ _ _ Hinternet).
  exists ((if true && negb (is_none_token up) && negb (on_a_stick_mode config)
           then [qdisc_del_command internet (class_id_text (ac_up_class_major c) (ac_class_minor c))] else [])
    ++ (if true && negb (is_none_token down)
        then [qdisc_del_command isp (class_id_text (ac_class_major c) (ac_class_minor c))] else [])
    ++ (if htb then [class_del_command isp (ac_parent_class_id c) (ac_class_minor c)] else [])
    ++ (if htb then [class_del_command internet (ac_up_parent_class_id c) (ac_class_minor c)] else [])).
  eexists. split; [done|]. split.
  { repeat apply Forall2_app; apply deletes_if; (split; [done|]); apply object_of_qdisc_del || apply object_of_class_del. }
  rewrite Hd, Hu. split.
  - intros o. destruct (is_none_token down), (is_none_token up), (on_a_stick_mode config); cbn; set_solver.
  - apply Forall_forall. destruct (is_none_token down), (is_none_token up), (on_a_stick_mode config), htb; cbn;
      repeat (apply Forall_cons; split; [by (left + right)|]); by apply Forall_nil.
Qed.
End Circuits.

(** ** Words of deletions *)

Lemma push_if_words cond interface command commands :
  push_if cond interface command = Ok commands -> (forall i, interface = Ok i -> word_ok i) ->
  (forall i, word_ok i -> command_ok (command i)) -> Forall command_ok commands.
Proof.
  unfold push_if. destruct cond; [|intros [= <-]; constructor].
  intros (i & Hi & [= <-])%result_bind_Ok Hw Hc. repeat constructor; apply Hc; eauto.
Qed.

Lemma to_prune_ok config force command commands :
  config_words config -> to_prune config force command = Ok (Some commands) -> Forall command_ok commands.
Proof.
  intros Hconfig. pose proof (isp_word _ Hconfig) as Hi. pose proof (internet_word _ Hconfig) as Hn.
  unfold to_prune. destruct command; try done. destruct (prune_work _ _) as [[htb sqm]|]; [|done].
  destruct (directional_override _) as [down up].
  intros (c1 & H1 & (c2 & H2 & (c3 & H3 & (c4 & H4 & [= <-])%result_bind_Ok)%result_bind_Ok)%result_bind_Ok)%result_bind_Ok.
  rewrite !Forall_app. split_and!; (eapply push_if_words; [eassumption|assumption|]);
    intros i Hw; (split; [done|]); unfold qdisc_del_command, class_del_command; words.
Qed.

Lemma activation_commands_ok config command commands :
  config_words config -> activation_commands config command = Ok (Some commands) -> Forall command_ok commands.
Proof.
  intros Hconfig. unfold activation_commands, created_commands.
  assert (forall mode planned, to_commands config mode true command = Ok planned ->
    Forall command_ok (default [] planned.1)) as Hc.
  { intros mode [planned created] Hp. by eapply to_commands_ok. }
  destruct (lazy_queues (queues config)) as [[]|].
  all: try (intros (planned & Hp & [= Heq])%result_bind_Ok; apply Hc in Hp; by rewrite Heq in Hp).
  intros (b & (planned & Hp & [= <-])%result_bind_Ok & (live & (planned' & Hp' & [= <-])%result_bind_Ok & Hend)%result_bind_Ok)%result_bind_Ok.
  destruct (is_nil _); simplify_eq. apply Forall_app. split; by eapply Hc.
Qed.

(** ** The loops *)

Section LazyLoops.
  Context {W L : Type} `{TcLive W L, TcObjects L, !TcObjectLaws W L}.
  Context (config : Config) (isp internet : rstring).
  Context (Hisp : isp_interface config = Ok isp) (Hinternet : internet_interface config = Ok internet).
  Context (Hshape : is_observe (queue_mode (queues config)) = false) (Hlazy : lazy_enabled config = true).
  Context (Hwords : config_words config).

(** Circuits as the planner places them: every one has classes of its own, below parents of the same queue. *)
Record circuits_placed (circuits : gmap Z BakeryCommands) : Prop := {
  only_circuits : forall hash command, circuits !! hash = Some command -> exists c, command = AddCircuit c
    /\ (get_major_minor (ac_parent_class_id c)).1 = ac_class_major c
    /\ (get_major_minor (ac_up_parent_class_id c)).1 = ac_up_class_major c;
  own_places : forall hash hash' c c' place,
    circuits !! hash = Some (AddCircuit c) -> circuits !! hash' = Some (AddCircuit c') ->
    place = down_place isp c \/ place = up_place internet c ->
    place = down_place isp c' \/ place = up_place internet c' -> hash = hash'
}.

(** The leaf qdiscs that are live are those of the activated circuits. *)
Definition lazy_exact (circuits : gmap Z BakeryCommands) (activated : gmap Z Z) (l : L) : Prop :=
  forall hash c o, circuits !! hash = Some (AddCircuit c) -> o ∈ leaf_objects config isp internet c ->
    has l o <-> is_Some (activated !! hash).

Context (circuits : gmap Z BakeryCommands) (Hplaced : circuits_placed circuits).

Lemma activate_exact hash c now activated l commands :
  circuits !! hash = Some (AddCircuit c) -> lazy_exact circuits activated l ->
  activation_commands config (AddCircuit c) = Ok (Some commands) ->
  lazy_exact circuits (<[hash := now]> activated) (foldl effect l commands).
Proof.
  intros Hc Hex Hact. destruct (activation_objects config isp internet Hisp Hinternet Hshape Hlazy c)
    as (commands' & objects & Hact' & Hcr & Hobj).
  rewrite Hact in Hact'. injection Hact' as <-. intros hash' c' o Hc' Ho.
  destruct (leaf_objects_place config isp internet c' o Ho) as (dev & parent & -> & Hp).
  rewrite (created_objects _ _ _ _ Hcr), Hobj, lookup_insert. case_decide as Hd.
  - subst hash'. simplify_eq. split; [by eexists|]. tauto.
  - rewrite (Hex hash' c' _ Hc' Ho). split; [|tauto]. intros [?|Hin]; [done|]. exfalso. apply Hd.
    destruct (leaf_objects_place config isp internet c _ Hin) as (dev' & parent' & [= <- <-] & Hp').
    by eapply (own_places _ Hplaced).
Qed.

(** What an activity at [now] does to the entry of a circuit. *)
Definition after_activity (ids : list Z) (now : Z) (hash : Z) (last : option Z) : option Z :=
  if bool_decide (hash ∈ ids) && (bool_decide (is_Some last) || bool_decide (is_Some (circuits !! hash)))
  then Some now else last.

Lemma after_activity_cons id ids now (activated : gmap Z Z) hash :
  is_Some (activated !! id) \/ is_Some (circuits !! id) ->
  after_activity ids now hash (<[id := now]> activated !! hash) = after_activity (id :: ids) now hash (activated !! hash).
Proof.
  intros Hid. unfold after_activity. rewrite lookup_insert. destruct (decide (id = hash)) as [->|Hne].
  - rewrite (bool_decide_true (hash ∈ hash :: ids)) by left.
    rewrite (bool_decide_true (is_Some (Some now))) by done. rewrite orb_true_l, andb_true_r, andb_true_l.
    assert (bool_decide (is_Some (activated !! hash)) || bool_decide (is_Some (circuits !! hash)) = true) as ->
      by (apply orb_true_iff; rewrite !bool_decide_eq_true; done).
    by case_bool_decide.
  - by rewrite (bool_decide_ext (hash ∈ id :: ids) (hash ∈ ids)) by (rewrite elem_of_cons; intuition congruence).
Qed.

Lemma activity_loop_exact now ids : forall activated commands activated' commands',
  activity_loop config now circuits ids activated commands = Ok (activated', commands') ->
  exists new, commands' = commands ++ new /\ Forall command_ok new
    /\ (forall l, lazy_exact circuits activated l -> lazy_exact circuits activated' (foldl effect l new))
    /\ forall hash, activated' !! hash = after_activity ids now hash (activated !! hash).
Proof.
  induction ids as [|id ids IH]; intros activated commands activated' commands'; cbn [activity_loop].
  { intros [= <- <-]. exists []. by rewrite app_nil_r. }
  destruct (activated !! id) as [t|] eqn:Hid; [|destruct (circuits !! id) as [command|] eqn:Hcirc].
  - intros (new & -> & Hok & Hex & Hlook)%IH. exists new. split_and!; [done|done| |].
    + intros l Hl. apply Hex. intros hash c o Hc Ho. rewrite (Hl hash c o Hc Ho), lookup_insert. case_decide; [|done].
      subst. by rewrite Hid.
    + intros hash. rewrite Hlook. apply after_activity_cons. left. by rewrite Hid.
  - intros (cmd & Hact & Hrest)%result_bind_Ok. destruct (only_circuits _ Hplaced _ _ Hcirc) as (c & -> & _).
    destruct cmd as [cmd|].
    + apply IH in Hrest as (new & -> & Hok & Hex & Hlook). exists (cmd ++ new). split_and!.
      * by rewrite app_assoc.
      * apply Forall_app. split; [by eapply activation_commands_ok|done].
      * intros l Hl. rewrite foldl_app. apply Hex. by eapply activate_exact.
      * intros hash. rewrite Hlook. apply after_activity_cons. right. by rewrite Hcirc.
    + destruct (activation_objects config isp internet Hisp Hinternet Hshape Hlazy c) as (? & ? & Hact' & _). congruence.
  - intros (new & -> & Hok & Hex & Hlook)%IH. exists new. split_and!; [done..|]. intros hash. rewrite Hlook.
    unfold after_activity. destruct (decide (hash = id)) as [->|Hne].
    + rewrite Hid, Hcirc, (bool_decide_false (is_Some None)), andb_false_r by (by intros []). by rewrite andb_false_r.
    + by rewrite (bool_decide_ext (hash ∈ id :: ids) (hash ∈ ids)) by (rewrite elem_of_cons; intuition congruence).
Qed.

Lemma expire_exact hash c activated l commands :
  circuits !! hash = Some (AddCircuit c) -> lazy_exact circuits activated l ->
  to_prune config false (AddCircuit c) = Ok (Some commands) ->
  lazy_exact circuits (delete hash activated) (foldl effect l commands).
Proof.
  intros Hc Hex Hprune. destruct (only_circuits _ Hplaced _ _ Hc) as (c1 & [= <-] & Hd & Hu).
  destruct (prune_objects config isp internet Hisp Hinternet Hshape Hlazy c Hd Hu)
    as (commands' & objects & Hprune' & Hdel & Hall & Hplaces).
  rewrite Hprune in Hprune'. injection Hprune' as <-. intros hash' c' o Hc' Ho.
  destruct (leaf_objects_place config isp internet c' o Ho) as (dev & parent & -> & Hp).
  destruct (deleted_leaves commands objects dev parent l Hdel) as [Hgone Hkept].
  rewrite lookup_delete. case_decide as Hid.
  - subst hash'. simplify_eq. split; [intros Hh; by apply Hgone in Hh; [|apply Hall]|by intros []].
  - rewrite Hkept; [by apply (Hex hash' c')|]. intros (o' & Heq & Hin)%list_elem_of_In%in_map_iff.
    apply Hid. eapply (own_places _ Hplaced); [done..| |exact Hp]. rewrite <- Heq. apply Hplaces.
    by apply list_elem_of_In.
Qed.

(** What an expiry of [to_destroy] does to the entry of a circuit. *)
Definition after_expiry (to_destroy : list Z) (hash : Z) (last : option Z) : option Z :=
  if bool_decide (hash ∈ to_destroy) && bool_decide (is_Some (circuits !! hash)) then None else last.

Lemma after_expiry_cons id ids hash (activated : gmap Z Z) :
  after_expiry (id :: ids) hash (activated !! hash)
  = after_expiry ids hash ((if bool_decide (is_Some (circuits !! id)) then delete id activated else activated) !! hash).
Proof.
  unfold after_expiry. destruct (decide (hash = id)) as [->|Hne].
  - rewrite (bool_decide_true (id ∈ id :: ids)) by left.
    destruct (bool_decide (is_Some (circuits !! id))); [|by rewrite !andb_false_r].
    rewrite lookup_delete_eq. by case_bool_decide.
  - rewrite (bool_decide_ext (hash ∈ id :: ids) (hash ∈ ids)) by (rewrite elem_of_cons; intuition congruence).
    destruct (bool_decide (is_Some (circuits !! id))); [|done]. by rewrite lookup_delete_ne.
Qed.

Lemma expiry_loop_exact ids : forall activated commands activated' commands',
  expiry_loop config circuits ids activated commands = Ok (activated', commands') ->
  exists new, commands' = commands ++ new /\ Forall command_ok new
    /\ (forall l, lazy_exact circuits activated l -> lazy_exact circuits activated' (foldl effect l new))
    /\ forall hash, activated' !! hash = after_expiry ids hash (activated !! hash).
Proof.
  induction ids as [|id ids IH]; intros activated commands activated' commands'; cbn [expiry_loop].
  { intros [= <- <-]. exists []. by rewrite app_nil_r. }
  destruct (circuits !! id) as [command|] eqn:Hcirc.
  - intros (cmd & Hprune & Hrest)%result_bind_Ok. destruct (only_circuits _ Hplaced _ _ Hcirc) as (c & -> & Hd & Hu).
    destruct (prune_objects config isp internet Hisp Hinternet Hshape Hlazy c Hd Hu) as (cmd' & objects & Hprune' & _).
    rewrite Hprune in Hprune'. injection Hprune' as ->.
    apply IH in Hrest as (new & -> & Hok & Hex & Hlook). exists (cmd' ++ new). split_and!.
    + by rewrite app_assoc.
    + apply Forall_app. split; [by eapply to_prune_ok|done].
    + intros l Hl. rewrite foldl_app. apply Hex. by eapply expire_exact.
    + intros hash. by rewrite Hlook, after_expiry_cons, Hcirc, bool_decide_true by done.
  - intros (new & -> & Hok & Hex & Hlook)%IH. exists new. split_and!; [done..|]. intros hash.
    rewrite Hlook, after_expiry_cons, Hcirc, bool_decide_false; [done|by intros []].
Qed.
End LazyLoops.

(** ** Runs *)

(** Removing the file of a test fault does not touch the queues. *)
Class FaultLaws (W L : Type) `{TcLive W L, FaultHost W} : Prop :=
  remove_fault_live : forall w, live (remove_fault_file w) = live w.

Inductive lazy_event : Type := Lazy_activity (circuit_ids : list Z) | Lazy_tick.

Section LazyRuns.
  Context {W L : Type} `{TcHost W, TcLive W L, !TcHostLaws W L, ReloadHost W, FaultHost W, !FaultLaws W L}.
  Context `{TcObjects L, !TcObjectLaws W L}.
  Context (config : Config) (isp internet : rstring).
  Context (Hisp : isp_interface config = Ok isp) (Hinternet : internet_interface config = Ok internet).
  Context (Hshape : is_observe (queue_mode (queues config)) = false) (Hlazy : lazy_enabled config = true).
  Context (Hwords : config_words config).
  Context (iter : gmap Z Z -> list (Z * Z)) (Hiter : forall m, iter m ≡ₚ map_to_list m).

(** The last change that was run is recorded as failed. *)
Definition last_change_failed (t : BakeryTelemetryState) : Prop :=
  exists entry, head (tel_activity t) = Some entry /\ activity_event entry = str "apply_failed".

Lemma finished_event ts m t :
  metrics_ok m = false -> last_change_failed (mark_bakery_action_finished ts m t).
Proof.
  intros Hok. unfold mark_bakery_action_finished. rewrite Hok. unfold last_change_failed.
  cbn [push_bakery_event push_bakery_event_with_site_name with_activity tel_activity take head BAKERY_EVENT_LIMIT].
  by eexists.
Qed.

Lemma live_change_outcome w t commands purpose r t' w' :
  Forall command_ok commands -> execute_and_record_live_change w t commands purpose = (r, t', w') ->
  if exec_ok r then live w' = foldl effect (live w) commands else last_change_failed t'.
Proof.
  intros Hok. unfold execute_and_record_live_change. destruct (consume_test_fault_once w purpose) as [fault w1] eqn:Hf.
  assert (live w1 = live w) as Hl1.
  { revert Hf. unfold consume_test_fault_once. repeat case_match; intros; simplify_eq; done || apply remove_fault_live. }
  destruct fault as [summary|].
  - intros [= <- <- <-]. cbn [exec_ok]. apply finished_event. unfold live_change_metrics.
    by destruct (count_tc_command_types commands) as [[??]?].
  - destruct (execute_in_memory w1 commands purpose) as [r' w2] eqn:He. intros [= <- <- <-].
    destruct (exec_ok r') eqn:Hr.
    + rewrite <- Hl1. by apply (execute_in_memory_live _ _ _ _ _ Hok He).
    + apply finished_event. unfold live_change_metrics. by destruct (count_tc_command_types commands) as [[??]?].
Qed.

Lemma run_live_change_outcome w s commands purpose s' w' :
  Forall command_ok commands ->
  (if is_nil commands then (s, w) else run_live_change w s commands purpose) = (s', w') ->
  bs_tree s' = bs_tree s /\ bs_flags s' = bs_flags s
  /\ (live w' = foldl effect (live w) commands \/ last_change_failed (bs_telemetry s')).
Proof.
  intros Hok. destruct (is_nil commands) eqn:Hnil.
  - intros [= <- <-]. destruct commands; [|done]. by split_and!; [..|left].
  - unfold run_live_change. destruct (execute_and_record_live_change _ _ _ _) as [[r t] w1] eqn:He. intros [= <- <-].
    apply live_change_outcome in He; [|done]. split_and!; [done|done|]. destruct (exec_ok r); [by left|by right].
Qed.

Definition lazy_handle (w : W) (s : BakeryState) (event : lazy_event) : result Panic (BakeryState * W) :=
  match event with
  | Lazy_activity circuit_ids => handle_circuit_activity w (Ok config) circuit_ids s
  | Lazy_tick => handled ← handle_tick iter w (Ok config) s; let '(s, _, w) := handled in Ok (s, w)
  end.

(** Events with the times at which they are handled, where no change fails; between two of them nothing else
    touches the queues. *)
Inductive lazy_run : BakeryState -> W -> list (lazy_event * Z) -> BakeryState -> W -> Prop :=
| lazy_run_nil s w : lazy_run s w [] s w
| lazy_run_step s w event now w1 s2 w2 events s' w' :
    live w1 = live w -> unix_time w1 = now -> lazy_handle w1 s event = Ok (s2, w2) ->
    ~ last_change_failed (bs_telemetry s2) ->
    lazy_run s2 w2 events s' w' -> lazy_run s w ((event, now) :: events) s' w'.

(** The clock never steps back from [start] on, and fits 64 bits. *)
Fixpoint clock_runs (start : Z) (events : list (lazy_event * Z)) : Prop :=
  match events with
  | [] => True
  | (_, now) :: events => start <= now < 2 ^ 64 /\ clock_runs now events
  end.
(** Times that have been. *)
Definition times_before (now : Z) (activated : gmap Z Z) : Prop :=
  forall hash t, activated !! hash = Some t -> 0 <= t <= now.

(** The time of the last activity of a circuit, [None] before the first one and after it expired: at the first tick
    more than the configured age (ten minutes by default, never for zero) after it. *)
Definition activity_log (circuits : gmap Z BakeryCommands) (hash : Z) (last : option Z) (event : lazy_event * Z)
    : option Z :=
  match event with
  | (Lazy_activity ids, now) => after_activity circuits ids now hash last
  | (Lazy_tick, now) =>
      let max_age := default 600 (lazy_expire_seconds (queues config)) in
      match last with
      | Some t => if negb (max_age =? 0) && (t + max_age <? now) && bool_decide (is_Some (circuits !! hash))
                  then None else Some t
      | None => None
      end
  end.

Lemma lazy_expired_before now max_age t : 0 <= t <= now -> now < 2 ^ 64 -> lazy_expired now max_age t = (t + max_age <? now).
Proof.
  intros Ht Hnow. unfold lazy_expired. rewrite Z.mod_small by lia.
  destruct (Z.ltb_spec max_age (now - t)), (Z.ltb_spec (t + max_age) now); lia || done.
Qed.

Lemma log_times circuits hash last event now :
  (forall t, last = Some t -> 0 <= t <= now) -> 0 <= now ->
  forall t, activity_log circuits hash last (event, now) = Some t -> 0 <= t <= now.
Proof.
  intros Hlast Hnow t. destruct event; cbn [activity_log]; unfold after_activity; repeat case_match; intros; simplify_eq; try lia; by auto.
Qed.

Lemma expired_entries (m : gmap Z Z) now max_age hash :
  hash ∈ map fst (List.filter (fun entry => lazy_expired now max_age entry.2) (iter m))
  <-> exists t, m !! hash = Some t /\ lazy_expired now max_age t = true.
Proof.
  rewrite list_elem_of_In, in_map_iff. setoid_rewrite filter_In. split.
  - intros ([h t] & <- & Hin & Hexp). exists t. split; [|done]. apply elem_of_map_to_list. rewrite <- (Hiter m).
    by apply list_elem_of_In.
  - intros (t & Hm & Hexp). exists (hash, t). split_and!; [done| |done]. apply list_elem_of_In. rewrite (Hiter m).
    by apply elem_of_map_to_list.
Qed.

Lemma lazy_handle_exact w s event s' w' :
  circuits_placed isp internet (tree_circuits (bs_tree s)) ->
  mq_created (bs_flags s) = true -> first_commit_applied (bs_flags s) = true ->
  lazy_exact config isp internet (tree_circuits (bs_tree s)) (tree_live_circuits (bs_tree s)) (live w) ->
  times_before (unix_time w) (tree_live_circuits (bs_tree s)) -> unix_time w < 2 ^ 64 ->
  lazy_handle w s event = Ok (s', w') -> ~ last_change_failed (bs_telemetry s') ->
  bs_flags s' = bs_flags s /\ tree_circuits (bs_tree s') = tree_circuits (bs_tree s)
  /\ lazy_exact config isp internet (tree_circuits (bs_tree s)) (tree_live_circuits (bs_tree s')) (live w')
  /\ forall hash, tree_live_circuits (bs_tree s') !! hash
       = activity_log (tree_circuits (bs_tree s)) hash (tree_live_circuits (bs_tree s) !! hash) (event, unix_time w).
Proof.
  intros Hplaced Hmq Hfirst Hex Htimes Hclock Hh Hnf. destruct event as [ids|]; cbn [lazy_handle activity_log] in *.
  - revert Hh. unfold handle_circuit_activity. rewrite Hlazy, Hmq, Hfirst. cbn [negb orb].
    intros ([activated commands] & Hloop & [= Hrun])%result_bind_Ok.
    apply (activity_loop_exact config isp internet Hisp Hinternet Hshape Hlazy Hwords _ Hplaced) in Hloop
      as (new & -> & Hok & Hstep & Hlook). cbn [app] in Hrun.
    apply run_live_change_outcome in Hrun as (Ht & Hfl & [Hl|Hf]); [|by destruct Hnf|done].
    rewrite Ht, Hl. split_and!; [done|done|by apply Hstep|exact Hlook].
  - revert Hh. intros ([[s1 active] w1] & Htick & [= -> ->])%result_bind_Ok. revert Htick.
    unfold handle_tick. rewrite Hlazy. cbn [negb]. destruct (_ =? 0) eqn:Hage.
    { intros [= <- _ <-]. split_and!; [done|done|done|]. intros hash. by case_match. }
    intros ([activated commands] & Hloop & Hrun)%result_bind_Ok.
    apply (expiry_loop_exact config isp internet Hisp Hinternet Hshape Hlazy Hwords _ Hplaced) in Hloop
      as (new & -> & Hok & Hstep & Hlook). cbn [app] in Hrun.
    destruct (if is_nil new then _ else _) as [s2 w2] eqn:Hrun'. injection Hrun as <- _ <-.
    apply run_live_change_outcome in Hrun' as (Ht & Hfl & [Hl|Hf]); [|by destruct Hnf|done].
    rewrite Ht, Hl. split_and!; [done|done|by apply Hstep|]. intros hash. cbn [with_live_circuits bs_tree tree_live_circuits].
    rewrite Hlook. unfold after_expiry. pose proof (expired_entries (tree_live_circuits (bs_tree s)) (unix_time w)
      (default 600 (lazy_expire_seconds (queues config))) hash) as Hin.
    destruct (tree_live_circuits (bs_tree s) !! hash) as [t|] eqn:Hm; cbn [negb andb]; [|by case_match].
    rewrite <- (lazy_expired_before _ _ _ (Htimes hash t Hm) Hclock).
    destruct (lazy_expired _ _ t) eqn:Hexp; [by rewrite bool_decide_true by (apply Hin; eauto)|].
    rewrite bool_decide_false; [done|]. rewrite Hin. intros (t' & [= <-] & ?). congruence.
Qed.

(** C8: Lazy queues follow the activity of the circuits.  After any activities and ticks, with no change reported
    as failed and a clock that does not step back ([clock_step_back_expires] shows what happens then), the Bakery
    keeps for every circuit exactly the time of its last activity that has not expired, and the leaf qdiscs of a
    circuit are live exactly when it has one.  A circuit is forgotten at the first tick more than the configured
    age after its last activity. *)
Theorem lazy_queues_follow_activity s w events s' w' start :
  circuits_placed isp internet (tree_circuits (bs_tree s)) ->
  mq_created (bs_flags s) = true -> first_commit_applied (bs_flags s) = true ->
  lazy_exact config isp internet (tree_circuits (bs_tree s)) (tree_live_circuits (bs_tree s)) (live w) ->
  0 <= start -> times_before start (tree_live_circuits (bs_tree s)) -> clock_runs start events ->
  lazy_run s w events s' w' ->
  lazy_exact config isp internet (tree_circuits (bs_tree s)) (tree_live_circuits (bs_tree s')) (live w')
  /\ forall hash, tree_live_circuits (bs_tree s') !! hash
       = foldl (activity_log (tree_circuits (bs_tree s)) hash) (tree_live_circuits (bs_tree s) !! hash) events.
Proof.
  intros Hplaced Hmq Hfirst Hex Hstart Htimes Hclock Hrun. revert start Hstart Htimes Hclock.
  induction Hrun as [s w|s w event now w1 s2 w2 events s' w' Hl <- Hh Hnf _ IH]; [done|].
  cbn [clock_runs]. intros start Hstart Htimes [Hnow Hclock]. rewrite <- Hl in Hex.
  assert (times_before (unix_time w1) (tree_live_circuits (bs_tree s))) as Hbefore.
  { intros hash t Ht. specialize (Htimes hash t Ht). lia. }
  destruct (lazy_handle_exact w1 s event s2 w2 Hplaced Hmq Hfirst Hex Hbefore ltac:(lia) Hh Hnf) as (Hfl & Hc & Hex2 & Hlog).
  rewrite Hc, Hfl in IH. destruct (IH Hplaced Hmq Hfirst Hex2 (unix_time w1)) as [Hend Hfold]; [lia| |done|].
  { intros hash t. rewrite Hlog. apply log_times; [apply Hbefore|lia]. }
  split; [done|]. intros hash. by rewrite Hfold, Hlog.
Qed.
End LazyRuns.

(** ** A host whose objects can be asked for *)

#[export] Instance tc_object_eq_dec : EqDecision tc_object.
Proof. solve_decision. Defined.

Definition toy_object_step (o : tc_object) (present : bool) (command : argv) : bool :=
  match verb_of command, object_of command with
  | Some verb, Some o' =>
      if bool_decide (verb = str "replace") then present || bool_decide (o = o')
      else if bool_decide (verb = str "del") then
        present && negb (bool_decide (o = o'))
        && match o' with ClassObject dev classid => negb (bool_decide (o = QdiscObject dev classid)) | _ => true end
      else present
  | _, _ => present
  end.
#[export] Instance toy_objects : TcObjects (list argv) :=
  fun log o => foldl (toy_object_step o) false log = true.

#[export] Instance toy_object_laws : TcObjectLaws ReloadToy (list argv).
Proof.
  assert (forall l command o, has (effect (W := ReloadToy) l command) o
    <-> toy_object_step o (foldl (toy_object_step o) false l) command = true) as Heff.
  { intros l command o. unfold has, toy_objects. change (effect l command) with (l ++ [command]). by rewrite foldl_snoc. }
  assert (bool_decide (str "del" = str "replace") = false) as Hne by (by vm_compute).
  split; intros l command.
  - intros o o' Hv Ho. rewrite Heff. unfold toy_object_step. rewrite Hv, Ho, bool_decide_true by done.
    by rewrite orb_true_iff, bool_decide_eq_true.
  - intros dev parent o' Hv Ho. rewrite Heff. unfold toy_object_step. rewrite Hv, Ho, Hne, bool_decide_true by done.
    by rewrite andb_true_r, andb_true_iff, negb_true_iff, bool_decide_eq_false.
  - intros dev classid o' Hv Ho. rewrite Heff. unfold toy_object_step. rewrite Hv, Ho, Hne, bool_decide_true by done.
    rewrite !andb_true_iff, !negb_true_iff, !bool_decide_eq_false. unfold has, toy_objects. tauto.
Qed.

#[export] Instance reload_toy_fault : FaultHost ReloadToy := { fault_file _ := None; remove_fault_file w := w }.
#[export] Instance reload_toy_fault_laws : FaultLaws ReloadToy (list argv).
Proof. done. Qed.

Definition lazy_example_config : Config :=
  mkConfig (mkQueueConfig (str "cake diffserv4") Shape 4 4 4 4 false false None false (Some Lazy_Htb) None None None)
    (Some (mkBridgeConfig true (str "eth0") (str "eth1") None)) None None.
Definition lazy_example_circuits : gmap Z BakeryCommands :=
  <[7 := AddCircuit (reload_example_circuit 7 5)]> {[-9 := AddCircuit (reload_example_circuit (-9) 6)]}.
Definition lazy_example_state : BakeryState :=
  mkBakeryState (mkTree ∅ lazy_example_circuits ∅ None QdiscHandleState_default) sg_example_flags
    (mkTelemetry Mode_Idle None no_progress (mkLastApply None None None None Apply_None 0 0 0) (mkAlert false None)
       (mkAlert false None) []).
Definition lazy_events : list (lazy_event * Z) :=
  [(Lazy_activity [7], 1000); (Lazy_tick, 1100); (Lazy_activity [-9; 12], 1650); (Lazy_tick, 1700)].

Definition change_failed (t : BakeryTelemetryState) : bool :=
  match tel_activity t with entry :: _ => bool_decide (activity_event entry = str "apply_failed") | [] => false end.

(** Events handled one after the other on a host whose clock is set, as long as no change fails. *)
Fixpoint lazy_handle_all (s : BakeryState) (w : ReloadToy) (events : list (lazy_event * Z))
    : result Panic (BakeryState * ReloadToy) :=
  match events with
  | [] => Ok (s, w)
  | (event, now) :: events =>
      handled ← lazy_handle lazy_example_config map_to_list (mkReloadToy (reload_toy w) (toy_bypass w) now) s event;
      let '(s, w) := handled in
      if change_failed (bs_telemetry s) then Err (Panicked []) else lazy_handle_all s w events
  end.

Lemma lazy_handle_all_run events : forall s w s' w',
  lazy_handle_all s w events = Ok (s', w') -> lazy_run (L := list argv) lazy_example_config map_to_list s w events s' w'.
Proof.
  induction events as [|[event now] events IH]; intros s w s' w'; cbn [lazy_handle_all].
  { intros [= <- <-]. constructor. }
  intros ([s2 w2] & Hh & Hrest)%result_bind_Ok. destruct (change_failed _) eqn:Hf; [done|].
  eapply lazy_run_step; [..|by apply IH]; [| |exact Hh|]; [done|done|].
  intros (entry & Hhead & Hev). unfold change_failed in Hf. destruct (tel_activity _); simplify_eq/=.
  by rewrite bool_decide_true in Hf by done.
Qed.

Lemma lazy_example_words : config_words lazy_example_config.
Proof.
  split; [intros i [= <-]; word_literal..|]. unfold sqm_as_vec. repeat constructor; by vm_compute.
Qed.

Lemma lazy_example_lookup hash command :
  lazy_example_circuits !! hash = Some command ->
  (hash, command) ∈ [(7, AddCircuit (reload_example_circuit 7 5)); (-9, AddCircuit (reload_example_circuit (-9) 6))].
Proof.
  unfold lazy_example_circuits. rewrite lookup_insert_Some, lookup_singleton_Some.
  intros [[<- <-]|[_ [<- <-]]]; [left|right; left].
Qed.

Lemma lazy_example_placed : circuits_placed (str "eth1") (str "eth0") lazy_example_circuits.
Proof.
  split.
  - intros hash command Hin%lazy_example_lookup.
    apply elem_of_cons in Hin as [[= -> ->]|[= -> ->]%list_elem_of_singleton]; eexists; by split_and!.
  - intros hash hash' c c' place H1%lazy_example_lookup H2%lazy_example_lookup.
    apply elem_of_cons in H1 as [[= -> ->]|[= -> ->]%list_elem_of_singleton];
      apply elem_of_cons in H2 as [[= -> ->]|[= -> ->]%list_elem_of_singleton]; try done;
      intros [->| ->] [Hp|Hp]; exfalso; vm_compute in Hp; congruence.
Qed.

Definition lazy_example : result Panic (BakeryState * ReloadToy) :=
  lazy_handle_all lazy_example_state (mkReloadToy (mkToyHost [] []) false 0) lazy_events.

(** Circuit 7 is activated and expires, circuit -9 stays. *)
Lemma lazy_queues_follow_activity_witness :
  exists s' w', lazy_example = Ok (s', w')
    /\ tree_live_circuits (bs_tree s') !! 7 = None /\ tree_live_circuits (bs_tree s') !! (-9) = Some 1650
    /\ has (live w') (QdiscObject (str "eth1") (class_id_text 1 6)).
Proof.
  destruct lazy_example as [[s' w']|e] eqn:He; [|by vm_compute in He]. exists s', w'. split; [done|].
  destruct (lazy_queues_follow_activity (W := ReloadToy) (L := list argv) lazy_example_config (str "eth1") (str "eth0")
    eq_refl eq_refl eq_refl eq_refl lazy_example_words map_to_list ltac:(done) lazy_example_state
    (mkReloadToy (mkToyHost [] []) false 0) lazy_events s' w' 0) as [Hex Hlog].
  - apply lazy_example_placed.
  - done.
  - done.
  - intros hash c o _ _. split; [by vm_compute|by intros []].
  - done.
  - intros hash t. unfold lazy_example_state. cbn [bs_tree tree_live_circuits]. rewrite lookup_empty. discriminate.
  - unfold lazy_events. cbn [clock_runs]. lia.
  - by apply lazy_handle_all_run.
  - rewrite !Hlog. split; [by vm_compute|]. split; [by vm_compute|].
    apply (Hex (-9) (reload_example_circuit (-9) 6)); [by vm_compute|by vm_compute; left|].
    rewrite Hlog. exists 1650. by vm_compute.
Defined.

(** ** What a failed activation leaves

    The result of an activation is not looked at: a circuit whose commands were rejected counts as activated,
    and further activity only renews its time, so its queues are not tried again while it has traffic. *)
Lemma failed_activation_is_not_retried :
  exists s1 w1 s2 w2,
    let w := mkReloadToy (mkToyHost [] (replicate 4 true)) false 1000 in
    handle_circuit_activity w (Ok lazy_example_config) [7] lazy_example_state = Ok (s1, w1)
    /\ change_failed (bs_telemetry s1) = true /\ live w1 = live w
    /\ handle_circuit_activity w1 (Ok lazy_example_config) [7] s1 = Ok (s2, w2)
    /\ tree_live_circuits (bs_tree s2) !! 7 = Some 1000 /\ live w2 = live w1.
Proof.
  destruct (handle_circuit_activity (mkReloadToy (mkToyHost [] (replicate 4 true)) false 1000) (Ok lazy_example_config)
    [7] lazy_example_state) as [[s1 w1]|e] eqn:H1; [|by vm_compute in H1].
  destruct (handle_circuit_activity w1 (Ok lazy_example_config) [7] s1) as [[s2 w2]|e] eqn:H2;
    vm_compute in H1; injection H1 as <- <-; vm_compute in H2; [|done]. injection H2 as <- <-.
  eexists _, _, _, _. cbn zeta. split; [by vm_compute|]. split_and!; by vm_compute.
Qed.

(** With lazy queues of the kind [Full] a build creates the classes and the leaf qdiscs of every circuit, as it
    does without lazy queues. *)
Lemma full_mode_builds_everything :
  circuit_work Builder (Some Lazy_Full) = circuit_work Builder None /\ circuit_work Builder None = (true, true).
Proof. done. Qed.

(** A clock that steps back makes the unsigned difference wrap, and the next tick expires the circuit. *)
Lemma clock_step_back_expires now max_age last_activity :
  0 <= now < last_activity -> last_activity < 2 ^ 63 -> max_age < 2 ^ 63 -> lazy_expired now max_age last_activity = true.
Proof.
  intros Hnow Hlast Hage. unfold lazy_expired. apply Z.ltb_lt.
  rewrite <- (Z_mod_plus_full (now - last_activity) 1 (2 ^ 64)), Z.mod_small; lia.
Qed.
