(* ===== verification/BakeryMappings.v ===== *)
(** * IP mappings of the Bakery ([lqos_bakery/src/lib.rs], [bakery_main])

    The classifier finds the class of a packet through a kernel map from addresses to class handles.  The
    Bakery mirrors that map: [mapping_current] is what it believes the kernel holds, [mapping_staged] what
    the batch that runs wants, [mapping_unknown] the keys that were found in the kernel without a circuit.
    A commit deletes what is no longer staged; a live migration moves the addresses of one circuit to
    another class and back when that fails.

    The kernel map is reached through [lqos_sys] ([MapHost]) and, for commits, through the bus ([MapBus]),
    whose replies to deletions are not looked at.  [iter] is the iteration order of [mapping_current]. *)

From S2P Require Import Prelude RustStd RustCollections RustFloat RustFormat ShapedDevice.
From S2P Require Import TcHandle SysIpMapping BakeryCommands BakeryExecute.

Record MappingKey : Type := mkMappingKey { key_ip : rstring; key_prefix : Z }.
#[export] Instance MappingKey_eq_dec : EqDecision MappingKey.
Proof. solve_decision. Defined.
#[export] Instance MappingKey_countable : Countable MappingKey.
Proof.
  refine (inj_countable' (fun k => (key_ip k, key_prefix k)) (fun p => mkMappingKey p.1 p.2) _). by intros [].
Defined.

Record MappingVal : Type := mkMappingVal { map_handle : TcHandle; map_cpu : Z }.

(** The mapping state of [bakery_main]. *)
Record MappingState : Type := mkMappingState {
  mapping_current : gmap MappingKey MappingVal;
  mapping_staged : option (gmap MappingKey MappingVal);
  mapping_unknown : gset MappingKey;
  mapping_seeded : bool
}.
Definition MappingState_default : MappingState := mkMappingState ∅ None ∅ false.

(** What [lqos_sys] does to the kernel map. *)
Class MapHost (W : Type) : Type := {
  add_ip_to_tc : W -> rstring -> TcHandle -> Z -> result rstring unit * W;
  del_ip_from_tc : W -> rstring -> result rstring unit * W;
  clear_hot_cache : W -> result rstring unit * W
}.

(** [lqos_sys] itself: a mapping keeps the circuit and device that its entry had. *)
Definition sys_map_host {W} `{IpMaps W} (rounds : nat) : MapHost W := {|
  add_ip_to_tc w cidr tc_handle cpu := SysIpMapping.add_ip_to_tc w cidr tc_handle cpu false 0 0;
  del_ip_from_tc w cidr := SysIpMapping.del_ip_from_tc rounds w cidr false;
  clear_hot_cache w := SysIpMapping.clear_hot_cache rounds w
|}.

(** An entry of [BusResponse::MappedIps]. *)
Record IpMapping : Type := mkIpMapping {
  ip_address : rstring;
  prefix_length : Z;
  mapped_handle : TcHandle;
  mapped_cpu : Z
}.

(** The bus requests of the mappings: the lists of all replies to [ListIpFlow], and batches of [DelIpFlow]. *)
Class MapBus (W : Type) : Type := {
  list_ip_flow : W -> result rstring (list IpMapping);
  del_ip_flows : W -> list (list rstring) -> W
}.

(** ** Keys *)

Definition parse_ip_and_prefix (ip : rstring) : rstring * Z :=
  let inferred := if contains_str ip (str ":") then (ip, 128) else (ip, 32) in
  match split_once ip 47 with
  | Some (addr, pfx) => match parse_uint (2 ^ 32) pfx with Some n => (addr, n) | None => inferred end
  | None => inferred
  end.

Definition key_of (ip : rstring) : MappingKey := let '(ip, prefix) := parse_ip_and_prefix ip in mkMappingKey ip prefix.

Definition mapping_key_cidr (key : MappingKey) : rstring := key_ip key ++ str "/" ++ u64_to_string (key_prefix key).

(** ** Staging *)

Definition handle_map_ip (ip : rstring) (tc_handle : TcHandle) (cpu : Z) (s : MappingState) : MappingState :=
  mkMappingState (mapping_current s)
    (Some (<[key_of ip := mkMappingVal tc_handle cpu]> (default ∅ (mapping_staged s))))
    (mapping_unknown s) (mapping_seeded s).

Definition handle_del_ip (ip : rstring) (s : MappingState) : MappingState :=
  mkMappingState (delete (key_of ip) (mapping_current s)) (delete (key_of ip) <$> mapping_staged s)
    (mapping_unknown s) (mapping_seeded s).

Definition clear_ip_all (s : MappingState) : MappingState := mkMappingState ∅ None ∅ (mapping_seeded s).

(** ** Moving the addresses of a circuit *)

(** [failures.join("; ")]. *)
Fixpoint join_semicolon (parts : list rstring) : rstring :=
  match parts with
  | [] => []
  | [part] => part
  | part :: rest => part ++ str "; " ++ join_semicolon rest
  end.

(** The errors of [remap_migration_ips]: the address that failed, if it was one, the target, the error, and
    the error of the rollback. *)
Record RemapError : Type := mkRemapError {
  failed_cidr : option rstring;
  remap_target : TcHandle;
  remap_error : rstring;
  rollback_error : option rstring
}.

Definition remap_error_text (e : RemapError) : rstring :=
  let target := as_tc_string (remap_target e) in
  match failed_cidr e with
  | Some cidr =>
      str "failed to remap " ++ cidr ++ str " to " ++ target ++ str ": " ++ remap_error e
      ++ match rollback_error e with
         | Some rollback => str "; rollback also failed: " ++ rollback
         | None => str "; prior remaps were rolled back"
         end
  | None =>
      str "remap to " ++ target ++ str " succeeded but clearing the hot cache failed: " ++ remap_error e
      ++ match rollback_error e with
         | Some rollback => str "; rollback also failed: " ++ rollback
         | None => str "; remaps were rolled back"
         end
  end.

Section Remap.
  Context {W : Type} `{MapHost W}.

(** One step of the rollback, with the failures so far. *)
Definition rollback_step (w : W) (current : gmap MappingKey MappingVal) (failures : list rstring)
    (entry : MappingKey * option MappingVal) : gmap MappingKey MappingVal * list rstring * W :=
  let '(key, previous) := entry in
  let cidr := mapping_key_cidr key in
  match previous with
  | Some value =>
      match add_ip_to_tc w cidr (map_handle value) (map_cpu value) with
      | (Ok _, w) => (<[key := value]> current, failures, w)
      | (Err error, w) => (current, failures ++ [cidr ++ str ": " ++ error], w)
      end
  | None =>
      match del_ip_from_tc w cidr with
      | (Ok _, w) => (delete key current, failures, w)
      | (Err error, w) => (current, failures ++ [cidr ++ str ": " ++ error], w)
      end
  end.

Fixpoint rollback_loop (w : W) (current : gmap MappingKey MappingVal) (failures : list rstring)
    (entries : list (MappingKey * option MappingVal)) : gmap MappingKey MappingVal * list rstring * W :=
  match entries with
  | [] => (current, failures, w)
  | entry :: rest =>
      let '(current, failures, w) := rollback_step w current failures entry in
      rollback_loop w current failures rest
  end.

Definition rollback_migration_ip_remaps (w : W) (remapped : list (MappingKey * option MappingVal))
    (current : gmap MappingKey MappingVal) : result rstring unit * gmap MappingKey MappingVal * W :=
  let '(current, failures, w) := rollback_loop w current [] (rev remapped) in
  let '(cleared, w) := clear_hot_cache w in
  let failures :=
    match cleared with
    | Ok _ => failures
    | Err error => failures ++ [str "clear hot cache after rollback: " ++ error]
    end in
  (match failures with [] => Ok tt | _ => Err (join_semicolon failures) end, current, w).

(** A remap that failed: what was remapped is rolled back. *)
Definition fail_remap (w : W) (cidr : option rstring) (target : TcHandle) (error : rstring)
    (remapped : list (MappingKey * option MappingVal)) (current : gmap MappingKey MappingVal)
    : result RemapError unit * gmap MappingKey MappingVal * W :=
  let '(rolled_back, current, w) := rollback_migration_ip_remaps w remapped current in
  (Err (mkRemapError cidr target error match rolled_back with Ok _ => None | Err e => Some e end), current, w).

Fixpoint remap_loop (w : W) (target : TcHandle) (ips : list rstring)
    (remapped : list (MappingKey * option MappingVal)) (current : gmap MappingKey MappingVal)
    : result RemapError unit * gmap MappingKey MappingVal * W :=
  match ips with
  | [] =>
      match clear_hot_cache w with
      | (Ok _, w) => (Ok tt, current, w)
      | (Err error, w) => fail_remap w None target error remapped current
      end
  | ip :: rest =>
      let key := key_of ip in
      let cidr := mapping_key_cidr key in
      let previous := current !! key in
      let cpu := match previous with Some value => map_cpu value | None => 0 end in
      match add_ip_to_tc w cidr target cpu with
      | (Err error, w) => fail_remap w (Some cidr) target error remapped current
      | (Ok _, w) =>
          remap_loop w target rest (remapped ++ [(key, previous)]) (<[key := mkMappingVal target cpu]> current)
      end
  end.

(** [remap_migration_ips] for a migration with these addresses and class major. *)
Definition remap_migration_ips (w : W) (ips : list rstring) (class_major target_minor : Z)
    (current : gmap MappingKey MappingVal) : result RemapError unit * gmap MappingKey MappingVal * W :=
  remap_loop w (tc_handle_from_major_minor class_major target_minor) ips [] current.

End Remap.

(** ** Seeding and commits *)

Definition build_known_handle_set (circuits : gmap Z BakeryCommands) : gset TcHandle :=
  list_to_set (omap (fun entry =>
    match entry.2 with
    | AddCircuit c => Some (tc_handle_from_major_minor (ac_class_major c) (ac_class_minor c))
    | _ => None
    end) (map_to_list circuits)).

Definition seed_mapping (known : gset TcHandle) (s : MappingState) (m : IpMapping) : MappingState :=
  let key := mkMappingKey (ip_address m) (prefix_length m) in
  mkMappingState (<[key := mkMappingVal (mapped_handle m) (mapped_cpu m)]> (mapping_current s)) (mapping_staged s)
    (if bool_decide (mapped_handle m ∈ known) then mapping_unknown s else {[key]} ∪ mapping_unknown s)
    (mapping_seeded s).

Definition set_seeded (s : MappingState) : MappingState :=
  mkMappingState (mapping_current s) (mapping_staged s) (mapping_unknown s) true.

(** The text of a stale key in its deletion request. *)
Definition stale_ip (key : MappingKey) : rstring :=
  if (key_prefix key =? 32) || (key_prefix key =? 128) then key_ip key else mapping_key_cidr key.

Definition STALE_CHUNK : nat := 512.

Section Commit.
  Context {W : Type} `{MapBus W}.
  Variable iter : gmap MappingKey MappingVal -> list (MappingKey * MappingVal).

Definition attempt_seed_mappings (w : W) (circuits : gmap Z BakeryCommands) (s : MappingState)
    : result rstring MappingState :=
  match list_ip_flow w with
  | Err e => Err e
  | Ok mappings => Ok (fold_left (seed_mapping (build_known_handle_set circuits)) mappings s)
  end.

(** [if !mapping_seeded { .. }], as [BusReady] and [CommitMappings] do. *)
Definition seed_once (w : W) (circuits : gmap Z BakeryCommands) (s : MappingState) : MappingState :=
  if mapping_seeded s then s
  else match attempt_seed_mappings w circuits s with Ok s => set_seeded s | Err _ => s end.

Definition stale_keys (current : gmap MappingKey MappingVal) (unknown : gset MappingKey)
    (staged : gmap MappingKey MappingVal) : list MappingKey :=
  List.filter (fun key => negb (bool_decide (key ∈ unknown)) && negb (bool_decide (is_Some (staged !! key))))
    (map fst (iter current)).

Fixpoint stale_chunks (fuel : nat) (keys : list MappingKey) : list (list MappingKey) :=
  match fuel, keys with
  | O, _ | _, [] => []
  | S fuel, _ => take STALE_CHUNK keys :: stale_chunks fuel (drop STALE_CHUNK keys)
  end.

Definition commit_mappings (w : W) (circuits : gmap Z BakeryCommands) (s : MappingState) : MappingState * W :=
  let s := seed_once w circuits s in
  match mapping_staged s with
  | None => (s, w)
  | Some staged =>
      let stale := stale_keys (mapping_current s) (mapping_unknown s) staged in
      let w := if decide (stale = []) then w
               else del_ip_flows w (map (map stale_ip) (stale_chunks (length stale) stale)) in
      let current := foldr delete (mapping_current s) stale in
      (mkMappingState (staged ∪ current) None (mapping_unknown s) (mapping_seeded s), w)
  end.

(** The arms of the main loop for mappings. *)
Definition mapping_command (w : W) (circuits : gmap Z BakeryCommands) (command : BakeryCommands) (s : MappingState)
    : MappingState * W :=
  match command with
  | MapIp ip tc_handle cpu _ => (handle_map_ip ip tc_handle cpu s, w)
  | BusReady => (seed_once w circuits s, w)
  | DelIp ip _ => (handle_del_ip ip s, w)
  | ClearIpAll => (clear_ip_all s, w)
  | CommitMappings => commit_mappings w circuits s
  | _ => (s, w)
  end.

End Commit.
