(* ===== verification/BakeryMappingsSpec.v ===== *)
(** * Theorems about IP mappings

    Moving the addresses of a circuit is proved against the bpf maps of [lqos_sys], commits against the
    requests that they send. *)

From S2P Require Import Prelude RustStd RustCollections RustFloat RustFormat RustNet.
From S2P Require Import ShapedDevice TcHandle SysIpMapping BakeryCommands BakeryExecute BakeryMappings.

(** ** Undoing *)

(** What a rollback step makes of the mirror when it succeeds. *)
Definition restore_entry (current : gmap MappingKey MappingVal) (entry : MappingKey * option MappingVal)
    : gmap MappingKey MappingVal := partial_alter (fun _ => entry.2) entry.1 current.

Lemma restore_undoes (current : gmap MappingKey MappingVal) key v :
  restore_entry (<[key := v]> current) (key, current !! key) = current.
Proof.
  apply map_eq. intros k. unfold restore_entry. cbn [fst snd].
  destruct (decide (key = k)) as [->|Hne]; [by rewrite lookup_partial_alter_eq|].
  by rewrite lookup_partial_alter_ne, lookup_insert_ne.
Qed.

(** The entry of a key that was moved. *)
Definition moved_entry (target : TcHandle) (previous : option MappingVal) : MappingVal :=
  mkMappingVal target match previous with Some v => map_cpu v | None => 0 end.

(** A mirror whose keys are as they were, or moved. *)
Section Between.
  Context {W : Type} `{MapHost W}.
  Context (target : TcHandle) (moving : list MappingKey) (original : gmap MappingKey MappingVal).

Definition as_before_or_moved (key : MappingKey) (v : option MappingVal) : Prop :=
  v = original !! key \/ key ∈ moving /\ v = Some (moved_entry target (original !! key)).
Definition between (current : gmap MappingKey MappingVal) : Prop :=
  forall key, as_before_or_moved key (current !! key).
Definition all_between (entries : list (MappingKey * option MappingVal)) : Prop :=
  Forall (fun entry => as_before_or_moved entry.1 entry.2) entries.

Lemma between_alter current key v : between current -> as_before_or_moved key v -> between (partial_alter (fun _ => v) key current).
Proof.
  intros Hb Hv k. destruct (decide (key = k)) as [->|Hne]; [by rewrite lookup_partial_alter_eq|].
  rewrite lookup_partial_alter_ne by done. apply Hb.
Qed.

Lemma rollback_between entries : forall w current failures current' failures' w',
  rollback_loop w current failures entries = (current', failures', w') ->
  all_between entries -> between current -> between current'.
Proof.
  induction entries as [|[key previous] entries IH]; intros w current failures current' failures' w'; cbn [rollback_loop].
  { by intros [= <- _ _]. }
  destruct (rollback_step _ _ _ _) as [[c1 f1] w1] eqn:Hs. intros Hl [Hp Hall]%Forall_cons Hb.
  eapply IH; [done..|]. unfold rollback_step in Hs. cbn [fst snd] in Hp.
  destruct previous as [v|]; [destruct (add_ip_to_tc _ _ _ _) as [[]]|destruct (del_ip_from_tc _ _) as [[]]];
    injection Hs as <- _ _; try done; by apply between_alter.
Qed.

Lemma fail_remap_between w cidr t error remapped current r current' w' :
  fail_remap w cidr t error remapped current = (r, current', w') ->
  all_between remapped -> between current -> between current'.
Proof.
  unfold fail_remap, rollback_migration_ip_remaps. destruct (rollback_loop _ _ _ _) as [[c1 failures] w1] eqn:Hl.
  destruct (clear_hot_cache w1) as [cleared w2]. intros [= _ <- _] Hall Hb.
  eapply rollback_between; [done| |done]. by apply Forall_rev.
Qed.

Lemma remap_between ips : forall w remapped current r current' w',
  remap_loop w target ips remapped current = (r, current', w') ->
  Forall (fun ip => key_of ip ∈ moving) ips -> all_between remapped -> between current -> between current'.
Proof.
  induction ips as [|ip ips IH]; intros w remapped current r current' w'; cbn [remap_loop].
  - destruct (clear_hot_cache w) as [[[]|error] w1]; [by intros [= _ <- _]|]. intros Hl _. by eapply fail_remap_between.
  - destruct (add_ip_to_tc _ _ _ _) as [[[]|error] w1]; intros Hl [Hin Hips]%Forall_cons Hall Hb.
    + eapply IH; [done..| |].
      * apply Forall_app. split; [done|]. apply Forall_singleton. apply Hb.
      * apply between_alter; [done|]. right. split; [done|]. f_equal. unfold moved_entry.
        by destruct (Hb (key_of ip)) as [->|[_ ->]].
    + by eapply fail_remap_between.
Qed.

End Between.

Section Remaps.
  Context {W : Type} `{IpMaps W, IpMapView W, !IpMapLaws W} (rounds : nat).
#[local] Instance remap_host : MapHost W := sys_map_host rounds.

  (** Keys with at most one slash in their text, of which no two name the same entry. *)
  Context (domain : MappingKey -> Prop).
  Context (plain : forall key, domain key -> (47 ∉ key_ip key) /\ 0 <= key_prefix key < 2 ^ 32).
  Context (no_alias : forall key key' n n', domain key -> domain key' ->
    network_of (key_ip key) (key_prefix key) = Some n -> network_of (key_ip key') (key_prefix key') = Some n' ->
    same_entry n n' -> key = key').

(** The mirror agrees with the kernel: the entry of every address has its handle and its CPU. *)
Definition mirrored (current : gmap MappingKey MappingVal) (w : W) : Prop :=
  forall key n, domain key -> network_of (key_ip key) (key_prefix key) = Some n ->
    (fun d => (hash_tc_handle d, hash_cpu d)) <$> ip_entry w n
    = (fun v => (as_u32 (map_handle v), map_cpu v)) <$> current !! key.

Lemma mirrored_frame current w w' :
  mirrored current w -> (forall n, ip_entry w' n = ip_entry w n) -> mirrored current w'.
Proof. intros Hm Hframe key n Hd Hn. rewrite Hframe. by apply Hm. Qed.

Lemma mirrored_add current w key v r w' :
  mirrored current w -> domain key -> add_ip_to_tc w (mapping_key_cidr key) (map_handle v) (map_cpu v) = (r, w') ->
  match r with Ok _ => mirrored (<[key := v]> current) w' | Err _ => mirrored current w' end.
Proof.
  intros Hm Hd Ha. destruct (plain key Hd) as [Hslash Hrange].
  pose proof (add_ip_of_cidr w _ _ _ _ false 0 0 r w' Hslash Hrange Ha) as Hadd. clear Ha. destruct r as [[]|e]; [|by eapply mirrored_frame].
  destruct Hadd as (n & c & d & Hn & Hset). intros key' n' Hd' Hn'. rewrite Hset, lookup_insert.
  destruct (decide (same_entry n n')) as [Hsame|Hne].
  - rewrite decide_True; [done|]. by eapply no_alias.
  - rewrite decide_False; [by apply Hm|]. intros <-. apply Hne. by simplify_eq.
Qed.

Lemma mirrored_clear current w r w' : mirrored current w -> clear_hot_cache w = (r, w') -> mirrored current w'.
Proof. intros Hm Hc. eapply mirrored_frame; [exact Hm|]. exact (clear_hot_cache_frame rounds w r w' Hc). Qed.

Lemma cidr_has_slash key : 47 ∈ mapping_key_cidr key.
Proof. unfold mapping_key_cidr. apply elem_of_app. right. apply elem_of_app. left. by apply list_elem_of_singleton. Qed.

(** The mapping of an address that had none is never undone: its deletion is asked for by a text with a slash,
    and fails. *)
Lemma rollback_of_new_mapping_fails w current failures key current' failures' w' :
  rollback_step w current failures (key, None) = (current', failures', w') ->
  current' = current /\ (exists failure, failures' = failures ++ [failure]) /\ forall n, ip_entry w' n = ip_entry w n.
Proof.
  unfold rollback_step. destruct (del_ip_from_tc w _) as [r w1] eqn:Hr.
  destruct (del_ip_of_cidr_fails rounds w _ false r w1 (cidr_has_slash key) Hr) as [[e ->] Hframe].
  intros [= <- <- <-]. split_and!; [done|by eexists|done].
Qed.

Lemma rollback_step_spec w current failures key previous current' failures' w' :
  rollback_step w current failures (key, previous) = (current', failures', w') -> domain key -> mirrored current w ->
  mirrored current' w' /\ exists more, failures' = failures ++ more
    /\ (more = [] -> current' = restore_entry current (key, previous)).
Proof.
  intros Hr Hd Hm. destruct previous as [v|].
  - unfold rollback_step in Hr. destruct (add_ip_to_tc w _ _ _) as [r w1] eqn:Ha.
    apply (mirrored_add current) in Ha; [|done..]. destruct r as [[]|e]; injection Hr as <- <- <-; (split; [done|]).
    + exists []. by rewrite app_nil_r.
    + by eexists.
  - apply rollback_of_new_mapping_fails in Hr as (-> & [failure ->] & Hframe).
    split; [by eapply mirrored_frame|]. by eexists.
Qed.

Lemma rollback_loop_spec entries : forall w current failures current' failures' w',
  rollback_loop w current failures entries = (current', failures', w') ->
  Forall (fun entry => domain entry.1) entries -> mirrored current w ->
  mirrored current' w' /\ exists more, failures' = failures ++ more
    /\ (more = [] -> current' = foldl restore_entry current entries).
Proof.
  induction entries as [|[key previous] entries IH]; intros w current failures current' failures' w'; cbn [rollback_loop].
  { intros [= <- <- <-] _ Hm. split; [done|]. exists []. by rewrite app_nil_r. }
  destruct (rollback_step _ _ _ _) as [[c1 f1] w1] eqn:Hs. intros Hl [Hd Hall]%Forall_cons Hm. cbn [fst] in Hd.
  apply rollback_step_spec in Hs as (Hm1 & more1 & -> & Hr1); [|done|done].
  apply IH in Hl as (Hm2 & more2 & -> & Hr2); [|done|done]. split; [done|]. exists (more1 ++ more2).
  split; [by rewrite app_assoc|]. intros [-> ->]%app_nil. cbn [foldl]. rewrite <- Hr1 by done. by apply Hr2.
Qed.

Lemma fail_remap_spec w cidr target error remapped current r current' w' :
  fail_remap w cidr target error remapped current = (r, current', w') ->
  Forall (fun entry => domain entry.1) remapped -> mirrored current w ->
  mirrored current' w' /\ exists e, r = Err e
    /\ (rollback_error e = None -> current' = foldl restore_entry current (rev remapped)).
Proof.
  unfold fail_remap, rollback_migration_ip_remaps. intros Hf Hall Hm.
  destruct (rollback_loop _ _ _ _) as [[c1 failures] w1] eqn:Hl.
  destruct (clear_hot_cache w1) as [cleared w2] eqn:Hc. injection Hf as <- <- <-.
  apply rollback_loop_spec in Hl as (Hm1 & more & -> & Hr); [|by apply Forall_rev|done].
  split; [by eapply mirrored_clear|]. eexists. split; [done|].
  cbn [rollback_error app]. destruct cleared; destruct more; try done. intros _. by apply Hr.
Qed.

Lemma remap_loop_spec target ips : forall w remapped current r current' w' original,
  remap_loop w target ips remapped current = (r, current', w') ->
  Forall (fun entry => domain entry.1) remapped -> Forall (fun ip => domain (key_of ip)) ips -> mirrored current w ->
  foldl restore_entry current (rev remapped) = original ->
  mirrored current' w'
  /\ match r with
     | Ok _ => forall key, current' !! key
                 = if decide (key ∈ map key_of ips) then Some (moved_entry target (current !! key)) else current !! key
     | Err e => rollback_error e = None -> current' = original
     end.
Proof.
  induction ips as [|ip ips IH]; intros w remapped current r current' w' original; cbn [remap_loop map].
  - intros Hl Hall _ Hm Horig. destruct (clear_hot_cache w) as [cleared w1] eqn:Hc.
    assert (mirrored current w1) as Hm1 by (by eapply mirrored_clear).
    destruct cleared as [[]|error]; [by injection Hl as <- <- <-|].
    apply fail_remap_spec in Hl as (Hm2 & e & -> & Hr); [|done|done]. split; [done|]. intros Hnone. by rewrite Hr.
  - intros Hl Hall [Hd Hips]%Forall_cons Hm Horig.
    destruct (add_ip_to_tc w _ _ _) as [added w1] eqn:Ha.
    apply (mirrored_add current w (key_of ip) (moved_entry target (current !! key_of ip))) in Ha; [|done..].
    destruct added as [[]|error].
    + eapply IH in Hl as [Hm1 Hr]; [..|reflexivity]; [|by apply Forall_app; split; [|apply Forall_singleton]|done|done].
      split; [exact Hm1|]. destruct r as [[]|e].
      * intros key. rewrite Hr, lookup_insert. destruct (decide (key_of ip = key)) as [<-|Hne].
        -- rewrite (decide_True (P := key_of ip ∈ key_of ip :: _)) by left.
           destruct (decide (key_of ip ∈ map key_of ips)); unfold moved_entry; by destruct (current !! key_of ip).
        -- destruct (decide (key ∈ map key_of ips)); [by rewrite decide_True by (by right)|].
           rewrite decide_False; [done|]. by intros [->|?]%elem_of_cons.
      * intros Hnone. rewrite Hr by done. rewrite rev_app_distr. cbn [rev app foldl]. by rewrite restore_undoes.
    + apply fail_remap_spec in Hl as (Hm1 & e & -> & Hr); [|done|done]. split; [done|]. intros Hnone. by rewrite Hr.
Qed.

(** C16: Moving the addresses of a circuit, through [lqos_sys] and the bpf maps.  Whatever call fails, the
    mirror and the kernel map agree afterwards if they did before, and every address is mapped as before or to
    the target class on the CPU it had.  On success all addresses of the circuit are moved and no other is; on
    a failure whose rollback reported no failure, every address is mapped as before.  The addresses have at
    most one slash and name different entries. *)
Theorem remap_is_all_or_nothing w ips class_major target_minor current r current' w' :
  Forall (fun ip => domain (key_of ip)) ips -> mirrored current w ->
  remap_migration_ips w ips class_major target_minor current = (r, current', w') ->
  let target := mkTcHandle (Z.lor (Z.shiftl class_major 16) target_minor) in
  mirrored current' w'
  /\ match r with
     | Ok _ => forall key, current' !! key
                 = if decide (key ∈ map key_of ips) then Some (moved_entry target (current !! key))
                   else current !! key
     | Err e => (rollback_error e = None -> current' = current)
         /\ forall key, current' !! key = current !! key
              \/ key ∈ map key_of ips /\ current' !! key = Some (moved_entry target (current !! key))
     end.
Proof.
  intros Hips Hm Hr. cbn zeta. change (mkTcHandle _) with (tc_handle_from_major_minor class_major target_minor).
  pose proof (remap_between (tc_handle_from_major_minor class_major target_minor) (map key_of ips) current ips
    w [] current r current' w' Hr) as Hbetween.
  eapply (remap_loop_spec _ ips w [] current r current' w' current) in Hr as [Hm' Hres]; [|done..].
  split; [exact Hm'|]. destruct r as [[]|e]; [exact Hres|]. split; [exact Hres|]. apply Hbetween.
  - apply Forall_forall. intros ip Hip. by apply list_elem_of_fmap_2.
  - constructor.
  - by left.
Qed.

End Remaps.

(** ** Commits *)

Lemma lookup_foldr_delete (keys : list MappingKey) (m : gmap MappingKey MappingVal) key :
  foldr delete m keys !! key = if decide (key ∈ keys) then None else m !! key.
Proof.
  induction keys as [|k keys IH]; cbn [foldr]; [done|]. rewrite lookup_delete, IH.
  destruct (decide (k = key)) as [->|Hne]; [rewrite decide_True; [done|left]|].
  destruct (decide (key ∈ keys)); [rewrite decide_True; [done|by right]|].
  rewrite decide_False; [done|]. by intros [->|?]%elem_of_cons.
Qed.

Lemma stale_chunks_spec fuel : forall keys,
  (length keys <= fuel)%nat ->
  concat (stale_chunks fuel keys) = keys /\ Forall (fun c => (0 < length c <= STALE_CHUNK)%nat) (stale_chunks fuel keys).
Proof.
  induction fuel as [|fuel IH]; intros keys Hlen;
    [destruct keys; [by split|cbn [length] in Hlen; lia]|]. destruct keys as [|k keys]; [by split|].
  cbn [stale_chunks concat]. destruct (IH (drop STALE_CHUNK (k :: keys))) as [-> Hall].
  { rewrite length_drop. cbn [length] in *. unfold STALE_CHUNK. lia. }
  rewrite take_drop. split; [done|]. constructor; [|done]. rewrite length_take. cbn [length]. unfold STALE_CHUNK. lia.
Qed.

Section Commits.
  Context {W : Type} `{MapBus W}.
  Context (iter : gmap MappingKey MappingVal -> list (MappingKey * MappingVal)).
  Context (iter_perm : forall m, iter m ≡ₚ map_to_list m).

Lemma elem_of_stale_keys current unknown (staged : gmap MappingKey MappingVal) key :
  key ∈ stale_keys iter current unknown staged
  <-> is_Some (current !! key) /\ (key ∉ unknown) /\ staged !! key = None.
Proof.
  unfold stale_keys. rewrite list_elem_of_In, filter_In, andb_true_iff, !negb_true_iff, !bool_decide_eq_false,
    <- eq_None_not_Some, in_map_iff.
  assert ((exists x, x.1 = key /\ In x (iter current)) <-> is_Some (current !! key)) as ->; [|tauto]. split.
  - intros ([k v] & <- & Hin). exists v. apply elem_of_map_to_list. rewrite <- (iter_perm current). by apply list_elem_of_In.
  - intros [v Hv]. exists (key, v). split; [done|]. apply list_elem_of_In. rewrite (iter_perm current).
    by apply elem_of_map_to_list.
Qed.

Lemma stale_keys_NoDup current unknown staged : NoDup (stale_keys iter current unknown staged).
Proof.
  unfold stale_keys. apply NoDup_ListNoDup, List.NoDup_filter, NoDup_ListNoDup.
  change (map fst (iter current)) with ((iter current).*1). rewrite (iter_perm current). apply NoDup_fst_map_to_list.
Qed.

(** The last mapping of a key that the kernel listed. *)
Definition listed (key : MappingKey) (mappings : list IpMapping) : option IpMapping :=
  last (List.filter (fun m => bool_decide (ip_address m = key_ip key /\ prefix_length m = key_prefix key)) mappings).

(** The handle is the class of no circuit. *)
Definition of_no_circuit (circuits : gmap Z BakeryCommands) (h : TcHandle) : Prop :=
  forall hash c, circuits !! hash = Some (AddCircuit c) ->
    h <> mkTcHandle (Z.lor (Z.shiftl (ac_class_major c) 16) (ac_class_minor c)).

(** The state [base] that a commit works on: the one it finds if the kernel map was read before or cannot be
    read now; else every mapping that is listed is taken over, as one of unknown origin if its class is that
    of no circuit. *)
Definition reads_kernel (w : W) (circuits : gmap Z BakeryCommands) (s base : MappingState) : Prop :=
  mapping_staged base = mapping_staged s
  /\ if mapping_seeded s then base = s
     else match list_ip_flow w with
          | Err _ => base = s
          | Ok mappings =>
              mapping_seeded base = true
              /\ (forall key, mapping_current base !! key
                    = match listed key mappings with
                      | Some m => Some (mkMappingVal (mapped_handle m) (mapped_cpu m))
                      | None => mapping_current s !! key
                      end)
              /\ forall key, key ∈ mapping_unknown base <-> key ∈ mapping_unknown s
                   \/ exists m, m ∈ mappings /\ ip_address m = key_ip key /\ prefix_length m = key_prefix key
                        /\ of_no_circuit circuits (mapped_handle m)
          end.

Lemma known_handles circuits h : h ∉ build_known_handle_set circuits <-> of_no_circuit circuits h.
Proof.
  unfold build_known_handle_set, of_no_circuit. rewrite elem_of_list_to_set, list_elem_of_omap. split.
  - intros Hn hash c Hc ->. apply Hn. exists (hash, AddCircuit c). split; [by apply elem_of_map_to_list|done].
  - intros Hno ([hash command] & Hin%elem_of_map_to_list & Hh). cbn [snd] in Hh. destruct command; try done.
    injection Hh as <-. by eapply Hno.
Qed.

Lemma seed_fold circuits mappings : forall s base,
  fold_left (seed_mapping (build_known_handle_set circuits)) mappings s = base ->
  mapping_staged base = mapping_staged s
  /\ (forall key, mapping_current base !! key
        = match listed key mappings with
          | Some m => Some (mkMappingVal (mapped_handle m) (mapped_cpu m))
          | None => mapping_current s !! key
          end)
  /\ forall key, key ∈ mapping_unknown base <-> key ∈ mapping_unknown s
       \/ exists m, m ∈ mappings /\ ip_address m = key_ip key /\ prefix_length m = key_prefix key
            /\ of_no_circuit circuits (mapped_handle m).
Proof.
  induction mappings as [|m mappings IH]; intros s base; cbn [fold_left].
  { intros <-. split_and!; [done|done|]. intros key. split; [by left|]. by intros [?|(? & ?%elem_of_nil & _)]. }
  intros (-> & Hcur & Hunk)%IH. split_and!; [done| |].
  - intros key. rewrite Hcur. unfold listed. cbn [List.filter seed_mapping mapping_current].
    rewrite lookup_insert. destruct key as [ip p]. cbn [key_ip key_prefix].
    destruct (decide (mkMappingKey (ip_address m) (prefix_length m) = mkMappingKey ip p)) as [Heq|Hne].
    + injection Heq as -> ->. rewrite bool_decide_true by done. rewrite last_cons.
      by destruct (last _).
    + rewrite bool_decide_false; [done|]. intros [? ?]. congruence.
  - intros key. rewrite Hunk. cbn [seed_mapping mapping_unknown].
    assert (key ∈ (if bool_decide (mapped_handle m ∈ build_known_handle_set circuits) then mapping_unknown s
                   else {[mkMappingKey (ip_address m) (prefix_length m)]} ∪ mapping_unknown s)
      <-> key ∈ mapping_unknown s \/ ip_address m = key_ip key /\ prefix_length m = key_prefix key
          /\ of_no_circuit circuits (mapped_handle m)) as ->.
    { rewrite <- known_handles. case_bool_decide; [tauto|]. rewrite elem_of_union, elem_of_singleton.
      destruct key as [ip p]. cbn [key_ip key_prefix]. split.
      - intros [[= -> ->]|?]; tauto.
      - intros [?|(Hi & Hl & _)]; [tauto|]. left. congruence. }
    split.
    + intros [[?|?]|(m' & ? & ?)]; [by left|right; exists m; split; [left|done]|right; exists m'; split; [by right|done]].
    + intros [?|(m' & [->|?]%elem_of_cons & ?)]; [by left; left|by left; right|right; by exists m'].
Qed.

Lemma seed_once_reads w circuits s : reads_kernel w circuits s (seed_once w circuits s).
Proof.
  unfold reads_kernel, seed_once, attempt_seed_mappings. destruct (mapping_seeded s); [done|].
  destruct (list_ip_flow w) as [mappings|e]; [|done]. cbn [set_seeded mapping_staged mapping_seeded].
  destruct (seed_fold circuits mappings s _ eq_refl) as (Hst & Hcur & Hunk). done.
Qed.

(** The text that names a key in a deletion request: the bare address for the lengths 32 and 128. *)
Definition deletion_text (key : MappingKey) : rstring :=
  if decide (key_prefix key = 32 \/ key_prefix key = 128) then key_ip key
  else key_ip key ++ str "/" ++ u64_to_string (key_prefix key).

Lemma stale_ip_text key : stale_ip key = deletion_text key.
Proof.
  unfold stale_ip, deletion_text. destruct (Z.eqb_spec (key_prefix key) 32), (Z.eqb_spec (key_prefix key) 128);
    cbn [orb]; first [rewrite decide_True by tauto | rewrite decide_False by tauto]; done.
Qed.

(** C17: A commit of mappings works on the mappings it knows, having first read the kernel map if that was not
    done before ([reads_kernel]).  It leaves exactly the staged mappings and those of unknown origin, and takes
    the stage down.  It asks for the deletion of every other mapping once, in requests of at most 512, and for
    nothing else; without a stage it asks for nothing and changes no mapping.  A mapping of prefix length 32 or
    128 is named by its bare address, any other by address and length. *)
Theorem mapping_commit_is_exact w circuits s s' w' :
  commit_mappings iter w circuits s = (s', w') ->
  exists base, reads_kernel w circuits s base
  /\ mapping_unknown s' = mapping_unknown base /\ mapping_staged s' = None /\ mapping_seeded s' = mapping_seeded base
  /\ match mapping_staged s with
     | None => s' = base /\ w' = w
     | Some staged =>
         (forall key, mapping_current s' !! key
            = match staged !! key with
              | Some v => Some v
              | None => if decide (key ∈ mapping_unknown base) then mapping_current base !! key else None
              end)
         /\ exists requests,
              w' = (if decide (requests = []) then w else del_ip_flows w (map (map deletion_text) requests))
              /\ Forall (fun request => (0 < length request <= 512)%nat) requests /\ NoDup (concat requests)
              /\ forall key, key ∈ concat requests
                   <-> is_Some (mapping_current base !! key) /\ (key ∉ mapping_unknown base) /\ staged !! key = None
     end.
Proof.
  unfold commit_mappings. intros Hc. exists (seed_once w circuits s). pose proof (seed_once_reads w circuits s) as Hbase.
  split; [done|]. destruct Hbase as [Hst _]. rewrite <- Hst. set (base := seed_once w circuits s) in *.
  destruct (mapping_staged base) as [staged|] eqn:Hstaged; [|by injection Hc as <- <-].
  injection Hc as <- <-. cbn [mapping_unknown mapping_staged mapping_current mapping_seeded]. split_and!; [done..| |].
  - intros key. rewrite lookup_union, lookup_foldr_delete. destruct (staged !! key) as [v|] eqn:Hv.
    { by destruct (decide _), (mapping_current base !! key). }
    rewrite (left_id None _). destruct (decide (key ∈ stale_keys _ _ _ _)) as [Hin|Hni].
    + apply elem_of_stale_keys in Hin as (_ & Hnu & _). by rewrite decide_False.
    + destruct (decide (key ∈ mapping_unknown base)); [done|].
      destruct (mapping_current base !! key) eqn:Hcur; [|done]. exfalso. apply Hni, elem_of_stale_keys. by rewrite Hcur.
  - set (stale := stale_keys iter (mapping_current base) (mapping_unknown base) staged).
    destruct (stale_chunks_spec (length stale) stale (le_n _)) as [Hconcat Hsizes].
    exists (stale_chunks (length stale) stale). rewrite Hconcat. split_and!.
    + rewrite (map_ext _ (map deletion_text)) by (intros keys; apply map_ext, stale_ip_text).
      destruct (decide (stale = [])) as [->|Hne]; [done|]. rewrite decide_False; [done|]. by destruct stale.
    + exact Hsizes.
    + apply stale_keys_NoDup.
    + intros key. apply elem_of_stale_keys.
Qed.

(** A mapping of unknown origin survives every commit, whatever is staged. *)
Lemma unknown_mapping_survives_commit w circuits s key :
  mapping_seeded s = true -> key ∈ mapping_unknown s -> is_Some (mapping_current s !! key) ->
  let s' := (commit_mappings iter w circuits s).1 in
  key ∈ mapping_unknown s' /\ is_Some (mapping_current s' !! key).
Proof.
  intros Hseed Hu Hc. cbn zeta. unfold commit_mappings, seed_once. rewrite Hseed.
  destruct (mapping_staged s) as [staged|]; [|done]. cbn [fst mapping_unknown mapping_current]. split; [done|].
  rewrite lookup_union, lookup_foldr_delete, decide_False.
  - destruct (staged !! key), Hc as [v ->]; by eexists.
  - intros (_ & Hnu & _)%elem_of_stale_keys. done.
Qed.

(** Seeded before any circuit is known, every mapping of the kernel counts as one of unknown origin. *)
Lemma early_seed_knows_nothing w s s' :
  attempt_seed_mappings w ∅ s = Ok s' ->
  (forall key, is_Some (mapping_current s !! key) -> key ∈ mapping_unknown s) ->
  forall key, is_Some (mapping_current s' !! key) -> key ∈ mapping_unknown s'.
Proof.
  unfold attempt_seed_mappings. destruct (list_ip_flow w) as [mappings|]; [|done]. intros [= <-].
  assert (build_known_handle_set ∅ = ∅) as -> by (unfold build_known_handle_set; by rewrite map_to_list_empty).
  revert s. induction mappings as [|m mappings IH]; intros s Hs; [done|]. cbn [fold_left]. apply IH. intros key.
  unfold seed_mapping. rewrite bool_decide_false by apply not_elem_of_empty.
  cbn [mapping_current mapping_unknown]. rewrite lookup_insert. case_decide; [set_solver|]. intros Hk%Hs. set_solver.
Qed.

End Commits.

(** The deletion of an IPv6 mapping of prefix length 32 is asked for by its address alone, which names the
    host, not the network. *)
Lemma stale_ipv6_network_names_a_host :
  let key := mkMappingKey (str "2001:db8::") 32 in
  key_of (mapping_key_cidr key) = key /\ key_of (stale_ip key) = mkMappingKey (str "2001:db8::") 128.
Proof. by vm_compute. Qed.

(** ** Hosts *)

(** The bpf maps in memory: the entries by network, the epoch, and the return codes of the updates to come. *)
Record ToyMap : Type := mkToyMap {
  toy_entries : list (IpHashKey * IpHashData);
  toy_epoch : Z;
  toy_update_codes : list Z;
  toy_deleted : list (list rstring)
}.
Definition toy_find (w : ToyMap) (key : IpHashKey) : option IpHashData :=
  snd <$> List.find (fun e => bool_decide (same_entry e.1 key)) (toy_entries w).
Definition toy_without (w : ToyMap) (key : IpHashKey) : list (IpHashKey * IpHashData) :=
  List.filter (fun e => negb (bool_decide (same_entry e.1 key))) (toy_entries w).

#[export] Instance toy_ip_table : BpfTable ToyMap IpHashKey IpHashData := {
  bpf_map_get_next_key _ _ _ := (ENOENT, mkIpHashKey 0 []);
  bpf_map_lookup_elem w _ key :=
    match toy_find w key with Some d => (0, d) | None => (ENOENT, mkIpHashData 0 0 0 0) end;
  bpf_map_update_elem w _ key value :=
    let code := default 0 (head (toy_update_codes w)) in
    (code, mkToyMap (if code =? 0 then (key, value) :: toy_without w key else toy_entries w) (toy_epoch w)
             (tail (toy_update_codes w)) (toy_deleted w));
  bpf_map_delete_elem w _ key :=
    (0, mkToyMap (toy_without w key) (toy_epoch w) (toy_update_codes w) (toy_deleted w));
  bpf_map_delete_batch w _ _ _ := (ENOENT, 0, w)
}.
#[export] Instance toy_hotcache_table : BpfTable ToyMap XdpIpAddress IpHashData := {
  bpf_map_get_next_key _ _ _ := (ENOENT, XdpIpAddress_default);
  bpf_map_lookup_elem _ _ _ := (ENOENT, mkIpHashData 0 0 0 0);
  bpf_map_update_elem w _ _ _ := (0, w);
  bpf_map_delete_elem w _ _ := (0, w);
  bpf_map_delete_batch w _ _ _ := (0, 0, w)
}.
#[export] Instance toy_epoch_table : BpfTable ToyMap Z Z := {
  bpf_map_get_next_key _ _ _ := (ENOENT, 0);
  bpf_map_lookup_elem w _ _ := (0, toy_epoch w);
  bpf_map_update_elem w _ _ epoch := (0, mkToyMap (toy_entries w) epoch (toy_update_codes w) (toy_deleted w));
  bpf_map_delete_elem w _ _ := (0, w);
  bpf_map_delete_batch w _ _ _ := (0, 0, w)
}.
#[export] Instance toy_fs : BpfFs ToyMap := { bpf_obj_get w _ := (3, w) }.
#[export] Instance toy_maps : IpMaps ToyMap := {}.
#[export] Instance toy_view : IpMapView ToyMap := { ip_entry := toy_find }.
#[export] Instance toy_map_bus : MapBus ToyMap := {
  list_ip_flow _ := Ok [];
  del_ip_flows w requests := mkToyMap (toy_entries w) (toy_epoch w) (toy_update_codes w) (toy_deleted w ++ requests)
}.

Lemma find_without entries key key' :
  List.find (fun e => bool_decide (same_entry e.1 key'))
    (List.filter (fun e : IpHashKey * IpHashData => negb (bool_decide (same_entry e.1 key))) entries)
  = if decide (same_entry key key') then None else List.find (fun e => bool_decide (same_entry e.1 key')) entries.
Proof.
  induction entries as [|e entries IH]; cbn [List.filter List.find]; [by destruct (decide _)|].
  case_bool_decide as Hk; cbn [negb List.find]; rewrite ?IH; case_bool_decide as Hk';
    destruct (decide (same_entry key key')) as [Hkk|Hkk]; try done.
  - destruct Hkk. by rewrite <- Hk.
  - destruct Hk. by rewrite Hk'.
Qed.

#[export] Instance toy_map_laws : IpMapLaws ToyMap.
Proof.
  split; try done.
  - intros w key value err w' [= <- <-] key'. cbn [ip_entry toy_view]. unfold toy_find. cbn [toy_entries].
    destruct (Z.eqb_spec (default 0 (head (toy_update_codes w))) 0) as [Hz|Hnz]; [|by rewrite decide_False by tauto].
    cbn [List.find fst]. case_bool_decide as Hs; [by rewrite decide_True|]. rewrite decide_False by tauto.
    unfold toy_without. by rewrite find_without, decide_False.
  - intros w key err w' [= <- <-] key'. cbn [ip_entry toy_view]. unfold toy_find, toy_without. cbn [toy_entries].
    rewrite find_without. destruct (decide (same_entry key key')); [by rewrite decide_True|by rewrite decide_False by tauto].
Qed.

Definition remap_example_ips : list rstring := [str "192.0.2.1"; str "192.0.2.0/24"].
Definition remap_example_mirror : gmap MappingKey MappingVal :=
  {[key_of (str "192.0.2.1") := mkMappingVal (mkTcHandle 0x10005) 2]}.
Definition remap_example_kernel (codes : list Z) : ToyMap :=
  mkToyMap [(mkIpHashKey 128 (replicate 12 255 ++ [192; 0; 2; 1]), mkIpHashData 2 0x10005 77 78)] 41 codes [].
Definition remap_example_domain (key : MappingKey) : Prop := key ∈ map key_of remap_example_ips.

(** The update of the second address fails and the first is mapped as before. *)
Lemma remap_is_all_or_nothing_witness :
  exists e current' w',
    remap_migration_ips (H := remap_host 8) (remap_example_kernel [0; -7]) remap_example_ips 1 9 remap_example_mirror
      = (Err e, current', w')
    /\ rollback_error e = None /\ current' = remap_example_mirror /\ mirrored remap_example_domain current' w'.
Proof.
  destruct (remap_migration_ips (H := remap_host 8) (remap_example_kernel [0; -7]) remap_example_ips 1 9 remap_example_mirror)
    as [[r current'] w'] eqn:Hr.
  assert (match r with Err e => rollback_error e = None | Ok _ => False end) as Hfailed.
  { change r with (r, current', w').1.1. rewrite <- Hr. by vm_compute. }
  assert (forall key, remap_example_domain key ->
    key = mkMappingKey (str "192.0.2.1") 32 \/ key = mkMappingKey (str "192.0.2.0") 24) as Hcases.
  { intros key [->| ->%list_elem_of_singleton]%elem_of_cons; [left; reflexivity|right; reflexivity]. }
  destruct (remap_is_all_or_nothing (W := ToyMap) 8 remap_example_domain) with (w := remap_example_kernel [0; -7])
    (ips := remap_example_ips) (class_major := 1) (target_minor := 9) (current := remap_example_mirror) (r := r)
    (current' := current') (w' := w') as [Hm Hres].
  - intros key [-> | ->]%Hcases; (split; [by_compute|cbn; lia]).
  - intros key key' n n' [-> | ->]%Hcases [-> | ->]%Hcases; try done; vm_compute (network_of _ _);
      intros [= <-] [= <-] [Hlen _]; discriminate Hlen.
  - repeat constructor; by vm_compute; repeat constructor.
  - intros key n [-> | ->]%Hcases; vm_compute (network_of _ _); intros [= <-]; by vm_compute.
  - exact Hr.
  - destruct r as [[]|e]; [done|]. exists e, current', w'. split_and!; [done|exact Hfailed|by apply Hres|exact Hm].
Defined.

(** An address that was not mapped before stays on the target class when the move of another one fails. *)
Lemma new_mapping_is_not_rolled_back :
  let '(r, current', w') := remap_migration_ips (H := remap_host 8) (remap_example_kernel [0; -7])
    [str "192.0.2.9"; str "192.0.2.1"] 1 9 remap_example_mirror in
  match r with Ok _ => False | Err e => is_Some (rollback_error e) end
  /\ current' !! key_of (str "192.0.2.9") = Some (mkMappingVal (mkTcHandle 0x10009) 0)
  /\ ip_entry w' (mkIpHashKey 128 (replicate 12 255 ++ [192; 0; 2; 9])) = Some (mkIpHashData 0 0x10009 0 0).
Proof. vm_compute. split_and!; [by eexists|done|done]. Qed.

Definition commit_example_state : MappingState :=
  mkMappingState (<[mkMappingKey (str "10.0.0.9") 32 := mkMappingVal (mkTcHandle 0x10007) 0]> remap_example_mirror)
    (Some {[key_of (str "192.0.2.7") := mkMappingVal (mkTcHandle 0x10006) 0]})
    {[mkMappingKey (str "10.0.0.9") 32]} true.

(** The address that is not staged any more is deleted, the one of unknown origin stays. *)
Lemma mapping_commit_is_exact_witness :
  exists s' w', commit_mappings map_to_list (remap_example_kernel []) ∅ commit_example_state = (s', w')
    /\ toy_deleted w' = [[str "192.0.2.1"]]
    /\ mapping_current s' !! mkMappingKey (str "10.0.0.9") 32 = Some (mkMappingVal (mkTcHandle 0x10007) 0)
    /\ mapping_current s' !! key_of (str "192.0.2.1") = None.
Proof.
  destruct (commit_mappings map_to_list (remap_example_kernel []) ∅ commit_example_state) as [s' w'] eqn:Hc.
  exists s', w'. split; [done|]. split; [vm_compute in Hc; injection Hc as _ <-; reflexivity|].
  destruct (mapping_commit_is_exact map_to_list ltac:(done) (remap_example_kernel []) ∅ commit_example_state s' w' Hc)
    as (base & [_ ->] & _ & _ & _ & Hlook & _).
  rewrite !Hlook. split; by vm_compute.
Defined.
