(* ===== verification/BakeryMigration.v ===== *)
(** * Live migration of circuits ([lqos_bakery/src/lib.rs])

    A circuit with traffic is moved to another class in stages: a shadow class is built below the new
    parent, it is looked for in the live tree, the addresses of the circuit are moved to it; then the final
    class is built, looked for, and the addresses are moved again; at last the shadow is deleted.  A stage
    that fails ends the migration and asks for a full reload.  Every 250 ms, and after every commit, up to
    sixteen migrations advance by one stage.

    [order] is the iteration order of the map of migrations and [handles] what [QdiscHandleState::load] read.
    The snapshot cache is threaded: an accepted batch invalidates it.  [class_error_text] is the text of an
    unreadable class line.  The pruning of virtualised sites and display snapshots that follow the loop of
    [process_pending_migrations] are left out, as is logging. *)

From S2P Require Import Prelude RustStd RustCollections RustFloat RustFormat ShapedDevice.
From S2P Require Import TcHandle QdiscHandles StormguardConfig BakeryCommands BakeryPlan BakeryExecute.
From S2P Require Import BakeryDrain BakeryDiff BakeryStormguard BakeryHandles BakeryTelemetry BakeryReload.
From S2P Require Import BakeryLazy BakeryMappings.

Definition MIGRATION_VERIFICATION_MAX_RETRIES : Z := 3.
Definition MIGRATIONS_PER_TICK : nat := 16.

Inductive MigrationStage : Type :=
| PrepareShadow | VerifyShadowReady | SwapToShadow | BuildFinal | VerifyFinalReady | SwapToFinal
| TeardownMigrationScaffold | Done.
#[export] Instance MigrationStage_eq_dec : EqDecision MigrationStage.
Proof. solve_decision. Defined.

Record Migration : Type := mkMigration {
  mig_circuit_hash : Z;
  mig_circuit_name : option rstring;
  mig_site_name : option rstring;
  old_class_major : Z;
  old_up_class_major : Z;
  old_down_qdisc_handle : option Z;
  old_up_qdisc_handle : option Z;
  mig_parent_class_id : TcHandle;
  mig_up_parent_class_id : TcHandle;
  mig_class_major : Z;
  mig_up_class_major : Z;
  mig_down_qdisc_handle : option Z;
  mig_up_qdisc_handle : option Z;
  old_down_min : f32;
  old_down_max : f32;
  old_up_min : f32;
  old_up_max : f32;
  new_down_min : f32;
  new_down_max : f32;
  new_up_min : f32;
  new_up_max : f32;
  old_minor : Z;
  shadow_minor : Z;
  final_minor : Z;
  mig_ips : list rstring;
  mig_sqm_override : option rstring;
  desired_cmd : BakeryCommands;
  stage : MigrationStage;
  shadow_verify_attempts : Z;
  final_verify_attempts : Z
}.

(** A migration at another stage, with these counts of attempts. *)
Definition at_stage (m : Migration) (s : MigrationStage) (shadow_attempts final_attempts : Z) : Migration :=
  mkMigration (mig_circuit_hash m) (mig_circuit_name m) (mig_site_name m) (old_class_major m) (old_up_class_major m)
    (old_down_qdisc_handle m) (old_up_qdisc_handle m) (mig_parent_class_id m) (mig_up_parent_class_id m)
    (mig_class_major m) (mig_up_class_major m) (mig_down_qdisc_handle m) (mig_up_qdisc_handle m) (old_down_min m)
    (old_down_max m) (old_up_min m) (old_up_max m) (new_down_min m) (new_down_max m) (new_up_min m) (new_up_max m)
    (old_minor m) (shadow_minor m) (final_minor m) (mig_ips m) (mig_sqm_override m) (desired_cmd m) s
    shadow_attempts final_attempts.
Definition with_stage (m : Migration) (s : MigrationStage) : Migration :=
  at_stage m s (shadow_verify_attempts m) (final_verify_attempts m).

(** ** Verification of a branch *)

Record MigrationDirectionVerification : Type := mkDirectionVerification {
  ver_interface_name : rstring;
  expected_handle : TcHandle;
  expected_parent : TcHandle;
  observed_present : bool;
  observed_parent : option TcHandle;
  observed_leaf_qdisc_major : option Z
}.

Definition direction_ready (v : MigrationDirectionVerification) : bool :=
  bool_decide (observed_parent v = Some (expected_parent v)) && bool_decide (is_Some (observed_leaf_qdisc_major v)).

Definition direction_summary (v : MigrationDirectionVerification) (direction : rstring) : rstring :=
  let observed :=
    match observed_present v, observed_parent v, observed_leaf_qdisc_major v with
    | false, _, _ => str "observed missing"
    | true, Some parent, Some leaf_major =>
        str "observed parent " ++ as_tc_string parent ++ str " with leaf qdisc 0x" ++ lower_hex leaf_major ++ str ":"
    | true, Some parent, None => str "observed parent " ++ as_tc_string parent ++ str " with no leaf qdisc"
    | true, None, Some leaf_major => str "observed at root with leaf qdisc 0x" ++ lower_hex leaf_major ++ str ":"
    | true, None, None => str "observed at root with no leaf qdisc"
    end in
  direction ++ str " " ++ ver_interface_name v ++ str " expected class " ++ as_tc_string (expected_handle v)
  ++ str " under parent " ++ as_tc_string (expected_parent v) ++ str " with a leaf qdisc, " ++ observed.

Definition verify_migration_direction (interface_name : rstring) (snapshot : class_snapshot)
    (handle parent : TcHandle) : MigrationDirectionVerification :=
  let observed := snapshot !! handle in
  mkDirectionVerification interface_name handle parent (bool_decide (is_Some observed))
    (observed ≫= class_parent) (observed ≫= leaf_qdisc_major).

Record MigrationBranchVerification : Type := mkBranchVerification {
  ver_down : MigrationDirectionVerification;
  ver_up : option MigrationDirectionVerification
}.

Definition branch_ready (v : MigrationBranchVerification) : bool :=
  direction_ready (ver_down v) && match ver_up v with Some up => direction_ready up | None => true end.

Definition branch_summary (v : MigrationBranchVerification) : rstring :=
  match ver_up v with
  | Some up => direction_summary (ver_down v) (str "down") ++ str "; " ++ direction_summary up (str "up")
  | None => direction_summary (ver_down v) (str "down")
  end.

Definition wrong_parent_prune_commands_for_direction (interface_name : rstring) (snapshot : class_snapshot)
    (handle parent : TcHandle) : list argv :=
  match snapshot !! handle with
  | None => []
  | Some observed =>
      if bool_decide (class_parent observed = Some parent) then []
      else
        (if bool_decide (is_Some (leaf_qdisc_major observed))
         then [[str "qdisc"; str "del"; str "dev"; interface_name; str "parent"; as_tc_string handle]] else [])
        ++ [[str "class"; str "del"; str "dev"; interface_name; str "classid"; as_tc_string handle]]
  end.

(** ** Shadow minors *)

Definition minors_where (majors : BakeryCommands -> option (Z * Z * Z)) (commands : gmap Z BakeryCommands)
    (down_major up_major : Z) : gset Z * gset Z :=
  let found := omap (fun entry => majors entry.2) (map_to_list commands) in
  (list_to_set (omap (fun '(down, _, minor) => if down =? down_major then Some minor else None) found),
   list_to_set (omap (fun '(_, up, minor) => if up =? up_major then Some minor else None) found)).

Definition used_site_minors_for_majors (sites : gmap Z BakeryCommands) (down_major up_major : Z) : gset Z * gset Z :=
  minors_where (fun command =>
    match command with
    | AddSite p => Some ((get_major_minor (site_parent_class_id p)).1, (get_major_minor (site_up_parent_class_id p)).1,
                         site_class_minor p)
    | _ => None
    end) sites down_major up_major.

Definition used_circuit_minors_for_majors (circuits : gmap Z BakeryCommands) (down_major up_major : Z)
    : gset Z * gset Z :=
  minors_where (fun command =>
    match command with
    | AddCircuit c => Some (ac_class_major c, ac_up_class_major c, ac_class_minor c)
    | _ => None
    end) circuits down_major up_major.

Definition used_pending_migration_shadow_minors_for_majors (migrations : gmap Z Migration) (down_major up_major : Z)
    : gset Z * gset Z :=
  let pending := List.filter (fun m => negb (bool_decide (stage m = Done))) (map snd (map_to_list migrations)) in
  (list_to_set (omap (fun m => if mig_class_major m =? down_major then Some (shadow_minor m) else None) pending),
   list_to_set (omap (fun m => if mig_up_class_major m =? up_major then Some (shadow_minor m) else None) pending)).

(** The first of [count] minors from [start] on that is not used. *)
Fixpoint first_free (used : gset Z) (count : nat) (start : Z) : option Z :=
  match count with
  | O => None
  | S count => if bool_decide (start ∈ used) then first_free used count (start + 1) else Some start
  end.

Fixpoint first_free_range (used : gset Z) (starts : list Z) : option Z :=
  match starts with
  | [] => None
  | start :: rest =>
      let last := Z.min (Z.min (start + 0x1FFF) 0xFFFF) 0xFFFE in
      match first_free used (Z.to_nat (last - start + 1)) start with
      | Some minor => Some minor
      | None => first_free_range used rest
      end
  end.

Definition SHADOW_RANGES : list Z := [0x2000; 0x4000; 0x6000; 0x8000; 0xA000; 0xC000; 0xE000].

Definition find_free_circuit_shadow_minor (sites circuits : gmap Z BakeryCommands) (migrations : gmap Z Migration)
    (down_major up_major : Z) : option Z :=
  let '(site_down, site_up) := used_site_minors_for_majors sites down_major up_major in
  let '(circuit_down, circuit_up) := used_circuit_minors_for_majors circuits down_major up_major in
  let '(shadow_down, shadow_up) := used_pending_migration_shadow_minors_for_majors migrations down_major up_major in
  let used := (site_down ∪ circuit_down ∪ shadow_down) ∪ (site_up ∪ circuit_up ∪ shadow_up) in
  match first_free_range used SHADOW_RANGES with
  | Some minor => Some minor
  | None => first_free used (Z.to_nat 0xFFFE) 1
  end.

(** ** Commands of a migration *)

Definition build_temp_add_cmd (base : BakeryCommands) (minor : Z) (down_min down_max up_min up_max : f32)
    (preserve_qdisc_handles : bool) : option BakeryCommands :=
  match base with
  | AddCircuit c =>
      Some (AddCircuit (mkAddCircuit (ac_circuit_hash c) (ac_circuit_name c) (ac_site_name c) (ac_parent_class_id c)
        (ac_up_parent_class_id c) minor down_min up_min down_max up_max (ac_class_major c) (ac_up_class_major c)
        (if preserve_qdisc_handles then ac_down_qdisc_handle c else None)
        (if preserve_qdisc_handles then ac_up_qdisc_handle c else None) (ac_ip_addresses c) (ac_sqm_override c)))
  | _ => None
  end.

(** Two's complement at 64 bits. *)
Definition i64_wrap (n : Z) : Z := (n + 2 ^ 63) mod 2 ^ 64 - 2 ^ 63.

Definition shadow_qdisc_allocation_key (circuit_hash : Z) (uplink : bool) : Z :=
  let base := i64_wrap (- i64_wrap (circuit_hash * 2)) in
  if uplink then i64_wrap (base - 1) else base.

(** The reserved handles of one direction: live ones, the old one and the final one. *)
Definition shadow_reserved (live : option (gset Z)) (old final : option Z) : gset Z :=
  default ∅ live ∪ match old with Some h => {[h]} | None => ∅ end ∪ match final with Some h => {[h]} | None => ∅ end.

Definition assign_shadow_qdisc_handles (m : Migration) (config : Config) (handles : QdiscHandleState)
    (live_reserved : gmap rstring (gset Z)) : result Panic (option Z * option Z) :=
  isp ← isp_interface config;
  let '(handles, down) :=
    match mig_down_qdisc_handle m with
    | Some _ =>
        assign_circuit_handle handles isp (shadow_qdisc_allocation_key (mig_circuit_hash m) false)
          (shadow_reserved (live_reserved !! isp) (old_down_qdisc_handle m) (mig_down_qdisc_handle m))
    | None => (handles, None)
    end in
  if on_a_stick_mode config then Ok (down, None)
  else
    internet ← internet_interface config;
    let up :=
      match mig_up_qdisc_handle m with
      | Some _ =>
          (assign_circuit_handle handles internet (shadow_qdisc_allocation_key (mig_circuit_hash m) true)
             (shadow_reserved (live_reserved !! internet) (old_up_qdisc_handle m) (mig_up_qdisc_handle m))).2
      | None => None
      end in
    Ok (down, up).

(** The shadow circuit: the new place with the shadow minor, the old rates and these handles. *)
Definition shadow_circuit (m : Migration) (down up : option Z) : AddCircuitCommand :=
  mkAddCircuit (mig_circuit_hash m) (mig_circuit_name m) (mig_site_name m) (mig_parent_class_id m)
    (mig_up_parent_class_id m) (shadow_minor m) (old_down_min m) (old_up_min m) (old_down_max m) (old_up_max m)
    (mig_class_major m) (mig_up_class_major m) down up [] (mig_sqm_override m).

Definition build_shadow_add_cmd (m : Migration) (config : Config) (handles : QdiscHandleState)
    (live_reserved : gmap rstring (gset Z)) : result Panic (option BakeryCommands) :=
  match build_temp_add_cmd (AddCircuit (shadow_circuit m (mig_down_qdisc_handle m) (mig_up_qdisc_handle m)))
          (shadow_minor m) (old_down_min m) (old_down_max m) (old_up_min m) (old_up_max m) false with
  | Some (AddCircuit temp) =>
      assigned ← assign_shadow_qdisc_handles m config handles live_reserved;
      let '(down, up) := assigned in
      Ok (Some (AddCircuit (with_handles temp down up)))
  | _ => Ok None
  end.

(** ** Queueing *)

Definition queue_runtime_migration (old_cmd new_cmd : BakeryCommands) (sites circuits : gmap Z BakeryCommands)
    (live_circuits : gmap Z Z) (migrations : gmap Z Migration) (require_live_circuit : bool)
    : bool * gmap Z Migration :=
  match new_cmd with
  | AddCircuit c =>
      if require_live_circuit && bool_decide (live_circuits !! ac_circuit_hash c = None) then (false, migrations)
      else
        match old_cmd with
        | AddCircuit old =>
            match find_free_circuit_shadow_minor sites circuits migrations (ac_class_major c) (ac_up_class_major c) with
            | None => (false, migrations)
            | Some shadow =>
                (true, <[ac_circuit_hash c :=
                   mkMigration (ac_circuit_hash c) (ac_circuit_name c) (ac_site_name c) (ac_class_major old)
                     (ac_up_class_major old) (ac_down_qdisc_handle old) (ac_up_qdisc_handle old) (ac_parent_class_id c)
                     (ac_up_parent_class_id c) (ac_class_major c) (ac_up_class_major c) (ac_down_qdisc_handle c)
                     (ac_up_qdisc_handle c) (ac_download_min old) (ac_download_max old) (ac_upload_min old)
                     (ac_upload_max old) (ac_download_min c) (ac_download_max c) (ac_upload_min c) (ac_upload_max c)
                     (ac_class_minor old) shadow (ac_class_minor c) (parse_ip_list (ac_ip_addresses c))
                     (ac_sqm_override c) new_cmd PrepareShadow 0 0]> migrations)
            end
        | _ => (false, migrations)
        end
  | _ => (false, migrations)
  end.

Definition queue_live_migration (old_cmd new_cmd : BakeryCommands) (sites circuits : gmap Z BakeryCommands)
    (live_circuits : gmap Z Z) (migrations : gmap Z Migration) : bool * gmap Z Migration :=
  queue_runtime_migration old_cmd new_cmd sites circuits live_circuits migrations true.

Definition queue_top_level_runtime_migration (old_cmd new_cmd : BakeryCommands) (sites circuits : gmap Z BakeryCommands)
    (live_circuits : gmap Z Z) (migrations : gmap Z Migration) : bool * gmap Z Migration :=
  queue_runtime_migration old_cmd new_cmd sites circuits live_circuits migrations false.

Definition circuits_with_pending_migration_targets (circuits : gmap Z BakeryCommands) (migrations : gmap Z Migration)
    : gmap Z BakeryCommands := (desired_cmd <$> migrations) ∪ circuits.

(** ** Invariants of the final handles *)

(** [{:?}] of an [Option<u16>]. *)
Definition debug_handle (h : option Z) : rstring :=
  match h with Some h => str "Some(" ++ u64_to_string h ++ str ")" | None => str "None" end.

(** A handle kept although its parent changed. *)
Definition kept_handle_error (direction : rstring) (old_parent new_parent : TcHandle) (old new : option Z)
    : option rstring :=
  if negb (bool_decide (old_parent = new_parent)) && bool_decide (is_Some old) && bool_decide (old = new) then
    Some (direction ++ str " qdisc handle " ++ debug_handle new
          ++ str " is still the old handle while the final parent changed from " ++ as_tc_string old_parent
          ++ str " to " ++ as_tc_string new_parent)
  else None.

(** [if let Some(..) = first { return first }]. *)
Definition or_else {A} (first : option A) (second : option A) : option A :=
  match first with Some a => Some a | None => second end.

Definition migration_qdisc_handle_rotation_invariant_error (m : Migration) : option rstring :=
  or_else
    (kept_handle_error (str "downlink") (tc_handle_from_major_minor (old_class_major m) (old_minor m))
       (tc_handle_from_major_minor (mig_class_major m) (final_minor m)) (old_down_qdisc_handle m) (mig_down_qdisc_handle m))
    (kept_handle_error (str "uplink") (tc_handle_from_major_minor (old_up_class_major m) (old_minor m))
       (tc_handle_from_major_minor (mig_up_class_major m) (final_minor m)) (old_up_qdisc_handle m) (mig_up_qdisc_handle m)).

(** A handle that is live below another parent. *)
Definition live_handle_error (direction : rstring) (live : option (gset Z)) (handle old : option Z) : option rstring :=
  match live, handle with
  | Some live, Some h =>
      if bool_decide (h ∈ live) && negb (bool_decide (Some h = old)) then
        Some (str "build-final command used " ++ direction ++ str " qdisc handle " ++ u64_to_string h
              ++ str ", but that handle is already live on the interface under another parent")
      else None
  | _, _ => None
  end.

Definition build_final_qdisc_handle_rotation_invariant_error_with_live_reservations (m : Migration)
    (final_cmd : BakeryCommands) (live_down live_up : option (gset Z)) : option rstring :=
  match final_cmd with
  | AddCircuit c =>
      if negb (ac_class_minor c =? final_minor m) then
        Some (str "build-final command used unexpected class minor " ++ u64_to_string (ac_class_minor c)
              ++ str " instead of " ++ u64_to_string (final_minor m))
      else if negb (bool_decide (ac_down_qdisc_handle c = mig_down_qdisc_handle m)) then
        Some (str "build-final command used downlink qdisc handle " ++ debug_handle (ac_down_qdisc_handle c)
              ++ str ", expected rotated handle " ++ debug_handle (mig_down_qdisc_handle m))
      else if negb (bool_decide (ac_up_qdisc_handle c = mig_up_qdisc_handle m)) then
        Some (str "build-final command used uplink qdisc handle " ++ debug_handle (ac_up_qdisc_handle c)
              ++ str ", expected rotated handle " ++ debug_handle (mig_up_qdisc_handle m))
      else
        or_else (migration_qdisc_handle_rotation_invariant_error m)
          (or_else (live_handle_error (str "downlink") live_down (ac_down_qdisc_handle c) (old_down_qdisc_handle m))
             (live_handle_error (str "uplink") live_up (ac_up_qdisc_handle c) (old_up_qdisc_handle m)))
  | _ => Some (str "build-final command was not an AddCircuit")
  end.

(** ** Labels and reasons *)

Definition runtime_circuit_label (circuit_hash : Z) (circuit_name : option rstring) : rstring :=
  match circuit_name with
  | Some name => if str_is_empty name then i64_to_string circuit_hash
                 else name ++ str " (" ++ i64_to_string circuit_hash ++ str ")"
  | None => i64_to_string circuit_hash
  end.

Definition migration_target_label (m : Migration) : rstring :=
  let circuit_label := runtime_circuit_label (mig_circuit_hash m) (mig_circuit_name m) in
  match mig_site_name m with
  | Some site_name =>
      if str_is_empty site_name then str "circuit " ++ circuit_label
      else str "circuit " ++ circuit_label ++ str " at site " ++ site_name
  | None => str "circuit " ++ circuit_label
  end.

Definition reload_now_required : rstring :=
  str ". A full reload is now required before further incremental topology mutations.".

Section Pending.
  Context {W : Type} `{TcHost W} `{TcShow W} `{ReloadHost W} `{FaultHost W} `{MapHost W}.
  Variable class_error_text : rstring -> ClassLineError -> rstring.

(** What the migrations work on. *)
Record PendingState : Type := mkPending {
  pend_circuits : gmap Z BakeryCommands;
  pend_mappings : gmap MappingKey MappingVal;
  pend_cache : LiveTcSnapshotCache;
  pend_telemetry : BakeryTelemetryState;
  pend_world : W
}.

Definition pend_with_telemetry (p : PendingState) (t : BakeryTelemetryState) : PendingState :=
  mkPending (pend_circuits p) (pend_mappings p) (pend_cache p) t (pend_world p).
Definition pend_with_cache (p : PendingState) (cache : LiveTcSnapshotCache) : PendingState :=
  mkPending (pend_circuits p) (pend_mappings p) cache (pend_telemetry p) (pend_world p).

Definition require_reload (p : PendingState) (summary : rstring) : PendingState :=
  pend_with_telemetry p (mark_reload_required (unix_time (pend_world p)) summary (pend_telemetry p)).

(** [mark_reload_required(..); mig.stage = Done]. *)
Definition fail_migration (m : Migration) (p : PendingState) (summary : rstring) : Migration * PendingState :=
  (with_stage m Done, require_reload p (summary ++ reload_now_required)).

Definition mark_migration_reload_required (p : PendingState) (circuit_hash : Z) (purpose : rstring)
    (result : ExecuteResult) : PendingState :=
  require_reload p (str "Bakery live migration failed for circuit " ++ i64_to_string circuit_hash ++ str " during "
    ++ purpose ++ str ": " ++ summarize_apply_result purpose result ++ reload_now_required).

Definition migration_stage_apply_succeeded (m : Migration) (p : PendingState) (purpose : rstring)
    (result : ExecuteResult) (next_stage : MigrationStage) : Migration * PendingState :=
  if exec_ok result then (with_stage m next_stage, p)
  else (with_stage m Done, mark_migration_reload_required p (mig_circuit_hash m) purpose result).

(** A live change of a migration; an accepted one invalidates the snapshots. *)
Definition apply_stage (m : Migration) (p : PendingState) (commands : list argv) (purpose : rstring)
    (next_stage : MigrationStage) : Migration * PendingState :=
  match commands with
  | [] => (with_stage m next_stage, p)
  | _ =>
      let '(result, t, w) := execute_and_record_live_change (pend_world p) (pend_telemetry p) commands purpose in
      let cache := if exec_ok result then empty_cache else pend_cache p in
      migration_stage_apply_succeeded m (mkPending (pend_circuits p) (pend_mappings p) cache t w) purpose result next_stage
  end.

(** ** Reading the live tree *)

Definition read_classes (p : PendingState) (interface : rstring) : result rstring class_snapshot * PendingState :=
  let '(snapshot, cache) := read_live_class_snapshot class_error_text (pend_world p) (pend_cache p) interface in
  (snapshot, pend_with_cache p cache).

(** [f] of the classes of each direction, where there are two. *)
Definition with_branch_classes {A} (config : Config) (p : PendingState)
    (f : rstring -> class_snapshot -> option (rstring * class_snapshot) -> A)
    : result Panic (result rstring A * PendingState) :=
  isp ← isp_interface config;
  let '(down, p) := read_classes p isp in
  match down with
  | Err e => Ok (Err e, p)
  | Ok down =>
      if on_a_stick_mode config then Ok (Ok (f isp down None), p)
      else
        internet ← internet_interface config;
        let '(up, p) := read_classes p internet in
        match up with
        | Err e => Ok (Err e, p)
        | Ok up => Ok (Ok (f isp down (Some (internet, up))), p)
        end
  end.

(** The handles of a migration with a minor, and its parents. *)
Definition migration_branch_verification (config : Config) (p : PendingState) (m : Migration) (minor : Z)
    : result Panic (result rstring MigrationBranchVerification * PendingState) :=
  let down_handle := tc_handle_from_major_minor (mig_class_major m) minor in
  let up_handle := tc_handle_from_major_minor (mig_up_class_major m) minor in
  with_branch_classes config p (fun isp down up =>
    mkBranchVerification (verify_migration_direction isp down down_handle (mig_parent_class_id m))
      ((fun '(internet, up) => verify_migration_direction internet up up_handle (mig_up_parent_class_id m)) <$> up)).

Definition migration_branch_wrong_parent_prune_commands (config : Config) (p : PendingState) (m : Migration) (minor : Z)
    : result Panic (result rstring (list argv) * PendingState) :=
  let down_handle := tc_handle_from_major_minor (mig_class_major m) minor in
  let up_handle := tc_handle_from_major_minor (mig_up_class_major m) minor in
  with_branch_classes config p (fun isp down up =>
    wrong_parent_prune_commands_for_direction isp down down_handle (mig_parent_class_id m)
    ++ match up with
       | Some (internet, up) =>
           wrong_parent_prune_commands_for_direction internet up up_handle (mig_up_parent_class_id m)
       | None => []
       end).

Definition snapshot_live_qdisc_handle_majors_or_empty (config : Config) (p : PendingState)
    : result Panic (gmap rstring (gset Z) * PendingState) :=
  isp ← isp_interface config;
  let '(isp_majors, cache) := read_live_qdisc_handle_majors (pend_world p) (pend_cache p) isp in
  snapshot ← snapshot_live_qdisc_handle_majors (pend_world p) (pend_cache p) config;
  cache ← (if on_a_stick_mode config then Ok cache
           else internet ← internet_interface config;
                Ok match isp_majors with
                   | Ok _ => if bool_decide (internet = isp) then cache
                             else (read_live_qdisc_handle_majors (pend_world p) cache internet).2
                   | Err _ => cache
                   end);
  Ok (match snapshot with Ok majors => majors | Err _ => ∅ end, pend_with_cache p cache).

(** ** The stages *)

(** The commands that build a circuit of a migration, by the kind of lazy queues. *)
Definition migration_add_commands (config : Config) (command : BakeryCommands) : result Panic (list argv) :=
  let of_mode mode := planned ← created_commands config mode command; Ok (default [] planned) in
  match lazy_queues (queues config) with
  | None | Some Lazy_No => of_mode Builder
  | Some Lazy_Htb => builder ← of_mode Builder; live ← of_mode LiveUpdate; Ok (builder ++ live)
  | Some Lazy_Full => of_mode LiveUpdate
  end.

Definition prepare_shadow (config : Config) (handles : QdiscHandleState) (m : Migration) (p : PendingState)
    : result Panic (Migration * PendingState) :=
  snapshot ← snapshot_live_qdisc_handle_majors_or_empty config p;
  let '(live_reserved, p) := snapshot in
  pruned ← migration_branch_wrong_parent_prune_commands config p m (shadow_minor m);
  match pruned with
  | (Err error, p) =>
      Ok (fail_migration m p (str "Bakery live-move shadow cleanup failed for " ++ migration_target_label m ++ str ": "
            ++ error))
  | (Ok prune, p) =>
      temp ← build_shadow_add_cmd m config handles live_reserved;
      match temp with
      | None => Ok (with_stage m Done, p)
      | Some temp =>
          add ← migration_add_commands config temp;
          Ok (apply_stage m p (prune ++ add) (str "live-move: create shadow") VerifyShadowReady)
      end
  end.

(** The verification of a branch: on to [next], another attempt, or the end. *)
Definition verify_stage (config : Config) (m : Migration) (p : PendingState) (kind : rstring) (minor attempts : Z)
    (retry next : Migration) : result Panic (Migration * PendingState) :=
  let label := migration_target_label m in
  verified ← migration_branch_verification config p m minor;
  Ok match verified with
     | (Err e, p) =>
         fail_migration m p (str "Bakery live-move " ++ kind ++ str " verification failed for " ++ label ++ str ": " ++ e)
     | (Ok verification, p) =>
         if branch_ready verification then (next, p)
         else if attempts <? MIGRATION_VERIFICATION_MAX_RETRIES then (retry, p)
         else
           fail_migration m p (str "Bakery live-move " ++ kind ++ str " verification did not find the expected " ++ kind
             ++ str " class/qdisc for " ++ label ++ str ": " ++ branch_summary verification)
     end.

(** [attempts.saturating_add(1)] on [u8]. *)
Definition next_attempt (attempts : Z) : Z := Z.min (attempts + 1) 255.

Definition verify_shadow_ready (config : Config) (m : Migration) (p : PendingState)
    : result Panic (Migration * PendingState) :=
  verify_stage config m p (str "shadow") (shadow_minor m) (shadow_verify_attempts m)
    (at_stage m VerifyShadowReady (next_attempt (shadow_verify_attempts m)) (final_verify_attempts m))
    (at_stage m SwapToShadow 0 (final_verify_attempts m)).

Definition verify_final_ready (config : Config) (m : Migration) (p : PendingState)
    : result Panic (Migration * PendingState) :=
  verify_stage config m p (str "final") (final_minor m) (final_verify_attempts m)
    (at_stage m VerifyFinalReady (shadow_verify_attempts m) (next_attempt (final_verify_attempts m)))
    (at_stage m SwapToFinal (shadow_verify_attempts m) 0).

(** Moves the addresses to the class with a minor. *)
Definition swap_to (m : Migration) (p : PendingState) (kind : rstring) (minor : Z) (next_stage : MigrationStage)
    : Migration * PendingState :=
  let '(r, mappings, w) := remap_migration_ips (pend_world p) (mig_ips m) (mig_class_major m) minor (pend_mappings p) in
  let p := mkPending (pend_circuits p) mappings (pend_cache p) (pend_telemetry p) w in
  match r with
  | Err e =>
      fail_migration m p (str "Bakery live-move " ++ kind ++ str " remap failed for " ++ migration_target_label m
        ++ str ": " ++ remap_error_text e)
  | Ok _ => (with_stage m next_stage, p)
  end.

Definition build_final (config : Config) (m : Migration) (p : PendingState) : result Panic (Migration * PendingState) :=
  pruned ← migration_branch_wrong_parent_prune_commands config p m (final_minor m);
  match pruned with
  | (Err error, p) =>
      Ok (fail_migration m p (str "Bakery live-move final cleanup failed for " ++ migration_target_label m ++ str ": "
            ++ error))
  | (Ok prune, p) =>
      snapshot ← snapshot_live_qdisc_handle_majors_or_empty config p;
      let '(live, p) := snapshot in
      isp ← isp_interface config;
      internet ← internet_interface config;
      match build_temp_add_cmd (desired_cmd m) (final_minor m) (new_down_min m) (new_down_max m) (new_up_min m)
              (new_up_max m) true with
      | None => Ok (apply_stage m p prune (str "live-move: build final") VerifyFinalReady)
      | Some final_cmd =>
          match build_final_qdisc_handle_rotation_invariant_error_with_live_reservations m final_cmd
                  (live !! isp) (live !! internet) with
          | Some summary =>
              Ok (fail_migration m p (str "Bakery live migration refused to build final state for "
                    ++ migration_target_label m ++ str " because the final qdisc handles were unsafe: " ++ summary))
          | None =>
              add ← migration_add_commands config final_cmd;
              Ok (apply_stage m p (prune ++ add) (str "live-move: build final") VerifyFinalReady)
          end
      end
  end.

Definition swap_to_final (m : Migration) (p : PendingState) : Migration * PendingState :=
  let '(m', p) := swap_to m p (str "final") (final_minor m) TeardownMigrationScaffold in
  if bool_decide (stage m' = Done) then (m', p)
  else (m', mkPending (<[mig_circuit_hash m := desired_cmd m]> (pend_circuits p)) (pend_mappings p) (pend_cache p)
              (pend_telemetry p) (pend_world p)).

Definition teardown (config : Config) (m : Migration) (p : PendingState) : result Panic (Migration * PendingState) :=
  prune ← match build_temp_add_cmd (AddCircuit (shadow_circuit m None None)) (shadow_minor m) (old_down_min m)
                  (old_down_max m) (old_up_min m) (old_up_max m) false with
          | Some shadow_cmd => prune ← to_prune config true shadow_cmd; Ok (default [] prune)
          | None => Ok []
          end;
  Ok (apply_stage m p prune (str "live-move: prune migration scaffold") Done).

Definition migration_step (config : Config) (handles : QdiscHandleState) (m : Migration) (p : PendingState)
    : result Panic (Migration * PendingState) :=
  match stage m with
  | PrepareShadow => prepare_shadow config handles m p
  | VerifyShadowReady => verify_shadow_ready config m p
  | SwapToShadow => Ok (swap_to m p (str "shadow") (shadow_minor m) BuildFinal)
  | BuildFinal => build_final config m p
  | VerifyFinalReady => verify_final_ready config m p
  | SwapToFinal => Ok (swap_to_final m p)
  | TeardownMigrationScaffold => teardown config m p
  | Done => Ok (m, p)
  end.

(** ** A tick *)

Definition cancel_pending_migrations_for_observe_mode (ts : Z) (migrations : gmap Z Migration) (reason : rstring)
    (t : BakeryTelemetryState) : gmap Z Migration * BakeryTelemetryState :=
  let canceled := size migrations in
  let t :=
    if (0 <? canceled)%nat then
      push_bakery_event ts (str "live_migrations_canceled") (str "info")
        (str "Bakery canceled " ++ usize_to_string canceled ++ str " pending live migration(s): " ++ reason) t
    else t in
  let t :=
    match bakery_reload_required_reason t with
    | Some reload_reason =>
        if is_live_migration_reload_required_reason reload_reason then
          clear_reload_required ts (str "Observe mode canceled pending Bakery live-migration verification state; "
            ++ str "incremental live-move reload requirements were cleared.") t
        else t
    | None => t
    end in
  (∅, t).

(** The loop over the migrations: how many may still advance, the map, what is to be removed. *)
Fixpoint migration_loop (config : Config) (handles : QdiscHandleState) (budget : nat) (keys : list Z)
    (migrations : gmap Z Migration) (to_remove : list Z) (p : PendingState)
    : result Panic (gmap Z Migration * list Z * PendingState) :=
  match keys, budget with
  | [], _ | _, O => Ok (migrations, to_remove, p)
  | key :: keys, S budget' =>
      match migrations !! key with
      | None => migration_loop config handles budget keys migrations to_remove p
      | Some m =>
          if bool_decide (stage m = Done) then
            migration_loop config handles budget keys migrations (to_remove ++ [mig_circuit_hash m]) p
          else
            stepped ← migration_step config handles m p;
            let '(m, p) := stepped in
            migration_loop config handles budget' keys (<[key := m]> migrations) to_remove p
      end
  end.

Definition process_pending_migrations (order : gmap Z Migration -> list Z) (config : Config)
    (handles : QdiscHandleState) (migrations : gmap Z Migration) (p : PendingState)
    : result Panic (gmap Z Migration * PendingState) :=
  if is_observe (queue_mode (queues config)) then
    let '(migrations, t) :=
      cancel_pending_migrations_for_observe_mode (unix_time (pend_world p)) migrations
        (str "queue_mode is observe; the shaping tree is not live.") (pend_telemetry p) in
    Ok (migrations, pend_with_telemetry p t)
  else
    looped ← migration_loop config handles MIGRATIONS_PER_TICK (order migrations) migrations [] p;
    let '(migrations, to_remove, p) := looped in
    Ok (foldl (fun m key => delete key m) migrations to_remove, p).

End Pending.
