(* ===== verification/BakeryMigrationSpec.v ===== *)
(** * Theorems about live migrations *)

From S2P Require Import Prelude RustStd RustCollections RustFloat RustFormat ShapedDevice.
From S2P Require Import TcHandle QdiscHandles QdiscHandlesSpec StormguardConfig BakeryCommands BakeryCommandsSpec.
From S2P Require Import BakeryPlan BakeryExecute BakeryExecuteSpec BakeryDrain BakeryDiff BakeryStormguard.
From S2P Require Import BakeryHandles BakeryTelemetry BakeryReload BakeryReloadSpec BakeryLazy BakeryMappings.
From S2P Require Import BakeryMappingsSpec BakeryMigration.

(** ** What one step does *)

(** The reason asks for a reload on behalf of a migration. *)
Definition migration_reason (t : BakeryTelemetryState) : Prop :=
  exists reason, bakery_reload_required_reason t = Some reason /\ is_live_migration_reload_required_reason reason = true.

(** The stages in order; a verification may be tried again. *)
Inductive steps_to : Migration -> Migration -> Prop :=
| to_verify_shadow m : stage m = PrepareShadow -> steps_to m (with_stage m VerifyShadowReady)
| to_shadow_retry m : stage m = VerifyShadowReady -> shadow_verify_attempts m < MIGRATION_VERIFICATION_MAX_RETRIES ->
    steps_to m (at_stage m VerifyShadowReady (next_attempt (shadow_verify_attempts m)) (final_verify_attempts m))
| to_swap_shadow m : stage m = VerifyShadowReady -> steps_to m (at_stage m SwapToShadow 0 (final_verify_attempts m))
| to_build_final m : stage m = SwapToShadow -> steps_to m (with_stage m BuildFinal)
| to_verify_final m : stage m = BuildFinal -> steps_to m (with_stage m VerifyFinalReady)
| to_final_retry m : stage m = VerifyFinalReady -> final_verify_attempts m < MIGRATION_VERIFICATION_MAX_RETRIES ->
    steps_to m (at_stage m VerifyFinalReady (shadow_verify_attempts m) (next_attempt (final_verify_attempts m)))
| to_swap_final m : stage m = VerifyFinalReady -> steps_to m (at_stage m SwapToFinal (shadow_verify_attempts m) 0)
| to_teardown m : stage m = SwapToFinal -> steps_to m (with_stage m TeardownMigrationScaffold)
| to_done m : stage m = TeardownMigrationScaffold -> steps_to m (with_stage m Done).

Lemma Ok_inj {E A} (a b : A) : Ok (E := E) a = Ok b -> a = b.
Proof. by intros [= ->]. Qed.

Lemma starts_with_app text prefix rest : starts_with text prefix = true -> starts_with (text ++ rest) prefix = true.
Proof.
  revert prefix. induction text as [|c text IH]; intros [|d prefix]; cbn; try done; [by destruct rest|].
  rewrite !andb_true_iff. intros [? ?]. split; [done|]. by apply IH.
Qed.

Lemma move_reason text rest : starts_with text (str "Bakery live-move ") = true ->
  is_live_migration_reload_required_reason (text ++ rest) = true.
Proof. intros Ht. unfold is_live_migration_reload_required_reason. by rewrite starts_with_app. Qed.
Lemma live_migration_reason text rest : starts_with text (str "Bakery live migration ") = true ->
  is_live_migration_reload_required_reason (text ++ rest) = true.
Proof. intros Ht. unfold is_live_migration_reload_required_reason. rewrite (starts_with_app _ _ _ Ht). apply orb_true_r. Qed.

Section Steps.
  Context {W : Type} `{TcHost W} `{TcShow W} `{ReloadHost W} `{FaultHost W} `{MapHost W}.
  Context (class_error_text : rstring -> ClassLineError -> rstring) (config : Config).

(** Neither the addresses nor the circuits change. *)
Definition pend_kept (p p' : PendingState (W := W)) : Prop :=
  pend_mappings p' = pend_mappings p /\ pend_circuits p' = pend_circuits p.

#[local] Instance pend_kept_preorder : PreOrder pend_kept.
Proof. split; [done|]. intros ??? [] []. split; congruence. Qed.

(** A step goes on to a next stage, or ends the migration and asks for a reload. *)
Definition goes_on (m m' : Migration) (p' : PendingState (W := W)) : Prop :=
  steps_to m m' \/ (m' = with_stage m Done /\ migration_reason (pend_telemetry p')).

Lemma require_reload_reason (p : PendingState (W := W)) text :
  is_live_migration_reload_required_reason text = true -> migration_reason (pend_telemetry (require_reload p text)).
Proof. intros Ht. exists text. split; [|done]. apply reason_mark_required. Qed.

Lemma fail_migration_goes_on m (p : PendingState (W := W)) text m' p' :
  fail_migration m p text = (m', p') -> is_live_migration_reload_required_reason (text ++ reload_now_required) = true ->
  pend_kept p p' /\ goes_on m m' p'.
Proof. intros [= <- <-] Ht. split; [done|]. right. split; [done|]. by apply require_reload_reason. Qed.

Lemma apply_stage_goes_on m (p : PendingState (W := W)) commands purpose next m' p' :
  apply_stage m p commands purpose next = (m', p') -> steps_to m (with_stage m next) ->
  pend_kept p p' /\ goes_on m m' p'.
Proof.
  unfold apply_stage. intros Ha Hs. destruct commands as [|c cs]; [injection Ha as <- <-; split; [done|by left]|].
  destruct (execute_and_record_live_change _ _ _ _) as [[r t] w].
  unfold migration_stage_apply_succeeded in Ha. destruct (exec_ok r); injection Ha as <- <-; (split; [done|]); [by left|].
  right. split; [done|]. apply require_reload_reason. apply live_migration_reason. by vm_compute.
Qed.

Lemma with_branch_classes_kept {A} (p : PendingState (W := W)) (f : rstring -> class_snapshot -> option (rstring * class_snapshot) -> A) r p' :
  with_branch_classes class_error_text config p f = Ok (r, p') -> pend_kept p p'.
Proof.
  unfold with_branch_classes. intros (isp & _ & Hr)%result_bind_Ok.
  unfold read_classes in Hr. destruct (read_live_class_snapshot _ _ _ _) as [[down|e] c1]; [|by injection Hr as _ <-].
  destruct (on_a_stick_mode config); [by injection Hr as _ <-|].
  apply result_bind_Ok in Hr as (internet & _ & Hr).
  destruct (read_live_class_snapshot _ _ _ _) as [[up|e] c2]; by injection Hr as _ <-.
Qed.

Lemma snapshot_or_empty_kept (p : PendingState (W := W)) majors p' :
  snapshot_live_qdisc_handle_majors_or_empty config p = Ok (majors, p') -> pend_kept p p'.
Proof.
  unfold snapshot_live_qdisc_handle_majors_or_empty. intros (isp & _ & Hr)%result_bind_Ok.
  destruct (read_live_qdisc_handle_majors _ _ _) as [r c].
  by apply result_bind_Ok in Hr as (s & _ & (c' & _ & [= _ <-])%result_bind_Ok).
Qed.

Lemma prepare_shadow_goes_on handles m (p : PendingState (W := W)) m' p' :
  prepare_shadow class_error_text config handles m p = Ok (m', p') -> stage m = PrepareShadow ->
  pend_kept p p' /\ goes_on m m' p'.
Proof.
  unfold prepare_shadow. intros ([live p1] & Hs & ([pruned p2] & Hp & Hr)%result_bind_Ok)%result_bind_Ok Hst.
  apply snapshot_or_empty_kept in Hs. apply with_branch_classes_kept in Hp.
  destruct pruned as [prune|error].
  - apply result_bind_Ok in Hr as (temp & Ht & Hr). unfold build_shadow_add_cmd in Ht. cbn [build_temp_add_cmd shadow_circuit] in Ht.
    apply result_bind_Ok in Ht as ([down up] & _ & [= <-]).
    apply result_bind_Ok in Hr as (add & _ & [= Hr]). apply apply_stage_goes_on in Hr as [Hk Hg]; [|by constructor].
    split; [by do 2 (etrans; [eassumption|])|done].
  - apply Ok_inj in Hr. apply fail_migration_goes_on in Hr as [Hk Hg].
    + split; [by do 2 (etrans; [eassumption|])|done].
    + rewrite <- !app_assoc. apply move_reason. by vm_compute.
Qed.

Lemma fail_migration_ends m (p : PendingState (W := W)) text m' p' :
  fail_migration m p text = (m', p') -> is_live_migration_reload_required_reason (text ++ reload_now_required) = true ->
  pend_kept p p' /\ m' = with_stage m Done /\ migration_reason (pend_telemetry p').
Proof. intros [= <- <-] Ht. split; [done|]. split; [done|]. by apply require_reload_reason. Qed.

Lemma verify_stage_cases m (p : PendingState (W := W)) kind minor attempts retry next m' p' :
  verify_stage class_error_text config m p kind minor attempts retry next = Ok (m', p') ->
  pend_kept p p'
  /\ ((m' = next /\ exists verification p1,
         migration_branch_verification class_error_text config p m minor = Ok (Ok verification, p1)
         /\ branch_ready verification = true)
      \/ (m' = retry /\ attempts < MIGRATION_VERIFICATION_MAX_RETRIES)
      \/ (m' = with_stage m Done /\ migration_reason (pend_telemetry p'))).
Proof.
  unfold verify_stage. intros ([verified p1] & Hv & Hr%Ok_inj)%result_bind_Ok.
  pose proof (with_branch_classes_kept _ _ _ _ Hv) as Hk. destruct verified as [verification|e].
  - destruct (branch_ready verification) eqn:Hready; [injection Hr as <- <-; split; [done|]; left; by eauto|].
    destruct (_ <? _) eqn:Hatt; [injection Hr as <- <-; split; [done|]; right; left; split; [done|lia]|].
    apply fail_migration_ends in Hr as [Hk' Hend]; [|rewrite <- !app_assoc; apply move_reason; by vm_compute].
    split; [exact (transitivity Hk Hk')|by right; right].
  - apply fail_migration_ends in Hr as [Hk' Hend]; [|rewrite <- !app_assoc; apply move_reason; by vm_compute].
    split; [exact (transitivity Hk Hk')|by right; right].
Qed.

Lemma verify_stage_goes_on m (p : PendingState (W := W)) kind minor attempts retry next m' p' :
  verify_stage class_error_text config m p kind minor attempts retry next = Ok (m', p') ->
  (attempts < MIGRATION_VERIFICATION_MAX_RETRIES -> steps_to m retry) -> steps_to m next -> goes_on m m' p'.
Proof.
  intros [_ [[-> _]|[[-> Hatt]|Hend]]]%verify_stage_cases Hretry Hnext; [by left|left; by apply Hretry|by right].
Qed.

Lemma build_final_goes_on m (p : PendingState (W := W)) m' p' :
  build_final class_error_text config m p = Ok (m', p') -> stage m = BuildFinal ->
  pend_kept p p' /\ goes_on m m' p'.
Proof.
  unfold build_final. intros ([pruned p1] & Hp & Hr)%result_bind_Ok Hst. apply with_branch_classes_kept in Hp.
  destruct pruned as [prune|error].
  - apply result_bind_Ok in Hr as ([live p2] & Hs & (isp & _ & (internet & _ & Hr)%result_bind_Ok)%result_bind_Ok).
    apply snapshot_or_empty_kept in Hs.
    pose proof (transitivity Hp Hs) as Hk. destruct (build_temp_add_cmd _ _ _ _ _ _ _) as [final_cmd|].
    + destruct (build_final_qdisc_handle_rotation_invariant_error_with_live_reservations _ _ _ _) as [summary|].
      * apply Ok_inj in Hr. apply fail_migration_goes_on in Hr as [Hk' Hg]; [split; [exact (transitivity Hk Hk')|done]|].
        rewrite <- !app_assoc. apply live_migration_reason. by vm_compute.
      * apply result_bind_Ok in Hr as (add & _ & [= Hr]). apply apply_stage_goes_on in Hr as [Hk' Hg]; [|by constructor].
        split; [exact (transitivity Hk Hk')|done].
    + apply Ok_inj in Hr. apply apply_stage_goes_on in Hr as [Hk' Hg]; [|by constructor]. split; [exact (transitivity Hk Hk')|done].
  - apply Ok_inj in Hr. apply fail_migration_goes_on in Hr as [Hk' Hg]; [split; [exact (transitivity Hp Hk')|done]|].
    rewrite <- !app_assoc. apply move_reason. by vm_compute.
Qed.

Lemma teardown_goes_on m (p : PendingState (W := W)) m' p' :
  teardown config m p = Ok (m', p') -> stage m = TeardownMigrationScaffold -> pend_kept p p' /\ goes_on m m' p'.
Proof.
  unfold teardown. intros (prune & _ & [= Hr])%result_bind_Ok Hst. apply apply_stage_goes_on in Hr; [done|by constructor].
Qed.

Lemma swap_to_goes_on m (p : PendingState (W := W)) kind minor next m' p' :
  swap_to m p kind minor next = (m', p') -> steps_to m (with_stage m next) ->
  goes_on m m' p' /\ pend_circuits p' = pend_circuits p.
Proof.
  unfold swap_to. destruct (remap_migration_ips _ _ _ _ _) as [[r mappings] w]. destruct r as [[]|e].
  - intros [= <- <-] Hs. split; [by left|done].
  - intros Hf Hs. apply fail_migration_goes_on in Hf as [[_ Hc] Hg]; [by split|].
    rewrite <- !app_assoc. apply move_reason. by vm_compute.
Qed.

Lemma swap_to_final_goes_on m (p : PendingState (W := W)) m' p' :
  swap_to_final m p = (m', p') -> stage m = SwapToFinal -> goes_on m m' p'.
Proof.
  unfold swap_to_final. destruct (swap_to _ _ _ _ _) as [m1 p1] eqn:Hsw. intros Hr Hst.
  apply swap_to_goes_on in Hsw as [Hg _]; [|by constructor]. destruct (bool_decide _); by injection Hr as <- <-.
Qed.

Lemma migration_step_goes_on handles m (p : PendingState (W := W)) m' p' :
  migration_step class_error_text config handles m p = Ok (m', p') -> stage m <> Done -> goes_on m m' p'.
Proof.
  unfold migration_step. intros Hr Hnd. destruct (stage m) eqn:Hst; [..|done].
  - by apply (prepare_shadow_goes_on handles m p).
  - by apply verify_stage_goes_on in Hr; [|by constructor..].
  - apply Ok_inj in Hr. apply swap_to_goes_on in Hr as [Hg _]; [done|by constructor].
  - by apply (build_final_goes_on m p).
  - by apply verify_stage_goes_on in Hr; [|by constructor..].
  - apply Ok_inj in Hr. by apply (swap_to_final_goes_on m p).
  - by apply (teardown_goes_on m p).
Qed.
End Steps.

(** ** Termination *)

(** A bound on the steps a migration still takes. *)
Definition attempts_left (attempts : Z) : nat := Z.to_nat (MIGRATION_VERIFICATION_MAX_RETRIES - attempts).
Definition steps_left (m : Migration) : nat :=
  match stage m with
  | PrepareShadow => 13
  | VerifyShadowReady => 9 + Nat.min 3 (attempts_left (shadow_verify_attempts m))
  | SwapToShadow => 8
  | BuildFinal => 7
  | VerifyFinalReady => 3 + Nat.min 3 (attempts_left (final_verify_attempts m))
  | SwapToFinal => 2
  | TeardownMigrationScaffold => 1
  | Done => 0
  end.

(** Attempts are counted from zero. *)
Definition attempts_ok (m : Migration) : Prop := 0 <= shadow_verify_attempts m /\ 0 <= final_verify_attempts m.

Lemma steps_to_decreases m m' :
  steps_to m m' -> attempts_ok m ->
  (steps_left m' < steps_left m)%nat /\ attempts_ok m' /\ mig_circuit_hash m' = mig_circuit_hash m.
Proof.
  intros Hs. unfold attempts_ok, steps_left, attempts_left.
  destruct Hs as [m Hst|m Hst Hlt|m Hst|m Hst|m Hst|m Hst Hlt|m Hst|m Hst|m Hst]; intros [Ha Hb];
    rewrite Hst; cbn [stage with_stage at_stage shadow_verify_attempts final_verify_attempts mig_circuit_hash];
    unfold next_attempt, MIGRATION_VERIFICATION_MAX_RETRIES in *; split_and!; try done; lia.
Qed.

Lemma steps_left_positive m : stage m <> Done -> (0 < steps_left m)%nat.
Proof. unfold steps_left. destruct (stage m); try done; lia. Qed.

Lemma steps_left_bound m : (steps_left m <= 13)%nat.
Proof. unfold steps_left. destruct (stage m); lia. Qed.

(** What a set of migrations still takes, with the tick that removes each. *)
Definition total_steps (migrations : gmap Z Migration) : nat :=
  map_fold (fun _ m acc => S (steps_left m) + acc)%nat 0%nat migrations.

Lemma total_steps_delete migrations key m :
  migrations !! key = Some m -> total_steps migrations = (S (steps_left m) + total_steps (delete key migrations))%nat.
Proof. intros Hm. unfold total_steps. rewrite (map_fold_delete_L _ _ key m migrations); [done|lia|done]. Qed.

Lemma total_steps_insert migrations key m :
  total_steps (<[key := m]> migrations) = (S (steps_left m) + total_steps (delete key migrations))%nat.
Proof. rewrite (total_steps_delete _ key m) by apply lookup_insert_eq. by rewrite delete_insert_eq. Qed.

Lemma total_steps_bound migrations : (total_steps migrations <= 14 * size migrations)%nat.
Proof.
  induction migrations as [|key m migrations Hk IH] using map_ind; [done|].
  rewrite total_steps_insert, map_size_insert_None, delete_id by done. pose proof (steps_left_bound m). lia.
Qed.

Lemma total_steps_zero migrations : total_steps migrations = 0%nat -> migrations = ∅.
Proof.
  intros Hz. destruct (map_choose_or_empty migrations) as [(key & m & Hm)|?]; [|done].
  apply total_steps_delete in Hm. lia.
Qed.

(** A map of migrations as [queue_runtime_migration] keeps it. *)
Definition migrations_ok (migrations : gmap Z Migration) : Prop :=
  forall key m, migrations !! key = Some m -> mig_circuit_hash m = key /\ attempts_ok m.

Lemma migrations_ok_queue old_cmd new_cmd sites circuits live migrations require queued migrations' :
  queue_runtime_migration old_cmd new_cmd sites circuits live migrations require = (queued, migrations') ->
  migrations_ok migrations -> migrations_ok migrations'.
Proof.
  unfold queue_runtime_migration. intros Hq Hok. destruct new_cmd; try by injection Hq as <- <-.
  destruct (_ && _); [by injection Hq as <- <-|]. destruct old_cmd; try by injection Hq as <- <-.
  destruct (find_free_circuit_shadow_minor _ _ _ _ _); injection Hq as <- <-; [|done].
  intros key m. rewrite lookup_insert_Some. intros [[<- <-]|[_ Hm]]; [|by apply Hok]. by split.
Qed.

(** The removal of the finished migrations. *)
Definition remove_keys (keys : list Z) (migrations : gmap Z Migration) : gmap Z Migration :=
  foldl (fun m key => delete key m) migrations keys.

Lemma lookup_remove_keys keys migrations key :
  remove_keys keys migrations !! key = if decide (key ∈ keys) then None else migrations !! key.
Proof.
  revert migrations. unfold remove_keys. induction keys as [|k keys IH]; intros migrations; cbn [foldl]; [done|].
  rewrite IH, lookup_delete. destruct (decide (key ∈ keys)).
  - by rewrite decide_True by (by right).
  - destruct (decide (k = key)) as [->|Hne]; [by rewrite decide_True by left|].
    rewrite decide_False; [done|]. by intros [->|?]%elem_of_cons.
Qed.

Lemma total_steps_remove keys migrations :
  (total_steps (remove_keys keys migrations) <= total_steps migrations)%nat
  /\ (forall key, key ∈ keys -> is_Some (migrations !! key) ->
      total_steps (remove_keys keys migrations) < total_steps migrations)%nat.
Proof.
  revert migrations. induction keys as [|k keys IH]; intros migrations; [split; [done|]; by intros ? ?%elem_of_nil|].
  change (remove_keys (k :: keys) migrations) with (remove_keys keys (delete k migrations)).
  destruct (IH (delete k migrations)) as [Hle Hlt].
  destruct (migrations !! k) as [m|] eqn:Hk.
  - rewrite (total_steps_delete _ _ _ Hk). split; [lia|]. intros; lia.
  - rewrite (delete_id migrations k Hk) in *. split; [done|]. intros key [->|Hin]%elem_of_cons [m' Hm']; [congruence|].
    by eapply Hlt.
Qed.

Section Ticks.
  Context {W : Type} `{TcHost W} `{TcShow W} `{ReloadHost W} `{FaultHost W} `{MapHost W}.
  Context (class_error_text : rstring -> ClassLineError -> rstring).

Lemma migration_loop_spec config handles keys : forall budget migrations removed (p : PendingState (W := W)) migrations' removed' p',
  migration_loop class_error_text config handles budget keys migrations removed p = Ok (migrations', removed', p') ->
  NoDup keys -> migrations_ok migrations ->
  migrations_ok migrations' /\ dom migrations' = dom migrations
  /\ (total_steps migrations' <= total_steps migrations)%nat
  /\ (forall key, key ∉ keys -> migrations' !! key = migrations !! key)
  /\ exists more, removed' = removed ++ more
       /\ (forall key, key ∈ more -> key ∈ keys /\ exists m, migrations !! key = Some m /\ stage m = Done)
       /\ ((0 < budget)%nat -> (exists key, key ∈ keys /\ is_Some (migrations !! key)) ->
           (total_steps migrations' < total_steps migrations)%nat \/ more <> []).
Proof.
  induction keys as [|key keys IH]; intros budget migrations removed p migrations' removed' p' Hl Hnd Hok.
  { destruct budget; injection Hl as <- <- <-; split_and!; try done; exists []; rewrite app_nil_r;
      split_and!; try done; try (by intros ? ?%elem_of_nil); intros _ (? & ?%elem_of_nil & _); done. }
  apply NoDup_cons in Hnd as [Hni Hnd]. destruct budget as [|budget]; cbn [migration_loop] in Hl.
  { injection Hl as <- <- <-. split_and!; try done. exists []. rewrite app_nil_r.
    split_and!; [done|by intros ? ?%elem_of_nil|lia]. }
  destruct (migrations !! key) as [m|] eqn:Hk.
  2:{ apply IH in Hl as (Hok' & Hdom & Hle & Hrest & more & -> & Hmore & Hlt); [|done|done]. split_and!; try done.
      - intros k Hnk. apply Hrest. set_solver.
      - exists more. split_and!; [done|by intros k [? ?]%Hmore; split; [right|]|].
        intros Hb (k & [->|Hin]%elem_of_cons & [m' Hm']); [congruence|]. eauto. }
  case_bool_decide as Hst.
  - apply IH in Hl as (Hok' & Hdom & Hle & Hrest & more & -> & Hmore & _); [|done|done]. split_and!; try done.
    + intros k Hnk. apply Hrest. set_solver.
    + exists (mig_circuit_hash m :: more). rewrite <- app_assoc. split_and!; [done| |by right].
      destruct (Hok _ _ Hk) as [-> _]. intros k [->|Hin]%elem_of_cons; [split; [left|by eauto]|].
      apply Hmore in Hin as [? ?]. by split; [right|].
  - apply result_bind_Ok in Hl as ([m' p1] & Hstep & Hl).
    apply migration_step_goes_on in Hstep; [|done].
    assert ((steps_left m' < steps_left m)%nat /\ attempts_ok m' /\ mig_circuit_hash m' = mig_circuit_hash m)
      as (Hdec & Hatt & Hhash).
    { destruct Hstep as [Hs|[-> _]]; [apply (steps_to_decreases m m' Hs), (Hok _ _ Hk)|].
      split_and!; [by apply steps_left_positive|apply (Hok _ _ Hk)|done]. }
    apply IH in Hl as (Hok' & Hdom & Hle & Hrest & more & -> & Hmore & _); [|done|].
    + rewrite (total_steps_insert migrations key m') in Hle. pose proof (total_steps_delete _ _ _ Hk) as Hd.
      split_and!; [done| |lia| |].
      * rewrite Hdom, dom_insert_lookup_L; [done|by eexists].
      * intros k Hnk. rewrite Hrest by set_solver. rewrite lookup_insert_ne; [done|]. set_solver.
      * exists more. split_and!; [done| |intros; left; lia].
        intros k Hin. apply Hmore in Hin as [Hin (m1 & Hm1 & Hd1)]. split; [by right|].
        rewrite lookup_insert_ne in Hm1 by congruence. by eauto.
    + intros k m1. rewrite lookup_insert_Some. intros [[<- <-]|[_ Hm1]]; [|by apply Hok].
      rewrite Hhash. by split; [apply (Hok _ _ Hk)|].
Qed.
(** *** Every step returns *)

(** The interfaces are configured; without them the lookups panic. *)
Definition interfaces_configured (config : Config) : Prop :=
  is_Some (bridge config) \/ is_Some (single_interface config).

Definition returns {A} (r : result Panic A) : Prop := exists a, r = Ok a.

Lemma returns_ok {A} (a : A) : returns (Ok a).
Proof. by eexists. Qed.

Lemma returns_bind {A B} (r : result Panic A) (f : A -> result Panic B) :
  returns r -> (forall a, r = Ok a -> returns (f a)) -> returns (r ≫= f).
Proof. intros [a ->] Hf. by apply Hf. Qed.

Lemma interfaces_return config : interfaces_configured config ->
  returns (isp_interface config) /\ returns (internet_interface config).
Proof.
  unfold interfaces_configured, isp_interface, internet_interface.
  intros [[b ->]|[s ->]]; [split; apply returns_ok|]. destruct (bridge config); split; apply returns_ok.
Qed.

Section Returning.
  Context (config : Config) (Hconf : interfaces_configured config).

Lemma isp_returns : returns (isp_interface config).
Proof. by apply interfaces_return. Qed.
Lemma internet_returns : returns (internet_interface config).
Proof. by apply interfaces_return. Qed.

Lemma push_if_returns cond interface command : returns interface -> returns (push_if cond interface command).
Proof. intros Hi. unfold push_if. destruct cond; [|apply returns_ok]. apply returns_bind; [done|]. intros; apply returns_ok. Qed.

Create HintDb returning.
#[local] Hint Resolve returns_ok isp_returns internet_returns push_if_returns : returning.
#[local] Ltac returning :=
  repeat first [ progress intros | solve [eauto with returning] | apply returns_bind | case_match ].

Lemma add_circuit_returns mode params : returns (add_circuit mode config params).
Proof. unfold add_circuit. returning. Qed.

Lemma created_commands_return mode params : returns (created_commands config mode (AddCircuit params)).
Proof. unfold created_commands, to_commands. pose proof (add_circuit_returns mode params). returning. Qed.

Lemma migration_add_commands_return params : returns (migration_add_commands config (AddCircuit params)).
Proof.
  unfold migration_add_commands. pose proof (created_commands_return Builder params).
  pose proof (created_commands_return LiveUpdate params). returning.
Qed.

Lemma to_prune_returns force command : returns (to_prune config force command).
Proof. unfold to_prune. returning. Qed.

Lemma with_branch_classes_returns {A} (p : PendingState (W := W)) (f : rstring -> class_snapshot -> option (rstring * class_snapshot) -> A) :
  returns (with_branch_classes class_error_text config p f).
Proof. unfold with_branch_classes. returning. Qed.

Lemma snapshot_or_empty_returns (p : PendingState (W := W)) : returns (snapshot_live_qdisc_handle_majors_or_empty config p).
Proof. unfold snapshot_live_qdisc_handle_majors_or_empty, snapshot_live_qdisc_handle_majors. returning. Qed.

Lemma build_shadow_add_cmd_returns m handles live : returns (build_shadow_add_cmd m config handles live).
Proof. unfold build_shadow_add_cmd, assign_shadow_qdisc_handles. returning. Qed.

Lemma build_shadow_add_cmd_circuit m handles live temp :
  build_shadow_add_cmd m config handles live = Ok (Some temp) -> exists c, temp = AddCircuit c.
Proof.
  unfold build_shadow_add_cmd. cbn [build_temp_add_cmd shadow_circuit]. intros ([down up] & _ & [= <-])%result_bind_Ok. by eexists.
Qed.

#[local] Hint Resolve to_prune_returns with_branch_classes_returns snapshot_or_empty_returns build_shadow_add_cmd_returns
  migration_add_commands_return : returning.

Lemma migration_step_returns handles m (p : PendingState (W := W)) :
  returns (migration_step class_error_text config handles m p).
Proof.
  unfold migration_step. destruct (stage m); try apply returns_ok.
  - unfold prepare_shadow. returning. subst.
    match goal with Hb : build_shadow_add_cmd _ _ _ _ = Ok _ |- _ => apply build_shadow_add_cmd_circuit in Hb as [? ->] end.
    auto with returning.
  - unfold verify_shadow_ready, verify_stage. returning.
  - unfold build_final. returning. unfold build_temp_add_cmd in *. destruct (desired_cmd m); simplify_eq. auto with returning.
  - unfold verify_final_ready, verify_stage. returning.
  - unfold teardown. returning.
Qed.

Lemma migration_loop_returns handles keys : forall budget migrations removed (p : PendingState (W := W)),
  returns (migration_loop class_error_text config handles budget keys migrations removed p).
Proof.
  induction keys as [|key keys IH]; intros budget migrations removed p; cbn [migration_loop]; [destruct budget; apply returns_ok|].
  destruct budget as [|budget]; [apply returns_ok|]. destruct (migrations !! key) as [m|]; [|done].
  destruct (bool_decide _); [done|]. apply returns_bind; [apply migration_step_returns|]. by intros [m' p'] _.
Qed.
End Returning.

(** *** Ticks *)

(** The migrations are visited in some order, each once. *)
Definition visits_all (order : gmap Z Migration -> list Z) : Prop :=
  forall migrations, NoDup (order migrations) /\ forall key, key ∈ order migrations <-> is_Some (migrations !! key).

Lemma process_pending_migrations_spec order config handles migrations (p : PendingState (W := W)) :
  interfaces_configured config -> visits_all order -> migrations_ok migrations ->
  exists migrations' p',
    process_pending_migrations class_error_text order config handles migrations p = Ok (migrations', p')
    /\ migrations_ok migrations' /\ (total_steps migrations' <= pred (total_steps migrations))%nat.
Proof.
  intros Hconf Hvisits Hok. unfold process_pending_migrations. destruct (is_observe _).
  { do 2 eexists. split; [done|]. split; [by intros key m ?%lookup_empty_Some|]. apply Nat.le_0_l. }
  destruct (migration_loop_returns config Hconf handles (order migrations) MIGRATIONS_PER_TICK migrations [] p)
    as [[[migrations1 removed] p'] Hl].
  rewrite Hl. do 2 eexists. split; [reflexivity|]. fold (remove_keys removed migrations1).
  destruct (Hvisits migrations) as [Hnd Hall].
  apply migration_loop_spec in Hl as (Hok1 & Hdom & Hle & Hrest & more & -> & Hmore & Hlt); [|done|done].
  cbn [app] in *. split.
  { intros key m. rewrite lookup_remove_keys. destruct (decide _); [done|]. apply Hok1. }
  destruct (total_steps_remove more migrations1) as [Hrle Hrlt].
  destruct (map_choose_or_empty migrations) as [(key & m & Hkey)|Hempty].
  - destruct Hlt as [Hlt|Hne]; [unfold MIGRATIONS_PER_TICK; lia| | |].
    + exists key. rewrite Hall. by split; eexists.
    + lia.
    + destruct more as [|k more]; [done|]. destruct (Hmore k) as [_ (mk & Hmk & _)]; [left|].
      assert (is_Some (migrations1 !! k)) as Hsome by (apply elem_of_dom; rewrite Hdom; apply elem_of_dom; by eexists).
      specialize (Hrlt k ltac:(left) Hsome). lia.
  - subst migrations. cbn in Hle. assert (total_steps ∅ = 0%nat) as Hz by done. lia.
Qed.

(** What a tick finds: the configuration, the saved handles, the order of the visit and the state that the
    commands since the last tick left. *)
Record TickInput : Type := mkTickInput {
  tick_config : Config;
  tick_handles : QdiscHandleState;
  tick_order : gmap Z Migration -> list Z;
  tick_state : PendingState (W := W)
}.

Fixpoint run_ticks (inputs : list TickInput) (migrations : gmap Z Migration) : result Panic (gmap Z Migration) :=
  match inputs with
  | [] => Ok migrations
  | input :: inputs =>
      stepped ← process_pending_migrations class_error_text (tick_order input) (tick_config input) (tick_handles input)
                  migrations (tick_state input);
      run_ticks inputs stepped.1
  end.

Lemma run_ticks_decrease inputs : forall migrations,
  Forall (fun input => interfaces_configured (tick_config input) /\ visits_all (tick_order input)) inputs ->
  migrations_ok migrations ->
  exists migrations', run_ticks inputs migrations = Ok migrations'
    /\ (total_steps migrations' <= total_steps migrations - length inputs)%nat.
Proof.
  induction inputs as [|input inputs IH]; intros migrations Hall Hok; cbn [run_ticks length]; [eexists; split; [done|lia]|].
  apply Forall_cons in Hall as [[Hconf Hvisits] Hall].
  destruct (process_pending_migrations_spec (tick_order input) (tick_config input) (tick_handles input) migrations
    (tick_state input)) as (migrations1 & p1 & Hp & Hok1 & Hle); [done..|].
  destruct (IH migrations1 Hall Hok1) as (migrations' & Hr & Hle'). exists migrations'. rewrite Hp. split; [exact Hr|lia].
Qed.

(** C12: Pending migrations end.  Whatever the host answers and whatever commands change between two ticks, no
    tick panics once the interfaces are configured, and after fourteen ticks per migration, none is left. *)
Theorem pending_migrations_finish inputs migrations :
  Forall (fun input => interfaces_configured (tick_config input) /\ visits_all (tick_order input)) inputs ->
  migrations_ok migrations -> (14 * size migrations <= length inputs)%nat ->
  run_ticks inputs migrations = Ok ∅.
Proof.
  intros Hall Hok Hlen. destruct (run_ticks_decrease inputs migrations Hall Hok) as (migrations' & -> & Hle).
  pose proof (total_steps_bound migrations). f_equal. apply total_steps_zero. lia.
Qed.

End Ticks.

(** ** The course of a migration *)

(** A class is listed below a parent and has a leaf qdisc. *)
Definition class_in_place (snapshot : class_snapshot) (handle parent : TcHandle) : Prop :=
  exists c, snapshot !! handle = Some c /\ class_parent c = Some parent /\ is_Some (leaf_qdisc_major c).

Lemma direction_ready_in_place interface snapshot handle parent :
  direction_ready (verify_migration_direction interface snapshot handle parent) = true ->
  class_in_place snapshot handle parent.
Proof.
  unfold direction_ready, verify_migration_direction. cbn [observed_parent observed_leaf_qdisc_major expected_parent].
  rewrite andb_true_iff, !bool_decide_eq_true. destruct (snapshot !! handle) as [c|] eqn:Hc; [|by intros [? _]].
  intros [Hp Hl]. by exists c.
Qed.

Section Course.
  Context {W : Type} `{TcHost W} `{TcShow W} `{ReloadHost W} `{FaultHost W} `{MapHost W}.
  Context (class_error_text : rstring -> ClassLineError -> rstring).

(** The class with a minor is listed in each direction. *)
Definition branch_in_place (config : Config) (p : PendingState (W := W)) (m : Migration) (minor : Z) : Prop :=
  let classes := read_live_class_snapshot class_error_text (pend_world p) in
  exists isp down,
    isp_interface config = Ok isp /\ (classes (pend_cache p) isp).1 = Ok down
    /\ class_in_place down (tc_handle_from_major_minor (mig_class_major m) minor) (mig_parent_class_id m)
    /\ (on_a_stick_mode config = false ->
        exists internet up, internet_interface config = Ok internet
          /\ (classes (classes (pend_cache p) isp).2 internet).1 = Ok up
          /\ class_in_place up (tc_handle_from_major_minor (mig_up_class_major m) minor) (mig_up_parent_class_id m)).

Lemma branch_ready_in_place config (p : PendingState (W := W)) m minor v p1 :
  migration_branch_verification class_error_text config p m minor = Ok (Ok v, p1) -> branch_ready v = true ->
  branch_in_place config p m minor.
Proof.
  unfold migration_branch_verification, with_branch_classes, branch_in_place, read_classes.
  intros (isp & Hisp & Hr)%result_bind_Ok Hready.
  destruct (read_live_class_snapshot _ (pend_world p) (pend_cache p) isp) as [[down|e] cache] eqn:Hdown; [|done].
  exists isp, down. rewrite Hdown. cbn [fst snd]. destruct (on_a_stick_mode config).
  - injection Hr as <- _. unfold branch_ready in Hready. cbn [ver_down ver_up] in Hready.
    apply andb_true_iff in Hready as [Hd _]. split_and!; [done|done|by eapply direction_ready_in_place|done].
  - apply result_bind_Ok in Hr as (internet & Hint & Hr). cbn [pend_world pend_cache pend_with_cache] in Hr.
    destruct (read_live_class_snapshot _ (pend_world p) cache internet) as [[up|e] cache2] eqn:Hup; [|done].
    injection Hr as <- _. unfold branch_ready in Hready. cbn [ver_down ver_up] in Hready.
    apply andb_true_iff in Hready as [Hd Hu]. split_and!; [done|done|by eapply direction_ready_in_place|].
    intros _. exists internet, up. rewrite Hup. split_and!; [done|done|by eapply direction_ready_in_place].
Qed.

(** Every address is mapped to a class. *)
Definition addresses_on (ips : list rstring) (mappings : gmap MappingKey MappingVal) (class : TcHandle) : Prop :=
  forall ip, ip ∈ ips -> exists v, mappings !! key_of ip = Some v /\ map_handle v = class.

Lemma remap_loop_maps target ips : forall (w : W) remapped current current' w',
  remap_loop w target ips remapped current = (Ok tt, current', w') ->
  addresses_on ips current' target
  /\ forall key v, current !! key = Some v -> map_handle v = target -> exists v', current' !! key = Some v' /\ map_handle v' = target.
Proof.
  induction ips as [|ip ips IH]; intros w remapped current current' w'; cbn [remap_loop].
  - destruct (clear_hot_cache w) as [[[]|error] w1].
    + intros [= <- _]. split; [by intros ? ?%elem_of_nil|]. by eauto.
    + unfold fail_remap. by destruct (rollback_migration_ip_remaps _ _ _) as [[? ?] ?].
  - destruct (add_ip_to_tc w _ _ _) as [[[]|error] w1].
    2:{ unfold fail_remap. by destruct (rollback_migration_ip_remaps _ _ _) as [[? ?] ?]. }
    intros [Hon Hkeep]%IH. split.
    + intros x [->|Hin]%elem_of_cons; [|by apply Hon]. eapply Hkeep; [apply lookup_insert_eq|done].
    + intros key v Hv Ht. destruct (decide (key = key_of ip)) as [->|Hne].
      * eapply Hkeep; [apply lookup_insert_eq|done].
      * eapply Hkeep; [by rewrite lookup_insert_ne|done].
Qed.

Lemma swap_to_maps m (p : PendingState (W := W)) kind minor next m' p' :
  swap_to m p kind minor next = (m', p') -> next <> Done -> stage m' = next ->
  addresses_on (mig_ips m) (pend_mappings p') (tc_handle_from_major_minor (mig_class_major m) minor).
Proof.
  unfold swap_to, remap_migration_ips. destruct (remap_loop _ _ _ _ _) as [[[[]|e] mappings] w] eqn:Hr.
  - intros [= <- <-] _ _. by eapply remap_loop_maps.
  - intros [= <- _] Hne Hst. cbn in Hst. congruence.
Qed.
(** One step of a migration: what it started from and what it left. *)
Record MigrationEvent : Type := mkEvent {
  ev_config : Config;
  ev_migration : Migration;
  ev_from : PendingState (W := W);
  ev_to : PendingState (W := W)
}.

(** The steps of a migration; anything may happen between two of them. *)
Inductive migrates (start : Migration) : list MigrationEvent -> Migration -> Prop :=
| migrates_start : migrates start [] start
| migrates_step trace config handles m p m' p' :
    migrates start trace m -> stage m <> Done ->
    migration_step class_error_text config handles m p = Ok (m', p') ->
    migrates start (trace ++ [mkEvent config m p p']) m'.

(** What a stage leaves behind when the next one is entered. *)
Definition milestone (start : Migration) (s : MigrationStage) (e : MigrationEvent) : Prop :=
  let class_of := tc_handle_from_major_minor (mig_class_major start) in
  match s with
  | VerifyShadowReady => branch_in_place (ev_config e) (ev_from e) start (shadow_minor start)
  | SwapToShadow => addresses_on (mig_ips start) (pend_mappings (ev_to e)) (class_of (shadow_minor start))
  | VerifyFinalReady => branch_in_place (ev_config e) (ev_from e) start (final_minor start)
  | SwapToFinal =>
      addresses_on (mig_ips start) (pend_mappings (ev_to e)) (class_of (final_minor start))
      /\ pend_circuits (ev_to e) = <[mig_circuit_hash start := desired_cmd start]> (pend_circuits (ev_from e))
  | _ => True
  end.

(** The milestones before a stage, in order. *)
Definition stages_before (s : MigrationStage) : list MigrationStage :=
  match s with
  | PrepareShadow | VerifyShadowReady => []
  | SwapToShadow => [VerifyShadowReady]
  | BuildFinal | VerifyFinalReady => [VerifyShadowReady; SwapToShadow]
  | SwapToFinal => [VerifyShadowReady; SwapToShadow; VerifyFinalReady]
  | TeardownMigrationScaffold | Done => [VerifyShadowReady; SwapToShadow; VerifyFinalReady; SwapToFinal]
  end.

Definition passed (start : Migration) (trace : list MigrationEvent) (s : MigrationStage) : Prop :=
  exists events, sublist events trace /\ Forall2 (milestone start) (stages_before s) events.

(** What a step may change: addresses only in a swap, the circuit only in the final one. *)
Definition step_frame (start : Migration) (e : MigrationEvent) : Prop :=
  (pend_mappings (ev_to e) = pend_mappings (ev_from e)
   \/ stage (ev_migration e) = SwapToShadow \/ stage (ev_migration e) = SwapToFinal)
  /\ (pend_circuits (ev_to e) = pend_circuits (ev_from e) \/ milestone start SwapToFinal e).

Definition same_migration (start m : Migration) : Prop :=
  m = at_stage start (stage m) (shadow_verify_attempts m) (final_verify_attempts m).

(** What a step of a migration does. *)
Definition step_result (start : Migration) (e : MigrationEvent) (m' : Migration) : Prop :=
  step_frame start e /\ same_migration start m'
  /\ let s := stage (ev_migration e) in
     (stage m' = Done /\ migration_reason (pend_telemetry (ev_to e)))
     \/ stages_before (stage m') = stages_before s
     \/ (stages_before (stage m') = stages_before s ++ [s] /\ milestone start s e).

Lemma goes_on_same start m m' (p' : PendingState (W := W)) :
  goes_on m m' p' -> same_migration start m -> same_migration start m'.
Proof. unfold same_migration. intros [Hs|[-> _]] Hm; [destruct Hs|]; by rewrite Hm. Qed.

(** A stage that builds or deletes. *)
Lemma kept_step_result start config m (p : PendingState (W := W)) m' p' :
  pend_kept p p' /\ goes_on m m' p' -> same_migration start m ->
  stage m = PrepareShadow \/ stage m = BuildFinal \/ stage m = TeardownMigrationScaffold ->
  step_result start (mkEvent config m p p') m'.
Proof.
  intros [[Hmap Hcirc] Hg] Hsame Hst. split; [by split; left|]. split; [by eapply goes_on_same|].
  cbn [ev_migration ev_to]. destruct Hg as [Hs|[-> Hreason]]; [|by left]. right; left.
  destruct Hs as [m Hs|m Hs|m Hs|m Hs|m Hs|m Hs|m Hs|m Hs|m Hs]; rewrite Hs in *; try done; by destruct Hst as [?|[?|?]].
Qed.

Lemma verify_step_result start config m (p : PendingState (W := W)) m' p' kind minor attempts retry next :
  verify_stage class_error_text config m p kind minor attempts retry next = Ok (m', p') -> same_migration start m ->
  same_migration start retry -> same_migration start next -> stage retry = stage m ->
  stages_before (stage next) = stages_before (stage m) ++ [stage m] ->
  (branch_in_place config p start minor -> milestone start (stage m) (mkEvent config m p p')) ->
  step_result start (mkEvent config m p p') m'.
Proof.
  intros ([Hmap Hcirc] & Hcase)%verify_stage_cases Hsame Hretry Hnext Hst Hbefore Hmile. split; [by split; left|].
  cbn [ev_migration ev_to]. destruct Hcase as [(-> & v & p1 & Hv & Hb)|[[-> _]|[-> Hreason]]].
  - split; [done|]. right; right. split; [done|]. apply Hmile. apply branch_ready_in_place in Hv; [|done].
    rewrite Hsame in Hv. exact Hv.
  - split; [done|]. right; left. by rewrite Hst.
  - split; [by rewrite Hsame|by left].
Qed.

Lemma swap_step_result start config m (p : PendingState (W := W)) m' p' :
  swap_to m p (str "shadow") (shadow_minor m) BuildFinal = (m', p') -> stage m = SwapToShadow -> same_migration start m ->
  step_result start (mkEvent config m p p') m'.
Proof.
  intros Hsw Hst Hsame. pose proof Hsw as Hcase. apply swap_to_goes_on in Hcase as [Hg Hcirc]; [|by constructor].
  split; [by split; [right; left|left]|]. split; [by eapply goes_on_same|]. cbn [ev_migration ev_to]. rewrite Hst.
  destruct Hg as [Hs|[-> Hreason]]; [|by left].
  assert (m' = with_stage m BuildFinal) as -> by (inversion Hs; congruence).
  right; right. split; [done|]. apply swap_to_maps in Hsw; [|done|done]. rewrite Hsame in Hsw. exact Hsw.
Qed.

Lemma final_step_result start config m (p : PendingState (W := W)) m' p' :
  swap_to_final m p = (m', p') -> stage m = SwapToFinal -> same_migration start m ->
  step_result start (mkEvent config m p p') m'.
Proof.
  unfold swap_to_final. destruct (swap_to _ _ _ _ _) as [m1 p1] eqn:Hsw. intros Hr Hst Hsame.
  pose proof Hsw as Hcase. apply swap_to_goes_on in Hcase as [Hg Hcirc]; [|by constructor].
  unfold step_result. cbn [ev_migration ev_to]. rewrite Hst. destruct Hg as [Hs|[-> Hreason]].
  - assert (m1 = with_stage m TeardownMigrationScaffold) as -> by (inversion Hs; congruence).
    cbn in Hr. injection Hr as <- <-. apply swap_to_maps in Hsw; [|done|done]. rewrite Hsame in Hsw.
    assert (milestone start SwapToFinal (mkEvent config m p
      (mkPending (<[mig_circuit_hash m := desired_cmd m]> (pend_circuits p1)) (pend_mappings p1) (pend_cache p1)
         (pend_telemetry p1) (pend_world p1)))) as Hmile.
    { split; [exact Hsw|]. cbn [ev_to ev_from pend_circuits]. rewrite Hcirc. by rewrite Hsame. }
    split; [by split; [right; right|right]|]. split; [by rewrite Hsame|]. right; right. by split.
  - rewrite bool_decide_true in Hr by done. injection Hr as <- <-.
    split; [by split; [right; right|left]|]. split; [by rewrite Hsame|by left].
Qed.

Lemma migration_step_result start config handles m (p : PendingState (W := W)) m' p' :
  migration_step class_error_text config handles m p = Ok (m', p') -> stage m <> Done -> same_migration start m ->
  step_result start (mkEvent config m p p') m'.
Proof.
  unfold migration_step. intros Hr Hnd Hsame. destruct (stage m) eqn:Hst; [..|done].
  - apply prepare_shadow_goes_on in Hr; [|done]. apply kept_step_result; eauto.
  - eapply verify_step_result in Hr; [exact Hr|done|by rewrite Hsame|by rewrite Hsame|done|by rewrite Hst|].
    rewrite Hst, Hsame. done.
  - apply Ok_inj in Hr. by apply swap_step_result.
  - apply build_final_goes_on in Hr; [|done]. apply kept_step_result; eauto.
  - eapply verify_step_result in Hr; [exact Hr|done|by rewrite Hsame|by rewrite Hsame|done|by rewrite Hst|].
    rewrite Hst, Hsame. done.
  - apply Ok_inj in Hr. by apply final_step_result.
  - apply teardown_goes_on in Hr; [|done]. apply kept_step_result; eauto.
Qed.

Lemma migrates_invariant start trace m :
  migrates start trace m -> stage start = PrepareShadow ->
  same_migration start m /\ Forall (step_frame start) trace
  /\ (passed start trace (stage m)
      \/ (stage m = Done /\ exists e, last trace = Some e /\ migration_reason (pend_telemetry (ev_to e)))).
Proof.
  intros Hrun Hst. induction Hrun as [|trace config handles m p m' p' _ IH Hnd Hstep].
  { split_and!; [by destruct start|done|]. left. exists []. rewrite Hst. by split; [|constructor]. }
  destruct IH as (Hsame & Hall & Hp). destruct Hp as [(events & Hsub & Hmiles)|[? _]]; [|done].
  apply (migration_step_result start) in Hstep as (Hframe & Hsame' & Hnext); [|done|done]. split; [done|]. split; [apply Forall_app; by split; [|apply Forall_singleton]|].
  cbn [ev_migration ev_to] in Hnext. destruct Hnext as [[Hd Hreason]|[Heq|[Heq Hmile]]].
  - right. split; [done|]. eexists. by rewrite last_snoc.
  - left. exists events. rewrite Heq. split; [by apply sublist_inserts_r|done].
  - left. exists (events ++ [mkEvent config m p p']). rewrite Heq.
    split; [by apply sublist_app|]. apply Forall2_app; [done|]. by constructor.
Qed.

(** C11: A migration takes effect only after what it relies on was seen.  Its addresses are moved to the shadow
    class only after the live tree listed that class below the new parent with a leaf qdisc, to the final
    class only after it listed the final one, and the circuit is recorded at its new place exactly when all its
    addresses are on the final class; no other step touches addresses or circuits.  A migration that ends
    without passing these points in this order has asked for a full reload. *)
Theorem migration_moves_only_after_verification start trace m :
  stage start = PrepareShadow -> migrates start trace m ->
  Forall (step_frame start) trace
  /\ (passed start trace (stage m)
      \/ (stage m = Done /\ exists e, last trace = Some e /\ migration_reason (pend_telemetry (ev_to e)))).
Proof. intros Hst Hrun. by apply migrates_invariant. Qed.

End Course.

(** ** A host that lists what it was told to list *)

Record MigrationToy : Type := mkMigrationToy { toy_batches : list rstring; toy_listing : rstring }.

#[export] Instance migration_toy_host : TcHost MigrationToy := {
  write_file w _ := (true, w);
  run_tc_batch w text := (Some (mkTcOutput (Some 0) []), mkMigrationToy (toy_batches w ++ [text]) (toy_listing w));
  read_meminfo _ := Ok (str "MemTotal: 16000000 kB
MemAvailable: 15000000 kB
")
}.
#[export] Instance migration_toy_show : TcShow MigrationToy := fun w _ => Ok (toy_listing w).
#[export] Instance migration_toy_reload : ReloadHost MigrationToy := {
  unix_time _ := 0;
  instant_ms _ := 0;
  qdisc_show _ _ := Ok (JArray []);
  filter_show _ _ := Err [];
  set_tc_classify_bypass w _ := (Ok tt, w);
  save_handles w _ := w
}.
#[export] Instance migration_toy_fault : FaultHost MigrationToy := { fault_file _ := None; remove_fault_file w := w }.
#[export] Instance migration_toy_map : MapHost MigrationToy := {
  add_ip_to_tc w _ _ _ := (Ok tt, w);
  del_ip_from_tc w _ := (Ok tt, w);
  clear_hot_cache w := (Ok tt, w)
}.

Definition migration_error_text (interface : rstring) (error : ClassLineError) : rstring := str "unreadable".
Definition migration_config : Config :=
  mkConfig (mkQueueConfig (str "cake diffserv4") Shape 4 4 4 4 false false None false None None None None)
    (Some (mkBridgeConfig true (str "eth0") (str "eth1") None)) None None.
(** A circuit below site [0x3], and its place below site [0x4] with a given minor. *)
Definition migration_old : BakeryCommands := AddCircuit (reload_example_circuit 7 5).
Definition migration_new (minor : Z) : BakeryCommands :=
  AddCircuit (mkAddCircuit 7 None None (mkTcHandle 0x10004) (mkTcHandle 0x20004) minor (f32_of_Z 1) (f32_of_Z 1)
    (f32_of_Z 100) (f32_of_Z 20) 1 2 None None (str "192.0.2.1, 192.0.2.2") None).
Definition queued_migrations (minor : Z) : gmap Z Migration :=
  (queue_live_migration migration_old (migration_new minor) ∅ {[7 := migration_old]} {[7 := 1]} ∅).2.
Definition migration_world : MigrationToy :=
  mkMigrationToy [] (str "class htb 1:2000 parent 1:4 leaf 9001: prio 3 rate 1Mbit ceil 100Mbit
class htb 2:2000 parent 2:4 leaf 9002: prio 3 rate 1Mbit ceil 20Mbit
class htb 1:9 parent 1:4 leaf 9003: prio 3 rate 1Mbit ceil 100Mbit
class htb 2:9 parent 2:4 leaf 9004: prio 3 rate 1Mbit ceil 20Mbit
").
Definition migration_state : PendingState (W := MigrationToy) :=
  mkPending {[7 := migration_old]} ∅ empty_cache
    (mkTelemetry Mode_Idle None no_progress (mkLastApply None None None None Apply_None 0 0 0) (mkAlert false None)
       (mkAlert false None) []) migration_world.

Definition keys_in_order (migrations : gmap Z Migration) : list Z := (map_to_list migrations).*1.

Lemma keys_in_order_visits_all : visits_all keys_in_order.
Proof.
  intros migrations. split; [apply NoDup_fst_map_to_list|]. intros key. unfold keys_in_order. rewrite list_elem_of_fmap. split.
  - intros ([k m] & -> & Hin%elem_of_map_to_list). by eexists.
  - intros [m Hm]. exists (key, m). split; [done|]. by apply elem_of_map_to_list.
Qed.

Definition migration_input : TickInput (W := MigrationToy) :=
  mkTickInput migration_config QdiscHandleState_default keys_in_order migration_state.

Lemma pending_migrations_finish_witness :
  size (queued_migrations 9) = 1%nat
  /\ run_ticks migration_error_text (replicate 14 migration_input) (queued_migrations 9) = Ok ∅.
Proof.
  split; [by vm_compute|]. apply (pending_migrations_finish migration_error_text (replicate 14 migration_input) (queued_migrations 9)).
  - apply Forall_replicate. split; [left; by eexists|apply keys_in_order_visits_all].
  - unfold queued_migrations. apply (migrations_ok_queue migration_old (migration_new 9) ∅ {[7 := migration_old]} {[7 := 1]} ∅ true true);
      [by vm_compute|]. by intros key m ?%lookup_empty_Some.
  - rewrite length_replicate. by vm_compute.
Defined.

(** The steps of a migration with nothing in between. *)
Fixpoint course (steps : nat) (m : Migration) (p : PendingState (W := MigrationToy)) : list (MigrationEvent (W := MigrationToy)) * Migration :=
  match steps with
  | O => ([], m)
  | S steps =>
      if bool_decide (stage m = Done) then ([], m)
      else
        match migration_step migration_error_text migration_config QdiscHandleState_default m p with
        | Ok (m', p') =>
            let '(trace, last) := course steps m' p' in (mkEvent migration_config m p p' :: trace, last)
        | Err _ => ([], m)
        end
  end.

Lemma course_migrates start steps : forall before m p trace m',
  migrates migration_error_text start before m -> course steps m p = (trace, m') ->
  migrates migration_error_text start (before ++ trace) m'.
Proof.
  induction steps as [|steps IH]; intros before m p trace m' Hb; cbn [course]; [intros [= <- <-]; by rewrite app_nil_r|].
  destruct (bool_decide _) eqn:Hd; [intros [= <- <-]; by rewrite app_nil_r|]. apply bool_decide_eq_false in Hd.
  destruct (migration_step _ _ _ _ _) as [[m1 p1]|] eqn:Hs; [|intros [= <- <-]; by rewrite app_nil_r].
  destruct (course steps m1 p1) as [rest last] eqn:Hc. intros [= <- <-].
  apply (IH (before ++ [mkEvent migration_config m p p1])) in Hc; [by rewrite <- app_assoc in Hc|]. by econstructor.
Qed.

Definition example_course (minor : Z) : option (list (MigrationEvent (W := MigrationToy)) * Migration) :=
  (fun start => course 14 start migration_state) <$> (queued_migrations minor !! 7).

(** The stage a course ends in and the reason for a reload, if any. *)
Definition course_end (run : list (MigrationEvent (W := MigrationToy)) * Migration) : MigrationStage * option rstring :=
  (stage run.2, last run.1 ≫= fun e => bakery_reload_required_reason (pend_telemetry (ev_to e))).
(** The last commands of a course. *)
Definition last_commands (run : list (MigrationEvent (W := MigrationToy)) * Migration) : list rstring :=
  default [] (str_lines <$> (last run.1 ≫= fun e => last (toy_batches (pend_world (ev_to e))))).
(** The class of the circuit after a course. *)
Definition class_after (run : list (MigrationEvent (W := MigrationToy)) * Migration) : option Z :=
  last run.1 ≫= fun e => match pend_circuits (ev_to e) !! 7 with Some (AddCircuit c) => Some (ac_class_minor c) | _ => None end.

Lemma migration_moves_only_after_verification_witness :
  exists start trace m,
    queued_migrations 9 !! 7 = Some start /\ course 14 start migration_state = (trace, m)
    /\ stage m = Done /\ passed migration_error_text start trace Done.
Proof.
  assert (stage <$> (queued_migrations 9 !! 7) = Some PrepareShadow) as Hst by (by vm_compute).
  assert (course_end <$> example_course 9 = Some (Done, None)) as Hend by (by vm_compute). unfold example_course in Hend.
  destruct (queued_migrations 9 !! 7) as [start|]; [|done]. injection Hst as Hst. cbn [fmap option_fmap option_map] in Hend.
  destruct (course 14 start migration_state) as [trace m] eqn:Hc. injection Hend as Hd Hr. cbn [fst snd] in Hd, Hr.
  exists start, trace, m. split_and!; [done|done|done|].
  destruct (migration_moves_only_after_verification migration_error_text start trace m Hst) as [_ Hp].
  { apply (course_migrates start 14 [] start migration_state trace m); [constructor|done]. }
  rewrite Hd in Hp. destruct Hp as [Hp|(_ & e & He & reason & Hreason & _)]; [done|].
  rewrite He in Hr. cbn in Hr. unfold mbind, option_bind in Hr. congruence.
Defined.

(** A shadow class may be the final class: a circuit that moves to the first minor of the shadow range gets its
    own minor as the shadow.  The migration then ends well, with the circuit recorded at that class, and its last
    commands delete the class. *)
Lemma shadow_may_be_the_final_class :
  (fun m => (shadow_minor m, final_minor m)) <$> (queued_migrations 0x2000 !! 7) = Some (0x2000, 0x2000)
  /\ course_end <$> example_course 0x2000 = Some (Done, None)
  /\ example_course 0x2000 ≫= class_after = Some 0x2000
  /\ last_commands <$> example_course 0x2000
    = Some [str "qdisc del dev eth0 parent 0x2:0x2000"; str "qdisc del dev eth1 parent 0x1:0x2000";
            str "class del dev eth1 parent 0x1:0x4 classid 0x1:0x2000";
            str "class del dev eth0 parent 0x2:0x4 classid 0x2:0x2000"].
Proof. split_and!; by vm_compute. Qed.
