(* ===== verification/BakeryOverlays.v ===== *)
(** * Overlays of dynamic circuits and live changes of site speeds ([lqos_bakery/src/lib.rs])

    A dynamic circuit is a shaped device that is not in the planned batches.  The Bakery keeps it as an overlay
    with the class minor it was given: it is added to the live tree at once where there is one, and appended to
    every later batch, in place of a planned circuit of the same hash.

    The file of dynamic circuits is an argument ([None] when it is missing, unreadable or empty), as are the
    configuration that [load_config] returned and the answer on the licence.  [iter] is the iteration order of
    the overlays.  Logging, the urgent message on the limit and the display snapshot of the queues are left
    out. *)

From S2P Require Import Prelude RustStd RustCollections RustFloat RustFormat ShapedDevice.
From S2P Require Import TcHandle QdiscHandles StormguardConfig BakeryCommands BakeryPlan BakeryExecute.
From S2P Require Import BakeryDrain BakeryDiff BakeryStormguard BakeryHandles BakeryTelemetry BakeryReload.
From S2P Require Import BakeryLazy BakeryMappings BakeryMigration.

Definition ACTIVE_RUNTIME_MINOR_START : Z := 0x1000.

(** ** Addresses as text *)

(** [Display] of [Ipv4Addr]. *)
Definition display_ipv4 (a : Ipv4Addr) : rstring := join_words 46 (map u64_to_string (ipv4_octets a)).

(** The eight groups of an address. *)
Fixpoint groups_of (octets : list Z) : list Z :=
  match octets with
  | high :: low :: rest => high * 256 + low :: groups_of rest
  | _ => []
  end.

(** The first longest span of zero groups: start and length. *)
Fixpoint longest_zero_span (groups : list Z) (index : nat) (longest current : nat * nat) : nat * nat :=
  match groups with
  | [] => longest
  | group :: groups =>
      if group =? 0 then
        let current := (if (current.2 =? 0)%nat then index else current.1, S current.2) in
        longest_zero_span groups (S index) (if (longest.2 <? current.2)%nat then current else longest) current
      else longest_zero_span groups (S index) longest (0, 0)%nat
  end.

Definition display_groups (groups : list Z) : rstring := join_words 58 (map lower_hex groups).

(** [Display] of [Ipv6Addr]. *)
Definition display_ipv6 (a : Ipv6Addr) : rstring :=
  let octets := ipv6_octets a in
  if bool_decide (take 12 octets = replicate 10 0 ++ [255; 255]) then
    str "::ffff:" ++ join_words 46 (map u64_to_string (drop 12 octets))
  else
    let groups := groups_of octets in
    let '(start, len) := longest_zero_span groups 0 (0, 0)%nat (0, 0)%nat in
    if (1 <? len)%nat then display_groups (take start groups) ++ str "::" ++ display_groups (drop (start + len) groups)
    else display_groups groups.

(** [Vec::dedup]. *)
Fixpoint dedup (l : list rstring) : list rstring :=
  match l with
  | a :: rest =>
      match rest with
      | b :: _ => if bool_decide (a = b) then dedup rest else a :: dedup rest
      | [] => [a]
      end
  | [] => []
  end.

Definition ip_list_from_shaped_device (device : ShapedDevice) : rstring :=
  let ips :=
    map (fun '(ip, prefix) => display_ipv4 ip ++ str "/" ++ u64_to_string prefix) (dev_ipv4 device)
    ++ map (fun '(ip, prefix) => display_ipv6 ip ++ str "/" ++ u64_to_string prefix) (dev_ipv6 device) in
  join_words 44 (dedup (sort_with ord_leb ips)).

(** ** Overlays *)

Record DynamicCircuitOverlayEntry : Type := mkOverlay {
  overlay_device : ShapedDevice;
  overlay_minor : option Z
}.

Definition runtime_hash_to_i64 (text : rstring) : Z := hash_to_i64 text.

Definition normalize_circuit_id_key (value : rstring) : rstring := to_ascii_lowercase (trim value).

Definition recompute_shaped_hashes (device : ShapedDevice) : ShapedDevice := refresh_hashes device.

Definition load_dynamic_circuit_overlays (file : option (list ShapedDevice)) : gmap Z DynamicCircuitOverlayEntry :=
  fold_left (fun overlays shaped =>
    if is_blank (circuit_id shaped) then overlays
    else if is_blank (device_id shaped) then overlays
    else
      let shaped := recompute_shaped_hashes shaped in
      <[circuit_hash shaped := mkOverlay shaped None]> overlays) (default [] file) ∅.

(** ** Minors *)

Definition find_free_dynamic_circuit_minor (used_down used_up : gset Z) : option Z :=
  let start := Z.min ACTIVE_RUNTIME_MINOR_START 0xFFFF in
  first_free (used_down ∪ used_up) (Z.to_nat (0xFFFE - start + 1)) start.

(** The minors of sites, circuits and shadows of pending migrations on a pair of majors. *)
Definition used_minors_for_majors (sites circuits : gmap Z BakeryCommands) (migrations : gmap Z Migration)
    (down_major up_major : Z) : gset Z * gset Z :=
  let '(site_down, site_up) := used_site_minors_for_majors sites down_major up_major in
  let '(circuit_down, circuit_up) := used_circuit_minors_for_majors circuits down_major up_major in
  let '(shadow_down, shadow_up) := used_pending_migration_shadow_minors_for_majors migrations down_major up_major in
  (site_down ∪ circuit_down ∪ shadow_down, site_up ∪ circuit_up ∪ shadow_up).

(** The minor of an overlay: the one it had, if it is free, or else the first free one. *)
Definition choose_minor (desired : option Z) (used_down used_up : gset Z) : option Z :=
  let desired :=
    match desired with
    | Some minor =>
        if (minor <? ACTIVE_RUNTIME_MINOR_START mod 2 ^ 16) || bool_decide (minor ∈ used_down)
           || bool_decide (minor ∈ used_up) then None
        else Some minor
    | None => None
    end in
  match desired with Some minor => Some minor | None => find_free_dynamic_circuit_minor used_down used_up end.

(** [(!text.trim().is_empty()).then(|| text.clone())]. *)
Definition unless_blank (text : rstring) : option rstring := if is_blank text then None else Some text.

Definition overlay_circuit (hash : Z) (device : ShapedDevice) (down_parent up_parent : TcHandle) (minor : Z)
    : AddCircuitCommand :=
  mkAddCircuit hash (unless_blank (circuit_name device)) (unless_blank (parent_node device)) down_parent up_parent minor
    (download_min_mbps device) (upload_min_mbps device) (download_max_mbps device) (upload_max_mbps device)
    (get_major_minor down_parent).1 (get_major_minor up_parent).1 None None (ip_list_from_shaped_device device)
    (sqm_override device).

(** ** Appending to a batch *)

Definition planned_sites (batch : list BakeryCommands) : gmap Z BakeryCommands :=
  fold_left (fun sites cmd => match cmd with AddSite p => <[site_hash p := cmd]> sites | _ => sites end) batch ∅.
Definition planned_circuits (batch : list BakeryCommands) : gmap Z BakeryCommands :=
  fold_left (fun circuits cmd => match cmd with AddCircuit c => <[ac_circuit_hash c := cmd]> circuits | _ => circuits end)
    batch ∅.

(** [batch.retain(..)]: without the circuits of a hash. *)
Definition without_circuit (hash : Z) (batch : list BakeryCommands) : list BakeryCommands :=
  List.filter (fun cmd => match cmd with AddCircuit c => negb (ac_circuit_hash c =? hash) | _ => true end) batch.

Record AppendState : Type := mkAppend {
  app_batch : list BakeryCommands;
  app_overlays : gmap Z DynamicCircuitOverlayEntry;
  app_used : gmap (Z * Z) (gset Z * gset Z)
}.

(** One round of the loop over the overlays. *)
Definition append_overlay (sites circuits : gmap Z BakeryCommands) (migrations : gmap Z Migration) (s : AppendState)
    (hash : Z) : AppendState :=
  match app_overlays s !! hash with
  | None => s
  | Some entry =>
      if is_blank (circuit_id (overlay_device entry)) || is_blank (device_id (overlay_device entry)) then s
      else
        let device := recompute_shaped_hashes (overlay_device entry) in
        let with_entry minor := <[hash := mkOverlay device minor]> (app_overlays s) in
        match sites !! runtime_hash_to_i64 (parent_node device) ≫= site_class_handles with
        | None => mkAppend (app_batch s) (with_entry (overlay_minor entry)) (app_used s)
        | Some (down_parent, up_parent) =>
            let majors := ((get_major_minor down_parent).1, (get_major_minor up_parent).1) in
            let '(used_down, used_up) :=
              default (used_minors_for_majors sites circuits migrations majors.1 majors.2) (app_used s !! majors) in
            match choose_minor (overlay_minor entry) used_down used_up with
            | None => mkAppend (app_batch s) (with_entry (overlay_minor entry)) (<[majors := (used_down, used_up)]> (app_used s))
            | Some minor =>
                mkAppend
                  (without_circuit hash (app_batch s) ++ [AddCircuit (overlay_circuit hash device down_parent up_parent minor)])
                  (with_entry (Some minor))
                  (<[majors := ({[minor]} ∪ used_down, {[minor]} ∪ used_up)]> (app_used s))
            end
        end
  end.

Definition append_dynamic_circuit_overlays_to_batch (batch : list BakeryCommands)
    (overlays : gmap Z DynamicCircuitOverlayEntry) (migrations : gmap Z Migration)
    : list BakeryCommands * gmap Z DynamicCircuitOverlayEntry :=
  if decide (overlays = ∅) then (batch, overlays)
  else
    let s :=
      fold_left (append_overlay (planned_sites batch) (planned_circuits batch) migrations)
        (sort_with Z.leb (map fst (map_to_list overlays))) (mkAppend batch overlays ∅) in
    (app_batch s, app_overlays s).

(** ** Live additions and removals *)

Section Live.
  Context {W : Type} `{TcHost W} `{ReloadHost W} `{FaultHost W}.

(** What the live operations work on. *)
Record OverlayState : Type := mkOverlayState {
  ov_overlays : gmap Z DynamicCircuitOverlayEntry;
  ov_circuits : gmap Z BakeryCommands;
  ov_live : gmap Z Z;
  ov_handles : QdiscHandleState;
  ov_cache : LiveTcSnapshotCache;
  ov_telemetry : BakeryTelemetryState;
  ov_world : W
}.

(** What they read. *)
Record OverlayInputs : Type := mkOverlayInputs {
  in_batch_in_progress : bool;
  in_config : option Config;
  in_mq_created : bool;
  in_mq_layout : option MqDeviceLayout;
  in_sites : gmap Z BakeryCommands;
  in_migrations : gmap Z Migration;
  in_license : option InsightLicenseSummary
}.

Definition with_overlays (s : OverlayState) (overlays : gmap Z DynamicCircuitOverlayEntry) : OverlayState :=
  mkOverlayState overlays (ov_circuits s) (ov_live s) (ov_handles s) (ov_cache s) (ov_telemetry s) (ov_world s).

(** A live change; an accepted one invalidates the snapshots. *)
Definition overlay_change (s : OverlayState) (commands : list argv) (purpose : rstring) : OverlayState :=
  let '(result, t, w) := execute_and_record_live_change (ov_world s) (ov_telemetry s) commands purpose in
  mkOverlayState (ov_overlays s) (ov_circuits s) (ov_live s) (ov_handles s)
    (if exec_ok result then empty_cache else ov_cache s) t w.

Definition count_mapped (circuits : gmap Z BakeryCommands) : nat :=
  length (List.filter is_mapped_add_circuit (map snd (map_to_list circuits))).

(** [mapped && limit reached]. *)
Definition mapped_limit_reached (inputs : OverlayInputs) (circuits : gmap Z BakeryCommands) (candidate : BakeryCommands)
    : bool :=
  is_mapped_add_circuit candidate
  && match effective_limit (resolve_mapped_circuit_limit (in_license inputs)) with
     | Some limit => (limit <=? count_mapped circuits)%nat
     | None => false
     end.

(** The part of [handle_upsert_dynamic_circuit_overlay] that installs a candidate. *)
Definition install_candidate (inputs : OverlayInputs) (config : Config) (layout : MqDeviceLayout) (s : OverlayState)
    (hash : Z) (candidate : BakeryCommands) : result Panic OverlayState :=
  snapshot ← snapshot_live_qdisc_handle_majors_or_empty config
               (mkPending (ov_circuits s) ∅ (ov_cache s) (ov_telemetry s) (ov_world s));
  let '(live_reserved, p) := snapshot in
  assigned ← with_assigned_qdisc_handles_reserved candidate config layout (ov_handles s) live_reserved;
  let '(enriched, handles) := assigned in
  planned ← created_commands config Builder enriched;
  let commands := default [] planned in
  let s := mkOverlayState (ov_overlays s) (ov_circuits s) (ov_live s) handles (pend_cache p) (ov_telemetry s) (ov_world s) in
  let s := if is_nil commands then s else overlay_change s commands (str "adding dynamic circuit") in
  Ok (mkOverlayState (ov_overlays s) (<[hash := enriched]> (ov_circuits s)) (delete hash (ov_live s)) (ov_handles s)
        (ov_cache s) (ov_telemetry s) (save_handles (ov_world s) (persisted (ov_handles s)))).

(** From the lookup of the parent on. *)
Definition place_overlay (inputs : OverlayInputs) (config : Config) (s : OverlayState) (hash : Z)
    (entry : DynamicCircuitOverlayEntry) : result Panic (result rstring (option TcHandle) * OverlayState) :=
  let device := overlay_device entry in
  match in_sites inputs !! runtime_hash_to_i64 (parent_node device) with
  | None =>
      Ok (Err (str "parent node '" ++ parent_node device ++ str "' is not present in current bakery site state"), s)
  | Some site_cmd =>
      match site_class_handles site_cmd with
      | None => Ok (Err (str "parent node '" ++ parent_node device ++ str "' did not resolve to a valid site class"), s)
      | Some (down_parent, up_parent) =>
          let down_major := (get_major_minor down_parent).1 in
          let up_major := (get_major_minor up_parent).1 in
          let '(used_down, used_up) :=
            used_minors_for_majors (in_sites inputs) (ov_circuits s) (in_migrations inputs) down_major up_major in
          match choose_minor (overlay_minor entry) used_down used_up with
          | None => Ok (Err (str "unable to allocate free class_minor for dynamic circuit"), s)
          | Some minor =>
              let s := with_overlays s (<[hash := mkOverlay device (Some minor)]> (ov_overlays s)) in
              let candidate := AddCircuit (overlay_circuit hash device down_parent up_parent minor) in
              if mapped_limit_reached inputs (ov_circuits s) candidate then Ok (Err (str "mapped circuit limit reached"), s)
              else
                match in_mq_layout inputs with
                | None => Ok (Ok None, s)
                | Some layout =>
                    s ← install_candidate inputs config layout s hash candidate;
                    Ok (Ok (Some (tc_handle_from_major_minor down_major minor)), s)
                end
          end
      end
  end.

Definition handle_upsert_dynamic_circuit_overlay (inputs : OverlayInputs) (s : OverlayState) (shaped_device : ShapedDevice)
    : result Panic (result rstring (option TcHandle) * OverlayState) :=
  if is_blank (circuit_id shaped_device) then Ok (Err (str "dynamic circuit requires circuit_id"), s)
  else if is_blank (device_id shaped_device) then Ok (Err (str "dynamic circuit requires device_id"), s)
  else if is_blank (parent_node shaped_device) then Ok (Err (str "dynamic circuit requires parent_node"), s)
  else
    let device := recompute_shaped_hashes shaped_device in
    let hash := circuit_hash device in
    let entry := mkOverlay device (ov_overlays s !! hash ≫= overlay_minor) in
    let s := with_overlays s (<[hash := entry]> (ov_overlays s)) in
    if in_batch_in_progress inputs then Ok (Ok None, s)
    else
      match in_config inputs with
      | None => Ok (Err (str "unable to load config"), s)
      | Some config =>
          if is_observe (queue_mode (queues config)) then Ok (Ok None, s)
          else if negb (in_mq_created inputs) || bool_decide (in_mq_layout inputs = None)
                  || bool_decide (in_sites inputs = ∅) then Ok (Ok None, s)
          else
            match ov_circuits s !! hash with
            | Some (AddCircuit existing) =>
                Ok (Ok (Some (tc_handle_from_major_minor (ac_class_major existing) (ac_class_minor existing))), s)
            | Some _ => Ok (Ok None, s)
            | None => place_overlay inputs config s hash entry
            end
      end.

(** The deletions for a removed circuit. *)
Definition removal_commands (config : Config) (was_activated : bool) (circuit : BakeryCommands)
    : result Panic (option (list argv)) :=
  match lazy_queues (queues config) with
  | None | Some Lazy_No => to_prune config true circuit
  | Some Lazy_Htb => if was_activated then to_prune config false circuit else Ok None
  | Some Lazy_Full => if was_activated then to_prune config true circuit else Ok None
  end.

(** Releases the handles of a circuit on the interfaces in use. *)
Definition release_handles (config : Config) (handles : QdiscHandleState) (hash : Z) : result Panic QdiscHandleState :=
  isp ← isp_interface config;
  let handles := (release_circuit handles isp hash).1 in
  if on_a_stick_mode config then Ok handles
  else internet ← internet_interface config; Ok (release_circuit handles internet hash).1.

Variable iter : gmap Z DynamicCircuitOverlayEntry -> list (Z * DynamicCircuitOverlayEntry).

Definition find_overlay (overlays : gmap Z DynamicCircuitOverlayEntry) (circuit_id' : rstring) : option Z :=
  let normalized := normalize_circuit_id_key circuit_id' in
  match List.find (fun '(_, entry) =>
          bool_decide (normalize_circuit_id_key (circuit_id (overlay_device entry)) = normalized)) (iter overlays) with
  | Some (key, _) => Some key
  | None =>
      let computed := runtime_hash_to_i64 circuit_id' in
      if bool_decide (is_Some (overlays !! computed)) then Some computed else None
  end.

Definition handle_remove_dynamic_circuit_overlay (inputs : OverlayInputs) (s : OverlayState) (circuit_id' : rstring)
    : result Panic (result rstring unit * OverlayState) :=
  let overlay_key := find_overlay (ov_overlays s) circuit_id' in
  let s := match overlay_key with Some key => with_overlays s (delete key (ov_overlays s)) | None => s end in
  if in_batch_in_progress inputs then Ok (Ok tt, s)
  else
    match in_config inputs with
    | None => Ok (Err (str "unable to load config"), s)
    | Some config =>
        let hash := default (runtime_hash_to_i64 circuit_id') overlay_key in
        match ov_circuits s !! hash with
        | None => Ok (Ok tt, s)
        | Some circuit =>
            commands ← removal_commands config (bool_decide (is_Some (ov_live s !! hash))) circuit;
            let s := mkOverlayState (ov_overlays s) (delete hash (ov_circuits s)) (ov_live s) (ov_handles s) (ov_cache s)
                       (ov_telemetry s) (ov_world s) in
            let s := match commands with
                     | Some cmd => overlay_change s cmd (str "removing dynamic circuit")
                     | None => s
                     end in
            handles ← release_handles config (ov_handles s) hash;
            Ok (Ok tt, mkOverlayState (ov_overlays s) (ov_circuits s) (delete hash (ov_live s)) handles (ov_cache s)
                         (ov_telemetry s) (save_handles (ov_world s) (persisted handles)))
        end
    end.

End Live.

(** ** A change of the speeds of a site *)

(** A minimum too close to the maximum is put one below it. *)
Definition separated_minimum (minimum maximum : f32) : f32 :=
  if f32_le (f32_sub maximum (f32_ratio 1 2)) minimum then f32_sub maximum (f32_of_Z 1) else minimum.

(** [AddSite] with other speeds. *)
Definition site_with_speeds (hash : Z) (p : AddSiteParams) (download_min upload_min download_max upload_max : f32)
    : BakeryCommands :=
  AddSite (mkAddSiteParams hash (site_parent_class_id p) (site_up_parent_class_id p) (site_class_minor p) download_min
    upload_min download_max upload_max).

Definition class_change_command (interface classid : rstring) (rate_min rate_max : f32) (bandwidth_mbps : Z) : argv :=
  [str "class"; str "change"; str "dev"; interface; str "classid"; classid; str "htb"; str "rate";
   format_rate_for_tc_f32 rate_min; str "ceil"; format_rate_for_tc_f32 rate_max; str "prio"; str "3"; str "quantum";
   quantum (u64_of_f64 rate_max) (r2q bandwidth_mbps)].

Section SiteSpeed.
  Context {W : Type} `{TcHost W} `{ReloadHost W} `{FaultHost W}.

(** The commands of a change: the upload class first. *)
Definition site_speed_commands (config : Config) (isp internet : rstring) (p : AddSiteParams)
    (download_min upload_min download_max upload_max : f32) : list argv :=
  [class_change_command internet (class_id_text (get_major_minor (site_up_parent_class_id p)).1 (site_class_minor p))
     upload_min upload_max (uplink_bandwidth_mbps (queues config));
   class_change_command isp (class_id_text (get_major_minor (site_parent_class_id p)).1 (site_class_minor p))
     download_min download_max (downlink_bandwidth_mbps (queues config))].

Definition handle_change_site_speed_live (load_config : option Config) (flags : BakeryFlags) (hash : Z)
    (download_min upload_min download_max upload_max : f32) (sites : gmap Z BakeryCommands) (t : BakeryTelemetryState)
    (w : W) : result Panic (gmap Z BakeryCommands * BakeryTelemetryState * W) :=
  match load_config with
  | None => Ok (sites, t, w)
  | Some config =>
      match sites !! hash with
      | Some (AddSite p) =>
          internet ← internet_interface config;
          isp ← isp_interface config;
          let upload_min := separated_minimum upload_min upload_max in
          let download_min := separated_minimum download_min download_max in
          let new_site := site_with_speeds hash p download_min upload_min download_max upload_max in
          match live_tree_mutation_blocker_for_config flags config with
          | Some reason =>
              let summary := str "Skipping live site speed change for site " ++ i64_to_string hash ++ str " because "
                             ++ reason ++ str "." in
              Ok (<[hash := new_site]> sites,
                  push_bakery_event_with_site_name (unix_time w) (str "live_site_speed_skipped") (str "info") (Some hash)
                    None summary t, w)
          | None =>
              let '(result, t, w) :=
                execute_and_record_live_change w t
                  (site_speed_commands config isp internet p download_min upload_min download_max upload_max)
                  (str "changing site speed live") in
              if exec_ok result then Ok (<[hash := new_site]> sites, t, w)
              else
                Ok (sites,
                    mark_reload_required (unix_time w) (str "Bakery live site speed update failed: "
                      ++ summarize_apply_result (str "changing site speed live") result) t, w)
          end
      | _ => Ok (sites, t, w)
      end
  end.

End SiteSpeed.
