(* ===== verification/BakeryOverlaysSpec.v ===== *)
(** * Theorems about dynamic circuits *)

From S2P Require Import Prelude RustStd RustCollections RustFloat RustFormat ShapedDevice.
From S2P Require Import TcHandle QdiscHandles StormguardConfig BakeryCommands BakeryPlan BakeryExecute.
From S2P Require Import BakeryDrain BakeryDiff BakeryStormguard BakeryHandles BakeryTelemetry BakeryReload.
From S2P Require Import BakeryExecuteSpec BakeryStormguardSpec BakeryReloadSpec BakeryLazy BakeryLazySpec BakeryMappings.
From S2P Require Import BakeryMigration BakeryMigrationSpec BakeryOverlays.

(** ** Free minors *)

Lemma first_free_Some used count : forall start minor,
  first_free used count start = Some minor -> start <= minor < start + Z.of_nat count /\ (minor ∉ used).
Proof.
  induction count as [|count IH]; intros start minor; cbn [first_free]; [done|].
  case_bool_decide as Hin; [intros [? ?]%IH; split; [lia|done]|]. intros [= <-]. split; [lia|done].
Qed.

Lemma first_free_None used count : forall start,
  first_free used count start = None -> forall minor, start <= minor < start + Z.of_nat count -> minor ∈ used.
Proof.
  induction count as [|count IH]; intros start; cbn [first_free]; [intros _ minor ?; lia|].
  case_bool_decide as Hin; [|done]. intros Hn minor Hm. destruct (decide (minor = start)) as [->|]; [done|].
  apply (IH (start + 1)); [done|lia].
Qed.

Lemma choose_minor_Some desired used_down used_up minor :
  choose_minor desired used_down used_up = Some minor ->
  (minor ∉ used_down) /\ (minor ∉ used_up) /\ 0x1000 <= minor /\ (desired = Some minor \/ minor <= 0xFFFE).
Proof.
  assert (find_free_dynamic_circuit_minor used_down used_up = Some minor ->
    (minor ∉ used_down) /\ (minor ∉ used_up) /\ 0x1000 <= minor /\ (desired = Some minor \/ minor <= 0xFFFE)) as Hfree.
  { unfold find_free_dynamic_circuit_minor, ACTIVE_RUNTIME_MINOR_START. intros [Hr Hn]%first_free_Some.
    rewrite elem_of_union in Hn. split_and!; [tauto|tauto|lia|right; lia]. }
  unfold choose_minor. destruct desired as [d|]; [|done].
  destruct (_ || _) eqn:Hd; [done|]. intros [= ->]. apply orb_false_iff in Hd as [[Hlt Hd]%orb_false_iff Hu].
  apply bool_decide_eq_false in Hd, Hu. split_and!; [done|done| |by left].
  change (ACTIVE_RUNTIME_MINOR_START mod 2 ^ 16) with 0x1000 in Hlt. lia.
Qed.

Lemma choose_minor_None desired used_down used_up :
  choose_minor desired used_down used_up = None ->
  forall minor, 0x1000 <= minor <= 0xFFFE -> minor ∈ used_down \/ minor ∈ used_up.
Proof.
  intros Hn minor Hm. apply elem_of_union.
  assert (find_free_dynamic_circuit_minor used_down used_up = None) as Hf.
  { revert Hn. unfold choose_minor. destruct desired as [d|]; [|done]. by destruct (_ || _). }
  apply (first_free_None _ _ _ Hf). unfold ACTIVE_RUNTIME_MINOR_START. lia.
Qed.

(** No site, circuit or shadow has a minor on these majors, in either direction. *)
Definition minor_free (sites circuits : gmap Z BakeryCommands) (migrations : gmap Z Migration)
    (down_major up_major minor : Z) : Prop :=
  (forall h p, sites !! h = Some (AddSite p) ->
     (get_major_minor (site_parent_class_id p)).1 = down_major \/ (get_major_minor (site_up_parent_class_id p)).1 = up_major ->
     site_class_minor p <> minor)
  /\ (forall h c, circuits !! h = Some (AddCircuit c) ->
        ac_class_major c = down_major \/ ac_up_class_major c = up_major -> ac_class_minor c <> minor)
  /\ (forall h m, migrations !! h = Some m -> stage m <> Done ->
        mig_class_major m = down_major \/ mig_up_class_major m = up_major -> shadow_minor m <> minor).

Lemma minors_where_in majors commands h command down up minor down_major up_major :
  commands !! h = Some command -> majors command = Some (down, up, minor) ->
  (down = down_major -> minor ∈ (minors_where majors commands down_major up_major).1)
  /\ (up = up_major -> minor ∈ (minors_where majors commands down_major up_major).2).
Proof.
  intros Hc Hm. assert ((down, up, minor) ∈ omap (fun entry => majors entry.2) (map_to_list commands)) as Hin.
  { apply list_elem_of_omap. exists (h, command). split; [by apply elem_of_map_to_list|done]. }
  unfold minors_where. cbn [fst snd]. rewrite !elem_of_list_to_set, !list_elem_of_omap.
  split; intros <-; eexists; (split; [exact Hin|]); cbn; by rewrite Z.eqb_refl.
Qed.

Lemma site_minors_in sites h p down_major up_major :
  sites !! h = Some (AddSite p) ->
  let used := used_site_minors_for_majors sites down_major up_major in
  ((get_major_minor (site_parent_class_id p)).1 = down_major -> site_class_minor p ∈ used.1)
  /\ ((get_major_minor (site_up_parent_class_id p)).1 = up_major -> site_class_minor p ∈ used.2).
Proof. intros Hp. by eapply minors_where_in. Qed.

Lemma circuit_minors_in circuits h c down_major up_major :
  circuits !! h = Some (AddCircuit c) ->
  let used := used_circuit_minors_for_majors circuits down_major up_major in
  (ac_class_major c = down_major -> ac_class_minor c ∈ used.1)
  /\ (ac_up_class_major c = up_major -> ac_class_minor c ∈ used.2).
Proof. intros Hc. by eapply minors_where_in. Qed.

Lemma shadow_minors_in migrations h m down_major up_major :
  migrations !! h = Some m -> stage m <> Done ->
  let used := used_pending_migration_shadow_minors_for_majors migrations down_major up_major in
  (mig_class_major m = down_major -> shadow_minor m ∈ used.1) /\ (mig_up_class_major m = up_major -> shadow_minor m ∈ used.2).
Proof.
  intros Hm Hd. cbn zeta. unfold used_pending_migration_shadow_minors_for_majors. cbn [fst snd].
  rewrite !elem_of_list_to_set, !list_elem_of_omap.
  assert (m ∈ List.filter (fun m => negb (bool_decide (stage m = Done))) (map snd (map_to_list migrations))) as Hin.
  { rewrite list_elem_of_In, filter_In, in_map_iff. split; [|by rewrite bool_decide_false by done].
    exists (h, m). split; [done|]. by apply list_elem_of_In, elem_of_map_to_list. }
  split; intros <-; exists m; (split; [done|]); by rewrite Z.eqb_refl.
Qed.

Lemma unused_minor_free sites circuits migrations down_major up_major minor :
  let used := used_minors_for_majors sites circuits migrations down_major up_major in
  minor ∉ used.1 -> minor ∉ used.2 -> minor_free sites circuits migrations down_major up_major minor.
Proof.
  cbn zeta. unfold used_minors_for_majors.
  destruct (used_site_minors_for_majors sites down_major up_major) as [sd su] eqn:Hs.
  destruct (used_circuit_minors_for_majors circuits down_major up_major) as [cd cu] eqn:Hc.
  destruct (used_pending_migration_shadow_minors_for_majors migrations down_major up_major) as [hd hu] eqn:Hh.
  cbn [fst snd]. rewrite !not_elem_of_union. intros [[Hsd Hcd] Hhd] [[Hsu Hcu] Hhu]. split_and!.
  - intros h p Hp Hor <-. apply (site_minors_in _ _ _ down_major up_major) in Hp. rewrite Hs in Hp. naive_solver.
  - intros h c Hp Hor <-. apply (circuit_minors_in _ _ _ down_major up_major) in Hp. rewrite Hc in Hp. naive_solver.
  - intros h m Hm Hst Hor <-. pose proof (shadow_minors_in _ _ _ down_major up_major Hm Hst) as Hd.
    cbn zeta in Hd. rewrite Hh in Hd. naive_solver.
Qed.

(** ** Appending to a batch *)

Definition hashes (placed : list AddCircuitCommand) : list Z := map ac_circuit_hash placed.
(** A batch without the circuits of some hashes. *)
Definition keep_others (removed : list Z) (batch : list BakeryCommands) : list BakeryCommands :=
  List.filter (fun cmd => match cmd with AddCircuit c => negb (bool_decide (ac_circuit_hash c ∈ removed)) | _ => true end)
    batch.
(** The queues of a circuit. *)
Definition majors_of (c : AddCircuitCommand) : Z * Z := (ac_class_major c, ac_up_class_major c).

Lemma filter_twice {A} (p q : A -> bool) l : List.filter p (List.filter q l) = List.filter (fun x => q x && p x) l.
Proof. induction l as [|x l IH]; [done|]. cbn. destruct (q x); cbn; [destruct (p x)|]; by rewrite IH. Qed.

Lemma keep_others_snoc removed hash batch :
  without_circuit hash (keep_others removed batch) = keep_others (removed ++ [hash]) batch.
Proof.
  unfold without_circuit, keep_others. rewrite filter_twice. apply filter_ext. intros [] ; try done.
  apply Bool.eq_iff_eq_true. rewrite andb_true_iff, !negb_true_iff, !bool_decide_eq_false, Z.eqb_neq.
  rewrite elem_of_app, list_elem_of_singleton. tauto.
Qed.

Lemma without_circuit_placed hash placed :
  hash ∉ hashes placed -> without_circuit hash (map AddCircuit placed) = map AddCircuit placed.
Proof.
  unfold hashes, without_circuit. induction placed as [|c placed IH]; [done|]. cbn [map List.filter].
  intros [Hne Hni]%not_elem_of_cons. rewrite IH by done. destruct (Z.eqb_spec (ac_circuit_hash c) hash); [congruence|done].
Qed.

Section Append.
  Context (batch : list BakeryCommands) (migrations : gmap Z Migration) (overlays : gmap Z DynamicCircuitOverlayEntry).

Definition base_used (majors : Z * Z) : gset Z * gset Z :=
  used_minors_for_majors (planned_sites batch) (planned_circuits batch) migrations majors.1 majors.2.

(** The classes below which a device is placed. *)
Definition parents_of (device : ShapedDevice) : option (TcHandle * TcHandle) :=
  planned_sites batch !! runtime_hash_to_i64 (parent_node device) ≫= site_class_handles.

(** A circuit appended for an overlay. *)
Definition placed_ok (overlays' : gmap Z DynamicCircuitOverlayEntry) (c : AddCircuitCommand) : Prop :=
  exists entry down up,
    overlays !! ac_circuit_hash c = Some entry
    /\ is_blank (circuit_id (overlay_device entry)) = false /\ is_blank (device_id (overlay_device entry)) = false
    /\ parents_of (overlay_device entry) = Some (down, up)
    /\ c = overlay_circuit (ac_circuit_hash c) (recompute_shaped_hashes (overlay_device entry)) down up (ac_class_minor c)
    /\ overlays' !! ac_circuit_hash c
      = Some (mkOverlay (recompute_shaped_hashes (overlay_device entry)) (Some (ac_class_minor c)))
    /\ minor_free (planned_sites batch) (planned_circuits batch) migrations (ac_class_major c) (ac_up_class_major c) (ac_class_minor c)
    /\ 0x1000 <= ac_class_minor c /\ (overlay_minor entry = Some (ac_class_minor c) \/ ac_class_minor c <= 0xFFFE).

Definition used_by_placed (placed : list AddCircuitCommand) (majors : Z * Z) (minor : Z) : Prop :=
  exists c, c ∈ placed /\ majors_of c = majors /\ ac_class_minor c = minor.

(** Why an overlay is not appended. *)
Definition skipped_ok (placed : list AddCircuitCommand) (entry : DynamicCircuitOverlayEntry) : Prop :=
  let device := overlay_device entry in
  is_blank (circuit_id device) = true \/ is_blank (device_id device) = true \/ parents_of device = None
  \/ exists down up, parents_of device = Some (down, up)
       /\ let majors := ((get_major_minor down).1, (get_major_minor up).1) in
          forall minor, 0x1000 <= minor <= 0xFFFE ->
            minor ∈ (base_used majors).1 \/ minor ∈ (base_used majors).2 \/ used_by_placed placed majors minor.

Record append_inv (seen : list Z) (s : AppendState) (placed : list AddCircuitCommand) : Prop := {
  inv_batch : app_batch s = keep_others (hashes placed) batch ++ map AddCircuit placed;
  inv_hashes : NoDup (hashes placed);
  inv_seen : forall c, c ∈ placed -> ac_circuit_hash c ∈ seen;
  inv_rest : forall h, h ∉ seen -> app_overlays s !! h = overlays !! h;
  inv_placed : Forall (placed_ok (app_overlays s)) placed;
  inv_classes : NoDup (map (fun c => (majors_of c, ac_class_minor c)) placed);
  inv_used : forall majors minor,
    let used := default (base_used majors) (app_used s !! majors) in
    (minor ∈ used.1 <-> minor ∈ (base_used majors).1 \/ used_by_placed placed majors minor)
    /\ (minor ∈ used.2 <-> minor ∈ (base_used majors).2 \/ used_by_placed placed majors minor);
  inv_skipped : forall h entry, h ∈ seen -> h ∉ hashes placed -> overlays !! h = Some entry -> skipped_ok placed entry
}.

Lemma placed_ok_frame overlays1 overlays2 c :
  overlays2 !! ac_circuit_hash c = overlays1 !! ac_circuit_hash c -> placed_ok overlays1 c -> placed_ok overlays2 c.
Proof. unfold placed_ok. by intros ->. Qed.

Lemma hashes_seen seen s placed h : append_inv seen s placed -> h ∉ seen -> h ∉ hashes placed.
Proof.
  intros Hinv Hns Hin. unfold hashes in Hin. rewrite list_elem_of_In, in_map_iff in Hin.
  destruct Hin as (c & <- & Hc%list_elem_of_In). by apply Hns, Hinv.
Qed.

(** An overlay that is not appended. *)
Lemma append_inv_skip seen s placed h s' :
  append_inv seen s placed -> h ∉ seen -> app_batch s' = app_batch s ->
  (forall h', h' <> h -> app_overlays s' !! h' = app_overlays s !! h') ->
  (forall majors, default (base_used majors) (app_used s' !! majors) = default (base_used majors) (app_used s !! majors)) ->
  (forall entry, overlays !! h = Some entry -> skipped_ok placed entry) ->
  append_inv (seen ++ [h]) s' placed.
Proof.
  intros Hinv Hns Hb Ho Hu Hskip. destruct Hinv as [H1 H2 H3 H4 H5 H6 H7 H8]. split; [congruence|done|..].
  - intros c Hc. apply elem_of_app. left. by apply H3.
  - intros h' [Hn1 Hn2]%not_elem_of_app. rewrite list_elem_of_singleton in Hn2. rewrite Ho by done. by apply H4.
  - eapply Forall_impl; [|intros c Hc; exact Hc]. apply Forall_forall. intros c Hc.
    eapply placed_ok_frame; [|eapply Forall_forall in H5; done]. apply Ho. intros <-. by apply Hns, H3.
  - done.
  - intros majors minor. cbn zeta. rewrite Hu. apply H7.
  - intros h' entry [Hin| ->%list_elem_of_singleton]%elem_of_app; [by apply H8|]. intros _. apply Hskip.
Qed.
(** An overlay that is appended. *)
Lemma append_inv_place seen s placed h entry down up minor :
  append_inv seen s placed -> h ∉ seen -> overlays !! h = Some entry ->
  is_blank (circuit_id (overlay_device entry)) = false -> is_blank (device_id (overlay_device entry)) = false ->
  parents_of (overlay_device entry) = Some (down, up) ->
  let device := recompute_shaped_hashes (overlay_device entry) in
  let majors := ((get_major_minor down).1, (get_major_minor up).1) in
  let used := default (base_used majors) (app_used s !! majors) in
  choose_minor (overlay_minor entry) used.1 used.2 = Some minor ->
  let c := overlay_circuit h device down up minor in
  append_inv (seen ++ [h])
    (mkAppend (without_circuit h (app_batch s) ++ [AddCircuit c]) (<[h := mkOverlay device (Some minor)]> (app_overlays s))
       (<[majors := ({[minor]} ∪ used.1, {[minor]} ∪ used.2)]> (app_used s)))
    (placed ++ [c]).
Proof.
  intros Hinv Hns He Hb1 Hb2 Hp device majors used Hm c. pose proof (hashes_seen _ _ _ _ Hinv Hns) as Hnh.
  apply choose_minor_Some in Hm as (Hd & Hu & Hlo & Hhi).
  assert (forall x, (x ∈ used.1 <-> x ∈ (base_used majors).1 \/ used_by_placed placed majors x)
    /\ (x ∈ used.2 <-> x ∈ (base_used majors).2 \/ used_by_placed placed majors x)) as Hused by (intros x; apply Hinv).
  destruct (Hused minor) as [Hud Huu]. destruct Hinv as [H1 H2 H3 H4 H5 H6 H7 H8].
  assert (hashes (placed ++ [c]) = hashes placed ++ [h]) as Hh by (unfold hashes; by rewrite map_app).
  split; cbn [app_batch app_overlays app_used].
  - rewrite H1, Hh, map_app. unfold without_circuit at 1. rewrite List.filter_app.
    fold (without_circuit h (keep_others (hashes placed) batch)) (without_circuit h (map AddCircuit placed)).
    by rewrite keep_others_snoc, without_circuit_placed, <- app_assoc.
  - rewrite Hh. apply NoDup_app. split_and!; [done| |apply NoDup_singleton].
    by intros x Hx ->%list_elem_of_singleton.
  - intros x [Hx| ->%list_elem_of_singleton]%elem_of_app; apply elem_of_app; [left; by apply H3|right; by apply list_elem_of_singleton].
  - intros x [Hx1 Hx2]%not_elem_of_app. rewrite list_elem_of_singleton in Hx2. rewrite lookup_insert_ne by done. by apply H4.
  - apply Forall_app. split.
    + apply Forall_forall. intros x Hx. eapply placed_ok_frame; [|eapply Forall_forall in H5; done].
      apply lookup_insert_ne. intros ->. by apply Hns, H3.
    + apply Forall_singleton. exists entry, down, up. split_and!; try done; [apply lookup_insert_eq|].
      apply (unused_minor_free (planned_sites batch) (planned_circuits batch) migrations majors.1 majors.2); fold (base_used majors); tauto.
  - rewrite map_app. apply NoDup_app. split_and!; [done| |apply NoDup_singleton].
    intros x Hx ->%list_elem_of_singleton. rewrite list_elem_of_In, in_map_iff in Hx.
    destruct Hx as (c' & Heq & Hc'%list_elem_of_In). injection Heq as Hmaj1 Hmaj2 Hmin.
    apply Hd, Hud. right. exists c'. split_and!; [done| |done]. unfold majors_of, majors. by rewrite Hmaj1, Hmaj2.
  - intros majors' x. cbn zeta. assert (used_by_placed (placed ++ [c]) majors' x
      <-> used_by_placed placed majors' x \/ (majors' = majors /\ x = minor)) as ->.
    { unfold used_by_placed. split.
      - intros (c' & [Hin| ->%list_elem_of_singleton]%elem_of_app & <- & <-); [left; by exists c'|right; by split].
      - intros [(c' & Hin & <- & <-)|[-> ->]]; [exists c'|exists c]; split_and!; try done; apply elem_of_app; [by left|].
        right. by apply list_elem_of_singleton. }
    rewrite lookup_insert. destruct (decide (majors = majors')) as [<-|Hne]; cbn [default fst snd from_option].
    + destruct (Hused x) as [Hx1 Hx2]. unfold id. cbn [fst snd]. rewrite !elem_of_union, !elem_of_singleton, Hx1, Hx2. tauto.
    + destruct (H7 majors' x) as [Hx1 Hx2]. rewrite Hx1, Hx2. split; split; [tauto|intros [?|[?|[? _]]]; tauto || congruence|tauto|intros [?|[?|[? _]]]; tauto || congruence].
  - intros x entry' Hx Hnx Hl. rewrite Hh in Hnx. apply not_elem_of_app in Hnx as [Hnx1 Hnx2].
    apply elem_of_app in Hx as [Hx| ->%list_elem_of_singleton]; [|by destruct Hnx2; apply list_elem_of_singleton].
    destruct (H8 x entry' Hx Hnx1 Hl) as [?|[?|[?|(d & u & Hpar & Hall)]]]; [by left|by right; left|by right; right; left|].
    right; right; right. exists d, u. split; [done|]. intros mj m Hr. destruct (Hall m Hr) as [?|[?|(c' & Hin & Heq)]]; [by left|by right; left|].
    right; right. exists c'. split; [apply elem_of_app; by left|done].
Qed.

Lemma append_overlay_inv seen s placed h :
  append_inv seen s placed -> h ∉ seen ->
  exists placed', append_inv (seen ++ [h]) (append_overlay (planned_sites batch) (planned_circuits batch) migrations s h) placed'.
Proof.
  intros Hinv Hns. unfold append_overlay. rewrite (inv_rest _ _ _ Hinv h Hns).
  destruct (overlays !! h) as [entry|] eqn:He; [|exists placed; apply (append_inv_skip seen s placed h); try done; intros; congruence].
  destruct (_ || _) eqn:Hblank.
  { exists placed. apply (append_inv_skip seen s placed h); try done. intros e' He'. assert (e' = entry) as -> by congruence.
    apply orb_true_iff in Hblank as [?|?]; [by left|by right; left]. }
  apply orb_false_iff in Hblank as [Hb1 Hb2].
  change (planned_sites batch !! _ ≫= site_class_handles) with (parents_of (overlay_device entry)).
  destruct (parents_of (overlay_device entry)) as [[down up]|] eqn:Hpar.
  2:{ exists placed. apply (append_inv_skip seen s placed h); try done.
      - intros h' Hne. by apply lookup_insert_ne.
      - intros e' He'. assert (e' = entry) as -> by congruence. by right; right; left. }
  set (majors := ((get_major_minor down).1, (get_major_minor up).1)).
  change (used_minors_for_majors _ _ _ majors.1 majors.2) with (base_used majors).
  pose proof (append_inv_place seen s placed h entry down up) as Hplace. cbn zeta in Hplace. fold majors in Hplace.
  pose proof (inv_used _ _ _ Hinv majors) as Hused. cbn zeta in Hused.
  destruct (default (base_used majors) (app_used s !! majors)) as [ud uu] eqn:Hdef. cbn [fst snd] in Hplace, Hused.
  destruct (choose_minor (overlay_minor entry) ud uu) as [minor|] eqn:Hm.
  - eexists. by apply Hplace.
  - exists placed. apply (append_inv_skip seen s placed h); try done.
    + intros h' Hne. by apply lookup_insert_ne.
    + intros majors'. cbn [app_used]. rewrite lookup_insert. by destruct (decide (majors = majors')) as [<-|].
    + intros e' He'. assert (e' = entry) as -> by congruence. right; right; right. exists down, up. split; [done|]. intros mj minor Hr.
      fold majors in mj. subst mj. destruct (Hused minor) as [Hu1 Hu2].
      destruct (choose_minor_None _ _ _ Hm minor Hr) as [?%Hu1|?%Hu2]; tauto.
Qed.

Lemma append_overlays_inv keys : forall seen s placed,
  append_inv seen s placed -> NoDup (seen ++ keys) ->
  exists placed', append_inv (seen ++ keys)
    (fold_left (append_overlay (planned_sites batch) (planned_circuits batch) migrations) keys s) placed'.
Proof.
  induction keys as [|h keys IH]; intros seen s placed Hinv Hnd; cbn [fold_left]; [rewrite app_nil_r; eauto|].
  assert (h ∉ seen) as Hns by (apply NoDup_app in Hnd as (_ & Hd & _); intros Hin; apply (Hd h Hin); left).
  destruct (append_overlay_inv seen s placed h Hinv Hns) as [placed1 Hinv1].
  replace (seen ++ h :: keys) with ((seen ++ [h]) ++ keys) in * by (by rewrite <- app_assoc). by eapply IH.
Qed.

Lemma keep_others_nil : keep_others [] batch = batch.
Proof. unfold keep_others. rewrite (filter_ext _ (fun _ => true)); [by rewrite filter_true|]. by intros []. Qed.

Lemma append_inv_start : append_inv [] (mkAppend batch overlays ∅) [].
Proof.
  split; cbn [app_batch app_overlays app_used hashes map].
  - by rewrite keep_others_nil, app_nil_r.
  - apply NoDup_nil_2.
  - by intros c ?%elem_of_nil.
  - done.
  - constructor.
  - apply NoDup_nil_2.
  - intros majors minor. rewrite lookup_empty. cbn zeta. change (default (base_used majors) None) with (base_used majors).
    assert (used_by_placed [] majors minor <-> False) as -> by (split; [by intros (? & ?%elem_of_nil & _)|done]). tauto.
  - by intros h entry ?%elem_of_nil.
Qed.

(** C15: Appending the dynamic circuits to a batch is exact.  A batch keeps its order and everything but the
    circuits that dynamic ones replace, which follow once each; a dynamic circuit is built from its device below
    the class of its parent site, with a minor that no site, circuit or pending shadow on its queues has, that
    no other dynamic circuit on them has, and that is remembered.  One is left out only when an identifier is
    blank, its parent is not in the batch or no minor is free. *)
Theorem overlay_batch_is_exact batch' overlays' :
  append_dynamic_circuit_overlays_to_batch batch overlays migrations = (batch', overlays') ->
  exists placed,
    batch' = keep_others (hashes placed) batch ++ map AddCircuit placed
    /\ NoDup (hashes placed) /\ Forall (placed_ok overlays') placed
    /\ NoDup (map (fun c => (majors_of c, ac_class_minor c)) placed)
    /\ forall h entry, overlays !! h = Some entry -> h ∉ hashes placed -> skipped_ok placed entry.
Proof.
  unfold append_dynamic_circuit_overlays_to_batch. destruct (decide (overlays = ∅)) as [He|_].
  { intros [= <- <-]. exists []. destruct append_inv_start as [H1 H2 H3 H4 H5 H6 H7 H8]. split_and!; try done.
    intros h entry Hl. by rewrite He in Hl. }
  set (keys := sort_with Z.leb (map fst (map_to_list overlays))). intros [= <- <-].
  assert (keys ≡ₚ (map_to_list overlays).*1) as Hperm by apply sort_with_perm.
  destruct (append_overlays_inv keys [] (mkAppend batch overlays ∅) [] append_inv_start) as [placed Hinv].
  - cbn [app]. rewrite Hperm. apply NoDup_fst_map_to_list.
  - exists placed. destruct Hinv as [H1 H2 H3 H4 H5 H6 H7 H8]. split_and!; try done.
    intros h entry He Hn. apply (H8 h); [|done|done]. cbn [app]. rewrite Hperm. apply list_elem_of_fmap.
    exists (h, entry). split; [done|]. by apply elem_of_map_to_list.
Qed.
End Append.

(** ** Live additions and removals *)

Section Live.
  Context {W : Type} `{TcHost W} `{ReloadHost W} `{FaultHost W}.

(** Only the overlays differ. *)
Definition same_tree (s s' : OverlayState (W := W)) : Prop := s' = with_overlays s (ov_overlays s').

(** A circuit that was added to the live tree. *)
Definition added (inputs : OverlayInputs) (s : OverlayState (W := W)) (hash : Z) (device : ShapedDevice)
    (c : AddCircuitCommand) (s' : OverlayState (W := W)) : Prop :=
  ov_circuits s !! hash = None /\ ov_circuits s' = <[hash := AddCircuit c]> (ov_circuits s)
  /\ ov_live s' = delete hash (ov_live s) /\ ov_overlays s' !! hash = Some (mkOverlay device (Some (ac_class_minor c)))
  /\ in_batch_in_progress inputs = false /\ in_mq_created inputs = true
  /\ (exists config, in_config inputs = Some config /\ is_observe (queue_mode (queues config)) = false)
  /\ (is_mapped_add_circuit (AddCircuit c) = true -> forall limit,
        effective_limit (resolve_mapped_circuit_limit (in_license inputs)) = Some limit ->
        (count_mapped (ov_circuits s) < limit)%nat)
  /\ minor_free (in_sites inputs) (ov_circuits s) (in_migrations inputs) (ac_class_major c) (ac_up_class_major c)
       (ac_class_minor c)
  /\ 0x1000 <= ac_class_minor c
  /\ exists down up down_handle up_handle,
       in_sites inputs !! runtime_hash_to_i64 (parent_node device) ≫= site_class_handles = Some (down, up)
       /\ c = with_handles (overlay_circuit hash device down up (ac_class_minor c)) down_handle up_handle.

Definition upsert_outcome (inputs : OverlayInputs) (s : OverlayState (W := W)) (shaped_device : ShapedDevice)
    (r : result rstring (option TcHandle)) (s' : OverlayState (W := W)) : Prop :=
  let device := recompute_shaped_hashes shaped_device in
  let hash := circuit_hash device in
  (forall h, h <> hash -> ov_overlays s' !! h = ov_overlays s !! h)
  /\ match r with
     | Ok (Some class) =>
         exists c, ov_circuits s' !! hash = Some (AddCircuit c)
           /\ class = tc_handle_from_major_minor (ac_class_major c) (ac_class_minor c)
           /\ overlay_device <$> (ov_overlays s' !! hash) = Some device
           /\ (same_tree s s' \/ added inputs s hash device c s')
     | Ok None => same_tree s s' /\ overlay_device <$> (ov_overlays s' !! hash) = Some device
     | Err _ => same_tree s s'
     end.

Lemma overlay_change_frame (s : OverlayState (W := W)) commands purpose :
  let s' := overlay_change s commands purpose in
  ov_overlays s' = ov_overlays s /\ ov_circuits s' = ov_circuits s /\ ov_live s' = ov_live s.
Proof. cbn zeta. unfold overlay_change. by destruct (execute_and_record_live_change _ _ _ _) as [[r t] w]. Qed.

Lemma assigned_circuit c config layout handles extra command handles' :
  with_assigned_qdisc_handles_reserved (AddCircuit c) config layout handles extra = Ok (command, handles') ->
  exists down up, command = AddCircuit (with_handles c down up).
Proof.
  unfold with_assigned_qdisc_handles_reserved. destruct (is_observe _).
  - intros [= <- _]. exists (ac_down_qdisc_handle c), (ac_up_qdisc_handle c). by destruct c.
  - intros (isp & _ & (internet & _ & Hr)%result_bind_Ok)%result_bind_Ok.
    destruct (assign_missing _ _ _ _ _ _) as [h1 down]. destruct (assign_missing _ _ _ _ _ _) as [h2 up].
    injection Hr as <- _. by exists down, up.
Qed.

Lemma install_candidate_spec inputs config layout (s : OverlayState (W := W)) hash c :
  interfaces_configured config ->
  exists s' down up, install_candidate inputs config layout s hash (AddCircuit c) = Ok s'
    /\ ov_circuits s' = <[hash := AddCircuit (with_handles c down up)]> (ov_circuits s)
    /\ ov_overlays s' = ov_overlays s /\ ov_live s' = delete hash (ov_live s).
Proof.
  intros Hconf. unfold install_candidate.
  destruct (snapshot_or_empty_returns config Hconf
    (mkPending (ov_circuits s) ∅ (ov_cache s) (ov_telemetry s) (ov_world s))) as [[live p] ->].
  cbn [mbind result_bind].
  destruct (with_assigned_qdisc_handles_reserved (AddCircuit c) config layout (ov_handles s) live)
    as [[enriched handles]|e] eqn:Ha.
  2:{ exfalso. revert Ha. unfold with_assigned_qdisc_handles_reserved. destruct (is_observe _); [done|].
      destruct (interfaces_return config Hconf) as [[isp ->] [internet ->]]. cbn [mbind result_bind].
      destruct (assign_missing _ _ _ _ _ _) as [h1 down]. by destruct (assign_missing _ _ _ _ _ _) as [h2 up]. }
  apply assigned_circuit in Ha as (down & up & ->). cbn [mbind result_bind].
  destruct (created_commands_return config Hconf Builder (with_handles c down up)) as [planned ->]. cbn [mbind result_bind].
  eexists. exists down, up. split; [reflexivity|]. cbn [ov_circuits ov_overlays ov_live].
  destruct (is_nil _); [done|].
  match goal with |- context [overlay_change ?s ?c ?p] => pose proof (overlay_change_frame s c p) as (-> & -> & ->) end. done.
Qed.
Lemma place_overlay_outcome inputs config (s : OverlayState (W := W)) shaped_device minor :
  let device := recompute_shaped_hashes shaped_device in
  let hash := circuit_hash device in
  let entry := mkOverlay device minor in
  let s1 := with_overlays s (<[hash := entry]> (ov_overlays s)) in
  interfaces_configured config -> in_config inputs = Some config -> is_observe (queue_mode (queues config)) = false ->
  in_batch_in_progress inputs = false -> in_mq_created inputs = true -> ov_circuits s !! hash = None ->
  exists r s', place_overlay inputs config s1 hash entry = Ok (r, s') /\ upsert_outcome inputs s shaped_device r s'.
Proof.
  intros device hash entry s1 Hconf Hload Hobs Hbatch Hmq Hnone. unfold place_overlay. cbn [overlay_device entry overlay_minor].
  assert (forall e h, h <> hash -> ov_overlays (with_overlays s1 (<[hash := e]> (ov_overlays s1))) !! h = ov_overlays s !! h) as Hrest.
  { intros e h Hne. cbn [with_overlays ov_overlays s1]. by rewrite !lookup_insert_ne. }
  assert (forall h, h <> hash -> ov_overlays s1 !! h = ov_overlays s !! h) as Hrest1.
  { intros h Hne. cbn [with_overlays ov_overlays s1]. by rewrite !lookup_insert_ne. }
  destruct (in_sites inputs !! _) as [site|] eqn:Hsite; [|by do 2 eexists; split; [reflexivity|split; [done|]]].
  destruct (site_class_handles site) as [[down up]|] eqn:Hpar; [|by do 2 eexists; split; [reflexivity|split; [done|]]].
  destruct (used_minors_for_majors _ _ _ _ _) as [ud uu] eqn:Hused.
  destruct (choose_minor minor ud uu) as [chosen|] eqn:Hch; [|by do 2 eexists; split; [reflexivity|split; [done|]]].
  destruct (mapped_limit_reached _ _ _) eqn:Hlimit; [by do 2 eexists; split; [reflexivity|split; [apply Hrest|]]|].
  destruct (in_mq_layout inputs) as [layout|].
  2:{ do 2 eexists. split; [reflexivity|]. split; [apply Hrest|]. split; [done|]. cbn [with_overlays ov_overlays].
      fold device hash. by rewrite lookup_insert_eq. }
  match goal with |- context [install_candidate ?i ?c ?l ?s ?h (AddCircuit ?x)] =>
    destruct (install_candidate_spec i c l s h x Hconf) as (s' & hd & hu & -> & Hcirc & Hov & Hlive) end.
  do 2 eexists. split; [reflexivity|]. split; [intros h Hne; rewrite Hov; by apply Hrest|].
  fold device hash. rewrite Hcirc, Hov. cbn [with_overlays ov_overlays]. rewrite !lookup_insert_eq.
  eexists. split; [reflexivity|]. split; [done|]. split; [done|]. right.
  apply choose_minor_Some in Hch as (Hd & Hu & Hlo & _).
  split_and!; try done; [by rewrite Hov; cbn; rewrite lookup_insert_eq|by exists config| | |].
  - intros Hmapped limit Hl. unfold mapped_limit_reached in Hlimit. rewrite Hl in Hlimit.
    apply andb_false_iff in Hlimit as [Hm|Hle]; [exact (False_ind _ (eq_true_false_abs _ Hmapped Hm))|]. apply Nat.leb_gt in Hle. exact Hle.
  - apply unused_minor_free; cbn [with_handles overlay_circuit ac_class_major ac_up_class_major ac_class_minor] in *;
      change (ov_circuits s) with (ov_circuits s1); by rewrite Hused.
  - exists down, up, hd, hu. rewrite Hsite. by split.
Qed.

Lemma dynamic_upsert_outcome inputs (s : OverlayState (W := W)) shaped_device :
  (forall config, in_config inputs = Some config -> interfaces_configured config) ->
  exists r s', handle_upsert_dynamic_circuit_overlay inputs s shaped_device = Ok (r, s')
    /\ upsert_outcome inputs s shaped_device r s'.
Proof.
  intros Hconf. unfold handle_upsert_dynamic_circuit_overlay.
  destruct (is_blank (circuit_id _)); [by do 2 eexists; split; [reflexivity|split; [done|destruct s]]|].
  destruct (is_blank (device_id _)); [by do 2 eexists; split; [reflexivity|split; [done|destruct s]]|].
  destruct (is_blank (parent_node _)); [by do 2 eexists; split; [reflexivity|split; [done|destruct s]]|].
  set (device := recompute_shaped_hashes shaped_device). set (hash := circuit_hash device).
  set (entry := mkOverlay device (ov_overlays s !! hash ≫= overlay_minor)).
  assert (forall h, h <> hash -> <[hash := entry]> (ov_overlays s) !! h = ov_overlays s !! h) as Hrest
    by (intros; by apply lookup_insert_ne).
  assert (upsert_outcome inputs s shaped_device (Ok None) (with_overlays s (<[hash := entry]> (ov_overlays s)))) as Hput.
  { split; [done|]. split; [done|]. cbn [with_overlays ov_overlays]. fold device hash. by rewrite lookup_insert_eq. }
  destruct (in_batch_in_progress inputs) eqn:Hbatch; [by do 2 eexists|].
  destruct (in_config inputs) as [config|] eqn:Hload; [|by do 2 eexists; split; [reflexivity|split]].
  destruct (is_observe _) eqn:Hobs; [by do 2 eexists|].
  destruct (_ || _ || _) eqn:Hready; [by do 2 eexists|].
  apply orb_false_iff in Hready as [[Hmq%negb_false_iff _]%orb_false_iff _].
  change (ov_circuits (with_overlays s _)) with (ov_circuits s).
  destruct (ov_circuits s !! hash) as [existing|] eqn:He.
  - destruct existing; try by do 2 eexists.
    do 2 eexists. split; [reflexivity|]. split; [done|]. exists circuit. split_and!; [done|done| |by left].
    cbn [with_overlays ov_overlays]. fold device hash. by rewrite lookup_insert_eq.
  - by apply place_overlay_outcome; [apply Hconf|..].
Qed.

(** C14: Adding or changing a dynamic circuit is exact on every branch, and never panics once the interfaces are
    configured.  It is refused, or put off to the next batch, with nothing but its own overlay changed; or the
    class of the circuit is answered.  A circuit that is new is then recorded with the class of its parent, a minor
    that is free on its queues, no activity, and within the limit of mapped circuits; one that exists is left
    alone. *)
Theorem dynamic_upsert_is_exact inputs (s : OverlayState (W := W)) shaped_device :
  (forall config, in_config inputs = Some config -> interfaces_configured config) ->
  exists r s', handle_upsert_dynamic_circuit_overlay inputs s shaped_device = Ok (r, s')
    /\ upsert_outcome inputs s shaped_device r s'.
Proof. apply dynamic_upsert_outcome. Qed.

(** ** Consistency over runs *)

(** No two circuits share a class on a queue, nor a circuit and a site; circuits are kept by their hash. *)
Definition distinct_classes (sites circuits : gmap Z BakeryCommands) : Prop :=
  (forall h c, circuits !! h = Some (AddCircuit c) -> ac_circuit_hash c = h)
  /\ (forall h h' c c', circuits !! h = Some (AddCircuit c) -> circuits !! h' = Some (AddCircuit c') -> h <> h' ->
        ac_class_major c = ac_class_major c' \/ ac_up_class_major c = ac_up_class_major c' ->
        ac_class_minor c <> ac_class_minor c')
  /\ (forall h h' p c, sites !! h = Some (AddSite p) -> circuits !! h' = Some (AddCircuit c) ->
        (get_major_minor (site_parent_class_id p)).1 = ac_class_major c
        \/ (get_major_minor (site_up_parent_class_id p)).1 = ac_up_class_major c ->
        site_class_minor p <> ac_class_minor c).

Lemma distinct_classes_insert sites circuits migrations hash c :
  distinct_classes sites circuits -> ac_circuit_hash c = hash -> circuits !! hash = None ->
  minor_free sites circuits migrations (ac_class_major c) (ac_up_class_major c) (ac_class_minor c) ->
  distinct_classes sites (<[hash := AddCircuit c]> circuits).
Proof.
  intros (Hkey & Hcc & Hsc) Hh Hnone (Hs & Hc & _). split_and!.
  - intros h x. rewrite lookup_insert_Some. intros [[<- [= <-]]|[_ Hx]]; [done|by apply Hkey].
  - intros h h' x y. rewrite !lookup_insert_Some. intros [[<- [= <-]]|[Hne Hx]] [[<- [= <-]]|[Hne' Hy]] Hd Hor; try done.
    + apply not_eq_sym. apply (Hc h' y Hy). naive_solver.
    + apply (Hc h x Hx). naive_solver.
    + by apply (Hcc h h').
  - intros h h' p x Hp. rewrite lookup_insert_Some. intros [[<- [= <-]]|[_ Hx]] Hor; [by apply (Hs h p Hp)|by apply (Hsc h h')].
Qed.

Lemma distinct_classes_delete sites circuits hash :
  distinct_classes sites circuits -> distinct_classes sites (delete hash circuits).
Proof.
  intros (Hkey & Hcc & Hsc). split_and!.
  - intros h c [_ Hc]%lookup_delete_Some. by apply Hkey.
  - intros h h' c c' [_ Hc]%lookup_delete_Some [_ Hc']%lookup_delete_Some. by apply (Hcc h h').
  - intros h h' p c Hp [_ Hc]%lookup_delete_Some. by apply (Hsc h h').
Qed.

Context (iter : gmap Z DynamicCircuitOverlayEntry -> list (Z * DynamicCircuitOverlayEntry)).

Lemma remove_circuits inputs (s : OverlayState (W := W)) id r s' :
  handle_remove_dynamic_circuit_overlay iter inputs s id = Ok (r, s') ->
  ov_circuits s' = ov_circuits s \/ exists hash, ov_circuits s' = delete hash (ov_circuits s).
Proof.
  unfold handle_remove_dynamic_circuit_overlay. set (key := find_overlay iter (ov_overlays s) id).
  set (s1 := match key with Some key => with_overlays s (delete key (ov_overlays s)) | None => s end).
  assert (ov_circuits s1 = ov_circuits s) as Hs1 by (unfold s1; by destruct key).
  destruct (in_batch_in_progress inputs); [intros [= _ <-]; by left|].
  destruct (in_config inputs) as [config|]; [|intros [= _ <-]; by left].
  destruct (ov_circuits s1 !! _) as [circuit|]; [|intros [= _ <-]; by left].
  intros (commands & _ & (handles & _ & [= _ <-])%result_bind_Ok)%result_bind_Ok. right.
  exists (default (runtime_hash_to_i64 id) key). cbn [ov_circuits]. destruct commands as [cmd|]; cbn [ov_circuits]; [|by rewrite Hs1].
  match goal with |- context [overlay_change ?s ?c ?p] => destruct (overlay_change_frame s c p) as (_ & -> & _) end.
  cbn [ov_circuits]. by rewrite Hs1.
Qed.

(** The two commands on dynamic circuits. *)
Definition overlay_command (inputs : OverlayInputs) (s : OverlayState (W := W)) (command : BakeryCommands)
    : result Panic (OverlayState (W := W)) :=
  match command with
  | UpsertDynamicCircuitOverlay device => done ← handle_upsert_dynamic_circuit_overlay inputs s device; Ok done.2
  | RemoveDynamicCircuitOverlay id => done ← handle_remove_dynamic_circuit_overlay iter inputs s id; Ok done.2
  | _ => Ok s
  end.

Fixpoint overlay_run (s : OverlayState (W := W)) (commands : list (OverlayInputs * BakeryCommands))
    : result Panic (OverlayState (W := W)) :=
  match commands with
  | [] => Ok s
  | (inputs, command) :: commands => s ← overlay_command inputs s command; overlay_run s commands
  end.

Lemma overlay_command_distinct inputs (s : OverlayState (W := W)) command s' :
  (forall config, in_config inputs = Some config -> interfaces_configured config) ->
  overlay_command inputs s command = Ok s' -> distinct_classes (in_sites inputs) (ov_circuits s) ->
  distinct_classes (in_sites inputs) (ov_circuits s').
Proof.
  intros Hconf Hc Hd. destruct command; cbn [overlay_command] in Hc; try by injection Hc as <-.
  - apply result_bind_Ok in Hc as ([r s1] & Hu & [= <-]).
    destruct (dynamic_upsert_outcome inputs s shaped_device Hconf) as (r' & s2 & Heq & _ & Hout).
    rewrite Hu in Heq. injection Heq as <- <-. cbn [snd].
    assert (same_tree s s1 -> distinct_classes (in_sites inputs) (ov_circuits s1)) as Hsame by (by intros ->).
    destruct r as [[class|]|e]; [|by apply Hsame, Hout|by apply Hsame].
    destruct Hout as (c & _ & _ & _ & [?|Hadd]); [by apply Hsame|].
    destruct Hadd as (Hnone & -> & _ & _ & _ & _ & _ & _ & Hfree & _ & down & up & hd & hu & _ & Hce).
    eapply distinct_classes_insert; [done| |done|done]. by rewrite Hce.
  - apply result_bind_Ok in Hc as ([r s1] & Hr & [= <-]). cbn [snd].
    destruct (remove_circuits _ _ _ _ _ Hr) as [->|[hash ->]]; [done|]. by apply distinct_classes_delete.
Qed.
Lemma overlay_command_returns inputs (s : OverlayState (W := W)) command :
  (forall config, in_config inputs = Some config -> interfaces_configured config) ->
  returns (overlay_command inputs s command).
Proof.
  intros Hconf. destruct command; cbn [overlay_command]; try apply returns_ok.
  - destruct (dynamic_upsert_outcome inputs s shaped_device Hconf) as (r & s' & -> & _). apply returns_ok.
  - apply returns_bind; [|intros; apply returns_ok]. unfold handle_remove_dynamic_circuit_overlay.
    destruct (in_batch_in_progress inputs); [apply returns_ok|].
    destruct (in_config inputs) as [config|]; [|apply returns_ok]. specialize (Hconf config eq_refl).
    destruct (_ !! _) as [circuit|]; [|apply returns_ok]. apply returns_bind.
    + unfold removal_commands. repeat case_match; try apply returns_ok; by apply to_prune_returns.
    + intros commands _. apply returns_bind; [|intros; apply returns_ok].
      unfold release_handles. destruct (interfaces_return config Hconf) as [[isp ->] [internet ->]]. cbn [mbind result_bind].
      destruct (on_a_stick_mode config); apply returns_ok.
Qed.

(** C13: Whatever dynamic circuits are added, changed and removed, in any order and with any failures of the host, no
    two circuits on a queue share a class in a direction, and no circuit shares one with a site. *)
Theorem dynamic_circuits_keep_classes_distinct sites commands (s : OverlayState (W := W)) :
  Forall (fun '(inputs, _) => in_sites inputs = sites
    /\ forall config, in_config inputs = Some config -> interfaces_configured config) commands ->
  distinct_classes sites (ov_circuits s) ->
  exists s', overlay_run s commands = Ok s' /\ distinct_classes sites (ov_circuits s').
Proof.
  intros Hall. revert s. induction Hall as [|[inputs command] commands [Hsites Hconf] _ IH]; intros s Hd; cbn [overlay_run].
  { by eexists. }
  destruct (overlay_command_returns inputs s command Hconf) as [s1 Hc]. rewrite Hc. cbn [mbind result_bind].
  apply IH. rewrite <- Hsites in *. by apply (overlay_command_distinct inputs s command s1).
Qed.

(** With lazy queues of kind [Htb] the classes of a circuit are built at once, but its removal deletes no class. *)
Lemma lazy_removal_leaves_class config was_activated c commands :
  lazy_queues (queues config) = Some Lazy_Htb ->
  removal_commands config was_activated (AddCircuit c) = Ok (Some commands) ->
  forall command, command ∈ commands -> head command = Some (str "qdisc").
Proof.
  intros Hlazy. unfold removal_commands, to_prune, prune_work. rewrite Hlazy. destruct was_activated; [|done].
  destruct (directional_override _) as [down up].
  intros (up_sqm & Hu & (down_sqm & Hd & (? & Hn1 & (? & Hn2 & [= <-])%result_bind_Ok)%result_bind_Ok)%result_bind_Ok)%result_bind_Ok.
  injection Hn1 as <-. injection Hn2 as <-.
  assert (forall cond interface f l, push_if cond interface f = Ok l -> (forall i, head (f i) = Some (str "qdisc")) ->
    forall command : argv, command ∈ l -> head command = Some (str "qdisc")) as Hpush.
  { intros cond interface f l. unfold push_if. destruct cond; [|by intros [= <-] _ ? ?%elem_of_nil].
    intros (i & _ & [= <-])%result_bind_Ok Hf ? ->%list_elem_of_singleton. apply Hf. }
  intros command. rewrite ?app_nil_r. intros [Hin|Hin]%elem_of_app; [by eapply (Hpush _ _ _ _ Hu)|].
  rewrite ?app_nil_r in Hin. by eapply (Hpush _ _ _ _ Hd).
Qed.
End Live.

(** ** Speeds of sites *)

Section SiteSpeeds.
  Context {W L : Type} `{TcHost W, TcLive W L, !TcHostLaws W L, ReloadHost W, FaultHost W, !FaultLaws W L}.

Lemma class_change_command_ok interface classid rate_min rate_max bandwidth :
  word_ok interface -> word_ok classid ->
  command_ok (class_change_command interface classid rate_min rate_max bandwidth).
Proof.
  intros Hi Hc. split; [done|]. unfold class_change_command. words.
Qed.

(** A change of speeds is recorded exactly when the tree is not live or both classes were changed; when the change
    fails, nothing is recorded and a full reload is asked for. *)
Lemma site_speed_change_outcome config flags hash dmin umin dmax umax sites t (w : W) isp internet p sites' t' w' :
  isp_interface config = Ok isp -> internet_interface config = Ok internet -> word_ok isp -> word_ok internet ->
  sites !! hash = Some (AddSite p) ->
  handle_change_site_speed_live (Some config) flags hash dmin umin dmax umax sites t w = Ok (sites', t', w') ->
  let dmin := separated_minimum dmin dmax in
  let umin := separated_minimum umin umax in
  let recorded := <[hash := site_with_speeds hash p dmin umin dmax umax]> sites in
  match live_tree_mutation_blocker_for_config flags config with
  | Some _ => sites' = recorded /\ w' = w
  | None =>
      (sites' = recorded
       /\ live w' = foldl effect (live w) (site_speed_commands config isp internet p dmin umin dmax umax))
      \/ (sites' = sites /\ is_Some (bakery_reload_required_reason t'))
  end.
Proof.
  intros Hisp Hint Hwi Hwn Hs. unfold handle_change_site_speed_live. rewrite Hs, Hisp, Hint. cbn [mbind result_bind]. cbn zeta.
  destruct (live_tree_mutation_blocker_for_config flags config); [by intros [= <- <- <-]|].
  destruct (execute_and_record_live_change _ _ _ _) as [[r t1] w1] eqn:He.
  eapply (live_change_outcome (L := L)) in He.
  - destruct (exec_ok r); intros [= <- <- <-]; [by left|]. right. split; [done|]. eexists. apply reason_mark_required.
  - unfold site_speed_commands. apply Forall_cons. split; [|apply Forall_singleton];
      (apply class_change_command_ok; [done|apply class_id_text_ok]).
Qed.
End SiteSpeeds.

(** ** A host with an injected fault *)

Record FaultToy : Type := mkFaultToy { fault_batches : list rstring; fault_injected : bool }.

#[export] Instance fault_toy_host : TcHost FaultToy := {
  write_file w _ := (true, w);
  run_tc_batch w text := (Some (mkTcOutput (Some 0) []), mkFaultToy (fault_batches w ++ [text]) (fault_injected w));
  read_meminfo _ := Ok (str "MemTotal: 16000000 kB
MemAvailable: 15000000 kB
")
}.
#[export] Instance fault_toy_reload : ReloadHost FaultToy := {
  unix_time _ := 0;
  instant_ms _ := 0;
  qdisc_show _ _ := Ok (JArray []);
  filter_show _ _ := Err [];
  set_tc_classify_bypass w _ := (Ok tt, w);
  save_handles w _ := w
}.
#[export] Instance fault_toy_fault : FaultHost FaultToy := {
  fault_file w := if fault_injected w then Some (str "*") else None;
  remove_fault_file w := mkFaultToy (fault_batches w) false
}.

Definition tower : AddSiteParams :=
  mkAddSiteParams (runtime_hash_to_i64 (str "Tower")) (mkTcHandle 0x10001) (mkTcHandle 0x20001) 3 (f32_of_Z 1) (f32_of_Z 1)
    (f32_of_Z 500) (f32_of_Z 500).
Definition tower_sites : gmap Z BakeryCommands := {[site_hash tower := AddSite tower]}.
Definition dynamic_device (id : rstring) (ipv4 : list (Ipv4Addr * Z)) : ShapedDevice :=
  mkShapedDevice id [] id [] (str "Tower") None None [] ipv4 [] (f32_of_Z 1) (f32_of_Z 1) (f32_of_Z 100) (f32_of_Z 20) [] None
    0 0 0.
Definition device_a : ShapedDevice := dynamic_device (str "dyn-a") [(V4Octets 192 0 2 9, 32)].
Definition device_b : ShapedDevice := dynamic_device (str "dyn-b") [].
Definition hash_a : Z := runtime_hash_to_i64 (str "dyn-a").

Definition overlay_inputs (config : Config) : OverlayInputs :=
  mkOverlayInputs false (Some config) true (Some (mkMqDeviceLayout {[str "eth1" := {[1]}; str "eth0" := {[2]}]})) tower_sites ∅ None.
Definition overlay_start (fault : bool) : OverlayState (W := FaultToy) :=
  mkOverlayState ∅ ∅ ∅ QdiscHandleState_default empty_cache
    (mkTelemetry Mode_Idle None no_progress (mkLastApply None None None None Apply_None 0 0 0) (mkAlert false None)
       (mkAlert false None) []) (mkFaultToy [] fault).

Lemma overlay_inputs_configured (config : Config) :
  is_Some (bridge config) -> forall config', in_config (overlay_inputs config) = Some config' -> interfaces_configured config'.
Proof. intros Hb config' [= <-]. by left. Qed.

(** A planned circuit is replaced by the dynamic one of its hash. *)
Lemma overlay_batch_is_exact_witness :
  exists batch' overlays' placed,
    append_dynamic_circuit_overlays_to_batch [AddCircuit (reload_example_circuit hash_a 5); AddSite tower]
      {[hash_a := mkOverlay device_a None]} ∅ = (batch', overlays')
    /\ length batch' = 2%nat
    /\ batch' = keep_others (hashes placed) [AddCircuit (reload_example_circuit hash_a 5); AddSite tower]
               ++ map AddCircuit placed
    /\ overlay_minor <$> (overlays' !! hash_a) = Some (Some 0x1000).
Proof.
  set (batch := [AddCircuit (reload_example_circuit hash_a 5); AddSite tower]).
  destruct (append_dynamic_circuit_overlays_to_batch batch {[hash_a := mkOverlay device_a None]} ∅) as [batch' overlays'] eqn:Ha.
  destruct (overlay_batch_is_exact batch ∅ {[hash_a := mkOverlay device_a None]} batch' overlays' Ha) as (placed & Hb & _).
  exists batch', overlays', placed. split; [done|]. split.
  { change batch' with (batch', overlays').1. rewrite <- Ha. by vm_compute. }
  split; [done|]. change overlays' with (batch', overlays').2. rewrite <- Ha. by vm_compute.
Defined.

Definition upsert_reply (r : result Panic (result rstring (option TcHandle) * OverlayState (W := FaultToy)))
    : result rstring (option TcHandle) := match r with Ok (r, _) => r | Err _ => Err [] end.

Lemma dynamic_upsert_is_exact_witness :
  exists s', handle_upsert_dynamic_circuit_overlay (overlay_inputs migration_config) (overlay_start false) device_a
      = Ok (Ok (Some (mkTcHandle 0x11000)), s')
    /\ upsert_outcome (overlay_inputs migration_config) (overlay_start false) device_a (Ok (Some (mkTcHandle 0x11000))) s'.
Proof.
  destruct (dynamic_upsert_is_exact (overlay_inputs migration_config) (overlay_start false) device_a) as (r & s' & Hu & Hout).
  { apply overlay_inputs_configured. by eexists. }
  assert (upsert_reply (handle_upsert_dynamic_circuit_overlay (overlay_inputs migration_config) (overlay_start false) device_a)
    = Ok (Some (mkTcHandle 0x11000))) as Hr by (by vm_compute).
  rewrite Hu in Hr. cbn [upsert_reply] in Hr. subst r. exists s'. split; [exact Hu|exact Hout].
Defined.

Definition overlay_commands (config : Config) : list (OverlayInputs * BakeryCommands) :=
  [(overlay_inputs config, UpsertDynamicCircuitOverlay device_a); (overlay_inputs config, UpsertDynamicCircuitOverlay device_b);
   (overlay_inputs config, RemoveDynamicCircuitOverlay (str " DYN-A "))].

Lemma dynamic_circuits_keep_classes_distinct_witness :
  exists s', overlay_run map_to_list (overlay_start false) (overlay_commands migration_config) = Ok s'
    /\ distinct_classes tower_sites (ov_circuits s').
Proof.
  apply (dynamic_circuits_keep_classes_distinct map_to_list tower_sites (overlay_commands migration_config) (overlay_start false)).
  - unfold overlay_commands. repeat (apply Forall_cons; split); [..|by apply Forall_nil];
      (split; [exact eq_refl|apply overlay_inputs_configured; by eexists]).
  - cbn [ov_circuits overlay_start]. split_and!.
    + by intros h c ?%lookup_empty_Some.
    + by intros h h' c c' ?%lookup_empty_Some.
    + by intros h h' p c _ ?%lookup_empty_Some.
Defined.

(** An addition that the host refused is acknowledged, and the circuit is recorded. *)
Lemma failed_addition_is_acknowledged :
  match handle_upsert_dynamic_circuit_overlay (overlay_inputs migration_config) (overlay_start true) device_a with
  | Ok (r, s') => r = Ok (Some (mkTcHandle 0x11000)) /\ size (ov_circuits s') = 1%nat /\ fault_batches (ov_world s') = []
  | Err _ => False
  end.
Proof. by vm_compute. Qed.

(** With lazy queues of kind [Htb] an added and removed circuit leaves its two classes behind. *)
Lemma removed_lazy_circuit_leaves_classes :
  match overlay_run map_to_list (overlay_start false)
          [(overlay_inputs lazy_example_config, UpsertDynamicCircuitOverlay device_a);
           (overlay_inputs lazy_example_config, RemoveDynamicCircuitOverlay (str "dyn-a"))] with
  | Ok s' => size (ov_circuits s') = 0%nat
             /\ map (take 30) (concat (map str_lines (fault_batches (ov_world s'))))
               = [str "class replace dev eth1 parent "; str "class replace dev eth0 parent "]
  | Err _ => False
  end.
Proof. by vm_compute. Qed.
