(* ===== verification/BakeryCommit.v ===== *)
(** * Commits of batches ([handle_commit_batch] of [lqos_bakery/src/lib.rs])

    A commit compares the batch with the state, with dynamic circuits appended and virtualised sites taken into
    account, and either reloads the whole tree or changes it live: circuits are removed, re-rated, moved, added
    and re-addressed, in this order.

    [iter] is the iteration order of maps of commands, [virtualized] the virtualised sites in their order,
    [accepts] tells which of the speed changes that the commit sends to its own channel are taken, and [license]
    is the answer on the licence.  A reload also forgets virtualised sites, which are not part of the state here.
    Logging, the urgent message on the limit and display snapshots are left out. *)

From S2P Require Import Prelude RustStd RustCollections RustFloat RustFormat ShapedDevice.
From S2P Require Import TcHandle QdiscHandles StormguardConfig BakeryCommands BakeryPlan BakeryExecute.
From S2P Require Import BakeryDrain BakeryDiff BakeryStormguard BakeryHandles BakeryTelemetry BakeryReload.
From S2P Require Import BakeryLazy BakeryMappings BakeryMigration BakeryOverlays.

(** ** Virtualised sites *)

(** What a commit reads of a virtualised site; [virt_hides] when its active branch hides it. *)
Record VirtualizedSiteState : Type := mkVirtual {
  virt_site : BakeryCommands;
  virt_saved_sites : gmap Z BakeryCommands;
  virt_saved_circuits : gmap Z BakeryCommands;
  virt_active_sites : gmap Z BakeryCommands;
  virt_active_circuits : gmap Z BakeryCommands;
  virt_hides : bool
}.

Definition apply_runtime_virtualization_overlay (batch : list BakeryCommands)
    (virtualized : list (Z * VirtualizedSiteState)) : list BakeryCommands :=
  if is_nil virtualized then batch
  else
    let hidden : gset Z := list_to_set (omap (fun '(hash, v) => if virt_hides v then Some hash else None) virtualized) in
    let site_overrides := foldl (fun overrides '(_, v) => virt_active_sites v ∪ overrides) ∅ virtualized in
    let circuit_overrides := foldl (fun overrides '(_, v) => virt_active_circuits v ∪ overrides) ∅ virtualized in
    omap (fun command =>
      match command with
      | AddSite p =>
          if bool_decide (site_hash p ∈ hidden) then None else Some (default command (site_overrides !! site_hash p))
      | AddCircuit c => Some (default command (circuit_overrides !! ac_circuit_hash c))
      | _ => Some command
      end) batch.

Definition reconstruct_structural_baseline_state (sites circuits : gmap Z BakeryCommands)
    (virtualized : list (Z * VirtualizedSiteState)) : gmap Z BakeryCommands * gmap Z BakeryCommands :=
  foldl (fun '(baseline_sites, baseline_circuits) '(hash, v) =>
    (virt_saved_sites v ∪ <[hash := virt_site v]> baseline_sites, virt_saved_circuits v ∪ baseline_circuits))
    (sites, circuits) virtualized.

(** ** Pruning what is observed *)

Definition circuit_class_handles (circuit : BakeryCommands) : option (TcHandle * TcHandle) :=
  match circuit with
  | AddCircuit c =>
      Some (tc_handle_from_major_minor (ac_class_major c) (ac_class_minor c),
            tc_handle_from_major_minor (ac_up_class_major c) (ac_class_minor c))
  | _ => None
  end.

(** The deletions of one direction: of a class that is listed and not protected. *)
Definition observed_direction (snapshot : option class_snapshot) (protected : gset TcHandle) (class : TcHandle)
    (interface : result Panic rstring) (with_qdisc : bool) (classid : rstring) (parent : TcHandle) (minor : Z)
    : result Panic (list argv) :=
  match snapshot ≫= fun classes => if bool_decide (class ∈ protected) then None else classes !! class with
  | None => Ok []
  | Some entry =>
      qdisc ← push_if (with_qdisc && bool_decide (is_Some (leaf_qdisc_major entry))) interface
                (fun interface => qdisc_del_command interface classid);
      class_del ← push_if true interface (fun interface => class_del_command interface parent minor);
      Ok (qdisc ++ class_del)
  end.

Definition observed_circuit_prune_commands (config : Config) (old_cmd : BakeryCommands)
    (down_snapshot up_snapshot : option class_snapshot) (protected_down protected_up : gset TcHandle)
    : result Panic (option (list argv)) :=
  match old_cmd with
  | AddCircuit c =>
      let '(down_override_opt, up_override_opt) := directional_override (ac_sqm_override c) in
      up ← observed_direction up_snapshot protected_up (tc_handle_from_major_minor (ac_up_class_major c) (ac_class_minor c))
             (internet_interface config) (negb (is_none_token up_override_opt) && negb (on_a_stick_mode config))
             (class_id_text (ac_up_class_major c) (ac_class_minor c)) (ac_up_parent_class_id c) (ac_class_minor c);
      down ← observed_direction down_snapshot protected_down
               (tc_handle_from_major_minor (ac_class_major c) (ac_class_minor c)) (isp_interface config)
               (negb (is_none_token down_override_opt)) (class_id_text (ac_class_major c) (ac_class_minor c))
               (ac_parent_class_id c) (ac_class_minor c);
      if is_nil (up ++ down) then pruned ← to_prune config true old_cmd; Ok (pruned ≫= fun _ => Some [])
      else Ok (Some (up ++ down))
  | _ => to_prune config true old_cmd
  end.

(** ** The state of a commit *)

Section Commit.
  Context {W : Type} `{TcHost W} `{TcShow W} `{ReloadHost W} `{FaultHost W}.
  Variable class_order : class_snapshot -> list LiveTcClassEntry.
  Variable class_error_text : rstring -> ClassLineError -> rstring.
  Variable iter : gmap Z BakeryCommands -> list (Z * BakeryCommands).

Record CommitState : Type := mkCommit {
  cm : BakeryState;
  cm_migrations : gmap Z Migration;
  cm_cache : LiveTcSnapshotCache;
  cm_world : W
}.

Definition cm_sites (c : CommitState) : gmap Z BakeryCommands := tree_sites (bs_tree (cm c)).
Definition cm_circuits (c : CommitState) : gmap Z BakeryCommands := tree_circuits (bs_tree (cm c)).
Definition cm_live (c : CommitState) : gmap Z Z := tree_live_circuits (bs_tree (cm c)).
Definition cm_handles (c : CommitState) : QdiscHandleState := tree_handles (bs_tree (cm c)).

Definition set_tree (c : CommitState) (circuits : gmap Z BakeryCommands) (live : gmap Z Z) (handles : QdiscHandleState)
    : CommitState :=
  mkCommit (mkBakeryState (mkTree (cm_sites c) circuits live (tree_mq_layout (bs_tree (cm c))) handles) (bs_flags (cm c))
              (bs_telemetry (cm c))) (cm_migrations c) (cm_cache c) (cm_world c).
Definition set_circuits (c : CommitState) (circuits : gmap Z BakeryCommands) : CommitState :=
  set_tree c circuits (cm_live c) (cm_handles c).
Definition set_handles (c : CommitState) (handles : QdiscHandleState) : CommitState :=
  set_tree c (cm_circuits c) (cm_live c) handles.
Definition set_migrations (c : CommitState) (migrations : gmap Z Migration) : CommitState :=
  mkCommit (cm c) migrations (cm_cache c) (cm_world c).
Definition set_cache (c : CommitState) (cache : LiveTcSnapshotCache) : CommitState :=
  mkCommit (cm c) (cm_migrations c) cache (cm_world c).
Definition map_telemetry (c : CommitState) (f : Z -> BakeryTelemetryState -> BakeryTelemetryState) : CommitState :=
  mkCommit (on_telemetry (f (unix_time (cm_world c))) (cm c)) (cm_migrations c) (cm_cache c) (cm_world c).

(** A live change; an accepted one invalidates the snapshots. *)
Definition commit_change (c : CommitState) (commands : list argv) (purpose : rstring) : ExecuteResult * CommitState :=
  let '(result, t, w) := execute_and_record_live_change (cm_world c) (bs_telemetry (cm c)) commands purpose in
  (result, mkCommit (with_telemetry (cm c) t) (cm_migrations c) (if exec_ok result then empty_cache else cm_cache c) w).

(** [if !commands.is_empty() { execute_and_record_live_change(..) }]. *)
Definition change_if_any (c : CommitState) (commands : list argv) (purpose : rstring) : CommitState :=
  if is_nil commands then c else (commit_change c commands purpose).2.

(** A step goes on with a value or leaves the commit. *)
Definition flow (A : Type) : Type := result Panic (CommitState + A).
Definition go {A} (a : A) : flow A := Ok (inr a).
Definition leave {A} (c : CommitState) : flow A := Ok (inl c).
Definition and_then {A B} (m : flow A) (f : A -> flow B) : flow B :=
  match m with
  | Err e => Err e
  | Ok (inl c) => leave c
  | Ok (inr a) => f a
  end.

Fixpoint each {A B} (f : A -> B -> flow A) (a : A) (l : list B) : flow A :=
  match l with
  | [] => go a
  | b :: l => and_then (f a b) (fun a => each f a l)
  end.

(** A computation that always goes on. *)
Definition lift {A} (r : result Panic A) : flow A := match r with Ok a => go a | Err e => Err e end.

Definition live_handles (config : Config) (c : CommitState) : flow (gmap rstring (gset Z) * CommitState) :=
  and_then (lift (snapshot_live_qdisc_handle_majors_or_empty config
                    (mkPending (cm_circuits c) ∅ (cm_cache c) (bs_telemetry (cm c)) (cm_world c))))
    (fun '(live, p) => go (live, set_cache c (pend_cache p))).

(** ** Removals *)

Definition remove_circuit (config : Config) (c : CommitState) (hash : Z) : flow CommitState :=
  match cm_circuits c !! hash with
  | None => go c
  | Some circuit =>
      let was_activated := bool_decide (is_Some (cm_live c !! hash)) in
      and_then (lift (removal_commands config was_activated circuit)) (fun commands =>
      let c := set_circuits c (delete hash (cm_circuits c)) in
      let c := match commands with Some cmd => (commit_change c cmd (str "removing circuit")).2 | None => c end in
      and_then (lift (release_handles config (cm_handles c) hash)) (fun handles =>
      go (set_tree c (cm_circuits c) (delete hash (cm_live c)) handles)))
  end.

(** ** Speeds *)

(** The commands that replace the queues of a circuit at once. *)
Definition speed_commands (config : Config) (was_activated : bool) (command : BakeryCommands) : result Panic (list argv) :=
  let of_mode mode := planned ← created_commands config mode command; Ok (default [] planned) in
  let pruned force := pruned ← to_prune config force command; Ok (default [] pruned) in
  match lazy_queues (queues config) with
  | None | Some Lazy_No => prune ← pruned true; add ← of_mode Builder; Ok (prune ++ add)
  | Some Lazy_Htb =>
      if was_activated then
        prune ← pruned false; add_htb ← of_mode Builder; add_qdisc ← of_mode LiveUpdate; Ok (prune ++ add_htb ++ add_qdisc)
      else of_mode Builder
  | Some Lazy_Full => if was_activated then prune ← pruned true; add_all ← of_mode LiveUpdate; Ok (prune ++ add_all) else Ok []
  end.

Definition assign_handles (config : Config) (layout : MqDeviceLayout) (live : gmap rstring (gset Z)) (c : CommitState)
    (command : BakeryCommands) : flow (BakeryCommands * CommitState) :=
  and_then (lift (with_assigned_qdisc_handles_reserved command config layout (cm_handles c) live))
    (fun '(enriched, handles) => go (enriched, set_handles c handles)).
Definition rotate_handles (config : Config) (layout : MqDeviceLayout) (live : gmap rstring (gset Z)) (c : CommitState)
    (old command : BakeryCommands) : flow (BakeryCommands * CommitState) :=
  and_then (lift (rotate_changed_qdisc_handles_reserved old command config layout (cm_handles c) live))
    (fun '(enriched, handles) => go (enriched, set_handles c handles)).

(** The circuit that a command replaces. *)
Definition replaced_circuit (c : CommitState) (command : BakeryCommands) : option BakeryCommands :=
  match command with AddCircuit a => cm_circuits c !! ac_circuit_hash a | _ => None end.

(** [queue_live_migration] on the state. *)
Definition queue_migration (c : CommitState) (old command : BakeryCommands) : bool * CommitState :=
  let '(queued, migrations) := queue_live_migration old command (cm_sites c) (cm_circuits c) (cm_live c) (cm_migrations c) in
  (queued, set_migrations c migrations).

(** The rest of a round once the handles are assigned: queue a migration or replace at once. *)
Definition replace_speed (config : Config) (c : CommitState) (immediate : list argv) (old : option BakeryCommands)
    (command : BakeryCommands) : flow (CommitState * list argv) :=
  let '(queued, c) := match old with Some old => queue_migration c old command | None => (false, c) end in
  if queued then go (c, immediate)
  else
    match command with
    | AddCircuit a =>
        let was_activated := bool_decide (is_Some (cm_live c !! ac_circuit_hash a)) in
        and_then (lift (speed_commands config was_activated command)) (fun commands =>
        go (set_circuits c (<[ac_circuit_hash a := command]> (cm_circuits c)), immediate ++ commands))
    | _ => go (c, immediate)
    end.

(** One changed circuit while the tree may be changed. *)
Definition speed_live (config : Config) (layout : option MqDeviceLayout) (live : gmap rstring (gset Z))
    (acc : CommitState * list argv) (command : BakeryCommands) : flow (CommitState * list argv) :=
  let '(c, immediate) := acc in
  match layout with
  | None => leave c
  | Some layout =>
      and_then (assign_handles config layout live c command) (fun '(command, c) =>
      match replaced_circuit c command with
      | None => replace_speed config c immediate None command
      | Some old =>
          and_then (rotate_handles config layout live c old command) (fun '(command, c) =>
          replace_speed config c immediate (Some old) command)
      end)
  end.

(** One changed circuit while it may not. *)
Definition speed_in_memory (c : CommitState) (command : BakeryCommands) : CommitState :=
  match command with
  | AddCircuit a => set_circuits c (<[ac_circuit_hash a := command]> (cm_circuits c))
  | _ => c
  end.

Definition speed_step (config : Config) (layout : option MqDeviceLayout) (changed : list BakeryCommands) (c : CommitState)
    : flow CommitState :=
  if is_nil changed then go c
  else
    match live_tree_mutation_blocker_for_config (bs_flags (cm c)) config with
    | Some reason =>
        let c := map_telemetry c (fun ts => push_bakery_event ts (str "live_circuit_speed_skipped") (str "info")
                   (str "Skipping live circuit speed fallback updates because " ++ reason ++ str ".")) in
        go (fold_left speed_in_memory changed c)
    | None =>
        and_then (live_handles config c) (fun '(live, c) =>
        and_then (each (speed_live config layout live) (c, []) changed) (fun '(c, immediate) =>
        go (change_if_any c immediate (str "updating circuit speeds live"))))
    end.

(** ** Migrations *)

Record Prepared : Type := mkPrepared {
  prep_hash : Z;
  prep_old : BakeryCommands;
  prep_new : BakeryCommands
}.

(** One moved circuit: its handles, and the class it moves to, which is protected. *)
Definition prepare_one (config : Config) (layout : MqDeviceLayout) (live : gmap rstring (gset Z))
    (acc : CommitState * list Prepared * (gset TcHandle * gset TcHandle)) (command : BakeryCommands)
    : flow (CommitState * list Prepared * (gset TcHandle * gset TcHandle)) :=
  let '(c, prepared, (protected_down, protected_up)) := acc in
  and_then (assign_handles config layout live c command) (fun '(command, c) =>
  match replaced_circuit c command with
  | None => go (c, prepared, (protected_down, protected_up))
  | Some old =>
      and_then (rotate_handles config layout live c old command) (fun '(command, c) =>
      match command, circuit_class_handles command with
      | AddCircuit a, Some (down_class, up_class) =>
          go (c, prepared ++ [mkPrepared (ac_circuit_hash a) old command],
              ({[down_class]} ∪ protected_down, {[up_class]} ∪ protected_up))
      | _, _ => go (c, prepared, (protected_down, protected_up))
      end)
  end).

(** The commands that move a circuit without traffic. *)
Definition move_commands (config : Config) (down_snapshot up_snapshot : option class_snapshot)
    (protected_down protected_up : gset TcHandle) (p : Prepared) : result Panic (list argv) :=
  match lazy_queues (queues config) with
  | Some Lazy_Full => Ok []
  | _ =>
      prune ← observed_circuit_prune_commands config (prep_old p) down_snapshot up_snapshot protected_down protected_up;
      add ← created_commands config Builder (prep_new p);
      Ok (default [] prune ++ default [] add)
  end.

(** The end of a commit that reloads. *)
Definition reload_commit (config : Config) (batch : list BakeryCommands) (layout : option MqDeviceLayout) (summary : rstring)
    (c : CommitState) : result Panic CommitState :=
  let c := map_telemetry c (fun ts => announce_full_reload ts summary) in
  reloaded ← full_reload class_order class_error_text (cm_world c) (cm_cache c) (cm c) config batch layout summary;
  let '(s, w) := reloaded in
  Ok (mkCommit s (cm_migrations c) empty_cache w).

(** One prepared move: a queued migration, a reload, or commands and an update. *)
Definition move_one (config : Config) (raw_batch : list BakeryCommands) (layout : MqDeviceLayout)
    (down_snapshot up_snapshot : option class_snapshot) (protected_down protected_up : gset TcHandle)
    (acc : CommitState * list argv * list Prepared) (p : Prepared) : flow (CommitState * list argv * list Prepared) :=
  let '(c, immediate, updates) := acc in
  let '(queued, c) := queue_migration c (prep_old p) (prep_new p) in
  if queued then go (c, immediate, updates)
  else if bool_decide (is_Some (cm_live c !! prep_hash p)) then
    match reload_commit config raw_batch (Some layout)
            (str "Bakery full reload triggered because live migration setup failed for active migrated circuit "
             ++ i64_to_string (prep_hash p) ++ str ".") c with
    | Ok c => leave c
    | Err e => Err e
    end
  else
    and_then (lift (move_commands config down_snapshot up_snapshot protected_down protected_up p)) (fun commands =>
    go (c, immediate ++ commands, updates ++ [p])).

Definition parent_move : rstring := str "migrating circuits between parent nodes (fallback)".

(** The commands of the moves; when they fail, the circuits keep their place and a reload is asked for. *)
Definition apply_moves (c : CommitState) (immediate : list argv) (updates : list Prepared) : CommitState :=
  let '(updates, c) :=
    if is_nil immediate then (updates, c)
    else
      let '(result, c) := commit_change c immediate parent_move in
      if exec_ok result then (updates, c)
      else ([], map_telemetry c (fun ts => mark_reload_required ts (str "Bakery circuit parent-move fallback failed: "
                  ++ summarize_apply_result parent_move result ++ reload_now_required))) in
  set_circuits c (fold_left (fun circuits p => <[prep_hash p := prep_new p]> circuits) updates (cm_circuits c)).

(** [read_live_class_snapshot(..).ok()]. *)
Definition observe_classes (c : CommitState) (interface : result Panic rstring)
    : result Panic (option class_snapshot * CommitState) :=
  interface ← interface;
  let '(snapshot, cache) := read_live_class_snapshot class_error_text (cm_world c) (cm_cache c) interface in
  Ok (match snapshot with Ok s => Some s | Err _ => None end, set_cache c cache).

Definition migration_step_of_commit (config : Config) (raw_batch : list BakeryCommands) (layout : option MqDeviceLayout)
    (migrated : list BakeryCommands) (c : CommitState) : flow CommitState :=
  if is_nil migrated then go c
  else
    match layout with
    | None => leave c
    | Some layout =>
        and_then (live_handles config c) (fun '(live, c) =>
        and_then (lift (observe_classes c (isp_interface config))) (fun '(down_snapshot, c) =>
        and_then (lift (observe_classes c (internet_interface config))) (fun '(up_snapshot, c) =>
        and_then (each (prepare_one config layout live) (c, [], (∅, ∅)) migrated)
          (fun '(c, prepared, (protected_down, protected_up)) =>
        and_then (each (move_one config raw_batch layout down_snapshot up_snapshot protected_down protected_up) (c, [], [])
                    prepared) (fun '(c, immediate, updates) =>
        go (apply_moves c immediate updates))))))
    end.

(** ** Additions *)

(** The additions within the limit, with the mapped circuits so far. *)
Definition accept_addition (limit : option nat) (acc : list BakeryCommands * nat) (command : BakeryCommands)
    : list BakeryCommands * nat :=
  let '(accepted, mapped) := acc in
  if is_mapped_add_circuit command then
    if match limit with Some limit => (limit <=? mapped)%nat | None => false end then (accepted, mapped)
    else (accepted ++ [command], S mapped)
  else (accepted ++ [command], mapped).

Definition enrich_one (config : Config) (layout : MqDeviceLayout) (live : gmap rstring (gset Z))
    (acc : CommitState * list BakeryCommands) (command : BakeryCommands) : flow (CommitState * list BakeryCommands) :=
  let '(c, enriched) := acc in
  and_then (assign_handles config layout live c command) (fun '(command, c) => go (c, enriched ++ [command])).

(** The commands of the additions. *)
Fixpoint addition_commands (config : Config) (additions : list BakeryCommands) : result Panic (list argv) :=
  match additions with
  | [] => Ok []
  | command :: additions =>
      planned ← created_commands config Builder command;
      rest ← addition_commands config additions;
      Ok (default [] planned ++ rest)
  end.

Definition insert_circuit (c : CommitState) (command : BakeryCommands) : CommitState := speed_in_memory c command.

Definition addition_step (config : Config) (layout : option MqDeviceLayout) (limit : option nat) (added : list BakeryCommands)
    (c : CommitState) : flow CommitState :=
  if is_nil added then go c
  else
    let accepted := (fold_left (accept_addition limit) added ([], count_mapped (cm_circuits c))).1 in
    match layout with
    | None => leave c
    | Some layout =>
        and_then (live_handles config c) (fun '(live, c) =>
        and_then (each (enrich_one config layout live) (c, []) accepted) (fun '(c, enriched) =>
        and_then (lift (addition_commands config enriched)) (fun commands =>
        go (fold_left insert_circuit enriched (change_if_any c commands (str "adding new circuits"))))))
    end.

(** ** Addresses *)

Definition readdress_one (config : Config) (layout : MqDeviceLayout) (live : gmap rstring (gset Z)) (c : CommitState)
    (command : BakeryCommands) : flow CommitState :=
  and_then (assign_handles config layout live c command) (fun '(command, c) => go (insert_circuit c command)).

Definition ip_step (config : Config) (layout : option MqDeviceLayout) (changed : list BakeryCommands) (c : CommitState)
    : flow CommitState :=
  if is_nil changed then go c
  else
    match layout with
    | None => leave c
    | Some layout =>
        and_then (live_handles config c) (fun '(live, c) => each (readdress_one config layout live) c changed)
    end.

(** ** The commit *)

(** The live changes of circuits, in order. *)
Definition circuit_steps (config : Config) (raw_batch : list BakeryCommands) (layout : option MqDeviceLayout)
    (limit : option nat) (categories : CircuitDiffCategories) (c : CommitState) : flow CommitState :=
  and_then (each (remove_circuit config) c (removed_circuits categories)) (fun c =>
  and_then (speed_step config layout (speed_changed categories) c) (fun c =>
  and_then (migration_step_of_commit config raw_batch layout (migrated categories) c) (fun c =>
  and_then (addition_step config layout limit (newly_added categories) c) (fun c =>
  ip_step config layout (ip_changed categories) c)))).

(** The speed changes of sites that a commit sends to itself. *)
Definition speed_messages (changes : list BakeryCommands) : list BakeryCommands :=
  omap (fun change =>
    match change with
    | AddSite p =>
        Some (ChangeSiteSpeedLive (site_hash p) (site_download_min p) (site_upload_min p) (site_download_max p)
                (site_upload_max p))
    | _ => None
    end) changes.

(** [tx.try_send(..)] of each message: what was sent, and the first error. *)
Fixpoint send_all (accepts : nat -> option rstring) (index : nat) (messages : list BakeryCommands)
    : list BakeryCommands * option rstring :=
  match messages with
  | [] => ([], None)
  | message :: messages =>
      match accepts index with
      | Some e => ([], Some e)
      | None => let '(sent, e) := send_all accepts (S index) messages in (message :: sent, e)
      end
  end.

Definition bump_generation (f : BakeryFlags) : BakeryFlags :=
  mkBakeryFlags (mq_created f) (shaping_tree_active f) (full_reload_in_progress f) (first_commit_applied f)
    ((stormguard_tree_generation f + 1) mod 2 ^ 64) (stormguard_tree_rebuild_generation f).

(** [STORMGUARD_TREE_GENERATION.fetch_add(1)] after speed changes with StormGuard live. *)
Definition publish_generation (config : Config) (site_change : SiteDiffResult) (c : CommitState) : CommitState :=
  match site_change with
  | SpeedChanges _ =>
      if stormguard_live_enabled config then
        mkCommit (with_flags (cm c) (bump_generation (bs_flags (cm c)))) (cm_migrations c) (cm_cache c) (cm_world c)
      else c
  | _ => c
  end.

(** The end of a commit that changed the tree live. *)
Definition finish_commit (layout : option MqDeviceLayout) (c : CommitState) : CommitState :=
  let tree := bs_tree (cm c) in
  mkCommit (mkBakeryState (mkTree (tree_sites tree) (tree_circuits tree) (tree_live_circuits tree) layout (tree_handles tree))
              (bs_flags (cm c)) (bs_telemetry (cm c))) (cm_migrations c) (cm_cache c)
    (save_handles (cm_world c) (persisted (tree_handles tree))).

Record CommitInputs : Type := mkCommitInputs {
  ci_overrides : stormguard_overrides;
  ci_virtualized : list (Z * VirtualizedSiteState);
  ci_license : option InsightLicenseSummary;
  ci_accepts : nat -> option rstring
}.

Definition structural_count (r : CircuitDiffResult) : nat :=
  match r with Categorized categories => length (structural_changed categories) | Circuits_NoChange => 0 end.

Definition no_changes (sites : SiteDiffResult) (circuits : CircuitDiffResult) : bool :=
  match sites, circuits with Sites_NoChange, Circuits_NoChange => true | _, _ => false end.

(** The speed changes of sites are sent, then circuits are changed live. *)
Definition apply_live_changes (inputs : CommitInputs) (config : Config) (raw_batch : list BakeryCommands)
    (layout : option MqDeviceLayout) (site_change : SiteDiffResult) (circuit_change : CircuitDiffResult) (c : CommitState)
    : result Panic (CommitState * list BakeryCommands) :=
  let messages := match site_change with SpeedChanges changes => speed_messages changes | _ => [] end in
  let '(sent, error) := send_all (ci_accepts inputs) 0 messages in
  match error with
  | Some e =>
      c ← reload_commit config raw_batch layout
            (str "Bakery full reload triggered because site speed live-change enqueue failed: " ++ e) c;
      Ok (c, sent)
  | None =>
      let c := publish_generation config site_change c in
      match circuit_change with
      | Circuits_NoChange => Ok (finish_commit layout c, sent)
      | Categorized categories =>
          let limit := effective_limit (resolve_mapped_circuit_limit (ci_license inputs)) in
          match circuit_steps config raw_batch layout limit categories c with
          | Err e => Err e
          | Ok (inl c) => Ok (c, sent)
          | Ok (inr c) => Ok (finish_commit layout c, sent)
          end
      end
  end.

(** A commit that need not rebuild the sites. *)
Definition live_commit (inputs : CommitInputs) (config : Config) (raw_batch effective : list BakeryCommands)
    (baseline_circuits : gmap Z BakeryCommands) (layout : option MqDeviceLayout) (c : CommitState)
    : result Panic (CommitState * list BakeryCommands) :=
  let limit := effective_limit (resolve_mapped_circuit_limit (ci_license inputs)) in
  let limited := (filter_batch_by_mapped_circuit_limit raw_batch baseline_circuits limit).1 in
  let reload summary : result Panic (CommitState * list BakeryCommands) :=
    c ← reload_commit config limited layout summary c; Ok (c, []) in
  let diff batch old := diff_circuits batch old (iter (batch_circuits batch)) (iter old) in
  let structural := diff raw_batch (circuits_with_pending_migration_targets baseline_circuits (cm_migrations c)) in
  let site_change := diff_sites effective (cm_sites c) (iter (cm_sites c)) in
  let circuit_change := diff effective (circuits_with_pending_migration_targets (cm_circuits c) (cm_migrations c)) in
  if no_changes site_change circuit_change then Ok (c, [])
  else if negb (structural_count structural =? 0)%nat then
    reload (str "Bakery full reload triggered by circuit structural diff: structural_changed_count="
            ++ usize_to_string (structural_count structural))
  else
    match stormguard_site_changes_intersect_ownership site_change config (ci_overrides inputs) with
    | Err e => Err e
    | Ok true =>
        reload (str "Bakery full reload triggered to keep StormGuard class ownership synchronized with a changed "
                ++ str "shaping plan.")
    | Ok false => apply_live_changes inputs config raw_batch layout site_change circuit_change c
    end.

(** The batch of a commit, with its overlays appended. *)
Definition commit_batch (inputs : CommitInputs) (config : Config) (raw_batch : list BakeryCommands) (c : CommitState)
    : result Panic (CommitState * list BakeryCommands) :=
  let virtualized := ci_virtualized inputs in
  let '(baseline_sites, baseline_circuits) := reconstruct_structural_baseline_state (cm_sites c) (cm_circuits c) virtualized in
  let effective := apply_runtime_virtualization_overlay raw_batch virtualized in
  layout ← current_mq_layout raw_batch config (tree_mq_layout (bs_tree (cm c)));
  let flags := bs_flags (cm c) in
  let desired := desired_shaping_tree_active config in
  let limit := effective_limit (resolve_mapped_circuit_limit (ci_license inputs)) in
  let c :=
    if shaping_tree_active flags && negb desired then
      let '(migrations, t) :=
        cancel_pending_migrations_for_observe_mode (unix_time (cm_world c)) (cm_migrations c)
          (str "queue mode transitioned to observe; a full reload will rebuild the retained root MQ without the "
           ++ str "shaping tree.") (bs_telemetry (cm c)) in
      mkCommit (with_telemetry (cm c) t) migrations (cm_cache c) (cm_world c)
    else c in
  let reload summary c : result Panic (CommitState * list BakeryCommands) :=
    c ← reload_commit config (filter_batch_by_mapped_circuit_limit raw_batch baseline_circuits limit).1 layout summary c;
    Ok (c, []) in
  match bakery_reload_required_reason (bs_telemetry (cm c)) with
  | Some reason => reload (str "Bakery full reload triggered by reload-required state: " ++ reason) c
  | None =>
      if negb (mq_created flags) then
        reload (str "Bakery full reload triggered by baseline rebuild after restart/cold start.")
          (map_telemetry c (fun ts => push_bakery_event ts (str "baseline_rebuild_required") (str "warning")
             (str "Bakery runtime state was reset by restart/cold start; performing explicit baseline full reload.")))
      else if negb (Bool.eqb (shaping_tree_active flags) desired) then
        reload (str "Bakery full reload triggered by queue mode transition to "
                ++ (if desired then str "shape" else str "observe") ++ str ".") c
      else
        match diff_sites raw_batch baseline_sites (iter baseline_sites) with
        | RebuildRequired summary _ => reload summary c
        | _ => live_commit inputs config raw_batch effective baseline_circuits layout c
        end
  end.

Definition handle_commit_batch (inputs : CommitInputs) (load_config : option Config) (batch : option (list BakeryCommands))
    (overlays : gmap Z DynamicCircuitOverlayEntry) (c : CommitState)
    : result Panic (CommitState * gmap Z DynamicCircuitOverlayEntry * list BakeryCommands) :=
  match load_config with
  | None => Ok (c, overlays, [])
  | Some config =>
      let c := set_handles c (clear_retired_handles (cm_handles c)) in
      match batch with
      | None => Ok (c, overlays, [])
      | Some raw_batch =>
          let '(raw_batch, overlays) := append_dynamic_circuit_overlays_to_batch raw_batch overlays (cm_migrations c) in
          committed ← commit_batch inputs config raw_batch c;
          let '(c, sent) := committed in
          Ok (c, overlays, sent)
      end
  end.

End Commit.
