(* ===== verification/BakeryCommitSpec.v ===== *)
(** * Commits of batches: properties

    The live steps of a commit follow the batch: they return; they leave by a full reload or, without a layout of the
    queues, at the first change that needs one; and otherwise every circuit is as the batch has it, or on its way there by
    a pending migration, or one of the named exceptions holds.

    A step is described by [settles]: what it does to the circuits its commands name, and that it leaves the others alone.
    Commands are compared with [plain], without the qdisc handles that the steps assign. *)

From S2P Require Import Prelude RustStd RustCollections RustFloat RustFormat ShapedDevice.
From S2P Require Import TcHandle QdiscHandles StormguardConfig BakeryCommands BakeryPlan BakeryExecute.
From S2P Require Import BakeryDrain BakeryDiff BakeryStormguard BakeryHandles BakeryTelemetry BakeryReload.
From S2P Require Import BakeryLazy BakeryMappings BakeryMigration BakeryMigrationSpec BakeryOverlays BakeryOverlaysSpec.
From S2P Require Import BakeryReloadSpec BakeryCommit.

(** ** Flows *)

Section Flows.
  Context {W : Type} {A B : Type}.
  Implicit Types (f : A -> B -> flow (W := W) A).

Lemma and_then_go {C} (m : flow (W := W) A) (k : A -> flow C) r :
  and_then m k = go r -> exists a, m = go a /\ k a = go r.
Proof. destruct m as [[c|a]|e]; cbn; [done| |done]. by exists a. Qed.

Lemma go_inj (a b : A) : go (W := W) a = go b -> a = b.
Proof. intros H. by injection H. Qed.

Lemma lift_go (r : result Panic A) a : lift (W := W) r = go a -> r = Ok a.
Proof. destruct r; [intros H; by injection H as ->|done]. Qed.

(** What every round keeps, the loop keeps. *)
Lemma each_frame (R : A -> A -> Prop) `{!PreOrder R} f l : forall a a',
  (forall x b b', x ∈ l -> f b x = go b' -> R b b') -> each f a l = go a' -> R a a'.
Proof.
  induction l as [|x l IH]; intros a a' Hf; cbn [each].
  - intros ->%go_inj. reflexivity.
  - intros (b & Hb & Hl)%and_then_go. transitivity b; [by eapply Hf; [left|]|]. apply (IH b a'); [|done].
    intros y c c' Hy. apply Hf. by right.
Qed.

Lemma each_keeps (P : A -> Prop) f l a a' :
  P a -> (forall x b b', x ∈ l -> P b -> f b x = go b' -> P b') -> each f a l = go a' -> P a'.
Proof.
  revert a. induction l as [|x l IH]; intros a Ha Hf; cbn [each]; [by intros ->%go_inj|].
  intros (b & Hb & Hl)%and_then_go. apply (IH b); [by eapply Hf; [left|..]| |done].
  intros y c c' Hy. apply Hf. by right.
Qed.

(** What one round brings about and all keep, the loop brings about. *)
Lemma each_reaches (I P : A -> Prop) f x l : forall a a',
  I a -> x ∈ l ->
  (forall y b b', y ∈ l -> I b -> f b y = go b' -> I b' /\ (P b -> P b')) ->
  (forall b b', I b -> f b x = go b' -> P b') ->
  each f a l = go a' -> P a'.
Proof.
  intros a a' Ha Hx HI HP. revert a Ha HI. induction Hx as [x l|x y l Hx IH]; intros a Ha HI; cbn [each];
    intros (b & Hb & Hl)%and_then_go; destruct (HI _ _ _ ltac:(left) Ha Hb) as [Ib _].
  - refine (proj2 (each_keeps (fun a => I a /\ P a) f l b a' (conj Ib (HP _ _ Ha Hb)) _ Hl)).
    intros y c c' Hy [Ic Pc] Hc. destruct (HI y c c' ltac:(by right) Ic Hc). auto.
  - apply (IH HP b Ib); [|done]. intros z c c' Hz. apply HI. by right.
Qed.

Lemma each_pure (f : A -> B -> A) l : forall a, each (fun a x => go (W := W) (f a x)) a l = go (fold_left f l a).
Proof. induction l as [|x l IH]; intros a; [done|]. cbn. apply IH. Qed.
End Flows.

(** Splits the hypotheses that a flow went on. *)
Ltac flow_inv :=
  repeat match goal with
  | H : and_then _ _ = Ok (inr _) |- _ => apply and_then_go in H as (? & ? & ?)
  | H : and_then _ _ = go _ |- _ => apply and_then_go in H as (? & ? & ?)
  | H : lift _ = go _ |- _ => apply lift_go in H
  | H : go _ = go _ |- _ => apply go_inj in H
  | H : leave _ = go _ |- _ => discriminate H
  | p : prod _ _ |- _ => destruct p
  | H : (_, _) = (_, _) |- _ => apply pair_equal_spec in H as [? ?]
  end; subst.

(** ** The circuits of a commit *)

(** A command up to the qdisc handles that were assigned to it. *)
Definition plain (cmd : BakeryCommands) : BakeryCommands :=
  match cmd with AddCircuit c => AddCircuit (with_handles c None None) | _ => cmd end.

Lemma plain_key a b : plain a = plain b -> circuit_key a = circuit_key b.
Proof. destruct a, b; cbn; intros H; try done. by injection H as ->. Qed.

Lemma plain_mapped a b : plain a = plain b -> is_mapped_add_circuit a = is_mapped_add_circuit b.
Proof.
  destruct a, b; cbn; intros H; try done.
  match goal with H : AddCircuit (with_handles ?x _ _) = AddCircuit (with_handles ?y _ _) |- _ =>
    assert (ac_ip_addresses x = ac_ip_addresses y) as Hi by (by injection H) end.
  cbn. by rewrite Hi.
Qed.

Lemma circuit_key_inv cmd h : circuit_key cmd = Some h -> exists a, cmd = AddCircuit a /\ ac_circuit_hash a = h.
Proof. destruct cmd; cbn; try done. intros H. injection H as <-. eauto. Qed.

Lemma with_assigned_plain cmd config layout handles extra cmd' handles' :
  with_assigned_qdisc_handles_reserved cmd config layout handles extra = Ok (cmd', handles') -> plain cmd' = plain cmd.
Proof.
  destruct cmd; try (intros H; by injection H as <- <-).
  intros (down & up & ->)%assigned_circuit. done.
Qed.

Lemma rotate_changed_plain old cmd config layout handles extra cmd' handles' :
  rotate_changed_qdisc_handles_reserved old cmd config layout handles extra = Ok (cmd', handles') -> plain cmd' = plain cmd.
Proof.
  unfold rotate_changed_qdisc_handles_reserved.
  destruct (effective_directional_sqm_kinds old config), (effective_directional_sqm_kinds cmd config),
    (effective_directional_qdisc_parents old config), (effective_directional_qdisc_parents cmd config).
  intros (isp & _ & (internet & _ & Hr)%result_bind_Ok)%result_bind_Ok.
  destruct cmd; try (by injection Hr as <- <-).
  destruct (rotate_if _ _ _ _ _ _) as [h1 down]. destruct (rotate_if _ _ _ _ _ _) as [h2 up].
  by injection Hr as <- _.
Qed.

Section Steps.
  Context {W : Type} `{TcHost W} `{TcShow W} `{ReloadHost W} `{FaultHost W}.
  Implicit Types c : CommitState (W := W).

(** What the theorems below are about. *)
Definition core (c : CommitState (W := W)) : gmap Z BakeryCommands * gmap Z Migration := (cm_circuits c, cm_migrations c).
Definition same_at (h : Z) (c c' : CommitState (W := W)) : Prop :=
  cm_circuits c' !! h = cm_circuits c !! h /\ cm_migrations c' !! h = cm_migrations c !! h.
(** A circuit is recorded as wanted. *)
Definition recorded (c : CommitState (W := W)) (h : Z) (cmd : BakeryCommands) : Prop :=
  exists cmd', cm_circuits c !! h = Some cmd' /\ plain cmd' = plain cmd.
(** A migration to the wanted circuit is pending. *)
Definition migrating (c : CommitState (W := W)) (h : Z) (cmd : BakeryCommands) : Prop :=
  exists m, cm_migrations c !! h = Some m /\ plain (desired_cmd m) = plain cmd.
Definition settled (c : CommitState (W := W)) (h : Z) (cmd : BakeryCommands) : Prop := recorded c h cmd \/ migrating c h cmd.
Definition reload_asked (c : CommitState (W := W)) : Prop := is_Some (bakery_reload_required_reason (bs_telemetry (cm c))).

(** The commands of the moves were executed, and reported as done or as failed. *)
Definition moves_answered (commands : list argv) (ok : bool) : Prop :=
  exists (w : W) t, exec_ok (execute_and_record_live_change w t commands parent_move).1.1 = ok.
(** A circuit is recorded as wanted, after commands that build it were reported as done; with [Lazy_Full] there is
    nothing to build. *)
Definition moved (config : Config) (c : CommitState (W := W)) (h : Z) (cmd : BakeryCommands) : Prop :=
  exists cmd' commands, cm_circuits c !! h = Some cmd' /\ plain cmd' = plain cmd
    /\ (commands = [] \/ moves_answered commands true)
    /\ (lazy_queues (queues config) = Some Lazy_Full
        \/ exists built, created_commands config Builder cmd' = Ok built /\ default [] built ⊆ commands).

#[export] Instance same_at_preorder h : PreOrder (same_at h).
Proof. split; [done|]. intros a b c [? ?] [? ?]. split; congruence. Qed.

Lemma core_same c c' : core c' = core c -> forall h, same_at h c c'.
Proof. intros Hc h. unfold core in Hc. injection Hc as Hc1 Hc2. split; congruence. Qed.

(** What leaves circuits and migrations alone, and a pending request for a reload. *)
Definition aside (c c' : CommitState (W := W)) : Prop := core c' = core c /\ (reload_asked c -> reload_asked c').
#[export] Instance aside_preorder : PreOrder aside.
Proof. split; [done|]. intros a b c [? ?] [? ?]. split; [congruence|auto]. Qed.

Lemma commit_change_spec c commands purpose r c' :
  commit_change c commands purpose = (r, c') -> aside c c'.
Proof.
  unfold commit_change. destruct (execute_and_record_live_change _ _ _ _) as [[r0 t] w] eqn:He. intros Heq. injection Heq as <- <-.
  split; [done|]. unfold reload_asked. cbn [cm bs_telemetry with_telemetry].
  revert He. unfold execute_and_record_live_change. destruct (consume_test_fault_once _ _) as [fault w1].
  destruct (match fault with Some _ => _ | None => _ end) as [r1 w2]. intros Ht. injection Ht as _ <- _.
  by rewrite reason_finished.
Qed.

Lemma commit_change_answered c commands r c' :
  commit_change c commands parent_move = (r, c') -> moves_answered commands (exec_ok r).
Proof.
  unfold commit_change. destruct (execute_and_record_live_change _ _ _ _) as [[r0 t] w] eqn:He. intros [= <- _].
  exists (cm_world c), (bs_telemetry (cm c)). by rewrite He.
Qed.

Lemma change_if_any_spec c commands purpose :
  aside c (change_if_any c commands purpose).
Proof.
  unfold change_if_any. destruct (is_nil commands); [done|].
  destruct (commit_change c commands purpose) as [r c'] eqn:Hc. by apply commit_change_spec in Hc.
Qed.

Lemma live_handles_aside config c live c' : live_handles config c = go (live, c') -> aside c c'.
Proof. unfold live_handles. intros H3. flow_inv. done. Qed.

Lemma assign_handles_spec config layout live c cmd cmd' c' :
  assign_handles config layout live c cmd = go (cmd', c') -> aside c c' /\ plain cmd' = plain cmd.
Proof. unfold assign_handles. intros Ha. flow_inv. split; [done|]. by eapply with_assigned_plain. Qed.

Lemma rotate_handles_spec config layout live c old cmd cmd' c' :
  rotate_handles config layout live c old cmd = go (cmd', c') -> aside c c' /\ plain cmd' = plain cmd.
Proof. unfold rotate_handles. intros Ha. flow_inv. split; [done|]. by eapply rotate_changed_plain. Qed.

(** A migration is queued for the circuit, or nothing happens. *)
Lemma queue_migration_spec c old cmd queued c' :
  queue_migration c old cmd = (queued, c') ->
  cm_circuits c' = cm_circuits c /\ (reload_asked c -> reload_asked c')
  /\ if queued then exists h m, circuit_key cmd = Some h /\ desired_cmd m = cmd /\ cm_migrations c' = <[h := m]> (cm_migrations c)
     else cm_migrations c' = cm_migrations c.
Proof.
  unfold queue_migration, queue_live_migration, queue_runtime_migration. intros Hq.
  destruct cmd; try (by injection Hq as <- <-).
  destruct (_ && _) eqn:Hl; [by injection Hq as <- <-|].
  destruct old; try (by injection Hq as <- <-).
  destruct (find_free_circuit_shadow_minor _ _ _ _ _); [|by injection Hq as <- <-].
  injection Hq as <- <-. split_and!; [done|done|]. do 2 eexists. split; [reflexivity|]. by split; [|reflexivity].
Qed.
End Steps.

Section Rounds.
  Context {W : Type} `{TcHost W} `{TcShow W} `{ReloadHost W} `{FaultHost W}.
  Implicit Types c : CommitState (W := W).

  (** The batch that the commands of a round are drawn from. *)
  Variable wanted : gmap Z BakeryCommands.

Definition drawn (cmd : BakeryCommands) : Prop :=
  exists h b, circuit_key cmd = Some h /\ wanted !! h = Some b /\ plain cmd = plain b.

(** Circuits that no command is about stay as they are; [P] holds of the others. *)
Definition settles (P : CommitState (W := W) -> Z -> BakeryCommands -> Prop) (l : list BakeryCommands)
    (c c' : CommitState (W := W)) : Prop :=
  (forall h, (forall cmd, cmd ∈ l -> circuit_key cmd <> Some h) -> same_at h c c')
  /\ (forall h cmd, cmd ∈ l -> circuit_key cmd = Some h -> P c' h cmd)
  /\ (reload_asked c -> reload_asked c').

(** [P] looks at the circuit only, and not at handles. *)
Class Local (P : CommitState (W := W) -> Z -> BakeryCommands -> Prop) : Prop := {
  local_same c c' h cmd : same_at h c c' -> P c h cmd -> P c' h cmd;
  local_plain c h cmd cmd' : plain cmd = plain cmd' -> P c h cmd -> P c h cmd'
}.

#[export] Instance recorded_local : Local recorded.
Proof.
  split; unfold recorded.
  - intros c c' h cmd [Hc _]. by rewrite Hc.
  - intros c h cmd cmd' <-. done.
Qed.
#[export] Instance moved_local config : Local (moved config).
Proof.
  split; unfold moved.
  - intros c c' h cmd [Hc _]. by rewrite Hc.
  - intros c h cmd cmd' <-. done.
Qed.
#[export] Instance migrating_local : Local migrating.
Proof.
  split; unfold migrating.
  - intros c c' h cmd [_ Hm]. by rewrite Hm.
  - intros c h cmd cmd' <-. done.
Qed.
#[export] Instance settled_local : Local settled.
Proof.
  split; unfold settled, recorded, migrating.
  - intros c c' h cmd [Hc Hm]. by rewrite Hc, Hm.
  - intros c h cmd cmd' <-. done.
Qed.

#[export] Instance same_at_through {A} (st : A -> CommitState (W := W)) h : PreOrder (fun a b => same_at h (st a) (st b)).
Proof. split; [intros ?; reflexivity|]. intros ?????. by etransitivity. Qed.
#[export] Instance asked_through {A} (st : A -> CommitState (W := W)) :
  PreOrder (fun a b => reload_asked (st a) -> reload_asked (st b)).
Proof. split; [by intros ??|]. intros ??????. auto. Qed.

Lemma settles_each {A} (st : A -> CommitState (W := W)) P `{!Local P} (f : A -> BakeryCommands -> flow (W := W) A) l a a' :
  Forall drawn l ->
  (forall cmd b b', drawn cmd -> f b cmd = go b' -> settles P [cmd] (st b) (st b')) ->
  each f a l = go a' -> settles P l (st a) (st a').
Proof.
  intros Hl Hf He. rewrite Forall_forall in Hl. split_and!.
  - intros h Hh. refine (each_frame (fun a b => same_at h (st a) (st b)) f l a a' _ He).
    intros x b b' Hx Hb. apply (Hf _ _ _ ltac:(by apply Hl) Hb). intros cmd ->%list_elem_of_singleton. by apply Hh.
  - intros h cmd Hcmd Hk. apply (each_reaches (fun _ => True) (fun a => P (st a) h cmd) f cmd l a a' I Hcmd); [| |done].
    + intros y b b' Hy _ Hb. split; [done|]. destruct (Hf _ _ _ ltac:(by apply Hl) Hb) as (Hother & Hthis & _).
      destruct (decide (circuit_key y = Some h)) as [Hyk|Hyk].
      * intros _. apply (local_plain _ _ y); [|by apply Hthis; [left|]].
        destruct (Hl _ Hy) as (h1 & b1 & ? & ? & ?), (Hl _ Hcmd) as (h2 & b2 & ? & ? & ?). congruence.
      * apply local_same, Hother. by intros ? ->%list_elem_of_singleton.
    + intros b b' _ Hb. apply (Hf _ _ _ ltac:(by apply Hl) Hb); [left|done].
  - refine (each_frame (fun a b => reload_asked (st a) -> reload_asked (st b)) f l a a' _ He).
    intros x b b' Hx Hb. apply (Hf _ _ _ ltac:(by apply Hl) Hb).
Qed.

(** Whatever leaves circuits alone may come before and after. *)
Lemma settles_aside P `{!Local P} l c0 c c' c1 : aside c0 c -> settles P l c c' -> aside c' c1 -> settles P l c0 c1.
Proof.
  intros [Hc0 R0] (Hs & HP & R) [Hc1 R1]. split_and!.
  - intros h Hh. etransitivity; [by apply core_same|]. etransitivity; [by apply Hs|]. by apply core_same.
  - intros h cmd Hcmd Hk. apply (local_same c'); [by apply core_same|]. by apply HP.
  - auto.
Qed.

Lemma settles_plain P `{!Local P} cmd cmd' c c' : plain cmd' = plain cmd -> settles P [cmd'] c c' -> settles P [cmd] c c'.
Proof.
  intros Hp (Hs & HP & R). pose proof (plain_key _ _ Hp) as Hk. split_and!; [| |done].
  - intros h Hh. apply Hs. intros x ->%list_elem_of_singleton. rewrite Hk. apply Hh. left.
  - intros h x ->%list_elem_of_singleton Hx. apply (local_plain _ _ cmd' _ Hp). apply HP; [left|congruence].
Qed.

Lemma settles_nil P c : settles P [] c c.
Proof. split_and!; [done| |done]. by intros h cmd ?%elem_of_nil. Qed.

(** ** One command *)

Lemma insert_settles c cmd : settles recorded [cmd] c (insert_circuit c cmd).
Proof.
  unfold insert_circuit, speed_in_memory. split_and!.
  - intros h Hh. destruct cmd; try done. split; [|done]. cbn. apply lookup_insert_ne. intros Heq. by eapply Hh; [left|rewrite <- Heq].
  - intros h x ->%list_elem_of_singleton (a & -> & <-)%circuit_key_inv. exists (AddCircuit a). split; [|done]. cbn.
    apply lookup_insert_eq.
  - by destruct cmd.
Qed.

Lemma recorded_settles l c c' : settles recorded l c c' -> settles settled l c c'.
Proof. intros (Hs & HP & R). split_and!; [done| |done]. intros h cmd Hc Hk. left. by apply HP. Qed.

Lemma queued_settles c old cmd c' : queue_migration c old cmd = (true, c') -> settles settled [cmd] c c'.
Proof.
  intros (Hc & R & h & m & Hk & Hd & Hm)%queue_migration_spec. split_and!; [| |done].
  - intros k Hh. split; [by rewrite Hc|]. rewrite Hm. apply lookup_insert_ne. intros ->. by apply (Hh cmd); [left|].
  - intros k x ->%list_elem_of_singleton Hx. right. exists m. rewrite Hm. assert (k = h) as -> by congruence.
    by rewrite lookup_insert_eq, Hd.
Qed.

Lemma replace_speed_settles config c immediate old cmd c' immediate' :
  is_Some (circuit_key cmd) -> replace_speed config c immediate old cmd = go (c', immediate') -> settles settled [cmd] c c'.
Proof.
  intros [h (a & -> & _)%circuit_key_inv]. unfold replace_speed.
  assert (forall c0, aside c c0 -> settles settled [AddCircuit a] c (insert_circuit c0 (AddCircuit a))) as Hins.
  { intros c0 Hc0. apply recorded_settles, (settles_aside _ _ c c0 _ _ Hc0 (insert_settles _ _)). reflexivity. }
  destruct old as [old|]; [|intros Hr; flow_inv; by apply Hins].
  destruct (queue_migration c old _) as [[] c0] eqn:Hq; intros Hr; flow_inv; [by eapply queued_settles|].
  apply queue_migration_spec in Hq as (Hc & R & Hm). apply Hins. split; [|done]. unfold core. by rewrite Hc, Hm.
Qed.

Lemma speed_live_settles config layout live acc cmd acc' :
  drawn cmd -> speed_live config layout live acc cmd = go acc' -> settles settled [cmd] acc.1 acc'.1.
Proof.
  destruct acc as [c immediate], acc' as [c' immediate']. intros (h & b & Hk & _). unfold speed_live.
  destruct layout as [layout|]; [|done]. intros Hr. apply and_then_go in Hr as ([cmd1 c1] & Ha & Hr).
  apply assign_handles_spec in Ha as [Ha Hp]. cbn [fst].
  destruct (replaced_circuit c1 cmd1) as [old|].
  - apply and_then_go in Hr as ([cmd2 c2] & Hro & Hr). apply rotate_handles_spec in Hro as [Hro Hp2].
    apply (settles_plain _ _ cmd2); [congruence|].
    apply (settles_aside _ _ _ c2 c'); [by etransitivity| |reflexivity].
    eapply replace_speed_settles; [|exact Hr]. rewrite (plain_key cmd2 cmd) by congruence. eauto.
  - apply (settles_plain _ _ cmd1); [congruence|].
    apply (settles_aside _ _ _ c1 c'); [done| |reflexivity].
    eapply replace_speed_settles; [|exact Hr]. rewrite (plain_key cmd1 cmd) by congruence. eauto.
Qed.

(** ** The steps of a commit *)

Lemma is_nil_eq {A} (l : list A) : is_nil l = true -> l = [].
Proof. by destruct l. Qed.

Lemma fold_settles l c : Forall drawn l -> settles recorded l c (fold_left insert_circuit l c).
Proof.
  intros Hl. apply (settles_each id _ (fun c cmd => go (insert_circuit c cmd)) l c); [done| |apply each_pure].
  intros cmd b b' _ <-%go_inj. apply insert_settles.
Qed.

Lemma speed_step_settles config layout changed c c' :
  Forall drawn changed -> speed_step config layout changed c = go c' -> settles settled changed c c'.
Proof.
  intros Hd. unfold speed_step. destruct (is_nil changed) eqn:Hnil.
  { apply is_nil_eq in Hnil as ->. intros <-%go_inj. apply settles_nil. }
  destruct (live_tree_mutation_blocker_for_config _ _).
  - intros <-%go_inj. apply recorded_settles. eapply settles_aside; [apply _| |apply (fold_settles changed _ Hd)|reflexivity]. done.
  - intros Hr. apply and_then_go in Hr as ([live c1] & Hl%live_handles_aside & Hr).
    apply and_then_go in Hr as ([c2 immediate] & He & <-%go_inj).
    refine (settles_aside _ _ _ c1 c2 _ Hl _ (change_if_any_spec _ _ _)).
    apply (settles_each fst _ (speed_live config layout live) changed (c1, []) (c2, immediate) Hd); [|done].
    intros cmd b b' Hc. by apply speed_live_settles.
Qed.

Lemma ip_step_settles config layout changed c c' :
  Forall drawn changed -> ip_step config layout changed c = go c' -> settles recorded changed c c'.
Proof.
  intros Hd. unfold ip_step. destruct (is_nil changed) eqn:Hnil.
  { apply is_nil_eq in Hnil as ->. intros <-%go_inj. apply settles_nil. }
  destruct layout as [layout|]; [|done].
  intros Hr. apply and_then_go in Hr as ([live c1] & Hl%live_handles_aside & He).
  refine (settles_aside _ _ _ c1 c' _ Hl _ (reflexivity _)).
  apply (settles_each id _ (readdress_one config layout live) changed c1 c' Hd); [|done].
  intros cmd b b' _. unfold readdress_one. intros Hr. apply and_then_go in Hr as ([cmd1 c2] & Ha & <-%go_inj).
  apply assign_handles_spec in Ha as [Ha Hp]. apply (settles_plain _ _ cmd1); [done|].
  exact (settles_aside _ _ _ _ _ _ Ha (insert_settles c2 cmd1) (reflexivity _)).
Qed.

Lemma enrich_each config layout live l : forall c enriched c' enriched',
  each (enrich_one config layout live) (c, enriched) l = go (c', enriched') ->
  aside c c' /\ exists more, enriched' = enriched ++ more /\ Forall2 (fun a b => plain b = plain a) l more.
Proof.
  induction l as [|cmd l IH]; intros c enriched c' enriched'; cbn [each].
  - intros Heq%go_inj. injection Heq as <- <-. split; [reflexivity|]. exists []. by rewrite app_nil_r.
  - intros Hr. apply and_then_go in Hr as ([c1 e1] & H1' & Hr). unfold enrich_one in H1'.
    apply and_then_go in H1' as ([cmd1 c2] & Ha & Heq%go_inj). injection Heq as <- <-.
    apply assign_handles_spec in Ha as [Ha Hp]. destruct (IH _ _ _ _ Hr) as (Hc & more & -> & Hm).
    split; [by etransitivity|]. exists (cmd1 :: more). rewrite <- app_assoc. split; [done|]. by constructor.
Qed.

(** The additions within the limit. *)
Definition accepted_additions (limit : option nat) (added : list BakeryCommands) (c : CommitState (W := W)) : list BakeryCommands :=
  (fold_left (accept_addition limit) added ([], count_mapped (cm_circuits c))).1.

Lemma Forall2_left {A B} (P : A -> B -> Prop) l l' x : Forall2 P l l' -> x ∈ l -> exists y, y ∈ l' /\ P x y.
Proof.
  induction 1 as [|a b l l' Hab _ IH]; [by intros ?%elem_of_nil|].
  intros [->|(y & ? & ?)%IH]%elem_of_cons; [exists b|exists y]; by rewrite elem_of_cons; auto.
Qed.
Lemma Forall2_right {A B} (P : A -> B -> Prop) l l' y : Forall2 P l l' -> y ∈ l' -> exists x, x ∈ l /\ P x y.
Proof. intros HF%Forall2_flip. apply (Forall2_left _ _ _ _ HF). Qed.

Lemma Forall2_plain_drawn l l' : Forall2 (fun a b => plain b = plain a) l l' -> Forall drawn l -> Forall drawn l'.
Proof.
  induction 1 as [|a b l l' Hp _ IH]; [done|]. intros [(h & x & Hk & Hx & Hpa) Hl]%Forall_cons. constructor; [|auto].
  exists h, x. by rewrite (plain_key _ _ Hp), Hp.
Qed.

Lemma addition_step_spec config layout limit added c c' :
  Forall drawn (accepted_additions limit added c) -> addition_step config layout limit added c = go c' ->
  settles recorded (accepted_additions limit added c) c c'
  /\ exists c1 enriched, core c1 = core c /\ c' = fold_left insert_circuit enriched c1
     /\ Forall2 (fun a b => plain b = plain a) (accepted_additions limit added c) enriched.
Proof.
  intros Hd. unfold addition_step. destruct (is_nil added) eqn:Hnil.
  { apply is_nil_eq in Hnil as ->. intros <-%go_inj. split; [apply settles_nil|]. by exists c, []. }
  fold (accepted_additions limit added c). destruct layout as [layout|]; [|done].
  intros Hr. apply and_then_go in Hr as ([live c1] & Hl%live_handles_aside & Hr).
  apply and_then_go in Hr as ([c2 enriched] & He & Hr). apply enrich_each in He as (Hc2 & more & Hmore & HF).
  cbn [app] in Hmore. subst enriched. apply and_then_go in Hr as (commands & _ & <-%go_inj).
  assert (aside c (change_if_any c2 commands (str "adding new circuits"))) as Hside.
  { etransitivity; [exact Hl|]. etransitivity; [exact Hc2|]. apply change_if_any_spec. }
  split; [|by exists (change_if_any c2 commands (str "adding new circuits")), more; split_and!; [apply Hside|..]].
  pose proof (settles_aside _ _ _ _ _ _ Hside (fold_settles more _ (Forall2_plain_drawn _ _ HF Hd)) (reflexivity _))
    as (Hs & HP & R).
  split_and!; [| |done].
  - intros h Hh. apply Hs. intros cmd Hcmd. destruct (Forall2_right _ _ _ _ HF Hcmd) as (x & Hx & Hp).
    rewrite (plain_key _ _ Hp). by apply Hh.
  - intros h cmd Hcmd Hk. destruct (Forall2_left _ _ _ _ HF Hcmd) as (x & Hx & Hp).
    apply (local_plain _ _ x _ Hp). apply HP; [done|]. by rewrite (plain_key _ _ Hp).
Qed.

(** ** Moves *)

  Variable class_order : class_snapshot -> list LiveTcClassEntry.
  Variable class_error_text : rstring -> ClassLineError -> rstring.

(** A prepared move that the batch asks for. *)
Definition drawn_move (p : Prepared) : Prop := circuit_key (prep_new p) = Some (prep_hash p) /\ drawn (prep_new p).

Lemma drawn_move_unique p q : drawn_move p -> drawn_move q -> prep_hash p = prep_hash q -> plain (prep_new p) = plain (prep_new q).
Proof. intros [Hp (h & b & ? & ? & ?)] [Hq (h' & b' & ? & ? & ?)] Heq. congruence. Qed.

(** One moved circuit is prepared when it is recorded. *)
Lemma prepare_one_spec config layout live c cmd acc acc' :
  drawn cmd -> aside c acc.1.1 -> prepare_one config layout live acc cmd = go acc' ->
  aside c acc'.1.1 /\ exists more, acc'.1.2 = acc.1.2 ++ more
    /\ Forall (fun p => drawn_move p /\ plain (prep_new p) = plain cmd /\ is_Some (cm_circuits c !! prep_hash p)) more
    /\ forall h, circuit_key cmd = Some h -> is_Some (cm_circuits c !! h) -> more <> [].
Proof.
  destruct acc as [[b ps] [pd pu]]. intros (h & x & Hk & Hx & Hpx) Hb. unfold prepare_one. intros Hr.
  apply and_then_go in Hr as ([cmd1 b1] & Ha & Hr). apply assign_handles_spec in Ha as [Ha Hp]. cbn [fst snd] in *.
  assert (aside c b1) as Hb1 by (by etransitivity).
  pose proof (plain_key _ _ Hp) as Hk1. rewrite Hk in Hk1.
  apply circuit_key_inv in Hk1 as (a1 & -> & Ha1). cbn [replaced_circuit] in Hr. rewrite Ha1 in Hr.
  assert (cm_circuits b1 = cm_circuits c) as Hsame by (by injection (proj1 Hb1)). rewrite Hsame in Hr.
  destruct (cm_circuits c !! h) as [old|] eqn:Hold.
  - apply and_then_go in Hr as ([cmd2 b2] & Hro & Hr). apply rotate_handles_spec in Hro as [Hro Hp2].
    assert (circuit_key cmd2 = Some h) as Hk2 by (rewrite (plain_key _ cmd) by congruence; done).
    destruct (circuit_key_inv _ _ Hk2) as (a2 & -> & Ha2). cbn [circuit_class_handles] in Hr. apply go_inj in Hr.
    subst acc'. cbn [fst snd]. split; [by etransitivity|]. eexists. split; [reflexivity|]. split; [|done].
    apply Forall_singleton. cbn [prep_new prep_hash]. split_and!; [|congruence|by rewrite Ha2, Hold]. split; [done|].
    exists h, x. cbn [prep_new]. split_and!; [done|done|congruence].
  - apply go_inj in Hr. subst acc'. cbn [fst snd]. split; [done|]. exists []. rewrite app_nil_r. split_and!; [done|done|].
    intros h' Hh'. rewrite Hk in Hh'. injection Hh' as <-. rewrite Hold. by intros [? ?].
Qed.

(** Each moved circuit that is recorded is prepared, and nothing else. *)
Lemma prepare_each_spec config layout live migrated c c' prepared protected :
  Forall drawn migrated ->
  each (prepare_one config layout live) (c, [], (∅, ∅)) migrated = go (c', prepared, protected) ->
  aside c c' /\ Forall drawn_move prepared
  /\ (forall p, p ∈ prepared ->
        is_Some (cm_circuits c !! prep_hash p) /\ exists cmd, cmd ∈ migrated /\ plain (prep_new p) = plain cmd)
  /\ forall cmd h, cmd ∈ migrated -> circuit_key cmd = Some h -> is_Some (cm_circuits c !! h) ->
       exists p, p ∈ prepared /\ plain (prep_new p) = plain cmd.
Proof.
  intros Hd He. rewrite Forall_forall in Hd.
  pose proof (fun cmd b b' Hcmd => prepare_one_spec config layout live c cmd b b' (Hd cmd Hcmd)) as Hstep.
  assert (aside c c) as Hrefl by reflexivity.
  assert (aside c c' /\ Forall (fun p => drawn_move p /\ is_Some (cm_circuits c !! prep_hash p)
    /\ exists cmd, cmd ∈ migrated /\ plain (prep_new p) = plain cmd) prepared) as [Hside HF].
  { refine (each_keeps (fun b => aside c b.1.1 /\ Forall (fun p => drawn_move p /\ is_Some (cm_circuits c !! prep_hash p)
      /\ exists cmd, cmd ∈ migrated /\ plain (prep_new p) = plain cmd) b.1.2) _ _ _ _ _ _ He); [split; [done|constructor]|].
    intros x b b' Hx [Hb HF] Hf. destruct (Hstep x b b' Hx Hb Hf) as (? & more & -> & Hm & _). split; [done|].
    apply Forall_app. split; [done|]. eapply Forall_impl; [exact Hm|]. cbn. intros p (? & ? & ?). eauto. }
  rewrite Forall_and in HF. destruct HF as [HF1 HF2]. rewrite Forall_forall in HF2. split_and!; [done|done|done|].
  intros cmd h Hcmd Hk Hold.
  refine (each_reaches (fun b => aside c b.1.1) (fun b => exists p, p ∈ b.1.2 /\ plain (prep_new p) = plain cmd)
    _ cmd _ _ _ _ Hcmd _ _ He).
  - done.
  - intros x b b' Hx Hb Hf. destruct (Hstep x b b' Hx Hb Hf) as (? & more & -> & Hm & _). split; [done|].
    intros (p & Hp & ?). exists p. split; [|done]. apply elem_of_app. by left.
  - intros b b' Hb Hf. destruct (Hstep cmd b b' Hcmd Hb Hf) as (? & more & -> & Hm & Hne).
    destruct more as [|p more]; [by destruct (Hne h Hk Hold)|]. apply Forall_cons in Hm as [(_ & Hp & _) _].
    exists p. split; [|done]. apply elem_of_app. right. left.
Qed.

(** One move: its migration is queued, or it is one of the updates. *)
Lemma move_one_spec config raw_batch layout down up pd pu acc acc' p :
  move_one class_order class_error_text config raw_batch layout down up pd pu acc p = go acc' ->
  let '(c, _, updates) := acc in
  let '(c', _, updates') := acc' in
  cm_circuits c' = cm_circuits c /\ (reload_asked c -> reload_asked c')
  /\ ((exists h m, circuit_key (prep_new p) = Some h /\ desired_cmd m = prep_new p
         /\ cm_migrations c' = <[h := m]> (cm_migrations c) /\ updates' = updates)
      \/ (cm_migrations c' = cm_migrations c /\ updates' = updates ++ [p])).
Proof.
  destruct acc as [[c immediate] updates], acc' as [[c' immediate'] updates']. unfold move_one.
  destruct (queue_migration c (prep_old p) (prep_new p)) as [queued c1] eqn:Hq.
  apply queue_migration_spec in Hq as (Hc & R & Hm). destruct queued.
  - destruct Hm as (h & m & ? & ? & ?). intros Heq%go_inj. injection Heq as <- _ <-. split_and!; [done|done|]. left. eauto 6.
  - case_bool_decide; [by destruct (reload_commit _ _ _ _ _ _ _)|]. intros Hr.
    apply and_then_go in Hr as (commands & _ & Heq%go_inj). injection Heq as <- _ <-. split_and!; [done|done|]. by right.
Qed.

Lemma move_one_round config raw_batch layout down up pd pu acc acc' p q :
  drawn_move p -> drawn_move q ->
  move_one class_order class_error_text config raw_batch layout down up pd pu acc q = go acc' ->
  migrating acc'.1.1 (prep_hash p) (prep_new p)
  \/ (cm_migrations acc'.1.1 !! prep_hash p = cm_migrations acc.1.1 !! prep_hash p
      /\ (forall x, x ∈ acc.2 -> x ∈ acc'.2) /\ (q = p -> p ∈ acc'.2)).
Proof.
  destruct acc as [[b i] u], acc' as [[b' i'] u']. intros Hp Hq (_ & _ & Hm)%move_one_spec. cbn [fst snd] in *.
  pose proof (proj1 Hp) as Hkp. pose proof (proj1 Hq) as Hkq.
  destruct Hm as [(k & m & Hk & Hdm & Hmig & ->)|[-> ->]].
  - destruct (decide (k = prep_hash p)) as [->|Hne].
    + left. exists m. rewrite Hmig, lookup_insert_eq, Hdm. split; [done|]. apply drawn_move_unique; [done|done|congruence].
    + right. rewrite Hmig, lookup_insert_ne by done. split_and!; [done|done|]. intros ->. congruence.
  - right. split_and!; [done|intros x Hx; apply elem_of_app; by left|]. intros ->. apply elem_of_app. right. left.
Qed.

(** The commands contain those that build the circuit, unless there is nothing to build. *)
Definition built_by (config : Config) (commands : list argv) (cmd : BakeryCommands) : Prop :=
  lazy_queues (queues config) = Some Lazy_Full
  \/ exists built, created_commands config Builder cmd = Ok built /\ default [] built ⊆ commands.

Lemma built_by_more config commands commands' cmd :
  commands ⊆ commands' -> built_by config commands cmd -> built_by config commands' cmd.
Proof. intros Hsub [?|(built & ? & Hb)]; [by left|]. right. exists built. split; [done|]. by etransitivity. Qed.

Lemma move_commands_build config down up pd pu p commands :
  move_commands config down up pd pu p = Ok commands -> built_by config commands (prep_new p).
Proof.
  unfold move_commands, built_by. destruct (lazy_queues (queues config)) as [[]|]; try (by left);
    intros (prune & _ & (add & Hadd & Hc)%result_bind_Ok)%result_bind_Ok; injection Hc as <-; right; exists add;
    (split; [done|]); by apply list_subseteq_app_r.
Qed.

(** Every update has its commands among those that will be executed. *)
Lemma move_each_built config raw_batch layout down up pd pu prepared c c' immediate updates :
  each (move_one class_order class_error_text config raw_batch layout down up pd pu) (c, [], []) prepared = go (c', immediate, updates) ->
  Forall (fun p => built_by config immediate (prep_new p)) updates.
Proof.
  intros He. refine (each_keeps (fun b => Forall (fun p => built_by config b.1.2 (prep_new p)) b.2) _ _ _ _ _ _ He);
    [constructor|].
  intros p [[b i] u] [[b' i'] u'] _ Hb. cbn [fst snd] in *. unfold move_one.
  destruct (queue_migration b (prep_old p) (prep_new p)) as [[] b1]; [by intros [= _ <- <-]|].
  case_bool_decide; [by destruct (reload_commit _ _ _ _ _ _ _)|]. intros Hr.
  apply and_then_go in Hr as (commands & Hc%lift_go%move_commands_build & Heq%go_inj). injection Heq as _ <- <-.
  apply Forall_app. split.
  - eapply Forall_impl; [exact Hb|]. intros q. apply built_by_more. by apply list_subseteq_app_l.
  - apply Forall_singleton. eapply built_by_more; [|exact Hc]. by apply list_subseteq_app_r.
Qed.

(** After the moves each one has its migration, or is one of the updates and has none but the one it had. *)
Lemma move_each_spec config raw_batch layout down up pd pu prepared c c' immediate updates :
  Forall drawn_move prepared ->
  each (move_one class_order class_error_text config raw_batch layout down up pd pu) (c, [], []) prepared = go (c', immediate, updates) ->
  cm_circuits c' = cm_circuits c /\ (reload_asked c -> reload_asked c') /\ Forall drawn_move updates
  /\ Forall (fun p => built_by config immediate (prep_new p)) updates
  /\ (forall h, (forall p, p ∈ prepared -> prep_hash p <> h) ->
        cm_migrations c' !! h = cm_migrations c !! h /\ forall p, p ∈ updates -> prep_hash p <> h)
  /\ forall p, p ∈ prepared ->
       migrating c' (prep_hash p) (prep_new p)
       \/ (p ∈ updates /\ cm_migrations c' !! prep_hash p = cm_migrations c !! prep_hash p).
Proof.
  intros Hd He. rewrite Forall_forall in Hd.
  assert (cm_circuits c' = cm_circuits c /\ (reload_asked c -> reload_asked c') /\ forall p, p ∈ updates -> p ∈ prepared)
    as (Hcirc & R & Hsub).
  { refine (each_keeps (fun b => cm_circuits b.1.1 = cm_circuits c /\ (reload_asked c -> reload_asked b.1.1)
      /\ forall p, p ∈ b.2 -> p ∈ prepared) _ _ _ _ _ _ He); [split_and!; [done|done|by intros p ?%elem_of_nil]|].
    intros p [[b i] u] [[b' i'] u'] Hp (Hb & Rb & Hu) (Hc & R & Hm)%move_one_spec. cbn [fst snd] in *.
    split_and!; [congruence|auto|]. destruct Hm as [(_ & _ & _ & _ & _ & ->)|[_ ->]]; [done|].
    intros q [Hq| ->%list_elem_of_singleton]%elem_of_app; auto. }
  split_and!; [done|done|by apply Forall_forall; auto|by eapply move_each_built| |].
  - intros h Hh. split; [|by auto].
    refine (each_keeps (fun b => cm_migrations b.1.1 !! h = cm_migrations c !! h) _ _ _ _ (reflexivity _) _ He).
    intros p [[b i] u] [[b' i'] u'] Hp Hb (_ & _ & Hm)%move_one_spec. cbn [fst snd] in *.
    destruct Hm as [(k & m & Hk & _ & -> & _)|[-> _]]; [|done]. rewrite lookup_insert_ne; [done|]. intros ->.
    destruct (Hd p Hp) as [Hkp _]. rewrite Hk in Hkp. injection Hkp as Hkp. by apply (Hh p Hp).
  - intros p Hp.
    pose proof (fun q b b' Hq => move_one_round config raw_batch layout down up pd pu b b' p q (Hd p Hp) (Hd q Hq)) as Hround.
    assert (migrating c' (prep_hash p) (prep_new p) \/ cm_migrations c' !! prep_hash p = cm_migrations c !! prep_hash p) as HI.
    { refine (each_keeps (fun b => migrating b.1.1 (prep_hash p) (prep_new p)
        \/ cm_migrations b.1.1 !! prep_hash p = cm_migrations c !! prep_hash p) _ _ _ _ (or_intror (reflexivity _)) _ He).
      intros q b b' Hq Hb Hf. destruct (Hround q b b' Hq Hf) as [|[Hs _]]; [by left|]. unfold migrating. rewrite Hs. done. }
    assert (migrating c' (prep_hash p) (prep_new p) \/ p ∈ updates) as HP.
    { refine (each_reaches (fun _ => True) (fun b => migrating b.1.1 (prep_hash p) (prep_new p) \/ p ∈ b.2) _ p _ _ _ I Hp _ _ He).
      - intros q b b' Hq _ Hf. split; [done|]. destruct (Hround q b b' Hq Hf) as [|(Hs & Hu & _)]; [by left|].
        unfold migrating. rewrite Hs. intros [|]; auto.
      - intros b b' _ Hf. destruct (Hround p b b' Hp Hf) as [|(_ & _ & Hu)]; auto. }
    destruct HI, HP; auto.
Qed.

(** The last update of a circuit is the one that is recorded. *)
Lemma updates_lookup updates h : forall circuits : gmap Z BakeryCommands,
  let circuits' := fold_left (fun circuits p => <[prep_hash p := prep_new p]> circuits) updates circuits in
  ((forall p, p ∈ updates -> prep_hash p <> h) -> circuits' !! h = circuits !! h)
  /\ ((exists p, p ∈ updates /\ prep_hash p = h) ->
      exists p, p ∈ updates /\ prep_hash p = h /\ circuits' !! h = Some (prep_new p)).
Proof.
  induction updates as [|q updates IH] using rev_ind; intros circuits; cbn zeta.
  - split; [done|]. by intros (p & ?%elem_of_nil & _).
  - rewrite fold_left_app. cbn [fold_left]. specialize (IH circuits). cbn zeta in IH. destruct IH as [IH1 IH2]. split.
    + intros Hh. rewrite lookup_insert_ne; [|apply Hh, elem_of_app; right; left]. apply IH1. intros p Hp. apply Hh, elem_of_app. by left.
    + intros (p & [Hp| ->%list_elem_of_singleton]%elem_of_app & Hhash).
      * destruct (decide (prep_hash q = h)) as [Heq|Hne].
        { exists q. rewrite elem_of_app, <- Heq, lookup_insert_eq. split_and!; [right; left|done|done]. }
        destruct IH2 as (p' & ? & ? & ?); [by exists p|]. exists p'. rewrite elem_of_app, lookup_insert_ne by done. auto.
      * exists q. rewrite elem_of_app, <- Hhash, lookup_insert_eq. split_and!; [right; left|done|done].
Qed.

Lemma circuits_set c circuits : cm_circuits (set_circuits c circuits) = circuits.
Proof. done. Qed.

Lemma apply_moves_spec config c immediate updates :
  Forall drawn_move updates -> Forall (fun p => built_by config immediate (prep_new p)) updates ->
  let c' := apply_moves c immediate updates in
  cm_migrations c' = cm_migrations c /\ (reload_asked c -> reload_asked c')
  /\ (forall h, (forall p, p ∈ updates -> prep_hash p <> h) -> cm_circuits c' !! h = cm_circuits c !! h)
  /\ ((forall p, p ∈ updates -> moved config c' (prep_hash p) (prep_new p))
      \/ (cm_circuits c' = cm_circuits c /\ reload_asked c' /\ moves_answered (W := W) immediate false)).
Proof.
  intros Hd Hbuilt. rewrite Forall_forall in Hd, Hbuilt. cbn zeta. unfold apply_moves.
  assert (forall c0, aside c c0 -> immediate = [] \/ moves_answered (W := W) immediate true ->
    let c' := set_circuits c0 (fold_left (fun circuits p => <[prep_hash p := prep_new p]> circuits) updates (cm_circuits c0)) in
    cm_migrations c' = cm_migrations c /\ (reload_asked c -> reload_asked c')
    /\ (forall h, (forall p, p ∈ updates -> prep_hash p <> h) -> cm_circuits c' !! h = cm_circuits c !! h)
    /\ forall p, p ∈ updates -> moved config c' (prep_hash p) (prep_new p)) as Hok.
  { intros c0 [Hc R] Hanswer. injection Hc as Hc1 Hc2. cbn zeta. split_and!; [done|done|..].
    - intros h Hh. rewrite circuits_set, Hc1. by apply updates_lookup.
    - intros p Hp. destruct (updates_lookup updates (prep_hash p) (cm_circuits c)) as [_ Hl].
      destruct Hl as (q & Hq & Heq & Hlook); [by exists p|]. exists (prep_new q), immediate. rewrite circuits_set, Hc1.
      split_and!; [done|by apply drawn_move_unique; auto|done|by apply Hbuilt]. }
  destruct (is_nil immediate) eqn:Hnil.
  - apply is_nil_eq in Hnil. destruct (Hok c (reflexivity c)) as (? & ? & ? & ?); [by left|]. auto.
  - destruct (commit_change c immediate parent_move) as [r c1] eqn:Hc. pose proof (commit_change_answered _ _ _ _ Hc) as Hans.
    apply commit_change_spec in Hc. destruct (exec_ok r).
    + destruct (Hok c1 Hc) as (? & ? & ? & ?); [by right|]. auto.
    + destruct Hc as [Hc R]. injection Hc as Hc1 Hc2.
      assert (forall x, reload_asked (set_circuits (map_telemetry c1 (fun ts => mark_reload_required ts x)) (cm_circuits c1))) as Hasked.
      { intros x. unfold reload_asked. cbn. rewrite reason_mark_required. eauto. }
      split_and!; [done|intros _; apply Hasked|intros h _; exact (f_equal (lookup h) Hc1)|].
      right. split_and!; [exact Hc1|apply Hasked|done].
Qed.

Lemma observe_classes_aside c interface snapshot c' :
  observe_classes class_error_text c interface = Ok (snapshot, c') -> aside c c'.
Proof.
  unfold observe_classes. intros (i & _ & Hr)%result_bind_Ok. destruct (read_live_class_snapshot _ _ _ _) as [s cache].
  injection Hr as _ <-. done.
Qed.

(** The commands of the moves failed, and a reload is asked for. *)
Definition moves_failed (c' : CommitState (W := W)) : Prop :=
  reload_asked c' /\ exists commands, moves_answered (W := W) commands false.

(** A moved circuit is moved or its migration pends; it stays where it is when it is not recorded, or when the commands
    failed, and then a reload is asked for. *)
Lemma migration_step_settles config raw_batch layout migrated c c' :
  Forall drawn migrated ->
  migration_step_of_commit class_order class_error_text config raw_batch layout migrated c = go c' ->
  (forall h, (forall cmd, cmd ∈ migrated -> circuit_key cmd <> Some h) -> same_at h c c')
  /\ (reload_asked c -> reload_asked c')
  /\ forall h cmd, cmd ∈ migrated -> circuit_key cmd = Some h ->
       migrating c' h cmd \/ moved config c' h cmd
       \/ (same_at h c c' /\ (cm_circuits c !! h = None \/ moves_failed c')).
Proof.
  intros Hd. unfold migration_step_of_commit. destruct (is_nil migrated) eqn:Hnil.
  { apply is_nil_eq in Hnil as ->. intros <-%go_inj. split_and!; [done|done|by intros h cmd ?%elem_of_nil]. }
  destruct layout as [layout|]; [|done].
  intros Hr. apply and_then_go in Hr as ([live c1] & Hl%live_handles_aside & Hr).
  apply and_then_go in Hr as ([down c2] & H2'%lift_go%observe_classes_aside & Hr).
  apply and_then_go in Hr as ([up c3] & H3'%lift_go%observe_classes_aside & Hr).
  apply and_then_go in Hr as ([[c4 prepared] [pd pu]] & Hp%prepare_each_spec & Hr); [|done].
  apply and_then_go in Hr as ([[c5 immediate] updates] & Hm & <-%go_inj).
  destruct Hp as (H4' & Hdm & Hfrom & Hinto). apply move_each_spec in Hm as (Hc5 & R5 & Hdu & Hbu & Hm5 & Hmoved); [|done].
  assert (aside c c3) as [Hc3 R3] by (etransitivity; [exact Hl|]; by etransitivity).
  destruct H4' as [Hc4 R4]. injection Hc3 as Hc31 Hc32. injection Hc4 as Hc41 Hc42.
  destruct (apply_moves_spec config c5 immediate updates Hdu Hbu) as (Hmig & R6 & Hother & Hupd).
  set (c' := apply_moves c5 immediate updates) in *.
  assert (forall h, (forall p, p ∈ prepared -> prep_hash p <> h) -> same_at h c c') as Hkeep.
  { intros h Hh. destruct (Hm5 h Hh) as [Hmh Huh]. split; [rewrite Hother by done|rewrite Hmig]; congruence. }
  split_and!; [|auto|].
  - intros h Hh. apply Hkeep. intros p Hp Heq. destruct (Hfrom p Hp) as (_ & cmd & Hcmd & Hpl). apply (Hh cmd Hcmd).
    rewrite <- (plain_key _ _ Hpl), <- Heq. rewrite Forall_forall in Hdm. by apply Hdm.
  - intros h cmd Hcmd Hk. rewrite Forall_forall in Hdm. destruct (cm_circuits c !! h) as [o|] eqn:Ho.
    + destruct (Hinto cmd h Hcmd Hk) as (p & Hp & Hpl); [by rewrite Hc31, Ho|].
      assert (prep_hash p = h) as Hph.
      { destruct (Hdm p Hp) as [Hkp _]. rewrite (plain_key _ _ Hpl) in Hkp. congruence. }
      destruct (Hmoved p Hp) as [Hq|[Hu Hs]]; rewrite Hph in *.
      * left. destruct Hq as (m & Hlm & Hpm). exists m. rewrite Hmig. split; [done|congruence].
      * destruct Hupd as [Hrec|(Hsame & Hasked & Hans)].
        -- right; left. apply (local_plain _ _ (prep_new p)); [done|]. rewrite <- Hph. by apply Hrec.
        -- right; right. split; [|right; split; [done|by exists immediate]]. split; [|rewrite Hmig]; congruence.
    + right; right. split; [|by left]. apply Hkeep. intros p Hp <-. destruct (Hfrom p Hp) as [[x Hx] _]. congruence.
Qed.
End Rounds.

(** ** Every step returns *)

Section Total.
  Context {W : Type} `{TcHost W} `{TcShow W} `{ReloadHost W} `{FaultHost W}.
  Variable class_order : class_snapshot -> list LiveTcClassEntry.
  Variable class_error_text : rstring -> ClassLineError -> rstring.
  Context (config : Config) (Hconf : interfaces_configured config).
  Implicit Types c : CommitState (W := W).

Lemma isp_total : returns (isp_interface config).
Proof. by apply interfaces_return. Qed.
Lemma internet_total : returns (internet_interface config).
Proof. by apply interfaces_return. Qed.
Lemma push_if_total cond interface command : returns interface -> returns (push_if cond interface command).
Proof. apply push_if_returns. Qed.
Lemma to_prune_total force cmd : returns (to_prune config force cmd).
Proof. by apply to_prune_returns. Qed.

Create HintDb commits.
#[local] Hint Resolve returns_ok isp_total internet_total push_if_total to_prune_total : commits.
#[local] Ltac commits := repeat first [ progress intros | solve [eauto with commits] | apply returns_bind | case_match ].

Lemma mapM_total {A B} (f : A -> result Panic B) l : (forall a, returns (f a)) -> returns (mapM f l).
Proof. intros Hf. induction l as [|a l IH]; cbn; [by eexists|]. commits; by eexists. Qed.

Lemma to_commands_total mode mq_created cmd : returns (to_commands config mode mq_created cmd).
Proof.
  destruct cmd; cbn [to_commands]; try apply returns_ok; (apply returns_bind; [|intros; apply returns_ok]).
  - unfold mq_setup, root_commands. commits; apply mapM_total; commits.
  - unfold add_site. commits.
  - by apply add_circuit_returns.
Qed.
#[local] Hint Resolve to_commands_total mapM_total : commits.

Lemma created_total mode cmd : returns (created_commands config mode cmd).
Proof. unfold created_commands. commits. Qed.

Lemma with_assigned_total cmd layout handles extra : returns (with_assigned_qdisc_handles_reserved cmd config layout handles extra).
Proof. unfold with_assigned_qdisc_handles_reserved. commits. Qed.

Lemma rotate_changed_total old cmd layout handles extra : returns (rotate_changed_qdisc_handles_reserved old cmd config layout handles extra).
Proof. unfold rotate_changed_qdisc_handles_reserved. commits. Qed.
#[local] Hint Resolve created_total with_assigned_total rotate_changed_total : commits.

Lemma build_batch_total layout extra preserved batch : forall s, returns (build_batch config layout extra preserved batch s).
Proof. induction batch as [|cmd batch IH]; intros s; cbn [build_batch]; [commits|]. unfold build_step. commits. Qed.

Lemma managed_interfaces_total : returns (managed_interfaces_for_config config).
Proof. unfold managed_interfaces_for_config. commits. Qed.
#[local] Hint Resolve build_batch_total managed_interfaces_total : commits.

Lemma process_batch_total (w : W) t batch layout extra preserved mq_created :
  returns (process_batch w t batch config layout extra preserved mq_created).
Proof. unfold process_batch. commits. Qed.

Lemma snapshot_total (w : W) cache : returns (snapshot_live_qdisc_handle_majors w cache config).
Proof. unfold snapshot_live_qdisc_handle_majors. commits. Qed.
#[local] Hint Resolve process_batch_total snapshot_total : commits.

Lemma full_reload_total (w : W) cache s batch layout summary :
  returns (full_reload class_order class_error_text w cache s config batch layout summary).
Proof.
  unfold full_reload, reload_bypassed, reload_batch, finish_installed, prepare_root_mq_for_full_reload, verify_tc_classify_attached.
  commits.
Qed.
#[local] Hint Resolve full_reload_total : commits.

Lemma reload_commit_total batch layout summary c : returns (reload_commit class_order class_error_text config batch layout summary c).
Proof. unfold reload_commit. commits. Qed.
#[local] Hint Resolve reload_commit_total : commits.

(** A flow that returns, and leaves only by a reload or without a layout. *)
Context (raw_batch : list BakeryCommands).

Definition reloads (layout : option MqDeviceLayout) (c' : CommitState (W := W)) : Prop :=
  exists c summary, reload_commit class_order class_error_text config raw_batch layout summary c = Ok c'.
Definition fine {A} (layout : option MqDeviceLayout) (m : flow (W := W) A) : Prop :=
  match m with Err _ => False | Ok (inl c) => layout = None \/ reloads layout c | Ok (inr _) => True end.

Lemma fine_and_then {A B} layout (m : flow A) (f : A -> flow B) :
  fine layout m -> (forall a, m = go a -> fine layout (f a)) -> fine layout (and_then m f).
Proof. destruct m as [[c|a]|e]; cbn; intros Hm Hf; [done|by apply Hf|done]. Qed.
Lemma fine_lift {A} layout (r : result Panic A) : returns r -> fine layout (lift r).
Proof. by intros [a ->]. Qed.
Lemma fine_go {A} layout (a : A) : fine layout (go a).
Proof. done. Qed.
Lemma fine_leave {A} c : fine (A := A) None (leave c).
Proof. by left. Qed.
Lemma fine_each {A B} layout (f : A -> B -> flow A) l :
  forall a, (forall a b, fine layout (f a b)) -> fine layout (each f a l).
Proof. induction l as [|b l IH]; intros a Hf; cbn [each]; [done|]. apply fine_and_then; [done|]. auto. Qed.

#[local] Hint Resolve fine_go fine_leave : commits.
#[local] Ltac flows :=
  repeat first [ progress intros | solve [eauto with commits] | apply fine_and_then | apply fine_lift | apply fine_each
               | apply returns_bind | case_match ].

Lemma live_handles_fine layout c : fine layout (live_handles config c).
Proof. unfold live_handles. pose proof (fun p => snapshot_or_empty_returns (W := W) config Hconf p). flows. Qed.

Lemma assign_fine o layout live c cmd : fine o (assign_handles config layout live c cmd).
Proof. unfold assign_handles. flows. Qed.
Lemma rotate_fine o layout live c old cmd : fine o (rotate_handles config layout live c old cmd).
Proof. unfold rotate_handles. flows. Qed.
#[local] Hint Resolve live_handles_fine assign_fine rotate_fine : commits.

Lemma remove_fine layout c h : fine layout (remove_circuit config c h).
Proof. unfold remove_circuit, removal_commands, release_handles. flows. Qed.

Lemma replace_speed_fine layout c immediate old cmd : fine layout (replace_speed config c immediate old cmd).
Proof. unfold replace_speed, speed_commands. flows. Qed.
#[local] Hint Resolve replace_speed_fine : commits.

Lemma speed_fine layout changed c : fine layout (speed_step config layout changed c).
Proof. unfold speed_step, speed_live. flows. Qed.

Lemma observe_total c interface : returns interface -> returns (observe_classes class_error_text c interface).
Proof. intros Hi. unfold observe_classes. apply returns_bind; [done|]. intros i _. destruct (read_live_class_snapshot _ _ _ _). apply returns_ok. Qed.
#[local] Hint Resolve observe_total : commits.

Lemma observed_direction_total snapshot protected class interface with_qdisc classid parent minor :
  returns interface -> returns (observed_direction snapshot protected class interface with_qdisc classid parent minor).
Proof. intros Hi. unfold observed_direction. commits. Qed.
#[local] Hint Resolve observed_direction_total : commits.

Lemma move_commands_total down up pd pu p : returns (move_commands config down up pd pu p).
Proof. unfold move_commands, observed_circuit_prune_commands. commits. Qed.

Lemma move_one_fine layout down up pd pu acc p :
  fine (Some layout) (move_one class_order class_error_text config raw_batch layout down up pd pu acc p).
Proof.
  destruct acc as [[c immediate] updates]. unfold move_one. destruct (queue_migration _ _ _) as [[] c1]; [done|]. case_bool_decide.
  - match goal with |- context [reload_commit _ _ _ _ _ ?summary ?c] => destruct (reload_commit_total raw_batch (Some layout) summary c) as [c2 Hc] end.
    rewrite Hc. right. by do 2 eexists.
  - pose proof (move_commands_total down up pd pu p). flows.
Qed.
#[local] Hint Resolve move_one_fine : commits.

Lemma migration_fine layout migrated c :
  fine layout (migration_step_of_commit class_order class_error_text config raw_batch layout migrated c).
Proof. unfold migration_step_of_commit, prepare_one. flows. Qed.

Lemma addition_commands_total additions : returns (addition_commands config additions).
Proof. induction additions; cbn [addition_commands]; commits. Qed.
#[local] Hint Resolve addition_commands_total : commits.

Lemma addition_fine layout limit added c : fine layout (addition_step config layout limit added c).
Proof. unfold addition_step, enrich_one. flows. Qed.

Lemma ip_fine layout changed c : fine layout (ip_step config layout changed c).
Proof. unfold ip_step, readdress_one. flows. Qed.
#[local] Hint Resolve remove_fine speed_fine migration_fine addition_fine ip_fine : commits.

Lemma circuit_steps_fine layout limit categories c :
  fine layout (circuit_steps class_order class_error_text config raw_batch layout limit categories c).
Proof. unfold circuit_steps. flows. Qed.
End Total.

(** ** The limit on mapped circuits *)

(** How many of these commands are mapped circuits. *)
Definition mapped_among (l : list BakeryCommands) : nat := length (List.filter is_mapped_add_circuit l).

Lemma mapped_among_perm l l' : l ≡ₚ l' -> mapped_among l = mapped_among l'.
Proof.
  unfold mapped_among. induction 1 as [|x l l' _ IH|x y l|l1 l2 l3 _ IH1 _ IH2]; cbn; [done| | |congruence].
  - destruct (is_mapped_add_circuit x); cbn; congruence.
  - by destruct (is_mapped_add_circuit x), (is_mapped_add_circuit y).
Qed.

Lemma mapped_among_cons x l : mapped_among (x :: l) = ((if is_mapped_add_circuit x then 1 else 0) + mapped_among l)%nat.
Proof. unfold mapped_among. cbn. by destruct (is_mapped_add_circuit x). Qed.

Lemma mapped_among_app l l' : mapped_among (l ++ l') = (mapped_among l + mapped_among l')%nat.
Proof. unfold mapped_among. by rewrite List.filter_app, length_app. Qed.

Lemma count_mapped_insert h x (m : gmap Z BakeryCommands) :
  m !! h = None -> count_mapped (<[h := x]> m) = ((if is_mapped_add_circuit x then 1 else 0) + count_mapped m)%nat.
Proof.
  intros Hm. unfold count_mapped. fold (mapped_among (map snd (map_to_list (<[h := x]> m)))).
  rewrite (mapped_among_perm _ (x :: map snd (map_to_list m))); [apply mapped_among_cons|].
  by rewrite map_to_list_insert by done.
Qed.

(** Additions are dropped only once the limit is reached. *)
Lemma accept_spec limit added : forall accepted mapped,
  let '(accepted', mapped') := fold_left (accept_addition limit) added (accepted, mapped) in
  exists more, accepted' = accepted ++ more /\ sublist more added /\ mapped' = (mapped + mapped_among more)%nat
    /\ forall cmd, cmd ∈ added -> cmd ∈ more \/ (is_mapped_add_circuit cmd = true /\ exists n, limit = Some n /\ (n <= mapped')%nat).
Proof.
  induction added as [|x added IH]; intros accepted mapped; cbn [fold_left].
  - exists []. rewrite app_nil_r. cbn. split_and!; [done|constructor|lia|by intros cmd ?%elem_of_nil].
  - assert (accept_addition limit (accepted, mapped) x = (accepted ++ [x], ((if is_mapped_add_circuit x then 1 else 0) + mapped)%nat)
      \/ (accept_addition limit (accepted, mapped) x = (accepted, mapped) /\ is_mapped_add_circuit x = true
          /\ exists n, limit = Some n /\ (n <= mapped)%nat)) as Hx.
    { unfold accept_addition. destruct (is_mapped_add_circuit x); [|by left]. destruct limit as [n|]; [|by left].
      destruct (Nat.leb_spec n mapped); [right; eauto|by left]. }
    destruct Hx as [Hx|(Hx & Hmx & n & Hlim & Hn)]; rewrite Hx.
    + specialize (IH (accepted ++ [x]) ((if is_mapped_add_circuit x then 1 else 0) + mapped)%nat).
      destruct (fold_left _ _ _) as [accepted' mapped']. destruct IH as (more & -> & Hsub & Hcount & Hall).
      exists (x :: more). rewrite <- app_assoc, mapped_among_cons. split_and!; [done|by constructor|lia|].
      intros cmd [->|Hcmd]%elem_of_cons; [left; left|]. destruct (Hall cmd Hcmd); [left; by right|by right].
    + specialize (IH accepted mapped). destruct (fold_left _ _ _) as [accepted' mapped'].
      destruct IH as (more & -> & Hsub & Hcount & Hall). exists more. split_and!; [done|by constructor|done|].
      intros cmd [->|Hcmd]%elem_of_cons; [right; split; [done|]; exists n; split; [done|lia]|by apply Hall].
Qed.

Section Limit.
  Context {W : Type} `{TcHost W} `{TcShow W} `{ReloadHost W} `{FaultHost W}.
  Implicit Types c : CommitState (W := W).

(** Inserting new circuits adds the mapped ones among them to the count. *)
Lemma count_inserted l : forall c,
  NoDup (map circuit_key l) -> (forall cmd, cmd ∈ l -> exists h, circuit_key cmd = Some h /\ cm_circuits c !! h = None) ->
  count_mapped (cm_circuits (fold_left insert_circuit l c)) = (count_mapped (cm_circuits c) + mapped_among l)%nat.
Proof.
  induction l as [|cmd l IH]; intros c Hnd Hfresh; cbn [fold_left]; [unfold mapped_among; cbn; lia|].
  cbn [map] in Hnd. apply NoDup_cons in Hnd as [Hnot Hnd].
  destruct (Hfresh cmd ltac:(left)) as (h & Hk & Hnone). destruct (circuit_key_inv _ _ Hk) as (a & -> & Ha).
  assert (cm_circuits (insert_circuit c (AddCircuit a)) = <[h := AddCircuit a]> (cm_circuits c)) as Hins by (by rewrite <- Ha).
  rewrite IH; [|done|].
  - rewrite Hins, count_mapped_insert, mapped_among_cons by done. lia.
  - intros cmd' Hcmd'. destruct (Hfresh cmd' ltac:(by right)) as (h' & Hk' & Hnone'). exists h'. split; [done|].
    rewrite Hins, lookup_insert_ne; [done|]. intros ->. apply Hnot. rewrite Hk, <- Hk'. by apply list_elem_of_fmap_2.
Qed.

(** Removals remove what they name. *)
Lemma remove_circuit_spec config c h c' :
  remove_circuit config c h = go c' ->
  cm_circuits c' = delete h (cm_circuits c) /\ cm_migrations c' = cm_migrations c.
Proof.
  unfold remove_circuit. destruct (cm_circuits c !! h) as [circuit|] eqn:Hc.
  2:{ intros <-%go_inj. split; [|done]. by rewrite delete_id. }
  intros Hr. apply and_then_go in Hr as (commands & _ & Hr).
  apply and_then_go in Hr as (handles & _ & <-%go_inj). destruct commands as [cmd|]; [|done].
  destruct (commit_change _ cmd _) as [r c1] eqn:Hch. apply commit_change_spec in Hch as [Hcore _]. injection Hcore as Hc1 Hc2.
  split; [exact Hc1|exact Hc2].
Qed.

Lemma removals_spec config l c c' :
  each (remove_circuit config) c l = go c' ->
  cm_migrations c' = cm_migrations c
  /\ (forall h, h ∈ l -> cm_circuits c' !! h = None) /\ (forall h, h ∉ l -> cm_circuits c' !! h = cm_circuits c !! h).
Proof.
  intros He. split_and!.
  - refine (each_keeps (fun b => cm_migrations b = cm_migrations c) _ _ _ _ (reflexivity _) _ He).
    intros x b b' _ Hb [_ Hm]%remove_circuit_spec. congruence.
  - intros h Hh. refine (each_reaches (fun _ => True) (fun b => cm_circuits b !! h = None) _ h _ _ _ I Hh _ _ He).
    + intros y b b' _ _ [Hc _]%remove_circuit_spec. split; [done|]. rewrite Hc, lookup_delete_None. auto.
    + intros b b' _ [-> _]%remove_circuit_spec. apply lookup_delete_eq.
  - intros h Hh. refine (each_keeps (fun b => cm_circuits b !! h = cm_circuits c !! h) _ _ _ _ (reflexivity _) _ He).
    intros x b b' Hx Hb [Hc _]%remove_circuit_spec. rewrite Hc, lookup_delete_ne; [done|]. by intros ->.
Qed.
End Limit.

(** ** The commit follows the batch *)

Lemma batch_circuits_keys batch h cmd : batch_circuits batch !! h = Some cmd -> circuit_key cmd = Some h.
Proof.
  unfold batch_circuits, insert_all. induction batch as [|x batch IH] using rev_ind; [cbn; by rewrite lookup_empty|].
  rewrite fold_left_app. cbn. destruct (circuit_key x) as [k|] eqn:Hk; [|done].
  rewrite lookup_insert. case_decide as Heq; [|done]. intros Hx. injection Hx as <-. by rewrite Hk, Heq.
Qed.

Section Follows.
  Context {W : Type} `{TcHost W} `{TcShow W} `{ReloadHost W} `{FaultHost W}.
  Variable class_order : class_snapshot -> list LiveTcClassEntry.
  Variable class_error_text : rstring -> ClassLineError -> rstring.
  Context (config : Config) (raw_batch batch : list BakeryCommands) (layout : option MqDeviceLayout) (limit : option nat).
  Context (c : CommitState (W := W)) (new_order old_order : list (Z * BakeryCommands)) (cats : CircuitDiffCategories).

  Abbreviation wanted := (batch_circuits batch).
  Abbreviation targets := (circuits_with_pending_migration_targets (cm_circuits c) (cm_migrations c)).

(** The limit was reached by the circuits recorded before addresses were changed. *)
Definition over_limit (c' : CommitState (W := W)) (cmd : BakeryCommands) : Prop :=
  is_mapped_add_circuit cmd = true
  /\ exists n before, limit = Some n /\ (n <= count_mapped (cm_circuits before))%nat
     /\ ip_step config layout (ip_changed cats) before = go c'.

(** What becomes of the circuit with this hash. *)
Definition follows (c' : CommitState (W := W)) (h : Z) : Prop :=
  match wanted !! h with
  | None => cm_circuits c' !! h = None /\ cm_migrations c' !! h = cm_migrations c !! h
  | Some cmd =>
      match targets !! h with
      | None => recorded c' h cmd \/ (cm_circuits c' !! h = None /\ over_limit c' cmd)
      | Some o =>
          match classify_circuit_change o cmd with
          | Change_None => same_at h c c'
          | Change_Speed => settled c' h cmd
          | Change_Ip => recorded c' h cmd /\ cm_migrations c' !! h = cm_migrations c !! h
          | Change_SpeedAndIp => recorded c' h cmd
          | Change_Migration =>
              migrating c' h cmd \/ moved config c' h cmd
              \/ (same_at h c c' /\ (cm_circuits c !! h = None \/ moves_failed c'))
          end
      end
  end.

(** What becomes of it when a commit without a layout stops at the first change that needs one. *)
Definition abandoned (c' : CommitState (W := W)) (h : Z) : Prop :=
  match wanted !! h with
  | None => cm_circuits c' !! h = None /\ cm_migrations c' !! h = cm_migrations c !! h
  | Some cmd => same_at h c c' \/ settled c' h cmd
  end.

  Hypothesis Hnew : new_order ≡ₚ map_to_list wanted.
  Hypothesis Hold : old_order ≡ₚ map_to_list targets.
  Hypothesis Hdiff : diff_circuits batch targets new_order old_order = Categorized cats.

Lemma categories_exact : diff_is_exact batch targets (Categorized cats).
Proof. rewrite <- Hdiff. by apply circuit_diff_lists. Qed.

(** A command of the list [l] for a circuit is the wanted one, and satisfies [Q]. *)
Definition selects (l : list BakeryCommands) (Q : Z -> BakeryCommands -> Prop) : Prop :=
  forall cmd, cmd ∈ l <-> exists h, wanted !! h = Some cmd /\ Q h cmd.

Lemma selects_drawn l Q : selects l Q -> Forall (drawn wanted) l.
Proof.
  intros Hl. apply Forall_forall. intros cmd (h & Hw & _)%Hl. exists h, cmd. split; [by eapply batch_circuits_keys|done].
Qed.

Lemma selects_untouched l Q h cmd :
  selects l Q -> (forall x, wanted !! h = Some x -> ~ Q h x) -> cmd ∈ l -> circuit_key cmd <> Some h.
Proof.
  intros Hl Hno (k & Hw & HQ)%Hl Hk. pose proof (batch_circuits_keys _ _ _ Hw). assert (k = h) as -> by congruence. by apply (Hno cmd).
Qed.

Definition changes (p : CircuitChange -> bool) (h : Z) (cmd : BakeryCommands) : Prop :=
  exists o, targets !! h = Some o /\ p (classify_circuit_change o cmd) = true.
Definition is_fresh (h : Z) (_ : BakeryCommands) : Prop := targets !! h = None.

Lemma changed_selects l p : (forall cmd, cmd ∈ l <-> changed batch targets p cmd) -> selects l (changes p).
Proof. intros Hl cmd. rewrite Hl. unfold changed, changes. naive_solver. Qed.

Lemma selected_lists :
  selects (newly_added cats) is_fresh /\ selects (migrated cats) (changes migration_change)
  /\ selects (speed_changed cats) (changes speed_change) /\ selects (ip_changed cats) (changes ip_change).
Proof.
  destruct categories_exact as (Hf & _ & Hm & Hs & Hi & _). split_and!; [|by apply changed_selects..].
  intros cmd. rewrite Hf. done.
Qed.

Lemma added_distinct : NoDup (map circuit_key (newly_added cats)).
Proof.
  assert (newly_added cats = map snd (List.filter (fun e => negb (bool_decide (is_Some (targets !! e.1)))) new_order)) as ->.
  { revert Hdiff. unfold diff_circuits. destruct (fold_left _ _ _) as [[s i] m]. destruct (_ && _); [done|].
    intros Heq. by injection Heq as <-. }
  rewrite map_map.
  assert (forall l, (forall e, e ∈ l -> e ∈ new_order) -> map (fun e => circuit_key e.2) l = map Some (map fst l)) as Heq.
  { intros l Hl. rewrite map_map. apply map_ext_in. intros [h cmd] Hin%list_elem_of_In%Hl. cbn.
    rewrite Hnew, elem_of_map_to_list in Hin. by apply batch_circuits_keys in Hin. }
  rewrite Heq; [|by intros e [Hin _]%list_elem_of_In%filter_In; apply list_elem_of_In].
  apply (NoDup_fmap_2 Some).
  assert (NoDup (map fst new_order)) as Hnd by (rewrite Hnew; apply NoDup_fst_map_to_list).
  clear -Hnd. induction new_order as [|e l IH]; cbn in *; [done|]. apply NoDup_cons in Hnd as [Hnot Hnd].
  destruct (negb _); [|by apply IH]. cbn. apply NoDup_cons. split; [|by apply IH]. intros (x & Hx & Hin)%list_elem_of_fmap.
  apply Hnot. rewrite Hx. apply list_elem_of_fmap_2. apply list_elem_of_In in Hin. apply filter_In in Hin as [Hin _]. by apply list_elem_of_In.
Qed.

(** The additions: each is recorded, or dropped with the limit reached. *)
Lemma addition_outcome before c' :
  (forall h, targets !! h = None -> cm_circuits before !! h = None) ->
  addition_step config layout limit (newly_added cats) before = go c' ->
  (forall h, (forall cmd, cmd ∈ newly_added cats -> circuit_key cmd <> Some h) -> same_at h before c')
  /\ (reload_asked before -> reload_asked c')
  /\ forall h cmd, cmd ∈ newly_added cats -> circuit_key cmd = Some h ->
       recorded c' h cmd
       \/ (same_at h before c' /\ is_mapped_add_circuit cmd = true
           /\ exists n, limit = Some n /\ (n <= count_mapped (cm_circuits c'))%nat).
Proof.
  intros Hfresh Hadd. destruct selected_lists as (Hadded & _).
  pose proof (accept_spec limit (newly_added cats) [] (count_mapped (cm_circuits before))) as Hacc.
  destruct (fold_left _ _ _) as [accepted mapped'] eqn:Hfold. destruct Hacc as (more & Hmore & Hsub & Hcount & Hall).
  cbn [app] in Hmore. subst more.
  assert (accepted_additions limit (newly_added cats) before = accepted) as Heq by (unfold accepted_additions; by rewrite Hfold).
  pose proof (selects_drawn _ _ Hadded) as Hdrawn. pose proof added_distinct as Hdistinct.
  assert (forall x, x ∈ accepted -> x ∈ newly_added cats) as Hin by (intros x Hx; eapply elem_of_submseteq; [exact Hx|by apply sublist_submseteq]).
  destruct (addition_step_spec wanted config layout limit (newly_added cats) before c') as ((Hs & HP & R) & c1 & enriched & Hcore & Hc' & HF);
    [rewrite Heq; rewrite Forall_forall in *; auto|done|]. rewrite Heq in *.
  split_and!; [intros h Hh; apply Hs; auto|done|]. intros h cmd Hcmd Hk.
  destruct (decide (Some h ∈ map circuit_key accepted)) as [(x & Hx & Hxin)%list_elem_of_fmap|Hnot].
  { left. destruct (proj1 (Hadded cmd) Hcmd) as (k & Hwk & _), (proj1 (Hadded x) (Hin x Hxin)) as (k' & Hwk' & _).
    pose proof (batch_circuits_keys _ _ _ Hwk). pose proof (batch_circuits_keys _ _ _ Hwk'). assert (x = cmd) as -> by congruence.
    by apply HP. }
  right. destruct (Hall cmd Hcmd) as [Ha|(Hm & n & Hlim & Hn)]; [destruct Hnot; rewrite <- Hk; by apply list_elem_of_fmap_2|].
  split_and!; [|done|].
  - apply Hs. intros x Hx Hxk. apply Hnot. rewrite <- Hxk. by apply list_elem_of_fmap_2.
  - exists n. split; [done|]. injection Hcore as Hcc _.
    assert (map circuit_key enriched = map circuit_key accepted /\ mapped_among enriched = mapped_among accepted) as [Hkeys Hamong].
    { clear -HF. induction HF as [|a b l l' Hp _ [IH1 IH2]]; [done|]. cbn [map]. rewrite !mapped_among_cons, IH1, IH2.
      by rewrite (plain_key _ _ Hp), (plain_mapped _ _ Hp). }
    rewrite Hc', count_inserted, Hcc, Hamong; [lia|..].
    + rewrite Hkeys. eapply sublist_NoDup; [exact Hdistinct|]. by apply (fmap_sublist circuit_key).
    + intros x Hx. destruct (Forall2_right _ _ _ _ HF Hx) as (y & Hy & Hp).
      destruct (proj1 (Hadded y) (Hin y Hy)) as (k & Hwk & Hfr). exists k. rewrite (plain_key _ _ Hp), Hcc.
      split; [by eapply batch_circuits_keys|by apply Hfresh].
Qed.

Lemma targets_none h : targets !! h = None -> cm_circuits c !! h = None.
Proof. unfold circuits_with_pending_migration_targets. by intros [_ Hc]%lookup_union_None. Qed.

(** A circuit that the removals, the speeds and the moves do not name is as before. *)
Lemma quiet_changes l p h :
  selects l (changes p) -> (forall o x, targets !! h = Some o -> wanted !! h = Some x -> p (classify_circuit_change o x) = false) ->
  forall cmd, cmd ∈ l -> circuit_key cmd <> Some h.
Proof.
  intros Hl Hp cmd. apply (selects_untouched _ _ _ _ Hl). intros x Hx (o & Ho & Hc). by rewrite (Hp o x) in Hc.
Qed.
Lemma quiet_fresh l h : selects l is_fresh -> is_Some (targets !! h) \/ wanted !! h = None -> forall cmd, cmd ∈ l -> circuit_key cmd <> Some h.
Proof.
  intros Hl Ht cmd. apply (selects_untouched _ _ _ _ Hl). unfold is_fresh. intros x Hx Hn. destruct Ht as [[o Ho]|Hw]; congruence.
Qed.

(** What the five steps did, with the states between them. *)
Record went_through (c1 c2 c3 c4 c' : CommitState (W := W)) : Prop := {
  pass_migrations : cm_migrations c1 = cm_migrations c;
  pass_removed h : h ∈ removed_circuits cats -> cm_circuits c1 !! h = None;
  pass_kept h : h ∉ removed_circuits cats -> cm_circuits c1 !! h = cm_circuits c !! h;
  pass_speed : settles settled (speed_changed cats) c1 c2;
  pass_unmoved h : (forall cmd, cmd ∈ migrated cats -> circuit_key cmd <> Some h) -> same_at h c2 c3;
  pass_moved h cmd : cmd ∈ migrated cats -> circuit_key cmd = Some h ->
    migrating c3 h cmd \/ moved config c3 h cmd \/ (same_at h c2 c3 /\ (cm_circuits c2 !! h = None \/ moves_failed c3));
  pass_addition : addition_step config layout limit (newly_added cats) c3 = go c4;
  pass_ip_step : ip_step config layout (ip_changed cats) c4 = go c';
  pass_ip : settles recorded (ip_changed cats) c4 c'
}.

Lemma steps_passed c' :
  circuit_steps class_order class_error_text config raw_batch layout limit cats c = go c' ->
  exists c1 c2 c3 c4, went_through c1 c2 c3 c4 c'.
Proof.
  destruct selected_lists as (Hadded & Hmigr & Hspeed & Hip).
  unfold circuit_steps. intros Hr. apply and_then_go in Hr as (c1 & (Hmig1 & Hrem & Hkept)%removals_spec & Hr).
  apply and_then_go in Hr as (c2 & Hs%(speed_step_settles wanted) & Hr); [|by eapply selects_drawn].
  apply and_then_go in Hr as (c3 & (HmF & HmR & HmP)%(migration_step_settles wanted) & Hr); [|by eapply selects_drawn].
  apply and_then_go in Hr as (c4 & Hadd & Hstep). exists c1, c2, c3, c4. split; try done.
  apply (ip_step_settles wanted _ _ _ _ _ (selects_drawn _ _ Hip) Hstep).
Qed.

Lemma ip_step_migrations changed (a a' : CommitState (W := W)) :
  ip_step config layout changed a = go a' -> cm_migrations a' = cm_migrations a.
Proof.
  unfold ip_step. destruct (is_nil changed); [by intros <-%go_inj|]. destruct layout as [l|]; [|done].
  intros Hr. apply and_then_go in Hr as ([live a1] & [Hl _]%live_handles_aside & He). injection Hl as _ <-.
  refine (each_keeps (fun b => cm_migrations b = cm_migrations a1) _ _ _ _ (reflexivity _) _ He).
  intros x b b' _ Hb Hr. unfold readdress_one in Hr. apply and_then_go in Hr as ([cmd b1] & [[Hc _] _]%assign_handles_spec & <-%go_inj).
  injection Hc as _ Hc. rewrite <- Hb, <- Hc. by destruct cmd.
Qed.

Section Passed.
  Context (c1 c2 c3 c4 c' : CommitState (W := W)) (Hpass : went_through c1 c2 c3 c4 c').

Lemma unknown_after_removals h : targets !! h = None \/ wanted !! h = None -> cm_circuits c1 !! h = None.
Proof.
  intros Ht. destruct categories_exact as (_ & Hgone & _).
  destruct (decide (h ∈ removed_circuits cats)) as [Hr|Hr]; [by apply (pass_removed _ _ _ _ _ Hpass)|].
  rewrite (pass_kept _ _ _ _ _ Hpass) by done. destruct (targets !! h) as [o|] eqn:Hth; [|by apply targets_none].
  destruct Hr. apply Hgone. split; [by rewrite Hth|]. by destruct Ht.
Qed.

(** What is not re-rated or moved stays as it was until additions. *)
Lemma quiet_until_additions h :
  (forall o x, targets !! h = Some o -> wanted !! h = Some x -> speed_change (classify_circuit_change o x) = false) ->
  (forall o x, targets !! h = Some o -> wanted !! h = Some x -> migration_change (classify_circuit_change o x) = false) ->
  same_at h c1 c3.
Proof.
  intros Hs Hm. destruct selected_lists as (_ & Hmigr & Hspeed & _). transitivity c2.
  - apply (pass_speed _ _ _ _ _ Hpass). by eapply quiet_changes.
  - apply (pass_unmoved _ _ _ _ _ Hpass). by eapply quiet_changes.
Qed.

Lemma passed_addition :
  (forall h, (forall cmd, cmd ∈ newly_added cats -> circuit_key cmd <> Some h) -> same_at h c3 c4)
  /\ (reload_asked c3 -> reload_asked c4)
  /\ forall h cmd, cmd ∈ newly_added cats -> circuit_key cmd = Some h ->
       recorded c4 h cmd
       \/ (same_at h c3 c4 /\ is_mapped_add_circuit cmd = true
           /\ exists n, limit = Some n /\ (n <= count_mapped (cm_circuits c4))%nat).
Proof.
  apply addition_outcome; [|apply (pass_addition _ _ _ _ _ Hpass)]. intros h Ht.
  destruct (quiet_until_additions h) as [-> _]; [congruence..|]. by apply unknown_after_removals; left.
Qed.

(** After the moves only additions and addresses change a circuit. *)
Lemma quiet_after_moves h :
  is_Some (targets !! h) \/ wanted !! h = None ->
  (forall o x, targets !! h = Some o -> wanted !! h = Some x -> ip_change (classify_circuit_change o x) = false) ->
  same_at h c3 c'.
Proof.
  intros Ht Hi. destruct selected_lists as (Hadded & _ & _ & Hip). transitivity c4.
  - apply passed_addition. by eapply quiet_fresh.
  - apply (pass_ip _ _ _ _ _ Hpass). by eapply quiet_changes.
Qed.

Lemma absent_follows h : wanted !! h = None -> cm_circuits c' !! h = None.
Proof.
  intros Hw. destruct (quiet_after_moves h) as [-> _]; [by right|congruence|].
  destruct (quiet_until_additions h) as [-> _]; [congruence..|]. by apply unknown_after_removals; right.
Qed.

Lemma fresh_follows h cmd :
  wanted !! h = Some cmd -> targets !! h = None -> recorded c' h cmd \/ (cm_circuits c' !! h = None /\ over_limit c' cmd).
Proof.
  intros Hw Ht. destruct selected_lists as (Hadded & _ & _ & Hip). pose proof (batch_circuits_keys _ _ _ Hw) as Hk.
  assert (same_at h c4 c') as Hlast.
  { apply (pass_ip _ _ _ _ _ Hpass). eapply quiet_changes; [done|]. congruence. }
  destruct passed_addition as (_ & _ & Ha). destruct (Ha h cmd) as [Hr|([Hs _] & Hm & n & Hl & Hn)]; [by apply Hadded; exists h|done|..].
  - left. by eapply local_same.
  - right. split; [|split; [done|]; exists n, c4; split_and!; [done|done|apply (pass_ip_step _ _ _ _ _ Hpass)]].
    destruct Hlast as [-> _]. rewrite Hs. destruct (quiet_until_additions h) as [-> _]; [congruence..|].
    by apply unknown_after_removals; left.
Qed.

Lemma known_follows h cmd o :
  wanted !! h = Some cmd -> targets !! h = Some o ->
  match classify_circuit_change o cmd with
  | Change_None => same_at h c c'
  | Change_Speed => settled c' h cmd
  | Change_Ip | Change_SpeedAndIp => recorded c' h cmd
  | Change_Migration =>
      migrating c' h cmd \/ moved config c' h cmd
      \/ (same_at h c c' /\ (cm_circuits c !! h = None \/ moves_failed c'))
  end.
Proof.
  intros Hw Ht. destruct selected_lists as (_ & Hmigr & Hspeed & Hip). pose proof (batch_circuits_keys _ _ _ Hw) as Hk.
  assert (same_at h c c1) as H01.
  { split; [|by rewrite (pass_migrations _ _ _ _ _ Hpass)]. apply (pass_kept _ _ _ _ _ Hpass).
    destruct categories_exact as (_ & Hgone & _). rewrite Hgone. intros [_ Hn]. congruence. }
  assert (forall (p : CircuitChange -> bool) b, p (classify_circuit_change o cmd) = b ->
    forall o' x, targets !! h = Some o' -> wanted !! h = Some x -> p (classify_circuit_change o' x) = b) as Hcl.
  { intros p b Hp o' x Ho' Hx. assert (o' = o) as -> by congruence. by assert (x = cmd) as -> by congruence. }
  assert (forall l p, selects l (changes p) -> p (classify_circuit_change o cmd) = true -> cmd ∈ l) as Hmem.
  { intros l p Hl Hp. apply Hl. exists h. split; [done|]. by exists o. }
  assert (ip_change (classify_circuit_change o cmd) = true -> recorded c' h cmd) as Hrec.
  { intros Hp. apply (pass_ip _ _ _ _ _ Hpass); [by eapply Hmem|done]. }
  destruct (classify_circuit_change o cmd) eqn:Hclass; [| | |by apply Hrec..].
  - transitivity c1; [done|]. transitivity c3; [apply quiet_until_additions; by apply Hcl|].
    apply quiet_after_moves; [by left|by apply Hcl].
  - assert (same_at h c1 c2) as H12 by (apply (pass_speed _ _ _ _ _ Hpass); eapply quiet_changes; [done|by apply Hcl]).
    assert (same_at h c3 c') as H3' by (apply quiet_after_moves; [by left|by apply Hcl]).
    destruct (pass_moved _ _ _ _ _ Hpass h cmd) as [Hs|[Hs|[Hs Hwhy]]];
      [by eapply Hmem|done|left; by eapply local_same|right; left; by eapply local_same|].
    right; right. split; [by do 3 (etransitivity; [eassumption|])|]. destruct Hwhy as [Hn|[Hasked Hans]]; [left|right].
    + destruct H12 as [Heq _], H01 as [Heq' _]. congruence.
    + split; [|done]. apply (pass_ip _ _ _ _ _ Hpass), passed_addition, Hasked.
  - eapply local_same; [apply quiet_after_moves; [by left|by apply Hcl]|].
    eapply local_same; [apply (pass_unmoved _ _ _ _ _ Hpass); eapply quiet_changes; [done|by apply Hcl]|].
    apply (pass_speed _ _ _ _ _ Hpass); [by eapply Hmem|done].
Qed.

(** A removed or re-addressed circuit keeps the migration it had. *)
Lemma migration_stays h :
  (wanted !! h = None \/ exists cmd o, wanted !! h = Some cmd /\ targets !! h = Some o /\ classify_circuit_change o cmd = Change_Ip) ->
  cm_migrations c' !! h = cm_migrations c !! h.
Proof.
  intros Hh. assert (cm_migrations c' = cm_migrations c4) as -> by (eapply ip_step_migrations, pass_ip_step, Hpass).
  assert (forall (p : CircuitChange -> bool) o x, p Change_Ip = false -> targets !! h = Some o -> wanted !! h = Some x ->
    p (classify_circuit_change o x) = false) as Hcl.
  { intros p o x Hp Ho Hx. destruct Hh as [Hn|(cmd & o' & Hw & Ht & Hc)]; [congruence|].
    assert (o' = o) as -> by congruence. assert (cmd = x) as -> by congruence. by rewrite Hc. }
  rewrite <- (pass_migrations _ _ _ _ _ Hpass). transitivity (cm_migrations c3 !! h).
  - apply passed_addition. destruct selected_lists as (Hadded & _). eapply quiet_fresh; [done|].
    destruct Hh as [|(cmd & o & _ & Ht & _)]; [by right|left; by rewrite Ht].
  - apply quiet_until_additions; intros; by apply Hcl.
Qed.
End Passed.

(** A commit without a layout that stops. *)
Section Abandoned.
  Hypothesis Hlayout : layout = None.

Lemma removals_go (l : list Z) : forall a a' : CommitState (W := W), each (remove_circuit config) a l <> leave a'.
Proof.
  induction l as [|h l IH]; intros a a'; cbn [each]; [done|].
  unfold remove_circuit at 1. destruct (cm_circuits a !! h); [|apply IH].
  destruct (removal_commands _ _ _) as [commands|e]; cbn [lift and_then go]; [|done].
  destruct (release_handles _ _ _) as [handles|e]; cbn [lift and_then go]; [|done]. apply IH.
Qed.

Lemma speed_leaves changed (a a' : CommitState (W := W)) : speed_step config layout changed a = leave a' -> aside a a'.
Proof.
  unfold speed_step. destruct (is_nil changed) eqn:Hnil; [done|]. destruct (live_tree_mutation_blocker_for_config _ _); [done|].
  destruct changed as [|cmd changed]; [done|].
  destruct (live_handles config a) as [[a1|[live a1]]|e] eqn:Hl; cbn [and_then].
  - unfold live_handles in Hl. destruct (snapshot_live_qdisc_handle_majors_or_empty _ _) as [[? ?]|]; done.
  - apply live_handles_aside in Hl. cbn [each]. unfold speed_live at 1. rewrite Hlayout. cbn [and_then leave].
    by intros [= <-].
  - done.
Qed.

Lemma abandoned_steps c' :
  circuit_steps class_order class_error_text config raw_batch layout limit cats c = leave c' ->
  (speed_changed cats <> [] \/ migrated cats <> [] \/ newly_added cats <> [] \/ ip_changed cats <> [])
  /\ forall h, abandoned c' h.
Proof.
  unfold circuit_steps. destruct (each (remove_circuit config) c _) as [[c1|c1]|e] eqn:Hrem; cbn [and_then]; [..|done].
  { by apply removals_go in Hrem. }
  apply removals_spec in Hrem as (Hmig & Hgone & Hkept). intros Hr.
  assert (exists c2, (c2 = c1 \/ settles settled (speed_changed cats) c1 c2) /\ aside c2 c') as (c2 & Hc2 & Hc').
  { destruct (speed_step config layout (speed_changed cats) c1) as [[c2|c2]|e] eqn:Hs; cbn [and_then] in Hr; [..|done].
    - injection Hr as <-. exists c1. split; [by left|]. by eapply speed_leaves.
    - exists c2. split; [right; eapply (speed_step_settles wanted); [eapply selects_drawn, selected_lists|done]|].
      unfold migration_step_of_commit, addition_step, ip_step in Hr. rewrite Hlayout in Hr.
      repeat (case_match; cbn [and_then go leave] in Hr; try (by injection Hr as <-); try done). }
  split.
  { destruct (speed_changed cats) eqn:E1; [|by left]. destruct (migrated cats) eqn:E2; [|by right; left].
    destruct (newly_added cats) eqn:E3; [|by right; right; left]. destruct (ip_changed cats) eqn:E4; [done|by right; right; right]. }
  destruct Hc' as [Hcore' _]. intros h. unfold abandoned. destruct categories_exact as (_ & Hremoved & _).
  destruct (wanted !! h) as [cmd|] eqn:Hw.
  - assert (same_at h c c1) as H01.
    { split; [|by rewrite Hmig]. apply Hkept. rewrite Hremoved. intros [_ Hn]. congruence. }
    assert (same_at h c2 c') as H2' by (by apply core_same).
    destruct Hc2 as [->|(Hother & Hthis & _)]; [left; by etransitivity|].
    destruct selected_lists as (_ & _ & Hspeed & _).
    destruct (decide (Some h ∈ map circuit_key (speed_changed cats))) as [(x & Hx & Hin)%list_elem_of_fmap|Hnot].
    + right. eapply local_same; [exact H2'|]. destruct (proj1 (Hspeed x) Hin) as (k & Hwk & _).
      pose proof (batch_circuits_keys _ _ _ Hwk). assert (x = cmd) as -> by congruence. by apply Hthis.
    + left. etransitivity; [exact H01|]. etransitivity; [|exact H2']. apply Hother. intros x Hx Hk. apply Hnot. rewrite <- Hk.
      by apply list_elem_of_fmap_2.
  - injection Hcore' as Hcc Hmm. rewrite Hcc, Hmm.
    assert (cm_circuits c1 !! h = None) as Hnone.
    { destruct (decide (h ∈ removed_circuits cats)) as [Hr'|Hr']; [by apply Hgone|]. rewrite Hkept by done.
      destruct (targets !! h) as [o|] eqn:Hth; [|by apply targets_none]. destruct Hr'. apply Hremoved. split; [by exists o|done]. }
    destruct Hc2 as [->|(Hother & _)]; [by rewrite Hmig|]. destruct (Hother h) as [-> ->]; [|by rewrite Hmig].
    destruct selected_lists as (_ & _ & Hspeed & _). intros x. eapply selects_untouched; [done|]. congruence.
Qed.
End Abandoned.

End Follows.

(** ** Witnesses *)

Definition commit_state (circuits : gmap Z BakeryCommands) (migrations : gmap Z Migration) : CommitState (W := MigrationToy) :=
  mkCommit (mkBakeryState (mkTree ∅ circuits ∅ None QdiscHandleState_default) (mkBakeryFlags true true false true 1 1)
              (pend_telemetry migration_state)) migrations empty_cache migration_world.
Definition classes_listed (snapshot : class_snapshot) : list LiveTcClassEntry := map snd (map_to_list snapshot).
Definition commit_layout : MqDeviceLayout := mkMqDeviceLayout {[str "eth1" := {[1]}; str "eth0" := {[2]}]}.
Definition commit_example : list BakeryCommands := [migration_new 9; AddCircuit (reload_example_circuit 8 6)].
Definition commit_old : CommitState (W := MigrationToy) := commit_state {[7 := migration_old]} ∅.
Definition categories_of (r : CircuitDiffResult) : CircuitDiffCategories :=
  match r with Categorized cats => cats | Circuits_NoChange => mkCategories [] [] [] [] [] [] end.
Definition commit_targets (c : CommitState (W := MigrationToy)) : gmap Z BakeryCommands :=
  circuits_with_pending_migration_targets (cm_circuits c) (cm_migrations c).
Definition commit_diff (c : CommitState (W := MigrationToy)) (batch : list BakeryCommands) : CircuitDiffResult :=
  diff_circuits batch (commit_targets c) (map_to_list (batch_circuits batch)) (map_to_list (commit_targets c)).
Definition commit_run (limit : option nat) (c : CommitState (W := MigrationToy)) (batch : list BakeryCommands)
    : result Panic (CommitState (W := MigrationToy) + CommitState (W := MigrationToy)) :=
  circuit_steps classes_listed migration_error_text migration_config batch (Some commit_layout) limit
    (categories_of (commit_diff c batch)) c.
Definition went_on (r : result Panic (CommitState (W := MigrationToy) + CommitState (W := MigrationToy))) : bool :=
  match r with Ok (inr _) => true | _ => false end.


(** A removed circuit whose move pends comes back: the move ends by recording it again. *)
Definition removed_while_moving : CommitState (W := MigrationToy) := commit_state {[7 := migration_old]} (queued_migrations 9).
Definition circuit_7_after (steps : nat) : option (option Z * option Z) :=
  match commit_run None removed_while_moving [AddCircuit (reload_example_circuit 8 6)] with
  | Ok (inr c') =>
      m ← cm_migrations c' !! 7;
      let p := mkPending (cm_circuits c') ∅ (cm_cache c') (bs_telemetry (cm c')) (cm_world c') in
      Some (ac_class_minor <$> (cm_circuits c' !! 7 ≫= fun x => match x with AddCircuit a => Some a | _ => None end),
            class_after (course steps m p))
  | _ => None
  end.
Lemma removed_circuit_comes_back : circuit_7_after 14 = Some (None, Some 9).
Proof. by vm_compute. Qed.

(** New addresses given while a move pends are recorded, and lost when the move ends. *)
Definition with_addresses (ips : rstring) (cmd : BakeryCommands) : BakeryCommands :=
  match cmd with
  | AddCircuit c =>
      AddCircuit (mkAddCircuit (ac_circuit_hash c) (ac_circuit_name c) (ac_site_name c) (ac_parent_class_id c)
        (ac_up_parent_class_id c) (ac_class_minor c) (ac_download_min c) (ac_upload_min c) (ac_download_max c) (ac_upload_max c)
        (ac_class_major c) (ac_up_class_major c) (ac_down_qdisc_handle c) (ac_up_qdisc_handle c) ips (ac_sqm_override c))
  | _ => cmd
  end.
Definition addresses_of_7 (circuits : gmap Z BakeryCommands) : option rstring :=
  match circuits !! 7 with Some (AddCircuit c) => Some (ac_ip_addresses c) | _ => None end.
Definition addresses_after (steps : nat) : option (option rstring * option rstring) :=
  match commit_run None removed_while_moving [with_addresses (str "192.0.2.77") (migration_new 9)] with
  | Ok (inr c') =>
      m ← cm_migrations c' !! 7;
      let p := mkPending (cm_circuits c') ∅ (cm_cache c') (bs_telemetry (cm c')) (cm_world c') in
      Some (addresses_of_7 (cm_circuits c'),
            last (course steps m p).1 ≫= fun e => addresses_of_7 (pend_circuits (ev_to e)))
  | _ => None
  end.
Lemma new_addresses_are_lost : addresses_after 14 = Some (Some (str "192.0.2.77"), Some (str "192.0.2.1, 192.0.2.2")).
Proof. by vm_compute. Qed.
